(* ===== verification/_CoqProject ===== *)
-Q . S2P
Prelude.v
Text.v
Order.v
Float.v
Calendar.v
Rfc3339.v
ProcessIdentity.v
WriterLease.v
LeaseProtocol.v
Sqlite.v
QueueTypes.v
QueueFailures.v
QueueStore.v
QueueAdmin.v
QueueLifecycle.v
QueueSystem.v
QueueSafety.v
QueueClaims.v
QueueBudget.v
SqliteRetry.v
QueueRetry.v
QueueReports.v
QueueStats.v
EndpointPool.v
CoworkInbox.v
IngressSpool.v
IngressSpoolSafety.v
IngressSpoolSystem.v
CoopLease.v
ClaimShutdown.v
Chars.v
Chunk.v
Aaak.v
AaakCodec.v
Drawer.v
DrawerStore.v
DrawerSafety.v
Knowledge.v
KnowledgeSafety.v
KnowledgeSystem.v
Tunnels.v
CoworkBus.v
CoworkBusLogic.v
CoworkBusSafety.v
CoworkBusSystem.v
CoworkCapture.v
Admission.v
AdmissionLogic.v
AdmissionSafety.v
AdmissionSystem.v
AdmissionStory.v
KnowledgeCards.v
KnowledgeCardsSafety.v
KnowledgeCardsSystem.v
KnowledgeCardsStory.v
Utf8.v
FactCheck.v
FactCheckSafety.v
Ranking.v
Search.v
SearchSafety.v
SearchOutcome.v
SearchStory.v
Gating.v
WriteReserve.v
Palace.v
Ingest.v
IngestSafety.v
IngestStory.v
IngestAgain.v
RemoteCalls.v
Projects.v
Novelty.v
SessionReview.v
HookRecords.v
HookIngest.v
HookSafety.v
PalaceRuns.v
DaemonStart.v
DaemonSafety.v
