(* ===== verification/Prelude.v ===== *)
(** * Mempal: its queue and spool, its leases, its memories, its search and its cowork bus

    Mempal is a memory service for coding agents. Hooks, an MCP server, a REST
    API and a command line put work into one SQLite database; a daemon and its
    workers take it out again. Several processes share that database, each may
    die at any moment, and the system's promises (no accepted message is lost,
    none is finished twice, only one process at a time mutates content) rest on
    the mechanisms that this library models and proves correct.

    ** The parts and how they interact

    - The durable message queue ([PendingMessageStore], [src/src/core/queue.rs]
      and its [queue_*.rs] companions): rows of [pending_messages] are enqueued,
      claimed under a token by a worker, confirmed into
      [pending_message_completions], failed, retried with back-off, reclaimed when
      their worker stops sending heartbeats, requeued or archived by an operator.
    - The runtime writer lease ([src/src/core/db.rs], [db_writer_lease_*.rs]): one
      row per lease name with a generation that only grows. Content mutations and
      the queue's lifecycle operations check, inside their own transaction, that
      the lease they were started under is still the active one.
    - The evidence leases rest on: process-birth identities
      ([process_identity.rs]) decide whether a holder is dead, RFC 3339 texts
      ([src/src/cowork/peek.rs]) are stored and compared as strings to decide
      whether a lease has expired.
    - The retry loops ([sqlite_retry.rs], [queue.rs]) that turn SQLite's transient
      lock errors into bounded waiting.
    - The ingress spool ([src/src/ingress_spool.rs]): requests that cannot be
      enqueued at once are files, synced before the sender is answered, claimed by
      renaming and moved into the queue by whoever holds the lease.
    - The drawer table ([src/src/core/db.rs], [types.rs], [utils.rs]): the memories
      themselves, inserted, superseded, soft-deleted, purged, compacted and pinned,
      with triples and tunnels that refer to them.
    - Governed knowledge ([src/src/knowledge_gate.rs], [knowledge_lifecycle.rs],
      [knowledge_distill.rs], [knowledge_anchor.rs]): drawers with a tier and a
      status, distilled from evidence, promoted through a gate, demoted, published.
      Knowledge cards ([knowledge_card_lifecycle.rs], [knowledge_card_backfill.rs])
      are the same governance over three tables of their own: cards, links to the
      evidence drawers and an audit trail of events.
    - Search ([src/src/search], with [core/project.rs], [algo/ranking.rs]): the
      full-text and the vector index answer with identifiers, which are joined with
      the drawers, filtered by scope and metadata, fused, extended through shared
      rooms, ranked and perhaps reranked; without a usable embedder it is keywords
      only. The fact check ([src/src/factcheck]) holds a text against the triples.
    - The ingest pipeline ([src/src/ingest/mod.rs], [diary.rs], [lock.rs]): a file or a
      directory is cut into chunks, and each chunk is checked for a duplicate, passed
      through the gate ([ingest/gating.rs], [gating_fact_check.rs]), embedded and stored,
      every write under the writer lease and with the write reserve
      ([core/db_write_reserve.rs]) against a full disk. The daemon files what hooks
      capture ([src/src/daemon.rs], [daemon/admission.rs]): a record is admitted under the
      message that brought it, judged by the gate and the LLM, compared with what is
      known ([ingest/novelty.rs]), and stored, merged, dropped or deleted again. Reviews
      of sessions ([session_review.rs]) carry their links in the text; drawers belong to
      projects ([core/project.rs]); which models may be called over the network is a
      policy of its own ([core/remote_calls.rs]).
    - The admission of processes to a database ([src/src/core/db_admission.rs] and
      its companions): seats within limits on their number and their page cache,
      kept in files beside the database, each with a lease file that its process
      keeps locked while it lives.
    - The start of the daemon ([src/src/daemon_bootstrap.rs], [daemon_recovery.rs],
      [daemon/writer_lease.rs], [process_diagnostics.rs], [daemon_singleton.rs]): a
      budget of restarts kept in a file, the removal of stale processes that hold the
      database, the wait for the writer lease, its heartbeat, and the watchdog whose
      stalls are charged to the budget.
    - The text codecs: the chunker that cuts ingested text for the embedder
      ([src/src/ingest/chunk.rs]) and the AAAK shorthand ([src/src/aaak]).
    - Beside these: the scheduler of model endpoints ([src/src/endpoint_pool.rs])
      through which workers reach their models, and the inbox through which two
      agents of one project exchange messages ([src/src/cowork/inbox.rs]), and the
      bus for any number of agents ([src/src/cowork/bus.rs]): a registry, channels,
      sessions, inboxes and a log of events from which deliveries are recomputed.

    The queue calls the lease (its fence reads the lease table in the same
    transaction), the lease calls process identities and timestamps, both run
    under the SQLite discipline of [Sqlite]. The spool drains into the queue's
    fenced enqueue; the knowledge operations read and write the drawer table, the
    cards refer to it by foreign keys that the purge of the drawers respects, the
    pipeline and the daemon write it together with the vectors and the audit tables (one
    record [Palace.Palace]), with the fact check and the routing of the search on the
    way, and a hand-over of the bus is captured into it under the writer lease.

    ** Files

    Foundations
    - [Prelude]: machine integers with their saturating and wrapping operations,
      [Result] with the [?] operator as [let?], the stable sort.
    - [Text]: byte strings, trimming, character boundaries, the numerals of
      [format!] and their order as text.
    - [Order]: comparators, their lexicographic combination, and when a sort by
      them is sorted (the class [Comparator]).
    - [Chars]: texts as lists of characters: trimming, lines, splitting, decimals;
      [Utf8]: their bytes and back.
    - [Float]: binary64 and binary32 over [SpecFloat], [partial_cmp], and the order
      of the floats that are numbers.
    - [Sqlite]: the errors of [rusqlite], transactions (BEGIN IMMEDIATE, commit,
      rollback on drop), a statement on its own, [LIKE] and [CAST].

    Time and identity
    - [Calendar]: [days_to_ymd], [days_from_civil].
    - [Rfc3339]: [format_rfc3339], [parse_rfc3339], and SQLite's [strftime] text.
    - [ProcessIdentity]: [parse_start_ticks], [linux_process_identity],
      [daemon_owner_matches_process], [process_identity_liveness]. The files of
      [/proc] are the fields of a record [os].

    Leases
    - [WriterLease]: the two tables as [lease_db]; acquire under its three
      policies, renew, release, cleanup, restore, status, and the write fence
      [with_runtime_writer_lease_transaction].
    - [LeaseProtocol]: the operations as a transition system [lease_step], the
      abstract fencing lock [alock], and the refinement.
    - [Admission]: the operations of [db_admission*.rs] over the files beside the
      database, in a monad [adm] whose calls may fail, take time, meet what other
      processes do, or be the last of a process that dies; [AdmissionLogic]: its
      weakest preconditions, the laws of the state file's encoding
      ([AdmissionCodecLaws]); [AdmissionSafety]: what one operation does;
      [AdmissionSystem]: processes that take and give back seats and die
      ([mstep]), and the invariant [seated]; [AdmissionStory]: an instance of the
      interfaces and the runs that show them inhabited.
    - [CoopLease]: the [leases] table of [db.rs], statement by statement, with other
      agents between the statements.

    Queue
    - [QueueTypes]: rows, errors, configuration, message identities, back-off.
    - [QueueFailures]: reason codes, failure rows, filters, buckets.
    - [QueueStore]: enqueue in its eight forms, the three claims, confirm,
      complete, fail, release, heartbeat, reclaim, and the lease fence.
    - [QueueAdmin]: requeue, retry, archive, model-task recovery, status query.
    - [QueueLifecycle]: the abstract life of a message ([row_step], [life_step])
      and the row invariant [row_wf]; every operation is a sequence of its steps.
    - [QueueSystem]: [queue_step], one constructor per operation, with the commits
      of other connections between the statements of an operation as a rely.
    - [QueueSafety], [QueueClaims], [QueueBudget], [QueueReports], [QueueStats]:
      the theorems about runs, single operations, admission and reports
      ([QueueStats] also holds [compute_queue_stats] with its binary64 figures).
    - [SqliteRetry], [QueueRetry]: the retry loops over a monotonic clock (the
      classes [Clock] and [ClockLaws]), and the claims that run in them.
    - [ClaimShutdown]: [claim_next_by_kind_until_shutdown] as the interleavings of
      its caller, its claiming task, the shutdown flag and a cancellation.
    - [IngressSpool], [IngressSpoolSafety], [IngressSpoolSystem]: the spool over a
      file system with a durable and a volatile part, the invariants of a record,
      and the runs with drains, other processes and crashes.

    Memories
    - [Drawer]: the types of [types.rs], the encodings of the columns, the row of a
      drawer and back (the classes [StoreEnv] and [StoreLaws]).
    - [DrawerStore]: the operations of the table with its CHECK and foreign keys; the
      purge also with the tables of vectors and of the full-text index, the calls that may
      fail, and the transaction that a failing COMMIT leaves open.
    - [DrawerSafety]: what single operations guarantee.
    - [Knowledge]: the gate, the lifecycle, distillation and publication (the
      operating system is the class [PathEnv]); [KnowledgeSafety]: what they
      guarantee; [KnowledgeSystem]: all of them as one transition system, over the
      drawers that callers hand in ([given]).
    - [Tunnels]: explicit tunnels and the search along them.
    - [KnowledgeCards]: the tables of the cards, their statements, the gate, the
      lifecycle with and without the lease, the backfill; [KnowledgeCardsSafety]:
      the invariant [cards_wf], the audit trail, the transition of one card;
      [KnowledgeCardsSystem]: the theorems and runs; [KnowledgeCardsStory]: a
      concrete store.

    Finding and checking
    - [Ranking]: reciprocal rank fusion and the sorts of [algo/ranking.rs] (the class
      [RankedMemoryItem] is the trait).
    - [Search]: scopes, filters, routing, the two pipelines, the fallback and the
      reranker (the indexes, [exp] and the segmenter are the class [SearchEnv], with
      [SearchLaws]); [SearchSafety]: what every stage keeps ([governed], [wanted],
      [answer]) and the exact scan; [SearchOutcome]: whole searches; [SearchStory]: a
      concrete index.
    - [FactCheck]: [factcheck/*.rs], with the two-row table of [edit_distance] and its
      meaning in its Module [EditDistance]; [FactCheckSafety]: what a report says.

    Ingestion
    - [Gating]: candidates, the rules of the first tier, the prototype classifier and its
      loading, the decision of the fact check, the routing to the judge.
    - [WriteReserve]: the lock and the file of the reserve, the retry of a transaction.
    - [Palace]: the tables that ingestion writes, one access at a time (the class
      [PalaceEnv] has the answers of the system and what other processes do before each
      access), the writes under the lease, audits, vectors, replacement of a source.
    - [Ingest]: the pipeline in a monad [ing] (embedder, scrubber and configuration are
      the class [IngestEnv]); [IngestSafety]: the outcome of a write, and the rules by
      which an invariant of the tables passes through the pipeline; [IngestStory]: the
      lost lease, the gate, dry runs; [IngestAgain]: complete and repeated ingestions.
    - [RemoteCalls]: endpoints, effects, reports and guards.
    - [Projects]: identifiers and the two migrations.
    - [Novelty]: queries, verdict, merge and its audit.
    - [SessionReview]: reviews, metadata blocks, links (JSON and wide escapes are the
      class [ReviewEnv], with [ReviewLaws]).
    - [HookRecords]: the records of a hook; [HookIngest]: the ingestion of one in a monad
      [hook] (judge, payload files and judge queue are the class [HookEnv]);
      [HookSafety]: what becomes of a record.
    - [PalaceRuns]: concrete runs of all of these, alone and with others.

    The daemon
    - [DaemonStart]: Modules [Recovery] (the state machine of the budget, its file and the
      wait for it; system calls are the class [RecoveryFs]), [WriteStalls] (the observer
      and its watchdog), [WriterWait] (the wait for the lease, renewals, heartbeat; the
      class [LeaseHost]), [Holders] (argument lists, classification, plans, termination and
      the opening of the storage; the class [DbHolderProcessOps]). [DaemonSafety]: what
      they guarantee, over histories of the budget and over logs of signals.

    Texts
    - [Chunk]: the three chunkers and the natural break they look for.
    - [Aaak]: documents, printer, parser; [AaakCodec]: encoder and decoder (the
      segmenter is the class [CodecEnv]).

    Around the queue
    - [EndpointPool]: routing, cooldowns, fallback; the provider is the class
      [EndpointPoolStrategy].
    - [CoworkInbox]: tools, project identities, [push], [drain], [format_plain].
    - [CoworkBus]: every operation of the bus over a file map (the class [BusEnv]
      has the clock, tmux, JSON and which system calls fail); [CoworkBusLogic]: the
      rules to reason about them; [CoworkBusSafety]: the bus seen as registry,
      sessions, inboxes and log, and its small steps [micro];
      [CoworkBusSystem]: runs; [CoworkCapture]: the rendering of a hand-over and its
      capture as a drawer.

    ** How state and operations correspond to the code

    A SQLite table is a [gmap] from its primary key to a record of its columns.
    A method is a function from the tables to the tables and a [result]; a
    transaction that does not commit gives the tables back unchanged. Everything a
    method reads from outside is an argument: clock readings (one per reading, in
    the code's order), the process counter behind [next_id], what opening a
    connection, BEGIN and COMMIT return, the cached identity of the process. Where
    a method runs several statements outside one transaction, an argument [other]
    is what other connections commit in between, and the theorems about runs ask
    of it only that it is itself a run of the message lifecycle (the theorem on
    the ingest budget also that it keeps the budget). SQL row orders that the
    statement leaves open are the class [TableScan].

    Third-party code is a parameter: the hash BLAKE3 and the scrubber of
    sensitive text (class [QueueEnv]), JSON (classes [JsonText], [InboxJsonText]
    with the laws the code relies on in [JsonTextLaws], [InboxJsonLaws], and in
    [StoreEnv] with the digests of drawers), the Chinese segmenter, the embedder,
    git and the file system, the endpoint provider. Each set of laws has an instance in this library, on which
    the witnesses run.

    ** What the theorems show

    - Queue runs ([QueueSafety]): each operation refines the message lifecycle;
      the columns of every reachable row agree with its status; no message is
      lost; a finished message stays finished; a claim that was lost stays lost.
    - Queue operations ([QueueClaims], [QueueBudget]): claims take the least due
      message, respect live claims and find due work; completion, retry schedule
      and back-off; a worker without its lease changes nothing; enqueueing again
      is harmless; reclaiming is exact; ingest bytes stay within their budget.
    - Retries ([QueueRetry]): both loops return, within a number of attempts.
    - Reports ([QueueReports], [QueueStats]): truncation, buckets, archive,
      statistics.
    - Leases ([LeaseProtocol]): refinement of a fencing lock, fencing, exclusion,
      protection of live holders, atomic fenced writes.
    - Identity and time ([ProcessIdentity], [Rfc3339], [Calendar]): a reused pid is
      not the recorded daemon, death is declared only on evidence, stored texts
      order as instants, parse and print are inverse.
    - Spool ([IngressSpoolSystem]): an answered request survives every run and every
      crash until the queue has it; a drain that succeeds has delivered.
    - Cooperative leases ([CoopLease]): exclusion, what an acquire decides, status.
    - Shutdown ([ClaimShutdown]): a claim has one owner, none is made after a
      shutdown, nobody waits for ever.
    - Drawers ([DrawerSafety]): an inserted drawer reads back; identifiers are fresh
      and found again; purge and compaction are all or nothing (what a failing COMMIT
      of the purge leaves open included); a replaced drawer cannot be purged; pinned facts
      keep their budget.
    - Knowledge ([KnowledgeSafety], [KnowledgeSystem]): an enforced promotion meets
      its policy; the lifecycle changes one drawer; publication goes outward; in
      every reachable state no reference dangles, and active knowledge is governed unless
      it was handed in ungoverned.
    - Cards ([KnowledgeCardsSystem]): one policy with the drawers; an enforced
      promotion is backed by distinct evidence on file; a leased change of status
      is all or nothing; after any run the events lead to the status of each card
      and no link dangles; the backfill can be repeated.
    - Admission ([AdmissionLogic], [AdmissionSystem]): waiting for the lock ends;
      limits are never exceeded; a live seat is never taken away; a snapshot lists
      exactly the seats in use when none is being given back; a refusal tells the truth.
    - Tunnels ([Tunnels]): following finds exactly what is one or two hops away;
      a tunnel is created once, from either end.
    - Search ([SearchOutcome], [SearchSafety], [Ranking]): a search
      never panics and answers with distinct active drawers in scope that pass every
      filter; with the fallback a useless embedder fails no search that fits SQLite's limit
      on variables; a keyword search that is not cut short, without tunnels, is exact; the
      exact scan returns the nearest candidates, nearest first, whatever the order of the
      rows; fusion does not depend on hash order; the
      reranker permutes.
    - Fact check ([FactCheckSafety], [FactCheck.EditDistance]): a report lists the near names
      (one nearest each), the contradictions and the expired facts, each once, and nothing
      else; the two-row table
      computes the least number of edits.
    - Ingestion ([IngestStory], [IngestAgain]): after the lease is lost nothing more is
      written; what is stored passed the gate and the fact check of its own run; a dry run writes nothing; an ingestion
      that succeeds has stored every chunk, and the same one again changes nothing.
    - Gate and policy ([Gating], [RemoteCalls]): a text is rejected for a cause in the
      configuration; an endpoint that the policy blocks, or that cannot be read, is never
      called, and which hosts pass as local is spelled out (every IPv6 address does).
    - Write reserve ([WriteReserve]): a write on a full disk is made once or not at all,
      and the reserve is spent at most once.
    - Novelty ([Novelty]): a text is dropped or merged only for an active drawer of its
      scope that is as similar as configured, and passes when a query fails; a merge is made once.
    - Hooks ([HookSafety]): a record is accounted for, whatever failed on the way; the
      races in which it is not are in [PalaceRuns.HookRuns].
    - Projects, reviews ([Projects], [SessionReview]): the migration ends with every
      drawer assigned and every other table as it was; a review holds the last messages,
      and it and its links are read back.
    - The daemon's start ([DaemonSafety]): a cooldown follows exactly three faults in ten
      minutes without a recovery, on a clock that does not go back, refuses every start
      until a deadline that nothing moves, and is waited out once; a stall is reported exactly when messages wait and no write
      succeeds; the wait for the lease ends once the lease is free, or at once for a holder that
      refuses; only processes
      found stale, and found again just before, are signalled; a failed remediation is
      still charged. Runs show the restart without end, the fault charged three times
      and the wait past its announced end.
    - Texts ([Chunk], [Aaak], [AaakCodec]): chunking ends, loses no text and respects
      the limit; parsed documents are well formed, print and parse are inverse,
      encoded texts parse.
    - Pool and inbox ([EndpointPool], [CoworkInbox]): failover, the error of an
      exhausted pool; the inbox is a bounded FIFO shared by one project.
    - Bus ([CoworkBusSystem], [CoworkCapture]): every operation, also one that fails
      half way between two writes, is a sequence of well-guarded steps (a torn write is
      not: [torn_registry_stays]); deliveries only advance; a
      drain leaves nothing pending; a send reaches each target once; a capture
      reads the bus and writes under the lease or not at all.

    ** Fuel

    The claim loop sleeps 50 ms per round and stops after 2 s, so 41 attempts are
    enough ([claim_next_returns]); the content-mutation loop waits at least 25 ms
    per round and stops after 10 s, so 401 are ([content_mutation_returns]); both
    are proved for any clock that does not run backwards and any outcome of the
    attempts. [project_identity_loop] has the number of path components as fuel,
    [trim_start_with] the length of the text, the numerals their width: each is
    proved or evident from a measure that falls at every round. The loops of the
    chunker have the length of the text and one more ([chunking_covers]: never
    exhausted, with token counts of [usize] and the wrapping product of a release build); the suffixes of identifiers one try more than there are rows
    ([ingest_identity]); the search along tunnels one turn for the start and two
    per tunnel ([follow_exact]); the two loops that wait for the admission lock have
    126 rounds, for 250 ms in steps of 2 ms and one more ([lock_state_returns]); the
    lock of the write reserve 201, for 5 s in steps of 25 ms ([acquire_returns]), and the
    retry under it two attempts; the lock of the restart budget 126 ([acquire_lock_returns]),
    a lease renewal 101, for 5 s in steps of 50 ms ([renewal_returns]), the grace period of
    signalled processes 21, for 2 s in steps of 100 ms ([only_stale_signalled]); the wait
    for the writer lease has no bound of its own, and a round per 100 ms until the lease is
    free, and one more, is enough ([start_waits_for_lease]); the walk through a directory one turn per entry; the
    project migration one round per thousand drawers, one per busy answer and the last
    ([migration_completes]); decimals of 64-bit numbers 20 digits.

    ** Not modelled

    The command line, the MCP server and the REST API (request plumbing over the
    stores), the daemon's sockets, task scheduling and shutdown, the lock files of its
    singleton and the scan of [/proc] (what it reports is an input), its ingestion of
    Hermes conversations, reindexing, the rest of
    the async facade of the queue (it forwards to the methods modelled here on a
    blocking pool), schema migrations (tables are modelled as the last migration
    leaves them), the insides of the full-text and vector indexes, tiered search,
    previews and the write-back of accesses, embeddings, the LLM clients, the parsers of ingested formats and of session
    logs, the retrieval and crystallization of cards, wiki features, observability.
    The SQLite engine is not modelled below the level of statements and
    transactions; of its limits, the number of variables of a statement is, where a search
    reaches it ([SQLITE_MAX_VARIABLE_NUMBER]). In [AdmissionSystem] the names of lease files, digests of random
    tokens, are assumed distinct where a theorem says so ([distinct_names]).

    ** Further work, in order

    The importance sweep and decay of the drawer table; reindexing; tiered search and
    the write-back of accesses; the identity of database files in the scan of [/proc]; the queue of the judge. *)


From Stdlib Require Import ZArith Lia String Ascii.
From stdpp Require Import base tactics list gmap strings numbers sorting.

Open Scope Z_scope.

(** ** Machine integers *)
Definition i64_min : Z := - 2 ^ 63.
Definition i64_max : Z := 2 ^ 63 - 1.
Definition u64_max : Z := 2 ^ 64 - 1.
Definition u32_max : Z := 2 ^ 32 - 1.
Definition in_i64 (z : Z) : Prop := i64_min <= z <= i64_max.
Definition in_u64 (z : Z) : Prop := 0 <= z <= u64_max.
Definition in_u32 (z : Z) : Prop := 0 <= z <= u32_max.

(** Saturating arithmetic of [i64] and [u64]. *)
Definition sat_i64 (z : Z) : Z := Z.max i64_min (Z.min i64_max z).
Definition sat_u64 (z : Z) : Z := Z.max 0 (Z.min u64_max z).

(** The casts [x as u64], [x as i64], [x as u32]: reduction modulo the width. *)
Definition as_u64 (z : Z) : Z := z mod 2 ^ 64.
Definition as_u32 (z : Z) : Z := z mod 2 ^ 32.
Definition as_i64 (z : Z) : Z := (z + 2 ^ 63) mod 2 ^ 64 - 2 ^ 63.

(** [u32::try_from], [u64::try_from] on an [i64]. *)
Definition try_u32 (z : Z) : option Z :=
  if (0 <=? z) && (z <=? u32_max) then Some z else None.
Definition try_u64 (z : Z) : option Z :=
  if (0 <=? z) && (z <=? u64_max) then Some z else None.

Ltac unfold_widths :=
  unfold in_i64, in_u64, in_u32, sat_i64, sat_u64, as_u64, as_u32, as_i64,
    i64_min, i64_max, u64_max, u32_max in *.

Lemma sat_i64_id z : in_i64 z → sat_i64 z = z.
Proof. unfold_widths; lia. Qed.
Lemma sat_i64_range z : in_i64 (sat_i64 z).
Proof. unfold_widths; lia. Qed.
Lemma sat_i64_mono a b : a <= b → sat_i64 a <= sat_i64 b.
Proof. unfold_widths; lia. Qed.
Lemma sat_u64_id z : in_u64 z → sat_u64 z = z.
Proof. unfold_widths; lia. Qed.
Lemma sat_u64_range z : in_u64 (sat_u64 z).
Proof. unfold_widths; lia. Qed.
Lemma as_u64_id z : in_u64 z → as_u64 z = z.
Proof. intros H. unfold_widths. apply Z.mod_small. lia. Qed.
Lemma as_u32_id z : in_u32 z → as_u32 z = z.
Proof. intros H. unfold_widths. apply Z.mod_small. lia. Qed.
Lemma as_i64_id z : in_i64 z → as_i64 z = z.
Proof. intros H. unfold_widths. rewrite Z.mod_small; lia. Qed.
(** One case split decides the range test of a fallible conversion. *)
Ltac solve_try_from z top :=
  destruct (Z.leb_spec 0 z), (Z.leb_spec z top); unfold_widths; simpl;
  split; intros; destruct_and?; simplify_eq; try done; try lia; split; lia.

Lemma try_u32_Some z n : try_u32 z = Some n ↔ z = n ∧ in_u32 z.
Proof. unfold try_u32. solve_try_from z u32_max. Qed.
Lemma try_u32_None z : try_u32 z = None ↔ ¬ in_u32 z.
Proof. unfold try_u32. solve_try_from z u32_max. Qed.
Lemma try_u64_Some z n : try_u64 z = Some n ↔ z = n ∧ in_u64 z.
Proof. unfold try_u64. solve_try_from z u64_max. Qed.

(** Boolean comparisons of hypotheses as propositions. *)
Ltac zbool :=
  repeat match goal with
  | H : (_ <? _) = true |- _ => apply Z.ltb_lt in H
  | H : (_ <? _) = false |- _ => apply Z.ltb_ge in H
  | H : (_ <=? _) = true |- _ => apply Z.leb_le in H
  | H : (_ <=? _) = false |- _ => apply Z.leb_gt in H
  | H : (_ =? _) = true |- _ => apply Z.eqb_eq in H
  | H : (_ =? _) = false |- _ => apply Z.eqb_neq in H
  end.

(** ** Results

    [Result<T, E>] with the [?] operator as [let?]. *)
Inductive result (A E : Type) : Type :=
  | Ok (a : A)
  | Err (e : E).
Arguments Ok {A E} a.
Arguments Err {A E} e.

Declare Scope rust_scope.
Delimit Scope rust_scope with rust.
Notation "'let?' x ':=' e 'in' k" :=
  (match e with Ok x => k | Err err => Err err end)
  (at level 10, x pattern, e at level 200, k at level 200)
  : rust_scope.

Definition is_ok {A E} (r : result A E) : bool :=
  match r with Ok _ => true | Err _ => false end.

#[export] Instance result_eq_dec {A E} `{EqDecision A, EqDecision E} :
  EqDecision (result A E).
Proof. solve_decision. Defined.

(** ** Stable sorting

    [slice::sort_by] and [sort_by_key] are stable; insertion from the right is
    the stable sort used as their meaning. *)
Section sort_by.
Context {A : Type} (leb : A → A → bool).

Fixpoint insert_by (x : A) (l : list A) : list A :=
  match l with
  | [] => [x]
  | y :: ys => if leb x y then x :: y :: ys else y :: insert_by x ys
  end.

Fixpoint sort_by (l : list A) : list A :=
  match l with
  | [] => []
  | x :: xs => insert_by x (sort_by xs)
  end.

Lemma insert_by_perm x l : insert_by x l ≡ₚ x :: l.
Proof.
  induction l as [|y l IH]; simpl; [done|].
  destruct (leb x y); [done|]. rewrite IH. apply Permutation_swap.
Qed.

Lemma sort_by_perm l : sort_by l ≡ₚ l.
Proof. induction l as [|x l IH]; simpl; [done|]. by rewrite insert_by_perm, IH. Qed.

Lemma elem_of_sort_by x l : x ∈ sort_by l ↔ x ∈ l.
Proof. by rewrite sort_by_perm. Qed.

Lemma length_sort_by l : length (sort_by l) = length l.
Proof. by rewrite sort_by_perm. Qed.

Definition leb_rel (x y : A) : Prop := leb x y = true.

Context (leb_total : ∀ x y, leb x y = true ∨ leb y x = true).
Context (leb_trans : ∀ x y z, leb x y = true → leb y z = true → leb x z = true).

Lemma insert_by_sorted x l :
  StronglySorted leb_rel l → StronglySorted leb_rel (insert_by x l).
Proof.
  induction 1 as [|y l Hl IH Hy]; simpl.
  - repeat constructor.
  - destruct (leb x y) eqn:Hxy.
    + constructor; [by constructor|]. constructor; [done|].
      eapply Forall_impl; [exact Hy|]. intros z. by apply leb_trans.
    + constructor; [done|]. rewrite insert_by_perm. constructor; [|done].
      destruct (leb_total x y); [congruence|done].
Qed.

Lemma sort_by_sorted l : StronglySorted leb_rel (sort_by l).
Proof.
  induction l as [|x l IH]; simpl; [constructor|]. by apply insert_by_sorted.
Qed.

(** Stability: the elements of any class that the order identifies keep
    their relative order. *)
Lemma insert_by_filter (P : A → bool) x l :
  (∀ a b, P a = true → P b = true → leb a b = true) →
  filter P (insert_by x l) = filter P (x :: l).
Proof.
  intros HP. induction l as [|y l IH]; [done|]. simpl.
  destruct (leb x y) eqn:Hxy; [done|].
  rewrite !filter_cons. rewrite filter_cons in IH. rewrite IH.
  repeat case_decide; try done.
  exfalso. assert (leb x y = true); [apply HP; by apply Is_true_true|congruence].
Qed.

Lemma sort_by_stable (P : A → bool) l :
  (∀ a b, P a = true → P b = true → leb a b = true) →
  filter P (sort_by l) = filter P l.
Proof.
  intros HP. induction l as [|x l IH]; [done|]. simpl.
  rewrite insert_by_filter by done. rewrite !filter_cons. by rewrite IH.
Qed.
End sort_by.
