(* ===== verification/Text.v ===== *)
(** * Byte strings and numerals

    The string operations of Rust's standard library that the sources use
    (prefix, containment, ASCII case, Unicode trimming, character boundaries),
    the numerals of [format!], and their order: fixed-width numerals compare as
    the numbers they denote, which is what makes a formatted timestamp
    comparable as text. *)

From Stdlib Require Import ZArith Lia String Ascii.
From stdpp Require Import base tactics list gmap strings numbers.
From S2P Require Import Prelude.
Open Scope Z_scope.

(** ** Byte strings

    A Rust [String] or a SQLite [TEXT] value is its UTF-8 byte sequence, a
    [string] here: [String.length] is the byte length, and [String.compare] the
    bytewise order of [Ord for str] and of SQLite's BINARY collation. *)
Definition str_len (s : string) : Z := Z.of_nat (String.length s).

Definition byte_of (c : ascii) : Z := Z.of_N (N_of_ascii c).

(** A UTF-8 continuation byte, [0x80..=0xBF]. *)
Definition is_continuation (c : ascii) : bool :=
  (128 <=? byte_of c) && (byte_of c <=? 191).

(** [str::is_char_boundary]. *)
Definition is_char_boundary (s : string) (i : nat) : bool :=
  match i with
  | O => true
  | _ => match String.get i s with
         | Some c => negb (is_continuation c)
         | None => (i =? String.length s)%nat
         end
  end.

(** [str::starts_with] and [str::contains]. *)
Fixpoint contains (needle hay : string) : bool :=
  String.prefix needle hay ||
  match hay with
  | EmptyString => false
  | String _ rest => contains needle rest
  end.

Definition ascii_lower (c : ascii) : ascii :=
  let b := N_of_ascii c in
  if ((65 <=? b) && (b <=? 90))%N then ascii_of_N (b + 32) else c.

Fixpoint to_ascii_lowercase (s : string) : string :=
  match s with
  | EmptyString => EmptyString
  | String c rest => String (ascii_lower c) (to_ascii_lowercase rest)
  end.

Lemma length_to_ascii_lowercase s :
  String.length (to_ascii_lowercase s) = String.length s.
Proof. induction s; simpl; congruence. Qed.

(** The characters Rust's [char::is_whitespace] accepts, as UTF-8 bytes. *)
Definition bytes_str (l : list N) : string :=
  String.string_of_list_ascii (map ascii_of_N l).

Definition whitespace_chars : list string :=
  map bytes_str
    ([[9]; [10]; [11]; [12]; [13]; [32]; [194; 133]; [194; 160]; [225; 154; 128];
      [226; 128; 128]; [226; 128; 129]; [226; 128; 130]; [226; 128; 131];
      [226; 128; 132]; [226; 128; 133]; [226; 128; 134]; [226; 128; 135];
      [226; 128; 136]; [226; 128; 137]; [226; 128; 138]; [226; 128; 168];
      [226; 128; 169]; [226; 128; 175]; [226; 129; 159]; [227; 128; 128]])%N.

Fixpoint drop_bytes (n : nat) (s : string) : string :=
  match n, s with
  | S n', String _ rest => drop_bytes n' rest
  | _, _ => s
  end.

(** One pass drops the leading members of [ws]; every pass shortens the string,
    so its length bounds the number of passes. *)
Fixpoint trim_start_with (ws : list string) (fuel : nat) (s : string) : string :=
  match fuel with
  | O => s
  | S fuel' =>
      match List.find (fun w => String.prefix w s) ws with
      | Some w => trim_start_with ws fuel' (drop_bytes (String.length w) s)
      | None => s
      end
  end.

Definition trim_start (s : string) : string :=
  trim_start_with whitespace_chars (String.length s) s.
Definition trim_end (s : string) : string :=
  let r := String.rev s in
  String.rev (trim_start_with (map String.rev whitespace_chars) (String.length r) r).
Definition trim (s : string) : string := trim_end (trim_start s).

Definition is_empty (s : string) : bool :=
  match s with EmptyString => true | _ => false end.

(** [chars().count()] and [chars().take(n)] on the UTF-8 bytes. *)
Fixpoint char_count (s : string) : Z :=
  match s with
  | EmptyString => 0
  | String c rest => (if is_continuation c then 0 else 1) + char_count rest
  end.

Fixpoint take_chars (n : Z) (s : string) : string :=
  match s with
  | EmptyString => EmptyString
  | String c rest =>
      if is_continuation c then String c (take_chars n rest)
      else if (n <=? 0) then EmptyString
      else String c (take_chars (n - 1) rest)
  end.

(** ** Numerals

    [digits base w n] is the [w] low-order digits of [n]; [fmt base w n] is what
    [{:0w}] and [{:0wx}] print: at least [w] digits, more when [n] needs them. *)
Definition digit_char (d : Z) : ascii :=
  ascii_of_N (Z.to_N (if d <? 10 then 48 + d else 87 + d)).

Fixpoint digits (base : Z) (w : nat) (n : Z) : string :=
  match w with
  | O => EmptyString
  | S w' => digits base w' (n / base) +:+ String (digit_char (n mod base)) ""
  end.

Fixpoint numeral_width (base : Z) (fuel : nat) (n : Z) : nat :=
  match fuel with
  | O => 1
  | S fuel' => if n <? base then 1 else S (numeral_width base fuel' (n / base))
  end.

Definition fmt (base : Z) (w : nat) (n : Z) : string :=
  digits base (Nat.max w (numeral_width base (Z.to_nat (Z.log2 n)) n)) n.

(** [Display] of a non-negative integer. *)
Definition show (n : Z) : string := fmt 10 1 n.

Example fmt_year : fmt 10 4 1970 = "1970". Proof. reflexivity. Qed.
Example fmt_wide : fmt 10 2 123 = "123". Proof. reflexivity. Qed.
Example fmt_hex : fmt 16 8 48879 = "0000beef". Proof. reflexivity. Qed.
Example trim_ex : trim (bytes_str [32; 226; 128; 168; 97; 32; 98; 194; 160]%N) = "a b".
Proof. reflexivity. Qed.

(** ** Concatenation *)
Lemma str_app_cons c s t : String c s +:+ t = String c (s +:+ t).
Proof. done. Qed.
Lemma str_app_nil_l s : "" +:+ s = s.
Proof. done. Qed.

Create Rewrite HintDb text.
#[export] Hint Rewrite str_app_cons str_app_nil_l : text.

Lemma str_app_nil_r s : s +:+ "" = s.
Proof. induction s; autorewrite with text; congruence. Qed.

Lemma str_app_assoc s t u : (s +:+ t) +:+ u = s +:+ (t +:+ u).
Proof. induction s; autorewrite with text; congruence. Qed.

Lemma str_length_app s t :
  String.length (s +:+ t) = (String.length s + String.length t)%nat.
Proof. induction s; autorewrite with text; simpl; congruence. Qed.

#[export] Hint Rewrite str_length_app : text.

Lemma str_compare_refl s : String.compare s s = Eq.
Proof. induction s as [|c s IH]; [done|]. simpl. unfold Ascii.compare. by rewrite N.compare_refl. Qed.

(** Strings of equal length compare first by their prefixes. *)
Lemma str_compare_app s1 s2 t1 t2 :
  String.length s1 = String.length s2 →
  String.compare (s1 +:+ t1) (s2 +:+ t2) =
  match String.compare s1 s2 with Eq => String.compare t1 t2 | c => c end.
Proof.
  revert s2. induction s1 as [|c1 s1 IH]; intros [|c2 s2] Hlen; try done.
  autorewrite with text. simpl in *. destruct (Ascii.compare c1 c2); [|done..].
  apply IH. lia.
Qed.

Lemma str_app_inj s1 s2 t1 t2 :
  String.length s1 = String.length s2 →
  s1 +:+ t1 = s2 +:+ t2 → s1 = s2 ∧ t1 = t2.
Proof.
  revert s2. induction s1 as [|c1 s1 IH]; intros [|c2 s2] Hlen Heq; try done.
  autorewrite with text in Heq. simpl in *. simplify_eq.
  destruct (IH s2) as [-> ->]; [lia|done|done].
Qed.

(** What a string holds, any longer one holds. *)
Lemma str_prefix_app w s t : String.prefix w s = true → String.prefix w (s +:+ t) = true.
Proof.
  revert s. induction w as [|c w IH]; intros s; [by destruct s, t|].
  destruct s as [|d s]; [done|]. rewrite str_app_cons. cbn [String.prefix].
  destruct (ascii_dec c d); [apply IH|done].
Qed.

Lemma contains_app w s t : contains w s = true → contains w (s +:+ t) = true.
Proof.
  induction s as [|d s IH].
  - destruct w; [|done]. by destruct t.
  - rewrite str_app_cons. cbn [contains]. rewrite !orb_true_iff. intros [H|H]; [left|right; by apply IH].
    by apply (str_prefix_app w (String d s)).
Qed.

Lemma contains_app_r needle s t : contains needle t = true → contains needle (s +:+ t) = true.
Proof.
  intros Ht. induction s as [|x s IH]; [done|]. rewrite str_app_cons. cbn [contains]. rewrite IH. apply orb_true_r.
Qed.

(** ** Fixed-width numerals *)
Lemma digits_length base w n : String.length (digits base w n) = w.
Proof.
  revert n. induction w as [|w IH]; intros n; [done|]. simpl.
  autorewrite with text. rewrite IH. simpl. lia.
Qed.

Lemma digit_char_compare a b :
  0 <= a < 16 → 0 <= b < 16 →
  Ascii.compare (digit_char a) (digit_char b) = (a ?= b).
Proof.
  intros Ha Hb. unfold digit_char, Ascii.compare.
  rewrite !N_ascii_embedding by (repeat case_match; lia).
  repeat case_match; repeat match goal with
    | H : (_ <? _) = true |- _ => apply Z.ltb_lt in H
    | H : (_ <? _) = false |- _ => apply Z.ltb_ge in H end;
  rewrite Z2N.inj_compare by lia;
  first [ destruct (Z.compare_spec a b); first [apply Z.compare_eq_iff | apply Z.compare_lt_iff | apply Z.compare_gt_iff]; lia ].
Qed.

Lemma digits_compare base w n m :
  2 <= base <= 16 → 0 <= n < base ^ Z.of_nat w → 0 <= m < base ^ Z.of_nat w →
  String.compare (digits base w n) (digits base w m) = (n ?= m).
Proof.
  intros Hb. revert n m. induction w as [|w IH]; intros n m Hn Hm.
  { replace n with 0 by lia. replace m with 0 by lia. done. }
  rewrite Nat2Z.inj_succ, Z.pow_succ_r in Hn, Hm by lia.
  cbn [digits]. rewrite str_compare_app by (by rewrite !digits_length).
  assert (0 <= n / base < base ^ Z.of_nat w) by
    (split; [apply Z.div_pos; lia | apply Z.div_lt_upper_bound; lia]).
  assert (0 <= m / base < base ^ Z.of_nat w) by
    (split; [apply Z.div_pos; lia | apply Z.div_lt_upper_bound; lia]).
  rewrite IH by done. simpl.
  pose proof (Z.mod_pos_bound n base ltac:(lia)).
  pose proof (Z.mod_pos_bound m base ltac:(lia)).
  rewrite digit_char_compare by lia.
  pose proof (Z.div_mod n base ltac:(lia)). pose proof (Z.div_mod m base ltac:(lia)).
  symmetry. destruct (Z.compare_spec (n / base) (m / base)) as [E|E|E].
  - destruct (Z.compare_spec (n mod base) (m mod base));
      first [apply Z.compare_eq_iff | apply Z.compare_lt_iff | apply Z.compare_gt_iff]; nia.
  - apply Z.compare_lt_iff. nia.
  - apply Z.compare_gt_iff. nia.
Qed.

Lemma digits_inj base w n m :
  2 <= base <= 16 → 0 <= n < base ^ Z.of_nat w → 0 <= m < base ^ Z.of_nat w →
  digits base w n = digits base w m → n = m.
Proof.
  intros Hb Hn Hm Heq. apply Z.compare_eq_iff.
  rewrite <- (digits_compare base w n m) by done. rewrite Heq. apply str_compare_refl.
Qed.

(** A numeral that fits its width is printed at that width. *)
Lemma numeral_width_le base fuel w n :
  2 <= base → 0 <= n < base ^ Z.of_nat w → (1 <= w)%nat →
  (numeral_width base fuel n <= w)%nat.
Proof.
  intros Hb. revert w n. induction fuel as [|fuel IH]; intros w n Hn Hw; [done|].
  simpl. destruct (Z.ltb_spec n base); [done|].
  destruct w as [|[|w]]; [lia| |].
  - rewrite Z.pow_1_r in Hn. lia.
  - apply le_n_S, IH; [|lia]. rewrite Nat2Z.inj_succ, Z.pow_succ_r in Hn by lia.
    split; [apply Z.div_pos; lia|]. apply Z.div_lt_upper_bound; lia.
Qed.

Lemma fmt_fixed base w n :
  2 <= base → 0 <= n < base ^ Z.of_nat w → (1 <= w)%nat → fmt base w n = digits base w n.
Proof.
  intros Hb Hn Hw. unfold fmt. f_equal.
  pose proof (numeral_width_le base (Z.to_nat (Z.log2 n)) w n Hb Hn Hw). lia.
Qed.

(** The width chosen by [fmt] holds the whole number. *)
Lemma numeral_width_enough base fuel n :
  2 <= base → 0 <= n < base * 2 ^ Z.of_nat fuel →
  n < base ^ Z.of_nat (numeral_width base fuel n).
Proof.
  intros Hb. revert n. induction fuel as [|fuel IH]; intros n Hn; simpl.
  { rewrite Z.pow_1_r. simpl in Hn. lia. }
  destruct (Z.ltb_spec n base); [by rewrite Z.pow_1_r|].
  rewrite Nat2Z.inj_succ, Z.pow_succ_r in * by lia.
  assert (Hd : 0 <= n / base < base * 2 ^ Z.of_nat fuel).
  { split; [apply Z.div_pos; lia|]. apply Z.div_lt_upper_bound; [lia|].
    assert (base * 2 ^ Z.of_nat fuel * 2 <= base * (base * 2 ^ Z.of_nat fuel)); [|lia].
    assert (0 < 2 ^ Z.of_nat fuel) by (apply Z.pow_pos_nonneg; lia). nia. }
  specialize (IH _ Hd). pose proof (Z.div_mod n base ltac:(lia)).
  pose proof (Z.mod_pos_bound n base ltac:(lia)). nia.
Qed.

Lemma fmt_enough base w n :
  2 <= base → 0 <= n →
  n < base ^ Z.of_nat (Nat.max w (numeral_width base (Z.to_nat (Z.log2 n)) n)).
Proof.
  intros Hb Hn.
  eapply Z.lt_le_trans; [apply (numeral_width_enough base (Z.to_nat (Z.log2 n)))|].
  - done.
  - split; [done|]. destruct (decide (n = 0)) as [->|]; [simpl; lia|].
    pose proof (Z.log2_nonneg n). rewrite Z2Nat.id by done.
    pose proof (Z.log2_spec n ltac:(lia)) as [_ Hlt].
    rewrite Z.pow_succ_r in Hlt by done. nia.
  - apply Z.pow_le_mono_r; lia.
Qed.

Lemma fmt_inj base w n m :
  2 <= base <= 16 → 0 <= n → 0 <= m → fmt base w n = fmt base w m → n = m.
Proof.
  intros Hb Hn Hm Heq.
  pose proof (fmt_enough base w n ltac:(lia) Hn) as En.
  pose proof (fmt_enough base w m ltac:(lia) Hm) as Em.
  unfold fmt in Heq.
  pose proof (f_equal String.length Heq) as Hlen. rewrite !digits_length in Hlen.
  rewrite <- Hlen in Heq, Em. eapply digits_inj; [|split..|]; eauto.
Qed.
