(* ===== verification/Order.v ===== *)
(** * Comparators

    Rust's [Ordering] and SQL's ORDER BY lists: comparison functions, their
    lexicographic combination ([then_with]) and restriction to a key, with the
    laws that make a stable sort by them sorted. *)

From Stdlib Require Import ZArith Lia String Ascii.
From stdpp Require Import base tactics list gmap strings numbers sorting.
From S2P Require Import Prelude Text.
Open Scope Z_scope.

(** [Ordering::then_with], with the second comparison already evaluated. *)
Definition then_with (c d : comparison) : comparison :=
  match c with Eq => d | _ => c end.

Definition not_gt (c : comparison) : bool := match c with Gt => false | _ => true end.

Class Comparator {A : Type} (cmp : A → A → comparison) : Prop := {
  cmp_antisym : ∀ x y, cmp y x = CompOpp (cmp x y);
  cmp_eq_l : ∀ x y z, cmp x y = Eq → cmp x z = cmp y z;
  cmp_lt_trans : ∀ x y z, cmp x y = Lt → cmp y z = Lt → cmp x z = Lt;
}.

Section laws.
Context {A : Type} (cmp : A → A → comparison) `{!Comparator cmp}.

Lemma cmp_refl x : cmp x x = Eq.
Proof. pose proof (cmp_antisym x x) as H. by destruct (cmp x x). Qed.

Lemma cmp_eq_r x y z : cmp x y = Eq → cmp z x = cmp z y.
Proof.
  intros H. rewrite (cmp_antisym x z), (cmp_antisym y z). f_equal. by apply cmp_eq_l.
Qed.

Lemma not_gt_total x y : not_gt (cmp x y) = true ∨ not_gt (cmp y x) = true.
Proof. rewrite (cmp_antisym x y). destruct (cmp x y); simpl; auto. Qed.

Lemma not_gt_trans x y z :
  not_gt (cmp x y) = true → not_gt (cmp y z) = true → not_gt (cmp x z) = true.
Proof.
  destruct (cmp x y) eqn:H1; [intros _|intros _|done].
  - by rewrite (cmp_eq_l _ _ _ H1).
  - destruct (cmp y z) eqn:H2; [intros _|intros _|done].
    + by rewrite <- (cmp_eq_r _ _ x H2), H1.
    + by rewrite (cmp_lt_trans _ _ _ H1 H2).
Qed.

(** A sort by a comparator puts every element before those not smaller. *)
Lemma sort_by_cmp_sorted l :
  StronglySorted (fun x y => not_gt (cmp x y) = true) (sort_by (fun x y => not_gt (cmp x y)) l).
Proof. apply sort_by_sorted; [apply not_gt_total|apply not_gt_trans]. Qed.

Lemma sort_by_head_least l x :
  head (sort_by (fun x y => not_gt (cmp x y)) l) = Some x →
  x ∈ l ∧ ∀ y, y ∈ l → not_gt (cmp x y) = true.
Proof.
  pose proof (sort_by_cmp_sorted l) as Hs.
  pose proof (sort_by_perm (fun x y => not_gt (cmp x y)) l) as Hp.
  destruct (sort_by _ l) as [|x0 rest]; intros Hx; simplify_eq/=.
  split; [rewrite <- Hp; by left|]. intros y Hy. rewrite <- Hp in Hy.
  apply elem_of_cons in Hy as [->|Hy]; [by rewrite cmp_refl|].
  apply StronglySorted_inv in Hs as [_ Hs]. rewrite Forall_forall in Hs. by apply Hs.
Qed.

Lemma sort_by_head_none (leb : A → A → bool) l : head (sort_by leb l) = None → l = [].
Proof.
  intros H. pose proof (length_sort_by leb l) as Hl. destruct (sort_by leb l); [|done].
  by apply nil_length_inv.
Qed.
End laws.

#[export] Instance Z_comparator : Comparator Z.compare.
Proof.
  split.
  - intros. apply Z.compare_antisym.
  - intros x y z ->%Z.compare_eq_iff. done.
  - intros x y z. rewrite !Z.compare_lt_iff. lia.
Qed.

Lemma str_compare_eq s t : String.compare s t = Eq → s = t.
Proof. by intros ?%String.compare_eq_iff. Qed.

Lemma str_compare_lt_trans s t u :
  String.compare s t = Lt → String.compare t u = Lt → String.compare s u = Lt.
Proof.
  revert t u. induction s as [|a s IH]; intros [|b t] [|c u]; simpl; try done.
  unfold Ascii.compare.
  destruct (N.compare_spec (N_of_ascii a) (N_of_ascii b)) as [E1|L1|G1]; [| |done];
  destruct (N.compare_spec (N_of_ascii b) (N_of_ascii c)) as [E2|L2|G2]; try done; intros H1 H2.
  - rewrite (proj2 (N.compare_eq_iff _ _)) by congruence. by eapply IH.
  - by rewrite (proj2 (N.compare_lt_iff _ _)) by lia.
  - by rewrite (proj2 (N.compare_lt_iff _ _)) by lia.
  - by rewrite (proj2 (N.compare_lt_iff _ _)) by lia.
Qed.

#[export] Instance string_comparator : Comparator String.compare.
Proof.
  split.
  - intros. apply String.compare_antisym.
  - intros x y z ->%str_compare_eq. done.
  - apply str_compare_lt_trans.
Qed.

#[export] Instance on_comparator {A B} (f : A → B) cmp :
  Comparator cmp → Comparator (fun x y => cmp (f x) (f y)).
Proof.
  intros H. split; intros; [apply cmp_antisym|by apply cmp_eq_l|by eapply cmp_lt_trans].
Qed.

(** [ORDER BY k DESC]. *)
#[export] Instance flip_comparator {A} (cmp : A → A → comparison) :
  Comparator cmp → Comparator (fun x y => cmp y x).
Proof.
  intros H. split; intros.
  - apply cmp_antisym.
  - symmetry. by apply cmp_eq_r.
  - by eapply cmp_lt_trans.
Qed.

#[export] Instance lex_comparator {A} (c1 c2 : A → A → comparison) :
  Comparator c1 → Comparator c2 → Comparator (fun x y => then_with (c1 x y) (c2 x y)).
Proof.
  intros H1 H2. split.
  - intros x y. rewrite (cmp_antisym (cmp := c1) x y), (cmp_antisym (cmp := c2) x y).
    by destruct (c1 x y).
  - intros x y z. unfold then_with. destruct (c1 x y) eqn:E1; [|done..]. intros E2.
    by rewrite (cmp_eq_l (cmp := c1) _ _ z E1), (cmp_eq_l (cmp := c2) _ _ z E2).
  - intros x y z. unfold then_with. destruct (c1 x y) eqn:E1; [| |done]; intros E2.
    + rewrite (cmp_eq_l (cmp := c1) _ _ z E1). destruct (c1 y z); [|done..].
      by apply cmp_lt_trans.
    + destruct (c1 y z) eqn:E3; [| |done]; intros _.
      * by rewrite <- (cmp_eq_r c1 _ _ x E3), E1.
      * by rewrite (cmp_lt_trans (cmp := c1) _ _ _ E1 E3).
Qed.
