(* ===== verification/Float.v ===== *)
(** * Binary floating point

    [f64] and [f32] over the Standard Library's [SpecFloat]: the operations the
    sources use, the total order behind [partial_cmp] on numbers, and that sums and
    quotients of numbers that are not negative are such numbers. *)

From Stdlib Require Import ZArith QArith Lia String Ascii SpecFloat.
From stdpp Require Import base tactics list numbers.
From S2P Require Import Prelude Text Order.
Close Scope Q_scope.
Open Scope Z_scope.

(** ** Operations *)
Definition f64 : Type := spec_float.
Definition f32 : Type := spec_float.
Definition f64_of_int (z : Z) : f64 := binary_normalize 53 1024 z 0 false.
Definition f64_add : f64 → f64 → f64 := SFadd 53 1024.
Definition f64_sub : f64 → f64 → f64 := SFsub 53 1024.
Definition f64_mul : f64 → f64 → f64 := SFmul 53 1024.
Definition f64_div : f64 → f64 → f64 := SFdiv 53 1024.
Definition f64_sqrt : f64 → f64 := SFsqrt 53 1024.
Definition f64_zero : f64 := S754_zero false.
Definition f64_one : f64 := f64_of_int 1.
Definition f32_add : f32 → f32 → f32 := SFadd 24 128.
Definition f32_mul : f32 → f32 → f32 := SFmul 24 128.
Definition f32_div : f32 → f32 → f32 := SFdiv 24 128.
Definition f32_sqrt : f32 → f32 := SFsqrt 24 128.
Definition f32_of_int (z : Z) : f32 := binary_normalize 24 128 z 0 false.

(** [x as f32] and [f64::from(x)]: the value rounded to the other format. *)
Definition reround (prec emax : Z) (x : spec_float) : spec_float :=
  match x with
  | S754_finite s m e => binary_normalize prec emax (cond_Zopp s (Zpos m)) e s
  | _ => x
  end.
Definition f32_of_f64 : f64 → f32 := reround 24 128.
Definition f64_of_f32 : f32 → f64 := reround 53 1024.

(** The number nearest to a quotient, for decimal literals and for the columns
    kept as exact rationals. *)
Definition round_q (prec emax : Z) (q : Q) : spec_float :=
  let quotient s n := let '(m, e, l) := SFdiv_core_binary prec emax (Zpos n) 0 (Zpos (Qden q)) 0 in
                      binary_round_aux prec emax s m e l in
  match Qnum q with
  | Z0 => S754_zero false
  | Zpos n => quotient false n
  | Zneg n => quotient true n
  end.
Definition f64_of_q : Q → f64 := round_q 53 1024.
Definition f32_of_q : Q → f32 := round_q 24 128.

(** The number a finite float stands for. *)
Definition q_of_float (x : spec_float) : Q :=
  match x with
  | S754_finite s m e =>
      let n := if s then Zneg m else Zpos m in
      Qred (if (0 <=? e)%Z then inject_Z (n * 2 ^ e) else n # Pos.pow 2 (Z.to_pos (- e)))
  | _ => 0%Q
  end.

(** [partial_cmp(..).unwrap_or(Ordering::Equal)]. *)
Definition partial_cmp (x y : spec_float) : comparison := default Eq (SFcompare x y).

(** [f64::max], [f64::min], [clamp]: a NaN gives way to the other argument. *)
Definition float_max (x y : spec_float) : spec_float :=
  match SFcompare x y with
  | Some Lt => y
  | Some _ => x
  | None => match x with S754_nan => y | _ => x end
  end.
Definition float_clamp (x low high : spec_float) : spec_float :=
  if SFltb x low then low else if SFltb high x then high else x.

(** [x.ceil() as u64] and [x.round() as u64]: the cast saturates, and maps NaN
    to 0; [round] goes away from zero at halves. *)
Definition f64_ceil_u64 (x : f64) : Z :=
  match x with
  | S754_zero _ | S754_nan => 0
  | S754_infinity s => if s then 0 else u64_max
  | S754_finite true _ _ => 0
  | S754_finite false m e =>
      sat_u64 (if 0 <=? e then Zpos m * 2 ^ e else - (Zneg m / 2 ^ (- e)))
  end.

Definition f64_round_u64 (x : f64) : Z :=
  match x with
  | S754_zero _ | S754_nan => 0
  | S754_infinity s => if s then 0 else u64_max
  | S754_finite true _ _ => 0
  | S754_finite false m e =>
      sat_u64 (if 0 <=? e then Zpos m * 2 ^ e else (2 * Zpos m + 2 ^ (- e)) / 2 ^ (- e + 1))
  end.

Example ceil_ex : f64_ceil_u64 (f64_div (f64_of_int 7) (f64_of_int 2)) = 4. Proof. reflexivity. Qed.
Example round_ex : f64_round_u64 (f64_div (f64_of_int 5) (f64_of_int 2)) = 3. Proof. reflexivity. Qed.
Example half_ex : f64_of_q (1 # 2) = f64_div f64_one (f64_of_int 2). Proof. reflexivity. Qed.
Example tenth_ex : f64_of_q (7 # 10) = f64_div (f64_of_int 7) (f64_of_int 10). Proof. reflexivity. Qed.
Example widen_ex : f64_of_f32 (f32_of_q (1 # 2)) = f64_of_q (1 # 2). Proof. reflexivity. Qed.

Example exact_ex : q_of_float (f64_of_q (3 # 8)%Q) = (3 # 8)%Q. Proof. reflexivity. Qed.

(** ** The order of the numbers *)
Definition is_number (x : spec_float) : Prop := x ≠ S754_nan.

(** Class, exponent, mantissa: compared in this order, they order the numbers. *)
Definition float_class (x : spec_float) : Z :=
  match x with
  | S754_infinity s => if s then -2 else 2
  | S754_finite s _ _ => if s then -1 else 1
  | _ => 0
  end.
Definition float_exponent (x : spec_float) : Z :=
  match x with S754_finite s _ e => if s then - e else e | _ => 0 end.
Definition float_mantissa (x : spec_float) : Z :=
  match x with S754_finite s m _ => if s then Zneg m else Zpos m | _ => 0 end.

Definition float_cmp (x y : spec_float) : comparison :=
  then_with (Z.compare (float_class x) (float_class y))
    (then_with (Z.compare (float_exponent x) (float_exponent y))
       (Z.compare (float_mantissa x) (float_mantissa y))).

#[export] Instance float_comparator : Comparator float_cmp.
Proof.
  apply (lex_comparator _ _ (on_comparator float_class _ Z_comparator)).
  apply (lex_comparator _ _ (on_comparator float_exponent _ Z_comparator) (on_comparator float_mantissa _ Z_comparator)).
Qed.

Lemma partial_cmp_number x y : is_number x → is_number y → partial_cmp x y = float_cmp x y.
Proof.
  unfold is_number, partial_cmp, float_cmp.
  destruct x as [[]|[]| |[] m1 e1], y as [[]|[]| |[] m2 e2]; try done; intros _ _; simpl.
  - rewrite Z.compare_opp, (Z.compare_antisym e1 e2). by destruct (e1 ?= e2).
  - by destruct (e1 ?= e2).
Qed.

Lemma float_cmp_same x y : float_cmp x y = Eq → float_cmp y x = Eq.
Proof. intros E. rewrite (cmp_antisym (cmp := float_cmp) x y), E. done. Qed.

(** ** Numbers that are not negative *)
Definition nonneg (x : spec_float) : Prop :=
  match x with
  | S754_nan => False
  | S754_zero s | S754_infinity s | S754_finite s _ _ => s = false
  end.

Lemma nonneg_number x : nonneg x → is_number x.
Proof. by destruct x. Qed.

Section rounding.
Variables prec emax : Z.

Lemma shr_1_nonneg r : 0 <= shr_m r → 0 <= shr_m (shr_1 r).
Proof. destruct r as [[|[p|p|]|p] x y]; simpl; lia. Qed.

Lemma iter_shr_nonneg p r : 0 <= shr_m r → 0 <= shr_m (SpecFloat.iter_pos shr_1 p r).
Proof. revert r. induction p as [p IH|p IH|]; simpl; intros r Hr; auto using shr_1_nonneg. Qed.

Lemma shr_fexp_nonneg m e l : 0 <= m → 0 <= shr_m (shr_fexp prec emax m e l).1.
Proof.
  intros Hm. unfold shr_fexp, shr.
  assert (0 <= shr_m (shr_record_of_loc m l)) by (by destruct l as [|[]]).
  destruct (_ - e) as [|p|p]; simpl; auto using iter_shr_nonneg.
Qed.

Lemma round_aux_nonneg m e l : 0 <= m → nonneg (binary_round_aux prec emax false m e l).
Proof.
  intros Hm. unfold binary_round_aux. pose proof (shr_fexp_nonneg m e l Hm) as H1.
  destruct (shr_fexp prec emax m e l) as [r1 e1]. simpl in H1.
  assert (H2 : 0 <= round_nearest_even (shr_m r1) (loc_of_shr_record r1)).
  { unfold round_nearest_even. destruct (loc_of_shr_record r1) as [|[]]; try case_match; lia. }
  pose proof (shr_fexp_nonneg _ e1 loc_Exact H2) as H3.
  destruct (shr_fexp prec emax _ e1 loc_Exact) as [r2 e2]. simpl in H3.
  destruct (shr_m r2); simpl; try done; by destruct (_ <=? _).
Qed.

Lemma normalize_nonneg m e : 0 <= m → nonneg (binary_normalize prec emax m e false).
Proof.
  destruct m as [|m|m]; intros Hm; simpl; [done| |lia]. unfold binary_round.
  destruct (shl_align _ _ _). by apply round_aux_nonneg.
Qed.

Lemma SFadd_nonneg x y : nonneg x → nonneg y → nonneg (SFadd prec emax x y).
Proof.
  destruct x as [s1|s1| |s1 m1 e1], y as [s2|s2| |s2 m2 e2]; simpl; try done; intros -> ->; try done.
  apply normalize_nonneg. simpl. lia.
Qed.

(** A positive number by one that is not negative; a zero gives infinity. *)
Lemma SFdiv_nonneg m e y : nonneg y → nonneg (SFdiv prec emax (S754_finite false m e) y).
Proof.
  destruct y as [s|s| |s m2 e2]; simpl; try done; intros ->; try done.
  destruct (SFdiv_core_binary prec emax (Zpos m) e (Zpos m2) e2) as [[q ez] l] eqn:E. apply round_aux_nonneg.
  unfold SFdiv_core_binary in E.
  match type of E with context [Z.div_eucl ?a ?b] => pose proof (Z_div_nonneg_nonneg a b) as Hq;
    unfold Z.div in Hq; destruct (Z.div_eucl a b) as [q' r'] end. simplify_eq.
  apply Hq; [|lia]. case_match; [lia|apply Z.shiftl_nonneg; lia|lia].
Qed.
End rounding.
