(* ===== verification/Calendar.v ===== *)
(** * Calendar

    The civil-calendar arithmetic of [src/src/cowork/peek.rs]: [days_to_ymd] and
    [days_from_civil], with the proofs that they are inverse to each other, that
    every day has a date of the Gregorian calendar, and that dates are ordered as
    days are. *)

From Stdlib Require Import ZArith Lia.
From stdpp Require Import base tactics list numbers.
From S2P Require Import Prelude.
Open Scope Z_scope.

(** Division by constants is linear arithmetic once the quotients are named. *)
#[local] Ltac Zify.zify_post_hook ::= Z.to_euclidean_division_equations.

(** ** Definitions *)

(** [days_to_ymd]: Hinnant's [civil_from_days]; [/] on [i64] truncates. *)
Definition days_to_ymd (days : Z) : Z * Z * Z :=
  let days := days + 719468 in
  let era := Z.quot (if 0 <=? days then days else days - 146096) 146097 in
  let doe := as_u64 (days - era * 146097) in
  let yoe := (doe - doe / 1460 + doe / 36524 - doe / 146096) / 365 in
  let y := as_i64 yoe + era * 400 in
  let doy := doe - (365 * yoe + yoe / 4 - yoe / 100) in
  let mp := (5 * doy + 2) / 153 in
  let d := doy - (153 * mp + 2) / 5 + 1 in
  let m := if mp <? 10 then mp + 3 else mp - 9 in
  let y := if m <=? 2 then y + 1 else y in
  (y, as_u32 m, as_u32 d).

(** [days_from_civil]: the inverse. *)
Definition days_from_civil (y m d : Z) : Z :=
  let y := if m <=? 2 then y - 1 else y in
  let era := Z.quot (if 0 <=? y then y else y - 399) 400 in
  let yoe := as_u64 (y - era * 400) in
  let doy := (153 * (if 2 <? m then m - 3 else m + 9) + 2) / 5 + d - 1 in
  let doe := yoe * 365 + yoe / 4 - yoe / 100 + doy in
  era * 146097 + as_i64 doe - 719468.

#[global] Arguments days_to_ymd : simpl never.
#[global] Arguments days_from_civil : simpl never.

(** ** The calendar *)

Definition is_leap (y : Z) : bool :=
  (y mod 4 =? 0) && (negb (y mod 100 =? 0) || (y mod 400 =? 0)).

Definition days_in_month (y m : Z) : Z :=
  if m =? 2 then if is_leap y then 29 else 28
  else if (m =? 4) || (m =? 6) || (m =? 9) || (m =? 11) then 30 else 31.

(** A date of the proleptic Gregorian calendar. *)
Definition civil_date (date : Z * Z * Z) : Prop :=
  let '(y, m, d) := date in 1 <= m <= 12 ∧ 1 <= d <= days_in_month y m.

(** The days for which the [i64] arithmetic of the two functions stays far from
    its bounds: about 6 million years around the epoch. *)
Definition calendar_range (days : Z) : Prop := - 2 ^ 31 <= days <= 2 ^ 31.

(** The coordinates of a day in March-based 400-year eras. *)
Record era_pos := EraPos { ep_era : Z; ep_yoe : Z; ep_doy : Z }.

Definition era_day (p : era_pos) : Z :=
  ep_era p * 146097 + 365 * ep_yoe p + ep_yoe p / 4 - ep_yoe p / 100 + ep_doy p - 719468.

Definition era_ok (p : era_pos) : Prop :=
  0 <= ep_yoe p <= 399 ∧ 0 <= ep_doy p <= 365 ∧
  (ep_doy p = 365 → is_leap (ep_yoe p + 1) = true).

Definition era_pos_of (days : Z) : era_pos :=
  let era := (days + 719468) / 146097 in
  let doe := (days + 719468) mod 146097 in
  let yoe := (doe - doe / 1460 + doe / 36524 - doe / 146096) / 365 in
  EraPos era yoe (doe - (365 * yoe + yoe / 4 - yoe / 100)).

Definition civil_of_era (p : era_pos) : Z * Z * Z :=
  let mp := (5 * ep_doy p + 2) / 153 in
  let d := ep_doy p - (153 * mp + 2) / 5 + 1 in
  let m := if mp <? 10 then mp + 3 else mp - 9 in
  let y := ep_yoe p + ep_era p * 400 in
  (if m <=? 2 then y + 1 else y, m, d).

Lemma is_leap_spec y :
  is_leap y = true ↔ y mod 4 = 0 ∧ (y mod 100 ≠ 0 ∨ y mod 400 = 0).
Proof.
  unfold is_leap. rewrite andb_true_iff, orb_true_iff, negb_true_iff, !Z.eqb_eq, Z.eqb_neq.
  done.
Qed.

Lemma era_pos_of_ok days : era_ok (era_pos_of days) ∧ era_day (era_pos_of days) = days.
Proof.
  unfold era_ok, era_day, era_pos_of; simpl.
  pose proof (Z.mod_pos_bound (days + 719468) 146097 ltac:(lia)) as Hdoe.
  pose proof (Z.div_mod (days + 719468) 146097 ltac:(lia)) as Heq.
  set (doe := (days + 719468) mod 146097) in *. clearbody doe.
  split; [|lia]. split; [lia|]. split; [lia|]. rewrite is_leap_spec. lia.
Qed.

Lemma days_to_ymd_era days :
  calendar_range days → days_to_ymd days = civil_of_era (era_pos_of days).
Proof.
  unfold calendar_range. intros Hr.
  destruct (era_pos_of_ok days) as [(Hy & Hd & _) _].
  unfold days_to_ymd, civil_of_era. unfold era_pos_of in *. simpl in *.
  replace (Z.quot (if 0 <=? days + 719468 then days + 719468 else days + 719468 - 146096)
             146097) with ((days + 719468) / 146097)
    by (destruct (Z.leb_spec 0 (days + 719468)); lia).
  replace (days + 719468 - (days + 719468) / 146097 * 146097)
    with ((days + 719468) mod 146097) by lia.
  pose proof (Z.mod_pos_bound (days + 719468) 146097 ltac:(lia)) as Hdoe.
  set (doe := (days + 719468) mod 146097) in *. clearbody doe.
  rewrite (as_u64_id doe) by (unfold_widths; lia).
  set (yoe := (doe - doe / 1460 + doe / 36524 - doe / 146096) / 365) in *. clearbody yoe.
  rewrite as_i64_id by (unfold_widths; lia).
  set (doy := doe - (365 * yoe + yoe / 4 - yoe / 100)) in *. clearbody doy.
  rewrite !as_u32_id by (unfold_widths; repeat case_match; zbool; lia).
  done.
Qed.

Lemma era_pos_of_day p : era_ok p → era_pos_of (era_day p) = p.
Proof.
  destruct p as [era yoe doy]. unfold era_ok, era_day, era_pos_of; simpl.
  rewrite is_leap_spec. intros (Hy & Hd & Hl).
  set (doe := 365 * yoe + yoe / 4 - yoe / 100 + doy).
  assert (Hdoe : 0 <= doe <= 146096) by (subst doe; lia).
  replace (era * 146097 + 365 * yoe + yoe / 4 - yoe / 100 + doy - 719468 + 719468)
    with (doe + era * 146097) by (subst doe; lia).
  rewrite Z.div_add, Z.mod_add by lia.
  rewrite Z.div_small, Z.mod_small by lia.
  assert (Hyoe : (doe - doe / 1460 + doe / 36524 - doe / 146096) / 365 = yoe)
    by (subst doe; lia).
  rewrite Hyoe. f_equal; subst doe; lia.
Qed.

Lemma is_leap_era y era : is_leap (y + era * 400) = is_leap y.
Proof. apply Bool.eq_iff_eq_true. rewrite !is_leap_spec. lia. Qed.

Lemma civil_of_era_valid p : era_ok p → civil_date (civil_of_era p).
Proof.
  destruct p as [era yoe doy]. unfold era_ok, civil_of_era, civil_date; simpl.
  intros (Hy & Hd & Hl). unfold days_in_month.
  replace (yoe + era * 400 + 1) with (yoe + 1 + era * 400) by lia.
  destruct (Z.ltb_spec ((5 * doy + 2) / 153) 10).
  - destruct (Z.leb_spec ((5 * doy + 2) / 153 + 3) 2); [lia|].
    split; [lia|]. split; [lia|]. destruct (Z.eqb_spec ((5 * doy + 2) / 153 + 3) 2); [lia|].
    case_match; [|lia].
    repeat match goal with H : _ || _ = true |- _ => apply orb_true_iff in H as [H|H] end;
      zbool; lia.
  - destruct (Z.leb_spec ((5 * doy + 2) / 153 - 9) 2); [|lia].
    split; [lia|]. split; [lia|]. rewrite is_leap_era.
    destruct (Z.eqb_spec ((5 * doy + 2) / 153 - 9) 2).
    + destruct (is_leap (yoe + 1)); [lia|].
      assert (doy ≠ 365) by (intros ->; by discriminate Hl). lia.
    + case_match; [|lia].
      repeat match goal with H : _ || _ = true |- _ => apply orb_true_iff in H as [H|H] end;
        zbool; lia.
Qed.

Lemma days_from_civil_era p :
  era_ok p → - 2 ^ 31 <= ep_era p <= 2 ^ 31 →
  let '(y, m, d) := civil_of_era p in days_from_civil y m d = era_day p.
Proof.
  destruct p as [era yoe doy]. unfold era_ok, civil_of_era, era_day; simpl.
  intros (Hy & Hd & _) Hera. unfold days_from_civil.
  set (mp := (5 * doy + 2) / 153).
  assert (Hmp : 0 <= mp <= 11) by (subst mp; lia).
  set (m := if mp <? 10 then mp + 3 else mp - 9).
  assert (Hm : (if 2 <? m then m - 3 else m + 9) = mp ∧ (m <=? 2) = negb (mp <? 10)).
  { subst m. destruct (Z.ltb_spec mp 10); simpl.
    - destruct (Z.ltb_spec 2 (mp + 3)), (Z.leb_spec (mp + 3) 2); lia.
    - destruct (Z.ltb_spec 2 (mp - 9)), (Z.leb_spec (mp - 9) 2); lia. }
  destruct Hm as [-> ->].
  replace (if negb (mp <? 10) then (if negb (mp <? 10) then _ else _) - 1 else _)
    with (yoe + era * 400) by (destruct (mp <? 10); simpl; lia).
  replace (Z.quot (if 0 <=? yoe + era * 400 then yoe + era * 400 else yoe + era * 400 - 399) 400)
    with era by (destruct (Z.leb_spec 0 (yoe + era * 400)); lia).
  replace (yoe + era * 400 - era * 400) with yoe by lia.
  rewrite as_u64_id by (unfold_widths; lia).
  rewrite as_i64_id by (unfold_widths; subst mp; lia). subst mp. lia.
Qed.

Lemma civil_date_era y m d :
  civil_date (y, m, d) → ∃ p, era_ok p ∧ civil_of_era p = (y, m, d) ∧
    400 * ep_era p <= y <= 400 * ep_era p + 400.
Proof.
  unfold civil_date. intros [Hm Hd].
  set (y' := if m <=? 2 then y - 1 else y).
  set (mp := if 2 <? m then m - 3 else m + 9).
  exists (EraPos (y' / 400) (y' mod 400) ((153 * mp + 2) / 5 + d - 1)).
  assert (Hleap : m = 2 → is_leap y = is_leap (y' mod 400 + 1)).
  { intros ->. subst y'. simpl. apply Bool.eq_iff_eq_true.
    rewrite !is_leap_spec. lia. }
  unfold days_in_month in Hd.
  assert (Hdd : d <= (if m =? 2 then if is_leap (y' mod 400 + 1) then 29 else 28 else
     if (m =? 4) || (m =? 6) || (m =? 9) || (m =? 11) then 30 else 31)).
  { destruct (Z.eqb_spec m 2); [rewrite <- Hleap by done|]; lia. }
  assert (m = 1 ∨ m = 2 ∨ m = 3 ∨ m = 4 ∨ m = 5 ∨ m = 6 ∨ m = 7 ∨ m = 8 ∨ m = 9 ∨ m = 10
    ∨ m = 11 ∨ m = 12) as Hcases by lia.
  unfold era_ok, civil_of_era; simpl.
  destruct (is_leap (y' mod 400 + 1)) eqn:El; subst y' mp;
  destruct_or! Hcases; subst m; simpl in *; clear Hleap.
  all: (split; [split; [lia|split; [lia|first [done | intros; exfalso; lia]]]|split; [|lia]]).
  all: match goal with |- context [(5 * ?x + 2) / 153] =>
    destruct (Z.ltb_spec ((5 * x + 2) / 153) 10) end; try lia.
  all: match goal with |- context [?a <=? 2] => destruct (Z.leb_spec a 2) end;
    try lia; rewrite !pair_eq; lia.
Qed.

Definition ymd_code (date : Z * Z * Z) : Z :=
  let '(y, m, d) := date in y * 10000 + m * 100 + d.

(** The next day is the next of its year, or the first of the next year. *)
Definition era_succ (p : era_pos) : era_pos :=
  if (ep_doy p <? 364) || (ep_doy p =? 364) && is_leap (ep_yoe p + 1)
  then EraPos (ep_era p) (ep_yoe p) (ep_doy p + 1)
  else if ep_yoe p =? 399 then EraPos (ep_era p + 1) 0 0
  else EraPos (ep_era p) (ep_yoe p + 1) 0.

Lemma era_succ_ok p : era_ok p → era_ok (era_succ p) ∧ era_day (era_succ p) = era_day p + 1.
Proof.
  destruct p as [e y d]. unfold era_ok, era_succ, era_day; simpl. intros (Hy & Hd & Hl).
  pose proof (is_leap_spec (y + 1)) as Hleap. destruct (is_leap (y + 1)) eqn:El.
  - assert ((y + 1) mod 4 = 0 ∧ ((y + 1) mod 100 ≠ 0 ∨ (y + 1) mod 400 = 0)) by tauto.
    clear Hleap. destruct (Z.ltb_spec d 364), (Z.eqb_spec d 364), (Z.eqb_spec y 399); simpl;
      try rewrite El; split; try lia; split; try lia; split; try lia; intros; exfalso; lia.
  - assert (¬ ((y + 1) mod 4 = 0 ∧ ((y + 1) mod 100 ≠ 0 ∨ (y + 1) mod 400 = 0))) by intuition congruence.
    assert (d ≠ 365) by (intros ->; by discriminate Hl). clear Hleap Hl.
    destruct (Z.ltb_spec d 364), (Z.eqb_spec d 364), (Z.eqb_spec y 399); simpl;
      split; try lia; split; try lia; split; try lia; intros; exfalso; lia.
Qed.

Lemma days_to_ymd_succ days :
  calendar_range days → calendar_range (days + 1) →
  ymd_code (days_to_ymd days) < ymd_code (days_to_ymd (days + 1)).
Proof.
  intros H1 H2. rewrite !days_to_ymd_era by done.
  destruct (era_pos_of_ok days) as [Hok Hd].
  destruct (era_succ_ok _ Hok) as [Hoks Hds].
  replace (days + 1) with (era_day (era_succ (era_pos_of days))) by lia.
  rewrite era_pos_of_day by done. clear Hoks Hds Hd H1 H2.
  destruct (era_pos_of days) as [e y d]. destruct Hok as (Hy & Hb & _).
  unfold era_succ, civil_of_era, ymd_code in *; simpl in *.
  destruct (_ || _) eqn:E; [|destruct (Z.eqb_spec y 399)]; simpl;
    repeat case_match; zbool; try lia.
  all: apply orb_false_iff in E as [E _]; zbool; lia.
Qed.

Lemma ymd_code_mono a b :
  calendar_range a → calendar_range b → a < b →
  ymd_code (days_to_ymd a) < ymd_code (days_to_ymd b).
Proof.
  unfold calendar_range. intros Ha Hb Hlt.
  replace b with (a + Z.of_nat (Z.to_nat (b - a))) in * by lia.
  assert (Hn : (0 < Z.to_nat (b - a))%nat) by lia. revert Hb Hn. generalize (Z.to_nat (b - a)).
  clear Hlt b. intros n. induction n as [|n IH]; intros Hb Hn; [lia|].
  replace (a + Z.of_nat (S n)) with (a + Z.of_nat n + 1) in * by lia.
  pose proof (days_to_ymd_succ (a + Z.of_nat n)) as Hs. unfold calendar_range in Hs.
  destruct n as [|n]; [rewrite Z.add_0_r in *; apply Hs; lia|].
  etransitivity; [apply IH; lia|apply Hs; lia].
Qed.

Lemma days_to_ymd_civil days : calendar_range days → civil_date (days_to_ymd days).
Proof.
  intros Hr. rewrite days_to_ymd_era by done.
  by apply civil_of_era_valid, era_pos_of_ok.
Qed.

Lemma days_from_civil_range y m d :
  - 5000000 <= y <= 5000000 → 1 <= m <= 12 → 1 <= d <= 31 →
  calendar_range (days_from_civil y m d).
Proof.
  intros Hy Hm Hd. unfold calendar_range, days_from_civil.
  set (y' := if m <=? 2 then y - 1 else y).
  assert (- 5000001 <= y' <= 5000000) by (subst y'; case_match; lia). clearbody y'.
  set (mp := if 2 <? m then m - 3 else m + 9).
  assert (0 <= mp <= 11) by (subst mp; case_match; zbool; lia). clearbody mp.
  set (era := Z.quot (if 0 <=? y' then y' else y' - 399) 400).
  assert (0 <= y' - era * 400 <= 399) by (subst era; case_match; zbool; lia). clearbody era.
  rewrite as_u64_id by (unfold_widths; lia). rewrite as_i64_id by (unfold_widths; lia).
  lia.
Qed.

Lemma days_roundtrip_core days :
  calendar_range days →
  let '(y, m, d) := days_to_ymd days in days_from_civil y m d = days.
Proof.
  intros Hr. rewrite days_to_ymd_era by done.
  destruct (era_pos_of_ok days) as [Hok Hday].
  pose proof (days_from_civil_era (era_pos_of days) Hok) as Hinv.
  destruct (civil_of_era _) as [[y m] d]. rewrite Hinv; [done|].
  unfold era_pos_of, calendar_range in *; simpl. lia.
Qed.

(** ** Properties *)

(** Every day number is the day of the date that [days_to_ymd] computes for
    it, and that date is one of the Gregorian calendar; conversely a date is
    recovered from its day number exactly when it is one of the calendar, so the
    test that [parse_rfc3339] applies, going to the day number and back, rejects
    the impossible dates and no others. *)
Theorem civil_roundtrip days y m d :
  calendar_range days → - 5000000 <= y <= 5000000 → 1 <= m <= 12 → 1 <= d <= 31 →
  civil_date (days_to_ymd days)
  ∧ (let '(y', m', d') := days_to_ymd days in days_from_civil y' m' d' = days)
  ∧ (days_to_ymd (days_from_civil y m d) = (y, m, d) ↔ d <= days_in_month y m).
Proof.
  intros Hdays Hy Hm Hd. pose proof (days_from_civil_range y m d Hy Hm Hd) as Hr.
  split; [by apply days_to_ymd_civil|]. split; [by apply days_roundtrip_core|]. split.
  - intros Heq. pose proof (days_to_ymd_civil _ Hr) as Hc. rewrite Heq in Hc.
    destruct Hc as [_ Hc]. lia.
  - intros Hle. destruct (civil_date_era y m d) as (p & Hok & Hp & He); [split; lia|].
    pose proof (days_from_civil_era p Hok ltac:(lia)) as Hinv. rewrite Hp in Hinv.
    rewrite Hinv in *. rewrite days_to_ymd_era, era_pos_of_day by done. done.
Qed.

Lemma civil_roundtrip_witness :
  civil_date (days_to_ymd (-719468))
  ∧ (days_to_ymd (days_from_civil 2024 2 29) = (2024, 2, 29) ↔ 29 <= days_in_month 2024 2).
Proof.
  destruct (civil_roundtrip (-719468) 2024 2 29) as (H1 & _ & H3);
    [unfold calendar_range; lia|lia|lia|lia|]. by split.
Defined.
