(* ===== verification/Rfc3339.v ===== *)
(** * RFC 3339 timestamps

    The timestamp text of [src/src/cowork/peek.rs] ([format_rfc3339],
    [parse_rfc3339]) and the text that SQLite's
    [strftime('%Y-%m-%dT%H:%M:%fZ','now')] yields. The writer leases store and
    compare these texts as strings, so the order of the texts is proved to be
    the order of the instants. *)

From Stdlib Require Import ZArith Lia String Ascii.
From stdpp Require Import base tactics list gmap strings numbers.
From S2P Require Import Prelude Text Calendar.
Open Scope Z_scope.

(** Division by constants is linear arithmetic once the quotients are named. *)
#[local] Ltac Zify.zify_post_hook ::= Z.to_euclidean_division_equations.

(** ** Definitions *)

(** The texts share their date and time part, up to the seconds. *)
Definition rfc3339_stem (secs : Z) : string :=
  let days := as_i64 (secs / 86400) in
  let sec_of_day := secs mod 86400 in
  let hour := sec_of_day / 3600 in
  let minute := (sec_of_day / 60) mod 60 in
  let second := sec_of_day mod 60 in
  let '(year, month, day) := days_to_ymd days in
  fmt 10 4 year +:+ ("-" +:+ (fmt 10 2 month +:+ ("-" +:+ (fmt 10 2 day +:+
    ("T" +:+ (fmt 10 2 hour +:+ (":" +:+ (fmt 10 2 minute +:+ (":" +:+
    fmt 10 2 second))))))))).

(** [format_rfc3339]; the argument is [t.duration_since(UNIX_EPOCH)] in
    seconds, [0] before the epoch. *)
Definition format_rfc3339 (secs : Z) : string := rfc3339_stem secs +:+ "Z".

(** SQLite's [strftime('%Y-%m-%dT%H:%M:%fZ','now')], with millisecond
    seconds. *)
Definition sql_now (millis : Z) : string :=
  rfc3339_stem (millis / 1000) +:+ ("." +:+ (fmt 10 3 (millis mod 1000) +:+ "Z")).

(** [str::parse] for integers: an optional sign, then at least one digit. *)
Definition digit_of (c : ascii) : option Z :=
  let b := byte_of c in
  if (48 <=? b) && (b <=? 57) then Some (b - 48) else None.

Fixpoint parse_digits (acc : Z) (s : string) : option Z :=
  match s with
  | EmptyString => Some acc
  | String c rest =>
      match digit_of c with
      | Some d => parse_digits (10 * acc + d) rest
      | None => None
      end
  end.

Definition parse_nat (s : string) : option Z :=
  match s with EmptyString => None | _ => parse_digits 0 s end.

Definition parse_i64 (s : string) : option Z :=
  let value :=
    match s with
    | String c rest =>
        if Ascii.eqb c "-" then Z.opp <$> parse_nat rest
        else if Ascii.eqb c "+" then parse_nat rest
        else parse_nat s
    | EmptyString => None
    end in
  match value with
  | Some z => if (i64_min <=? z) && (z <=? i64_max) then Some z else None
  | None => None
  end.

Definition parse_u32 (s : string) : option Z :=
  let value :=
    match s with
    | String c rest => if Ascii.eqb c "+" then parse_nat rest else parse_nat s
    | EmptyString => None
    end in
  match value with
  | Some z => try_u32 z
  | None => None
  end.

#[global] Arguments parse_i64 : simpl never.
#[global] Arguments parse_u32 : simpl never.

(** [str::get(a..b)]. *)
Definition str_get (s : string) (a b : nat) : option string :=
  if (a <=? b)%nat && (b <=? String.length s)%nat
     && is_char_boundary s a && is_char_boundary s b
  then Some (String.substring a (b - a) s) else None.

Definition byte_is (s : string) (i : nat) (c : ascii) : bool :=
  match String.get i s with Some b => Ascii.eqb b c | None => false end.

Fixpoint digit_run (s : string) : nat :=
  match s with
  | String c rest =>
      match digit_of c with Some _ => S (digit_run rest) | None => O end
  | EmptyString => O
  end.

(** The optional fraction: the index after it, [None] for a dot alone. *)
Definition fraction_end (s : string) : option nat :=
  if byte_is s 19 "." then
    match digit_run (drop_bytes 20 s) with
    | O => None
    | n => Some (20 + n)%nat
    end
  else Some 19%nat.

(** The offset in seconds; it ends the text. *)
Definition offset_at (s : string) (i : nat) : option Z :=
  match String.get i s with
  | None => None
  | Some c =>
      if Ascii.eqb c "Z" then
        if (i + 1 =? String.length s)%nat then Some 0 else None
      else if Ascii.eqb c "+" || Ascii.eqb c "-" then
        let sign := if Ascii.eqb c "+" then 1 else -1 in
        if negb (i + 6 =? String.length s)%nat || negb (byte_is s (i + 3) ":")
        then None
        else
          oh ← str_get s (i + 1) (i + 3) ≫= parse_u32;
          om ← str_get s (i + 4) (i + 6) ≫= parse_u32;
          if (23 <? oh) || (59 <? om) then None
          else Some (sign * (oh * 3600 + om * 60))
      else None
  end.

(** [parse_rfc3339]. *)
Definition parse_rfc3339 (s : string) : option Z :=
  if (String.length s <? 20)%nat then None
  else if negb (byte_is s 4 "-") || negb (byte_is s 7 "-") || negb (byte_is s 10 "T")
          || negb (byte_is s 13 ":") || negb (byte_is s 16 ":") then None
  else
    year ← str_get s 0 4 ≫= parse_i64;
    month ← str_get s 5 7 ≫= parse_u32;
    day ← str_get s 8 10 ≫= parse_u32;
    hour ← str_get s 11 13 ≫= parse_u32;
    minute ← str_get s 14 16 ≫= parse_u32;
    second ← str_get s 17 19 ≫= parse_u32;
    if negb ((1 <=? month) && (month <=? 12)) || negb ((1 <=? day) && (day <=? 31))
       || (23 <? hour) || (59 <? minute) || (60 <? second) then None
    else
      i ← fraction_end s;
      offset_secs ← offset_at s i;
      let days := days_from_civil year month day in
      if bool_decide (days_to_ymd days = (year, month, day)) then
        Some (days * 86400 + hour * 3600 + minute * 60 + second - offset_secs)
      else None.

Example format_epoch : format_rfc3339 0 = "1970-01-01T00:00:00Z".
Proof. reflexivity. Qed.
Example format_2026 : format_rfc3339 1776211200 = "2026-04-15T00:00:00Z".
Proof. vm_compute. reflexivity. Qed.
Example sql_now_ex : sql_now 1776211200042 = "2026-04-15T00:00:00.042Z".
Proof. vm_compute. reflexivity. Qed.
Example parse_offset : parse_rfc3339 "2026-04-15T02:30:00.5+02:30" = Some 1776211200.
Proof. vm_compute. reflexivity. Qed.
Example parse_feb_31 : parse_rfc3339 "2026-02-31T00:00:00Z" = None.
Proof. vm_compute. reflexivity. Qed.


(** ** The order of the texts *)

(** The instants from the epoch to the end of the year 9999, for which the year
    has four digits. *)
Definition four_digit_year (secs : Z) : Prop := 0 <= secs < 253402300800.

Definition lex (c k : comparison) : comparison :=
  match c with Eq => k | _ => c end.

Record fields := Fields { fy : Z; fm : Z; fd : Z; fh : Z; fmin : Z; fs : Z }.

Definition fields_of (secs : Z) : fields :=
  let '(y, m, d) := days_to_ymd (secs / 86400) in
  Fields y m d (secs mod 86400 / 3600) ((secs mod 86400 / 60) mod 60) (secs mod 86400 mod 60).

Definition fields_ok (f : fields) : Prop :=
  0 <= fy f < 10000 ∧ 0 <= fm f < 100 ∧ 0 <= fd f < 100 ∧
  0 <= fh f < 100 ∧ 0 <= fmin f < 100 ∧ 0 <= fs f < 100.

Definition stem_of (f : fields) : string :=
  digits 10 4 (fy f) +:+ ("-" +:+ (digits 10 2 (fm f) +:+ ("-" +:+ (digits 10 2 (fd f) +:+
    ("T" +:+ (digits 10 2 (fh f) +:+ (":" +:+ (digits 10 2 (fmin f) +:+ (":" +:+
    digits 10 2 (fs f)))))))))).

Lemma days_four_digit secs :
  four_digit_year secs → 0 <= secs / 86400 <= 2932896.
Proof. unfold four_digit_year. lia. Qed.

Lemma ymd_four_digit days :
  0 <= days <= 2932896 →
  let '(y, m, d) := days_to_ymd days in 1970 <= y <= 9999 ∧ 1 <= m <= 12 ∧ 1 <= d <= 31.
Proof.
  intros Hd. assert (calendar_range days) as Hr by (unfold calendar_range; lia).
  pose proof (days_to_ymd_civil days Hr) as Hc.
  assert (19700101 <= ymd_code (days_to_ymd days) <= 99991231) as Hcode.
  { assert (ymd_code (days_to_ymd 0) = 19700101) as <- by reflexivity.
    assert (ymd_code (days_to_ymd 2932896) = 99991231) as <- by reflexivity.
    unfold calendar_range in Hr. clear Hc.
    split; [destruct (decide (0 = days)) as [<-|]|destruct (decide (days = 2932896)) as [->|]];
      first [apply Z.le_refl | apply Z.lt_le_incl, ymd_code_mono; unfold calendar_range; lia]. }
  destruct (days_to_ymd days) as [[y m] d]. unfold ymd_code in Hcode.
  destruct Hc as [Hm Hdd].
  assert (days_in_month y m <= 31) by (unfold days_in_month; repeat case_match; lia). lia.
Qed.

Lemma fields_of_ok secs :
  four_digit_year secs → fields_ok (fields_of secs) ∧ rfc3339_stem secs = stem_of (fields_of secs).
Proof.
  intros Hs. pose proof (days_four_digit _ Hs) as Hd.
  pose proof (ymd_four_digit _ Hd) as Hymd.
  unfold fields_of, rfc3339_stem. rewrite as_i64_id by (unfold_widths; lia).
  destruct (days_to_ymd (secs / 86400)) as [[y m] d].
  unfold fields_ok, stem_of, four_digit_year in *; simpl.
  split; [lia|]. rewrite !fmt_fixed by (simpl; lia). done.
Qed.

Lemma stem_length f : String.length (stem_of f) = 19%nat.
Proof. unfold stem_of. autorewrite with text. by rewrite !digits_length. Qed.

Lemma compare_step w n m t1 t2 :
  0 <= n < 10 ^ Z.of_nat w → 0 <= m < 10 ^ Z.of_nat w →
  String.compare (digits 10 w n +:+ t1) (digits 10 w m +:+ t2)
  = lex (n ?= m) (String.compare t1 t2).
Proof.
  intros Hn Hm. rewrite str_compare_app by (by rewrite !digits_length).
  rewrite digits_compare by lia. by destruct (n ?= m).
Qed.

Lemma compare_same c t1 t2 : String.compare (String c "" +:+ t1) (String c "" +:+ t2)
  = String.compare t1 t2.
Proof. rewrite str_compare_app by done. by rewrite str_compare_refl. Qed.

Lemma stem_compare f g :
  fields_ok f → fields_ok g →
  String.compare (stem_of f) (stem_of g) =
  lex (fy f ?= fy g) (lex (fm f ?= fm g) (lex (fd f ?= fd g)
    (lex (fh f ?= fh g) (lex (fmin f ?= fmin g) (fs f ?= fs g))))).
Proof.
  unfold fields_ok, stem_of. intros (?&?&?&?&?&?) (?&?&?&?&?&?).
  do 5 (rewrite compare_step by (simpl; lia); rewrite compare_same).
  by rewrite digits_compare by (simpl; lia).
Qed.

Lemma stem_lt a b :
  four_digit_year a → four_digit_year b → a < b →
  String.compare (rfc3339_stem a) (rfc3339_stem b) = Lt.
Proof.
  intros Ha Hb Hlt. destruct (fields_of_ok a Ha) as [Hfa ->], (fields_of_ok b Hb) as [Hfb ->].
  rewrite stem_compare by done.
  pose proof (days_four_digit _ Ha). pose proof (days_four_digit _ Hb).
  pose proof (ymd_four_digit (a / 86400) ltac:(done)) as Va.
  pose proof (ymd_four_digit (b / 86400) ltac:(done)) as Vb.
  assert (a / 86400 < b / 86400 ∨ a / 86400 = b / 86400 ∧ a mod 86400 < b mod 86400)
    as [Hd|[Hd Ht]] by lia.
  - pose proof (ymd_code_mono (a / 86400) (b / 86400)) as Hm.
    unfold fields_of, calendar_range, ymd_code in *.
    destruct (days_to_ymd (a / 86400)) as [[y1 m1] d1], (days_to_ymd (b / 86400)) as [[y2 m2] d2].
    simpl. specialize (Hm ltac:(lia) ltac:(lia) Hd).
    destruct (Z.compare_spec y1 y2); simpl; [|done|lia].
    destruct (Z.compare_spec m1 m2); simpl; [|done|lia].
    destruct (Z.compare_spec d1 d2); simpl; [lia|done|lia].
  - unfold fields_of. rewrite Hd. destruct (days_to_ymd (b / 86400)) as [[y m] d]. simpl.
    rewrite !Z.compare_refl. simpl.
    destruct (Z.compare_spec (a mod 86400 / 3600) (b mod 86400 / 3600)); simpl; [|done|lia].
    destruct (Z.compare_spec ((a mod 86400 / 60) mod 60) ((b mod 86400 / 60) mod 60));
      simpl; [|done|lia].
    apply Z.compare_lt_iff. lia.
Qed.

Lemma stem_order a b :
  four_digit_year a → four_digit_year b →
  String.compare (rfc3339_stem a) (rfc3339_stem b) = (a ?= b).
Proof.
  intros Ha Hb. symmetry. destruct (Z.compare_spec a b) as [<-|Hlt|Hlt].
  - by rewrite str_compare_refl.
  - by rewrite stem_lt.
  - rewrite String.compare_antisym. by rewrite stem_lt.
Qed.

(** ** Reading a formatted text back *)

Lemma small_digit_cases v :
  0 <= v < 10 → v = 0 ∨ v = 1 ∨ v = 2 ∨ v = 3 ∨ v = 4 ∨ v = 5 ∨ v = 6 ∨ v = 7 ∨ v = 8 ∨ v = 9.
Proof. lia. Qed.

Lemma digit_char_spec v :
  0 <= v < 10 →
  digit_of (digit_char v) = Some v ∧ is_continuation (digit_char v) = false.
Proof.
  intros Hv. pose proof (small_digit_cases v Hv) as Hc.
  destruct_or! Hc; subst v; done.
Qed.

Lemma parse_signless c rest v :
  digit_of c = Some v →
  parse_i64 (String c rest) =
    (z ← parse_nat (String c rest); if (i64_min <=? z) && (z <=? i64_max) then Some z else None) ∧
  parse_u32 (String c rest) = parse_nat (String c rest) ≫= try_u32.
Proof. by destruct c as [[] [] [] [] [] [] [] []]. Qed.

Lemma digits_two n :
  0 <= n < 100 → ∃ a b, digits 10 2 n = String a (String b "") ∧
    is_continuation a = false ∧ is_continuation b = false ∧
    parse_u32 (String a (String b "")) = Some n.
Proof.
  intros Hn. eexists _, _. split; [reflexivity|].
  destruct (digit_char_spec ((n / 10) mod 10)) as [D1 C1]; [lia|].
  destruct (digit_char_spec (n mod 10)) as [D2 C2]; [lia|].
  split_and!; [done..|]. rewrite (proj2 (parse_signless _ _ _ D1)).
  unfold parse_nat. simpl. rewrite D1. simpl. rewrite D2.
  simpl. apply try_u32_Some. unfold_widths. lia.
Qed.

Lemma digits_four n :
  0 <= n < 10000 → ∃ a b c d, digits 10 4 n = String a (String b (String c (String d ""))) ∧
    is_continuation a = false ∧
    parse_i64 (String a (String b (String c (String d "")))) = Some n.
Proof.
  intros Hn. eexists _, _, _, _. split; [reflexivity|].
  destruct (digit_char_spec ((n / 10 / 10 / 10) mod 10)) as [D1 C1]; [lia|].
  destruct (digit_char_spec ((n / 10 / 10) mod 10)) as [D2 _]; [lia|].
  destruct (digit_char_spec ((n / 10) mod 10)) as [D3 _]; [lia|].
  destruct (digit_char_spec (n mod 10)) as [D4 _]; [lia|].
  split; [done|]. rewrite (proj1 (parse_signless _ _ _ D1)).
  unfold parse_nat. simpl. rewrite D1. simpl. rewrite D2. simpl. rewrite D3. simpl. rewrite D4.
  simpl. match goal with |- context [Some ?z] => replace z with n by lia end.
  unfold_widths. by destruct (Z.leb_spec (- 2 ^ 63) n), (Z.leb_spec n (2 ^ 63 - 1)); try lia.
Qed.

(** Evaluates the string traversals and leaves the arithmetic alone. *)
Ltac cbn_text :=
  cbn -[Z.mul Z.add Z.sub Z.leb Z.ltb bool_decide days_to_ymd days_from_civil
        parse_u32 parse_i64 is_continuation].

Lemma parse_stem f :
  0 <= fy f < 10000 → 1 <= fm f <= 12 → 1 <= fd f <= 31 →
  0 <= fh f <= 23 → 0 <= fmin f <= 59 → 0 <= fs f <= 59 →
  days_to_ymd (days_from_civil (fy f) (fm f) (fd f)) = (fy f, fm f, fd f) →
  parse_rfc3339 (stem_of f +:+ "Z") =
  Some (days_from_civil (fy f) (fm f) (fd f) * 86400 + fh f * 3600 + fmin f * 60 + fs f).
Proof.
  destruct f as [y m d h mi s]. simpl. intros Hy Hm Hd Hh Hmi Hs Hrt.
  destruct (digits_four y) as (y1 & y2 & y3 & y4 & Ey & Cy & Py); [lia|].
  destruct (digits_two m) as (m1 & m2 & Em & Cm & Cm' & Pm); [lia|].
  destruct (digits_two d) as (d1 & d2 & Ed & Cd & Cd' & Pd); [lia|].
  destruct (digits_two h) as (h1 & h2 & Eh & Ch & Ch' & Ph); [lia|].
  destruct (digits_two mi) as (i1 & i2 & Ei & Ci & Ci' & Pi); [lia|].
  destruct (digits_two s) as (s1 & s2 & Es & Cs & Cs' & Ps); [lia|].
  unfold stem_of; cbn [fy fm fd fh fmin fs]. rewrite Ey, Em, Ed, Eh, Ei, Es. autorewrite with text.
  unfold parse_rfc3339, str_get, is_char_boundary, fraction_end, offset_at, byte_is.
  cbn_text. rewrite Cm, Cd, Ch, Ci, Cs.
  change (is_continuation "-") with false. change (is_continuation "T") with false.
  change (is_continuation ":") with false. change (is_continuation "Z") with false.
  cbn_text.
  rewrite Py, Pm, Pd, Ph, Pi, Ps. cbn_text.
  rewrite (proj2 (Z.leb_le 1 m)), (proj2 (Z.leb_le m 12)), (proj2 (Z.leb_le 1 d)),
    (proj2 (Z.leb_le d 31)), (proj2 (Z.ltb_ge 23 h)), (proj2 (Z.ltb_ge 59 mi)),
    (proj2 (Z.ltb_ge 60 s)) by (clear -Hm Hd Hh Hmi Hs; lia).
  cbn_text. rewrite bool_decide_eq_true_2 by done. by rewrite Z.sub_0_r.
Qed.

(** The two texts compared by the lease queries. *)
Lemma format_sql_compare secs millis :
  four_digit_year secs → four_digit_year (millis / 1000) →
  String.compare (format_rfc3339 secs) (sql_now millis) = lex (secs ?= millis / 1000) Gt.
Proof.
  intros Hs Hm. unfold format_rfc3339, sql_now.
  destruct (fields_of_ok _ Hs) as [_ E1], (fields_of_ok _ Hm) as [_ E2].
  rewrite str_compare_app by (by rewrite E1, E2, !stem_length).
  rewrite stem_order by done. destruct (secs ?= millis / 1000); done.
Qed.

Lemma digit_of_range c v : digit_of c = Some v → 0 <= v <= 9.
Proof.
  unfold digit_of. destruct (Z.leb_spec 48 (byte_of c)), (Z.leb_spec (byte_of c) 57);
    simpl; intros; simplify_eq; lia.
Qed.

Lemma parse_digits_bound acc s v :
  parse_digits acc s = Some v →
  acc * 10 ^ str_len s <= v < (acc + 1) * 10 ^ str_len s.
Proof.
  unfold str_len. revert acc. induction s as [|c s IH]; intros acc; cbn [parse_digits String.length].
  { intros [= <-]. lia. }
  destruct (digit_of c) as [d|] eqn:Ed; [|done]. intros H. apply IH in H.
  apply digit_of_range in Ed.
  rewrite Nat2Z.inj_succ, Z.pow_succ_r by lia.
  assert (0 < 10 ^ Z.of_nat (String.length s)) by (apply Z.pow_pos_nonneg; lia). nia.
Qed.

Lemma parse_nat_four s v :
  parse_nat s = Some v → (String.length s <= 4)%nat → 0 <= v <= 9999.
Proof.
  intros H Hlen. destruct s as [|c s]; [done|]. apply parse_digits_bound in H.
  unfold str_len in H. assert (10 ^ Z.of_nat (String.length (String c s)) <= 10 ^ 4)
    by (apply Z.pow_le_mono_r; lia). lia.
Qed.

Lemma parse_i64_four s v :
  parse_i64 s = Some v → (String.length s <= 4)%nat → -9999 <= v <= 9999.
Proof.
  unfold parse_i64. destruct s as [|c s]; [done|]. cbn [String.length]. intros H Hlen.
  destruct (Ascii.eqb c "-").
  { destruct (parse_nat s) as [z|] eqn:E; [|done]. apply parse_nat_four in E; [|lia].
    simpl in H. case_match; simplify_eq. lia. }
  destruct (Ascii.eqb c "+").
  - destruct (parse_nat s) as [z|] eqn:E; [|done]. apply parse_nat_four in E; [|lia].
    case_match; simplify_eq. lia.
  - destruct (parse_nat (String c s)) as [z|] eqn:E; [|done].
    apply parse_nat_four in E; [|simpl; lia]. case_match; simplify_eq. lia.
Qed.

Lemma parse_u32_nonneg s v : parse_u32 s = Some v → 0 <= v.
Proof.
  unfold parse_u32. intros H. case_match; [|done].
  apply try_u32_Some in H as [-> H]. unfold_widths; lia.
Qed.

Lemma substring_length a n s : (String.length (String.substring a n s) <= n)%nat.
Proof.
  revert a n. induction s as [|c s IH]; intros [|a] [|n]; simpl; try lia.
  - specialize (IH O n). lia.
  - apply (IH a O).
  - apply (IH a (S n)).
Qed.

Lemma str_get_length s a b t : str_get s a b = Some t → (String.length t <= b - a)%nat.
Proof. unfold str_get. case_match; [|done]. intros [= <-]. apply substring_length. Qed.

Lemma offset_at_range s i off : offset_at s i = Some off → -86400 < off < 86400.
Proof.
  unfold offset_at. destruct (String.get i s) as [c|]; [|done].
  destruct (Ascii.eqb c "Z"); [case_match; [|done]; intros; simplify_eq; lia|].
  destruct (Ascii.eqb c "+" || Ascii.eqb c "-"); [|done].
  destruct (_ || _); [done|]. intros H.
  apply bind_Some in H as (oh & Hoh & H). apply bind_Some in H as (om & Hom & H).
  apply bind_Some in Hoh as (? & _ & Hoh%parse_u32_nonneg).
  apply bind_Some in Hom as (? & _ & Hom%parse_u32_nonneg).
  destruct (Z.ltb_spec 23 oh), (Z.ltb_spec 59 om); simplify_eq/=.
  destruct (Ascii.eqb c "+"); lia.
Qed.

(** ** Properties *)

(** Formatted timestamps compare as text exactly as the instants they denote
    compare as numbers, up to the end of the year 9999. *)
Theorem format_rfc3339_order a b :
  four_digit_year a → four_digit_year b →
  String.compare (format_rfc3339 a) (format_rfc3339 b) = (a ?= b).
Proof.
  intros Ha Hb. unfold format_rfc3339.
  destruct (fields_of_ok _ Ha) as [_ E1], (fields_of_ok _ Hb) as [_ E2].
  rewrite str_compare_app by (by rewrite E1, E2, !stem_length).
  rewrite stem_order by done. by destruct (a ?= b).
Qed.

Lemma format_rfc3339_order_witness :
  String.compare (format_rfc3339 951782399) (format_rfc3339 951782400) = Lt.
Proof.
  rewrite format_rfc3339_order; [reflexivity|unfold four_digit_year; lia..].
Defined.

(** The SQL predicate [expires_at < strftime('%Y-%m-%dT%H:%M:%fZ','now')]
    between a whole-second expiry and a millisecond clock holds exactly when the
    clock's second is past the expiry's: the texts never decide it wrongly,
    although their lengths differ. *)
Theorem sql_expired_iff expires millis :
  four_digit_year expires → four_digit_year (millis / 1000) →
  String.ltb (format_rfc3339 expires) (sql_now millis) = (expires <? millis / 1000).
Proof.
  intros He Hm. unfold String.ltb. rewrite format_sql_compare by done.
  unfold Z.ltb. by destruct (expires ?= millis / 1000).
Qed.

Lemma sql_expired_iff_witness :
  String.ltb (format_rfc3339 1776211200) (sql_now 1776211200999) = false.
Proof.
  rewrite sql_expired_iff; [reflexivity|unfold four_digit_year; lia..].
Defined.

Lemma parse_format secs :
  four_digit_year secs → parse_rfc3339 (format_rfc3339 secs) = Some secs.
Proof.
  intros Hs. pose proof (days_four_digit _ Hs) as Hd.
  pose proof (ymd_four_digit _ Hd) as Hymd.
  pose proof (days_roundtrip_core (secs / 86400)) as Hrt.
  unfold format_rfc3339. destruct (fields_of_ok _ Hs) as [_ ->].
  unfold fields_of, calendar_range in *.
  destruct (days_to_ymd (secs / 86400)) as [[y m] d] eqn:E.
  rewrite parse_stem; simpl; rewrite ?Hrt by lia; try lia; [f_equal; lia|done].
Qed.

(** [parse_rfc3339] reads back every timestamp that [format_rfc3339]
    writes. *)
Theorem parse_format_roundtrip secs :
  four_digit_year secs → parse_rfc3339 (format_rfc3339 secs) = Some secs.
Proof. apply parse_format. Qed.

Lemma parse_format_roundtrip_witness :
  parse_rfc3339 (format_rfc3339 951782400) = Some 951782400.
Proof. apply (parse_format_roundtrip 951782400). unfold four_digit_year; lia. Defined.

(** A text that [parse_rfc3339] accepts carries a date of the calendar and a
    time of day, and the value is that instant shifted by the offset; in
    particular impossible dates such as February 30 are refused. *)
Theorem parse_rfc3339_sound s t :
  parse_rfc3339 s = Some t →
  ∃ y m d h mi sec off,
    civil_date (y, m, d) ∧ 0 <= h <= 23 ∧ 0 <= mi <= 59 ∧ 0 <= sec <= 60 ∧
    -86400 < off < 86400 ∧
    t = days_from_civil y m d * 86400 + h * 3600 + mi * 60 + sec - off.
Proof.
  unfold parse_rfc3339. destruct (_ <? _)%nat; [done|]. destruct (_ || _); [done|]. intros H.
  apply bind_Some in H as (y & Hy & H). apply bind_Some in H as (m & Hm & H).
  apply bind_Some in H as (d & Hd & H). apply bind_Some in H as (h & Hh & H).
  apply bind_Some in H as (mi & Hmi & H). apply bind_Some in H as (sec & Hsec & H).
  apply bind_Some in Hy as (ys & Hys%str_get_length & Hy%parse_i64_four); [|done].
  apply bind_Some in Hh as (? & _ & Hh%parse_u32_nonneg).
  apply bind_Some in Hmi as (? & _ & Hmi%parse_u32_nonneg).
  apply bind_Some in Hsec as (? & _ & Hsec%parse_u32_nonneg).
  match type of H with (if ?g then _ else _) = _ => destruct g eqn:G; [done|] end.
  rewrite !orb_false_iff, !negb_false_iff, !andb_true_iff in G.
  destruct_and! G. zbool.
  apply bind_Some in H as (i & Hi & H). apply bind_Some in H as (off & Hoff%offset_at_range & H).
  case_bool_decide as Hrt; [|done]. injection H as <-.
  assert (civil_date (y, m, d)).
  { rewrite <- Hrt. apply days_to_ymd_civil, days_from_civil_range; lia. }
  exists y, m, d, h, mi, sec, off. split; [done|]. lia.
Qed.

Lemma parse_rfc3339_sound_witness : ∃ y m d h mi sec off,
  civil_date (y, m, d) ∧ 0 <= h <= 23 ∧ 0 <= mi <= 59 ∧ 0 <= sec <= 60 ∧
  -86400 < off < 86400 ∧
  1776211200 = days_from_civil y m d * 86400 + h * 3600 + mi * 60 + sec - off.
Proof.
  apply (parse_rfc3339_sound "2026-04-15T02:30:00.5+02:30"). vm_compute. reflexivity.
Defined.
