(* ===== verification/ProcessIdentity.v ===== *)
(** * Process identities

    The process-birth identities of [src/src/core/process_identity.rs] on Linux:
    the identity is a hash of the boot id, the pid and the start time that
    [/proc/<pid>/stat] reports. The files of [/proc] are the fields of a record
    [os], read at one moment; the hash (BLAKE3, a third-party crate) is a
    parameter. *)

From Stdlib Require Import ZArith Lia String Ascii.
From stdpp Require Import base tactics list gmap strings numbers.
From S2P Require Import Prelude Text.
Open Scope Z_scope.

(** ** Definitions *)

(** What reading a file of [/proc] gives. *)
Inductive read_result (A : Type) :=
  | ReadOk (content : A)
  | ReadNotFound
  | ReadPermissionDenied
  | ReadOtherError.
Arguments ReadOk {A} content.
Arguments ReadNotFound {A}.
Arguments ReadPermissionDenied {A}.
Arguments ReadOtherError {A}.

(** The facts the process can learn from the system. *)
Record os := Os {
  os_pid : Z;                               (* [std::process::id()] *)
  os_start_nanos : Z;                       (* the clock, for the fallback identity *)
  os_pid_ns : option string;                (* the link [/proc/self/ns/pid] *)
  os_boot_id : option string;               (* [/proc/sys/kernel/random/boot_id] *)
  os_stat : Z → read_result string;         (* [/proc/<pid>/stat] *)
  os_proc_dir : Z → read_result unit;       (* metadata of [/proc/<pid>] *)
}.

Definition DAEMON_OWNER_PREFIX : string := "mempal-daemon-".

Definition NUL : string := String (ascii_of_N 0) "".

(** [parse_start_ticks]: the fields after the last [") "] of the line, which
    closes the command name. *)
Fixpoint after_last_close (s : string) : option string :=
  match s with
  | EmptyString => None
  | String _ rest =>
      match after_last_close rest with
      | Some r => Some r
      | None => if String.prefix ") " s then Some (drop_bytes 2 s) else None
      end
  end.

(** [u8::is_ascii_whitespace]. *)
Definition is_ascii_whitespace (c : ascii) : bool :=
  let b := byte_of c in
  (b =? 32) || (b =? 9) || (b =? 10) || (b =? 12) || (b =? 13).

(** [split(is_ascii_whitespace)]: always at least one piece. *)
Fixpoint split_ws (s : string) : list string :=
  match s with
  | EmptyString => [""]
  | String c rest =>
      if is_ascii_whitespace c then "" :: split_ws rest
      else match split_ws rest with
           | [] => [String c ""]
           | f :: fs => String c f :: fs
           end
  end.

(** [try_fold] with the checked multiplication and addition of [u64]. *)
Fixpoint fold_ticks (value : Z) (field : string) : option Z :=
  match field with
  | EmptyString => Some value
  | String c rest =>
      let digit := byte_of c - 48 in
      if (0 <=? digit) && (digit <=? 9) then
        if value * 10 <=? u64_max then
          if value * 10 + digit <=? u64_max then fold_ticks (value * 10 + digit) rest
          else None
        else None
      else None
  end.

Definition parse_stat_fields (tail : string) : option Z :=
  let fields := List.filter (fun f => negb (is_empty f)) (split_ws tail) in
  match fields with
  | [] => None
  | state :: fields =>
      match state with
      | String c "" =>
          if Ascii.eqb c "Z" || Ascii.eqb c "X" then None
          else match fields !! 18%nat with
               | Some field => fold_ticks 0 field
               | None => None
               end
      | _ => None
      end
  end.

Definition parse_start_ticks (stat : string) : option Z :=
  match after_last_close stat with
  | Some tail => parse_stat_fields tail
  | None => None
  end.

(** [boot_id]. *)
Definition boot_id (sys : os) : option string :=
  match os_boot_id sys with
  | Some value => let value := trim value in if is_empty value then None else Some value
  | None => None
  end.

(** [current_pid_namespace]. *)
Definition current_pid_namespace (sys : os) : option string :=
  match os_pid_ns sys with
  | Some target => if is_empty target then None else Some target
  | None => None
  end.

Inductive LinuxProcessResult :=
  | Alive (found : string)
  | ProcDead
  | ProcUnverifiable.

Inductive ProcessLiveness := Live | Dead | Unverifiable.

#[export] Instance process_liveness_eq_dec : EqDecision ProcessLiveness.
Proof. solve_decision. Defined.

Section identity.
Context (blake3_hex : string → string).

Definition identity_hash (text : string) : string :=
  String.substring 0 16 (blake3_hex text).

(** What is hashed for a live process. *)
Definition identity_text (boot : string) (pid start_ticks : Z) : string :=
  boot +:+ (NUL +:+ (show pid +:+ (NUL +:+ show start_ticks))).

Definition linux_process_identity (sys : os) (pid : Z) : LinuxProcessResult :=
  if pid =? 0 then ProcDead
  else match boot_id sys with
       | None => ProcUnverifiable
       | Some boot =>
           match os_stat sys pid with
           | ReadOk stat =>
               match parse_start_ticks stat with
               | Some start_ticks => Alive (identity_hash (identity_text boot pid start_ticks))
               | None => ProcDead
               end
           | ReadNotFound => ProcDead
           | ReadPermissionDenied => ProcUnverifiable
           | ReadOtherError => ProcUnverifiable
           end
       end.

Definition fallback_process_identity (sys : os) : string :=
  identity_hash (show (os_pid sys) +:+ (NUL +:+ show (os_start_nanos sys))).

(** [current_process_identity]: the value the [OnceLock] is set to at its
    first use. *)
Definition current_process_identity (sys : os) : string :=
  match linux_process_identity sys (os_pid sys) with
  | Alive found => found
  | _ => fallback_process_identity sys
  end.

Definition daemon_owner (pid : Z) (birth : string) : string :=
  DAEMON_OWNER_PREFIX +:+ (show pid +:+ ("-" +:+ birth)).

Definition current_daemon_owner (sys : os) : string :=
  daemon_owner (os_pid sys) (current_process_identity sys).

Definition daemon_owner_matches_process (sys : os) (owner : string) (pid : Z) : bool :=
  match linux_process_identity sys pid with
  | Alive found => bool_decide (daemon_owner pid found = owner)
  | _ => false
  end.

(** [process_identity_liveness]; [own] is the cached identity of the calling
    process. *)
Definition process_identity_liveness (sys : os) (own : string) (pid : Z)
    (expected : string) (expected_pid_namespace : option string) : ProcessLiveness :=
  match expected_pid_namespace with
  | None => Unverifiable
  | Some ns =>
      if negb (bool_decide (current_pid_namespace sys = Some ns)) then Unverifiable
      else if pid =? os_pid sys then
        if bool_decide (own = expected) then Live else Dead
      else match linux_process_identity sys pid with
           | Alive found => if bool_decide (found = expected) then Live else Dead
           | ProcDead => Dead
           | ProcUnverifiable => Unverifiable
           end
  end.

Definition process_identity_matches (sys : os) (own : string) (pid : Z)
    (expected : string) : option bool :=
  match process_identity_liveness sys own pid expected (current_pid_namespace sys) with
  | Live => Some true
  | Dead => Some false
  | Unverifiable => None
  end.
End identity.

Definition stat_line (name tail : string) : string := "123 (" +:+ (name +:+ (") " +:+ tail)).

Example ticks_ex :
  parse_start_ticks (stat_line "mempal ) worker" "S 0 0 0 0 0 0 0 0 0 0 0 0 0 0 0 0 0 0 98765")
  = Some 98765.
Proof. vm_compute. reflexivity. Qed.
Example ticks_zombie :
  parse_start_ticks (stat_line "mempal" "Z 0 0 0 0 0 0 0 0 0 0 0 0 0 0 0 0 0 0 98765") = None.
Proof. vm_compute. reflexivity. Qed.

(** ** Lemmas *)

Lemma prefix_app p s : String.prefix p (p +:+ s) = true.
Proof.
  induction p as [|c p IH]; [by destruct s|]. autorewrite with text. simpl.
  destruct (ascii_dec c c); [done|congruence].
Qed.

Lemma contains_prefix needle hay : String.prefix needle hay = true → contains needle hay = true.
Proof. intros H. destruct hay; cbn [contains]; rewrite H; done. Qed.

Lemma contains_cons needle c hay :
  contains needle (String c hay) = false → contains needle hay = false.
Proof. simpl. intros H. by apply orb_false_iff in H as [_ H]. Qed.

Lemma after_last_close_none s : contains ") " s = false → after_last_close s = None.
Proof.
  induction s as [|c s IH]; [done|]. intros H.
  cbn [after_last_close]. rewrite IH by (by eapply contains_cons).
  destruct (String.prefix ") " (String c s)) eqn:E; [|done].
  by rewrite (contains_prefix _ _ E) in H.
Qed.

Lemma after_last_close_app p tail :
  contains ") " tail = false → after_last_close (p +:+ (") " +:+ tail)) = Some tail.
Proof.
  intros H. induction p as [|c p IH].
  - autorewrite with text. cbn [after_last_close].
    rewrite (after_last_close_none tail) by done.
    destruct (String.prefix ") " (String " " tail)) eqn:E; [done|].
    change (String ")" (String " " tail)) with (") " +:+ tail). by rewrite prefix_app.
  - autorewrite with text. cbn [after_last_close]. autorewrite with text in IH. by rewrite IH.
Qed.

Fixpoint no_nul (s : string) : bool :=
  match s with
  | EmptyString => true
  | String c rest => negb (Ascii.eqb c (ascii_of_N 0)) && no_nul rest
  end.

Lemma nul_split a b s t :
  no_nul a = true → no_nul b = true → a +:+ (NUL +:+ s) = b +:+ (NUL +:+ t) → a = b ∧ s = t.
Proof.
  revert b. induction a as [|c a IH]; intros [|d b] Ha Hb; autorewrite with text;
    unfold NUL; autorewrite with text; intros Heq; simplify_eq/=; try done.
  apply andb_true_iff in Ha as [_ Ha], Hb as [_ Hb].
  destruct (IH b) as [-> ->]; [assumption..|done].
Qed.

Lemma identity_text_inj boot boot' pid t t' :
  no_nul boot = true → no_nul boot' = true → 0 <= t → 0 <= t' →
  identity_text boot pid t = identity_text boot' pid t' → boot = boot' ∧ t = t'.
Proof.
  unfold identity_text. intros Hb Hb' Ht Ht' Heq.
  apply nul_split in Heq as [-> Heq]; [|done..].
  apply str_app_inj in Heq as [_ Heq]; [|done].
  apply str_app_inj in Heq as [_ Heq]; [|done].
  split; [done|]. unfold show in Heq. apply fmt_inj in Heq; [done|lia..].
Qed.

(** ** Properties *)

(** The start time read from [/proc/<pid>/stat] does not depend on the
    command name: whatever the name contains, closing parentheses and spaces
    included, the fields are those after the name. *)
Theorem start_ticks_name_irrelevant head name tail :
  contains ") " tail = false →
  parse_start_ticks (head +:+ (name +:+ (") " +:+ tail))) = parse_stat_fields tail.
Proof.
  intros H. unfold parse_start_ticks. rewrite <- str_app_assoc.
  by rewrite after_last_close_app.
Qed.

Lemma start_ticks_name_irrelevant_witness :
  parse_start_ticks ("7 (" +:+ ("a) Z 1) b" +:+
    (") " +:+ "S 0 0 0 0 0 0 0 0 0 0 0 0 0 0 0 0 0 0 42")))
  = parse_stat_fields "S 0 0 0 0 0 0 0 0 0 0 0 0 0 0 0 0 0 0 42".
Proof. apply (start_ticks_name_irrelevant "7 (" "a) Z 1) b"). reflexivity. Defined.

(** A daemon owner recorded for one process birth names a running process
    exactly when the boot and the start time are those of that birth, so a pid
    the kernel has reused is never taken for the recorded daemon. The hypothesis
    [no_collision] is that the hash separates the two births compared. *)
Theorem daemon_owner_matches_iff blake3_hex sys pid boot boot' ticks ticks' stat :
  pid ≠ 0 → no_nul boot = true → no_nul boot' = true → 0 <= ticks → 0 <= ticks' →
  boot_id sys = Some boot' → os_stat sys pid = ReadOk stat →
  parse_start_ticks stat = Some ticks' →
  (identity_hash blake3_hex (identity_text boot' pid ticks') =
   identity_hash blake3_hex (identity_text boot pid ticks) →
   identity_text boot' pid ticks' = identity_text boot pid ticks) →
  daemon_owner_matches_process blake3_hex sys
    (daemon_owner pid (identity_hash blake3_hex (identity_text boot pid ticks))) pid = true
  ↔ boot' = boot ∧ ticks' = ticks.
Proof.
  intros Hpid Hb Hb' Ht Ht' Hboot Hstat Hparse no_collision.
  unfold daemon_owner_matches_process, linux_process_identity.
  destruct (Z.eqb_spec pid 0); [done|]. rewrite Hboot, Hstat, Hparse.
  rewrite bool_decide_eq_true. split.
  - intros Heq. unfold daemon_owner in Heq.
    do 3 apply str_app_inj in Heq as [_ Heq]; try done.
    eapply identity_text_inj; eauto.
  - by intros [-> ->].
Qed.

Definition witness_os : os :=
  Os 10 0 (Some "pid:[1]") (Some "boot-1")
     (fun _ => ReadOk (stat_line "x" "S 0 0 0 0 0 0 0 0 0 0 0 0 0 0 0 0 0 0 5"))
     (fun _ => ReadOk ()).

Lemma daemon_owner_matches_iff_witness :
  daemon_owner_matches_process String.rev witness_os
    (daemon_owner 7 (identity_hash String.rev (identity_text "boot-1" 7 4))) 7 = true
  ↔ "boot-1" = "boot-1" ∧ 5 = 4.
Proof.
  apply (daemon_owner_matches_iff String.rev witness_os 7 "boot-1" "boot-1" 4 5
           (stat_line "x" "S 0 0 0 0 0 0 0 0 0 0 0 0 0 0 0 0 0 0 5"));
    [lia|reflexivity|reflexivity|lia|lia|reflexivity|reflexivity|vm_compute; reflexivity|].
  vm_compute. intros H. discriminate H.
Defined.

(** Liveness fails closed: a holder is declared dead only in a verified pid
    namespace, and then because it is this process under another identity, or
    because [/proc] shows that its process is gone or is another birth; every
    other doubt is [Unverifiable]. *)
Theorem liveness_dead_iff blake3_hex sys own pid expected ns :
  process_identity_liveness blake3_hex sys own pid expected ns = Dead ↔
  ∃ n, ns = Some n ∧ current_pid_namespace sys = Some n ∧
    ((pid = os_pid sys ∧ own ≠ expected) ∨
     (pid ≠ os_pid sys ∧ linux_process_identity blake3_hex sys pid ≠ ProcUnverifiable ∧
      linux_process_identity blake3_hex sys pid ≠ Alive expected)).
Proof.
  unfold process_identity_liveness. destruct ns as [n|]; [|naive_solver].
  case_bool_decide as Hns; simpl; [|naive_solver].
  destruct (Z.eqb_spec pid (os_pid sys)) as [Hp|Hp].
  - case_bool_decide; naive_solver.
  - destruct (linux_process_identity blake3_hex sys pid); [case_bool_decide|..]; naive_solver.
Qed.
