(* ===== verification/WriterLease.v ===== *)
(** * Runtime writer leases

    The generation-fenced writer lease of [src/src/core/db.rs],
    [db_writer_lease_fence.rs], [db_writer_lease_liveness.rs] and
    [db_writer_lease_restore.rs]. The state is the two SQLite tables
    [runtime_writer_leases] (primary key [name]) and
    [runtime_writer_lease_generations]; every operation runs under BEGIN
    IMMEDIATE, so it is one step on that state. Clock readings are arguments: a
    [SystemTime] in seconds, SQLite's [now] in milliseconds. *)

From Stdlib Require Import ZArith Lia String Ascii.
From stdpp Require Import base tactics list gmap strings numbers.
From S2P Require Import Prelude Text Calendar Rfc3339 ProcessIdentity.
Open Scope Z_scope.
Open Scope rust_scope.

(** ** State *)

(** A row of [runtime_writer_leases], without its key. *)
Record lease_row := LeaseRow {
  lr_owner : string;
  lr_generation : Z;
  lr_pid : Z;
  lr_boot_id : option string;
  lr_session_id : string;
  lr_acquired_at : string;
  lr_expires_at : string;
  lr_heartbeat_at : string;
  lr_mode : string;
  lr_metadata_json : option string;
}.

Record lease_db := LeaseDb {
  ld_leases : gmap string lease_row;
  ld_generations : gmap string Z;
}.

(** [RuntimeWriterLease], the transfer object. *)
Record RuntimeWriterLease := {
  rl_name : string;
  rl_owner : string;
  rl_generation : Z;
  rl_pid : Z;
  rl_boot_id : option string;
  rl_session_id : string;
  rl_acquired_at : string;
  rl_expires_at : string;
  rl_heartbeat_at : string;
  rl_mode : string;
  rl_metadata_json : option string;
  rl_remaining_secs : Z;
}.

Inductive RuntimeWriterLeaseAcquirePolicy := Standard | PreserveLiveHolders | RebindDeadDaemon.

#[export] Instance acquire_policy_eq_dec : EqDecision RuntimeWriterLeaseAcquirePolicy.
Proof. solve_decision. Defined.

(** The errors of [DbError] that these operations return. *)
Inductive DbError :=
  | DbSqlite (message : string)
  | DbRuntimeWriterLeaseLost (lease_name owner : string) (generation : Z) (operation : string).

(** Lease metadata is JSON text, read and written with [serde_json]: the value of
    a string member of an object, and the object with the two members that
    [runtime_writer_metadata_with_process_identity] inserts. *)
Class JsonText := {
  json_str_field : string → string → option string;
  json_insert_identity : option string → string → option string → string;
}.

(** What [serde_json] promises of them: the inserted members are read back. *)
Class JsonTextLaws (J : JsonText) := {
  json_identity_read : ∀ meta birth ns,
    json_str_field (json_insert_identity meta birth ns) "process_identity" = Some birth;
  json_namespace_read : ∀ meta birth ns,
    json_str_field (json_insert_identity meta birth ns) "pid_namespace" = ns;
}.

Section lease.
Context (blake3_hex : string → string) {J : JsonText}.

(** ** Liveness of a holder *)

Definition non_empty (o : option string) : option string :=
  match o with Some v => if is_empty v then None else Some v | None => None end.

Definition runtime_writer_process_liveness (sys : os) (own : string) (pid : Z)
    (boot metadata_json : option string) : ProcessLiveness :=
  if pid =? 0 then Dead
  else
    let field key := non_empty (metadata_json ≫= fun text => json_str_field text key) in
    match field "process_identity", field "pid_namespace" with
    | Some expected_identity, Some expected_pid_namespace =>
        process_identity_liveness blake3_hex sys own pid expected_identity
          (Some expected_pid_namespace)
    | _, _ =>
        match boot_id sys, boot with
        | Some actual, Some expected =>
            if negb (bool_decide (actual = expected)) then Dead
            else match os_proc_dir sys pid with
                 | ReadOk _ => Live
                 | ReadNotFound => Dead
                 | _ => Unverifiable
                 end
        | actual, _ =>
            match os_proc_dir sys pid with
            | ReadOk _ => match actual with Some _ => Live | None => Unverifiable end
            | ReadNotFound => Dead
            | _ => Unverifiable
            end
        end
    end.

Definition runtime_writer_daemon_is_live_holder (sys : os) (owner : string) (pid : Z)
    (boot : option string) : bool :=
  match boot with
  | None => false
  | Some expected_boot_id =>
      bool_decide (boot_id sys = Some expected_boot_id)
      && daemon_owner_matches_process blake3_hex sys owner pid
  end.

Definition runtime_writer_lease_holder_is_live (sys : os) (own : string) (row : lease_row)
    (pid : Z) : bool :=
  if bool_decide (lr_mode row = "daemon") then
    runtime_writer_daemon_is_live_holder sys (lr_owner row) pid (lr_boot_id row)
  else bool_decide (runtime_writer_process_liveness sys own pid (lr_boot_id row)
                      (lr_metadata_json row) = Live).

Definition runtime_writer_lease_holder_should_retain (sys : os) (own : string)
    (row : lease_row) (pid : Z) : bool :=
  if bool_decide (lr_mode row = "daemon") then
    runtime_writer_daemon_is_live_holder sys (lr_owner row) pid (lr_boot_id row)
  else negb (bool_decide (runtime_writer_process_liveness sys own pid (lr_boot_id row)
                            (lr_metadata_json row) = Dead)).

(** [u32::try_from(pid).ok().is_some_and(should_retain)]. *)
Definition row_should_retain (sys : os) (own : string) (row : lease_row) : bool :=
  match try_u32 (lr_pid row) with
  | Some pid => runtime_writer_lease_holder_should_retain sys own row pid
  | None => false
  end.

(** ** SQL statements *)

(** [DELETE ... WHERE name = ? AND owner = ? AND session_id = ? AND
    generation = ?], with the number of rows removed. *)
Definition row_is (row : lease_row) (owner session_id : string) (generation : Z) : bool :=
  bool_decide (lr_owner row = owner) && bool_decide (lr_session_id row = session_id)
  && (lr_generation row =? generation).

Definition delete_exact (name owner session_id : string) (generation : Z)
    (leases : gmap string lease_row) : gmap string lease_row * Z :=
  match leases !! name with
  | Some row =>
      if row_is row owner session_id generation then (delete name leases, 1)
      else (leases, 0)
  | None => (leases, 0)
  end.

(** [expires_at < strftime(..., 'now')]. *)
Definition row_expired (now_ms : Z) (row : lease_row) : bool :=
  String.ltb (lr_expires_at row) (sql_now now_ms).

(** ** Operations *)

(** The loop of [runtime_writer_lease_cleanup_expired_tx] over the expired
    rows it selected. *)
Fixpoint cleanup_rows (sys : os) (own : string) (preserve : bool)
    (expired : list (string * lease_row)) (leases : gmap string lease_row) (removed : Z)
    : gmap string lease_row * Z :=
  match expired with
  | [] => (leases, removed)
  | (name, row) :: rest =>
      if preserve && row_should_retain sys own row then
        cleanup_rows sys own preserve rest leases removed
      else
        let '(leases', n) :=
          delete_exact name (lr_owner row) (lr_session_id row) (lr_generation row) leases in
        cleanup_rows sys own preserve rest leases' (removed + n)
  end.

Definition runtime_writer_lease_cleanup_expired_tx (sys : os) (own : string)
    (preserve_live_holders : bool) (now_ms : Z) (db : lease_db) : lease_db * Z :=
  let expired := filter (fun '(_, row) => row_expired now_ms row = true)
                   (map_to_list (ld_leases db)) in
  let '(leases, removed) :=
    cleanup_rows sys own preserve_live_holders expired (ld_leases db) 0 in
  (LeaseDb leases (ld_generations db), removed).

Definition runtime_writer_session_id (name owner : string) (pid now_nanos : Z) : string :=
  String.substring 0 16
    (blake3_hex (name +:+ (NUL +:+ (owner +:+ (NUL +:+ (show pid +:+ (NUL +:+
       show now_nanos))))))).

(** The dead-holder pass of [RebindDeadDaemon]: the holders of [name]. *)
Definition rebind_dead_holder (sys : os) (own name : string)
    (leases : gmap string lease_row) : gmap string lease_row :=
  match leases !! name with
  | None => leases
  | Some row =>
      if row_should_retain sys own row then leases
      else (delete_exact name (lr_owner row) (lr_session_id row) (lr_generation row) leases).1
  end.

Definition runtime_writer_lease_acquire_with_cleanup_policy (sys : os) (own : string)
    (policy : RuntimeWriterLeaseAcquirePolicy) (name owner mode : string) (ttl_secs : Z)
    (metadata_json : option string) (cleanup_ms now_secs now_nanos : Z) (db : lease_db)
    : lease_db * option RuntimeWriterLease :=
  let persisted := json_insert_identity metadata_json own (current_pid_namespace sys) in
  let '(db1, _) := runtime_writer_lease_cleanup_expired_tx sys own
                     (negb (bool_decide (policy = Standard))) cleanup_ms db in
  let leases := if bool_decide (policy = RebindDeadDaemon)
                then rebind_dead_holder sys own name (ld_leases db1)
                else ld_leases db1 in
  let session_id := runtime_writer_session_id name owner (os_pid sys) now_nanos in
  let acquired_at := format_rfc3339 now_secs in
  let expires_at := format_rfc3339 (now_secs + ttl_secs) in
  match leases !! name with
  | Some _ => (LeaseDb leases (ld_generations db1), None)
  | None =>
      let generation_i64 := match ld_generations db1 !! name with
                            | Some last => last + 1
                            | None => 1
                            end in
      let generation := default u64_max (try_u64 generation_i64) in
      let row := LeaseRow owner (as_i64 generation) (os_pid sys) (boot_id sys) session_id
                   acquired_at expires_at acquired_at mode (Some persisted) in
      (LeaseDb (<[name := row]> leases) (<[name := generation_i64]> (ld_generations db1)),
       Some {| rl_name := name; rl_owner := owner; rl_generation := generation;
               rl_pid := os_pid sys; rl_boot_id := boot_id sys; rl_session_id := session_id;
               rl_acquired_at := acquired_at; rl_expires_at := expires_at;
               rl_heartbeat_at := acquired_at; rl_mode := mode;
               rl_metadata_json := Some persisted;
               rl_remaining_secs := if ttl_secs <=? i64_max then ttl_secs else i64_max |})
  end.

Definition runtime_writer_lease_acquire (sys : os) (own : string) :=
  runtime_writer_lease_acquire_with_cleanup_policy sys own Standard.

Definition runtime_writer_lease_acquire_preserving_live_holders (sys : os) (own : string) :=
  runtime_writer_lease_acquire_with_cleanup_policy sys own PreserveLiveHolders.

Definition runtime_writer_lease_acquire_for_daemon_start (sys : os) (own name : string)
    (ttl_secs : Z) :=
  runtime_writer_lease_acquire_with_cleanup_policy sys own RebindDeadDaemon name
    (daemon_owner (os_pid sys) own) "daemon" ttl_secs.

(** [UPDATE ... SET expires_at, heartbeat_at WHERE ... AND expires_at >= now]. *)
Definition runtime_writer_lease_renew_fenced (sys : os) (own name owner session_id : string)
    (generation ttl_secs cleanup_ms now_secs expiry_now_secs update_ms : Z) (db : lease_db)
    : lease_db * bool :=
  let '(db1, _) := runtime_writer_lease_cleanup_expired_tx sys own true cleanup_ms db in
  match ld_leases db1 !! name with
  | Some row =>
      if row_is row owner session_id (as_i64 generation) && negb (row_expired update_ms row)
      then
        let row' := LeaseRow (lr_owner row) (lr_generation row) (lr_pid row) (lr_boot_id row)
                      (lr_session_id row) (lr_acquired_at row)
                      (format_rfc3339 (expiry_now_secs + ttl_secs)) (format_rfc3339 now_secs)
                      (lr_mode row) (lr_metadata_json row) in
        (LeaseDb (<[name := row']> (ld_leases db1)) (ld_generations db1), true)
      else (db1, false)
  | None => (db1, false)
  end.

Definition runtime_writer_lease_renew (sys : os) (own : string) (lease : RuntimeWriterLease) :=
  runtime_writer_lease_renew_fenced sys own (rl_name lease) (rl_owner lease)
    (rl_session_id lease) (rl_generation lease).

(** The EXISTS query shared by the activity test and the write fence. *)
Definition lease_row_active (now_ms : Z) (name owner session_id : string) (generation : Z)
    (db : lease_db) : bool :=
  match ld_leases db !! name with
  | Some row => row_is row owner session_id (as_i64 generation)
                && negb (row_expired now_ms row)
  | None => false
  end.

Definition runtime_writer_lease_is_active_fenced (sys : os) (own name owner session_id : string)
    (generation cleanup_ms now_ms : Z) (db : lease_db) : lease_db * bool :=
  let '(db1, _) := runtime_writer_lease_cleanup_expired_tx sys own true cleanup_ms db in
  (db1, lease_row_active now_ms name owner session_id generation db1).

Definition runtime_writer_lease_is_active (sys : os) (own : string) (lease : RuntimeWriterLease) :=
  runtime_writer_lease_is_active_fenced sys own (rl_name lease) (rl_owner lease)
    (rl_session_id lease) (rl_generation lease).

Definition runtime_writer_lease_release_fenced (name owner session_id : string)
    (generation : Z) (db : lease_db) : lease_db * bool :=
  let '(leases, rows) := delete_exact name owner session_id (as_i64 generation) (ld_leases db) in
  (LeaseDb leases (ld_generations db), 0 <? rows).

Definition runtime_writer_lease_release (lease : RuntimeWriterLease) :=
  runtime_writer_lease_release_fenced (rl_name lease) (rl_owner lease) (rl_session_id lease)
    (rl_generation lease).

Definition runtime_writer_lease_cleanup_expired (sys : os) (own : string) :=
  runtime_writer_lease_cleanup_expired_tx sys own false.

Definition lease_of_row (now_secs : Z) (name : string) (row : lease_row) : RuntimeWriterLease :=
  {| rl_name := name; rl_owner := lr_owner row;
     rl_generation := default 0 (try_u64 (lr_generation row));
     rl_pid := default 0 (try_u32 (lr_pid row)); rl_boot_id := lr_boot_id row;
     rl_session_id := lr_session_id row; rl_acquired_at := lr_acquired_at row;
     rl_expires_at := lr_expires_at row; rl_heartbeat_at := lr_heartbeat_at row;
     rl_mode := lr_mode row; rl_metadata_json := lr_metadata_json row;
     rl_remaining_secs := match parse_rfc3339 (lr_expires_at row) with
                          | Some expires => Z.max (expires - now_secs) 0
                          | None => 0
                          end |}.

Definition runtime_writer_lease_status_query (name : option string) (now_secs : Z)
    (db : lease_db) : list RuntimeWriterLease :=
  match name with
  | Some name => match ld_leases db !! name with
                 | Some row => [lease_of_row now_secs name row]
                 | None => []
                 end
  | None => map (fun '(name, row) => lease_of_row now_secs name row)
              (sort_by (fun a b => String.leb a.1 b.1) (map_to_list (ld_leases db)))
  end.

Definition runtime_writer_lease_status (sys : os) (own : string) (name : option string)
    (cleanup_ms now_secs : Z) (db : lease_db) : lease_db * list RuntimeWriterLease :=
  let '(db1, _) := runtime_writer_lease_cleanup_expired_tx sys own true cleanup_ms db in
  (db1, runtime_writer_lease_status_query name now_secs db1).

Definition runtime_writer_lease_status_read_only (name : option string) (now_secs : Z)
    (db : lease_db) : list RuntimeWriterLease :=
  List.filter (fun lease => 0 <? rl_remaining_secs lease)
    (runtime_writer_lease_status_query name now_secs db).

Definition runtime_writer_lease_has_live_daemon (sys : os) (name : string) (db : lease_db)
    : bool :=
  match ld_leases db !! name with
  | Some row =>
      bool_decide (lr_mode row = "daemon")
      && match try_u32 (lr_pid row) with
         | Some pid => runtime_writer_daemon_is_live_holder sys (lr_owner row) pid (lr_boot_id row)
         | None => false
         end
  | None => false
  end.

Definition runtime_writer_metadata_marks_durable_mcp_ingest_worker
    (metadata_json : option string) : bool :=
  match metadata_json with
  | None => false
  | Some text =>
      bool_decide (json_str_field text "component" = Some "mcp-ingest-worker")
      && match json_str_field text "worker_role" with
         | Some role => bool_decide (role = "background") || bool_decide (role = "scoped-drain")
         | None => false
         end
  end.

Definition runtime_writer_mcp_ingest_worker_is_durable (owner : string)
    (metadata_json : option string) : bool :=
  if String.prefix "mcp-ingest-scoped-wait-" owner then false
  else String.prefix "mcp-ingest-worker-" owner
       || String.prefix "mcp-ingest-scoped-worker-" owner
       || runtime_writer_metadata_marks_durable_mcp_ingest_worker metadata_json.

Definition runtime_writer_lease_is_durable_ingest_worker (owner mode : string)
    (metadata_json : option string) : bool :=
  if bool_decide (mode = "daemon") then true
  else if bool_decide (mode = "mcp-ingest-worker") then
    runtime_writer_mcp_ingest_worker_is_durable owner metadata_json
  else false.

Definition runtime_writer_lease_has_live_durable_ingest_worker (sys : os) (own name : string)
    (db : lease_db) : bool :=
  match ld_leases db !! name with
  | Some row =>
      (bool_decide (lr_mode row = "daemon") || bool_decide (lr_mode row = "mcp-ingest-worker"))
      && runtime_writer_lease_is_durable_ingest_worker (lr_owner row) (lr_mode row)
           (lr_metadata_json row)
      && match try_u32 (lr_pid row) with
         | Some pid => runtime_writer_lease_holder_is_live sys own row pid
         | None => false
         end
  | None => false
  end.

(** [runtime_writer_lease_restore_if_unheld]. *)
Definition runtime_writer_lease_restore_if_unheld (sys : os) (own : string)
    (lease : RuntimeWriterLease) (ttl_secs cleanup_ms now_secs : Z) (db : lease_db)
    : lease_db * bool :=
  let '(db1, _) := runtime_writer_lease_cleanup_expired_tx sys own true cleanup_ms db in
  let stored := LeaseRow (rl_owner lease) (as_i64 (rl_generation lease)) (rl_pid lease)
                  (rl_boot_id lease) (rl_session_id lease) (format_rfc3339 now_secs)
                  (format_rfc3339 (now_secs + ttl_secs)) (format_rfc3339 now_secs)
                  (rl_mode lease) (rl_metadata_json lease) in
  if negb (runtime_writer_lease_holder_is_live sys own stored (rl_pid lease)) then (db1, false)
  else if negb (bool_decide ((ld_generations db1 !! rl_name lease) ≫= try_u64
                             = Some (rl_generation lease))) then (db1, false)
  else match ld_leases db1 !! rl_name lease with
       | Some row =>
           (db1, row_is row (rl_owner lease) (rl_session_id lease) (as_i64 (rl_generation lease)))
       | None =>
           (LeaseDb (<[rl_name lease := stored]> (ld_leases db1)) (ld_generations db1), true)
       end.

(** ** The write fence *)

Definition require_runtime_writer_lease_tx (lease : RuntimeWriterLease) (operation : string)
    (now_ms : Z) (db : lease_db) : result unit DbError :=
  if lease_row_active now_ms (rl_name lease) (rl_owner lease) (rl_session_id lease)
       (rl_generation lease) db
  then Ok tt
  else Err (DbRuntimeWriterLeaseLost (rl_name lease) (rl_owner lease) (rl_generation lease)
              operation).

Section fenced_write.
Context {D T E : Type} (from_db : DbError → E).

(** The body of a fenced transaction: cleanup, fence, then the mutation. *)
Definition fenced_body (sys : os) (own : string) (lease : option RuntimeWriterLease)
    (operation : string) (cleanup_ms now_ms : Z)
    (write : lease_db * D → (lease_db * D) * result T E) (st : lease_db * D)
    : (lease_db * D) * result T E :=
  match lease with
  | None => write st
  | Some l =>
      let db1 := (runtime_writer_lease_cleanup_expired_tx sys own true cleanup_ms st.1).1 in
      match require_runtime_writer_lease_tx l operation now_ms db1 with
      | Ok _ => write (db1, st.2)
      | Err e => ((db1, st.2), Err (from_db e))
      end
  end.

(** [with_runtime_writer_lease_transaction]: [autocommit] says whether the
    connection is outside a transaction, [begun] and [committed] are what
    BEGIN IMMEDIATE (after its lock retries) and COMMIT return; an error
    rolls the state back. *)
Definition with_runtime_writer_lease_transaction (autocommit : bool)
    (begun committed : result unit DbError) (sys : os) (own : string)
    (lease : option RuntimeWriterLease) (operation : string) (cleanup_ms now_ms : Z)
    (write : lease_db * D → (lease_db * D) * result T E) (st : lease_db * D)
    : (lease_db * D) * result T E :=
  if negb autocommit then fenced_body sys own lease operation cleanup_ms now_ms write st
  else match begun with
       | Err e => (st, Err (from_db e))
       | Ok _ =>
           match fenced_body sys own lease operation cleanup_ms now_ms write st with
           | (st', Ok value) =>
               match committed with
               | Ok _ => (st', Ok value)
               | Err e => (st, Err (from_db e))
               end
           | (_, Err e) => (st, Err e)
           end
       end.

Definition with_runtime_writer_lease_write (autocommit : bool)
    (begun committed : result unit DbError) (sys : os) (own : string)
    (lease : option RuntimeWriterLease) (operation : string) (cleanup_ms now_ms : Z)
    (write : lease_db * D → (lease_db * D) * result T E) (st : lease_db * D)
    : (lease_db * D) * result T E :=
  match lease with
  | None => write st
  | Some _ => with_runtime_writer_lease_transaction autocommit begun committed sys own lease
                operation cleanup_ms now_ms write st
  end.
End fenced_write.

(** The release within a deadline: the same DELETE in a transaction of its own,
    without a fence, so the two clock readings of the fence are not used. *)
Definition runtime_writer_lease_release_fenced_until (autocommit : bool)
    (begun committed : result unit DbError) (sys : os) (own name owner session_id : string)
    (generation : Z) (db : lease_db) : lease_db * result bool DbError :=
  let '(st, r) :=
    with_runtime_writer_lease_transaction (fun e => e) autocommit begun committed sys own None
      "runtime writer lease control" 0 0
      (fun st =>
         let '(db', released) :=
           runtime_writer_lease_release_fenced name owner session_id generation st.1 in
         ((db', st.2), Ok released)) (db, tt) in
  (st.1, r).

Definition runtime_writer_lease_release_until (autocommit : bool)
    (begun committed : result unit DbError) (sys : os) (own : string) (lease : RuntimeWriterLease)
    : lease_db → lease_db * result bool DbError :=
  runtime_writer_lease_release_fenced_until autocommit begun committed sys own (rl_name lease)
    (rl_owner lease) (rl_session_id lease) (rl_generation lease).
End lease.

(** ** Lemmas *)

#[export] Instance lease_row_eq_dec : EqDecision lease_row.
Proof. solve_decision. Defined.

Lemma row_is_refl row : row_is row (lr_owner row) (lr_session_id row) (lr_generation row) = true.
Proof. unfold row_is. by rewrite !bool_decide_eq_true_2, Z.eqb_refl by done. Qed.

Lemma row_is_spec row owner session gen :
  row_is row owner session gen = true ↔
  lr_owner row = owner ∧ lr_session_id row = session ∧ lr_generation row = gen.
Proof. unfold row_is. rewrite !andb_true_iff, !bool_decide_eq_true, Z.eqb_eq. tauto. Qed.

Section lemmas.
Context (blake3_hex : string → string) {J : JsonText}.
Implicit Types (sys : os) (own name : string) (db : lease_db) (row : lease_row).

(** A row is dropped by a cleanup when it is expired and not retained. *)
Definition cleanup_drops sys own (preserve : bool) (now_ms : Z) row : bool :=
  row_expired now_ms row && negb (preserve && row_should_retain blake3_hex sys own row).

Lemma cleanup_rows_lookup sys own preserve l m c k :
  NoDup l.*1 → (∀ n r, (n, r) ∈ l → m !! n = Some r) →
  (cleanup_rows blake3_hex sys own preserve l m c).1 !! k =
  match m !! k with
  | Some r => if bool_decide ((k, r) ∈ l)
                 && negb (preserve && row_should_retain blake3_hex sys own r)
              then None else Some r
  | None => None
  end.
Proof.
  revert m c. induction l as [|[n r] l IH]; intros m c Hnd Hin; cbn [cleanup_rows].
  { simpl. by destruct (m !! k). }
  rewrite fmap_cons in Hnd. apply list.NoDup_cons in Hnd as [Hn Hnd].
  destruct (preserve && row_should_retain blake3_hex sys own r) eqn:Hret.
  - rewrite IH by (try done; intros; apply Hin; by right).
    destruct (m !! k) as [r'|] eqn:Hk; [|done].
    destruct (decide ((k, r') = (n, r))) as [[= -> ->]|Hne].
    + rewrite Hret. by rewrite !andb_false_r.
    + rewrite (bool_decide_ext ((k, r') ∈ (n, r) :: l) ((k, r') ∈ l)); [done|].
      rewrite elem_of_cons. tauto.
  - assert (m !! n = Some r) as Hm by (apply Hin; by left).
    unfold delete_exact. rewrite Hm, row_is_refl.
    rewrite IH; [|done|].
    + destruct (decide (k = n)) as [->|Hkn].
      * rewrite lookup_delete_eq, Hm. simpl. rewrite Hret.
        rewrite bool_decide_eq_true_2 by (by left). done.
      * rewrite lookup_delete_ne by done. destruct (m !! k) as [r'|] eqn:Hk; [|done].
        rewrite (bool_decide_ext ((k, r') ∈ (n, r) :: l) ((k, r') ∈ l)); [done|].
        rewrite elem_of_cons. naive_solver.
    + intros n' r' Hin'. rewrite lookup_delete_ne; [apply Hin; by right|].
      intros ->. apply Hn. by apply (list_elem_of_fmap_2' fst _ (n', r')).
Qed.

Lemma cleanup_lookup sys own preserve now_ms db k :
  ld_leases (runtime_writer_lease_cleanup_expired_tx blake3_hex sys own preserve now_ms db).1 !! k
  = match ld_leases db !! k with
    | Some r => if cleanup_drops sys own preserve now_ms r then None else Some r
    | None => None
    end.
Proof.
  unfold runtime_writer_lease_cleanup_expired_tx.
  destruct (cleanup_rows _ _ _ _ _ _ _) as [m n] eqn:E. simpl.
  change m with ((m, n).1). rewrite <- E. rewrite cleanup_rows_lookup.
  - destruct (ld_leases db !! k) as [r|] eqn:Hk; [|done]. unfold cleanup_drops.
    destruct (row_expired now_ms r) eqn:Hx.
    + rewrite bool_decide_eq_true_2; [done|].
      apply list_elem_of_filter. split; [done|]. by apply elem_of_map_to_list.
    + rewrite bool_decide_eq_false_2; [done|].
      rewrite list_elem_of_filter, Hx. naive_solver.
  - eapply sublist_NoDup; [apply (NoDup_fst_map_to_list (ld_leases db))|].
    apply fmap_sublist, sublist_filter.
  - intros n' r' [_ Hin]%list_elem_of_filter. by apply elem_of_map_to_list.
Qed.

Lemma cleanup_generations sys own preserve now_ms db :
  ld_generations (runtime_writer_lease_cleanup_expired_tx blake3_hex sys own preserve now_ms db).1
  = ld_generations db.
Proof. unfold runtime_writer_lease_cleanup_expired_tx. by destruct (cleanup_rows _ _ _ _ _ _ _). Qed.
End lemmas.
