(* ===== verification/LeaseProtocol.v ===== *)
(** * The lease protocol

    The lease operations as a transition system on the two tables, with the
    fencing invariant, a refinement of an abstract fencing lock, and the
    properties a holder relies on. *)

From Stdlib Require Import ZArith Lia String Ascii.
From stdpp Require Import base tactics list gmap strings numbers relations.
From S2P Require Import Prelude Text Calendar Rfc3339 ProcessIdentity WriterLease.
Open Scope Z_scope.

(** ** The abstract lock

    A fencing lock: the last token handed out and the token of the holder, if
    any. A token is fresh when it is taken; the latest token may be put back
    when nobody holds the lock. *)
Record alock := ALock { a_last : Z; a_holder : option Z }.

Inductive alock_step : alock → alock → Prop :=
  | ATake last : alock_step (ALock last None) (ALock (last + 1) (Some (last + 1)))
  | ADrop last token : alock_step (ALock last (Some token)) (ALock last None)
  | ARestore last : 0 < last → alock_step (ALock last None) (ALock last (Some last)).

(** What the tables say of one lease name. *)
Definition alock_of (db : lease_db) (name : string) : alock :=
  ALock (default 0 (ld_generations db !! name)) (lr_generation <$> ld_leases db !! name).

(** ** The invariant *)

(** The held row carries the last generation of its name, and generations are
    positive 63-bit numbers. *)
Definition lease_wf (db : lease_db) : Prop :=
  (∀ name g, ld_generations db !! name = Some g → 1 <= g <= i64_max) ∧
  (∀ name row, ld_leases db !! name = Some row →
     ld_generations db !! name = Some (lr_generation row)).

Definition empty_lease_db : lease_db := LeaseDb ∅ ∅.

(** There is a next generation: fewer than [2^63 - 1] acquisitions so far. *)
Definition generation_room (db : lease_db) (name : string) : Prop :=
  ∀ g, ld_generations db !! name = Some g → g < i64_max.

(** ** Transitions *)
Section protocol.
Context (blake3_hex : string → string) {J : JsonText}.

Inductive lease_step : lease_db → lease_db → Prop :=
  | step_acquire sys own policy name owner mode ttl meta t0 t1 t2 db :
      generation_room db name →
      lease_step db (runtime_writer_lease_acquire_with_cleanup_policy blake3_hex sys own policy
                       name owner mode ttl meta t0 t1 t2 db).1
  | step_renew sys own lease ttl t0 t1 t2 t3 db :
      lease_step db (runtime_writer_lease_renew blake3_hex sys own lease ttl t0 t1 t2 t3 db).1
  | step_is_active sys own lease t0 t1 db :
      lease_step db (runtime_writer_lease_is_active blake3_hex sys own lease t0 t1 db).1
  | step_release lease db :
      lease_step db (runtime_writer_lease_release lease db).1
  | step_release_until auto begun committed sys own lease db :
      lease_step db (runtime_writer_lease_release_until blake3_hex auto begun committed sys own lease
                       db).1
  | step_cleanup sys own preserve t db :
      lease_step db (runtime_writer_lease_cleanup_expired_tx blake3_hex sys own preserve t db).1
  | step_status sys own name t0 t1 db :
      lease_step db (runtime_writer_lease_status blake3_hex sys own name t0 t1 db).1
  | step_restore sys own lease ttl t0 t1 db :
      lease_step db (runtime_writer_lease_restore_if_unheld blake3_hex sys own lease ttl t0 t1 db).1.

(** Most operations only remove rows. *)
Definition shrinks (db db' : lease_db) : Prop :=
  ld_generations db' = ld_generations db ∧
  ∀ k row, ld_leases db' !! k = Some row → ld_leases db !! k = Some row.

Lemma shrinks_refl db : shrinks db db.
Proof. done. Qed.

Lemma shrinks_trans db1 db2 db3 : shrinks db1 db2 → shrinks db2 db3 → shrinks db1 db3.
Proof. intros [G1 H1] [G2 H2]. split; [congruence|eauto]. Qed.

Lemma cleanup_shrinks sys own preserve t db :
  shrinks db (runtime_writer_lease_cleanup_expired_tx blake3_hex sys own preserve t db).1.
Proof.
  split; [apply cleanup_generations|]. intros k row. rewrite cleanup_lookup.
  destruct (ld_leases db !! k); [|done]. by case_match.
Qed.

Lemma delete_exact_shrinks name owner session gen m k row :
  (delete_exact name owner session gen m).1 !! k = Some row → m !! k = Some row.
Proof.
  unfold delete_exact. destruct (m !! name); [|done]. case_match; [|done].
  simpl. rewrite lookup_delete_Some. tauto.
Qed.

Lemma rebind_shrinks sys own name m k row :
  rebind_dead_holder blake3_hex sys own name m !! k = Some row → m !! k = Some row.
Proof.
  unfold rebind_dead_holder. destruct (m !! name); [|done]. case_match; [done|].
  apply delete_exact_shrinks.
Qed.

(** What the cleanup phases of an acquisition leave. *)
Definition acquire_base sys own policy name t0 db : lease_db :=
  let db1 := (runtime_writer_lease_cleanup_expired_tx blake3_hex sys own
                (negb (bool_decide (policy = Standard))) t0 db).1 in
  LeaseDb (if bool_decide (policy = RebindDeadDaemon)
           then rebind_dead_holder blake3_hex sys own name (ld_leases db1)
           else ld_leases db1) (ld_generations db1).

Lemma acquire_base_shrinks sys own policy name t0 db :
  shrinks db (acquire_base sys own policy name t0 db).
Proof.
  eapply shrinks_trans; [apply cleanup_shrinks|]. split; [done|]. simpl. intros k row.
  case_bool_decide; [apply rebind_shrinks|done].
Qed.

(** An acquisition either finds a holder and changes nothing more, or stores
    the row of the lease it returns under the next generation. *)
Lemma acquire_spec sys own policy name owner mode ttl meta t0 t1 t2 db :
  lease_wf db → generation_room db name →
  let base := acquire_base sys own policy name t0 db in
  let next := default 0 (ld_generations db !! name) + 1 in
  let '(db', r) := runtime_writer_lease_acquire_with_cleanup_policy blake3_hex sys own policy
                     name owner mode ttl meta t0 t1 t2 db in
  match ld_leases base !! name with
  | Some _ => db' = base ∧ r = None
  | None => ∃ lease row, r = Some lease ∧
      db' = LeaseDb (<[name := row]> (ld_leases base)) (<[name := next]> (ld_generations db)) ∧
      lr_generation row = next ∧ rl_generation lease = next ∧ 1 <= next <= i64_max ∧
      lr_expires_at row = format_rfc3339 (t1 + ttl) ∧
      lr_owner row = owner ∧ rl_owner lease = owner ∧ rl_name lease = name ∧
      lr_session_id row = rl_session_id lease ∧ lr_mode row = mode ∧
      lr_pid row = os_pid sys ∧ lr_boot_id row = boot_id sys ∧
      lr_metadata_json row = Some (json_insert_identity meta own (current_pid_namespace sys))
  end.
Proof.
  intros [Hgen _] Hroom base next. subst base next.
  unfold runtime_writer_lease_acquire_with_cleanup_policy, acquire_base.
  pose proof (cleanup_generations blake3_hex sys own (negb (bool_decide (policy = Standard))) t0 db)
    as Hg.
  destruct (runtime_writer_lease_cleanup_expired_tx _ _ _ _ _ _) as [db1 n]. simpl in *.
  destruct (_ !! name) eqn:Hh; [done|].
  set (g := match ld_generations db1 !! name with Some last => last + 1 | None => 1 end).
  assert (Hnext : g = default 0 (ld_generations db !! name) + 1 ∧ 1 <= g <= i64_max).
  { subst g. rewrite Hg. specialize (Hgen name).
    destruct (ld_generations db !! name) as [x|] eqn:E; simpl; [|unfold_widths; lia].
    specialize (Hgen x eq_refl). specialize (Hroom x E). lia. }
  destruct Hnext as [Hnext Hr].
  assert (try_u64 g = Some g) as -> by (apply try_u64_Some; split; [done|unfold_widths; lia]).
  simpl. rewrite as_i64_id by (unfold_widths; lia).
  eexists _, _. split; [reflexivity|]. rewrite Hg, <- Hnext. split_and!; try done; lia.
Qed.

Lemma shrinks_wf db db' : shrinks db db' → lease_wf db → lease_wf db'.
Proof. intros [G H] [W1 W2]. split; rewrite G; eauto. Qed.

(** Storing a row under the generation it carries. *)
Lemma store_wf db name row g :
  lease_wf db → 1 <= g <= i64_max → lr_generation row = g →
  lease_wf (LeaseDb (<[name := row]> (ld_leases db)) (<[name := g]> (ld_generations db))).
Proof.
  intros [W1 W2] Hg Hrow. split; simpl.
  - intros k g'. rewrite lookup_insert_Some. naive_solver.
  - intros k r. rewrite lookup_insert_Some. intros [[<- <-]|[Hne Hk]].
    + rewrite lookup_insert_eq. congruence.
    + rewrite lookup_insert_ne by done. eauto.
Qed.

(** What an operation other than an acquisition leaves: rows removed, then at
    most one row stored under the generation that is the last of its name. *)
Lemma renew_shape sys own lease ttl t0 t1 t2 t3 db :
  ∃ base, shrinks db base ∧
    let db' := (runtime_writer_lease_renew blake3_hex sys own lease ttl t0 t1 t2 t3 db).1 in
    (db' = base ∨
     ∃ old row, ld_leases base !! rl_name lease = Some old ∧
       lr_generation row = lr_generation old ∧
       db' = LeaseDb (<[rl_name lease := row]> (ld_leases base)) (ld_generations base)).
Proof.
  exists (runtime_writer_lease_cleanup_expired_tx blake3_hex sys own true t0 db).1.
  split; [apply cleanup_shrinks|].
  unfold runtime_writer_lease_renew, runtime_writer_lease_renew_fenced.
  destruct (runtime_writer_lease_cleanup_expired_tx _ _ _ _ _ _) as [db1 n]. simpl.
  destruct (ld_leases db1 !! rl_name lease) as [old|] eqn:Ho; [|by left].
  case_match; [|by left]. right. do 2 eexists. split; [done|]. split; [|reflexivity]. done.
Qed.

Lemma restore_shape sys own lease ttl t0 t1 db :
  lease_wf db →
  ∃ base, shrinks db base ∧
    let '(db', ok) := runtime_writer_lease_restore_if_unheld blake3_hex sys own lease ttl t0 t1 db in
    (db' = base ∨
     ∃ row, ok = true ∧ ld_leases base !! rl_name lease = None ∧
       ld_generations base !! rl_name lease = Some (lr_generation row) ∧
       lr_generation row = rl_generation lease ∧
       db' = LeaseDb (<[rl_name lease := row]> (ld_leases base)) (ld_generations base)).
Proof.
  intros Hwf. exists (runtime_writer_lease_cleanup_expired_tx blake3_hex sys own true t0 db).1.
  pose proof (cleanup_shrinks sys own true t0 db) as Hs. split; [done|].
  pose proof (shrinks_wf _ _ Hs Hwf) as [Hg _].
  unfold runtime_writer_lease_restore_if_unheld.
  destruct (runtime_writer_lease_cleanup_expired_tx _ _ _ _ _ _) as [db1 n]. simpl in *.
  destruct (runtime_writer_lease_holder_is_live _ _ _ _ _); simpl; [|by left].
  case_bool_decide as Hgen; simpl; [|by left].
  destruct (ld_leases db1 !! rl_name lease) eqn:Ho; [by left|]. right.
  apply bind_Some in Hgen as (g & Hl & Hu). apply try_u64_Some in Hu as [<- _].
  eexists. split_and!; [done|done| | |reflexivity]; simpl;
    (rewrite as_i64_id; [done|specialize (Hg _ _ Hl); unfold_widths; lia]).
Qed.

Lemma shrinks_abstract db db' name :
  shrinks db db' → rtc alock_step (alock_of db name) (alock_of db' name).
Proof.
  intros [G H]. unfold alock_of. rewrite G.
  destruct (ld_leases db' !! name) as [row|] eqn:E1; [by rewrite (H _ _ E1)|].
  destruct (ld_leases db !! name); [|done]. apply rtc_once. constructor.
Qed.

Lemma release_shrinks lease db : shrinks db (runtime_writer_lease_release lease db).1.
Proof.
  unfold runtime_writer_lease_release, runtime_writer_lease_release_fenced.
  destruct (delete_exact _ _ _ _ _) as [m n] eqn:E. split; [done|]. simpl. intros k row Hk.
  eapply delete_exact_shrinks. by rewrite E.
Qed.

Lemma release_until_shrinks auto begun committed sys own lease db :
  shrinks db (runtime_writer_lease_release_until blake3_hex auto begun committed sys own lease db).1.
Proof.
  pose proof (release_shrinks lease db) as H. unfold runtime_writer_lease_release in H.
  unfold runtime_writer_lease_release_until, runtime_writer_lease_release_fenced_until,
    with_runtime_writer_lease_transaction, fenced_body. cbn [fst snd].
  destruct (runtime_writer_lease_release_fenced _ _ _ _ _).
  destruct auto, begun, committed; first [exact H|apply shrinks_refl].
Qed.

Lemma is_active_shrinks sys own lease t0 t1 db :
  shrinks db (runtime_writer_lease_is_active blake3_hex sys own lease t0 t1 db).1.
Proof.
  unfold runtime_writer_lease_is_active, runtime_writer_lease_is_active_fenced.
  pose proof (cleanup_shrinks sys own true t0 db) as H.
  by destruct (runtime_writer_lease_cleanup_expired_tx _ _ _ _ _ _).
Qed.

Lemma status_shrinks sys own name t0 t1 db :
  shrinks db (runtime_writer_lease_status blake3_hex sys own name t0 t1 db).1.
Proof.
  unfold runtime_writer_lease_status. pose proof (cleanup_shrinks sys own true t0 db) as H.
  by destruct (runtime_writer_lease_cleanup_expired_tx _ _ _ _ _ _).
Qed.

(** The three shapes a transition has: rows dropped; then possibly the held
    row replaced under its generation, the last lease put back, or a new
    generation taken. *)
Inductive step_shape (db db' : lease_db) : Prop :=
  | shape_shrink : shrinks db db' → step_shape db db'
  | shape_update base name old row :
      shrinks db base → ld_leases base !! name = Some old →
      lr_generation row = lr_generation old →
      db' = LeaseDb (<[name := row]> (ld_leases base)) (ld_generations base) →
      step_shape db db'
  | shape_restore base name row :
      shrinks db base → ld_leases base !! name = None →
      ld_generations base !! name = Some (lr_generation row) →
      db' = LeaseDb (<[name := row]> (ld_leases base)) (ld_generations base) →
      step_shape db db'
  | shape_take base name row next :
      shrinks db base → ld_leases base !! name = None →
      next = default 0 (ld_generations base !! name) + 1 → 1 <= next <= i64_max →
      lr_generation row = next →
      db' = LeaseDb (<[name := row]> (ld_leases base)) (<[name := next]> (ld_generations base)) →
      step_shape db db'.

Lemma lease_step_shape db db' : lease_wf db → lease_step db db' → step_shape db db'.
Proof.
  intros Hwf Hstep.
  destruct Hstep as [sys own policy n owner mode ttl meta t0 t1 t2 db Hroom
    |sys own lease ttl t0 t1 t2 t3 db|sys own lease t0 t1 db|lease db
    |auto begun committed sys own lease db|sys own preserve t db
    |sys own n t0 t1 db|sys own lease ttl t0 t1 db].
  - pose proof (acquire_spec sys own policy n owner mode ttl meta t0 t1 t2 db Hwf Hroom) as Hs.
    pose proof (acquire_base_shrinks sys own policy n t0 db) as Hb.
    destruct (runtime_writer_lease_acquire_with_cleanup_policy _ _ _ _ _ _ _ _ _ _ _ _ _)
      as [db' r]. cbn [fst] in *.
    destruct (ld_leases (acquire_base sys own policy n t0 db) !! n) eqn:Eh.
    + destruct Hs as [-> _]. by apply shape_shrink.
    + destruct Hs as (lease & row & -> & -> & Hrow & _ & Hrange & _).
      pose proof (proj1 Hb) as Hg. rewrite <- Hg in Hrow, Hrange |- *.
      by apply (shape_take _ _ _ n row _ Hb Eh eq_refl Hrange Hrow).
  - destruct (renew_shape sys own lease ttl t0 t1 t2 t3 db) as (base & Hb & [->|H]).
    + by apply shape_shrink.
    + destruct H as (old & row & Ho & Hrow & ->). by eapply shape_update.
  - apply shape_shrink, is_active_shrinks.
  - apply shape_shrink, release_shrinks.
  - apply shape_shrink, release_until_shrinks.
  - apply shape_shrink, cleanup_shrinks.
  - apply shape_shrink, status_shrinks.
  - destruct (restore_shape sys own lease ttl t0 t1 db Hwf) as (base & Hb & Hs).
    destruct (runtime_writer_lease_restore_if_unheld _ _ _ _ _ _ _ _) as [db' ok].
    cbn [fst]. destruct Hs as [->|(row & _ & Hn & Hg & _ & ->)]; [by apply shape_shrink|].
    by eapply shape_restore.
Qed.

Lemma shape_wf db db' : lease_wf db → step_shape db db' → lease_wf db'.
Proof.
  intros Hwf [Hs|base name old row Hs Ho Hrow ->|base name row Hs Hn Hg ->
             |base name row next Hs Hn Hnext Hr Hrow ->].
  - by eapply shrinks_wf.
  - pose proof (shrinks_wf _ _ Hs Hwf) as Hb. pose proof (proj2 Hb _ _ Ho) as Hg.
    rewrite <- (insert_id _ _ _ Hg). apply store_wf; [done| |done]. by apply (proj1 Hb name).
  - pose proof (shrinks_wf _ _ Hs Hwf) as Hb. rewrite <- (insert_id _ _ _ Hg).
    apply store_wf; [done| |done]. by apply (proj1 Hb name).
  - by apply store_wf; [eapply shrinks_wf| |].
Qed.

Lemma shape_abstract db db' name :
  lease_wf db → step_shape db db' → rtc alock_step (alock_of db name) (alock_of db' name).
Proof.
  intros Hwf [Hs|base n old row Hs Ho Hrow ->|base n row Hs Hn Hg ->
             |base n row next Hs Hn Hnext Hr Hrow ->].
  - by apply shrinks_abstract.
  - etrans; [by apply shrinks_abstract|]. unfold alock_of; simpl.
    destruct (decide (n = name)) as [->|]; [|by rewrite lookup_insert_ne].
    rewrite lookup_insert_eq, Ho. simpl. by rewrite Hrow.
  - etrans; [by apply shrinks_abstract|]. unfold alock_of; simpl.
    destruct (decide (n = name)) as [->|]; [|by rewrite lookup_insert_ne].
    rewrite lookup_insert_eq, Hn, Hg. simpl. apply rtc_once. constructor.
    pose proof (shrinks_wf _ _ Hs Hwf) as [Hb _]. specialize (Hb _ _ Hg). lia.
  - etrans; [by apply shrinks_abstract|]. unfold alock_of; simpl.
    destruct (decide (n = name)) as [->|]; [|by rewrite !lookup_insert_ne].
    rewrite !lookup_insert_eq, Hn. simpl. rewrite Hrow, Hnext. apply rtc_once. constructor.
Qed.

Lemma shape_generation_mono db db' name g :
  step_shape db db' → ld_generations db !! name = Some g →
  ∃ g', ld_generations db' !! name = Some g' ∧ g <= g'.
Proof.
  intros [[G _]|base n old row [G _] Ho Hrow ->|base n row [G _] Hn Hg ->
             |base n row next [G _] Hn Hnext Hr Hrow ->] Hname; simpl; rewrite ?G; eauto with lia.
  destruct (decide (n = name)) as [->|]; [|rewrite lookup_insert_ne, ?G by done; eauto with lia].
  rewrite lookup_insert_eq. eexists. split; [done|]. rewrite Hnext, G, Hname. simpl. lia.
Qed.
End protocol.

(** ** A concrete JSON text, for the witnesses: the length of the identity in
    unary, the identity, then the namespace. *)
Fixpoint unary (n : nat) (s : string) : string :=
  match n with O => String ":" s | S n => String "x" (unary n s) end.

Fixpoint read_unary (s : string) : nat * string :=
  match s with
  | String c rest =>
      if Ascii.eqb c "x" then let '(n, r) := read_unary rest in (S n, r) else (O, rest)
  | EmptyString => (O, "")
  end.

#[export] Instance witness_json : JsonText := {|
  json_str_field text key :=
    let '(n, r) := read_unary text in
    if bool_decide (key = "process_identity") then Some (String.substring 0 n r)
    else if bool_decide (key = "pid_namespace") then
      match drop_bytes n r with String _ ns => Some ns | EmptyString => None end
    else None;
  json_insert_identity _ birth ns :=
    unary (String.length birth)
      (birth +:+ match ns with Some n => String "!" n | None => "" end) |}.

Lemma read_unary_unary n s : read_unary (unary n s) = (n, s).
Proof. induction n as [|n IH]; simpl; [done|]. by rewrite IH. Qed.

Lemma substring_app_exact s t : String.substring 0 (String.length s) (s +:+ t) = s.
Proof. induction s as [|c s IH]; [by destruct t|]. autorewrite with text. simpl. by rewrite IH. Qed.

Lemma drop_bytes_app s t : drop_bytes (String.length s) (s +:+ t) = t.
Proof. induction s as [|c s IH]; [done|]. autorewrite with text. simpl. done. Qed.

#[export] Instance witness_json_laws : JsonTextLaws witness_json.
Proof.
  split; intros meta birth ns; simpl; rewrite read_unary_unary; simpl.
  - by rewrite substring_app_exact.
  - rewrite drop_bytes_app. by destruct ns.
Qed.

(** ** Properties *)

Lemma empty_lease_wf : lease_wf empty_lease_db.
Proof. split; intros ??; simpl; rewrite lookup_empty; done. Qed.

Lemma lease_wf_run blake3_hex {J : JsonText} db0 db :
  lease_wf db0 → rtc (lease_step blake3_hex) db0 db → lease_wf db.
Proof.
  intros Hwf H. induction H as [db|db1 db2 db3 Hs _ IH]; [done|].
  apply IH. apply (shape_wf blake3_hex db1); [done|]. by eapply lease_step_shape.
Qed.

(** In every state the lease operations can reach from the empty tables, a
    held row carries the last generation handed out for its name, and
    generations are positive. *)
Theorem lease_wf_reachable blake3_hex {J : JsonText} db :
  rtc (lease_step blake3_hex) empty_lease_db db → lease_wf db.
Proof. intros H. eapply lease_wf_run; [apply empty_lease_wf|exact H]. Qed.

(** The states of a run used by the witnesses: a first holder, its release, and
    a second holder. *)
Definition first_acquired : lease_db * option RuntimeWriterLease :=
  runtime_writer_lease_acquire String.rev witness_os "birth-1" "sqlite-writer" "old" "cli" 300
    None 0 1776211200 5 empty_lease_db.

Definition first_lease : RuntimeWriterLease :=
  Build_RuntimeWriterLease "sqlite-writer" "old" 1 10 (Some "boot-1")
    (runtime_writer_session_id String.rev "sqlite-writer" "old" 10 5)
    (format_rfc3339 1776211200) (format_rfc3339 1776211500) (format_rfc3339 1776211200) "cli"
    None 300.

Definition after_release : lease_db := (runtime_writer_lease_release first_lease first_acquired.1).1.

Definition second_acquired : lease_db * option RuntimeWriterLease :=
  runtime_writer_lease_acquire String.rev witness_os "birth-1" "sqlite-writer" "new" "cli" 300
    None 1776211210000 1776211210 6 after_release.

Lemma room_check db name :
  match ld_generations db !! name with Some g => g <? i64_max | None => true end = true →
  generation_room db name.
Proof. intros H g Hg. rewrite Hg in H. by apply Z.ltb_lt. Qed.

Lemma run_second : rtc (lease_step String.rev) empty_lease_db second_acquired.1.
Proof.
  eapply rtc_l; [apply (step_acquire String.rev witness_os "birth-1" Standard "sqlite-writer" "old"
    "cli" 300 None 0 1776211200 5 empty_lease_db), room_check; reflexivity|].
  eapply rtc_l; [apply (step_release String.rev first_lease first_acquired.1)|].
  apply rtc_once. apply (step_acquire String.rev witness_os "birth-1" Standard "sqlite-writer" "new"
    "cli" 300 None 1776211210000 1776211210 6 after_release), room_check. vm_compute. reflexivity.
Defined.

Lemma lease_wf_reachable_witness : lease_wf second_acquired.1.
Proof. apply (lease_wf_reachable String.rev). apply run_second. Defined.

(** C34: the lease tables refine the abstract fencing lock: each operation is, for
    every lease name, a sequence of abstract steps that take the next token,
    drop the held one, or put the last one back. *)
Theorem lease_refines_alock blake3_hex {J : JsonText} db db' name :
  lease_wf db → lease_step blake3_hex db db' →
  rtc alock_step (alock_of db name) (alock_of db' name).
Proof. intros Hwf Hs. apply shape_abstract; [done|]. by eapply lease_step_shape. Qed.

Lemma lease_refines_alock_witness :
  rtc alock_step (alock_of empty_lease_db "sqlite-writer") (alock_of first_acquired.1 "sqlite-writer").
Proof.
  apply (lease_refines_alock String.rev empty_lease_db first_acquired.1 "sqlite-writer").
  - apply empty_lease_wf.
  - apply (step_acquire String.rev witness_os "birth-1" Standard "sqlite-writer" "old"
      "cli" 300 None 0 1776211200 5 empty_lease_db), room_check. reflexivity.
Defined.

(** C3: fencing. Once a later generation of a lease name has been handed out, no
    sequence of operations makes an older lease pass the write fence again. *)
Theorem fenced_forever blake3_hex {J : JsonText} db db' lease g operation now_ms :
  lease_wf db → ld_generations db !! rl_name lease = Some g →
  0 <= rl_generation lease < g → rtc (lease_step blake3_hex) db db' →
  require_runtime_writer_lease_tx lease operation now_ms db' =
  Err (DbRuntimeWriterLeaseLost (rl_name lease) (rl_owner lease) (rl_generation lease) operation).
Proof.
  intros Hwf Hg Hlt Hr. revert g Hg Hlt Hwf.
  induction Hr as [db|db1 db2 db3 Hs _ IH]; intros g Hg Hlt Hwf.
  - unfold require_runtime_writer_lease_tx, lease_row_active.
    destruct (ld_leases db !! rl_name lease) as [row|] eqn:Hrow; [|done].
    destruct (row_is row _ _ _) eqn:Hi; [|done]. apply row_is_spec in Hi as (_ & _ & Hi).
    pose proof (proj2 Hwf _ _ Hrow) as Hlast. rewrite Hg in Hlast. injection Hlast as ->.
    pose proof (proj1 Hwf _ _ Hg). rewrite as_i64_id in Hi by (unfold_widths; lia). lia.
  - pose proof (lease_step_shape _ _ _ Hwf Hs) as Hshape.
    destruct (shape_generation_mono _ _ (rl_name lease) g Hshape Hg) as (g' & Hg' & Hle).
    eapply (IH g'); [done|lia|]. by eapply shape_wf.
Qed.

Lemma fenced_forever_witness :
  require_runtime_writer_lease_tx first_lease "enqueue LLM task" 1776211211000
    (runtime_writer_lease_cleanup_expired String.rev witness_os "birth-1" 1776211212000
       second_acquired.1).1 =
  Err (DbRuntimeWriterLeaseLost "sqlite-writer" "old" 1 "enqueue LLM task").
Proof.
  apply (fenced_forever String.rev second_acquired.1 _ first_lease 2).
  - apply (lease_wf_run String.rev empty_lease_db), run_second. apply empty_lease_wf.
  - vm_compute. reflexivity.
  - simpl. lia.
  - apply rtc_once, step_cleanup.
Defined.

(** ** Exclusion *)

Section exclusion.
Context (blake3_hex : string → string) {J : JsonText}.
Implicit Types (sys : os) (own name : string) (db : lease_db) (row : lease_row).

Lemma row_expired_format now_ms row e :
  lr_expires_at row = format_rfc3339 e → four_digit_year e → four_digit_year (now_ms / 1000) →
  row_expired now_ms row = (e <? now_ms / 1000).
Proof.
  intros Hrow He Hn. unfold row_expired, String.ltb. rewrite Hrow, format_sql_compare by done.
  unfold Z.ltb. by destruct (e ?= now_ms / 1000).
Qed.

(** A row that the cleanup phases of an acquisition keep blocks it. *)
Lemma acquire_blocked sys own policy name owner mode ttl meta t0 t1 t2 db k row :
  ld_leases (acquire_base blake3_hex sys own policy name t0 db) !! k = Some row →
  let '(db', r) := runtime_writer_lease_acquire_with_cleanup_policy blake3_hex sys own policy
                     name owner mode ttl meta t0 t1 t2 db in
  ld_leases db' !! k = Some row ∧ (k = name → r = None).
Proof.
  unfold acquire_base, runtime_writer_lease_acquire_with_cleanup_policy.
  destruct (runtime_writer_lease_cleanup_expired_tx _ _ _ _ _ _) as [db1 n]. simpl.
  intros Hk. destruct (_ !! name) as [row'|] eqn:Hn; simpl; [done|].
  rewrite lookup_insert_ne by congruence. split; [done|]. congruence.
Qed.

Lemma acquire_base_keeps sys own policy name t0 db k row :
  ld_leases db !! k = Some row →
  cleanup_drops blake3_hex sys own (negb (bool_decide (policy = Standard))) t0 row = false →
  (policy = RebindDeadDaemon → row_should_retain blake3_hex sys own row = true) →
  ld_leases (acquire_base blake3_hex sys own policy name t0 db) !! k = Some row.
Proof.
  intros Hk Hd Hreb. unfold acquire_base.
  assert (Hc : ld_leases (runtime_writer_lease_cleanup_expired_tx blake3_hex sys own
     (negb (bool_decide (policy = Standard))) t0 db).1 !! k = Some row)
    by (by rewrite cleanup_lookup, Hk, Hd).
  revert Hc. generalize (runtime_writer_lease_cleanup_expired_tx blake3_hex sys own
     (negb (bool_decide (policy = Standard))) t0 db).1 as db1. simpl. intros db1 Hc.
  clear Hd Hk. case_bool_decide as Hp; [|done].
  unfold rebind_dead_holder. destruct (_ !! name) as [r|] eqn:Hn; [|done].
  destruct (decide (k = name)) as [->|Hne].
  - rewrite Hc in Hn. injection Hn as <-. by rewrite Hreb.
  - case_match; [done|]. unfold delete_exact. rewrite Hn, row_is_refl. simpl.
    by rewrite lookup_delete_ne.
Qed.

(** An acquisition that preserves live holders neither removes nor replaces
    the row of a holder that is live or cannot be verified dead, however long
    ago it expired, and obtains nothing under its name. *)
Theorem live_holder_preserved sys own policy name owner mode ttl meta t0 t1 t2 db k row :
  policy ≠ Standard → ld_leases db !! k = Some row →
  row_should_retain blake3_hex sys own row = true →
  let '(db', r) := runtime_writer_lease_acquire_with_cleanup_policy blake3_hex sys own policy
                     name owner mode ttl meta t0 t1 t2 db in
  ld_leases db' !! k = Some row ∧ (k = name → r = None).
Proof.
  intros Hp Hk Hr. apply acquire_blocked, acquire_base_keeps; [done| |done].
  unfold cleanup_drops. rewrite bool_decide_eq_false_2, Hr by done. apply andb_false_r.
Qed.

(** Exclusion. A lease that has just been acquired keeps every acquisition of
    its name out until its expiry second has passed, daemon start with a
    dead holder apart, and it passes the write fence until then. *)
Theorem acquired_lease_excludes sys own policy name owner mode ttl meta t0 t1 t2 db db' lease :
  lease_wf db → generation_room db name → four_digit_year (t1 + ttl) →
  runtime_writer_lease_acquire_with_cleanup_policy blake3_hex sys own policy
    name owner mode ttl meta t0 t1 t2 db = (db', Some lease) →
  ∀ now_ms, four_digit_year (now_ms / 1000) → now_ms / 1000 <= t1 + ttl →
  (∀ operation, require_runtime_writer_lease_tx lease operation now_ms db' = Ok tt) ∧
  (∀ sys' own' policy' owner' mode' ttl' meta' u1 u2, policy' ≠ RebindDeadDaemon →
     (runtime_writer_lease_acquire_with_cleanup_policy blake3_hex sys' own' policy'
        name owner' mode' ttl' meta' now_ms u1 u2 db').2 = None).
Proof.
  intros Hwf Hroom Hy Hacq now_ms Hn Hle.
  pose proof (acquire_spec blake3_hex sys own policy name owner mode ttl meta t0 t1 t2 db Hwf Hroom)
    as Hs. rewrite Hacq in Hs. clear Hacq. cbv zeta in Hs.
  destruct (ld_leases (acquire_base _ _ _ _ _ _ _) !! name); [by destruct Hs as [_ [=]]|].
  destruct Hs as (l & row & [= <-] & -> & Hg & Hlg & Hr & He & Ho & Hlo & Hln & Hsess & _).
  set (db' := LeaseDb _ _). assert (Hrow : ld_leases db' !! name = Some row)
    by (unfold db'; simpl; by rewrite lookup_insert_eq).
  assert (Hx : row_expired now_ms row = false).
  { rewrite (row_expired_format now_ms row (t1 + ttl)) by done. apply Z.ltb_ge. lia. }
  split.
  - intros operation. unfold require_runtime_writer_lease_tx, lease_row_active.
    rewrite Hln, Hrow, Hx, Hlg, as_i64_id by (unfold_widths; lia).
    rewrite (proj2 (row_is_spec row _ _ _)); [done|]. by rewrite Hlo, Hsess, Hg.
  - intros sys' own' policy' owner' mode' ttl' meta' u1 u2 Hp.
    pose proof (acquire_blocked sys' own' policy' name owner' mode' ttl' meta' now_ms u1 u2 db'
                  name row) as Hb.
    destruct (runtime_writer_lease_acquire_with_cleanup_policy _ _ _ policy' _ _ _ _ _ _ _ _ _).
    apply Hb; [|done]. apply acquire_base_keeps; [done| |done].
    unfold cleanup_drops. by rewrite Hx.
Qed.

(** A fenced write that succeeds ran while its lease was active and
    committed exactly what the mutation wrote after the cleanup; a fenced
    write that fails, for a lost lease, a failed BEGIN, mutation or COMMIT,
    leaves every table as it was. *)
Theorem fenced_write_atomic {D T E} (from_db : DbError → E) begun committed sys own lease operation
    cleanup_ms now_ms write (st : lease_db * D) :
  let db1 := (runtime_writer_lease_cleanup_expired_tx blake3_hex sys own true cleanup_ms st.1).1 in
  let '(st', r) := with_runtime_writer_lease_write blake3_hex from_db true begun committed sys own
                     (Some lease) operation cleanup_ms now_ms write st in
  match r with
  | Ok v => lease_row_active now_ms (rl_name lease) (rl_owner lease) (rl_session_id lease)
              (rl_generation lease) db1 = true ∧
            write (db1, st.2) = (st', @Ok T E v)
  | Err _ => st' = st
  end.
Proof.
  intros db1. unfold with_runtime_writer_lease_write, with_runtime_writer_lease_transaction,
    fenced_body, require_runtime_writer_lease_tx. fold db1. simpl.
  destruct begun; [|done].
  destruct (lease_row_active _ _ _ _ _ db1); [|done].
  destruct (write (db1, st.2)) as [st' [v|e]]; [|done]. by destruct committed.
Qed.
End exclusion.

Lemma live_holder_preserved_witness :
  let '(db', r) := runtime_writer_lease_acquire_with_cleanup_policy String.rev witness_os "birth-1"
                     RebindDeadDaemon "sqlite-writer" "new" "daemon" 300 None
                     1796211200000 1796211200 7 first_acquired.1 in
  is_Some (ld_leases db' !! "sqlite-writer") ∧ r = None.
Proof.
  destruct (ld_leases first_acquired.1 !! "sqlite-writer") as [row|] eqn:Hrow;
    [|vm_compute in Hrow; discriminate].
  pose proof (live_holder_preserved String.rev witness_os "birth-1" RebindDeadDaemon "sqlite-writer"
    "new" "daemon" 300 None 1796211200000 1796211200 7 first_acquired.1 "sqlite-writer" row) as H.
  destruct (runtime_writer_lease_acquire_with_cleanup_policy _ _ _ _ _ _ _ _ _ _ _ _ _).
  destruct H as [H1 H2].
  - discriminate.
  - exact Hrow.
  - vm_compute in Hrow. injection Hrow as <-. vm_compute. reflexivity.
  - rewrite H1. split; [by eexists|auto].
Defined.

Lemma acquired_lease_excludes_witness :
  require_runtime_writer_lease_tx first_lease "enqueue" 1776211500999 first_acquired.1 = Ok tt ∧
  (runtime_writer_lease_acquire String.rev witness_os "birth-1" "sqlite-writer" "new" "cli" 300
     None 1776211500999 1776211500 6 first_acquired.1).2 = None.
Proof.
  destruct (acquired_lease_excludes String.rev witness_os "birth-1" Standard "sqlite-writer" "old"
    "cli" 300 None 0 1776211200 5 empty_lease_db first_acquired.1
    (default first_lease first_acquired.2)) with (now_ms := 1776211500999) as [H1 H2].
  - apply empty_lease_wf.
  - apply room_check. reflexivity.
  - unfold four_digit_year; lia.
  - vm_compute. reflexivity.
  - split; [vm_compute; discriminate|reflexivity].
  - vm_compute. discriminate.
  - split; [|by apply H2].
    specialize (H1 "enqueue"). vm_compute in H1. vm_compute. exact H1.
Defined.
