(* ===== verification/Sqlite.v ===== *)
(** * SQLite as the sources use it

    The errors of [rusqlite], the transaction discipline of the stores
    ([BEGIN IMMEDIATE], commit, rollback on drop), and the SQL text functions the
    statements rely on ([LIKE], [CAST]). The engine itself is not modelled: what
    opening a connection, beginning and committing return is an argument. *)

From Stdlib Require Import ZArith Lia String Ascii.
From stdpp Require Import base tactics list gmap strings numbers.
From S2P Require Import Prelude Text Rfc3339.
Open Scope Z_scope.

(** ** Errors *)

Inductive ErrorCode :=
  DatabaseBusy | DatabaseLocked | FileLockingProtocolFailed | ConstraintViolation | OtherCode.

Inductive sqlite_error :=
  | SqliteFailure (code : ErrorCode) (extended_code : Z) (message : option string)
  | OtherSqliteError (message : string).

#[export] Instance error_code_eq_dec : EqDecision ErrorCode.
Proof. solve_decision. Defined.
#[export] Instance sqlite_error_eq_dec : EqDecision sqlite_error.
Proof. solve_decision. Defined.

Definition SQLITE_BUSY : Z := 5.
Definition SQLITE_LOCKED : Z := 6.
Definition SQLITE_PROTOCOL : Z := 15.

Definition rusqlite_error_is_lock (error : sqlite_error) : bool :=
  match error with
  | SqliteFailure code extended_code _ =>
      match code with
      | DatabaseBusy | DatabaseLocked | FileLockingProtocolFailed => true
      | _ => let low := Z.land extended_code 255 in
             (low =? SQLITE_BUSY) || (low =? SQLITE_LOCKED) || (low =? SQLITE_PROTOCOL)
      end
  | OtherSqliteError _ => false
  end.

(** ** Connections and transactions *)

(** What a connection does in one call: opening or reusing it, [BEGIN IMMEDIATE]
    and [COMMIT] succeed ([None]) or fail. A statement that fails inside a
    transaction is a failed commit: both roll back. *)
Record conn_io (E : Type) := ConnIo {
  c_open : option E;
  c_begin : option E;
  c_commit : option E;
}.
Arguments ConnIo {E} _ _ _.
Arguments c_open {E} _.
Arguments c_begin {E} _.
Arguments c_commit {E} _.

Definition conn_ok {E} : conn_io E := ConnIo None None None.

(** How the body of a transaction ends: [tx.commit()?] and then a value, or a
    return that drops the transaction. *)
Inductive tx_end (A E : Type) :=
  | Commit (value : result A E)
  | Rollback (error : E).
Arguments Commit {A E} _.
Arguments Rollback {A E} _.

Section transaction.
Context {D A E : Type}.
Implicit Types (conn : conn_io E) (db : D).

Definition transaction_immediate conn (body : D → D * tx_end A E) db : D * result A E :=
  match c_begin conn with
  | Some e => (db, Err e)
  | None =>
      match body db with
      | (db', Commit value) =>
          match c_commit conn with
          | Some e => (db, Err e)
          | None => (db', value)
          end
      | (_, Rollback e) => (db, Err e)
      end
  end.

(** The connection of a call, opened with the given busy timeout. *)
Definition with_connection_with_busy_timeout (io : option Z → conn_io E)
    (busy_timeout : option Z) (op : conn_io E → D → D * result A E) db : D * result A E :=
  match c_open (io busy_timeout) with
  | Some e => (db, Err e)
  | None => op (io busy_timeout) db
  end.

Definition with_connection (io : option Z → conn_io E) :=
  with_connection_with_busy_timeout io None.

(** One statement outside a transaction commits by itself. *)
Definition autocommit conn (stmt : D → D * result A E) db : D * result A E :=
  match c_commit conn with
  | Some e => (db, Err e)
  | None => match stmt db with
            | (db', Ok v) => (db', Ok v)
            | (_, Err e) => (db, Err e)
            end
  end.
End transaction.

(** ** Text functions *)

(** The next UTF-8 character: its first byte and the continuation bytes. *)
Fixpoint skip_continuation (s : string) : string :=
  match s with
  | String c rest => if is_continuation c then skip_continuation rest else s
  | EmptyString => EmptyString
  end.

(** [value LIKE pattern]: [%] matches any sequence, [_] one character, other
    characters match up to ASCII case. *)
Fixpoint sql_like (pattern value : string) : bool :=
  match pattern with
  | EmptyString => is_empty value
  | String p rest =>
      if Ascii.eqb p "%" then
        (fix any_suffix (v : string) : bool :=
           sql_like rest v || match v with
                              | String _ v' => any_suffix v'
                              | EmptyString => false
                              end) value
      else
        match value with
        | EmptyString => false
        | String c v =>
            if Ascii.eqb p "_" then sql_like rest (skip_continuation v)
            else Ascii.eqb (ascii_lower p) (ascii_lower c) && sql_like rest v
        end
  end.

Example like_1 : sql_like "a%C_" "Axyzcq" = true. Proof. reflexivity. Qed.
Example like_2 : sql_like "w_1:%" "wA1:claim-0" = true. Proof. reflexivity. Qed.
Example like_3 : sql_like "w1:%" "w12:claim-0" = false. Proof. reflexivity. Qed.

(** [CAST(text AS INTEGER)]: the longest prefix that is an integer, else 0. *)
Fixpoint leading_digits (s : string) : string :=
  match s with
  | String c rest => match digit_of c with
                     | Some _ => String c (leading_digits rest)
                     | None => EmptyString
                     end
  | EmptyString => EmptyString
  end.

Fixpoint skip_spaces (s : string) : string :=
  match s with
  | String c rest =>
      if existsb (Z.eqb (byte_of c)) [9; 10; 11; 12; 13; 32] then skip_spaces rest else s
  | EmptyString => EmptyString
  end.

Definition cast_integer (s : string) : Z :=
  let magnitude r := default 0 (parse_nat (leading_digits r)) in
  match skip_spaces s with
  | String c rest =>
      if Ascii.eqb c "-" then sat_i64 (- magnitude rest)
      else if Ascii.eqb c "+" then sat_i64 (magnitude rest)
      else sat_i64 (magnitude (String c rest))
  | EmptyString => 0
  end.

(** [CAST(integer AS TEXT)]. *)
Definition show_i64 (z : Z) : string :=
  if z <? 0 then String "-" (show (- z)) else show z.

(** [str::parse::<u64>]. *)
Definition parse_u64 (s : string) : option Z :=
  match s with
  | String c rest => (if Ascii.eqb c "+" then parse_nat rest else parse_nat s) ≫= try_u64
  | EmptyString => None
  end.

(** [instr(value, needle) = 0]: the needle does not occur. *)
Definition instr_zero (value needle : string) : bool := negb (contains needle value).

(** ** Lemmas *)

Section transaction_lemmas.
Context {D A E : Type}.
Implicit Types (conn : conn_io E) (db : D).

(** A transaction that rolls back, or fails to begin or commit, leaves the
    state; one that commits leaves the state of its body. *)
Lemma transaction_cases conn (body : D → D * tx_end A E) db db' r :
  transaction_immediate conn body db = (db', r) →
  (db' = db ∧ ∃ e, r = Err e) ∨ body db = (db', Commit r).
Proof.
  unfold transaction_immediate. destruct (c_begin conn); [naive_solver|].
  destruct (body db) as [db1 [v|e]]; [|naive_solver]. destruct (c_commit conn); naive_solver.
Qed.

Lemma with_connection_cases (io : option Z → conn_io E) t (op : conn_io E → D → D * result A E)
    db db' r :
  with_connection_with_busy_timeout io t op db = (db', r) →
  (db' = db ∧ ∃ e, r = Err e) ∨ op (io t) db = (db', r).
Proof. unfold with_connection_with_busy_timeout. destruct (c_open (io t)); naive_solver. Qed.

Lemma autocommit_cases conn (stmt : D → D * result A E) db db' r :
  autocommit conn stmt db = (db', r) →
  (db' = db ∧ ∃ e, r = Err e) ∨ (stmt db = (db', r) ∧ is_ok r = true).
Proof.
  unfold autocommit. destruct (c_commit conn); [naive_solver|].
  destruct (stmt db) as [db1 [v|e]]; naive_solver.
Qed.

Lemma transaction_ok (body : D → D * tx_end A E) db db' v :
  body db = (db', Commit v) → transaction_immediate conn_ok body db = (db', v).
Proof. intros H. unfold transaction_immediate. simpl. by rewrite H. Qed.
End transaction_lemmas.

(** A pattern without wildcards before its final [%] is a prefix test up to
    ASCII case. *)
Fixpoint no_wildcard (s : string) : bool :=
  match s with
  | EmptyString => true
  | String c rest => negb (Ascii.eqb c "%") && negb (Ascii.eqb c "_") && no_wildcard rest
  end.

Lemma like_percent v : sql_like "%" v = true.
Proof. induction v; simpl; [done|]. simpl in IHv. destruct (is_empty v); done. Qed.

Lemma like_prefix p v :
  no_wildcard p = true →
  sql_like (p +:+ "%") v = String.prefix (to_ascii_lowercase p) (to_ascii_lowercase v).
Proof.
  revert v. induction p as [|c p IH]; intros v Hp; autorewrite with text.
  { rewrite like_percent. by destruct v. }
  simpl in Hp. rewrite !andb_true_iff, !negb_true_iff in Hp. destruct Hp as [[H1 H2] H3].
  cbn [sql_like to_ascii_lowercase]. rewrite H1.
  destruct v as [|d v]; [done|]. rewrite H2, IH by done. cbn [to_ascii_lowercase String.prefix].
  destruct (Ascii.eqb_spec (ascii_lower c) (ascii_lower d)) as [->|Hne].
  - by destruct (ascii_dec _ _).
  - by destruct (ascii_dec _ _).
Qed.
