(* ===== verification/QueueTypes.v ===== *)
(** * The durable message queue: data

    The types of [src/src/core/queue.rs], its tables, and the pure helpers:
    message identities, back-off, byte-limited truncation. *)

From Stdlib Require Import ZArith Lia String Ascii.
From stdpp Require Import base tactics list gmap strings numbers.
From S2P Require Import Prelude Text Rfc3339 ProcessIdentity Sqlite WriterLease.
Open Scope Z_scope.

(** ** Constants *)
Definition STARTUP_RECLAIM_STALE_SECS : Z := 60.
Definition COMPLETION_METRICS_WINDOW_MINS : Z := 10.
Definition LAST_ERROR_MAX_BYTES : nat := 4 * 1024.
Definition DEFAULT_MAX_INGEST_ACTIVE_BYTES : Z := 64 * 1024 * 1024.
Definition INGEST_ASYNC_KIND : string := "ingest_async".
Definition LLM_TASK_KIND : string := "llm_task".
Definition OVERSIZE_REJECTION_TOTAL_KEY : string := "queue.admission.rejected_oversize.total".
Definition AUTO_REQUEUE_KEY : string := "queue.auto_requeue.last_at_unix_ms".

(** ** Errors *)
Inductive DbAdmissionError := AdmissionBusy | AdmissionOther (message : string).

Inductive QueueError :=
  | QSqlite (error : sqlite_error)
  | QAdmission (error : DbAdmissionError)
  | DatabaseMissing (path : string)
  | MessageNotFound (id : string)
  | IdempotencyConflict
  | ClaimLost (id : string)
  | RetryCountOverflow (id : string)
  | BlockingTaskFailed (message : string)
  | UnsupportedModelTaskKind (kind : string)
  | UnsafeUnfilteredQueueMutation
  | ClaimConnectionMutexPoisoned
  | ClaimConnectionUnavailable
  | IngestByteBudgetExceeded (payload_bytes active_bytes limit_bytes : Z)
  | RuntimeWriterLeaseLost (lease_name owner : string) (generation : Z) (operation : string).

Definition is_sqlite_lock (e : QueueError) : bool :=
  match e with QSqlite error => rusqlite_error_is_lock error | _ => false end.

Definition unique_violation : QueueError :=
  QSqlite (SqliteFailure ConstraintViolation 1555
    (Some "UNIQUE constraint failed: pending_messages.id")).
Definition check_violation : QueueError :=
  QSqlite (SqliteFailure ConstraintViolation 275 (Some "CHECK constraint failed: op_state")).

(** ** Tables *)

(** [status TEXT CHECK(status IN ('pending', 'claimed', 'done', 'failed'))]. *)
Inductive msg_status := StPending | StClaimed | StDone | StFailed.

#[export] Instance msg_status_eq_dec : EqDecision msg_status.
Proof. solve_decision. Defined.

(** A row of [pending_messages], without its key. *)
Record msg_row := MsgRow {
  m_kind : string;
  m_source_hash : string;
  m_claim_token : option string;
  m_claimed_at : option Z;
  m_heartbeat_at : option Z;
  m_retry_count : Z;
  m_retry_backoff_ms : Z;
  m_next_attempt_at : Z;
  m_status : msg_status;
  m_payload : string;
  m_created_at : Z;
  m_last_error : option string;
  m_result_drawer_id : option string;
  m_op_state : string;
  m_rejected_reason : option string;
  m_failure_detail : option string;
  m_result_json : option string;
  m_failure_class : option string;
}.

(** A row of [pending_message_completions], without its key. *)
Record completion_row := CompletionRow {
  k_kind : string;
  k_created_at : Z;
  k_claimed_at : option Z;
  k_completed_at : Z;
  k_processing_ms : option Z;
  k_result_drawer_id : option string;
  k_op_state : string;
  k_rejected_reason : option string;
  k_failure_detail : option string;
  k_result_json : option string;
  k_source_hash : option string;
}.

#[export] Instance msg_row_eq_dec : EqDecision msg_row.
Proof. solve_decision. Defined.

(** [CHECK(op_state IN ('queued', 'running', 'completed', 'rejected', 'failed'))]. *)
Definition valid_op_state (s : string) : bool :=
  bool_decide (s ∈ ["queued"; "running"; "completed"; "rejected"; "failed"]).

(** The tables the queue reads and writes. *)
Record qdb := Qdb {
  q_pending : gmap string msg_row;
  q_completions : gmap string completion_row;
  q_meta : gmap string string;
  q_leases : lease_db;
}.

Definition set_pending (m : gmap string msg_row) (db : qdb) : qdb :=
  Qdb m (q_completions db) (q_meta db) (q_leases db).
Definition set_completions (m : gmap string completion_row) (db : qdb) : qdb :=
  Qdb (q_pending db) m (q_meta db) (q_leases db).
Definition set_meta (m : gmap string string) (db : qdb) : qdb :=
  Qdb (q_pending db) (q_completions db) m (q_leases db).

(** ** Values exchanged with callers *)
Record ClaimedMessage := {
  cm_id : string;
  cm_kind : string;
  cm_payload : string;
  cm_retry_count : Z;
  cm_claim_token : string;
  cm_source_hash : string;
  cm_created_at : Z;
  cm_claimed_at : Z;
}.

Record PendingOperationRecord := {
  or_id : string;
  or_kind : string;
  or_created_at : Z;
  or_claimed_at : option Z;
  or_completed_at : option Z;
  or_op_state : string;
  or_result_drawer_id : option string;
  or_rejected_reason : option string;
  or_failure_detail : option string;
  or_result_json : option string;
}.

Record PendingOperationCompletion := {
  pc_op_state : string;
  pc_result_drawer_id : option string;
  pc_rejected_reason : option string;
  pc_failure_detail : option string;
  pc_result_json : option string;
}.

Record ModelTaskRequeueOutcome := RequeueOutcome { ro_requeued : Z; ro_skipped : Z }.

Record QueueConfig := {
  base_delay_ms : Z;
  max_delay_ms : Z;
  max_ingest_active_bytes : Z;
  max_retries : Z;
}.

Definition default_queue_config : QueueConfig :=
  {| base_delay_ms := 5000; max_delay_ms := 3600000;
     max_ingest_active_bytes := DEFAULT_MAX_INGEST_ACTIVE_BYTES; max_retries := 10 |}.

(** [PendingMessageStore], its path and connection cache apart. *)
Record store := Store {
  st_config : QueueConfig;
  st_lifecycle_writer_lease : option RuntimeWriterLease;
}.

Definition with_lifecycle_writer_lease (s : store) (lease : RuntimeWriterLease) : store :=
  Store (st_config s) (Some lease).

Inductive QueueFailureDisposition :=
  | Retryable
  | RetryableAfter (delay_ms : Z)
  | Terminal.

Inductive EnqueueIdentity := Fresh | SourceHash | ExplicitKey (key : string).

(** ** Identities *)

(** What the library functions outside this repository compute: the
    hexadecimal BLAKE3 digest, and the redaction of secrets, which is a set of
    regular expressions. *)
Class QueueEnv := {
  blake3_hex : string → string;
  scrub_sensitive_text : string → string;
}.

(** What [next_id] reads: the clock in milliseconds, the process id and the
    value its counter had before [fetch_add]. *)
Record id_env := IdEnv { id_now_ms : Z; id_pid : Z; id_counter : Z }.

Definition next_id (prefix : string) (e : id_env) : string :=
  prefix +:+ ("-" +:+ (fmt 16 16 (id_now_ms e) +:+ ("-" +:+ (fmt 16 8 (id_pid e) +:+
    ("-" +:+ fmt 16 16 (id_counter e)))))).

Definition claim_token_of (worker_id : string) (e : id_env) : string :=
  worker_id +:+ (":" +:+ next_id "claim" e).

Section identities.
Context `{QueueEnv}.

Definition hash_source (kind payload : string) : string :=
  blake3_hex (kind +:+ (NUL +:+ payload)).

Definition idempotent_source_message_id (source_hash : string) : string :=
  "msg-dedup-" +:+ source_hash.

Definition idempotent_key_message_id (kind idempotency_key : string) : string :=
  "msg-dedup-" +:+
    blake3_hex ("mempal queue idempotency key v1" +:+ (NUL +:+ (kind +:+ (NUL +:+ idempotency_key)))).
End identities.

(** ** Arithmetic *)

Definition saturating_cutoff (now window_secs : Z) : Z := sat_i64 (now - Z.max window_secs 0).

(** [i64] division truncates towards zero; the dividend is not negative here. *)
Definition div_ceil (lhs rhs : Z) : Z :=
  if lhs <=? 0 then 0 else Z.quot (lhs - 1) rhs + 1.

(** The cast keeps a positive [i64]. *)
Definition i64_to_u64 (value : Z) : Z := if value <=? 0 then 0 else value.

Definition compute_backoff_ms (c : QueueConfig) (retry_count : Z) : Z :=
  let shift := Z.min (Z.max (retry_count - 1) 0) 30 in
  let multiplier := Z.shiftl 1 shift in
  Z.min (sat_i64 (base_delay_ms c * multiplier)) (max_delay_ms c).

Definition min_optional_i64 (left right : option Z) : option Z :=
  match left, right with
  | Some l, Some r => Some (Z.min l r)
  | Some l, None => Some l
  | None, Some r => Some r
  | None, None => None
  end.

(** ** Truncation *)

(** The loop of [truncate_to_byte_limit]: the last boundary not after [n]. *)
Fixpoint boundary_at_or_before (s : string) (n : nat) : nat :=
  match n with
  | O => O
  | S n' => if is_char_boundary s n then n else boundary_at_or_before s n'
  end.

Definition truncate_to_byte_limit (value : string) (max_bytes : nat) : string :=
  if (String.length value <=? max_bytes)%nat then value
  else String.substring 0 (boundary_at_or_before value max_bytes) value.

Definition sanitize_last_error `{QueueEnv} (error : string) : string :=
  truncate_to_byte_limit (scrub_sensitive_text error) LAST_ERROR_MAX_BYTES.

(** ** Counters in [fork_ext_meta] *)

Definition increment_meta_counter (key : string) (db : qdb) : qdb :=
  let value := match q_meta db !! key with
               | Some v => show_i64 (cast_integer v + 1)
               | None => "1"
               end in
  set_meta (<[key := value]> (q_meta db)) db.

Definition meta_counter (key : string) (db : qdb) : Z :=
  default 0 (q_meta db !! key ≫= parse_u64).
