(* ===== verification/QueueFailures.v ===== *)
(** * Failure classification

    How [src/src/core/queue.rs] reads failed and retrying rows: the reason code
    derived from the recorded error, its canonical message, and the buckets that
    the status commands show. *)

From Stdlib Require Import ZArith Lia String Ascii.
From stdpp Require Import base tactics list gmap strings numbers sorting.
From S2P Require Import Prelude Text Order Sqlite WriterLease QueueTypes.
Open Scope Z_scope.
Open Scope rust_scope.

(** A SELECT without ORDER BY returns the rows in an order the engine chooses. *)
Class TableScan := {
  scan_rows : gmap string msg_row → list (string * msg_row);
  scan_rows_perm : ∀ m, scan_rows m ≡ₚ map_to_list m;
}.

#[export] Instance key_order_scan : TableScan | 100 :=
  {| scan_rows m := map_to_list m; scan_rows_perm m := Permutation_refl _ |}.

(** ** Reason codes *)

Definition is_hook_queue_kind (kind : string) : bool :=
  bool_decide (kind ∈
    ["ingest_async"; "hook_event"; "hook_post_tool"; "hook_user_prompt"; "hook_session_start";
     "hook_session_end"; "hook:post-tool-use"; "hook:user-prompt-submit"; "hook:session-start";
     "hook:session-end"]).

Definition queue_failure_reason_code (kind last_error : string) : string :=
  let lower := to_ascii_lowercase last_error in
  let has needle := contains needle lower in
  if has "failed to decode llm response" || has "error decoding response body" then
    "llm_response_decode"
  else if has "automatic hook llm gate failed before durable insert" then
    "automatic_hook_llm_gate"
  else if has "failed to decode queued hook envelope"
          || (is_hook_queue_kind kind && has "decode") then
    "invalid_hook_envelope"
  else if has "failed to reopen db for merge" || has "failed to merge drawer" then
    "storage_merge_reopen"
  else if has "sqlite writer lease" && has "for mempal-daemon-" && has "was lost before" then
    "writer_lease_lost"
  else if has "database is locked" || has "database locked" || has "database is busy"
          || has "database busy" || has "sqlite_busy" || has "sqlite_locked" then
    "storage_locked_or_busy"
  else if has "too many requests" || has "rate limit" || has "429" then
    "model_rate_limited"
  else if has "timeout" || has "timed out" || has "408" then
    "model_timeout"
  else if has "connection refused" || has "connection reset" || has "remote disconnected" then
    "model_connection"
  else if has "unknown llm task" || has "unsupported" then
    "unsupported_queue_task"
  else if has "invalid" || has "missing" || has "configuration" || has "config"
          || has "dimension" || has "no vectors" then
    "invalid_queue_payload"
  else if is_empty (trim last_error) then
    "unknown_no_error"
  else
    "unknown_failure".

(** The [match] of [queue_failure_message_summary]. *)
Definition canonical_message (reason_code : string) : string :=
  let table :=
    [("llm_response_decode", "failed to decode LLM response");
     ("automatic_hook_llm_gate", "automatic hook LLM gate failed before durable insert");
     ("invalid_hook_envelope", "invalid or legacy hook envelope");
     ("storage_merge_reopen", "failed to reopen db for merge");
     ("writer_lease_lost", "daemon SQLite writer lease lost");
     ("storage_locked_or_busy", "database locked or busy");
     ("model_rate_limited", "model endpoint rate limited");
     ("model_timeout", "model endpoint timeout");
     ("model_connection", "model endpoint connection failure");
     ("unsupported_queue_task", "unsupported queued task");
     ("invalid_queue_payload", "invalid queued payload");
     ("unknown_no_error", "no last error recorded")] in
  match List.find (fun e => String.eqb e.1 reason_code) table with
  | Some (_, message) => message
  | None => ""
  end.

Definition queue_failure_message_summary `{QueueEnv} (reason_code last_error : string) : string :=
  let canonical := canonical_message reason_code in
  if negb (is_empty canonical) then canonical
  else truncate_to_byte_limit (sanitize_last_error last_error) 240.

(** ** Failure rows *)

Inductive QueueFailureRowStatus := RowFailed | RowRetrying.

#[export] Instance failure_row_status_eq_dec : EqDecision QueueFailureRowStatus.
Proof. solve_decision. Defined.

Record QueueFailureRow := {
  fr_id : string;
  fr_status : QueueFailureRowStatus;
  fr_kind : string;
  fr_retry_class : string;
  fr_reason_code : string;
  fr_sanitized_message : string;
  fr_retry_count : Z;
  fr_next_attempt_at : option Z;
}.

Record QueueFailureFilter := {
  ff_kind : option string;
  ff_retry_class : option string;
  ff_reason_code : option string;
}.

Record QueueFailureBucket := {
  fb_kind : string;
  fb_retry_class : string;
  fb_reason_code : string;
  fb_sanitized_message : string;
  fb_count : Z;
  fb_min_retry_count : Z;
  fb_max_retry_count : Z;
  fb_next_attempt_at_unix_secs : option Z;
}.

(** [Option::is_none_or(|value| value == actual)]. *)
Definition none_or_eq (o : option string) (actual : string) : bool :=
  match o with Some value => bool_decide (value = actual) | None => true end.

Definition is_explicit (f : QueueFailureFilter) : bool :=
  bool_decide (is_Some (ff_kind f)) || bool_decide (is_Some (ff_retry_class f))
  || bool_decide (is_Some (ff_reason_code f)).

Definition matches_bucket (f : QueueFailureFilter) (b : QueueFailureBucket) : bool :=
  none_or_eq (ff_kind f) (fb_kind b) && none_or_eq (ff_retry_class f) (fb_retry_class b)
  && none_or_eq (ff_reason_code f) (fb_reason_code b).

Definition matches_row (f : QueueFailureFilter) (r : QueueFailureRow) : bool :=
  none_or_eq (ff_kind f) (fr_kind r) && none_or_eq (ff_retry_class f) (fr_retry_class r)
  && none_or_eq (ff_reason_code f) (fr_reason_code r).

Definition ensure_explicit_filter (f : QueueFailureFilter) : result unit QueueError :=
  if is_explicit f then Ok tt else Err UnsafeUnfilteredQueueMutation.

Definition retry_class_for (status : QueueFailureRowStatus) (failure_class : option string)
    : string :=
  match status with
  | RowRetrying => "retrying_backoff"
  | RowFailed =>
      match failure_class with
      | Some value =>
          if bool_decide (value = "retryable_model") then "retryable_model"
          else if negb (is_empty (trim value)) then trim value else "terminal"
      | None => "terminal"
      end
  end.

(** The columns an older database may lack. *)
Record failure_columns := FailureColumns {
  has_failure_class : bool;
  has_last_error : bool;
  has_retry_count : bool;
  has_next_attempt_at : bool;
}.

Definition all_columns : failure_columns := FailureColumns true true true true.

Section failures.
Context `{QueueEnv, TableScan}.

(** One iteration of the loop of [queue_failure_rows]. *)
Definition failure_row_of (cols : failure_columns) (id : string) (row : msg_row)
    : result (list QueueFailureRow) QueueError :=
  let failure_class := if has_failure_class cols then m_failure_class row else None in
  let last_error := if has_last_error cols then m_last_error row else None in
  let retry_count_i64 := if has_retry_count cols then m_retry_count row else 0 in
  let next_attempt_at := if has_next_attempt_at cols then Some (m_next_attempt_at row) else None in
  let push status :=
    match try_u32 retry_count_i64 with
    | None => Err (RetryCountOverflow id)
    | Some retry_count =>
        let last_error := default "" last_error in
        let reason_code := queue_failure_reason_code (m_kind row) last_error in
        Ok [{| fr_id := id; fr_status := status; fr_kind := m_kind row;
               fr_retry_class := retry_class_for status failure_class;
               fr_reason_code := reason_code;
               fr_sanitized_message := queue_failure_message_summary reason_code last_error;
               fr_retry_count := retry_count; fr_next_attempt_at := next_attempt_at |}]
    end in
  match m_status row with
  | StFailed => push RowFailed
  | StPending => if 0 <? retry_count_i64 then push RowRetrying else Ok []
  | _ => Ok []
  end.

Fixpoint failure_rows_of (cols : failure_columns) (rows : list (string * msg_row))
    : result (list QueueFailureRow) QueueError :=
  match rows with
  | [] => Ok []
  | (id, row) :: rest =>
      let? here := failure_row_of cols id row in
      let? tail := failure_rows_of cols rest in
      Ok (here ++ tail)
  end.

Definition queue_failure_rows (cols : failure_columns) (db : qdb)
    : result (list QueueFailureRow) QueueError :=
  failure_rows_of cols (scan_rows (q_pending db)).

Definition matching_failed_rows (cols : failure_columns) (f : QueueFailureFilter) (db : qdb)
    : result (list QueueFailureRow) QueueError :=
  let? rows := queue_failure_rows cols db in
  Ok (List.filter (matches_row f)
        (List.filter (fun r => bool_decide (fr_status r = RowFailed)) rows)).
End failures.

(** ** Buckets *)

Definition bucket_key : Type := string * string * string.

Record bucket_acc := BucketAcc {
  ba_sanitized_message : string;
  ba_count : Z;
  ba_min_retry_count : Z;
  ba_max_retry_count : Z;
  ba_next_attempt_at : option Z;
}.

Definition row_key (r : QueueFailureRow) : bucket_key :=
  (fr_kind r, fr_retry_class r, fr_reason_code r).

(** [entry(key).and_modify(..).or_insert_with(..)]. *)
Definition add_to_bucket (r : QueueFailureRow) (o : option bucket_acc) : bucket_acc :=
  match o with
  | Some b =>
      BucketAcc (ba_sanitized_message b) (sat_u64 (ba_count b + 1))
        (Z.min (ba_min_retry_count b) (fr_retry_count r))
        (Z.max (ba_max_retry_count b) (fr_retry_count r))
        (min_optional_i64 (ba_next_attempt_at b) (fr_next_attempt_at r))
  | None =>
      BucketAcc (fr_sanitized_message r) 1 (fr_retry_count r) (fr_retry_count r)
        (fr_next_attempt_at r)
  end.

Fixpoint fold_buckets (rows : list QueueFailureRow) (m : gmap bucket_key bucket_acc)
    : gmap bucket_key bucket_acc :=
  match rows with
  | [] => m
  | r :: rest => fold_buckets rest (<[row_key r := add_to_bucket r (m !! row_key r)]> m)
  end.

Definition bucket_of (e : bucket_key * bucket_acc) : QueueFailureBucket :=
  let '((kind, retry_class, reason_code), b) := e in
  {| fb_kind := kind; fb_retry_class := retry_class; fb_reason_code := reason_code;
     fb_sanitized_message := ba_sanitized_message b; fb_count := ba_count b;
     fb_min_retry_count := ba_min_retry_count b; fb_max_retry_count := ba_max_retry_count b;
     fb_next_attempt_at_unix_secs := i64_to_u64 <$> ba_next_attempt_at b |}.

(** The derived [Ord] of the key, and the final order, larger counts first. *)
Definition key_cmp (a b : bucket_key) : comparison :=
  then_with (String.compare a.1.1 b.1.1)
    (then_with (String.compare a.1.2 b.1.2) (String.compare a.2 b.2)).

Definition bucket_fields (b : QueueFailureBucket) : bucket_key :=
  (fb_kind b, fb_retry_class b, fb_reason_code b).

Definition bucket_cmp (left right : QueueFailureBucket) : comparison :=
  then_with (fb_count right ?= fb_count left) (key_cmp (bucket_fields left) (bucket_fields right)).

Definition buckets_from_rows (rows : list QueueFailureRow) : list QueueFailureBucket :=
  let entries := sort_by (fun a b => not_gt (key_cmp a.1 b.1))
                   (map_to_list (fold_buckets rows ∅)) in
  sort_by (fun a b => not_gt (bucket_cmp a b)) (map bucket_of entries).

(** ** Lemmas *)
Lemma sublist_list_filter {A} (f : A → bool) l : List.filter f l `sublist_of` l.
Proof. induction l as [|x l IH]; simpl; [done|]. destruct (f x); by constructor. Qed.

Section failure_lemmas.
Context `{QueueEnv, TableScan}.

(** What a failure row says of the table row it comes from. *)
Definition failure_row_from (id : string) (row : msg_row) (r : QueueFailureRow) : Prop :=
  fr_id r = id ∧ fr_kind r = m_kind row ∧
  match fr_status r with
  | RowFailed => m_status row = StFailed
  | RowRetrying => m_status row = StPending
  end.

Lemma failure_row_of_from cols id row l r :
  failure_row_of cols id row = Ok l → r ∈ l → failure_row_from id row r.
Proof.
  unfold failure_row_of, failure_row_from. intros Hl Hin.
  destruct (m_status row) eqn:Hs; [destruct (0 <? _)| | |]; try destruct (try_u32 _);
    simplify_eq; rewrite ?list_elem_of_singleton in Hin; try (by apply elem_of_nil in Hin);
    subst; done.
Qed.

Lemma failure_rows_of_in cols rows l r :
  failure_rows_of cols rows = Ok l → r ∈ l → ∃ row, (fr_id r, row) ∈ rows ∧ failure_row_from (fr_id r) row r.
Proof.
  revert l. induction rows as [|[id row] rows IH]; intros l; cbn [failure_rows_of].
  { intros [= <-] Hin. by apply elem_of_nil in Hin. }
  destruct (failure_row_of cols id row) as [here|] eqn:Hh; [|done].
  destruct (failure_rows_of cols rows) as [tail|]; [|done]. intros [= <-] Hin.
  apply elem_of_app in Hin as [Hin|Hin].
  - pose proof (failure_row_of_from _ _ _ _ _ Hh Hin) as Hf. exists row.
    destruct Hf as [Hid Hf]. rewrite Hid. split; [by left|]. by split.
  - destruct (IH _ eq_refl Hin) as (row' & Hr & Hf). exists row'. split; [by right|done].
Qed.

(** The rows of a filtered action are failed rows of the table. *)
Lemma matching_failed_rows_in cols f db l r :
  matching_failed_rows cols f db = Ok l → r ∈ l →
  matches_row f r = true ∧
  ∃ row, q_pending db !! fr_id r = Some row ∧ m_status row = StFailed ∧ fr_kind r = m_kind row.
Proof.
  unfold matching_failed_rows, queue_failure_rows.
  destruct (failure_rows_of cols (scan_rows (q_pending db))) as [rows|] eqn:Hrows; [|done].
  intros [= <-] Hin. apply list_elem_of_In, filter_In in Hin as [Hin Hm].
  apply filter_In in Hin as [Hin Hs%bool_decide_eq_true]. apply list_elem_of_In in Hin.
  split; [done|].
  destruct (failure_rows_of_in _ _ _ _ Hrows Hin) as (row & Hr & (_ & Hk & Hst)).
  rewrite Hs in Hst. exists row. rewrite scan_rows_perm in Hr.
  by apply elem_of_map_to_list in Hr.
Qed.

Lemma failure_row_of_length cols id row l : failure_row_of cols id row = Ok l → (length l <= 1)%nat.
Proof.
  unfold failure_row_of. destruct (m_status row); [destruct (0 <? _)| | |]; try destruct (try_u32 _);
    intros; simplify_eq; simpl; lia.
Qed.

Lemma failure_rows_of_NoDup cols rows l :
  NoDup rows.*1 → failure_rows_of cols rows = Ok l → NoDup (map fr_id l).
Proof.
  revert l. induction rows as [|[id row] rows IH]; intros l Hnd; cbn [failure_rows_of].
  { intros [= <-]. constructor. }
  rewrite fmap_cons in Hnd. apply list.NoDup_cons in Hnd as [Hni Hnd]. simpl in Hni.
  destruct (failure_row_of cols id row) as [here|] eqn:Hh; [|done].
  destruct (failure_rows_of cols rows) as [tail|] eqn:Ht; [|done]. intros [= <-].
  pose proof (failure_row_of_length _ _ _ _ Hh) as Hlen.
  destruct here as [|r [|? ?]]; simpl in *; [by apply IH| |lia].
  apply list.NoDup_cons. split; [|by apply IH].
  destruct (failure_row_of_from _ _ _ _ r Hh ltac:(by left)) as [Hid _].
  intros (r' & Hid' & Hr')%list_elem_of_fmap.
  destruct (failure_rows_of_in _ _ _ r' Ht Hr') as (row' & Hin & _).
  apply Hni. rewrite <- Hid, Hid'. by apply (list_elem_of_fmap_2' fst _ (fr_id r', row')).
Qed.

Lemma matching_failed_rows_NoDup cols f db l :
  matching_failed_rows cols f db = Ok l → NoDup (map fr_id l).
Proof.
  unfold matching_failed_rows, queue_failure_rows.
  destruct (failure_rows_of cols (scan_rows (q_pending db))) as [rows|] eqn:Hrows; [|done].
  intros [= <-]. apply failure_rows_of_NoDup in Hrows.
  - eapply sublist_NoDup; [exact Hrows|]. apply fmap_sublist.
    etrans; apply sublist_list_filter.
  - rewrite scan_rows_perm. apply NoDup_fst_map_to_list.
Qed.
End failure_lemmas.
