(* ===== verification/QueueStore.v ===== *)
(** * The durable message queue: operations

    [PendingMessageStore] of [src/src/core/queue.rs], [queue_claim_by_kind.rs],
    [queue_writer_lease_fence.rs], [queue_queries.rs],
    [queue_store_construction.rs]. An operation is a function on the tables.
    Clock readings, identifiers and what the connection returns are arguments;
    where a method runs several statements outside one transaction, an argument
    [other] is what other connections commit between them. *)

From Stdlib Require Import ZArith Lia String Ascii.
From stdpp Require Import base tactics list gmap strings numbers sorting.
From S2P Require Import Prelude Text Order Rfc3339 Sqlite WriterLease QueueTypes.
From S2P Require Import QueueFailures.
Open Scope Z_scope.
Open Scope rust_scope.

Definition queue_io : Type := option Z → conn_io QueueError.
Definition queue_io_ok : queue_io := fun _ => conn_ok.

(** ** Statements *)

(** [INSERT INTO pending_messages] with the columns an enqueue gives; the others
    take their defaults. *)
Definition new_row (kind source_hash payload : string) (created_at : Z) : msg_row :=
  {| m_kind := kind; m_source_hash := source_hash; m_claim_token := None; m_claimed_at := None;
     m_heartbeat_at := None; m_retry_count := 0; m_retry_backoff_ms := 0;
     m_next_attempt_at := created_at; m_status := StPending; m_payload := payload;
     m_created_at := created_at; m_last_error := None; m_result_drawer_id := None;
     m_op_state := "queued"; m_rejected_reason := None; m_failure_detail := None;
     m_result_json := None; m_failure_class := None |}.

Definition insert_message (id : string) (row : msg_row) (db : qdb) : result qdb QueueError :=
  match q_pending db !! id with
  | Some _ => Err unique_violation
  | None => Ok (set_pending (<[id := row]> (q_pending db)) db)
  end.

(** [INSERT ... SELECT ... WHERE NOT EXISTS (completion) ON CONFLICT(id) DO NOTHING]. *)
Definition insert_message_once (id : string) (row : msg_row) (db : qdb) : qdb :=
  match q_completions db !! id, q_pending db !! id with
  | None, None => set_pending (<[id := row]> (q_pending db)) db
  | _, _ => db
  end.

(** [UPDATE pending_messages SET .. WHERE id = ? AND ..], with the row count. *)
Definition update_row (id : string) (cond : msg_row → bool) (f : msg_row → msg_row) (db : qdb)
    : qdb * Z :=
  match q_pending db !! id with
  | Some row => if cond row then (set_pending (<[id := f row]> (q_pending db)) db, 1) else (db, 0)
  | None => (db, 0)
  end.

(** [UPDATE pending_messages SET .. WHERE ..] over the whole table. *)
Definition update_rows (cond : msg_row → bool) (f : msg_row → msg_row) (db : qdb) : qdb * Z :=
  (set_pending ((fun row => if cond row then f row else row) <$> q_pending db) db,
   Z.of_nat (size (filter (fun e => cond e.2 = true) (q_pending db)))).

(** [status = 'claimed' AND claim_token = ?]. *)
Definition holds_claim (token : string) (row : msg_row) : bool :=
  bool_decide (m_status row = StClaimed) && bool_decide (m_claim_token row = Some token).

Definition is_status (s : msg_status) (row : msg_row) : bool := bool_decide (m_status row = s).

(** [status IN ('pending', 'claimed')]. *)
Definition is_active (row : msg_row) : bool := is_status StPending row || is_status StClaimed row.

Definition claim_miss_error (id : string) (db : qdb) : QueueError :=
  match q_pending db !! id with Some _ => ClaimLost id | None => MessageNotFound id end.

(** [COALESCE(SUM(length(CAST(payload AS BLOB))), 0)] of the rows that satisfy a
    condition. *)
Definition sum_payload_bytes (cond : msg_row → bool) (m : gmap string msg_row) : Z :=
  map_fold (fun _ row acc => (if cond row then str_len (m_payload row) else 0) + acc) 0 m.

Definition active_payload_bytes_for_kind (kind : string) (db : qdb) : Z :=
  i64_to_u64 (sum_payload_bytes
    (fun row => bool_decide (m_kind row = kind) && is_active row) (q_pending db)).

Definition queue_message_identity_exists (id : string) (db : qdb) : bool :=
  bool_decide (is_Some (q_pending db !! id)) || bool_decide (is_Some (q_completions db !! id)).

Definition explicit_key_conflicts (id kind source_hash : string) (db : qdb) : bool :=
  match q_pending db !! id with
  | Some row => negb (bool_decide (m_kind row = kind))
                || negb (bool_decide (m_source_hash row = source_hash))
  | None =>
      match q_completions db !! id with
      | Some c => negb (bool_decide (k_kind c = kind))
                  || negb (bool_decide (k_source_hash c = Some source_hash))
      | None => false
      end
  end.

Definition is_explicit_key (identity : EnqueueIdentity) : bool :=
  match identity with ExplicitKey _ => true | _ => false end.
Definition is_fresh (identity : EnqueueIdentity) : bool :=
  match identity with Fresh => true | _ => false end.

(** The admission test shared by the byte-budgeted enqueues. *)
Definition over_budget (payload_bytes active_bytes limit : Z) : bool :=
  (limit <? payload_bytes) || (sat_u64 (limit - payload_bytes) <? active_bytes).

(** ** The lifecycle fence *)

Definition require_runtime_writer_lease (lease : RuntimeWriterLease) (operation : string)
    (now_ms : Z) (db : qdb) : result unit QueueError :=
  if lease_row_active now_ms (rl_name lease) (rl_owner lease) (rl_session_id lease)
       (rl_generation lease) (q_leases db)
  then Ok tt
  else Err (RuntimeWriterLeaseLost (rl_name lease) (rl_owner lease) (rl_generation lease) operation).

Definition require_lifecycle_writer_lease (s : store) (operation : string) (now_ms : Z) (db : qdb)
    : result unit QueueError :=
  match st_lifecycle_writer_lease s with
  | Some lease => require_runtime_writer_lease lease operation now_ms db
  | None => Ok tt
  end.

(** A transaction whose body starts with the fence. *)
Definition fenced_tx {A} (conn : conn_io QueueError) (fence : qdb → result unit QueueError)
    (body : qdb → qdb * tx_end A QueueError) (db : qdb) : qdb * result A QueueError :=
  transaction_immediate conn
    (fun db => match fence db with Ok _ => body db | Err e => (db, Rollback e) end) db.

(** Every result of an inner body is committed on success and rolled back on
    error. *)
Definition commit_ok {A} (r : qdb * result A QueueError) : qdb * tx_end A QueueError :=
  match r with
  | (db, Ok v) => (db, Commit (Ok v))
  | (db, Err e) => (db, Rollback e)
  end.

(** ** Enqueue *)
Section store.
Context `{QueueEnv}.
Implicit Types (s : store) (io : queue_io) (db : qdb).

Definition enqueue_ingest_with_byte_budget s io (payload : string) (busy_timeout : option Z)
    (identity : EnqueueIdentity) (created_at : Z) (source_hash id : string) db
    : qdb * result string QueueError :=
  let payload_bytes := str_len payload in
  let limit := max_ingest_active_bytes (st_config s) in
  with_connection_with_busy_timeout io busy_timeout (fun conn =>
    transaction_immediate conn (fun db =>
      if is_explicit_key identity && explicit_key_conflicts id INGEST_ASYNC_KIND source_hash db
      then (db, Rollback IdempotencyConflict)
      else if negb (is_fresh identity) && queue_message_identity_exists id db
      then (db, Commit (Ok id))
      else
        let active_bytes := active_payload_bytes_for_kind INGEST_ASYNC_KIND db in
        if over_budget payload_bytes active_bytes limit then
          (increment_meta_counter OVERSIZE_REJECTION_TOTAL_KEY db,
           Commit (Err (IngestByteBudgetExceeded payload_bytes active_bytes limit)))
        else
          match insert_message id (new_row INGEST_ASYNC_KIND source_hash payload created_at) db with
          | Ok db' => (db', Commit (Ok id))
          | Err e => (db, Rollback e)
          end)) db.

Definition enqueue_id (identity : EnqueueIdentity) (kind source_hash : string) (ide : id_env)
    : string :=
  match identity with
  | Fresh => next_id "msg" ide
  | SourceHash => idempotent_source_message_id source_hash
  | ExplicitKey key => idempotent_key_message_id kind key
  end.

Definition enqueue_with_busy_timeout s io (kind payload : string) (busy_timeout : option Z)
    (identity : EnqueueIdentity) (created_at : Z) (ide : id_env) (other : qdb → qdb) db
    : qdb * result string QueueError :=
  let source_hash := hash_source kind payload in
  let id := enqueue_id identity kind source_hash ide in
  if bool_decide (kind = INGEST_ASYNC_KIND) then
    enqueue_ingest_with_byte_budget s io payload busy_timeout identity created_at source_hash id db
  else
    with_connection_with_busy_timeout io busy_timeout (fun conn db =>
      if is_explicit_key identity && explicit_key_conflicts id kind source_hash db
      then (db, Err IdempotencyConflict)
      else
        let row := new_row kind source_hash payload created_at in
        autocommit conn (fun db =>
          match identity with
          | Fresh => match insert_message id row db with
                     | Ok db' => (db', Ok id)
                     | Err e => (db, Err e)
                     end
          | SourceHash | ExplicitKey _ => (insert_message_once id row db, Ok id)
          end) (other db)) db.

Definition enqueue s io kind payload created_at ide other :=
  enqueue_with_busy_timeout s io kind payload None Fresh created_at ide other.
Definition enqueue_idempotent s io kind payload created_at ide other :=
  enqueue_with_busy_timeout s io kind payload None SourceHash created_at ide other.
Definition enqueue_idempotent_with_key s io kind payload key created_at ide other :=
  enqueue_with_busy_timeout s io kind payload None (ExplicitKey key) created_at ide other.
Definition enqueue_fail_fast s io kind payload created_at ide other :=
  enqueue_with_busy_timeout s io kind payload (Some 0) Fresh created_at ide other.
Definition enqueue_idempotent_fail_fast s io kind payload created_at ide other :=
  enqueue_with_busy_timeout s io kind payload (Some 0) SourceHash created_at ide other.
Definition enqueue_idempotent_with_key_fail_fast s io kind payload key created_at ide other :=
  enqueue_with_busy_timeout s io kind payload (Some 0) (ExplicitKey key) created_at ide other.

(** Enqueue under the write lock that validates a runtime lease. *)
Definition enqueue_fenced s io (lease : option RuntimeWriterLease) (kind payload operation : string)
    (created_at : Z) (ide : id_env) (lease_ms : Z) (other : qdb → qdb) db
    : qdb * result string QueueError :=
  match lease with
  | None => enqueue s io kind payload created_at ide other db
  | Some lease =>
      let source_hash := hash_source kind payload in
      let id := next_id "msg" ide in
      let payload_bytes := str_len payload in
      let limit := max_ingest_active_bytes (st_config s) in
      with_connection io (fun conn =>
        fenced_tx conn (require_runtime_writer_lease lease operation lease_ms) (fun db =>
          let active_bytes := active_payload_bytes_for_kind INGEST_ASYNC_KIND db in
          if bool_decide (kind = INGEST_ASYNC_KIND) && over_budget payload_bytes active_bytes limit
          then
            (increment_meta_counter OVERSIZE_REJECTION_TOTAL_KEY db,
             Commit (Err (IngestByteBudgetExceeded payload_bytes active_bytes limit)))
          else
            match insert_message id (new_row kind source_hash payload created_at) db with
            | Ok db' => (db', Commit (Ok id))
            | Err e => (db, Rollback e)
            end)) db
  end.

Definition enqueue_idempotent_with_key_fail_fast_fenced s io (lease : option RuntimeWriterLease)
    (kind payload idempotency_key operation : string) (created_at : Z) (ide : id_env) (lease_ms : Z)
    (other : qdb → qdb) db : qdb * result string QueueError :=
  match lease with
  | None => enqueue_idempotent_with_key_fail_fast s io kind payload idempotency_key created_at ide
              other db
  | Some lease =>
      let source_hash := hash_source kind payload in
      let id := idempotent_key_message_id kind idempotency_key in
      with_connection_with_busy_timeout io (Some 0) (fun conn =>
        fenced_tx conn (require_runtime_writer_lease lease operation lease_ms) (fun db =>
          if explicit_key_conflicts id kind source_hash db then (db, Rollback IdempotencyConflict)
          else (insert_message_once id (new_row kind source_hash payload created_at) db,
                Commit (Ok id)))) db
  end.

Definition record_oversize_rejection_fail_fast io db : qdb * result unit QueueError :=
  with_connection_with_busy_timeout io (Some 0) (fun conn =>
    autocommit conn (fun db => (increment_meta_counter OVERSIZE_REJECTION_TOTAL_KEY db, Ok tt))) db.

(** ** Reclaiming and claiming *)

(** [CASE WHEN kind = 'ingest_async' THEN NULL ELSE column END]. *)
Definition unless_ingest {A} (row : msg_row) (column : option A) : option A :=
  if bool_decide (m_kind row = INGEST_ASYNC_KIND) then None else column.

(** The SET list shared by [reclaim_stale] and [release_claim]. *)
Definition released_row (row : msg_row) : msg_row :=
  {| m_kind := m_kind row; m_source_hash := m_source_hash row; m_claim_token := None;
     m_claimed_at := None; m_heartbeat_at := None; m_retry_count := m_retry_count row;
     m_retry_backoff_ms := m_retry_backoff_ms row; m_next_attempt_at := m_next_attempt_at row;
     m_status := StPending; m_payload := m_payload row; m_created_at := m_created_at row;
     m_last_error := m_last_error row;
     m_result_drawer_id := unless_ingest row (m_result_drawer_id row);
     m_op_state := "queued";
     m_rejected_reason := unless_ingest row (m_rejected_reason row);
     m_failure_detail := unless_ingest row (m_failure_detail row);
     m_result_json := unless_ingest row (m_result_json row);
     m_failure_class := m_failure_class row |}.

(** [status = 'claimed' AND (heartbeat_at IS NULL OR heartbeat_at < cutoff)]. *)
Definition is_stale (stale_cutoff : Z) (row : msg_row) : bool :=
  is_status StClaimed row
  && match m_heartbeat_at row with Some h => h <? stale_cutoff | None => true end.

Definition reclaim_stale_tx (stale_cutoff : Z) db : qdb * Z :=
  update_rows (is_stale stale_cutoff) released_row db.

Definition reclaim_stale_conn (stale_cutoff : Z) db : qdb * Z :=
  update_rows (is_stale stale_cutoff) released_row db.

Definition reclaim_stale io (stale_secs now : Z) db : qdb * result Z QueueError :=
  with_connection io (fun conn =>
    autocommit conn (fun db =>
      let '(db', updated) := reclaim_stale_conn (saturating_cutoff now stale_secs) db in
      (db', Ok updated))) db.

(** [PendingMessageStore::with_config] reclaims before it returns a store. *)
Definition with_config io (config : QueueConfig) (now : Z) db : qdb * result store QueueError :=
  match reclaim_stale io STARTUP_RECLAIM_STALE_SECS now db with
  | (db', Ok _) => (db', Ok (Store config None))
  | (db', Err e) => (db', Err e)
  end.

Definition new_without_reclaim_with_config (config : QueueConfig) : store := Store config None.

(** [status = 'pending' AND next_attempt_at <= now]. *)
Definition is_due (now : Z) (row : msg_row) : bool :=
  is_status StPending row && (m_next_attempt_at row <=? now).

(** [kind NOT IN ('llm_task', 'ingest_async')]. *)
Definition not_dedicated (row : msg_row) : bool :=
  negb (bool_decide (m_kind row = LLM_TASK_KIND))
  && negb (bool_decide (m_kind row = INGEST_ASYNC_KIND)).

Definition kind_is (kind : string) (row : msg_row) : bool := bool_decide (m_kind row = kind).

Definition exists_row (cond : string → msg_row → bool) db : bool :=
  existsb (fun e => cond e.1 e.2) (map_to_list (q_pending db)).

Definition claim_work_available (stale_cutoff now : Z) (kind_filter : option string)
    (exclude_dedicated_kinds : bool) db : bool :=
  exists_row (fun _ row => is_stale stale_cutoff row) db
  || exists_row (fun _ row =>
       is_due now row
       && match kind_filter with Some kind => kind_is kind row | None => true end
       && (negb exclude_dedicated_kinds || not_dedicated row)) db.

Definition claim_by_id_work_available (stale_cutoff now : Z) (id_filter kind_filter : string) db
    : bool :=
  exists_row (fun _ row => is_stale stale_cutoff row) db
  || exists_row (fun id row => bool_decide (id = id_filter) && is_due now row
                               && kind_is kind_filter row) db.

(** [ORDER BY next_attempt_at ASC, id ASC]. *)
Definition claim_leb (a b : string * msg_row) : bool :=
  not_gt (then_with (m_next_attempt_at a.2 ?= m_next_attempt_at b.2) (String.compare a.1 b.1)).

Definition select_next (cond : msg_row → bool) db : option (string * msg_row) :=
  head (sort_by claim_leb (filter (fun e => cond e.2 = true) (map_to_list (q_pending db)))).

Definition claimed_row (token : string) (now : Z) (row : msg_row) : msg_row :=
  {| m_kind := m_kind row; m_source_hash := m_source_hash row; m_claim_token := Some token;
     m_claimed_at := Some now; m_heartbeat_at := Some now; m_retry_count := m_retry_count row;
     m_retry_backoff_ms := m_retry_backoff_ms row; m_next_attempt_at := m_next_attempt_at row;
     m_status := StClaimed; m_payload := m_payload row; m_created_at := m_created_at row;
     m_last_error := m_last_error row; m_result_drawer_id := m_result_drawer_id row;
     m_op_state := "running"; m_rejected_reason := m_rejected_reason row;
     m_failure_detail := m_failure_detail row; m_result_json := m_result_json row;
     m_failure_class := m_failure_class row |}.

(** The tail of the three claim methods: the selected row is marked claimed. *)
Definition claim_selected (worker_id : string) (now : Z) (ide : id_env)
    (row : option (string * msg_row)) (update_cond : msg_row → bool) db
    : qdb * tx_end (option ClaimedMessage) QueueError :=
  match row with
  | None => (db, Commit (Ok None))
  | Some (id, row) =>
      match try_u32 (m_retry_count row) with
      | None => (db, Rollback (RetryCountOverflow id))
      | Some retry_count =>
          let claim_token := claim_token_of worker_id ide in
          let '(db', updated) := update_row id update_cond (claimed_row claim_token now) db in
          if updated =? 0 then (db', Commit (Ok None))
          else (db', Commit (Ok (Some
            {| cm_id := id; cm_kind := m_kind row; cm_payload := m_payload row;
               cm_retry_count := retry_count; cm_claim_token := claim_token;
               cm_source_hash := m_source_hash row; cm_created_at := m_created_at row;
               cm_claimed_at := now |})))
      end
  end.

(** What one attempt to claim reads and meets: the reader and the claim
    connection, the clock, and the commits of other connections. *)
Record claim_env := ClaimEnv {
  ce_reader : option QueueError;
  ce_conn : conn_io QueueError;
  ce_probe_now : Z;
  ce_now : Z;
  ce_tx_now : Z;
  ce_probe_lease_ms : Z;
  ce_lease_ms : Z;
  ce_tx_lease_ms : Z;
  ce_id : id_env;
  ce_other_probe : qdb → qdb;
  ce_other : qdb → qdb;
}.

Definition with_claim_connection {A} (e : claim_env)
    (op : conn_io QueueError → qdb → qdb * result A QueueError) db : qdb * result A QueueError :=
  match c_open (ce_conn e) with
  | Some err => (db, Err err)
  | None => op (ce_conn e) db
  end.

Definition claim_next_once (e : claim_env) (worker_id : string) (claim_ttl_secs : Z) db
    : qdb * result (option ClaimedMessage) QueueError :=
  with_claim_connection e (fun conn db =>
    let stale_cutoff := saturating_cutoff (ce_now e) claim_ttl_secs in
    if negb (claim_work_available stale_cutoff (ce_now e) None true db) then (db, Ok None)
    else
      transaction_immediate conn (fun db =>
        let '(db1, _) := reclaim_stale_tx stale_cutoff db in
        claim_selected worker_id (ce_tx_now e) (ce_id e)
          (select_next (fun row => is_due (ce_tx_now e) row && not_dedicated row) db1)
          (is_status StPending) db1) (ce_other e db)) db.

Definition claim_next_by_kind_once s (e : claim_env) (worker_id : string) (claim_ttl_secs : Z)
    (kind_filter : string) (approved : bool) db
    : qdb * result (option ClaimedMessage) QueueError :=
  match ce_reader e with
  | Some err => (db, Err err)
  | None =>
      match require_lifecycle_writer_lease s "claim queued message" (ce_probe_lease_ms e) db with
      | Err err => (db, Err err)
      | Ok _ =>
          if negb (claim_work_available (saturating_cutoff (ce_probe_now e) claim_ttl_secs)
                     (ce_probe_now e) (Some kind_filter) false db) then (db, Ok None)
          else
            let db := ce_other_probe e db in
            if negb approved then (db, Ok None)
            else
              with_claim_connection e (fun conn db =>
                match require_lifecycle_writer_lease s "claim queued message" (ce_lease_ms e) db with
                | Err err => (db, Err err)
                | Ok _ =>
                    let stale_cutoff := saturating_cutoff (ce_now e) claim_ttl_secs in
                    if negb (claim_work_available stale_cutoff (ce_now e) (Some kind_filter) false db)
                    then (db, Ok None)
                    else
                      fenced_tx conn
                        (require_lifecycle_writer_lease s "claim queued message" (ce_tx_lease_ms e))
                        (fun db =>
                           let '(db1, _) := reclaim_stale_tx stale_cutoff db in
                           claim_selected worker_id (ce_tx_now e) (ce_id e)
                             (select_next (fun row => is_due (ce_tx_now e) row
                                                      && kind_is kind_filter row) db1)
                             (is_status StPending) db1) (ce_other e db)
                end) db
      end
  end.

Definition claim_by_id_and_kind_once s (e : claim_env) (worker_id : string) (claim_ttl_secs : Z)
    (id_filter kind_filter : string) db : qdb * result (option ClaimedMessage) QueueError :=
  with_claim_connection e (fun conn db =>
    match require_lifecycle_writer_lease s "claim queued message by id" (ce_lease_ms e) db with
    | Err err => (db, Err err)
    | Ok _ =>
        let stale_cutoff := saturating_cutoff (ce_now e) claim_ttl_secs in
        if negb (claim_by_id_work_available stale_cutoff (ce_now e) id_filter kind_filter db)
        then (db, Ok None)
        else
          fenced_tx conn
            (require_lifecycle_writer_lease s "claim queued message by id" (ce_tx_lease_ms e))
            (fun db =>
               let '(db1, _) := reclaim_stale_tx stale_cutoff db in
               let row := match q_pending db1 !! id_filter with
                          | Some row => if is_due (ce_tx_now e) row && kind_is kind_filter row
                                        then Some (id_filter, row) else None
                          | None => None
                          end in
               claim_selected worker_id (ce_tx_now e) (ce_id e) row
                 (fun row => is_status StPending row && kind_is kind_filter row) db1)
            (ce_other e db)
    end) db.

(** ** Finishing a claim *)

(** The [INSERT .. ON CONFLICT(message_id) DO UPDATE] of [confirm_in_tx], which
    does not update [source_hash]. *)
Definition upsert_completion (id : string) (c : completion_row) db : qdb :=
  let c' := match q_completions db !! id with
            | Some old =>
                {| k_kind := k_kind c; k_created_at := k_created_at c;
                   k_claimed_at := k_claimed_at c; k_completed_at := k_completed_at c;
                   k_processing_ms := k_processing_ms c;
                   k_result_drawer_id := k_result_drawer_id c; k_op_state := k_op_state c;
                   k_rejected_reason := k_rejected_reason c;
                   k_failure_detail := k_failure_detail c; k_result_json := k_result_json c;
                   k_source_hash := k_source_hash old |}
            | None => c
            end in
  set_completions (<[id := c']> (q_completions db)) db.

Definition confirm_in_tx (claim : ClaimedMessage) (op_state : string) (completed_at : Z) db
    : qdb * result unit QueueError :=
  match q_pending db !! cm_id claim with
  | Some row =>
      if holds_claim (cm_claim_token claim) row then
        let c :=
          {| k_kind := m_kind row; k_created_at := sat_i64 (m_created_at row * 1000);
             k_claimed_at := (fun c => sat_i64 (c * 1000)) <$> m_claimed_at row;
             k_completed_at := completed_at;
             k_processing_ms :=
               (fun c => sat_i64 (completed_at - sat_i64 (c * 1000))) <$> m_claimed_at row;
             k_result_drawer_id := m_result_drawer_id row; k_op_state := op_state;
             k_rejected_reason := m_rejected_reason row;
             k_failure_detail := m_failure_detail row; k_result_json := m_result_json row;
             k_source_hash := Some (cm_source_hash claim) |} in
        if negb (valid_op_state op_state) then (db, Err check_violation)
        else
          let db1 := upsert_completion (cm_id claim) c db in
          (set_pending (delete (cm_id claim) (q_pending db1)) db1, Ok tt)
      else (db, Err (claim_miss_error (cm_id claim) db))
  | None => (db, Err (claim_miss_error (cm_id claim) db))
  end.

Definition confirm s io (claim : ClaimedMessage) (lease_ms completed_at : Z) db
    : qdb * result unit QueueError :=
  with_connection io (fun conn =>
    fenced_tx conn (require_lifecycle_writer_lease s "confirm queued message" lease_ms)
      (fun db => commit_ok (confirm_in_tx claim "completed" completed_at db))) db.

Definition with_result (c : PendingOperationCompletion) (row : msg_row) : msg_row :=
  {| m_kind := m_kind row; m_source_hash := m_source_hash row;
     m_claim_token := m_claim_token row; m_claimed_at := m_claimed_at row;
     m_heartbeat_at := m_heartbeat_at row; m_retry_count := m_retry_count row;
     m_retry_backoff_ms := m_retry_backoff_ms row; m_next_attempt_at := m_next_attempt_at row;
     m_status := m_status row; m_payload := m_payload row; m_created_at := m_created_at row;
     m_last_error := m_last_error row; m_result_drawer_id := pc_result_drawer_id c;
     m_op_state := pc_op_state c; m_rejected_reason := pc_rejected_reason c;
     m_failure_detail := pc_failure_detail c; m_result_json := pc_result_json c;
     m_failure_class := m_failure_class row |}.

Definition complete_operation_with_busy_timeout s io (claim : ClaimedMessage)
    (completion : PendingOperationCompletion) (busy_timeout : option Z)
    (lease_ms completed_at : Z) db : qdb * result unit QueueError :=
  with_connection_with_busy_timeout io busy_timeout (fun conn =>
    fenced_tx conn (require_lifecycle_writer_lease s "complete queued operation" lease_ms)
      (fun db =>
         let '(db1, updated) := update_row (cm_id claim) (holds_claim (cm_claim_token claim))
                                  (with_result completion) db in
         if updated =? 0 then (db, Rollback (claim_miss_error (cm_id claim) db))
         else if negb (valid_op_state (pc_op_state completion)) then (db, Rollback check_violation)
         else commit_ok (confirm_in_tx claim (pc_op_state completion) completed_at db1))) db.

Definition complete_operation s io claim completion :=
  complete_operation_with_busy_timeout s io claim completion None.

Definition failed_row (next_retry backoff_ms next_attempt_at : Z) (terminal : bool)
    (error : string) (row : msg_row) : msg_row :=
  {| m_kind := m_kind row; m_source_hash := m_source_hash row; m_claim_token := None;
     m_claimed_at := None; m_heartbeat_at := None; m_retry_count := next_retry;
     m_retry_backoff_ms := backoff_ms; m_next_attempt_at := next_attempt_at;
     m_status := if terminal then StFailed else StPending; m_payload := m_payload row;
     m_created_at := m_created_at row; m_last_error := Some error;
     m_result_drawer_id := m_result_drawer_id row;
     m_op_state := if terminal then "failed" else "queued";
     m_rejected_reason := m_rejected_reason row; m_failure_detail := m_failure_detail row;
     m_result_json := m_result_json row;
     m_failure_class := if terminal then Some "terminal" else None |}.

Definition disposition_backoff_ms s (disposition : QueueFailureDisposition) (next_retry : Z) : Z :=
  match disposition with
  | Terminal => 0
  | Retryable => compute_backoff_ms (st_config s) next_retry
  | RetryableAfter delay_ms => Z.max delay_ms 0
  end.

Definition mark_failed_with_disposition s io (claim : ClaimedMessage) (error : string)
    (disposition : QueueFailureDisposition) (lease_ms now : Z) db : qdb * result unit QueueError :=
  with_connection io (fun conn =>
    fenced_tx conn (require_lifecycle_writer_lease s "requeue or fail queued message" lease_ms)
      (fun db =>
         let redacted_error := sanitize_last_error error in
         let miss := (db, Rollback (claim_miss_error (cm_id claim) db)) in
         match q_pending db !! cm_id claim with
         | Some row =>
             if holds_claim (cm_claim_token claim) row then
               let next_retry := sat_i64 (m_retry_count row + 1) in
               match try_u32 next_retry with
               | None => (db, Rollback (RetryCountOverflow (cm_id claim)))
               | Some next_retry_u32 =>
                   let terminal := match disposition with Terminal => true | _ => false end in
                   let backoff_ms := disposition_backoff_ms s disposition next_retry_u32 in
                   let next_attempt_at :=
                     if terminal then now else sat_i64 (now + div_ceil backoff_ms 1000) in
                   let '(db', updated) :=
                     update_row (cm_id claim) (holds_claim (cm_claim_token claim))
                       (failed_row next_retry backoff_ms next_attempt_at terminal redacted_error) db in
                   if updated =? 0 then miss else (db', Commit (Ok tt))
               end
             else miss
         | None => miss
         end)) db.

Definition mark_failed s io claim error :=
  mark_failed_with_disposition s io claim error Retryable.

Definition release_claim_with_busy_timeout s io (claim : ClaimedMessage) (lease_ms : Z) db
    : qdb * result unit QueueError :=
  with_connection io (fun conn =>
    fenced_tx conn (require_lifecycle_writer_lease s "release queued message claim" lease_ms)
      (fun db =>
         let '(db', updated) := update_row (cm_id claim) (holds_claim (cm_claim_token claim))
                                  released_row db in
         if updated =? 0 then (db, Rollback (claim_miss_error (cm_id claim) db))
         else (db', Commit (Ok tt)))) db.

Definition release_claim := release_claim_with_busy_timeout.

(** Cancellation releases the claim without the lifecycle fence. *)
Definition release_owned_claim_after_cancellation s :=
  release_claim_with_busy_timeout (Store (st_config s) None).

Definition heartbeat_row (now : Z) (row : msg_row) : msg_row :=
  {| m_kind := m_kind row; m_source_hash := m_source_hash row;
     m_claim_token := m_claim_token row; m_claimed_at := m_claimed_at row;
     m_heartbeat_at := Some now; m_retry_count := m_retry_count row;
     m_retry_backoff_ms := m_retry_backoff_ms row; m_next_attempt_at := m_next_attempt_at row;
     m_status := m_status row; m_payload := m_payload row; m_created_at := m_created_at row;
     m_last_error := m_last_error row; m_result_drawer_id := m_result_drawer_id row;
     m_op_state := m_op_state row; m_rejected_reason := m_rejected_reason row;
     m_failure_detail := m_failure_detail row; m_result_json := m_result_json row;
     m_failure_class := m_failure_class row |}.

Definition refresh_heartbeat s io (id worker_id : string) (now lease_ms : Z) db
    : qdb * result unit QueueError :=
  let pattern := worker_id +:+ ":%" in
  with_connection io (fun conn =>
    fenced_tx conn (require_lifecycle_writer_lease s "refresh queued message heartbeat" lease_ms)
      (fun db =>
         let '(db', updated) :=
           update_row id
             (fun row => is_status StClaimed row
                         && match m_claim_token row with
                            | Some token => sql_like pattern token
                            | None => false
                            end)
             (heartbeat_row now) db in
         if updated =? 0 then (db, Rollback (MessageNotFound id)) else (db', Commit (Ok tt)))) db.
End store.
