(* ===== verification/QueueAdmin.v ===== *)
(** * The durable message queue: recovery and administration

    The operations of [src/src/core/queue.rs] that move failed rows back to the
    queue or to the archive, and the status query. *)

From Stdlib Require Import ZArith Lia String Ascii.
From stdpp Require Import base tactics list gmap strings numbers sorting.
From S2P Require Import Prelude Text Order Rfc3339 Sqlite WriterLease QueueTypes.
From S2P Require Import QueueFailures QueueStore.
Open Scope Z_scope.
Open Scope rust_scope.

Record QueueFailureActionPreview := {
  ap_filter : QueueFailureFilter;
  ap_matched : Z;
  ap_buckets : list QueueFailureBucket;
}.

Record QueueFailureActionOutcome := {
  ao_filter : QueueFailureFilter;
  ao_matched : Z;
  ao_changed : Z;
  ao_buckets : list QueueFailureBucket;
}.

Definition no_rows : QueueError := QSqlite (OtherSqliteError "Query returned no rows").

(** ** Requeueing *)

(** The SET list of [requeue_failed_message]. *)
Definition requeued_row (now : Z) (row : msg_row) : msg_row :=
  {| m_kind := m_kind row; m_source_hash := m_source_hash row; m_claim_token := None;
     m_claimed_at := None; m_heartbeat_at := None; m_retry_count := 0; m_retry_backoff_ms := 0;
     m_next_attempt_at := Z.min (m_created_at row) now; m_status := StPending;
     m_payload := m_payload row; m_created_at := m_created_at row; m_last_error := None;
     m_result_drawer_id := unless_ingest row (m_result_drawer_id row); m_op_state := "queued";
     m_rejected_reason := unless_ingest row (m_rejected_reason row);
     m_failure_detail := unless_ingest row (m_failure_detail row);
     m_result_json := unless_ingest row (m_result_json row); m_failure_class := None |}.

Definition requeue_failed_message (id : string) (now : Z) (db : qdb) : qdb * Z :=
  update_row id (is_status StFailed) (requeued_row now) db.

Definition admitted_requeue_payload_bytes (id kind : string) (active_ingest_bytes limit : Z)
    (db : qdb) : result (option Z) QueueError :=
  if negb (bool_decide (kind = INGEST_ASYNC_KIND)) then Ok (Some 0)
  else
    match q_pending db !! id with
    | None => Err no_rows
    | Some row =>
        let payload_bytes := i64_to_u64 (str_len (m_payload row)) in
        if sat_u64 (limit - active_ingest_bytes) <? payload_bytes then Ok None
        else Ok (Some payload_bytes)
    end.

(** The loop shared by the two requeueing operations: [changed] counts updated
    rows, [skipped] rows the byte budget left out. *)
Fixpoint requeue_loop (now limit : Z) (rows : list (string * string)) (active : Z)
    (changed skipped : Z) (db : qdb) : qdb * result (Z * Z) QueueError :=
  match rows with
  | [] => (db, Ok (changed, skipped))
  | (id, kind) :: rest =>
      match admitted_requeue_payload_bytes id kind active limit db with
      | Err e => (db, Err e)
      | Ok None => requeue_loop now limit rest active changed (sat_u64 (skipped + 1)) db
      | Ok (Some payload_bytes) =>
          let '(db', updated) := requeue_failed_message id now db in
          if 0 <? updated then
            requeue_loop now limit rest (sat_u64 (active + payload_bytes))
              (sat_u64 (changed + updated)) skipped db'
          else requeue_loop now limit rest active changed skipped db'
      end
  end.

(** [ORDER BY created_at ASC, id ASC]. *)
Definition created_leb (a b : string * msg_row) : bool :=
  not_gt (then_with (m_created_at a.2 ?= m_created_at b.2) (String.compare a.1 b.1)).

Definition retryable_model_candidates (kind_predicate : msg_row → bool) (db : qdb)
    : list (string * string) :=
  map (fun e => (e.1, m_kind e.2))
    (sort_by created_leb
       (filter (fun e => is_status StFailed e.2
                         && bool_decide (m_failure_class e.2 = Some "retryable_model")
                         && kind_predicate e.2 = true)
          (map_to_list (q_pending db)))).

Definition requeue_failed_model_tasks (now : Z) (model_kind : string) (limit : Z) (db : qdb)
    : qdb * result ModelTaskRequeueOutcome QueueError :=
  let run predicate :=
    match requeue_loop now limit (retryable_model_candidates predicate db)
            (active_payload_bytes_for_kind INGEST_ASYNC_KIND db) 0 0 db with
    | (db', Ok (requeued, skipped)) => (db', Ok (RequeueOutcome requeued skipped))
    | (db', Err e) => (db', Err e)
    end in
  if bool_decide (model_kind = "embedding") then run (fun row => negb (kind_is LLM_TASK_KIND row))
  else if bool_decide (model_kind = "llm") then run (kind_is LLM_TASK_KIND)
  else (db, Err (UnsupportedModelTaskKind model_kind)).

Definition auto_requeue_failed_model_tasks (s : store) (io : queue_io) (model_kind : string)
    (now now_ms : Z) (db : qdb) : qdb * result ModelTaskRequeueOutcome QueueError :=
  with_connection io (fun conn =>
    transaction_immediate conn (fun db =>
      match requeue_failed_model_tasks now model_kind (max_ingest_active_bytes (st_config s)) db with
      | (db', Err e) => (db', Rollback e)
      | (db', Ok outcome) =>
          (if 0 <? ro_requeued outcome
           then set_meta (<[AUTO_REQUEUE_KEY := show_i64 now_ms]> (q_meta db')) db' else db',
           Commit (Ok outcome))
      end)) db.

Definition retry_failed_embed_messages_on_connection (s : store) (now : Z) (db : qdb)
    : qdb * result Z QueueError :=
  match requeue_failed_model_tasks now "embedding" (max_ingest_active_bytes (st_config s)) db with
  | (db', Ok outcome) => (db', Ok (ro_requeued outcome))
  | (db', Err e) => (db', Err e)
  end.

Definition retry_failed_embed_messages (s : store) (io : queue_io) (now : Z) (db : qdb)
    : qdb * result Z QueueError :=
  with_connection io (fun conn =>
    transaction_immediate conn (fun db =>
      commit_ok (retry_failed_embed_messages_on_connection s now db))) db.

Section admin.
Context `{QueueEnv, TableScan}.
Implicit Types (s : store) (io : queue_io) (db : qdb).

(** ** Model failures *)

Definition model_failed_row (now : Z) (error : string) (row : msg_row) : msg_row :=
  {| m_kind := m_kind row; m_source_hash := m_source_hash row; m_claim_token := None;
     m_claimed_at := None; m_heartbeat_at := None; m_retry_count := 0; m_retry_backoff_ms := 0;
     m_next_attempt_at := now; m_status := StFailed; m_payload := m_payload row;
     m_created_at := m_created_at row; m_last_error := Some error;
     m_result_drawer_id := m_result_drawer_id row; m_op_state := "failed";
     m_rejected_reason := m_rejected_reason row; m_failure_detail := m_failure_detail row;
     m_result_json := m_result_json row; m_failure_class := Some "retryable_model" |}.

Definition mark_model_task_failed_retryable io (id error : string) (now : Z) db
    : qdb * result unit QueueError :=
  let redacted_error := sanitize_last_error error in
  with_connection io (fun conn =>
    autocommit conn (fun db =>
      let '(db', updated) := update_row id (fun _ => true) (model_failed_row now redacted_error) db in
      if updated =? 0 then (db, Err (MessageNotFound id)) else (db', Ok tt))) db.

(** ** Rows left by a dead daemon *)

Definition hook_kinds : list string :=
  ["hook_event"; "hook_post_tool"; "hook_user_prompt"; "hook_session_start"; "hook_session_end";
   "hook:post-tool-use"; "hook:user-prompt-submit"; "hook:session-start"; "hook:session-end"].

Definition WRITER_LEASE_LOST_PATTERN : string :=
  "%SQLite writer lease `sqlite-writer` for mempal-daemon-% was lost before build daemon hook drawer records%".

Definition lease_failure_row (current_owner_error : string) (row : msg_row) : bool :=
  is_status StPending row && bool_decide (m_kind row ∈ hook_kinds)
  && match m_last_error row with
     | Some e => sql_like WRITER_LEASE_LOST_PATTERN e && instr_zero e current_owner_error
     | None => false
     end.

(** The same SET list, without the status and the result columns. *)
Definition rearmed_row (now : Z) (row : msg_row) : msg_row :=
  {| m_kind := m_kind row; m_source_hash := m_source_hash row; m_claim_token := None;
     m_claimed_at := None; m_heartbeat_at := None; m_retry_count := 0; m_retry_backoff_ms := 0;
     m_next_attempt_at := Z.min (m_created_at row) now; m_status := m_status row;
     m_payload := m_payload row; m_created_at := m_created_at row; m_last_error := None;
     m_result_drawer_id := m_result_drawer_id row; m_op_state := "queued";
     m_rejected_reason := m_rejected_reason row; m_failure_detail := m_failure_detail row;
     m_result_json := m_result_json row; m_failure_class := None |}.

Definition requeue_writer_lease_failures_for_daemon_start io (daemon_owner : string) (now : Z) db
    : qdb * result Z QueueError :=
  let current_owner_error := " for " +:+ (daemon_owner +:+ " was lost before ") in
  with_connection io (fun conn =>
    autocommit conn (fun db =>
      let '(db', updated) := update_rows (lease_failure_row current_owner_error) (rearmed_row now) db in
      (db', Ok updated))) db.

(** ** Filtered actions *)

Definition preview_failed_action (cols : failure_columns) (f : QueueFailureFilter) db
    : result QueueFailureActionPreview QueueError :=
  let? _ := ensure_explicit_filter f in
  let? rows := matching_failed_rows cols f db in
  Ok {| ap_filter := f; ap_matched := Z.of_nat (length rows); ap_buckets := buckets_from_rows rows |}.

Definition retry_failed_messages_on_connection s (cols : failure_columns) (f : QueueFailureFilter)
    (now : Z) db : qdb * result QueueFailureActionOutcome QueueError :=
  match (let? _ := ensure_explicit_filter f in matching_failed_rows cols f db) with
  | Err e => (db, Err e)
  | Ok rows =>
      match requeue_loop now (max_ingest_active_bytes (st_config s))
              (map (fun r => (fr_id r, fr_kind r)) rows)
              (active_payload_bytes_for_kind INGEST_ASYNC_KIND db) 0 0 db with
      | (db', Err e) => (db', Err e)
      | (db', Ok (changed, _)) =>
          (db', Ok {| ao_filter := f; ao_matched := Z.of_nat (length rows); ao_changed := changed;
                      ao_buckets := buckets_from_rows rows |})
      end
  end.

Definition retry_failed_messages s io cols f now db
    : qdb * result QueueFailureActionOutcome QueueError :=
  with_connection io (fun conn =>
    transaction_immediate conn (fun db =>
      commit_ok (retry_failed_messages_on_connection s cols f now db))) db.

(** The completion of an archived row; the product is SQLite's, on clock seconds,
    which do not overflow. *)
Definition archived_completion (completed_at : Z) (reason_code : string) (row : msg_row)
    : completion_row :=
  {| k_kind := m_kind row; k_created_at := m_created_at row * 1000;
     k_claimed_at := m_claimed_at row; k_completed_at := completed_at;
     k_processing_ms := None; k_result_drawer_id := m_result_drawer_id row;
     k_op_state := "failed";
     k_rejected_reason := Some ("queue_archive:" +:+ reason_code);
     k_failure_detail := m_last_error row; k_result_json := m_result_json row;
     k_source_hash := Some (m_source_hash row) |}.

(** One iteration of the archive loop. *)
Definition archive_row (completed_at : Z) (id reason_code : string) db : qdb * Z :=
  match q_pending db !! id with
  | Some row =>
      if is_status StFailed row then
        let c := archived_completion completed_at reason_code row in
        let db1 := set_completions (<[id := c]> (q_completions db)) db in
        (set_pending (delete id (q_pending db1)) db1, 1)
      else (db, 0)
  | None => (db, 0)
  end.

Fixpoint archive_loop (completed_at : Z) (rows : list QueueFailureRow) (changed : Z) db : qdb * Z :=
  match rows with
  | [] => (db, changed)
  | r :: rest =>
      let '(db', deleted) := archive_row completed_at (fr_id r) (fr_reason_code r) db in
      archive_loop completed_at rest (sat_u64 (changed + deleted)) db'
  end.

Definition archive_failed_messages_on_connection (cols : failure_columns) (f : QueueFailureFilter)
    (completed_at : Z) db : qdb * result QueueFailureActionOutcome QueueError :=
  match (let? _ := ensure_explicit_filter f in matching_failed_rows cols f db) with
  | Err e => (db, Err e)
  | Ok rows =>
      let '(db', changed) := archive_loop completed_at rows 0 db in
      (db', Ok {| ao_filter := f; ao_matched := Z.of_nat (length rows); ao_changed := changed;
                  ao_buckets := buckets_from_rows rows |})
  end.

Definition archive_failed_messages io cols f completed_at db
    : qdb * result QueueFailureActionOutcome QueueError :=
  with_connection io (fun conn =>
    transaction_immediate conn (fun db =>
      commit_ok (archive_failed_messages_on_connection cols f completed_at db))) db.
End admin.

(** ** Status of one operation *)

Definition operation_status_from_pending (id : string) (db : qdb) : option PendingOperationRecord :=
  (fun row =>
     {| or_id := id; or_kind := m_kind row; or_created_at := m_created_at row;
        or_claimed_at := m_claimed_at row; or_completed_at := None; or_op_state := m_op_state row;
        or_result_drawer_id := m_result_drawer_id row; or_rejected_reason := m_rejected_reason row;
        or_failure_detail := m_failure_detail row; or_result_json := m_result_json row |})
  <$> q_pending db !! id.

Definition operation_status_from_completion (id : string) (db : qdb) : option PendingOperationRecord :=
  (fun c =>
     {| or_id := id; or_kind := k_kind c; or_created_at := k_created_at c;
        or_claimed_at := k_claimed_at c; or_completed_at := Some (k_completed_at c);
        or_op_state := k_op_state c; or_result_drawer_id := k_result_drawer_id c;
        or_rejected_reason := k_rejected_reason c; or_failure_detail := k_failure_detail c;
        or_result_json := k_result_json c |})
  <$> q_completions db !! id.

(** [operation_status]: two queries; [other] is what other connections commit
    between them. *)
Definition operation_status (reader : option QueueError) (other : qdb → qdb) (id : string) (db : qdb)
    : result (option PendingOperationRecord) QueueError :=
  match reader with
  | Some e => Err e
  | None =>
      match operation_status_from_pending id db with
      | Some record => Ok (Some record)
      | None => Ok (operation_status_from_completion id (other db))
      end
  end.
