(* ===== verification/QueueLifecycle.v ===== *)
(** * The message lifecycle

    The abstract state machine behind the queue operations: a message is
    inserted, claimed under a token, released, retried, failed, requeued, and
    finally moved to the completions. Every operation of [QueueStore] and
    [QueueAdmin] is shown to be a sequence of these steps, so what the steps
    preserve, the whole queue preserves. *)

From Stdlib Require Import ZArith Lia String Ascii.
From stdpp Require Import base tactics list gmap strings numbers relations sorting.
From S2P Require Import Prelude Text Rfc3339 Sqlite WriterLease QueueTypes.
From S2P Require Import QueueFailures QueueStore QueueAdmin.
Open Scope Z_scope.

Create HintDb queue.

(** ** Row invariant *)

Definition claim_columns_empty (row : msg_row) : Prop :=
  m_claim_token row = None ∧ m_claimed_at row = None ∧ m_heartbeat_at row = None.

(** The columns that depend on the status agree with it, the retry count is a
    [u32] and the recorded error is bounded. *)
Definition row_wf (row : msg_row) : Prop :=
  in_u32 (m_retry_count row) ∧
  match m_last_error row with
  | Some e => (String.length e <= LAST_ERROR_MAX_BYTES)%nat
  | None => True
  end ∧
  match m_status row with
  | StPending => claim_columns_empty row ∧ m_op_state row = "queued" ∧ m_failure_class row = None
  | StClaimed => is_Some (m_claim_token row) ∧ is_Some (m_claimed_at row) ∧
                 is_Some (m_heartbeat_at row) ∧ m_op_state row = "running" ∧
                 m_failure_class row = None
  | StFailed => claim_columns_empty row ∧ m_op_state row = "failed" ∧
                (m_failure_class row = Some "terminal" ∨ m_failure_class row = Some "retryable_model")
  | StDone => False
  end.

Definition queue_wf (db : qdb) : Prop :=
  ∀ id row, q_pending db !! id = Some row → row_wf row.

(** The columns no operation changes. *)
Definition same_message (r r' : msg_row) : Prop :=
  m_kind r' = m_kind r ∧ m_source_hash r' = m_source_hash r ∧
  m_payload r' = m_payload r ∧ m_created_at r' = m_created_at r.

(** ** Row transitions *)

Definition bounded_error (e : string) : Prop := (String.length e <= LAST_ERROR_MAX_BYTES)%nat.

Inductive row_step (toks : string → Prop) (r : msg_row) : msg_row → Prop :=
  | rs_claim token now :
      m_status r = StPending → toks token → row_step toks r (claimed_row token now r)
  | rs_release : m_status r = StClaimed → row_step toks r (released_row r)
  | rs_heartbeat now : m_status r = StClaimed → row_step toks r (heartbeat_row now r)
  | rs_fail next backoff at_ terminal error :
      m_status r = StClaimed → in_u32 next → bounded_error error →
      row_step toks r (failed_row next backoff at_ terminal error r)
  | rs_model_failed now error :
      bounded_error error → row_step toks r (model_failed_row now error r)
  | rs_requeue now : m_status r = StFailed → row_step toks r (requeued_row now r)
  | rs_rearm now : m_status r = StPending → row_step toks r (rearmed_row now r).

(** ** Table transitions

    [fresh] says which identifiers may be inserted without a look at the
    completions, [toks] which claim tokens may be handed out. *)
Inductive life_step (fresh toks : string → Prop) (db : qdb) : qdb → Prop :=
  | ls_insert id kind hash payload created_at :
      q_pending db !! id = None → (q_completions db !! id = None ∨ fresh id) →
      life_step fresh toks db
        (set_pending (<[id := new_row kind hash payload created_at]> (q_pending db)) db)
  | ls_row id r r' :
      q_pending db !! id = Some r → row_step toks r r' →
      life_step fresh toks db (set_pending (<[id := r']> (q_pending db)) db)
  | ls_finish id r c :
      q_pending db !! id = Some r → m_status r ≠ StPending → valid_op_state (k_op_state c) = true →
      k_kind c = m_kind r →
      life_step fresh toks db
        (Qdb (delete id (q_pending db)) (<[id := c]> (q_completions db)) (q_meta db) (q_leases db))
  | ls_side meta leases :
      life_step fresh toks db (Qdb (q_pending db) (q_completions db) meta leases).

Definition evolves (fresh toks : string → Prop) : relation qdb := rtc (life_step fresh toks).

(** ** What a row transition preserves *)

Ltac row_cases :=
  match goal with H : row_step _ _ _ |- _ => destruct H end.

Lemma row_step_wf toks r r' : row_wf r → row_step toks r r' → row_wf r'.
Proof.
  unfold row_wf, claim_columns_empty, bounded_error. intros (Hc & He & Hs) Hstep.
  destruct Hstep as [token now Hst _|Hst|now Hst|next b at_ terminal error Hst Hn Hb
    |now error Hb|now Hst|now Hst]; simpl; rewrite ?Hst in *; simpl; try destruct terminal; simpl;
    destruct_and?; split_and!; eauto; unfold_widths; lia.
Qed.

Lemma row_step_same toks r r' : row_step toks r r' → same_message r r'.
Proof. by intros []. Qed.

Lemma new_row_wf kind hash payload t : row_wf (new_row kind hash payload t).
Proof. repeat split; unfold_widths; simpl; lia. Qed.

Lemma life_step_wf fresh toks db db' : queue_wf db → life_step fresh toks db db' → queue_wf db'.
Proof.
  intros Hwf Hs id row. destruct Hs as [i k h p t Hn _|i r r' Hr Hstep|i r c Hr _ _ _|m l]; simpl.
  - rewrite lookup_insert_Some. intros [[<- <-]|[_ Hl]]; [apply new_row_wf|by eapply Hwf].
  - rewrite lookup_insert_Some. intros [[<- <-]|[_ Hl]]; [|by eapply Hwf].
    eapply row_step_wf; [by eapply Hwf|done].
  - rewrite lookup_delete_Some. intros [_ Hl]. by eapply Hwf.
  - apply Hwf.
Qed.

Lemma evolves_wf fresh toks db db' : queue_wf db → evolves fresh toks db db' → queue_wf db'.
Proof. intros Hwf. induction 1; [done|]. eauto using life_step_wf. Qed.

(** A message is in the queue or among the completions. *)
Definition known (db : qdb) (id : string) : Prop :=
  is_Some (q_pending db !! id) ∨ is_Some (q_completions db !! id).

Lemma life_step_known fresh toks db db' id : life_step fresh toks db db' → known db id → known db' id.
Proof.
  unfold known. intros Hs Hk. destruct Hs as [i k h p t Hn _|i r r' Hr _|i r c Hr _ _ _|m l]; simpl;
    try (destruct (decide (i = id)) as [->|Hne];
         rewrite ?lookup_insert_eq, ?lookup_insert_ne, ?lookup_delete_eq, ?lookup_delete_ne by done);
    naive_solver.
Qed.

Lemma life_step_completion fresh toks db db' id :
  life_step fresh toks db db' → is_Some (q_completions db !! id) → is_Some (q_completions db' !! id).
Proof.
  intros Hs Hk. destruct Hs as [i k h p t Hn _|i r r' Hr _|i r c Hr _ _ _|m l]; simpl; try done.
  destruct (decide (i = id)) as [->|Hne]; rewrite ?lookup_insert_eq, ?lookup_insert_ne by done;
    naive_solver.
Qed.

(** The message of a row that stays. *)
Lemma life_step_message fresh toks db db' id r :
  life_step fresh toks db db' → q_pending db !! id = Some r →
  (∃ r', q_pending db' !! id = Some r' ∧ same_message r r') ∨
  (q_pending db' !! id = None ∧ is_Some (q_completions db' !! id)).
Proof.
  intros Hs Hk. destruct Hs as [i k h p t Hn _|i r0 r' Hr Hstep|i r0 c Hr _ _ _|m l]; simpl.
  - rewrite lookup_insert_ne by congruence. left. by exists r.
  - left. destruct (decide (i = id)) as [->|Hne].
    + rewrite lookup_insert_eq. simplify_eq. eexists. split; [done|]. by eapply row_step_same.
    + rewrite lookup_insert_ne by done. by exists r.
  - destruct (decide (i = id)) as [->|Hne].
    + right. by rewrite lookup_delete_eq, lookup_insert_eq.
    + left. rewrite lookup_delete_ne by done. by exists r.
  - left. by exists r.
Qed.

(** ** Operations are sequences of lifecycle steps *)

Lemma boundary_le s n : (boundary_at_or_before s n <= n)%nat.
Proof. induction n as [|n IH]; cbn [boundary_at_or_before]; [lia|]. case_match; lia. Qed.

Lemma sanitize_bounded `{QueueEnv} e : bounded_error (sanitize_last_error e).
Proof.
  unfold bounded_error, sanitize_last_error, truncate_to_byte_limit.
  destruct (Nat.leb_spec (String.length (scrub_sensitive_text e)) LAST_ERROR_MAX_BYTES); [done|].
  etrans; [apply substring_length|apply boundary_le].
Qed.

Section evolves.
Context (fresh toks : string → Prop).
Local Abbreviation evolves := (evolves fresh toks).
Implicit Types (db : qdb) (conn : conn_io QueueError) (io : queue_io).

Lemma evolves_refl db : evolves db db.
Proof. apply rtc_refl. Qed.

Lemma evolves_trans db1 db2 db3 : evolves db1 db2 → evolves db2 db3 → evolves db1 db3.
Proof. intros H1 H2. by etrans. Qed.

Lemma tx_evolves {A} conn (body : qdb → qdb * tx_end A QueueError) db :
  (∀ db' v, body db = (db', Commit v) → evolves db db') →
  evolves db (transaction_immediate conn body db).1.
Proof.
  intros H. destruct (transaction_immediate conn body db) as [db' r] eqn:E. simpl.
  apply transaction_cases in E as [[-> _]|E]; [apply evolves_refl|by eapply H].
Qed.

Lemma fenced_tx_evolves {A} conn fence (body : qdb → qdb * tx_end A QueueError) db :
  (∀ db' v, body db = (db', Commit v) → evolves db db') →
  evolves db (fenced_tx conn fence body db).1.
Proof. intros H. apply tx_evolves. intros db' v. destruct (fence db); [apply H|done]. Qed.

Lemma conn_evolves {A} io t (op : conn_io QueueError → qdb → qdb * result A QueueError) db :
  evolves db (op (io t) db).1 → evolves db (with_connection_with_busy_timeout io t op db).1.
Proof.
  intros H. unfold with_connection_with_busy_timeout.
  destruct (c_open (io t)); [apply evolves_refl|done].
Qed.

Lemma autocommit_evolves {A} conn (stmt : qdb → qdb * result A QueueError) db :
  (∀ db' v, stmt db = (db', Ok v) → evolves db db') → evolves db (autocommit conn stmt db).1.
Proof.
  intros H. destruct (autocommit conn stmt db) as [db' r] eqn:E. simpl.
  apply autocommit_cases in E as [[-> _]|[E Hok]]; [apply evolves_refl|].
  destruct r as [v|e]; [by eapply H|done].
Qed.

Lemma commit_ok_Commit {A} (r : qdb * result A QueueError) db' v :
  commit_ok r = (db', Commit v) → ∃ a, v = Ok a ∧ r = (db', Ok a).
Proof. unfold commit_ok. destruct r as [d [a|e]]; naive_solver. Qed.

Lemma row_evolves db id r r' :
  q_pending db !! id = Some r → row_step toks r r' →
  evolves db (set_pending (<[id := r']> (q_pending db)) db).
Proof. intros. apply rtc_once. by eapply ls_row. Qed.

Lemma update_row_evolves db id cond f :
  (∀ r, cond r = true → row_step toks r (f r)) → evolves db (update_row id cond f db).1.
Proof.
  intros Hf. unfold update_row. destruct (q_pending db !! id) as [r|] eqn:Hr; [|apply evolves_refl].
  destruct (cond r) eqn:Hc; [|apply evolves_refl]. simpl. eapply row_evolves; eauto.
Qed.

(** The table with [f] applied to the rows of [l] that satisfy [cond]. *)
Definition apply_on (cond : msg_row → bool) (f : msg_row → msg_row) (l : list string)
    (m : gmap string msg_row) : gmap string msg_row :=
  map_imap (fun id r => Some (if bool_decide (id ∈ l) && cond r then f r else r)) m.

Lemma apply_on_evolves cond f l db :
  (∀ r, cond r = true → row_step toks r (f r)) → NoDup l →
  evolves db (set_pending (apply_on cond f l (q_pending db)) db).
Proof.
  intros Hf. induction l as [|id l IH]; intros Hnd.
  - assert (apply_on cond f [] (q_pending db) = q_pending db) as ->.
    { apply map_eq. intros i. unfold apply_on. rewrite map_lookup_imap.
      by destruct (q_pending db !! i). }
    destruct db. apply evolves_refl.
  - apply list.NoDup_cons in Hnd as [Hni Hnd]. eapply evolves_trans; [by apply IH|].
    set (m1 := apply_on cond f l (q_pending db)).
    assert (Hm : apply_on cond f (id :: l) (q_pending db) =
      match q_pending db !! id with
      | Some r => if cond r then <[id := f r]> m1 else m1
      | None => m1
      end).
    { apply map_eq. intros i. unfold apply_on, m1, apply_on.
      destruct (q_pending db !! id) as [r|] eqn:Hr; [destruct (cond r) eqn:Hc|];
        (destruct (decide (i = id)) as [->|Hne];
         rewrite ?lookup_insert_eq, ?lookup_insert_ne, ?map_lookup_imap, ?Hr by done; simpl;
         [|destruct (q_pending db !! i); simpl]; rewrite ?Hc, ?andb_true_r, ?andb_false_r;
         repeat case_bool_decide; done || set_solver). }
    rewrite Hm. destruct (q_pending db !! id) as [r|] eqn:Hr; [|apply evolves_refl].
    destruct (cond r) eqn:Hc; [|apply evolves_refl].
    change (set_pending (<[id := f r]> m1) db) with
      (set_pending (<[id := f r]> (q_pending (set_pending m1 db))) (set_pending m1 db)).
    apply row_evolves with (r := r); [|by apply Hf]. simpl. unfold m1, apply_on.
    rewrite map_lookup_imap, Hr. simpl. by rewrite bool_decide_eq_false_2.
Qed.

Lemma update_rows_evolves db cond f :
  (∀ r, cond r = true → row_step toks r (f r)) → evolves db (update_rows cond f db).1.
Proof.
  intros Hf. unfold update_rows. simpl.
  assert ((λ row, if cond row then f row else row) <$> q_pending db =
          apply_on cond f (map_to_list (q_pending db)).*1 (q_pending db)) as ->.
  { apply map_eq. intros i. unfold apply_on. rewrite lookup_fmap, map_lookup_imap.
    destruct (q_pending db !! i) as [r|] eqn:Hr; simpl; [|done].
    rewrite bool_decide_eq_true_2; [done|].
    apply (list_elem_of_fmap_2' fst _ (i, r)); [by apply elem_of_map_to_list|done]. }
  apply apply_on_evolves; [done|]. apply NoDup_fst_map_to_list.
Qed.

Lemma insert_message_evolves id kind hash payload t db db' :
  fresh id ∨ q_completions db !! id = None →
  insert_message id (new_row kind hash payload t) db = Ok db' → evolves db db'.
Proof.
  unfold insert_message. intros Hid. destruct (q_pending db !! id) eqn:Hp; intros [= <-].
  apply rtc_once, ls_insert; tauto.
Qed.

Lemma insert_message_once_evolves id kind hash payload t db :
  evolves db (insert_message_once id (new_row kind hash payload t) db).
Proof.
  unfold insert_message_once. destruct (q_completions db !! id) eqn:Hc; [apply evolves_refl|].
  destruct (q_pending db !! id) eqn:Hp; [apply evolves_refl|]. apply rtc_once, ls_insert; tauto.
Qed.

Lemma meta_evolves m db : evolves db (set_meta m db).
Proof. apply rtc_once, ls_side. Qed.

Lemma counter_evolves key db : evolves db (increment_meta_counter key db).
Proof. apply meta_evolves. Qed.

Lemma reclaim_evolves cutoff db : evolves db (reclaim_stale_tx cutoff db).1.
Proof.
  apply update_rows_evolves. intros r Hr. apply andb_true_iff in Hr as [Hr _].
  apply bool_decide_eq_true in Hr. by constructor.
Qed.

Lemma claim_selected_evolves worker now ide row cond db db' v :
  toks (claim_token_of worker ide) →
  (∀ r, cond r = true → m_status r = StPending) →
  claim_selected worker now ide row cond db = (db', Commit v) → evolves db db'.
Proof.
  intros Ht Hc. unfold claim_selected. destruct row as [[id row]|]; [|intros [= <- _]; apply evolves_refl].
  destruct (try_u32 _); [|done].
  pose proof (update_row_evolves db id cond (claimed_row (claim_token_of worker ide) now)) as Hu.
  destruct (update_row _ _ _ _) as [db1 n]. simpl in Hu.
  destruct (n =? 0); intros [= <- _]; apply Hu; intros r Hr; by constructor; [apply Hc|].
Qed.

(** Confirming a claim moves its row to the completions. *)
Lemma confirm_evolves claim op_state t db db' a :
  confirm_in_tx claim op_state t db = (db', Ok a) → evolves db db'.
Proof.
  unfold confirm_in_tx. destruct (q_pending db !! cm_id claim) as [r|] eqn:Hr; [|done].
  destruct (holds_claim _ r) eqn:Hh; [|done].
  destruct (valid_op_state op_state) eqn:Hv; simpl; [|done]. intros [= <- _].
  apply andb_true_iff in Hh as [Hh _]. apply bool_decide_eq_true in Hh.
  unfold upsert_completion, set_completions, set_pending. simpl.
  destruct (q_completions db !! cm_id claim); apply rtc_once; eapply ls_finish; simpl; eauto; congruence.
Qed.

Lemma complete_evolves claim completion t db db1 n db' a :
  update_row (cm_id claim) (holds_claim (cm_claim_token claim)) (with_result completion) db = (db1, n) →
  n ≠ 0 → confirm_in_tx claim (pc_op_state completion) t db1 = (db', Ok a) → evolves db db'.
Proof.
  unfold update_row, confirm_in_tx. destruct (q_pending db !! cm_id claim) as [r|] eqn:Hr; [|naive_solver].
  destruct (holds_claim _ r) eqn:Hh; [|naive_solver]. intros [= <- <-] _. simpl.
  rewrite lookup_insert_eq. unfold holds_claim in Hh |- *. simpl. rewrite Hh.
  destruct (valid_op_state _) eqn:Hv; simpl; [|done]. intros [= <- _].
  apply andb_true_iff in Hh as [Hh _]. apply bool_decide_eq_true in Hh.
  unfold upsert_completion, set_completions, set_pending. simpl.
  rewrite delete_insert_eq.
  destruct (q_completions db !! cm_id claim); apply rtc_once; eapply ls_finish; simpl; eauto; congruence.
Qed.
End evolves.

#[export] Hint Resolve evolves_refl insert_message_once_evolves counter_evolves meta_evolves : queue.
