(* ===== verification/QueueSystem.v ===== *)
(** * The queue as a transition system

    One constructor per operation of the queue, the commits of other connections
    between the statements of an operation included as a rely condition; the
    refinement of the message lifecycle; and what follows for every run:
    the row invariant, durability, completion at most once and the fencing of
    stale claims. *)

From Stdlib Require Import ZArith Lia String Ascii.
From stdpp Require Import base tactics list gmap strings numbers relations sorting.
From S2P Require Import Prelude Text Rfc3339 ProcessIdentity Sqlite WriterLease.
From S2P Require Import QueueTypes QueueFailures QueueStore QueueAdmin.
From S2P Require Import QueueLifecycle.
Open Scope Z_scope.

(** The identifiers and claim tokens made from the readings [uses] allows. *)
Definition msg_ids (uses : id_env → Prop) (id : string) : Prop :=
  ∃ e, uses e ∧ id = next_id "msg" e.
Definition claim_tokens (uses : id_env → Prop) (token : string) : Prop :=
  ∃ worker e, uses e ∧ token = claim_token_of worker e.

Definition run (uses : id_env → Prop) : relation qdb := evolves (msg_ids uses) (claim_tokens uses).

(** What a run draws on: the readings of [next_id], the stores (a configuration
    and a lifecycle lease) that take part, which fenced enqueues by key, and
    what is known, beyond the lifecycle, of the commits of other connections. *)
Record run_params := Params {
  uses : id_env → Prop;
  store_ok : store → Prop;
  key_fence_ok : option RuntimeWriterLease → string → Prop;
  rely : relation qdb;
}.

Definition others (p : run_params) (db db' : qdb) : Prop := run (uses p) db db' ∧ rely p db db'.

(** All stores and all calls, with the given readings. *)
Definition any_store (u : id_env → Prop) : run_params := 
  Params u (fun _ => True) (fun _ _ => True) (fun _ _ => True).

Section system.
Context `{QueueEnv, TableScan} (p : run_params).

(** [ide] is what the operation's call of [next_id] reads; [other] and the
    fields of a [claim_env] that stand for other connections are runs. *)
Inductive queue_step (db : qdb) : qdb → Prop :=
  | q_enqueue s io kind payload timeout identity t ide other :
      store_ok p s → uses p ide → others p db (other db) →
      queue_step db (enqueue_with_busy_timeout s io kind payload timeout identity t ide other db).1
  | q_enqueue_fenced s io lease kind payload operation t ide ms other :
      store_ok p s → uses p ide → others p db (other db) →
      queue_step db (enqueue_fenced s io lease kind payload operation t ide ms other db).1
  | q_enqueue_key_fenced s io lease kind payload key operation t ide ms other :
      store_ok p s → key_fence_ok p lease kind → uses p ide → others p db (other db) →
      queue_step db (enqueue_idempotent_with_key_fail_fast_fenced s io lease kind payload key
                       operation t ide ms other db).1
  | q_oversize io : queue_step db (record_oversize_rejection_fail_fast io db).1
  | q_claim e worker ttl :
      uses p (ce_id e) → others p db (ce_other e db) →
      queue_step db (claim_next_once e worker ttl db).1
  | q_claim_kind s e worker ttl kind approved :
      store_ok p s → uses p (ce_id e) → others p db (ce_other_probe e db) →
      others p (ce_other_probe e db) (ce_other e (ce_other_probe e db)) →
      queue_step db (claim_next_by_kind_once s e worker ttl kind approved db).1
  | q_claim_id s e worker ttl id kind :
      store_ok p s → uses p (ce_id e) → others p db (ce_other e db) →
      queue_step db (claim_by_id_and_kind_once s e worker ttl id kind db).1
  | q_confirm s io claim ms t :
      store_ok p s → queue_step db (confirm s io claim ms t db).1
  | q_complete s io claim completion timeout ms t :
      store_ok p s →
      queue_step db (complete_operation_with_busy_timeout s io claim completion timeout ms t db).1
  | q_mark_failed s io claim error disposition ms t :
      store_ok p s →
      queue_step db (mark_failed_with_disposition s io claim error disposition ms t db).1
  | q_release s io claim ms :
      store_ok p s → queue_step db (release_claim_with_busy_timeout s io claim ms db).1
  | q_heartbeat s io id worker t ms :
      store_ok p s → queue_step db (refresh_heartbeat s io id worker t ms db).1
  | q_reclaim io secs t : queue_step db (reclaim_stale io secs t db).1
  | q_model_failed io id error t : queue_step db (mark_model_task_failed_retryable io id error t db).1
  | q_auto_requeue s io kind t ms :
      store_ok p s → queue_step db (auto_requeue_failed_model_tasks s io kind t ms db).1
  | q_daemon_start io owner t :
      queue_step db (requeue_writer_lease_failures_for_daemon_start io owner t db).1
  | q_retry_embed s io t :
      store_ok p s → queue_step db (retry_failed_embed_messages s io t db).1
  | q_retry s io cols f t :
      store_ok p s → queue_step db (retry_failed_messages s io cols f t db).1
  | q_archive io cols f t : queue_step db (archive_failed_messages io cols f t db).1
  | q_lease_tables leases : queue_step db (Qdb (q_pending db) (q_completions db) (q_meta db) leases).

Local Abbreviation evolves := (evolves (msg_ids (uses p)) (claim_tokens (uses p))).

(** ** Each operation refines the lifecycle *)

Lemma enqueue_ingest_evolves s io payload timeout identity t hash id db :
  (is_fresh identity = true → msg_ids (uses p) id) →
  evolves db (enqueue_ingest_with_byte_budget s io payload timeout identity t hash id db).1.
Proof.
  intros Hid. apply conn_evolves, tx_evolves. intros db' v. cbv beta zeta.
  destruct (_ && explicit_key_conflicts _ _ _ _); [done|].
  destruct (negb (is_fresh identity) && queue_message_identity_exists id db) eqn:He;
    [intros [= <- _]; apply evolves_refl|].
  destruct (over_budget _ _ _); [intros [= <- _]; apply counter_evolves|].
  destruct (insert_message _ _ _) as [db1|] eqn:Hi; [|done]. intros [= <- _].
  eapply insert_message_evolves; [|exact Hi].
  destruct (is_fresh identity); [left; by apply Hid|right]. simpl in He.
  unfold queue_message_identity_exists in He. apply orb_false_iff in He as [_ He].
  apply bool_decide_eq_false in He. by apply eq_None_not_Some.
Qed.

Lemma enqueue_evolves s io kind payload timeout identity t ide other db :
  uses p ide → others p db (other db) →
  evolves db (enqueue_with_busy_timeout s io kind payload timeout identity t ide other db).1.
Proof.
  intros Hu Ho. unfold enqueue_with_busy_timeout. case_bool_decide.
  - apply enqueue_ingest_evolves. destruct identity; [|done..]. intros _. by exists ide.
  - apply conn_evolves. destruct (_ && explicit_key_conflicts _ _ _ _); [apply evolves_refl|].
    eapply evolves_trans; [exact (proj1 Ho)|]. apply autocommit_evolves. intros db' v. cbv beta zeta.
    destruct identity; [|intros [= <- _]; apply insert_message_once_evolves..].
    destruct (insert_message _ _ _) as [db1|] eqn:Hi; [|done]. intros [= <- _].
    eapply insert_message_evolves; [left; by exists ide|exact Hi].
Qed.

Lemma enqueue_fenced_evolves s io lease kind payload operation t ide ms other db :
  uses p ide → others p db (other db) →
  evolves db (enqueue_fenced s io lease kind payload operation t ide ms other db).1.
Proof.
  intros Hu Ho. destruct lease as [lease|]; [|by apply enqueue_evolves]. simpl.
  apply conn_evolves, fenced_tx_evolves. intros db' v. cbv beta zeta.
  destruct (_ && over_budget _ _ _); [intros [= <- _]; apply counter_evolves|].
  destruct (insert_message _ _ _) as [db1|] eqn:Hi; [|done]. intros [= <- _].
  eapply insert_message_evolves; [left; by exists ide|exact Hi].
Qed.

Lemma enqueue_key_fenced_evolves s io lease kind payload key operation t ide ms other db :
  uses p ide → others p db (other db) →
  evolves db (enqueue_idempotent_with_key_fail_fast_fenced s io lease kind payload key operation
                t ide ms other db).1.
Proof.
  intros Hu Ho. destruct lease as [lease|]; [|by apply enqueue_evolves]. simpl.
  apply conn_evolves, fenced_tx_evolves. intros db' v. cbv beta zeta.
  destruct (explicit_key_conflicts _ _ _ _); [done|]. intros [= <- _].
  apply insert_message_once_evolves.
Qed.

(** The body of the claim transactions: reclaim, then claim the selected row. *)
Lemma claim_body_evolves worker now ide cutoff (sel : qdb → option (string * msg_row)) cond db db' v :
  uses p ide → (∀ r, cond r = true → m_status r = StPending) →
  (let '(db1, _) := reclaim_stale_tx cutoff db in
   claim_selected worker now ide (sel db1) cond db1) = (db', Commit v) →
  evolves db db'.
Proof.
  intros Hu Hc. pose proof (reclaim_evolves (msg_ids (uses p)) (claim_tokens (uses p)) cutoff db) as Hr.
  destruct (reclaim_stale_tx cutoff db) as [db1 n]. intros Hcl.
  eapply evolves_trans; [exact Hr|]. eapply claim_selected_evolves; [|exact Hc|exact Hcl].
  by exists worker, ide.
Qed.

Lemma pending_cond r : is_status StPending r = true → m_status r = StPending.
Proof. by intros ?%bool_decide_eq_true. Qed.

Lemma with_claim_connection_evolves {A} e (op : conn_io QueueError → qdb → qdb * result A QueueError) db :
  evolves db (op (ce_conn e) db).1 → evolves db (with_claim_connection e op db).1.
Proof. intros Hop. unfold with_claim_connection. destruct (c_open (ce_conn e)); [apply evolves_refl|done]. Qed.

Lemma claim_next_evolves e worker ttl db :
  uses p (ce_id e) → others p db (ce_other e db) → evolves db (claim_next_once e worker ttl db).1.
Proof.
  intros Hu Ho. apply with_claim_connection_evolves. cbv beta zeta.
  destruct (negb _); [apply evolves_refl|]. eapply evolves_trans; [exact (proj1 Ho)|].
  apply tx_evolves. intros db' v Hb. eapply claim_body_evolves in Hb; eauto using pending_cond.
Qed.

Lemma claim_kind_evolves s e worker ttl kind approved db :
  uses p (ce_id e) → others p db (ce_other_probe e db) →
  others p (ce_other_probe e db) (ce_other e (ce_other_probe e db)) →
  evolves db (claim_next_by_kind_once s e worker ttl kind approved db).1.
Proof.
  intros Hu Ho1 Ho2. unfold claim_next_by_kind_once.
  destruct (ce_reader e); [apply evolves_refl|].
  destruct (require_lifecycle_writer_lease _ _ _ _); [|apply evolves_refl].
  destruct (negb _); [apply evolves_refl|]. eapply evolves_trans; [exact (proj1 Ho1)|].
  destruct (negb approved); [apply evolves_refl|]. apply with_claim_connection_evolves. cbv beta zeta.
  destruct (require_lifecycle_writer_lease _ _ _ _); [|apply evolves_refl].
  destruct (negb _); [apply evolves_refl|]. eapply evolves_trans; [exact (proj1 Ho2)|].
  apply fenced_tx_evolves. intros db' v Hb. eapply claim_body_evolves in Hb; eauto using pending_cond.
Qed.

Lemma claim_id_evolves s e worker ttl id kind db :
  uses p (ce_id e) → others p db (ce_other e db) →
  evolves db (claim_by_id_and_kind_once s e worker ttl id kind db).1.
Proof.
  intros Hu Ho. apply with_claim_connection_evolves. cbv beta zeta.
  destruct (require_lifecycle_writer_lease _ _ _ _); [|apply evolves_refl].
  destruct (negb _); [apply evolves_refl|]. eapply evolves_trans; [exact (proj1 Ho)|].
  apply fenced_tx_evolves. intros db' v Hb.
  eapply (claim_body_evolves _ _ _ _ (fun db1 => match q_pending db1 !! id with
    | Some row => if is_due (ce_tx_now e) row && kind_is kind row then Some (id, row) else None
    | None => None end)) in Hb; [done|done|].
  intros r Hr. apply andb_true_iff in Hr as [Hr _]. by apply pending_cond.
Qed.

Lemma holds_claim_status token r : holds_claim token r = true → m_status r = StClaimed.
Proof. unfold holds_claim. intros [?%bool_decide_eq_true _]%andb_true_iff. done. Qed.

Lemma confirm_op_evolves s io claim ms t db : evolves db (confirm s io claim ms t db).1.
Proof.
  apply conn_evolves, fenced_tx_evolves. intros db' v (a & _ & Hc)%commit_ok_Commit.
  by eapply confirm_evolves.
Qed.

Lemma complete_op_evolves s io claim completion timeout ms t db :
  evolves db (complete_operation_with_busy_timeout s io claim completion timeout ms t db).1.
Proof.
  apply conn_evolves, fenced_tx_evolves. intros db' v.
  destruct (update_row _ _ _ _) as [db1 n] eqn:Hu. destruct (Z.eqb_spec n 0); [done|].
  destruct (negb _); [done|]. intros (a & _ & Hc)%commit_ok_Commit. by eapply complete_evolves.
Qed.

Lemma mark_failed_evolves s io claim error disposition ms t db :
  evolves db (mark_failed_with_disposition s io claim error disposition ms t db).1.
Proof.
  apply conn_evolves, fenced_tx_evolves. intros db' v. cbv beta zeta.
  destruct (q_pending db !! cm_id claim) as [row|]; [|done].
  destruct (holds_claim _ row); [|done].
  destruct (try_u32 (sat_i64 (m_retry_count row + 1))) as [n|] eqn:Hn; [|done].
  apply try_u32_Some in Hn as [_ Hn].
  match goal with |- context [update_row ?i ?c ?f db] =>
    pose proof (update_row_evolves (msg_ids (uses p)) (claim_tokens (uses p)) db i c f) as Hu;
    destruct (update_row i c f db) as [db1 k] end.
  destruct (k =? 0); [done|]. intros [= <- _]. apply Hu. intros r Hr.
  constructor; [by eapply holds_claim_status|done|apply sanitize_bounded].
Qed.

(** An update of one row inside a transaction that rolls back when it finds
    none. *)
Lemma update_tx_evolves id cond f err db db' v :
  (∀ r, cond r = true → row_step (claim_tokens (uses p)) r (f r)) →
  (let '(db1, updated) := update_row id cond f db in
   if updated =? 0 then (db, Rollback err) else (db1, Commit (@Ok unit QueueError tt)))
  = (db', Commit v) → evolves db db'.
Proof.
  intros Hf. pose proof (update_row_evolves (msg_ids (uses p)) _ db id cond f Hf) as Hu.
  destruct (update_row id cond f db) as [db1 k]. destruct (k =? 0); [done|]. by intros [= <- _].
Qed.

Lemma release_evolves s io claim ms db :
  evolves db (release_claim_with_busy_timeout s io claim ms db).1.
Proof.
  apply conn_evolves, fenced_tx_evolves. intros db' v. apply update_tx_evolves.
  intros r Hr. constructor. by eapply holds_claim_status.
Qed.

Lemma heartbeat_evolves s io id worker t ms db :
  evolves db (refresh_heartbeat s io id worker t ms db).1.
Proof.
  apply conn_evolves, fenced_tx_evolves. intros db' v. apply update_tx_evolves.
  intros r [Hr _]%andb_true_iff. constructor. by apply bool_decide_eq_true in Hr.
Qed.

Lemma reclaim_op_evolves io secs t db : evolves db (reclaim_stale io secs t db).1.
Proof.
  apply conn_evolves, autocommit_evolves. intros db' v.
  pose proof (reclaim_evolves (msg_ids (uses p)) (claim_tokens (uses p)) (saturating_cutoff t secs) db) as Hr.
  unfold reclaim_stale_conn. unfold reclaim_stale_tx in Hr.
  destruct (update_rows _ _ _) as [db1 n]. by intros [= <- _].
Qed.

Lemma model_failed_evolves io id error t db :
  evolves db (mark_model_task_failed_retryable io id error t db).1.
Proof.
  apply conn_evolves, autocommit_evolves. intros db' v.
  match goal with |- context [update_row ?i ?c ?f db] =>
    pose proof (update_row_evolves (msg_ids (uses p)) (claim_tokens (uses p)) db i c f) as Hu;
    destruct (update_row i c f db) as [db1 k] end.
  destruct (k =? 0); [done|]. intros [= <- _]. apply Hu. intros r _. constructor.
  apply sanitize_bounded.
Qed.

Lemma requeue_message_evolves id t db : evolves db (requeue_failed_message id t db).1.
Proof. apply update_row_evolves. intros r Hr%bool_decide_eq_true. by constructor. Qed.

Lemma requeue_loop_evolves t limit rows active changed skipped db :
  evolves db (requeue_loop t limit rows active changed skipped db).1.
Proof.
  revert active changed skipped db. induction rows as [|[id kind] rows IH];
    intros active changed skipped db; cbn [requeue_loop]; [apply evolves_refl|].
  destruct (admitted_requeue_payload_bytes id kind active limit db) as [[n|]|]; [|apply IH|apply evolves_refl].
  pose proof (requeue_message_evolves id t db) as Hr.
  destruct (requeue_failed_message id t db) as [db1 k].
  eapply evolves_trans; [exact Hr|]. destruct (0 <? k); apply IH.
Qed.

Lemma requeue_tasks_evolves t kind limit db :
  evolves db (requeue_failed_model_tasks t kind limit db).1.
Proof.
  unfold requeue_failed_model_tasks.
  repeat case_bool_decide; [..|apply evolves_refl];
    match goal with |- context [requeue_loop ?t ?l ?r ?a ?c ?k db] =>
      pose proof (requeue_loop_evolves t l r a c k db) as Hl;
      destruct (requeue_loop t l r a c k db) as [db1 [[x y]|e]] end; done.
Qed.

Lemma auto_requeue_evolves s io kind t ms db :
  evolves db (auto_requeue_failed_model_tasks s io kind t ms db).1.
Proof.
  apply conn_evolves, tx_evolves. intros db' v.
  pose proof (requeue_tasks_evolves t kind (max_ingest_active_bytes (st_config s)) db) as Hr.
  destruct (requeue_failed_model_tasks _ _ _ _) as [db1 [o|e]]; [|done].
  intros [= <- _]. destruct (0 <? ro_requeued o); [|done].
  eapply evolves_trans; [exact Hr|apply meta_evolves].
Qed.

Lemma retry_embed_evolves s io t db : evolves db (retry_failed_embed_messages s io t db).1.
Proof.
  apply conn_evolves, tx_evolves. intros db' v (a & _ & Hc)%commit_ok_Commit.
  unfold retry_failed_embed_messages_on_connection in Hc.
  pose proof (requeue_tasks_evolves t "embedding" (max_ingest_active_bytes (st_config s)) db) as Hr.
  destruct (requeue_failed_model_tasks _ _ _ _) as [db1 [o|e]]; [|done]. by injection Hc as <- _.
Qed.

Lemma daemon_start_evolves io owner t db :
  evolves db (requeue_writer_lease_failures_for_daemon_start io owner t db).1.
Proof.
  apply conn_evolves, autocommit_evolves. intros db' v.
  match goal with |- context [update_rows ?c ?f db] =>
    pose proof (update_rows_evolves (msg_ids (uses p)) (claim_tokens (uses p)) db c f) as Hu;
    destruct (update_rows c f db) as [db1 k] end.
  intros [= <- _]. apply Hu. intros r Hr. unfold lease_failure_row in Hr.
  rewrite !andb_true_iff in Hr. destruct Hr as [[Hr%bool_decide_eq_true _] _]. by constructor.
Qed.

Lemma retry_evolves s io cols f t db : evolves db (retry_failed_messages s io cols f t db).1.
Proof.
  apply conn_evolves, tx_evolves. intros db' v (a & _ & Hc)%commit_ok_Commit.
  unfold retry_failed_messages_on_connection in Hc.
  destruct (match ensure_explicit_filter f with Ok _ => _ | Err _ => _ end) as [rows|]; [|done].
  match type of Hc with context [requeue_loop ?t ?l ?r ?a ?c ?k db] =>
    pose proof (requeue_loop_evolves t l r a c k db) as Hl;
    destruct (requeue_loop t l r a c k db) as [db1 [[x y]|e]] end; [|done].
  by injection Hc as <- _.
Qed.

Lemma archive_row_evolves t id reason db : evolves db (archive_row t id reason db).1.
Proof.
  unfold archive_row. destruct (q_pending db !! id) as [r|] eqn:Hr; [|apply evolves_refl].
  destruct (is_status StFailed r) eqn:Hs; [|apply evolves_refl]. apply bool_decide_eq_true in Hs.
  unfold set_pending, set_completions. simpl.
  apply rtc_once. eapply ls_finish; simpl; eauto; congruence.
Qed.

Lemma archive_loop_evolves t rows n db : evolves db (archive_loop t rows n db).1.
Proof.
  revert n db. induction rows as [|r rows IH]; intros n db; cbn [archive_loop]; [apply evolves_refl|].
  pose proof (archive_row_evolves t (fr_id r) (fr_reason_code r) db) as Hr.
  destruct (archive_row _ _ _ _) as [db1 k]. eapply evolves_trans; [exact Hr|apply IH].
Qed.

Lemma archive_evolves io cols f t db : evolves db (archive_failed_messages io cols f t db).1.
Proof.
  apply conn_evolves, tx_evolves. intros db' v (a & _ & Hc)%commit_ok_Commit.
  unfold archive_failed_messages_on_connection in Hc.
  destruct (match ensure_explicit_filter f with Ok _ => _ | Err _ => _ end) as [rows|]; [|done].
  pose proof (archive_loop_evolves t rows 0 db) as Hl.
  destruct (archive_loop t rows 0 db) as [db1 n]. by injection Hc as <- _.
Qed.

Lemma oversize_evolves io db : evolves db (record_oversize_rejection_fail_fast io db).1.
Proof.
  apply conn_evolves, autocommit_evolves. intros db' v [= <- _]. apply counter_evolves.
Qed.

(** Every operation is a sequence of lifecycle steps. *)
Lemma queue_step_run db db' : queue_step db db' → run (uses p) db db'.
Proof.
  intros []; unfold run; eauto using enqueue_evolves, enqueue_fenced_evolves,
    enqueue_key_fenced_evolves, oversize_evolves, claim_next_evolves, claim_kind_evolves,
    claim_id_evolves, confirm_op_evolves, complete_op_evolves, mark_failed_evolves,
    release_evolves, heartbeat_evolves, reclaim_op_evolves, model_failed_evolves,
    auto_requeue_evolves, daemon_start_evolves, retry_embed_evolves, retry_evolves,
    archive_evolves.
  apply rtc_once, ls_side.
Qed.

Lemma queue_steps_run db db' : rtc queue_step db db' → run (uses p) db db'.
Proof.
  induction 1 as [|db1 db2 db3 Hs _ IH]; [apply evolves_refl|].
  eapply evolves_trans; [by apply queue_step_run|done].
Qed.
End system.
