(* ===== verification/QueueSafety.v ===== *)
(** * What every run of the queue guarantees

    Identifiers never collide, no message is lost, a finished message does not
    come back, and a claim that was lost stays lost. *)

From Stdlib Require Import ZArith Lia String Ascii.
From stdpp Require Import base tactics list gmap strings numbers relations sorting.
From S2P Require Import Prelude Text Rfc3339 ProcessIdentity Sqlite WriterLease.
From S2P Require Import QueueTypes QueueFailures QueueStore QueueAdmin.
From S2P Require Import QueueLifecycle QueueSystem.
Open Scope Z_scope.

(** ** Identifiers *)

(** Readings in the ranges of their types: milliseconds and the counter below
    [2^64], a 32-bit process id. *)
Definition id_env_ok (e : id_env) : Prop :=
  0 <= id_now_ms e < 2 ^ 64 ∧ 0 <= id_pid e < 2 ^ 32 ∧ 0 <= id_counter e < 2 ^ 64.

Lemma fmt_length base w n :
  2 <= base → 0 <= n < base ^ Z.of_nat w → (1 <= w)%nat → String.length (fmt base w n) = w.
Proof. intros. by rewrite fmt_fixed, digits_length. Qed.

Lemma id_fields_length e :
  id_env_ok e →
  String.length (fmt 16 16 (id_now_ms e)) = 16%nat ∧ String.length (fmt 16 8 (id_pid e)) = 8%nat ∧
  String.length (fmt 16 16 (id_counter e)) = 16%nat.
Proof.
  intros (H1 & H2 & H3). split_and!; apply fmt_length; try lia;
    (change (16 ^ Z.of_nat 16) with (2 ^ 64) || change (16 ^ Z.of_nat 8) with (2 ^ 32)); lia.
Qed.

Lemma next_id_inj prefix e e' :
  id_env_ok e → id_env_ok e' → next_id prefix e = next_id prefix e' → e = e'.
Proof.
  intros He He'. destruct (id_fields_length e He) as (L1 & L2 & L3).
  destruct (id_fields_length e' He') as (M1 & M2 & M3).
  unfold next_id. intros Heq.
  apply str_app_inj in Heq as [_ Heq]; [|done]. apply str_app_inj in Heq as [_ Heq]; [|done].
  apply str_app_inj in Heq as [H1 Heq]; [|congruence].
  apply str_app_inj in Heq as [_ Heq]; [|done].
  apply str_app_inj in Heq as [H2 Heq]; [|congruence].
  apply str_app_inj in Heq as [_ H3]; [|done].
  destruct He as (? & ? & ?), He' as (? & ? & ?).
  apply fmt_inj in H1; [|lia..]. apply fmt_inj in H2; [|lia..]. apply fmt_inj in H3; [|lia..].
  destruct e, e'; simpl in *; congruence.
Qed.

Lemma next_id_length prefix e :
  id_env_ok e → String.length (next_id prefix e) = (String.length prefix + 43)%nat.
Proof.
  intros He. destruct (id_fields_length e He) as (L1 & L2 & L3). unfold next_id.
  rewrite !str_length_app, L1, L2, L3. reflexivity.
Qed.

(** The worker names may differ: the last 49 bytes of a token are its identifier. *)
Lemma claim_token_inj w w' e e' :
  id_env_ok e → id_env_ok e' → claim_token_of w e = claim_token_of w' e' → w = w' ∧ e = e'.
Proof.
  intros He He' Heq. unfold claim_token_of in Heq.
  pose proof (next_id_length "claim" e He) as L. pose proof (next_id_length "claim" e' He') as L'.
  pose proof (f_equal String.length Heq) as Hlen. rewrite !str_length_app in Hlen.
  apply str_app_inj in Heq as [-> Heq]; [|simpl in *; lia].
  apply str_app_inj in Heq as [_ Heq]; [|done]. split; [done|]. by eapply next_id_inj.
Qed.

(** A time-stamped identifier is never a content-derived one: the letter [u] of
    ["msg-dedup-"] is not a hexadecimal digit. *)
Fixpoint all_digits (base : Z) (s : string) : Prop :=
  match s with
  | EmptyString => True
  | String c rest => (∃ d, 0 <= d < base ∧ c = digit_char d) ∧ all_digits base rest
  end.

Lemma all_digits_app base s t : all_digits base s → all_digits base t → all_digits base (s +:+ t).
Proof. induction s as [|c s IH]; [done|]. intros [Hc Hs] Ht. autorewrite with text. simpl. eauto. Qed.

Lemma digits_all base w n : 0 < base → all_digits base (digits base w n).
Proof.
  intros Hb. revert n. induction w as [|w IH]; intros n; [done|]. simpl.
  apply all_digits_app; [apply IH|]. split; [|done]. eexists. split; [|reflexivity].
  by apply Z.mod_pos_bound.
Qed.

Lemma digit_char_u d : 0 <= d < 16 → digit_char d ≠ "u"%char.
Proof.
  intros Hd Heq. apply (f_equal N_of_ascii) in Heq. unfold digit_char in Heq.
  rewrite N_ascii_embedding in Heq by (case_match; zbool; lia).
  change (N_of_ascii "u") with 117%N in Heq. case_match; zbool; lia.
Qed.

Lemma next_id_not_dedup e h : id_env_ok e → next_id "msg" e ≠ "msg-dedup-" +:+ h.
Proof.
  intros He Heq. destruct (id_fields_length e He) as (L1 & _). unfold next_id in Heq.
  assert (Hd : all_digits 16 (fmt 16 16 (id_now_ms e))) by (apply digits_all; lia).
  destruct (fmt 16 16 (id_now_ms e)) as [|c1 [|c2 [|c3 [|c4 s]]]]; try done.
  repeat (autorewrite with text in Heq; simpl in Heq). injection Heq as _ _ _ -> _.
  destruct Hd as (_ & _ & _ & (d & Hd & Hu) & _). by eapply digit_char_u.
Qed.

(** ** Run lemmas *)

(** A token that is not handed out in a run, and is not held at its start, is
    not held at its end. *)
Definition not_held (token id : string) (db : qdb) : Prop :=
  ∀ r, q_pending db !! id = Some r → m_claim_token r ≠ Some token.

Lemma row_step_token toks r r' t :
  row_step toks r r' → ¬ toks t → m_claim_token r' = Some t → m_claim_token r = Some t.
Proof. intros [] Ht; simpl; naive_solver. Qed.

Lemma life_step_not_held fresh toks db db' token id :
  life_step fresh toks db db' → ¬ toks token → not_held token id db → not_held token id db'.
Proof.
  intros Hs Ht Hn r. destruct Hs as [i k h p t _ _|i r0 r' Hr Hstep|i r0 c _ _ _ _|m l]; simpl.
  - rewrite lookup_insert_Some. intros [[_ <-]|[_ Hl]]; [done|by apply Hn].
  - rewrite lookup_insert_Some. intros [[<- <-]|[_ Hl]]; [|by apply Hn].
    intros Htok. eapply Hn; [done|]. by eapply row_step_token.
  - rewrite lookup_delete_Some. intros [_ Hl]. by apply Hn.
  - apply Hn.
Qed.

Lemma evolves_not_held fresh toks db db' token id :
  evolves fresh toks db db' → ¬ toks token → not_held token id db → not_held token id db'.
Proof. intros H Ht. induction H; eauto using life_step_not_held. Qed.

Lemma life_step_finished fresh toks db db' id :
  life_step fresh toks db db' → ¬ fresh id →
  q_pending db !! id = None → is_Some (q_completions db !! id) →
  q_pending db' !! id = None ∧ is_Some (q_completions db' !! id).
Proof.
  intros Hs Hf Hp Hc. split; [|by eapply life_step_completion].
  destruct Hs as [i k h p t Hn Hi|i r0 r' Hr _|i r0 c _ _ _ _|m l]; simpl; try done.
  - destruct (decide (i = id)) as [->|]; [|by rewrite lookup_insert_ne].
    destruct Hi as [Hi|Hi]; [|done]. rewrite Hi in Hc. by destruct Hc.
  - rewrite lookup_insert_ne; [done|]. congruence.
  - rewrite lookup_delete_None. by right.
Qed.

Lemma evolves_finished fresh toks db db' id :
  evolves fresh toks db db' → ¬ fresh id →
  q_pending db !! id = None → is_Some (q_completions db !! id) →
  q_pending db' !! id = None ∧ is_Some (q_completions db' !! id).
Proof.
  intros H Hf. induction H as [|db1 db2 db3 Hs _ IH]; [done|]. intros Hp Hc.
  destruct (life_step_finished _ _ _ _ _ Hs Hf Hp Hc). by apply IH.
Qed.

Lemma evolves_known fresh toks db db' id : evolves fresh toks db db' → known db id → known db' id.
Proof. induction 1; eauto using life_step_known. Qed.

Lemma same_message_trans r1 r2 r3 : same_message r1 r2 → same_message r2 r3 → same_message r1 r3.
Proof. unfold same_message. naive_solver congruence. Qed.

Lemma life_step_unfinished fresh toks db db' id :
  life_step fresh toks db db' → q_completions db' !! id = None → q_completions db !! id = None.
Proof.
  intros Hs Hn. apply eq_None_not_Some. intros Hc. pose proof (life_step_completion _ _ _ _ _ Hs Hc).
  rewrite Hn in *. by destruct H.
Qed.

Lemma evolves_completion fresh toks db db' id :
  evolves fresh toks db db' → is_Some (q_completions db !! id) → is_Some (q_completions db' !! id).
Proof. induction 1; eauto using life_step_completion. Qed.

(** A message that has not finished is still queued, with its content. *)
Lemma evolves_message fresh toks db db' id r :
  evolves fresh toks db db' → q_pending db !! id = Some r → q_completions db' !! id = None →
  ∃ r', q_pending db' !! id = Some r' ∧ same_message r r'.
Proof.
  intros H. revert r. induction H as [db|db1 db2 db3 Hs Hrest IH]; intros r Hr Hn; [by exists r|].
  destruct (life_step_message _ _ _ _ _ _ Hs Hr) as [(r2 & Hr2 & Hm)|[_ Hc]].
  - destruct (IH r2 Hr2 Hn) as (r' & Hr' & Hm'). exists r'. split; [done|].
    by eapply same_message_trans.
  - assert (Hc3 : is_Some (q_completions db3 !! id)) by (by eapply evolves_completion).
    rewrite Hn in Hc3. by destruct Hc3.
Qed.

(** ** A lost claim changes nothing *)
Section lost_claim.
Context `{QueueEnv}.
Implicit Types (s : store) (io : queue_io) (claim : ClaimedMessage) (db : qdb).

Lemma not_held_claim claim db r :
  not_held (cm_claim_token claim) (cm_id claim) db → q_pending db !! cm_id claim = Some r →
  holds_claim (cm_claim_token claim) r = false.
Proof.
  intros Hn Hr. unfold holds_claim. apply andb_false_iff. right.
  apply bool_decide_eq_false. by apply Hn.
Qed.

Lemma not_held_update claim f db :
  not_held (cm_claim_token claim) (cm_id claim) db →
  update_row (cm_id claim) (holds_claim (cm_claim_token claim)) f db = (db, 0).
Proof.
  intros Hn. unfold update_row. destruct (q_pending db !! cm_id claim) eqn:Hr; [|done].
  by rewrite (not_held_claim _ _ _ Hn Hr).
Qed.

(** What a finishing operation on a lost claim returns. *)
Definition refused {A} (db : qdb) (r : qdb * result A QueueError) : Prop :=
  r.1 = db ∧ is_ok r.2 = false.

Lemma fenced_rollback {A} io t fence (body : qdb → qdb * tx_end A QueueError) e db :
  (body db).2 = Rollback e →
  refused db (with_connection_with_busy_timeout io t (fun conn => fenced_tx conn fence body) db).
Proof.
  intros Hb. unfold refused, with_connection_with_busy_timeout, fenced_tx, transaction_immediate.
  destruct (c_open (io t)); [done|]. destruct (c_begin (io t)); [done|].
  destruct (fence db); [|done]. destruct (body db) as [db' x]; simpl in Hb; subst; done.
Qed.

Lemma confirm_refused s io claim ms t db :
  not_held (cm_claim_token claim) (cm_id claim) db → refused db (confirm s io claim ms t db).
Proof.
  intros Hn. eapply fenced_rollback. unfold confirm_in_tx.
  destruct (q_pending db !! cm_id claim) as [r|] eqn:Hr; [|done].
  by rewrite (not_held_claim _ _ _ Hn Hr).
Qed.

Lemma complete_refused s io claim completion timeout ms t db :
  not_held (cm_claim_token claim) (cm_id claim) db →
  refused db (complete_operation_with_busy_timeout s io claim completion timeout ms t db).
Proof. intros Hn. eapply fenced_rollback. by rewrite not_held_update. Qed.

Lemma mark_failed_refused s io claim error disposition ms t db :
  not_held (cm_claim_token claim) (cm_id claim) db →
  refused db (mark_failed_with_disposition s io claim error disposition ms t db).
Proof.
  intros Hn. eapply fenced_rollback. cbv beta zeta.
  destruct (q_pending db !! cm_id claim) as [r|] eqn:Hr; [|done].
  by rewrite (not_held_claim _ _ _ Hn Hr).
Qed.

Lemma release_refused s io claim ms db :
  not_held (cm_claim_token claim) (cm_id claim) db →
  refused db (release_claim_with_busy_timeout s io claim ms db).
Proof. intros Hn. eapply fenced_rollback. by rewrite not_held_update. Qed.
End lost_claim.

(** ** Properties *)
Definition empty_qdb : qdb := Qdb ∅ ∅ ∅ (LeaseDb ∅ ∅).

Lemma empty_queue_wf : queue_wf empty_qdb.
Proof. intros id row. simpl. by rewrite lookup_empty. Qed.

(** The readings of a run are in range and none of them is [e]. *)
Definition other_readings (uses : id_env → Prop) (e : id_env) : Prop :=
  id_env_ok e ∧ ¬ uses e ∧ ∀ e', uses e' → id_env_ok e'.

Section safety.
Context `{QueueEnv, TableScan} (p : run_params).

(** C1: every operation of the queue, whatever the connection returns, is a sequence of
    lifecycle steps, provided that what other connections commit between its statements
    is one too (as it is when they run operations of the queue): insertions of fresh
    rows; claims of pending rows; releases, heartbeats, retries and failures of claimed
    ones; re-arming of pending ones; requeueing of failed ones; the marking as a failed
    model task, which the code does to a row in any status; moves of rows that are not
    pending to the completions; and writes to the counters and the lease tables, which
    change no message. *)
Theorem queue_refines_lifecycle db db' : queue_step p db db' → run (uses p) db db'.
Proof. apply queue_step_run. Qed.

(** In every state a run reaches from an empty queue the columns of a row
    agree with its status: a row has a claim token, a claim time and a
    heartbeat exactly when it is claimed, its operation state and failure class
    are those of its status, its retry count is a 32-bit number and its recorded
    error has at most 4096 bytes. *)
Theorem queue_wf_reachable db : rtc (queue_step p) empty_qdb db → queue_wf db.
Proof.
  intros Hr. eapply evolves_wf; [apply empty_queue_wf|]. by eapply queue_steps_run.
Qed.

(** C32: no message is lost. Through any run of the queue's operations a queued message
    stays queued with the same kind, payload, source hash and creation time, until it is
    among the completions; and an identifier that is among the completions stays there.
    *)
Theorem message_durable db db' :
  rtc (queue_step p) db db' →
  (∀ id r, q_pending db !! id = Some r →
     is_Some (q_completions db' !! id) ∨ ∃ r', q_pending db' !! id = Some r' ∧ same_message r r')
  ∧ (∀ id, is_Some (q_completions db !! id) → is_Some (q_completions db' !! id)).
Proof.
  intros Hs%queue_steps_run. split; [|intros id; by eapply evolves_completion].
  intros id r Hr. destruct (q_completions db' !! id) eqn:Hc; [by left; eexists|]. right.
  by eapply evolves_message.
Qed.

(** C33: a finished message is never processed again: once it has left the queue
    for the completions, no run brings it back, content-derived identifiers
    under any retry of the producer, time-stamped ones as long as the process
    counters do not repeat. *)
Theorem finished_stays_finished db db' id :
  (∀ e, uses p e → id_env_ok e) →
  (∃ h, id = "msg-dedup-" +:+ h) ∨ (∃ e, id = next_id "msg" e ∧ other_readings (uses p) e) →
  q_pending db !! id = None → is_Some (q_completions db !! id) →
  rtc (queue_step p) db db' →
  q_pending db' !! id = None ∧ is_Some (q_completions db' !! id).
Proof.
  intros Hok Hid Hp Hc Hs. apply queue_steps_run in Hs. eapply evolves_finished; eauto.
  intros (e & He & ->). destruct Hid as [[h Hh]|(e' & Heq & He' & Hn & _)].
  - by eapply next_id_not_dedup; [apply Hok|].
  - apply next_id_inj in Heq; [|by apply Hok|done]. by subst.
Qed.

(** C2: fencing of claims. Once the row of a claim no longer carries the claim's
    token (it was reclaimed as stale, released or finished), the worker that
    held it can in no later state confirm, complete, fail or release the
    message: each attempt returns an error and changes nothing. *)
Theorem lost_claim_stays_lost db db' claim worker e :
  cm_claim_token claim = claim_token_of worker e → other_readings (uses p) e →
  not_held (cm_claim_token claim) (cm_id claim) db → rtc (queue_step p) db db' →
  ∀ s io ms t,
    refused db' (confirm s io claim ms t db') ∧
    (∀ completion timeout,
       refused db' (complete_operation_with_busy_timeout s io claim completion timeout ms t db')) ∧
    (∀ error disposition,
       refused db' (mark_failed_with_disposition s io claim error disposition ms t db')) ∧
    refused db' (release_claim s io claim ms db').
Proof.
  intros Htok (He & Hn & Hok) Hnh Hs s io ms t. apply queue_steps_run in Hs.
  assert (Hnh' : not_held (cm_claim_token claim) (cm_id claim) db').
  { eapply evolves_not_held; [done| |done]. rewrite Htok. intros (w & e' & He' & Heq).
    apply claim_token_inj in Heq as [_ ->]; auto. }
  split_and!; intros; eauto using confirm_refused, complete_refused, mark_failed_refused,
    release_refused.
Qed.
End safety.

(** ** A concrete run

    A producer enqueues a hook event; worker 1 claims it and stops; its claim
    goes stale and worker 2 claims and confirms the message. *)
#[export] Instance witness_queue_env : QueueEnv | 100 :=
  {| blake3_hex s := String.rev s; scrub_sensitive_text s := s |}.

Definition wid (counter : Z) : id_env := IdEnv 1776211200000 4242 counter.

Definition wstore : store := Store default_queue_config None.

Definition wclaim_env (now counter : Z) : claim_env :=
  ClaimEnv None conn_ok now now now (now * 1000) (now * 1000) (now * 1000) (wid counter)
    (fun db => db) (fun db => db).

Definition run0 : qdb :=
  (enqueue wstore queue_io_ok "hook_event" "{}" 100 (wid 1) (fun db => db) empty_qdb).1.
Definition claim1 := claim_next_once (wclaim_env 110 2) "w1" 60 run0.
Definition run1 : qdb := claim1.1.
Definition run2 : qdb := (reclaim_stale queue_io_ok 60 400 run1).1.
Definition claim2 := claim_next_once (wclaim_env 401 3) "w2" 60 run2.
Definition run3 : qdb := claim2.1.

Definition the_claim (r : qdb * result (option ClaimedMessage) QueueError) : ClaimedMessage :=
  match r.2 with
  | Ok (Some c) => c
  | _ => Build_ClaimedMessage "" "" "" 0 "" "" 0 0
  end.

Definition run4 : qdb := (confirm wstore queue_io_ok (the_claim claim2) 0 402000 run3).1.

(** The readings of the run, the one of worker 1's claim apart. *)
Definition later_ids (e : id_env) : Prop := id_env_ok e ∧ id_counter e ≠ 2 ∧ id_counter e ≠ 1.

Lemma wid_ok n : 0 <= n < 2 ^ 64 → id_env_ok (wid n).
Proof. unfold id_env_ok, wid; simpl; lia. Qed.

Lemma step0 : queue_step (any_store id_env_ok) empty_qdb run0.
Proof. apply q_enqueue; [done|apply wid_ok; lia|by split; [apply evolves_refl|]]. Qed.

Lemma step1 : queue_step (any_store id_env_ok) run0 run1.
Proof. apply q_claim; [apply wid_ok; lia|by split; [apply evolves_refl|]]. Qed.

Lemma step3 : queue_step (any_store later_ids) run2 run3.
Proof. apply q_claim; [split; [apply wid_ok; lia|simpl; lia]|by split; [apply evolves_refl|]]. Qed.

Lemma step4 : queue_step (any_store later_ids) run3 run4.
Proof. by apply q_confirm. Qed.

Lemma run_init : rtc (queue_step (any_store id_env_ok)) empty_qdb run1.
Proof. exact (rtc_l _ _ _ _ step0 (rtc_once _ _ step1)). Qed.

Lemma run_later : rtc (queue_step (any_store later_ids)) run2 run4.
Proof. exact (rtc_l _ _ _ _ step3 (rtc_once _ _ step4)). Qed.

Lemma later_other n : n = 1 ∨ n = 2 → other_readings later_ids (wid n).
Proof.
  intros Hn. split_and!; [apply wid_ok; lia| |by intros e []]. intros (_ & ? & ?). simpl in *. lia.
Qed.

Lemma queue_refines_lifecycle_witness : run later_ids run2 run3.
Proof.
  apply (queue_refines_lifecycle (any_store later_ids) run2 run3). apply step3.
Defined.

Lemma queue_wf_reachable_witness : queue_wf run1.
Proof. apply (queue_wf_reachable (any_store id_env_ok) run1). apply run_init. Defined.

Lemma message_durable_witness :
  (is_Some (q_completions run4 !! next_id "msg" (wid 1)) ∨
   ∃ r', q_pending run4 !! next_id "msg" (wid 1) = Some r' ∧ m_payload r' = "{}").
Proof.
  destruct (q_pending run2 !! next_id "msg" (wid 1)) as [r|] eqn:Hr; [|vm_compute in Hr; discriminate].
  destruct (proj1 (message_durable (any_store later_ids) run2 run4 run_later) _ r Hr) as [Hc|(r' & Hr' & Hm)];
    [by left|]. right. exists r'. split; [done|]. destruct Hm as (_ & _ & -> & _).
  vm_compute in Hr. by injection Hr as <-.
Defined.

Lemma finished_stays_finished_witness :
  let db' := (enqueue wstore queue_io_ok "hook_event" "{}" 500 (wid 9) (fun db => db) run4).1 in
  q_pending db' !! next_id "msg" (wid 1) = None ∧
  is_Some (q_completions db' !! next_id "msg" (wid 1)).
Proof.
  apply (finished_stays_finished (any_store later_ids) run4).
  - by intros e [].
  - right. exists (wid 1). split; [done|]. apply later_other. by left.
  - vm_compute. reflexivity.
  - vm_compute. eexists. reflexivity.
  - apply rtc_once, q_enqueue;
      [done|split; [apply wid_ok; lia|simpl; lia]|by split; [apply evolves_refl|]].
Defined.

Lemma lost_claim_stays_lost_witness :
  refused run3 (confirm wstore queue_io_ok (the_claim claim1) 0 500000 run3).
Proof.
  pose proof (lost_claim_stays_lost (any_store later_ids) run2 run3 (the_claim claim1) "w1" (wid 2)) as H.
  assert (Htok : cm_claim_token (the_claim claim1) = claim_token_of "w1" (wid 2))
    by (vm_compute; reflexivity).
  assert (Hnh : not_held (cm_claim_token (the_claim claim1)) (cm_id (the_claim claim1)) run2).
  { intros r Hr. vm_compute in Hr. injection Hr as <-. discriminate. }
  exact (proj1 (H Htok (later_other 2 (or_intror eq_refl)) Hnh (rtc_once _ _ step3)
                  wstore queue_io_ok 0 500000)).
Defined.
