(* ===== verification/QueueClaims.v ===== *)
(** * Claims, retries and idempotent enqueue

    The functional behaviour of the claim operations (which message, for whom,
    when), of the operations that finish a claim, and of repeated enqueues. *)

From Stdlib Require Import ZArith Lia String Ascii.
From stdpp Require Import base tactics list gmap strings numbers relations sorting.
From S2P Require Import Prelude Text Order Rfc3339 ProcessIdentity Sqlite.
From S2P Require Import WriterLease QueueTypes QueueFailures QueueStore QueueAdmin.
From S2P Require Import QueueLifecycle QueueSystem QueueSafety.
Open Scope Z_scope.

(** ** Selection *)

#[export] Instance claim_cmp_ok : Comparator (fun a b : string * msg_row =>
  then_with (m_next_attempt_at a.2 ?= m_next_attempt_at b.2) (String.compare a.1 b.1)).
Proof.
  apply (lex_comparator (fun a b => m_next_attempt_at a.2 ?= m_next_attempt_at b.2)
           (fun a b => String.compare a.1 b.1)).
  - apply (on_comparator (fun a : string * msg_row => m_next_attempt_at a.2)), _.
  - apply (on_comparator (fun a : string * msg_row => a.1)), _.
Qed.

Lemma select_next_Some cond db id row :
  select_next cond db = Some (id, row) →
  q_pending db !! id = Some row ∧ cond row = true ∧
  ∀ id' row', q_pending db !! id' = Some row' → cond row' = true →
    claim_leb (id, row) (id', row') = true.
Proof.
  intros Hs. apply (sort_by_head_least (fun a b : string * msg_row =>
    then_with (m_next_attempt_at a.2 ?= m_next_attempt_at b.2) (String.compare a.1 b.1))) in Hs
    as [Hin Hmin].
  apply list_elem_of_filter in Hin as [Hc Hin]. apply elem_of_map_to_list in Hin.
  split_and!; [done|done|]. intros id' row' Hr Hc'. apply (Hmin (id', row')).
  apply list_elem_of_filter. split; [done|]. by apply elem_of_map_to_list.
Qed.

Lemma select_next_None cond db id row :
  select_next cond db = None → q_pending db !! id = Some row → cond row = false.
Proof.
  intros Hs Hr. apply sort_by_head_none in Hs. apply not_true_is_false. intros Hc.
  assert (Hin : (id, row) ∈ filter (fun e : string * msg_row => cond e.2 = true)
                              (map_to_list (q_pending db))).
  { apply list_elem_of_filter. split; [done|]. by apply elem_of_map_to_list. }
  rewrite Hs in Hin. by apply elem_of_nil in Hin.
Qed.

Lemma exists_row_true cond db id row :
  q_pending db !! id = Some row → cond id row = true → exists_row cond db = true.
Proof.
  intros Hr Hc. apply existsb_exists. exists (id, row). split; [|done].
  apply list_elem_of_In. by apply elem_of_map_to_list.
Qed.

(** ** Reclaiming *)

Lemma reclaim_lookup cutoff db id :
  q_pending (reclaim_stale_tx cutoff db).1 !! id =
  (fun row => if is_stale cutoff row then released_row row else row) <$> q_pending db !! id.
Proof. simpl. apply lookup_fmap. Qed.

Lemma reclaim_lookup_fresh cutoff db id row :
  q_pending db !! id = Some row → is_stale cutoff row = false →
  q_pending (reclaim_stale_tx cutoff db).1 !! id = Some row.
Proof. intros Hr Hs. rewrite reclaim_lookup, Hr. simpl. by rewrite Hs. Qed.

Lemma pending_not_stale cutoff row : m_status row = StPending → is_stale cutoff row = false.
Proof. intros Hs. unfold is_stale, is_status. by rewrite Hs. Qed.

(** ** The claim transaction *)

(** The claim record of a row. *)
Definition claim_of (id token : string) (now : Z) (row : msg_row) : ClaimedMessage :=
  {| cm_id := id; cm_kind := m_kind row; cm_payload := m_payload row;
     cm_retry_count := m_retry_count row; cm_claim_token := token;
     cm_source_hash := m_source_hash row; cm_created_at := m_created_at row;
     cm_claimed_at := now |}.

(** The selected row was claimed for the caller, and nothing else changed. *)
Definition claimed_from (db1 : qdb) (id token : string) (now : Z) (row : msg_row) : qdb :=
  set_pending (<[id := claimed_row token now row]> (q_pending db1)) db1.

Lemma claim_selected_Some worker now ide sel cond db db' c :
  (∀ id row, sel = Some (id, row) → q_pending db !! id = Some row ∧ cond row = true) →
  claim_selected worker now ide sel cond db = (db', Commit (Ok (Some c))) →
  ∃ id row, sel = Some (id, row) ∧ c = claim_of id (claim_token_of worker ide) now row ∧
    db' = claimed_from db id (claim_token_of worker ide) now row.
Proof.
  intros Hsel. unfold claim_selected. destruct sel as [[id row]|]; [|done].
  destruct (Hsel id row eq_refl) as [Hr Hc].
  destruct (try_u32 (m_retry_count row)) as [n|] eqn:Hn; [|done].
  apply try_u32_Some in Hn as [<- _]. unfold update_row. rewrite Hr, Hc. simpl.
  intros [= <- <-]. by exists id, row.
Qed.

Lemma claim_selected_ok worker now ide id row cond db :
  q_pending db !! id = Some row → cond row = true → in_u32 (m_retry_count row) →
  claim_selected worker now ide (Some (id, row)) cond db =
  (claimed_from db id (claim_token_of worker ide) now row,
   Commit (Ok (Some (claim_of id (claim_token_of worker ide) now row)))).
Proof.
  intros Hr Hc Hn. unfold claim_selected.
  assert (try_u32 (m_retry_count row) = Some (m_retry_count row)) as -> by (by apply try_u32_Some).
  unfold update_row. rewrite Hr, Hc. done.
Qed.

(** Rows that the selection does not reach are kept. *)
Lemma claim_selected_other worker now ide sel cond db db' r id' :
  claim_selected worker now ide sel cond db = (db', Commit r) →
  (∀ id row, sel = Some (id, row) → id ≠ id') → q_pending db' !! id' = q_pending db !! id'.
Proof.
  unfold claim_selected. destruct sel as [[id row]|]; [|by intros [= <- _]].
  intros Hcl Hne. specialize (Hne id row eq_refl). destruct (try_u32 _); [|done].
  unfold update_row in Hcl. destruct (q_pending db !! id); [destruct (cond _)|]; simplify_eq/=;
    try done. by rewrite lookup_insert_ne.
Qed.

(** The transaction of [claim_next_once] and [claim_next_by_kind_once]. *)
Definition claim_body (worker : string) (now : Z) (ide : id_env) (cutoff : Z)
    (elig : msg_row → bool) (db : qdb) : qdb * tx_end (option ClaimedMessage) QueueError :=
  let '(db1, _) := reclaim_stale_tx cutoff db in
  claim_selected worker now ide (select_next elig db1) (is_status StPending) db1.

Definition hook_elig (now : Z) (row : msg_row) : bool := is_due now row && not_dedicated row.
Definition kind_elig (now : Z) (kind : string) (row : msg_row) : bool :=
  is_due now row && kind_is kind row.

Lemma hook_elig_pending now row : hook_elig now row = true → is_status StPending row = true.
Proof. unfold hook_elig, is_due. rewrite !andb_true_iff. tauto. Qed.
Lemma kind_elig_pending now kind row : kind_elig now kind row = true → is_status StPending row = true.
Proof. unfold kind_elig, is_due. rewrite !andb_true_iff. tauto. Qed.

(** [c] is the claim of the first eligible row of [db1], and [db'] is [db1] with
    that row claimed. *)
Definition claims_least (elig : msg_row → bool) (db1 db' : qdb) (token : string) (now : Z)
    (c : ClaimedMessage) : Prop :=
  ∃ row, q_pending db1 !! cm_id c = Some row ∧ elig row = true ∧
    (∀ id' row', q_pending db1 !! id' = Some row' → elig row' = true →
       claim_leb (cm_id c, row) (id', row') = true) ∧
    c = claim_of (cm_id c) token now row ∧ db' = claimed_from db1 (cm_id c) token now row.

Lemma claim_body_least worker now ide cutoff elig db db' c :
  (∀ row, elig row = true → is_status StPending row = true) →
  claim_body worker now ide cutoff elig db = (db', Commit (Ok (Some c))) →
  claims_least elig (reclaim_stale_tx cutoff db).1 db' (claim_token_of worker ide) now c.
Proof.
  intros He. unfold claim_body. destruct (reclaim_stale_tx cutoff db) as [db1 n]. simpl. intros Hcl.
  apply claim_selected_Some in Hcl as (id & row & Hsel & -> & ->).
  - apply select_next_Some in Hsel as (Hr & Hc & Hmin). by exists row.
  - intros id row (Hr & Hc & _)%select_next_Some. auto.
Qed.

(** An eligible row makes the claim succeed. *)
Lemma claim_body_live worker now ide cutoff elig db id row :
  (∀ row, elig row = true → is_status StPending row = true) → queue_wf db →
  q_pending db !! id = Some row → elig row = true →
  ∃ db' c, claim_body worker now ide cutoff elig db = (db', Commit (Ok (Some c))).
Proof.
  intros He Hwf Hr Hel. unfold claim_body.
  pose proof (evolves_wf _ _ _ _ Hwf (reclaim_evolves (fun _ => False) (fun _ => False) cutoff db)) as Hwf1.
  pose proof (reclaim_lookup_fresh cutoff db id row Hr) as Hr1.
  destruct (reclaim_stale_tx cutoff db) as [db1 n]. simpl in *.
  specialize (Hr1 (pending_not_stale cutoff row (pending_cond _ (He _ Hel)))).
  destruct (select_next elig db1) as [[id' row']|] eqn:Hsel.
  - apply select_next_Some in Hsel as (Hr' & Hc' & _).
    rewrite claim_selected_ok; [eauto|done|by apply He|]. by apply (Hwf1 id' row').
  - by rewrite (select_next_None _ _ _ _ Hsel Hr1) in Hel.
Qed.

(** A row with a live claim is kept. *)
Lemma claim_body_keeps worker now ide cutoff elig db db' r id row :
  (∀ row, elig row = true → is_status StPending row = true) →
  claim_body worker now ide cutoff elig db = (db', Commit r) →
  q_pending db !! id = Some row → m_status row = StClaimed → is_stale cutoff row = false →
  q_pending db' !! id = Some row.
Proof.
  intros He Hb Hr Hs Hst. unfold claim_body in Hb.
  pose proof (reclaim_lookup_fresh cutoff db id row Hr Hst) as Hr1.
  destruct (reclaim_stale_tx cutoff db) as [db1 n]. simpl in *.
  rewrite (claim_selected_other _ _ _ _ _ _ _ _ id Hb); [done|].
  intros id' row' (Hr' & Hc' & _)%select_next_Some ->. simplify_eq.
  apply He, pending_cond in Hc'. congruence.
Qed.

(** How an attempt of [claim_next_once] ends. *)
Lemma claim_next_cases e worker ttl db db' r :
  claim_next_once e worker ttl db = (db', r) →
  (db' = db ∧ ∀ c, r ≠ Ok (Some c)) ∨ (db' = ce_other e db ∧ ∀ c, r ≠ Ok (Some c)) ∨
  claim_body worker (ce_tx_now e) (ce_id e) (saturating_cutoff (ce_now e) ttl)
    (hook_elig (ce_tx_now e)) (ce_other e db) = (db', Commit r).
Proof.
  unfold claim_next_once, with_claim_connection. destruct (c_open (ce_conn e)); [naive_solver|].
  destruct (negb _); [naive_solver|]. intros [[-> [err ->]]|Hb]%transaction_cases; [naive_solver|].
  by right; right.
Qed.

Lemma claim_kind_cases s e worker ttl kind approved db db' r :
  claim_next_by_kind_once s e worker ttl kind approved db = (db', r) →
  let probed := ce_other_probe e db in
  (db' = db ∧ ∀ c, r ≠ Ok (Some c)) ∨ (db' = probed ∧ ∀ c, r ≠ Ok (Some c)) ∨
  (db' = ce_other e probed ∧ ∀ c, r ≠ Ok (Some c)) ∨
  (approved = true ∧ is_ok (require_lifecycle_writer_lease s "claim queued message"
     (ce_tx_lease_ms e) (ce_other e probed)) = true ∧
   claim_body worker (ce_tx_now e) (ce_id e) (saturating_cutoff (ce_now e) ttl)
     (kind_elig (ce_tx_now e) kind) (ce_other e probed) = (db', Commit r)).
Proof.
  unfold claim_next_by_kind_once. destruct (ce_reader e); [naive_solver|].
  destruct (require_lifecycle_writer_lease _ _ _ db); [|naive_solver].
  destruct (negb _); [naive_solver|]. simpl. destruct approved; simpl; [|naive_solver].
  unfold with_claim_connection. destruct (c_open (ce_conn e)); [naive_solver|].
  destruct (require_lifecycle_writer_lease _ _ (ce_lease_ms e) _); [|naive_solver].
  destruct (negb _); [naive_solver|]. intros [[-> [err ->]]|Hb]%transaction_cases; [naive_solver|].
  right; right; right. destruct (require_lifecycle_writer_lease _ _ _ _); [|done]. done.
Qed.

Section claims.
Context `{QueueEnv}.

(** The order of work. A claim returns the eligible message with the least
    due time, ties broken by identifier, after stale claims went back to the
    queue; only that row changes, and it is claimed under the token returned.
    [claim_next] takes only kinds without a worker of their own, a claim by
    kind only its kind and only under its lifecycle lease. *)
Theorem claim_takes_least s e worker ttl kind approved db db' c :
  let cutoff := saturating_cutoff (ce_now e) ttl in
  let probed := ce_other_probe e db in
  let token := claim_token_of worker (ce_id e) in
  (claim_next_once e worker ttl db = (db', Ok (Some c)) →
   claims_least (hook_elig (ce_tx_now e)) (reclaim_stale_tx cutoff (ce_other e db)).1 db'
     token (ce_tx_now e) c) ∧
  (claim_next_by_kind_once s e worker ttl kind approved db = (db', Ok (Some c)) →
   approved = true ∧
   is_ok (require_lifecycle_writer_lease s "claim queued message" (ce_tx_lease_ms e)
            (ce_other e probed)) = true ∧
   claims_least (kind_elig (ce_tx_now e) kind) (reclaim_stale_tx cutoff (ce_other e probed)).1 db'
     token (ce_tx_now e) c).
Proof.
  intros cutoff probed token. split.
  - intros [[_ Hn]|[[_ Hn]|Hb]]%claim_next_cases; [by destruct (Hn c)|by destruct (Hn c)|].
    eapply claim_body_least; [|exact Hb]. apply hook_elig_pending.
  - intros [[_ Hn]|[[_ Hn]|[[_ Hn]|(Ha & Hl & Hb)]]]%claim_kind_cases;
      [by destruct (Hn c)|by destruct (Hn c)|by destruct (Hn c)|].
    split_and!; [done|done|]. eapply claim_body_least; [|exact Hb]. apply kind_elig_pending.
Qed.

(** A claim is exclusive while its holder is alive: an attempt to claim,
    whatever it returns, leaves the row of a claim whose heartbeat is not older
    than the time to live exactly as it is. *)
Theorem live_claim_kept s e worker ttl kind approved db id row h :
  m_status row = StClaimed → m_heartbeat_at row = Some h →
  saturating_cutoff (ce_now e) ttl <= h →
  q_pending db !! id = Some row → q_pending (ce_other e db) !! id = Some row →
  q_pending (ce_other_probe e db) !! id = Some row →
  q_pending (ce_other e (ce_other_probe e db)) !! id = Some row →
  q_pending (claim_next_once e worker ttl db).1 !! id = Some row ∧
  q_pending (claim_next_by_kind_once s e worker ttl kind approved db).1 !! id = Some row.
Proof.
  intros Hs Hh Hlive H1 H2 H3 H4.
  assert (Hst : is_stale (saturating_cutoff (ce_now e) ttl) row = false).
  { unfold is_stale, is_status. rewrite Hs, Hh. simpl. by apply Z.ltb_ge. }
  split.
  - destruct (claim_next_once e worker ttl db) as [db' r] eqn:E.
    apply claim_next_cases in E as [[-> _]|[[-> _]|Hb]]; [done|done|].
    eapply claim_body_keeps; [|exact Hb|done..]. apply hook_elig_pending.
  - destruct (claim_next_by_kind_once s e worker ttl kind approved db) as [db' r] eqn:E.
    apply claim_kind_cases in E as [[-> _]|[[-> _]|[[-> _]|(_ & _ & Hb)]]]; [done..|].
    eapply claim_body_keeps; [|exact Hb|done..]. apply kind_elig_pending.
Qed.

(** A due message is claimed. When the connection works and the queue holds
    an eligible message that is due, an attempt returns a message. *)
Theorem due_message_claimed e worker ttl db id row :
  ce_conn e = conn_ok → ce_now e <= ce_tx_now e → queue_wf (ce_other e db) →
  q_pending db !! id = Some row → q_pending (ce_other e db) !! id = Some row →
  hook_elig (ce_now e) row = true →
  ∃ db' c, claim_next_once e worker ttl db = (db', Ok (Some c)).
Proof.
  intros Hconn Hle Hwf H1 H2 Hel.
  assert (Hel' : hook_elig (ce_tx_now e) row = true).
  { unfold hook_elig, is_due in *. rewrite !andb_true_iff, !Z.leb_le in *. naive_solver lia. }
  destruct (claim_body_live worker (ce_tx_now e) (ce_id e) (saturating_cutoff (ce_now e) ttl)
    (hook_elig (ce_tx_now e)) (ce_other e db) id row (hook_elig_pending _) Hwf H2 Hel')
    as (db' & c & Hb).
  exists db', c. unfold claim_next_once, with_claim_connection. rewrite Hconn. simpl.
  assert (claim_work_available (saturating_cutoff (ce_now e) ttl) (ce_now e) None true db = true) as ->.
  { unfold claim_work_available. apply orb_true_iff. right. eapply exists_row_true; [done|].
    rewrite andb_true_r. by unfold hook_elig in Hel. }
  simpl. apply transaction_ok. exact Hb.
Qed.
End claims.

(** ** Finishing a claim *)

Lemma holds_claim_iff token row :
  holds_claim token row = true ↔ m_status row = StClaimed ∧ m_claim_token row = Some token.
Proof. unfold holds_claim. by rewrite andb_true_iff, !bool_decide_eq_true. Qed.

(** No lifecycle lease, or one that is active at [ms]. *)
Definition fence_open (s : store) (ms : Z) (db : qdb) : Prop :=
  match st_lifecycle_writer_lease s with
  | Some l => lease_row_active ms (rl_name l) (rl_owner l) (rl_session_id l) (rl_generation l)
                (q_leases db) = true
  | None => True
  end.

Lemma fence_open_ok s operation ms db :
  fence_open s ms db → require_lifecycle_writer_lease s operation ms db = Ok tt.
Proof.
  unfold fence_open, require_lifecycle_writer_lease, require_runtime_writer_lease.
  destruct (st_lifecycle_writer_lease s); [|done]. by intros ->.
Qed.

Lemma fenced_call_ok {A} t s operation ms (body : qdb → qdb * tx_end A QueueError) db db' v :
  fence_open s ms db → body db = (db', Commit v) →
  with_connection_with_busy_timeout queue_io_ok t
    (fun conn => fenced_tx conn (require_lifecycle_writer_lease s operation ms) body) db = (db', v).
Proof.
  intros Hf Hb. unfold with_connection_with_busy_timeout, fenced_tx. simpl.
  apply transaction_ok. by rewrite fence_open_ok.
Qed.

Lemma fenced_call_rollback {A} t s operation ms (body : qdb → qdb * tx_end A QueueError) db db' e :
  fence_open s ms db → body db = (db', Rollback e) →
  with_connection_with_busy_timeout queue_io_ok t
    (fun conn => fenced_tx conn (require_lifecycle_writer_lease s operation ms) body) db = (db, Err e).
Proof.
  intros Hf Hb. unfold with_connection_with_busy_timeout, fenced_tx, transaction_immediate. simpl.
  by rewrite fence_open_ok, Hb.
Qed.

Section finishing.
Context `{QueueEnv}.

(** Completing a claimed operation moves exactly its row to the completions
    with the outcome given, so the status query then reports that outcome; a
    second completion finds no message. *)
Theorem complete_operation_moves s claim completion ms t db row :
  fence_open s ms db → q_pending db !! cm_id claim = Some row →
  holds_claim (cm_claim_token claim) row = true →
  valid_op_state (pc_op_state completion) = true →
  ∃ db', complete_operation s queue_io_ok claim completion ms t db = (db', Ok tt) ∧
    q_pending db' = delete (cm_id claim) (q_pending db) ∧
    (∀ id, id ≠ cm_id claim → q_completions db' !! id = q_completions db !! id) ∧
    operation_status None (fun db => db) (cm_id claim) db' = Ok (Some
      {| or_id := cm_id claim; or_kind := m_kind row;
         or_created_at := sat_i64 (m_created_at row * 1000);
         or_claimed_at := (fun c => sat_i64 (c * 1000)) <$> m_claimed_at row;
         or_completed_at := Some t; or_op_state := pc_op_state completion;
         or_result_drawer_id := pc_result_drawer_id completion;
         or_rejected_reason := pc_rejected_reason completion;
         or_failure_detail := pc_failure_detail completion;
         or_result_json := pc_result_json completion |}) ∧
    complete_operation s queue_io_ok claim completion ms t db' =
      (db', Err (MessageNotFound (cm_id claim))).
Proof.
  intros Hf Hr Hh Hv. unfold complete_operation, complete_operation_with_busy_timeout.
  eexists. split_and!.
  - apply fenced_call_ok; [done|]. unfold update_row. rewrite Hr, Hh. cbv beta iota. simpl.
    rewrite Hv. simpl. unfold confirm_in_tx. simpl. rewrite lookup_insert_eq.
    unfold holds_claim in *. simpl. rewrite Hh, Hv. simpl. reflexivity.
  - unfold upsert_completion, set_completions. simpl. by rewrite delete_insert_eq.
  - intros id Hne. unfold upsert_completion, set_completions. simpl. by rewrite lookup_insert_ne.
  - unfold operation_status, operation_status_from_pending, operation_status_from_completion,
      upsert_completion, set_completions. simpl. rewrite lookup_delete_eq, lookup_insert_eq. simpl.
    by destruct (q_completions db !! cm_id claim).
  - eapply fenced_call_rollback.
    + unfold fence_open in *. by destruct (st_lifecycle_writer_lease s).
    + unfold update_row, claim_miss_error, upsert_completion, set_completions. simpl.
      rewrite lookup_delete_eq. simpl. reflexivity.
Qed.

(** The retry schedule. Recording a retryable failure of a claim puts its
    message back, one attempt more, and the message is not due before the
    back-off has passed, and due one second later at most. *)
Theorem retry_schedule s claim error ms now db row :
  fence_open s ms db → q_pending db !! cm_id claim = Some row →
  holds_claim (cm_claim_token claim) row = true →
  0 <= m_retry_count row < u32_max → 0 <= now → now < 2 ^ 62 →
  let backoff := compute_backoff_ms (st_config s) (m_retry_count row + 1) in
  0 <= backoff < 2 ^ 62 →
  ∃ db' row', mark_failed s queue_io_ok claim error ms now db = (db', Ok tt) ∧
    q_pending db' = <[cm_id claim := row']> (q_pending db) ∧
    m_status row' = StPending ∧ m_claim_token row' = None ∧
    m_retry_count row' = m_retry_count row + 1 ∧ same_message row row' ∧
    (∀ t, t * 1000 < now * 1000 + backoff → is_due t row' = false) ∧
    (∀ t, now * 1000 + backoff + 999 <= t * 1000 → is_due t row' = true).
Proof.
  intros Hf Hr Hh Hn Hnow Hnow2 backoff Hb.
  assert (Hu : try_u32 (sat_i64 (m_retry_count row + 1)) = Some (m_retry_count row + 1)).
  { rewrite sat_i64_id by (unfold_widths; lia). apply try_u32_Some. unfold_widths; lia. }
  eexists _, _. split.
  { apply fenced_call_ok; [done|]. cbv beta zeta. rewrite Hr, Hh, Hu. unfold update_row.
    rewrite Hr, Hh. simpl. reflexivity. }
  simpl. fold backoff. rewrite sat_i64_id by (unfold_widths; lia).
  assert (Hd : 1000 * div_ceil backoff 1000 < backoff + 1000 ∧ backoff <= 1000 * div_ceil backoff 1000).
  { unfold div_ceil. destruct (Z.leb_spec backoff 0); [lia|].
    rewrite Z.quot_div_nonneg by lia. pose proof (Z.div_mod (backoff - 1) 1000 ltac:(lia)).
    pose proof (Z.mod_pos_bound (backoff - 1) 1000 ltac:(lia)). lia. }
  split_and!; try done.
  - intros t Ht. unfold is_due, is_status. simpl. apply Z.leb_gt.
    rewrite sat_i64_id by (unfold_widths; lia). lia.
  - intros t Ht. unfold is_due, is_status. simpl. apply Z.leb_le.
    rewrite sat_i64_id by (unfold_widths; lia). lia.
Qed.

(** The lifecycle fence. A worker whose runtime writer lease is no longer the
    active one (replaced, released or expired) changes nothing: finishing,
    failing, releasing or refreshing a claim returns the lost lease. *)
Theorem lifecycle_fence s lease ms db :
  st_lifecycle_writer_lease s = Some lease →
  lease_row_active ms (rl_name lease) (rl_owner lease) (rl_session_id lease)
    (rl_generation lease) (q_leases db) = false →
  let lost operation := (db, Err (RuntimeWriterLeaseLost (rl_name lease) (rl_owner lease)
                                    (rl_generation lease) operation)) in
  ∀ claim t,
    confirm s queue_io_ok claim ms t db = lost "confirm queued message" ∧
    (∀ completion, complete_operation s queue_io_ok claim completion ms t db =
                   lost "complete queued operation") ∧
    (∀ error disposition,
       mark_failed_with_disposition s queue_io_ok claim error disposition ms t db =
       lost "requeue or fail queued message") ∧
    release_claim s queue_io_ok claim ms db = lost "release queued message claim" ∧
    (∀ id worker, refresh_heartbeat s queue_io_ok id worker t ms db =
                  lost "refresh queued message heartbeat").
Proof.
  intros Hl Ha lost claim t.
  assert (Hreq : ∀ op, require_lifecycle_writer_lease s op ms db =
     Err (RuntimeWriterLeaseLost (rl_name lease) (rl_owner lease) (rl_generation lease) op)).
  { intros op. unfold require_lifecycle_writer_lease, require_runtime_writer_lease. by rewrite Hl, Ha. }
  unfold confirm, complete_operation, complete_operation_with_busy_timeout,
    mark_failed_with_disposition, release_claim, release_claim_with_busy_timeout, refresh_heartbeat,
    with_connection, with_connection_with_busy_timeout, fenced_tx, transaction_immediate. simpl.
  split_and!; intros; by rewrite Hreq.
Qed.
End finishing.

(** ** Back-off *)

(** The back-off of the [n]th retry is the base delay doubled [n - 1] times,
    at most 30 times, and never more than the configured maximum; later retries
    never wait less. *)
Theorem backoff_exponential c n m :
  0 <= base_delay_ms c → max_delay_ms c <= i64_max → 1 <= n <= m →
  compute_backoff_ms c n = Z.min (base_delay_ms c * 2 ^ Z.min (n - 1) 30) (max_delay_ms c) ∧
  compute_backoff_ms c n <= compute_backoff_ms c m <= max_delay_ms c.
Proof.
  intros Hb Hm Hn.
  assert (Heq : ∀ k, 1 <= k → compute_backoff_ms c k =
    Z.min (base_delay_ms c * 2 ^ Z.min (k - 1) 30) (max_delay_ms c)).
  { intros k Hk. unfold compute_backoff_ms. rewrite Z.max_l by lia.
    rewrite Z.shiftl_mul_pow2, Z.mul_1_l by lia.
    assert (0 <= 2 ^ Z.min (k - 1) 30) by (apply Z.pow_nonneg; lia).
    assert (0 <= base_delay_ms c * 2 ^ Z.min (k - 1) 30) by nia.
    unfold_widths; lia. }
  rewrite !Heq by lia.
  assert (2 ^ Z.min (n - 1) 30 <= 2 ^ Z.min (m - 1) 30) by (apply Z.pow_le_mono_r; lia).
  assert (base_delay_ms c * 2 ^ Z.min (n - 1) 30 <= base_delay_ms c * 2 ^ Z.min (m - 1) 30) by nia.
  lia.
Qed.

(** ** Idempotent enqueue *)
Section idempotent.
Context `{QueueEnv, TableScan}.
Implicit Types (s : store) (db : qdb).

Lemma identity_exists_known db id : queue_message_identity_exists id db = true ↔ known db id.
Proof.
  unfold queue_message_identity_exists, known. by rewrite orb_true_iff, !bool_decide_eq_true.
Qed.

Lemma insert_once_known id row db : known db id → insert_message_once id row db = db.
Proof.
  unfold known, insert_message_once. intros [[r Hr]|[c Hc]].
  - rewrite Hr. by destruct (q_completions db !! id).
  - by rewrite Hc.
Qed.

Lemma insert_once_makes_known id row db : known (insert_message_once id row db) id.
Proof.
  unfold known, insert_message_once.
  destruct (q_completions db !! id) eqn:Hc; [right; rewrite Hc; by eexists|].
  destruct (q_pending db !! id) eqn:Hp; [left; rewrite Hp; by eexists|].
  left. simpl. rewrite lookup_insert_eq. by eexists.
Qed.

(** Once the identity is known, an enqueue by content changes nothing. *)
Lemma enqueue_known s kind payload t ide db :
  let id := idempotent_source_message_id (hash_source kind payload) in
  known db id →
  enqueue_idempotent s queue_io_ok kind payload t ide (fun db => db) db = (db, Ok id).
Proof.
  intros id Hk. unfold enqueue_idempotent, enqueue_with_busy_timeout. cbv zeta. simpl. fold id.
  case_bool_decide.
  - unfold enqueue_ingest_with_byte_budget, with_connection_with_busy_timeout. simpl.
    apply transaction_ok. by rewrite (proj2 (identity_exists_known db id) Hk).
  - unfold with_connection_with_busy_timeout, autocommit. simpl. by rewrite insert_once_known.
Qed.

Lemma enqueue_makes_known s io kind payload t ide db db' i :
  enqueue_idempotent s io kind payload t ide (fun db => db) db = (db', Ok i) →
  i = idempotent_source_message_id (hash_source kind payload) ∧ known db' i.
Proof.
  set (id := idempotent_source_message_id (hash_source kind payload)).
  unfold enqueue_idempotent, enqueue_with_busy_timeout. cbv zeta. simpl. fold id. case_bool_decide.
  - intros [[_ [e [=]]]|Hb]%with_connection_cases.
    apply transaction_cases in Hb as [[_ [e [=]]]|Hb]. simpl in Hb.
    destruct (queue_message_identity_exists id db) eqn:Hk; simpl in Hb.
    { injection Hb as <- <-. split; [done|]. by apply identity_exists_known. }
    destruct (over_budget _ _ _); [done|]. unfold insert_message in Hb.
    destruct (q_pending db !! id); [done|]. injection Hb as <- <-. split; [done|]. left. simpl.
    rewrite lookup_insert_eq. by eexists.
  - intros [[_ [e [=]]]|Hb]%with_connection_cases. simpl in Hb.
    apply autocommit_cases in Hb as [[_ [e [=]]]|[Hb _]]. injection Hb as <- <-.
    split; [done|]. apply insert_once_makes_known.
Qed.

(** Enqueueing the same content again is harmless: after one success, in any
    later state of any run, whether the message waits, is claimed, has failed,
    was archived or is done, the call returns the same identifier and changes
    nothing. *)
Theorem enqueue_idempotent_once p s io kind payload t ide db0 db1 i db2 s' t' ide' :
  enqueue_idempotent s io kind payload t ide (fun db => db) db0 = (db1, Ok i) →
  rtc (queue_step p) db1 db2 →
  enqueue_idempotent s' queue_io_ok kind payload t' ide' (fun db => db) db2 = (db2, Ok i).
Proof.
  intros H1 Hs. apply enqueue_makes_known in H1 as [-> Hk].
  apply enqueue_known. eapply evolves_known; [|exact Hk]. by eapply queue_steps_run.
Qed.
End idempotent.

(** ** Reclaiming is exact *)

(** [reclaim_stale] returns to the queue exactly the claimed messages whose
    heartbeat is older than the window, each with its attempts and schedule
    unchanged, reports how many, and touches no other row. *)
Theorem reclaim_exact stale_secs now db :
  ∃ db', reclaim_stale queue_io_ok stale_secs now db =
    (db', Ok (Z.of_nat (size (filter (fun e => is_stale (saturating_cutoff now stale_secs) e.2 = true)
                               (q_pending db))))) ∧
  q_completions db' = q_completions db ∧
  ∀ id, match q_pending db !! id with
        | None => q_pending db' !! id = None
        | Some row =>
            if is_stale (saturating_cutoff now stale_secs) row
            then ∃ row', q_pending db' !! id = Some row' ∧ m_status row' = StPending ∧
                   m_claim_token row' = None ∧ same_message row row' ∧
                   m_retry_count row' = m_retry_count row ∧
                   m_next_attempt_at row' = m_next_attempt_at row
            else q_pending db' !! id = Some row
        end.
Proof.
  eexists. split; [reflexivity|]. split; [done|]. intros id. simpl. rewrite lookup_fmap.
  destruct (q_pending db !! id) as [row|]; [|done]. simpl.
  destruct (is_stale _ row); [|done]. eexists. split; [done|]. done.
Qed.

(** ** Instances *)

Definition msg1 : string := next_id "msg" (wid 1).

Definition row_of (db : qdb) (id : string) : msg_row :=
  default (new_row "" "" "" 0) (q_pending db !! id).

Lemma claim_takes_least_witness :
  claims_least (hook_elig 110) (reclaim_stale_tx 50 run0).1 run1 (claim_token_of "w1" (wid 2)) 110
    (the_claim claim1).
Proof.
  pose proof (proj1 (claim_takes_least wstore (wclaim_env 110 2) "w1" 60 "hook_event" true run0 run1
                       (the_claim claim1))) as H.
  exact (H ltac:(vm_compute; reflexivity)).
Defined.

Lemma live_claim_kept_witness :
  q_pending (claim_next_once (wclaim_env 170 3) "w2" 60 run1).1 !! msg1 = Some (row_of run1 msg1).
Proof.
  pose proof (live_claim_kept wstore (wclaim_env 170 3) "w2" 60 "hook_event" true run1 msg1
                (row_of run1 msg1) 110) as H.
  exact (proj1 (H ltac:(vm_compute; reflexivity) ltac:(vm_compute; reflexivity)
                  ltac:(vm_compute; discriminate) ltac:(vm_compute; reflexivity)
                  ltac:(vm_compute; reflexivity) ltac:(vm_compute; reflexivity)
                  ltac:(vm_compute; reflexivity))).
Defined.

Lemma run0_wf : queue_wf run0.
Proof. apply (evolves_wf (msg_ids id_env_ok) (claim_tokens id_env_ok) empty_qdb); [apply empty_queue_wf|].
  apply (queue_step_run (any_store id_env_ok)), step0. Qed.

Lemma due_message_claimed_witness :
  ∃ db' c, claim_next_once (wclaim_env 110 2) "w1" 60 run0 = (db', Ok (Some c)).
Proof.
  pose proof (due_message_claimed (wclaim_env 110 2) "w1" 60 run0 msg1 (row_of run0 msg1)) as H.
  exact (H eq_refl ltac:(vm_compute; discriminate) run0_wf ltac:(vm_compute; reflexivity)
           ltac:(vm_compute; reflexivity) ltac:(vm_compute; reflexivity)).
Defined.

Definition wcompletion : PendingOperationCompletion :=
  Build_PendingOperationCompletion "completed" (Some "drawer-1") None None None.

Lemma complete_operation_moves_witness :
  ∃ db', complete_operation wstore queue_io_ok (the_claim claim1) wcompletion 0 120000 run1 = (db', Ok tt) ∧
    q_pending db' = delete (cm_id (the_claim claim1)) (q_pending run1).
Proof.
  pose proof (complete_operation_moves wstore (the_claim claim1) wcompletion 0 120000 run1
                (row_of run1 msg1)) as H.
  destruct (H I ltac:(vm_compute; reflexivity) ltac:(vm_compute; reflexivity)
              ltac:(vm_compute; reflexivity)) as (db' & H1 & H2 & _).
  exists db'. split; [exact H1|exact H2].
Defined.

Lemma retry_schedule_witness :
  ∃ db' row', mark_failed wstore queue_io_ok (the_claim claim1) "timeout" 0 120 run1 = (db', Ok tt) ∧
    q_pending db' = <[cm_id (the_claim claim1) := row']> (q_pending run1) ∧
    is_due 124 row' = false ∧ is_due 126 row' = true.
Proof.
  pose proof (retry_schedule wstore (the_claim claim1) "timeout" 0 120 run1 (row_of run1 msg1)) as H.
  destruct (H I ltac:(vm_compute; reflexivity) ltac:(vm_compute; reflexivity)
              ltac:(vm_compute; split; [discriminate|reflexivity]) ltac:(lia) ltac:(lia)
              ltac:(vm_compute; split; [discriminate|reflexivity]))
    as (db' & row' & H1 & H2 & _ & _ & _ & _ & H3 & H4).
  exists db', row'. split_and!; [exact H1|exact H2|apply H3|apply H4]; vm_compute;
    reflexivity || discriminate.
Defined.

Definition wlease : RuntimeWriterLease :=
  Build_RuntimeWriterLease "sqlite-writer" "old" 1 10 None "session" "" "" "" "daemon" None 0.

Lemma lifecycle_fence_witness :
  confirm (with_lifecycle_writer_lease wstore wlease) queue_io_ok (the_claim claim1) 0 0 run1 =
  (run1, Err (RuntimeWriterLeaseLost "sqlite-writer" "old" 1 "confirm queued message")).
Proof.
  pose proof (lifecycle_fence (with_lifecycle_writer_lease wstore wlease) wlease 0 run1) as H.
  exact (proj1 (H eq_refl ltac:(vm_compute; reflexivity) (the_claim claim1) 0)).
Defined.

Lemma backoff_exponential_witness :
  compute_backoff_ms default_queue_config 3 =
  Z.min (base_delay_ms default_queue_config * 2 ^ Z.min (3 - 1) 30) (max_delay_ms default_queue_config).
Proof.
  pose proof (backoff_exponential default_queue_config 3 40) as H.
  exact (proj1 (H ltac:(vm_compute; discriminate) ltac:(vm_compute; discriminate) ltac:(lia))).
Defined.

Definition dedup_once : qdb :=
  (enqueue_idempotent wstore queue_io_ok "ingest_async" "{}" 100 (wid 5) (fun db => db) empty_qdb).1.

Lemma enqueue_idempotent_once_witness :
  enqueue_idempotent wstore queue_io_ok "ingest_async" "{}" 200 (wid 6) (fun db => db) dedup_once =
  (dedup_once, Ok (idempotent_source_message_id (hash_source "ingest_async" "{}"))).
Proof.
  pose proof (enqueue_idempotent_once (any_store id_env_ok) wstore queue_io_ok "ingest_async" "{}" 100 (wid 5)
    empty_qdb dedup_once (idempotent_source_message_id (hash_source "ingest_async" "{}"))
    dedup_once wstore 200 (wid 6)) as H.
  exact (H ltac:(vm_compute; reflexivity) (rtc_refl _ _)).
Defined.

(** The check for a conflicting explicit key and the insertion are two statements:
    when another producer commits the same key with other content between them,
    the call reports success for content that was never stored, where the same
    call one moment later reports the conflict. *)
Lemma key_conflict_missed :
  let first := enqueue_idempotent_with_key wstore queue_io_ok "hook_event" "first" "k" 100 (wid 1)
                 (fun db => db) in
  let second other := enqueue_idempotent_with_key wstore queue_io_ok "hook_event" "second" "k" 100
                        (wid 2) other in
  (∃ id row, (second (fun db => (first db).1) empty_qdb).2 = Ok id
     ∧ q_pending (second (fun db => (first db).1) empty_qdb).1 !! id = Some row
     ∧ m_payload row = "first")
  ∧ (second (fun db => db) (first empty_qdb).1).2 = Err IdempotencyConflict.
Proof.
  split; [|vm_compute; reflexivity].
  eexists _, _. split; [vm_compute; reflexivity|]. split; [vm_compute; reflexivity|reflexivity].
Qed.
