(* ===== verification/QueueBudget.v ===== *)
(** * The byte budget of asynchronous ingest

    Admission keeps the payload bytes of pending and claimed [ingest_async] rows
    below the configured limit, and the one operation that does not check it. *)

From Stdlib Require Import ZArith Lia String Ascii.
From stdpp Require Import base tactics list gmap strings numbers relations sorting.
From S2P Require Import Prelude Text Order Rfc3339 ProcessIdentity Sqlite.
From S2P Require Import WriterLease QueueTypes QueueFailures QueueStore QueueAdmin.
From S2P Require Import QueueLifecycle QueueSystem QueueSafety.
Open Scope Z_scope.

(** ** Sums over the table *)

Definition active_ingest (row : msg_row) : bool :=
  bool_decide (m_kind row = INGEST_ASYNC_KIND) && is_active row.

Definition ingest_weight (row : msg_row) : Z := if active_ingest row then str_len (m_payload row) else 0.

Definition ingest_sum (m : gmap string msg_row) : Z := sum_payload_bytes active_ingest m.

Lemma str_len_nonneg s : 0 <= str_len s.
Proof. unfold str_len. lia. Qed.

Lemma ingest_weight_nonneg row : 0 <= ingest_weight row.
Proof. unfold ingest_weight. case_match; [apply str_len_nonneg|done]. Qed.

Lemma ingest_sum_empty : ingest_sum ∅ = 0.
Proof. apply map_fold_empty. Qed.

Lemma ingest_sum_insert m id row :
  m !! id = None → ingest_sum (<[id := row]> m) = ingest_weight row + ingest_sum m.
Proof. intros Hn. unfold ingest_sum, sum_payload_bytes. rewrite map_fold_insert_L; [done| |done]. intros; lia. Qed.

Lemma ingest_sum_split m id row :
  m !! id = Some row → ingest_sum m = ingest_weight row + ingest_sum (delete id m).
Proof.
  intros Hr. rewrite <- (insert_delete_id m id row Hr) at 1.
  apply ingest_sum_insert. apply lookup_delete_eq.
Qed.

Lemma ingest_sum_update m id row row' :
  m !! id = Some row →
  ingest_sum (<[id := row']> m) = ingest_sum m - ingest_weight row + ingest_weight row'.
Proof.
  intros Hr. rewrite <- insert_delete_eq, ingest_sum_insert by apply lookup_delete_eq.
  rewrite (ingest_sum_split m id row Hr). lia.
Qed.

Lemma ingest_sum_nonneg m : 0 <= ingest_sum m.
Proof.
  induction m as [|id row m Hn IH] using map_ind; [by rewrite ingest_sum_empty|].
  rewrite ingest_sum_insert by done. pose proof (ingest_weight_nonneg row). lia.
Qed.

Lemma ingest_sum_fmap f m :
  (∀ row, ingest_weight (f row) <= ingest_weight row) → ingest_sum (f <$> m) <= ingest_sum m.
Proof.
  intros Hf. induction m as [|id row m Hn IH] using map_ind.
  { by rewrite fmap_empty. }
  rewrite fmap_insert, !ingest_sum_insert by (rewrite ?lookup_fmap, ?Hn; done).
  specialize (Hf row). lia.
Qed.

Lemma ingest_sum_delete m id : ingest_sum (delete id m) <= ingest_sum m.
Proof.
  destruct (m !! id) as [row|] eqn:Hr; [|by rewrite delete_id].
  rewrite (ingest_sum_split m id row Hr). pose proof (ingest_weight_nonneg row). lia.
Qed.

(** ** Rows that do not grow *)

Definition calm (f : msg_row → msg_row) (row : msg_row) : Prop :=
  ingest_weight (f row) <= ingest_weight row.

Lemma active_calm f row :
  m_kind (f row) = m_kind row → m_payload (f row) = m_payload row → is_active row = true →
  calm f row.
Proof.
  intros Hk Hp Ha. unfold calm, ingest_weight, active_ingest. rewrite Hk, Hp, Ha, andb_true_r.
  destruct (bool_decide _); simpl; [|done]. pose proof (str_len_nonneg (m_payload row)).
  case_match; lia.
Qed.

Lemma same_activity_calm f row :
  m_kind (f row) = m_kind row → m_payload (f row) = m_payload row →
  m_status (f row) = m_status row → calm f row.
Proof.
  intros Hk Hp Hs. unfold calm, ingest_weight, active_ingest, is_active, is_status.
  by rewrite Hk, Hp, Hs.
Qed.

Lemma inactive_calm f row : is_active (f row) = false → calm f row.
Proof.
  intros Ha. unfold calm, ingest_weight at 1, active_ingest. rewrite Ha, andb_false_r.
  apply ingest_weight_nonneg.
Qed.

Lemma claimed_active row : m_status row = StClaimed → is_active row = true.
Proof. intros Hs. unfold is_active, is_status. by rewrite Hs. Qed.
Lemma pending_active row : m_status row = StPending → is_active row = true.
Proof. intros Hs. unfold is_active, is_status. by rewrite Hs. Qed.

(** ** Invariants through the transaction combinators *)
Section invariant.
Context (P : qdb → Prop).

Lemma tx_inv {A} conn (body : qdb → qdb * tx_end A QueueError) db :
  P db → (∀ db' v, body db = (db', Commit v) → P db') → P (transaction_immediate conn body db).1.
Proof.
  intros Hp H. destruct (transaction_immediate conn body db) as [db' r] eqn:E. simpl.
  apply transaction_cases in E as [[-> _]|E]; [done|by eapply H].
Qed.

Lemma fenced_tx_inv {A} conn fence (body : qdb → qdb * tx_end A QueueError) db :
  P db → (∀ db' v, body db = (db', Commit v) → P db') → P (fenced_tx conn fence body db).1.
Proof. intros Hp H. apply tx_inv; [done|]. intros db' v. destruct (fence db); [apply H|done]. Qed.

Lemma conn_inv {A} io t (op : conn_io QueueError → qdb → qdb * result A QueueError) db :
  P db → P (op (io t) db).1 → P (with_connection_with_busy_timeout io t op db).1.
Proof.
  intros Hp H. unfold with_connection_with_busy_timeout. by destruct (c_open (io t)).
Qed.

Lemma autocommit_inv {A} conn (stmt : qdb → qdb * result A QueueError) db :
  P db → (∀ db' v, stmt db = (db', Ok v) → P db') → P (autocommit conn stmt db).1.
Proof.
  intros Hp H. destruct (autocommit conn stmt db) as [db' r] eqn:E. simpl.
  apply autocommit_cases in E as [[-> _]|[E Hok]]; [done|].
  destruct r as [v|e]; [by eapply H|done].
Qed.
End invariant.

Section budget.
Context (limit : Z) (limit_range : 0 <= limit <= i64_max).
Implicit Types (db : qdb).

(** The active ingest payloads fit the limit. *)
Definition within_budget db : Prop := ingest_sum (q_pending db) <= limit.

Lemma active_bytes_exact db :
  within_budget db → active_payload_bytes_for_kind INGEST_ASYNC_KIND db = ingest_sum (q_pending db).
Proof.
  intros Hb. unfold within_budget in Hb. unfold active_payload_bytes_for_kind.
  change (sum_payload_bytes _ (q_pending db)) with (ingest_sum (q_pending db)).
  pose proof (ingest_sum_nonneg (q_pending db)). unfold i64_to_u64.
  destruct (Z.leb_spec (ingest_sum (q_pending db)) 0); lia.
Qed.

Lemma update_row_budget db id cond f :
  (∀ row, cond row = true → calm f row) → within_budget db → within_budget (update_row id cond f db).1.
Proof.
  unfold within_budget, update_row. intros Hf Hb. destruct (q_pending db !! id) as [row|] eqn:Hr; [|done].
  destruct (cond row) eqn:Hc; [|done]. simpl. rewrite (ingest_sum_update _ _ row _ Hr).
  specialize (Hf row Hc). unfold calm in Hf. lia.
Qed.

Lemma update_rows_budget db cond f :
  (∀ row, cond row = true → calm f row) → within_budget db → within_budget (update_rows cond f db).1.
Proof.
  unfold within_budget, update_rows. intros Hf Hb. simpl. etrans; [|exact Hb].
  apply ingest_sum_fmap. intros row. destruct (cond row) eqn:Hc; [|done]. by apply Hf.
Qed.

Lemma reclaim_budget cutoff db : within_budget db → within_budget (reclaim_stale_tx cutoff db).1.
Proof.
  apply update_rows_budget. intros row [Hs%bool_decide_eq_true _]%andb_true_iff.
  apply active_calm; [done..|]. by apply claimed_active.
Qed.

Lemma claim_selected_budget worker now ide sel cond db db' v :
  (∀ row, cond row = true → m_status row = StPending) → within_budget db →
  claim_selected worker now ide sel cond db = (db', Commit v) → within_budget db'.
Proof.
  intros Hc Hb. unfold claim_selected. destruct sel as [[id row]|]; [|by intros [= <- _]].
  destruct (try_u32 _); [|done].
  pose proof (update_row_budget db id cond (claimed_row (claim_token_of worker ide) now)) as Hu.
  destruct (update_row _ _ _ _) as [db1 n]. simpl in Hu.
  destruct (n =? 0); intros [= <- _]; apply Hu; try done; intros r Hr;
    (apply active_calm; [done..|]; apply pending_active; by apply Hc).
Qed.

Lemma claim_body_budget worker now ide cutoff (sel : qdb → option (string * msg_row)) cond db db' v :
  (∀ row, cond row = true → m_status row = StPending) → within_budget db →
  (let '(db1, _) := reclaim_stale_tx cutoff db in
   claim_selected worker now ide (sel db1) cond db1) = (db', Commit v) → within_budget db'.
Proof.
  intros Hc Hb. pose proof (reclaim_budget cutoff db Hb) as Hr.
  destruct (reclaim_stale_tx cutoff db) as [db1 n]. by eapply claim_selected_budget.
Qed.

Lemma confirm_budget claim op_state t db db' v :
  within_budget db → confirm_in_tx claim op_state t db = (db', v) → within_budget db'.
Proof.
  unfold confirm_in_tx, within_budget. intros Hb.
  destruct (q_pending db !! cm_id claim); [|by intros [= <- _]].
  destruct (holds_claim _ _); [|by intros [= <- _]]. destruct (negb _); intros [= <- _]; [done|].
  simpl. etrans; [apply ingest_sum_delete|done].
Qed.

(** ** Admission *)

Lemma over_budget_false payload_bytes active_bytes :
  0 <= payload_bytes → over_budget payload_bytes active_bytes limit = false →
  active_bytes + payload_bytes <= limit.
Proof.
  unfold over_budget. intros Hp [H1 H2]%orb_false_iff. zbool. unfold_widths; lia.
Qed.

Lemma new_row_weight kind hash payload t :
  ingest_weight (new_row kind hash payload t) =
  if bool_decide (kind = INGEST_ASYNC_KIND) then str_len payload else 0.
Proof. unfold ingest_weight, active_ingest. simpl. by rewrite andb_true_r. Qed.

Lemma insert_budget id kind hash payload t db db' :
  (kind = INGEST_ASYNC_KIND → ingest_sum (q_pending db) + str_len payload <= limit) →
  within_budget db → insert_message id (new_row kind hash payload t) db = Ok db' → within_budget db'.
Proof.
  unfold insert_message, within_budget. intros Ha Hb.
  destruct (q_pending db !! id) eqn:Hp; [done|]. intros [= <-]. simpl.
  rewrite ingest_sum_insert, new_row_weight by done. case_bool_decide; [|done].
  specialize (Ha H). lia.
Qed.

Lemma insert_once_budget id kind hash payload t db :
  kind ≠ INGEST_ASYNC_KIND → within_budget db →
  within_budget (insert_message_once id (new_row kind hash payload t) db).
Proof.
  unfold insert_message_once, within_budget. intros Hk Hb.
  destruct (q_completions db !! id); [done|]. destruct (q_pending db !! id) eqn:Hp; [done|]. simpl.
  rewrite ingest_sum_insert, new_row_weight by done. by rewrite bool_decide_eq_false_2.
Qed.

(** ** Requeueing *)

Lemma requeue_weight now row :
  ingest_weight (requeued_row now row) <=
  if bool_decide (m_kind row = INGEST_ASYNC_KIND) then str_len (m_payload row) else 0.
Proof. unfold ingest_weight, active_ingest. simpl. by rewrite andb_true_r. Qed.

(** The kinds given to the loop are those of the rows. *)
Definition kinds_match (rows : list (string * string)) db : Prop :=
  Forall (fun e => ∀ row, q_pending db !! e.1 = Some row → m_kind row = e.2) rows.

Lemma requeue_loop_budget now rows active changed skipped db :
  kinds_match rows db → ingest_sum (q_pending db) <= active <= limit →
  within_budget (requeue_loop now limit rows active changed skipped db).1.
Proof.
  revert active changed skipped db. induction rows as [|[id kind] rows IH];
    intros active changed skipped db Hk Ha; cbn [requeue_loop]; [unfold within_budget; simpl; lia|].
  apply Forall_cons in Hk as [Hid Hk]. simpl in Hid.
  destruct (admitted_requeue_payload_bytes id kind active limit db) as [[n|]|] eqn:Had;
    [|by apply IH|unfold within_budget; simpl; lia].
  unfold requeue_failed_message, update_row.
  destruct (q_pending db !! id) as [row|] eqn:Hr; [|by apply IH].
  destruct (is_status StFailed row) eqn:Hf; [|by apply IH]. simpl.
  assert (Hn : 0 <= n ∧ active + n <= limit ∧ ingest_weight (requeued_row now row) <= n).
  { unfold admitted_requeue_payload_bytes in Had. rewrite Hr in Had.
    rewrite <- (Hid row eq_refl) in Had. pose proof (requeue_weight now row) as Hw.
    case_bool_decide; simpl in Had; [|injection Had as <-; lia].
    pose proof (str_len_nonneg (m_payload row)).
    destruct (Z.ltb_spec (sat_u64 (limit - active)) (i64_to_u64 (str_len (m_payload row)))); [done|].
    injection Had as <-. unfold i64_to_u64 in *.
    destruct (Z.leb_spec (str_len (m_payload row)) 0); unfold_widths; lia. }
  apply IH.
  - apply Forall_forall. intros [id' kind'] Hin row'. simpl. rewrite lookup_insert_Some.
    rewrite Forall_forall in Hk. specialize (Hk _ Hin). simpl in Hk.
    intros [[<- <-]|[_ Hr']]; [simpl; by apply Hk|by apply Hk].
  - cbn [q_pending set_pending]. rewrite (ingest_sum_update _ _ row _ Hr).
    pose proof (ingest_weight_nonneg row). unfold_widths; lia.
Qed.

Lemma candidates_match predicate db :
  kinds_match (retryable_model_candidates predicate db) db.
Proof.
  apply Forall_forall. intros [id kind] Hin row Hr. simpl.
  apply list_elem_of_fmap in Hin as ([id' row'] & [= -> ->] & Hin).
  apply elem_of_sort_by, list_elem_of_filter in Hin as [_ Hin%elem_of_map_to_list].
  simpl in *. congruence.
Qed.

Lemma requeue_tasks_budget now model_kind db :
  within_budget db → within_budget (requeue_failed_model_tasks now model_kind limit db).1.
Proof.
  intros Hb. unfold requeue_failed_model_tasks. rewrite active_bytes_exact by done.
  assert (Hl : ∀ pr, within_budget (requeue_loop now limit (retryable_model_candidates pr db)
    (ingest_sum (q_pending db)) 0 0 db).1).
  { intros pr. apply requeue_loop_budget; [apply candidates_match|]. unfold within_budget in Hb. lia. }
  repeat case_bool_decide; [..|done];
    match goal with |- context [requeue_loop _ _ (retryable_model_candidates ?pr db) _ _ _ _] =>
      specialize (Hl pr) end;
    destruct (requeue_loop _ _ _ _ _ _ _) as [db1 [[x y]|e]]; done.
Qed.

(** ** Every operation *)
Context `{QueueEnv, TableScan}.

Lemma enqueue_ingest_budget s io payload timeout identity t hash id db :
  max_ingest_active_bytes (st_config s) = limit → within_budget db →
  within_budget (enqueue_ingest_with_byte_budget s io payload timeout identity t hash id db).1.
Proof.
  intros Hs Hb. apply (conn_inv within_budget); [done|]. apply (tx_inv within_budget); [done|]. intros db' v. cbv beta zeta.
  destruct (_ && explicit_key_conflicts _ _ _ _); [done|].
  destruct (_ && queue_message_identity_exists _ _); [by intros [= <- _]|].
  rewrite active_bytes_exact, Hs by done.
  destruct (over_budget _ _ _) eqn:Ho; [by intros [= <- _]|].
  destruct (insert_message _ _ _) as [db1|] eqn:Hi; [|done]. intros [= <- _].
  eapply insert_budget; [|done|exact Hi]. intros _.
  apply over_budget_false in Ho; [lia|apply str_len_nonneg].
Qed.

Lemma enqueue_budget s io kind payload timeout identity t ide other db :
  max_ingest_active_bytes (st_config s) = limit → within_budget db → within_budget (other db) →
  within_budget (enqueue_with_busy_timeout s io kind payload timeout identity t ide other db).1.
Proof.
  intros Hs Hb Ho. unfold enqueue_with_busy_timeout. case_bool_decide; [by apply enqueue_ingest_budget|].
  apply (conn_inv within_budget); [done|]. destruct (_ && explicit_key_conflicts _ _ _ _); [done|].
  apply (autocommit_inv within_budget); [done|]. intros db' v.
  destruct identity; [|intros [= <- _]; by apply insert_once_budget..].
  destruct (insert_message _ _ _) as [db1|] eqn:Hi; [|done]. intros [= <- _].
  eapply insert_budget; [|exact Ho|exact Hi]. done.
Qed.

Lemma enqueue_fenced_budget s io lease kind payload operation t ide ms other db :
  max_ingest_active_bytes (st_config s) = limit → within_budget db → within_budget (other db) →
  within_budget (enqueue_fenced s io lease kind payload operation t ide ms other db).1.
Proof.
  intros Hs Hb Ho. destruct lease as [lease|]; [|by apply enqueue_budget]. simpl.
  apply (conn_inv within_budget); [done|]. apply (fenced_tx_inv within_budget); [done|]. intros db' v. cbv beta zeta.
  rewrite active_bytes_exact, Hs by done.
  destruct (bool_decide (kind = INGEST_ASYNC_KIND) && over_budget _ _ _) eqn:Hov; [by intros [= <- _]|].
  destruct (insert_message _ _ _) as [db1|] eqn:Hi; [|done]. intros [= <- _].
  eapply insert_budget; [|exact Hb|exact Hi]. intros ->. simpl in Hov.
  apply over_budget_false in Hov; [lia|apply str_len_nonneg].
Qed.

Lemma enqueue_key_budget s io lease kind payload key operation t ide ms other db :
  max_ingest_active_bytes (st_config s) = limit → within_budget db → within_budget (other db) →
  lease = None ∨ kind ≠ INGEST_ASYNC_KIND →
  within_budget (enqueue_idempotent_with_key_fail_fast_fenced s io lease kind payload key operation
                   t ide ms other db).1.
Proof.
  intros Hs Hb Ho Hk. destruct lease as [lease|]; [|by apply enqueue_budget]. simpl.
  apply (conn_inv within_budget); [done|]. apply (fenced_tx_inv within_budget); [done|]. intros db' v. cbv beta zeta.
  destruct (explicit_key_conflicts _ _ _ _); [done|]. intros [= <- _].
  apply insert_once_budget; [|done]. by destruct Hk.
Qed.

Lemma update_tx_budget id cond f err db db' v :
  (∀ row, cond row = true → calm f row) → within_budget db →
  (let '(db1, updated) := update_row id cond f db in
   if updated =? 0 then (db, Rollback err) else (db1, Commit (@Ok unit QueueError tt)))
  = (db', Commit v) → within_budget db'.
Proof.
  intros Hf Hb. pose proof (update_row_budget db id cond f Hf Hb) as Hu.
  destruct (update_row id cond f db) as [db1 k]. destruct (k =? 0); [done|]. by intros [= <- _].
Qed.

Lemma holds_claim_calm token f row :
  holds_claim token row = true → m_kind (f row) = m_kind row → m_payload (f row) = m_payload row →
  calm f row.
Proof. intros Hh%holds_claim_status Hk Hp. apply active_calm; [done..|]. by apply claimed_active. Qed.

Lemma mark_failed_budget s io claim error disposition ms t db :
  within_budget db → within_budget (mark_failed_with_disposition s io claim error disposition ms t db).1.
Proof.
  intros Hb. apply (conn_inv within_budget); [done|]. apply (fenced_tx_inv within_budget); [done|]. intros db' v. cbv beta zeta.
  destruct (q_pending db !! cm_id claim) as [row|]; [|done]. destruct (holds_claim _ row); [|done].
  destruct (try_u32 _); [|done].
  match goal with |- context [update_row ?i ?c ?f db] =>
    pose proof (update_row_budget db i c f) as Hu; destruct (update_row i c f db) as [db1 k] end.
  destruct (k =? 0); [done|]. intros [= <- _]. apply Hu; [|done]. intros r Hr.
  by eapply holds_claim_calm.
Qed.

Lemma complete_budget s io claim completion timeout ms t db :
  within_budget db →
  within_budget (complete_operation_with_busy_timeout s io claim completion timeout ms t db).1.
Proof.
  intros Hb. apply (conn_inv within_budget); [done|]. apply (fenced_tx_inv within_budget); [done|]. intros db' v.
  pose proof (update_row_budget db (cm_id claim) (holds_claim (cm_claim_token claim))
                (with_result completion)) as Hu.
  destruct (update_row _ _ _ _) as [db1 n]. destruct (n =? 0); [done|]. destruct (negb _); [done|].
  intros (a & _ & Hc)%commit_ok_Commit. eapply confirm_budget; [|exact Hc]. apply Hu; [|done].
  intros r Hr. by eapply holds_claim_calm.
Qed.

Lemma archive_loop_budget t rows n db : within_budget db → within_budget (archive_loop t rows n db).1.
Proof.
  revert n db. induction rows as [|r rows IH]; intros n db Hb; cbn [archive_loop]; [done|].
  destruct (archive_row _ _ _ db) as [db1 k] eqn:E. apply IH.
  unfold archive_row in E. destruct (q_pending db !! fr_id r); [destruct (is_status _ _)|];
    injection E as <- _; try done. unfold within_budget in *. simpl.
  etrans; [apply ingest_sum_delete|done].
Qed.

Lemma matching_rows_match cols f db rows :
  matching_failed_rows cols f db = Ok rows → kinds_match (map (fun r => (fr_id r, fr_kind r)) rows) db.
Proof.
  intros Hrows. apply Forall_forall. intros e Hin row Hr.
  apply list_elem_of_fmap in Hin as (r & -> & Hin).
  destruct (matching_failed_rows_in _ _ _ _ _ Hrows Hin) as (_ & row' & Hr' & _ & Hk).
  simpl in *. congruence.
Qed.

Lemma claim_next_budget e worker ttl db :
  within_budget db → within_budget (ce_other e db) →
  within_budget (claim_next_once e worker ttl db).1.
Proof.
  intros Hb Ho. unfold claim_next_once, with_claim_connection. destruct (c_open _); [done|].
  destruct (negb _); [done|]. apply (tx_inv within_budget); [done|]. intros db' v Hc.
  eapply claim_body_budget in Hc; eauto using pending_cond.
Qed.

Lemma claim_kind_budget s e worker ttl kind approved db :
  within_budget db → within_budget (ce_other_probe e db) →
  within_budget (ce_other e (ce_other_probe e db)) →
  within_budget (claim_next_by_kind_once s e worker ttl kind approved db).1.
Proof.
  intros Hb Ho1 Ho2. unfold claim_next_by_kind_once. destruct (ce_reader e); [done|].
  destruct (require_lifecycle_writer_lease _ _ _ _); [|done].
  destruct (negb _); [done|]. destruct (negb approved); [done|].
  unfold with_claim_connection. destruct (c_open _); [done|].
  destruct (require_lifecycle_writer_lease _ _ _ _); [|done].
  destruct (negb _); [done|]. apply (fenced_tx_inv within_budget); [done|]. intros db' v Hc.
  eapply claim_body_budget in Hc; eauto using pending_cond.
Qed.

Lemma claim_id_budget s e worker ttl id kind db :
  within_budget db → within_budget (ce_other e db) →
  within_budget (claim_by_id_and_kind_once s e worker ttl id kind db).1.
Proof.
  intros Hb Ho. unfold claim_by_id_and_kind_once, with_claim_connection. destruct (c_open _); [done|].
  destruct (require_lifecycle_writer_lease _ _ _ _); [|done].
  destruct (negb _); [done|]. apply (fenced_tx_inv within_budget); [done|]. intros db' v Hc.
  eapply (claim_body_budget _ _ _ _ (fun db1 => match q_pending db1 !! id with
    | Some row => if is_due (ce_tx_now e) row && kind_is kind row then Some (id, row) else None
    | None => None end)) in Hc; [done| |done].
  intros r Hr. apply andb_true_iff in Hr as [Hr _]. by apply pending_cond.
Qed.

Lemma requeue_ops_budget s io t db :
  max_ingest_active_bytes (st_config s) = limit → within_budget db →
  (∀ kind ms, within_budget (auto_requeue_failed_model_tasks s io kind t ms db).1) ∧
  within_budget (retry_failed_embed_messages s io t db).1 ∧
  (∀ cols f, within_budget (retry_failed_messages s io cols f t db).1).
Proof.
  intros Hs Hb. split_and!.
  - intros kind ms. apply (conn_inv within_budget); [done|]. apply (tx_inv within_budget); [done|].
    intros db' v. rewrite Hs. pose proof (requeue_tasks_budget t kind db Hb) as Hr.
    destruct (requeue_failed_model_tasks _ _ _ _) as [db1 [o|err]]; [|done].
    intros [= <- _]. by destruct (0 <? _).
  - apply (conn_inv within_budget); [done|]. apply (tx_inv within_budget); [done|].
    intros db' v (a & _ & Hc)%commit_ok_Commit. unfold retry_failed_embed_messages_on_connection in Hc.
    rewrite Hs in Hc. pose proof (requeue_tasks_budget t "embedding" db Hb) as Hr.
    destruct (requeue_failed_model_tasks _ _ _ _) as [db1 [o|err]]; [|done]. by injection Hc as <- _.
  - intros cols f. apply (conn_inv within_budget); [done|]. apply (tx_inv within_budget); [done|].
    intros db' v (a & _ & Hc)%commit_ok_Commit. unfold retry_failed_messages_on_connection in Hc.
    destruct (ensure_explicit_filter f); [|done].
    destruct (matching_failed_rows cols f db) as [rows|] eqn:Hrows; [|done].
    rewrite Hs, active_bytes_exact in Hc by done.
    pose proof (requeue_loop_budget t _ (ingest_sum (q_pending db)) 0 0 db
                  (matching_rows_match _ _ _ _ Hrows)) as Hl.
    destruct (requeue_loop _ _ _ _ _ _ _) as [db1 [[x y]|err]]; [|done]. injection Hc as <- _.
    apply Hl. unfold within_budget in Hb. lia.
Qed.

Lemma recovery_budget io t db :
  within_budget db →
  (∀ secs, within_budget (reclaim_stale io secs t db).1) ∧
  (∀ id error, within_budget (mark_model_task_failed_retryable io id error t db).1) ∧
  (∀ owner, within_budget (requeue_writer_lease_failures_for_daemon_start io owner t db).1) ∧
  (∀ cols f, within_budget (archive_failed_messages io cols f t db).1) ∧
  within_budget (record_oversize_rejection_fail_fast io db).1.
Proof.
  intros Hb. split_and!; intros; (apply (conn_inv within_budget); [done|]).
  - apply (autocommit_inv within_budget); [done|]. intros db' v.
    pose proof (reclaim_budget (saturating_cutoff t secs) db Hb) as Hr.
    unfold reclaim_stale_conn. unfold reclaim_stale_tx in Hr.
    destruct (update_rows _ _ _). by intros [= <- _].
  - apply (autocommit_inv within_budget); [done|]. intros db' v.
    match goal with |- context [update_row ?i ?c ?f db] =>
      pose proof (update_row_budget db i c f) as Hu; destruct (update_row i c f db) as [db1 k] end.
    destruct (k =? 0); [done|]. intros [= <- _]. apply Hu; [|done]. intros r _. by apply inactive_calm.
  - apply (autocommit_inv within_budget); [done|]. intros db' v.
    match goal with |- context [update_rows ?c ?f db] =>
      pose proof (update_rows_budget db c f) as Hu; destruct (update_rows c f db) as [db1 k] end.
    intros [= <- _]. apply Hu; [|done]. intros r _. by apply same_activity_calm.
  - apply (tx_inv within_budget); [done|]. intros db' v (a & _ & Hc)%commit_ok_Commit.
    unfold archive_failed_messages_on_connection in Hc.
    destruct (match ensure_explicit_filter f with Ok _ => _ | Err _ => _ end) as [rows|]; [|done].
    pose proof (archive_loop_budget t rows 0 db Hb) as Hl.
    destruct (archive_loop t rows 0 db) as [db1 n]. by injection Hc as <- _.
  - apply (autocommit_inv within_budget); [done|]. by intros db' v [= <- _].
Qed.

Lemma finishing_budget s io claim ms db :
  within_budget db →
  (∀ t, within_budget (confirm s io claim ms t db).1) ∧
  within_budget (release_claim_with_busy_timeout s io claim ms db).1 ∧
  (∀ id worker t, within_budget (refresh_heartbeat s io id worker t ms db).1).
Proof.
  intros Hb. split_and!; intros; (apply (conn_inv within_budget); [done|]);
    (apply (fenced_tx_inv within_budget); [done|]); intros db' v.
  - intros (a & _ & Hc)%commit_ok_Commit. by eapply confirm_budget.
  - apply update_tx_budget; [|done]. intros r Hr. by eapply holds_claim_calm.
  - apply update_tx_budget; [|done]. intros r _. by apply same_activity_calm.
Qed.

(** The stores of the run use this limit, ingest is not enqueued by key under a
    lease, and the other connections keep the budget too. *)
Definition budgeted (p : run_params) : Prop :=
  (∀ s, store_ok p s → max_ingest_active_bytes (st_config s) = limit) ∧
  (∀ lease kind, key_fence_ok p lease kind → lease = None ∨ kind ≠ INGEST_ASYNC_KIND) ∧
  (∀ db db', rely p db db' → within_budget db → within_budget db').

Lemma queue_step_budget p db db' :
  budgeted p → within_budget db → queue_step p db db' → within_budget db'.
Proof.
  intros (Hs & Hk & Hr) Hb Hstep.
  assert (Ho : ∀ x y, others p x y → within_budget x → within_budget y)
    by (intros x y [_ Hxy]; by apply Hr).
  destruct Hstep; eauto using enqueue_budget, enqueue_fenced_budget, enqueue_key_budget,
    claim_next_budget, claim_kind_budget, claim_id_budget, complete_budget, mark_failed_budget;
    try (by apply recovery_budget); try (by apply finishing_budget);
    by apply requeue_ops_budget; [apply Hs|].
Qed.
End budget.

(** ** Properties *)

(** C7: admission control. Whatever the sequence of operations, the payload bytes
    of pending and claimed asynchronous ingests never exceed the configured
    limit: each enqueue, requeue and retry checks it in its own transaction. The
    one exception is an explicit-key enqueue under a runtime lease. *)
Theorem ingest_budget_invariant `{QueueEnv, TableScan} limit p db db' :
  0 <= limit <= i64_max → budgeted limit p →
  within_budget limit db → rtc (queue_step p) db db' → within_budget limit db'.
Proof.
  intros Hl Hp Hb Hr. induction Hr as [|db1 db2 db3 Hs _ IH]; [done|].
  apply IH. by eapply queue_step_budget.
Qed.

Definition small_store : store :=
  Store {| base_delay_ms := 5000; max_delay_ms := 3600000; max_ingest_active_bytes := 8;
           max_retries := 10 |} None.

Definition small_params : run_params :=
  Params id_env_ok (fun s => s = small_store) (fun lease _ => lease = None) eq.

Definition small_one : qdb :=
  (enqueue small_store queue_io_ok "ingest_async" "12345" 100 (wid 1) (fun db => db) empty_qdb).1.

Lemma ingest_budget_invariant_witness :
  within_budget 8
    (enqueue small_store queue_io_ok "ingest_async" "6789" 101 (wid 2) (fun db => db) small_one).1.
Proof.
  apply (ingest_budget_invariant 8 small_params small_one).
  - vm_compute. split; discriminate.
  - split_and!.
    + by intros s ->.
    + by left.
    + by intros db db' <-.
  - vm_compute. discriminate.
  - apply rtc_once, q_enqueue; [done|by apply wid_ok|]. split; [apply evolves_refl|done].
Defined.

(** The lease under which the exception below runs. *)
Definition live_lease_db : lease_db :=
  LeaseDb {[ "sqlite-writer" :=
    LeaseRow "mempal-daemon-7" 1 7 None "session" "" "9999-01-01T00:00:00Z" "" "daemon" None ]}
    {[ "sqlite-writer" := 1 ]}.

Definition daemon_lease : RuntimeWriterLease :=
  Build_RuntimeWriterLease "sqlite-writer" "mempal-daemon-7" 1 7 None "session" "" "" "" "daemon"
    None 0.

(** The exception is real: a fenced enqueue by key stores a payload larger than
    the whole budget, which the unfenced one refuses. *)
Lemma key_fenced_enqueue_ignores_budget :
  let db := Qdb ∅ ∅ ∅ live_lease_db in
  let payload := "123456789" in
  (∃ db' id, enqueue_idempotent_with_key_fail_fast_fenced small_store queue_io_ok (Some daemon_lease)
       "ingest_async" payload "key" "drain spool" 100 (wid 1) 0 (fun db => db) db = (db', Ok id) ∧
     ¬ within_budget 8 db') ∧
  (enqueue_idempotent_with_key_fail_fast small_store queue_io_ok "ingest_async" payload "key" 100
     (wid 1) (fun db => db) db).2 = Err (IngestByteBudgetExceeded 9 0 8).
Proof.
  split; [|vm_compute; reflexivity]. eexists _, _. split; [vm_compute; reflexivity|].
  vm_compute. intros H. by apply H.
Qed.
