(* ===== verification/SqliteRetry.v ===== *)
(** * Bounded retries of lock errors

    The retry loops of [src/src/core/sqlite_retry.rs] and of
    [src/src/core/queue.rs] ([with_claim_lock_retry_deadline],
    [open_connection_with_admission_retry]) over a monotonic clock. The loops take
    fuel; the theorems give the number of attempts after which they have always
    returned. *)

From Stdlib Require Import ZArith Lia String Ascii.
From stdpp Require Import base tactics list gmap strings numbers.
From S2P Require Import Prelude Text Sqlite WriterLease QueueTypes.
Open Scope Z_scope.

(** ** The clock

    [Instant::now] and [thread::sleep] on a world [W]; [time] is the reading of an
    ideal monotonic clock in nanoseconds, which only the laws mention. *)
Class Clock (W : Type) := {
  instant_now : W → W * Z;
  sleep : Z → W → W;
  time : W → Z;
}.

Class ClockLaws (W : Type) `{Clock W} : Prop := {
  instant_now_between : ∀ w, time w <= (instant_now w).2 <= time (instant_now w).1;
  sleep_long_enough : ∀ d w, time w + Z.max d 0 <= time (sleep d w);
}.

(** An operation takes time but does not turn the clock back. *)
Definition forward {W A : Type} `{Clock W} (op : W → W * A) : Prop :=
  ∀ w, time w <= time (op w).1.

Definition MILLIS : Z := 1000000.
Definition from_millis (n : Z) : Z := n * MILLIS.

(** ** Content mutations *)

Definition CONTENT_MUTATION_SQLITE_LOCK_RETRY_DEADLINE : Z := 10000 * MILLIS.
Definition CONTENT_MUTATION_SQLITE_LOCK_INITIAL_DELAY_MS : Z := 25.
Definition CONTENT_MUTATION_SQLITE_LOCK_MAX_DELAY_MS : Z := 500.

Definition content_mutation_sqlite_lock_retry_deadline_error : sqlite_error :=
  SqliteFailure DatabaseBusy SQLITE_BUSY
    (Some "database is locked: content mutation retry deadline exceeded").

Definition content_mutation_sqlite_lock_retry_delay (attempt : Z) : Z :=
  let multiplier := Z.shiftl 1 (Z.min attempt 4) in
  from_millis (Z.min (sat_u64 (CONTENT_MUTATION_SQLITE_LOCK_INITIAL_DELAY_MS * multiplier))
                 CONTENT_MUTATION_SQLITE_LOCK_MAX_DELAY_MS).

Section retry.
Context {W T E : Type} `{Clock W}.
Context (operation : W → W * result T E) (is_transient_lock : E → bool).

Section content.
Context (from_sqlite : sqlite_error → E) (retry_deadline : Z).

Definition take_last_transient_error_or_deadline_error (last : option E) : E :=
  match last with
  | Some e => e
  | None => from_sqlite content_mutation_sqlite_lock_retry_deadline_error
  end.

Fixpoint content_retry_loop (fuel : nat) (attempt : Z) (last : option E) (w : W)
    : option (W * result T E) :=
  match fuel with
  | O => None
  | S fuel' =>
      let '(w, now) := instant_now w in
      if retry_deadline <=? now then
        Some (w, Err (take_last_transient_error_or_deadline_error last))
      else
        match operation w with
        | (w, Ok value) => Some (w, Ok value)
        | (w, Err error) =>
            if is_transient_lock error then
              let '(w, now) := instant_now w in
              let remaining := Z.max 0 (retry_deadline - now) in
              if remaining =? 0 then
                Some (w, Err (take_last_transient_error_or_deadline_error (Some error)))
              else
                content_retry_loop fuel' (attempt + 1) (Some error)
                  (sleep (Z.min (content_mutation_sqlite_lock_retry_delay attempt) remaining) w)
            else Some (w, Err error)
        end
  end.

Definition retry_content_mutation_sqlite_lock_until (fuel : nat) : W → option (W * result T E) :=
  content_retry_loop fuel 0 None.
End content.

Definition retry_content_mutation_sqlite_lock (from_sqlite : sqlite_error → E) (fuel : nat) (w : W)
    : option (W * result T E) :=
  let '(w, now) := instant_now w in
  retry_content_mutation_sqlite_lock_until from_sqlite
    (now + CONTENT_MUTATION_SQLITE_LOCK_RETRY_DEADLINE) fuel w.

(** ** Queue claims *)

Definition CLAIM_LOCK_RETRY_DELAY : Z := 50 * MILLIS.
Definition CLAIM_LOCK_RETRY_DEADLINE : Z := 2000 * MILLIS.

(** [started.elapsed()]. *)
Definition elapsed (started : Z) (w : W) : W * Z :=
  let '(w, now) := instant_now w in (w, now - started).

Fixpoint claim_retry_loop (started retry_deadline : Z) (fuel : nat) (w : W)
    : option (W * result T E) :=
  match fuel with
  | O => None
  | S fuel' =>
      match operation w with
      | (w, Ok value) => Some (w, Ok value)
      | (w, Err error) =>
          if is_transient_lock error then
            let '(w, past) := elapsed started w in
            if past <? retry_deadline then
              let '(w, past) := elapsed started w in
              let remaining := Z.max 0 (retry_deadline - past) in
              claim_retry_loop started retry_deadline fuel'
                (sleep (Z.min CLAIM_LOCK_RETRY_DELAY remaining) w)
            else Some (w, Err error)
          else Some (w, Err error)
      end
  end.

Definition with_claim_lock_retry_deadline (retry_deadline : Z) (fuel : nat) (w : W)
    : option (W * result T E) :=
  let '(w, started) := instant_now w in claim_retry_loop started retry_deadline fuel w.

(** ** Termination and results *)

Context `{!ClockLaws W} (operation_forward : forward operation).

Lemma retry_delay_range attempt :
  0 <= attempt →
  25 * MILLIS <= content_mutation_sqlite_lock_retry_delay attempt <= 400 * MILLIS.
Proof.
  intros Ha. unfold content_mutation_sqlite_lock_retry_delay, from_millis,
    CONTENT_MUTATION_SQLITE_LOCK_INITIAL_DELAY_MS, CONTENT_MUTATION_SQLITE_LOCK_MAX_DELAY_MS.
  assert (1 <= Z.shiftl 1 (Z.min attempt 4) <= 16).
  { rewrite Z.shiftl_mul_pow2, Z.mul_1_l by lia. split.
    - change 1 with (2 ^ 0). apply Z.pow_le_mono_r; lia.
    - change 16 with (2 ^ 4). apply Z.pow_le_mono_r; lia. }
  unfold_widths. unfold MILLIS. lia.
Qed.

Lemma content_loop_returns from_sqlite deadline n fuel attempt last w :
  0 <= attempt → deadline - time w <= Z.of_nat n * (25 * MILLIS) → (n < fuel)%nat →
  is_Some (content_retry_loop from_sqlite deadline fuel attempt last w).
Proof.
  revert fuel attempt last w. induction n as [|n IH]; intros [|fuel] attempt last w Ha Hn Hf; try lia;
    cbn [content_retry_loop]; pose proof (instant_now_between w) as Hnow;
    destruct (instant_now w) as [w1 now]; simpl in Hnow; destruct (Z.leb_spec deadline now);
    try (by eexists); [lia|].
  pose proof (operation_forward w1) as Hop. destruct (operation w1) as [w2 [v|e]]; [by eexists|].
  destruct (is_transient_lock e); [|by eexists]. simpl in Hop.
  pose proof (instant_now_between w2) as Hnow2. destruct (instant_now w2) as [w3 now2]. simpl in Hnow2.
  destruct (Z.eqb_spec (Z.max 0 (deadline - now2)) 0); [by eexists|].
  pose proof (sleep_long_enough (Z.min (content_mutation_sqlite_lock_retry_delay attempt)
    (Z.max 0 (deadline - now2))) w3) as Hsl.
  pose proof (retry_delay_range attempt Ha). unfold MILLIS in *. apply IH; lia.
Qed.

Lemma claim_loop_returns started deadline n fuel w :
  deadline + started - time w <= Z.of_nat n * CLAIM_LOCK_RETRY_DELAY → (n < fuel)%nat →
  is_Some (claim_retry_loop started deadline fuel w).
Proof.
  revert fuel w. induction n as [|n IH]; intros [|fuel] w Hn Hf; try lia; cbn [claim_retry_loop];
    pose proof (operation_forward w) as Hop; destruct (operation w) as [w1 [v|e]]; try (by eexists);
    destruct (is_transient_lock e); try (by eexists); simpl in Hop; unfold elapsed;
    pose proof (instant_now_between w1) as H1; destruct (instant_now w1) as [w2 t1]; simpl in H1;
    (destruct (Z.ltb_spec (t1 - started) deadline); [|by eexists]); [lia|].
  pose proof (instant_now_between w2) as H2. destruct (instant_now w2) as [w3 t2]. simpl in H2.
  pose proof (sleep_long_enough (Z.min CLAIM_LOCK_RETRY_DELAY (Z.max 0 (deadline - (t2 - started)))) w3)
    as Hsl. unfold CLAIM_LOCK_RETRY_DELAY, MILLIS in *. apply IH; [|lia]. lia.
Qed.

(** What is returned is what an attempt returned; a lock error is returned only
    when the deadline has passed. *)
Definition from_attempt (r : result T E) : Prop := ∃ w w', operation w = (w', r).

Lemma claim_loop_result started deadline fuel w w' r :
  claim_retry_loop started deadline fuel w = Some (w', r) →
  from_attempt r ∧
  match r with
  | Ok _ => True
  | Err e => is_transient_lock e = true → started + deadline <= time w'
  end.
Proof.
  revert w. induction fuel as [|fuel IH]; intros w; [done|]. cbn [claim_retry_loop].
  destruct (operation w) as [w1 [v|e]] eqn:Ho.
  { intros [= <- <-]. split; [by exists w, w1|done]. }
  destruct (is_transient_lock e) eqn:Hl.
  - unfold elapsed. pose proof (instant_now_between w1) as H1.
    destruct (instant_now w1) as [w2 t1]. simpl in H1. destruct (Z.ltb_spec (t1 - started) deadline).
    + destruct (instant_now w2) as [w3 t2]. apply IH.
    + intros [= <- <-]. split; [by exists w, w1|]. lia.
  - intros [= <- <-]. split; [by exists w, w1|]. congruence.
Qed.

Lemma content_loop_result from_sqlite deadline fuel attempt last w w' r :
  match last with Some e => from_attempt (Err e) ∧ is_transient_lock e = true | None => True end →
  content_retry_loop from_sqlite deadline fuel attempt last w = Some (w', r) →
  (from_attempt r ∧
   match r with
   | Ok _ => True
   | Err e => is_transient_lock e = true → deadline <= time w'
   end) ∨
  (r = Err (from_sqlite content_mutation_sqlite_lock_retry_deadline_error) ∧ deadline <= time w').
Proof.
  revert attempt last w. induction fuel as [|fuel IH]; intros attempt last w Hlast; [done|].
  cbn [content_retry_loop]. pose proof (instant_now_between w) as H1.
  destruct (instant_now w) as [w1 t1]. simpl in H1. destruct (Z.leb_spec deadline t1).
  { intros [= <- <-]. destruct last as [e|]; simpl.
    - left. destruct Hlast as [Ha Hl]. split; [done|]. lia.
    - right. split; [done|lia]. }
  destruct (operation w1) as [w2 [v|e]] eqn:Ho.
  { intros [= <- <-]. left. split; [by exists w1, w2|done]. }
  destruct (is_transient_lock e) eqn:Hl.
  - pose proof (instant_now_between w2) as H2. destruct (instant_now w2) as [w3 t2]. simpl in H2.
    destruct (Z.eqb_spec (Z.max 0 (deadline - t2)) 0).
    + intros [= <- <-]. left. split; [by exists w1, w2|]. simpl. lia.
    + apply IH. split; [by exists w1, w2|done].
  - intros [= <- <-]. left. split; [by exists w1, w2|]. congruence.
Qed.
End retry.

(** ** A clock that advances only when the program sleeps *)
#[export] Instance nanos_clock : Clock Z :=
  {| instant_now w := (w, w); sleep d w := w + Z.max d 0; time w := w |}.

#[export] Instance nanos_clock_laws : ClockLaws Z.
Proof. split; simpl; lia. Qed.
