(* ===== verification/QueueRetry.v ===== *)
(** * Claims under lock contention

    [claim_next], [claim_next_by_kind] and [claim_by_id_and_kind] of
    [src/src/core/queue.rs] retry an attempt that meets a SQLite lock, and the
    first open of a connection retries a busy admission lock. Attempts run in a
    world that holds the tables and the clock. *)

From Stdlib Require Import ZArith Lia String Ascii.
From stdpp Require Import base tactics list gmap strings numbers.
From S2P Require Import Prelude Text Sqlite WriterLease QueueTypes QueueFailures.
From S2P Require Import QueueStore QueueSafety SqliteRetry.
Open Scope Z_scope.

(** The world of the queue: its tables, and what the next attempt will read and
    meet. *)
Class QueueWorld (W : Type) `{Clock W} := {
  w_db : W → qdb;
  w_set_db : qdb → W → W;
  w_env : W → W * claim_env;
}.

Class QueueWorldLaws (W : Type) `{QueueWorld W} : Prop := {
  w_set_db_time : ∀ db w, time (w_set_db db w) = time w;
  w_env_forward : ∀ w, time w <= time (w_env w).1;
}.

Section claim_retry.
Context {W : Type} `{QueueWorld W}.

(** One attempt, with what it reads. *)
Definition attempt {A} (op : claim_env → qdb → qdb * result A QueueError) (w : W)
    : W * result A QueueError :=
  let '(w, e) := w_env w in
  let '(db, r) := op e (w_db w) in
  (w_set_db db w, r).

Definition with_claim_lock_retry {A} (op : W → W * result A QueueError) :=
  with_claim_lock_retry_deadline op is_sqlite_lock CLAIM_LOCK_RETRY_DEADLINE.

Definition claim_next (worker_id : string) (claim_ttl_secs : Z) :=
  with_claim_lock_retry (attempt (fun e => claim_next_once e worker_id claim_ttl_secs)).

(** The approval is asked once; its answer holds for all attempts. *)
Definition claim_next_by_kind_with_approval (s : store) (worker_id : string) (claim_ttl_secs : Z)
    (kind_filter : string) (approved : bool) :=
  with_claim_lock_retry
    (attempt (fun e => claim_next_by_kind_once s e worker_id claim_ttl_secs kind_filter approved)).

Definition claim_next_by_kind (s : store) (worker_id : string) (claim_ttl_secs : Z)
    (kind_filter : string) :=
  claim_next_by_kind_with_approval s worker_id claim_ttl_secs kind_filter true.

Definition claim_by_id_and_kind_with_lock_retry_deadline (s : store) (worker_id : string)
    (claim_ttl_secs : Z) (id_filter kind_filter : string) (retry_deadline : Z) :=
  with_claim_lock_retry_deadline
    (attempt (fun e => claim_by_id_and_kind_once s e worker_id claim_ttl_secs id_filter kind_filter))
    is_sqlite_lock retry_deadline.

Definition claim_by_id_and_kind (s : store) (worker_id : string) (claim_ttl_secs : Z)
    (id_filter kind_filter : string) :=
  claim_by_id_and_kind_with_lock_retry_deadline s worker_id claim_ttl_secs id_filter kind_filter
    CLAIM_LOCK_RETRY_DEADLINE.

(** ** Opening a connection *)

Definition is_admission_busy (e : QueueError) : bool :=
  match e with QAdmission AdmissionBusy => true | _ => false end.

Definition open_connection_with_admission_retry {C} (open : option Z → W → W * result C QueueError)
    (busy_timeout : option Z) (fuel : nat) (w : W) : option (W * result C QueueError) :=
  match busy_timeout with
  | Some timeout => Some (open (Some timeout) w)
  | None => with_claim_lock_retry_deadline (open None) is_admission_busy CLAIM_LOCK_RETRY_DEADLINE
              fuel w
  end.

Context `{!ClockLaws W, !QueueWorldLaws W}.

Lemma attempt_forward {A} (op : claim_env → qdb → qdb * result A QueueError) : forward (attempt op).
Proof.
  intros w. unfold attempt. pose proof (w_env_forward w) as He.
  destruct (w_env w) as [w1 e]. destruct (op e (w_db w1)) as [db r]. simpl in *.
  by rewrite w_set_db_time.
Qed.

(** A retried operation has returned after 41 attempts. *)
Lemma claim_lock_retry_returns {A E} (op : W → W * result A E) is_lock w :
  forward op →
  ∃ w' r, with_claim_lock_retry_deadline op is_lock CLAIM_LOCK_RETRY_DEADLINE 41 w = Some (w', r) ∧
    from_attempt op r ∧
    match r with
    | Ok _ => True
    | Err e => is_lock e = true → time w + CLAIM_LOCK_RETRY_DEADLINE <= time w'
    end.
Proof.
  intros Hop. unfold with_claim_lock_retry_deadline. pose proof (instant_now_between w) as Hn.
  destruct (instant_now w) as [w1 started]. simpl in Hn.
  destruct (claim_loop_returns op is_lock Hop started CLAIM_LOCK_RETRY_DEADLINE 40 41 w1) as [[w' r] Hr].
  { unfold CLAIM_LOCK_RETRY_DEADLINE, CLAIM_LOCK_RETRY_DELAY, MILLIS. lia. }
  { lia. }
  exists w', r. split; [done|].
  apply (claim_loop_result op is_lock) in Hr as [Ha Hd]. split; [done|].
  destruct r as [v|e]; [done|]. intros He. specialize (Hd He). lia.
Qed.

(** A claim returns. Within 41 attempts [claim_next] has returned what its
    last attempt returned; a lock error only once the two seconds have passed,
    any other error at once, and a claim that was made is never retried. *)
Theorem claim_next_returns worker ttl w :
  ∃ w' r, claim_next worker ttl 41 w = Some (w', r) ∧
    from_attempt (attempt (fun e => claim_next_once e worker ttl)) r ∧
    match r with
    | Ok _ => True
    | Err e => is_sqlite_lock e = true → time w + CLAIM_LOCK_RETRY_DEADLINE <= time w'
    end.
Proof. apply claim_lock_retry_returns, attempt_forward. Qed.
End claim_retry.

(** A content mutation returns. Within 401 attempts the retry loop has
    returned the value or the error of an attempt, or its own deadline error; a
    success is passed on however late it comes, and a lock error is returned only
    after the deadline. *)
Theorem content_mutation_returns {W T E} `{ClockLaws W} (operation : W → W * result T E)
    is_transient_lock from_sqlite w :
  forward operation →
  let started := (instant_now w).2 in
  let deadline := started + CONTENT_MUTATION_SQLITE_LOCK_RETRY_DEADLINE in
  ∃ w' r, retry_content_mutation_sqlite_lock operation is_transient_lock from_sqlite 401 w = Some (w', r) ∧
    ((from_attempt operation r ∧
      match r with
      | Ok _ => True
      | Err e => is_transient_lock e = true → deadline <= time w'
      end) ∨
     (r = Err (from_sqlite content_mutation_sqlite_lock_retry_deadline_error) ∧ deadline <= time w')).
Proof.
  intros Hop. unfold retry_content_mutation_sqlite_lock, retry_content_mutation_sqlite_lock_until.
  pose proof (instant_now_between w) as Hn. destruct (instant_now w) as [w1 started]. simpl in *.
  destruct (content_loop_returns operation is_transient_lock Hop from_sqlite
    (started + CONTENT_MUTATION_SQLITE_LOCK_RETRY_DEADLINE) 400 401 0 None w1) as [[w' r] Hr];
    [lia|unfold CONTENT_MUTATION_SQLITE_LOCK_RETRY_DEADLINE, MILLIS; lia|lia|].
  exists w', r. split; [done|]. by eapply content_loop_result; [..|exact Hr].
Qed.

(** ** An instance

    A writer lock that another process holds for a while. *)
Definition busy_until (t : Z) (w : Z) : Z * result unit sqlite_error :=
  if w <? t then (w, Err (SqliteFailure DatabaseBusy SQLITE_BUSY None)) else (w, Ok tt).

Lemma content_mutation_returns_witness :
  ∃ w' r, retry_content_mutation_sqlite_lock (busy_until (from_millis 900)) rusqlite_error_is_lock
            (fun e => e) 401 0 = Some (w', r).
Proof.
  destruct (content_mutation_returns (busy_until (from_millis 900)) rusqlite_error_is_lock
              (fun e => e) 0) as (w' & r & Hr & _).
  - intros w. unfold busy_until. simpl. destruct (w <? from_millis 900); simpl; lia.
  - exists w', r. exact Hr.
Defined.

Example busy_retry_ok :
  retry_content_mutation_sqlite_lock (busy_until (from_millis 900)) rusqlite_error_is_lock
    (fun e => e) 401 0 = Some (from_millis 1175, Ok tt).
Proof. vm_compute. reflexivity. Qed.

(** The tables of the queue with such a clock. *)
#[export] Instance table_clock : Clock (qdb * Z) :=
  {| instant_now w := (w, w.2); sleep d w := (w.1, w.2 + Z.max d 0); time w := w.2 |}.

#[export] Instance table_clock_laws : ClockLaws (qdb * Z).
Proof. split; simpl; lia. Qed.

#[export] Instance table_world : QueueWorld (qdb * Z) :=
  {| w_db w := w.1; w_set_db db w := (db, w.2); w_env w := (w, wclaim_env 110 2) |}.

#[export] Instance table_world_laws : QueueWorldLaws (qdb * Z).
Proof. split; simpl; [done|lia]. Qed.

Lemma claim_next_returns_witness :
  ∃ w' r, claim_next "w1" 60 41 (run0, 0) = Some (w', r).
Proof.
  destruct (claim_next_returns "w1" 60 (run0, 0)) as (w' & r & Hr & _). exists w', r. exact Hr.
Defined.
