(* ===== verification/QueueReports.v ===== *)
(** * What the queue reports

    The bounded error text, the failure buckets of the status commands, and the
    filtered retry and archive actions. *)

From Stdlib Require Import ZArith Lia String Ascii.
From stdpp Require Import base tactics list gmap strings numbers sorting.
From S2P Require Import Prelude Text Order Rfc3339 ProcessIdentity Sqlite.
From S2P Require Import WriterLease QueueTypes QueueFailures QueueStore QueueAdmin.
From S2P Require Import QueueLifecycle QueueSystem QueueSafety.
Open Scope Z_scope.

(** ** Truncation *)

Lemma boundary_spec s n :
  let k := boundary_at_or_before s n in
  is_char_boundary s k = true ∧ ∀ j, (k < j <= n)%nat → is_char_boundary s j = false.
Proof.
  induction n as [|n IH]; cbn [boundary_at_or_before]; [split; [done|lia]|].
  destruct (is_char_boundary s (S n)) eqn:Hb; [split; [done|lia]|].
  destruct IH as [H1 H2]. split; [done|]. intros j Hj.
  destruct (decide (j = S n)) as [->|]; [done|]. apply H2. lia.
Qed.

Lemma substring_prefix_length s k :
  (k <= String.length s)%nat → String.length (String.substring 0 k s) = k.
Proof.
  revert k. induction s as [|c s IH]; intros [|k] Hk; simpl in *; try lia. f_equal. apply IH. lia.
Qed.

(** Truncation to a byte limit keeps the longest prefix that ends on a
    character boundary, so it never splits a UTF-8 sequence and never drops more
    than it has to. *)
Theorem truncate_maximal value max_bytes :
  let r := truncate_to_byte_limit value max_bytes in
  ((String.length value <= max_bytes)%nat ∧ r = value) ∨
  ((max_bytes < String.length value)%nat ∧ r = String.substring 0 (String.length r) value ∧
   (String.length r <= max_bytes)%nat ∧ is_char_boundary value (String.length r) = true ∧
   ∀ j, (String.length r < j <= max_bytes)%nat → is_char_boundary value j = false).
Proof.
  intros r. unfold truncate_to_byte_limit in r.
  destruct (Nat.leb_spec (String.length value) max_bytes) as [Hle|Hgt]; [by left|right].
  pose proof (boundary_le value max_bytes) as Hb.
  destruct (boundary_spec value max_bytes) as [H1 H2].
  assert (Hlen : String.length r = boundary_at_or_before value max_bytes)
    by (apply substring_prefix_length; lia).
  rewrite Hlen. done.
Qed.

(** ** Buckets *)

(** What the rows of one key add up to. *)
Fixpoint add_all (rows : list QueueFailureRow) (o : option bucket_acc) : option bucket_acc :=
  match rows with
  | [] => o
  | r :: rest => add_all rest (Some (add_to_bucket r o))
  end.

Definition rows_of_key (k : bucket_key) (rows : list QueueFailureRow) : list QueueFailureRow :=
  List.filter (fun r => bool_decide (row_key r = k)) rows.

Lemma fold_buckets_lookup rows m k :
  fold_buckets rows m !! k = add_all (rows_of_key k rows) (m !! k).
Proof.
  revert m. induction rows as [|r rows IH]; intros m; [done|]. cbn [fold_buckets]. rewrite IH.
  unfold rows_of_key. simpl. case_bool_decide as Hk.
  - subst k. by rewrite lookup_insert_eq.
  - by rewrite lookup_insert_ne.
Qed.

(** The bucket of a non-empty list of rows. *)
Definition sums_up (rows : list QueueFailureRow) (b : bucket_acc) : Prop :=
  ba_count b = Z.of_nat (length rows) ∧
  (∀ r, r ∈ rows → ba_min_retry_count b <= fr_retry_count r <= ba_max_retry_count b) ∧
  (∃ r, r ∈ rows ∧ fr_retry_count r = ba_min_retry_count b) ∧
  (∃ r, r ∈ rows ∧ fr_retry_count r = ba_max_retry_count b).

Lemma add_sums_up rows b r :
  sums_up rows b → Z.of_nat (length rows) < u64_max → sums_up (rows ++ [r]) (add_to_bucket r (Some b)).
Proof.
  intros (Hc & Hb & (r1 & Hr1 & E1) & (r2 & Hr2 & E2)) Hlt. unfold sums_up. simpl.
  rewrite length_app. simpl. split_and!.
  - rewrite Hc. unfold_widths; lia.
  - intros x [Hx|Hx%list_elem_of_singleton]%elem_of_app; [specialize (Hb x Hx); lia|subst; lia].
  - destruct (Z.min_spec (ba_min_retry_count b) (fr_retry_count r)) as [[_ ->]|[_ ->]].
    + exists r1. rewrite elem_of_app. auto.
    + exists r. rewrite elem_of_app, list_elem_of_singleton. auto.
  - destruct (Z.max_spec (ba_max_retry_count b) (fr_retry_count r)) as [[_ ->]|[_ ->]].
    + exists r. rewrite elem_of_app, list_elem_of_singleton. auto.
    + exists r2. rewrite elem_of_app. auto.
Qed.

Lemma add_all_sums_up rows seen b :
  sums_up seen b → Z.of_nat (length (seen ++ rows)) <= u64_max →
  ∃ b', add_all rows (Some b) = Some b' ∧ sums_up (seen ++ rows) b'.
Proof.
  revert seen b. induction rows as [|r rows IH]; intros seen b Hs Hlt.
  { exists b. by rewrite app_nil_r. }
  cbn [add_all]. rewrite cons_middle, app_assoc in *. apply IH; [|done].
  apply add_sums_up; [done|]. rewrite !length_app in Hlt. simpl in Hlt. lia.
Qed.

Lemma add_all_none rows :
  Z.of_nat (length rows) <= u64_max →
  match add_all rows None with Some b => rows ≠ [] ∧ sums_up rows b | None => rows = [] end.
Proof.
  destruct rows as [|r rows]; [done|]. intros Hlt. cbn [add_all].
  destruct (add_all_sums_up rows [r] (add_to_bucket r None)) as (b' & -> & Hb); [|done|done].
  unfold sums_up. simpl. split_and!; [done| |exists r; split; [by left|done]..].
  intros x ->%list_elem_of_singleton. lia.
Qed.

#[export] Instance key_cmp_ok : Comparator key_cmp.
Proof.
  apply (lex_comparator (fun a b : bucket_key => String.compare a.1.1 b.1.1)
    (fun a b => then_with (String.compare a.1.2 b.1.2) (String.compare a.2 b.2))).
  - apply (on_comparator (fun a : bucket_key => a.1.1)), _.
  - apply (lex_comparator (fun a b : bucket_key => String.compare a.1.2 b.1.2)
             (fun a b => String.compare a.2 b.2)).
    + apply (on_comparator (fun a : bucket_key => a.1.2)), _.
    + apply (on_comparator (fun a : bucket_key => a.2)), _.
Qed.

#[export] Instance bucket_cmp_ok : Comparator bucket_cmp.
Proof.
  apply (lex_comparator (fun a b => fb_count b ?= fb_count a)
    (fun a b => key_cmp (bucket_fields a) (bucket_fields b))).
  - apply (flip_comparator (fun a b => fb_count a ?= fb_count b)),
      (on_comparator (fun b : QueueFailureBucket => fb_count b)), _.
  - apply (on_comparator bucket_fields), _.
Qed.

Lemma bucket_of_fields e : bucket_fields (bucket_of e) = e.1.
Proof. by destruct e as [[[a b] c] d]. Qed.

Lemma buckets_partition_core rows :
  Z.of_nat (length rows) <= u64_max →
  let buckets := buckets_from_rows rows in
  NoDup (map bucket_fields buckets) ∧
  (∀ r, r ∈ rows → row_key r ∈ map bucket_fields buckets) ∧
  (∀ b, b ∈ buckets →
     let mine := rows_of_key (bucket_fields b) rows in
     mine ≠ [] ∧ fb_count b = Z.of_nat (length mine) ∧
     (∀ r, r ∈ mine → fb_min_retry_count b <= fr_retry_count r <= fb_max_retry_count b) ∧
     (∃ r, r ∈ mine ∧ fr_retry_count r = fb_min_retry_count b) ∧
     (∃ r, r ∈ mine ∧ fr_retry_count r = fb_max_retry_count b)) ∧
  StronglySorted (fun a b => not_gt (bucket_cmp a b) = true) buckets.
Proof.
  intros Hlt buckets. set (m := fold_buckets rows ∅).
  assert (Hperm : buckets ≡ₚ map bucket_of (map_to_list m)).
  { unfold buckets, buckets_from_rows. by rewrite sort_by_perm, sort_by_perm. }
  assert (Hfields : map bucket_fields buckets ≡ₚ (map_to_list m).*1).
  { rewrite Hperm, map_map. by rewrite (map_ext _ _ bucket_of_fields). }
  assert (Hlen : ∀ k, Z.of_nat (length (rows_of_key k rows)) <= u64_max).
  { intros k. pose proof (filter_length_le (fun r => bool_decide (row_key r = k)) rows). unfold rows_of_key. lia. }
  assert (Hm : ∀ k, m !! k = add_all (rows_of_key k rows) None).
  { intros k. unfold m. rewrite fold_buckets_lookup. by rewrite lookup_empty. }
  split_and!.
  - rewrite Hfields. apply NoDup_fst_map_to_list.
  - intros r Hr. rewrite Hfields. pose proof (add_all_none (rows_of_key (row_key r) rows) (Hlen _)) as Ha.
    destruct (add_all (rows_of_key (row_key r) rows) None) as [b|] eqn:E.
    + apply (list_elem_of_fmap_2' fst _ (row_key r, b)); [|done]. apply elem_of_map_to_list. by rewrite Hm.
    + exfalso. assert (Hin : r ∈ rows_of_key (row_key r) rows).
      { apply list_elem_of_In, filter_In. split; [by apply list_elem_of_In|by apply bool_decide_eq_true]. }
      rewrite Ha in Hin. by apply elem_of_nil in Hin.
  - intros b Hb. rewrite Hperm in Hb. apply list_elem_of_fmap in Hb as ([k a] & -> & Hin).
    rewrite bucket_of_fields. apply elem_of_map_to_list in Hin. rewrite Hm in Hin.
    pose proof (add_all_none (rows_of_key k rows) (Hlen k)) as Ha. rewrite Hin in Ha.
    destruct k as [[k1 k2] k3]. done.
  - apply (sort_by_cmp_sorted bucket_cmp).
Qed.

(** The failure buckets are a faithful summary: every row falls in exactly
    one bucket, a bucket's count is the number of rows with its kind, retry class
    and reason, its retry counts are the least and the greatest of them, and the
    list is sorted by falling count, then by key. *)
Theorem buckets_partition rows :
  Z.of_nat (length rows) <= u64_max →
  let buckets := buckets_from_rows rows in
  NoDup (map bucket_fields buckets) ∧
  (∀ r, r ∈ rows → row_key r ∈ map bucket_fields buckets) ∧
  (∀ b, b ∈ buckets →
     let mine := rows_of_key (bucket_fields b) rows in
     mine ≠ [] ∧ fb_count b = Z.of_nat (length mine) ∧
     (∀ r, r ∈ mine → fb_min_retry_count b <= fr_retry_count r <= fb_max_retry_count b) ∧
     (∃ r, r ∈ mine ∧ fr_retry_count r = fb_min_retry_count b) ∧
     (∃ r, r ∈ mine ∧ fr_retry_count r = fb_max_retry_count b)) ∧
  StronglySorted (fun a b => not_gt (bucket_cmp a b) = true) buckets.
Proof. apply buckets_partition_core. Qed.

(** ** Archiving *)
Section archive.
Context `{QueueEnv, TableScan}.
Implicit Types (db : qdb) (rows : list QueueFailureRow).

Definition all_failed rows db : Prop :=
  ∀ r, r ∈ rows → ∃ row, q_pending db !! fr_id r = Some row ∧ m_status row = StFailed.

Lemma archive_loop_spec t rows n db :
  NoDup (map fr_id rows) → all_failed rows db → 0 <= n →
  n + Z.of_nat (length rows) <= u64_max →
  let '(db', changed) := archive_loop t rows n db in
  changed = n + Z.of_nat (length rows) ∧
  (∀ id, id ∉ map fr_id rows →
     q_pending db' !! id = q_pending db !! id ∧ q_completions db' !! id = q_completions db !! id) ∧
  (∀ r row, r ∈ rows → q_pending db !! fr_id r = Some row →
     q_pending db' !! fr_id r = None ∧
     q_completions db' !! fr_id r = Some (archived_completion t (fr_reason_code r) row)).
Proof.
  revert n db. induction rows as [|r rows IH]; intros n db Hnd Hf Hn Hlt; cbn [archive_loop].
  { split_and!; [simpl; lia|done|]. intros r row Hr. by apply elem_of_nil in Hr. }
  simpl in Hnd, Hlt. apply list.NoDup_cons in Hnd as [Hni Hnd].
  destruct (Hf r ltac:(by left)) as (row & Hrow & Hs).
  unfold archive_row at 1. rewrite Hrow.
  assert (is_status StFailed row = true) as -> by (by apply bool_decide_eq_true).
  set (db1 := set_pending _ _).
  rewrite (sat_u64_id (n + 1)) by (unfold_widths; lia).
  specialize (IH (n + 1) db1 Hnd). destruct (archive_loop t rows (n + 1) db1) as [db' changed].
  destruct IH as (Hc & Hout & Hin); [|lia|lia|].
  { intros r' Hr'. destruct (Hf r' ltac:(by right)) as (row' & Hrow' & Hs'). exists row'.
    split; [|done]. unfold db1. simpl. rewrite lookup_delete_ne; [done|].
    intros Heq. apply Hni. rewrite Heq. by apply list_elem_of_fmap_2. }
  split_and!; [simpl; lia| |].
  - intros id Hid. simpl in Hid. apply not_elem_of_cons in Hid as [Hne Hid].
    destruct (Hout id Hid) as [-> ->]. unfold db1. simpl.
    by rewrite lookup_delete_ne, lookup_insert_ne.
  - intros r' row' [->|Hr']%elem_of_cons Hrow'.
    + destruct (Hout (fr_id r) Hni) as [-> ->]. unfold db1. simpl.
      rewrite lookup_delete_eq, lookup_insert_eq. simplify_eq. done.
    + apply Hin; [done|]. unfold db1. simpl. rewrite lookup_delete_ne; [done|].
      intros Heq. apply Hni. rewrite Heq. by apply list_elem_of_fmap_2.
Qed.

(** Archiving is exact. Under an explicit filter it moves precisely the
    failed rows that match to the completions, each with its error and the
    reason code it was selected by, and reports as many changes as matches;
    every other message and completion is untouched. Without a filter it is
    refused. *)
Theorem archive_exact cols f t db :
  match matching_failed_rows cols f db with
  | Ok rows =>
      is_explicit f = true → Z.of_nat (length rows) <= u64_max →
      ∃ db' outcome, archive_failed_messages queue_io_ok cols f t db = (db', Ok outcome) ∧
        ao_changed outcome = Z.of_nat (length rows) ∧
        (∀ id, id ∉ map fr_id rows → q_pending db' !! id = q_pending db !! id ∧
                                    q_completions db' !! id = q_completions db !! id) ∧
        (∀ r, r ∈ rows → ∃ row, q_pending db !! fr_id r = Some row ∧
           q_pending db' !! fr_id r = None ∧
           q_completions db' !! fr_id r = Some (archived_completion t (fr_reason_code r) row))
  | Err e => is_explicit f = true → archive_failed_messages queue_io_ok cols f t db = (db, Err e)
  end ∧
  (is_explicit f = false →
   archive_failed_messages queue_io_ok cols f t db = (db, Err UnsafeUnfilteredQueueMutation)).
Proof.
  unfold archive_failed_messages, with_connection, with_connection_with_busy_timeout,
    transaction_immediate, archive_failed_messages_on_connection, ensure_explicit_filter. simpl.
  split; [|by intros ->].
  destruct (matching_failed_rows cols f db) as [rows|e] eqn:Hrows; intros Hf; rewrite Hf; [|done].
  intros Hlt.
  assert (Hall : all_failed rows db).
  { intros r Hr. destruct (matching_failed_rows_in _ _ _ _ _ Hrows Hr) as (_ & row & ? & ? & _). eauto. }
  pose proof (archive_loop_spec t rows 0 db (matching_failed_rows_NoDup _ _ _ _ Hrows) Hall) as Hl.
  destruct (archive_loop t rows 0 db) as [db' changed]. destruct Hl as (Hc & Hout & Hin); [lia|lia|].
  eexists db', _. split; [reflexivity|]. split_and!; [simpl; lia|done|].
  intros r Hr. destruct (Hall r Hr) as (row & Hrow & _). exists row. split; [done|]. by apply Hin.
Qed.
End archive.

Lemma archive_exact_witness :
  archive_failed_messages queue_io_ok all_columns (Build_QueueFailureFilter None None None) 0 run1 =
  (run1, Err UnsafeUnfilteredQueueMutation).
Proof.
  apply (proj2 (archive_exact all_columns (Build_QueueFailureFilter None None None) 0 run1)).
  reflexivity.
Defined.

Definition sample_row (id : string) (n : Z) : QueueFailureRow :=
  {| fr_id := id; fr_status := RowFailed; fr_kind := "hook_event"; fr_retry_class := "terminal";
     fr_reason_code := "model_timeout"; fr_sanitized_message := ""; fr_retry_count := n;
     fr_next_attempt_at := Some 7 |}.

Lemma buckets_partition_witness :
  NoDup (map bucket_fields (buckets_from_rows [sample_row "a" 3; sample_row "b" 1])).
Proof.
  apply (buckets_partition [sample_row "a" 3; sample_row "b" 1]). vm_compute. discriminate.
Defined.

(** ** The lost-lease text *)

(** [Display] of [QueueError::RuntimeWriterLeaseLost], the same text as that of
    [DbError]. *)
Definition runtime_writer_lease_lost_text (lease_name owner : string) (generation : Z)
    (operation : string) : string :=
  "runtime SQLite writer lease `" +:+ (lease_name +:+ ("` generation " +:+ (show generation +:+
    (" for " +:+ (owner +:+ (" was lost before " +:+ operation)))))).

(** A hook message waiting with a recorded error. *)
Definition waiting_db (error : string) : qdb :=
  set_pending {[ "m" := {| m_kind := "hook_event"; m_source_hash := "h"; m_claim_token := None;
    m_claimed_at := None; m_heartbeat_at := None; m_retry_count := 3; m_retry_backoff_ms := 8000;
    m_next_attempt_at := 900; m_status := StPending; m_payload := "{}"; m_created_at := 100;
    m_last_error := Some error; m_result_drawer_id := None; m_op_state := "queued";
    m_rejected_reason := None; m_failure_detail := None; m_result_json := None;
    m_failure_class := None |} ]} empty_qdb.

(** The error a daemon records when it loses its lease is classified as a lost
    lease, but the pattern of the daemon-start requeue, written for a text without
    a generation, does not match it: the message of a previous daemon keeps its
    back-off, where one with the older text is due at once. *)
Theorem lease_lost_text_not_requeued :
  let error := runtime_writer_lease_lost_text "sqlite-writer" "mempal-daemon-1000-previous-start" 3
                 "build daemon hook drawer records" in
  let older := "SQLite writer lease `sqlite-writer` for mempal-daemon-1000-previous-start was lost before build daemon hook drawer records" in
  let requeue := requeue_writer_lease_failures_for_daemon_start queue_io_ok "mempal-daemon-2000-now" 500 in
  queue_failure_reason_code "hook_event" error = "writer_lease_lost"
  ∧ requeue (waiting_db error) = (waiting_db error, Ok 0)
  ∧ (requeue (waiting_db older)).2 = Ok 1
  ∧ (m_next_attempt_at <$> q_pending (requeue (waiting_db older)).1 !! "m") = Some 100.
Proof. vm_compute. done. Qed.
