(* ===== verification/QueueStats.v ===== *)
(** * Queue statistics

    [compute_queue_stats] of [src/src/core/queue.rs], with its binary64
    arithmetic, and the consistency of the figures it reports. *)

From Stdlib Require Import ZArith Lia String Ascii SpecFloat.
From stdpp Require Import base tactics list gmap strings numbers sorting.
From S2P Require Import Prelude Text Order Float Rfc3339 ProcessIdentity Sqlite.
From S2P Require Import WriterLease QueueTypes QueueFailures QueueStore QueueAdmin.
From S2P Require Import QueueLifecycle QueueSystem QueueSafety QueueReports.
Open Scope Z_scope.
Open Scope rust_scope.

(** ** Statistics *)

Record QueueStats := {
  qs_pending : Z;
  qs_claimed : Z;
  qs_active_payload_bytes : Z;
  qs_active_ingest_payload_bytes : Z;
  qs_ingest_payload_limit_bytes : Z;
  qs_rejected_oversize : Z;
  qs_failed : Z;
  qs_failed_retryable : Z;
  qs_failed_terminal : Z;
  qs_failed_archived : Z;
  qs_retrying : Z;
  qs_failed_retryable_embed : Z;
  qs_failed_retryable_llm : Z;
  qs_last_auto_requeue_at_unix_ms : option Z;
  qs_next_retry_at_unix_secs : option Z;
  qs_oldest_pending_age_secs : option Z;
  qs_rate_per_min : f64;
  qs_avg_processing_ms : option Z;
  qs_eta_secs : option Z;
  qs_failed_buckets : list QueueFailureBucket;
  qs_retrying_buckets : list QueueFailureBucket;
}.

(** [COUNT( * )] and [MIN] over a table. *)
Definition count_rows (cond : msg_row → bool) (m : gmap string msg_row) : Z :=
  Z.of_nat (length (List.filter (fun e => cond e.2) (map_to_list m))).

Fixpoint min_list (l : list Z) : option Z :=
  match l with
  | [] => None
  | x :: rest => min_optional_i64 (Some x) (min_list rest)
  end.

Definition archived_failed_count (db : qdb) : Z :=
  Z.of_nat (length (List.filter (fun e : string * completion_row =>
    bool_decide (k_op_state e.2 = "failed")
    && match k_rejected_reason e.2 with
       | Some r => sql_like "queue_archive:%" r
       | None => false
       end) (map_to_list (q_completions db)))).

(** [AVG] ignores NULL; over integers it is the quotient of two doubles. *)
Definition sql_avg (values : list Z) : option f64 :=
  match values with
  | [] => None
  | _ => Some (f64_div (f64_of_int (foldr Z.add 0 values))
                 (f64_of_int (Z.of_nat (length values))))
  end.

(** The completions of the metrics window. *)
Definition window_rows (now_ms : Z) (db : qdb) : list completion_row :=
  let cutoff := sat_i64 (now_ms - sat_i64 (COMPLETION_METRICS_WINDOW_MINS * 60000)) in
  List.filter (fun c => cutoff <=? k_completed_at c) (map snd (map_to_list (q_completions db))).

Section stats.
Context `{QueueEnv, TableScan}.

Definition compute_queue_stats (cols : failure_columns) (ingest_payload_limit_bytes : Z)
    (now now_ms : Z) (db : qdb) : result QueueStats QueueError :=
  let m := q_pending db in
  let pending := count_rows (is_status StPending) m in
  let claimed := count_rows (is_status StClaimed) m in
  let failed := count_rows (is_status StFailed) m in
  let? failure_rows := queue_failure_rows cols db in
  let is_failed r := bool_decide (fr_status r = RowFailed) in
  let is_retrying r := bool_decide (fr_status r = RowRetrying) in
  let count f := Z.of_nat (length (List.filter f failure_rows)) in
  let is_model r := is_failed r && bool_decide (fr_retry_class r = "retryable_model") in
  let failed_retryable := count is_model in
  let completed := window_rows now_ms db in
  let rate_per_min := f64_div (f64_of_int (Z.of_nat (length completed)))
                        (f64_of_int COMPLETION_METRICS_WINDOW_MINS) in
  let pending_u64 := i64_to_u64 pending in
  Ok {| qs_pending := pending_u64;
        qs_claimed := i64_to_u64 claimed;
        qs_active_payload_bytes := i64_to_u64 (sum_payload_bytes is_active m);
        qs_active_ingest_payload_bytes :=
          i64_to_u64 (sum_payload_bytes
            (fun r => is_active r && bool_decide (m_kind r = INGEST_ASYNC_KIND)) m);
        qs_ingest_payload_limit_bytes := ingest_payload_limit_bytes;
        qs_rejected_oversize := meta_counter OVERSIZE_REJECTION_TOTAL_KEY db;
        qs_failed := i64_to_u64 failed;
        qs_failed_retryable := i64_to_u64 failed_retryable;
        qs_failed_terminal := i64_to_u64 (sat_i64 (failed - failed_retryable));
        qs_failed_archived := i64_to_u64 (archived_failed_count db);
        qs_retrying := i64_to_u64 (count is_retrying);
        qs_failed_retryable_embed :=
          i64_to_u64 (count (fun r => is_model r && negb (bool_decide (fr_kind r = LLM_TASK_KIND))));
        qs_failed_retryable_llm :=
          i64_to_u64 (count (fun r => is_model r && bool_decide (fr_kind r = LLM_TASK_KIND)));
        qs_last_auto_requeue_at_unix_ms :=
          match q_meta db !! AUTO_REQUEUE_KEY ≫= parse_u64 with
          | Some v => if 0 <? v then Some v else None
          | None => None
          end;
        qs_next_retry_at_unix_secs :=
          i64_to_u64 <$> min_list (omap fr_next_attempt_at (List.filter is_retrying failure_rows));
        qs_oldest_pending_age_secs :=
          (fun created_at => i64_to_u64 (sat_i64 (now - created_at))) <$>
          min_list (map (fun e => m_created_at e.2)
                      (List.filter (fun e => is_status StPending e.2) (map_to_list m)));
        qs_rate_per_min := rate_per_min;
        qs_avg_processing_ms := f64_round_u64 <$> sql_avg (omap k_processing_ms completed);
        qs_eta_secs :=
          if SFltb f64_zero rate_per_min
          then Some (f64_ceil_u64 (f64_mul (f64_div (f64_of_int pending_u64) rate_per_min)
                                     (f64_of_int 60)))
          else None;
        qs_failed_buckets := buckets_from_rows (List.filter is_failed failure_rows);
        qs_retrying_buckets := buckets_from_rows (List.filter is_retrying failure_rows) |}.
End stats.

Definition failure_headline_count (live_fail_count : Z) (s : QueueStats) : Z :=
  Z.max live_fail_count (qs_failed s).

(** ** Lemmas *)

Lemma count_three (rows : list (string * msg_row)) :
  Forall (fun e => row_wf e.2) rows →
  (length (List.filter (fun e => is_status StPending e.2) rows) +
   length (List.filter (fun e => is_status StClaimed e.2) rows) +
   length (List.filter (fun e => is_status StFailed e.2) rows))%nat = length rows.
Proof.
  induction 1 as [|[id row] rows Hwf _ IH]; [done|]. simpl. unfold is_status in *. simpl in *.
  destruct Hwf as (_ & _ & Hs). destruct (m_status row); [..|done|];
    repeat case_bool_decide; simpl; (lia || congruence).
Qed.

Lemma filter_split {A} (f g : A → bool) l :
  (length (List.filter (fun x => f x && g x) l) +
   length (List.filter (fun x => f x && negb (g x)) l))%nat = length (List.filter f l).
Proof.
  induction l as [|x l IH]; [done|]. simpl. destruct (f x), (g x); simpl; lia.
Qed.

Lemma filter_le {A} (f g : A → bool) l :
  (∀ x, f x = true → g x = true) → (length (List.filter f l) <= length (List.filter g l))%nat.
Proof.
  intros Hfg. induction l as [|x l IH]; [done|]. simpl. specialize (Hfg x).
  destruct (f x); [rewrite Hfg by done; simpl; lia|]. destruct (g x); simpl; lia.
Qed.

Lemma filter_perm_length {A} (f : A → bool) l l' :
  l ≡ₚ l' → length (List.filter f l) = length (List.filter f l').
Proof.
  induction 1 as [|x l l' _ IH|x y l|l1 l2 l3 _ IH1 _ IH2]; simpl; [done| | |congruence].
  - destruct (f x); simpl; congruence.
  - by destruct (f x), (f y).
Qed.

Section stats_lemmas.
Context `{QueueEnv, TableScan}.

(** The failure rows of a well-formed table: one per failed row and one per
    pending row that has been tried. *)
Lemma failure_rows_count rows :
  Forall (fun e => row_wf e.2) rows →
  ∃ l, failure_rows_of all_columns rows = Ok l ∧
    length (List.filter (fun r => bool_decide (fr_status r = RowFailed)) l) =
      length (List.filter (fun e => is_status StFailed e.2) rows) ∧
    (length (List.filter (fun r => bool_decide (fr_status r = RowRetrying)) l) <=
      length (List.filter (fun e => is_status StPending e.2) rows))%nat.
Proof.
  induction 1 as [|[id row] rows Hwf _ (l & Hl & Hf & Hr)]; [by exists []|].
  cbn [failure_rows_of]. rewrite Hl. simpl in Hwf. destruct Hwf as (Hn & _ & Hs).
  assert (Hu : try_u32 (m_retry_count row) = Some (m_retry_count row)) by (by apply try_u32_Some).
  unfold failure_row_of. cbn [has_failure_class has_last_error has_retry_count has_next_attempt_at all_columns].
  rewrite Hu. unfold is_status in *. simpl.
  destruct (m_status row) eqn:Hst; [destruct (0 <? m_retry_count row)| | |];
    (eexists; split; [reflexivity|]); simpl; rewrite ?Hst; simpl; split; lia || done.
Qed.

Lemma sum_by_key (keys : list bucket_key) rows :
  NoDup keys → (∀ r, r ∈ rows → row_key r ∈ keys) →
  foldr Z.add 0 (map (fun k => Z.of_nat (length (rows_of_key k rows))) keys) = Z.of_nat (length rows).
Proof.
  intros Hnd. induction rows as [|r rows IH]; intros Hin.
  { clear. induction keys; [done|]. simpl in *. lia. }
  assert (Hstep : ∀ ks, NoDup ks →
    foldr Z.add 0 (map (fun k => Z.of_nat (length (rows_of_key k (r :: rows)))) ks) =
    foldr Z.add 0 (map (fun k => Z.of_nat (length (rows_of_key k rows))) ks)
    + if bool_decide (row_key r ∈ ks) then 1 else 0).
  { clear. induction ks as [|k ks IHk]; intros Hnd; [done|].
    apply list.NoDup_cons in Hnd as [Hni Hnd]. cbn [map foldr]. rewrite IHk by done.
    unfold rows_of_key at 1. simpl. fold (rows_of_key k rows).
    destruct (decide (row_key r = k)) as [<-|Hne].
    - rewrite (bool_decide_eq_true_2 (row_key r = row_key r)) by done.
      rewrite (bool_decide_eq_true_2 (row_key r ∈ row_key r :: ks)) by (by left).
      rewrite bool_decide_eq_false_2 by done. simpl. lia.
    - rewrite (bool_decide_eq_false_2 (row_key r = k)) by done.
      rewrite (bool_decide_ext (row_key r ∈ k :: ks) (row_key r ∈ ks)); [lia|].
      rewrite elem_of_cons. tauto. }
  rewrite Hstep by done. rewrite IH by (intros; apply Hin; by right).
  rewrite bool_decide_eq_true_2 by (apply Hin; by left). simpl. lia.
Qed.

Lemma bucket_counts_sum rows :
  Z.of_nat (length rows) <= u64_max →
  foldr Z.add 0 (map fb_count (buckets_from_rows rows)) = Z.of_nat (length rows).
Proof.
  intros Hlt. destruct (buckets_partition_core rows Hlt) as (Hnd & Hall & Hb & _).
  rewrite <- (sum_by_key _ rows Hnd Hall). rewrite map_map. f_equal. apply map_ext_in.
  intros b Hin%list_elem_of_In. by destruct (Hb b Hin) as (_ & -> & _).
Qed.

Lemma i64_to_u64_nat n : i64_to_u64 (Z.of_nat n) = Z.of_nat n.
Proof. unfold i64_to_u64. destruct (Z.leb_spec (Z.of_nat n) 0); lia. Qed.

(** The figures of the status report agree with the table and with each
    other: on a well-formed queue the report always succeeds, its pending,
    claimed and failed counts add up to the number of rows, the failed ones
    split into retryable and terminal, the retryable ones into embedding and
    LLM tasks, and the bucket counts add up to the totals they break down. *)
Theorem stats_consistent limit now now_ms db :
  queue_wf db → Z.of_nat (size (q_pending db)) <= i64_max →
  ∃ s, compute_queue_stats all_columns limit now now_ms db = Ok s ∧
    qs_pending s + qs_claimed s + qs_failed s = Z.of_nat (size (q_pending db)) ∧
    qs_failed_retryable s + qs_failed_terminal s = qs_failed s ∧
    qs_failed_retryable_embed s + qs_failed_retryable_llm s = qs_failed_retryable s ∧
    qs_retrying s <= qs_pending s ∧
    foldr Z.add 0 (map fb_count (qs_failed_buckets s)) = qs_failed s ∧
    foldr Z.add 0 (map fb_count (qs_retrying_buckets s)) = qs_retrying s.
Proof.
  intros Hwf Hsize. set (rows := map_to_list (q_pending db)).
  assert (Hrows : Forall (fun e => row_wf e.2) rows).
  { apply Forall_forall. intros [id row] Hin%elem_of_map_to_list. by eapply Hwf. }
  assert (Hscan : Forall (fun e => row_wf e.2) (scan_rows (q_pending db)))
    by (by rewrite scan_rows_perm).
  destruct (failure_rows_count _ Hscan) as (l & Hl & Hf & Hr).
  rewrite (filter_perm_length _ _ _ (scan_rows_perm (q_pending db))) in Hf.
  rewrite (filter_perm_length (fun e => is_status StPending e.2) _ _ (scan_rows_perm (q_pending db))) in Hr.
  fold rows in Hf, Hr.
  pose proof (count_three rows Hrows) as H3.
  assert (Hlen : length rows = size (q_pending db)) by apply length_map_to_list.
  unfold compute_queue_stats, queue_failure_rows. rewrite Hl. eexists. split; [reflexivity|].
  cbn -[buckets_from_rows f64_div f64_mul f64_of_int]. unfold count_rows. fold rows.
  rewrite !i64_to_u64_nat.
  pose proof (filter_split (fun r => bool_decide (fr_status r = RowFailed))
    (fun r => bool_decide (fr_retry_class r = "retryable_model")) l) as Hs1.
  pose proof (filter_split (fun r => bool_decide (fr_status r = RowFailed) &&
    bool_decide (fr_retry_class r = "retryable_model"))
    (fun r => bool_decide (fr_kind r = LLM_TASK_KIND)) l) as Hs2.
  cbv beta in Hs1, Hs2. split_and!; [lia| |lia|lia| |].
  - rewrite sat_i64_id by (unfold_widths; lia). unfold i64_to_u64. destruct (_ <=? 0) eqn:E; zbool; lia.
  - rewrite bucket_counts_sum by (unfold_widths; lia). lia.
  - rewrite bucket_counts_sum by (unfold_widths; lia). lia.
Qed.
End stats_lemmas.

Lemma stats_consistent_witness :
  ∃ s, compute_queue_stats all_columns 100 120 120000 run1 = Ok s ∧
    qs_pending s + qs_claimed s + qs_failed s = Z.of_nat (size (q_pending run1)).
Proof.
  destruct (stats_consistent 100 120 120000 run1) as (s & Hs & Hsum & _).
  - apply (evolves_wf (msg_ids id_env_ok) (claim_tokens id_env_ok) empty_qdb); [apply empty_queue_wf|].
    apply (queue_steps_run (any_store id_env_ok)), run_init.
  - vm_compute. discriminate.
  - exists s. split; [exact Hs|exact Hsum].
Defined.
