(* ===== verification/EndpointPool.v ===== *)
(** * The model-endpoint pool

    [src/src/endpoint_pool.rs]: the endpoints of a model family in priority
    order, with per-endpoint cooldowns, fallback past saturated endpoints, and
    the error of an exhausted pool. One request is routed at a time; its provider
    (the [EndpointPoolStrategy]) is an interface. *)

From Stdlib Require Import ZArith Lia String Ascii.
From stdpp Require Import base tactics list gmap strings numbers sorting.
From S2P Require Import Prelude Text Order SqliteRetry.
Open Scope Z_scope.

(** ** Data *)
Record EndpointPoolEndpoint := {
  ep_id : string;
  ep_model : string;
  ep_priority : Z;
  ep_max_concurrent : Z;
  ep_retry_interval : Z;
}.

Record EndpointPoolItem (C : Type) := PoolItem { it_endpoint : EndpointPoolEndpoint; it_client : C }.
Arguments PoolItem {C} _ _.
Arguments it_endpoint {C} _.
Arguments it_client {C} _.

Record EndpointPoolEntry (C : Type) := PoolEntry {
  pe_endpoint : EndpointPoolEndpoint;
  pe_client : C;
  pe_unavailable_until : option Z;
}.
Arguments PoolEntry {C} _ _ _.
Arguments pe_endpoint {C} _.
Arguments pe_client {C} _.
Arguments pe_unavailable_until {C} _.

Definition EndpointPool (C : Type) : Type := list (EndpointPoolEntry C).

Definition MAX_COOLDOWN_HINT : Z := 60 * 1000 * MILLIS.
(** The last [Instant]: [i64::MAX] seconds and 999999999 nanoseconds. *)
Definition INSTANT_MAX : Z := i64_max * 1000000000 + 999999999.

(** [EndpointPoolStrategy]: the calls change the world, the callbacks included. *)
Class EndpointPoolStrategy (C O E W : Type) := {
  try_endpoint : EndpointPoolEntry C → W → W * result (option O) E;
  wait_for_endpoint : EndpointPoolEntry C → W → W * result O E;
  should_try_next : E → bool;
  retry_after_for_error : EndpointPoolEntry C → E → option Z;
  all_cooling_down_error : nat → Z → option E → E;
  no_endpoint_available_error : E;
  clear_cooldown_on_success : bool;
  on_cooldown_marked : EndpointPoolEntry C → Z → E → W → W;
  on_cooldown_cleared : EndpointPoolEntry C → W → W;
}.

(** ** Construction *)

Section new.
Context {C : Type}.

(** [sort_by_key(|(index, item)| (priority, index))]. *)
Definition priority_leb (a b : nat * EndpointPoolItem C) : bool :=
  not_gt (then_with (ep_priority (it_endpoint a.2) ?= ep_priority (it_endpoint b.2))
            (Z.of_nat a.1 ?= Z.of_nat b.1)).

Definition pool_new (items : list (EndpointPoolItem C)) : EndpointPool C :=
  map (fun e => PoolEntry (it_endpoint e.2) (it_client e.2) None)
    (sort_by priority_leb (imap pair items)).

Definition endpoint_count (p : EndpointPool C) : nat := length p.

Definition pool_capacity (p : EndpointPool C) : Z :=
  foldr Z.add 0 (map (fun e => Z.max (ep_max_concurrent (pe_endpoint e)) 1) p).
End new.

Definition min_retry_after (current : option Z) (next : Z) : Z :=
  match current with Some current => Z.min current next | None => next end.

(** ** Routing *)
Section route.
Context {C O E W : Type} `{Clock W} `{!EndpointPoolStrategy C O E W}.
Implicit Types (e : EndpointPoolEntry C) (w : W).

Definition with_until (u : option Z) e : EndpointPoolEntry C :=
  PoolEntry (pe_endpoint e) (pe_client e) u.

Definition temporary_unavailable_remaining e w : EndpointPoolEntry C * W * option Z :=
  match pe_unavailable_until e with
  | None => (e, w, None)
  | Some until =>
      let '(w, now) := instant_now w in
      if now <? until then
        let '(w, now) := instant_now w in (e, w, Some (Z.max 0 (until - now)))
      else
        let e := with_until None e in (e, on_cooldown_cleared e w, None)
  end.

(** [now.checked_add(retry_after)]. *)
Definition checked_add (now retry_after : Z) : option Z :=
  if now + retry_after <=? INSTANT_MAX then Some (now + retry_after) else None.

Definition mark_temporarily_unavailable (retry_after : Z) (error : E) e w
    : EndpointPoolEntry C * W :=
  let '(w, now) := instant_now w in
  let e := with_until (Some (default (now + MAX_COOLDOWN_HINT) (checked_add now retry_after))) e in
  (e, on_cooldown_marked e retry_after error w).

Definition mark_available e w : EndpointPoolEntry C * W :=
  let e := with_until None e in (e, on_cooldown_cleared e w).

Definition clear_if_asked e w : EndpointPoolEntry C * W :=
  if clear_cooldown_on_success then mark_available e w else (e, w).

(** The mutable variables of [route]; the saturated endpoint by its index. *)
Record route_acc := RouteAcc {
  ra_first_retryable : option E;
  ra_earliest_retry_after : option Z;
  ra_first_saturated : option nat;
}.

(** The loop over the endpoints: a value is returned, or every endpoint was
    passed over. *)
Fixpoint route_loop (es : EndpointPool C) (i : nat) (acc : route_acc) w
    : EndpointPool C * W * (result O E + route_acc) :=
  match es with
  | [] => ([], w, inr acc)
  | e :: rest =>
      let next e acc w :=
        let '(rest', w, r) := route_loop rest (S i) acc w in (e :: rest', w, r) in
      let '(e, w, cooling) := temporary_unavailable_remaining e w in
      match cooling with
      | Some retry_after =>
          next e (RouteAcc (ra_first_retryable acc)
                    (Some (min_retry_after (ra_earliest_retry_after acc) retry_after))
                    (ra_first_saturated acc)) w
      | None =>
          match try_endpoint e w with
          | (w, Ok (Some output)) =>
              let '(e, w) := clear_if_asked e w in (e :: rest, w, inl (Ok output))
          | (w, Ok None) =>
              next e (RouteAcc (ra_first_retryable acc) (ra_earliest_retry_after acc)
                        (match ra_first_saturated acc with None => Some i | s => s end)) w
          | (w, Err error) =>
              if should_try_next error then
                let first := match ra_first_retryable acc with None => Some error | f => f end in
                match retry_after_for_error e error with
                | Some retry_after =>
                    let '(e, w) := mark_temporarily_unavailable retry_after error e w in
                    next e (RouteAcc first
                              (Some (min_retry_after (ra_earliest_retry_after acc) retry_after))
                              (ra_first_saturated acc)) w
                | None =>
                    next e (RouteAcc first (ra_earliest_retry_after acc) (ra_first_saturated acc)) w
                end
              else (e :: rest, w, inl (Err error))
          end
      end
  end.

Definition exhausted_error (n : nat) (acc : route_acc) : E :=
  match ra_first_retryable acc, ra_earliest_retry_after acc with
  | None, Some retry_after => all_cooling_down_error n retry_after None
  | Some error, Some retry_after => all_cooling_down_error n retry_after (Some error)
  | Some error, None => error
  | None, None => no_endpoint_available_error
  end.

Definition route (p : EndpointPool C) w : EndpointPool C * W * result O E :=
  let '(p, w, r) := route_loop p 0 (RouteAcc None None None) w in
  match r with
  | inl r => (p, w, r)
  | inr acc =>
      match ra_first_saturated acc with
      | Some i =>
          match p !! i with
          | Some e =>
              match wait_for_endpoint e w with
              | (w, Ok output) =>
                  let '(e, w) := clear_if_asked e w in (<[i := e]> p, w, Ok output)
              | (w, Err error) => (p, w, Err error)
              end
          | None => (p, w, Err no_endpoint_available_error)
          end
      | None => (p, w, Err (exhausted_error (length p) acc))
      end
  end.
End route.
Arguments route_acc E : clear implicits.

(** ** Lemmas *)

Section new_lemmas.
Context {C : Type}.

#[local] Instance priority_cmp_ok : Comparator (fun a b : nat * EndpointPoolItem C =>
  then_with (ep_priority (it_endpoint a.2) ?= ep_priority (it_endpoint b.2))
    (Z.of_nat a.1 ?= Z.of_nat b.1)).
Proof.
  apply (lex_comparator
    (fun a b : nat * EndpointPoolItem C => ep_priority (it_endpoint a.2) ?= ep_priority (it_endpoint b.2))
    (fun a b => Z.of_nat a.1 ?= Z.of_nat b.1)).
  - apply (on_comparator (fun a : nat * EndpointPoolItem C => ep_priority (it_endpoint a.2))), _.
  - apply (on_comparator (fun a : nat * EndpointPoolItem C => Z.of_nat a.1)), _.
Qed.

Definition entry_of (item : EndpointPoolItem C) : EndpointPoolEntry C :=
  PoolEntry (it_endpoint item) (it_client item) None.

Lemma pool_new_perm items : pool_new items ≡ₚ map entry_of items.
Proof.
  unfold pool_new. rewrite sort_by_perm.
  assert (Hmap : ∀ f : nat → nat, map (fun e : nat * EndpointPoolItem C => entry_of e.2)
            (imap (fun i x => (f i, x)) items) = map entry_of items).
  { induction items as [|x items IH]; intros f; [done|]. simpl. f_equal. apply (IH (fun i => f (S i))). }
  change (imap pair items) with (imap (fun i (x : EndpointPoolItem C) => (i, x)) items).
  by rewrite <- (Hmap (fun i => i)).
Qed.

Lemma pool_new_sorted items :
  StronglySorted (fun a b : EndpointPoolEntry C => ep_priority (pe_endpoint a) <= ep_priority (pe_endpoint b)) (pool_new items).
Proof.
  unfold pool_new. pose proof (sort_by_cmp_sorted (fun a b : nat * EndpointPoolItem C =>
    then_with (ep_priority (it_endpoint a.2) ?= ep_priority (it_endpoint b.2))
      (Z.of_nat a.1 ?= Z.of_nat b.1)) (imap pair items)) as Hs.
  change (sort_by priority_leb (imap pair items)) with
    (sort_by (fun a b : nat * EndpointPoolItem C => not_gt (then_with
       (ep_priority (it_endpoint a.2) ?= ep_priority (it_endpoint b.2)) (Z.of_nat a.1 ?= Z.of_nat b.1)))
       (imap pair items)).
  induction Hs as [|x l _ IH Hx]; [constructor|]. simpl. constructor; [done|].
  apply Forall_map. eapply Forall_impl; [exact Hx|]. intros y. simpl.
  destruct (Z.compare_spec (ep_priority (it_endpoint x.2)) (ep_priority (it_endpoint y.2)));
    simpl; [lia|lia|done].
Qed.
End new_lemmas.

Section route_lemmas.
Context {C O E W : Type} `{Clock W} `{!EndpointPoolStrategy C O E W}.
Implicit Types (e : EndpointPoolEntry C) (w : W) (acc : route_acc E).

Lemma route_loop_app pre rest i acc w pre' w' acc' :
  route_loop pre i acc w = (pre', w', inr acc') →
  route_loop (pre ++ rest) i acc w =
  let '(rest', w'', r) := route_loop rest (i + length pre) acc' w' in (pre' ++ rest', w'', r).
Proof.
  revert i acc w pre'. induction pre as [|e pre IH]; intros i acc w pre' Hl; cbn [route_loop app] in *.
  { injection Hl as <- <- <-. rewrite Nat.add_0_r. by destruct (route_loop rest i acc w) as [[? ?] ?]. }
  replace (i + length (e :: pre))%nat with (S i + length pre)%nat by (simpl; lia).
  destruct (temporary_unavailable_remaining e w) as [[e1 w1] [ra|]].
  { destruct (route_loop pre _ _ w1) as [[pre1 w2] r1] eqn:Hp. injection Hl as <- <- ->.
    rewrite (IH _ _ _ _ Hp). by destruct (route_loop rest _ _ _) as [[? ?] ?]. }
  destruct (try_endpoint e1 w1) as [w2 [[out|]|err]].
  { destruct (clear_if_asked e1 w2) as [? ?]. done. }
  { destruct (route_loop pre _ _ w2) as [[pre1 w3] r1] eqn:Hp. injection Hl as <- <- ->.
    rewrite (IH _ _ _ _ Hp). by destruct (route_loop rest _ _ _) as [[? ?] ?]. }
  destruct (should_try_next err); [|done]. destruct (retry_after_for_error e1 err).
  { destruct (mark_temporarily_unavailable _ _ _ _) as [e2 w3].
    destruct (route_loop pre _ _ w3) as [[pre1 w4] r1] eqn:Hp. injection Hl as <- <- ->.
    rewrite (IH _ _ _ _ Hp). by destruct (route_loop rest _ _ _) as [[? ?] ?]. }
  destruct (route_loop pre _ _ w2) as [[pre1 w3] r1] eqn:Hp. injection Hl as <- <- ->.
  rewrite (IH _ _ _ _ Hp). by destruct (route_loop rest _ _ _) as [[? ?] ?].
Qed.

(** Something was recorded of a pool that was passed over. *)
Definition recorded acc : Prop :=
  is_Some (ra_first_retryable acc) ∨ is_Some (ra_earliest_retry_after acc) ∨
  is_Some (ra_first_saturated acc).

Lemma route_loop_recorded es i acc w es' w' acc' :
  route_loop es i acc w = (es', w', inr acc') → length es' = length es ∧ (es ≠ [] ∨ recorded acc → recorded acc').
Proof.
  revert i acc w es'. induction es as [|e es IH]; intros i acc w es' Hl; cbn [route_loop] in Hl.
  { injection Hl as <- <- <-. naive_solver. }
  assert (Hnext : ∀ e1 a w1, (let '(rest', w0, r) := route_loop es (S i) a w1 in (e1 :: rest', w0, r))
     = (es', w', inr acc') → recorded a → length es' = S (length es) ∧ recorded acc').
  { intros e1 a w1 Hn Ha. destruct (route_loop es (S i) a w1) as [[es1 w2] r] eqn:Hp.
    injection Hn as <- <- ->. destruct (IH _ _ _ _ Hp) as [Hlen Hr]. simpl. split; [lia|auto]. }
  assert (Hdone : length es' = S (length es) ∧ recorded acc'); [|tauto].
  destruct (temporary_unavailable_remaining e w) as [[e1 w1] [ra|]].
  { eapply Hnext; [exact Hl|]. right; left. by eexists. }
  destruct (try_endpoint e1 w1) as [w2 [[out|]|err]].
  { destruct (clear_if_asked e1 w2) as [? ?]. done. }
  { eapply Hnext; [exact Hl|]. right; right. simpl. destruct (ra_first_saturated acc); by eexists. }
  destruct (should_try_next err); [|done]. destruct (retry_after_for_error e1 err).
  { destruct (mark_temporarily_unavailable _ _ _ _) as [e2 w3].
    eapply Hnext; [exact Hl|]. right; left. by eexists. }
  eapply Hnext; [exact Hl|]. left. simpl. destruct (ra_first_retryable acc); by eexists.
Qed.

(** The endpoint with no running cooldown. *)
Definition available e : Prop := pe_unavailable_until e = None.

Lemma route_loop_serves e rest i acc w w1 out :
  available e → try_endpoint e w = (w1, Ok (Some out)) →
  ∃ e' w2, route_loop (e :: rest) i acc w = (e' :: rest, w2, inl (Ok out)) ∧
    pe_endpoint e' = pe_endpoint e ∧ available e'.
Proof.
  intros Ha Ht. cbn [route_loop]. unfold temporary_unavailable_remaining. rewrite Ha, Ht.
  unfold clear_if_asked. destruct clear_cooldown_on_success; simpl;
    (eexists _, _; split; [reflexivity|]; by split).
Qed.

(** Failover. When every endpoint before [e] in priority order was passed over
    (it was cooling down, saturated, or failed with an error worth retrying
    elsewhere) and [e] serves the request, the request succeeds with [e]'s
    answer, and no endpoint after [e] is consulted or changed. *)
Theorem route_failover pre e post w pre' w1 acc w2 out :
  route_loop pre 0 (RouteAcc None None None) w = (pre', w1, inr acc) →
  available e → try_endpoint e w1 = (w2, Ok (Some out)) →
  ∃ e' w3, route (pre ++ e :: post) w = (pre' ++ e' :: post, w3, Ok out) ∧
    pe_endpoint e' = pe_endpoint e ∧ available e'.
Proof.
  intros Hpre Ha Ht. unfold route. rewrite (route_loop_app _ _ _ _ _ _ _ _ Hpre).
  destruct (route_loop_serves e post (0 + length pre) acc w1 w2 out Ha Ht) as (e' & w3 & -> & He).
  by exists e', w3.
Qed.

(** An exhausted pool says why. When no endpoint served the request and none
    was saturated, the error carries the first retryable failure or the
    earliest time to retry, never the error of an empty pool. *)
Theorem route_exhausted p w p' w' acc :
  p ≠ [] → route_loop p 0 (RouteAcc None None None) w = (p', w', inr acc) →
  ra_first_saturated acc = None →
  ∃ err, route p w = (p', w', Err err) ∧
    ((∃ ra first, ra_earliest_retry_after acc = Some ra ∧ first = ra_first_retryable acc ∧
        err = all_cooling_down_error (length p) ra first) ∨
     (ra_earliest_retry_after acc = None ∧ ra_first_retryable acc = Some err)).
Proof.
  intros Hp Hl Hs. destruct (route_loop_recorded _ _ _ _ _ _ _ Hl) as [Hlen Hrec].
  exists (exhausted_error (length p) acc). unfold route. rewrite Hl, Hs, Hlen. split; [done|].
  specialize (Hrec (or_introl Hp)). unfold exhausted_error, recorded in *. rewrite Hs in Hrec.
  destruct (ra_first_retryable acc) as [err|], (ra_earliest_retry_after acc) as [ra|];
    [left; by exists ra, (Some err)|by right|left; by exists ra, None|].
  destruct Hrec as [[? [=]]|[[? [=]]|[? [=]]]].
Qed.
End route_lemmas.

(** The pool tries endpoints in rising priority; the sort is a rearrangement
    of the configured endpoints, and none starts in a cooldown. *)
Theorem pool_new_by_priority {C} (items : list (EndpointPoolItem C)) :
  pool_new items ≡ₚ map entry_of items ∧
  StronglySorted (fun a b : EndpointPoolEntry C => ep_priority (pe_endpoint a) <= ep_priority (pe_endpoint b)) (pool_new items) ∧
  Forall available (pool_new items).
Proof.
  split_and!; [apply pool_new_perm|apply pool_new_sorted|].
  rewrite pool_new_perm. apply Forall_map, Forall_true. done.
Qed.

(** ** An instance

    Clients answer, are saturated, or fail with a hint; the world is the clock. *)
Inductive scripted := Answers (n : Z) | Saturated | FailsFor (retry_after : Z).

#[export] Instance scripted_strategy : EndpointPoolStrategy scripted Z string Z :=
  {| try_endpoint e w := match pe_client e with
                         | Answers n => (w, Ok (Some n))
                         | Saturated => (w, Ok None)
                         | FailsFor _ => (w, Err "busy")
                         end;
     wait_for_endpoint e w := (w, Err "cancelled");
     should_try_next _ := true;
     retry_after_for_error e _ := match pe_client e with FailsFor d => Some d | _ => None end;
     all_cooling_down_error n ra _ := "cooling for " +:+ show ra;
     no_endpoint_available_error := "none";
     clear_cooldown_on_success := false;
     on_cooldown_marked _ _ _ w := w;
     on_cooldown_cleared _ w := w |}.

Definition scripted_item (id : string) (priority : Z) (c : scripted) : EndpointPoolItem scripted :=
  PoolItem (Build_EndpointPoolEndpoint id "m" priority 1 0) c.

Definition scripted_pool : EndpointPool scripted :=
  pool_new [scripted_item "b" 2 (Answers 7); scripted_item "a" 1 (FailsFor 30)].

Definition failing_pool : EndpointPool scripted := pool_new [scripted_item "a" 1 (FailsFor 30)].

Lemma route_failover_witness :
  ∃ e' w, route scripted_pool 100 =
    ([PoolEntry (Build_EndpointPoolEndpoint "a" "m" 1 1 0) (FailsFor 30) (Some 130)] ++ [e'], w, Ok 7).
Proof.
  destruct (route_failover failing_pool
    (entry_of (scripted_item "b" 2 (Answers 7))) [] 100
    [PoolEntry (Build_EndpointPoolEndpoint "a" "m" 1 1 0) (FailsFor 30) (Some 130)] 100
    (RouteAcc (Some "busy") (Some 30) None) 100 7) as (e' & w & Hr & _).
  - vm_compute. reflexivity.
  - reflexivity.
  - reflexivity.
  - exists e', w. exact Hr.
Defined.

Lemma route_exhausted_witness : ∃ p' w' err, route failing_pool 100 = (p', w', Err err).
Proof.
  destruct (route_exhausted failing_pool 100
    [PoolEntry (Build_EndpointPoolEndpoint "a" "m" 1 1 0) (FailsFor 30) (Some 130)] 100
    (RouteAcc (Some "busy") (Some 30) None)) as (err & Hr & _).
  - discriminate.
  - vm_compute. reflexivity.
  - reflexivity.
  - eexists _, _, err. exact Hr.
Defined.
