(* ===== verification/CoworkInbox.v ===== *)
(** * The cowork inbox

    [src/src/cowork/inbox.rs] and the [Tool] of [src/src/cowork/peek.rs]: a
    file-based message queue between two agents of one project. The state is the
    file system as a map from paths to contents; what the system calls return is
    an argument. JSON is an interface. *)

From Stdlib Require Import ZArith Lia String Ascii.
From stdpp Require Import base tactics list gmap strings numbers.
From S2P Require Import Prelude Text.
Open Scope Z_scope.
Open Scope rust_scope.

(** ** Tools *)
Inductive Tool := Claude | Codex | Auto.

#[export] Instance tool_eq_dec : EqDecision Tool.
Proof. solve_decision. Defined.

Definition from_str_ci (s : string) : option Tool :=
  let s := to_ascii_lowercase s in
  if bool_decide (s ∈ ["claude"; "claude-code"; "claude_code"]) then Some Claude
  else if bool_decide (s ∈ ["codex"; "codex-cli"; "codex_cli"; "codex-tui"; "codex-mcp-client"])
  then Some Codex
  else if bool_decide (s = "auto") then Some Auto
  else None.

Definition from_target_str (s : string) : option Tool :=
  match from_str_ci s with Some Auto => None | other => other end.

Definition dir_name (t : Tool) : string :=
  match t with Claude => "claude" | Codex => "codex" | Auto => "auto" end.

Definition partner (t : Tool) : option Tool :=
  match t with Claude => Some Codex | Codex => Some Claude | Auto => None end.

Inductive PeekError := CannotInferPartner | SelfPeek | PeekIo (message : string) | PeekParse (message : string).

Definition infer_partner (requested : Tool) (caller_tool : option Tool) : result Tool PeekError :=
  match requested with
  | Claude | Codex => Ok requested
  | Auto => match caller_tool with
            | Some Claude => Ok Codex
            | Some Codex => Ok Claude
            | _ => Err CannotInferPartner
            end
  end.

(** [peek_partner], with the two session readers as arguments. *)
Definition peek_partner {A} (tool : Tool) (caller_tool : option Tool)
    (peek_claude peek_codex : result A PeekError) : result A PeekError :=
  let? target := infer_partner tool caller_tool in
  if match caller_tool with Some caller => bool_decide (caller = target) | None => false end
  then Err SelfPeek
  else match target with
       | Claude => peek_claude
       | Codex => peek_codex
       | Auto => Err (PeekParse "infer_partner should have resolved Auto")
       end.

(** ** Paths

    A path is its components, from the root or from the working directory. *)
Record path := Path { p_absolute : bool; p_components : list string }.

Fixpoint join_slash (l : list string) : string :=
  match l with
  | [] => ""
  | [c] => c
  | c :: rest => c +:+ ("/" +:+ join_slash rest)
  end.

Definition path_str (p : path) : string :=
  (if p_absolute p then "/" else "") +:+ join_slash (p_components p).

(** [Path::parent]: the path without its last component. *)
Definition path_parent (p : path) : option path :=
  match p_components p with
  | [] => None
  | _ => Some (Path (p_absolute p) (removelast (p_components p)))
  end.

(** [project_identity_with]: the loop visits the ancestors, the nearest first;
    their number bounds it. *)
Fixpoint project_identity_loop (is_git_root : path → bool) (cwd : path) (fuel : nat) (current : path)
    : path :=
  if is_git_root current then current
  else match fuel with
       | O => cwd
       | S fuel' =>
           match path_parent current with
           | Some parent => project_identity_loop is_git_root cwd fuel' parent
           | None => cwd
           end
       end.

Definition project_identity (is_git_root : path → bool) (cwd : path) : path :=
  project_identity_loop is_git_root cwd (length (p_components cwd)) cwd.

Fixpoint replace_char (from to : ascii) (s : string) : string :=
  match s with
  | EmptyString => EmptyString
  | String c rest => String (if Ascii.eqb c from then to else c) (replace_char from to rest)
  end.

(** ** The inbox *)
Definition MAX_MESSAGE_SIZE : Z := 8 * 1024.
Definition MAX_PENDING_MESSAGES : Z := 16.
Definition MAX_TOTAL_INBOX_BYTES : Z := 32 * 1024.

Inductive InboxError :=
  | MessageTooLarge (bytes : Z)
  | InvalidCwd (cwd : string)
  | SelfPush (t : Tool)
  | InboxFull (current_count current_bytes : Z)
  | InboxIo (message : string)
  | InboxJson (message : string).

#[export] Instance inbox_error_eq_dec : EqDecision InboxError.
Proof. solve_decision. Defined.

Record InboxMessage := {
  im_pushed_at : string;
  im_from : string;
  im_content : string;
  im_thread_id : option string;
  im_channel : option string;
}.

(** [serde_json] on messages, and what the file format relies on: a message is
    one non-blank line, and is read back. *)
Class InboxJsonText := {
  msg_to_json : InboxMessage → string;
  msg_of_json : string → option InboxMessage;
}.

Fixpoint no_line_break (s : string) : bool :=
  match s with
  | EmptyString => true
  | String c rest =>
      negb (Ascii.eqb c (ascii_of_N 10)) && negb (Ascii.eqb c (ascii_of_N 13)) && no_line_break rest
  end.

Class InboxJsonLaws `{InboxJsonText} : Prop := {
  msg_json_roundtrip : ∀ m, msg_of_json (msg_to_json m) = Some m;
  msg_json_one_line : ∀ m, no_line_break (msg_to_json m) = true;
  msg_json_trimmed : ∀ m, trim (msg_to_json m) = msg_to_json m;
  msg_json_nonempty : ∀ m, is_empty (msg_to_json m) = false;
}.

Definition encode_project_identity (identity : path) : result string InboxError :=
  let s := path_str identity in
  if negb (p_absolute identity) || contains ".." s then Err (InvalidCwd s)
  else Ok (replace_char "/" "-" s).

Definition inbox_stem (mempal_home : string) (target : Tool) (encoded : string) : string :=
  mempal_home +:+ ("/cowork-inbox/" +:+ (dir_name target +:+ ("/" +:+ encoded))).

(** The inbox file without its extension. *)
Definition inbox_path_stem (is_git_root : path → bool) (mempal_home : string) (target : Tool)
    (cwd : path) : result string InboxError :=
  let? _ := encode_project_identity cwd in
  let? encoded := encode_project_identity (project_identity is_git_root cwd) in
  Ok (inbox_stem mempal_home target encoded).

Definition inbox_path (is_git_root : path → bool) (mempal_home : string) (target : Tool) (cwd : path)
    : result string InboxError :=
  let? stem := inbox_path_stem is_git_root mempal_home target cwd in Ok (stem +:+ ".jsonl").

Abbreviation files := (gmap string string).

(** [str::lines]: split at line feeds; a carriage return before one belongs to
    it, and a final line feed ends the last line. *)
Fixpoint split_lf (s : string) : list string :=
  match s with
  | EmptyString => [""]
  | String c rest =>
      if Ascii.eqb c (ascii_of_N 10) then "" :: split_lf rest
      else match split_lf rest with
           | line :: more => String c line :: more
           | [] => [String c ""]
           end
  end.

Fixpoint strip_cr (s : string) : string :=
  match s with
  | EmptyString => EmptyString
  | String c EmptyString => if Ascii.eqb c (ascii_of_N 13) then "" else s
  | String c rest => String c (strip_cr rest)
  end.

(** Without the empty piece after a final line feed; pieces that a line feed ended
    lose their carriage return. *)
Fixpoint str_lines_of (pieces : list string) : list string :=
  match pieces with
  | [] => []
  | [last] => if is_empty last then [] else [last]
  | line :: rest => strip_cr line :: str_lines_of rest
  end.

Definition str_lines (s : string) : list string := str_lines_of (split_lf s).

(** What the system calls of a push return: directory creation, the read of the
    present content, the open, how many bytes a failing write left. *)
Record push_io := PushIo {
  pi_mkdir : option string;
  pi_read_fails : bool;
  pi_open : option string;
  pi_write : option (nat * string);
  pi_metadata : option string;
}.

Definition push_io_ok : push_io := PushIo None false None None None.

Definition LF : string := String (ascii_of_N 10) "".

Section inbox.
Context `{InboxJsonText} (is_git_root : path → bool) (mempal_home : string).

Definition push (io : push_io) (caller target : Tool) (cwd : path) (content pushed_at : string)
    (fs : files) : files * result (string * Z) InboxError :=
  if bool_decide (caller = target) then (fs, Err (SelfPush caller))
  else if MAX_MESSAGE_SIZE <? str_len content then (fs, Err (MessageTooLarge (str_len content)))
  else
    match inbox_path is_git_root mempal_home target cwd with
    | Err e => (fs, Err e)
    | Ok p =>
        match pi_mkdir io with
        | Some e => (fs, Err (InboxIo e))
        | None =>
            let existing := if pi_read_fails io then "" else default "" (fs !! p) in
            let existing_count :=
              Z.of_nat (length (List.filter (fun l => negb (is_empty (trim l))) (str_lines existing))) in
            let existing_bytes := str_len existing in
            let msg := {| im_pushed_at := pushed_at; im_from := dir_name caller;
                          im_content := content; im_thread_id := None; im_channel := None |} in
            let line := msg_to_json msg in
            let prospective_bytes := sat_u64 (existing_bytes + (str_len line + 1)) in
            if (MAX_PENDING_MESSAGES <? existing_count + 1)
               || (MAX_TOTAL_INBOX_BYTES <? prospective_bytes)
            then (fs, Err (InboxFull existing_count existing_bytes))
            else
              match pi_open io with
              | Some e => (fs, Err (InboxIo e))
              | None =>
                  let before := default "" (fs !! p) in
                  let text := line +:+ LF in
                  match pi_write io with
                  | Some (n, e) =>
                      (<[p := before +:+ String.substring 0 n text]> fs, Err (InboxIo e))
                  | None =>
                      let after := before +:+ text in
                      (<[p := after]> fs,
                       match pi_metadata io with
                       | Some e => Err (InboxIo e)
                       | None => Ok (p, str_len after)
                       end)
                  end
              end
        end
    end.

(** What a drain's rename (other than a missing file), read and removal do. *)
Record drain_io := DrainIo {
  di_rename : option string;
  di_read : option string;
  di_remove_fails : bool;
}.

Definition drain_io_ok : drain_io := DrainIo None None false.

Fixpoint parse_lines (l : list string) : list InboxMessage :=
  match l with
  | [] => []
  | line :: rest =>
      let trimmed := trim line in
      if is_empty trimmed then parse_lines rest
      else match msg_of_json trimmed with
           | Some m => m :: parse_lines rest
           | None => parse_lines rest
           end
  end.

Definition drain (io : drain_io) (target : Tool) (cwd : path) (fs : files)
    : files * result (list InboxMessage) InboxError :=
  match inbox_path_stem is_git_root mempal_home target cwd with
  | Err e => (fs, Err e)
  | Ok stem =>
      let p := stem +:+ ".jsonl" in
      let draining := stem +:+ ".draining" in
      match fs !! p with
      | None => (fs, Ok [])
      | Some content =>
          match di_rename io with
          | Some e => (fs, Err (InboxIo e))
          | None =>
              let fs1 := <[draining := content]> (delete p fs) in
              match di_read io with
              | Some e => (fs1, Err (InboxIo e))
              | None =>
                  (if di_remove_fails io then fs1 else delete draining fs1,
                   Ok (parse_lines (str_lines content)))
              end
          end
      end
  end.
End inbox.

Fixpoint format_messages (messages : list InboxMessage) : string :=
  match messages with
  | [] => ""
  | m :: rest => "- " +:+ (im_pushed_at m +:+ (": " +:+ (im_content m +:+ (LF +:+ format_messages rest))))
  end.

Definition format_plain (from : Tool) (messages : list InboxMessage) : string :=
  match messages with
  | [] => ""
  | _ =>
      let n := Z.of_nat (length messages) in
      "[Partner inbox from " +:+ (dir_name from +:+ (" (" +:+ (show n +:+ (" message" +:+
        ((if n =? 1 then "" else "s") +:+ (" since last check):]" +:+ (LF +:+
        (format_messages messages +:+ ("[End partner inbox]" +:+ LF)))))))))
  end.

(** ** Lines of a file *)
Lemma split_lf_nonempty s : split_lf s ≠ [].
Proof. destruct s as [|c s]; simpl; [done|]. destruct (Ascii.eqb _ _); [done|]. by destruct (split_lf s). Qed.

Lemma no_line_break_cons c s :
  no_line_break (String c s) = true →
  Ascii.eqb c (ascii_of_N 10) = false ∧ Ascii.eqb c (ascii_of_N 13) = false ∧ no_line_break s = true.
Proof. cbn [no_line_break]. rewrite !andb_true_iff, !negb_true_iff. tauto. Qed.

Lemma split_lf_line line rest :
  no_line_break line = true → split_lf (line +:+ (LF +:+ rest)) = line :: split_lf rest.
Proof.
  induction line as [|c line IH]; intros Hl; [done|].
  apply no_line_break_cons in Hl as (H1 & _ & H3).
  autorewrite with text. cbn [split_lf]. rewrite H1, IH by done. done.
Qed.

Lemma strip_cr_id s : no_line_break s = true → strip_cr s = s.
Proof.
  induction s as [|c s IH]; intros Hl; [done|].
  apply no_line_break_cons in Hl as (_ & H2 & H3).
  destruct s as [|d s]; cbn [strip_cr]; [by rewrite H2|]. f_equal. by apply IH.
Qed.

Lemma str_lines_line line rest :
  no_line_break line = true → str_lines (line +:+ (LF +:+ rest)) = line :: str_lines rest.
Proof.
  intros Hl. unfold str_lines. rewrite split_lf_line by done.
  pose proof (split_lf_nonempty rest). destruct (split_lf rest) as [|x l]; [done|].
  cbn [str_lines_of]. by rewrite strip_cr_id.
Qed.

(** ** Project identities *)
Lemma path_parent_components p q :
  path_parent p = Some q →
  p_absolute q = p_absolute p ∧ length (p_components p) = S (length (p_components q)).
Proof.
  unfold path_parent. destruct (p_components p) as [|c l] eqn:E; [done|]. intros [= <-]. simpl.
  split; [done|].
  pose proof (f_equal length (app_removelast_last (l := c :: l) "" ltac:(done))) as Hl.
  rewrite length_app in Hl. simpl in Hl |- *. lia.
Qed.

(** The working directory [n] levels below [top]. *)
Inductive below (top : path) : path → Prop :=
  | below_here : below top top
  | below_parent p q : path_parent p = Some q → below top q → below top p.

(** The first repository root on the way up from [p] is [top]. *)
Inductive nearest_root (is_git_root : path → bool) : path → path → Prop :=
  | nearest_here p : is_git_root p = true → nearest_root is_git_root p p
  | nearest_above p q top :
      is_git_root p = false → path_parent p = Some q →
      nearest_root is_git_root q top → nearest_root is_git_root p top.

Lemma project_identity_loop_root is_git_root cwd top p fuel :
  nearest_root is_git_root p top → (length (p_components p) <= fuel)%nat →
  project_identity_loop is_git_root cwd fuel p = top.
Proof.
  intros H. revert fuel. induction H as [p Hp|p q top Hp Hq _ IH]; intros fuel Hf.
  - destruct fuel; simpl; by rewrite Hp.
  - pose proof (path_parent_components _ _ Hq) as [_ Hlen].
    destruct fuel as [|fuel]; [lia|]. simpl. rewrite Hp, Hq. apply IH. lia.
Qed.

Lemma project_identity_loop_none is_git_root cwd p fuel :
  (∀ a, below a p → is_git_root a = false) → (length (p_components p) <= fuel)%nat →
  project_identity_loop is_git_root cwd fuel p = cwd.
Proof.
  revert p. induction fuel as [|fuel IH]; intros p Hno Hf; simpl;
    rewrite (Hno p) by constructor; [done|].
  destruct (path_parent p) as [q|] eqn:Hq; [|done].
  pose proof (path_parent_components _ _ Hq) as [_ Hlen].
  apply IH; [|lia]. intros a Ha. apply Hno. by econstructor.
Qed.

(** A directory's path is a prefix of the paths below it, so what a path must not
    contain its ancestors do not contain either. *)
Lemma join_slash_snoc l c : ∃ t, join_slash (l ++ [c]) = join_slash l +:+ t.
Proof.
  induction l as [|d l [t IH]]; [by exists c|].
  destruct l as [|e l]; [by exists ("/" +:+ c)|]. exists t.
  change (d +:+ ("/" +:+ join_slash ((e :: l) ++ [c])) = (d +:+ ("/" +:+ join_slash (e :: l))) +:+ t).
  rewrite IH. by rewrite !str_app_assoc.
Qed.

Lemma path_str_parent p q : path_parent p = Some q → ∃ t, path_str p = path_str q +:+ t.
Proof.
  unfold path_parent, path_str. destruct (p_components p) as [|c l] eqn:E; [done|]. intros Hq.
  apply (inj Some) in Hq as <-. cbn [p_absolute p_components].
  destruct (join_slash_snoc (removelast (c :: l)) (List.last (c :: l) "")) as [t Ht].
  rewrite <- app_removelast_last in Ht by done. exists t.
  by rewrite Ht, str_app_assoc.
Qed.

Lemma encode_parent p q :
  path_parent p = Some q → is_ok (encode_project_identity p) = true → is_ok (encode_project_identity q) = true.
Proof.
  intros Hq. unfold encode_project_identity. destruct (path_parent_components _ _ Hq) as [-> _].
  destruct (path_str_parent _ _ Hq) as [t ->]. destruct (p_absolute p); simpl; [|done].
  destruct (contains ".." (path_str q)) eqn:E; [|done]. by rewrite (contains_app _ _ _ E).
Qed.

Lemma nearest_root_is_root is_git_root p top : nearest_root is_git_root p top → is_git_root top = true.
Proof. by induction 1. Qed.

Lemma nearest_root_encode is_git_root p top :
  nearest_root is_git_root p top → is_ok (encode_project_identity p) = true →
  is_ok (encode_project_identity top) = true.
Proof. induction 1 as [|p q top _ Hq _ IH]; [done|]. intros H. apply IH. by apply (encode_parent p q). Qed.

(** Two agents of one project share the inbox: from any valid directory whose
    nearest enclosing repository root is [root] the inbox exists and is the one
    of the root itself; a directory outside every repository is its own project. *)
Theorem project_shares_inbox is_git_root mempal_home target cwd root :
  is_ok (encode_project_identity cwd) = true →
  (nearest_root is_git_root cwd root →
     is_ok (inbox_path is_git_root mempal_home target cwd) = true
     ∧ inbox_path is_git_root mempal_home target cwd = inbox_path is_git_root mempal_home target root)
  ∧ ((∀ a, below a cwd → is_git_root a = false) → project_identity is_git_root cwd = cwd).
Proof.
  intros Hok. split; [|intros Hno; by apply project_identity_loop_none].
  intros Hr. pose proof (nearest_root_encode _ _ _ Hr Hok) as Hok'.
  pose proof (nearest_here _ _ (nearest_root_is_root _ _ _ Hr)) as Htop.
  unfold inbox_path, inbox_path_stem, project_identity.
  rewrite (project_identity_loop_root _ cwd root cwd) by done.
  rewrite (project_identity_loop_root _ root root root) by done.
  destruct (encode_project_identity cwd); [|done]. by destruct (encode_project_identity root).
Qed.

Lemma project_shares_inbox_witness :
  let git p := bool_decide (p_components p = ["w"; "proj"]) in
  inbox_path git "/h/.mempal" Codex (Path true ["w"; "proj"; "src"; "core"])
  = Ok "/h/.mempal/cowork-inbox/codex/-w-proj.jsonl"
  ∧ inbox_path git "/h/.mempal" Codex (Path true ["w"; "proj"; "src"; "core"])
    = inbox_path git "/h/.mempal" Codex (Path true ["w"; "proj"]).
Proof.
  intros git. split; [vm_compute; reflexivity|].
  apply (proj1 (project_shares_inbox git "/h/.mempal" Codex (Path true ["w"; "proj"; "src"; "core"])
    (Path true ["w"; "proj"]) ltac:(vm_compute; reflexivity))).
  do 2 (eapply nearest_above; [vm_compute; reflexivity|vm_compute; reflexivity|]).
  apply nearest_here. vm_compute. reflexivity.
Defined.

(** The file name does not determine the project: two directories of different
    projects can share an inbox. *)
Lemma encode_collision :
  encode_project_identity (Path true ["w"; "a-b"]) = encode_project_identity (Path true ["w"; "a"; "b"])
  ∧ Path true ["w"; "a-b"] ≠ Path true ["w"; "a"; "b"].
Proof. split; [vm_compute; reflexivity|done]. Qed.

(** ** What an inbox file holds *)
Section inbox_facts.
Context `{InboxJsonLaws} (is_git_root : path → bool) (mempal_home : string).

Fixpoint render (ms : list InboxMessage) : string :=
  match ms with
  | [] => ""
  | m :: rest => msg_to_json m +:+ (LF +:+ render rest)
  end.

Definition inbox_holds (fs : files) (p : string) (ms : list InboxMessage) : Prop :=
  default "" (fs !! p) = render ms.

Lemma render_app ms1 ms2 : render (ms1 ++ ms2) = render ms1 +:+ render ms2.
Proof. induction ms1 as [|m ms IH]; [done|]. simpl. by rewrite IH, !str_app_assoc. Qed.

Lemma render_snoc ms m : render (ms ++ [m]) = render ms +:+ (msg_to_json m +:+ LF).
Proof. rewrite render_app. simpl. by rewrite str_app_nil_r. Qed.

Lemma str_lines_render ms : str_lines (render ms) = map msg_to_json ms.
Proof.
  induction ms as [|m ms IH]; [done|]. cbn [render].
  rewrite str_lines_line by apply msg_json_one_line. by rewrite IH.
Qed.

Lemma count_render ms :
  length (List.filter (fun l => negb (is_empty (trim l))) (str_lines (render ms))) = length ms.
Proof.
  rewrite str_lines_render. induction ms as [|m ms IH]; [done|]. cbn [map List.filter].
  rewrite msg_json_trimmed, msg_json_nonempty. simpl. by rewrite IH.
Qed.

Lemma parse_render ms : parse_lines (str_lines (render ms)) = ms.
Proof.
  rewrite str_lines_render. induction ms as [|m ms IH]; [done|]. cbn [map parse_lines].
  by rewrite msg_json_trimmed, msg_json_nonempty, msg_json_roundtrip, IH.
Qed.

Definition pushed (caller : Tool) (content pushed_at : string) : InboxMessage :=
  {| im_pushed_at := pushed_at; im_from := dir_name caller; im_content := content;
     im_thread_id := None; im_channel := None |}.

(** A push whose file operations succeed. *)
Definition quiet_push (io : push_io) : Prop :=
  pi_read_fails io = false ∧ pi_write io = None ∧ pi_metadata io = None.

Definition inbox_room (ms : list InboxMessage) : Prop :=
  Z.of_nat (length ms) <= MAX_PENDING_MESSAGES ∧ str_len (render ms) <= MAX_TOTAL_INBOX_BYTES.

Lemma push_spec io caller target cwd content pushed_at fs p ms :
  quiet_push io → inbox_path is_git_root mempal_home target cwd = Ok p → inbox_holds fs p ms →
  let m := pushed caller content pushed_at in
  match push is_git_root mempal_home io caller target cwd content pushed_at fs with
  | (fs', Ok (p', n)) =>
      p' = p ∧ fs' = <[p := render (ms ++ [m])]> fs ∧ n = str_len (render (ms ++ [m]))
      ∧ inbox_room (ms ++ [m]) ∧ caller ≠ target ∧ str_len content <= MAX_MESSAGE_SIZE
  | (fs', Err (InboxFull c b)) =>
      fs' = fs ∧ c = Z.of_nat (length ms) ∧ b = str_len (render ms) ∧ ¬ inbox_room (ms ++ [m])
  | (fs', Err _) => fs' = fs
  end.
Proof.
  intros (Hr & Hw & Hm) Hp Hms m. unfold push. rewrite Hp, Hr, Hw, Hm, Hms, count_render.
  case_bool_decide; [done|]. destruct (MAX_MESSAGE_SIZE <? str_len content) eqn:Hsz; [done|].
  destruct (pi_mkdir io); [done|]. cbv zeta.
  change (Build_InboxMessage pushed_at (dir_name caller) content None None) with m.
  set (line := msg_to_json m).
  assert (Hlen : str_len (render (ms ++ [m])) = str_len (render ms) + (str_len line + 1)).
  { rewrite render_snoc. unfold str_len, line. rewrite !str_length_app. simpl. lia. }
  assert (Hsat : (MAX_TOTAL_INBOX_BYTES <? sat_u64 (str_len (render ms) + (str_len line + 1)))
    = (MAX_TOTAL_INBOX_BYTES <? str_len (render (ms ++ [m])))).
  { rewrite Hlen. unfold sat_u64, u64_max, MAX_TOTAL_INBOX_BYTES, str_len. clear. apply eq_true_iff_eq.
    rewrite !Z.ltb_lt. lia. }
  rewrite Hsat. clear Hsat.
  assert (Hroom : inbox_room (ms ++ [m]) ↔ (MAX_PENDING_MESSAGES <? Z.of_nat (length ms) + 1)
    || (MAX_TOTAL_INBOX_BYTES <? str_len (render (ms ++ [m]))) = false).
  { unfold inbox_room. rewrite length_app, orb_false_iff, !Z.ltb_ge. simpl. lia. }
  destruct (_ || _) eqn:Hfull.
  - split; [done|]. split; [done|]. split; [done|]. intros Hr'. by apply Hroom in Hr'.
  - destruct (pi_open io); [done|]. unfold line. rewrite <- render_snoc. zbool.
    by pose proof (proj2 Hroom eq_refl).
Qed.

(** A drain whose read succeeds. *)
Definition quiet_drain (io : drain_io) : Prop := di_read io = None.

Lemma inbox_path_of_stem target cwd stem :
  inbox_path_stem is_git_root mempal_home target cwd = Ok stem →
  inbox_path is_git_root mempal_home target cwd = Ok (stem +:+ ".jsonl").
Proof. unfold inbox_path. by intros ->. Qed.

(** The parked file of a drain is no inbox. *)
Lemma draining_not_inbox stem stem' : stem +:+ ".draining" ≠ stem' +:+ ".jsonl".
Proof.
  intros E. apply (f_equal (fun s => String.rev s)) in E. revert E.
  assert (Hrev : ∀ s t acc, String.rev_app (s +:+ t) acc = String.rev_app t (String.rev_app s acc)).
  { intros s t. induction s as [|c s IH]; intros acc; [done|]. apply IH. }
  unfold String.rev. rewrite !Hrev. simpl. congruence.
Qed.

Lemma drain_spec io target cwd fs p ms :
  quiet_drain io → inbox_path is_git_root mempal_home target cwd = Ok p → inbox_holds fs p ms →
  match drain is_git_root mempal_home io target cwd fs with
  | (fs', Ok got) =>
      got = ms ∧ fs' !! p = None
      ∧ ∀ q, q ≠ p → (∀ stem, q ≠ stem +:+ ".draining") → fs' !! q = fs !! q
  | (fs', Err _) => fs' = fs
  end.
Proof.
  intros Hrd Hp Hms. unfold drain. unfold inbox_path in Hp.
  destruct (inbox_path_stem _ _ _ _) as [stem|e]; [|done]. injection Hp as <-.
  unfold inbox_holds in Hms.
  destruct (fs !! (stem +:+ ".jsonl")) as [content|] eqn:Hc; simpl in Hms.
  - destruct (di_rename io); [done|]. rewrite Hrd. split; [by rewrite Hms, parse_render|].
    pose proof (draining_not_inbox stem stem) as Hne.
    split; [|intros q Hq Hd; specialize (Hd stem)];
      destruct (di_remove_fails io);
      by simplify_map_eq.
  - split; [|by split]. destruct ms as [|m ms]; [done|].
    pose proof (str_lines_render (m :: ms)) as E. by rewrite <- Hms in E.
Qed.

(** ** Runs: pushes and drains of any agents, in any order *)
Inductive inbox_op :=
  | PushOp (io : push_io) (caller target : Tool) (cwd : path) (content pushed_at : string)
  | DrainOp (io : drain_io) (target : Tool) (cwd : path).

Definition quiet_op (op : inbox_op) : Prop :=
  match op with
  | PushOp io _ _ _ _ _ => quiet_push io
  | DrainOp io _ _ => quiet_drain io
  end.

Definition op_inbox (op : inbox_op) : result string InboxError :=
  match op with
  | PushOp _ _ target cwd _ _ => inbox_path is_git_root mempal_home target cwd
  | DrainOp _ target cwd => inbox_path is_git_root mempal_home target cwd
  end.

(** What one operation does: the files, the message it accepted, the messages it
    delivered. *)
Definition run_op (op : inbox_op) (fs : files)
    : files * (list InboxMessage * list InboxMessage) :=
  match op with
  | PushOp io caller target cwd content pushed_at =>
      match push is_git_root mempal_home io caller target cwd content pushed_at fs with
      | (fs', Ok _) => (fs', ([pushed caller content pushed_at], []))
      | (fs', Err _) => (fs', ([], []))
      end
  | DrainOp io target cwd =>
      match drain is_git_root mempal_home io target cwd fs with
      | (fs', Ok got) => (fs', ([], got))
      | (fs', Err _) => (fs', ([], []))
      end
  end.

(** A run, with what was accepted for and delivered from the inbox [p]. *)
Fixpoint run_ops (p : string) (ops : list inbox_op) (fs : files)
    : files * (list InboxMessage * list InboxMessage) :=
  match ops with
  | [] => (fs, ([], []))
  | op :: rest =>
      let '(fs1, (acc, del)) := run_op op fs in
      let '(fs2, (acc', del')) := run_ops p rest fs1 in
      if bool_decide (op_inbox op = Ok p) then (fs2, (acc ++ acc', del ++ del'))
      else (fs2, (acc', del'))
  end.

Lemma run_op_same op p fs ms :
  quiet_op op → op_inbox op = Ok p → inbox_holds fs p ms → inbox_room ms →
  ∃ ms', let '(fs', (acc, del)) := run_op op fs in
    inbox_holds fs' p ms' ∧ inbox_room ms' ∧ ms ++ acc = del ++ ms'.
Proof.
  intros Hq Hp Hms Hroom. destruct op as [io caller target cwd content at_|io target cwd]; simpl in *.
  - pose proof (push_spec io caller target cwd content at_ fs p ms Hq Hp Hms) as Hs. simpl in Hs.
    destruct (push _ _ _ _ _ _ _ _ _) as [fs' [[p' n]|e]].
    + destruct Hs as (_ & -> & _ & Hr & _). exists (ms ++ [pushed caller content at_]).
      split; [|done]. unfold inbox_holds. by rewrite lookup_insert_eq.
    + exists ms. assert (fs' = fs) as -> by (destruct e; tauto). by rewrite app_nil_r.
  - pose proof (drain_spec io target cwd fs p ms Hq Hp Hms) as Hs.
    destruct (drain _ _ _ _ _ _) as [fs' [got|e]].
    + destruct Hs as (-> & Hnone & _). exists []. unfold inbox_holds. rewrite Hnone.
      split; [done|]. split; [by split|]. done.
    + subst. exists ms. by rewrite app_nil_r.
Qed.

Lemma push_frame io caller target cwd content pushed_at fs q :
  inbox_path is_git_root mempal_home target cwd ≠ Ok q →
  (push is_git_root mempal_home io caller target cwd content pushed_at fs).1 !! q = fs !! q.
Proof.
  intros Hq. unfold push. destruct (bool_decide _); [done|]. destruct (_ <? _); [done|].
  destruct (inbox_path _ _ _ _) as [p|]; [|done]. assert (p ≠ q) by congruence.
  destruct (pi_mkdir io); [done|]. cbv zeta. destruct (_ || _); [done|].
  destruct (pi_open io); [done|]. destruct (pi_write io) as [[n e]|]; simpl; by rewrite lookup_insert_ne.
Qed.

Lemma drain_frame io target cwd fs stem :
  inbox_path is_git_root mempal_home target cwd ≠ Ok (stem +:+ ".jsonl") →
  (drain is_git_root mempal_home io target cwd fs).1 !! (stem +:+ ".jsonl") = fs !! (stem +:+ ".jsonl").
Proof.
  intros Hq. unfold drain, inbox_path in *. destruct (inbox_path_stem _ _ _ _) as [s|]; [|done].
  assert (s +:+ ".jsonl" ≠ stem +:+ ".jsonl") by congruence.
  pose proof (draining_not_inbox s stem).
  destruct (fs !! (s +:+ ".jsonl")); [|done]. destruct (di_rename io); [done|].
  destruct (di_read io); [|destruct (di_remove_fails io)]; by simplify_map_eq.
Qed.

Lemma run_op_other op stem fs :
  op_inbox op ≠ Ok (stem +:+ ".jsonl") →
  (run_op op fs).1 !! (stem +:+ ".jsonl") = fs !! (stem +:+ ".jsonl").
Proof.
  intros Hne. destruct op as [io caller target cwd content at_|io target cwd]; simpl in *.
  - rewrite <- (push_frame io caller target cwd content at_ fs) by exact Hne.
    by destruct (push _ _ _ _ _ _ _ _ _) as [? [|]].
  - rewrite <- (drain_frame io target cwd fs) by exact Hne.
    by destruct (drain _ _ _ _ _ _) as [? [|]].
Qed.

Lemma run_ops_fifo stem ops fs ms :
  Forall quiet_op ops → inbox_holds fs (stem +:+ ".jsonl") ms → inbox_room ms →
  ∃ pending, let '(fs', (accepted, delivered)) := run_ops (stem +:+ ".jsonl") ops fs in
    inbox_holds fs' (stem +:+ ".jsonl") pending ∧ inbox_room pending
    ∧ ms ++ accepted = delivered ++ pending.
Proof.
  intros Hq. revert fs ms. induction Hq as [|op ops Hop _ IH]; intros fs ms Hms Hroom.
  { exists ms. simpl. by rewrite app_nil_r. }
  simpl. destruct (decide (op_inbox op = Ok (stem +:+ ".jsonl"))) as [Heq|Hne].
  - destruct (run_op_same op _ fs ms Hop Heq Hms Hroom) as [ms1 H1].
    destruct (run_op op fs) as [fs1 [acc del]]. destruct H1 as (Hms1 & Hr1 & E1).
    destruct (IH fs1 ms1 Hms1 Hr1) as [pending H2]. exists pending.
    destruct (run_ops _ ops fs1) as [fs2 [acc' del']]. rewrite bool_decide_true by done.
    destruct H2 as (? & ? & E2). split; [done|]. split; [done|].
    by rewrite app_assoc, E1, <- app_assoc, E2, app_assoc.
  - pose proof (run_op_other op stem fs Hne) as Hfr.
    destruct (run_op op fs) as [fs1 [acc del]]. simpl in Hfr.
    destruct (IH fs1 ms) as [pending H2]; [by unfold inbox_holds; rewrite Hfr|done|].
    exists pending. destruct (run_ops _ ops fs1) as [fs2 [acc' del']]. by rewrite bool_decide_false.
Qed.
End inbox_facts.

(** ** A concrete line format

    Messages as the binary digits of their code between braces: an instance of
    the interface, on which its laws are checked. *)
#[export] Instance inbox_message_eq_dec : EqDecision InboxMessage.
Proof. solve_decision. Defined.

#[export] Instance inbox_message_countable : Countable InboxMessage.
Proof.
  refine (inj_countable'
    (fun m => (im_pushed_at m, im_from m, im_content m, im_thread_id m, im_channel m))
    (fun '(a, b, c, d, e) => {| im_pushed_at := a; im_from := b; im_content := c;
                                im_thread_id := d; im_channel := e |}) _).
  by intros [].
Defined.

Fixpoint bits_to_text (p : positive) : string :=
  match p with
  | xH => "}"
  | xO p => String "0" (bits_to_text p)
  | xI p => String "1" (bits_to_text p)
  end.

Fixpoint text_to_bits (s : string) : positive :=
  match s with
  | String "0" rest => xO (text_to_bits rest)
  | String "1" rest => xI (text_to_bits rest)
  | _ => xH
  end.

Lemma text_to_bits_to_text p : text_to_bits (bits_to_text p) = p.
Proof. induction p as [p IH|p IH|]; simpl; congruence. Qed.

#[export] Instance binary_lines : InboxJsonText := {|
  msg_to_json m := String "{" (bits_to_text (encode m));
  msg_of_json s := match s with String "{" rest => decode (text_to_bits rest) | _ => None end |}.

Lemma bits_one_line p : no_line_break (bits_to_text p) = true.
Proof. induction p; simpl; done. Qed.

Lemma rev_app_rev_app s t u : String.rev_app (String.rev_app s t) u = String.rev_app t (s +:+ u).
Proof. revert t. induction s as [|c s IH]; intros t; simpl; [done|]. by rewrite IH. Qed.

Lemma rev_bits p t : ∃ u, String.rev_app (bits_to_text p) t = String "}" u.
Proof. revert t. induction p as [p IH|p IH|]; intros t; simpl; [apply IH|apply IH|by exists t]. Qed.

(** Neither brace opens a white-space character. *)
Lemma open_not_space n s : trim_start_with whitespace_chars n (String "{" s) = String "{" s.
Proof. by destruct n. Qed.
Lemma close_not_space n s :
  trim_start_with (map String.rev whitespace_chars) n (String "}" s) = String "}" s.
Proof. by destruct n. Qed.

#[export] Instance binary_lines_laws : InboxJsonLaws.
Proof.
  split; intros m; simpl.
  - by rewrite text_to_bits_to_text, decode_encode.
  - apply bits_one_line.
  - unfold trim, trim_start. rewrite open_not_space. unfold trim_end, String.rev.
    cbn [String.rev_app]. destruct (rev_bits (encode m) "{") as [u Hu]. rewrite Hu, close_not_space.
    rewrite <- Hu, rev_app_rev_app. simpl. by rewrite str_app_nil_r.
  - done.
Qed.

(** ** Properties *)

(** The inbox is a bounded first-in first-out queue, whatever the order of the
    pushes and drains of all agents: from an absent inbox file, the messages
    accepted for it are those its drains delivered followed by those it still
    holds, each once and in order; it never holds more than sixteen messages or
    32 KiB; and one more drain that can rename the file delivers what it holds
    and leaves no file. *)
Theorem inbox_fifo `{InboxJsonLaws} is_git_root mempal_home target cwd p ops fs :
  inbox_path is_git_root mempal_home target cwd = Ok p → fs !! p = None →
  Forall quiet_op ops →
  ∃ pending,
    let '(fs', (accepted, delivered)) := run_ops is_git_root mempal_home p ops fs in
    accepted = delivered ++ pending
    ∧ Z.of_nat (length pending) <= MAX_PENDING_MESSAGES
    ∧ str_len (default "" (fs' !! p)) <= MAX_TOTAL_INBOX_BYTES
    ∧ ∃ fs'', drain is_git_root mempal_home drain_io_ok target cwd fs' = (fs'', Ok pending)
              ∧ fs'' !! p = None.
Proof.
  intros Hp Hnone Hq. pose proof Hp as Hp'. unfold inbox_path in Hp'.
  destruct (inbox_path_stem is_git_root mempal_home target cwd) as [stem|] eqn:Hst; [|done].
  injection Hp' as <-.
  destruct (run_ops_fifo is_git_root mempal_home stem ops fs []) as [pending Hr];
    [done|by unfold inbox_holds; rewrite Hnone|by split|].
  exists pending. destruct (run_ops _ _ _ ops fs) as [fs' [acc del]].
  destruct Hr as (Hh & [Hc Hb] & E). rewrite Hh. do 3 (split; [done|]).
  pose proof (drain_spec is_git_root mempal_home drain_io_ok target cwd fs' _ pending eq_refl Hp Hh) as Hd.
  unfold drain in Hd |- *. rewrite Hst in Hd |- *.
  destruct (fs' !! (stem +:+ ".jsonl")); simpl in Hd |- *; eexists; destruct Hd as (<- & ? & _); done.
Qed.

(** Two pushes, one of them refused, a drain and a third push. *)
Definition sample_ops : list inbox_op :=
  let cwd := Path true ["w"; "proj"] in
  [PushOp push_io_ok Claude Codex cwd "hi" "t1"; PushOp push_io_ok Codex Codex cwd "me" "t2";
   PushOp push_io_ok Claude Codex cwd "yo" "t3"; DrainOp drain_io_ok Codex cwd;
   PushOp push_io_ok Claude Codex cwd "bye" "t4"].

Lemma inbox_fifo_witness :
  let ops := sample_ops in let p := "/h/cowork-inbox/codex/-w-proj.jsonl" in
  Forall quiet_op ops
  ∧ (run_ops (fun _ => false) "/h" p ops ∅).2
    = ([pushed Claude "hi" "t1"; pushed Claude "yo" "t3"; pushed Claude "bye" "t4"],
       [pushed Claude "hi" "t1"; pushed Claude "yo" "t3"])
  ∧ ∃ pending,
    let '(fs', (accepted, delivered)) := run_ops (fun _ => false) "/h" p ops ∅ in
    accepted = delivered ++ pending
    ∧ Z.of_nat (length pending) <= MAX_PENDING_MESSAGES
    ∧ str_len (default "" (fs' !! p)) <= MAX_TOTAL_INBOX_BYTES
    ∧ ∃ fs'', drain (fun _ => false) "/h" drain_io_ok Codex (Path true ["w"; "proj"]) fs'
              = (fs'', Ok pending) ∧ fs'' !! p = None.
Proof.
  intros ops p. assert (Hq : Forall quiet_op ops) by (repeat constructor).
  split; [exact Hq|]. split; [vm_compute; reflexivity|].
  exact (inbox_fifo (fun _ => false) "/h" Codex (Path true ["w"; "proj"]) p ops ∅
    ltac:(vm_compute; reflexivity) ltac:(vm_compute; reflexivity) Hq).
Defined.
