(* ===== verification/IngressSpool.v ===== *)
(** * The ingress spool

    [src/src/ingress_spool.rs]: hook requests that were acknowledged wait as
    files of one directory until a drain has put them into the message queue. The
    state is what a restart would find (the namespace at the last directory sync,
    and the operations since, of which a crash keeps some), the claims of the
    process, and the queue. Any call that can fail may fail: a script says
    which. *)

From Stdlib Require Import ZArith Lia String Ascii.
From stdpp Require Import base tactics list gmap strings numbers relations sorting.
From S2P Require Import Prelude Text Order Rfc3339 ProcessIdentity Sqlite.
From S2P Require Import WriterLease QueueTypes QueueFailures QueueStore QueueAdmin.
From S2P Require Import QueueLifecycle QueueSystem QueueSafety.
Open Scope Z_scope.

(** ** File names

    [Path::extension] and [Path::with_extension] on a file name: the extension
    follows the last dot, unless nothing precedes that dot. *)
Fixpoint split_last_dot (s : string) : option (string * string) :=
  match s with
  | EmptyString => None
  | String c rest =>
      match split_last_dot rest with
      | Some (stem, ext) => Some (String c stem, ext)
      | None => if Ascii.eqb c "." then Some ("", rest) else None
      end
  end.

Definition extension (name : string) : option string :=
  match split_last_dot name with
  | Some (stem, ext) => if is_empty stem then None else Some ext
  | None => None
  end.

Definition file_stem (name : string) : string :=
  match split_last_dot name with
  | Some (stem, _) => if is_empty stem then name else stem
  | None => name
  end.

Definition with_extension (name ext : string) : string := file_stem name +:+ ("." +:+ ext).

Definition has_extension (ext name : string) : bool := bool_decide (extension name = Some ext).

(** ** Requests and records *)
Record HookIpcEnqueueRequest := HookRequest {
  hr_kind : string;
  hr_payload : string;
  hr_idempotency_key : string;
}.

#[export] Instance hook_request_eq_dec : EqDecision HookIpcEnqueueRequest.
Proof. solve_decision. Defined.

Inductive IngressSpoolError :=
  | SpoolIo (message : string)
  | SpoolNotFound
  | SpoolDecode (name : string)
  | SpoolFull (record_bytes active_bytes limit_bytes : Z)
  | SpoolConflict
  | SpoolUncertain (message : string)
  | SpoolQueue (e : QueueError).

Inductive AppendOutcome := Appended | AlreadyPresent.

(** [serde_json] on records. *)
Class SpoolJson := {
  record_to_json : HookIpcEnqueueRequest → string;
  record_of_json : string → option HookIpcEnqueueRequest;
}.

Class SpoolJsonLaws `{SpoolJson} : Prop := {
  record_json_roundtrip : ∀ r, record_of_json (record_to_json r) = Some r;
}.

(** The order in which [read_dir] lists a directory. *)
Class DirScan := {
  dir_scan : gmap string string → list string;
  dir_scan_spec : ∀ fs, dir_scan fs ≡ₚ (map_to_list fs).*1;
}.

(** ** Files and crashes *)

(** A rename moves one file, with the content it has. *)
Inductive dir_op :=
  | OpWrite (name bytes : string)
  | OpRename (from to bytes : string)
  | OpRemove (name : string).

Definition apply_op (fs : gmap string string) (op : dir_op) : gmap string string :=
  match op with
  | OpWrite name bytes => <[name := bytes]> fs
  | OpRename from to bytes => <[to := bytes]> (delete from fs)
  | OpRemove name => delete name fs
  end.

(** [w_linked]: the directory's own entry is durable in its parent. *)
Record world := World {
  w_durable : gmap string string;
  w_pending : list dir_op;
  w_linked : bool;
  w_claims : gset string;
  w_faults : list (option (nat * string));
  w_db : qdb;
}.

Definition w_files (w : world) : gmap string string :=
  foldl apply_op (w_durable w) (w_pending w).

(** What a restart may find: any of the operations since the last sync may be
    missing, and the whole directory while its entry is not durable. *)
Inductive crash_files (w : world) : gmap string string → Prop :=
  | crash_some ops : ops `sublist_of` w_pending w → crash_files w (foldl apply_op (w_durable w) ops)
  | crash_unlinked : w_linked w = false → crash_files w ∅.

Definition issue (op : dir_op) (w : world) : world :=
  World (w_durable w) (w_pending w ++ [op]) (w_linked w) (w_claims w) (w_faults w) (w_db w).
Definition set_claims (c : gset string) (w : world) : world :=
  World (w_durable w) (w_pending w) (w_linked w) c (w_faults w) (w_db w).
Definition set_db (db : qdb) (w : world) : world :=
  World (w_durable w) (w_pending w) (w_linked w) (w_claims w) (w_faults w) db.

(** ** Computations

    State and error; a failing call takes the next entry of the script. *)
Definition M (A : Type) : Type := world → world * result A IngressSpoolError.

Definition ret {A} (a : A) : M A := fun w => (w, Ok a).
Definition fail {A} (e : IngressSpoolError) : M A := fun w => (w, Err e).
Definition bind {A B} (m : M A) (k : A → M B) : M B := fun w =>
  match m w with
  | (w', Ok a) => k a w'
  | (w', Err e) => (w', Err e)
  end.
Notation "'let!' x ':=' m 'in' k" := (bind m (fun x => k))
  (at level 10, x pattern, m at level 200, k at level 200) : rust_scope.
Open Scope rust_scope.

(** The outcome of a call as a value: [match call { Err(..) => .. }]. *)
Definition attempt_call {A} (m : M A) : M (result A IngressSpoolError) := fun w =>
  let '(w', r) := m w in (w', Ok r).

Definition next_fault : M (option (nat * string)) := fun w =>
  match w_faults w with
  | [] => (w, Ok None)
  | f :: rest =>
      (World (w_durable w) (w_pending w) (w_linked w) (w_claims w) rest (w_db w), Ok f)
  end.

Definition files : M (gmap string string) := fun w => (w, Ok (w_files w)).
Definition perform (op : dir_op) : M unit := fun w => (issue op w, Ok tt).
Definition claims : M (gset string) := fun w => (w, Ok (w_claims w)).
Definition update_claims (f : gset string → gset string) : M unit := fun w =>
  (set_claims (f (w_claims w)) w, Ok tt).

(** A call with no other effect than its possible failure. *)
Definition fallible : M unit :=
  let! f := next_fault in
  match f with Some (_, e) => fail (SpoolIo e) | None => ret tt end.

Definition exists_file (name : string) : M bool :=
  let! fs := files in ret (bool_decide (is_Some (fs !! name))).

Definition read_file (name : string) : M string :=
  let! _ := fallible in
  let! fs := files in
  match fs !! name with Some bytes => ret bytes | None => fail SpoolNotFound end.

Definition rename_file (from to : string) : M unit :=
  let! _ := fallible in
  let! fs := files in
  match fs !! from with
  | Some bytes => perform (OpRename from to bytes)
  | None => fail SpoolNotFound
  end.

Definition remove_file (name : string) : M unit :=
  let! _ := fallible in
  let! fs := files in
  match fs !! name with Some _ => perform (OpRemove name) | None => fail SpoolNotFound end.

Definition read_dir `{DirScan} : M (list string) :=
  let! _ := fallible in let! fs := files in ret (dir_scan fs).

(** [sync_directory] of the spool, and of its parent. *)
Definition sync_dir : M unit :=
  let! _ := fallible in
  fun w => (World (w_files w) [] (w_linked w) (w_claims w) (w_faults w) (w_db w), Ok tt).
Definition sync_parent : M unit :=
  let! _ := fallible in
  fun w => (World (w_durable w) (w_pending w) true (w_claims w) (w_faults w) (w_db w), Ok tt).

Definition sync_spool_namespace : M unit := let! _ := sync_dir in sync_parent.

(** [.map_err(IngressSpoolError::Uncertain)] on a namespace sync. *)
Definition uncertain {A} (m : M A) : M A := fun w =>
  match m w with
  | (w', Err (SpoolIo e)) => (w', Err (SpoolUncertain e))
  | r => r
  end.

(** Sum of [metadata.len] over the files that count, saturating. *)
Definition counted (name : string) : bool :=
  match extension name with
  | Some ext => bool_decide (ext ∈ ["json"; "tmp"; "claim"; "quarantine"])
  | None => false
  end.

Fixpoint sum_sizes (names : list string) (total : Z) : M Z :=
  match names with
  | [] => ret total
  | n :: rest =>
      if counted n then
        let! _ := fallible in
        let! fs := files in
        match fs !! n with
        | Some bytes => sum_sizes rest (sat_u64 (total + str_len bytes))
        | None => fail SpoolNotFound
        end
      else sum_sizes rest total
  end.

Section spool.
Context `{QueueEnv, SpoolJson, DirScan}.

Definition read_record (name : string) : M HookIpcEnqueueRequest :=
  let! bytes := read_file name in
  match record_of_json bytes with Some r => ret r | None => fail (SpoolDecode name) end.

Definition record_path (r : HookIpcEnqueueRequest) : string :=
  blake3_hex (hr_kind r +:+ (String (ascii_of_N 0) (hr_idempotency_key r))) +:+ ".json".

Definition claim_path (name : string) : string := with_extension name "claim".

Definition temp_path (name : string) (pid counter : Z) : string :=
  "." +:+ (name +:+ ("." +:+ (show pid +:+ ("." +:+ (show counter +:+ ".tmp"))))).

Definition spool_bytes : M Z :=
  let! names := read_dir in sum_sizes names 0.

(** [create_new], [write_all], [sync_all]: a failing write leaves a prefix. *)
Definition write_new (name bytes : string) : M unit :=
  let! _ := fallible in
  let! fs := files in
  if bool_decide (is_Some (fs !! name)) then fail (SpoolIo "file exists")
  else
    let! f := next_fault in
    match f with
    | Some (n, e) =>
        let! _ := perform (OpWrite name (String.substring 0 n bytes)) in fail (SpoolIo e)
    | None => let! _ := perform (OpWrite name bytes) in fallible
    end.

(** [let _ = fs::remove_file(..)]. *)
Definition discard {A} (m : M A) : M unit := let! _ := attempt_call m in ret tt.

Definition append (max_bytes pid counter : Z) (request : HookIpcEnqueueRequest) : M AppendOutcome :=
  let! _ := fallible in
  let path := record_path request in
  let bytes := record_to_json request in
  let claim := claim_path path in
  let! at_path := exists_file path in
  let! at_claim := exists_file claim in
  if at_path || at_claim then
    let! existing := read_record (if at_path then path else claim) in
    if bool_decide (existing = request) then
      let! _ := uncertain sync_spool_namespace in ret AlreadyPresent
    else fail SpoolConflict
  else
    let! active_bytes := spool_bytes in
    let record_bytes := str_len bytes in
    if (max_bytes <? record_bytes) || (sat_u64 (max_bytes - record_bytes) <? active_bytes)
    then fail (SpoolFull record_bytes active_bytes max_bytes)
    else
      let temp := temp_path path pid counter in
      let! write_result := attempt_call
        (let! _ := write_new temp bytes in
         let! _ := rename_file temp path in
         uncertain sync_spool_namespace) in
      match write_result with
      | Ok _ => ret Appended
      | Err e => let! _ := discard (remove_file temp) in fail e
      end.

Definition forget_claim (claim : string) : M unit := update_claims (fun c => c ∖ {[claim]}).

(** A claim is the record's file under another name. *)
Definition claim (path : string) : M (option string) :=
  let claim_p := claim_path path in
  let! r := attempt_call (rename_file path claim_p) in
  match r with
  | Ok _ =>
      let! _ := update_claims (fun c => {[claim_p]} ∪ c) in
      let! s := attempt_call sync_spool_namespace in
      match s with
      | Ok _ => ret (Some claim_p)
      | Err (SpoolIo e) => let! _ := forget_claim claim_p in fail (SpoolUncertain e)
      | Err e => let! _ := forget_claim claim_p in fail e
      end
  | Err SpoolNotFound => ret None
  | Err e => fail e
  end.

Definition quarantine (name : string) : M unit :=
  let! bytes := read_file name in
  let dest := name +:+ ("." +:+ (blake3_hex bytes +:+ ".quarantine")) in
  let! there := exists_file dest in
  let! _ := if there then remove_file name else rename_file name dest in
  sync_spool_namespace.

Definition release_claim (path claim_p : string) : M unit :=
  let! there := exists_file path in
  let! r :=
    (if there then
       let! claimed := read_record claim_p in
       let! existing := read_record path in
       attempt_call (if bool_decide (claimed = existing) then remove_file claim_p
                     else fail (SpoolIo "ingress spool claim conflicts with replacement"))
     else attempt_call (rename_file claim_p path)) in
  let! _ := forget_claim claim_p in
  match r with Ok _ => sync_spool_namespace | Err e => fail e end.

(** The loop of [recover_stale_claims]; the result says whether anything was
    recovered. *)
Fixpoint recover_loop (active : gset string) (names : list string) (recovered : bool) : M bool :=
  match names with
  | [] => ret recovered
  | claim_p :: rest =>
      if negb (has_extension "claim" claim_p) || bool_decide (claim_p ∈ active)
      then recover_loop active rest recovered
      else
        let record_p := with_extension claim_p "json" in
        let! there := exists_file record_p in
        if there then
          let! c := attempt_call (read_record claim_p) in
          match c with
          | Err (SpoolDecode _) => let! _ := quarantine claim_p in recover_loop active rest true
          | Err e => fail e
          | Ok claimed =>
              let! x := attempt_call (read_record record_p) in
              match x with
              | Err (SpoolDecode _) => let! _ := quarantine record_p in recover_loop active rest true
              | Err e => fail e
              | Ok existing =>
                  if negb (bool_decide (claimed = existing)) then fail SpoolConflict
                  else let! _ := remove_file claim_p in recover_loop active rest true
              end
          end
        else let! _ := rename_file claim_p record_p in recover_loop active rest true
  end.

Definition recover_stale_claims : M unit :=
  let! names := read_dir in
  let! active := claims in
  let! recovered := recover_loop active names false in
  if recovered then sync_spool_namespace else ret tt.

Fixpoint records_loop (names : list string) (acc : list (string * HookIpcEnqueueRequest))
    : M (list (string * HookIpcEnqueueRequest)) :=
  match names with
  | [] => ret acc
  | name :: rest =>
      if negb (has_extension "json" name) then records_loop rest acc
      else
        let! r := attempt_call (read_record name) in
        match r with
        | Ok request => records_loop rest (acc ++ [(name, request)])
        | Err (SpoolDecode _) => let! _ := quarantine name in records_loop rest acc
        | Err e => fail e
        end
  end.

(** [records]: sorted by path. *)
Definition records : M (list (string * HookIpcEnqueueRequest)) :=
  let! _ := recover_stale_claims in
  let! names := read_dir in
  let! found := records_loop names [] in
  ret (sort_by (fun a b => not_gt (String.compare a.1 b.1)) found).

(** What the call of the queue reads, and what other connections commit between
    its statements. *)
Record queue_call := QueueCall {
  qc_io : queue_io;
  qc_now : Z;
  qc_ide : id_env;
  qc_lease_ms : Z;
  qc_other : qdb → qdb;
}.

Definition enqueue_record (s : store) (lease : option RuntimeWriterLease) (call : queue_call)
    (r : HookIpcEnqueueRequest) : M (result string QueueError) := fun w =>
  let '(db, res) :=
    match lease with
    | Some l =>
        enqueue_idempotent_with_key_fail_fast_fenced s (qc_io call) (Some l) (hr_kind r) (hr_payload r)
          (hr_idempotency_key r) "drain ingress spool" (qc_now call) (qc_ide call) (qc_lease_ms call)
          (qc_other call) (w_db w)
    | None =>
        enqueue_idempotent_with_key_fail_fast s (qc_io call) (hr_kind r) (hr_payload r)
          (hr_idempotency_key r) (qc_now call) (qc_ide call) (qc_other call) (w_db w)
    end in
  (set_db db w, Ok res).

(** The rest of a round, after the queue has answered: whether the record
    counts as drained. *)
Definition finish (path claim_p : string) (answer : result string QueueError) : M bool :=
  match answer with
  | Ok _ =>
      let! d := attempt_call (let! _ := remove_file claim_p in sync_spool_namespace) in
      let! _ := forget_claim claim_p in
      match d with Ok _ => ret true | Err e => fail e end
  | Err IdempotencyConflict =>
      let! p := attempt_call (quarantine claim_p) in
      let! _ := forget_claim claim_p in
      match p with Ok _ => ret false | Err e => fail e end
  | Err e => let! _ := release_claim path claim_p in fail (SpoolQueue e)
  end.

Fixpoint drain_loop (s : store) (lease : option RuntimeWriterLease) (call : string → queue_call)
    (recs : list (string * HookIpcEnqueueRequest)) (drained : Z) : M Z :=
  match recs with
  | [] => ret drained
  | (path, request) :: rest =>
      let! c := claim path in
      match c with
      | None => drain_loop s lease call rest drained
      | Some claim_p =>
          let! answer := enqueue_record s lease (call path) request in
          let! counts := finish path claim_p answer in
          drain_loop s lease call rest (if counts then drained + 1 else drained)
      end
  end.

Definition drain_claimed (s : store) (lease : option RuntimeWriterLease) (call : string → queue_call)
    : M Z :=
  let! recs := records in drain_loop s lease call recs 0.

(** [contains_operation_id]: the receipt of a request that is still in the spool. *)
Fixpoint contains_loop (operation_id : string) (names : list string) : M bool :=
  match names with
  | [] => ret false
  | name :: rest =>
      if negb (has_extension "json" name || has_extension "claim" name)
      then contains_loop operation_id rest
      else
        let! r := attempt_call (read_record name) in
        match r with
        | Ok request =>
            if bool_decide (idempotent_key_message_id (hr_kind request) (hr_idempotency_key request)
                            = operation_id)
            then ret true else contains_loop operation_id rest
        | Err SpoolNotFound | Err (SpoolDecode _) => contains_loop operation_id rest
        | Err e => fail e
        end
  end.

Definition contains_operation_id (operation_id : string) : M bool :=
  let! names := read_dir in contains_loop operation_id names.
End spool.
