(* ===== verification/IngressSpoolSafety.v ===== *)
(** * The ingress spool loses nothing

    The spool of [IngressSpool] as a transition system with concurrent drains,
    failing calls and crashes, and the proof that an acknowledged request is
    found after any crash until the queue has an operation under its key. *)

From Stdlib Require Import ZArith Lia String Ascii.
From stdpp Require Import base tactics list gmap strings numbers relations sorting.
From S2P Require Import Prelude Text Order Rfc3339 ProcessIdentity Sqlite.
From S2P Require Import WriterLease QueueTypes QueueFailures QueueStore QueueAdmin.
From S2P Require Import QueueLifecycle QueueSystem QueueSafety IngressSpool.
Open Scope Z_scope.
Open Scope rust_scope.

(** ** File names *)
Fixpoint no_dot (s : string) : bool :=
  match s with
  | EmptyString => true
  | String c rest => negb (Ascii.eqb c ".") && no_dot rest
  end.

(** What the names rely on: a digest is a non-empty text without dots. *)
Class DigestLaws `{QueueEnv} : Prop := {
  digest_no_dot : ∀ s, no_dot (blake3_hex s) = true;
  digest_nonempty : ∀ s, is_empty (blake3_hex s) = false;
}.

Lemma split_last_dot_none s : split_last_dot s = None ↔ no_dot s = true.
Proof.
  induction s as [|c s IH]; [done|]. cbn [split_last_dot no_dot].
  destruct (split_last_dot s) as [[stem ext]|]; rewrite andb_true_iff.
  - split; [done|]. intros [_ Hs]. by apply IH in Hs.
  - destruct (Ascii.eqb c "."); simpl; [naive_solver|]. tauto.
Qed.

Lemma split_last_dot_app s e :
  no_dot e = true → split_last_dot (s +:+ ("." +:+ e)) = Some (s, e).
Proof.
  intros He. induction s as [|c s IH].
  - rewrite str_app_nil_l, str_app_cons, str_app_nil_l. cbn [split_last_dot].
    by rewrite (proj2 (split_last_dot_none e) He).
  - rewrite str_app_cons. cbn [split_last_dot]. by rewrite IH.
Qed.

Lemma split_last_dot_eq s stem e : split_last_dot s = Some (stem, e) → s = stem +:+ ("." +:+ e).
Proof.
  revert stem. induction s as [|c s IH]; intros stem; cbn [split_last_dot]; [done|].
  destruct (split_last_dot s) as [[st ex]|].
  - intros [= <- <-]. rewrite str_app_cons. by rewrite <- IH.
  - destruct (Ascii.eqb_spec c "."); [|done]. by intros [= <- <-]; subst.
Qed.

Lemma extension_app s e :
  no_dot e = true → is_empty s = false →
  extension (s +:+ ("." +:+ e)) = Some e ∧ file_stem (s +:+ ("." +:+ e)) = s.
Proof. intros He Hs. unfold extension, file_stem. by rewrite split_last_dot_app, Hs. Qed.

Lemma extension_eq name e : extension name = Some e → name = file_stem name +:+ ("." +:+ e).
Proof.
  unfold extension, file_stem. destruct (split_last_dot name) as [[st ex]|] eqn:E; [|done].
  destruct (is_empty st); [done|]. intros [= <-]. by apply split_last_dot_eq.
Qed.

Lemma has_extension_spec e name : has_extension e name = true ↔ extension name = Some e.
Proof. unfold has_extension. apply bool_decide_eq_true. Qed.

Lemma str_append_nonempty s t : is_empty s = false → is_empty (s +:+ t) = false.
Proof. by destruct s. Qed.

Section names.
Context `{DigestLaws} `{SpoolJson}.

Lemma record_path_ext r : extension (record_path r) = Some "json".
Proof. apply (extension_app _ "json"); [done|apply digest_nonempty]. Qed.

Lemma claim_path_eq r :
  claim_path (record_path r)
  = blake3_hex (hr_kind r +:+ String (ascii_of_N 0) (hr_idempotency_key r)) +:+ ".claim".
Proof.
  unfold claim_path, with_extension, record_path.
  by rewrite (proj2 (extension_app _ "json" eq_refl (digest_nonempty _))).
Qed.

Lemma claim_path_ext name : is_empty (file_stem name) = false → extension (claim_path name) = Some "claim".
Proof. intros Hs. by apply (extension_app _ "claim"). Qed.

Lemma stem_nonempty name e : extension name = Some e → is_empty (file_stem name) = false.
Proof.
  unfold extension, file_stem. destruct (split_last_dot name) as [[st ex]|]; [|done].
  by destruct (is_empty st) eqn:E.
Qed.

(** A record and its claim determine each other. *)
Lemma claim_path_inj n1 n2 :
  extension n1 = Some "json" → extension n2 = Some "json" → claim_path n1 = claim_path n2 → n1 = n2.
Proof.
  intros He1 He2 Hc. apply (f_equal file_stem) in Hc. unfold claim_path, with_extension in Hc.
  rewrite (proj2 (extension_app _ "claim" eq_refl (stem_nonempty _ _ He1))) in Hc.
  rewrite (proj2 (extension_app _ "claim" eq_refl (stem_nonempty _ _ He2))) in Hc.
  by rewrite (extension_eq n1 _ He1), (extension_eq n2 _ He2), Hc.
Qed.

Lemma ext_nonempty name e : extension name = Some e → is_empty name = false.
Proof. by destruct name. Qed.

(** A claim is the claim of the record it stands for. *)
Lemma claim_of_record name :
  extension name = Some "claim" →
  extension (with_extension name "json") = Some "json" ∧ claim_path (with_extension name "json") = name.
Proof.
  intros He. pose proof (extension_app _ "json" eq_refl (stem_nonempty _ _ He)) as [E1 E2].
  split; [exact E1|]. unfold claim_path, with_extension at 1. unfold with_extension. rewrite E2.
  symmetry. by apply extension_eq.
Qed.

Lemma quarantine_ext name bytes :
  is_empty name = false →
  extension (name +:+ ("." +:+ (blake3_hex bytes +:+ ".quarantine"))) = Some "quarantine".
Proof.
  intros Hn. change ".quarantine" with ("." +:+ "quarantine"). rewrite <- !str_app_assoc.
  rewrite (str_app_assoc _ "." "quarantine"). apply (extension_app _ "quarantine"); [done|].
  by destruct name.
Qed.

Lemma temp_ext name pid counter : extension (temp_path name pid counter) = Some "tmp".
Proof.
  unfold temp_path. change ".tmp" with ("." +:+ "tmp"). rewrite <- !str_app_assoc.
  rewrite (str_app_assoc _ "." "tmp"). by apply (extension_app _ "tmp").
Qed.

Lemma claim_to_record r : with_extension (claim_path (record_path r)) "json" = record_path r.
Proof.
  rewrite claim_path_eq. unfold with_extension.
  by rewrite (proj2 (extension_app _ "claim" eq_refl (digest_nonempty _))).
Qed.

Lemma claim_ext r : extension (claim_path (record_path r)) = Some "claim".
Proof. eapply claim_path_ext, stem_nonempty, record_path_ext. Qed.

End names.

(** ** Calls that leave the files and the queue as they are *)
Definition frame (w w' : world) : Prop :=
  w_durable w' = w_durable w ∧ w_pending w' = w_pending w ∧ w_linked w' = w_linked w ∧ w_db w' = w_db w.

Definition reads {A} (m : M A) : Prop := ∀ w, frame w (m w).1.

Lemma frame_refl w : frame w w.
Proof. done. Qed.
Lemma frame_trans w1 w2 w3 : frame w1 w2 → frame w2 w3 → frame w1 w3.
Proof. unfold frame. intuition congruence. Qed.
Lemma frame_files w w' : frame w w' → w_files w' = w_files w.
Proof. unfold frame, w_files. intros (-> & -> & _). done. Qed.

Create HintDb spool.

Lemma reads_ret {A} (a : A) : reads (ret a).
Proof. done. Qed.
Lemma reads_fail {A} e : reads (fail e : M A).
Proof. done. Qed.
Lemma reads_bind {A B} (m : M A) (k : A → M B) : reads m → (∀ a, reads (k a)) → reads (bind m k).
Proof.
  intros Hm Hk w. unfold bind. specialize (Hm w). destruct (m w) as [w' [a|e]]; [|done].
  eapply frame_trans; [exact Hm|apply Hk].
Qed.
Lemma reads_attempt {A} (m : M A) : reads m → reads (attempt_call m).
Proof. intros Hm w. unfold attempt_call. specialize (Hm w). by destruct (m w). Qed.
Lemma reads_next_fault : reads next_fault.
Proof. intros w. unfold next_fault. by destruct (w_faults w). Qed.
Lemma reads_files : reads files.
Proof. done. Qed.
Lemma reads_claims : reads claims.
Proof. done. Qed.
Lemma reads_update_claims f : reads (update_claims f).
Proof. done. Qed.
#[local] Hint Resolve reads_ret reads_fail reads_bind reads_attempt reads_next_fault reads_files
  reads_claims reads_update_claims : spool.

Ltac reads_tac := repeat first
  [ progress intros | apply reads_bind | solve [auto with spool] | case_match ].

Lemma reads_fallible : reads fallible.
Proof. unfold fallible. reads_tac. Qed.
#[local] Hint Resolve reads_fallible : spool.
Lemma reads_exists_file name : reads (exists_file name).
Proof. unfold exists_file. reads_tac. Qed.
Lemma reads_read_file name : reads (read_file name).
Proof. unfold read_file. reads_tac. Qed.
Lemma reads_read_dir `{DirScan} : reads read_dir.
Proof. unfold read_dir. reads_tac. Qed.
Lemma reads_sum_sizes names total : reads (sum_sizes names total).
Proof. revert total. induction names as [|n names IH]; intros total; simpl; reads_tac. Qed.
Lemma reads_forget_claim name : reads (forget_claim name).
Proof. apply reads_update_claims. Qed.
#[local] Hint Resolve reads_exists_file reads_read_file reads_read_dir reads_sum_sizes
  reads_forget_claim : spool.
Lemma reads_read_record `{SpoolJson} name : reads (read_record name).
Proof. unfold read_record. reads_tac. Qed.
Lemma reads_spool_bytes `{DirScan} : reads spool_bytes.
Proof. unfold spool_bytes. reads_tac. Qed.
#[local] Hint Resolve reads_read_record reads_spool_bytes : spool.

(** What the reading calls return. *)
Lemma fallible_frame w w' r : fallible w = (w', r) → frame w w'.
Proof. intros E. pose proof (reads_fallible w) as Hf. by rewrite E in Hf. Qed.

Lemma exists_file_result name w w' x :
  exists_file name w = (w', Ok x) → w' = w ∧ x = bool_decide (is_Some (w_files w !! name)).
Proof. by intros [= <- <-]. Qed.

Lemma read_file_result name w w' bytes :
  read_file name w = (w', Ok bytes) → w_files w !! name = Some bytes.
Proof.
  unfold read_file, bind at 1. destruct (fallible w) as [w1 [[]|e]] eqn:Ef; [|done].
  apply fallible_frame, frame_files in Ef. unfold bind, files. rewrite Ef.
  destruct (w_files w !! name); by intros [= _ <-].
Qed.

Lemma read_file_not_decode name w w' n : read_file name w ≠ (w', Err (SpoolDecode n)).
Proof.
  unfold read_file, bind, fallible, bind, next_fault, files, ret, fail. destruct (w_faults w) as [|[[? ?]|] ?]; simpl;
    repeat case_match; congruence.
Qed.

Lemma read_record_result `{SpoolJson} name w w' r :
  read_record name w = (w', Ok r) → ∃ bytes, w_files w !! name = Some bytes ∧ record_of_json bytes = Some r.
Proof.
  unfold read_record, bind. destruct (read_file name w) as [w1 [bytes|e]] eqn:E; [|done].
  apply read_file_result in E. destruct (record_of_json bytes) eqn:Ej; [|done]. intros [= _ <-]. eauto.
Qed.

Lemma read_record_decode `{SpoolJson} name w w' n :
  read_record name w = (w', Err (SpoolDecode n)) →
  ∃ bytes, w_files w !! name = Some bytes ∧ record_of_json bytes = None.
Proof.
  unfold read_record, bind. destruct (read_file name w) as [w1 [bytes|e]] eqn:E.
  - apply read_file_result in E. destruct (record_of_json bytes) eqn:Ej; [done|]. eauto.
  - intros [= -> ->]. by apply read_file_not_decode in E.
Qed.

(** ** What a request is owed

    For one request: its record under its path or under its claim, never under
    both, in every state a crash may leave; or an operation of the queue under its
    key. *)
Section request.
Context `{DigestLaws} `{SpoolJson} `{!SpoolJsonLaws}.
Variable r : HookIpcEnqueueRequest.

Let p := record_path r.
Let c := claim_path (record_path r).
Let b := record_to_json r.

Definition queued (w : world) : Prop :=
  known (w_db w) (idempotent_key_message_id (hr_kind r) (hr_idempotency_key r)).

Definition present (fs : gmap string string) : Prop :=
  fs !! record_path r = Some (record_to_json r)
  ∨ fs !! claim_path (record_path r) = Some (record_to_json r).

(** At most one of the two names, with the record's bytes. *)
Definition well_kept (fs : gmap string string) : Prop :=
  let at_p := fs !! record_path r in
  let at_c := fs !! claim_path (record_path r) in
  (at_p = None ∧ at_c = None)
  ∨ (at_p = Some (record_to_json r) ∧ at_c = None)
  ∨ (at_p = None ∧ at_c = Some (record_to_json r)).

Definition remnant (w : world) (fs : gmap string string) : Prop :=
  ∃ ops, ops `sublist_of` w_pending w ∧ fs = foldl apply_op (w_durable w) ops.

Definition kept (w : world) : Prop :=
  ∀ fs, remnant w fs → well_kept fs ∧ (present fs → present (w_files w)).

(** Acknowledged: every state a crash may leave has the record. *)
Definition stored (w : world) : Prop := ∀ fs, crash_files w fs → present fs.

Definition owed (ack : bool) (w : world) : Prop :=
  queued w ∨ (kept w ∧ (ack = true → stored w)).

Lemma p_ne_c : p ≠ c.
Proof. intros E. apply (f_equal extension) in E. unfold p, c in E. by rewrite record_path_ext, claim_ext in E. Qed.

Lemma remnant_files w : remnant w (w_files w).
Proof. by exists (w_pending w). Qed.

Lemma kept_files w : kept w → well_kept (w_files w).
Proof. intros Hk. apply (Hk _ (remnant_files w)). Qed.

Lemma remnant_issue op w fs :
  remnant (issue op w) fs → remnant w fs ∨ ∃ fs0, remnant w fs0 ∧ fs = apply_op fs0 op.
Proof.
  intros (ops & Hs & ->). simpl in *. apply sublist_app_r in Hs as (k1 & k2 & -> & H1' & H2').
  apply sublist_cons_r in H2' as [H2'|(l & -> & H2')].
  - apply sublist_nil_r in H2' as ->. left. exists k1. by rewrite app_nil_r.
  - apply sublist_nil_r in H2' as ->. right. exists (foldl apply_op (w_durable w) k1).
    split; [by exists k1|]. by rewrite foldl_app.
Qed.

Lemma files_issue op w : w_files (issue op w) = apply_op (w_files w) op.
Proof. unfold w_files. simpl. by rewrite foldl_app. Qed.

(** The operations that keep the record. *)
Definition touches (op : dir_op) (name : string) : Prop :=
  match op with
  | OpWrite n _ => n = name
  | OpRename from to _ => from = name ∨ to = name
  | OpRemove n => n = name
  end.

Definition benign (w : world) (op : dir_op) : Prop :=
  (¬ touches op p ∧ ¬ touches op c)
  ∨ op = OpRename p c b ∨ op = OpRename c p b
  ∨ (∃ x, op = OpRename x p b ∧ x ≠ p ∧ x ≠ c ∧ ¬ present (w_files w)).

Lemma untouched op fs name : ¬ touches op name → apply_op fs op !! name = fs !! name.
Proof.
  destruct op; simpl; intros Hn; rewrite ?lookup_insert_ne, ?lookup_delete_ne by naive_solver; done.
Qed.

Lemma swap_pc fs : well_kept (apply_op fs (OpRename p c b)) ∧ present (apply_op fs (OpRename p c b)).
Proof.
  pose proof p_ne_c. unfold well_kept, present. fold c p b. simpl. rewrite !lookup_insert_eq.
  rewrite !lookup_insert_ne, !lookup_delete_eq by done. tauto.
Qed.
Lemma swap_cp fs : well_kept (apply_op fs (OpRename c p b)) ∧ present (apply_op fs (OpRename c p b)).
Proof.
  pose proof p_ne_c. unfold well_kept, present. fold c p b. simpl. rewrite !lookup_insert_eq.
  rewrite !lookup_insert_ne, !lookup_delete_eq by done. tauto.
Qed.

Lemma well_kept_absent fs : well_kept fs → ¬ present fs → fs !! p = None ∧ fs !! c = None.
Proof. unfold well_kept, present. fold c p b. tauto. Qed.

Lemma place_p x fs :
  x ≠ p → x ≠ c → well_kept fs → ¬ present fs →
  well_kept (apply_op fs (OpRename x p b)) ∧ present (apply_op fs (OpRename x p b)).
Proof.
  intros Hp Hc Hw Hn. destruct (well_kept_absent fs Hw Hn) as [Ep Ec]. pose proof p_ne_c.
  unfold well_kept, present. fold c p b. simpl. rewrite !lookup_insert_eq, !lookup_insert_ne by done.
  rewrite !lookup_delete_ne, Ec by done. tauto.
Qed.

Lemma untouched_same op fs :
  ¬ touches op p → ¬ touches op c →
  (well_kept (apply_op fs op) ↔ well_kept fs) ∧ (present (apply_op fs op) ↔ present fs).
Proof. intros Hp Hc. unfold well_kept, present. fold c p. by rewrite !untouched. Qed.

(** On every remnant a benign operation keeps the record, and keeps it found. *)
Lemma benign_remnant w op fs :
  kept w → benign w op → remnant w fs →
  well_kept (apply_op fs op) ∧ (present fs → present (apply_op fs op))
  ∧ (present (apply_op fs op) → present (apply_op (w_files w) op)).
Proof.
  intros Hk Hb Hr. destruct (Hk _ Hr) as [Hwk Hf].
  destruct Hb as [[Hp Hc]|[->|[->|(x & -> & Hp & Hc & Hn)]]].
  - rewrite (proj1 (untouched_same op fs Hp Hc)), (proj2 (untouched_same op fs Hp Hc)).
    by rewrite (proj2 (untouched_same op (w_files w) Hp Hc)).
  - split_and!; [apply swap_pc|intros _; apply swap_pc|intros _; apply swap_pc].
  - split_and!; [apply swap_cp|intros _; apply swap_cp|intros _; apply swap_cp].
  - pose proof (place_p x fs Hp Hc Hwk ltac:(auto)) as [? ?].
    pose proof (place_p x (w_files w) Hp Hc (kept_files w Hk) Hn) as [? ?]. tauto.
Qed.

Lemma benign_present_files w op :
  kept w → benign w op → present (w_files w) → present (apply_op (w_files w) op).
Proof. intros Hk Hb. apply (benign_remnant w op _ Hk Hb (remnant_files w)). Qed.

Lemma issue_kept w op : kept w → benign w op → kept (issue op w).
Proof.
  intros Hk Hb fs Hr. rewrite files_issue. apply remnant_issue in Hr as [Hr|(fs0 & Hr & ->)].
  - destruct (Hk _ Hr) as [Hwk Hf]. split; [done|]. intros Hp. by apply benign_present_files, Hf.
  - destruct (benign_remnant w op fs0 Hk Hb Hr) as (? & ? & ?). done.
Qed.

Lemma stored_remnant w : stored w ↔ (∀ fs, remnant w fs → present fs) ∧ w_linked w = true.
Proof.
  split.
  - intros Hs. split.
    + intros fs (ops & Hsub & ->). apply Hs. by constructor.
    + destruct (w_linked w) eqn:E; [done|]. specialize (Hs ∅ (crash_unlinked w E)).
      unfold present in Hs. rewrite !lookup_empty in Hs. naive_solver.
  - intros [Hs Hl] fs [ops Hsub|Hl']; [|congruence]. apply Hs. by exists ops.
Qed.

Lemma issue_stored w op : kept w → benign w op → stored w → stored (issue op w).
Proof.
  rewrite !stored_remnant. intros Hk Hb [Hs Hl]. split; [|done]. intros fs Hr.
  apply remnant_issue in Hr as [Hr|(fs0 & Hr & ->)]; [by apply Hs|].
  by apply (benign_remnant w op fs0 Hk Hb Hr), Hs.
Qed.

Lemma owed_issue ack w op : owed ack w → queued w ∨ benign w op → owed ack (issue op w).
Proof.
  intros [Hq|[Hk Hs]] [Hq'|Hb]; try by left. right. split; [by apply issue_kept|].
  intros Ha. apply issue_stored; auto.
Qed.

(** ** What keeps a request owed *)
Lemma owed_frame ack w w' : frame w w' → owed ack w → owed ack w'.
Proof.
  intros Hf. pose proof (frame_files _ _ Hf) as Ew. destruct w as [d pe l cl fa db], w' as [d' pe' l' cl' fa' db'].
  destruct Hf as (E1 & E2 & E3 & E4). simpl in *. subst. intros [Hq|[Hk Hs]]; [by left|right].
  split; [exact Hk|]. intros Ha. specialize (Hs Ha). rewrite stored_remnant in *. exact Hs.
Qed.

Definition safe {A} (ack : bool) (m : M A) (w : world) : Prop := owed ack (m w).1.

Lemma safe_reads {A} ack (m : M A) w : reads m → owed ack w → safe ack m w.
Proof. intros Hm. apply owed_frame, Hm. Qed.

Lemma safe_bind {A B} ack (m : M A) (k : A → M B) w :
  safe ack m w → (∀ a w', m w = (w', Ok a) → owed ack w' → safe ack (k a) w') → safe ack (bind m k) w.
Proof.
  unfold safe, bind. intros Hm Hk. destruct (m w) as [w' [a|e]] eqn:E; [|done]. by apply Hk.
Qed.

Lemma safe_attempt {A} ack (m : M A) w : safe ack m w → safe ack (attempt_call m) w.
Proof. unfold safe, attempt_call. by destruct (m w). Qed.

Lemma safe_uncertain {A} ack (m : M A) w : safe ack m w → safe ack (uncertain m) w.
Proof. unfold safe, uncertain. by destruct (m w) as [w' [a|[]]]. Qed.

Lemma owed_sync ack w :
  owed ack w → owed ack (World (w_files w) [] (w_linked w) (w_claims w) (w_faults w) (w_db w)).
Proof.
  intros [Hq|[Hk Hs]]; [by left|right]. split.
  - intros fs (ops & Hsub & ->). apply sublist_nil_r in Hsub as ->. split; [by apply kept_files|done].
  - intros Ha. specialize (Hs Ha). rewrite stored_remnant in *. destruct Hs as [Hs Hl].
    split; [|done]. intros fs (ops & Hsub & ->). apply sublist_nil_r in Hsub as ->.
    apply Hs, remnant_files.
Qed.

Lemma owed_link ack w :
  owed ack w → owed ack (World (w_durable w) (w_pending w) true (w_claims w) (w_faults w) (w_db w)).
Proof.
  intros [Hq|[Hk Hs]]; [by left|right]. split; [exact Hk|]. intros Ha. specialize (Hs Ha).
  rewrite stored_remnant in *. destruct Hs as [Hs _]. by split.
Qed.

Lemma safe_sync ack w : owed ack w → safe ack sync_spool_namespace w.
Proof.
  intros Ho. apply safe_bind.
  - apply safe_bind; [by apply safe_reads; [apply reads_fallible|]|].
    intros [] w' _ Ho'. by apply owed_sync.
  - intros [] w' _ Ho'. apply safe_bind; [by apply safe_reads; [apply reads_fallible|]|].
    intros [] w'' _ Ho''. by apply owed_link.
Qed.

Lemma queued_frame w w' : frame w w' → queued w → queued w'.
Proof. unfold queued. by intros (_ & _ & _ & ->). Qed.

Lemma benign_frame w w' op : frame w w' → benign w op → benign w' op.
Proof. intros Hf. unfold benign. by rewrite (frame_files _ _ Hf). Qed.

Lemma safe_rename ack from to w :
  owed ack w →
  (∀ bytes, w_files w !! from = Some bytes → queued w ∨ benign w (OpRename from to bytes)) →
  safe ack (rename_file from to) w.
Proof.
  intros Ho Hb. apply safe_bind; [by apply safe_reads; [apply reads_fallible|]|].
  intros [] w1 Hf Ho1. apply fallible_frame in Hf. apply safe_bind; [done|].
  intros fs w2 [= <- <-] _. rewrite (frame_files _ _ Hf).
  destruct (w_files w !! from) as [bytes|] eqn:E; [|done]. apply owed_issue; [done|].
  destruct (Hb bytes eq_refl); eauto using queued_frame, benign_frame.
Qed.

Lemma safe_remove ack name w :
  owed ack w → (is_Some (w_files w !! name) → queued w ∨ benign w (OpRemove name)) →
  safe ack (remove_file name) w.
Proof.
  intros Ho Hb. apply safe_bind; [by apply safe_reads; [apply reads_fallible|]|].
  intros [] w1 Hf Ho1. apply fallible_frame in Hf. apply safe_bind; [done|].
  intros fs w2 [= <- <-] _. rewrite (frame_files _ _ Hf).
  destruct (w_files w !! name) as [bytes|] eqn:E; [|done]. apply owed_issue; [done|].
  destruct (Hb ltac:(eauto)); eauto using queued_frame, benign_frame.
Qed.

(** ** The operations of the spool *)
Definition foreign (name : string) : Prop := name ≠ record_path r ∧ name ≠ claim_path (record_path r).

Lemma foreign_ext name e : extension name = Some e → e ≠ "json" → e ≠ "claim" → foreign name.
Proof.
  intros He Hj Hc. split; intros ->; rewrite ?record_path_ext, ?claim_ext in He; congruence.
Qed.

Lemma foreign_rename w from to bytes : foreign from → foreign to → benign w (OpRename from to bytes).
Proof. intros [? ?] [? ?]. left. simpl. unfold p, c. naive_solver. Qed.
Lemma foreign_remove w name : foreign name → benign w (OpRemove name).
Proof. intros [? ?]. by left. Qed.

(** A record's path and its claim are the request's or foreign. *)
Lemma path_cases path :
  extension path = Some "json" →
  path = record_path r ∨ (foreign path ∧ foreign (claim_path path)).
Proof.
  intros He. destruct (decide (path = record_path r)) as [->|Hne]; [by left|right].
  pose proof (claim_path_ext path (stem_nonempty _ _ He)) as Hc. split; split; try done.
  - intros ->. by rewrite claim_ext in He.
  - intros E. by rewrite E, record_path_ext in Hc.
  - intros E. by apply claim_path_inj in E; [|done|apply record_path_ext].
Qed.

Lemma visible ack w bytes name :
  owed ack w → w_files w !! name = Some bytes →
  name = record_path r ∨ name = claim_path (record_path r) → queued w ∨ bytes = record_to_json r.
Proof.
  intros [Hq|[Hk _]]; [by left|]. pose proof (kept_files w Hk) as Hw. unfold well_kept in Hw. simpl in Hw.
  intros E [->| ->]; rewrite E in Hw; right; naive_solver.
Qed.

Lemma both_visible ack w :
  owed ack w → is_Some (w_files w !! record_path r) →
  is_Some (w_files w !! claim_path (record_path r)) → queued w.
Proof.
  intros [Hq|[Hk _]] [x Hx] [y Hy]; [done|]. pose proof (kept_files w Hk) as Hw.
  unfold well_kept in Hw. simpl in Hw. rewrite Hx, Hy in Hw. naive_solver.
Qed.

Lemma decode_foreign ack name w w' n :
  owed ack w → read_record name w = (w', Err (SpoolDecode n)) → queued w' ∨ foreign name.
Proof.
  intros Ho Er. pose proof (reads_read_record name w) as Hf. rewrite Er in Hf. simpl in Hf.
  apply read_record_decode in Er as (bytes & Hb & Hj). unfold foreign.
  destruct (decide (name = record_path r)) as [Hn|Hn];
    [|destruct (decide (name = claim_path (record_path r))) as [Hn'|Hn']; [|by right]];
    left; (destruct (visible ack w bytes name Ho Hb ltac:(auto)) as [Hq| ->];
      [by eapply queued_frame|by rewrite record_json_roundtrip in Hj]).
Qed.

(** The steps of a sequence of calls, with what each reading call returned. *)
Ltac safe_read := apply safe_bind; [by apply safe_reads; auto with spool|].

Lemma safe_quarantine ack name w :
  owed ack w → is_empty name = false → queued w ∨ foreign name → safe ack (quarantine name) w.
Proof.
  intros Ho Hn Hf. unfold quarantine. safe_read. intros bytes w1 E1 Ho1.
  pose proof (reads_read_file name w) as Hr. rewrite E1 in Hr. simpl in Hr.
  assert (queued w1 ∨ foreign name) as Hf1 by (destruct Hf; eauto using queued_frame).
  pose proof (foreign_ext _ _ (quarantine_ext name bytes Hn) ltac:(done) ltac:(done)) as Hd.
  safe_read. intros there w2 E2 Ho2. apply exists_file_result in E2 as [-> _].
  apply safe_bind; [|intros [] w3 _ Ho3; by apply safe_sync].
  destruct there.
  - apply safe_remove; [done|]. intros _. destruct Hf1; eauto using foreign_remove.
  - apply safe_rename; [done|]. intros ? _. destruct Hf1; eauto using foreign_rename.
Qed.

Lemma safe_claim ack path w :
  owed ack w → extension path = Some "json" → safe ack (claim path) w.
Proof.
  intros Ho He. unfold claim. apply safe_bind.
  - apply safe_attempt, safe_rename; [done|]. intros bytes Hb.
    destruct (path_cases path He) as [->|[? ?]]; [|eauto using foreign_rename].
    destruct (visible ack w bytes _ Ho Hb ltac:(auto)) as [?| ->]; [by left|right].
    right. left. done.
  - intros [[]|e] w1 _ Ho1; [|destruct e; by apply safe_reads; auto with spool].
    safe_read. intros [] w2 _ Ho2. apply safe_bind; [by apply safe_attempt, safe_sync|].
    intros [[]|e] w3 _ Ho3; [done|]. destruct e; apply safe_reads; reads_tac.
Qed.

Lemma safe_release ack path w :
  owed ack w → extension path = Some "json" → safe ack (release_claim path (claim_path path)) w.
Proof.
  intros Ho He. unfold release_claim. safe_read. intros there w1 E1 Ho1.
  apply exists_file_result in E1 as [-> ->]. apply safe_bind.
  - case_bool_decide as Hp.
    + safe_read. intros claimed w2 E2 Ho2. safe_read. intros existing w3 E3 Ho3.
      pose proof (reads_read_record (claim_path path) w) as F2. rewrite E2 in F2. simpl in F2.
      pose proof (reads_read_record path w2) as F3. rewrite E3 in F3. simpl in F3.
      apply read_record_result in E2 as (bytes & Hb & _).
      apply safe_attempt. case_bool_decide; [|by apply safe_reads; auto with spool].
      apply safe_remove; [done|]. intros _. destruct (path_cases path He) as [->|[? ?]].
      * left. do 2 (eapply queued_frame; [eassumption|]). eapply both_visible; eauto.
      * right. by apply foreign_remove.
    + apply safe_attempt, safe_rename; [done|]. intros bytes Hb.
      destruct (path_cases path He) as [->|[? ?]]; [|eauto using foreign_rename].
      destruct (visible ack w bytes _ Ho Hb ltac:(auto)) as [?| ->]; [by left|right].
      right. right. left. done.
  - intros res w2 _ Ho2. safe_read. intros [] w3 _ Ho3.
    destruct res; [by apply safe_sync|by apply safe_reads; auto with spool].
Qed.

(** After a positive answer, or a conflict, the queue has the operation. *)
Definition settles (answer : result string QueueError) : bool :=
  match answer with Ok _ | Err IdempotencyConflict => true | _ => false end.

Lemma safe_finish ack path answer w :
  owed ack w → extension path = Some "json" →
  (settles answer = true → path = record_path r → queued w) →
  safe ack (finish path (claim_path path) answer) w.
Proof.
  intros Ho He Hq.
  assert (settles answer = true → queued w ∨ foreign (claim_path path)) as Hc.
  { intros Hs. destruct (path_cases path He) as [->|[? ?]]; auto. }
  assert (is_empty (claim_path path) = false) as Hne.
  { pose proof (stem_nonempty _ _ He). unfold claim_path, with_extension. by destruct (file_stem path). }
  assert (∀ m : M unit, settles answer = true → safe ack m w → safe ack
    (let! d := attempt_call m in let! _ := forget_claim (claim_path path) in
     match d with Ok _ => ret (match answer with Ok _ => true | _ => false end) | Err e => fail e end) w) as Hm.
  { intros m Hs Hw. apply safe_bind; [by apply safe_attempt|]. intros d w1 _ Ho1. safe_read.
    intros [] w2 _ Ho2. destruct d; by apply safe_reads; auto with spool. }
  unfold finish. destruct answer as [id|e].
  - apply Hm; [done|]. apply safe_bind; [|intros [] w1 _ Ho1; by apply safe_sync].
    apply safe_remove; [done|]. intros _. destruct (Hc eq_refl); eauto using foreign_remove.
  - destruct e; try (apply safe_bind; [by apply safe_release|intros [] w1 _ Ho1; done]).
    apply Hm; [done|]. by apply safe_quarantine; [| |apply Hc].
Qed.

Lemma safe_recover_one ack claim_p w (k : M bool) :
  owed ack w → extension claim_p = Some "claim" →
  (∀ w', owed ack w' → safe ack k w') →
  safe ack
    (let! there := exists_file (with_extension claim_p "json") in
     if there then
       let! c := attempt_call (read_record claim_p) in
       match c with
       | Err (SpoolDecode _) => let! _ := quarantine claim_p in k
       | Err e => fail e
       | Ok claimed =>
           let! x := attempt_call (read_record (with_extension claim_p "json")) in
           match x with
           | Err (SpoolDecode _) => let! _ := quarantine (with_extension claim_p "json") in k
           | Err e => fail e
           | Ok existing =>
               if negb (bool_decide (claimed = existing)) then fail SpoolConflict
               else let! _ := remove_file claim_p in k
           end
       end
     else let! _ := rename_file claim_p (with_extension claim_p "json") in k) w.
Proof.
  intros Ho He Hk. destruct (claim_of_record claim_p He) as [Hr Hc].
  set (record_p := with_extension claim_p "json") in *.
  safe_read. intros there w1 E1 Ho1. apply exists_file_result in E1 as [-> ->]. case_bool_decide as Hp.
  - safe_read. intros res w2 E2 Ho2. unfold attempt_call in E2.
    destruct (read_record claim_p w) as [w2' res'] eqn:E2'. injection E2 as -> ->.
    pose proof (reads_read_record claim_p w) as F2. rewrite E2' in F2. simpl in F2.
    destruct res as [claimed|e].
    + safe_read. intros res w3 E3 Ho3. unfold attempt_call in E3.
      destruct (read_record record_p w2) as [w3' res'] eqn:E3'. injection E3 as -> ->.
      pose proof (reads_read_record record_p w2) as F3. rewrite E3' in F3. simpl in F3.
      destruct res as [existing|e].
      * case_bool_decide; simpl; [|by apply safe_reads; auto with spool].
        apply safe_bind; [|intros [] w4 _ Ho4; by apply Hk]. apply safe_remove; [done|]. intros _.
        apply read_record_result in E2' as (bytes & Hb & _). rewrite <- Hc in Hb |- *.
        destruct (path_cases record_p Hr) as [Ep|[? ?]]; [|eauto using foreign_remove].
        left. do 2 (eapply queued_frame; [eassumption|]). rewrite Ep in *. eapply both_visible; eauto.
      * destruct e; try (by apply safe_reads; auto with spool).
        apply safe_bind; [|intros [] w4 _ Ho4; by apply Hk].
        apply safe_quarantine; [done|by eapply ext_nonempty|by eapply decode_foreign in E3'].
    + destruct e; try (by apply safe_reads; auto with spool).
      apply safe_bind; [|intros [] w4 _ Ho4; by apply Hk].
      apply safe_quarantine; [done|by eapply ext_nonempty|by eapply decode_foreign in E2'].
  - apply safe_bind; [|intros [] w4 _ Ho4; by apply Hk]. apply safe_rename; [done|].
    intros bytes Hb. rewrite <- Hc in Hb |- *.
    destruct (path_cases record_p Hr) as [->|[? ?]]; [|eauto using foreign_rename].
    destruct (visible ack w bytes _ Ho Hb ltac:(auto)) as [?| ->]; [by left|right].
    right. right. left. done.
Qed.

Lemma safe_recover_loop ack active names recovered w :
  owed ack w → safe ack (recover_loop active names recovered) w.
Proof.
  revert recovered w. induction names as [|claim_p names IH]; intros recovered w Ho; [done|].
  cbn [recover_loop]. destruct (has_extension "claim" claim_p) eqn:He; [|by apply IH]. simpl.
  case_bool_decide; [by apply IH|]. apply has_extension_spec in He.
  apply safe_recover_one; [done|done|]. intros w' Ho'. by apply IH.
Qed.

Context `{DirScan}.

Lemma safe_recover ack w : owed ack w → safe ack recover_stale_claims w.
Proof.
  intros Ho. unfold recover_stale_claims. safe_read. intros names w1 _ Ho1. safe_read.
  intros active w2 _ Ho2. apply safe_bind; [by apply safe_recover_loop|].
  intros [] w3 _ Ho3; [by apply safe_sync|done].
Qed.

Lemma safe_records_loop ack names acc w : owed ack w → safe ack (records_loop names acc) w.
Proof.
  revert acc w. induction names as [|name names IH]; intros acc w Ho; [done|]. cbn [records_loop].
  destruct (has_extension "json" name) eqn:He; [|by apply IH]. simpl. apply has_extension_spec in He.
  safe_read. intros res w1 E Ho1. unfold attempt_call in E.
  destruct (read_record name w) as [w1' res'] eqn:E'. injection E as -> ->.
  destruct res as [request|e]; [by apply IH|]. destruct e; try (by apply safe_reads; auto with spool).
  apply safe_bind; [|intros [] w2 _ Ho2; by apply IH].
  apply safe_quarantine; [done|by eapply ext_nonempty|by eapply decode_foreign in E'].
Qed.

Lemma safe_records ack w : owed ack w → safe ack records w.
Proof.
  intros Ho. unfold records. apply safe_bind; [by apply safe_recover|]. intros [] w1 _ Ho1. safe_read.
  intros names w2 _ Ho2. apply safe_bind; [by apply safe_records_loop|]. by intros found w3 _ Ho3.
Qed.

(** ** An accepted request *)
Lemma sync_ok w w' u :
  sync_spool_namespace w = (w', Ok u) →
  w_durable w' = w_files w ∧ w_pending w' = [] ∧ w_linked w' = true ∧ w_db w' = w_db w.
Proof.
  unfold sync_spool_namespace, sync_dir, sync_parent, bind.
  destruct (fallible w) as [w1 [[]|]] eqn:E1; [|done]. apply fallible_frame in E1.
  set (w2 := World _ _ _ _ _ _). destruct (fallible w2) as [w3 [[]|]] eqn:E3; [|done].
  apply fallible_frame in E3 as (D & P & L & B). intros [= <- _]. simpl.
  rewrite D, P, B. simpl. rewrite (frame_files _ _ E1). split_and!; try done. apply E1.
Qed.

Lemma uncertain_ok {A} (m : M A) w w' a : uncertain m w = (w', Ok a) → m w = (w', Ok a).
Proof. unfold uncertain. by destruct (m w) as [? [?|[]]]. Qed.

Lemma synced_stored ack w w' u :
  owed ack w → queued w ∨ present (w_files w) → sync_spool_namespace w = (w', Ok u) → owed true w'.
Proof.
  intros Ho Hp E. pose proof (safe_sync ack w Ho) as Hs. unfold safe in Hs. rewrite E in Hs. simpl in Hs.
  apply sync_ok in E as (D & P & L & B). destruct Hp as [Hq|Hp].
  { left. unfold queued. by rewrite B. }
  destruct Hs as [Hq|[Hk _]]; [by left|right]. split; [done|]. intros _. rewrite stored_remnant.
  split; [|done]. intros fs (ops & Hsub & ->). rewrite P in Hsub. apply sublist_nil_r in Hsub as ->.
  simpl. by rewrite D.
Qed.

Lemma write_new_ok name bytes w w' :
  write_new name bytes w = (w', Ok tt) → w_files w' = <[name := bytes]> (w_files w).
Proof.
  intros E. unfold write_new, bind at 1 in E.
  destruct (fallible w) as [w1 [[]|]] eqn:E1; [|done]. apply fallible_frame in E1.
  unfold bind at 1, files in E. destruct (bool_decide _); [done|]. unfold bind at 1 in E.
  pose proof (reads_next_fault w1) as Hn.
  destruct (next_fault w1) as [w2 [[[n e]|]|]]; simpl in Hn; try done.
  unfold bind, perform in E. apply fallible_frame in E. rewrite (frame_files _ _ E), files_issue.
  simpl. by rewrite (frame_files _ _ Hn), (frame_files _ _ E1).
Qed.

Lemma safe_write_new ack name bytes w : foreign name → owed ack w → safe ack (write_new name bytes) w.
Proof.
  intros [Hp Hc] Ho.
  assert (∀ x w', owed ack w' → safe ack (perform (OpWrite name x)) w') as Hw.
  { intros x w' Ho'. apply owed_issue; [done|]. right. by left. }
  unfold write_new. safe_read. intros [] w1 _ Ho1. safe_read. intros fs w2 _ Ho2.
  case_bool_decide; [by apply safe_reads; auto with spool|]. safe_read. intros [[n e]|] w3 _ Ho3.
  - apply safe_bind; [by apply Hw|]. by intros [] w4 _ Ho4.
  - apply safe_bind; [by apply Hw|]. intros [] w4 _ Ho4. by apply safe_reads; auto with spool.
Qed.

(** The write of a new record, when neither of its names is in use. *)
Definition write_record (temp path bytes : string) : M unit :=
  let! _ := write_new temp bytes in
  let! _ := rename_file temp path in
  uncertain sync_spool_namespace.

Lemma write_record_rename ack r' temp w w' :
  owed ack w → foreign temp → (record_path r' = record_path r → r' = r) →
  w_files w !! record_path r' = None → w_files w !! claim_path (record_path r') = None →
  write_new temp (record_to_json r') w = (w', Ok tt) → owed ack w' →
  ∀ bytes, w_files w' !! temp = Some bytes → queued w' ∨ benign w' (OpRename temp (record_path r') bytes).
Proof.
  intros Ho [Htp Htc] Hr Hp Hc Ew Ho' bytes Hb. rewrite (write_new_ok _ _ _ _ Ew), lookup_insert_eq in Hb.
  injection Hb as <-. destruct (path_cases _ (record_path_ext r')) as [E|[Hf _]].
  - rewrite (Hr E) in *. right. right. right. right. exists temp. split_and!; try done.
    rewrite (write_new_ok _ _ _ _ Ew). unfold present. rewrite !lookup_insert_ne by done.
    rewrite Hp, Hc. naive_solver.
  - right. by apply foreign_rename.
Qed.

Lemma safe_write_record ack r' temp w :
  owed ack w → foreign temp → (record_path r' = record_path r → r' = r) →
  w_files w !! record_path r' = None → w_files w !! claim_path (record_path r') = None →
  safe ack (write_record temp (record_path r') (record_to_json r')) w.
Proof.
  intros Ho Ht Hr Hp Hc. unfold write_record. apply safe_bind; [by apply safe_write_new|].
  intros [] w1 E1 Ho1. apply safe_bind.
  - apply safe_rename; [done|]. exact (write_record_rename ack _ temp w w1 Ho Ht Hr Hp Hc E1 Ho1).
  - intros [] w2 _ Ho2. by apply safe_uncertain, safe_sync.
Qed.

Lemma rename_ok from to w w' u :
  rename_file from to w = (w', Ok u) →
  ∃ bytes, w_files w !! from = Some bytes ∧ w_files w' = <[to := bytes]> (delete from (w_files w)).
Proof.
  unfold rename_file, bind at 1. destruct (fallible w) as [w1 [[]|]] eqn:E1; [|done].
  apply fallible_frame in E1. unfold bind, files. rewrite (frame_files _ _ E1).
  destruct (w_files w !! from) as [bytes|]; [|done]. intros [= <- _]. exists bytes.
  by rewrite files_issue, (frame_files _ _ E1).
Qed.

Lemma write_record_stored ack temp w w' u :
  owed ack w → foreign temp → w_files w !! record_path r = None →
  w_files w !! claim_path (record_path r) = None →
  write_record temp (record_path r) (record_to_json r) w = (w', Ok u) → owed true w'.
Proof.
  intros Ho Ht Hp Hc E. unfold write_record, bind in E.
  pose proof (safe_write_new ack temp (record_to_json r) w Ht Ho) as H1'. unfold safe in H1'.
  destruct (write_new temp _ w) as [w1 [[]|]] eqn:E1; [|done]. simpl in H1'.
  pose proof (safe_rename ack temp (record_path r) w1 H1'
    (write_record_rename ack r temp w w1 Ho Ht ltac:(done) Hp Hc E1 H1')) as H2'. unfold safe in H2'.
  destruct (rename_file temp _ w1) as [w2 [[]|]] eqn:E2; [|done]. simpl in H2'.
  apply uncertain_ok in E. eapply synced_stored; [exact H2'| |exact E]. right. left.
  apply rename_ok in E2 as (bytes & Hb & ->). rewrite lookup_insert_eq.
  by rewrite (write_new_ok _ _ _ _ E1), lookup_insert_eq in Hb.
Qed.

Lemma append_unfold max_bytes pid counter request :
  append max_bytes pid counter request =
  let! _ := fallible in
  let! at_path := exists_file (record_path request) in
  let! at_claim := exists_file (claim_path (record_path request)) in
  if at_path || at_claim then
    let! existing := read_record (if at_path then record_path request else claim_path (record_path request)) in
    if bool_decide (existing = request) then
      let! _ := uncertain sync_spool_namespace in ret AlreadyPresent
    else fail SpoolConflict
  else
    let! active_bytes := spool_bytes in
    let record_bytes := str_len (record_to_json request) in
    if (max_bytes <? record_bytes) || (sat_u64 (max_bytes - record_bytes) <? active_bytes)
    then fail (SpoolFull record_bytes active_bytes max_bytes)
    else
      let temp := temp_path (record_path request) pid counter in
      let! write_result := attempt_call (write_record temp (record_path request) (record_to_json request)) in
      match write_result with
      | Ok _ => ret Appended
      | Err e => let! _ := discard (remove_file temp) in fail e
      end.
Proof. done. Qed.

Lemma bool_decide_is_Some_false (o : option string) : bool_decide (is_Some o) = false → o = None.
Proof. intros Hf%bool_decide_eq_false. by apply eq_None_not_Some. Qed.

Lemma temp_foreign name pid counter : foreign (temp_path name pid counter).
Proof. by eapply foreign_ext; [apply temp_ext| |]. Qed.

Lemma safe_append ack max_bytes pid counter r' w :
  owed ack w → (record_path r' = record_path r → r' = r) →
  safe ack (append max_bytes pid counter r') w.
Proof.
  intros Ho Hr. rewrite append_unfold. safe_read. intros [] w0 _ Ho0. safe_read. intros at_path w1 E1 Ho1.
  safe_read. intros at_claim w2 E2 Ho2. apply exists_file_result in E1 as [-> ->], E2 as [-> ->].
  destruct (_ || _) eqn:Hex.
  - safe_read. intros existing w3 _ Ho3. destruct (bool_decide (existing = r')); [|by apply safe_reads; auto with spool].
    apply safe_bind; [by apply safe_uncertain, safe_sync|]. by intros [] w4 _ Ho4.
  - apply orb_false_iff in Hex as [Hp Hc]. apply bool_decide_is_Some_false in Hp, Hc. safe_read.
    intros active w3 E3 Ho3. cbv zeta. pose proof (reads_spool_bytes w0) as F3. rewrite E3 in F3.
    pose proof (frame_files _ _ F3) as Ff. simpl in Ff. case_match; [by apply safe_reads; auto with spool|].
    apply safe_bind.
    + apply safe_attempt, safe_write_record; rewrite ?Ff; auto using temp_foreign.
    + intros [[]|e] w4 _ Ho4; [done|]. apply safe_bind; [|by intros [] w5 _ Ho5].
      apply safe_bind; [|by intros ? w5 _ Ho5]. apply safe_attempt, safe_remove; [done|]. intros _.
      right. apply foreign_remove, temp_foreign.
Qed.

Lemma append_stored ack max_bytes pid counter w w' o :
  owed ack w → append max_bytes pid counter r w = (w', Ok o) → owed true w'.
Proof.
  intros Ho. rewrite append_unfold. unfold bind at 1.
  destruct (fallible w) as [w0 [[]|]] eqn:E0; [|done].
  apply fallible_frame in E0. apply (owed_frame ack _ _ E0) in Ho.
  unfold bind at 1, exists_file at 1, bind at 1, files, ret at 1.
  unfold bind at 1, exists_file at 1, bind at 1, files, ret at 1.
  destruct (_ || _) eqn:Hex.
  - unfold bind at 1. pose proof (reads_read_record (if bool_decide (is_Some (w_files w0 !! record_path r))
      then record_path r else claim_path (record_path r)) w0) as F. revert F.
    destruct (read_record _ w0) as [w1 [existing|]] eqn:E1; [|done]. simpl. intros F.
    destruct (bool_decide (existing = r)); [|done]. unfold bind.
    destruct (uncertain sync_spool_namespace w1) as [w2 [[]|]] eqn:E2; [|done]. intros [= <- _].
    apply uncertain_ok in E2. pose proof (owed_frame ack _ _ F Ho) as Ho1.
    eapply synced_stored; [exact Ho1| |exact E2]. rewrite (frame_files _ _ F).
    apply read_record_result in E1 as (bytes & Hb & _). unfold present.
    destruct (bool_decide (is_Some (w_files w0 !! record_path r))); simpl in Hb;
      (destruct (visible ack w0 bytes _ Ho Hb ltac:(auto)) as [Hq| ->]; [left; by eapply queued_frame|auto]).
  - apply orb_false_iff in Hex as [Hp Hc]. apply bool_decide_is_Some_false in Hp, Hc.
    unfold bind at 1. pose proof (reads_spool_bytes w0) as F.
    destruct (spool_bytes w0) as [w1 [active|]]; [|done]. simpl in F. cbv zeta. case_match; [done|].
    unfold bind at 1, attempt_call. destruct (write_record _ _ _ w1) as [w2 [[]|]] eqn:E2.
    + intros [= <- _]. eapply write_record_stored; [by eapply owed_frame|apply temp_foreign| | |exact E2];
        by rewrite (frame_files _ _ F).
    + unfold bind, discard, bind, attempt_call. by destruct (remove_file _ w2).
Qed.
End request.
