(* ===== verification/IngressSpoolSystem.v ===== *)
(** * The ingress spool as a system

    Appends, drains, the other users of the queue, failing calls and crashes as
    the steps of one transition system: a drain runs call by call, between the
    calls of other drains. What an accepted request is owed (from
    [IngressSpoolSafety]) is an invariant of every run. *)

From Stdlib Require Import ZArith Lia String Ascii.
From stdpp Require Import base tactics list gmap strings numbers relations sorting.
From S2P Require Import Prelude Text Order Rfc3339 ProcessIdentity Sqlite.
From S2P Require Import WriterLease QueueTypes QueueFailures QueueStore QueueAdmin.
From S2P Require Import QueueLifecycle QueueSystem QueueSafety IngressSpool IngressSpoolSafety.
Open Scope Z_scope.
Open Scope rust_scope.

(** ** What an enqueue by key does to the queue *)
Section enqueue.
Context `{QueueEnv, TableScan}.

(** The errors of connections are SQLite's. *)
Definition plain_io (io : queue_io) : Prop :=
  ∀ t, c_open (io t) ≠ Some IdempotencyConflict ∧ c_begin (io t) ≠ Some IdempotencyConflict
       ∧ c_commit (io t) ≠ Some IdempotencyConflict.

Lemma conflict_known id kind hash db : explicit_key_conflicts id kind hash db = true → known db id.
Proof.
  unfold explicit_key_conflicts, known. destruct (q_pending db !! id); [eauto|].
  destruct (q_completions db !! id); [eauto|done].
Qed.

Lemma exists_known id db : queue_message_identity_exists id db = true → known db id.
Proof.
  unfold queue_message_identity_exists, known. rewrite orb_true_iff, !bool_decide_eq_true. done.
Qed.

Lemma spool_insert_once_known id row db : known (insert_message_once id row db) id.
Proof.
  unfold insert_message_once, known. destruct (q_completions db !! id) eqn:E1; [rewrite E1; eauto|].
  destruct (q_pending db !! id) eqn:E2; [rewrite E2; eauto|]. left. simpl. rewrite lookup_insert_eq. eauto.
Qed.

Lemma insert_known id row db db' : insert_message id row db = Ok db' → known db' id.
Proof.
  unfold insert_message. repeat case_match; try done. intros [= <-]. left. simpl.
  rewrite lookup_insert_eq. eauto.
Qed.

Lemma insert_not_conflict id row db : insert_message id row db ≠ Err IdempotencyConflict.
Proof. unfold insert_message, unique_violation. by repeat case_match. Qed.

(** Both answers that end a record's time in the spool mean that the queue has an
    operation under its key. *)
Lemma enqueue_key_settles s io kind payload t key created_at ide other db db' answer :
  plain_io io →
  enqueue_with_busy_timeout s io kind payload t (ExplicitKey key) created_at ide other db = (db', answer) →
  settles answer = true → known db' (idempotent_key_message_id kind key).
Proof.
  intros Hio. destruct (Hio t) as (Ho & Hb & Hc). unfold enqueue_with_busy_timeout. cbv zeta.
  unfold enqueue_id. case_bool_decide as Hk.
  - subst kind. unfold enqueue_ingest_with_byte_budget, with_connection_with_busy_timeout, transaction_immediate.
    destruct (c_open (io t)) as [[]|]; try (by intros [= <- <-]).
    destruct (c_begin (io t)) as [[]|]; try (by intros [= <- <-]). simpl.
    destruct (explicit_key_conflicts _ _ _ _) eqn:Ec; [intros [= <- _] _; by eapply conflict_known|].
    destruct (queue_message_identity_exists _ _) eqn:Ee.
    { apply exists_known in Ee. destruct (c_commit (io t)) as [[]|]; intros [= <- <-]; done. }
    destruct (over_budget _ _ _); [destruct (c_commit (io t)) as [[]|]; by intros [= <- <-]|].
    destruct (insert_message _ _ _) as [db1|e] eqn:Ei.
    + apply insert_known in Ei. destruct (c_commit (io t)) as [[]|]; intros [= <- <-]; done.
    + intros [= <- <-] Hs. by destruct e; apply insert_not_conflict in Ei || done.
  - unfold with_connection_with_busy_timeout, autocommit.
    destruct (c_open (io t)) as [[]|]; try (by intros [= <- <-]). simpl.
    destruct (explicit_key_conflicts _ _ _ _) eqn:Ec; [intros [= <- _] _; by eapply conflict_known|].
    destruct (c_commit (io t)) as [[]|]; intros [= <- <-]; try done. intros _. apply spool_insert_once_known.
Qed.

Lemma enqueue_fenced_settles s io lease kind payload key op created_at ide ms other db db' answer :
  plain_io io →
  enqueue_idempotent_with_key_fail_fast_fenced s io (Some lease) kind payload key op created_at ide ms
    other db = (db', answer) →
  settles answer = true → known db' (idempotent_key_message_id kind key).
Proof.
  intros Hio. destruct (Hio (Some 0)) as (Ho & Hb & Hc).
  unfold enqueue_idempotent_with_key_fail_fast_fenced, with_connection_with_busy_timeout, fenced_tx,
    transaction_immediate, require_runtime_writer_lease.
  destruct (c_open (io (Some 0))) as [[]|]; try (by intros [= <- <-]).
  destruct (c_begin (io (Some 0))) as [[]|]; try (by intros [= <- <-]).
  destruct (lease_row_active _ _ _ _ _ _); [|by intros [= <- <-]].
  destruct (explicit_key_conflicts _ _ _ _) eqn:Ec; [intros [= <- _] _; by eapply conflict_known|].
  destruct (c_commit (io (Some 0))) as [[]|]; intros [= <- <-]; try done. intros _. apply spool_insert_once_known.
Qed.
End enqueue.

(** ** Spool calls leave the queue alone *)
Definition keeps_db {A} (m : M A) : Prop := ∀ w, w_db (m w).1 = w_db w.

Lemma keeps_reads {A} (m : M A) : reads m → keeps_db m.
Proof. intros Hm w. apply Hm. Qed.
Lemma keeps_bind {A B} (m : M A) (k : A → M B) : keeps_db m → (∀ a, keeps_db (k a)) → keeps_db (bind m k).
Proof.
  intros Hm Hk w. unfold bind. specialize (Hm w). destruct (m w) as [w' [a|e]]; [|done].
  simpl in *. by rewrite Hk.
Qed.
Lemma keeps_attempt {A} (m : M A) : keeps_db m → keeps_db (attempt_call m).
Proof. intros Hm w. unfold attempt_call. specialize (Hm w). by destruct (m w). Qed.
Lemma keeps_uncertain {A} (m : M A) : keeps_db m → keeps_db (uncertain m).
Proof. intros Hm w. unfold uncertain. specialize (Hm w). by destruct (m w) as [? [?|[]]]. Qed.
Lemma keeps_perform op : keeps_db (perform op).
Proof. done. Qed.

Create HintDb keeps.
#[local] Hint Resolve keeps_attempt keeps_uncertain keeps_perform : keeps.
#[local] Hint Resolve reads_ret reads_fail reads_attempt reads_next_fault reads_files reads_claims reads_update_claims
  reads_fallible reads_exists_file reads_read_file reads_read_dir reads_sum_sizes reads_forget_claim
  reads_read_record reads_spool_bytes : spool.

Ltac keeps_tac := repeat first
  [ progress intros | solve [auto with keeps] | apply keeps_bind
  | solve [apply keeps_reads; auto with spool] | apply keeps_attempt | case_match ].

Lemma keeps_rename from to : keeps_db (rename_file from to).
Proof. unfold rename_file. keeps_tac. Qed.
Lemma keeps_remove name : keeps_db (remove_file name).
Proof. unfold remove_file. keeps_tac. Qed.
Lemma keeps_sync : keeps_db sync_spool_namespace.
Proof. unfold sync_spool_namespace, sync_dir, sync_parent. keeps_tac; done. Qed.
#[local] Hint Resolve keeps_rename keeps_remove keeps_sync : keeps.

Section keeps.
Context `{QueueEnv, SpoolJson, DirScan}.

Lemma keeps_write_new name bytes : keeps_db (write_new name bytes).
Proof. unfold write_new. keeps_tac. Qed.
Lemma keeps_quarantine name : keeps_db (quarantine name).
Proof. unfold quarantine. keeps_tac. Qed.
#[local] Hint Resolve keeps_write_new keeps_quarantine : keeps.
Lemma keeps_claim path : keeps_db (claim path).
Proof. unfold claim. keeps_tac. Qed.
Lemma keeps_release path claim_p : keeps_db (release_claim path claim_p).
Proof. unfold release_claim. keeps_tac. Qed.
#[local] Hint Resolve keeps_claim keeps_release : keeps.
Lemma keeps_finish path claim_p answer : keeps_db (finish path claim_p answer).
Proof. unfold finish. keeps_tac. Qed.
Lemma keeps_append max_bytes pid counter r : keeps_db (append max_bytes pid counter r).
Proof. unfold append, discard. keeps_tac. Qed.
Lemma keeps_recover_loop active names recovered : keeps_db (recover_loop active names recovered).
Proof. revert recovered. induction names as [|n names IH]; intros recovered; simpl; keeps_tac. Qed.
#[local] Hint Resolve keeps_recover_loop : keeps.
Lemma keeps_recover : keeps_db recover_stale_claims.
Proof. unfold recover_stale_claims. keeps_tac. Qed.
Lemma keeps_records_loop names acc : keeps_db (records_loop names acc).
Proof. revert acc. induction names as [|n names IH]; intros acc; simpl; keeps_tac. Qed.
#[local] Hint Resolve keeps_recover keeps_records_loop : keeps.
Lemma keeps_records : keeps_db records.
Proof. unfold records. keeps_tac. Qed.
End keeps.

(** ** The system *)
Inductive phase :=
  | Idle
  | Claimed (path claim_p : string) (request : HookIpcEnqueueRequest)
  | Answered (path claim_p : string) (answer : result string QueueError).

(** A drain: where it is in the round of its current record, and the records of
    its list it has not come to. *)
Record task := Task { t_phase : phase; t_todo : list (string * HookIpcEnqueueRequest) }.

Definition after_claim (path : string) (request : HookIpcEnqueueRequest)
    (rest : list (string * HookIpcEnqueueRequest)) (res : result (option string) IngressSpoolError)
    : list task :=
  match res with
  | Ok (Some claim_p) => [Task (Claimed path claim_p request) rest]
  | Ok None => [Task Idle rest]
  | Err _ => []
  end.

Section system.
Context `{QueueEnv, TableScan, SpoolJson, DirScan} (params : run_params)
  (client : HookIpcEnqueueRequest → Prop).

(** The queue calls of a drain, as [queue_step] has them. *)
Definition call_ok (s : store) (lease : option RuntimeWriterLease) (kind : string) (call : queue_call)
    (db : qdb) : Prop :=
  plain_io (qc_io call) ∧ store_ok params s ∧ (is_Some lease → key_fence_ok params lease kind)
  ∧ uses params (qc_ide call) ∧ others params db (qc_other call db).

Inductive spool_step : world * list task → world * list task → Prop :=
  | ss_append max_bytes pid counter r w ts :
      client r → spool_step (w, ts) ((append max_bytes pid counter r w).1, ts)
  | ss_drain w ts :
      spool_step (w, ts)
        ((records w).1, match (records w).2 with Ok l => ts ++ [Task Idle l] | Err _ => ts end)
  | ss_claim path request rest w ts1 ts2 :
      spool_step (w, ts1 ++ Task Idle ((path, request) :: rest) :: ts2)
        ((claim path w).1, ts1 ++ after_claim path request rest (claim path w).2 ++ ts2)
  | ss_enqueue s lease call path claim_p request rest w w' answer ts1 ts2 :
      call_ok s lease (hr_kind request) call (w_db w) →
      enqueue_record s lease call request w = (w', Ok answer) →
      spool_step (w, ts1 ++ Task (Claimed path claim_p request) rest :: ts2)
        (w', ts1 ++ Task (Answered path claim_p answer) rest :: ts2)
  | ss_finish path claim_p answer rest w ts1 ts2 :
      spool_step (w, ts1 ++ Task (Answered path claim_p answer) rest :: ts2)
        ((finish path claim_p answer w).1,
         ts1 ++ (if is_ok (finish path claim_p answer w).2 then [Task Idle rest] else []) ++ ts2)
  | ss_stop t w ts1 ts2 : spool_step (w, ts1 ++ t :: ts2) (w, ts1 ++ ts2)
  | ss_queue db w ts : queue_step params (w_db w) db → spool_step (w, ts) (set_db db w, ts)
  | ss_faults script w ts :
      spool_step (w, ts)
        (World (w_durable w) (w_pending w) (w_linked w) (w_claims w) script (w_db w), ts)
  | ss_crash fs w ts :
      crash_files w fs → spool_step (w, ts) (World fs [] (w_linked w) ∅ (w_faults w) (w_db w), []).

(** Before the first append: no directory, an empty queue. *)
Definition spool_start : world * list task := (World ∅ [] false ∅ [] empty_qdb, []).

(** A drain by itself is a run of the system. *)
Lemma drain_loop_runs s lease call recs drained w ts :
  (∀ path request db, (path, request) ∈ recs → call_ok s lease (hr_kind request) (call path) db) →
  rtc spool_step (w, ts ++ [Task Idle recs]) ((drain_loop s lease call recs drained w).1, ts).
Proof.
  revert drained w. induction recs as [|[path request] recs IH]; intros drained w Hc.
  { rewrite <- (app_nil_r ts) at 2. apply rtc_once, ss_stop. }
  cbn [drain_loop]. pose proof (ss_claim path request recs w ts []) as Hs.
  unfold bind at 1. destruct (claim path w) as [w1 [[claim_p|]|e]]; simpl in Hs;
    [| |rewrite app_nil_r in Hs; by apply rtc_once].
  - eapply rtc_l; [exact Hs|]. unfold bind at 1.
    destruct (enqueue_record s lease (call path) request w1) as [w2 [answer|e]] eqn:Ee; cycle 1.
    { unfold enqueue_record in Ee. by case_match. }
    eapply rtc_l; [by eapply ss_enqueue; [apply Hc; left|exact Ee]|].
    pose proof (ss_finish path claim_p answer recs w2 ts []) as Hf. unfold bind.
    destruct (finish path claim_p answer w2) as [w3 [counts|e]]; simpl in Hf;
      [|rewrite app_nil_r in Hf; by apply rtc_once].
    eapply rtc_l; [exact Hf|]. apply IH. intros p' r' db Hin. apply Hc. by right.
  - eapply rtc_l; [exact Hs|]. apply IH. intros p' r' db Hin. apply Hc. by right.
Qed.
End system.

(** ** The invariant *)
Section invariant.
Context `{DigestLaws, TableScan, SpoolJson} `{!SpoolJsonLaws} `{DirScan} (params : run_params)
  (client : HookIpcEnqueueRequest → Prop).

(** A key names one request. *)
Context (client_key : ∀ r r', client r → client r' → record_path r = record_path r' → r = r').
Variable r : HookIpcEnqueueRequest.
Context (Hclient : client r).

(** A record of a drain's list is the request, unless the queue has it already. *)
Definition listed (w : world) (x : string * HookIpcEnqueueRequest) : Prop :=
  extension x.1 = Some "json" ∧ (x.1 = record_path r → x.2 = r ∨ queued r w).

Definition phase_ok (w : world) (ph : phase) : Prop :=
  match ph with
  | Idle => True
  | Claimed path claim_p request => claim_p = claim_path path ∧ listed w (path, request)
  | Answered path claim_p answer =>
      claim_p = claim_path path ∧ extension path = Some "json"
      ∧ (settles answer = true → path = record_path r → queued r w)
  end.

Definition task_ok (w : world) (t : task) : Prop :=
  phase_ok w (t_phase t) ∧ Forall (listed w) (t_todo t).

Definition system_ok (ack : bool) (x : world * list task) : Prop :=
  owed r ack x.1 ∧ Forall (task_ok x.1) x.2.

Lemma task_ok_mono w w' t : (queued r w → queued r w') → task_ok w t → task_ok w' t.
Proof.
  intros Hq. unfold task_ok. rewrite !Forall_forall. unfold listed.
  intros [Hp Ht]. split; [|naive_solver]. destruct (t_phase t); simpl in *; unfold listed in *; naive_solver.
Qed.

Lemma tasks_mono w w' ts : (queued r w → queued r w') → Forall (task_ok w) ts → Forall (task_ok w') ts.
Proof. intros Hq Ht. eapply Forall_impl; [exact Ht|]. intros t. by apply task_ok_mono. Qed.

Lemma keeps_queued {A} (m : M A) w : keeps_db m → queued r w → queued r (m w).1.
Proof. unfold queued. intros Hm. by rewrite Hm. Qed.

Lemma records_loop_listed ack names acc w w' l :
  owed r ack w → Forall (listed w) acc → records_loop names acc w = (w', Ok l) → Forall (listed w') l.
Proof.
  revert acc w. induction names as [|name names IH]; intros acc w Ho Ha; [by intros [= <- <-]|].
  cbn [records_loop]. destruct (has_extension "json" name) eqn:He; [|by apply IH]. simpl.
  apply has_extension_spec in He. unfold bind at 1, attempt_call.
  destruct (read_record name w) as [w1 res] eqn:Er.
  pose proof (reads_read_record name w) as Hf. rewrite Er in Hf. simpl in Hf.
  pose proof (owed_frame r ack _ _ Hf Ho) as Ho1.
  assert (Forall (listed w1) acc) as Ha1.
  { eapply Forall_impl; [exact Ha|]. intros x [? ?]. split; [done|]. intros E.
    assert (queued r w → queued r w1) by eauto using queued_frame. naive_solver. }
  destruct res as [request|e].
  - apply IH; [done|]. apply Forall_app. split; [done|]. apply Forall_singleton. split; [done|].
    simpl. intros ->. apply read_record_result in Er as (bytes & Hb & Hj).
    destruct (visible r ack w bytes _ Ho Hb ltac:(auto)) as [Hq| ->]; [right; by eapply queued_frame|].
    rewrite record_json_roundtrip in Hj. left. congruence.
  - destruct e; try done. unfold bind.
    pose proof (safe_quarantine r ack name w1 Ho1 ltac:(by eapply ext_nonempty)
      ltac:(by eapply decode_foreign in Er)) as Hs. unfold safe in Hs.
    pose proof (keeps_quarantine name w1) as Hd. destruct (quarantine name w1) as [w2 [[]|]]; [|done].
    simpl in Hs, Hd. apply IH; [done|]. eapply Forall_impl; [exact Ha1|]. intros x [? ?].
    split; [done|]. unfold queued. by rewrite Hd.
Qed.

Lemma records_listed ack w w' l :
  owed r ack w → records w = (w', Ok l) → Forall (listed w') l.
Proof.
  intros Ho. unfold records, bind at 1. pose proof (safe_recover r ack w Ho) as H1'. unfold safe in H1'.
  destruct (recover_stale_claims w) as [w1 [[]|]]; [|done]. simpl in H1'. unfold bind at 1.
  pose proof (reads_read_dir w1) as Hf. destruct (read_dir w1) as [w2 [names|]]; [|done].
  apply (owed_frame r ack _ _ Hf) in H1'. simpl in H1'. unfold bind.
  destruct (records_loop names [] w2) as [w3 [found|]] eqn:E; [|done]. intros [= <- <-].
  apply records_loop_listed with (ack := ack) in E; [|done|by constructor].
  by rewrite sort_by_perm.
Qed.

Lemma enqueue_record_result s lease call request w w' answer :
  call_ok params s lease (hr_kind request) call (w_db w) →
  enqueue_record s lease call request w = (w', Ok answer) →
  w' = set_db (w_db w') w ∧ (queued r w → queued r w') ∧ (settles answer = true → request = r → queued r w').
Proof.
  intros (Hio & Hs & Hf & Hu & Ho). unfold enqueue_record, queued.
  destruct lease as [l|].
  - pose proof (enqueue_key_fenced_evolves params s (qc_io call) (Some l) (hr_kind request) (hr_payload request)
      (hr_idempotency_key request) "drain ingress spool" (qc_now call) (qc_ide call) (qc_lease_ms call)
      (qc_other call) (w_db w) Hu Ho) as He.
    destruct (enqueue_idempotent_with_key_fail_fast_fenced _ _ _ _ _ _ _ _ _ _ _ _) as [db res] eqn:E.
    intros [= <- <-]. simpl in He |- *. split_and!; [done|by apply (evolves_known _ _ _ _ _ He)|].
    intros Hst ->. by eapply enqueue_fenced_settles.
  - pose proof (enqueue_evolves params s (qc_io call) (hr_kind request) (hr_payload request) (Some 0)
      (ExplicitKey (hr_idempotency_key request)) (qc_now call) (qc_ide call)
      (qc_other call) (w_db w) Hu Ho) as He. unfold enqueue_idempotent_with_key_fail_fast.
    destruct (enqueue_with_busy_timeout _ _ _ _ _ _ _ _ _ _) as [db res] eqn:E.
    intros [= <- <-]. simpl in He |- *. split_and!; [done|by apply (evolves_known _ _ _ _ _ He)|].
    intros Hst ->. by eapply enqueue_key_settles.
Qed.

Lemma owed_set_db ack w db : (queued r w → queued r (set_db db w)) → owed r ack w → owed r ack (set_db db w).
Proof.
  intros Hq [Ho|[Hk Hs]]; [left; auto|right]. split; [exact Hk|]. intros Ha. specialize (Hs Ha).
  rewrite stored_remnant in *. exact Hs.
Qed.

Lemma owed_crash ack w fs :
  crash_files w fs → owed r ack w → owed r ack (World fs [] (w_linked w) ∅ (w_faults w) (w_db w)).
Proof.
  intros Hc [Hq|[Hk Hs]]; [by left|right]. split.
  - intros fs' (ops & Hsub & ->). apply sublist_nil_r in Hsub as ->. simpl. split; [|done].
    destruct Hc as [ops Hsub|Hl]; [by apply Hk; exists ops|].
    left. by rewrite !lookup_empty.
  - intros Ha. specialize (Hs Ha). intros fs' [ops Hsub|Hl]; simpl in *.
    + apply sublist_nil_r in Hsub as ->. by apply Hs.
    + rewrite stored_remnant in Hs. destruct Hs. congruence.
Qed.

Lemma claim_result path w w' claim_p : claim path w = (w', Ok (Some claim_p)) → claim_p = claim_path path.
Proof.
  unfold claim, bind, attempt_call. destruct (rename_file _ _ w) as [w1 [[]|e]]; [|by destruct e].
  destruct (update_claims _ w1) as [w2 [[]|]]; [|done].
  destruct (sync_spool_namespace w2) as [w3 [[]|e]]; [by intros [= _ <-]|].
  destruct e; by destruct (forget_claim _ w3) as [? [[]|]].
Qed.

(** Replacing one drain of the list by what its step leaves. *)
Lemma tasks_replace w w' t ts1 ts2 ts :
  (queued r w → queued r w') → Forall (task_ok w) (ts1 ++ t :: ts2) →
  (task_ok w t → Forall (task_ok w') ts) → Forall (task_ok w') (ts1 ++ ts ++ ts2).
Proof.
  intros Hq Ht Hs. apply Forall_app in Ht as [Ht1 [Ht Ht2]%Forall_cons].
  apply Forall_app. split; [by apply (tasks_mono w)|]. apply Forall_app. split; [by apply Hs|].
  by apply (tasks_mono w).
Qed.

Lemma todo_mono w w' l : (queued r w → queued r w') → Forall (listed w) l → Forall (listed w') l.
Proof. intros Hq Hl. by apply (task_ok_mono w w' (Task Idle l)). Qed.

Lemma claim_step_ok ack path request rest w ts1 ts2 :
  system_ok ack (w, ts1 ++ Task Idle ((path, request) :: rest) :: ts2) →
  system_ok ack ((claim path w).1, ts1 ++ after_claim path request rest (claim path w).2 ++ ts2).
Proof.
  intros [Ho Ht]. simpl in *.
  assert (Forall (listed w) ((path, request) :: rest)) as [[Hext Hreq] Hrest]%Forall_cons.
  { apply Forall_app in Ht as [_ [[_ Ht] _]%Forall_cons]. exact Ht. }
  pose proof (keeps_queued (claim path) w (keeps_claim path)) as Hk.
  split; [by apply safe_claim|]. simpl. eapply tasks_replace; [exact Hk|exact Ht|]. intros _.
  apply (todo_mono _ _ _ Hk) in Hrest. pose proof (claim_result path w) as Hc.
  destruct (claim path w) as [w' [[claim_p|]|e]]; simpl in *; [| |by constructor];
    apply Forall_singleton; [|by split].
  split; [|done]. split; [by eapply Hc|]. split; [done|]. naive_solver.
Qed.

Lemma enqueue_step_ok ack s lease call path claim_p request rest w w' answer ts1 ts2 :
  call_ok params s lease (hr_kind request) call (w_db w) →
  enqueue_record s lease call request w = (w', Ok answer) →
  system_ok ack (w, ts1 ++ Task (Claimed path claim_p request) rest :: ts2) →
  system_ok ack (w', ts1 ++ [Task (Answered path claim_p answer) rest] ++ ts2).
Proof.
  intros Hcall He [Ho Ht]. simpl in *.
  pose proof (enqueue_record_result _ _ _ _ _ _ _ Hcall He) as (Hw & Hmono & Hset).
  split; [simpl; rewrite Hw; apply owed_set_db; [by rewrite <- Hw|done]|]. simpl.
  apply (tasks_replace _ _ _ _ _ [_] Hmono Ht). intros [[-> [Hext Hreq]] Hrest]. simpl in *.
  apply Forall_singleton. split; [|by eapply todo_mono]. simpl. naive_solver.
Qed.

Lemma finish_step_ok ack path claim_p answer rest w ts1 ts2 :
  system_ok ack (w, ts1 ++ Task (Answered path claim_p answer) rest :: ts2) →
  system_ok ack ((finish path claim_p answer w).1,
    ts1 ++ (if is_ok (finish path claim_p answer w).2 then [Task Idle rest] else []) ++ ts2).
Proof.
  intros [Ho Ht]. simpl in *.
  pose proof (keeps_queued _ w (keeps_finish path claim_p answer)) as Hk. split; simpl.
  - apply Forall_app in Ht as [_ [[(-> & Hext & Hset) _] _]%Forall_cons]. by apply safe_finish.
  - eapply tasks_replace; [exact Hk|exact Ht|]. intros [_ Hrest]. destruct (is_ok _); [|by constructor].
    apply Forall_singleton. split; [done|]. by eapply todo_mono.
Qed.

Lemma drain_step_ok ack w ts :
  system_ok ack (w, ts) →
  system_ok ack ((records w).1, match (records w).2 with Ok l => ts ++ [Task Idle l] | Err _ => ts end).
Proof.
  intros [Ho Ht]. simpl in *. split; [by apply safe_records|]. simpl.
  pose proof (tasks_mono _ _ _ (keeps_queued records w keeps_records) Ht) as Ht'.
  destruct (records w) as [w' [l|e]] eqn:E; simpl in *; [|done].
  apply Forall_app. split; [done|]. apply Forall_singleton. split; [done|]. by eapply records_listed.
Qed.

Lemma spool_step_ok ack x x' : spool_step params client x x' → system_ok ack x → system_ok ack x'.
Proof.
  intros [max_bytes pid counter r' w ts Hc|w ts|path request rest w ts1 ts2
    |s lease call path claim_p request rest w w' answer ts1 ts2 Hcall He
    |path claim_p answer rest w ts1 ts2|t w ts1 ts2|db w ts Hq|script w ts|fs w ts Hc].
  - intros [Ho Ht]. split; [by apply safe_append; auto|]. eapply tasks_mono; [|done].
    apply keeps_queued, keeps_append.
  - apply drain_step_ok.
  - apply claim_step_ok.
  - by eapply enqueue_step_ok.
  - apply finish_step_ok.
  - intros [Ho Ht]. split; [done|]. simpl in *. apply Forall_app in Ht as [Ht1 [_ Ht2]%Forall_cons].
    by apply Forall_app.
  - intros [Ho Ht]. assert (queued r w → queued r (set_db db w)) as Hmono.
    { unfold queued. simpl. eapply evolves_known, queue_step_run, Hq. }
    split; [by apply owed_set_db|by eapply tasks_mono].
  - intros [Ho Ht]. split; [by eapply owed_frame, Ho|by eapply tasks_mono].
  - intros [Ho _]. split; [by apply owed_crash|by constructor].
Qed.

Lemma spool_run_ok ack x x' : rtc (spool_step params client) x x' → system_ok ack x → system_ok ack x'.
Proof. induction 1; eauto using spool_step_ok. Qed.

Lemma start_ok : system_ok false spool_start.
Proof.
  split; [|by constructor]. right. split; [|done]. intros fs (ops & Hs & ->).
  apply sublist_nil_r in Hs as ->. split; [|done]. left. simpl. by rewrite !lookup_empty.
Qed.

(** C8: a request whose append was answered is not lost: in every later state of
    every run (with other requests appended, any number of drains between whose
    calls others run, failing calls, other users of the queue and crashes) the
    queue has an operation under the request's key, or every state a crash may
    leave has the record, under its path or under its claim. Clients use a key
    for one request. *)
Theorem spool_keeps_acknowledged max_bytes pid counter w ts w' outcome w'' ts'' :
  rtc (spool_step params client) spool_start (w, ts) →
  append max_bytes pid counter r w = (w', Ok outcome) →
  rtc (spool_step params client) (w', ts) (w'', ts'') →
  known (w_db w'') (idempotent_key_message_id (hr_kind r) (hr_idempotency_key r))
  ∨ ∀ fs, crash_files w'' fs →
      fs !! record_path r = Some (record_to_json r)
      ∨ fs !! claim_path (record_path r) = Some (record_to_json r).
Proof.
  intros H1' Ha H2'. pose proof (spool_run_ok false _ _ H1' start_ok) as [Ho Ht]. simpl in *.
  pose proof (append_stored r _ _ _ _ _ _ _ Ho Ha) as Ho'.
  assert (system_ok true (w', ts)) as Hok.
  { split; [done|]. eapply tasks_mono; [|done]. pose proof (keeps_append max_bytes pid counter r w) as Hk.
    rewrite Ha in Hk. simpl in Hk. unfold queued. by rewrite <- Hk. }
  apply (spool_run_ok true _ _ H2') in Hok as [[Hq|[_ Hs]] _]; [by left|right]. by apply Hs.
Qed.
End invariant.

(** ** A drain that succeeds has delivered *)
Section delivery.
Context `{DigestLaws, TableScan, SpoolJson, DirScan} (params : run_params).
Variables (path : string) (bytes : string) (request : HookIpcEnqueueRequest).
Context (Hjson : extension path = Some "json") (Hdecodes : record_of_json bytes = Some request).

Definition waiting (w : world) : Prop := w_files w !! path = Some bytes.
Definition holds {A} (m : M A) (w : world) : Prop := waiting (m w).1.

Lemma waiting_frame w w' : frame w w' → waiting w → waiting w'.
Proof. unfold waiting. intros Hf. by rewrite (frame_files _ _ Hf). Qed.
Lemma holds_reads {A} (m : M A) w : reads m → waiting w → holds m w.
Proof. intros Hm. apply waiting_frame, Hm. Qed.
Lemma holds_bind {A B} (m : M A) (k : A → M B) w :
  holds m w → (∀ a w', m w = (w', Ok a) → waiting w' → holds (k a) w') → holds (bind m k) w.
Proof. unfold holds, bind. intros Hm Hk. destruct (m w) as [w' [a|e]] eqn:E; [|done]. by apply Hk. Qed.
Lemma holds_attempt {A} (m : M A) w : holds m w → holds (attempt_call m) w.
Proof. unfold holds, attempt_call. by destruct (m w). Qed.

Lemma holds_issue op w : ¬ touches op path → waiting w → waiting (issue op w).
Proof. unfold waiting. intros Ht. by rewrite files_issue, untouched. Qed.

Lemma holds_rename from to w : from ≠ path → to ≠ path → waiting w → holds (rename_file from to) w.
Proof.
  intros Hf Ht Hw. apply holds_bind; [by apply holds_reads; [apply reads_fallible|]|]. intros [] w1 _ Hw1.
  apply holds_bind; [done|]. intros fs w2 [= <- <-] _. case_match; [|done]. apply holds_issue; [|done].
  simpl. tauto.
Qed.

Lemma holds_remove name w : name ≠ path → waiting w → holds (remove_file name) w.
Proof.
  intros Hn Hw. apply holds_bind; [by apply holds_reads; [apply reads_fallible|]|]. intros [] w1 _ Hw1.
  apply holds_bind; [done|]. intros fs w2 [= <- <-] _. case_match; [|done]. by apply holds_issue.
Qed.

Lemma holds_sync w : waiting w → holds sync_spool_namespace w.
Proof.
  intros Hw. apply holds_bind; [|intros [] w1 _ Hw1];
    (apply holds_bind; [by apply holds_reads; [apply reads_fallible|]|]; intros [] w2 _ Hw2; done).
Qed.

Lemma ext_ne name e : extension name = Some e → e ≠ "json" → name ≠ path.
Proof. intros He Hne ->. congruence. Qed.

Ltac holds_read := apply holds_bind; [by apply holds_reads; auto with spool|].

Lemma holds_quarantine name w :
  is_empty name = false → name ≠ path → waiting w → holds (quarantine name) w.
Proof.
  intros He Hn Hw. unfold quarantine. holds_read. intros content w1 _ Hw1. holds_read.
  intros there w2 _ Hw2. pose proof (ext_ne _ _ (quarantine_ext name content He) ltac:(done)).
  apply holds_bind; [|intros [] w3 _ Hw3; by apply holds_sync].
  destruct there; [by apply holds_remove|by apply holds_rename].
Qed.

(** The file that waits decodes, so it is not the one put aside. *)
Lemma decode_ne name w w' n :
  waiting w → read_record name w = (w', Err (SpoolDecode n)) → name ≠ path.
Proof. intros Hw (content & Hc & Hd)%read_record_decode ->. unfold waiting in Hw. congruence. Qed.

Lemma holds_recover_loop active names recovered w :
  waiting w → holds (recover_loop active names recovered) w.
Proof.
  revert recovered w. induction names as [|claim_p names IH]; intros recovered w Hw; [done|].
  cbn [recover_loop]. destruct (has_extension "claim" claim_p) eqn:He; [|by apply IH]. simpl.
  case_bool_decide; [by apply IH|]. apply has_extension_spec in He.
  pose proof (ext_ne _ _ He ltac:(done)) as Hc. destruct (claim_of_record claim_p He) as [Hr _].
  holds_read. intros there w1 E1 Hw1. apply exists_file_result in E1 as [-> ->]. case_bool_decide as Hp.
  - holds_read. intros res w2 E2 Hw2. destruct res as [claimed|[]]; try (by apply holds_reads; auto with spool).
    + holds_read. intros res w3 E3 Hw3. unfold attempt_call in E3.
      destruct (read_record _ w2) as [w3' res'] eqn:E3'. injection E3 as -> ->.
      destruct res as [existing|[]]; try (by apply holds_reads; auto with spool).
      * case_bool_decide; simpl; [|by apply holds_reads; auto with spool].
        apply holds_bind; [by apply holds_remove|]. intros [] w4 _ Hw4. by apply IH.
      * apply holds_bind; [|intros [] w4 _ Hw4; by apply IH].
        apply holds_quarantine; [by eapply ext_nonempty|by eapply decode_ne in E3'|done].
    + apply holds_bind; [|intros [] w4 _ Hw4; by apply IH].
      apply holds_quarantine; [by eapply ext_nonempty|done|done].
  - apply holds_bind; [|intros [] w4 _ Hw4; by apply IH]. apply holds_rename; [done| |done].
    intros E. apply Hp. rewrite E. unfold waiting in Hw. eauto.
Qed.

Lemma holds_recover w : waiting w → holds recover_stale_claims w.
Proof.
  intros Hw. unfold recover_stale_claims. holds_read. intros names w1 _ Hw1. holds_read.
  intros active w2 _ Hw2. apply holds_bind; [by apply holds_recover_loop|].
  intros [] w3 _ Hw3; [by apply holds_sync|done].
Qed.

(** What a drain's list says of the file that waits. *)
Definition faithful (l : list (string * HookIpcEnqueueRequest)) : Prop :=
  Forall (λ x, extension x.1 = Some "json" ∧ (x.1 = path → x.2 = request)) l.

Lemma records_loop_found names acc w w' l :
  waiting w → faithful acc → (path ∈ names ∨ (path, request) ∈ acc) →
  records_loop names acc w = (w', Ok l) →
  waiting w' ∧ (path, request) ∈ l ∧ faithful l.
Proof.
  revert acc w. induction names as [|name names IH]; intros acc w Hw Hacc Hin.
  { intros [= <- <-]. split_and!; [done| |done]. by destruct Hin as [Hin%elem_of_nil|]. }
  cbn [records_loop]. destruct (has_extension "json" name) eqn:He; cycle 1.
  { apply IH; [done..|]. destruct Hin as [[->|Hin]%elem_of_cons|]; [|auto..].
    by rewrite (proj2 (has_extension_spec _ _) Hjson) in He. }
  simpl. apply has_extension_spec in He. unfold bind at 1, attempt_call.
  pose proof (reads_read_record name w) as Hf. pose proof (decode_ne name w) as Hne.
  destruct (read_record name w) as [w1 [found|e]] eqn:Er; simpl in Hf;
    pose proof (waiting_frame _ _ Hf Hw) as Hw1.
  - apply read_record_result in Er as (content & Hc & Hd). unfold waiting in Hw.
    assert (name = path → found = request) as Hfound by (intros ->; congruence). apply IH; [done| |].
    + apply Forall_app. split; [done|]. by apply Forall_singleton.
    + destruct Hin as [[<-|Hin]%elem_of_cons|]; [right|by left|right; set_solver].
      rewrite Hfound by done. set_solver.
  - destruct e; try done. specialize (Hne _ _ Hw eq_refl). unfold bind.
    pose proof (holds_quarantine name w1 ltac:(by eapply ext_nonempty) Hne Hw1) as Hq. unfold holds in Hq.
    destruct (quarantine name w1) as [w2 [[]|]]; [|done]. apply IH; [done..|].
    destruct Hin as [[<-|Hin]%elem_of_cons|]; [done|by left|by right].
Qed.

Lemma records_found w w' l :
  waiting w → records w = (w', Ok l) → waiting w' ∧ (path, request) ∈ l ∧ faithful l.
Proof.
  intros Hw. unfold records, bind at 1. pose proof (holds_recover w Hw) as Hr. unfold holds in Hr.
  destruct (recover_stale_claims w) as [w1 [[]|]]; [|done]. simpl in Hr. unfold bind at 1, read_dir, bind at 1.
  destruct (fallible w1) as [w2 [[]|]] eqn:Ef; [|done]. apply fallible_frame in Ef.
  apply (waiting_frame _ _ Ef) in Hr. unfold bind at 1, files, ret at 1, bind.
  destruct (records_loop _ [] w2) as [w3 [found|]] eqn:E; [|done]. intros [= <- <-].
  apply records_loop_found in E as (? & Hin & Hf); [|done|by constructor|left; rewrite dir_scan_spec].
  - unfold faithful. by rewrite sort_by_perm.
  - apply list_elem_of_fmap. exists (path, bytes). split; [done|]. by apply elem_of_map_to_list.
Qed.

Lemma holds_claim other w :
  extension other = Some "json" → other ≠ path → waiting w → holds (claim other) w.
Proof.
  intros He Hne Hw. pose proof (ext_ne _ _ (claim_path_ext other (stem_nonempty _ _ He)) ltac:(done)) as Hc.
  unfold claim. apply holds_bind; [by apply holds_attempt, holds_rename|].
  intros [[]|e] w1 _ Hw1; [|destruct e; by apply holds_reads; auto with spool].
  holds_read. intros [] w2 _ Hw2. apply holds_bind; [by apply holds_attempt, holds_sync|].
  intros [[]|e] w3 _ Hw3; [done|]. destruct e; holds_read; intros [] w4 _ Hw4; done.
Qed.

(** A round that returns ends with a settling answer. *)
Lemma finish_settles other claim_p answer w w' counts :
  finish other claim_p answer w = (w', Ok counts) → settles answer = true.
Proof.
  unfold finish. destruct answer as [|e]; [done|].
  destruct e; try done; unfold bind; by destruct (release_claim other claim_p w) as [? [[]|]].
Qed.

Lemma holds_finish other answer w :
  extension other = Some "json" → settles answer = true → waiting w →
  holds (finish other (claim_path other) answer) w.
Proof.
  intros He Hs Hw. pose proof (claim_path_ext other (stem_nonempty _ _ He)) as Hce.
  pose proof (ext_ne _ _ Hce ltac:(done)) as Hc. unfold finish.
  destruct answer as [|[]]; try done.
  - apply holds_bind.
    + apply holds_attempt, holds_bind; [by apply holds_remove|]. intros [] w1 _ Hw1. by apply holds_sync.
    + intros d w1 _ Hw1. holds_read. intros [] w2 _ Hw2. destruct d; by apply holds_reads; auto with spool.
  - apply holds_bind; [by apply holds_attempt, holds_quarantine; [eapply ext_nonempty| |]|].
    intros d w1 _ Hw1. holds_read. intros [] w2 _ Hw2. destruct d; by apply holds_reads; auto with spool.
Qed.

(** A record that is there is claimed, or the claim fails. *)
Lemma claim_waiting w w' : waiting w → claim path w ≠ (w', Ok None).
Proof.
  intros Hw. unfold claim, bind at 1, attempt_call, rename_file, bind at 1.
  pose proof (reads_fallible w) as Hf.
  assert (∀ w1, fallible w ≠ (w1, Err SpoolNotFound)) as Hn.
  { intros w1. unfold fallible, bind, next_fault, ret, fail. destruct (w_faults w) as [|[[]|] ?]; simpl; congruence. }
  destruct (fallible w) as [w1 [[]|e]]; simpl in Hf; [|destruct e; try done; by specialize (Hn w1)].
  unfold bind at 1, files. rewrite (frame_files _ _ Hf). unfold waiting in Hw. rewrite Hw.
  unfold perform, bind, attempt_call, update_claims, ret, fail.
  destruct (sync_spool_namespace _) as [w2 [[]|[]]]; simpl; try done.
Qed.

Lemma waiting_set_db db w : waiting (set_db db w) ↔ waiting w.
Proof. done. Qed.

Definition calls_ok s lease (call : string → queue_call) : Prop :=
  ∀ p' (r' : HookIpcEnqueueRequest) db, call_ok params s lease (hr_kind r') (call p') db.

Lemma drain_loop_known s lease call recs drained w w' n :
  calls_ok s lease call → drain_loop s lease call recs drained w = (w', Ok n) →
  queued request w → queued request w'.
Proof.
  intros Hcall. revert drained w. induction recs as [|[p' r'] recs IH]; intros drained w; [by intros [= <- _]|].
  cbn [drain_loop]. unfold bind at 1. pose proof (keeps_queued request (claim p') w (keeps_claim p')) as Hk.
  destruct (claim p' w) as [w1 [[claim_p|]|e]]; [|by intros E Hq; eapply IH; eauto|done]. unfold bind at 1.
  destruct (enqueue_record s lease (call p') r' w1) as [w2 [answer|e]] eqn:Ee; [|done].
  pose proof (enqueue_record_result params request _ _ _ _ _ _ _ (Hcall p' r' _) Ee) as (_ & Hm & _).
  unfold bind. pose proof (keeps_queued request _ w2 (keeps_finish p' claim_p answer)) as Hf.
  destruct (finish p' claim_p answer w2) as [w3 [counts|e]]; [|done]. intros E Hq. eapply IH; eauto.
Qed.

Lemma drain_loop_delivers s lease call recs drained w w' n :
  calls_ok s lease call → faithful recs →
  waiting w → (path, request) ∈ recs → drain_loop s lease call recs drained w = (w', Ok n) →
  queued request w'.
Proof.
  intros Hcall. revert drained w. induction recs as [|[p' r'] recs IH]; intros drained w Hext Hw Hin;
    [by apply elem_of_nil in Hin|].
  apply Forall_cons in Hext as [[He Hreq] Hext]. simpl in He, Hreq. cbn [drain_loop]. unfold bind at 1.
  destruct (decide (p' = path)) as [->|Hne].
  - rewrite (Hreq eq_refl). pose proof (claim_waiting w) as Hc.
    destruct (claim path w) as [w1 [[claim_p|]|e]]; [|by specialize (Hc w1 Hw)|done]. unfold bind at 1.
    destruct (enqueue_record s lease (call path) request w1) as [w2 [answer|e]] eqn:Ee; [|done].
    pose proof (enqueue_record_result params request _ _ _ _ _ _ _ (Hcall path _ _) Ee) as (_ & _ & Hs).
    unfold bind. pose proof (keeps_queued request _ w2 (keeps_finish path claim_p answer)) as Hf.
    destruct (finish path claim_p answer w2) as [w3 [counts|e]] eqn:Efin; [|done]. intros E.
    eapply drain_loop_known; [done|exact E|]. apply Hf, Hs; [|done]. by eapply finish_settles.
  - apply elem_of_cons in Hin as [[= <- _]|Hin]; [done|].
    pose proof (holds_claim p' w He Hne Hw) as Hw1. pose proof (claim_result p' w) as Hcr. unfold holds in Hw1.
    destruct (claim p' w) as [w1 [[claim_p|]|e]]; [|by apply IH|done]. simpl in Hw1.
    specialize (Hcr _ _ eq_refl) as ->. unfold bind at 1.
    destruct (enqueue_record s lease (call p') r' w1) as [w2 [answer|e]] eqn:Ee; [|done].
    pose proof (enqueue_record_result params request _ _ _ _ _ _ _ (Hcall p' r' _) Ee) as (Hset & _ & _).
    assert (waiting w2) as Hw2 by (rewrite Hset; done). unfold bind.
    destruct (finish p' (claim_path p') answer w2) as [w3 [counts|e]] eqn:Efin; [|done].
    pose proof (holds_finish p' answer w2 He (finish_settles _ _ _ _ _ _ Efin) Hw2) as Hw3. unfold holds in Hw3.
    rewrite Efin in Hw3. by apply IH.
Qed.

(** A drain that succeeds has delivered what was waiting: whatever the order of
    the directory, whichever claims it recovered and whichever broken records it
    put aside, every file with the record extension that decodes when the drain
    starts has an operation of the queue under its key when the drain returns. *)
Theorem drain_delivers s lease call w w' n :
  calls_ok s lease call → w_files w !! path = Some bytes →
  drain_claimed s lease call w = (w', Ok n) →
  known (w_db w') (idempotent_key_message_id (hr_kind request) (hr_idempotency_key request)).
Proof.
  intros Hcall Hw. unfold drain_claimed, bind.
  destruct (records w) as [w1 [recs|]] eqn:Er; [|done].
  apply records_found in Er as (Hw1 & Hin & Hf); [|done]. intros E. by eapply drain_loop_delivers.
Qed.
End delivery.

(** ** Concrete runs *)
Fixpoint bit_digits (s : string) : string :=
  match s with
  | EmptyString => EmptyString
  | String (Ascii b0 b1 b2 b3 b4 b5 b6 b7) rest =>
      let d (b : bool) (t : string) := String (if b then "1" else "0") t in
      d b0 (d b1 (d b2 (d b3 (d b4 (d b5 (d b6 (d b7 (bit_digits rest))))))))
  end.

#[local] Instance digit_env : QueueEnv | 0 :=
  {| blake3_hex s := String "d" (bit_digits s); scrub_sensitive_text s := s |}.

Lemma bit_digits_no_dot s : no_dot (bit_digits s) = true.
Proof. induction s as [|[[] [] [] [] [] [] [] []] s IH]; simpl; done. Qed.

#[local] Instance digit_laws : DigestLaws.
Proof. constructor; [|done]. intros s. apply bit_digits_no_dot. Qed.

(** A field: each byte after a mark, and an end mark. *)
Fixpoint write_field (s rest : string) : string :=
  match s with
  | EmptyString => String "0" rest
  | String c s' => String "1" (String c (write_field s' rest))
  end.

Fixpoint read_field (s : string) : option (string * string) :=
  match s with
  | String m s' =>
      if Ascii.eqb m "0" then Some ("", s')
      else match s' with
           | String c s'' => match read_field s'' with Some (f, rest) => Some (String c f, rest) | None => None end
           | EmptyString => None
           end
  | EmptyString => None
  end.

Lemma read_write_field s rest : read_field (write_field s rest) = Some (s, rest).
Proof. induction s as [|c s IH]; simpl; [done|]. by rewrite IH. Qed.

#[local] Instance field_json : SpoolJson :=
  {| record_to_json r := write_field (hr_kind r) (write_field (hr_payload r) (write_field (hr_idempotency_key r) ""));
     record_of_json s :=
       match read_field s with
       | Some (kind, s1) =>
           match read_field s1 with
           | Some (payload, s2) =>
               match read_field s2 with
               | Some (key, _) => Some (HookRequest kind payload key)
               | None => None
               end
           | None => None
           end
       | None => None
       end |}.

#[local] Instance field_json_laws : SpoolJsonLaws.
Proof. constructor. intros [kind payload key]. simpl. by rewrite !read_write_field. Qed.

#[local] Instance key_scan : DirScan := {| dir_scan fs := (map_to_list fs).*1; dir_scan_spec fs := reflexivity _ |}.

Definition hook_request : HookIpcEnqueueRequest := HookRequest "hook_event" "{}" "k1".
Definition other_payload : HookIpcEnqueueRequest := HookRequest "hook_event" "[]" "k1".
Definition appended : world := (append 1000 42 1 hook_request (World ∅ [] false ∅ [] empty_qdb)).1.
Definition quiet_call : queue_call := QueueCall queue_io_ok 100 (wid 1) 0 (fun db => db).

Lemma spool_keeps_acknowledged_witness :
  known (w_db appended) (idempotent_key_message_id "hook_event" "k1")
  ∨ ∀ fs, crash_files (World (w_durable appended) [] (w_linked appended) ∅ (w_faults appended) (w_db appended)) fs →
      fs !! record_path hook_request = Some (record_to_json hook_request)
      ∨ fs !! claim_path (record_path hook_request) = Some (record_to_json hook_request).
Proof.
  apply (spool_keeps_acknowledged (any_store id_env_ok) (fun r => r = hook_request)
           ltac:(by intros ? ? -> ->) hook_request eq_refl 1000 42 1
           (World ∅ [] false ∅ [] empty_qdb) [] appended Appended _ []).
  - apply rtc_refl.
  - assert ((append 1000 42 1 hook_request (World ∅ [] false ∅ [] empty_qdb)).2 = Ok Appended) as E
      by (vm_compute; reflexivity).
    rewrite <- E. apply surjective_pairing.
  - apply rtc_once, (ss_crash _ _ (w_durable appended) appended []). exact (crash_some appended [] (sublist_nil_l _)).
Defined.

(** Two drains have listed a record; the second has delivered it, and the client
    has replaced it by another request under the same key. The first claims the
    replacement, sends what it had read (which the queue has already) and deletes
    the replacement: it is neither delivered nor kept aside as a conflict. *)
Example stale_list_deletes_replacement :
  let '(w1, l) := records appended in
  let '(w2, delivered) := drain_claimed wstore None (fun _ => quiet_call) w1 in
  let '(w3, replaced) := append 1000 42 2 other_payload w2 in
  let '(w4, drained) := drain_loop wstore None (fun _ => quiet_call) (match l with Ok l => l | _ => [] end) 0 w3 in
  delivered = Ok 1 ∧ replaced = Ok Appended ∧ drained = Ok 1
  ∧ bool_decide (w_files w4 = ∅) = true.
Proof. vm_compute. done. Qed.

Lemma quiet_calls_ok : calls_ok (any_store id_env_ok) wstore None (fun _ => quiet_call).
Proof.
  intros p r db. split_and!; [done|done|by intros []|apply wid_ok; lia|]. by split; [apply evolves_refl|].
Qed.

Lemma drain_delivers_witness :
  known (w_db (drain_claimed wstore None (fun _ => quiet_call) appended).1)
    (idempotent_key_message_id "hook_event" "k1").
Proof.
  apply (drain_delivers (any_store id_env_ok) (record_path hook_request) (record_to_json hook_request)
           hook_request (record_path_ext hook_request) (record_json_roundtrip hook_request)
           wstore None (fun _ => quiet_call) appended _ 1 quiet_calls_ok).
  - vm_compute. reflexivity.
  - assert ((drain_claimed wstore None (fun _ => quiet_call) appended).2 = Ok 1) as E
      by (vm_compute; reflexivity).
    rewrite <- E. apply surjective_pairing.
Defined.
