(* ===== verification/CoopLease.v ===== *)
(** * Cooperative leases

    The [leases] table of [src/src/core/db.rs]: agents lease a resource path for a
    number of seconds. Every method is a few statements that commit by
    themselves; other connections run between them, and any statement may fail. *)

From Stdlib Require Import ZArith Lia String Ascii.
From stdpp Require Import base tactics list gmap strings numbers relations.
From S2P Require Import Prelude Text Rfc3339 WriterLease.
Open Scope Z_scope.
Open Scope rust_scope.

Record coop_row := CoopRow {
  co_holder_id : string;
  co_acquired_at : string;
  co_expires_at : string;
  co_metadata : option string;
}.

Record LeaseInfo := Build_LeaseInfo {
  li_resource_path : string;
  li_holder_id : string;
  li_acquired_at : string;
  li_expires_at : string;
  li_metadata : option string;
  li_remaining_secs : Z;
}.

Abbreviation lease_table := (gmap string coop_row).

(** ** Statements *)

(** [expires_at < strftime('%Y-%m-%dT%H:%M:%fZ','now')]. *)
Definition coop_expired (now_ms : Z) (row : coop_row) : bool :=
  String.ltb (co_expires_at row) (sql_now now_ms).

(** [DELETE FROM leases WHERE expires_at < ..], with the row count. *)
Definition delete_expired (now_ms : Z) (t : lease_table) : lease_table * Z :=
  (filter (fun e => coop_expired now_ms e.2 = false) t,
   Z.of_nat (size (filter (fun e => coop_expired now_ms e.2 = true) t))).

(** [INSERT OR IGNORE]: the path is the primary key, [acquired_at] has a default. *)
Definition insert_ignore (resource_path : string) (row : coop_row) (t : lease_table) : lease_table * Z :=
  match t !! resource_path with
  | Some _ => (t, 0)
  | None => (<[resource_path := row]> t, 1)
  end.

(** [UPDATE leases SET expires_at = ? WHERE resource_path = ? AND holder_id = ?]. *)
Definition update_expiry (resource_path holder_id expires_at : string) (t : lease_table) : lease_table * Z :=
  match t !! resource_path with
  | Some row =>
      if bool_decide (co_holder_id row = holder_id)
      then (<[resource_path := CoopRow holder_id (co_acquired_at row) expires_at (co_metadata row)]> t, 1)
      else (t, 0)
  | None => (t, 0)
  end.

Definition delete_held (resource_path holder_id : string) (t : lease_table) : lease_table * Z :=
  match t !! resource_path with
  | Some row => if bool_decide (co_holder_id row = holder_id) then (delete resource_path t, 1) else (t, 0)
  | None => (t, 0)
  end.

(** [self.conn.execute(..)?]. *)
Definition execute {A} (failure : option string) (stmt : lease_table → lease_table * A) (t : lease_table)
    : lease_table * result A DbError :=
  match failure with
  | Some e => (t, Err (DbSqlite e))
  | None => let '(t', a) := stmt t in (t', Ok a)
  end.

(** What one call of [lease_acquire] meets: the clock of its DELETE, of its INSERT
    (SQLite's, in milliseconds) and its own (seconds); a failure of each of its
    statements; what other connections commit before the second, third and
    fourth. *)
Record acquire_env := AcquireEnv {
  ae_delete_ms : Z;
  ae_insert_ms : Z;
  ae_now : Z;
  ae_failures : option string * option string * option string * option string;
  ae_other : (lease_table → lease_table) * (lease_table → lease_table) * (lease_table → lease_table);
}.

(** ** Operations *)
Definition lease_acquire (e : acquire_env) (resource_path holder_id : string) (ttl_secs : Z)
    (metadata : option string) (t : lease_table) : lease_table * result bool DbError :=
  let '(f1, f2, f3, f4) := ae_failures e in
  let '(o2, o3, o4) := ae_other e in
  match execute f1 (delete_expired (ae_delete_ms e)) t with
  | (t, Err err) => (t, Err err)
  | (t, Ok _) =>
      let expires_at := format_rfc3339 (ae_now e + ttl_secs) in
      let row := CoopRow holder_id (sql_now (ae_insert_ms e)) expires_at metadata in
      match execute f2 (insert_ignore resource_path row) (o2 t) with
      | (t, Err err) => (t, Err err)
      | (t, Ok rows) =>
          if 0 <? rows then (t, Ok true)
          else
            match execute f3 (fun t => (t, co_holder_id <$> t !! resource_path)) (o3 t) with
            | (t, Err err) => (t, Err err)
            | (t, Ok existing_holder) =>
                match existing_holder with
                | Some h =>
                    if bool_decide (h = holder_id) then
                      match execute f4 (update_expiry resource_path holder_id expires_at) (o4 t) with
                      | (t, Err err) => (t, Err err)
                      | (t, Ok _) => (t, Ok true)
                      end
                    else (t, Ok false)
                | None => (t, Ok false)
                end
            end
      end
  end.

Definition rows_touched (r : lease_table * result Z DbError) : lease_table * result bool DbError :=
  match r with
  | (t, Ok rows) => (t, Ok (0 <? rows))
  | (t, Err e) => (t, Err e)
  end.

Definition lease_release (failure : option string) (resource_path holder_id : string) (t : lease_table)
    : lease_table * result bool DbError :=
  rows_touched (execute failure (delete_held resource_path holder_id) t).

Definition lease_renew (failure : option string) (now : Z) (resource_path holder_id : string) (ttl_secs : Z)
    (t : lease_table) : lease_table * result bool DbError :=
  rows_touched (execute failure
    (update_expiry resource_path holder_id (format_rfc3339 (now + ttl_secs))) t).

Definition collect_row (now_secs : Z) (resource_path : string) (row : coop_row) : LeaseInfo :=
  let remaining :=
    match parse_rfc3339 (co_expires_at row) with
    | Some e => Z.max (e - now_secs) 0
    | None => 0
    end in
  Build_LeaseInfo resource_path (co_holder_id row) (co_acquired_at row) (co_expires_at row) (co_metadata row) remaining.

(** The order of a SELECT without ORDER BY. *)
Class LeaseScan := {
  lease_scan : lease_table → list (string * coop_row);
  lease_scan_spec : ∀ t, lease_scan t ≡ₚ map_to_list t;
}.

Definition lease_status `{LeaseScan} (failure query_failure : option string) (now_ms now_secs : Z)
    (other : lease_table → lease_table) (resource_path : option string) (t : lease_table)
    : lease_table * result (list LeaseInfo) DbError :=
  match execute failure (delete_expired now_ms) t with
  | (t, Err e) => (t, Err e)
  | (t, Ok _) =>
      execute query_failure (fun t =>
        (t, match resource_path with
            | Some path => match t !! path with Some row => [collect_row now_secs path row] | None => [] end
            | None => (fun e => collect_row now_secs e.1 e.2) <$> lease_scan t
            end)) (other t)
  end.

Definition lease_cleanup_expired (failure : option string) (now_ms : Z) (t : lease_table)
    : lease_table * result Z DbError := execute failure (delete_expired now_ms) t.

(** ** Statements of all agents *)

(** Statements in the order they commit; an agent's clock may be off, so each
    carries the time its connection reads. *)
Inductive coop_stmt :=
  | SDeleteExpired (now_ms : Z)
  | SInsert (resource_path : string) (row : coop_row)
  | SUpdate (resource_path holder_id expires_at : string)
  | SRelease (resource_path holder_id : string).

Definition run_stmt (t : lease_table) (s : coop_stmt) : lease_table :=
  match s with
  | SDeleteExpired now_ms => (delete_expired now_ms t).1
  | SInsert resource_path row => (insert_ignore resource_path row t).1
  | SUpdate resource_path holder_id expires_at => (update_expiry resource_path holder_id expires_at t).1
  | SRelease resource_path holder_id => (delete_held resource_path holder_id t).1
  end.

(** Statements of agents other than [holder], none of which reads a time past
    the second [deadline]. *)
Definition stmt_of_others (holder : string) (deadline : Z) (s : coop_stmt) : Prop :=
  match s with
  | SDeleteExpired now_ms => four_digit_year (now_ms / 1000) ∧ now_ms / 1000 <= deadline
  | SInsert _ row => True
  | SUpdate _ h _ | SRelease _ h => h ≠ holder
  end.

Definition others_run (holder : string) (deadline : Z) (f : lease_table → lease_table) : Prop :=
  ∀ t, ∃ stmts, Forall (stmt_of_others holder deadline) stmts ∧ f t = foldl run_stmt t stmts.

(** ** A lease is exclusive until it expires *)
Section exclusive.
Context (path holder : string) (deadline : Z) (row : coop_row).
Context (Hyear : four_digit_year deadline).
Context (Hholder : co_holder_id row = holder) (Hexpires : co_expires_at row = format_rfc3339 deadline).

Lemma not_expired now_ms :
  four_digit_year (now_ms / 1000) → now_ms / 1000 <= deadline → coop_expired now_ms row = false.
Proof.
  intros Hn Hd. unfold coop_expired, String.ltb. rewrite Hexpires, format_sql_compare by done.
  destruct (Z.compare_spec deadline (now_ms / 1000)); [done|lia|done].
Qed.

Lemma delete_expired_keeps now_ms (t : lease_table) :
  coop_expired now_ms row = false → t !! path = Some row → (delete_expired now_ms t).1 !! path = Some row.
Proof. intros He Ht. simpl. by apply map_lookup_filter_Some. Qed.

Lemma run_stmt_keeps t s :
  stmt_of_others holder deadline s → t !! path = Some row → run_stmt t s !! path = Some row.
Proof.
  intros Hs Ht. destruct s as [now_ms|p r|p h e|p h]; cbn [run_stmt].
  - destruct Hs. by apply delete_expired_keeps; [apply not_expired|].
  - unfold insert_ignore. destruct (t !! p) eqn:E; [done|]. simpl.
    rewrite lookup_insert_ne; [done|congruence].
  - unfold update_expiry. destruct (t !! p) as [r|] eqn:E; [|done]. case_bool_decide; [|done]. simpl in *.
    rewrite lookup_insert_ne; [done|]. intros ->. assert (r = row) as -> by congruence. congruence.
  - unfold delete_held. destruct (t !! p) as [r|] eqn:E; [|done]. case_bool_decide; [|done]. simpl in *.
    rewrite lookup_delete_ne; [done|]. intros ->. assert (r = row) as -> by congruence. congruence.
Qed.

Lemma others_run_keeps f t : others_run holder deadline f → t !! path = Some row → f t !! path = Some row.
Proof.
  intros Hf Ht. destruct (Hf t) as (stmts & Hs & ->). revert t Ht.
  induction Hs as [|s stmts Hs _ IH]; intros t Ht; [done|]. simpl. apply IH. by apply run_stmt_keeps.
Qed.

(** The environment of a call while the lease lasts. *)
Definition during (e : acquire_env) : Prop :=
  let '(o2, o3, o4) := ae_other e in
  four_digit_year (ae_delete_ms e / 1000) ∧ ae_delete_ms e / 1000 <= deadline
  ∧ others_run holder deadline o2 ∧ others_run holder deadline o3 ∧ others_run holder deadline o4.

(** A lease is exclusive: as long as the clocks of the other agents have not
    passed its expiry's second, and its holder runs no statement, no acquire of
    another agent is granted, however the statements of the two and of any number
    of other agents interleave and fail; and the lease is as it was afterwards. *)
Theorem coop_lease_exclusive e other ttl_secs metadata t :
  other ≠ holder → during e → t !! path = Some row →
  let '(t', answer) := lease_acquire e path other ttl_secs metadata t in
  answer ≠ Ok true ∧ t' !! path = Some row.
Proof.
  intros Hne Hd Ht. unfold during, lease_acquire in *. destruct (ae_failures e) as [[[f1 f2] f3] f4].
  destruct (ae_other e) as [[o2 o3] o4]. destruct Hd as (Hy & Hle & H2 & H3 & H4).
  destruct f1 as [err|]; simpl; [done|].
  pose proof (delete_expired_keeps (ae_delete_ms e) t (not_expired _ Hy Hle) Ht) as Ht1. simpl in Ht1.
  apply (others_run_keeps _ _ H2) in Ht1. destruct f2 as [err|]; simpl; [done|].
  unfold insert_ignore. rewrite Ht1. simpl. apply (others_run_keeps _ _ H3) in Ht1.
  destruct f3 as [err|]; simpl; [done|]. rewrite Ht1. simpl. rewrite bool_decide_eq_false_2 by congruence.
  done.
Qed.
End exclusive.

(** ** Undisturbed calls *)
Definition quiet_env (now_ms : Z) : acquire_env :=
  AcquireEnv now_ms now_ms (now_ms / 1000) (None, None, None, None) (fun t => t, fun t => t, fun t => t).

(** Rows as the methods write them: the expiry is the text of a second. *)
Definition expires_secs (row : coop_row) (deadline : Z) : Prop :=
  four_digit_year deadline ∧ co_expires_at row = format_rfc3339 deadline.

Lemma expired_secs now_ms row deadline :
  four_digit_year (now_ms / 1000) → expires_secs row deadline →
  coop_expired now_ms row = (deadline <? now_ms / 1000).
Proof.
  intros Hn [Hd He]. unfold coop_expired, String.ltb. rewrite He, format_sql_compare by done.
  unfold Z.ltb. by destruct (deadline ?= now_ms / 1000).
Qed.

Lemma delete_expired_lookup now_ms (t : lease_table) path row deadline :
  four_digit_year (now_ms / 1000) → expires_secs row deadline → t !! path = Some row →
  (delete_expired now_ms t).1 !! path = if deadline <? now_ms / 1000 then None else Some row.
Proof.
  intros Hn He Ht. simpl. rewrite <- (expired_secs _ _ _ Hn He). destruct (coop_expired now_ms row) eqn:E.
  - apply map_lookup_filter_None. right. intros r Hr. simpl. congruence.
  - by apply map_lookup_filter_Some.
Qed.

(** What an undisturbed acquire decides, on a resource leased until a second
    [deadline]: past that second anyone gets it; until then its holder gets it
    again (the expiry moves, the time and metadata of the first acquire stay) and
    nobody else does. *)
Theorem coop_acquire_decides now_ms path row deadline agent ttl_secs metadata t :
  four_digit_year (now_ms / 1000) → expires_secs row deadline → t !! path = Some row →
  let '(t', answer) := lease_acquire (quiet_env now_ms) path agent ttl_secs metadata t in
  let expires_at := format_rfc3339 (now_ms / 1000 + ttl_secs) in
  if deadline <? now_ms / 1000 then
    answer = Ok true ∧ t' !! path = Some (CoopRow agent (sql_now now_ms) expires_at metadata)
  else if bool_decide (co_holder_id row = agent) then
    answer = Ok true ∧ t' !! path = Some (CoopRow agent (co_acquired_at row) expires_at (co_metadata row))
  else answer = Ok false ∧ t' !! path = Some row.
Proof.
  intros Hn He Ht. pose proof (delete_expired_lookup now_ms t path row deadline Hn He Ht) as Hl.
  unfold lease_acquire. cbn [quiet_env ae_failures ae_other ae_delete_ms ae_insert_ms ae_now execute].
  destruct (delete_expired now_ms t) as [t1 n]. simpl in Hl. unfold insert_ignore. rewrite Hl.
  destruct (deadline <? now_ms / 1000); simpl; [by rewrite lookup_insert_eq|].
  rewrite Hl. simpl. case_bool_decide as Hh; [|done].
  unfold update_expiry. rewrite Hl, Hh, bool_decide_eq_true_2 by done. simpl. by rewrite lookup_insert_eq.
Qed.

(** Status reports exactly the leases whose second has not passed, each with
    the seconds it has left. *)
Theorem coop_status_exact `{LeaseScan} now_ms t :
  four_digit_year (now_ms / 1000) → (∀ p row, t !! p = Some row → ∃ deadline, expires_secs row deadline) →
  ∃ infos, (lease_status None None now_ms (now_ms / 1000) (fun t => t) None t).2 = Ok infos
    ∧ ∀ info, info ∈ infos ↔ ∃ p row deadline,
        t !! p = Some row ∧ expires_secs row deadline ∧ now_ms / 1000 <= deadline
        ∧ info = Build_LeaseInfo p (co_holder_id row) (co_acquired_at row) (co_expires_at row)
                   (co_metadata row) (deadline - now_ms / 1000).
Proof.
  intros Hn Hall. unfold lease_status. cbn [execute]. destruct (delete_expired now_ms t) as [t1 n] eqn:Ed.
  simpl. eexists. split; [done|]. intros info. rewrite list_elem_of_fmap.
  assert (∀ p row deadline, expires_secs row deadline →
    t1 !! p = Some row ↔ t !! p = Some row ∧ now_ms / 1000 <= deadline) as Hl.
  { intros p row deadline He. unfold delete_expired in Ed. injection Ed as <- _.
    rewrite map_lookup_filter_Some. simpl. rewrite (expired_secs _ _ _ Hn He).
    destruct (Z.ltb_spec deadline (now_ms / 1000)); intuition (done || lia). }
  assert (∀ p row deadline, expires_secs row deadline → now_ms / 1000 <= deadline →
    collect_row (now_ms / 1000) p row = Build_LeaseInfo p (co_holder_id row) (co_acquired_at row)
      (co_expires_at row) (co_metadata row) (deadline - now_ms / 1000)) as Hc.
  { intros p row deadline [Hd He] Hle. unfold collect_row. rewrite He, parse_format by done.
    by rewrite Z.max_l by lia. }
  assert (∀ p row, t1 !! p = Some row → t !! p = Some row) as Hsub.
  { unfold delete_expired in Ed. injection Ed as <- _. intros p row Hp. by apply map_lookup_filter_Some in Hp as [? _]. }
  split.
  - intros ([p row] & -> & Hin). rewrite lease_scan_spec, elem_of_map_to_list in Hin.
    destruct (Hall p row (Hsub _ _ Hin)) as [deadline He].
    pose proof (proj1 (Hl _ _ _ He) Hin) as [Ht Hle].
    exists p, row, deadline. split_and!; [done|done|done|by apply Hc].
  - intros (p & row & deadline & Ht & He & Hle & ->). exists (p, row).
    split; [symmetry; by apply Hc|]. rewrite lease_scan_spec, elem_of_map_to_list. by apply (Hl _ _ _ He).
Qed.

(** ** A race of the statements

    The lease expires after the agent's SELECT, and another agent takes it before
    the UPDATE: the UPDATE touches no row, and the call still reports the lease as
    acquired. *)
Definition grabbed (t : lease_table) : lease_table :=
  (lease_acquire (quiet_env 1776211201000) "src/main.rs" "agent-b" 60 None t).1.

Example acquire_reports_a_lost_lease :
  let held := lease_acquire (quiet_env 1776211200000) "src/main.rs" "agent-a" 0 None ∅ in
  let again := lease_acquire
    (AcquireEnv 1776211200999 1776211200999 1776211200 (None, None, None, None)
       (fun t => t, fun t => t, grabbed)) "src/main.rs" "agent-a" 60 None held.1 in
  held.2 = Ok true ∧ again.2 = Ok true
  ∧ co_holder_id <$> again.1 !! "src/main.rs" = Some "agent-b".
Proof. vm_compute. done. Qed.

(** ** Concrete calls *)
Definition held_row : coop_row :=
  CoopRow "agent-a" "2026-04-15T00:00:00.000Z" (format_rfc3339 1776211230) None.

#[export] Instance key_lease_scan : LeaseScan | 100 :=
  {| lease_scan t := map_to_list t; lease_scan_spec t := reflexivity _ |}.

Lemma quiet_others holder deadline : others_run holder deadline (fun t => t).
Proof. intros t. by exists []. Qed.

Lemma coop_lease_exclusive_witness :
  let '(t', answer) := lease_acquire (quiet_env 1776211230999) "src/main.rs" "agent-b" 60 None
                         {["src/main.rs" := held_row]} in
  answer ≠ Ok true ∧ t' !! "src/main.rs" = Some held_row.
Proof.
  apply (coop_lease_exclusive "src/main.rs" "agent-a" 1776211230 held_row); try done.
  split_and!; [by vm_compute|by vm_compute|apply quiet_others..].
Defined.

Lemma coop_acquire_decides_witness :
  (lease_acquire (quiet_env 1776211231000) "src/main.rs" "agent-b" 60 None {["src/main.rs" := held_row]}).2
  = Ok true.
Proof.
  pose proof (coop_acquire_decides 1776211231000 "src/main.rs" held_row 1776211230 "agent-b" 60 None
                {["src/main.rs" := held_row]}) as Hd.
  destruct (lease_acquire _ _ _ _ _ _) as [t' answer].
  apply Hd; [by vm_compute|by split; vm_compute|done].
Defined.

Lemma coop_status_exact_witness :
  ∃ infos, (lease_status None None 1776211200000 1776211200 (fun t => t) None {["src/main.rs" := held_row]}).2
           = Ok infos
    ∧ ∀ info, info ∈ infos ↔ ∃ p row deadline,
        ({["src/main.rs" := held_row]} : lease_table) !! p = Some row ∧ expires_secs row deadline
        ∧ 1776211200 <= deadline
        ∧ info = Build_LeaseInfo p (co_holder_id row) (co_acquired_at row) (co_expires_at row)
                   (co_metadata row) (deadline - 1776211200).
Proof.
  apply (coop_status_exact 1776211200000 {["src/main.rs" := held_row]}); [by vm_compute|].
  intros p row [<- <-]%lookup_singleton_Some. exists 1776211230. by split; vm_compute.
Defined.
