(* ===== verification/ClaimShutdown.v ===== *)
(** * Claiming until shutdown

    [claim_next_by_kind_until_shutdown] of [src/src/core/queue_claim_shutdown.rs]: a
    caller on the async runtime and a claim task on the blocking pool, joined by
    four channels. The task asks for approval before it opens the claim writer;
    the caller grants it unless shutdown was requested; a claim that was committed
    is handed over to the caller or released by the task, also when the caller is
    cancelled at any of its waits. The two and the rest of the world interleave. *)

From Stdlib Require Import ZArith Lia String Ascii.
From stdpp Require Import base tactics list gmap strings numbers relations.
From S2P Require Import Prelude Text Sqlite WriterLease QueueTypes QueueFailures.
From S2P Require Import QueueStore QueueLifecycle QueueSystem QueueSafety.
Open Scope Z_scope.

Section attempt.
Context `{QueueEnv, TableScan}.
Implicit Types (s : store) (e : claim_env) (db : qdb).

(** ** The two halves of an attempt

    The probe on the reader connection, and what follows the approval. *)
Definition probe s e (claim_ttl_secs : Z) (kind_filter : string) db : result bool QueueError :=
  match ce_reader e with
  | Some err => Err err
  | None =>
      match require_lifecycle_writer_lease s "claim queued message" (ce_probe_lease_ms e) db with
      | Err err => Err err
      | Ok _ => Ok (claim_work_available (saturating_cutoff (ce_probe_now e) claim_ttl_secs)
                      (ce_probe_now e) (Some kind_filter) false db)
      end
  end.

Definition claim_approved s e (worker_id : string) (claim_ttl_secs : Z) (kind_filter : string) db
    : qdb * result (option ClaimedMessage) QueueError :=
  with_claim_connection e (fun conn db =>
    match require_lifecycle_writer_lease s "claim queued message" (ce_lease_ms e) db with
    | Err err => (db, Err err)
    | Ok _ =>
        let stale_cutoff := saturating_cutoff (ce_now e) claim_ttl_secs in
        if negb (claim_work_available stale_cutoff (ce_now e) (Some kind_filter) false db)
        then (db, Ok None)
        else
          fenced_tx conn
            (require_lifecycle_writer_lease s "claim queued message" (ce_tx_lease_ms e))
            (fun db =>
               let '(db1, _) := reclaim_stale_tx stale_cutoff db in
               claim_selected worker_id (ce_tx_now e) (ce_id e)
                 (select_next (fun row => is_due (ce_tx_now e) row
                                          && kind_is kind_filter row) db1)
                 (is_status StPending) db1) (ce_other e db)
    end) db.

(** The method is its two halves, with the approval and the commits of others
    between them. *)
Lemma claim_once_halves s e worker ttl kind approved db :
  claim_next_by_kind_once s e worker ttl kind approved db =
  match probe s e ttl kind db with
  | Err err => (db, Err err)
  | Ok false => (db, Ok None)
  | Ok true =>
      if approved then claim_approved s e worker ttl kind (ce_other_probe e db)
      else (ce_other_probe e db, Ok None)
  end.
Proof.
  unfold claim_next_by_kind_once, probe, claim_approved. destruct (ce_reader e); [done|].
  destruct (require_lifecycle_writer_lease _ _ _ _); [|done]. by destruct (claim_work_available _ _ _ _ _), approved.
Qed.

(** ** The handshake *)

(** Where the caller is. [CReady] waits for the task or for shutdown, [CResult]
    for the result; a caller that was cancelled has dropped its channel ends. *)
Inductive caller_phase :=
  | CStart
  | CPermit
  | CReady
  | CResult
  | CDone (answer : result (option ClaimedMessage) QueueError)
  | CCancelled.

(** Where the task is. [TApproval] has probed work and waits for the answer, with
    what the attempt reads; [TAttempt] runs attempts with the approval it got;
    [TOwner] holds a committed claim it has sent, [TRelease] one it must release. *)
Inductive task_phase :=
  | TNone
  | TProbe
  | TApproval (e : claim_env)
  | TAnswered (e : claim_env) (approved : bool)
  | TAttempt (approved : bool)
  | TFinished (answer : result (option ClaimedMessage) QueueError)
  | TOwner (c : ClaimedMessage)
  | TRelease (c : ClaimedMessage)
  | THanded (c : ClaimedMessage)
  | TReleased (c : ClaimedMessage) (outcome : result unit QueueError)
  | TEmpty.

(** The watch channel of the caller ([changed] is a value it has not seen, or a
    dropped sender), and the four channels; [None] is an empty slot. *)
Record handshake := Handshake {
  h_db : qdb;
  h_shutdown : bool;
  h_changed : bool;
  h_caller : caller_phase;
  h_task : task_phase;
  h_ready : bool;
  h_approval : option bool;
  h_result : option (result (option ClaimedMessage) QueueError);
  h_accepted : bool;
}.

(** The caller holds its channel ends. *)
Definition listening (h : handshake) : bool :=
  match h_caller h with CReady | CResult => true | _ => false end.

Definition ended (t : task_phase) : bool :=
  match t with THanded _ | TReleased _ _ | TEmpty => true | _ => false end.

Definition set_caller (c : caller_phase) (h : handshake) : handshake :=
  Handshake (h_db h) (h_shutdown h) (h_changed h) c (h_task h) (h_ready h) (h_approval h) (h_result h) (h_accepted h).
Definition set_task (t : task_phase) (h : handshake) : handshake :=
  Handshake (h_db h) (h_shutdown h) (h_changed h) (h_caller h) t (h_ready h) (h_approval h) (h_result h) (h_accepted h).
Definition set_hdb (db : qdb) (h : handshake) : handshake :=
  Handshake db (h_shutdown h) (h_changed h) (h_caller h) (h_task h) (h_ready h) (h_approval h) (h_result h) (h_accepted h).

(** [approval_tx.send(approved)] and the test that follows it. *)
Definition decide_approval (approved : bool) (h : handshake) : handshake :=
  Handshake (h_db h) (h_shutdown h) false
    (if negb approved && h_shutdown h then CDone (Ok None) else CResult)
    (h_task h) (h_ready h) (Some approved) (h_result h) (h_accepted h).

(** The second select, biased to shutdown: [None] while neither arm is ready. *)
Definition select_ready (h : handshake) : option bool :=
  if h_changed h then Some false
  else if h_ready h then Some (negb (h_shutdown h))
  else if ended (h_task h) then Some false
  else None.

(** [result_rx.await], then the acceptance of a claim. *)
Definition receive (answer : result (option ClaimedMessage) QueueError) (h : handshake) : handshake :=
  Handshake (h_db h) (h_shutdown h) (h_changed h) (CDone answer) (h_task h) (h_ready h) (h_approval h) (h_result h)
    (match answer with Ok (Some _) => true | _ => h_accepted h end).

(** [result_tx.send(..)] by a task that has its answer. *)
Definition send_result (answer : result (option ClaimedMessage) QueueError) (h : handshake) : handshake :=
  let slot := if listening h then Some answer else h_result h in
  let task := match answer with
              | Ok (Some c) => if listening h then TOwner c else TRelease c
              | _ => TEmpty
              end in
  Handshake (h_db h) (h_shutdown h) (h_changed h) (h_caller h) task (h_ready h) (h_approval h) slot (h_accepted h).

Context (s : store) (worker : string) (ttl : Z) (kind : string).

Inductive caller_step (h : handshake) : handshake → Prop :=
  | cs_start :
      h_caller h = CStart →
      caller_step h (set_caller (if h_shutdown h then CDone (Ok None) else CPermit) h)
  | cs_permit_shutdown :
      h_caller h = CPermit → h_changed h = true → caller_step h (set_caller (CDone (Ok None)) h)
  | cs_permit :
      h_caller h = CPermit → h_changed h = false → caller_step h (set_task TProbe (set_caller CReady h))
  | cs_closed error :
      h_caller h = CPermit → h_changed h = false → caller_step h (set_caller (CDone (Err error)) h)
  | cs_decide approved :
      h_caller h = CReady → select_ready h = Some approved → caller_step h (decide_approval approved h)
  | cs_result answer :
      h_caller h = CResult → h_result h = Some answer → caller_step h (receive answer h).

(** An attempt that ended with a lock error may be repeated. *)
Definition may_retry (answer : result (option ClaimedMessage) QueueError) : bool :=
  match answer with Err e => is_sqlite_lock e | _ => false end.

Inductive owner_step (h : handshake) : handshake → Prop :=
  | os_probe_done e answer :
      h_task h = TProbe →
      answer = match probe s e ttl kind (h_db h) with Err err => Err err | Ok _ => Ok None end →
      probe s e ttl kind (h_db h) ≠ Ok true →
      owner_step h (set_task (TFinished answer) h)
  | os_probe_retry e err :
      h_task h = TProbe → probe s e ttl kind (h_db h) = Err err → is_sqlite_lock err = true →
      owner_step h h
  | os_ask e :
      h_task h = TProbe → probe s e ttl kind (h_db h) = Ok true →
      owner_step h (Handshake (h_db h) (h_shutdown h) (h_changed h) (h_caller h) (TApproval e) true
                      (h_approval h) (h_result h) (h_accepted h))
  | os_approval e approved :
      h_task h = TApproval e → h_approval h = Some approved →
      owner_step h (set_task (TAnswered e approved) h)
  | os_approval_closed e :
      h_task h = TApproval e → h_approval h = None → listening h = false →
      owner_step h (set_task (TAnswered e false) h)
  | os_denied e :
      h_task h = TAnswered e false → owner_step h (set_task (TFinished (Ok None)) h)
  | os_claim e db answer :
      h_task h = TAnswered e true → claim_approved s e worker ttl kind (h_db h) = (db, answer) →
      owner_step h (set_task (if may_retry answer then TAttempt true else TFinished answer) (set_hdb db h))
  | os_claim_deadline e db answer :
      h_task h = TAnswered e true → claim_approved s e worker ttl kind (h_db h) = (db, answer) →
      owner_step h (set_task (TFinished answer) (set_hdb db h))
  | os_again e approved db answer :
      h_task h = TAttempt approved →
      claim_next_by_kind_once s e worker ttl kind approved (h_db h) = (db, answer) →
      owner_step h (set_task (if may_retry answer then TAttempt approved else TFinished answer) (set_hdb db h))
  | os_again_deadline e approved db answer :
      h_task h = TAttempt approved →
      claim_next_by_kind_once s e worker ttl kind approved (h_db h) = (db, answer) →
      owner_step h (set_task (TFinished answer) (set_hdb db h))
  | os_send answer :
      h_task h = TFinished answer → owner_step h (send_result answer h)
  | os_accepted c :
      h_task h = TOwner c → h_accepted h = true → owner_step h (set_task (THanded c) h)
  | os_refused c :
      h_task h = TOwner c → h_accepted h = false → listening h = false →
      owner_step h (set_task (TRelease c) h)
  | os_release c io ms db outcome :
      h_task h = TRelease c →
      release_owned_claim_after_cancellation s io c ms (h_db h) = (db, outcome) →
      owner_step h (set_task (TReleased c outcome) (set_hdb db h)).

(** The rest of the world: the queue, the shutdown request, the runtime that drops
    the caller at one of its waits. *)
Inductive world_step (h : handshake) : handshake → Prop :=
  | ws_queue db : world_step h (set_hdb db h)
  | ws_shutdown :
      world_step h (Handshake (h_db h) true true (h_caller h) (h_task h) (h_ready h) (h_approval h)
                      (h_result h) (h_accepted h))
  | ws_sender_gone :
      world_step h (Handshake (h_db h) (h_shutdown h) true (h_caller h) (h_task h) (h_ready h)
                      (h_approval h) (h_result h) (h_accepted h))
  | ws_cancel :
      h_caller h = CPermit ∨ h_caller h = CReady ∨ h_caller h = CResult →
      world_step h (set_caller CCancelled h).

Definition shake_step (h h' : handshake) : Prop := caller_step h h' ∨ owner_step h h' ∨ world_step h h'.

Definition shake_start (db : qdb) (shutdown : bool) : handshake :=
  Handshake db shutdown false CStart TNone false None None false.

(** ** Ownership of the claim *)

Definition caller_claim (c : caller_phase) : option ClaimedMessage :=
  match c with CDone (Ok (Some m)) => Some m | _ => None end.

(** The claim a task has committed. *)
Definition task_claim (t : task_phase) : option ClaimedMessage :=
  match t with
  | TFinished (Ok (Some c)) | TOwner c | TRelease c | THanded c | TReleased c _ => Some c
  | _ => None
  end.

(** The caller has sent its decision exactly when it is past the second select. *)
Definition decision_ok (c : caller_phase) (approval : option bool) : Prop :=
  match c with
  | CStart | CPermit | CReady => approval = None
  | CResult => is_Some approval
  | CDone _ | CCancelled => True
  end.

Definition spawned (c : caller_phase) : bool :=
  match c with CStart | CPermit => false | _ => true end.

(** Nothing has been handed over. *)
Definition nothing_sent (h : handshake) : Prop :=
  h_result h = None ∧ h_accepted h = false ∧ caller_claim (h_caller h) = None.

Definition task_inv (h : handshake) : Prop :=
  match h_task h with
  | TNone => nothing_sent h ∧ listening h = false ∧ h_approval h = None
  | TProbe => nothing_sent h ∧ spawned (h_caller h) = true
  | TApproval _ => nothing_sent h ∧ spawned (h_caller h) = true ∧ h_ready h = true
  | TAnswered _ b | TAttempt b =>
      nothing_sent h ∧ spawned (h_caller h) = true ∧ (b = true → h_approval h = Some true)
  | TFinished r =>
      nothing_sent h ∧ spawned (h_caller h) = true ∧ (∀ c, r = Ok (Some c) → h_approval h = Some true)
  | TOwner c =>
      h_approval h = Some true ∧ h_result h = Some (Ok (Some c))
      ∧ (if h_accepted h then h_caller h = CDone (Ok (Some c))
         else h_caller h = CResult ∨ h_caller h = CCancelled)
  | TRelease c | TReleased c _ =>
      h_approval h = Some true ∧ h_accepted h = false ∧ listening h = false
      ∧ spawned (h_caller h) = true ∧ caller_claim (h_caller h) = None
  | THanded c => h_approval h = Some true ∧ h_accepted h = true ∧ h_caller h = CDone (Ok (Some c))
  | TEmpty =>
      h_accepted h = false ∧ spawned (h_caller h) = true ∧ caller_claim (h_caller h) = None
      ∧ (∀ c, h_result h ≠ Some (Ok (Some c))) ∧ (listening h = true → is_Some (h_result h))
  end.

Definition shake_ok (h : handshake) : Prop := decision_ok (h_caller h) (h_approval h) ∧ task_inv h.

Lemma start_shake_ok db shutdown : shake_ok (shake_start db shutdown).
Proof. done. Qed.

(** A step changes one side: the other side's phase is split where the
    invariant depends on it. *)
Ltac shake_cases :=
  repeat match goal with
  | H : _ ∧ _ |- _ => destruct H
  | H : is_Some _ |- _ => destruct H
  | |- context [negb ?x] => is_var x; destruct x; simpl in *
  | |- context [?x && _] => is_var x; destruct x; simpl in *
  | |- context [match ?x with _ => _ end] => is_var x; destruct x; simpl in *
  | H : context [match ?x with _ => _ end] |- _ => is_var x; destruct x; simpl in *
  end.
Ltac shake_solve :=
  unfold shake_ok, task_inv, nothing_sent, decision_ok, listening, select_ready in *;
  match goal with h : handshake |- _ => destruct h end; simpl in *; simplify_eq/=;
  shake_cases; try done; split_and?; naive_solver.

Lemma caller_step_ok h h' : caller_step h h' → shake_ok h → shake_ok h'.
Proof. intros Hs Hok. destruct Hs; shake_solve. Qed.

Lemma claim_needs_approval e approved db db' c :
  claim_next_by_kind_once s e worker ttl kind approved db = (db', Ok (Some c)) → approved = true.
Proof. rewrite claim_once_halves. destruct (probe _ _ _ _ _) as [[]|]; [|done..]. by destruct approved. Qed.

Lemma owner_step_ok h h' : owner_step h h' → shake_ok h → shake_ok h'.
Proof.
  intros Hs Hok. destruct Hs.
  - by destruct (probe s e ttl kind (h_db h)) as [[]|]; subst; shake_solve.
  - done.
  - shake_solve.
  - shake_solve.
  - shake_solve.
  - shake_solve.
  - destruct (may_retry answer); shake_solve.
  - shake_solve.
  - pose proof (claim_needs_approval e approved (h_db h) db). destruct (may_retry answer); shake_solve.
  - pose proof (claim_needs_approval e approved (h_db h) db). shake_solve.
  - unfold send_result, listening. destruct answer as [[c|]|err]; shake_solve.
  - shake_solve.
  - shake_solve.
  - shake_solve.
Qed.

Lemma world_step_ok h h' : world_step h h' → shake_ok h → shake_ok h'.
Proof. intros Hs Hok. destruct Hs as [db| | |[Hc|[Hc|Hc]]]; shake_solve. Qed.

Lemma shake_step_ok h h' : shake_step h h' → shake_ok h → shake_ok h'.
Proof. intros [|[|]]; eauto using caller_step_ok, owner_step_ok, world_step_ok. Qed.

Definition reachable (h : handshake) : Prop := ∃ db shutdown, rtc shake_step (shake_start db shutdown) h.

Lemma steps_ok h h' : rtc shake_step h h' → shake_ok h → shake_ok h'.
Proof. induction 1; eauto using shake_step_ok. Qed.

Lemma reachable_ok h : reachable h → shake_ok h.
Proof. intros (db & shutdown & Hr). eapply steps_ok; [exact Hr|apply start_shake_ok]. Qed.

(** C35: a claim the task has committed has one owner, under every interleaving of
    the caller, the task, the shutdown request and a cancellation. A claim the
    caller returned is never released under it; when the task has ended, its
    claim was returned by the caller, or the task tried to release it and the
    caller returned no claim. *)
Theorem claim_has_one_owner h :
  reachable h →
  (∀ c, caller_claim (h_caller h) = Some c → h_task h = TOwner c ∨ h_task h = THanded c) ∧
  (∀ c, ended (h_task h) = true → task_claim (h_task h) = Some c →
     caller_claim (h_caller h) = Some c
     ∨ (∃ outcome, h_task h = TReleased c outcome) ∧ caller_claim (h_caller h) = None).
Proof.
  intros [_ Ht]%reachable_ok. unfold task_inv, nothing_sent in Ht.
  destruct h as [db sh ch caller task ready approval res acc]; simpl in *.
  split; intros c; [intros Hc|intros He Hc]; destruct task as [| |e|e b|b|[[m|]|err]|m|m|m|m o|];
    simpl in *; destruct_and?; simplify_eq/=; try congruence; eauto.
  destruct acc; [|destruct_or?; by subst]. subst. simpl in Hc. simplify_eq. by left.
Qed.

(** Once shutdown is requested and nothing is approved, nothing will be. *)
Definition shut (h : handshake) : Prop := h_shutdown h = true ∧ h_approval h ≠ Some true.

Lemma shut_step h h' : shake_step h h' → shut h → shut h'.
Proof.
  intros [Hs|[Hs|Hs]] [Hd Ha]; destruct Hs; try done; split; simpl; try done.
  unfold select_ready in *. rewrite Hd in *. simpl in *. repeat case_match; congruence.
Qed.

Lemma undecided_shut h :
  shake_ok h → h_shutdown h = true → h_caller h = CStart ∨ h_caller h = CPermit ∨ h_caller h = CReady → shut h.
Proof.
  intros [Hd _] Hs Hc. split; [done|]. unfold decision_ok in Hd.
  destruct Hc as [->|[-> | ->]] in Hd; congruence.
Qed.

(** Shutdown is respected: when it is requested before the caller has decided,
    the task commits no claim in any later state, and the caller returns none. *)
Theorem no_claim_after_shutdown h h' :
  reachable h → h_shutdown h = true →
  h_caller h = CStart ∨ h_caller h = CPermit ∨ h_caller h = CReady →
  rtc shake_step h h' →
  task_claim (h_task h') = None ∧ caller_claim (h_caller h') = None.
Proof.
  intros Hok%reachable_ok Hs Hc Hsteps. pose proof (undecided_shut h Hok Hs Hc) as Hshut.
  assert (shut h') as [_ Ha].
  { clear -Hsteps Hshut. induction Hsteps; eauto using shut_step. }
  destruct (steps_ok _ _ Hsteps Hok) as [_ Ht]. unfold task_inv, nothing_sent in Ht.
  destruct h' as [db sh ch caller task ready approval res acc]; simpl in *.
  destruct task as [| |e|e b|b|[[m|]|err]|m|m|m|m o|]; simpl in *; destruct_and?; try done.
  by exfalso; eauto.
Qed.

(** ** The two sides never wait for each other *)
Definition caller_blocked (h : handshake) : Prop :=
  (h_caller h = CReady ∧ select_ready h = None) ∨ (h_caller h = CResult ∧ h_result h = None).

Definition task_blocked (h : handshake) : Prop :=
  listening h = true ∧
  ((∃ e, h_task h = TApproval e ∧ h_approval h = None) ∨ (∃ c, h_task h = TOwner c ∧ h_accepted h = false)).

(** No deadlock: in every reachable state a caller that waits has a task that
    is running and does not wait for it. *)
Theorem handshake_no_deadlock h :
  reachable h → caller_blocked h → h_task h ≠ TNone ∧ ended (h_task h) = false ∧ ¬ task_blocked h.
Proof.
  intros [Hd Ht]%reachable_ok Hb. unfold caller_blocked, task_blocked, task_inv, nothing_sent, listening, select_ready in *.
  destruct h as [db sh ch caller task ready approval res acc]; simpl in *.
  destruct Hb as [[-> Hb]|[-> ->]]; unfold listening in *; simpl in *.
  - destruct ch; [done|]. destruct ready; [done|]. destruct task; simpl in *; destruct_and?; try done;
      split_and?; try done; intros [_ [(e' & ? & ?)|(c' & ? & ?)]]; naive_solver.
  - destruct task; simpl in *; destruct_and?; try done; split_and?; try done;
      try (intros [_ [(e' & ? & ?)|(c' & ? & ?)]]; destruct Hd; naive_solver).
    match goal with Hr : true = true → is_Some None |- _ => by destruct (Hr eq_refl) end.
Qed.
End attempt.

(** ** A concrete handshake *)
Definition wclaim : qdb * result (option ClaimedMessage) QueueError :=
  claim_approved wstore (wclaim_env 110 2) "w1" 60 "hook_event" run0.

Definition shake_asked : handshake :=
  Handshake run0 false false CReady (TApproval (wclaim_env 110 2)) true None None false.
Definition shake_claimed : handshake :=
  Handshake wclaim.1 false false CResult (TFinished wclaim.2) true (Some true) None false.
Definition shake_handed : handshake := receive wclaim.2 (send_result wclaim.2 shake_claimed).

Local Abbreviation wstep := (shake_step wstore "w1" 60 "hook_event").

Lemma asked_run : rtc wstep (shake_start run0 false) shake_asked.
Proof.
  eapply rtc_l; [left; by apply cs_start|]. eapply rtc_l; [left; by apply cs_permit|].
  eapply rtc_once. right. left.
  exact (os_ask wstore "w1" 60 "hook_event" (Handshake run0 false false CReady TProbe false None None false)
           (wclaim_env 110 2) eq_refl ltac:(vm_compute; reflexivity)).
Qed.

Lemma claimed_run : rtc wstep shake_asked shake_claimed.
Proof.
  eapply rtc_l; [left; exact (cs_decide shake_asked true eq_refl eq_refl)|].
  eapply rtc_l; [right; left; exact (os_approval wstore "w1" 60 "hook_event" (decide_approval true shake_asked)
                                       (wclaim_env 110 2) true eq_refl eq_refl)|].
  eapply rtc_once. right. left.
  exact (os_claim_deadline wstore "w1" 60 "hook_event"
    (Handshake run0 false false CResult (TAnswered (wclaim_env 110 2) true) true (Some true) None false)
    (wclaim_env 110 2) wclaim.1 wclaim.2 eq_refl (surjective_pairing _)).
Qed.

Lemma handed_run : rtc wstep shake_claimed shake_handed.
Proof.
  eapply rtc_l; [right; left; exact (os_send wstore "w1" 60 "hook_event" shake_claimed wclaim.2 eq_refl)|].
  eapply rtc_once. left. exact (cs_result (send_result wclaim.2 shake_claimed) wclaim.2 eq_refl eq_refl).
Qed.

Lemma shake_handed_reachable : reachable wstore "w1" 60 "hook_event" shake_handed.
Proof.
  exists run0, false. etrans; [apply asked_run|].
  etrans; [apply claimed_run|apply handed_run].
Qed.

Lemma claim_has_one_owner_witness :
  h_task shake_handed = TOwner (the_claim wclaim) ∨ h_task shake_handed = THanded (the_claim wclaim).
Proof.
  apply (proj1 (claim_has_one_owner wstore "w1" 60 "hook_event" shake_handed shake_handed_reachable)).
  vm_compute. reflexivity.
Defined.

Definition shake_shut : handshake :=
  Handshake run0 true true CReady (TApproval (wclaim_env 110 2)) true None None false.

Lemma shake_shut_reachable : reachable wstore "w1" 60 "hook_event" shake_shut.
Proof.
  exists run0, false. eapply rtc_r; [apply asked_run|]. right. right. apply (ws_shutdown shake_asked).
Qed.

Lemma no_claim_after_shutdown_witness :
  task_claim (h_task (decide_approval false shake_shut)) = None
  ∧ caller_claim (h_caller (decide_approval false shake_shut)) = None.
Proof.
  apply (no_claim_after_shutdown wstore "w1" 60 "hook_event" shake_shut); [apply shake_shut_reachable|done|auto|].
  apply rtc_once. left. exact (cs_decide shake_shut false eq_refl eq_refl).
Defined.

Lemma handshake_no_deadlock_witness :
  h_task shake_claimed ≠ TNone ∧ ended (h_task shake_claimed) = false ∧ ¬ task_blocked shake_claimed.
Proof.
  apply (handshake_no_deadlock wstore "w1" 60 "hook_event").
  - exists run0, false. etrans; [apply asked_run|apply claimed_run].
  - right. done.
Defined.
