(* ===== verification/Chars.v ===== *)
(** * Texts as characters

    A [&str] as the list of its characters (code points), for the sources that work
    on [chars()]: trimming, lines, splitting, joining, decimal numbers. *)

From Stdlib Require Import ZArith Lia String Ascii.
From stdpp Require Import base tactics list numbers sets.
From S2P Require Import Prelude.
Open Scope nat_scope.

Abbreviation text := (list Z).

(** ** White space and lines *)

(** [char::is_whitespace]: the White_Space property. *)
Definition is_whitespace (c : Z) : bool :=
  ((9 <=? c) && (c <=? 13))%Z || (c =? 32)%Z || (c =? 133)%Z || (c =? 160)%Z || (c =? 5760)%Z
  || ((8192 <=? c) && (c <=? 8202))%Z || (c =? 8232)%Z || (c =? 8233)%Z || (c =? 8239)%Z
  || (c =? 8287)%Z || (c =? 12288)%Z.

Fixpoint drop_while (f : Z → bool) (l : text) : text :=
  match l with
  | [] => []
  | c :: rest => if f c then drop_while f rest else l
  end.

Definition trim (l : text) : text := reverse (drop_while is_whitespace (reverse (drop_while is_whitespace l))).

(** [str::lines]: split at line feeds, a carriage return before one is dropped,
    and a last empty line is not yielded. *)
Fixpoint split_lines (l current : text) : list text :=
  match l with
  | [] => match current with [] => [] | _ => [reverse current] end
  | c :: rest =>
      if (c =? 10)%Z then
        reverse (match current with 13%Z :: before => before | _ => current end) :: split_lines rest []
      else split_lines rest (c :: current)
  end.

Definition lines (l : text) : list text := split_lines l [].

(** ** Splitting and joining *)

(** [[T]::join]. *)
Fixpoint join (sep : text) (parts : list text) : text :=
  match parts with
  | [] => []
  | [p] => p
  | p :: rest => p ++ sep ++ join sep rest
  end.

Definition join_lines (ls : list text) : text := join [10%Z] ls.

(** [str::split] on a character. *)
Fixpoint split_on (sep : Z) (l : text) : list text :=
  match l with
  | [] => [[]]
  | c :: rest =>
      if (c =? sep)%Z then [] :: split_on sep rest
      else match split_on sep rest with
           | [] => [[c]]
           | p :: ps => (c :: p) :: ps
           end
  end.

(** [str::split_once] on a character. *)
Fixpoint split_once (sep : Z) (l : text) : option (text * text) :=
  match l with
  | [] => None
  | c :: rest =>
      if (c =? sep)%Z then Some ([], rest)
      else match split_once sep rest with
           | Some (a, b) => Some (c :: a, b)
           | None => None
           end
  end.

Fixpoint strip_prefix (prefix l : text) : option text :=
  match prefix, l with
  | [], _ => Some l
  | p :: ps, c :: rest => if (p =? c)%Z then strip_prefix ps rest else None
  | _ :: _, [] => None
  end.

Definition starts_with (prefix l : text) : bool := bool_decide (is_Some (strip_prefix prefix l)).

(** The characters of an ASCII literal. *)
Definition chars_of (s : string) : text := (fun a => Z.of_N (N_of_ascii a)) <$> list_ascii_of_string s.

(** ** Decimal numbers *)

(** [Display] of an unsigned integer below [10 ^ fuel]. *)
Fixpoint print_digits (fuel : nat) (n : Z) (acc : text) : text :=
  match fuel with
  | O => acc
  | S fuel =>
      let acc := (48 + n mod 10)%Z :: acc in
      if (n <? 10)%Z then acc else print_digits fuel (n / 10)%Z acc
  end.

Definition print_uint (n : Z) : text := print_digits 20 n [].

(** [str::parse] of an unsigned integer with the given maximum: an optional plus
    sign, at least one digit, no overflow. *)
Fixpoint parse_dec (max acc : Z) (l : text) : option Z :=
  match l with
  | [] => Some acc
  | c :: rest =>
      if ((48 <=? c) && (c <=? 57))%Z then
        let v := (acc * 10 + (c - 48))%Z in
        if (max <? v)%Z then None else parse_dec max v rest
      else None
  end.

Definition parse_uint (max : Z) (l : text) : option Z :=
  match l with
  | 43%Z :: rest => match rest with [] => None | _ => parse_dec max 0 rest end
  | [] => None
  | _ => parse_dec max 0 l
  end.

(** What trimming keeps. *)
Lemma drop_while_suffix f l : ∃ a, l = a ++ drop_while f l ∧ Forall (λ c, f c = true) a.
Proof.
  induction l as [|c l (a & E & Ha)]; [by exists []|]. simpl. destruct (f c) eqn:Hc; [|by exists []].
  exists (c :: a). simpl. rewrite <- E. split; [done|by constructor].
Qed.

Lemma trim_middle l :
  ∃ a b, l = a ++ trim l ++ b ∧ Forall (λ c, is_whitespace c = true) a ∧ Forall (λ c, is_whitespace c = true) b.
Proof.
  destruct (drop_while_suffix is_whitespace l) as (a & Ea & Ha).
  destruct (drop_while_suffix is_whitespace (reverse (drop_while is_whitespace l))) as (b & Eb & Hb).
  exists a, (reverse b). split_and!; [|done|by rewrite reverse_Permutation].
  rewrite Ea at 1. f_equal. unfold trim. rewrite <- reverse_app, <- Eb. by rewrite reverse_involutive.
Qed.

Lemma trim_nonempty l i c : l !! i = Some c → is_whitespace c = false → trim l ≠ [].
Proof.
  intros Hi Hc E. destruct (trim_middle l) as (a & b & El & Ha & Hb). rewrite E in El. simpl in El.
  apply list_elem_of_lookup_2 in Hi. rewrite El, elem_of_app, !Forall_forall in *.
  destruct Hi as [Hi|Hi]; [specialize (Ha _ Hi)|specialize (Hb _ Hi)]; simpl in *; congruence.
Qed.

Lemma drop_while_stop f c l : f c = false → drop_while f (c :: l) = c :: l.
Proof. intros Hc. simpl. by rewrite Hc. Qed.

Lemma trim_length l : length (trim l) <= length l.
Proof. destruct (trim_middle l) as (a & b & E & _). rewrite E at 2. rewrite !length_app. lia. Qed.

(** ** Round trips *)
Lemma split_on_nonempty sep l : split_on sep l ≠ [].
Proof. destruct l as [|c l]; simpl; [done|]. destruct (c =? sep)%Z; [done|]. by destruct (split_on sep l). Qed.

Lemma split_on_none sep l : sep ∉ l → split_on sep l = [l].
Proof.
  induction l as [|c l IH]; simpl; [done|]. rewrite not_elem_of_cons. intros [Hc Hl].
  destruct (Z.eqb_spec c sep); [congruence|]. by rewrite IH.
Qed.

Lemma split_on_cons sep p rest : sep ∉ p → split_on sep (p ++ sep :: rest) = p :: split_on sep rest.
Proof.
  induction p as [|c p IH]; simpl; [by rewrite Z.eqb_refl|]. rewrite not_elem_of_cons. intros [Hc Hl].
  destruct (Z.eqb_spec c sep); [congruence|]. by rewrite IH.
Qed.

Lemma join_cons sep p q ps : join sep (p :: q :: ps) = p ++ sep ++ join sep (q :: ps).
Proof. done. Qed.

Lemma split_join sep ps : ps ≠ [] → Forall (λ p, sep ∉ p) ps → split_on sep (join [sep] ps) = ps.
Proof.
  intros Hne Hp. induction Hp as [|p ps Hp Hps IH]; [done|]. destruct ps as [|q ps].
  - by apply split_on_none.
  - rewrite join_cons. cbn [app]. by rewrite split_on_cons, IH.
Qed.

Lemma join_split sep l : join [sep] (split_on sep l) = l.
Proof.
  induction l as [|c l IH]; simpl; [done|]. pose proof (split_on_nonempty sep l) as Hne.
  destruct (Z.eqb_spec c sep) as [->|Hc].
  - destruct (split_on sep l) as [|p ps]; [done|]. rewrite join_cons. cbn [app]. by rewrite IH.
  - destruct (split_on sep l) as [|p [|q ps]]; [done|by rewrite <- IH|]. rewrite <- IH, !join_cons. done.
Qed.

(** The parts of a split are parts of the text without the separator. *)
Lemma split_on_parts sep l p : p ∈ split_on sep l → (sep ∉ p) ∧ p ⊆ l.
Proof.
  revert p. induction l as [|c l IH]; intros p; simpl.
  { intros ->%list_elem_of_singleton. set_solver. }
  destruct (Z.eqb_spec c sep) as [->|Hc].
  { intros [->|Hp]%elem_of_cons; [set_solver|]. destruct (IH p Hp). set_solver. }
  destruct (split_on sep l) as [|q qs]; [intros ->%list_elem_of_singleton; set_solver|].
  intros [->|Hp]%elem_of_cons; [destruct (IH q)|destruct (IH p)]; set_solver.
Qed.

Lemma split_once_app sep a b : sep ∉ a → split_once sep (a ++ sep :: b) = Some (a, b).
Proof.
  induction a as [|c a IH]; simpl; [by rewrite Z.eqb_refl|]. rewrite not_elem_of_cons. intros [Hc Ha].
  destruct (Z.eqb_spec c sep); [congruence|]. by rewrite IH.
Qed.

Lemma split_once_spec sep l a b : split_once sep l = Some (a, b) → l = a ++ sep :: b ∧ sep ∉ a.
Proof.
  revert a b. induction l as [|c l IH]; intros a b; simpl; [done|].
  destruct (Z.eqb_spec c sep) as [->|Hc]; [intros [= <- <-]; set_solver|].
  destruct (split_once sep l) as [[x y]|]; [|done]. intros [= <- <-]. destruct (IH x y eq_refl) as [-> ?].
  set_solver.
Qed.

Lemma strip_prefix_app prefix l : strip_prefix prefix (prefix ++ l) = Some l.
Proof. induction prefix as [|p ps IH]; simpl; [done|]. by rewrite Z.eqb_refl. Qed.

Lemma strip_prefix_spec prefix l rest : strip_prefix prefix l = Some rest → l = prefix ++ rest.
Proof.
  revert l. induction prefix as [|p ps IH]; intros l; simpl; [by intros [= ->]|].
  destruct l as [|c l]; [done|]. destruct (Z.eqb_spec p c) as [->|]; [|done]. intros E. f_equal. by apply IH.
Qed.

(** A line as [lines] yields it and [writeln] writes it: no line feed, and no
    carriage return at its end. *)
Definition line_ok (l : text) : Prop := (10%Z ∉ l) ∧ last l ≠ Some 13%Z.

Lemma split_lines_run l cur rest : 10%Z ∉ l → split_lines (l ++ rest) cur = split_lines rest (reverse l ++ cur).
Proof.
  revert cur. induction l as [|c l IH]; intros cur; simpl; [done|]. rewrite not_elem_of_cons. intros [Hc Hl].
  destruct (Z.eqb_spec c 10); [congruence|]. rewrite IH by done. by rewrite reverse_cons, <- app_assoc.
Qed.

Lemma lines_cons l rest : line_ok l → lines (l ++ 10%Z :: rest) = l :: lines rest.
Proof.
  intros [Hl Hr]. unfold lines. rewrite split_lines_run by done. rewrite app_nil_r. simpl. f_equal.
  destruct (reverse l) as [|c r] eqn:E.
  - apply (f_equal reverse) in E. rewrite reverse_involutive in E. by rewrite E.
  - assert (l = reverse r ++ [c]) as -> by (by rewrite <- (reverse_involutive l), E, reverse_cons).
    rewrite last_snoc in Hr. assert (c ≠ 13%Z) by congruence.
    transitivity (reverse (c :: r)); [|by rewrite reverse_cons]. f_equal. repeat case_match; congruence.
Qed.

Lemma lines_single l : 10%Z ∉ l → l ≠ [] → lines l = [l].
Proof.
  intros Hl Hne. unfold lines. rewrite <- (app_nil_r l) at 1. rewrite split_lines_run by done. rewrite app_nil_r.
  simpl. destruct (reverse l) eqn:E; [|by rewrite <- E, reverse_involutive].
  apply (f_equal reverse) in E. by rewrite reverse_involutive in E.
Qed.

Lemma lines_join ls : Forall line_ok ls → Forall (λ l, l ≠ []) ls → lines (join_lines ls) = ls.
Proof.
  intros Hl. induction Hl as [|l ls Hl Hls IH]; [done|]. intros [Hne Hn]%Forall_cons. unfold join_lines in *.
  destruct ls as [|q ls]; [apply lines_single; [apply Hl|done]|].
  rewrite join_cons. cbn [app]. by rewrite lines_cons, IH.
Qed.

(** A number is read back as it was written. *)
Lemma parse_dec_print max fuel n acc a :
  (0 <= n < 10 ^ Z.of_nat fuel)%Z → (0 <= a)%Z → fuel ≠ O →
  ∃ k, (0 <= k)%Z ∧ (n < 10 ^ k)%Z ∧
    ((a * 10 ^ k + n <= max)%Z → parse_dec max a (print_digits fuel n acc) = parse_dec max (a * 10 ^ k + n) acc).
Proof.
  revert n acc a. induction fuel as [|fuel IH]; intros n acc a Hn Ha Hf; [done|]. simpl.
  pose proof (Z.div_mod n 10 ltac:(lia)) as Hd. pose proof (Z.mod_pos_bound n 10 ltac:(lia)) as Hm.
  assert (∀ v, (0 <= v)%Z → (v * 10 + n mod 10 <= max)%Z →
    parse_dec max v ((48 + n mod 10)%Z :: acc) = parse_dec max (v * 10 + n mod 10) acc) as Hstep.
  { intros v Hv Hle. cbn [parse_dec].
    rewrite (proj2 (Z.leb_le 48 (48 + n mod 10))), (proj2 (Z.leb_le (48 + n mod 10) 57)) by lia. cbn [andb].
    rewrite (proj2 (Z.ltb_ge max _)) by lia. f_equal. lia. }
  destruct (Z.ltb_spec n 10).
  - exists 1%Z. split_and!; [lia|lia|]. intros Hle. rewrite Z.mod_small in * by lia. by apply Hstep.
  - destruct fuel as [|fuel]; [simpl in Hn; lia|].
    assert (0 <= n / 10 < 10 ^ Z.of_nat (S fuel))%Z as Hq.
    { rewrite Nat2Z.inj_succ, Z.pow_succ_r in Hn by lia. split; [lia|]. apply Z.div_lt_upper_bound; lia. }
    destruct (IH (n / 10)%Z ((48 + n mod 10)%Z :: acc) a Hq Ha ltac:(done)) as (k & Hk & Hlt & He).
    exists (k + 1)%Z. rewrite Z.pow_add_r by lia. split_and!; [lia|lia|]. intros Hle. rewrite He by nia.
    rewrite Hstep by nia. f_equal. nia.
Qed.

Lemma print_digits_acc fuel n acc : print_digits fuel n acc = print_digits fuel n [] ++ acc.
Proof.
  revert n acc. induction fuel as [|fuel IH]; intros n acc; simpl; [done|].
  destruct (n <? 10)%Z; [done|]. rewrite IH, (IH _ [_]). by rewrite <- app_assoc.
Qed.

Lemma print_digits_digits fuel n : (0 <= n)%Z → Forall (λ c, 48 <= c <= 57)%Z (print_digits fuel n []).
Proof.
  revert n. induction fuel as [|fuel IH]; intros n Hn; simpl; [constructor|].
  pose proof (Z.mod_pos_bound n 10 ltac:(lia)). destruct (n <? 10)%Z.
  - constructor; [lia|constructor].
  - rewrite print_digits_acc. apply Forall_app. split; [|constructor; [lia|constructor]].
    apply IH. apply Z.div_pos; lia.
Qed.

Lemma print_uint_digits n : (0 <= n)%Z → Forall (λ c, 48 <= c <= 57)%Z (print_uint n).
Proof. apply print_digits_digits. Qed.

Lemma print_uint_nonempty n : print_uint n ≠ [].
Proof.
  unfold print_uint. change (print_digits 20 n []) with
    (if (n <? 10)%Z then [(48 + n mod 10)%Z] else print_digits 19 (n / 10)%Z [(48 + n mod 10)%Z]).
  destruct (n <? 10)%Z; [done|]. rewrite print_digits_acc. intros E. by apply app_nil in E as [_ ?].
Qed.

Lemma parse_print_uint max n : (0 <= n <= max)%Z → (max < 10 ^ 20)%Z → parse_uint max (print_uint n) = Some n.
Proof.
  intros Hn Hm. pose proof (print_uint_digits n ltac:(lia)) as Hd. pose proof (print_uint_nonempty n) as Hne.
  destruct (parse_dec_print max 20 n [] 0 ltac:(lia) ltac:(lia) ltac:(done)) as (k & Hk & Hlt & He).
  specialize (He ltac:(lia)). rewrite Z.mul_0_l, Z.add_0_l in He.
  change (print_digits 20 n []) with (print_uint n) in He. change (parse_dec max n []) with (Some n) in He.
  destruct (print_uint n) as [|c l]; [done|]. apply Forall_cons in Hd as [Hc _].
  unfold parse_uint. repeat case_match; try done; lia.
Qed.

Lemma parse_dec_range max acc l v : (0 <= acc <= max)%Z → parse_dec max acc l = Some v → (0 <= v <= max)%Z.
Proof.
  revert acc. induction l as [|c l IH]; intros acc Ha; cbn [parse_dec]; [by intros [= <-]|].
  destruct (Z.leb_spec 48 c), (Z.leb_spec c 57); cbn [andb]; try done.
  destruct (Z.ltb_spec max (acc * 10 + (c - 48))); [done|]. apply IH. lia.
Qed.

Lemma parse_uint_range max l v : (0 <= max)%Z → parse_uint max l = Some v → (0 <= v <= max)%Z.
Proof.
  intros Hm. assert (∀ l, parse_dec max 0 l = Some v → 0 <= v <= max)%Z as Hr.
  { intros l'. apply parse_dec_range. lia. }
  unfold parse_uint. repeat case_match; try done; apply Hr.
Qed.

(** Membership in a literal's characters. *)
Lemma not_in_range l lo hi c : Forall (λ x, lo <= x <= hi)%Z l → (c < lo ∨ hi < c)%Z → c ∉ l.
Proof. rewrite Forall_forall. intros Hl Hc Hin. specialize (Hl _ Hin). simpl in Hl. lia. Qed.
