(* ===== verification/Chunk.v ===== *)
(** * Chunking

    [src/src/ingest/chunk.rs] and the default estimator of [src/src/embed/mod.rs]:
    the text of a drawer is cut into chunks an embedder accepts. A text is its
    list of characters (code points); positions are at most its length. The products and
    sums with token counts, for which the configuration has no upper bound, are those of
    [usize] in a release build, which wraps; a build with overflow checks panics where
    they wrap. [None] stands for a panic, and for a loop that does not end. *)

From Stdlib Require Import ZArith Lia String Ascii.
From stdpp Require Import base tactics list numbers sets.
From S2P Require Import Prelude Chars.

Open Scope nat_scope.

(** [matches!(ch, '\n' | ' ' | '\t')]. *)
Definition is_break (c : Z) : bool := (c =? 10)%Z || (c =? 32)%Z || (c =? 9)%Z.

(** [iter().rposition(..)]: the last position. *)
Fixpoint rposition (f : Z → bool) (l : text) : option nat :=
  match l with
  | [] => None
  | c :: rest =>
      match rposition f rest with
      | Some i => Some (S i)
      | None => if f c then Some 0%nat else None
      end
  end.

(** [chars[a..b]]. *)
Definition slice (chars : text) (a b : nat) : text := take (b - a) (drop a chars).

Definition nat_div_ceil (a b : nat) : nat := (a + b - 1) / b.

(** [usize] arithmetic, of 64 bits. *)
Definition usize_add (a b : nat) : nat := Z.to_nat (as_u64 (Z.of_nat a + Z.of_nat b)).
Definition usize_mul (a b : nat) : nat := Z.to_nat (as_u64 (Z.of_nat a * Z.of_nat b)).

(** ** Configuration and embedders *)
Record ChunkerConfig := Build_ChunkerConfig {
  max_tokens : nat;
  target_tokens : nat;
  overlap_tokens : nat;
}.

(** What [Config::validate] accepts. *)
Definition chunker_config_valid (c : ChunkerConfig) : bool :=
  negb (max_tokens c =? 0) && negb ((target_tokens c =? 0) || (max_tokens c <? target_tokens c))
  && negb (target_tokens c <=? overlap_tokens c).

Record Embedder := Build_Embedder {
  max_input_tokens : option nat;
  em_estimate_tokens : text → nat;
}.

(** [crate::embed::estimate_tokens], the default of the trait. *)
Definition estimate_tokens (t : text) : nat := nat_div_ceil (length t * 2) 5.

Definition SAFETY_MARGIN : nat := 32.

(** [usize::MAX] when the embedder has no limit. *)
Definition effective_max_tokens (config : ChunkerConfig) (embedder : Embedder) : nat :=
  Nat.max
    (match max_input_tokens embedder with
     | Some limit => Nat.min (max_tokens config) (limit - SAFETY_MARGIN)
     | None => max_tokens config
     end) 1.

(** ** Statistics *)
Record ChunkerStats := Build_ChunkerStats {
  hard_split_count : Z;
  last_hard_split_source : option string;
}.

Definition record_hard_split (stats : ChunkerStats) (source : option string) : ChunkerStats :=
  Build_ChunkerStats (as_u64 (hard_split_count stats + 1))
    (match source with Some s => Some s | None => last_hard_split_source stats end).

(** ** The end of a chunk *)
Definition estimate_chars_for_tokens (tokens : nat) : nat := nat_div_ceil (usize_mul tokens 5) 2.

(** The natural break both searches look for, in the latter half of the chunk. *)
Definition natural_break (chars : text) (start best : nat) : option nat :=
  let half := (best - start) / 2 in
  match rposition is_break (slice chars start best) with
  | Some split => if half <? split then Some (start + split + 1) else None
  | None => None
  end.

(** The break, or the hard split and its record. *)
Definition split_at (chars : text) (source : option string) (start best : nat) (stats : ChunkerStats)
    : nat * ChunkerStats :=
  if best <? length chars then
    match natural_break chars start best with
    | Some e => (e, stats)
    | None => (best, record_hard_split stats source)
    end
  else (best, stats).

Section chunker.
Context (embedder : Embedder).

(** [while probe <= search_limit]. *)
Fixpoint probe_loop (fuel : nat) (chars : text) (start max_tokens search_limit step probe best_end : nat)
    : option nat :=
  match fuel with
  | O => None
  | S fuel =>
      if probe <=? search_limit then
        if max_tokens <? em_estimate_tokens embedder (slice chars start probe) then Some best_end
        else if probe =? search_limit then Some probe
        else probe_loop fuel chars start max_tokens search_limit step
               (Nat.min (probe + step) search_limit) probe
      else Some best_end
  end.

Definition find_natural_break_forward (chars : text) (start current_end max_tokens : nat)
    (source : option string) (stats : ChunkerStats) : option (nat * ChunkerStats) :=
  let max_chars := estimate_chars_for_tokens max_tokens in
  let search_limit := Nat.min (usize_add start max_chars) (length chars) in
  let step := Nat.max ((search_limit - current_end) / 8) 1 in
  match probe_loop (S (S (length chars))) chars start max_tokens search_limit step current_end current_end with
  | Some best_end => Some (split_at chars source start best_end stats)
  | None => None
  end.

(** [while lo <= hi]; [mid] is never 0, as [lo] starts above [start]. *)
Fixpoint binary_loop (fuel : nat) (chars : text) (start max_tokens lo hi best : nat) : option nat :=
  match fuel with
  | O => None
  | S fuel =>
      if lo <=? hi then
        let mid := lo + (hi - lo) / 2 in
        if em_estimate_tokens embedder (slice chars start mid) <=? max_tokens
        then binary_loop fuel chars start max_tokens (mid + 1) hi mid
        else if mid =? 0 then Some best
        else binary_loop fuel chars start max_tokens lo (mid - 1) best
      else Some best
  end.

Definition find_max_end_binary (chars : text) (start upper max_tokens : nat)
    (source : option string) (stats : ChunkerStats) : option (nat * ChunkerStats) :=
  match binary_loop (S (length chars)) chars start max_tokens (start + 1) upper (start + 1) with
  | Some best => Some (split_at chars source start best stats)
  | None => None
  end.

Definition find_chunk_end (chars : text) (start target_tokens max_tokens : nat)
    (source : option string) (stats : ChunkerStats) : option (nat * ChunkerStats) :=
  let target_chars := estimate_chars_for_tokens target_tokens in
  let tentative_end := Nat.min (usize_add start target_chars) (length chars) in
  if tentative_end <? start then None else
  let tentative_token_count := em_estimate_tokens embedder (slice chars start tentative_end) in
  if (length chars <=? tentative_end) && (tentative_token_count <=? max_tokens)
  then Some (length chars, stats)
  else if tentative_token_count <=? max_tokens
  then find_natural_break_forward chars start tentative_end max_tokens source stats
  else find_max_end_binary chars start tentative_end max_tokens source stats.
End chunker.

(** ** The loop over a text

    Both chunkers walk the text the same way: cut [start..end], keep the trimmed
    cut unless it is empty, step back by the overlap unless that would not
    advance. *)
Definition push_chunk (chunks : list text) (cut : text) : list text :=
  match trim cut with [] => chunks | chunk => chunks ++ [chunk] end.

Definition next_start (start e overlap : nat) : nat :=
  if e - overlap <=? start then e else e - overlap.

Fixpoint cut_loop {S} (find_end : nat → S → option (nat * S)) (overlap : nat) (chars : text)
    (fuel start : nat) (chunks : list text) (st : S) : option (list text * S) :=
  match fuel with
  | O => None
  | Datatypes.S fuel =>
      if start <? length chars then
        match find_end start st with
        | None => None
        | Some (e, st) =>
            let chunks := push_chunk chunks (slice chars start e) in
            if length chars <=? e then Some (chunks, st)
            else cut_loop find_end overlap chars fuel (next_start start e overlap) chunks st
        end
      else Some (chunks, st)
  end.

Definition chunk_text_token_aware (t : text) (config : ChunkerConfig) (embedder : Embedder)
    (source : option string) (stats : ChunkerStats) : option (list text * ChunkerStats) :=
  let trimmed := trim t in
  match trimmed with
  | [] => Some ([], stats)
  | _ =>
      let max_tokens := effective_max_tokens config embedder in
      let target_tokens := Nat.min (target_tokens config) max_tokens in
      let overlap_tokens := Nat.min (overlap_tokens config) (target_tokens - 1) in
      cut_loop (fun start st => find_chunk_end embedder trimmed start target_tokens max_tokens source st)
        (estimate_chars_for_tokens overlap_tokens) trimmed (S (length trimmed)) 0 [] stats
  end.

(** The legacy chunker: a window of characters. *)
Definition window_end (chars : text) (window start : nat) : option nat :=
  let e := Nat.min (usize_add start window) (length chars) in
  if e <? length chars then
    if e <? start then None
    else
      match rposition is_break (slice chars start e) with
      | Some split => if window / 2 <? split then Some (start + split + 1) else Some e
      | None => Some e
      end
  else Some e.

Definition chunk_text (t : text) (window overlap : nat) : option (list text) :=
  let trimmed := trim t in
  match trimmed with
  | [] => Some []
  | _ =>
      if window =? 0 then Some []
      else
        let overlap := Nat.min overlap (window - 1) in
        match cut_loop (fun start (_ : unit) => (., tt) <$> window_end trimmed window start)
                overlap trimmed (S (length trimmed)) 0 [] tt with
        | Some (chunks, _) => Some chunks
        | None => None
        end
  end.

(** ** Conversations *)

Definition is_user_turn (line : text) : bool :=
  match line with 62%Z :: 32%Z :: _ => true | _ => false end.

Definition is_blank (line : text) : bool := match trim line with [] => true | _ => false end.

(** The loop over the lines: the turns so far and the lines of the current one. *)
Fixpoint turns_loop (ls : list text) (turns : list (list text)) (current : list text)
    : list (list text) :=
  match ls with
  | [] => match current with [] => turns | _ => turns ++ [current] end
  | line :: rest =>
      let '(turns, current) :=
        if is_user_turn line && negb (bool_decide (current = [])) then (turns ++ [current], [])
        else (turns, current) in
      let current :=
        if negb (is_blank line) || negb (bool_decide (current = [])) then current ++ [line] else current in
      turns_loop rest turns current
  end.

Definition chunk_conversation_by_turns (transcript : text) : list text :=
  join_lines <$> turns_loop (lines transcript) [] [].

Definition chunk_conversation (transcript : text) : list text := chunk_conversation_by_turns transcript.

Fixpoint conversation_loop (config : ChunkerConfig) (embedder : Embedder) (source : option string)
    (turns : list text) (chunks : list text) (stats : ChunkerStats)
    : option (list text * ChunkerStats) :=
  match turns with
  | [] => Some (chunks, stats)
  | turn :: rest =>
      if em_estimate_tokens embedder turn <=? effective_max_tokens config embedder
      then conversation_loop config embedder source rest (chunks ++ [turn]) stats
      else
        match chunk_text_token_aware turn config embedder source stats with
        | Some (sub_chunks, stats) =>
            conversation_loop config embedder source rest (chunks ++ sub_chunks) stats
        | None => None
        end
  end.

Definition chunk_conversation_token_aware (transcript : text) (config : ChunkerConfig)
    (embedder : Embedder) (source : option string) (stats : ChunkerStats)
    : option (list text * ChunkerStats) :=
  conversation_loop config embedder source (chunk_conversation_by_turns transcript) [] stats.

(** ** Slices and breaks *)
Lemma slice_length chars a b : a <= b <= length chars → length (slice chars a b) = b - a.
Proof. intros H. unfold slice. rewrite length_take, length_drop. lia. Qed.

(** A slice that ends earlier is a prefix. *)
Lemma slice_prefix chars a b c : a <= b <= c → ∃ rest, slice chars a c = slice chars a b ++ rest.
Proof.
  intros H. exists (take (c - b) (drop b chars)). unfold slice.
  replace (c - a) with ((b - a) + (c - b)) by lia. rewrite <- take_take_drop, drop_drop.
  do 3 f_equal. lia.
Qed.

Lemma slice_single chars a : a < length chars → ∃ c, slice chars a (a + 1) = [c].
Proof.
  intros H. pose proof (slice_length chars a (a + 1) ltac:(lia)) as Hl.
  destruct (slice chars a (a + 1)) as [|c [|]]; simpl in Hl; [lia|by exists c|lia].
Qed.

Lemma rposition_bound f l i : rposition f l = Some i → i < length l.
Proof.
  revert i. induction l as [|c l IH]; intros i; simpl; [done|].
  destruct (rposition f l) as [j|]; [|destruct (f c); [|done]]; intros [= <-]; [|lia].
  specialize (IH j eq_refl). lia.
Qed.

Lemma split_at_between chars source start best stats :
  start < best <= length chars → start < (split_at chars source start best stats).1 <= best.
Proof.
  intros H. unfold split_at, natural_break. destruct (best <? length chars); [|simpl; lia].
  destruct (rposition _ _) as [i|] eqn:Hr; [|simpl; lia].
  apply rposition_bound in Hr. rewrite slice_length in Hr by lia. destruct (_ <? i); simpl; lia.
Qed.

Lemma nat_div_ceil_spec a b : 0 < b → a <= b * nat_div_ceil a b < a + b.
Proof.
  intros Hb. unfold nat_div_ceil. pose proof (Nat.div_mod (a + b - 1) b ltac:(lia)).
  pose proof (Nat.mod_upper_bound (a + b - 1) b ltac:(lia)). lia.
Qed.

(** A vector of characters has at most [isize::MAX] bytes, four for a character. *)
Definition in_memory (t : text) : Prop := (Z.of_nat (length t) <= 2 ^ 61)%Z.
Definition is_usize (n : nat) : Prop := (Z.of_nat n <= u64_max)%Z.

Lemma in_memory_trim t : in_memory t → in_memory (trim t).
Proof. unfold in_memory. pose proof (trim_length t). lia. Qed.

(** The estimate may wrap, but not to zero. *)
Lemma chars_for_tokens_positive t : 0 < t → is_usize t →
  0 < estimate_chars_for_tokens t ∧ (Z.of_nat (estimate_chars_for_tokens t) <= 2 ^ 63)%Z.
Proof.
  intros H0 Ht. unfold estimate_chars_for_tokens, usize_mul, as_u64, is_usize, u64_max in *.
  pose proof (nat_div_ceil_spec (Z.to_nat ((Z.of_nat t * Z.of_nat 5) mod 2 ^ 64)) 2 ltac:(lia)).
  pose proof (Z.div_mod (Z.of_nat t * Z.of_nat 5) (2 ^ 64) ltac:(lia)).
  pose proof (Z.mod_pos_bound (Z.of_nat t * Z.of_nat 5) (2 ^ 64) ltac:(lia)). lia.
Qed.

Lemma usize_add_small a b : (Z.of_nat a + Z.of_nat b <= u64_max)%Z → usize_add a b = a + b.
Proof. intros H. unfold usize_add, as_u64, u64_max in *. rewrite Z.mod_small by lia. lia. Qed.

(** ** The end of a chunk *)
Section ends.
Context (embedder : Embedder) (chars : text) (start max : nat).
Context (Hstart : start < length chars).

Abbreviation fits e := (em_estimate_tokens embedder (slice chars start e) <= max).


(** The probe has reached the last position that was good, or lies beyond it by
    one step. *)
Lemma probe_loop_spec fuel limit step probe best :
  0 < step → limit <= length chars → limit - probe < fuel →
  start < best <= probe → best <= limit → fits best →
  ∃ e, probe_loop embedder fuel chars start max limit step probe best = Some e
       ∧ best <= e <= limit ∧ fits e.
Proof.
  intros Hstep Hlim. revert probe best. induction fuel as [|fuel IH]; intros probe best Hf Hb Hbl Hfit; [lia|].
  simpl. destruct (Nat.leb_spec probe limit); [|by exists best].
  destruct (Nat.ltb_spec max (em_estimate_tokens embedder (slice chars start probe))); [by exists best|].
  destruct (Nat.eqb_spec probe limit) as [->|Hne]; [exists limit; split_and!; done || lia|].
  destruct (IH (Nat.min (probe + step) limit) probe) as (e & He & ? & ?); [lia..|done|].
  exists e. split_and!; done || lia.
Qed.

Lemma binary_loop_spec fuel lo hi best upper :
  upper <= length chars → hi + 1 - lo < fuel → start < lo → hi <= upper →
  start < best <= Nat.max upper (start + 1) → (best = start + 1 ∨ fits best) →
  ∃ e, binary_loop embedder fuel chars start max lo hi best = Some e
       ∧ start < e <= Nat.max upper (start + 1) ∧ (e = start + 1 ∨ fits e).
Proof.
  intros Hup. revert lo hi best. induction fuel as [|fuel IH]; intros lo hi best Hf Hlo Hhi Hb Hfit; [lia|].
  cbn [binary_loop]. destruct (Nat.leb_spec lo hi); [|by exists best].
  pose proof (Nat.div_mod (hi - lo) 2 ltac:(lia)). set (mid := lo + (hi - lo) / 2) in *.
  assert (lo <= mid <= hi) by lia.
  destruct (Nat.leb_spec (em_estimate_tokens embedder (slice chars start mid)) max).
  - apply IH; try lia; by right.
  - destruct (Nat.eqb_spec mid 0); [by exists best|]. apply IH; done || lia.
Qed.

Definition end_ok (e : nat) : Prop := start < e <= length chars.

Lemma forward_spec current source stats :
  start < current → current <= length chars → fits current →
  ∃ best, find_natural_break_forward embedder chars start current max source stats
          = Some (split_at chars source start best stats) ∧ start < best <= length chars ∧ fits best.
Proof.
  intros Hc Hl Hfit. unfold find_natural_break_forward. set (limit := Nat.min _ _) in *.
  destruct (Nat.le_gt_cases current limit) as [Hle|Hgt]; cycle 1.
  { cbn [probe_loop]. destruct (Nat.leb_spec current limit); [lia|]. by exists current. }
  destruct (probe_loop_spec (S (S (length chars))) limit (Nat.max ((limit - current) / 8) 1) current current)
    as (e & -> & ? & ?); [lia|lia|lia|lia|lia|done|]. exists e. split_and!; done || lia.
Qed.

Lemma binary_spec upper source stats :
  upper <= length chars →
  ∃ best, find_max_end_binary embedder chars start upper max source stats
          = Some (split_at chars source start best stats)
          ∧ start < best <= length chars ∧ (best = start + 1 ∨ fits best).
Proof.
  intros Hu. unfold find_max_end_binary.
  destruct (binary_loop_spec (S (length chars)) (start + 1) upper (start + 1) upper)
    as (e & -> & ? & ?); [lia|lia|lia|lia|lia|by left|]. exists e. split_and!; done || lia.
Qed.
End ends.

(** Shorter texts have no more tokens, and one character is never too much. *)
Record estimator_laws (est : text → nat) (max : nat) : Prop := {
  est_mono : ∀ a b c, est b <= est (a ++ b ++ c);
  est_single : ∀ c, est [c] <= max;
}.

Lemma find_chunk_end_spec embedder chars start target max source stats :
  start < length chars → 0 < target → is_usize target → in_memory chars →
  ∃ e stats', find_chunk_end embedder chars start target max source stats = Some (e, stats')
    ∧ start < e <= length chars
    ∧ (estimator_laws (em_estimate_tokens embedder) max →
       em_estimate_tokens embedder (slice chars start e) <= max).
Proof.
  intros Hs Ht Hu Hmem. unfold find_chunk_end. destruct (chars_for_tokens_positive target Ht Hu) as [Htc Htm].
  unfold in_memory in Hmem. rewrite usize_add_small by (unfold u64_max; lia). set (tent := Nat.min _ _).
  assert (start < tent <= length chars) as Htent by lia. destruct (Nat.ltb_spec tent start); [lia|].
  assert (∀ best, start < best <= length chars →
    (best = start + 1 ∨ em_estimate_tokens embedder (slice chars start best) <= max) →
    ∃ e stats', Some (split_at chars source start best stats) = Some (e, stats') ∧ start < e <= length chars
      ∧ (estimator_laws (em_estimate_tokens embedder) max →
         em_estimate_tokens embedder (slice chars start e) <= max)) as Hsplit.
  { intros best Hb Hfit. exists (split_at chars source start best stats).1, (split_at chars source start best stats).2.
    pose proof (split_at_between chars source start best stats Hb). split_and!; [by destruct (split_at _ _ _ _ _)|lia|lia|].
    intros [Hm H1]. assert (em_estimate_tokens embedder (slice chars start best) <= max) as Hb'.
    { destruct Hfit as [->|]; [|done]. destruct (slice_single chars start Hs) as [c ->]. apply H1. }
    destruct (slice_prefix chars start (split_at chars source start best stats).1 best ltac:(lia)) as [rest E].
    rewrite E in Hb'. etrans; [|exact Hb']. apply (Hm [] _ rest). }
  destruct (Nat.leb_spec (em_estimate_tokens embedder (slice chars start tent)) max) as [Hfit|Hno].
  - rewrite andb_true_r. destruct (Nat.leb_spec (length chars) tent).
    + exists (length chars), stats. split_and!; [done|lia|lia|]. intros _. by replace (length chars) with tent by lia.
    + destruct (forward_spec embedder chars start max Hs tent source stats) as (best & -> & Hb & ?);
        [lia|lia|done|]. by apply Hsplit; [|right].
  - rewrite andb_false_r. destruct (binary_spec embedder chars start max Hs tent source stats) as (best & -> & Hb & ?);
      [lia|]. by apply Hsplit.
Qed.

(** ** The cuts of a text *)

(** Cuts that cover [start..len]: each starts after the one before it starts and
    not beyond its end; the last ends the text. *)
Inductive covers (len : nat) : nat → list (nat * nat) → Prop :=
  | covers_last start : start < len → covers len start [(start, len)]
  | covers_cons start e start' rest :
      start < e < len → start < start' <= e → covers len start' rest → covers len start ((start, e) :: rest).

(** The chunks the cuts leave: trimmed, the empty ones dropped. *)
Fixpoint chunks_of (chars : text) (cuts : list (nat * nat)) : list text :=
  match cuts with
  | [] => []
  | (a, b) :: rest => push_chunk [] (slice chars a b) ++ chunks_of chars rest
  end.

Lemma push_chunk_app chunks cut : push_chunk chunks cut = chunks ++ push_chunk [] cut.
Proof. unfold push_chunk. destruct (trim cut); [by rewrite app_nil_r|done]. Qed.

Lemma next_start_between start e overlap : start < e → start < next_start start e overlap <= e.
Proof. intros H. unfold next_start. destruct (Nat.leb_spec (e - overlap) start); lia. Qed.

Lemma cut_loop_covers {St} (find_end : nat → St → option (nat * St)) (P : nat * nat → Prop) overlap chars
    fuel start chunks st :
  (∀ start st, start < length chars → ∃ e st', find_end start st = Some (e, st')
     ∧ start < e <= length chars ∧ P (start, e)) →
  length chars - start < fuel → start < length chars →
  ∃ cuts st', cut_loop find_end overlap chars fuel start chunks st = Some (chunks ++ chunks_of chars cuts, st')
    ∧ covers (length chars) start cuts ∧ Forall P cuts.
Proof.
  intros Hend. revert start chunks st. induction fuel as [|fuel IH]; intros start chunks st Hf Hs; [lia|].
  cbn [cut_loop]. destruct (Nat.ltb_spec start (length chars)); [|lia].
  destruct (Hend start st Hs) as (e & st' & -> & He & HP). rewrite push_chunk_app.
  pose proof (next_start_between start e overlap ltac:(lia)) as Hn.
  destruct (Nat.leb_spec (length chars) e).
  - exists [(start, e)], st'. simpl. rewrite app_nil_r. split; [done|]. split; [|by constructor].
    replace e with (length chars) by lia. by constructor.
  - destruct (IH (next_start start e overlap) (chunks ++ push_chunk [] (slice chars start e)) st')
      as (cuts & st'' & -> & Hc & HPs); [lia|lia|].
    exists ((start, e) :: cuts), st''. simpl. rewrite <- app_assoc. split; [done|].
    split; [|by constructor]. apply covers_cons with (next_start start e overlap); done || lia.
Qed.

Lemma covers_position len start cuts i :
  covers len start cuts → start <= i < len → ∃ a b, (a, b) ∈ cuts ∧ a <= i < b.
Proof.
  induction 1 as [start Hs|start e start' rest He Hs' Hc IH]; intros Hi.
  - exists start, len. split; [set_solver|lia].
  - destruct (decide (i < e)) as [Hlt|Hge]; [exists start, e; split; [set_solver|lia]|].
    destruct IH as (a & b & Hin & Hab); [lia|]. exists a, b. split; [set_solver|done].
Qed.

Lemma elem_of_chunks_of chars cuts c :
  c ∈ chunks_of chars cuts ↔ c ≠ [] ∧ ∃ a b, (a, b) ∈ cuts ∧ c = trim (slice chars a b).
Proof.
  induction cuts as [|[a b] cuts IH]; simpl; [set_solver|]. rewrite elem_of_app, IH. unfold push_chunk.
  destruct (trim (slice chars a b)) as [|x l] eqn:E; set_solver.
Qed.

(** What a valid configuration leaves to the loop. *)
Lemma effective_tokens config embedder :
  0 < target_tokens config →
  0 < Nat.min (target_tokens config) (effective_max_tokens config embedder) <= effective_max_tokens config embedder.
Proof. unfold effective_max_tokens. destruct (max_input_tokens embedder); lia. Qed.

Lemma valid_target config : chunker_config_valid config = true →
  0 < target_tokens config ∧ (is_usize (max_tokens config) → is_usize (target_tokens config)).
Proof.
  unfold chunker_config_valid, is_usize. rewrite !andb_true_iff, !negb_true_iff, orb_false_iff.
  intros [[_ [H1%Nat.eqb_neq H2%Nat.ltb_ge]] _]. lia.
Qed.

Lemma chunk_text_cuts config embedder source stats t :
  0 < target_tokens config → is_usize (target_tokens config) → in_memory t → trim t ≠ [] →
  ∃ cuts stats', chunk_text_token_aware t config embedder source stats = Some (chunks_of (trim t) cuts, stats')
    ∧ covers (length (trim t)) 0 cuts
    ∧ Forall (λ cut, estimator_laws (em_estimate_tokens embedder) (effective_max_tokens config embedder) →
        em_estimate_tokens embedder (slice (trim t) cut.1 cut.2) <= effective_max_tokens config embedder) cuts.
Proof.
  intros Hv Hu Hmem%in_memory_trim Ht. unfold chunk_text_token_aware. cbv zeta.
  pose proof (effective_tokens config embedder Hv) as Hm.
  set (chars := trim t) in *. destruct chars as [|c0 chars'] eqn:E; [done|]. rewrite <- E in *.
  destruct (cut_loop_covers (fun start st => find_chunk_end embedder chars start
      (Nat.min (target_tokens config) (effective_max_tokens config embedder))
      (effective_max_tokens config embedder) source st)
    (λ cut, estimator_laws (em_estimate_tokens embedder) (effective_max_tokens config embedder) →
       em_estimate_tokens embedder (slice chars cut.1 cut.2) <= effective_max_tokens config embedder)
    (estimate_chars_for_tokens (Nat.min (overlap_tokens config)
       (Nat.min (target_tokens config) (effective_max_tokens config embedder) - 1)))
    chars (S (length chars)) 0 [] stats) as (cuts & st' & Hrun & Hc & HP).
  - intros start st Hs. apply find_chunk_end_spec; [done|lia| |done]. unfold is_usize in *. lia.
  - lia.
  - rewrite E. simpl. lia.
  - exists cuts, st'. done.
Qed.

Lemma slice_lookup chars a b i : a <= i < b → slice chars a b !! (i - a) = chars !! i.
Proof.
  intros H. unfold slice. rewrite lookup_take_lt, lookup_drop by lia. f_equal. lia.
Qed.

(** A character that is not white space is in a chunk of its cut. *)
Lemma chunk_of_position chars cuts i c :
  covers (length chars) 0 cuts → chars !! i = Some c → is_whitespace c = false →
  ∃ a b, a <= i < b ∧ trim (slice chars a b) ∈ chunks_of chars cuts.
Proof.
  intros Hc Hi Hw. pose proof (lookup_lt_Some _ _ _ Hi) as Hlt.
  destruct (covers_position _ _ _ i Hc ltac:(lia)) as (a & b & Hin & Hab). exists a, b. split; [done|].
  apply elem_of_chunks_of. split; [|eauto]. eapply (trim_nonempty _ (i - a)); [|done].
  by rewrite slice_lookup.
Qed.

(** ** Properties *)

(** C38: The chunker returns and loses no text: with a valid configuration of usize
    values, a text that a vector of characters can hold (at most 2^61) and any embedder,
    it ends, every character of the trimmed text that is not white space is in a chunk,
    and every chunk is the trimmed text of a cut and not empty. The product of a token
    count and five is the wrapping one of a release build, since the validation sets no
    upper bound to max_tokens; with overflow checks the program panics instead once a
    count exceeds a fifth of usize::MAX. *)
Theorem chunking_covers config embedder source stats t :
  chunker_config_valid config = true → is_usize (max_tokens config) → in_memory t →
  ∃ chunks stats', chunk_text_token_aware t config embedder source stats = Some (chunks, stats')
    ∧ (∀ i c, trim t !! i = Some c → is_whitespace c = false →
        ∃ a b, a <= i < b ∧ trim (slice (trim t) a b) ∈ chunks)
    ∧ (∀ chunk, chunk ∈ chunks → chunk ≠ [] ∧ ∃ a b, chunk = trim (slice (trim t) a b)).
Proof.
  intros [Hv Hu]%valid_target Hmax Hm. specialize (Hu Hmax). destruct (decide (trim t = [])) as [E|E].
  - exists [], stats. unfold chunk_text_token_aware. rewrite E. split; [done|]. split; [done|set_solver].
  - destruct (chunk_text_cuts config embedder source stats t Hv Hu Hm E) as (cuts & st' & -> & Hc & _).
    exists (chunks_of (trim t) cuts), st'. split; [done|]. split.
    + intros i c Hi Hw. by eapply chunk_of_position.
    + intros chunk (Hne & a & b & _ & ->)%elem_of_chunks_of. eauto.
Qed.

Lemma chunk_text_fits config embedder source stats t chunks stats' :
  0 < target_tokens config → is_usize (target_tokens config) → in_memory t → estimator_laws (em_estimate_tokens embedder) (effective_max_tokens config embedder) →
  chunk_text_token_aware t config embedder source stats = Some (chunks, stats') →
  Forall (λ chunk, em_estimate_tokens embedder chunk <= effective_max_tokens config embedder) chunks.
Proof.
  intros Hv Hu Hm Hl E. destruct (decide (trim t = [])) as [Et|Et].
  - unfold chunk_text_token_aware in E. rewrite Et in E. simplify_eq. constructor.
  - destruct (chunk_text_cuts config embedder source stats t Hv Hu Hm Et) as (cuts & st & Er & _ & Hf).
    rewrite Er in E. simplify_eq. apply Forall_forall. intros chunk (_ & a & b & Hin & ->)%elem_of_chunks_of.
    rewrite Forall_forall in Hf. specialize (Hf _ Hin Hl). simpl in Hf.
    destruct (trim_middle (slice (trim t) a b)) as (x & y & El & _). rewrite El in Hf.
    etrans; [apply Hl|exact Hf].
Qed.

Lemma conversation_loop_fits config embedder source turns chunks stats chunks' stats' :
  0 < target_tokens config → is_usize (target_tokens config) → Forall in_memory turns → estimator_laws (em_estimate_tokens embedder) (effective_max_tokens config embedder) →
  Forall (λ chunk, em_estimate_tokens embedder chunk <= effective_max_tokens config embedder) chunks →
  conversation_loop config embedder source turns chunks stats = Some (chunks', stats') →
  Forall (λ chunk, em_estimate_tokens embedder chunk <= effective_max_tokens config embedder) chunks'.
Proof.
  intros Hv Hu Hm Hl. revert chunks stats. induction Hm as [|turn turns Hmt _ IH]; intros chunks stats Hc; simpl;
    [by intros [= <- _]|].
  destruct (Nat.leb_spec (em_estimate_tokens embedder turn) (effective_max_tokens config embedder)).
  - apply IH. apply Forall_app. split; [done|]. by apply Forall_singleton.
  - destruct (chunk_text_token_aware _ _ _ _ _) as [[sub st]|] eqn:E; [|done].
    apply IH. apply Forall_app. split; [done|]. by eapply chunk_text_fits.
Qed.

Lemma conversation_loop_total config embedder source turns chunks stats :
  0 < target_tokens config → is_usize (target_tokens config) → Forall in_memory turns →
  ∃ r, conversation_loop config embedder source turns chunks stats = Some r.
Proof.
  intros Hv Hu Hm. revert chunks stats. induction Hm as [|turn turns Hmt _ IH]; intros chunks stats; simpl; [eauto|].
  destruct (_ <=? _); [apply IH|].
  destruct (decide (trim turn = [])) as [Et|Et].
  - unfold chunk_text_token_aware. rewrite Et. apply IH.
  - destruct (chunk_text_cuts config embedder source stats turn Hv Hu Hmt Et) as (cuts & st' & -> & _). apply IH.
Qed.

(** No chunk is too large: with a valid configuration, and an estimator for
    which a part of a text has no more tokens than the text and a character is
    within the limit, both chunkers return chunks within the effective maximum. *)
Theorem chunks_fit config embedder source stats t :
  chunker_config_valid config = true → is_usize (max_tokens config) → in_memory t →
  Forall in_memory (chunk_conversation_by_turns t) →
  estimator_laws (em_estimate_tokens embedder) (effective_max_tokens config embedder) →
  ∃ chunks stats' turns stats'',
    chunk_text_token_aware t config embedder source stats = Some (chunks, stats')
    ∧ chunk_conversation_token_aware t config embedder source stats = Some (turns, stats'')
    ∧ Forall (λ chunk, em_estimate_tokens embedder chunk <= effective_max_tokens config embedder) (chunks ++ turns).
Proof.
  intros [Hv Hu]%valid_target Hmax Hm Hms Hl. specialize (Hu Hmax).
  destruct (conversation_loop_total config embedder source (chunk_conversation_by_turns t) [] stats Hv Hu Hms)
    as [[turns st2] E2].
  assert (∃ r, chunk_text_token_aware t config embedder source stats = Some r) as [[chunks st1] E1].
  { destruct (decide (trim t = [])) as [Et|Et]; [unfold chunk_text_token_aware; rewrite Et; eauto|].
    destruct (chunk_text_cuts config embedder source stats t Hv Hu Hm Et) as (cuts & st' & -> & _). eauto. }
  exists chunks, st1, turns, st2. split_and!; [done|done|]. apply Forall_app. split.
  - by eapply chunk_text_fits.
  - eapply conversation_loop_fits; [done..| |exact E2]. constructor.
Qed.

(** The default estimator has these laws. *)
Lemma default_estimator max : 1 <= max → estimator_laws estimate_tokens max.
Proof.
  intros Hm. unfold estimate_tokens. split.
  - intros a b c. rewrite !length_app.
    pose proof (nat_div_ceil_spec (length b * 2) 5 ltac:(lia)).
    pose proof (nat_div_ceil_spec ((length a + (length b + length c)) * 2) 5 ltac:(lia)). lia.
  - intros c. simpl. change (nat_div_ceil 2 5) with 1. lia.
Qed.

(** A turn: at least one line, and only its first line can open a turn. *)
Definition turn_ok (turn : list text) : Prop :=
  match turn with [] => False | _ :: rest => Forall (λ l, is_user_turn l = false) rest end.
Definition opens_turn (turn : list text) : Prop :=
  match turn with l :: _ => is_user_turn l = true | [] => False end.

Fixpoint drop_blank (ls : list text) : list text :=
  match ls with
  | [] => []
  | l :: rest => if is_blank l then drop_blank rest else ls
  end.

Lemma user_turn_not_blank l : is_user_turn l = true → is_blank l = false.
Proof.
  intros Hu. unfold is_blank. destruct (trim l) eqn:E; [|done]. exfalso.
  destruct l as [|c l]; [done|]. assert (c = 62%Z) as -> by (simpl in Hu; by repeat case_match).
  by eapply (trim_nonempty (62%Z :: l) 0 62%Z).
Qed.

(** From a turn that has begun, no line is dropped. *)
Lemma turns_loop_begun ls turns current :
  turn_ok current →
  ∃ turn rest, turns_loop ls turns current = turns ++ turn :: rest
    ∧ turn_ok turn ∧ Forall turn_ok rest ∧ Forall opens_turn rest
    ∧ head turn = head current ∧ turn ++ concat rest = current ++ ls.
Proof.
  revert turns current. induction ls as [|line ls IH]; intros turns current Hok.
  - destruct current as [|l current]; [done|]. simpl. exists (l :: current), [].
    split_and!; try done; by constructor.
  - cbn [turns_loop]. assert (current ≠ []) as Hne by (by intros ->).
    rewrite (bool_decide_eq_false_2 _ Hne), andb_true_r. destruct (is_user_turn line) eqn:Hu; simpl.
    + rewrite (user_turn_not_blank _ Hu). simpl.
      destruct (IH (turns ++ [current]) [line]) as (turn & rest & -> & Ht & Hr & Ho & Hh & Hc); [by constructor|].
      exists current, (turn :: rest). rewrite <- app_assoc. split_and!; try done.
      * by constructor.
      * constructor; [|done]. destruct turn as [|l turn]; [done|]. simpl in *. by simplify_eq.
      * simpl. by rewrite Hc.
    + rewrite (bool_decide_eq_false_2 _ Hne), orb_true_r.
      destruct (IH turns (current ++ [line])) as (turn & rest & -> & Ht & Hr & Ho & Hh & Hc).
      { destruct current; [done|]. simpl in *. apply Forall_app. split; [done|]. by apply Forall_singleton. }
      exists turn, rest. split_and!; try done.
      * rewrite Hh. by destruct current.
      * by rewrite Hc, <- app_assoc.
Qed.

Lemma turns_loop_start ls :
  match drop_blank ls with
  | [] => turns_loop ls [] [] = []
  | l :: rest => turns_loop ls [] [] = turns_loop rest [] [l]
  end.
Proof.
  induction ls as [|l ls IH]; [done|]. cbn [drop_blank turns_loop].
  rewrite bool_decide_eq_true_2, andb_false_r by done. simpl.
  rewrite orb_false_r. destruct (is_blank l); [exact IH|done].
Qed.

(** A transcript is split into its turns: the lines of the turns, in order, are
    the lines of the transcript from the first that is not blank; every turn after
    the first opens with a user line, and no other line of a turn does. *)
Theorem conversation_turns transcript :
  ∃ turns, chunk_conversation transcript = join_lines <$> turns
    ∧ concat turns = drop_blank (lines transcript)
    ∧ Forall turn_ok turns ∧ Forall opens_turn (tail turns).
Proof.
  exists (turns_loop (lines transcript) [] []). split; [done|].
  pose proof (turns_loop_start (lines transcript)) as Hs. destruct (drop_blank _) as [|l rest].
  - rewrite Hs. done.
  - rewrite Hs. destruct (turns_loop_begun rest [] [l]) as (turn & ts & -> & Ht & Hr & Ho & _ & Hc); [by constructor|].
    simpl. split; [done|]. split; [by constructor|done].
Qed.

(** ** The window chunker *)
Lemma window_end_between chars window start :
  0 < window → (Z.of_nat window <= 2 ^ 63)%Z → in_memory chars → start < length chars →
  ∃ e, window_end chars window start = Some e ∧ start < e <= length chars ∧ e <= start + window.
Proof.
  intros Hw Hwm Hm Hs. unfold in_memory in Hm. unfold window_end. rewrite usize_add_small by (unfold u64_max; lia).
  set (e := Nat.min _ _). destruct (Nat.ltb_spec e (length chars)); [|exists e; split; [done|lia]].
  destruct (Nat.ltb_spec e start); [lia|].
  destruct (rposition _ _) as [i|] eqn:Hr; [|exists e; split; [done|lia]]. apply rposition_bound in Hr.
  rewrite slice_length in Hr by lia. destruct (_ <? i); eexists; (split; [done|lia]).
Qed.

Lemma covers_within len start cuts : covers len start cuts → Forall (λ cut, cut.1 < cut.2 <= len) cuts.
Proof. induction 1; constructor; simpl; try done; lia. Qed.

(** The window chunker returns chunks of at most [window] characters that
    leave out no character but white space, whatever the overlap. *)
Theorem window_chunks t window overlap :
  0 < window → (Z.of_nat window <= 2 ^ 63)%Z → in_memory t →
  ∃ chunks, chunk_text t window overlap = Some chunks
    ∧ Forall (λ chunk, 0 < length chunk <= window) chunks
    ∧ ∀ i c, trim t !! i = Some c → is_whitespace c = false →
        ∃ a b, a <= i < b ∧ trim (slice (trim t) a b) ∈ chunks.
Proof.
  intros Hw Hwm Hm%in_memory_trim. unfold chunk_text. cbv zeta. destruct (trim t) as [|c0 chars'] eqn:E.
  { exists []. split; [done|]. split; [constructor|]. intros i c Hi. by rewrite lookup_nil in Hi. }
  rewrite <- E. destruct (Nat.eqb_spec window 0); [lia|].
  destruct (cut_loop_covers (fun start (_ : unit) => (., tt) <$> window_end (trim t) window start)
    (λ cut, cut.2 - cut.1 <= window) (Nat.min overlap (window - 1)) (trim t) (S (length (trim t))) 0 [] tt)
    as (cuts & st' & -> & Hc & HP).
  - intros start st Hs. destruct (window_end_between (trim t) window start Hw Hwm ltac:(by rewrite E in *) Hs) as (e & -> & He).
    exists e, tt. split; [done|]. simpl. lia.
  - lia.
  - rewrite E. simpl. lia.
  - exists (chunks_of (trim t) cuts). split; [done|]. split; [|intros i c; by apply chunk_of_position].
    apply Forall_forall. intros chunk (Hne & a & b & Hin & ->)%elem_of_chunks_of.
    apply covers_within in Hc. rewrite Forall_forall in HP, Hc. specialize (HP _ Hin). specialize (Hc _ Hin).
    simpl in HP, Hc. pose proof (trim_length (slice (trim t) a b)) as Hl. rewrite slice_length in Hl by lia.
    destruct (trim (slice (trim t) a b)); [done|]. simpl in *. lia.
Qed.

(** A token count of which the product wraps. *)
Example estimate_wraps :
  let tokens := ((u64_max + 5) / 5)%Z in (tokens <=? u64_max)%Z = true ∧ as_u64 (tokens * 5) = 4%Z.
Proof. split; vm_compute; reflexivity. Qed.

(** ** Concrete texts *)
Definition small_config : ChunkerConfig := Build_ChunkerConfig 4 3 1.
Definition default_embedder : Embedder := Build_Embedder (Some 512) estimate_tokens.
Definition no_stats : ChunkerStats := Build_ChunkerStats 0 None.
Definition sample : text := [97; 98; 99; 32; 100; 101; 102; 103; 32; 104; 105; 106; 107; 108; 109; 110]%Z.

Example sample_chunks :
  chunk_text_token_aware sample small_config default_embedder None no_stats
  = Some ([[97; 98; 99; 32; 100; 101; 102; 103]; [102; 103; 32; 104; 105; 106; 107; 108; 109; 110]]%Z, no_stats).
Proof. vm_compute. reflexivity. Qed.

Lemma chunking_covers_witness :
  ∃ chunks stats', chunk_text_token_aware sample small_config default_embedder None no_stats = Some (chunks, stats')
    ∧ (∀ i c, trim sample !! i = Some c → is_whitespace c = false →
        ∃ a b, a <= i < b ∧ trim (slice (trim sample) a b) ∈ chunks)
    ∧ (∀ chunk, chunk ∈ chunks → chunk ≠ [] ∧ ∃ a b, chunk = trim (slice (trim sample) a b)).
Proof. apply chunking_covers; [done|vm_compute; discriminate..]. Defined.

Lemma chunks_fit_witness :
  ∃ chunks stats' turns stats'',
    chunk_text_token_aware sample small_config default_embedder None no_stats = Some (chunks, stats')
    ∧ chunk_conversation_token_aware sample small_config default_embedder None no_stats = Some (turns, stats'')
    ∧ Forall (λ chunk, estimate_tokens chunk <= 4) (chunks ++ turns).
Proof.
  apply (chunks_fit small_config default_embedder None no_stats sample); [done|vm_compute; discriminate..| |].
  { repeat constructor; vm_compute; discriminate. }
  apply default_estimator. vm_compute. lia.
Defined.

Lemma window_chunks_witness :
  ∃ chunks, chunk_text sample 6 2 = Some chunks
    ∧ Forall (λ chunk, 0 < length chunk <= 6) chunks
    ∧ ∀ i c, trim sample !! i = Some c → is_whitespace c = false →
        ∃ a b, a <= i < b ∧ trim (slice (trim sample) a b) ∈ chunks.
Proof. apply window_chunks; [lia|vm_compute; discriminate..]. Defined.
