(* ===== verification/Aaak.v ===== *)
(** * AAAK documents

    [src/src/aaak/model.rs] and [src/src/aaak/parse.rs]: the compact notes the
    palace prints and reads back. A document is a header line and body lines
    (notes, tunnels between notes, emotional arcs); [print_document] is its
    [Display], [parse_document] its parser. *)

From Stdlib Require Import ZArith Lia String Ascii.
From stdpp Require Import base tactics list gmap numbers sets.
From S2P Require Import Prelude Chars.
Open Scope nat_scope.
Open Scope rust_scope.

Record AaakHeader := Build_AaakHeader {
  ah_version : Z;
  ah_wing : text;
  ah_room : text;
  ah_date : text;
  ah_source : text;
}.

Record Zettel := Build_Zettel {
  z_id : Z;
  z_entities : list text;
  z_topics : list text;
  z_quote : text;
  z_weight : Z;
  z_emotions : list text;
  z_flags : list text;
}.

Record Tunnel := Build_Tunnel { tn_left : Z; tn_right : Z; tn_label : text }.
Record ArcLine := Build_ArcLine { arc_emotions : list text }.

Inductive AaakLine :=
  | LZettel (z : Zettel)
  | LTunnel (t : Tunnel)
  | LArc (a : ArcLine).

Record AaakDocument := Build_AaakDocument {
  ad_header : AaakHeader;
  ad_body : list AaakLine;
  ad_zettels : list Zettel;
}.

Inductive ParseError :=
  | MissingHeader
  | InvalidHeader
  | InvalidVersion
  | InvalidZettel (line : text).

Definition line_zettel (l : AaakLine) : option Zettel :=
  match l with LZettel z => Some z | _ => None end.

Definition zettel_lines (d : AaakDocument) : list Zettel :=
  match ad_body d with [] => ad_zettels d | body => omap line_zettel body end.

Definition body_lines (d : AaakDocument) : list AaakLine :=
  match ad_body d with [] => LZettel <$> ad_zettels d | body => body end.

(** ** Printing *)

(** The characters of the notation: the bar, the quote, the star. *)
Definition BAR : Z := 124.
Definition QUOTE : Z := 34.
Definition STAR : Z := 9733.

(** Double quotes are replaced by apostrophes. *)
Definition replace_quotes (t : text) : text := (fun c => if (c =? QUOTE)%Z then 39%Z else c) <$> t.

Definition print_header (h : AaakHeader) : text :=
  join [BAR] [86%Z :: print_uint (ah_version h); ah_wing h; ah_room h; ah_date h; ah_source h].

Definition print_zettel (z : Zettel) : text :=
  print_uint (z_id z) ++ 58%Z ::
  join [BAR] [join [43%Z] (z_entities z); join [95%Z] (z_topics z);
              QUOTE :: replace_quotes (z_quote z) ++ [QUOTE];
              replicate (Z.to_nat (Z.max (z_weight z) 1)) STAR;
              join [43%Z] (z_emotions z); join [43%Z] (z_flags z)].

Definition ARROW : text := chars_of "->".

Definition print_tunnel (t : Tunnel) : text :=
  chars_of "T:" ++ print_uint (tn_left t) ++ chars_of "<->" ++ print_uint (tn_right t) ++ BAR :: tn_label t.

Definition print_arc (a : ArcLine) : text := chars_of "ARC:" ++ join ARROW (arc_emotions a).

Definition print_line (l : AaakLine) : text :=
  match l with
  | LZettel z => print_zettel z
  | LTunnel t => print_tunnel t
  | LArc a => print_arc a
  end.

Definition print_document (d : AaakDocument) : text :=
  print_header (ad_header d) ++ 10%Z :: join_lines (print_line <$> body_lines d).

(** ** Parsing *)
Definition ALLOWED_FLAGS : list text :=
  chars_of <$> ["DECISION"; "ORIGIN"; "CORE"; "PIVOT"; "TECHNICAL"; "SENSITIVE"]%string.

Definition usize_max : Z := u64_max.

Definition is_ascii_uppercase (c : Z) : bool := ((65 <=? c) && (c <=? 90))%Z.
Definition is_ascii_lowercase (c : Z) : bool := ((97 <=? c) && (c <=? 122))%Z.

(** The lengths are those of ASCII texts: other texts fail the second test. *)
Definition is_entity_code (raw : text) : bool := (length raw =? 3) && forallb is_ascii_uppercase raw.
Definition is_emotion_code (raw : text) : bool :=
  (3 <=? length raw) && (length raw <=? 7) && forallb is_ascii_lowercase raw.

Definition is_nil {A} (l : list A) : bool := match l with [] => true | _ => false end.

Definition split_field (raw : text) (separator : Z) : list text :=
  filter (fun item => is_nil item = false) (split_on separator raw).

Definition parse_quote (raw : text) : option text :=
  if length raw <? 2 then None
  else match raw with
       | c :: rest =>
           if (c =? QUOTE)%Z && bool_decide (last rest = Some QUOTE)
           then Some (take (length rest - 1) rest) else None
       | [] => None
       end.

Definition parse_weight (raw : text) : option Z :=
  if is_nil raw || negb (forallb (fun c => (c =? STAR)%Z) raw) then None
  else if (1 <=? length raw) && (length raw <=? 5) then Some (Z.of_nat (length raw)) else None.

Definition parse_header (line : text) : result AaakHeader ParseError :=
  match split_on BAR line with
  | [version; wing; room; date; source] =>
      match version with
      | 86%Z :: digits =>
          match parse_uint 255 digits with
          | Some v => Ok (Build_AaakHeader v wing room date source)
          | None => Err InvalidVersion
          end
      | _ => Err InvalidVersion
      end
  | _ => Err InvalidHeader
  end.

Definition parse_zettel (line : text) : result Zettel ParseError :=
  let invalid := Err (InvalidZettel line) in
  match split_once 58 line with
  | None => invalid
  | Some (id, rest) =>
      match parse_uint usize_max id with
      | None => invalid
      | Some id =>
          match split_on BAR rest with
          | [p0; p1; p2; p3; p4; p5] =>
              let entities := split_field p0 43 in
              if is_nil entities || negb (forallb is_entity_code entities) then invalid
              else
                let topics := split_field p1 95 in
                if is_nil topics then invalid
                else
                  match parse_quote p2, parse_weight p3 with
                  | Some quote, Some weight =>
                      let emotions := split_field p4 43 in
                      if is_nil emotions || negb (forallb is_emotion_code emotions) then invalid
                      else
                        let flags := split_field p5 43 in
                        if is_nil flags || negb (forallb (fun f => bool_decide (f ∈ ALLOWED_FLAGS)) flags)
                        then invalid
                        else Ok (Build_Zettel id entities topics quote weight emotions flags)
                  | _, _ => invalid
                  end
          | _ => invalid
          end
      end
  end.

(** [split_once("<->")]. *)
Fixpoint split_once_tunnel (l : text) : option (text * text) :=
  match l with
  | 60%Z :: ((45%Z :: (62%Z :: rest)) as tl) => Some ([], rest)
  | c :: rest => match split_once_tunnel rest with Some (a, b) => Some (c :: a, b) | None => None end
  | [] => None
  end.

(** [split("->")]. *)
Fixpoint split_arrow (l : text) : list text :=
  match l with
  | 45%Z :: ((62%Z :: rest) as tl) => [] :: split_arrow rest
  | c :: rest =>
      match split_arrow rest with
      | [] => [[c]]
      | p :: ps => (c :: p) :: ps
      end
  | [] => [[]]
  end.

Definition parse_tunnel (line : text) : result Tunnel ParseError :=
  let invalid := Err (InvalidZettel line) in
  match strip_prefix (chars_of "T:") line with
  | None => invalid
  | Some rest =>
      match split_once BAR rest with
      | None => invalid
      | Some (ends, label) =>
          if is_nil (trim label) then invalid
          else
            match split_once_tunnel ends with
            | None => invalid
            | Some (l, r) =>
                match parse_uint usize_max l, parse_uint usize_max r with
                | Some l, Some r => Ok (Build_Tunnel l r label)
                | _, _ => invalid
                end
            end
      end
  end.

Definition parse_arc (line : text) : result ArcLine ParseError :=
  let invalid := Err (InvalidZettel line) in
  match strip_prefix (chars_of "ARC:") line with
  | None => invalid
  | Some rest =>
      if is_nil rest then invalid
      else
        let emotions := split_arrow rest in
        if is_nil emotions || negb (forallb is_emotion_code emotions) then invalid
        else Ok (Build_ArcLine emotions)
  end.

(** The loop over the lines: body, notes and their ids so far. *)
Fixpoint parse_body (ls : list text) (body : list AaakLine) (zettels : list Zettel) (ids : gset Z)
    : result (list AaakLine * list Zettel * gset Z) ParseError :=
  match ls with
  | [] => Ok (body, zettels, ids)
  | line :: rest =>
      if starts_with (chars_of "T:") line then
        let? t := parse_tunnel line in parse_body rest (body ++ [LTunnel t]) zettels ids
      else if starts_with (chars_of "ARC:") line then
        let? a := parse_arc line in parse_body rest (body ++ [LArc a]) zettels ids
      else
        let? z := parse_zettel line in
        if bool_decide (z_id z ∈ ids) then Err (InvalidZettel line)
        else parse_body rest (body ++ [LZettel z]) (zettels ++ [z]) ({[z_id z]} ∪ ids)
  end.

(** A tunnel whose ends are not notes of the document. *)
Definition dangling (ids : gset Z) (l : AaakLine) : option Tunnel :=
  match l with
  | LTunnel t => if bool_decide (tn_left t ∈ ids) && bool_decide (tn_right t ∈ ids) then None else Some t
  | _ => None
  end.

Definition parse_document (input : text) : result AaakDocument ParseError :=
  match filter (fun line => is_nil (trim line) = false) (lines input) with
  | [] => Err MissingHeader
  | first :: rest =>
      let? header := parse_header first in
      let? (body, zettels, ids) := parse_body rest [] [] ∅ in
      match omap (dangling ids) body with
      | t :: _ => Err (InvalidZettel (print_tunnel t))
      | [] => Ok (Build_AaakDocument header body zettels)
      end
  end.

(** ** Well-formed documents *)
Definition field_ok (t : text) : Prop := (BAR ∉ t) ∧ (10%Z ∉ t).

Record header_ok (h : AaakHeader) : Prop := {
  ho_version : (0 <= ah_version h <= 255)%Z;
  ho_fields : Forall field_ok [ah_wing h; ah_room h; ah_date h; ah_source h];
}.

Record zettel_ok (z : Zettel) : Prop := {
  zo_id : (0 <= z_id z <= usize_max)%Z;
  zo_entities : z_entities z ≠ [] ∧ Forall (λ e, is_entity_code e = true) (z_entities z);
  zo_topics : z_topics z ≠ [] ∧ Forall (λ t, t ≠ [] ∧ (95%Z ∉ t) ∧ field_ok t) (z_topics z);
  zo_quote : field_ok (z_quote z);
  zo_weight : (1 <= z_weight z <= 5)%Z;
  zo_emotions : z_emotions z ≠ [] ∧ Forall (λ e, is_emotion_code e = true) (z_emotions z);
  zo_flags : z_flags z ≠ [] ∧ Forall (λ f, f ∈ ALLOWED_FLAGS) (z_flags z);
}.

Record tunnel_ok (t : Tunnel) : Prop := {
  to_left : (0 <= tn_left t <= usize_max)%Z;
  to_right : (0 <= tn_right t <= usize_max)%Z;
  to_label : trim (tn_label t) ≠ [] ∧ (10%Z ∉ tn_label t);
}.

Definition arc_ok (a : ArcLine) : Prop :=
  arc_emotions a ≠ [] ∧ Forall (λ e, is_emotion_code e = true) (arc_emotions a).

Definition body_line_ok (l : AaakLine) : Prop :=
  match l with LZettel z => zettel_ok z | LTunnel t => tunnel_ok t | LArc a => arc_ok a end.

(** The ids of the notes are distinct, and tunnels join notes of the document. *)
Record document_ok (d : AaakDocument) : Prop := {
  do_header : header_ok (ad_header d);
  do_lines : Forall body_line_ok (ad_body d);
  do_zettels : ad_zettels d = omap line_zettel (ad_body d);
  do_ids : NoDup (z_id <$> ad_zettels d);
  do_tunnels : ∀ t, LTunnel t ∈ ad_body d →
    tn_left t ∈ z_id <$> ad_zettels d ∧ tn_right t ∈ z_id <$> ad_zettels d;
}.

(** What [Display] writes as it is: quotes without the quote character, line ends
    that are no carriage return. *)
Definition printable_line (l : AaakLine) : Prop :=
  match l with
  | LZettel z => QUOTE ∉ z_quote z
  | LTunnel t => last (tn_label t) ≠ Some 13%Z
  | LArc _ => True
  end.

Definition printable (d : AaakDocument) : Prop :=
  last (ah_source (ad_header d)) ≠ Some 13%Z ∧ Forall printable_line (ad_body d).

(** ** Reading back *)
Lemma forallb_range (f : Z → bool) lo hi l :
  (∀ c, f c = true → lo <= c <= hi)%Z → forallb f l = true → Forall (λ c, lo <= c <= hi)%Z l.
Proof. intros Hf Hl. apply Forall_forall. intros c Hc. apply Hf. rewrite forallb_forall in Hl. by apply Hl, list_elem_of_In. Qed.

Lemma upper_range c : is_ascii_uppercase c = true → (65 <= c <= 90)%Z.
Proof. unfold is_ascii_uppercase. rewrite andb_true_iff, !Z.leb_le. done. Qed.
Lemma lower_range c : is_ascii_lowercase c = true → (97 <= c <= 122)%Z.
Proof. unfold is_ascii_lowercase. rewrite andb_true_iff, !Z.leb_le. done. Qed.

Lemma entity_chars e : is_entity_code e = true → Forall (λ c, 65 <= c <= 90)%Z e ∧ e ≠ [].
Proof.
  unfold is_entity_code. rewrite andb_true_iff. intros [Hl Hc]. split; [by eapply forallb_range; [apply upper_range|]|].
  by intros ->.
Qed.
Lemma emotion_chars e : is_emotion_code e = true → Forall (λ c, 97 <= c <= 122)%Z e ∧ e ≠ [].
Proof.
  unfold is_emotion_code. rewrite !andb_true_iff. intros [[Hl _] Hc].
  split; [by eapply forallb_range; [apply lower_range|]|]. by intros ->.
Qed.
Lemma flag_chars f : f ∈ ALLOWED_FLAGS → Forall (λ c, 65 <= c <= 90)%Z f ∧ f ≠ [].
Proof.
  intros Hf. assert (Forall (λ f, Forall (λ c, 65 <= c <= 90)%Z f ∧ f ≠ []) ALLOWED_FLAGS) as Ha.
  { repeat constructor; done. }
  rewrite Forall_forall in Ha. by apply Ha.
Qed.

Lemma field_join sep parts :
  parts ≠ [] → Forall (λ p, p ≠ [] ∧ (sep ∉ p)) parts → split_field (join [sep] parts) sep = parts.
Proof.
  intros Hne Hp. unfold split_field. rewrite split_join; [|done|].
  - clear Hne. induction Hp as [|p ps [Hne _] Hps IH]; [done|]. rewrite filter_cons_True; [by rewrite IH|].
    by destruct p.
  - eapply Forall_impl; [exact Hp|]. by intros p [_ ?].
Qed.

Lemma not_in_join sep parts c : (c ∉ sep) → Forall (λ p, c ∉ p) parts → c ∉ join sep parts.
Proof.
  intros Hs Hp. induction Hp as [|p ps Hp Hps IH]; [set_solver|]. destruct ps as [|q ps]; [done|].
  rewrite join_cons, !elem_of_app. tauto.
Qed.

Lemma upper_ne parts c :
  Forall (λ p, Forall (λ x, 65 <= x <= 90)%Z p ∧ p ≠ []) parts → (c < 65 ∨ 90 < c)%Z → Forall (λ p, c ∉ p) parts.
Proof. intros Hp Hc. eapply Forall_impl; [exact Hp|]. intros p [Hr _]. by eapply not_in_range. Qed.

Lemma replace_quotes_id t : QUOTE ∉ t → replace_quotes t = t.
Proof.
  unfold replace_quotes. induction t as [|c t IH]; [done|]. rewrite not_elem_of_cons. intros [Hc Ht].
  rewrite fmap_cons, IH by done. by destruct (Z.eqb_spec c QUOTE); [congruence|].
Qed.

Lemma parse_quote_print q : parse_quote (QUOTE :: q ++ [QUOTE]) = Some q.
Proof.
  unfold parse_quote. replace (length (QUOTE :: q ++ [QUOTE]) <? 2) with false;
    [|symmetry; apply Nat.ltb_ge; simpl; rewrite length_app; simpl; lia].
  rewrite Z.eqb_refl, last_snoc. rewrite bool_decide_eq_true_2 by done. simpl. rewrite length_app. simpl.
  replace (length q + 1 - 1) with (length q) by lia. by rewrite take_app_length.
Qed.

Lemma parse_weight_print n : (1 <= n <= 5)%Z → parse_weight (replicate (Z.to_nat (Z.max n 1)) STAR) = Some n.
Proof. intros Hn. assert (n = 1 ∨ n = 2 ∨ n = 3 ∨ n = 4 ∨ n = 5)%Z as H by lia. by destruct_or! H; subst n. Qed.

Lemma parse_print_header h : header_ok h → parse_header (print_header h) = Ok h.
Proof.
  intros [Hv Hf]. unfold parse_header, print_header. rewrite split_join; [|done|].
  - rewrite parse_print_uint by lia. by destruct h.
  - constructor; [|eapply Forall_impl; [exact Hf|by intros t []]].
    apply not_elem_of_cons. split; [done|]. eapply not_in_range; [apply print_uint_digits; lia|]. unfold BAR. lia.
Qed.

(** Codes and flags as the parts of a field. *)
Lemma parts_ok (P : text → Prop) lo hi parts sep :
  (∀ p, P p → Forall (λ c, lo <= c <= hi)%Z p ∧ p ≠ []) → Forall P parts → (sep < lo)%Z →
  Forall (λ p, p ≠ [] ∧ (sep ∉ p)) parts.
Proof.
  intros HP Hp Hs. eapply Forall_impl; [exact Hp|]. intros p [Hr Hne]%HP. split; [done|].
  eapply not_in_range; [exact Hr|lia].
Qed.

Lemma parts_without (P : text → Prop) lo hi parts sep c :
  (∀ p, P p → Forall (λ c, lo <= c <= hi)%Z p ∧ p ≠ []) → Forall P parts →
  (c < lo ∨ hi < c)%Z → c ≠ sep → c ∉ join [sep] parts.
Proof.
  intros HP Hp Hc Hs. apply not_in_join; [set_solver|]. eapply Forall_impl; [exact Hp|].
  intros p [Hr _]%HP. by eapply not_in_range.
Qed.

(** The fields of a printed note, none of which has a bar or a line feed. *)
Definition zettel_fields (z : Zettel) : list text :=
  [join [43%Z] (z_entities z); join [95%Z] (z_topics z); QUOTE :: replace_quotes (z_quote z) ++ [QUOTE];
   replicate (Z.to_nat (Z.max (z_weight z) 1)) STAR; join [43%Z] (z_emotions z); join [43%Z] (z_flags z)].

Lemma replicate_not_in n (c d : Z) : c ≠ d → c ∉ replicate n d.
Proof. intros Hne. rewrite elem_of_replicate. tauto. Qed.

Lemma zettel_fields_ok z : zettel_ok z → QUOTE ∉ z_quote z → Forall field_ok (zettel_fields z).
Proof.
  intros Hz Hq. unfold zettel_fields. rewrite replace_quotes_id by done.
  destruct Hz as [_ [_ He] [_ Ht] [Hqb Hqn] _ [_ Hm] [_ Hf]].
  assert (∀ c, c = BAR ∨ c = 10%Z → (c < 65 ∨ 90 < c) ∧ (c < 97 ∨ 122 < c) ∧ c ≠ 43 ∧ c ≠ 95 ∧ c ≠ QUOTE ∧ c ≠ STAR)%Z
    as Hc by (unfold BAR, QUOTE, STAR; lia).
  assert (∀ c, c = BAR ∨ c = 10%Z → Forall (λ f, c ∉ f)
    [join [43%Z] (z_entities z); join [95%Z] (z_topics z); QUOTE :: z_quote z ++ [QUOTE];
     replicate (Z.to_nat (Z.max (z_weight z) 1)) STAR; join [43%Z] (z_emotions z); join [43%Z] (z_flags z)]) as Hall.
  { intros c Hcc. destruct (Hc c Hcc) as (H1 & H2 & H3 & H4 & H5 & H6). repeat constructor.
    - eapply (parts_without _ 65 90); [apply entity_chars|done|done|done].
    - apply not_in_join; [set_solver|]. eapply Forall_impl; [exact Ht|]. intros t (_ & _ & Hb & Hn).
      by destruct Hcc as [->| ->].
    - rewrite not_elem_of_cons, elem_of_app, list_elem_of_singleton.
      split; [done|]. intros [Hin|Hin]; [|done]. by destruct Hcc as [->| ->].
    - by apply replicate_not_in.
    - eapply (parts_without _ 97 122); [apply emotion_chars|done|done|done].
    - eapply (parts_without _ 65 90); [apply flag_chars|done|done|done]. }
  pose proof (Hall BAR (or_introl eq_refl)) as Hb. pose proof (Hall 10%Z (or_intror eq_refl)) as Hn.
  rewrite Forall_forall in Hb, Hn. apply Forall_forall. intros f Hin. split; [by apply Hb|by apply Hn].
Qed.

Lemma not_in_uint n c : (0 <= n)%Z → (c < 48 ∨ 57 < c)%Z → c ∉ print_uint n.
Proof. intros Hn Hc. eapply not_in_range; [by apply print_uint_digits|done]. Qed.

Lemma forallb_Forall_text (f : text → bool) l : Forall (λ x, f x = true) l → forallb f l = true.
Proof. intros Hl. apply forallb_forall. intros x Hx. rewrite Forall_forall in Hl. by apply Hl, list_elem_of_In. Qed.

Lemma not_nil_is_nil {A} (l : list A) : l ≠ [] → is_nil l = false.
Proof. by destruct l. Qed.

Lemma parse_print_zettel z : zettel_ok z → QUOTE ∉ z_quote z → parse_zettel (print_zettel z) = Ok z.
Proof.
  intros Hz Hq. pose proof (zettel_fields_ok z Hz Hq) as Hf.
  destruct Hz as [Hid [Hne He] [Htn Ht] [Hqb Hqn] Hw [Hmn Hm] [Hfn Hfl]].
  unfold parse_zettel, print_zettel. fold (zettel_fields z).
  rewrite split_once_app by (apply not_in_uint; lia).
  rewrite parse_print_uint by (unfold usize_max, u64_max in *; lia).
  rewrite split_join; [|done|eapply Forall_impl; [exact Hf|by intros f []]]. unfold zettel_fields.
  rewrite !field_join; try done.
  2: { eapply (parts_ok (λ f, f ∈ ALLOWED_FLAGS) 65 90); [apply flag_chars|done|lia]. }
  2: { eapply (parts_ok _ 97 122); [apply emotion_chars|done|lia]. }
  2: { eapply Forall_impl; [exact Ht|]. by intros t (? & ? & _). }
  2: { eapply (parts_ok _ 65 90); [apply entity_chars|done|lia]. }
  rewrite replace_quotes_id, parse_quote_print, parse_weight_print by done.
  rewrite !not_nil_is_nil, !forallb_Forall_text by done. simpl.
  rewrite forallb_Forall_text; [by destruct z|]. eapply Forall_impl; [exact Hfl|]. intros f Hin.
  by apply bool_decide_eq_true_2.
Qed.

Lemma split_tunnel_print a b : 60%Z ∉ a → split_once_tunnel (a ++ chars_of "<->" ++ b) = Some (a, b).
Proof.
  induction a as [|c a IH]; [done|]. rewrite not_elem_of_cons. intros [Hc Ha]. cbn [app split_once_tunnel].
  rewrite IH by done. repeat case_match; congruence.
Qed.

Lemma parse_print_tunnel t : tunnel_ok t → parse_tunnel (print_tunnel t) = Ok t.
Proof.
  intros [Hl Hr [Hlab _]]. unfold parse_tunnel, print_tunnel. rewrite strip_prefix_app.
  replace (print_uint (tn_left t) ++ chars_of "<->" ++ print_uint (tn_right t) ++ BAR :: tn_label t)
    with ((print_uint (tn_left t) ++ chars_of "<->" ++ print_uint (tn_right t)) ++ BAR :: tn_label t)
    by (by rewrite <- !app_assoc).
  rewrite split_once_app.
  - rewrite not_nil_is_nil by done. rewrite split_tunnel_print by (apply not_in_uint; lia).
    rewrite !parse_print_uint by (unfold usize_max, u64_max in *; lia). by destruct t.
  - rewrite !elem_of_app. intros [Hin|[Hin|Hin]]; [| |]; revert Hin;
      [apply not_in_uint; unfold BAR; lia|vm_compute; set_solver|apply not_in_uint; unfold BAR; lia].
Qed.

Lemma split_arrow_none p : 45%Z ∉ p → split_arrow p = [p].
Proof.
  induction p as [|c p IH]; [done|]. rewrite not_elem_of_cons. intros [Hc Hp]. cbn [split_arrow].
  rewrite IH by done. repeat case_match; congruence.
Qed.

Lemma split_arrow_cons p rest : 45%Z ∉ p → split_arrow (p ++ ARROW ++ rest) = p :: split_arrow rest.
Proof.
  induction p as [|c p IH]; [done|]. rewrite not_elem_of_cons. intros [Hc Hp]. cbn [app split_arrow].
  rewrite IH by done. repeat case_match; congruence.
Qed.

Lemma split_arrow_join ps : ps ≠ [] → Forall (λ p, 45%Z ∉ p) ps → split_arrow (join ARROW ps) = ps.
Proof.
  intros Hne Hp. induction Hp as [|p ps Hp Hps IH]; [done|]. destruct ps as [|q ps].
  - by apply split_arrow_none.
  - rewrite join_cons, split_arrow_cons by done. by rewrite IH.
Qed.

Lemma parse_print_arc a : arc_ok a → parse_arc (print_arc a) = Ok a.
Proof.
  intros [Hne He]. unfold parse_arc, print_arc. rewrite strip_prefix_app.
  assert (join ARROW (arc_emotions a) ≠ []) as Hj.
  { destruct (arc_emotions a) as [|e [|e2 es]]; [done| |].
    - simpl. apply Forall_cons in He as [He _]. by apply emotion_chars in He as [_ ?].
    - rewrite join_cons. intros E. by apply app_nil in E as [_ [? _]%app_nil]. }
  rewrite not_nil_is_nil by done. rewrite split_arrow_join; [|done|].
  - rewrite not_nil_is_nil, forallb_Forall_text by done. by destruct a.
  - eapply Forall_impl; [exact He|]. intros e [Hr _]%emotion_chars. eapply not_in_range; [exact Hr|lia].
Qed.

(** ** Lines of a printed document *)
Lemma join_snoc sep ps p : ps ≠ [] → join sep (ps ++ [p]) = join sep ps ++ sep ++ p.
Proof.
  intros Hne. induction ps as [|q ps IH]; [done|]. destruct ps as [|q' ps]; [done|].
  change ((q :: q' :: ps) ++ [p]) with (q :: q' :: (ps ++ [p])). rewrite !join_cons.
  change (q' :: (ps ++ [p])) with ((q' :: ps) ++ [p]). rewrite IH by done. by rewrite <- !app_assoc.
Qed.

Lemma last_not_in (l : text) c : c ∉ l → last l ≠ Some c.
Proof. intros Hc Hl. apply Hc. by apply last_Some_elem_of. Qed.

Lemma header_line_ok h : header_ok h → last (ah_source h) ≠ Some 13%Z → line_ok (print_header h).
Proof.
  intros [Hv Hf] Hs. assert (0 <= ah_version h)%Z by lia. split.
  - unfold print_header. apply not_in_join; [vm_compute; set_solver|]. constructor.
    + rewrite not_elem_of_cons. split; [done|]. apply not_in_uint; lia.
    + eapply Forall_impl; [exact Hf|]. by intros t [].
  - unfold print_header.
    change [86%Z :: print_uint (ah_version h); ah_wing h; ah_room h; ah_date h; ah_source h]
      with ([86%Z :: print_uint (ah_version h); ah_wing h; ah_room h; ah_date h] ++ [ah_source h]).
    rewrite join_snoc by done. rewrite app_assoc, last_app. destruct (last (ah_source h)); [done|].
    by rewrite last_snoc.
Qed.

Lemma zettel_line_ok z : zettel_ok z → QUOTE ∉ z_quote z → line_ok (print_zettel z).
Proof.
  intros Hz Hq. pose proof (zettel_fields_ok z Hz Hq) as Hf. destruct Hz as [Hid _ _ _ _ _ [Hfn Hfl]].
  unfold print_zettel. fold (zettel_fields z). split.
  - rewrite elem_of_app, elem_of_cons. intros [Hin|[Hin|Hin]]; [|done|]; revert Hin.
    + apply not_in_uint; lia.
    + apply not_in_join; [vm_compute; set_solver|]. eapply Forall_impl; [exact Hf|]. by intros t [].
  - set (flags := join [43%Z] (z_flags z)).
    change (zettel_fields z) with (take 5 (zettel_fields z) ++ [flags]). rewrite join_snoc by done.
    rewrite app_comm_cons, !app_assoc, last_app. destruct (last flags) eqn:El.
    + rewrite <- El. apply last_not_in. eapply (parts_without _ 65 90); [apply flag_chars|done|lia|done].
    + rewrite last_snoc. done.
Qed.

Lemma tunnel_line_ok t : tunnel_ok t → last (tn_label t) ≠ Some 13%Z → line_ok (print_tunnel t).
Proof.
  intros [Hl Hr [Hlab Hlf]] Hs. unfold print_tunnel. split.
  - rewrite !elem_of_app, elem_of_cons. intros [Hin|[Hin|[Hin|[Hin|[Hin|Hin]]]]]; try done; revert Hin;
      try (apply not_in_uint; lia); vm_compute; set_solver.
  - rewrite !app_assoc, last_app. destruct (tn_label t) as [|c l]; [done|].
    change (BAR :: c :: l) with ([BAR] ++ (c :: l)). rewrite last_app. destruct (last (c :: l)) eqn:El; [done|].
    by apply last_None in El.
Qed.

Lemma arc_line_ok a : arc_ok a → line_ok (print_arc a).
Proof.
  intros [Hne He]. assert (∀ c, (c < 45)%Z → c ∉ print_arc a) as Hc.
  { intros c Hc. unfold print_arc. rewrite elem_of_app. intros [Hin|Hin]; revert Hin.
    - intros Hin. assert (Forall (λ x, 45 <= x)%Z (chars_of "ARC:")) as Ha by (vm_compute; repeat constructor; done).
      rewrite Forall_forall in Ha. specialize (Ha _ Hin). simpl in Ha. lia.
    - apply not_in_join.
      + intros Hin. assert (Forall (λ x, 45 <= x)%Z ARROW) as Ha by (vm_compute; repeat constructor; done).
        rewrite Forall_forall in Ha. specialize (Ha _ Hin). simpl in Ha. lia.
      + eapply Forall_impl; [exact He|]. intros e [Hr _]%emotion_chars. eapply not_in_range; [exact Hr|lia]. }
  split; [apply Hc; lia|apply last_not_in, Hc; lia].
Qed.

Lemma print_line_ok l : body_line_ok l → printable_line l → line_ok (print_line l).
Proof. destruct l; simpl; auto using zettel_line_ok, tunnel_line_ok, arc_line_ok. Qed.

(** A digit opens a printed note. *)
Lemma print_zettel_head z : zettel_ok z → ∃ c rest, print_zettel z = c :: rest ∧ (48 <= c <= 57)%Z.
Proof.
  intros [Hid _]. unfold print_zettel. pose proof (print_uint_nonempty (z_id z)).
  pose proof (print_uint_digits (z_id z) ltac:(lia)) as Hd. destruct (print_uint (z_id z)) as [|c l]; [done|].
  apply Forall_cons in Hd as [Hc _]. simpl. eauto.
Qed.

Lemma print_line_visible l : body_line_ok l → trim (print_line l) ≠ [].
Proof.
  intros Hl. assert (∃ c rest, print_line l = c :: rest ∧ is_whitespace c = false) as (c & rest & -> & Hc).
  { destruct l as [z|t|a]; [|by eexists _, _..].
    destruct (print_zettel_head z Hl) as (c & rest & E & Hc). exists c, rest. split; [done|].
    unfold is_whitespace. repeat rewrite orb_false_iff. repeat split; lia. }
  by eapply (trim_nonempty _ 0).
Qed.

Lemma starts_with_head p ps c rest : p ≠ c → starts_with (p :: ps) (c :: rest) = false.
Proof.
  intros Hne. unfold starts_with. apply bool_decide_eq_false_2. simpl.
  destruct (Z.eqb_spec p c); [done|]. by intros [].
Qed.
Lemma starts_with_app p l : starts_with p (p ++ l) = true.
Proof. unfold starts_with. apply bool_decide_eq_true_2. rewrite strip_prefix_app. eauto. Qed.

(** The loop reads the printed lines back. *)
Lemma parse_body_print ls body zettels ids :
  Forall body_line_ok ls → Forall printable_line ls →
  NoDup (z_id <$> omap line_zettel ls) → (∀ z, z ∈ omap line_zettel ls → z_id z ∉ ids) →
  parse_body (print_line <$> ls) body zettels ids
  = Ok (body ++ ls, zettels ++ omap line_zettel ls, list_to_set (z_id <$> omap line_zettel ls) ∪ ids).
Proof.
  intros Hl. revert body zettels ids. induction Hl as [|l ls Hl Hls IH]; intros body zettels ids Hp Hnd Hids.
  { simpl. rewrite !app_nil_r. do 2 f_equal. set_solver. }
  apply Forall_cons in Hp as [Hp Hps]. rewrite fmap_cons. cbn [parse_body]. destruct l as [z|t|a]; simpl in Hl, Hp.
  - destruct (print_zettel_head z Hl) as (c & rest & E & Hc). cbn [print_line]. rewrite E.
    change (chars_of "T:") with (84%Z :: chars_of ":"). change (chars_of "ARC:") with (65%Z :: chars_of "RC:").
    rewrite !starts_with_head by lia. rewrite <- E, parse_print_zettel by done.
    simpl in Hnd, Hids. apply NoDup_cons in Hnd as [Hni Hnd].
    rewrite bool_decide_eq_false_2 by (apply Hids; left). rewrite IH; [|done|done|].
    + simpl. rewrite <- !app_assoc. do 2 f_equal. set_solver.
    + intros z' Hz'. rewrite elem_of_union, elem_of_singleton. intros [Heq|Hin].
      * apply Hni. rewrite <- Heq. by apply list_elem_of_fmap_2.
      * revert Hin. apply Hids. by right.
  - cbn [print_line]. rewrite (starts_with_app (chars_of "T:") _ : starts_with (chars_of "T:") (print_tunnel t) = true).
    rewrite parse_print_tunnel, IH by done. simpl. by rewrite <- app_assoc.
  - cbn [print_line]. rewrite (starts_with_head 84 (chars_of ":") 65 (chars_of "RC:" ++ join ARROW (arc_emotions a))
      ltac:(done) : starts_with (chars_of "T:") (print_arc a) = false).
    rewrite (starts_with_app (chars_of "ARC:") _ : starts_with (chars_of "ARC:") (print_arc a) = true).
    rewrite parse_print_arc, IH by done. simpl. by rewrite <- app_assoc.
Qed.

Lemma body_lines_ok d : document_ok d → body_lines d = ad_body d.
Proof.
  intros [_ _ Hz _ _]. unfold body_lines. destruct (ad_body d); [|done]. by rewrite Hz.
Qed.

Lemma visible_lines ls : Forall (λ l, trim l ≠ []) ls → filter (λ l : text, is_nil (trim l) = false) ls = ls.
Proof.
  induction 1 as [|l ls Hl Hls IH]; [done|]. rewrite filter_cons_True; [by rewrite IH|].
  by apply not_nil_is_nil.
Qed.

Lemma no_dangling ids body :
  (∀ t, LTunnel t ∈ body → tn_left t ∈ ids ∧ tn_right t ∈ ids) ↔ omap (dangling ids) body = [].
Proof.
  induction body as [|l body IH]; [split; [done|set_solver]|]. destruct l as [z|t|a]; simpl.
  1, 3: rewrite <- IH; split; intros H t Ht; apply H; set_solver.
  case_bool_decide as Hl; [case_bool_decide as Hr|]; simpl; [rewrite <- IH|..]; split; intros H.
  - intros t' Ht'. apply H. by right.
  - intros t' [[= <-]|Ht']%elem_of_cons; [done|by apply H].
  - destruct (H t); [left|done].
  - done.
  - destruct (H t); [left|done].
  - done.
Qed.

Lemma lines_no_feed s l : l ∈ lines s → 10%Z ∉ l.
Proof.
  unfold lines. assert (∀ cur, (10%Z ∉ cur) → l ∈ split_lines s cur → 10%Z ∉ l) as Hg; [|apply (Hg []); set_solver].
  induction s as [|c s IH]; intros cur Hcur; simpl.
  - destruct cur; [set_solver|]. intros ->%list_elem_of_singleton. by rewrite reverse_Permutation.
  - destruct (Z.eqb_spec c 10) as [->|Hc]; [|apply IH; set_solver].
    intros [->|Hl]%elem_of_cons; [|by apply (IH []); set_solver]. rewrite reverse_Permutation.
    repeat case_match; subst; set_solver.
Qed.

(** ** What the parser accepts *)
Lemma split_field_parts raw sep p : p ∈ split_field raw sep → p ≠ [] ∧ (sep ∉ p) ∧ p ⊆ raw.
Proof.
  unfold split_field. rewrite list_elem_of_filter. intros [Hn [Hs Hi]%split_on_parts].
  split; [by destruct p|done].
Qed.

Lemma parse_header_ok line h : 10%Z ∉ line → parse_header line = Ok h → header_ok h.
Proof.
  intros Hn. unfold parse_header. pose proof (split_on_parts BAR line) as Hp.
  destruct (split_on BAR line) as [|v [|w [|r [|d [|s [|]]]]]]; try done.
  destruct v as [|c digits]; [done|]. destruct (decide (c = 86%Z)) as [->|Hc].
  - destruct (parse_uint 255 digits) as [n|] eqn:En; [|done]. intros [= <-].
    apply parse_uint_range in En; [|lia]. split; [done|]. simpl.
    apply Forall_forall. intros p Hin. destruct (Hp p ltac:(by right)) as [Hb Hs]. split; [done|]. set_solver.
  - intros E. exfalso. revert E. repeat case_match; congruence.
Qed.

Lemma forallb_text_Forall (f : text → bool) l : forallb f l = true → Forall (λ x, f x = true) l.
Proof. intros Hl. rewrite forallb_forall in Hl. apply Forall_forall. intros x Hx. by apply Hl, list_elem_of_In. Qed.

Lemma parse_quote_part raw q : parse_quote raw = Some q → q ⊆ raw.
Proof.
  unfold parse_quote. destruct (_ <? 2); [done|]. destruct raw as [|c raw]; [done|]. case_match; [|done].
  intros [= <-] x Hx. right. by eapply subseteq_take.
Qed.

Lemma parse_weight_range raw w : parse_weight raw = Some w → (1 <= w <= 5)%Z.
Proof.
  unfold parse_weight. case_match; [done|]. destruct (Nat.leb_spec 1 (length raw)), (Nat.leb_spec (length raw) 5);
    simpl; try done. intros [= <-]. lia.
Qed.

Lemma parse_zettel_ok line z : 10%Z ∉ line → parse_zettel line = Ok z → zettel_ok z.
Proof.
  intros Hn. unfold parse_zettel. destruct (split_once 58 line) as [[id rest]|] eqn:Es; [|done].
  apply split_once_spec in Es as [-> _]. destruct (parse_uint usize_max id) as [i|] eqn:Ei; [|done].
  apply parse_uint_range in Ei; [|unfold usize_max, u64_max; lia].
  assert (10%Z ∉ rest) as Hr by set_solver. pose proof (split_on_parts BAR rest) as Hp.
  destruct (split_on BAR rest) as [|p0 [|p1 [|p2 [|p3 [|p4 [|p5 [|]]]]]]]; try done.
  assert (Forall field_ok [p0; p1; p2; p3; p4; p5]) as Hf.
  { apply Forall_forall. intros p Hin. destruct (Hp p Hin) as [Hb Hs]. split; [done|]. set_solver. }
  destruct (is_nil (split_field p0 43)) eqn:E0; [done|]. simpl.
  destruct (forallb is_entity_code _) eqn:E1; [|done]. simpl.
  destruct (is_nil (split_field p1 95)) eqn:E2; [done|].
  destruct (parse_quote p2) as [q|] eqn:Eq; [|done]. destruct (parse_weight p3) as [w|] eqn:Ew; [|done].
  destruct (is_nil (split_field p4 43)) eqn:E3; [done|]. simpl.
  destruct (forallb is_emotion_code _) eqn:E4; [|done]. simpl.
  destruct (is_nil (split_field p5 43)) eqn:E5; [done|]. simpl.
  destruct (forallb _ (split_field p5 43)) eqn:E6; [|done]. intros [= <-].
  rewrite !Forall_cons in Hf. destruct Hf as (_ & Hf1 & Hf2 & _).
  apply parse_quote_part in Eq. apply parse_weight_range in Ew. split; simpl; try done.
  - split; [by intros E; rewrite E in E0|by apply forallb_text_Forall].
  - split; [by intros E; rewrite E in E2|]. apply Forall_forall. intros t (Ht & Hs & Hi)%split_field_parts.
    destruct Hf1. unfold field_ok. set_solver.
  - destruct Hf2. unfold field_ok. set_solver.
  - split; [by intros E; rewrite E in E3|by apply forallb_text_Forall].
  - split; [by intros E; rewrite E in E5|]. apply forallb_text_Forall in E6. eapply Forall_impl; [exact E6|].
    intros f Hf. by apply bool_decide_eq_true in Hf.
Qed.

Lemma parse_tunnel_ok line t : 10%Z ∉ line → parse_tunnel line = Ok t → tunnel_ok t.
Proof.
  intros Hn. unfold parse_tunnel. destruct (strip_prefix _ line) as [rest|] eqn:Es; [|done].
  apply strip_prefix_spec in Es as ->. destruct (split_once BAR rest) as [[ends label]|] eqn:Eb; [|done].
  apply split_once_spec in Eb as [-> _]. destruct (is_nil (trim label)) eqn:El; [done|].
  destruct (split_once_tunnel ends) as [[l r]|]; [|done].
  destruct (parse_uint usize_max l) as [a|] eqn:Ea; [|done]. destruct (parse_uint usize_max r) as [b|] eqn:Ebb; [|done].
  intros [= <-]. apply parse_uint_range in Ea, Ebb; try (unfold usize_max, u64_max; lia).
  split; simpl; [done|done|]. split; [by intros E; rewrite E in El|set_solver].
Qed.

Lemma parse_arc_ok line a : parse_arc line = Ok a → arc_ok a.
Proof.
  unfold parse_arc. destruct (strip_prefix _ line) as [rest|]; [|done]. destruct (is_nil rest); [done|].
  destruct (is_nil (split_arrow rest)) eqn:En; [done|]. simpl. destruct (forallb _ _) eqn:Ef; [|done].
  intros [= <-]. split; simpl; [by intros E; rewrite E in En|by apply forallb_text_Forall].
Qed.

(** The loop keeps its three results in step. *)
Record parsed (body : list AaakLine) (zettels : list Zettel) (ids : gset Z) : Prop := {
  pd_lines : Forall body_line_ok body;
  pd_zettels : zettels = omap line_zettel body;
  pd_nodup : NoDup (z_id <$> zettels);
  pd_ids : ids = list_to_set (z_id <$> zettels);
}.

Lemma parse_body_ok ls body zettels ids body' zettels' ids' :
  Forall (λ l, 10%Z ∉ l) ls → parsed body zettels ids →
  parse_body ls body zettels ids = Ok (body', zettels', ids') → parsed body' zettels' ids'.
Proof.
  intros Hls. revert body zettels ids. induction Hls as [|line ls Hl Hls IH]; intros body zettels ids Hp;
    [by intros [= <- <- <-]|]. cbn [parse_body]. destruct Hp as [Hb Hz Hn Hi].
  destruct (starts_with (chars_of "T:") line).
  - destruct (parse_tunnel line) as [t|] eqn:E; [|done]. apply parse_tunnel_ok in E; [|done]. apply IH.
    split; [by apply Forall_app; split; [|apply Forall_singleton]| |done|done].
    rewrite omap_app. simpl. by rewrite app_nil_r.
  - destruct (starts_with (chars_of "ARC:") line).
    + destruct (parse_arc line) as [a|] eqn:E; [|done]. apply parse_arc_ok in E. apply IH.
      split; [by apply Forall_app; split; [|apply Forall_singleton]| |done|done].
      rewrite omap_app. simpl. by rewrite app_nil_r.
    + destruct (parse_zettel line) as [z|] eqn:E; [|done]. apply parse_zettel_ok in E; [|done].
      case_bool_decide as Hid; [done|]. apply IH.
      split; [by apply Forall_app; split; [|apply Forall_singleton]| | |].
      * rewrite omap_app. simpl. by rewrite Hz.
      * rewrite fmap_app. apply NoDup_app. split; [done|]. split; [|apply NoDup_singleton].
        intros x Hx ->%list_elem_of_singleton. apply Hid. rewrite Hi. by apply elem_of_list_to_set.
      * rewrite fmap_app, list_to_set_app_L. simpl. rewrite Hi. set_solver.
Qed.

Lemma parse_document_ok input d : parse_document input = Ok d → document_ok d.
Proof.
  unfold parse_document.
  assert (Forall (λ l, 10%Z ∉ l) (filter (λ l : text, is_nil (trim l) = false) (lines input))) as Hl.
  { apply Forall_forall. intros l [_ Hin]%list_elem_of_filter. by eapply lines_no_feed. }
  destruct (filter _ (lines input)) as [|first rest]; [done|]. apply Forall_cons in Hl as [Hf Hr].
  destruct (parse_header first) as [h|] eqn:Eh; [|done]. apply parse_header_ok in Eh; [|done].
  destruct (parse_body rest [] [] ∅) as [[[body zettels] ids]|] eqn:Eb; [|done].
  apply parse_body_ok in Eb as [Hb Hz Hn Hi]; [|done|by split; [constructor|done|constructor|done]].
  destruct (omap (dangling ids) body) eqn:Ed; [|done]. intros [= <-].
  split; simpl; try done. intros t Ht. rewrite Hi in Ed.
  pose proof (proj2 (no_dangling _ _) Ed t Ht) as [H1 H2]. by rewrite !elem_of_list_to_set in H1, H2.
Qed.

Lemma parse_printed d : document_ok d → printable d → parse_document (print_document d) = Ok d.
Proof.
  intros Hd [Hsrc Hp]. pose proof (body_lines_ok d Hd) as Hb. destruct Hd as [Hh Hl Hz Hn Ht].
  unfold parse_document, print_document. rewrite Hb.
  pose proof (header_line_ok _ Hh Hsrc) as Hhl.
  assert (Forall line_ok (print_line <$> ad_body d)) as Hlo.
  { apply Forall_fmap, Forall_forall. intros l Hin. rewrite Forall_forall in Hl, Hp. by apply print_line_ok; auto. }
  assert (Forall (λ l, trim l ≠ []) (print_line <$> ad_body d)) as Hv.
  { apply Forall_fmap. eapply Forall_impl; [exact Hl|]. intros l. apply print_line_visible. }
  rewrite lines_cons by done. rewrite lines_join; [|done|].
  2: { eapply Forall_impl; [exact Hv|]. intros l Hne ->. by apply Hne. }
  rewrite filter_cons_True; [|apply not_nil_is_nil; by eapply (trim_nonempty _ 0 86%Z)].
  rewrite visible_lines by done. rewrite parse_print_header by done.
  rewrite parse_body_print; [|done|done|by rewrite <- Hz|set_solver].
  cbn [app]. rewrite <- Hz, (union_empty_r_L (list_to_set _)).
  rewrite (proj1 (no_dangling _ (ad_body d))); [by destruct d|].
  intros t Hin. rewrite !elem_of_list_to_set. by apply Ht.
Qed.

(** ** Properties *)

(** C40: the parser is typed: whatever text it is given, a document it returns has
    entity codes of three capitals, topics, a weight of one to five stars, known
    emotions and flags; its note ids are distinct numbers, its tunnels join notes
    of the document, and the list of notes is that of the body. *)
Theorem parse_document_typed input d : parse_document input = Ok d → document_ok d.
Proof. apply parse_document_ok. Qed.

(** C39: printing and parsing are inverse on well-formed documents whose quotes have
    no quote character and whose lines do not end in a carriage return. *)
Theorem print_parse_document d : document_ok d → printable d → parse_document (print_document d) = Ok d.
Proof. apply parse_printed. Qed.

(** ** Concrete documents *)
Definition sample_zettel : Zettel :=
  Build_Zettel 0 [chars_of "UNK"] [chars_of "note"] (chars_of "use sqlite") 4 [chars_of "determ"] [chars_of "DECISION"].
Definition sample_document : AaakDocument :=
  Build_AaakDocument (Build_AaakHeader 1 (chars_of "wing") (chars_of "room") (chars_of "2026-04-15") [])
    [LZettel sample_zettel; LTunnel (Build_Tunnel 0 0 (chars_of "self"))] [sample_zettel].

Example sample_document_print :
  print_document sample_document
  = chars_of "V1|wing|room|2026-04-15|" ++ [10%Z] ++ chars_of "0:UNK|note|" ++ [QUOTE] ++ chars_of "use sqlite"
    ++ [QUOTE] ++ BAR :: [STAR; STAR; STAR; STAR] ++ chars_of "|determ|DECISION" ++ [10%Z] ++ chars_of "T:0<->0|self".
Proof. vm_compute. reflexivity. Qed.

Lemma parse_document_typed_witness : document_ok sample_document.
Proof. apply (parse_document_typed (print_document sample_document)). vm_compute. reflexivity. Defined.

Lemma print_parse_document_witness : parse_document (print_document sample_document) = Ok sample_document.
Proof.
  apply print_parse_document.
  - apply (parse_document_ok (print_document sample_document)). vm_compute. reflexivity.
  - split; [done|]. repeat constructor; vm_compute; set_solver.
Defined.
