(* ===== verification/AaakCodec.v ===== *)
(** * The AAAK codec

    [src/src/aaak/codec.rs] and [src/src/aaak/signals.rs]: a text is encoded as one
    note (its entities, topics, flags and emotions, and the text itself as the
    quote) and decoded by putting the names of entities back. Chinese segments are
    tagged by [jieba_rs], which is a parameter, as is the Unicode lower-casing of
    the standard library. *)

From Stdlib Require Import ZArith Lia String Ascii SpecFloat.
From stdpp Require Import base tactics list gmap numbers sets.
From S2P Require Import Prelude Chars Aaak.
Open Scope nat_scope.

(** ** What the codec is given *)
Class CodecEnv := {
  to_lowercase : text → text;
  jieba_tag : text → list (text * text);
}.

Definition is_ascii_alphabetic (c : Z) : bool := is_ascii_uppercase c || is_ascii_lowercase c.
Definition is_ascii_alphanumeric (c : Z) : bool := is_ascii_alphabetic c || ((48 <=? c) && (c <=? 57))%Z.

Definition ascii_lower (c : Z) : Z := if is_ascii_uppercase c then (c + 32)%Z else c.
Definition ascii_upper (c : Z) : Z := if is_ascii_lowercase c then (c - 32)%Z else c.

(** Lower-casing on ASCII words, and that the tagger cuts words out of its
    segment. *)
Class CodecLaws `{CodecEnv} : Prop := {
  lowercase_ascii : ∀ t, Forall (λ c, is_ascii_alphanumeric c = true) t → to_lowercase t = ascii_lower <$> t;
  jieba_words : ∀ segment word tag, (word, tag) ∈ jieba_tag segment → word ⊆ segment;
}.

Record AaakMeta := Build_AaakMeta { am_wing : text; am_room : text; am_date : text; am_source : text }.

(** The entries of the entity map, in the order its iterator yields them. *)
Record AaakCodec := Build_AaakCodec { entity_map : list (text * text); max_topics : nat }.

Definition DEFAULT_MAX_TOPICS : nat := 3.
Definition DEFAULT_EMOTION : string := "determ".
Definition DEFAULT_ENTITY_CODE : text := chars_of "UNK".

Local Open Scope string_scope.
Definition EMOTION_SIGNALS : list (text * string) :=
  [(chars_of "decided", "determ"); (chars_of "determined", "determ");
   (chars_of "prefer", "convict"); (chars_of "confident", "convict"); (chars_of "worried", "anx");
   (chars_of "anxious", "anx"); (chars_of "concern", "anx"); (chars_of "excited", "excite");
   (chars_of "frustrated", "frust"); (chars_of "confused", "confuse"); (chars_of "love", "love");
   (chars_of "hate", "rage"); (chars_of "hope", "hope"); (chars_of "fear", "fear");
   (chars_of "trust", "trust"); (chars_of "happy", "joy"); (chars_of "joy", "joy");
   (chars_of "sad", "grief"); (chars_of "grief", "grief"); (chars_of "surprised", "surpr");
   (chars_of "grateful", "grat"); (chars_of "curious", "curious"); (chars_of "wonder", "wonder");
   (chars_of "relieved", "relief"); (chars_of "satisf", "satis"); (chars_of "disappoint", "grief");
   (chars_of "vulnerable", "vul"); (chars_of "tender", "tender"); (chars_of "honest", "raw");
   (chars_of "doubt", "doubt"); (chars_of "exhaust", "exhaust"); (chars_of "warm", "warmth");
   (chars_of "humor", "humor"); (chars_of "funny", "humor"); (chars_of "peace", "peace");
   (chars_of "despair", "despair"); (chars_of "passion", "passion"); ([20915; 23450]%Z, "determ");
   ([30830; 23450]%Z, "determ"); ([25285; 24515]%Z, "anx"); ([28966; 34385]%Z, "anx");
   ([20852; 22859]%Z, "excite"); ([27822; 20007]%Z, "frust"); ([22256; 24785]%Z, "confuse");
   ([24320; 24515]%Z, "joy"); ([39640; 20852]%Z, "joy"); ([24754; 20260]%Z, "grief");
   ([24778; 35766]%Z, "surpr"); ([24863; 24681]%Z, "grat"); ([24863; 35874]%Z, "grat");
   ([22909; 22855]%Z, "curious"); ([20449; 20219]%Z, "trust"); ([24076; 26395]%Z, "hope");
   ([24656; 24807]%Z, "fear"); ([23475; 24597]%Z, "fear"); ([28385; 24847]%Z, "satis");
   ([22833; 26395]%Z, "grief"); ([36731; 26494]%Z, "relief"); ([25918; 24515]%Z, "relief");
   ([29233]%Z, "love"); ([24680]%Z, "rage"); ([24598; 24807]%Z, "fear");
   ([24179; 38745]%Z, "peace"); ([32477; 26395]%Z, "despair"); ([28909; 24773]%Z, "passion");
   ([24576; 30097]%Z, "doubt"); ([30130; 24811]%Z, "exhaust")].

Definition FLAG_SIGNALS : list (text * string) :=
  [(chars_of "decid", "DECISION"); (chars_of "chose", "DECISION"); (chars_of "switch", "DECISION");
   (chars_of "migrat", "DECISION"); (chars_of "replace", "DECISION");
   (chars_of "recommend", "DECISION"); (chars_of "because", "DECISION");
   (chars_of "found", "ORIGIN"); (chars_of "create", "ORIGIN"); (chars_of "start", "ORIGIN");
   (chars_of "born", "ORIGIN"); (chars_of "launch", "ORIGIN"); (chars_of "first time", "ORIGIN");
   (chars_of "core", "CORE"); (chars_of "fundamental", "CORE"); (chars_of "essential", "CORE");
   (chars_of "principle", "CORE"); (chars_of "belief", "CORE"); (chars_of "always", "CORE");
   (chars_of "turning point", "PIVOT"); (chars_of "changed everything", "PIVOT");
   (chars_of "realized", "PIVOT"); (chars_of "breakthrough", "PIVOT");
   (chars_of "epiphany", "PIVOT"); (chars_of "api", "TECHNICAL");
   (chars_of "database", "TECHNICAL"); (chars_of "architecture", "TECHNICAL");
   (chars_of "deploy", "TECHNICAL"); (chars_of "infrastructure", "TECHNICAL");
   (chars_of "framework", "TECHNICAL"); (chars_of "server", "TECHNICAL");
   (chars_of "config", "TECHNICAL"); (chars_of "auth", "TECHNICAL");
   (chars_of "token", "SENSITIVE"); (chars_of "password", "SENSITIVE");
   (chars_of "secret", "SENSITIVE"); (chars_of "credential", "SENSITIVE");
   (chars_of "private", "SENSITIVE"); (chars_of "sensitive", "SENSITIVE");
   (chars_of "pii", "SENSITIVE"); ([20915; 23450]%Z, "DECISION"); ([36873; 25321]%Z, "DECISION");
   ([20999; 25442]%Z, "DECISION"); ([36801; 31227]%Z, "DECISION"); ([26367; 25442]%Z, "DECISION");
   ([25512; 33616]%Z, "DECISION"); ([22240; 20026]%Z, "DECISION"); ([21019; 24314]%Z, "ORIGIN");
   ([21019; 31435]%Z, "ORIGIN"); ([24320; 22987]%Z, "ORIGIN"); ([31532; 19968; 27425]%Z, "ORIGIN");
   ([26680; 24515]%Z, "CORE"); ([22522; 26412]%Z, "CORE"); ([21407; 21017]%Z, "CORE");
   ([20449; 24565]%Z, "CORE"); ([36716; 25240]%Z, "PIVOT"); ([31361; 30772]%Z, "PIVOT");
   ([39039; 24735]%Z, "PIVOT"); ([25509; 21475]%Z, "TECHNICAL");
   ([25968; 25454; 24211]%Z, "TECHNICAL"); ([26550; 26500]%Z, "TECHNICAL");
   ([37096; 32626]%Z, "TECHNICAL"); ([26694; 26550]%Z, "TECHNICAL");
   ([26381; 21153; 22120]%Z, "TECHNICAL"); ([37197; 32622]%Z, "TECHNICAL");
   ([35748; 35777]%Z, "TECHNICAL"); ([23494; 30721]%Z, "SENSITIVE");
   ([23494; 38053]%Z, "SENSITIVE"); ([20973; 35777]%Z, "SENSITIVE"); ([38544; 31169]%Z, "SENSITIVE")].
Local Close Scope string_scope.

(** The words of [is_cjk_function_word]. *)
Definition CJK_FUNCTION_WORDS : list text :=
  [[25105; 20204]; [20320; 20204]; [20182; 20204]; [22905; 20204]; [23427; 20204]; [36825; 20010];
   [37027; 20010]; [36825; 20123]; [37027; 20123]; [20026; 20160; 20040]; [24590; 20040]; [20160;
   20040]; [22240; 20026]; [25152; 20197]; [20294; 26159]]%Z.

(** ** Text helpers *)

(** [str::split_whitespace]. *)
Fixpoint words_loop (l current : text) : list text :=
  match l with
  | [] => match current with [] => [] | _ => [reverse current] end
  | c :: rest =>
      if is_whitespace c then
        match current with
        | [] => words_loop rest []
        | _ => reverse current :: words_loop rest []
        end
      else words_loop rest (c :: current)
  end.
Definition split_whitespace (l : text) : list text := words_loop l [].

Definition normalize_whitespace (t : text) : text :=
  trim (replace_quotes (join [32%Z] (split_whitespace t))).

(** [str::contains]. *)
Fixpoint contains (needle l : text) : bool :=
  starts_with needle l || match l with [] => false | _ :: rest => contains needle rest end.

(** [seen.insert(x)] with the push it guards. *)
Definition push_new (l : list text) (x : text) : list text := if bool_decide (x ∈ l) then l else l ++ [x].

(** [char::encode_utf8]. *)
Definition utf8_bytes (c : Z) : list Z :=
  if (c <? 128)%Z then [c]
  else if (c <? 2048)%Z then [192 + Z.shiftr c 6; 128 + Z.land c 63]%Z
  else if (c <? 65536)%Z then [224 + Z.shiftr c 12; 128 + Z.land (Z.shiftr c 6) 63; 128 + Z.land c 63]%Z
  else [240 + Z.shiftr c 18; 128 + Z.land (Z.shiftr c 12) 63; 128 + Z.land (Z.shiftr c 6) 63;
        128 + Z.land c 63]%Z.

Definition stable_hash (t : text) : Z :=
  foldl (fun h byte => as_u64 (as_u64 (h * 31) + byte))%Z 0%Z (concat (utf8_bytes <$> t)).

Definition hash_letter (hash : Z) (i : Z) : Z := (65 + Z.land (Z.shiftr hash (i * 5)) 31 mod 26)%Z.

Definition default_entity_code (entity : text) : text :=
  let ascii_code := ascii_upper <$> take 3 (filter (fun c => is_ascii_alphabetic c = true) entity) in
  if 3 <=? length ascii_code then ascii_code
  else let hash := stable_hash entity in [hash_letter hash 0; hash_letter hash 1; hash_letter hash 2].

(** ** Segments *)
Inductive TextSegmentKind := AsciiWord | Cjk.
#[export] Instance segment_kind_eq_dec : EqDecision TextSegmentKind.
Proof. solve_decision. Defined.

Record TextSegment := Build_TextSegment { sg_kind : TextSegmentKind; sg_text : text }.

Definition is_cjk_ideograph (c : Z) : bool :=
  ((19968 <=? c) && (c <=? 40959))%Z || ((13312 <=? c) && (c <=? 19903))%Z
  || ((63744 <=? c) && (c <=? 64255))%Z.

Definition kind_of (c : Z) : option TextSegmentKind :=
  if is_ascii_alphanumeric c then Some AsciiWord else if is_cjk_ideograph c then Some Cjk else None.

(** The loop: the segment being read, newest character first. *)
Fixpoint segments_loop (l : text) (kind : option TextSegmentKind) (current : text) : list TextSegment :=
  let flush := match kind with
               | Some k => match current with [] => [] | _ => [Build_TextSegment k (reverse current)] end
               | None => []
               end in
  match l with
  | [] => flush
  | c :: rest =>
      match kind, kind_of c with
      | Some k, Some next =>
          if bool_decide (k = next) then segments_loop rest kind (c :: current)
          else Build_TextSegment k (reverse current) :: segments_loop rest (Some next) [c]
      | Some _, None => flush ++ segments_loop rest None []
      | None, Some next => segments_loop rest (Some next) [c]
      | None, None => segments_loop rest None []
      end
  end.
Definition text_segments (l : text) : list TextSegment := segments_loop l None [].

Definition looks_like_ascii_entity (token : text) : bool :=
  (2 <=? length token) && match token with c :: _ => is_ascii_uppercase c | [] => false end.

Definition is_cjk_function_word (word : text) : bool := bool_decide (word ∈ CJK_FUNCTION_WORDS).

(** Tags of proper nouns. *)
Definition is_proper_tag (tag : text) : bool :=
  starts_with (chars_of "nr") tag || bool_decide (tag = chars_of "ns") || bool_decide (tag = chars_of "nt")
  || bool_decide (tag = chars_of "nz").

Section codec.
Context `{CodecEnv}.

Definition extract_cjk_entities_from_segment (segment : text) : list text :=
  foldl (fun entities '(word, tag) =>
    if negb (is_proper_tag tag) || (length word <? 2) then entities else push_new entities word)
    [] (jieba_tag segment).

Definition extract_cjk_topics_from_segment (segment : text) : list text :=
  foldl (fun topics '(word, tag) =>
    if is_proper_tag tag then topics
    else if negb (bool_decide (default 32%Z (head tag) ∈ [110; 118; 97]%Z)) then topics
    else if length word <? 2 then topics
    else if is_cjk_function_word word then topics
    else push_new topics word)
    [] (jieba_tag segment).

Definition extract_entities (t : text) : list text :=
  foldl (fun entities segment =>
    match sg_kind segment with
    | AsciiWord => if looks_like_ascii_entity (sg_text segment) then push_new entities (sg_text segment) else entities
    | Cjk => foldl push_new entities (extract_cjk_entities_from_segment (sg_text segment))
    end) [] (text_segments t).

Definition STOP_WORDS : list text :=
  chars_of <$> ["the"; "and"; "for"; "with"; "over"; "based"; "this"; "that"; "was"; "use"; "why"]%string.

Definition extract_topics (t : text) : list text :=
  foldl (fun topics segment =>
    match sg_kind segment with
    | AsciiWord =>
        let token := to_lowercase (sg_text segment) in
        if is_nil token || bool_decide (token ∈ STOP_WORDS) then topics else push_new topics token
    | Cjk => foldl push_new topics (extract_cjk_topics_from_segment (sg_text segment))
    end) [] (text_segments t).

(** ** Signals *)
Definition detect (signals : list (text * string)) (otherwise : string) (t : text) : list text :=
  let lower := to_lowercase t in
  let found := foldl (fun found '(needle, name) =>
    if contains needle lower then push_new found (chars_of name) else found) [] signals in
  match found with [] => [chars_of otherwise] | _ => found end.

Definition detect_flags : text → list text := detect FLAG_SIGNALS "CORE".
Definition detect_emotions : text → list text := detect EMOTION_SIGNALS DEFAULT_EMOTION.

Definition infer_weight (flags : list text) : Z :=
  if bool_decide (chars_of "DECISION" ∈ flags) || bool_decide (chars_of "PIVOT" ∈ flags) then 4
  else if bool_decide (chars_of "TECHNICAL" ∈ flags) then 3
  else 2.

Record AaakSignals := Build_AaakSignals {
  as_entities : list text;
  as_topics : list text;
  as_flags : list text;
  as_emotions : list text;
  as_importance_stars : Z;
}.

Definition analyze (t : text) : AaakSignals :=
  let normalized := normalize_whitespace t in
  let entity_codes := foldl push_new [] (default_entity_code <$> extract_entities normalized) in
  let flags := detect_flags normalized in
  Build_AaakSignals (match entity_codes with [] => [DEFAULT_ENTITY_CODE] | _ => entity_codes end)
    (extract_topics normalized) flags (detect_emotions normalized) (infer_weight flags).

(** ** Decoding *)

(** [push_replacement] of the current token, newest character first. *)
Definition push_replacement (output token code name : text) : text :=
  match token with
  | [] => output
  | _ => output ++ (if bool_decide (reverse token = code) then name else reverse token)
  end.

Fixpoint replace_loop (l output token code name : text) : text :=
  match l with
  | [] => push_replacement output token code name
  | c :: rest =>
      if is_ascii_alphanumeric c then replace_loop rest output (c :: token) code name
      else replace_loop rest (push_replacement output token code name ++ [c]) [] code name
  end.
Definition replace_code (quote code name : text) : text := replace_loop quote [] [] code name.

Definition get_by_left (m : list (text * text)) (name : text) : option text :=
  (fun e => e.2.2) <$> list_find (fun e => e.1 = name) m.
Definition get_by_right (m : list (text * text)) (code : text) : option text :=
  (fun e => e.2.1) <$> list_find (fun e => e.2 = code) m.

Definition decode_zettel (codec : AaakCodec) (z : Zettel) : text :=
  let quote := foldl (fun quote entity =>
    match get_by_right (entity_map codec) entity with
    | Some name => replace_code quote entity name
    | None => quote
    end) (z_quote z) (z_entities z) in
  match quote with
  | [] => join [32%Z] ((fun entity => default entity (get_by_right (entity_map codec) entity)) <$> z_entities z)
  | _ => quote
  end.

Definition decode (codec : AaakCodec) (d : AaakDocument) : text :=
  join_lines (decode_zettel codec <$> zettel_lines d).

(** ** Encoding *)
Definition entity_code (codec : AaakCodec) (entity : text) : text :=
  default (default_entity_code entity) (get_by_left (entity_map codec) entity).

Definition ASSERTION_ENDS : list Z := [46; 33; 63; 59; 12290; 65281; 65311; 65307; 65292]%Z.

Fixpoint split_any (seps : list Z) (l : text) : list text :=
  match l with
  | [] => [[]]
  | c :: rest =>
      if bool_decide (c ∈ seps) then [] :: split_any seps rest
      else match split_any seps rest with [] => [[c]] | p :: ps => (c :: p) :: ps end
  end.

Definition split_assertions (t : text) : list text :=
  filter (fun item => is_nil item = false) (normalize_whitespace <$> split_any ASSERTION_ENDS t).

(** [f32] of a count, and the quotient. *)
Definition f32_of_nat (n : nat) : spec_float := binary_normalize 24 128 (Z.of_nat n) 0 false.

Record RoundtripReport := Build_RoundtripReport {
  rr_preserved : list text;
  rr_lost : list text;
  rr_coverage : spec_float;
}.

Definition verify_roundtrip (codec : AaakCodec) (original : text) (d : AaakDocument) : RoundtripReport :=
  let decoded := to_lowercase (normalize_whitespace (decode codec d)) in
  let assertions := split_assertions original in
  match assertions with
  | [] => Build_RoundtripReport [] [] (f32_of_nat 1)
  | _ =>
      let holds assertion := contains (to_lowercase assertion) decoded in
      let preserved := filter (fun a => holds a = true) assertions in
      let lost := filter (fun a => holds a = false) assertions in
      Build_RoundtripReport preserved lost
        (SFdiv 24 128 (f32_of_nat (length preserved)) (f32_of_nat (length preserved + length lost)))
  end.

Record EncodeReport := Build_EncodeReport {
  er_topics_truncated : nat;
  er_key_sentence_truncated : bool;
  er_coverage : spec_float;
  er_lost_assertions : list text;
}.

Record EncodeOutput := Build_EncodeOutput { eo_document : AaakDocument; eo_report : EncodeReport }.

Definition encode (codec : AaakCodec) (t : text) (meta : AaakMeta) : EncodeOutput :=
  let normalized := normalize_whitespace t in
  let all_topics := extract_topics normalized in
  let topics := take (max_topics codec) all_topics in
  let topics_truncated := length all_topics - max_topics codec in
  let known_codes := foldl (fun codes '(name, code) =>
    if contains name normalized then push_new codes code else codes) [] (entity_map codec) in
  let entity_codes := foldl push_new known_codes (entity_code codec <$> extract_entities normalized) in
  let entities := match entity_codes with [] => [DEFAULT_ENTITY_CODE] | _ => entity_codes end in
  let flags := detect_flags normalized in
  let emotions := detect_emotions normalized in
  let zettel := Build_Zettel 0 entities (match topics with [] => [chars_of "note"] | _ => topics end)
                  normalized (infer_weight flags) emotions flags in
  let document := Build_AaakDocument
    (Build_AaakHeader 1 (am_wing meta) (am_room meta) (am_date meta) (am_source meta))
    [LZettel zettel] [zettel] in
  let roundtrip := verify_roundtrip codec t document in
  Build_EncodeOutput document
    (Build_EncodeReport topics_truncated false (rr_coverage roundtrip) (rr_lost roundtrip)).
End codec.

(** ** Parts of a text *)
Lemma words_loop_spec l current w :
  Forall (λ c, is_whitespace c = false) current → w ∈ words_loop l current →
  Forall (λ c, is_whitespace c = false) w ∧ w ⊆ l ++ current.
Proof.
  revert current. induction l as [|c l IH]; intros current Hc; simpl.
  - destruct current as [|x cur]; [set_solver|]. intros ->%list_elem_of_singleton.
    rewrite reverse_Permutation. done.
  - destruct (is_whitespace c) eqn:Hw.
    + assert (w ∈ words_loop l [] → Forall (λ c, is_whitespace c = false) w ∧ w ⊆ c :: l ++ current) as Hrest.
      { intros Hin. destruct (IH [] ltac:(constructor) Hin) as [? Hs]. rewrite app_nil_r in Hs. split; [done|set_solver]. }
      destruct current as [|x cur]; [done|]. intros [->|Hin]%elem_of_cons; [|by apply Hrest].
      rewrite reverse_Permutation. split; [done|set_solver].
    + intros Hin. destruct (IH (c :: current) ltac:(by constructor) Hin) as [? Hs]. split; [done|set_solver].
Qed.

Lemma elem_of_trim c l : c ∈ trim l → c ∈ l.
Proof. destruct (trim_middle l) as (a & b & E & _). rewrite E at 2. set_solver. Qed.

Lemma elem_of_join sep ps c : c ∈ join sep ps → c ∈ sep ∨ ∃ p, p ∈ ps ∧ c ∈ p.
Proof.
  induction ps as [|p ps IH]; [set_solver|]. destruct ps as [|q ps]; [set_solver|].
  rewrite join_cons, !elem_of_app. intros [Hc|[Hc|Hc]]; [set_solver|set_solver|]. destruct (IH Hc); set_solver.
Qed.

(** What normalization leaves: characters of the text, spaces and apostrophes. *)
Lemma normalize_chars t c :
  c ∈ normalize_whitespace t → c ≠ QUOTE ∧ c ≠ 10%Z ∧ (c ∈ t ∨ c = 32%Z ∨ c = 39%Z).
Proof.
  unfold normalize_whitespace, replace_quotes. intros (d & -> & Hd)%elem_of_trim%list_elem_of_fmap.
  destruct (Z.eqb_spec d QUOTE); [by split_and!; auto|].
  apply elem_of_join in Hd as [Hd|(w & Hw & Hd)].
  - apply list_elem_of_singleton in Hd as ->. split_and!; auto; done.
  - unfold split_whitespace in Hw. apply words_loop_spec in Hw as [Hf Hs]; [|constructor].
    rewrite Forall_forall in Hf. specialize (Hf _ Hd). simpl in Hf. split; [done|]. split; [by intros ->|].
    left. set_solver.
Qed.

Definition segment_ok (s : TextSegment) : Prop :=
  sg_text s ≠ [] ∧
  match sg_kind s with
  | AsciiWord => Forall (λ c, is_ascii_alphanumeric c = true) (sg_text s)
  | Cjk => Forall (λ c, is_cjk_ideograph c = true) (sg_text s)
  end.

Lemma kind_of_spec c k :
  kind_of c = Some k →
  match k with AsciiWord => is_ascii_alphanumeric c = true | Cjk => is_cjk_ideograph c = true end.
Proof. unfold kind_of. repeat case_match; naive_solver. Qed.

Lemma reverse_nonempty (l : text) : l ≠ [] → reverse l ≠ [].
Proof. intros Hl E. apply Hl. by rewrite <- (reverse_involutive l), E. Qed.

Lemma segments_loop_ok l kind current :
  match kind with
  | Some k => segment_ok (Build_TextSegment k (reverse current))
  | None => current = []
  end → Forall segment_ok (segments_loop l kind current).
Proof.
  revert kind current. induction l as [|c l IH]; intros kind current Hk; simpl.
  - destruct kind as [k|]; [|constructor]. destruct current as [|x cur]; [constructor|]. by constructor.
  - assert (∀ k, kind_of c = Some k → segment_ok (Build_TextSegment k (reverse [c]))) as Hone.
    { intros k Hc%kind_of_spec. split; [done|]. simpl. destruct k; by apply Forall_singleton. }
    destruct kind as [k|], (kind_of c) as [next|] eqn:Hc.
    + case_bool_decide as Heq.
      * subst next. apply IH. destruct Hk as [_ Hall]. apply kind_of_spec in Hc. split; simpl.
        { by apply reverse_nonempty. }
        simpl in Hall. destruct k; rewrite reverse_Permutation in Hall |- *; by apply Forall_cons.
      * constructor; [done|]. apply IH. by apply Hone.
    + apply Forall_app. split; [|by apply IH]. destruct current; [constructor|by constructor].
    + apply IH. by apply Hone.
    + by apply IH.
Qed.

Lemma text_segments_ok l : Forall segment_ok (text_segments l).
Proof. by apply segments_loop_ok. Qed.

(** A fold that only pushes keeps a property of what it pushes. *)
Lemma push_new_Forall (P : text → Prop) l x : Forall P l → P x → Forall P (push_new l x).
Proof. intros Hl Hx. unfold push_new. case_bool_decide; [done|]. apply Forall_app. split; [done|]. by constructor. Qed.

Lemma foldl_Forall {A} (P : text → Prop) (Q : A → Prop) (f : list text → A → list text) l acc :
  (∀ acc a, Q a → Forall P acc → Forall P (f acc a)) → Forall Q l → Forall P acc → Forall P (foldl f acc l).
Proof. intros Hf Hl. revert acc. induction Hl; intros acc Ha; simpl; auto. Qed.

Lemma foldl_push_Forall (P : text → Prop) l acc : Forall P l → Forall P acc → Forall P (foldl push_new acc l).
Proof. intros Hl. apply foldl_Forall with (Q := P); [|done]. auto using push_new_Forall. Qed.

(** ** What the encoder writes *)
Lemma alnum_range c :
  is_ascii_alphanumeric c = true → (48 <= c <= 57 ∨ 65 <= c <= 90 ∨ 97 <= c <= 122)%Z.
Proof.
  unfold is_ascii_alphanumeric, is_ascii_alphabetic, is_ascii_uppercase, is_ascii_lowercase.
  rewrite !orb_true_iff, !andb_true_iff, !Z.leb_le. lia.
Qed.

Lemma ascii_lower_range c :
  is_ascii_alphanumeric c = true → (48 <= ascii_lower c <= 57 ∨ 97 <= ascii_lower c <= 122)%Z.
Proof.
  intros Hc%alnum_range. unfold ascii_lower, is_ascii_uppercase.
  destruct (Z.leb_spec 65 c), (Z.leb_spec c 90); simpl; lia.
Qed.

Lemma cjk_range c : is_cjk_ideograph c = true → (13312 <= c)%Z.
Proof. unfold is_cjk_ideograph. rewrite !orb_true_iff, !andb_true_iff, !Z.leb_le. lia. Qed.

(** A topic: not empty, and no character of the notation. *)
Definition topic_ok (t : text) : Prop := t ≠ [] ∧ (95%Z ∉ t) ∧ field_ok t.

Lemma topic_of_range t :
  t ≠ [] → Forall (λ c, 48 <= c <= 57 ∨ 97 <= c <= 122 ∨ 13312 <= c)%Z t → topic_ok t.
Proof.
  intros Hne Ht. rewrite Forall_forall in Ht.
  split_and!; [done|..]; try split; intros Hin; specialize (Ht _ Hin); unfold BAR in *; simpl in Ht; lia.
Qed.

Lemma hash_letter_upper h i : is_ascii_uppercase (hash_letter h i) = true.
Proof.
  unfold hash_letter, is_ascii_uppercase. pose proof (Z.mod_pos_bound (Z.land (Z.shiftr h (i * 5)) 31) 26 ltac:(lia)).
  rewrite andb_true_iff, !Z.leb_le. lia.
Qed.

Lemma ascii_upper_alpha c : is_ascii_alphabetic c = true → is_ascii_uppercase (ascii_upper c) = true.
Proof.
  unfold is_ascii_alphabetic, ascii_upper. destruct (is_ascii_lowercase c) eqn:E.
  - intros _. apply lower_range in E. unfold is_ascii_uppercase. rewrite andb_true_iff, !Z.leb_le. lia.
  - by rewrite orb_false_r.
Qed.

Lemma default_entity_code_ok entity : is_entity_code (default_entity_code entity) = true.
Proof.
  unfold default_entity_code. set (letters := take 3 _). destruct (Nat.leb_spec 3 (length (ascii_upper <$> letters))).
  - assert (length (ascii_upper <$> letters) = 3) as Hl.
    { rewrite length_fmap in *. unfold letters in *. rewrite length_take in *. lia. }
    unfold is_entity_code. rewrite Hl. simpl. apply forallb_forall. intros c Hc%list_elem_of_In.
    apply list_elem_of_fmap in Hc as (d & -> & Hd). apply ascii_upper_alpha.
    unfold letters in Hd. apply subseteq_take in Hd. by apply list_elem_of_filter in Hd as [? _].
  - unfold is_entity_code. simpl. by rewrite !hash_letter_upper.
Qed.

Section encode.
Context `{CodecLaws}.

Lemma cjk_topics_ok segment :
  Forall (λ c, is_cjk_ideograph c = true) segment → Forall topic_ok (extract_cjk_topics_from_segment segment).
Proof.
  intros Hs. unfold extract_cjk_topics_from_segment.
  apply foldl_Forall with (Q := λ wt, wt ∈ jieba_tag segment); [|by apply Forall_forall|constructor].
  intros acc [word tag] Hin Hacc. repeat case_match; try done. apply push_new_Forall; [done|].
  apply topic_of_range; [by intros ->|]. apply Forall_forall. intros c Hc. right. right. apply cjk_range.
  rewrite Forall_forall in Hs. apply Hs. by eapply jieba_words.
Qed.

Lemma extract_topics_ok t : Forall topic_ok (extract_topics t).
Proof.
  unfold extract_topics. apply foldl_Forall with (Q := segment_ok); [|apply text_segments_ok|constructor].
  intros acc [kind word] [Hne Hseg] Hacc. simpl in *. destruct kind.
  - case_match; [done|]. apply push_new_Forall; [done|]. rewrite lowercase_ascii by done.
    apply topic_of_range; [by destruct word|]. apply Forall_fmap. eapply Forall_impl; [exact Hseg|].
    intros c Hc%ascii_lower_range. simpl. lia.
  - apply foldl_push_Forall; [by apply cjk_topics_ok|done].
Qed.

Lemma detect_ok (P : text → Prop) signals otherwise t :
  Forall (λ s, P (chars_of s.2)) signals → P (chars_of otherwise) →
  detect signals otherwise t ≠ [] ∧ Forall P (detect signals otherwise t).
Proof.
  intros Hs Ho. unfold detect. set (found := foldl _ _ _).
  assert (Forall P found) as Hf.
  { apply foldl_Forall with (Q := λ s, P (chars_of s.2)); [|done|constructor]. intros acc [needle name] Hn Ha.
    case_match; [by apply push_new_Forall|done]. }
  destruct found; [|done]. split; [done|]. by constructor.
Qed.

Lemma flag_signals_ok : Forall (λ s, chars_of s.2 ∈ ALLOWED_FLAGS) FLAG_SIGNALS.
Proof. apply (bool_decide_unpack _). vm_compute. exact I. Qed.

Lemma emotion_signals_ok : Forall (λ s, is_emotion_code (chars_of s.2) = true) EMOTION_SIGNALS.
Proof. apply (bool_decide_unpack _). vm_compute. exact I. Qed.

Lemma infer_weight_range flags : (1 <= infer_weight flags <= 5)%Z.
Proof. unfold infer_weight. repeat case_match; lia. Qed.

(** The aliases of a codec are entity codes, and the metadata are header fields. *)
Definition codec_ok (codec : AaakCodec) : Prop := Forall (λ e, is_entity_code e.2 = true) (entity_map codec).
Definition meta_ok (meta : AaakMeta) : Prop :=
  Forall field_ok [am_wing meta; am_room meta; am_date meta; am_source meta] ∧ last (am_source meta) ≠ Some 13%Z.

Lemma entity_code_ok codec entity : codec_ok codec → is_entity_code (entity_code codec entity) = true.
Proof.
  intros Hc. unfold entity_code, get_by_left. destruct (list_find _ _) as [[i [name code]]|] eqn:E; simpl.
  - apply list_find_Some in E as (Hl & _). unfold codec_ok in Hc. rewrite Forall_forall in Hc.
    apply (Hc (name, code)). by eapply list_elem_of_lookup_2.
  - apply default_entity_code_ok.
Qed.

Lemma or_default {A} (P : A → Prop) (l : list A) x :
  Forall P l → P x → match l with [] => [x] | _ => l end ≠ [] ∧ Forall P (match l with [] => [x] | _ => l end).
Proof. destruct l; [|done]. intros _ Hx. split; [done|]. by constructor. Qed.

Lemma encode_document_ok codec t meta :
  codec_ok codec → meta_ok meta → BAR ∉ t →
  document_ok (eo_document (encode codec t meta)) ∧ printable (eo_document (encode codec t meta)).
Proof.
  intros Hc [Hm Hsrc] Hb. set (normalized := normalize_whitespace t).
  assert (field_ok normalized ∧ (QUOTE ∉ normalized)) as [Hq Hnq].
  { split; [split|]; intros Hin; apply normalize_chars in Hin as (? & ? & Hin); try done.
    by destruct Hin as [?|[?|?]]. }
  assert (zettel_ok (match ad_zettels (eo_document (encode codec t meta)) with z :: _ => z | [] => Build_Zettel 0 [] [] [] 0 [] [] end)) as Hz.
  { simpl. fold normalized. split; simpl; [unfold usize_max, u64_max; lia| | |done| | |].
    - apply (or_default (λ e, is_entity_code e = true)); [|done]. apply foldl_push_Forall.
      + apply Forall_fmap, Forall_forall. intros e _. by apply entity_code_ok.
      + apply foldl_Forall with (Q := λ e : text * text, is_entity_code e.2 = true); [|done|constructor].
        intros acc [name code] Hcode Hacc. case_match; [by apply push_new_Forall|done].
    - apply (or_default topic_ok); [apply Forall_take, extract_topics_ok|].
      apply topic_of_range; [done|]. apply (bool_decide_unpack _). vm_compute. exact I.
    - apply infer_weight_range.
    - apply detect_ok; [apply emotion_signals_ok|done].
    - apply detect_ok; [apply flag_signals_ok|]. vm_compute. set_solver. }
  split.
  - split; simpl; [by split; simpl; [lia|]|by constructor|done|apply NoDup_singleton|].
    intros tn Ht. by apply list_elem_of_singleton in Ht.
  - split; [done|]. by constructor.
Qed.

(** What the codec encodes can be read back: for metadata and a text without
    the field separator, and aliases that are entity codes, the printed document
    parses to the document that was encoded. *)
Theorem encode_parses codec t meta :
  codec_ok codec → meta_ok meta → BAR ∉ t →
  parse_document (print_document (eo_document (encode codec t meta))) = Ok (eo_document (encode codec t meta)).
Proof. intros Hc Hm Hb. by apply parse_printed; apply encode_document_ok. Qed.
End encode.

(** ** Concrete texts *)
#[export] Instance ascii_env : CodecEnv | 100 :=
  {| to_lowercase t := ascii_lower <$> t; jieba_tag _ := [] |}.
#[export] Instance ascii_laws : CodecLaws.
Proof. split; [done|]. intros segment word tag Hin. by apply elem_of_nil in Hin. Qed.

Definition plain_codec : AaakCodec := Build_AaakCodec [(chars_of "Alice", chars_of "ALC")] DEFAULT_MAX_TOPICS.
Definition plain_meta : AaakMeta := Build_AaakMeta (chars_of "wing") (chars_of "room") (chars_of "2026-04-15") [].

Lemma encode_parses_witness :
  parse_document (print_document (eo_document (encode plain_codec (chars_of "Alice decided on SQLite") plain_meta)))
  = Ok (eo_document (encode plain_codec (chars_of "Alice decided on SQLite") plain_meta)).
Proof.
  apply encode_parses.
  - by apply Forall_singleton.
  - split; [|done]. apply (bool_decide_unpack _). vm_compute. exact I.
  - apply (bool_decide_unpack _). vm_compute. exact I.
Defined.

(** A text with the field separator is encoded as a document that does not parse. *)
Example encode_bar_unparsable :
  parse_document (print_document (eo_document (encode plain_codec (chars_of "a|b") plain_meta)))
  = Err (InvalidZettel (print_zettel (Build_Zettel 0 [chars_of "UNK"] [chars_of "a"; chars_of "b"] (chars_of "a|b") 2
                          [chars_of "determ"] [chars_of "CORE"]))).
Proof. vm_compute. reflexivity. Qed.
