(* ===== verification/Drawer.v ===== *)
(** * Drawers: the record of one memory

    The types of [src/src/core/types.rs], the anchors of [src/src/core/anchor.rs]
    and the column encodings of [src/src/core/db.rs]: how a [Drawer] becomes a row
    of the [drawers] table and how a row becomes a [Drawer] again. A decimal [f64]
    is the rational number its literal denotes; the JSON columns go through the
    serializer, a parameter with its round-trip law. *)

From Stdlib Require Import ZArith QArith Lia String Ascii.
From stdpp Require Import base tactics list gmap strings numbers.
From S2P Require Import Prelude Text.
Close Scope Q_scope.
Open Scope Z_scope.
Open Scope string_scope.
Open Scope rust_scope.

(** ** Enumerations *)
Inductive SourceType := AgentInference | UserExplicit | AgentObservation | SystemGenerated | Manual.
Inductive MemoryKind :=
  | Evidence | Knowledge | AtomicFact | Decision | Case | Skill | Foresight | ProfileFact | ProfileTrait.
Inductive MemoryDomain := DomainProject | DomainUser | DomainAgent | DomainSkill | DomainGlobal.
Inductive AnchorKind := AnchorGlobal | AnchorRepo | AnchorWorktree.
Inductive Provenance := Runtime | Research | Human.
Inductive KnowledgeTier := Qi | Shu | DaoRen | DaoTian.
Inductive KnowledgeStatus :=
  | Active | Superseded | PendingReview | Candidate | Promoted | Canonical | Demoted | Retired.

#[export] Instance SourceType_eq_dec : EqDecision SourceType.
Proof. solve_decision. Defined.
#[export] Instance MemoryKind_eq_dec : EqDecision MemoryKind.
Proof. solve_decision. Defined.
#[export] Instance MemoryDomain_eq_dec : EqDecision MemoryDomain.
Proof. solve_decision. Defined.
#[export] Instance AnchorKind_eq_dec : EqDecision AnchorKind.
Proof. solve_decision. Defined.
#[export] Instance Provenance_eq_dec : EqDecision Provenance.
Proof. solve_decision. Defined.
#[export] Instance KnowledgeTier_eq_dec : EqDecision KnowledgeTier.
Proof. solve_decision. Defined.
#[export] Instance KnowledgeStatus_eq_dec : EqDecision KnowledgeStatus.
Proof. solve_decision. Defined.

Definition source_type_as_str (t : SourceType) : string :=
  match t with
  | UserExplicit => "user_explicit"
  | AgentObservation => "agent_observation"
  | AgentInference => "agent_inference"
  | SystemGenerated => "system_generated"
  | Manual => "manual"
  end.

Definition memory_kind_as_str (k : MemoryKind) : string :=
  match k with
  | Evidence => "evidence"
  | Knowledge => "knowledge"
  | AtomicFact => "atomic_fact"
  | Decision => "decision"
  | Case => "case"
  | Skill => "skill"
  | Foresight => "foresight"
  | ProfileFact => "profile_fact"
  | ProfileTrait => "profile_trait"
  end.

Definition memory_domain_as_str (d : MemoryDomain) : string :=
  match d with
  | DomainProject => "project"
  | DomainUser => "user"
  | DomainAgent => "agent"
  | DomainSkill => "skill"
  | DomainGlobal => "global"
  end.

Definition anchor_kind_as_str (a : AnchorKind) : string :=
  match a with AnchorGlobal => "global" | AnchorRepo => "repo" | AnchorWorktree => "worktree" end.

Definition provenance_as_str (p : Provenance) : string :=
  match p with Runtime => "runtime" | Research => "research" | Human => "human" end.

Definition knowledge_tier_as_str (t : KnowledgeTier) : string :=
  match t with Qi => "qi" | Shu => "shu" | DaoRen => "dao_ren" | DaoTian => "dao_tian" end.

Definition knowledge_status_as_str (s : KnowledgeStatus) : string :=
  match s with
  | Active => "active"
  | Superseded => "superseded"
  | PendingReview => "pending_review"
  | Candidate => "candidate"
  | Promoted => "promoted"
  | Canonical => "canonical"
  | Demoted => "demoted"
  | Retired => "retired"
  end.

(** ** Errors of the store *)
Inductive StoreError :=
  | InvalidSourceType (value : string)
  | InvalidEnumValue (kind value : string)
  | InvalidDrawerMetadata (message : string)
  | JsonError
  | ConstraintViolation
  | NoRows
  | ReplacementTargetConflict
  | SupersededDrawerNotFound (drawer_id : string)
  | SupersededDrawerProjectMismatch (drawer_id : string) (expected actual : option string)
  | ReplacementTextNotFound
  | ReplacementTextAmbiguous (candidate_ids : list string)
  | CompactionClusterEmpty
  | CompactionDrawerNotFound (drawer_id : string)
  | AuditFailed.

#[export] Instance StoreError_eq_dec : EqDecision StoreError.
Proof. solve_decision. Defined.

(** ** Reading the encodings

    The legacy source types of older schemas are accepted when a row is read. *)
Definition source_type_from_str (value : string) : result SourceType StoreError :=
  if value =? "user_explicit" then Ok UserExplicit
  else if value =? "agent_observation" then Ok AgentObservation
  else if value =? "agent_inference" then Ok AgentInference
  else if value =? "system_generated" then Ok SystemGenerated
  else if (value =? "manual") || (value =? "project") then Ok AgentInference
  else if value =? "conversation" then Ok AgentObservation
  else Err (InvalidSourceType value).

(** The reader of an enumeration: the value of the first slug that is the text. *)
Fixpoint from_slug {A} (as_str : A → string) (kind value : string) (values : list A) : result A StoreError :=
  match values with
  | [] => Err (InvalidEnumValue kind value)
  | v :: rest => if value =? as_str v then Ok v else from_slug as_str kind value rest
  end.

Definition memory_kind_from_str (value : string) : result MemoryKind StoreError :=
  from_slug memory_kind_as_str "memory_kind" value
    [Evidence; Knowledge; AtomicFact; Decision; Case; Skill; Foresight; ProfileFact; ProfileTrait].

Definition memory_domain_from_str (value : string) : result MemoryDomain StoreError :=
  from_slug memory_domain_as_str "domain" value [DomainProject; DomainUser; DomainAgent; DomainSkill; DomainGlobal].

Definition anchor_kind_from_str (value : string) : result AnchorKind StoreError :=
  from_slug anchor_kind_as_str "anchor_kind" value [AnchorGlobal; AnchorRepo; AnchorWorktree].

Definition provenance_from_str (value : string) : result Provenance StoreError :=
  from_slug provenance_as_str "provenance" value [Runtime; Research; Human].

Definition knowledge_tier_from_str (value : string) : result KnowledgeTier StoreError :=
  from_slug knowledge_tier_as_str "tier" value [Qi; Shu; DaoRen; DaoTian].

Definition knowledge_status_from_str (value : string) : result KnowledgeStatus StoreError :=
  from_slug knowledge_status_as_str "status" value
    [Active; Superseded; PendingReview; Candidate; Promoted; Canonical; Demoted; Retired].

(** [Option::map(f).transpose()]. *)
Definition traverse {A B E} (f : A → result B E) (o : option A) : result (option B) E :=
  match o with
  | None => Ok None
  | Some a => let? b := f a in Ok (Some b)
  end.

(** ** Anchors *)
Definition LEGACY_REPO_ANCHOR_ID : string := "repo://legacy".
Definition DEFAULT_FIELD : string := "general".

Definition validate_anchor_domain (domain : MemoryDomain) (anchor_kind : AnchorKind) : result unit string :=
  match anchor_kind, domain with
  | AnchorGlobal, DomainGlobal => Ok tt
  | AnchorGlobal, _ => Err "global anchor requires domain=global"
  | _, _ => Ok tt
  end.

Definition anchor_prefix (kind : AnchorKind) : string :=
  match kind with AnchorGlobal => "global://" | AnchorRepo => "repo://" | AnchorWorktree => "worktree://" end.

(** [str::strip_prefix]. *)
Fixpoint str_strip_prefix (prefix s : string) : option string :=
  match prefix, s with
  | EmptyString, _ => Some s
  | String p ps, String c rest => if Ascii.eqb p c then str_strip_prefix ps rest else None
  | String _ _, EmptyString => None
  end.

Definition str_starts_with (prefix s : string) : bool :=
  match str_strip_prefix prefix s with Some _ => true | None => false end.

(** The error names the kind, the prefix expected and the anchor. *)
Definition validate_explicit_anchor (kind : AnchorKind) (anchor_id : string) : result unit (string * string * string) :=
  match str_strip_prefix (anchor_prefix kind) anchor_id with
  | None => Err (anchor_kind_as_str kind, anchor_prefix kind, anchor_id)
  | Some rest =>
      if is_empty (trim rest) then Err (anchor_kind_as_str kind, anchor_prefix kind, anchor_id) else Ok tt
  end.

Definition bootstrap_anchor : AnchorKind * string * option string := (AnchorRepo, LEGACY_REPO_ANCHOR_ID, None).

Definition bootstrap_provenance (t : SourceType) : Provenance :=
  match t with
  | UserExplicit | AgentObservation => Human
  | AgentInference | Manual => Research
  | SystemGenerated => Runtime
  end.

Definition default_confidence (t : SourceType) : Q :=
  match t with
  | UserExplicit => 9 # 10
  | AgentObservation => 7 # 10
  | AgentInference | Manual => 5 # 10
  | SystemGenerated => 3 # 10
  end.

(** ** The record *)
Record TriggerHints := MkTriggerHints {
  intent_tags : list string;
  workflow_bias : list string;
  tool_needs : list string;
}.

Record Drawer := MkDrawer {
  d_id : string;
  d_content : string;
  d_wing : string;
  d_room : option string;
  d_source_file : option string;
  d_source_type : SourceType;
  d_confidence : Q;
  d_added_at : string;
  d_chunk_index : option Z;
  d_normalize_version : Z;
  d_importance : Z;
  d_memory_kind : MemoryKind;
  d_domain : MemoryDomain;
  d_field : string;
  d_anchor_kind : AnchorKind;
  d_anchor_id : string;
  d_parent_anchor_id : option string;
  d_provenance : option Provenance;
  d_statement : option string;
  d_tier : option KnowledgeTier;
  d_status : option KnowledgeStatus;
  d_supporting_refs : list string;
  d_counterexample_refs : list string;
  d_teaching_refs : list string;
  d_verification_refs : list string;
  d_scope_constraints : option string;
  d_trigger_hints : option TriggerHints;
  d_is_pinned : bool;
  d_pin_order : option Z;
  d_supersedes : option string;
  d_effective_importance : Q;
  d_compacted_into : option string;
}.

Definition new_bootstrap_evidence (id content wing : string) (room source_file : option string)
    (source_type : SourceType) (added_at : string) (chunk_index : option Z) (importance : Z) : Drawer :=
  let '(anchor_kind, anchor_id, parent_anchor_id) := bootstrap_anchor in
  {| d_id := id; d_content := content; d_wing := wing; d_room := room; d_source_file := source_file;
     d_source_type := source_type; d_confidence := default_confidence source_type; d_added_at := added_at;
     d_chunk_index := chunk_index; d_normalize_version := 1; d_importance := importance;
     d_memory_kind := Evidence; d_domain := DomainProject; d_field := DEFAULT_FIELD;
     d_anchor_kind := anchor_kind; d_anchor_id := anchor_id; d_parent_anchor_id := parent_anchor_id;
     d_provenance := Some (bootstrap_provenance source_type); d_statement := None; d_tier := None;
     d_status := None; d_supporting_refs := []; d_counterexample_refs := []; d_teaching_refs := [];
     d_verification_refs := []; d_scope_constraints := None; d_trigger_hints := None; d_is_pinned := false;
     d_pin_order := None; d_supersedes := None; d_effective_importance := inject_Z importance;
     d_compacted_into := None |}.

(** [String::push_str] onto the scope constraints, or the marker alone. *)
Definition link_superseded_drawer (drawer : Drawer) (old_id : string) : Drawer :=
  let marker := "supersedes:" +:+ old_id in
  let scope := match d_scope_constraints drawer with
               | Some existing => if is_empty (trim existing) then marker else existing +:+ "; " +:+ marker
               | None => marker
               end in
  {| d_id := d_id drawer; d_content := d_content drawer; d_wing := d_wing drawer; d_room := d_room drawer;
     d_source_file := d_source_file drawer; d_source_type := d_source_type drawer;
     d_confidence := d_confidence drawer; d_added_at := d_added_at drawer; d_chunk_index := d_chunk_index drawer;
     d_normalize_version := d_normalize_version drawer; d_importance := d_importance drawer;
     d_memory_kind := d_memory_kind drawer; d_domain := d_domain drawer; d_field := d_field drawer;
     d_anchor_kind := d_anchor_kind drawer; d_anchor_id := d_anchor_id drawer;
     d_parent_anchor_id := d_parent_anchor_id drawer; d_provenance := d_provenance drawer;
     d_statement := d_statement drawer; d_tier := d_tier drawer; d_status := d_status drawer;
     d_supporting_refs := d_supporting_refs drawer; d_counterexample_refs := d_counterexample_refs drawer;
     d_teaching_refs := d_teaching_refs drawer; d_verification_refs := d_verification_refs drawer;
     d_scope_constraints := Some scope; d_trigger_hints := d_trigger_hints drawer;
     d_is_pinned := d_is_pinned drawer; d_pin_order := d_pin_order drawer; d_supersedes := Some old_id;
     d_effective_importance := d_effective_importance drawer; d_compacted_into := d_compacted_into drawer |}.

(** ** Rows

    The columns of [drawers] that these operations read or write, as the latest
    schema declares them. The search indexes derived from the table, the full-text
    one and the vectors, are not part of the model. *)
Record Row := MkRow {
  r_content : string;
  r_wing : string;
  r_room : option string;
  r_source_file : option string;
  r_source_root : option string;
  r_source_type : string;
  r_confidence : Q;
  r_added_at : string;
  r_chunk_index : option Z;
  r_normalize_version : Z;
  r_importance : Z;
  r_project_id : option string;
  r_content_hash : string;
  r_memory_kind : string;
  r_domain : string;
  r_field : string;
  r_anchor_kind : string;
  r_anchor_id : string;
  r_parent_anchor_id : option string;
  r_provenance : option string;
  r_statement : option string;
  r_tier : option string;
  r_status : option string;
  r_supporting_refs : option string;
  r_counterexample_refs : option string;
  r_teaching_refs : option string;
  r_verification_refs : option string;
  r_scope_constraints : option string;
  r_trigger_hints : option string;
  r_is_pinned : bool;
  r_pin_order : option Z;
  r_supersedes : option string;
  r_valid_from : option string;
  r_valid_until : option string;
  r_effective_importance : option Q;
  r_creation_operation_id : option string;
  r_deleted_at : option string;
  r_updated_at : option string;
  r_merge_count : option Z;
  r_stale_penalty_applied : option Q;
  r_compacted_into : option string;
}.

(** ** Columns an [UPDATE] sets *)
Definition set_deleted_at (deleted_at : option string) (row : Row) : Row :=
  MkRow (r_content row) (r_wing row) (r_room row) (r_source_file row) (r_source_root row) (r_source_type row)
    (r_confidence row) (r_added_at row) (r_chunk_index row) (r_normalize_version row) (r_importance row)
    (r_project_id row) (r_content_hash row) (r_memory_kind row) (r_domain row) (r_field row) (r_anchor_kind row)
    (r_anchor_id row) (r_parent_anchor_id row) (r_provenance row) (r_statement row) (r_tier row) (r_status row)
    (r_supporting_refs row) (r_counterexample_refs row) (r_teaching_refs row) (r_verification_refs row)
    (r_scope_constraints row) (r_trigger_hints row) (r_is_pinned row) (r_pin_order row) (r_supersedes row)
    (r_valid_from row) (r_valid_until row) (r_effective_importance row) (r_creation_operation_id row) deleted_at
    (r_updated_at row) (r_merge_count row) (r_stale_penalty_applied row) (r_compacted_into row).

Definition set_valid_until (valid_until : option string) (row : Row) : Row :=
  MkRow (r_content row) (r_wing row) (r_room row) (r_source_file row) (r_source_root row) (r_source_type row)
    (r_confidence row) (r_added_at row) (r_chunk_index row) (r_normalize_version row) (r_importance row)
    (r_project_id row) (r_content_hash row) (r_memory_kind row) (r_domain row) (r_field row) (r_anchor_kind row)
    (r_anchor_id row) (r_parent_anchor_id row) (r_provenance row) (r_statement row) (r_tier row) (r_status row)
    (r_supporting_refs row) (r_counterexample_refs row) (r_teaching_refs row) (r_verification_refs row)
    (r_scope_constraints row) (r_trigger_hints row) (r_is_pinned row) (r_pin_order row) (r_supersedes row)
    (r_valid_from row) valid_until (r_effective_importance row) (r_creation_operation_id row) (r_deleted_at row)
    (r_updated_at row) (r_merge_count row) (r_stale_penalty_applied row) (r_compacted_into row).

Definition set_status (status : option string) (row : Row) : Row :=
  MkRow (r_content row) (r_wing row) (r_room row) (r_source_file row) (r_source_root row) (r_source_type row)
    (r_confidence row) (r_added_at row) (r_chunk_index row) (r_normalize_version row) (r_importance row)
    (r_project_id row) (r_content_hash row) (r_memory_kind row) (r_domain row) (r_field row) (r_anchor_kind row)
    (r_anchor_id row) (r_parent_anchor_id row) (r_provenance row) (r_statement row) (r_tier row) status
    (r_supporting_refs row) (r_counterexample_refs row) (r_teaching_refs row) (r_verification_refs row)
    (r_scope_constraints row) (r_trigger_hints row) (r_is_pinned row) (r_pin_order row) (r_supersedes row)
    (r_valid_from row) (r_valid_until row) (r_effective_importance row) (r_creation_operation_id row)
    (r_deleted_at row) (r_updated_at row) (r_merge_count row) (r_stale_penalty_applied row)
    (r_compacted_into row).

Definition set_refs (counterexample_refs : option string) (verification_refs : option string) (row : Row) : Row :=
  MkRow (r_content row) (r_wing row) (r_room row) (r_source_file row) (r_source_root row) (r_source_type row)
    (r_confidence row) (r_added_at row) (r_chunk_index row) (r_normalize_version row) (r_importance row)
    (r_project_id row) (r_content_hash row) (r_memory_kind row) (r_domain row) (r_field row) (r_anchor_kind row)
    (r_anchor_id row) (r_parent_anchor_id row) (r_provenance row) (r_statement row) (r_tier row) (r_status row)
    (r_supporting_refs row) counterexample_refs (r_teaching_refs row) verification_refs
    (r_scope_constraints row) (r_trigger_hints row) (r_is_pinned row) (r_pin_order row) (r_supersedes row)
    (r_valid_from row) (r_valid_until row) (r_effective_importance row) (r_creation_operation_id row)
    (r_deleted_at row) (r_updated_at row) (r_merge_count row) (r_stale_penalty_applied row)
    (r_compacted_into row).

Definition set_anchor (anchor_kind : string) (anchor_id : string) (parent_anchor_id : option string) (row : Row) : Row :=
  MkRow (r_content row) (r_wing row) (r_room row) (r_source_file row) (r_source_root row) (r_source_type row)
    (r_confidence row) (r_added_at row) (r_chunk_index row) (r_normalize_version row) (r_importance row)
    (r_project_id row) (r_content_hash row) (r_memory_kind row) (r_domain row) (r_field row) anchor_kind
    anchor_id parent_anchor_id (r_provenance row) (r_statement row) (r_tier row) (r_status row)
    (r_supporting_refs row) (r_counterexample_refs row) (r_teaching_refs row) (r_verification_refs row)
    (r_scope_constraints row) (r_trigger_hints row) (r_is_pinned row) (r_pin_order row) (r_supersedes row)
    (r_valid_from row) (r_valid_until row) (r_effective_importance row) (r_creation_operation_id row)
    (r_deleted_at row) (r_updated_at row) (r_merge_count row) (r_stale_penalty_applied row)
    (r_compacted_into row).

Definition set_pin (is_pinned : bool) (pin_order : option Z) (row : Row) : Row :=
  MkRow (r_content row) (r_wing row) (r_room row) (r_source_file row) (r_source_root row) (r_source_type row)
    (r_confidence row) (r_added_at row) (r_chunk_index row) (r_normalize_version row) (r_importance row)
    (r_project_id row) (r_content_hash row) (r_memory_kind row) (r_domain row) (r_field row) (r_anchor_kind row)
    (r_anchor_id row) (r_parent_anchor_id row) (r_provenance row) (r_statement row) (r_tier row) (r_status row)
    (r_supporting_refs row) (r_counterexample_refs row) (r_teaching_refs row) (r_verification_refs row)
    (r_scope_constraints row) (r_trigger_hints row) is_pinned pin_order (r_supersedes row) (r_valid_from row)
    (r_valid_until row) (r_effective_importance row) (r_creation_operation_id row) (r_deleted_at row)
    (r_updated_at row) (r_merge_count row) (r_stale_penalty_applied row) (r_compacted_into row).

Definition set_content (content : string) (content_hash : string) (updated_at : option string) (merge_count : option Z) (row : Row) : Row :=
  MkRow content (r_wing row) (r_room row) (r_source_file row) (r_source_root row) (r_source_type row)
    (r_confidence row) (r_added_at row) (r_chunk_index row) (r_normalize_version row) (r_importance row)
    (r_project_id row) content_hash (r_memory_kind row) (r_domain row) (r_field row) (r_anchor_kind row)
    (r_anchor_id row) (r_parent_anchor_id row) (r_provenance row) (r_statement row) (r_tier row) (r_status row)
    (r_supporting_refs row) (r_counterexample_refs row) (r_teaching_refs row) (r_verification_refs row)
    (r_scope_constraints row) (r_trigger_hints row) (r_is_pinned row) (r_pin_order row) (r_supersedes row)
    (r_valid_from row) (r_valid_until row) (r_effective_importance row) (r_creation_operation_id row)
    (r_deleted_at row) updated_at merge_count (r_stale_penalty_applied row) (r_compacted_into row).

Definition set_compacted_into (compacted_into : option string) (row : Row) : Row :=
  MkRow (r_content row) (r_wing row) (r_room row) (r_source_file row) (r_source_root row) (r_source_type row)
    (r_confidence row) (r_added_at row) (r_chunk_index row) (r_normalize_version row) (r_importance row)
    (r_project_id row) (r_content_hash row) (r_memory_kind row) (r_domain row) (r_field row) (r_anchor_kind row)
    (r_anchor_id row) (r_parent_anchor_id row) (r_provenance row) (r_statement row) (r_tier row) (r_status row)
    (r_supporting_refs row) (r_counterexample_refs row) (r_teaching_refs row) (r_verification_refs row)
    (r_scope_constraints row) (r_trigger_hints row) (r_is_pinned row) (r_pin_order row) (r_supersedes row)
    (r_valid_from row) (r_valid_until row) (r_effective_importance row) (r_creation_operation_id row)
    (r_deleted_at row) (r_updated_at row) (r_merge_count row) (r_stale_penalty_applied row) compacted_into.

(** The serializer and the hash functions the store calls, and the order in which
    SQLite returns the rows of a query that asks for none. *)
Class StoreEnv := {
  to_json : list string → string;
  from_json : string → option (list string);
  hints_to_json : TriggerHints → string;
  hints_from_json : string → option TriggerHints;
  content_hash_hex : string → string;
  sha256_hex : string → string;
  plan : list string → list string;
}.

(** What their documentation promises. *)
Class StoreLaws (E : StoreEnv) : Prop := {
  json_roundtrip : ∀ l, from_json (to_json l) = Some l;
  hints_roundtrip : ∀ h, hints_from_json (hints_to_json h) = Some h;
  sha256_length : ∀ s, String.length (sha256_hex s) = 64%nat;
  plan_permutes : ∀ l, plan l ≡ₚ l;
}.

Section rows.
Context `{StoreEnv}.

(** [if drawer.effective_importance == 0.0 { importance } else { .. }]. *)
Definition seeded_effective_importance (drawer : Drawer) : Q :=
  if Qeq_bool (d_effective_importance drawer) 0 then inject_Z (d_importance drawer)
  else d_effective_importance drawer.

(** The row [INSERT INTO drawers (..) VALUES (..)] writes, columns not named at
    their defaults. *)
Definition drawer_to_row (drawer : Drawer) (project_id source_root valid_from valid_until
    creation_operation_id : option string) : Row :=
  {| r_content := d_content drawer; r_wing := d_wing drawer; r_room := d_room drawer;
     r_source_file := d_source_file drawer; r_source_root := source_root;
     r_source_type := source_type_as_str (d_source_type drawer); r_confidence := d_confidence drawer;
     r_added_at := d_added_at drawer; r_chunk_index := d_chunk_index drawer;
     r_normalize_version := d_normalize_version drawer; r_importance := d_importance drawer;
     r_project_id := project_id; r_content_hash := content_hash_hex (d_content drawer);
     r_memory_kind := memory_kind_as_str (d_memory_kind drawer);
     r_domain := memory_domain_as_str (d_domain drawer); r_field := d_field drawer;
     r_anchor_kind := anchor_kind_as_str (d_anchor_kind drawer); r_anchor_id := d_anchor_id drawer;
     r_parent_anchor_id := d_parent_anchor_id drawer; r_provenance := provenance_as_str <$> d_provenance drawer;
     r_statement := d_statement drawer; r_tier := knowledge_tier_as_str <$> d_tier drawer;
     r_status := knowledge_status_as_str <$> d_status drawer;
     r_supporting_refs := Some (to_json (d_supporting_refs drawer));
     r_counterexample_refs := Some (to_json (d_counterexample_refs drawer));
     r_teaching_refs := Some (to_json (d_teaching_refs drawer));
     r_verification_refs := Some (to_json (d_verification_refs drawer));
     r_scope_constraints := d_scope_constraints drawer;
     r_trigger_hints := hints_to_json <$> d_trigger_hints drawer; r_is_pinned := d_is_pinned drawer;
     r_pin_order := d_pin_order drawer; r_supersedes := d_supersedes drawer;
     r_valid_from := Some (default (d_added_at drawer) valid_from); r_valid_until := valid_until;
     r_effective_importance := Some (seeded_effective_importance drawer);
     r_creation_operation_id := creation_operation_id; r_deleted_at := None; r_updated_at := None;
     r_merge_count := None; r_stale_penalty_applied := None; r_compacted_into := None |}.

Definition parse_string_list (raw : option string) : result (list string) StoreError :=
  match raw with
  | None => Ok []
  | Some raw => match from_json raw with Some l => Ok l | None => Err JsonError end
  end.

Definition parse_hints (raw : option string) : result (option TriggerHints) StoreError :=
  traverse (fun raw => match hints_from_json raw with Some h => Ok h | None => Err JsonError end) raw.

(** The [effective_importance] column of [DRAWER_SELECT_COLUMNS]: a stored zero
    counts as not computed. *)
Definition select_effective_importance (row : Row) : Q :=
  let fallback := Qmult (inject_Z (r_importance row)) (default 1%Q (r_stale_penalty_applied row)) in
  match r_effective_importance row with
  | Some e => if Qeq_bool e 0 then fallback else e
  | None => fallback
  end.

Definition drawer_from_row (id : string) (row : Row) : result Drawer StoreError :=
  let? source_type := source_type_from_str (r_source_type row) in
  let? memory_kind := memory_kind_from_str (r_memory_kind row) in
  let? domain := memory_domain_from_str (r_domain row) in
  let? anchor_kind := anchor_kind_from_str (r_anchor_kind row) in
  let? provenance := traverse provenance_from_str (r_provenance row) in
  let? tier := traverse knowledge_tier_from_str (r_tier row) in
  let? status := traverse knowledge_status_from_str (r_status row) in
  let? supporting_refs := parse_string_list (r_supporting_refs row) in
  let? counterexample_refs := parse_string_list (r_counterexample_refs row) in
  let? teaching_refs := parse_string_list (r_teaching_refs row) in
  let? verification_refs := parse_string_list (r_verification_refs row) in
  let? trigger_hints := parse_hints (r_trigger_hints row) in
  match validate_anchor_domain domain anchor_kind with
  | Err message => Err (InvalidDrawerMetadata message)
  | Ok _ =>
      Ok {| d_id := id; d_content := r_content row; d_wing := r_wing row; d_room := r_room row;
            d_source_file := r_source_file row; d_source_type := source_type; d_confidence := r_confidence row;
            d_added_at := r_added_at row; d_chunk_index := r_chunk_index row;
            d_normalize_version := r_normalize_version row; d_importance := r_importance row;
            d_memory_kind := memory_kind; d_domain := domain; d_field := r_field row;
            d_anchor_kind := anchor_kind; d_anchor_id := r_anchor_id row;
            d_parent_anchor_id := r_parent_anchor_id row; d_provenance := provenance;
            d_statement := r_statement row; d_tier := tier; d_status := status;
            d_supporting_refs := supporting_refs; d_counterexample_refs := counterexample_refs;
            d_teaching_refs := teaching_refs; d_verification_refs := verification_refs;
            d_scope_constraints := r_scope_constraints row; d_trigger_hints := trigger_hints;
            d_is_pinned := r_is_pinned row; d_pin_order := r_pin_order row; d_supersedes := r_supersedes row;
            d_effective_importance := select_effective_importance row;
            d_compacted_into := r_compacted_into row |}
  end.
End rows.

(** ** The encodings round-trip

    Every slug is read as the value it was written for, except the legacy manual
    source type. *)
Lemma source_type_roundtrip t : t ≠ Manual → source_type_from_str (source_type_as_str t) = Ok t.
Proof. by destruct t. Qed.
Lemma memory_kind_roundtrip k : memory_kind_from_str (memory_kind_as_str k) = Ok k.
Proof. by destruct k. Qed.
Lemma memory_domain_roundtrip d : memory_domain_from_str (memory_domain_as_str d) = Ok d.
Proof. by destruct d. Qed.
Lemma anchor_kind_roundtrip a : anchor_kind_from_str (anchor_kind_as_str a) = Ok a.
Proof. by destruct a. Qed.
Lemma provenance_roundtrip p : provenance_from_str (provenance_as_str p) = Ok p.
Proof. by destruct p. Qed.
Lemma knowledge_tier_roundtrip t : knowledge_tier_from_str (knowledge_tier_as_str t) = Ok t.
Proof. by destruct t. Qed.
Lemma knowledge_status_roundtrip s : knowledge_status_from_str (knowledge_status_as_str s) = Ok s.
Proof. by destruct s. Qed.

Lemma traverse_roundtrip {A} (as_str : A → string) (from_str : string → result A StoreError) o :
  (∀ a, from_str (as_str a) = Ok a) → traverse from_str (as_str <$> o) = Ok o.
Proof. intros H. destruct o as [a|]; simpl; [by rewrite H|done]. Qed.

(** What a drawer reads back as: the importance seeded, no compaction mark. *)
Definition stored_drawer (drawer : Drawer) : Drawer :=
  {| d_id := d_id drawer; d_content := d_content drawer; d_wing := d_wing drawer; d_room := d_room drawer;
     d_source_file := d_source_file drawer; d_source_type := d_source_type drawer;
     d_confidence := d_confidence drawer; d_added_at := d_added_at drawer; d_chunk_index := d_chunk_index drawer;
     d_normalize_version := d_normalize_version drawer; d_importance := d_importance drawer;
     d_memory_kind := d_memory_kind drawer; d_domain := d_domain drawer; d_field := d_field drawer;
     d_anchor_kind := d_anchor_kind drawer; d_anchor_id := d_anchor_id drawer;
     d_parent_anchor_id := d_parent_anchor_id drawer; d_provenance := d_provenance drawer;
     d_statement := d_statement drawer; d_tier := d_tier drawer; d_status := d_status drawer;
     d_supporting_refs := d_supporting_refs drawer; d_counterexample_refs := d_counterexample_refs drawer;
     d_teaching_refs := d_teaching_refs drawer; d_verification_refs := d_verification_refs drawer;
     d_scope_constraints := d_scope_constraints drawer; d_trigger_hints := d_trigger_hints drawer;
     d_is_pinned := d_is_pinned drawer; d_pin_order := d_pin_order drawer; d_supersedes := d_supersedes drawer;
     d_effective_importance := seeded_effective_importance drawer; d_compacted_into := None |}.

Lemma select_seeded drawer p r vf vu op `{StoreEnv} :
  select_effective_importance (drawer_to_row drawer p r vf vu op) = seeded_effective_importance drawer.
Proof.
  change (select_effective_importance _) with
    (if Qeq_bool (seeded_effective_importance drawer) 0 then Qmult (inject_Z (d_importance drawer)) 1
     else seeded_effective_importance drawer).
  destruct (Qeq_bool (seeded_effective_importance drawer) 0) eqn:E; [|done].
  unfold seeded_effective_importance in *. destruct (Qeq_bool (d_effective_importance drawer) 0) eqn:E0.
  - unfold Qmult, inject_Z. simpl. by rewrite Z.mul_1_r.
  - congruence.
Qed.

Lemma drawer_row_roundtrip `{L : StoreLaws} drawer p r vf vu op :
  d_source_type drawer ≠ Manual →
  validate_anchor_domain (d_domain drawer) (d_anchor_kind drawer) = Ok tt →
  drawer_from_row (d_id drawer) (drawer_to_row drawer p r vf vu op) = Ok (stored_drawer drawer).
Proof.
  intros Ht Ha. unfold drawer_from_row. simpl. rewrite source_type_roundtrip by done.
  rewrite memory_kind_roundtrip, memory_domain_roundtrip, anchor_kind_roundtrip.
  rewrite (traverse_roundtrip provenance_as_str) by apply provenance_roundtrip.
  rewrite (traverse_roundtrip knowledge_tier_as_str) by apply knowledge_tier_roundtrip.
  rewrite (traverse_roundtrip knowledge_status_as_str) by apply knowledge_status_roundtrip.
  unfold parse_string_list, parse_hints. rewrite !json_roundtrip.
  rewrite (traverse_roundtrip hints_to_json) by (intros h; by rewrite hints_roundtrip).
  rewrite Ha. unfold stored_drawer. by rewrite select_seeded.
Qed.

(** ** A concrete environment

    For runs of the model: texts written as the bits of their number, a digest that
    is the padded text itself, rows in the order they come. *)
Module Plain.

Fixpoint bits (p : positive) : string :=
  match p with
  | xH => EmptyString
  | xO p => String "0" (bits p)
  | xI p => String "1" (bits p)
  end.

Fixpoint unbits (s : string) : positive :=
  match s with
  | EmptyString => xH
  | String c rest => if Ascii.eqb c "1" then xI (unbits rest) else xO (unbits rest)
  end.

Lemma unbits_bits p : unbits (bits p) = p.
Proof. induction p; simpl; congruence. Qed.

Fixpoint pad (n : nat) (s : string) : string :=
  match n, s with
  | O, _ => EmptyString
  | S n, EmptyString => String "0" (pad n EmptyString)
  | S n, String c rest => String c (pad n rest)
  end.

Lemma pad_length n s : String.length (pad n s) = n.
Proof. revert s. induction n as [|n IH]; intros [|c s]; simpl; try done; by rewrite IH. Qed.

Definition hints_of (t : list string * list string * list string) : TriggerHints :=
  let '(a, b, c) := t in MkTriggerHints a b c.

#[export] Instance env : StoreEnv := {
  to_json l := bits (encode l);
  from_json s := decode (unbits s);
  hints_to_json h := bits (encode (intent_tags h, workflow_bias h, tool_needs h));
  hints_from_json s := hints_of <$> decode (unbits s);
  content_hash_hex s := s;
  sha256_hex s := pad 64 s;
  plan l := l;
}.

#[export] Instance laws : StoreLaws env.
Proof.
  split.
  - intros l. simpl. by rewrite unbits_bits, decode_encode.
  - intros [a b c]. simpl. by rewrite unbits_bits, decode_encode.
  - intros s. apply (pad_length 64).
  - done.
Qed.
End Plain.
