(* ===== verification/DrawerStore.v ===== *)
(** * The drawer table

    Inserting, finding, replacing, deleting, purging, compacting and pinning
    drawers ([src/src/core/db.rs], [src/src/core/db_operation_creation.rs]), with
    the foreign keys of the schema: [drawers.supersedes], [drawers.compacted_into],
    [triples.source_drawer], [consolidation_log.target_drawer_id] and those of the
    tables this model leaves out. *)

From Stdlib Require Import ZArith QArith Lia String Ascii.
From stdpp Require Import base tactics list gmap strings numbers sets.
From S2P Require Import Prelude Order Text Drawer.
Close Scope Q_scope.
Open Scope Z_scope.
Open Scope string_scope.
Open Scope rust_scope.

Record Triple := MkTriple {
  t_subject : string;
  t_predicate : string;
  t_object : string;
  t_valid_from : option string;
  t_valid_to : option string;
  t_confidence : Q;
  t_source_drawer : option string;
}.

Record Consolidation := MkConsolidation {
  c_wing : string;
  c_room : option string;
  c_project_id : option string;
  c_cluster_size : Z;
  c_target : string;
  c_sources : list string;
}.

(** A line of the audit log: the command, the drawer and the reason. *)
Record Audit := MkAudit { a_command : string; a_drawer_id : string; a_reason : string }.

Record Db := MkDb {
  db_drawers : gmap string Row;
  db_triples : gmap string Triple;
  db_links : gset string;  (* drawers that rows of the tables left out refer to *)
  db_consolidations : list Consolidation;
  db_audit : list Audit;
}.

Definition with_drawers (db : Db) (t : gmap string Row) : Db :=
  MkDb t (db_triples db) (db_links db) (db_consolidations db) (db_audit db).

Definition with_audit (db : Db) (a : Audit) : Db :=
  MkDb (db_drawers db) (db_triples db) (db_links db) (db_consolidations db) (db_audit db ++ [a])%list.

Definition is_active (row : Row) : bool := match r_deleted_at row with None => true | Some _ => false end.

(** [UPDATE drawers SET .. WHERE id = ? AND ..], with the number of rows. *)
Definition update_where (id : string) (cond : Row → bool) (set : Row → Row) (db : Db) : Db * Z :=
  match db_drawers db !! id with
  | Some row => if cond row then (with_drawers db (<[id := set row]> (db_drawers db)), 1) else (db, 0)
  | None => (db, 0)
  end.

(** Whether a row still refers to the drawer: a deletion is then refused. *)
Definition referenced (db : Db) (id : string) : bool :=
  bool_decide (id ∈ db_links db)
  || existsb (fun c => c_target c =? id) (db_consolidations db)
  || existsb (fun e => bool_decide (t_source_drawer e.2 = Some id)) (map_to_list (db_triples db))
  || existsb (fun e => bool_decide (r_supersedes e.2 = Some id) || bool_decide (r_compacted_into e.2 = Some id))
       (map_to_list (db_drawers db)).

(** [DELETE FROM drawers WHERE id = ? AND ..]. *)
Definition delete_where (id : string) (cond : Row → bool) (db : Db) : result (Db * Z) StoreError :=
  match db_drawers db !! id with
  | Some row =>
      if cond row then
        let db' := with_drawers db (delete id (db_drawers db)) in
        if referenced db' id then Err ConstraintViolation else Ok (db', 1)
      else Ok (db, 0)
  | None => Ok (db, 0)
  end.

(** The body of a transaction: its changes stay only when it succeeds. *)
Definition transaction {A} (db : Db) (body : result (Db * A) StoreError) : Db * result A StoreError :=
  match body with Ok (db', a) => (db', Ok a) | Err e => (db, Err e) end.

Section store.
Context `{StoreEnv}.

(** ** Inserting *)

(** The CHECK constraints: the slugs of every enumeration but the source type are
    all allowed. *)
Definition check_constraints (row : Row) : bool :=
  existsb (String.eqb (r_source_type row)) ["user_explicit"; "agent_observation"; "agent_inference"; "system_generated"].

(** [INSERT OR IGNORE]: a key in use or a failed CHECK skips the row, a reference
    to no drawer is an error. *)
Definition insert_or_ignore (id : string) (row : Row) (db : Db) : result Db StoreError :=
  match db_drawers db !! id with
  | Some _ => Ok db
  | None =>
      if check_constraints row then
        match r_supersedes row with
        | Some old =>
            if (old =? id) || bool_decide (is_Some (db_drawers db !! old))
            then Ok (with_drawers db (<[id := row]> (db_drawers db)))
            else Err ConstraintViolation
        | None => Ok (with_drawers db (<[id := row]> (db_drawers db)))
        end
      else Ok db
  end.

(** The row is then looked up for the full-text index, which fails when there is
    none. *)
Definition insert_drawer_with_project_validity_once (db : Db) (drawer : Drawer)
    (project_id source_root valid_from valid_until creation_operation_id : option string)
    : Db * result unit StoreError :=
  match validate_anchor_domain (d_domain drawer) (d_anchor_kind drawer) with
  | Err message => (db, Err (InvalidDrawerMetadata message))
  | Ok _ =>
      let row := drawer_to_row drawer project_id source_root valid_from valid_until creation_operation_id in
      match insert_or_ignore (d_id drawer) row db with
      | Err e => (db, Err e)
      | Ok db =>
          match db_drawers db !! d_id drawer with
          | Some _ => (db, Ok tt)
          | None => (db, Err NoRows)
          end
      end
  end.

Definition insert_drawer_with_project (db : Db) (drawer : Drawer) (project_id : option string) :
    Db * result unit StoreError :=
  insert_drawer_with_project_validity_once db drawer project_id None None None None.

Definition insert_drawer (db : Db) (drawer : Drawer) : Db * result unit StoreError :=
  insert_drawer_with_project db drawer None.

(** ** Looking up *)
Definition active_row (db : Db) (id : string) : option Row :=
  match db_drawers db !! id with
  | Some row => if is_active row then Some row else None
  | None => None
  end.

Definition drawer_exists (db : Db) (id : string) : bool := bool_decide (is_Some (active_row db id)).

Definition drawer_is_soft_deleted (db : Db) (id : string) : bool :=
  match db_drawers db !! id with Some row => negb (is_active row) | None => false end.

Definition drawer_id_in_use (db : Db) (id : string) : bool := bool_decide (is_Some (db_drawers db !! id)).

Definition get_drawer (db : Db) (id : string) : result (option Drawer) StoreError :=
  match active_row db id with
  | Some row => let? d := drawer_from_row id row in Ok (Some d)
  | None => Ok None
  end.

Definition drawer_project_id (db : Db) (id : string) : option string :=
  match active_row db id with Some row => r_project_id row | None => None end.

Definition drawer_ids_created_by_operation (db : Db) (operation_id : string) (ids : list string) : list string :=
  List.filter (fun id => match db_drawers db !! id with
                         | Some row => bool_decide (r_creation_operation_id row = Some operation_id)
                         | None => false
                         end) ids.

(** ** By content *)
Record DrawerSummary := MkSummary {
  s_id : string;
  s_wing : string;
  s_room : option string;
  s_source_file : option string;
  s_project_id : option string;
  s_added_at : string;
}.

Definition summary (id : string) (row : Row) : DrawerSummary :=
  MkSummary id (r_wing row) (r_room row) (r_source_file row) (r_project_id row) (r_added_at row).

(** [added_at DESC, id]. *)
Definition newest_first (a b : DrawerSummary) : comparison :=
  then_with (String.compare (s_added_at b) (s_added_at a)) (String.compare (s_id a) (s_id b)).

Definition same_place (wing : string) (room project_id : option string) (row : Row) : bool :=
  (r_wing row =? wing) && bool_decide (r_room row = room) && bool_decide (r_project_id row = project_id).

Definition find_active_drawers_by_content (db : Db) (text wing : string) (room project_id : option string)
    : list DrawerSummary :=
  sort_by (fun a b => not_gt (newest_first a b))
    (map (fun e => summary e.1 e.2)
       (List.filter (fun e => is_active e.2 && (r_content_hash e.2 =? content_hash_hex text)
                              && (r_content e.2 =? text) && same_place wing room project_id e.2)
          (map_to_list (db_drawers db)))).

Definition drawer_exists_exact (db : Db) (content wing : string) (room project_id : option string) : bool :=
  match find_active_drawers_by_content db content wing room project_id with [] => false | _ => true end.

(** The least identifier of an active drawer with this hash in this place. *)
Definition find_active_drawer_id_by_identity (db : Db) (wing : string) (room : option string) (content : string)
    (project_id : option string) : option string :=
  head (sort_by (fun a b => not_gt (String.compare a b))
    (map fst (List.filter (fun e => is_active e.2 && (r_content_hash e.2 =? content_hash_hex content)
                                    && same_place wing room project_id e.2)
                (map_to_list (db_drawers db))))).

Definition resolve_replacement_target (db : Db) (supersedes replace_text : option string) (wing : string)
    (room project_id : option string) : result (option DrawerSummary) StoreError :=
  match supersedes, replace_text with
  | Some _, Some _ => Err ReplacementTargetConflict
  | Some id, None =>
      match active_row db id with
      | None => Err (SupersededDrawerNotFound id)
      | Some row =>
          let? _ := drawer_from_row id row in
          if bool_decide (r_project_id row = project_id) then Ok (Some (summary id row))
          else Err (SupersededDrawerProjectMismatch id project_id (r_project_id row))
      end
  | None, Some text =>
      match find_active_drawers_by_content db text wing room project_id with
      | [] => Err ReplacementTextNotFound
      | [s] => Ok (Some s)
      | matches => Err (ReplacementTextAmbiguous (s_id <$> matches))
      end
  | None, None => Ok None
  end.

(** ** Identifiers *)
Definition DEFAULT_ROOM : string := "default".

Definition is_ascii_alphanumeric (c : ascii) : bool :=
  let b := byte_of c in
  (((48 <=? b) && (b <=? 57)) || ((65 <=? b) && (b <=? 90)) || ((97 <=? b) && (b <=? 122)))%Z.

(** Character by character: the continuation bytes of a character that is not
    ASCII belong to its one underscore. *)
Fixpoint sanitize_component (value : string) : string :=
  match value with
  | EmptyString => EmptyString
  | String c rest =>
      if is_ascii_alphanumeric c then String (ascii_lower c) (sanitize_component rest)
      else if is_continuation c then sanitize_component rest
      else String "_" (sanitize_component rest)
  end.

Definition nul : string := bytes_str [0%N].

(** What the hasher has seen: the content, then the seed after a NUL byte. *)
Definition build_scoped_drawer_id (wing : string) (room : option string) (content : string)
    (scope_seed : option string) : string :=
  let room := default DEFAULT_ROOM room in
  let seen := match scope_seed with Some seed => content +:+ nul +:+ seed | None => content end in
  "drawer_" +:+ sanitize_component wing +:+ "_" +:+ sanitize_component room +:+ "_"
    +:+ String.substring 0 8 (sha256_hex seen).

Definition build_drawer_id (wing : string) (room : option string) (content : string) : string :=
  build_scoped_drawer_id wing room content None.

Definition build_bootstrap_drawer_id (wing : string) (room : option string) (content : string)
    (identity_components : list string) : string :=
  let room := default DEFAULT_ROOM room in
  let seen := foldl (fun acc component => acc +:+ nul +:+ component) content identity_components in
  "drawer_" +:+ sanitize_component wing +:+ "_" +:+ sanitize_component room +:+ "_"
    +:+ String.substring 0 8 (sha256_hex seen).

(** [format!("{base}_{suffix}")]. *)
Definition suffixed (base : string) (suffix : Z) : string := base +:+ "_" +:+ show suffix.

(** The loop over suffixes, with one try per row and one more. *)
Fixpoint first_free (db : Db) (base : string) (fuel : nat) (suffix : Z) : option string :=
  match fuel with
  | O => None
  | S fuel =>
      let candidate := suffixed base suffix in
      if drawer_id_in_use db candidate then first_free db base fuel (suffix + 1) else Some candidate
  end.

Definition suffix_fuel (db : Db) : nat := S (size (db_drawers db)).

Definition resolve_available_drawer_id (db : Db) (preferred_id : string) : option string :=
  if drawer_id_in_use db preferred_id then first_free db preferred_id (suffix_fuel db) 2
  else Some preferred_id.

(** The identifier for new content, and whether a drawer already holds it. *)
Definition resolve_ingest_drawer_id (db : Db) (wing : string) (room : option string) (content : string)
    (project_id : option string) : option (string * bool) :=
  match find_active_drawer_id_by_identity db wing room content project_id with
  | Some existing_id => Some (existing_id, true)
  | None =>
      let base_id := build_drawer_id wing room content in
      if negb (drawer_id_in_use db base_id) then Some (base_id, false)
      else
        let scoped_seed := default "__global_collision__" project_id in
        let scoped_id := build_scoped_drawer_id wing room content (Some scoped_seed) in
        if negb (scoped_id =? base_id) && negb (drawer_id_in_use db scoped_id) then Some (scoped_id, false)
        else (fun id => (id, false)) <$> first_free db scoped_id (suffix_fuel db) 2
  end.

(** ** Deleting *)
Definition soft_delete_drawer (now id : string) (db : Db) : Db * bool :=
  let '(db, affected) := update_where id is_active (set_deleted_at (Some now)) db in (db, (0 <? affected)%Z).

Definition soft_delete_drawer_in_project (now id : string) (project_id : option string) (db : Db) : Db * bool :=
  let '(db, affected) := update_where id (fun row => bool_decide (r_project_id row = project_id) && is_active row)
                           (set_deleted_at (Some now)) db in
  (db, (0 <? affected)%Z).

Fixpoint soft_delete_drawers_by_ids (now : string) (ids : list string) (db : Db) : Db * Z :=
  match ids with
  | [] => (db, 0)
  | id :: rest =>
      let '(db, affected) := update_where id is_active (set_deleted_at (Some now)) db in
      let '(db, total) := soft_delete_drawers_by_ids now rest db in
      (db, affected + total)
  end.

(** The optional filters of [soft_delete_drawers_since]. *)
Definition since_filters (wing room project_id : option string) (row : Row) : bool :=
  (match wing with Some w => r_wing row =? w | None => true end)
  && (match room with Some r => bool_decide (r_room row = Some r) | None => true end)
  && (match project_id with Some p => bool_decide (r_project_id row = Some p) | None => true end).

Definition soft_delete_drawers_since (now since : string) (wing room project_id : option string) (db : Db)
    : Db * list string :=
  let hit row := String.ltb since (r_added_at row) && is_active row && since_filters wing room project_id row in
  (with_drawers db ((fun row => if hit row then set_deleted_at (Some now) row else row) <$> db_drawers db),
   plan (map fst (List.filter (fun e => hit e.2) (map_to_list (db_drawers db))))).

Definition set_superseded (now : string) (row : Row) : Row :=
  set_valid_until (Some now) (set_deleted_at (Some now) (set_status (Some "superseded") row)).

(** The audit line is written after the update has committed. *)
Definition supersede_drawer (now old_id reason : string) (audit_writable : bool) (db : Db)
    : Db * result bool StoreError :=
  let '(db, affected) := update_where old_id is_active (set_superseded now) db in
  if (0 <? affected)%Z then
    if audit_writable then (with_audit db (MkAudit "supersede" old_id reason), Ok true) else (db, Err AuditFailed)
  else (db, Ok false).

(** [UPDATE triples SET source_drawer = NULL WHERE source_drawer = ?]. *)
Definition forget_source (id : string) (t : Triple) : Triple :=
  if bool_decide (t_source_drawer t = Some id)
  then MkTriple (t_subject t) (t_predicate t) (t_object t) (t_valid_from t) (t_valid_to t) (t_confidence t) None
  else t.

Definition clear_source (id : string) (db : Db) : Db :=
  MkDb (db_drawers db) (forget_source id <$> db_triples db) (db_links db) (db_consolidations db) (db_audit db).

Fixpoint hard_delete_loop (ids : list string) (db : Db) : result (Db * Z) StoreError :=
  match ids with
  | [] => Ok (db, 0)
  | id :: rest =>
      let? (db, deleted) := delete_where id is_active (clear_source id db) in
      let? (db, total) := hard_delete_loop rest db in
      Ok (db, deleted + total)
  end.

Definition hard_delete_drawers_by_ids (ids : list string) (db : Db) : Db * result Z StoreError :=
  match ids with
  | [] => (db, Ok 0)
  | _ => transaction db (hard_delete_loop ids db)
  end.

(** [deleted_at IS NOT NULL], and before the cut-off when there is one. *)
Definition purgeable (before : option string) (row : Row) : bool :=
  match r_deleted_at row, before with
  | None, _ => false
  | Some _, None => true
  | Some at_, Some before => String.ltb at_ before
  end.

Definition purgeable_ids (before : option string) (db : Db) : list string :=
  map fst (List.filter (fun e => purgeable before e.2) (map_to_list (db_drawers db))).

(** The tables of a purge: the drawers with what refers to them, the drawers that have a
    vector and those in the full-text index, where these two tables exist. *)
Record purge_tables := MkPurgeTables {
  pt_db : Db;
  pt_vectors : option (gset string);
  pt_index : option (gset string);
}.

(** What SQLite answers besides: the errors of the two queries, of BEGIN IMMEDIATE (a busy
    database, too), of the four statements for a row, and of COMMIT, with whether the
    transaction is then rolled back or stays open. *)
Inductive purge_statement := DeleteVector | ClearTriples | DeleteFtsRow | DeleteDrawer.

Record purge_faults := MkPurgeFaults {
  pf_select : option StoreError;
  pf_exist : option StoreError;
  pf_begin : option StoreError;
  pf_statement : string → purge_statement → option StoreError;
  pf_commit : option (StoreError * bool);
}.

(** The connection afterwards: what is committed, and the tables of a transaction that has
    been left open. *)
Record purge_conn := MkPurgeConn { cn_committed : purge_tables; cn_open : option purge_tables }.

Definition unless_failed {A} (error : option StoreError) (a : A) : result A StoreError :=
  match error with Some e => Err e | None => Ok a end.

Definition delete_vector (id : string) (t : purge_tables) : purge_tables :=
  MkPurgeTables (pt_db t) ((.∖ {[id]}) <$> pt_vectors t) (pt_index t).
Definition delete_drawer_fts_row (id : string) (t : purge_tables) : purge_tables :=
  MkPurgeTables (pt_db t) (pt_vectors t) ((.∖ {[id]}) <$> pt_index t).
Definition with_purge_db (db : Db) (t : purge_tables) : purge_tables := MkPurgeTables db (pt_vectors t) (pt_index t).

Fixpoint purge_loop (f : purge_faults) (vectors_exist fts_exists : bool) (ids : list string) (t : purge_tables)
    : result purge_tables StoreError :=
  match ids with
  | [] => Ok t
  | id :: rest =>
      let? t := if vectors_exist then unless_failed (pf_statement f id DeleteVector) (delete_vector id t) else Ok t in
      let? t := unless_failed (pf_statement f id ClearTriples) (with_purge_db (clear_source id (pt_db t)) t) in
      let? t := if fts_exists then unless_failed (pf_statement f id DeleteFtsRow) (delete_drawer_fts_row id t) else Ok t in
      let? _ := unless_failed (pf_statement f id DeleteDrawer) tt in
      let? (db, _) := delete_where id (fun _ => true) (pt_db t) in
      purge_loop f vectors_exist fts_exists rest (with_purge_db db t)
  end.

(** On a connection without an open transaction, and alone on the database between the
    first query and BEGIN. After a ROLLBACK no transaction is open, whatever it returns:
    it fails only where SQLite has rolled back itself. *)
Definition purge_deleted (f : purge_faults) (before : option string) (t : purge_tables) : purge_conn * result Z StoreError :=
  let unchanged := MkPurgeConn t None in
  match pf_select f, plan (purgeable_ids before (pt_db t)) with
  | Some e, _ => (unchanged, Err e)
  | None, [] => (unchanged, Ok 0)
  | None, rows =>
      match pf_exist f, pf_begin f with
      | Some e, _ | None, Some e => (unchanged, Err e)
      | None, None =>
          match purge_loop f (bool_decide (is_Some (pt_vectors t))) (bool_decide (is_Some (pt_index t))) rows t with
          | Err e => (unchanged, Err e)
          | Ok t' =>
              match pf_commit f with
              | None => (MkPurgeConn t' None, Ok (Z.of_nat (length rows)))
              | Some (e, rolled_back) => (MkPurgeConn t (if rolled_back then None else Some t'), Err e)
              end
          end
      end
  end.

(** ** Compacting *)
Definition compactable (row : Row) : bool :=
  is_active row && match r_compacted_into row with None => true | Some _ => false end.

Definition set_compacted (now target : string) (row : Row) : Row :=
  set_compacted_into (Some target) (set_valid_until (Some now) (set_deleted_at (Some now) row)).

Fixpoint compact_sources (now target : string) (source_ids : list string) (db : Db) : result Db StoreError :=
  match source_ids with
  | [] => Ok db
  | id :: rest =>
      if id =? target then compact_sources now target rest db
      else
        let '(db, affected) := update_where id compactable (set_compacted now target) db in
        if (affected =? 1)%Z then compact_sources now target rest db else Err (CompactionDrawerNotFound id)
  end.

Definition compaction_body (now target_id : string) (source_ids : list string) (merged_content : string) (db : Db)
    : result (Db * unit) StoreError :=
  match db_drawers db !! target_id with
  | Some target =>
      if compactable target then
        let merge_count := default 0 (r_merge_count target) + Z.of_nat (pred (length source_ids)) in
        let '(db, updated) := update_where target_id compactable
          (set_content merged_content (content_hash_hex merged_content) (Some now) (Some merge_count)) db in
        if (updated =? 1)%Z then
          let? db := compact_sources now target_id source_ids db in
          let entry := MkConsolidation (r_wing target) (r_room target) (r_project_id target)
                         (Z.of_nat (length source_ids)) target_id source_ids in
          Ok (MkDb (db_drawers db) (db_triples db) (db_links db) (db_consolidations db ++ [entry])%list (db_audit db),
              tt)
        else Err (CompactionDrawerNotFound target_id)
      else Err (CompactionDrawerNotFound target_id)
  | None => Err (CompactionDrawerNotFound target_id)
  end.

(** Outside an enclosing transaction the compaction is one of its own. *)
Definition apply_compaction (now target_id : string) (source_ids : list string) (merged_content : string) (db : Db)
    : Db * result unit StoreError :=
  match source_ids with
  | [] => (db, Err CompactionClusterEmpty)
  | _ => transaction db (compaction_body now target_id source_ids merged_content db)
  end.

(** ** Pinning *)

(** [MAX] of a column: null when no row has a value. *)
Definition sql_max (l : list Z) : option Z :=
  match l with [] => None | x :: rest => Some (foldr Z.max x rest) end.

(** [SELECT COALESCE(MAX(pin_order), -1) + 1 FROM drawers WHERE is_pinned = 1]:
    deleted drawers count too. *)
Definition next_pin_order (db : Db) : Z :=
  default (-1) (sql_max (omap (fun e => if r_is_pinned e.2 then r_pin_order e.2 else None)
                           (map_to_list (db_drawers db)))) + 1.

Definition pin_drawer_with_order (id : string) (order : option Z) (db : Db) : Db * bool :=
  let '(db, affected) := update_where id is_active
    (fun row => set_pin true (match order with Some o => Some o | None => r_pin_order row end) row) db in
  (db, (0 <? affected)%Z).

Definition pin_drawer (id : string) (pin_order : option Z) (db : Db) : Db * bool :=
  pin_drawer_with_order id (Some (default (next_pin_order db) pin_order)) db.

Fixpoint pin_drawers (ids : list string) (db : Db) : Db :=
  match ids with
  | [] => db
  | id :: rest => pin_drawers rest (pin_drawer_with_order id (Some (next_pin_order db)) db).1
  end.

Definition unpin_drawer (id : string) (db : Db) : Db * bool :=
  let '(db, affected) := update_where id is_active (set_pin false None) db in (db, (0 <? affected)%Z).

Fixpoint reorder_from (index : Z) (ids : list string) (db : Db) : Db :=
  match ids with
  | [] => db
  | id :: rest => reorder_from (index + 1) rest (update_where id is_active (set_pin true (Some index)) db).1
  end.

Definition reorder_pinned_facts (ids : list string) (db : Db) : Db := reorder_from 0 ids db.

(** [pin_order IS NULL, pin_order, importance DESC, COALESCE(updated_at, added_at)
    DESC, id]. *)
Definition pinned_first (a b : string * Row) : comparison :=
  let none r := match r_pin_order r with None => 1 | Some _ => 0 end in
  then_with (Z.compare (none a.2) (none b.2))
    (then_with (Z.compare (default 0 (r_pin_order a.2)) (default 0 (r_pin_order b.2)))
       (then_with (Z.compare (r_importance b.2) (r_importance a.2))
          (then_with (String.compare (default (r_added_at b.2) (r_updated_at b.2))
                        (default (r_added_at a.2) (r_updated_at a.2)))
             (String.compare a.1 b.1)))).

Definition pinned_fact (project_id : option string) (row : Row) : bool :=
  is_active row && r_is_pinned row
  && existsb (String.eqb (default "active" (r_status row))) ["active"; "canonical"]
  && match project_id with Some p => bool_decide (r_project_id row = Some p) | None => true end.

Fixpoint decode_rows (rows : list (string * Row)) : result (list Drawer) StoreError :=
  match rows with
  | [] => Ok []
  | e :: rest =>
      let? d := drawer_from_row e.1 e.2 in
      let? ds := decode_rows rest in
      Ok (d :: ds)
  end.

Definition truncate_drawer (d : Drawer) (n : Z) : Drawer :=
  MkDrawer (d_id d) (take_chars n (d_content d)) (d_wing d) (d_room d) (d_source_file d) (d_source_type d)
    (d_confidence d) (d_added_at d) (d_chunk_index d) (d_normalize_version d) (d_importance d) (d_memory_kind d)
    (d_domain d) (d_field d) (d_anchor_kind d) (d_anchor_id d) (d_parent_anchor_id d) (d_provenance d)
    (d_statement d) (d_tier d) (d_status d) (d_supporting_refs d) (d_counterexample_refs d) (d_teaching_refs d)
    (d_verification_refs d) (d_scope_constraints d) (d_trigger_hints d) (d_is_pinned d) (d_pin_order d)
    (d_supersedes d) (d_effective_importance d) (d_compacted_into d).

(** The facts that fit: the first that does not is cut and ends the list. *)
Fixpoint facts_within_budget (budget used : Z) (rows : list Drawer) : list Drawer :=
  match rows with
  | [] => []
  | d :: rest =>
      if (budget <=? used)%Z then []
      else
        let remaining := (budget - used)%Z in
        let n := char_count (d_content d) in
        if (n <=? remaining)%Z then d :: facts_within_budget budget (used + n) rest
        else [truncate_drawer d remaining]
  end.

Definition get_pinned_facts (db : Db) (project_id : option string) (budget_chars : Z)
    : result (list Drawer) StoreError :=
  if (budget_chars =? 0)%Z then Ok []
  else
    let? rows := decode_rows (sort_by (fun a b => not_gt (pinned_first a b))
                   (List.filter (fun e => pinned_fact project_id e.2) (map_to_list (db_drawers db)))) in
    Ok (facts_within_budget budget_chars 0 rows).

(** ** Knowledge columns *)
Definition is_knowledge_row (row : Row) : bool := is_active row && (r_memory_kind row =? "knowledge").

Definition update_knowledge_lifecycle (id : string) (status : KnowledgeStatus)
    (verification_refs counterexample_refs : list string) (db : Db) : Db * bool :=
  let '(db, affected) := update_where id is_knowledge_row
    (fun row => set_refs (Some (to_json counterexample_refs)) (Some (to_json verification_refs))
                  (set_status (Some (knowledge_status_as_str status)) row)) db in
  (db, (0 <? affected)%Z).

Definition update_knowledge_anchor (id : string) (kind : AnchorKind) (anchor_id : string)
    (parent_anchor_id : option string) (db : Db) : Db * bool :=
  let '(db, affected) := update_where id is_knowledge_row
    (set_anchor (anchor_kind_as_str kind) anchor_id parent_anchor_id) db in
  (db, (0 <? affected)%Z).

(** ** Triples *)

(** [INSERT OR REPLACE]: the source drawer, when named, must exist. *)
Definition insert_triple (id : string) (t : Triple) (db : Db) : Db * result unit StoreError :=
  match t_source_drawer t with
  | Some source =>
      if drawer_id_in_use db source
      then (MkDb (db_drawers db) (<[id := t]> (db_triples db)) (db_links db) (db_consolidations db) (db_audit db), Ok tt)
      else (db, Err ConstraintViolation)
  | None =>
      (MkDb (db_drawers db) (<[id := t]> (db_triples db)) (db_links db) (db_consolidations db) (db_audit db), Ok tt)
  end.

Definition invalidate_triple (now id : string) (db : Db) : Db * bool :=
  match db_triples db !! id with
  | Some t =>
      match t_valid_to t with
      | None =>
          (MkDb (db_drawers db)
             (<[id := MkTriple (t_subject t) (t_predicate t) (t_object t) (t_valid_from t) (Some now)
                        (t_confidence t) (t_source_drawer t)]> (db_triples db))
             (db_links db) (db_consolidations db) (db_audit db), true)
      | Some _ => (db, false)
      end
  | None => (db, false)
  end.

Definition triple_exists (db : Db) (id : string) : bool := bool_decide (is_Some (db_triples db !! id)).

(** [confidence DESC, id]. *)
Definition most_confident (a b : string * Triple) : comparison :=
  then_with (Qcompare (t_confidence b.2) (t_confidence a.2)) (String.compare a.1 b.1).

Definition query_triples (db : Db) (now : string) (subject predicate object : option string) (active_only : bool)
    : list (string * Triple) :=
  let same o s := match o with Some v => s =? v | None => true end in
  sort_by (fun a b => not_gt (most_confident a b))
    (List.filter (fun e => same subject (t_subject e.2) && same predicate (t_predicate e.2) && same object (t_object e.2)
                           && (negb active_only || match t_valid_to e.2 with
                                                   | None => true
                                                   | Some until => String.ltb now until
                                                   end))
       (map_to_list (db_triples db))).
End store.
