(* ===== verification/DrawerSafety.v ===== *)
(** * What the drawer table guarantees

    Round trip of an inserted drawer, fresh identifiers, atomic purges and
    compactions, and the budget of the pinned facts. *)

From Stdlib Require Import ZArith QArith Lia String Ascii.
From stdpp Require Import base tactics list gmap strings numbers sets.
From S2P Require Import Prelude Order Text Drawer DrawerStore.
Close Scope Q_scope.
Open Scope Z_scope.
Open Scope string_scope.
Open Scope rust_scope.

Section facts.
Context `{E : StoreEnv}.

(** ** Updates *)
Lemma update_where_spec id cond set db db' n :
  update_where id cond set db = (db', n) →
  (∃ row, db_drawers db !! id = Some row ∧ cond row = true ∧ n = 1
          ∧ db' = with_drawers db (<[id := set row]> (db_drawers db)))
  ∨ (db' = db ∧ n = 0 ∧ ∀ row, db_drawers db !! id = Some row → cond row = false).
Proof.
  unfold update_where. intros H. destruct (db_drawers db !! id) as [row|] eqn:El.
  - destruct (cond row) eqn:Ec; simplify_eq; [by left; eauto 6|]. right. naive_solver.
  - simplify_eq. right. naive_solver.
Qed.

Lemma update_where_other id cond set db i :
  i ≠ id → db_drawers (update_where id cond set db).1 !! i = db_drawers db !! i.
Proof.
  intros Hi. destruct (update_where id cond set db) as [db' n] eqn:Eu.
  destruct (update_where_spec _ _ _ _ _ _ Eu) as [(row & _ & _ & _ & ->)|(-> & _)]; [|done].
  simpl. by rewrite lookup_insert_ne.
Qed.

(** ** Inserting *)
Lemma check_not_manual d p r vf vu op :
  check_constraints (drawer_to_row d p r vf vu op) = true ↔ d_source_type d ≠ Manual.
Proof. unfold check_constraints. simpl. destruct (d_source_type d); simpl; naive_solver. Qed.

(** The three outcomes of an insertion. *)
Lemma insert_once_spec db d p r vf vu op db' res :
  insert_drawer_with_project_validity_once db d p r vf vu op = (db', res) →
  (db' = db ∧ ((res = Ok tt ∧ is_Some (db_drawers db !! d_id d)) ∨ is_ok res = false))
  ∨ (db_drawers db !! d_id d = None ∧ res = Ok tt ∧ d_source_type d ≠ Manual
     ∧ validate_anchor_domain (d_domain d) (d_anchor_kind d) = Ok tt
     ∧ (∀ old, d_supersedes d = Some old → old = d_id d ∨ is_Some (db_drawers db !! old))
     ∧ db' = with_drawers db (<[d_id d := drawer_to_row d p r vf vu op]> (db_drawers db))).
Proof.
  unfold insert_drawer_with_project_validity_once. set (row := drawer_to_row d p r vf vu op).
  destruct (validate_anchor_domain _ _) as [[]|m] eqn:Ea; [|naive_solver].
  unfold insert_or_ignore. destruct (db_drawers db !! d_id d) as [old|] eqn:El.
  { rewrite El. intros ?; simplify_eq. left. naive_solver. }
  destruct (check_constraints row) eqn:Ec.
  - apply check_not_manual in Ec. change (r_supersedes row) with (d_supersedes d).
    destruct (d_supersedes d) as [o|].
    + destruct ((o =? d_id d) || bool_decide (is_Some (db_drawers db !! o))) eqn:Eo.
      * simpl. rewrite lookup_insert_eq. intros ?; simplify_eq. right. split_and!; try done.
        intros old [= <-]. apply orb_true_iff in Eo as [?%String.eqb_eq|?%bool_decide_eq_true]; auto.
      * intros ?; simplify_eq. left. naive_solver.
    + simpl. rewrite lookup_insert_eq. intros ?; simplify_eq. right. split_and!; done.
  - rewrite El. intros ?; simplify_eq. left. naive_solver.
Qed.

Lemma insert_once_ok db d p r vf vu op db' res :
  insert_drawer_with_project_validity_once db d p r vf vu op = (db', res) →
  res = Ok tt ↔
    validate_anchor_domain (d_domain d) (d_anchor_kind d) = Ok tt
    ∧ (is_Some (db_drawers db !! d_id d)
       ∨ (d_source_type d ≠ Manual
          ∧ ∀ old, d_supersedes d = Some old → old = d_id d ∨ is_Some (db_drawers db !! old))).
Proof.
  unfold insert_drawer_with_project_validity_once, insert_or_ignore.
  rewrite <- (check_not_manual d p r vf vu op). set (row := drawer_to_row d p r vf vu op).
  destruct (validate_anchor_domain _ _) as [[]|m]; [|naive_solver].
  destruct (db_drawers db !! d_id d) as [old|] eqn:El; [rewrite El; naive_solver|].
  destruct (check_constraints row); [|rewrite El; intros ?; simplify_eq; split; [done|];
    intros (_ & [[? ?]|[? _]]); done].
  change (r_supersedes row) with (d_supersedes d). destruct (d_supersedes d) as [o|].
  - destruct ((o =? d_id d) || bool_decide (is_Some (db_drawers db !! o))) eqn:Eo; simpl.
    + rewrite lookup_insert_eq. intros ?; simplify_eq. split; [|done]. intros _. split; [done|].
      right. split; [done|]. intros ? [= <-]. apply orb_true_iff in Eo as [?%String.eqb_eq|?%bool_decide_eq_true]; auto.
    + intros ?; simplify_eq. split; [done|]. apply orb_false_iff in Eo as [?%String.eqb_neq ?%bool_decide_eq_false].
      intros (_ & [[? ?]|[_ Ho]]); [done|]. destruct (Ho o); done.
  - simpl. rewrite lookup_insert_eq. intros ?; simplify_eq. split; [|done]. intros _. split; [done|].
    right. split; [done|]. done.
Qed.

Lemma get_inserted `{!StoreLaws E} db d p r vf vu op :
  d_source_type d ≠ Manual → validate_anchor_domain (d_domain d) (d_anchor_kind d) = Ok tt →
  get_drawer (with_drawers db (<[d_id d := drawer_to_row d p r vf vu op]> (db_drawers db))) (d_id d)
  = Ok (Some (stored_drawer d)).
Proof.
  intros Ht Ha. unfold get_drawer, active_row. simpl. rewrite lookup_insert_eq. simpl.
  by rewrite drawer_row_roundtrip.
Qed.

(** ** Fresh identifiers *)
Lemma suffixed_inj base n m : 0 <= n → 0 <= m → suffixed base n = suffixed base m → n = m.
Proof.
  intros Hn Hm He. unfold suffixed in He. apply str_app_inj in He as [_ He]; [|done].
  apply str_app_inj in He as [_ He]; [|done]. eapply (fmt_inj 10 1); eauto. lia.
Qed.

Lemma first_free_used db base fuel n :
  first_free db base fuel n = None →
  ∀ k, (k < fuel)%nat → is_Some (db_drawers db !! suffixed base (n + Z.of_nat k)).
Proof.
  revert n. induction fuel as [|fuel IH]; simpl; [lia|]. intros n Hn k Hk.
  unfold drawer_id_in_use in Hn. case_bool_decide as Hu; [|done].
  destruct k as [|k]; [by rewrite Z.add_0_r|].
  replace (n + Z.of_nat (S k)) with (n + 1 + Z.of_nat k) by lia. apply IH; [done|lia].
Qed.

(** The loop ends: there are more candidates than rows. *)
Lemma first_free_total db base n : 0 <= n → is_Some (first_free db base (suffix_fuel db) n).
Proof.
  intros Hn. destruct (first_free _ _ _ _) as [id|] eqn:Ef; [by eauto|exfalso].
  pose proof (first_free_used _ _ _ _ Ef) as Hused.
  set (cands := (fun k => suffixed base (n + Z.of_nat k)) <$> seq 0 (suffix_fuel db)).
  assert (Hnd : NoDup cands).
  { apply NoDup_fmap_2_strong; [|apply NoDup_seq]. intros a b _ _ Hab.
    apply suffixed_inj in Hab; lia. }
  assert (Hsub : (list_to_set cands : gset string) ⊆ dom (db_drawers db)).
  { intros x Hx. apply elem_of_list_to_set, list_elem_of_fmap in Hx as (k & -> & Hk%elem_of_seq).
    apply elem_of_dom, Hused. lia. }
  apply subseteq_size in Hsub. rewrite size_list_to_set in Hsub by done.
  unfold cands in Hsub. rewrite length_fmap, length_seq, size_dom in Hsub. unfold suffix_fuel in Hsub. lia.
Qed.

Lemma first_free_unused db base fuel n id : first_free db base fuel n = Some id → db_drawers db !! id = None.
Proof.
  revert n. induction fuel as [|fuel IH]; simpl; [done|]. intros n.
  unfold drawer_id_in_use. case_bool_decide as Hu; [apply IH|].
  intros [= <-]. by apply eq_None_not_Some.
Qed.

(** The rows that hold some content in a place. *)
Definition holds (db : Db) (wing : string) (room : option string) (content : string) (project_id : option string)
    (id : string) : Prop :=
  ∃ row, db_drawers db !! id = Some row ∧ is_active row = true ∧ r_content_hash row = content_hash_hex content
         ∧ same_place wing room project_id row = true.

Lemma identity_candidates db wing room content p id :
  id ∈ map fst (List.filter (fun e => is_active e.2 && (r_content_hash e.2 =? content_hash_hex content)
                                    && same_place wing room p e.2) (map_to_list (db_drawers db)))
  ↔ holds db wing room content p id.
Proof.
  rewrite list_elem_of_In, in_map_iff. unfold holds. split.
  - intros ([i row] & <- & [Hin Hc]%filter_In). exists row. simpl in *.
    apply list_elem_of_In, elem_of_map_to_list in Hin.
    apply andb_true_iff in Hc as [[? ?%String.eqb_eq]%andb_true_iff ?]. done.
  - intros (row & Hl & Ha & Hh & Hs). exists (id, row). split; [done|]. apply filter_In. split.
    + by apply list_elem_of_In, elem_of_map_to_list.
    + simpl. by rewrite Ha, Hh, Hs, String.eqb_refl.
Qed.

Lemma find_identity_spec db wing room content p :
  match find_active_drawer_id_by_identity db wing room content p with
  | Some id => holds db wing room content p id
               ∧ ∀ j, holds db wing room content p j → not_gt (String.compare id j) = true
  | None => ∀ j, ¬ holds db wing room content p j
  end.
Proof.
  unfold find_active_drawer_id_by_identity.
  destruct (head _) as [id|] eqn:Eh.
  - apply sort_by_head_least in Eh as [Hin Hle]; [|apply _]. split; [by apply identity_candidates|].
    intros j Hj. by apply Hle, identity_candidates.
  - apply sort_by_head_none in Eh. intros j Hj%identity_candidates. rewrite Eh in Hj. by apply elem_of_nil in Hj.
Qed.

Lemma resolve_spec db wing room content p :
  ∃ id existing, resolve_ingest_drawer_id db wing room content p = Some (id, existing)
    ∧ (existing = true → holds db wing room content p id
                         ∧ ∀ j, holds db wing room content p j → not_gt (String.compare id j) = true)
    ∧ (existing = false → db_drawers db !! id = None ∧ ∀ j, ¬ holds db wing room content p j).
Proof.
  unfold resolve_ingest_drawer_id. pose proof (find_identity_spec db wing room content p) as Hf.
  destruct (find_active_drawer_id_by_identity _ _ _ _ _) as [id|]; [by exists id, true|].
  set (base := build_drawer_id wing room content). set (scoped := build_scoped_drawer_id _ _ _ (Some _)).
  destruct (first_free_total db scoped 2 ltac:(lia)) as [id Eid]. rewrite Eid.
  unfold drawer_id_in_use. case_bool_decide as Hb; cbn [negb].
  - destruct (negb (scoped =? base) && negb (bool_decide (is_Some (db_drawers db !! scoped)))) eqn:Es.
    + exists scoped, false. split_and!; [done..|intros _].
      apply andb_true_iff in Es as [_ Es]. case_bool_decide as Hs; [done|]. by rewrite eq_None_not_Some.
    + exists id, false. split_and!; [done..|intros _]. split; [by eapply first_free_unused|done].
  - exists base, false. split_and!; [done..|intros _]. by rewrite eq_None_not_Some.
Qed.

(** The only row that holds the new content is the new one. *)
Lemma resolve_after_insert db d p sr vf vu op :
  (∀ j, ¬ holds db (d_wing d) (d_room d) (d_content d) p j) →
  resolve_ingest_drawer_id
    (with_drawers db (<[d_id d := drawer_to_row d p sr vf vu op]> (db_drawers db)))
    (d_wing d) (d_room d) (d_content d) p = Some (d_id d, true).
Proof.
  intros Hno. set (db' := with_drawers _ _).
  assert (Hh : holds db' (d_wing d) (d_room d) (d_content d) p (d_id d)).
  { exists (drawer_to_row d p sr vf vu op). unfold same_place. simpl.
    rewrite lookup_insert_eq, String.eqb_refl, !bool_decide_true by done. done. }
  assert (Huniq : ∀ j, holds db' (d_wing d) (d_room d) (d_content d) p j → j = d_id d).
  { intros j (row & Hl & Hrest). destruct (decide (j = d_id d)) as [->|Hj]; [done|].
    simpl in Hl. rewrite lookup_insert_ne in Hl by done. exfalso. apply (Hno j). by exists row. }
  destruct (resolve_spec db' (d_wing d) (d_room d) (d_content d) p) as (id & [] & -> & Ht & Hf).
  - destruct (Ht eq_refl) as [Hid _]. by rewrite (Huniq _ Hid).
  - destruct (Hf eq_refl) as [_ Hn]. by destruct (Hn _ Hh).
Qed.

(** ** Deleting *)

(** A reference to the drawer from a row that is not its own. *)
Definition refers (db : Db) (id : string) : Prop :=
  id ∈ db_links db
  ∨ (∃ c, c ∈ db_consolidations db ∧ c_target c = id)
  ∨ (∃ k t, db_triples db !! k = Some t ∧ t_source_drawer t = Some id)
  ∨ (∃ i row, i ≠ id ∧ db_drawers db !! i = Some row ∧ (r_supersedes row = Some id ∨ r_compacted_into row = Some id)).

Lemma existsb_elem {A} (f : A → bool) l : existsb f l = true ↔ ∃ x, x ∈ l ∧ f x = true.
Proof. rewrite existsb_exists. setoid_rewrite list_elem_of_In. done. Qed.

Lemma referenced_spec db id :
  db_drawers db !! id = None → (referenced db id = true ↔ refers db id).
Proof.
  intros Hn. unfold referenced, refers. rewrite !orb_true_iff, bool_decide_eq_true, !existsb_elem.
  setoid_rewrite String.eqb_eq. setoid_rewrite orb_true_iff. setoid_rewrite bool_decide_eq_true.
  split.
  - intros [[[?|(c & ? & ?)]|([k t] & Hk%elem_of_map_to_list & ?)]|([i row] & Hi%elem_of_map_to_list & ?)];
      simpl in *.
    + by left.
    + right; left. eauto.
    + do 2 right; left. by exists k, t.
    + do 3 right. exists i, row. split_and!; [|done..]. intros ->. congruence.
  - intros [?|[(c & ? & ?)|[(k & t & ? & ?)|(i & row & ? & ? & ?)]]].
    + by do 3 left.
    + do 2 left; right. by exists c.
    + left; right. exists (k, t). by rewrite elem_of_map_to_list.
    + right. exists (i, row). by rewrite elem_of_map_to_list.
Qed.

Lemma referenced_deleted db id :
  referenced (with_drawers db (delete id (db_drawers db))) id = true ↔ refers db id.
Proof.
  rewrite referenced_spec by (simpl; apply lookup_delete_eq). unfold refers. simpl.
  split; intros [?|[?|[?|(i & row & Hi & Hl & ?)]]]; eauto 6; do 3 right; exists i, row; split_and!; try done.
  - by rewrite lookup_delete_ne in Hl.
  - by rewrite lookup_delete_ne.
Qed.

(** The sources of the triples, with those of the deleted drawers forgotten. *)
Definition forget_sources (ids : list string) (t : Triple) : Triple :=
  match t_source_drawer t with
  | Some id =>
      if bool_decide (id ∈ ids)
      then MkTriple (t_subject t) (t_predicate t) (t_object t) (t_valid_from t) (t_valid_to t) (t_confidence t) None
      else t
  | None => t
  end.

Lemma forget_sources_cons id ids t : forget_sources ids (forget_source id t) = forget_sources (id :: ids) t.
Proof.
  unfold forget_source, forget_sources. destruct (t_source_drawer t) as [s|] eqn:Es; simpl.
  - destruct (decide (s = id)) as [->|Hs].
    + rewrite bool_decide_true by done. simpl. by rewrite bool_decide_true by set_solver.
    + rewrite bool_decide_false by congruence. rewrite Es.
      rewrite (bool_decide_ext (s ∈ id :: ids) (s ∈ ids)) by set_solver. done.
  - by rewrite Es.
Qed.

(** What a run of deletions leaves. *)
Definition purged (ids : list string) (db db' : Db) : Prop :=
  (∀ i, db_drawers db' !! i = if bool_decide (i ∈ ids) then None else db_drawers db !! i)
  ∧ db_triples db' = forget_sources ids <$> db_triples db
  ∧ db_links db' = db_links db ∧ db_consolidations db' = db_consolidations db ∧ db_audit db' = db_audit db.

Lemma purged_nil db : purged [] db db.
Proof.
  split_and!; try done. rewrite <- (map_fmap_id (db_triples db)) at 1. apply map_fmap_ext.
  intros i t _. unfold forget_sources. destruct (t_source_drawer t); [|done].
  by rewrite bool_decide_false by set_solver.
Qed.

Lemma purged_cons id ids db db1 db' :
  db_drawers db1 = delete id (db_drawers db) → db_triples db1 = forget_source id <$> db_triples db →
  db_links db1 = db_links db → db_consolidations db1 = db_consolidations db → db_audit db1 = db_audit db →
  purged ids db1 db' → purged (id :: ids) db db'.
Proof.
  intros Hd Ht Hl Hc Ha (Hd' & Ht' & Hl' & Hc' & Ha'). split_and!; [|rewrite Ht', Ht|congruence..].
  - intros i. rewrite Hd', Hd. destruct (decide (i = id)) as [->|Hi].
    + rewrite lookup_delete_eq, (bool_decide_true (id ∈ id :: ids)) by set_solver. by case_bool_decide.
    + rewrite lookup_delete_ne by done. by rewrite (bool_decide_ext (i ∈ id :: ids) (i ∈ ids)) by set_solver.
  - rewrite <- map_fmap_compose. apply map_fmap_ext. intros i t _. apply forget_sources_cons.
Qed.

(** The rows of a purge whose statements run, one after the other. *)
Fixpoint clean_purge (ids : list string) (db : Db) : result Db StoreError :=
  match ids with
  | [] => Ok db
  | id :: rest => let? (db, _) := delete_where id (fun _ => true) (clear_source id db) in clean_purge rest db
  end.

Lemma clean_purge_ok ids db db' :
  Forall (λ id, is_Some (db_drawers db !! id)) ids → NoDup ids →
  clean_purge ids db = Ok db' → purged ids db db'.
Proof.
  revert db. induction ids as [|id ids IH]; simpl; intros db Hin Hnd Hp.
  { simplify_eq. apply purged_nil. }
  apply Forall_cons in Hin as [[row Hrow] Hin]. apply NoDup_cons in Hnd as [Hid Hnd].
  unfold delete_where in Hp. simpl in Hp. rewrite Hrow in Hp. simpl in Hp.
  destruct (referenced _ _); [done|]. eapply purged_cons; [..|apply IH; [|done|exact Hp]]; try done. simpl.
  eapply Forall_impl; [apply Forall_and; split; [exact Hin|]|]. 
  { apply Forall_forall. intros x Hx. exact Hx. }
  intros x [Hx ?]. rewrite lookup_delete_ne; [done|]. by intros ->.
Qed.

(** Deleting rows and forgetting sources makes no reference. *)
Lemma refers_clear id db x : refers (clear_source id db) x → refers db x.
Proof.
  intros [?|[?|[(k & t & Hk & Hs)|?]]]; unfold refers; eauto.
  simpl in Hk. rewrite lookup_fmap in Hk. destruct (db_triples db !! k) as [t0|] eqn:Et; simplify_eq/=.
  do 2 right; left. exists k, t0. split; [done|]. revert Hs. unfold forget_source. case_bool_decide; done.
Qed.

Lemma refers_delete id db x : refers (with_drawers db (delete id (db_drawers db))) x → refers db x.
Proof.
  intros [?|[?|[?|(i & row & Hi & Hl & ?)]]]; unfold refers; eauto.
  simpl in Hl. apply lookup_delete_Some in Hl as [_ Hl]. do 3 right. eauto 6.
Qed.

(** A purge that fails met a drawer to delete that a row refers to. *)
Lemma clean_purge_err ids db e :
  clean_purge ids db = Err e → e = ConstraintViolation ∧ ∃ id, id ∈ ids ∧ refers db id.
Proof.
  revert db. induction ids as [|id ids IH]; simpl; intros db Hp; [done|].
  unfold delete_where in Hp. simpl in Hp. destruct (db_drawers db !! id) as [row|] eqn:El; simpl in Hp.
  - destruct (referenced _ _) eqn:Er; simplify_eq.
    + split; [done|]. exists id. split; [set_solver|].
      by apply (referenced_deleted (clear_source id db)), refers_clear in Er.
    + destruct (IH _ Hp) as (-> & x & Hx & Hr). split; [done|]. exists x. split; [set_solver|].
      by apply (refers_delete id (clear_source id db)), refers_clear in Hr.
  - destruct (IH _ Hp) as (-> & x & Hx & Hr%refers_clear). split; [done|]. exists x. split; [set_solver|done].
Qed.

(** A reference that no deletion removes refuses the purge. *)
Definition holds_on (db : Db) (ids : list string) (id : string) : Prop :=
  id ∈ db_links db
  ∨ (∃ c, c ∈ db_consolidations db ∧ c_target c = id)
  ∨ (∃ i row, (i ∉ ids) ∧ db_drawers db !! i = Some row
              ∧ (r_supersedes row = Some id ∨ r_compacted_into row = Some id)).

Lemma holds_on_mono db ids x id :
  holds_on db (x :: ids) id → holds_on (with_drawers (clear_source x db) (delete x (db_drawers db))) ids id.
Proof.
  intros [?|[?|(i & row & Hi & Hl & ?)]]; unfold holds_on; eauto.
  do 2 right. exists i, row. apply not_elem_of_cons in Hi as [? ?]. split_and!; try done. simpl.
  by rewrite lookup_delete_ne.
Qed.

Lemma holds_on_refers db ids id : id ∈ ids → holds_on db ids id → refers db id.
Proof.
  intros Hid [?|[?|(i & row & Hi & ? & ?)]]; unfold refers; eauto.
  do 3 right. exists i, row. split_and!; try done. set_solver.
Qed.

Lemma clean_purge_refused ids db id :
  Forall (λ id, is_Some (db_drawers db !! id)) ids → NoDup ids →
  id ∈ ids → holds_on db ids id → clean_purge ids db = Err ConstraintViolation.
Proof.
  revert db. induction ids as [|x ids IH]; simpl; intros db Hin Hnd Hid Hh; [set_solver|].
  apply Forall_cons in Hin as [[row Hrow] Hin]. apply NoDup_cons in Hnd as [Hx Hnd].
  unfold delete_where. simpl. rewrite Hrow. simpl.
  destruct (referenced _ _) eqn:Er; [done|].
  apply elem_of_cons in Hid as [->|Hid].
  - exfalso. apply not_true_iff_false in Er. apply Er, (referenced_deleted (clear_source x db)).
    by eapply holds_on_refers; [apply list_elem_of_here|].
  - apply IH; [|done|done|by apply holds_on_mono]. simpl.
    apply Forall_forall. intros y Hy. rewrite Forall_forall in Hin. rewrite lookup_delete_ne; [by apply Hin|].
    by intros ->.
Qed.

Lemma elem_purgeable before db id :
  id ∈ purgeable_ids before db ↔ ∃ row, db_drawers db !! id = Some row ∧ purgeable before row = true.
Proof.
  unfold purgeable_ids. rewrite list_elem_of_In, in_map_iff. split.
  - intros ([i row] & <- & [Hin%list_elem_of_In%elem_of_map_to_list Hp]%filter_In). eauto.
  - intros (row & Hl & Hp). exists (id, row). split; [done|]. apply filter_In.
    by rewrite <- list_elem_of_In, elem_of_map_to_list.
Qed.

Lemma NoDup_map_filter {A B} (f : A → B) (P : A → bool) l : NoDup (map f l) → NoDup (map f (List.filter P l)).
Proof.
  induction l as [|x l IH]; simpl; [done|]. intros [Hx Hl]%NoDup_cons. destruct (P x); simpl; [|by apply IH].
  apply NoDup_cons. split; [|by apply IH]. intros Hin. apply Hx. rewrite !list_elem_of_In, !in_map_iff in *.
  destruct Hin as (y & <- & [Hy _]%filter_In). eauto.
Qed.

Lemma purge_rows `{!StoreLaws E} before db :
  NoDup (plan (purgeable_ids before db))
  ∧ Forall (λ id, is_Some (db_drawers db !! id)) (plan (purgeable_ids before db)).
Proof.
  rewrite plan_permutes. split.
  - apply NoDup_map_filter. apply NoDup_fst_map_to_list.
  - apply Forall_forall. intros id (row & -> & _)%elem_purgeable. by eexists.
Qed.

Lemma purged_purgeable before db db' ids :
  ids ≡ₚ purgeable_ids before db → purged ids db db' →
  (∀ i, db_drawers db' !! i = match db_drawers db !! i with
                              | Some row => if purgeable before row then None else Some row
                              | None => None
                              end)
  ∧ db_triples db' = forget_sources (purgeable_ids before db) <$> db_triples db
  ∧ db_links db' = db_links db ∧ db_consolidations db' = db_consolidations db ∧ db_audit db' = db_audit db.
Proof.
  intros Hperm (Hd & Ht & Hl & Hc & Ha). split_and!; try done.
  - intros i. rewrite Hd. destruct (db_drawers db !! i) as [row|] eqn:Ei; [|by case_bool_decide].
    rewrite (bool_decide_ext _ (purgeable before row = true)).
    { case_bool_decide as Hb; [by rewrite Hb|by apply not_true_iff_false in Hb as ->]. }
    rewrite Hperm, elem_purgeable. naive_solver.
  - rewrite Ht. apply map_fmap_ext. intros k t _. unfold forget_sources.
    destruct (t_source_drawer t) as [x|]; [|done].
    by rewrite (bool_decide_ext (x ∈ ids) (x ∈ purgeable_ids before db)) by (by rewrite Hperm).
Qed.

(** ** Compacting *)
Definition is_source (target : string) (source_ids : list string) (id : string) : Prop :=
  id ∈ source_ids ∧ id ≠ target.

Lemma compact_sources_ok now target ids db db' :
  compact_sources now target ids db = Ok db' →
  (∀ id, is_source target ids id → ∃ row, db_drawers db !! id = Some row ∧ compactable row = true
                                          ∧ db_drawers db' !! id = Some (set_compacted now target row))
  ∧ (∀ id, ¬ is_source target ids id → db_drawers db' !! id = db_drawers db !! id)
  ∧ db' = with_drawers db (db_drawers db').
Proof.
  unfold is_source. revert db. induction ids as [|x ids IH]; simpl; intros db Hc.
  { simplify_eq. destruct db'. split_and!; [intros ? [?%elem_of_nil ?]|..]; done. }
  destruct (String.eqb_spec x target) as [->|Hx].
  { destruct (IH _ Hc) as (H1 & H2 & H3). split_and!; [..|done].
    - intros id [[->|?]%elem_of_cons ?]; [done|]. by apply H1.
    - intros id Hid. apply H2. set_solver.
  }
  destruct (update_where x compactable (set_compacted now target) db) as [db1 n] eqn:Eu.
  destruct (update_where_spec _ _ _ _ _ _ Eu) as [(row & Hrow & Hcomp & -> & ->)|(-> & -> & _)]; [|done].
  simpl in Hc. destruct (IH _ Hc) as (H1 & H2 & H3). simpl in *.
  assert (Hnot : ¬ (x ∈ ids ∧ x ≠ target)).
  { intros Hs. destruct (H1 _ Hs) as (row' & Hl & Hcomp' & _). rewrite lookup_insert_eq in Hl. simplify_eq. }
  split_and!; [..|done].
  - intros id [[->|Hid]%elem_of_cons Hne].
    + exists row. split_and!; try done. rewrite H2 by done. apply lookup_insert_eq.
    + assert (id ≠ x) by (intros ->; by apply Hnot). destruct (H1 id) as (row' & Hl & ? & ?); [done|].
      rewrite lookup_insert_ne in Hl by done. eauto.
  - intros id Hid. rewrite H2 by set_solver. apply lookup_insert_ne. set_solver.
Qed.

Lemma compact_sources_total now target ids db :
  NoDup (filter (λ id, id ≠ target) ids) →
  (∀ id, is_source target ids id → ∃ row, db_drawers db !! id = Some row ∧ compactable row = true) →
  is_ok (compact_sources now target ids db) = true.
Proof.
  unfold is_source. revert db. induction ids as [|x ids IH]; simpl; [done|]. intros db Hnd Hall.
  rewrite filter_cons in Hnd. destruct (String.eqb_spec x target) as [->|Hx].
  { rewrite decide_False in Hnd by tauto. apply IH; [done|]. intros id [??]. apply Hall. set_solver. }
  rewrite decide_True in Hnd by done. apply NoDup_cons in Hnd as [Hnot Hnd].
  destruct (Hall x) as (row & Hrow & Hcomp); [set_solver|].
  unfold update_where. rewrite Hrow, Hcomp. simpl. apply IH; [done|]. intros id [Hid Hne]. simpl.
  rewrite lookup_insert_ne; [apply Hall; set_solver|]. intros ->. apply Hnot. by apply list_elem_of_filter.
Qed.

Definition logged (db : Db) (now target : string) (source_ids : list string) (merged : string) (row : Row) (db' : Db)
    : Prop :=
  db_drawers db' !! target
    = Some (set_content merged (content_hash_hex merged) (Some now)
              (Some (default 0 (r_merge_count row) + Z.of_nat (pred (length source_ids)))) row)
  ∧ db_consolidations db' = (db_consolidations db
      ++ [MkConsolidation (r_wing row) (r_room row) (r_project_id row)
            (Z.of_nat (length source_ids)) target source_ids])%list.

Lemma compaction_body_ok now target ids merged db db' u :
  compaction_body now target ids merged db = Ok (db', u) →
  (∃ row, db_drawers db !! target = Some row ∧ compactable row = true ∧ logged db now target ids merged row db')
  ∧ (∀ id, is_source target ids id →
       ∃ row, db_drawers db !! id = Some row ∧ compactable row = true
              ∧ db_drawers db' !! id = Some (set_compacted now target row))
  ∧ (∀ id, id ≠ target → ¬ is_source target ids id → db_drawers db' !! id = db_drawers db !! id)
  ∧ db_triples db' = db_triples db ∧ db_links db' = db_links db ∧ db_audit db' = db_audit db.
Proof.
  unfold compaction_body. destruct (db_drawers db !! target) as [row|] eqn:Et; [|done].
  destruct (compactable row) eqn:Ec; [|done]. unfold update_where. rewrite Et, Ec. cbn [Z.eqb Pos.eqb].
  destruct (compact_sources _ _ _ _) as [db2|e] eqn:Es; [|done]. intros [= <- _].
  destruct (compact_sources_ok _ _ _ _ _ Es) as (H1 & H2 & H3). rewrite H3. simpl in *.
  split_and!; try done.
  - exists row. split_and!; [done..|]. split; [|done]. simpl. rewrite H2 by (intros [_ ?]; done).
    apply lookup_insert_eq.
  - intros id Hs. destruct (H1 id Hs) as (r & Hl & ? & ?). destruct Hs as [_ Hne].
    rewrite lookup_insert_ne in Hl by done. eauto.
  - intros id Hne Hs. rewrite H2 by done. by apply lookup_insert_ne.
Qed.

Lemma compaction_body_total now target ids merged db :
  NoDup (filter (λ id, id ≠ target) ids) →
  (∀ id, id ∈ target :: ids → ∃ row, db_drawers db !! id = Some row ∧ compactable row = true) →
  is_ok (compaction_body now target ids merged db) = true.
Proof.
  intros Hnd Hall. unfold compaction_body. destruct (Hall target) as (row & Et & Ec); [set_solver|].
  unfold update_where. rewrite Et, Ec. cbn [Z.eqb Pos.eqb].
  pose proof (compact_sources_total now target ids
    (with_drawers db (<[target := set_content merged (content_hash_hex merged) (Some now)
       (Some (default 0 (r_merge_count row) + Z.of_nat (pred (length ids)))) row]> (db_drawers db))) Hnd) as Ht.
  destruct (compact_sources _ _ _ _); [done|]. apply Ht. intros id [Hid Hne]. simpl.
  rewrite lookup_insert_ne by done. apply Hall. set_solver.
Qed.

(** ** Pinned facts *)
Lemma char_count_nonneg s : 0 <= char_count s.
Proof. induction s as [|c s IH]; simpl; [lia|]. destruct (is_continuation c); lia. Qed.

Lemma take_chars_count n s : 0 <= n → char_count (take_chars n s) <= n.
Proof.
  revert n. induction s as [|c s IH]; intros n Hn; simpl; [lia|].
  destruct (is_continuation c) eqn:Ec; simpl; [rewrite Ec; by apply IH|].
  destruct (Z.leb_spec n 0); simpl; [lia|]. rewrite Ec. specialize (IH (n - 1)). lia.
Qed.

Definition total_chars (ds : list Drawer) : Z := foldr Z.add 0 ((fun d => char_count (d_content d)) <$> ds).

Lemma total_chars_cons d ds : total_chars (d :: ds) = char_count (d_content d) + total_chars ds.
Proof. done. Qed.

Lemma facts_within_budget_total budget used rows :
  used <= budget → total_chars (facts_within_budget budget used rows) <= budget - used.
Proof.
  revert used. induction rows as [|d rows IH]; intros used Hu; simpl.
  { unfold total_chars. simpl. lia. }
  destruct (Z.leb_spec budget used); [unfold total_chars; simpl; lia|].
  destruct (Z.leb_spec (char_count (d_content d)) (budget - used)).
  - rewrite total_chars_cons. specialize (IH (used + char_count (d_content d)) ltac:(lia)). lia.
  - unfold total_chars. simpl. pose proof (take_chars_count (budget - used) (d_content d) ltac:(lia)). lia.
Qed.

Lemma facts_within_budget_prefix budget used rows :
  ∃ k, facts_within_budget budget used rows = take k rows
       ∨ ∃ d n, rows !! k = Some d ∧ 0 < n ∧ n < char_count (d_content d)
                ∧ facts_within_budget budget used rows = (take k rows ++ [truncate_drawer d n])%list.
Proof.
  revert used. induction rows as [|d rows IH]; intros used; simpl; [by exists 0%nat; left|].
  destruct (Z.leb_spec budget used); [by exists 0%nat; left|].
  destruct (Z.leb_spec (char_count (d_content d)) (budget - used)).
  - destruct (IH (used + char_count (d_content d))) as [k [->|(d' & n & Hk & ? & ? & ->)]]; exists (S k).
    + by left.
    + right. by exists d', n.
  - exists 0%nat. right. exists d, (budget - used). split_and!; try done; lia.
Qed.
End facts.

(** *** The purge, with what can fail *)

(** A call that failed. *)
Definition purge_fault (f : purge_faults) (ids : list string) (e : StoreError) : Prop :=
  pf_select f = Some e ∨ pf_exist f = Some e ∨ pf_begin f = Some e ∨ (∃ id k, id ∈ ids ∧ pf_statement f id k = Some e)
  ∨ ∃ rolled_back, pf_commit f = Some (e, rolled_back).

(** The three tables after a purge of [ids]. *)
Definition purged_tables (ids : list string) (t t' : purge_tables) : Prop :=
  clean_purge ids (pt_db t) = Ok (pt_db t')
  ∧ pt_vectors t' = (.∖ list_to_set ids) <$> pt_vectors t ∧ pt_index t' = (.∖ list_to_set ids) <$> pt_index t.

Lemma without_none (o : option (gset string)) : o = (.∖ list_to_set (@nil string)) <$> o.
Proof. destruct o; [|done]. cbn. f_equal. set_solver. Qed.

Lemma without_cons (o : option (gset string)) id (ids : list string) :
  (.∖ list_to_set ids) <$> ((.∖ {[id]}) <$> o) = (.∖ list_to_set (id :: ids)) <$> o.
Proof. destruct o; [|done]. cbn. f_equal. set_solver. Qed.

(** A statement that is only run where its table exists. *)
Lemma unless_failed_spec {A} (b : bool) error (a a0 : A) :
  match (if b then unless_failed error a else Ok a0) with
  | Ok a' => a' = if b then a else a0
  | Err e => error = Some e
  end.
Proof. by destruct b, error. Qed.

Lemma purge_loop_spec f v x ids t : v = bool_decide (is_Some (pt_vectors t)) → x = bool_decide (is_Some (pt_index t)) →
  match purge_loop f v x ids t with
  | Ok t' => purged_tables ids t t'
  | Err e => (∃ id k, id ∈ ids ∧ pf_statement f id k = Some e) ∨ clean_purge ids (pt_db t) = Err e
  end.
Proof.
  revert t. induction ids as [|id ids IH]; intros t Hv Hx.
  { cbn. split; [done|]. split; apply without_none. }
  cbn [purge_loop]. set (t1 := if v then delete_vector id t else t).
  assert (Hfail : ∀ k e, pf_statement f id k = Some e → ∃ id' k, id' ∈ id :: ids ∧ pf_statement f id' k = Some e).
  { intros k e He. exists id, k. split; [left|done]. }
  assert (E1 : pt_db t1 = pt_db t ∧ pt_vectors t1 = (.∖ {[id]}) <$> pt_vectors t ∧ pt_index t1 = pt_index t).
  { clear IH Hx. subst t1 v. case_bool_decide as Hs; [done|]. apply eq_None_not_Some in Hs. by rewrite Hs. }
  destruct E1 as (Ed1 & Ev1 & Ex1).
  pose proof (unless_failed_spec v (pf_statement f id DeleteVector) (delete_vector id t) t) as E1.
  destruct (if v then unless_failed _ _ else _) as [t1'|e]; [|left; eauto]. change (t1' = t1) in E1. subst t1'.
  unfold unless_failed at 1. destruct (pf_statement f id ClearTriples) eqn:Ec; [left; eauto|].
  set (t2 := with_purge_db (clear_source id (pt_db t1)) t1). set (t3 := if x then delete_drawer_fts_row id t2 else t2).
  assert (E3 : pt_db t3 = clear_source id (pt_db t) ∧ pt_vectors t3 = (.∖ {[id]}) <$> pt_vectors t
               ∧ pt_index t3 = (.∖ {[id]}) <$> pt_index t).
  { clear IH Hv. subst t3 t2 x. case_bool_decide as Hs; cbn; rewrite ?Ed1, ?Ev1, ?Ex1; [done|]. apply eq_None_not_Some in Hs. by rewrite Hs. }
  destruct E3 as (Ed3 & Ev3 & Ex3).
  pose proof (unless_failed_spec x (pf_statement f id DeleteFtsRow) (delete_drawer_fts_row id t2) t2) as E3.
  destruct (if x then unless_failed _ _ else _) as [t3'|e]; [|left; eauto]. change (t3' = t3) in E3. subst t3'.
  unfold unless_failed. destruct (pf_statement f id DeleteDrawer) eqn:Ek; [left; eauto|].
  cbn [clean_purge]. unfold purged_tables. cbn [clean_purge]. rewrite Ed3.
  destruct (delete_where id (λ _, true) (clear_source id (pt_db t))) as [[db n]|e]; [|by right].
  specialize (IH (with_purge_db db t3)). cbn [pt_db pt_vectors pt_index with_purge_db] in IH.
  rewrite (bool_decide_ext (is_Some (pt_vectors t3)) (is_Some (pt_vectors t))) in IH by (rewrite Ev3; apply fmap_is_Some).
  rewrite (bool_decide_ext (is_Some (pt_index t3)) (is_Some (pt_index t))) in IH by (rewrite Ex3; apply fmap_is_Some). specialize (IH Hv Hx).
  destruct (purge_loop f v x ids _) as [t'|e].
  - destruct IH as (H1 & H2 & H3). cbn in H1, H2, H3. rewrite H2, H3, Ev3, Ex3, !without_cons. done.
  - destruct IH as [(i & k & Hi & Hk)|H1]; [left; exists i, k; split; [by right|done]|by right].
Qed.

(** What the connection holds afterwards, in the two tables of ids. *)
Definition without_ids (ids : list string) (o : option (gset string)) : option (gset string) := (.∖ list_to_set ids) <$> o.

(** A purge that ran to its end. *)
Definition purge_done (before : option string) (t t' : purge_tables) : Prop :=
  (∀ i, db_drawers (pt_db t') !! i = match db_drawers (pt_db t) !! i with
                                     | Some row => if purgeable before row then None else Some row
                                     | None => None
                                     end)
  ∧ db_triples (pt_db t') = forget_sources (purgeable_ids before (pt_db t)) <$> db_triples (pt_db t)
  ∧ db_links (pt_db t') = db_links (pt_db t) ∧ db_consolidations (pt_db t') = db_consolidations (pt_db t)
  ∧ db_audit (pt_db t') = db_audit (pt_db t)
  ∧ pt_vectors t' = without_ids (purgeable_ids before (pt_db t)) (pt_vectors t)
  ∧ pt_index t' = without_ids (purgeable_ids before (pt_db t)) (pt_index t).

Lemma without_perm (ids ids' : list string) (o : option (gset string)) : ids ≡ₚ ids' → without_ids ids o = without_ids ids' o.
Proof. intros Hp. unfold without_ids. destruct o; [|done]. cbn. by rewrite (list_to_set_perm_L _ _ Hp). Qed.

Lemma purged_done `{L : StoreLaws} before t t' :
  purged_tables (plan (purgeable_ids before (pt_db t))) t t' → purge_done before t t'.
Proof.
  intros (Hc & Hv & Hx). destruct (purge_rows before (pt_db t)) as [Hnd Hin].
  pose proof (plan_permutes (purgeable_ids before (pt_db t))) as Hperm.
  pose proof (purged_purgeable before _ _ _ Hperm (clean_purge_ok _ _ _ Hin Hnd Hc)) as (H1 & H2 & H3 & H4 & H5).
  split_and!; [done..| |].
  - rewrite Hv. by apply without_perm.
  - rewrite Hx. by apply without_perm.
Qed.

(** C36: A purge of the soft-deleted drawers, on a connection without an open
    transaction and with no other writer between its first query and BEGIN, is all or
    nothing for what is committed. When it succeeds, exactly the rows deleted before the
    cut-off are gone, with their vectors and their entries of the full-text index where
    these tables exist; their triples no longer name a source, every other row of every
    modelled table is untouched, the count is theirs and no transaction is open. When it
    fails, nothing committed has changed, and either a call failed with that error (a
    query, BEGIN, one of the four statements for a row, COMMIT) or a drawer to purge was
    still referred to by some row. A transaction is left open only by a COMMIT that
    failed without SQLite rolling it back, and then holds the whole purge, which a later
    COMMIT on this connection would make permanent. *)
Theorem purge_deleted_exact `{L : StoreLaws} f before t c res :
  purge_deleted f before t = (c, res) →
  match res with
  | Ok n =>
      n = Z.of_nat (length (purgeable_ids before (pt_db t))) ∧ cn_open c = None ∧ purge_done before t (cn_committed c)
  | Err e =>
      cn_committed c = t
      ∧ (∀ inside, cn_open c = Some inside → pf_commit f = Some (e, false) ∧ purge_done before t inside)
      ∧ (purge_fault f (purgeable_ids before (pt_db t)) e
         ∨ e = ConstraintViolation ∧ ∃ id, id ∈ purgeable_ids before (pt_db t) ∧ refers (pt_db t) id)
  end.
Proof.
  unfold purge_deleted, purge_fault. intros Hp. pose proof (plan_permutes (purgeable_ids before (pt_db t))) as Hperm.
  destruct (pf_select f) as [e|]; [simplify_eq; split_and!; auto; done|]. pose proof (purged_done before t) as Hdone.
  destruct (plan (purgeable_ids before (pt_db t))) as [|r rest] eqn:Er.
  { simplify_eq. split; [by rewrite <- Hperm|]. split; [done|]. apply Hdone. split; [done|].
    split; apply without_none. }
  destruct (pf_exist f) as [e|]; [simplify_eq; split_and!; auto; done|].
  destruct (pf_begin f) as [e|]; [simplify_eq; split_and!; auto; done|].
  pose proof (purge_loop_spec f _ _ (r :: rest) t eq_refl eq_refl) as Hl.
  destruct (purge_loop _ _ _ _ t) as [t'|e]; cycle 1.
  { simplify_eq. split_and!; [done..|]. destruct Hl as [(id & k & Hid & Hk)|Hc].
    - left. do 3 right. left. exists id, k. by rewrite <- Hperm.
    - right. apply clean_purge_err in Hc as (-> & id & Hid & Hr). split; [done|]. exists id. by rewrite <- Hperm. }
  destruct (pf_commit f) as [[e rolled_back]|] eqn:Ecommit; simplify_eq; cycle 1.
  { split; [by rewrite <- Hperm|]. split; [done|]. by apply Hdone. }
  split_and!; [done| |left; eauto 10]. destruct rolled_back; [done|]. intros inside [= <-]. split; [done|]. by apply Hdone.
Qed.

(** The drawers as the next operation finds them: a transaction that a failing COMMIT has
    left open is [kept] by a later COMMIT, or rolled back. *)
Definition purge_outcome `{E : StoreEnv} (f : purge_faults) (before : option string) (kept : bool) (t : purge_tables) : Db :=
  let c := (purge_deleted f before t).1 in
  pt_db (if kept then default (cn_committed c) (cn_open c) else cn_committed c).

Lemma purge_outcome_cases `{E : StoreEnv} f before kept t :
  purge_outcome f before kept t = pt_db t
  ∨ clean_purge (plan (purgeable_ids before (pt_db t))) (pt_db t) = Ok (purge_outcome f before kept t).
Proof.
  unfold purge_outcome, purge_deleted. destruct (pf_select f); [left; by destruct kept|].
  destruct (plan (purgeable_ids before (pt_db t))) as [|r rest]; [left; by destruct kept|].
  destruct (pf_exist f); [left; by destruct kept|]. destruct (pf_begin f); [left; by destruct kept|].
  pose proof (purge_loop_spec f _ _ (r :: rest) t eq_refl eq_refl) as Hl.
  destruct (purge_loop _ _ _ _ t) as [t'|e]; [|left; by destruct kept]. destruct Hl as [Hl _].
  destruct (pf_commit f) as [[e [|]]|], kept; cbn; auto.
Qed.

(** No call fails. *)
Definition no_faults : purge_faults := MkPurgeFaults None None None (λ _ _, None) None.

(** A drawer that has been replaced can never be purged: as long as a row
    that the purge leaves refers to it through [supersedes] or [compacted_into],
    the foreign key refuses the deletion and the whole purge fails, whatever the
    order of its rows, and changes nothing. *)
Theorem purge_refused `{L : StoreLaws} f before t id row i referrer :
  db_drawers (pt_db t) !! id = Some row → purgeable before row = true →
  db_drawers (pt_db t) !! i = Some referrer → purgeable before referrer = false →
  r_supersedes referrer = Some id ∨ r_compacted_into referrer = Some id →
  (purge_deleted f before t).1 = MkPurgeConn t None ∧ is_ok (purge_deleted f before t).2 = false.
Proof.
  intros Hid Hp Hi Hni Href. unfold purge_deleted. destruct (purge_rows before (pt_db t)) as [Hnd Hin].
  pose proof (plan_permutes (purgeable_ids before (pt_db t))) as Hperm. destruct (pf_select f); [done|].
  assert (Hid' : id ∈ plan (purgeable_ids before (pt_db t))) by (rewrite Hperm; apply elem_purgeable; eauto).
  destruct (plan (purgeable_ids before (pt_db t))) as [|x rest]; [by apply elem_of_nil in Hid'|].
  destruct (pf_exist f); [done|]. destruct (pf_begin f); [done|].
  pose proof (purge_loop_spec f _ _ (x :: rest) t eq_refl eq_refl) as Hl.
  destruct (purge_loop _ _ _ _ t) as [t'|e]; [|done]. destruct Hl as [Hl _].
  rewrite (clean_purge_refused _ _ id) in Hl; try done. do 2 right. exists i, referrer. split_and!; try done.
  rewrite Hperm, elem_purgeable. intros (row' & Hrow' & Hpr). congruence.
Qed.

(** An inserted drawer reads back as it was given, with its importance
    seeded, and no other drawer changes. An identifier in use, deleted or not,
    keeps its row. The insertion succeeds exactly when the anchor fits the domain
    and the identifier is in use or the row meets the constraints: a source type
    that is not the legacy one, and a superseded drawer that exists. *)
Theorem insert_drawer_get `{L : StoreLaws} db d p r vf vu op db' res :
  insert_drawer_with_project_validity_once db d p r vf vu op = (db', res) →
  (res = Ok tt ↔
     validate_anchor_domain (d_domain d) (d_anchor_kind d) = Ok tt
     ∧ (is_Some (db_drawers db !! d_id d)
        ∨ (d_source_type d ≠ Manual
           ∧ ∀ old, d_supersedes d = Some old → old = d_id d ∨ is_Some (db_drawers db !! old))))
  ∧ (res ≠ Ok tt ∨ is_Some (db_drawers db !! d_id d) → db' = db)
  ∧ (res = Ok tt → db_drawers db !! d_id d = None → get_drawer db' (d_id d) = Ok (Some (stored_drawer d)))
  ∧ (∀ i, i ≠ d_id d → get_drawer db' i = get_drawer db i).
Proof.
  intros Hi. pose proof (insert_once_spec _ _ _ _ _ _ _ _ _ Hi) as Hs.
  split; [|destruct Hs as [(-> & Hr)|(Hn & -> & Hm & Ha & Hsup & ->)]; split_and!].
  - rewrite (insert_once_ok _ _ _ _ _ _ _ _ _ Hi). done.
  - done.
  - intros -> Hn. destruct Hr as [[_ [x Hx]]|Hr]; [congruence|done].
  - done.
  - intros [?|[x Hx]]; [done|congruence].
  - intros _ _. by apply get_inserted.
  - intros i Hne. unfold get_drawer, active_row. simpl. by rewrite lookup_insert_ne.
Qed.

(** New content always finds an identifier: the loop over suffixes ends. It
    is that of the first active drawer that already holds this content in this
    place, if any; otherwise it is one no row uses, deleted ones included, so the
    insertion is not skipped: the drawer reads back, and ingesting the same
    content again finds it. *)
Theorem ingest_identity `{E : StoreEnv} `{L : !StoreLaws E} db wing room content p :
  ∃ id existing, resolve_ingest_drawer_id db wing room content p = Some (id, existing)
    ∧ (existing = true → holds db wing room content p id
                         ∧ ∀ j, holds db wing room content p j → not_gt (String.compare id j) = true)
    ∧ (existing = false →
         db_drawers db !! id = None ∧ (∀ j, ¬ holds db wing room content p j)
         ∧ ∀ d sr vf vu op db',
             d_id d = id → d_wing d = wing → d_room d = room → d_content d = content →
             insert_drawer_with_project_validity_once db d p sr vf vu op = (db', Ok tt) →
             get_drawer db' id = Ok (Some (stored_drawer d))
             ∧ resolve_ingest_drawer_id db' wing room content p = Some (id, true)).
Proof.
  destruct (resolve_spec db wing room content p) as (id & existing & Hr & Ht & Hf).
  exists id, existing. split_and!; [done..|]. intros He. destruct (Hf He) as [Hn Hno].
  split_and!; [done..|]. intros d sr vf vu op db' Hid <- <- <- Hins. subst id.
  destruct (insert_once_spec _ _ _ _ _ _ _ _ _ Hins) as [(_ & [[_ [x Hx]]|?])|(_ & _ & Hm & Ha & _ & ->)];
    [congruence|done|]. split; [by apply get_inserted|].
  eapply resolve_after_insert; eauto.
Qed.

(** Compaction is all or nothing. It fails, changing nothing, unless there
    are sources, the target is active and not compacted itself, and so are the
    other sources, each named once; then the target holds the merged content, each
    other source is deleted and points at the target, no other row changes and
    the log has one more entry. *)
Theorem apply_compaction_atomic `{E : StoreEnv} now target source_ids merged db db' res :
  apply_compaction now target source_ids merged db = (db', res) →
  (is_ok res = false → db' = db)
  ∧ (source_ids ≠ [] → NoDup (filter (λ id, id ≠ target) source_ids) →
     (∀ id, id ∈ target :: source_ids → ∃ row, db_drawers db !! id = Some row ∧ compactable row = true) →
     res = Ok tt)
  ∧ (res = Ok tt →
       (∃ row, db_drawers db !! target = Some row ∧ compactable row = true
               ∧ logged db now target source_ids merged row db')
       ∧ (∀ id, is_source target source_ids id →
            ∃ row, db_drawers db !! id = Some row ∧ compactable row = true
                   ∧ db_drawers db' !! id = Some (set_compacted now target row))
       ∧ (∀ id, id ≠ target → ¬ is_source target source_ids id → db_drawers db' !! id = db_drawers db !! id)
       ∧ db_triples db' = db_triples db ∧ db_links db' = db_links db ∧ db_audit db' = db_audit db).
Proof.
  unfold apply_compaction. destruct source_ids as [|s0 rest]; [naive_solver|].
  set (ids := s0 :: rest). intros Hc. pose proof (compaction_body_ok now target ids merged db) as Hok.
  pose proof (compaction_body_total now target ids merged db) as Htot.
  destruct (compaction_body now target ids merged db) as [[db1 []]|e]; simpl in Hc; simplify_eq; split_and!; try done.
  - intros _. by eapply Hok.
  - intros _ Hnd Hall. exfalso. by discriminate (Htot Hnd Hall).
Qed.

(** The pinned facts returned are the first ones in pin order, whole, save
    that the last may be cut short, and together they have no more characters
    than the budget. *)
Theorem pinned_facts_budget `{E : StoreEnv} db project_id budget facts :
  0 <= budget → get_pinned_facts db project_id budget = Ok facts →
  total_chars facts <= budget
  ∧ ((budget = 0 ∧ facts = [])
     ∨ ∃ rows k,
         decode_rows (sort_by (fun a b => not_gt (pinned_first a b))
           (List.filter (fun e => pinned_fact project_id e.2) (map_to_list (db_drawers db)))) = Ok rows
         ∧ (facts = take k rows
            ∨ ∃ d n, rows !! k = Some d ∧ 0 < n ∧ n < char_count (d_content d)
                     ∧ facts = (take k rows ++ [truncate_drawer d n])%list)).
Proof.
  intros Hb. unfold get_pinned_facts. destruct (Z.eqb_spec budget 0) as [->|Hne].
  { intros [= <-]. split; [done|]. by left. }
  destruct (decode_rows _) as [rows|e]; [|done]. intros [= <-]. split.
  - pose proof (facts_within_budget_total budget 0 rows Hb). lia.
  - right. destruct (facts_within_budget_prefix budget 0 rows) as [k Hk]. by exists rows, k.
Qed.

(** ** A short history

    A drawer, its replacement linked to it, and the old one superseded. *)
Import Plain.

Module Demo.
Definition empty_db : Db := MkDb ∅ ∅ ∅ [] [].
Definition old_drawer : Drawer :=
  new_bootstrap_evidence "drawer_w_r_1" "old text" "w" (Some "r") None AgentInference "100" None 3.
Definition new_drawer : Drawer :=
  link_superseded_drawer
    (new_bootstrap_evidence "drawer_w_r_2" "new text" "w" (Some "r") None AgentInference "200" None 3) "drawer_w_r_1".
Definition one : Db := (insert_drawer empty_db old_drawer).1.
Definition two : Db := (insert_drawer one new_drawer).1.
Definition replaced : Db := (supersede_drawer "201" "drawer_w_r_1" "newer" true two).1.
End Demo.

(** A deleted drawer with a vector, in a database without a full-text index. *)
Definition trashed : purge_tables :=
  MkPurgeTables (soft_delete_drawer "300" "drawer_w_r_1" Demo.one).1 (Some {["drawer_w_r_1"; "drawer_w_r_2"]}) None.

Lemma purge_deleted_exact_witness :
  (purge_deleted no_faults None trashed).2 = Ok 1
  ∧ db_drawers (pt_db (cn_committed (purge_deleted no_faults None trashed).1)) !! "drawer_w_r_1" = None
  ∧ pt_vectors (cn_committed (purge_deleted no_faults None trashed).1) = Some {["drawer_w_r_2"]}.
Proof.
  destruct (purge_deleted no_faults None trashed) as [c res] eqn:Hp.
  pose proof (purge_deleted_exact no_faults None trashed c res Hp) as Hs.
  assert (Hr : res = Ok 1) by (change res with (c, res).2; rewrite <- Hp; vm_compute; reflexivity).
  rewrite Hr in Hs. destruct Hs as (_ & _ & Hd & _ & _ & _ & _ & Hv & _). cbn [fst snd]. split; [exact Hr|].
  rewrite Hd, Hv. split; vm_compute; reflexivity.
Defined.

(** A busy COMMIT: nothing is committed, and the transaction with the whole purge stays
    open on the connection, where the next BEGIN finds it. *)
Example commit_left_open :
  let '(c, res) := purge_deleted (MkPurgeFaults None None None (λ _ _, None) (Some (AuditFailed, false))) None trashed in
  is_ok res = false ∧ pt_vectors (cn_committed c) = pt_vectors trashed
  ∧ (pt_vectors <$> cn_open c) = Some (Some {["drawer_w_r_2"]}).
Proof. vm_compute. done. Qed.

Lemma purge_refused_witness :
  (supersede_drawer "201" "drawer_w_r_1" "newer" true Demo.two).2 = Ok true
  ∧ (purge_deleted no_faults None (MkPurgeTables Demo.replaced None None)).1
    = MkPurgeConn (MkPurgeTables Demo.replaced None None) None.
Proof.
  split; [vm_compute; reflexivity|].
  refine (proj1 (purge_refused no_faults None (MkPurgeTables Demo.replaced None None) "drawer_w_r_1" _ "drawer_w_r_2" _ _ _ _ _ _));
    [vm_compute; reflexivity..|left; vm_compute; reflexivity].
Defined.

Lemma insert_drawer_get_witness :
  get_drawer Demo.two "drawer_w_r_2" = Ok (Some (stored_drawer Demo.new_drawer)).
Proof.
  destruct (insert_drawer Demo.one Demo.new_drawer) as [db' res] eqn:Hi.
  assert (Hr : res = Ok tt) by (change res with (db', res).2; rewrite <- Hi; vm_compute; reflexivity).
  replace Demo.two with db' by (unfold Demo.two; rewrite Hi; reflexivity).
  apply (insert_drawer_get Demo.one Demo.new_drawer None None None None None db' res Hi);
    [exact Hr|vm_compute; reflexivity].
Defined.

Lemma ingest_identity_witness :
  ∃ id, resolve_ingest_drawer_id Demo.one "w" (Some "r") "other text" None = Some (id, false)
        ∧ db_drawers Demo.one !! id = None.
Proof.
  destruct (ingest_identity Demo.one "w" (Some "r") "other text" None) as (id & existing & Hr & _ & Hf).
  exists id. assert (He : existing = false).
  { vm_compute in Hr. congruence. }
  rewrite He in Hr. split; [exact Hr|]. exact (proj1 (Hf He)).
Defined.

Lemma apply_compaction_atomic_witness :
  let ids := ["drawer_w_r_1"; "drawer_w_r_2"] in
  (apply_compaction "300" "drawer_w_r_2" ids "both" Demo.two).2 = Ok tt
  ∧ (apply_compaction "300" "drawer_w_r_2" ["drawer_w_r_1"; "drawer_none"] "both" Demo.two).1 = Demo.two.
Proof.
  split.
  - destruct (apply_compaction "300" "drawer_w_r_2" ["drawer_w_r_1"; "drawer_w_r_2"] "both" Demo.two)
      as [db' res] eqn:Hc.
    pose proof (apply_compaction_atomic _ _ _ _ _ _ _ Hc) as (_ & Hok & _).
    simpl. apply Hok; [done|rewrite <- (bool_decide_spec (NoDup _)); vm_compute; exact I|].
    intros id Hid. apply elem_of_cons in Hid as [->|Hid]; [eexists; split; vm_compute; reflexivity|].
    apply elem_of_cons in Hid as [->|Hid]; [eexists; split; vm_compute; reflexivity|].
    apply list_elem_of_singleton in Hid as ->. eexists; split; vm_compute; reflexivity.
  - destruct (apply_compaction "300" "drawer_w_r_2" ["drawer_w_r_1"; "drawer_none"] "both" Demo.two)
      as [db' res] eqn:Hc.
    apply (apply_compaction_atomic _ _ _ _ _ _ _ Hc).
    change res with (db', res).2. rewrite <- Hc. vm_compute. reflexivity.
Defined.

Lemma pinned_facts_budget_witness :
  let db := (pin_drawer "drawer_w_r_2" None (pin_drawer "drawer_w_r_1" None Demo.two).1).1 in
  match get_pinned_facts db None 12 with Ok facts => total_chars facts = 12 ∧ total_chars facts <= 12 | Err _ => False end.
Proof.
  intros db. destruct (get_pinned_facts db None 12) as [facts|e] eqn:Hg.
  - split; [|apply (pinned_facts_budget db None 12 facts ltac:(lia) Hg)].
    replace facts with (match get_pinned_facts db None 12 with Ok f => f | Err _ => [] end) by (rewrite Hg; reflexivity).
    vm_compute. reflexivity.
  - vm_compute in Hg. discriminate.
Defined.
