(* ===== verification/Knowledge.v ===== *)
(** * Governed knowledge

    The promotion gate, the lifecycle, the distillation of evidence and the
    publication of anchors: [src/src/knowledge_gate.rs],
    [src/src/knowledge_lifecycle.rs], [src/src/knowledge_distill.rs],
    [src/src/knowledge_anchor.rs] and the anchors of [src/src/core/anchor.rs], over
    the drawer table. Each operation runs under the content writer lease, so its
    reads and its update meet the same table; the audit line is written last, and
    may fail. *)

From Stdlib Require Import ZArith QArith Lia String Ascii.
From stdpp Require Import base tactics list gmap strings numbers sets.
From S2P Require Import Prelude Order Text Drawer DrawerStore.
Close Scope Q_scope.
Open Scope Z_scope.
Open Scope string_scope.
Open Scope rust_scope.

(** ** Errors *)
Inductive KnowledgeError :=
  | UnsupportedStatus (value : string)
  | PromoteTarget
  | DemoteTarget
  | UnsupportedReasonType (value : string)
  | LookupFailed (e : StoreError)
  | DrawerNotFound (id : string)
  | NotKnowledge
  | MissingMetadata
  | TierStatus (message : string)
  | RefsRequired (what : string)
  | NotDrawerIds (what : string)
  | RefLookupFailed (id : string) (e : StoreError)
  | RefNotFound (id : string)
  | NotEvidence (what : string)
  | GateFailed (reasons : list string)
  | MissingStatusPanic
  | AuditLogFailed
  | ImportanceRange
  | EmptyField (field : string)
  | UnsupportedDomain (value : string)
  | UnsupportedTier (value : string)
  | DistillTier
  | AnchorDomain (message : string)
  | AnchorMissingCwd
  | AnchorCanonicalize (path : string)
  | AnchorGit (stderr : string)
  | AnchorInvalid (kind prefix anchor_id : string)
  | InsertFailed (e : StoreError)
  | VectorFailed
  | NotPublishable
  | UnsupportedTarget (value : string)
  | SameAnchor
  | WorktreeToGlobal
  | InwardFromGlobal
  | Inward
  | GlobalDomainRequired
  | TargetAnchorRequired
  | RepoTargetRequired.

#[export] Instance KnowledgeError_eq_dec : EqDecision KnowledgeError.
Proof. solve_decision. Defined.

(** ** The promotion policy *)
Record GateRequirements := MkRequirements {
  min_supporting_refs : Z;
  min_verification_refs : Z;
  min_teaching_refs : Z;
  reviewer_required : bool;
  counterexamples_block : bool;
}.

Record GateEvidenceCounts := MkCounts {
  n_supporting : Z;
  n_counterexample : Z;
  n_teaching : Z;
  n_verification : Z;
}.

Record GateReport := MkReport {
  g_drawer_id : string;
  g_tier : string;
  g_status : string;
  g_target_status : string;
  g_allowed : bool;
  g_reasons : list string;
  g_requirements : GateRequirements;
  g_counts : GateEvidenceCounts;
}.

Definition gate_requirements_for_policy (tier : KnowledgeTier) (target : KnowledgeStatus) : option GateRequirements :=
  match tier, target with
  | DaoTian, Canonical => Some (MkRequirements 3 2 1 true true)
  | DaoRen, Promoted => Some (MkRequirements 2 1 0 false true)
  | Shu, Promoted | Qi, Promoted => Some (MkRequirements 1 1 0 false true)
  | _, _ => None
  end.

(** The entries that have a policy, with their slugs. *)
Definition promotion_policy : list (string * string * GateRequirements) :=
  omap (fun '(tier, target) =>
          (fun r => (knowledge_tier_as_str tier, knowledge_status_as_str target, r))
            <$> gate_requirements_for_policy tier target)
    [(DaoTian, Canonical); (DaoRen, Promoted); (Shu, Promoted); (Qi, Promoted)].

Definition gate_requirements (tier : KnowledgeTier) (target : KnowledgeStatus) : GateRequirements :=
  match List.find (fun '(t, s, _) => (t =? knowledge_tier_as_str tier) && (s =? knowledge_status_as_str target))
          promotion_policy with
  | Some (_, _, r) => r
  | None => MkRequirements 0 0 0 false true
  end.

Definition default_target_status (tier : KnowledgeTier) : KnowledgeStatus :=
  match tier with DaoTian => Canonical | DaoRen | Shu | Qi => Promoted end.

Definition allowed_statuses (tier : KnowledgeTier) : list KnowledgeStatus :=
  match tier with
  | DaoTian => [Canonical; Demoted]
  | DaoRen => [PendingReview; Candidate; Promoted; Demoted; Retired]
  | Shu => [PendingReview; Promoted; Demoted; Retired]
  | Qi => [PendingReview; Candidate; Promoted; Demoted; Retired]
  end.

Definition validate_tier_status (tier : KnowledgeTier) (status : KnowledgeStatus) : result unit KnowledgeError :=
  if bool_decide (status ∈ allowed_statuses tier) then Ok tt
  else Err (TierStatus (match tier with
                        | DaoTian => "dao_tian only allows canonical or demoted"
                        | DaoRen => "dao_ren only allows candidate, promoted, demoted, or retired"
                        | Shu => "shu only allows promoted, demoted, or retired"
                        | Qi => "qi only allows candidate, promoted, demoted, or retired"
                        end)).

(** [parse_status], [parse_lifecycle_status]: the text is trimmed; active and
    superseded cannot be asked for. *)
Definition parse_status (value : string) : result KnowledgeStatus KnowledgeError :=
  let v := trim value in
  if v =? "pending_review" then Ok PendingReview
  else if v =? "candidate" then Ok Candidate
  else if v =? "promoted" then Ok Promoted
  else if v =? "canonical" then Ok Canonical
  else if v =? "demoted" then Ok Demoted
  else if v =? "retired" then Ok Retired
  else Err (UnsupportedStatus v).

Definition validate_demote_reason_type (value : string) : result unit KnowledgeError :=
  let v := trim value in
  if existsb (String.eqb v) ["contradicted"; "obsolete"; "superseded"; "out_of_scope"; "unsafe"] then Ok tt
  else Err (UnsupportedReasonType v).

(** What the operating system answers: the real path of a file, the current
    directory, and what [git rev-parse] prints, or fails with. *)
Class PathEnv := {
  canonicalize : string → option string;
  current_dir : option string;
  git : string → string → option (result string string);
  vector_stored : string → bool;
}.

Record DerivedAnchor := MkAnchor {
  an_kind : AnchorKind;
  an_id : string;
  an_parent : option string;
}.

Section knowledge.
Context `{StoreEnv} `{PathEnv}.

(** ** References

    [validate_gate_refs], [validate_lifecycle_refs] and [validate_distill_refs]
    differ in the words of their errors and in whether a list may be empty. *)
Fixpoint validate_refs (db : Db) (what : string) (refs : list string) : result unit KnowledgeError :=
  match refs with
  | [] => Ok tt
  | id :: rest =>
      if negb (str_starts_with "drawer_" id) then Err (NotDrawerIds what)
      else
        match get_drawer db id with
        | Err e => Err (RefLookupFailed id e)
        | Ok None => Err (RefNotFound id)
        | Ok (Some drawer) =>
            if bool_decide (d_memory_kind drawer = Evidence) then validate_refs db what rest
            else Err (NotEvidence what)
        end
  end.

Definition validate_gate_refs (db : Db) (refs : list string) : result unit KnowledgeError :=
  validate_refs db "gate refs" refs.

Definition validate_lifecycle_refs (db : Db) (refs : list string) : result unit KnowledgeError :=
  match refs with [] => Err (RefsRequired "lifecycle") | _ => validate_refs db "lifecycle refs" refs end.

Definition validate_distill_refs (db : Db) (field : string) (refs : list string) : result unit KnowledgeError :=
  if (field =? "supporting_refs") && match refs with [] => true | _ => false end then Err (RefsRequired field)
  else validate_refs db field refs.

Fixpoint append_unique_refs (target refs : list string) : list string :=
  match refs with
  | [] => target
  | item :: rest => append_unique_refs (if bool_decide (item ∈ target) then target else target ++ [item])%list rest
  end.

(** ** The gate *)
Definition refs_below (what : string) (have need : Z) : list string :=
  if (have <? need)%Z
  then [what +:+ " evidence refs below requirement: have " +:+ show have +:+ ", need " +:+ show need]
  else [].

Definition no_reviewer (reviewer : option string) : bool :=
  match reviewer with Some r => is_empty (trim r) | None => true end.

Definition gate_reasons (req : GateRequirements) (counts : GateEvidenceCounts) (reviewer : option string)
    (allow_counterexamples : bool) : list string :=
  (refs_below "supporting" (n_supporting counts) (min_supporting_refs req)
   ++ refs_below "verification" (n_verification counts) (min_verification_refs req)
   ++ refs_below "teaching" (n_teaching counts) (min_teaching_refs req)
   ++ (if reviewer_required req && no_reviewer reviewer then ["reviewer is required for this gate"] else [])
   ++ (if counterexamples_block req && (0 <? n_counterexample counts)%Z && negb allow_counterexamples
       then ["counterexample refs present: " +:+ show (n_counterexample counts)] else []))%list.

Definition evidence_counts (d : Drawer) : GateEvidenceCounts :=
  MkCounts (Z.of_nat (length (d_supporting_refs d))) (Z.of_nat (length (d_counterexample_refs d)))
    (Z.of_nat (length (d_teaching_refs d))) (Z.of_nat (length (d_verification_refs d))).

(** The status is expected to be there: the process panics when it is not. *)
Definition evaluate_gate (db : Db) (d : Drawer) (tier : KnowledgeTier) (target : KnowledgeStatus)
    (reviewer : option string) (allow_counterexamples : bool) : result GateReport KnowledgeError :=
  let? _ := validate_gate_refs db (d_supporting_refs d) in
  let? _ := validate_gate_refs db (d_counterexample_refs d) in
  let? _ := validate_gate_refs db (d_teaching_refs d) in
  let? _ := validate_gate_refs db (d_verification_refs d) in
  match d_status d with
  | None => Err MissingStatusPanic
  | Some status =>
      let requirements := gate_requirements tier target in
      let counts := evidence_counts d in
      let reasons := gate_reasons requirements counts reviewer allow_counterexamples in
      Ok (MkReport (d_id d) (knowledge_tier_as_str tier) (knowledge_status_as_str status)
            (knowledge_status_as_str target) (match reasons with [] => true | _ => false end)
            reasons requirements counts)
  end.

Definition evaluate_gate_for_drawer (db : Db) (d : Drawer) (target : KnowledgeStatus) (reviewer : option string)
    (allow_counterexamples : bool) : result GateReport KnowledgeError :=
  if negb (bool_decide (d_memory_kind d = Knowledge)) then Err NotKnowledge
  else
    match d_tier d with
    | None => Err MissingMetadata
    | Some tier =>
        let? _ := validate_tier_status tier target in
        evaluate_gate db d tier target reviewer allow_counterexamples
    end.

(** [load_gate_knowledge_drawer], [load_lifecycle_knowledge_drawer]. *)
Definition load_knowledge_drawer (db : Db) (id : string)
    : result (Drawer * KnowledgeTier * KnowledgeStatus) KnowledgeError :=
  match get_drawer db id with
  | Err e => Err (LookupFailed e)
  | Ok None => Err (DrawerNotFound id)
  | Ok (Some d) =>
      if negb (bool_decide (d_memory_kind d = Knowledge)) then Err NotKnowledge
      else
        match d_tier d, d_status d with
        | Some tier, Some status => Ok (d, tier, status)
        | _, _ => Err MissingMetadata
        end
  end.

Definition evaluate_gate_by_id (db : Db) (id : string) (target_status reviewer : option string)
    (allow_counterexamples : bool) : result GateReport KnowledgeError :=
  let? (d, tier, _) := load_knowledge_drawer db id in
  let? target := match target_status with
                 | Some value => parse_status value
                 | None => Ok (default_target_status tier)
                 end in
  let? _ := validate_tier_status tier target in
  evaluate_gate db d tier target reviewer allow_counterexamples.

(** ** The lifecycle *)
Record PromoteRequest := MkPromote {
  pr_drawer_id : string;
  pr_status : string;
  pr_verification_refs : list string;
  pr_reason : string;
  pr_reviewer : option string;
  pr_allow_counterexamples : bool;
  pr_enforce_gate : bool;
}.

Record DemoteRequest := MkDemote {
  de_drawer_id : string;
  de_status : string;
  de_evidence_refs : list string;
  de_reason : string;
  de_reason_type : string;
}.

Record PromoteOutcome := MkPromoted {
  po_drawer_id : string;
  po_old_status : string;
  po_new_status : string;
  po_verification_refs : list string;
  po_gate : option GateReport;
}.

Record DemoteOutcome := MkDemoted {
  do_drawer_id : string;
  do_old_status : string;
  do_new_status : string;
  do_counterexample_refs : list string;
}.

Definition with_verification (d : Drawer) (refs : list string) : Drawer :=
  MkDrawer (d_id d) (d_content d) (d_wing d) (d_room d) (d_source_file d) (d_source_type d)
    (d_confidence d) (d_added_at d) (d_chunk_index d) (d_normalize_version d) (d_importance d) (d_memory_kind d)
    (d_domain d) (d_field d) (d_anchor_kind d) (d_anchor_id d) (d_parent_anchor_id d) (d_provenance d)
    (d_statement d) (d_tier d) (d_status d) (d_supporting_refs d) (d_counterexample_refs d) (d_teaching_refs d)
    refs (d_scope_constraints d) (d_trigger_hints d) (d_is_pinned d) (d_pin_order d)
    (d_supersedes d) (d_effective_importance d) (d_compacted_into d).

Definition promote_gate (db : Db) (request : PromoteRequest) (d : Drawer) (target : KnowledgeStatus)
    : result (option GateReport) KnowledgeError :=
  if pr_enforce_gate request then
    let? gate := evaluate_gate_for_drawer db d target (pr_reviewer request) (pr_allow_counterexamples request) in
    if g_allowed gate then Ok (Some gate) else Err (GateFailed (g_reasons gate))
  else Ok None.

(** Everything [promote_knowledge] checks before it writes. *)
Definition promote_plan (db : Db) (request : PromoteRequest)
    : result (Drawer * KnowledgeStatus * KnowledgeStatus * option GateReport) KnowledgeError :=
  let? target := parse_status (pr_status request) in
  if negb (bool_decide (target ∈ [Promoted; Canonical])) then Err PromoteTarget
  else
    let? (d, tier, old_status) := load_knowledge_drawer db (pr_drawer_id request) in
    let? _ := validate_tier_status tier target in
    let? _ := validate_lifecycle_refs db (pr_verification_refs request) in
    let d := with_verification d (append_unique_refs (d_verification_refs d) (pr_verification_refs request)) in
    let? gate := promote_gate db request d target in
    Ok (d, old_status, target, gate).

Definition promote_knowledge (audit_writable : bool) (db : Db) (request : PromoteRequest)
    : Db * result PromoteOutcome KnowledgeError :=
  match promote_plan db request with
  | Err e => (db, Err e)
  | Ok (d, old_status, target, gate) =>
      let db := (update_knowledge_lifecycle (pr_drawer_id request) target (d_verification_refs d)
                   (d_counterexample_refs d) db).1 in
      if audit_writable then
        (with_audit db (MkAudit "knowledge_promote" (pr_drawer_id request) (pr_reason request)),
         Ok (MkPromoted (d_id d) (knowledge_status_as_str old_status) (knowledge_status_as_str target)
               (d_verification_refs d) gate))
      else (db, Err AuditLogFailed)
  end.

Definition demote_plan (db : Db) (request : DemoteRequest)
    : result (Drawer * KnowledgeStatus * KnowledgeStatus * list string) KnowledgeError :=
  let? target := parse_status (de_status request) in
  if negb (bool_decide (target ∈ [Demoted; Retired])) then Err DemoteTarget
  else
    let? _ := validate_demote_reason_type (de_reason_type request) in
    let? (d, tier, old_status) := load_knowledge_drawer db (de_drawer_id request) in
    let? _ := validate_tier_status tier target in
    let? _ := validate_lifecycle_refs db (de_evidence_refs request) in
    Ok (d, old_status, target, append_unique_refs (d_counterexample_refs d) (de_evidence_refs request)).

Definition demote_knowledge (audit_writable : bool) (db : Db) (request : DemoteRequest)
    : Db * result DemoteOutcome KnowledgeError :=
  match demote_plan db request with
  | Err e => (db, Err e)
  | Ok (d, old_status, target, refs) =>
      let db := (update_knowledge_lifecycle (de_drawer_id request) target (d_verification_refs d) refs db).1 in
      if audit_writable then
        (with_audit db (MkAudit "knowledge_demote" (de_drawer_id request) (de_reason request)),
         Ok (MkDemoted (d_id d) (knowledge_status_as_str old_status) (knowledge_status_as_str target) refs))
      else (db, Err AuditLogFailed)
  end.
(** ** Anchors of a directory *)
Definition is_not_git_repository_stderr (stderr : string) : bool :=
  contains "not a git repository" (to_ascii_lowercase stderr).

Definition worktree_anchor_id (path : string) : string := "worktree://" +:+ path.
Definition repo_anchor_id (path : string) : string := "repo://" +:+ path.

(** [Path::join] when the second path is relative. *)
Definition resolve_git_path (base value : string) : string :=
  if str_starts_with "/" value then value
  else if base =? "/" then base +:+ value
  else base +:+ "/" +:+ value.

Definition canonicalize_path (path : string) : result string KnowledgeError :=
  match canonicalize path with Some p => Ok p | None => Err (AnchorCanonicalize path) end.

Definition git_rev_parse (cwd arg : string) : result string KnowledgeError :=
  match git cwd arg with
  | None => Err (AnchorCanonicalize cwd)
  | Some (Ok stdout) => Ok (trim stdout)
  | Some (Err stderr) => Err (AnchorGit (trim stderr))
  end.

Definition derive_anchor_from_cwd (cwd : option string) : result DerivedAnchor KnowledgeError :=
  match cwd with
  | None => Err AnchorMissingCwd
  | Some cwd =>
      let? canonical_cwd := canonicalize_path cwd in
      match git_rev_parse canonical_cwd "--show-toplevel" with
      | Ok root =>
          let? worktree_root := canonicalize_path (trim root) in
          let? common_dir_raw := git_rev_parse worktree_root "--git-common-dir" in
          let? common_dir := canonicalize_path (resolve_git_path worktree_root (trim common_dir_raw)) in
          Ok (MkAnchor AnchorWorktree (worktree_anchor_id worktree_root) (Some (repo_anchor_id common_dir)))
      | Err (AnchorGit stderr) =>
          if is_not_git_repository_stderr stderr
          then Ok (MkAnchor AnchorWorktree (worktree_anchor_id canonical_cwd) None)
          else Err (AnchorGit stderr)
      | Err e => Err e
      end
  end.

Definition check_explicit (kind : AnchorKind) (anchor_id : string) : result unit KnowledgeError :=
  match validate_explicit_anchor kind anchor_id with
  | Ok _ => Ok tt
  | Err (k, p, a) => Err (AnchorInvalid k p a)
  end.

(** ** Publishing an anchor *)
Record PublishRequest := MkPublish {
  pu_drawer_id : string;
  pu_to : string;
  pu_target_anchor_id : option string;
  pu_cwd : option string;
  pu_reason : string;
}.

Definition load_publishable_knowledge (db : Db) (id : string) : result Drawer KnowledgeError :=
  match get_drawer db id with
  | Err e => Err (LookupFailed e)
  | Ok None => Err (DrawerNotFound id)
  | Ok (Some d) =>
      if negb (bool_decide (d_memory_kind d = Knowledge)) then Err NotKnowledge
      else
        match d_status d with
        | Some Promoted | Some Canonical => Ok d
        | _ => Err NotPublishable
        end
  end.

Definition resolve_repo_target (d : Drawer) (request : PublishRequest) : result DerivedAnchor KnowledgeError :=
  match pu_target_anchor_id request with
  | Some anchor_id =>
      let? _ := check_explicit AnchorRepo anchor_id in Ok (MkAnchor AnchorRepo anchor_id None)
  | None =>
      match d_parent_anchor_id d with
      | Some parent => let? _ := check_explicit AnchorRepo parent in Ok (MkAnchor AnchorRepo parent None)
      | None =>
          match pu_cwd request with
          | Some cwd =>
              let? derived := derive_anchor_from_cwd (Some cwd) in
              match an_parent derived with
              | Some parent => Ok (MkAnchor AnchorRepo parent None)
              | None => Err RepoTargetRequired
              end
          | None => Err RepoTargetRequired
          end
      end
  end.

Definition resolve_global_target (d : Drawer) (request : PublishRequest) : result DerivedAnchor KnowledgeError :=
  if negb (bool_decide (d_domain d = DomainGlobal)) then Err GlobalDomainRequired
  else
    match pu_target_anchor_id request with
    | None => Err TargetAnchorRequired
    | Some anchor_id =>
        let? _ := check_explicit AnchorGlobal anchor_id in Ok (MkAnchor AnchorGlobal anchor_id None)
    end.

Definition resolve_target_anchor (d : Drawer) (request : PublishRequest) : result DerivedAnchor KnowledgeError :=
  let v := trim (pu_to request) in
  if v =? "repo" then resolve_repo_target d request
  else if v =? "global" then resolve_global_target d request
  else Err (UnsupportedTarget v).

Definition validate_publication_chain (from to : AnchorKind) : result unit KnowledgeError :=
  match from, to with
  | AnchorWorktree, AnchorRepo => Ok tt
  | AnchorRepo, AnchorGlobal => Ok tt
  | AnchorWorktree, AnchorGlobal => Err WorktreeToGlobal
  | AnchorGlobal, _ => Err InwardFromGlobal
  | AnchorRepo, AnchorWorktree | AnchorWorktree, AnchorWorktree => Err Inward
  | AnchorRepo, AnchorRepo => Err SameAnchor
  end.

Definition publish_plan (db : Db) (request : PublishRequest) : result (Drawer * DerivedAnchor) KnowledgeError :=
  let? d := load_publishable_knowledge db (pu_drawer_id request) in
  let? target := resolve_target_anchor d request in
  if bool_decide (d_anchor_kind d = an_kind target) && (d_anchor_id d =? an_id target) then Err SameAnchor
  else
    let? _ := validate_publication_chain (d_anchor_kind d) (an_kind target) in
    match validate_anchor_domain (d_domain d) (an_kind target) with
    | Err message => Err (AnchorDomain message)
    | Ok _ =>
        let? _ := check_explicit (an_kind target) (an_id target) in
        Ok (d, target)
    end.

(** On success, the old anchor and the new one. *)
Definition publish_anchor (audit_writable : bool) (db : Db) (request : PublishRequest)
    : Db * result (DerivedAnchor * DerivedAnchor) KnowledgeError :=
  match publish_plan db request with
  | Err e => (db, Err e)
  | Ok (d, target) =>
      let db := (update_knowledge_anchor (pu_drawer_id request) (an_kind target) (an_id target)
                   (an_parent target) db).1 in
      if audit_writable then
        (with_audit db (MkAudit "knowledge_publish_anchor" (pu_drawer_id request) (pu_reason request)),
         Ok (MkAnchor (d_anchor_kind d) (d_anchor_id d) (d_parent_anchor_id d), target))
      else (db, Err AuditLogFailed)
  end.
(** ** Distilling evidence into a candidate *)
Definition normalized_nonempty_strings (values : list string) : list string :=
  omap (fun v => let t := trim v in if is_empty t then None else Some t) values.

Definition normalized_sorted_strings (values : list string) : list string :=
  sort_by (fun a b => not_gt (String.compare a b)) (normalized_nonempty_strings values).

Fixpoint str_join (sep : string) (parts : list string) : string :=
  match parts with
  | [] => ""
  | [p] => p
  | p :: rest => p +:+ sep +:+ str_join sep rest
  end.

Record IdentityParts := MkParts {
  ip_memory_kind : MemoryKind;
  ip_domain : MemoryDomain;
  ip_field : string;
  ip_anchor : DerivedAnchor;
  ip_provenance : option Provenance;
  ip_statement : option string;
  ip_tier : option KnowledgeTier;
  ip_status : option KnowledgeStatus;
  ip_supporting : list string;
  ip_counterexample : list string;
  ip_teaching : list string;
  ip_verification : list string;
  ip_scope_constraints : option string;
  ip_trigger_hints : option TriggerHints;
}.

Definition bootstrap_identity_components (p : IdentityParts) : list string :=
  let joined l := str_join "," (normalized_sorted_strings l) in
  ([ "memory_kind=" +:+ memory_kind_as_str (ip_memory_kind p);
     "domain=" +:+ memory_domain_as_str (ip_domain p);
     "field=" +:+ ip_field p;
     "anchor_kind=" +:+ anchor_kind_as_str (an_kind (ip_anchor p));
     "anchor_id=" +:+ an_id (ip_anchor p);
     "parent_anchor_id=" +:+ default "" (an_parent (ip_anchor p));
     "provenance=" +:+ default "" (provenance_as_str <$> ip_provenance p);
     "statement=" +:+ default "" (ip_statement p);
     "tier=" +:+ default "" (knowledge_tier_as_str <$> ip_tier p);
     "status=" +:+ default "" (knowledge_status_as_str <$> ip_status p);
     "scope_constraints=" +:+ default "" (ip_scope_constraints p);
     "supporting_refs=" +:+ joined (ip_supporting p);
     "counterexample_refs=" +:+ joined (ip_counterexample p);
     "teaching_refs=" +:+ joined (ip_teaching p);
     "verification_refs=" +:+ joined (ip_verification p) ]
   ++ match ip_trigger_hints p with
      | Some h => [ "intent_tags=" +:+ joined (intent_tags h);
                    "workflow_bias=" +:+ joined (workflow_bias h);
                    "tool_needs=" +:+ joined (tool_needs h) ]
      | None => []
      end)%list.

Definition build_bootstrap_drawer_id_from_parts (wing : string) (room : option string) (content : string)
    (parts : IdentityParts) : string :=
  build_bootstrap_drawer_id wing room content (bootstrap_identity_components parts).

(** A run of other characters becomes one dash. *)
Fixpoint slug_chars (value : string) (prev_dash : bool) : string :=
  match value with
  | EmptyString => EmptyString
  | String c rest =>
      if is_ascii_alphanumeric c then String (ascii_lower c) (slug_chars rest false)
      else if prev_dash then slug_chars rest true
      else String "-" (slug_chars rest true)
  end.

Fixpoint trim_dashes_start (s : string) : string :=
  match s with String "-" rest => trim_dashes_start rest | _ => s end.

Fixpoint trim_dashes_end (s : string) : string :=
  match s with
  | EmptyString => EmptyString
  | String c rest =>
      match trim_dashes_end rest with
      | EmptyString => if Ascii.eqb c "-" then EmptyString else String c EmptyString
      | kept => String c kept
      end
  end.

Definition slugify_uri_component (value : string) : string :=
  let trimmed := trim_dashes_end (trim_dashes_start (slug_chars value false)) in
  if is_empty trimmed then "x" else trimmed.

(** No domain slug has an underscore to replace. *)
Definition knowledge_source_file (domain : MemoryDomain) (field : string) (tier : KnowledgeTier) (statement : string)
    : string :=
  "knowledge://" +:+ memory_domain_as_str domain +:+ "/" +:+ slugify_uri_component field +:+ "/"
    +:+ knowledge_tier_as_str tier +:+ "/" +:+ slugify_uri_component statement.

Definition trim_required (value field : string) : result string KnowledgeError :=
  let trimmed := trim value in if is_empty trimmed then Err (EmptyField field) else Ok trimmed.

Definition normalize_trigger_hints (hints : TriggerHints) : option TriggerHints :=
  let a := normalized_nonempty_strings (intent_tags hints) in
  let b := normalized_nonempty_strings (workflow_bias hints) in
  let c := normalized_nonempty_strings (tool_needs hints) in
  match a, b, c with [], [], [] => None | _, _, _ => Some (MkTriggerHints a b c) end.

Definition parse_domain (value : string) : result MemoryDomain KnowledgeError :=
  let v := trim value in
  if v =? "project" then Ok DomainProject
  else if v =? "user" then Ok DomainUser
  else if v =? "agent" then Ok DomainAgent
  else if v =? "skill" then Ok DomainSkill
  else if v =? "global" then Ok DomainGlobal
  else Err (UnsupportedDomain v).

Definition parse_distill_tier (value : string) : result KnowledgeTier KnowledgeError :=
  let v := trim value in
  if v =? "dao_ren" then Ok DaoRen
  else if v =? "qi" then Ok Qi
  else if (v =? "dao_tian") || (v =? "shu") then Err DistillTier
  else Err (UnsupportedTier v).

Definition distill_anchor (domain : MemoryDomain) (cwd : option string) : result DerivedAnchor KnowledgeError :=
  match domain with
  | DomainGlobal => Ok (MkAnchor AnchorGlobal "global://default" None)
  | _ =>
      match cwd, current_dir with
      | Some path, _ => derive_anchor_from_cwd (Some path)
      | None, Some dir => derive_anchor_from_cwd (Some dir)
      | None, None => Err AnchorMissingCwd
      end
  end.

Record DistillRequest := MkDistill {
  di_statement : string;
  di_content : string;
  di_tier : string;
  di_supporting_refs : list string;
  di_wing : string;
  di_room : string;
  di_domain : string;
  di_field : string;
  di_cwd : option string;
  di_scope_constraints : option string;
  di_counterexample_refs : list string;
  di_teaching_refs : list string;
  di_trigger_hints : option TriggerHints;
  di_importance : Z;
  di_dry_run : bool;
}.

(** [DistillPlan]: done, with the identifier and whether it was a dry run, or a
    drawer to create. *)
Inductive DistillPlan :=
  | Done (drawer_id : string) (dry_run : bool)
  | Create (drawer : Drawer).

Definition CURRENT_NORMALIZE_VERSION : Z := 2.

Definition prepare_distill (now : string) (db : Db) (request : DistillRequest) : result DistillPlan KnowledgeError :=
  if negb ((0 <=? di_importance request) && (di_importance request <=? 5))%Z then Err ImportanceRange
  else
    let? statement := trim_required (di_statement request) "statement" in
    let? content := trim_required (di_content request) "content" in
    let? wing := trim_required (di_wing request) "wing" in
    let? room := trim_required (di_room request) "room" in
    let? field := trim_required (di_field request) "field" in
    let? domain := parse_domain (di_domain request) in
    let? tier := parse_distill_tier (di_tier request) in
    let supporting := normalized_nonempty_strings (di_supporting_refs request) in
    let counterexample := normalized_nonempty_strings (di_counterexample_refs request) in
    let teaching := normalized_nonempty_strings (di_teaching_refs request) in
    let? _ := validate_distill_refs db "supporting_refs" supporting in
    let? _ := validate_distill_refs db "counterexample_refs" counterexample in
    let? _ := validate_distill_refs db "teaching_refs" teaching in
    let scope_constraints := match di_scope_constraints request with
                             | Some s => if is_empty (trim s) then None else Some (trim s)
                             | None => None
                             end in
    let trigger_hints := match di_trigger_hints request with Some h => normalize_trigger_hints h | None => None end in
    let? anchor := distill_anchor domain (di_cwd request) in
    match validate_anchor_domain domain (an_kind anchor) with
    | Err message => Err (AnchorDomain message)
    | Ok _ =>
        let drawer_id := build_bootstrap_drawer_id_from_parts wing (Some room) content
          (MkParts Knowledge domain field anchor None (Some statement) (Some tier) (Some Candidate)
             supporting counterexample teaching [] scope_constraints trigger_hints) in
        if di_dry_run request then Ok (Done drawer_id true)
        else if drawer_exists db drawer_id then Ok (Done drawer_id false)
        else
          Ok (Create
            {| d_id := drawer_id; d_content := content; d_wing := wing; d_room := Some room;
               d_source_file := Some (knowledge_source_file domain field tier statement);
               d_source_type := AgentInference; d_confidence := default_confidence AgentInference;
               d_added_at := now; d_chunk_index := Some 0; d_normalize_version := CURRENT_NORMALIZE_VERSION;
               d_importance := di_importance request; d_memory_kind := Knowledge; d_domain := domain;
               d_field := field; d_anchor_kind := an_kind anchor; d_anchor_id := an_id anchor;
               d_parent_anchor_id := an_parent anchor; d_provenance := None; d_statement := Some statement;
               d_tier := Some tier; d_status := Some Candidate; d_supporting_refs := supporting;
               d_counterexample_refs := counterexample; d_teaching_refs := teaching; d_verification_refs := [];
               d_scope_constraints := scope_constraints; d_trigger_hints := trigger_hints; d_is_pinned := false;
               d_pin_order := None; d_supersedes := None;
               d_effective_importance := inject_Z (di_importance request); d_compacted_into := None |})
    end.

(** The drawer, then its vector, then the audit line: three writes, and an error
    of a later one leaves the earlier. On success, the identifier. *)
Definition commit_distill (audit_writable : bool) (db : Db) (drawer : Drawer) : Db * result string KnowledgeError :=
  match insert_drawer db drawer with
  | (db, Err e) => (db, Err (InsertFailed e))
  | (db, Ok _) =>
      if negb (vector_stored (d_id drawer)) then (db, Err VectorFailed)
      else if audit_writable
      then (with_audit db (MkAudit "knowledge_distill" (d_id drawer) (default "" (d_statement drawer))), Ok (d_id drawer))
      else (db, Err AuditLogFailed)
  end.
End knowledge.
