(* ===== verification/KnowledgeSafety.v ===== *)
(** * What governed knowledge guarantees

    An enforced promotion meets its policy; the lifecycle changes one drawer's
    status and references and nothing else; a publication moves an anchor outward;
    and in every state the operations reach, every active knowledge drawer has a
    status its tier allows and no reference dangles. *)

From Stdlib Require Import ZArith QArith Lia String Ascii.
From stdpp Require Import base tactics list gmap strings numbers sets relations.
From S2P Require Import Prelude Order Text Drawer DrawerStore DrawerSafety Knowledge.
Close Scope Q_scope.
Open Scope Z_scope.
Open Scope string_scope.
Open Scope rust_scope.

(** The successful bind that a hypothesis goes through. *)
Ltac bind_ok H :=
  repeat match type of H with
  | (match ?e with _ => _ end) = Ok _ => destruct e eqn:?; try discriminate H; simpl in H
  end.

Section facts.
Context `{E : StoreEnv}.

(** ** Decoding the updated rows *)
Definition with_lifecycle (d : Drawer) (status : KnowledgeStatus) (verification counterexample : list string) : Drawer :=
  MkDrawer (d_id d) (d_content d) (d_wing d) (d_room d) (d_source_file d) (d_source_type d)
    (d_confidence d) (d_added_at d) (d_chunk_index d) (d_normalize_version d) (d_importance d) (d_memory_kind d)
    (d_domain d) (d_field d) (d_anchor_kind d) (d_anchor_id d) (d_parent_anchor_id d) (d_provenance d)
    (d_statement d) (d_tier d) (Some status) (d_supporting_refs d) counterexample (d_teaching_refs d)
    verification (d_scope_constraints d) (d_trigger_hints d) (d_is_pinned d) (d_pin_order d)
    (d_supersedes d) (d_effective_importance d) (d_compacted_into d).

Definition with_anchor (d : Drawer) (a : DerivedAnchor) : Drawer :=
  MkDrawer (d_id d) (d_content d) (d_wing d) (d_room d) (d_source_file d) (d_source_type d)
    (d_confidence d) (d_added_at d) (d_chunk_index d) (d_normalize_version d) (d_importance d) (d_memory_kind d)
    (d_domain d) (d_field d) (an_kind a) (an_id a) (an_parent a) (d_provenance d)
    (d_statement d) (d_tier d) (d_status d) (d_supporting_refs d) (d_counterexample_refs d) (d_teaching_refs d)
    (d_verification_refs d) (d_scope_constraints d) (d_trigger_hints d) (d_is_pinned d) (d_pin_order d)
    (d_supersedes d) (d_effective_importance d) (d_compacted_into d).

Lemma decode_lifecycle `{!StoreLaws E} id row d s v c :
  drawer_from_row id row = Ok d →
  drawer_from_row id (set_refs (Some (to_json c)) (Some (to_json v))
                        (set_status (Some (knowledge_status_as_str s)) row))
  = Ok (with_lifecycle d s v c).
Proof.
  unfold drawer_from_row. simpl. rewrite knowledge_status_roundtrip, !json_roundtrip. intros Hd.
  bind_ok Hd. simplify_eq. done.
Qed.

Lemma decode_anchor id row d a :
  drawer_from_row id row = Ok d → validate_anchor_domain (d_domain d) (an_kind a) = Ok tt →
  drawer_from_row id (set_anchor (anchor_kind_as_str (an_kind a)) (an_id a) (an_parent a) row)
  = Ok (with_anchor d a).
Proof.
  unfold drawer_from_row. simpl. rewrite anchor_kind_roundtrip. intros Hd Ha.
  bind_ok Hd. simplify_eq. simpl in Ha. by rewrite Ha.
Qed.

Lemma decode_superseded id row d now :
  drawer_from_row id row = Ok d → is_ok (drawer_from_row id (set_superseded now row)) = true.
Proof. unfold drawer_from_row. simpl. intros Hd. bind_ok Hd. done. Qed.

(** The kind of a row that decodes. *)
Lemma from_slug_ok {A} (as_str : A → string) kind value vs v :
  from_slug as_str kind value vs = Ok v → value = as_str v.
Proof.
  induction vs as [|x vs IH]; simpl; [done|]. destruct (String.eqb_spec value (as_str x)); [|done].
  by intros [= <-].
Qed.

Lemma decode_kind id row d : drawer_from_row id row = Ok d → r_memory_kind row = memory_kind_as_str (d_memory_kind d).
Proof.
  unfold drawer_from_row. intros Hd. bind_ok Hd. simplify_eq. simpl. by eapply from_slug_ok.
Qed.

Lemma decode_id id row d : drawer_from_row id row = Ok d → d_id d = id.
Proof. unfold drawer_from_row. intros Hd. bind_ok Hd. by simplify_eq. Qed.

Lemma get_drawer_Some db id d :
  get_drawer db id = Ok (Some d) ↔
  ∃ row, db_drawers db !! id = Some row ∧ is_active row = true ∧ drawer_from_row id row = Ok d.
Proof.
  unfold get_drawer, active_row. split.
  - destruct (db_drawers db !! id) as [row|]; [|done]. destruct (is_active row) eqn:Ea; [|done].
    destruct (drawer_from_row id row) as [d'|e] eqn:Ed; [|done]. intros [= ->]. eauto.
  - intros (row & -> & -> & ->). done.
Qed.

Lemma kind_is_knowledge d : d_memory_kind d = Knowledge ↔ (memory_kind_as_str (d_memory_kind d) =? "knowledge") = true.
Proof. destruct (d_memory_kind d); simpl; naive_solver. Qed.

(** ** The writes of the lifecycle *)
Lemma update_lifecycle_get `{!StoreLaws E} db id d s v c :
  get_drawer db id = Ok (Some d) → d_memory_kind d = Knowledge →
  let db' := (update_knowledge_lifecycle id s v c db).1 in
  get_drawer db' id = Ok (Some (with_lifecycle d s v c))
  ∧ (∀ i, i ≠ id → db_drawers db' !! i = db_drawers db !! i)
  ∧ db' = with_drawers db (db_drawers db').
Proof.
  intros (row & Hl & Ha & Hd)%get_drawer_Some Hk db'. unfold db', update_knowledge_lifecycle, update_where.
  rewrite Hl. unfold is_knowledge_row. rewrite Ha, (decode_kind _ _ _ Hd), (proj1 (kind_is_knowledge d) Hk). simpl.
  split_and!; [|by intros i Hi; rewrite lookup_insert_ne|done].
  apply get_drawer_Some. simpl. rewrite lookup_insert_eq. eexists. split_and!; [done|exact Ha|].
  by apply decode_lifecycle.
Qed.

Lemma update_anchor_get db id d a :
  get_drawer db id = Ok (Some d) → d_memory_kind d = Knowledge →
  validate_anchor_domain (d_domain d) (an_kind a) = Ok tt →
  let db' := (update_knowledge_anchor id (an_kind a) (an_id a) (an_parent a) db).1 in
  get_drawer db' id = Ok (Some (with_anchor d a))
  ∧ (∀ i, i ≠ id → db_drawers db' !! i = db_drawers db !! i)
  ∧ db' = with_drawers db (db_drawers db').
Proof.
  intros (row & Hl & Ha & Hd)%get_drawer_Some Hk Hv db'. unfold db', update_knowledge_anchor, update_where.
  rewrite Hl. unfold is_knowledge_row. rewrite Ha, (decode_kind _ _ _ Hd), (proj1 (kind_is_knowledge d) Hk). simpl.
  split_and!; [|by intros i Hi; rewrite lookup_insert_ne|done].
  apply get_drawer_Some. simpl. rewrite lookup_insert_eq. eexists. split_and!; [done|exact Ha|].
  by apply decode_anchor.
Qed.

(** ** References and policies *)
Definition evidence_ref (db : Db) (id : string) : Prop :=
  str_starts_with "drawer_" id = true ∧ ∃ e, get_drawer db id = Ok (Some e) ∧ d_memory_kind e = Evidence.

Lemma validate_refs_ok db what refs u : validate_refs db what refs = Ok u → Forall (evidence_ref db) refs.
Proof.
  induction refs as [|id refs IH]; simpl; [done|]. destruct (str_starts_with "drawer_" id) eqn:Ep; simpl; [|done].
  destruct (get_drawer db id) as [[e|]|err] eqn:Eg; [|done..].
  case_bool_decide as Hk; [|done]. intros Hv. constructor; [|by apply IH]. split; [done|]. eauto.
Qed.

Definition meets (req : GateRequirements) (d : Drawer) (reviewer : option string) (allow_counterexamples : bool)
    : Prop :=
  min_supporting_refs req <= Z.of_nat (length (d_supporting_refs d))
  ∧ min_verification_refs req <= Z.of_nat (length (d_verification_refs d))
  ∧ min_teaching_refs req <= Z.of_nat (length (d_teaching_refs d))
  ∧ (reviewer_required req = true → ∃ r, reviewer = Some r ∧ trim r ≠ "")
  ∧ (counterexamples_block req = true → d_counterexample_refs d = [] ∨ allow_counterexamples = true).

Lemma refs_below_nil what have need : refs_below what have need = [] ↔ need <= have.
Proof. unfold refs_below. destruct (Z.ltb_spec have need); split; intros; try done; lia. Qed.

Lemma no_reviewer_false r : no_reviewer r = false ↔ ∃ x, r = Some x ∧ trim x ≠ "".
Proof.
  destruct r as [x|]; simpl; [|naive_solver]. destruct (trim x) eqn:Ex; simpl; split.
  - done.
  - intros (y & [= <-] & Hy). congruence.
  - intros _. exists x. split; [done|congruence].
  - done.
Qed.

Lemma gate_reasons_nil req d reviewer allow :
  gate_reasons req (evidence_counts d) reviewer allow = [] ↔ meets req d reviewer allow.
Proof.
  unfold gate_reasons, meets. rewrite !app_nil, !refs_below_nil. simpl.
  assert (Hrev : (if reviewer_required req && no_reviewer reviewer then ["reviewer is required for this gate"] else [])
                 = [] ↔ (reviewer_required req = true → ∃ r, reviewer = Some r ∧ trim r ≠ "")).
  { rewrite <- no_reviewer_false. destruct (reviewer_required req), (no_reviewer reviewer); simpl; naive_solver. }
  rewrite Hrev. clear Hrev.
  enough (Hc : (if counterexamples_block req && (0 <? Z.of_nat (length (d_counterexample_refs d)))%Z && negb allow
                then ["counterexample refs present: " +:+ show (Z.of_nat (length (d_counterexample_refs d)))] else [])
               = [] ↔ (counterexamples_block req = true → d_counterexample_refs d = [] ∨ allow = true))
    by (rewrite Hc; done).
  destruct (counterexamples_block req), (d_counterexample_refs d), allow; simpl; naive_solver.
Qed.

Lemma gate_policy tier target req :
  gate_requirements_for_policy tier target = Some req → gate_requirements tier target = req.
Proof. destruct tier, target; simpl; try done; by intros [= <-]. Qed.

(** A promotion target its tier allows has a policy. *)
Lemma promotable tier target :
  target ∈ [Promoted; Canonical] → target ∈ allowed_statuses tier →
  is_Some (gate_requirements_for_policy tier target).
Proof. destruct tier, target; simpl; set_solver. Qed.

Lemma validate_tier_status_ok tier s u : validate_tier_status tier s = Ok u → s ∈ allowed_statuses tier.
Proof. unfold validate_tier_status. by case_bool_decide. Qed.

(** The references are kept, in order, and each new one is added once. *)
Lemma append_unique_refs_app target refs : ∃ new, append_unique_refs target refs = (target ++ new)%list.
Proof.
  revert target. induction refs as [|r refs IH]; intros target; simpl; [by exists []; rewrite app_nil_r|].
  case_bool_decide; [apply IH|]. destruct (IH (target ++ [r])%list) as [new ->].
  exists (r :: new). by rewrite <- app_assoc.
Qed.

Lemma append_unique_refs_elem target refs x : x ∈ append_unique_refs target refs ↔ x ∈ target ∨ x ∈ refs.
Proof.
  revert target. induction refs as [|r refs IH]; intros target; simpl; [set_solver|].
  rewrite IH. case_bool_decide; set_solver.
Qed.

Lemma append_unique_refs_NoDup target refs : NoDup target → NoDup (append_unique_refs target refs).
Proof.
  revert target. induction refs as [|r refs IH]; intros target Hnd; simpl; [done|].
  case_bool_decide; apply IH; [done|]. apply NoDup_app. split_and!; [done|set_solver|apply NoDup_singleton].
Qed.

Lemma append_unique_refs_id target refs : refs ⊆ target → append_unique_refs target refs = target.
Proof.
  induction refs as [|r refs IH]; intros Hs; simpl; [done|]. rewrite bool_decide_true by set_solver. apply IH. set_solver.
Qed.

(** What [load_knowledge_drawer] found. *)
Lemma load_knowledge_ok db id d tier status :
  load_knowledge_drawer db id = Ok (d, tier, status) →
  get_drawer db id = Ok (Some d) ∧ d_memory_kind d = Knowledge ∧ d_tier d = Some tier ∧ d_status d = Some status.
Proof.
  unfold load_knowledge_drawer. destruct (get_drawer db id) as [[d'|]|e]; [|done..].
  case_bool_decide; simpl; [|done]. destruct (d_tier d') eqn:?, (d_status d') eqn:?; try done.
  intros ?; by simplify_eq.
Qed.

Lemma evaluate_gate_ok db d tier target reviewer allow report :
  evaluate_gate db d tier target reviewer allow = Ok report →
  (g_allowed report = true ↔ meets (gate_requirements tier target) d reviewer allow)
  ∧ Forall (evidence_ref db) (d_supporting_refs d ++ d_counterexample_refs d ++ d_teaching_refs d
                              ++ d_verification_refs d)%list.
Proof.
  unfold evaluate_gate, validate_gate_refs. intros Hg. bind_ok Hg. simplify_eq. cbn [g_allowed]. split.
  - rewrite <- gate_reasons_nil. by destruct (gate_reasons _ _ _ _).
  - rewrite !Forall_app. split_and!; eapply validate_refs_ok; eassumption.
Qed.

Lemma promote_gate_ok db request d tier target gate :
  pr_enforce_gate request = true → d_tier d = Some tier → promote_gate db request d target = Ok gate →
  meets (gate_requirements tier target) d (pr_reviewer request) (pr_allow_counterexamples request)
  ∧ Forall (evidence_ref db) (d_supporting_refs d ++ d_counterexample_refs d ++ d_teaching_refs d
                              ++ d_verification_refs d)%list.
Proof.
  intros He Ht. unfold promote_gate, evaluate_gate_for_drawer. rewrite He, Ht.
  destruct (negb _); [done|]. destruct (validate_tier_status tier target); [|done].
  destruct (evaluate_gate _ _ _ _ _ _) as [report|] eqn:Eg; [|done].
  destruct (g_allowed report) eqn:Ea; [|done]. intros _. destruct (evaluate_gate_ok _ _ _ _ _ _ _ Eg) as [Hm Hf].
  split; [by apply Hm|done].
Qed.

(** What a plan to promote or demote has checked. *)
Lemma promote_plan_ok db request d' old target gate :
  promote_plan db request = Ok (d', old, target, gate) →
  ∃ d tier, get_drawer db (pr_drawer_id request) = Ok (Some d) ∧ d_memory_kind d = Knowledge
    ∧ d_tier d = Some tier ∧ d_status d = Some old
    ∧ target ∈ [Promoted; Canonical] ∧ target ∈ allowed_statuses tier
    ∧ pr_verification_refs request ≠ [] ∧ Forall (evidence_ref db) (pr_verification_refs request)
    ∧ d' = with_verification d (append_unique_refs (d_verification_refs d) (pr_verification_refs request))
    ∧ promote_gate db request d' target = Ok gate.
Proof.
  unfold promote_plan. intros Hp. bind_ok Hp. simplify_eq.
  destruct (load_knowledge_ok _ _ _ _ _ ltac:(eassumption)) as (Hg & Hk & Ht & Hs).
  unfold validate_lifecycle_refs in *. destruct (pr_verification_refs request) as [|r rs] eqn:Er; [done|].
  eexists _, _. split_and!; try eassumption; try done.
  - match goal with H : negb (bool_decide _) = false |- _ => by apply negb_false_iff, bool_decide_eq_true in H end.
  - by eapply validate_tier_status_ok.
  - by eapply validate_refs_ok.
Qed.

Lemma demote_plan_ok db request d old target refs :
  demote_plan db request = Ok (d, old, target, refs) →
  ∃ tier, get_drawer db (de_drawer_id request) = Ok (Some d) ∧ d_memory_kind d = Knowledge
    ∧ d_tier d = Some tier ∧ d_status d = Some old
    ∧ target ∈ [Demoted; Retired] ∧ target ∈ allowed_statuses tier
    ∧ de_evidence_refs request ≠ [] ∧ Forall (evidence_ref db) (de_evidence_refs request)
    ∧ refs = append_unique_refs (d_counterexample_refs d) (de_evidence_refs request).
Proof.
  unfold demote_plan. intros Hp. bind_ok Hp. simplify_eq.
  destruct (load_knowledge_ok _ _ _ _ _ ltac:(eassumption)) as (Hg & Hk & Ht & Hs).
  unfold validate_lifecycle_refs in *. destruct (de_evidence_refs request) as [|r rs] eqn:Er; [done|].
  eexists. split_and!; try eassumption; try done.
  - match goal with H : negb (bool_decide _) = false |- _ => by apply negb_false_iff, bool_decide_eq_true in H end.
  - by eapply validate_tier_status_ok.
  - by eapply validate_refs_ok.
Qed.
End facts.

(** C26: A promotion through the gate meets its policy. When an enforced
    promotion succeeds, the drawer was active knowledge of a tier with a policy
    for the new status, the drawer it has become has at least the supporting,
    verification and teaching references the policy asks for, all of them active
    evidence drawers, a reviewer is named when one is required, and it has no
    counterexample unless the request allows them. *)
Theorem promote_enforced `{E : StoreEnv} `{L : !StoreLaws E} writable db request db' out :
  pr_enforce_gate request = true → promote_knowledge writable db request = (db', Ok out) →
  ∃ d tier target requirements d',
    get_drawer db (pr_drawer_id request) = Ok (Some d) ∧ d_memory_kind d = Knowledge ∧ d_tier d = Some tier
    ∧ po_new_status out = knowledge_status_as_str target
    ∧ gate_requirements_for_policy tier target = Some requirements
    ∧ get_drawer db' (pr_drawer_id request) = Ok (Some d')
    ∧ d' = with_lifecycle d target (append_unique_refs (d_verification_refs d) (pr_verification_refs request))
             (d_counterexample_refs d)
    ∧ meets requirements d' (pr_reviewer request) (pr_allow_counterexamples request)
    ∧ Forall (evidence_ref db) (d_supporting_refs d' ++ d_counterexample_refs d' ++ d_teaching_refs d'
                                ++ d_verification_refs d')%list.
Proof.
  intros He. unfold promote_knowledge. destruct (promote_plan db request) as [[[[dv old] target] gate]|e] eqn:Ep; [|done].
  destruct writable; [|done]. intros [= <- <-].
  destruct (promote_plan_ok _ _ _ _ _ _ Ep) as (d & tier & Hg & Hk & Ht & Hs & Htar & Hall & _ & _ & -> & Hgate).
  destruct (promotable _ _ Htar Hall) as [req Hreq].
  destruct (promote_gate_ok db request (with_verification d _) tier target gate He Ht Hgate) as [Hm Hf]. rewrite (gate_policy _ _ _ Hreq) in Hm.
  exists d, tier, target, req. eexists. split_and!; [done..| |reflexivity|exact Hm|exact Hf].
  by apply (update_lifecycle_get db (pr_drawer_id request) d).
Qed.

(** Promoting and demoting change one drawer. When the request is refused
    nothing changes. Otherwise the drawer gets the new status, which its tier
    allows, and its references: the old ones in their order, then each new one
    once; every other drawer and every other column is as before. Only then is
    the audit line written, and when that fails the call returns an error though
    the status has changed. *)
Theorem lifecycle_effect `{E : StoreEnv} `{L : !StoreLaws E} writable db :
  (∀ request db' res, promote_knowledge writable db request = (db', res) →
     (db' = db ∧ is_ok res = false)
     ∨ ∃ d tier target,
         get_drawer db (pr_drawer_id request) = Ok (Some d) ∧ d_tier d = Some tier
         ∧ target ∈ [Promoted; Canonical] ∧ target ∈ allowed_statuses tier
         ∧ get_drawer db' (pr_drawer_id request)
           = Ok (Some (with_lifecycle d target
                  (append_unique_refs (d_verification_refs d) (pr_verification_refs request)) (d_counterexample_refs d)))
         ∧ (∀ i, i ≠ pr_drawer_id request → db_drawers db' !! i = db_drawers db !! i)
         ∧ db_triples db' = db_triples db ∧ is_ok res = writable
         ∧ db_audit db' = (db_audit db ++ if writable
             then [MkAudit "knowledge_promote" (pr_drawer_id request) (pr_reason request)] else [])%list)
  ∧ (∀ request db' res, demote_knowledge writable db request = (db', res) →
     (db' = db ∧ is_ok res = false)
     ∨ ∃ d tier target,
         get_drawer db (de_drawer_id request) = Ok (Some d) ∧ d_tier d = Some tier
         ∧ target ∈ [Demoted; Retired] ∧ target ∈ allowed_statuses tier
         ∧ get_drawer db' (de_drawer_id request)
           = Ok (Some (with_lifecycle d target (d_verification_refs d)
                  (append_unique_refs (d_counterexample_refs d) (de_evidence_refs request))))
         ∧ (∀ i, i ≠ de_drawer_id request → db_drawers db' !! i = db_drawers db !! i)
         ∧ db_triples db' = db_triples db ∧ is_ok res = writable
         ∧ db_audit db' = (db_audit db ++ if writable
             then [MkAudit "knowledge_demote" (de_drawer_id request) (de_reason request)] else [])%list).
Proof.
  split; intros request db' res; [unfold promote_knowledge|unfold demote_knowledge].
  - destruct (promote_plan db request) as [[[[dv old] target] gate]|e] eqn:Ep; [|intros [= <- <-]; by left].
    destruct (promote_plan_ok _ _ _ _ _ _ Ep) as (d & tier & Hg & Hk & Ht & Hs & Htar & Hall & _ & _ & -> & _).
    destruct (update_lifecycle_get db _ d target
      (append_unique_refs (d_verification_refs d) (pr_verification_refs request)) (d_counterexample_refs d) Hg Hk)
      as (Hget & Hother & Hdb). simpl in *.
    intros Hw. right. exists d, tier, target. destruct writable; simplify_eq; rewrite Hdb; rewrite ?app_nil_r; done.
  - destruct (demote_plan db request) as [[[[d old] target] refs]|e] eqn:Ep; [|intros [= <- <-]; by left].
    destruct (demote_plan_ok _ _ _ _ _ _ Ep) as (tier & Hg & Hk & Ht & Hs & Htar & Hall & _ & _ & ->).
    destruct (update_lifecycle_get db _ d target (d_verification_refs d)
      (append_unique_refs (d_counterexample_refs d) (de_evidence_refs request)) Hg Hk)
      as (Hget & Hother & Hdb). simpl in *.
    intros Hw. right. exists d, tier, target. destruct writable; simplify_eq; rewrite Hdb; rewrite ?app_nil_r; done.
Qed.

(** ** Publication *)
Definition anchor_rank (k : AnchorKind) : nat :=
  match k with AnchorWorktree => 0 | AnchorRepo => 1 | AnchorGlobal => 2 end.

Lemma publication_chain_ok from to u :
  validate_publication_chain from to = Ok u → anchor_rank to = S (anchor_rank from).
Proof. by destruct from, to. Qed.

Lemma publish_plan_ok `{E : StoreEnv} `{P : PathEnv} db request d target :
  publish_plan db request = Ok (d, target) →
  get_drawer db (pu_drawer_id request) = Ok (Some d) ∧ d_memory_kind d = Knowledge
  ∧ d_status d ∈ [Some Promoted; Some Canonical]
  ∧ anchor_rank (an_kind target) = S (anchor_rank (d_anchor_kind d))
  ∧ validate_anchor_domain (d_domain d) (an_kind target) = Ok tt
  ∧ validate_explicit_anchor (an_kind target) (an_id target) = Ok tt.
Proof.
  unfold publish_plan. destruct (load_publishable_knowledge _ _) as [d0|] eqn:El; [|done].
  destruct (resolve_target_anchor d0 request) as [t|] eqn:Er; [|done].
  destruct (_ && _); [done|]. destruct (validate_publication_chain _ _) as [u|] eqn:Ec; [|done].
  destruct (validate_anchor_domain _ _) as [[]|] eqn:Ea; [|done].
  unfold check_explicit. destruct (validate_explicit_anchor _ _) as [[]|[[? ?] ?]] eqn:Ex; [|done].
  intros [= <- <-]. unfold load_publishable_knowledge in El.
  destruct (get_drawer _ _) as [[d'|]|] eqn:Eg; [|done..]. case_bool_decide as Hk; simpl in El; [|done].
  assert (d' = d0 ∧ d_status d' ∈ [Some Promoted; Some Canonical]) as [-> Hs].
  { destruct (d_status d') as [[]|]; try done; simplify_eq; set_solver. }
  split_and!; try done. by eapply publication_chain_ok.
Qed.

(** A publication only moves an anchor outward, one step: from a worktree to
    its repository, from a repository to the global scope, and never back. It
    publishes promoted or canonical knowledge, the new anchor fits the drawer's
    domain and names its kind, and the rest of the drawer and every other drawer
    are as before. A refused request changes nothing. *)
Theorem publish_outward `{E : StoreEnv} `{P : PathEnv} writable db request db' res :
  publish_anchor writable db request = (db', res) →
  (db' = db ∧ is_ok res = false)
  ∨ ∃ d target,
      get_drawer db (pu_drawer_id request) = Ok (Some d) ∧ d_memory_kind d = Knowledge
      ∧ d_status d ∈ [Some Promoted; Some Canonical]
      ∧ get_drawer db' (pu_drawer_id request) = Ok (Some (with_anchor d target))
      ∧ anchor_rank (an_kind target) = S (anchor_rank (d_anchor_kind d))
      ∧ (an_kind target = AnchorGlobal → d_domain d = DomainGlobal)
      ∧ validate_explicit_anchor (an_kind target) (an_id target) = Ok tt
      ∧ (∀ i, i ≠ pu_drawer_id request → db_drawers db' !! i = db_drawers db !! i)
      ∧ is_ok res = writable.
Proof.
  unfold publish_anchor. destruct (publish_plan db request) as [[d target]|e] eqn:Ep; [|intros [= <- <-]; by left].
  destruct (publish_plan_ok _ _ _ _ Ep) as (Hg & Hk & Hs & Hr & Ha & Hx).
  destruct (update_anchor_get db _ d target Hg Hk Ha) as (Hget & Hother & Hdb). simpl in *.
  intros Hw. right. exists d, target. split_and!; try done.
  - destruct writable; simplify_eq; [by rewrite Hdb|done].
  - intros Hglobal. rewrite Hglobal in Ha. by destruct (d_domain d).
  - intros i Hi. destruct writable; simplify_eq; by apply Hother.
  - by destruct writable; simplify_eq.
Qed.

(** ** Distillation *)
Definition governed (d : Drawer) : Prop :=
  ∃ tier status, d_tier d = Some tier ∧ d_status d = Some status ∧ status ∈ allowed_statuses tier.

Lemma prepare_distill_create `{E : StoreEnv} `{P : PathEnv} now db request d :
  prepare_distill now db request = Ok (Create d) →
  d_memory_kind d = Knowledge ∧ d_status d = Some Candidate
  ∧ (d_tier d = Some DaoRen ∨ d_tier d = Some Qi)
  ∧ d_supporting_refs d ≠ [] ∧ d_verification_refs d = []
  ∧ Forall (evidence_ref db) (d_supporting_refs d ++ d_counterexample_refs d ++ d_teaching_refs d)%list
  ∧ 0 <= d_importance d <= 5 ∧ d_source_type d = AgentInference ∧ d_supersedes d = None
  ∧ validate_anchor_domain (d_domain d) (d_anchor_kind d) = Ok tt
  ∧ drawer_exists db (d_id d) = false.
Proof.
  unfold prepare_distill. destruct (negb _) eqn:Ei; [done|]. apply negb_false_iff in Ei.
  apply andb_true_iff in Ei as [?%Z.leb_le ?%Z.leb_le].
  destruct (trim_required (di_statement request) _) as [statement|]; [|done].
  destruct (trim_required (di_content request) _) as [content|]; [|done].
  destruct (trim_required (di_wing request) _) as [wing|]; [|done].
  destruct (trim_required (di_room request) _) as [room|]; [|done].
  destruct (trim_required (di_field request) _) as [field|]; [|done].
  destruct (parse_domain _) as [domain|]; [|done].
  destruct (parse_distill_tier _) as [tier|] eqn:Et; [|done].
  destruct (validate_distill_refs db "supporting_refs" _) as [[]|] eqn:E1; [|done].
  destruct (validate_distill_refs db "counterexample_refs" _) as [[]|] eqn:E2; [|done].
  destruct (validate_distill_refs db "teaching_refs" _) as [[]|] eqn:E3; [|done].
  destruct (distill_anchor domain _) as [anchor|]; [|done].
  destruct (validate_anchor_domain _ _) as [[]|] eqn:Ea; [|done].
  destruct (di_dry_run request); [done|]. destruct (drawer_exists db _) eqn:Ex; [done|].
  intros [= <-]. simpl. split_and!; try done.
  - unfold parse_distill_tier in Et. repeat (case_match; simplify_eq; auto).
  - unfold validate_distill_refs in E1. simpl in E1. by destruct (normalized_nonempty_strings _).
  - unfold validate_distill_refs in *. rewrite !Forall_app. simpl in *.
    split_and!; eapply validate_refs_ok; [|exact E2|exact E3]. by destruct (normalized_nonempty_strings (di_supporting_refs request)).
Qed.
