(* ===== verification/KnowledgeSystem.v ===== *)
(** * The drawer table as a transition system

    Every operation that changes the table is a step, and an invariant holds in
    every state the steps reach: all rows decode, active knowledge is governed, and
    no foreign key dangles. *)

From Stdlib Require Import ZArith QArith Lia String Ascii.
From stdpp Require Import base tactics list gmap strings numbers sets relations.
From S2P Require Import Prelude Order Text Drawer DrawerStore DrawerSafety Knowledge KnowledgeSafety.
Close Scope Q_scope.
Open Scope Z_scope.
Open Scope string_scope.
Open Scope rust_scope.

Section system.
Context `{E : StoreEnv} `{P : PathEnv} `{L : !StoreLaws E}.

(** The drawers that the callers hand to an insertion, which checks nothing of them. *)
Context (given : Drawer → Prop).

(** Some caller has handed in knowledge under this identifier without a tier and a status
    that the tier allows. *)
Definition handed_ungoverned (id : string) : Prop :=
  ∃ d, given d ∧ d_id d = id ∧ d_memory_kind d = Knowledge ∧ ¬ governed d.

(** ** The invariant *)
Definition lawful (id : string) (row : Row) : Prop :=
  ∃ d, drawer_from_row id row = Ok d
       ∧ (is_active row = true → d_memory_kind d = Knowledge → governed d ∨ handed_ungoverned id).

Definition closed (db : Db) : Prop :=
  (∀ i row o, db_drawers db !! i = Some row → r_supersedes row = Some o ∨ r_compacted_into row = Some o →
     is_Some (db_drawers db !! o))
  ∧ (∀ k t o, db_triples db !! k = Some t → t_source_drawer t = Some o → is_Some (db_drawers db !! o))
  ∧ (∀ c, c ∈ db_consolidations db → is_Some (db_drawers db !! c_target c))
  ∧ (∀ o, o ∈ db_links db → is_Some (db_drawers db !! o)).

Definition store_inv (db : Db) : Prop :=
  (∀ i row, db_drawers db !! i = Some row → lawful i row) ∧ closed db.

(** ** Steps *)
Inductive store_step : Db → Db → Prop :=
  | step_insert db d project_id source_root valid_from valid_until op :
      given d →
      store_step db (insert_drawer_with_project_validity_once db d project_id source_root valid_from valid_until op).1
  | step_distill now db0 db request d writable :
      prepare_distill now db0 request = Ok (Create d) → store_step db (commit_distill writable db d).1
  | step_promote writable db request : store_step db (promote_knowledge writable db request).1
  | step_demote writable db request : store_step db (demote_knowledge writable db request).1
  | step_publish writable db request : store_step db (publish_anchor writable db request).1
  | step_soft_delete now db id project_id :
      store_step db (soft_delete_drawer_in_project now id project_id db).1
  | step_soft_delete_ids now db ids : store_step db (soft_delete_drawers_by_ids now ids db).1
  | step_soft_delete_since now since wing room project_id db :
      store_step db (soft_delete_drawers_since now since wing room project_id db).1
  | step_supersede now db id reason writable : store_step db (supersede_drawer now id reason writable db).1
  | step_hard_delete db ids : store_step db (hard_delete_drawers_by_ids ids db).1
  | step_purge f db before kept vectors index :
      store_step db (purge_outcome f before kept (MkPurgeTables db vectors index))
  | step_compact now target sources merged db : store_step db (apply_compaction now target sources merged db).1
  | step_pin db id order : store_step db (pin_drawer id order db).1
  | step_pin_all db ids : store_step db (pin_drawers ids db)
  | step_unpin db id : store_step db (unpin_drawer id db).1
  | step_reorder db ids : store_step db (reorder_pinned_facts ids db)
  | step_triple db id t : store_step db (insert_triple id t db).1
  | step_invalidate now db id : store_step db (invalidate_triple now id db).1.

Definition empty_store : Db := MkDb ∅ ∅ ∅ [] [].

Lemma empty_store_inv : store_inv empty_store.
Proof.
  split; [|split_and!]; simpl.
  - intros i row Hl. by rewrite lookup_empty in Hl.
  - intros i row o Hl. by rewrite lookup_empty in Hl.
  - intros k t o Hl. by rewrite lookup_empty in Hl.
  - intros c Hc. by apply elem_of_nil in Hc.
  - intros o Ho. set_solver.
Qed.

(** ** Changing one row in place *)
Definition keeps (db : Db) (set : Row → Row) (id : string) (row : Row) : Prop :=
  lawful id (set row) ∧ r_supersedes (set row) = r_supersedes row
  ∧ (r_compacted_into (set row) = r_compacted_into row
     ∨ ∃ t, r_compacted_into (set row) = Some t ∧ is_Some (db_drawers db !! t)).

Lemma inv_update db id cond set :
  store_inv db →
  (∀ row, db_drawers db !! id = Some row → cond row = true → lawful id row → keeps db set id row) →
  store_inv (update_where id cond set db).1.
Proof.
  intros [Hlaw (Hrow & Htri & Hcon & Hlink)] Hset.
  destruct (update_where id cond set db) as [db' n] eqn:Eu.
  destruct (update_where_spec _ _ _ _ _ _ Eu) as [(row & Hl & Hc & _ & ->)|(-> & _)]; [|done].
  destruct (Hset row Hl Hc (Hlaw _ _ Hl)) as (Hk & Hs & Hci).
  assert (Hdom : ∀ o, is_Some (db_drawers db !! o) → is_Some (<[id := set row]> (db_drawers db) !! o)).
  { intros o Ho. destruct (decide (o = id)) as [->|?]; [by rewrite lookup_insert_eq|by rewrite lookup_insert_ne]. }
  split; [|split_and!]; simpl; [| |by eauto..].
  - intros i r. destruct (decide (i = id)) as [->|?]; [rewrite lookup_insert_eq; intros [= <-]; done|].
    rewrite lookup_insert_ne by done. apply Hlaw.
  - intros i r o. destruct (decide (i = id)) as [->|?].
    + rewrite lookup_insert_eq. intros [= <-]. rewrite Hs. intros [Ho|Ho]; apply Hdom.
      * eapply Hrow; eauto.
      * destruct Hci as [Hci|(t & Hci & Ht)]; rewrite Hci in Ho; [eapply Hrow; eauto|by simplify_eq].
    + rewrite lookup_insert_ne by done. intros Hr Ho. apply Hdom. by eapply Hrow.
Qed.

Lemma inv_audit db a : store_inv db → store_inv (with_audit db a).
Proof. done. Qed.

(** A deleted row is lawful as long as it decodes. *)
Lemma lawful_deleted id row d : drawer_from_row id row = Ok d → is_active row = false → lawful id row.
Proof. intros Hd Ha. exists d. split; [done|]. by rewrite Ha. Qed.

Lemma keeps_deleted db now id row : lawful id row → keeps db (set_deleted_at (Some now)) id row.
Proof. intros (d & Hd & _). split_and!; [by eapply lawful_deleted|done|by left]. Qed.

Lemma keeps_superseded db now id row : lawful id row → keeps db (set_superseded now) id row.
Proof.
  intros (d & Hd & _). apply (decode_superseded _ _ _ now) in Hd.
  destruct (drawer_from_row id (set_superseded now row)) as [d'|] eqn:Ed; [|done].
  split_and!; [by eapply lawful_deleted|done|by left].
Qed.

Lemma keeps_compacted db now target id row :
  is_Some (db_drawers db !! target) → lawful id row → keeps db (set_compacted now target) id row.
Proof.
  intros Ht (d & Hd & _). split_and!; [|done|right; by exists target].
  assert (Hd' : is_ok (drawer_from_row id (set_compacted now target row)) = true).
  { revert Hd. unfold drawer_from_row. simpl. intros Hd. bind_ok Hd. done. }
  destruct (drawer_from_row id (set_compacted now target row)) as [d'|] eqn:Ed; [|done].
  by eapply lawful_deleted.
Qed.

(** Columns that decoding passes through leave a row as lawful as it was. *)
Lemma lawful_passes id row row' :
  (∀ d, drawer_from_row id row = Ok d → ∃ d', drawer_from_row id row' = Ok d'
     ∧ d_memory_kind d' = d_memory_kind d ∧ d_tier d' = d_tier d ∧ d_status d' = d_status d) →
  is_active row' = is_active row → lawful id row → lawful id row'.
Proof.
  intros Hpass Ha (d & Hd & Hg). destruct (Hpass d Hd) as (d' & Hd' & Hk & Ht & Hs). exists d'.
  split; [done|]. unfold governed in *. rewrite Ha, Hk, Ht, Hs. done.
Qed.

Lemma keeps_pin db b o id row : lawful id row → keeps db (set_pin b o) id row.
Proof.
  intros Hl. split_and!; [|done|by left]. apply (lawful_passes id row); [|done|exact Hl]. intros d.
  unfold drawer_from_row. simpl. intros Hd. bind_ok Hd. simplify_eq. eexists. split_and!; done.
Qed.

Lemma keeps_content db c h u m id row : lawful id row → keeps db (set_content c h u m) id row.
Proof.
  intros Hl. split_and!; [|done|by left]. apply (lawful_passes id row); [|done|exact Hl]. intros d.
  unfold drawer_from_row. simpl. intros Hd. bind_ok Hd. simplify_eq. eexists. split_and!; done.
Qed.

Lemma inv_update_pair db id cond set :
  store_inv db →
  (∀ row, db_drawers db !! id = Some row → cond row = true → lawful id row → keeps db set id row) →
  store_inv (let '(db', n) := update_where id cond set db in (db', (0 <? n)%Z)).1.
Proof. intros Hi Hk. pose proof (inv_update db id cond set Hi Hk). by destruct (update_where id cond set db). Qed.

Lemma governed_or_not d : governed d ∨ ¬ governed d.
Proof.
  unfold governed. destruct (d_tier d) as [t|]; [|right; by intros (? & ? & ? & _)].
  destruct (d_status d) as [s|]; [|right; by intros (? & ? & _ & ? & _)].
  destruct (decide (s ∈ allowed_statuses t)); [left; eauto|right]. intros (? & ? & [= <-] & [= <-] & ?). done.
Qed.

Lemma given_lawful d : given d → d_memory_kind d = Knowledge → governed d ∨ handed_ungoverned (d_id d).
Proof. intros Hg Hk. destruct (governed_or_not d); [by left|]. right. by exists d. Qed.

(** ** Each operation *)
Lemma inv_insert db d p r vf vu op :
  store_inv db → (d_memory_kind d = Knowledge → governed d ∨ handed_ungoverned (d_id d)) →
  store_inv (insert_drawer_with_project_validity_once db d p r vf vu op).1.
Proof.
  intros [Hlaw (Hrow & Htri & Hcon & Hlink)] Hg.
  destruct (insert_drawer_with_project_validity_once db d p r vf vu op) as [db' res] eqn:Ei.
  destruct (insert_once_spec _ _ _ _ _ _ _ _ _ Ei) as [(-> & _)|(Hn & _ & Hm & Ha & Hsup & ->)]; [done|].
  assert (Hdom : ∀ o, is_Some (db_drawers db !! o) →
            is_Some (<[d_id d := drawer_to_row d p r vf vu op]> (db_drawers db) !! o)).
  { intros o Ho. destruct (decide (o = d_id d)) as [->|?]; [by rewrite lookup_insert_eq|by rewrite lookup_insert_ne]. }
  split; [|split_and!]; simpl; [| |by eauto..].
  - intros i row. destruct (decide (i = d_id d)) as [->|?].
    + rewrite lookup_insert_eq. intros [= <-]. exists (stored_drawer d). split; [by apply drawer_row_roundtrip|].
      intros _. exact Hg.
    + rewrite lookup_insert_ne by done. apply Hlaw.
  - intros i row o. destruct (decide (i = d_id d)) as [->|?].
    + rewrite lookup_insert_eq. intros [= <-]. simpl. intros [Ho|?]; [|done].
      destruct (Hsup o Ho) as [->|?]; [by rewrite lookup_insert_eq|by apply Hdom].
    + rewrite lookup_insert_ne by done. intros Hr Ho. apply Hdom. by eapply Hrow.
Qed.

Lemma inv_lifecycle db id d tier target v c :
  store_inv db → get_drawer db id = Ok (Some d) → d_tier d = Some tier → target ∈ allowed_statuses tier →
  store_inv (update_knowledge_lifecycle id target v c db).1.
Proof.
  intros Hi (row0 & Hl & Ha & Hd)%get_drawer_Some Ht Hin. apply inv_update_pair; [done|].
  intros row Hrow _ _. simplify_eq. split_and!; [|done|by left].
  eexists. split; [by eapply decode_lifecycle|]. intros _ _. left. by exists tier, target.
Qed.

Lemma inv_promote writable db request : store_inv db → store_inv (promote_knowledge writable db request).1.
Proof.
  intros Hi. unfold promote_knowledge. destruct (promote_plan db request) as [[[[dv old] target] gate]|e] eqn:Ep; [|done].
  destruct (promote_plan_ok _ _ _ _ _ _ Ep) as (d & tier & Hg & Hk & Ht & Hs & Htar & Hall & _ & _ & -> & _).
  pose proof (inv_lifecycle db _ d tier target
    (append_unique_refs (d_verification_refs d) (pr_verification_refs request)) (d_counterexample_refs d) Hi Hg Ht Hall).
  by destruct writable; [apply inv_audit|].
Qed.

Lemma inv_demote writable db request : store_inv db → store_inv (demote_knowledge writable db request).1.
Proof.
  intros Hi. unfold demote_knowledge. destruct (demote_plan db request) as [[[[d old] target] refs]|e] eqn:Ep; [|done].
  destruct (demote_plan_ok _ _ _ _ _ _ Ep) as (tier & Hg & Hk & Ht & Hs & Htar & Hall & _ & _ & ->).
  pose proof (inv_lifecycle db _ d tier target (d_verification_refs d)
    (append_unique_refs (d_counterexample_refs d) (de_evidence_refs request)) Hi Hg Ht Hall).
  by destruct writable; [apply inv_audit|].
Qed.

Lemma inv_publish writable db request : store_inv db → store_inv (publish_anchor writable db request).1.
Proof.
  intros Hi. unfold publish_anchor. destruct (publish_plan db request) as [[d target]|e] eqn:Ep; [|done].
  destruct (publish_plan_ok _ _ _ _ Ep) as ((row0 & Hl & Ha & Hd)%get_drawer_Some & Hk & _ & _ & Hv & _).
  assert (Hu : store_inv (update_knowledge_anchor (pu_drawer_id request) (an_kind target) (an_id target)
                            (an_parent target) db).1).
  { apply inv_update_pair; [done|]. intros row Hrow _ (d1 & Hd1 & Hg). simplify_eq. rewrite Hd in Hd1. injection Hd1 as <-.
    split_and!; [|done|by left]. exists (with_anchor d target). split; [by apply decode_anchor|]. exact Hg. }
  by destruct writable; [apply inv_audit|].
Qed.

Lemma inv_distill now db0 db request d writable :
  prepare_distill now db0 request = Ok (Create d) → store_inv db → store_inv (commit_distill writable db d).1.
Proof.
  intros Hp Hi. destruct (prepare_distill_create _ _ _ _ Hp) as (Hk & Hs & Ht & _).
  unfold commit_distill. pose proof (inv_insert db d None None None None None Hi) as Hins.
  unfold insert_drawer, insert_drawer_with_project.
  destruct (insert_drawer_with_project_validity_once db d None None None None None) as [db1 res].
  assert (Hgov : governed d).
  { destruct Ht as [Ht|Ht]; eexists _, _; split_and!; try done; simpl; set_solver. }
  specialize (Hins (λ _, or_introl Hgov)). destruct res; simpl; [|done].
  destruct (vector_stored (d_id d)); simpl; [|done]. by destruct writable; [apply inv_audit|].
Qed.

Lemma inv_soft_delete_ids now ids db : store_inv db → store_inv (soft_delete_drawers_by_ids now ids db).1.
Proof.
  revert db. induction ids as [|id ids IH]; intros db Hi; simpl; [done|].
  pose proof (inv_update db id is_active (set_deleted_at (Some now)) Hi
    (λ row _ _ Hl, keeps_deleted db now id row Hl)) as Hu.
  destruct (update_where _ _ _ db) as [db1 n]. specialize (IH db1 Hu).
  by destruct (soft_delete_drawers_by_ids now ids db1).
Qed.

Lemma inv_soft_delete_since now since wing room p db :
  store_inv db → store_inv (soft_delete_drawers_since now since wing room p db).1.
Proof.
  intros [Hlaw (Hrow & Htri & Hcon & Hlink)]. unfold soft_delete_drawers_since. simpl.
  set (hit := λ row, String.ltb since (r_added_at row) && is_active row && since_filters wing room p row).
  assert (Hdom : ∀ o, is_Some (db_drawers db !! o) →
     is_Some (((λ row, if hit row then set_deleted_at (Some now) row else row) <$> db_drawers db) !! o)).
  { intros o [r Hr]. by rewrite lookup_fmap, Hr. }
  split; [|split_and!]; simpl; [| |by eauto..].
  - intros i row. rewrite lookup_fmap. destruct (db_drawers db !! i) as [r|] eqn:El; [|done].
    simpl. intros [= <-]. destruct (_ && since_filters wing room p r); [|by apply Hlaw]. by apply (keeps_deleted db now i r (Hlaw i r El)).
  - intros i row o. rewrite lookup_fmap. destruct (db_drawers db !! i) as [r|] eqn:El; [|done].
    simpl. intros [= <-] Ho. apply Hdom. eapply Hrow; [exact El|]. by destruct (_ && since_filters wing room p r).
Qed.

Lemma inv_supersede now id reason writable db : store_inv db → store_inv (supersede_drawer now id reason writable db).1.
Proof.
  intros Hi. unfold supersede_drawer.
  pose proof (inv_update db id is_active (set_superseded now) Hi
    (λ row _ _ Hl, keeps_superseded db now id row Hl)) as Hu.
  destruct (update_where _ _ _ db) as [db1 n]. destruct (0 <? n)%Z; [|done]. by destruct writable; [apply inv_audit|].
Qed.

(** Forgetting a source, then deleting a row that nothing refers to. *)
Lemma inv_clear_source id db : store_inv db → store_inv (clear_source id db).
Proof.
  intros [Hlaw (Hrow & Htri & Hcon & Hlink)]. split; [done|split_and!]; simpl; [done| |done..].
  intros k t o. rewrite lookup_fmap. destruct (db_triples db !! k) as [t0|] eqn:Et; [|done].
  intros [= <-]. unfold forget_source. case_bool_decide; simpl; [done|]. by eapply Htri.
Qed.

Lemma inv_delete_where id cond db db' n :
  store_inv db → delete_where id cond db = Ok (db', n) → store_inv db'.
Proof.
  intros [Hlaw (Hrow & Htri & Hcon & Hlink)]. unfold delete_where.
  destruct (db_drawers db !! id) as [row|] eqn:El; [|intros [= <- _]; done].
  destruct (cond row); [|intros [= <- _]; done].
  destruct (referenced _ id) eqn:Er; [done|]. intros [= <- _].
  assert (Hno : ¬ refers db id) by (by rewrite <- referenced_deleted, Er).
  assert (Hdom : ∀ o, o ≠ id → is_Some (db_drawers db !! o) → is_Some (delete id (db_drawers db) !! o)).
  { intros o Ho Hs. by rewrite lookup_delete_ne. }
  unfold refers in Hno. split; [|split_and!]; simpl.
  - intros i r [_ Hl]%lookup_delete_Some. by apply Hlaw.
  - intros i r o [Hi Hl]%lookup_delete_Some Ho. apply Hdom; [|by eapply Hrow]. intros ->. apply Hno. do 3 right.
    by exists i, r.
  - intros k t o Hk Ho. apply Hdom; [|by eapply Htri]. intros ->. apply Hno. do 2 right; left. by exists k, t.
  - intros c Hc. apply Hdom; [|by apply Hcon]. intros Heq. apply Hno. right; left. by exists c.
  - intros o Ho. apply Hdom; [|by apply Hlink]. intros ->. apply Hno. by left.
Qed.

Lemma inv_hard_delete_loop ids db db' n : store_inv db → hard_delete_loop ids db = Ok (db', n) → store_inv db'.
Proof.
  revert db n. induction ids as [|id ids IH]; intros db n Hi; simpl; [intros [= <- _]; done|].
  destruct (delete_where id is_active (clear_source id db)) as [[db1 m]|] eqn:Ed; [|done].
  destruct (hard_delete_loop ids db1) as [[db2 k]|] eqn:Eh; [|done]. intros [= <- _].
  eapply IH; [|exact Eh]. by eapply inv_delete_where, Ed; apply inv_clear_source.
Qed.

Lemma inv_clean_purge ids db db' : store_inv db → clean_purge ids db = Ok db' → store_inv db'.
Proof.
  revert db. induction ids as [|id ids IH]; intros db Hi; simpl; [intros [= <-]; done|].
  destruct (delete_where id _ (clear_source id db)) as [[db1 m]|] eqn:Ed; [|done].
  apply IH. by eapply inv_delete_where, Ed; apply inv_clear_source.
Qed.

Lemma inv_transaction {A} db (body : result (Db * A) StoreError) :
  store_inv db → (∀ db' a, body = Ok (db', a) → store_inv db') → store_inv (transaction db body).1.
Proof. intros Hi Hb. destruct body as [[db' a]|e]; simpl; [by eapply Hb|done]. Qed.

Lemma update_where_dom id cond set db o :
  is_Some (db_drawers (update_where id cond set db).1 !! o) ↔ is_Some (db_drawers db !! o).
Proof.
  destruct (update_where id cond set db) as [db' n] eqn:Eu.
  destruct (update_where_spec _ _ _ _ _ _ Eu) as [(row & Hl & _ & _ & ->)|(-> & _)]; [|done]. simpl.
  rewrite lookup_insert_is_Some. split; [intros [<-|[_ ?]]; [by rewrite Hl|done]|].
  intros Ho. destruct (decide (id = o)); auto.
Qed.

Lemma inv_compact_sources now target ids db db' :
  store_inv db → is_Some (db_drawers db !! target) → compact_sources now target ids db = Ok db' →
  store_inv db' ∧ is_Some (db_drawers db' !! target).
Proof.
  revert db. induction ids as [|id ids IH]; intros db Hi Ht; simpl; [intros [= <-]; done|].
  destruct (id =? target); [by apply IH|].
  pose proof (inv_update db id compactable (set_compacted now target) Hi
    (λ row _ _ Hl, keeps_compacted db now target id row Ht Hl)) as Hu.
  pose proof (update_where_dom id compactable (set_compacted now target) db target) as Hdom.
  destruct (update_where _ _ _ db) as [db1 n]. destruct (n =? 1)%Z; [|done]. apply IH; [done|by apply Hdom].
Qed.

Lemma inv_compaction now target ids merged db : store_inv db → store_inv (apply_compaction now target ids merged db).1.
Proof.
  intros Hi. unfold apply_compaction. destruct ids as [|s0 rest]; [done|]. set (ids := s0 :: rest).
  apply inv_transaction; [done|]. intros db' u. unfold compaction_body.
  destruct (db_drawers db !! target) as [row|] eqn:Et; [|done]. destruct (compactable row); [|done].
  set (new := set_content _ _ _ _).
  pose proof (inv_update db target compactable new Hi (λ r _ _ Hl, keeps_content db _ _ _ _ target r Hl)) as Hu.
  pose proof (update_where_dom target compactable new db target) as Hdom.
  destruct (update_where target compactable new db) as [db1 n]. destruct (n =? 1)%Z; [|done].
  destruct (compact_sources now target ids db1) as [db2|] eqn:Es; [|done]. intros [= <- _].
  destruct (inv_compact_sources _ _ _ _ _ Hu ltac:(by apply Hdom; rewrite Et) Es) as [[Hlaw (Hr & Htri & Hcon & Hl)] Ht].
  split; [done|split_and!]; simpl; [done..| |done].
  intros c [Hc| ->%list_elem_of_singleton]%elem_of_app; [by apply Hcon|done].
Qed.

Lemma inv_pin_with_order id order db : store_inv db → store_inv (pin_drawer_with_order id order db).1.
Proof. intros Hi. apply inv_update_pair; [done|]. intros row _ _ Hl. by apply keeps_pin. Qed.

Lemma inv_pin_drawers ids db : store_inv db → store_inv (pin_drawers ids db).
Proof. revert db. induction ids as [|id ids IH]; intros db Hi; simpl; [done|]. by apply IH, inv_pin_with_order. Qed.

Lemma inv_reorder n ids db : store_inv db → store_inv (reorder_from n ids db).
Proof.
  revert n db. induction ids as [|id ids IH]; intros n db Hi; simpl; [done|]. apply IH, inv_update; [done|].
  intros row _ _ Hl. by apply keeps_pin.
Qed.

Lemma inv_triple id t db :
  (∀ o, t_source_drawer t = Some o → is_Some (db_drawers db !! o)) → store_inv db →
  store_inv (MkDb (db_drawers db) (<[id := t]> (db_triples db)) (db_links db) (db_consolidations db) (db_audit db)).
Proof.
  intros Ht [Hlaw (Hrow & Htri & Hcon & Hlink)]. split; [done|split_and!]; simpl; [done| |done..].
  intros k t' o. destruct (decide (k = id)) as [->|?]; [rewrite lookup_insert_eq; intros [= <-]; apply Ht|].
  rewrite lookup_insert_ne by done. apply Htri.
Qed.

Lemma inv_insert_triple id t db : store_inv db → store_inv (insert_triple id t db).1.
Proof.
  intros Hi. unfold insert_triple. destruct (t_source_drawer t) as [o|] eqn:Eo.
  - unfold drawer_id_in_use. case_bool_decide as Hu; [|done]. apply inv_triple; [|done]. rewrite Eo. by intros ? [= <-].
  - apply inv_triple; [|done]. by rewrite Eo.
Qed.

Lemma inv_invalidate now id db : store_inv db → store_inv (invalidate_triple now id db).1.
Proof.
  intros Hi. unfold invalidate_triple. destruct (db_triples db !! id) as [t|] eqn:Et; [|done].
  destruct (t_valid_to t); [done|]. apply inv_triple; [|done]. simpl. intros o. destruct Hi as [_ (_ & Htri & _)].
  by eapply Htri.
Qed.

(** Every step preserves the invariant. *)
Lemma step_inv db db' : store_step db db' → store_inv db → store_inv db'.
Proof.
  intros Hs Hi. destruct Hs.
  - by apply inv_insert, given_lawful.
  - by eapply inv_distill.
  - by apply inv_promote.
  - by apply inv_demote.
  - by apply inv_publish.
  - apply inv_update_pair; [done|]. intros row _ _ Hl. by apply keeps_deleted.
  - by apply inv_soft_delete_ids.
  - by apply inv_soft_delete_since.
  - by apply inv_supersede.
  - unfold hard_delete_drawers_by_ids. destruct ids as [|id ids]; [done|].
    apply inv_transaction; [done|]. intros db' a Hb. by eapply inv_hard_delete_loop.
  - destruct (purge_outcome_cases f before kept (MkPurgeTables db vectors index)) as [->|Hc]; [done|].
    by eapply inv_clean_purge.
  - by apply inv_compaction.
  - by apply inv_pin_with_order.
  - by apply inv_pin_drawers.
  - apply inv_update_pair; [done|]. intros row _ _ Hl. by apply keeps_pin.
  - by apply inv_reorder.
  - by apply inv_insert_triple.
  - by apply inv_invalidate.
Qed.
End system.

(** C25: In every state that the operations on drawers reach from an empty table,
    whatever their order and outcome, every active drawer can be read, and no reference
    dangles: what a drawer supersedes or was compacted into, what a triple names as its
    source and what a consolidation names as its target is a row of the table. Every
    active knowledge drawer has a tier and a status that the tier allows, unless a
    caller has handed the insertion a knowledge drawer without them under the same
    identifier: the insertion itself checks nothing, while distillation, promotion,
    demotion and publication make and keep them. *)
Theorem governed_reachable `{E : StoreEnv} `{P : PathEnv} `{L : !StoreLaws E} given db :
  rtc (store_step given) empty_store db →
  closed db
  ∧ ∀ id, drawer_exists db id = true →
      ∃ d, get_drawer db id = Ok (Some d)
           ∧ (d_memory_kind d = Knowledge → governed d ∨ handed_ungoverned given id).
Proof.
  intros Hr. assert (Hinv : store_inv given db).
  { pose proof (empty_store_inv given) as Hi. induction Hr as [|a b c Hs _ IH]; [done|]. apply IH. by eapply step_inv. }
  destruct Hinv as [Hlaw Hclosed]. split; [done|]. intros id Hid. unfold drawer_exists in Hid.
  apply bool_decide_eq_true in Hid as [row Hrow]. unfold active_row in Hrow.
  destruct (db_drawers db !! id) as [r|] eqn:El; [|done]. destruct (is_active r) eqn:Ea; simplify_eq.
  destruct (Hlaw id row El) as (d & Hd & Hg). exists d. split; [|by apply Hg].
  apply get_drawer_Some. by exists row.
Qed.

(** A distillation that commits on an identifier no row uses makes a governed
    candidate: knowledge of the tier dao_ren or qi, with at least one supporting
    reference, all references evidence drawers when it was prepared, no
    verification yet and an importance of zero to five; it reads back as prepared. *)
Theorem distill_makes_candidate `{E : StoreEnv} `{P : PathEnv} `{L : !StoreLaws E} now db0 request d writable db db' id :
  prepare_distill now db0 request = Ok (Create d) →
  commit_distill writable db d = (db', Ok id) → db_drawers db !! d_id d = None →
  id = d_id d ∧ get_drawer db' id = Ok (Some (stored_drawer d))
  ∧ d_memory_kind d = Knowledge ∧ governed d ∧ d_status d = Some Candidate
  ∧ (d_tier d = Some DaoRen ∨ d_tier d = Some Qi)
  ∧ d_supporting_refs d ≠ [] ∧ d_verification_refs d = []
  ∧ Forall (evidence_ref db0) (d_supporting_refs d ++ d_counterexample_refs d ++ d_teaching_refs d)%list
  ∧ 0 <= d_importance d <= 5.
Proof.
  intros Hp Hc Hn.
  destruct (prepare_distill_create _ _ _ _ Hp) as (Hk & Hs & Ht & Hsup & Hver & Hrefs & Himp & Hsrc & _ & Ha & _).
  unfold commit_distill, insert_drawer, insert_drawer_with_project in Hc.
  destruct (insert_drawer_with_project_validity_once db d None None None None None) as [db1 res] eqn:Ei.
  destruct res as [[]|]; [|done]. destruct (vector_stored (d_id d)); simpl in Hc; [|done].
  destruct writable; [|done]. injection Hc as <- <-.
  destruct (insert_once_spec _ _ _ _ _ _ _ _ _ Ei) as [(_ & [[_ [x Hx]]|?])|(_ & _ & Hm & _ & _ & ->)];
    [congruence|done|].
  assert (Hgov : governed d).
  { destruct Ht as [Ht|Ht]; eexists _, _; split_and!; try done; simpl; set_solver. }
  split_and!; try done; try lia. by apply (get_inserted db d None None None None None).
Qed.

(** ** A history

    Two evidence drawers, a candidate distilled from them, its promotion. *)
Import Plain.

Module Story.
#[export] Instance paths : PathEnv := {
  canonicalize p := Some p;
  current_dir := Some "/repo";
  git cwd arg := if arg =? "--show-toplevel" then Some (Ok "/repo") else Some (Ok ".git");
  vector_stored _ := true;
}.

Definition evidence (id content : string) : Drawer :=
  new_bootstrap_evidence id content "w" (Some "r") None AgentObservation "100" None 2.

Definition sources : Db :=
  (insert_drawer (insert_drawer empty_store (evidence "drawer_e1" "a")).1 (evidence "drawer_e2" "b")).1.

Definition request (refs : list string) : DistillRequest :=
  MkDistill "a rule" "the rule in full" "dao_ren" refs "w" "r" "project" "general" None None [] [] None 4 false.

Definition candidate (refs : list string) : Drawer :=
  match prepare_distill "200" sources (request refs) with Ok (Create d) => d | _ => evidence "" "" end.

Definition distilled : Db := (commit_distill true sources (candidate ["drawer_e1"; "drawer_e2"])).1.

Definition promotion (d : Drawer) : PromoteRequest :=
  MkPromote (d_id d) "promoted" ["drawer_e2"] "tested" None false true.

Definition promoted : Db := (promote_knowledge true distilled (promotion (candidate ["drawer_e1"; "drawer_e2"]))).1.

(** Evidence that replaces the first, and a triple from the second. *)
Definition replacement : Drawer := link_superseded_drawer (evidence "drawer_e3" "c") "drawer_e1".
Definition trace : Triple := MkTriple "a" "is" "b" None None 1 (Some "drawer_e2").
Definition traced : Db := (insert_triple "t1" trace (insert_drawer promoted replacement).1).1.

Definition demotion (d : Drawer) : DemoteRequest :=
  MkDemote (d_id d) "demoted" ["drawer_e1"] "it failed" "contradicted".

Definition publication (d : Drawer) : PublishRequest := MkPublish (d_id d) "repo" None None "shared".
End Story.
#[local] Existing Instance Story.paths.

Lemma promote_enforced_witness :
  let d := Story.candidate ["drawer_e1"; "drawer_e2"] in
  ∃ d', get_drawer Story.promoted (d_id d) = Ok (Some d') ∧ d_status d' = Some Promoted.
Proof.
  intros d. destruct (promote_knowledge true Story.distilled (Story.promotion d)) as [db' [out|e]] eqn:Hp.
  - destruct (promote_enforced true Story.distilled (Story.promotion d) db' out ltac:(vm_compute; reflexivity) Hp)
      as (d0 & tier & target & req & d' & _ & _ & _ & Hout & _ & Hget & Hd' & _).
    exists d'. split.
    + unfold Story.promoted. fold d. rewrite Hp. exact Hget.
    + rewrite Hd'. simpl. f_equal.
      assert (Hs : po_new_status out = "promoted").
      { change out with (match Ok (E:=KnowledgeError) out with Ok o => o | Err _ => out end).
        change (Ok out) with (db', Ok (E:=KnowledgeError) out).2. rewrite <- Hp. vm_compute. reflexivity. }
      rewrite Hs in Hout. destruct target; vm_compute in Hout; congruence.
  - exfalso. vm_compute in Hp. discriminate.
Defined.

Lemma lifecycle_effect_witness :
  let d := Story.candidate ["drawer_e1"; "drawer_e2"] in
  let db' := (demote_knowledge true Story.promoted (Story.demotion d)).1 in
  (∃ d' target, get_drawer db' (d_id d) = Ok (Some d') ∧ d_status d' = Some target ∧ target ∈ [Demoted; Retired])
  ∧ db_drawers db' !! "drawer_e1" = db_drawers Story.promoted !! "drawer_e1".
Proof.
  intros d db'. destruct (demote_knowledge true Story.promoted (Story.demotion d)) as [db1 res] eqn:Hp.
  destruct (proj2 (lifecycle_effect true Story.promoted) _ _ _ Hp) as [(_ & Hr)|(d0 & tier & target & Hrest)].
  - exfalso. assert (Hok : is_ok (demote_knowledge true Story.promoted (Story.demotion d)).2 = true)
      by (vm_compute; reflexivity).
    rewrite Hp in Hok. simpl in Hok. congruence.
  - destruct Hrest as (_ & _ & Ht & _ & Hget & Hother & _). split.
    + eexists _, target. split; [exact Hget|]. split; [reflexivity|exact Ht].
    + apply Hother. vm_compute. discriminate.
Defined.

Lemma publish_outward_witness :
  let d := Story.candidate ["drawer_e1"; "drawer_e2"] in
  ∃ d' target, get_drawer (publish_anchor true Story.promoted (Story.publication d)).1 (d_id d)
               = Ok (Some (with_anchor d' target))
               ∧ an_kind target = AnchorRepo.
Proof.
  intros d. destruct (publish_anchor true Story.promoted (Story.publication d)) as [db1 res] eqn:Hp.
  destruct (publish_outward true Story.promoted _ _ _ Hp) as [(_ & Hr)|(d0 & target & Hg & _ & _ & Hget & Hrank & _)].
  - exfalso. assert (Hok : is_ok (publish_anchor true Story.promoted (Story.publication d)).2 = true)
      by (vm_compute; reflexivity).
    rewrite Hp in Hok. simpl in Hok. congruence.
  - exists d0, target. split; [exact Hget|].
    assert (Hk : d_anchor_kind d0 = AnchorWorktree) by (vm_compute in Hg; injection Hg as <-; reflexivity).
    rewrite Hk in Hrank. simpl in Hrank. destruct (an_kind target); simpl in Hrank; congruence.
Defined.

(** Callers that hand in evidence only. *)
Definition handed (d : Drawer) : Prop := d_memory_kind d = Evidence.

Lemma governed_reachable_witness :
  let id := d_id (Story.candidate ["drawer_e1"; "drawer_e2"]) in
  (∃ d, get_drawer Story.traced id = Ok (Some d) ∧ d_status d = Some Promoted ∧ governed d)
  ∧ (r_supersedes <$> db_drawers Story.traced !! "drawer_e3") = Some (Some "drawer_e1")
  ∧ (t_source_drawer <$> db_triples Story.traced !! "t1") = Some (Some "drawer_e2")
  ∧ closed Story.traced.
Proof.
  intros id. assert (Hr : rtc (store_step handed) empty_store Story.traced).
  { eapply rtc_l; [|eapply rtc_l; [|eapply rtc_l; [|eapply rtc_l; [|eapply rtc_l; [|eapply rtc_l; [|apply rtc_refl]]]]]].
    - by apply (step_insert handed empty_store (Story.evidence "drawer_e1" "a") None None None None None).
    - by apply (step_insert handed _ (Story.evidence "drawer_e2" "b") None None None None None).
    - apply (step_distill handed "200" Story.sources _ (Story.request ["drawer_e1"; "drawer_e2"])
               (Story.candidate ["drawer_e1"; "drawer_e2"]) true). vm_compute. reflexivity.
    - apply (step_promote handed true Story.distilled (Story.promotion (Story.candidate ["drawer_e1"; "drawer_e2"]))).
    - by apply (step_insert handed Story.promoted Story.replacement None None None None None).
    - apply (step_triple handed _ "t1" Story.trace). }
  destruct (governed_reachable handed Story.traced Hr) as [Hclosed Hread].
  split_and!; [|vm_compute; reflexivity..|exact Hclosed].
  destruct (Hread id) as (d & Hd & Hg); [vm_compute; reflexivity|].
  assert (d_memory_kind d = Knowledge ∧ d_status d = Some Promoted) as [Hk Hs].
  { assert (match get_drawer Story.traced id with Ok (Some d) => (d_memory_kind d, d_status d) | _ => (Evidence, None) end
            = (Knowledge, Some Promoted)) as Heq by (vm_compute; reflexivity). rewrite Hd in Heq. injection Heq as Hk Hs. exact (conj Hk Hs). }
  exists d. split_and!; [exact Hd|exact Hs|]. destruct (Hg Hk) as [Hgov|(d0 & Hd0 & _ & Hk0 & _)]; [exact Hgov|].
  exfalso. unfold handed in Hd0. rewrite Hd0 in Hk0. discriminate.
Defined.

Lemma distill_makes_candidate_witness :
  let d := Story.candidate ["drawer_e1"; "drawer_e2"] in
  get_drawer Story.distilled (d_id d) = Ok (Some (stored_drawer d)) ∧ d_status d = Some Candidate.
Proof.
  intros d.
  assert (Hp : prepare_distill "200" Story.sources (Story.request ["drawer_e1"; "drawer_e2"])
               = Ok (Create (Story.candidate ["drawer_e1"; "drawer_e2"]))) by (vm_compute; reflexivity).
  assert (Hn : db_drawers Story.sources !! d_id (Story.candidate ["drawer_e1"; "drawer_e2"]) = None)
    by (vm_compute; reflexivity).
  destruct (commit_distill true Story.sources d) as [db' [id|e]] eqn:Hc.
  - destruct (distill_makes_candidate "200" Story.sources (Story.request ["drawer_e1"; "drawer_e2"]) d true
      Story.sources db' id Hp Hc Hn)
      as (-> & Hget & _ & _ & Hs & _).
    split; [|exact Hs]. change Story.distilled with (commit_distill true Story.sources d).1. rewrite Hc. exact Hget.
  - exfalso. assert (Hok : is_ok (commit_distill true Story.sources d).2 = true) by (vm_compute; reflexivity).
    rewrite Hc in Hok. discriminate.
Defined.

(** ** What the code allows

    An error of the audit log after the status has changed. *)
Example promoted_despite_error :
  let d := Story.candidate ["drawer_e1"; "drawer_e2"] in
  let '(db', res) := promote_knowledge false Story.distilled (Story.promotion d) in
  (res, match get_drawer db' (d_id d) with Ok (Some d') => d_status d' | _ => None end)
  = (Err AuditLogFailed, Some Promoted).
Proof. vm_compute. reflexivity. Qed.

(** The gate counts references, not distinct ones: one piece of evidence named
    twice is two supporting references. *)
Example repeated_evidence_passes :
  let d := Story.candidate ["drawer_e1"; "drawer_e1"] in
  let db := (commit_distill true Story.sources d).1 in
  let '(db', res) := promote_knowledge true db (Story.promotion d) in
  (is_ok res, d_supporting_refs d) = (true, ["drawer_e1"; "drawer_e1"]).
Proof. vm_compute. reflexivity. Qed.

(** Distilling again what was deleted: the row in use is kept, and the call says it
    created a drawer that cannot be read. *)
Example distill_of_deleted :
  let d := Story.candidate ["drawer_e1"; "drawer_e2"] in
  let deleted := (soft_delete_drawer "300" (d_id d) Story.distilled).1 in
  let request := Story.request ["drawer_e1"; "drawer_e2"] in
  match prepare_distill "400" deleted request with
  | Ok (Create d') =>
      let '(db', res) := commit_distill true deleted d' in
      (res, get_drawer db' (d_id d')) = (Ok (d_id d), Ok None)
  | _ => False
  end.
Proof. vm_compute. reflexivity. Qed.

(** A drawer that carries a tier and no status panics in the gate. *)
Example gate_panics_without_status :
  let d := Story.candidate ["drawer_e1"; "drawer_e2"] in
  let d := MkDrawer (d_id d) (d_content d) (d_wing d) (d_room d) (d_source_file d) (d_source_type d)
    (d_confidence d) (d_added_at d) (d_chunk_index d) (d_normalize_version d) (d_importance d) (d_memory_kind d)
    (d_domain d) (d_field d) (d_anchor_kind d) (d_anchor_id d) (d_parent_anchor_id d) (d_provenance d)
    (d_statement d) (d_tier d) None (d_supporting_refs d) (d_counterexample_refs d) (d_teaching_refs d)
    (d_verification_refs d) (d_scope_constraints d) (d_trigger_hints d) (d_is_pinned d) (d_pin_order d)
    (d_supersedes d) (d_effective_importance d) (d_compacted_into d) in
  evaluate_gate_for_drawer Story.sources d Promoted None false = Err MissingStatusPanic.
Proof. vm_compute. reflexivity. Qed.
