(* ===== verification/Tunnels.v ===== *)
(** * Tunnels between places

    The explicit tunnels of [src/src/core/db.rs] and their identifiers
    ([src/src/core/utils.rs]): links between two endpoints, each a wing with an
    optional room, created once, deleted softly, and followed for one or two hops
    by a breadth-first search. *)

From Stdlib Require Import ZArith Lia String Ascii.
From stdpp Require Import base tactics list gmap strings numbers sets sorting.
From S2P Require Import Prelude Order Text.
Open Scope Z_scope.
Open Scope string_scope.
Open Scope rust_scope.

Record TunnelEndpoint := MkEndpoint { ep_wing : string; ep_room : option string }.

#[export] Instance TunnelEndpoint_eq_dec : EqDecision TunnelEndpoint.
Proof. solve_decision. Defined.

Record ExplicitTunnel := MkTunnel {
  tu_left : TunnelEndpoint;
  tu_right : TunnelEndpoint;
  tu_label : string;
  tu_created_at : string;
  tu_created_by : option string;
  tu_deleted_at : option string;
}.

Inductive TunnelError := WingRequired | LabelRequired | SelfLink | MaxHops | CreateFailed (id : string).

Abbreviation tunnel_table := (gmap string ExplicitTunnel).

(** A text of white space is no room. *)
Definition non_blank (s : option string) : option string :=
  match s with
  | Some s => let t := trim s in if is_empty t then None else Some t
  | None => None
  end.

Definition normalize_tunnel_endpoint (e : TunnelEndpoint) : result TunnelEndpoint TunnelError :=
  let wing := trim (ep_wing e) in
  if is_empty wing then Err WingRequired else Ok (MkEndpoint wing (non_blank (ep_room e))).

(** [Ord] of the key pairs and of the endpoints: the wing, then the room, none
    first. *)
Definition key_cmp (a b : string * string) : comparison :=
  then_with (String.compare a.1 b.1) (String.compare a.2 b.2).

Definition room_cmp (a b : option string) : comparison :=
  match a, b with
  | None, None => Eq
  | None, Some _ => Lt
  | Some _, None => Gt
  | Some x, Some y => String.compare x y
  end.

Definition endpoint_cmp (a b : TunnelEndpoint) : comparison :=
  then_with (String.compare (ep_wing a) (ep_wing b)) (room_cmp (ep_room a) (ep_room b)).

Definition tunnel_endpoint_key (e : TunnelEndpoint) : string * string :=
  (trim (ep_wing e), default "" (non_blank (ep_room e))).

Section tunnels.
Context (sha256_hex : string → string).

Definition tunnel_seed (a b : string * string) : string :=
  bytes_str [0%N] +:+ a.1 +:+ bytes_str [0%N] +:+ a.2 +:+ bytes_str [0%N] +:+ b.1 +:+ bytes_str [0%N] +:+ b.2.

(** The digest of the two keys in order. *)
Definition build_tunnel_id (left right : TunnelEndpoint) : string :=
  let a := tunnel_endpoint_key left in
  let b := tunnel_endpoint_key right in
  let seed := if not_gt (key_cmp a b) then tunnel_seed a b else tunnel_seed b a in
  "tunnel_" +:+ String.substring 0 16 (sha256_hex seed).

(** ** Operations *)
Definition tunnel_active (t : ExplicitTunnel) : bool := match tu_deleted_at t with None => true | Some _ => false end.

Definition get_explicit_tunnel (table : tunnel_table) (id : string) : option ExplicitTunnel :=
  match table !! id with Some t => if tunnel_active t then Some t else None | None => None end.

(** [INSERT .. ON CONFLICT(id) DO UPDATE]: a live tunnel keeps its label, its date
    and its author; a deleted one comes back with the new ones. The endpoints of a
    row never change. *)
Definition upsert_tunnel (id : string) (left right : TunnelEndpoint) (label now : string) (created_by : option string)
    (table : tunnel_table) : tunnel_table :=
  match table !! id with
  | None => <[id := MkTunnel left right label now created_by None]> table
  | Some t =>
      if tunnel_active t
      then <[id := MkTunnel (tu_left t) (tu_right t) (tu_label t) (tu_created_at t) (tu_created_by t) None]> table
      else <[id := MkTunnel (tu_left t) (tu_right t) label now created_by None]> table
  end.

Definition create_tunnel (now : string) (left right : TunnelEndpoint) (label : string) (created_by : option string)
    (table : tunnel_table) : tunnel_table * result (string * ExplicitTunnel) TunnelError :=
  match normalize_tunnel_endpoint left, normalize_tunnel_endpoint right with
  | Err e, _ => (table, Err e)
  | _, Err e => (table, Err e)
  | Ok a, Ok b =>
      let label := trim label in
      if is_empty label then (table, Err LabelRequired)
      else if bool_decide (a = b) then (table, Err SelfLink)
      else
        let id := build_tunnel_id a b in
        let table := upsert_tunnel id a b label now (non_blank created_by) table in
        match get_explicit_tunnel table id with
        | Some t => (table, Ok (id, t))
        | None => (table, Err (CreateFailed id))
        end
  end.

Definition delete_explicit_tunnel (now id : string) (table : tunnel_table) : tunnel_table * bool :=
  match table !! id with
  | Some t =>
      if tunnel_active t
      then (<[id := MkTunnel (tu_left t) (tu_right t) (tu_label t) (tu_created_at t) (tu_created_by t) (Some now)]> table,
            true)
      else (table, false)
  | None => (table, false)
  end.

(** [left_wing, left_room, right_wing, right_room, id], null rooms first. *)
Definition tunnel_order (a b : string * ExplicitTunnel) : comparison :=
  then_with (endpoint_cmp (tu_left a.2) (tu_left b.2))
    (then_with (endpoint_cmp (tu_right a.2) (tu_right b.2)) (String.compare a.1 b.1)).

Definition touches_wing (wing : option string) (t : ExplicitTunnel) : bool :=
  match wing with
  | Some w => (ep_wing (tu_left t) =? w) || (ep_wing (tu_right t) =? w)
  | None => true
  end.

Definition list_explicit_tunnels (wing : option string) (table : tunnel_table) : list (string * ExplicitTunnel) :=
  sort_by (fun a b => not_gt (tunnel_order a b))
    (List.filter (fun e => tunnel_active e.2 && touches_wing (non_blank wing) e.2) (map_to_list table)).

(** ** Following *)
Record TunnelFollowResult := MkFollow { fo_endpoint : TunnelEndpoint; fo_via : string; fo_hop : Z }.

Definition neighbor (current : TunnelEndpoint) (t : ExplicitTunnel) : option TunnelEndpoint :=
  if bool_decide (tu_left t = current) then Some (tu_right t)
  else if bool_decide (tu_right t = current) then Some (tu_left t)
  else None.

(** The inner loop: the visited endpoints, the new results and the new work. *)
Fixpoint expand (current : TunnelEndpoint) (next_hop : Z) (tunnels : list (string * ExplicitTunnel))
    (visited : list TunnelEndpoint) : list TunnelEndpoint * list TunnelFollowResult :=
  match tunnels with
  | [] => (visited, [])
  | (id, t) :: rest =>
      match neighbor current t with
      | Some n =>
          if bool_decide (n ∈ visited) then expand current next_hop rest visited
          else
            let '(visited, found) := expand current next_hop rest (n :: visited) in
            (visited, MkFollow n id next_hop :: found)
      | None => expand current next_hop rest visited
      end
  end.

(** The outer loop over the queue. *)
Fixpoint follow_loop (max_hops : Z) (tunnels : list (string * ExplicitTunnel)) (fuel : nat)
    (visited : list TunnelEndpoint) (queue : list (TunnelEndpoint * Z)) (results : list TunnelFollowResult)
    : option (list TunnelFollowResult) :=
  match queue with
  | [] => Some results
  | (current, hop) :: rest =>
      match fuel with
      | O => None
      | S fuel =>
          if (max_hops <=? hop)%Z then follow_loop max_hops tunnels fuel visited rest results
          else
            let '(visited, found) := expand current (hop + 1) tunnels visited in
            follow_loop max_hops tunnels fuel visited
              (rest ++ ((fun f => (fo_endpoint f, fo_hop f)) <$> found))%list (results ++ found)%list
      end
  end.

(** One turn for the start, and at most one per endpoint a tunnel ends in. *)
Definition follow_fuel (tunnels : list (string * ExplicitTunnel)) : nat := S (2 * length tunnels).

Definition follow_order (a b : TunnelFollowResult) : comparison :=
  then_with (Z.compare (fo_hop a) (fo_hop b))
    (then_with (endpoint_cmp (fo_endpoint a) (fo_endpoint b)) (String.compare (fo_via a) (fo_via b))).

Definition follow_explicit_tunnels (from : TunnelEndpoint) (max_hops : Z) (table : tunnel_table)
    : option (result (list TunnelFollowResult) TunnelError) :=
  if negb ((1 <=? max_hops) && (max_hops <=? 2))%Z then Some (Err MaxHops)
  else
    match normalize_tunnel_endpoint from with
    | Err e => Some (Err e)
    | Ok from =>
        let tunnels := list_explicit_tunnels None table in
        (fun results => Ok (sort_by (fun a b => not_gt (follow_order a b)) results))
          <$> follow_loop max_hops tunnels (follow_fuel tunnels) [from] [(from, 0)] []
    end.

Definition format_tunnel_endpoint (e : TunnelEndpoint) : string :=
  match ep_room e with
  | Some room => if is_empty room then ep_wing e else ep_wing e +:+ ":" +:+ room
  | None => ep_wing e
  end.

(** [BTreeSet]: sorted, without repetitions. *)
Definition explicit_tunnel_hints (wing : string) (room : option string) (table : tunnel_table)
    : option (result (list string) TunnelError) :=
  (fun r => let? results := r in
            Ok (sort_by (fun a b => not_gt (String.compare a b))
                  (remove_dups ((fun f => format_tunnel_endpoint (fo_endpoint f)) <$> results))))
    <$> follow_explicit_tunnels (MkEndpoint wing room) 1 table.
End tunnels.

(** ** The search is exact *)
Section search.
Implicit Types (ts : list (string * ExplicitTunnel)) (V : list TunnelEndpoint) (F : list TunnelFollowResult).

Definition linked ts (a b : TunnelEndpoint) : Prop := ∃ id t, (id, t) ∈ ts ∧ neighbor a t = Some b.

Abbreviation ends F := (fo_endpoint <$> F).

(** What a search from some endpoints adds: every endpoint linked to one of them and
    not seen, once, at the hop and through a tunnel that leads there. *)
Definition adds ts (starts : list TunnelEndpoint) (h : Z) V V' F : Prop :=
  (∀ x, x ∈ V' ↔ x ∈ V ∨ x ∈ ends F)
  ∧ NoDup (ends F)
  ∧ (∀ n, n ∈ ends F ↔ (n ∉ V) ∧ ∃ c, c ∈ starts ∧ linked ts c n)
  ∧ (∀ f, f ∈ F → fo_hop f = h
                  ∧ ∃ c t, c ∈ starts ∧ (fo_via f, t) ∈ ts ∧ neighbor c t = Some (fo_endpoint f)).

Lemma expand_adds ts c h V V' F : expand c h ts V = (V', F) → adds ts [c] h V V' F.
Proof.
  revert V V' F. induction ts as [|[id t] ts IH]; intros V V' F; simpl.
  { intros [= <- <-]. split_and!; try set_solver; [constructor|].
    intros n. split; [set_solver|]. intros (_ & c' & _ & id & t & Hin & _). by apply elem_of_nil in Hin. }
  assert (Hlink : ∀ n, linked ((id, t) :: ts) c n ↔ neighbor c t = Some n ∨ linked ts c n).
  { intros n. unfold linked. split.
    - intros (i & u & [[= -> ->]|Hin]%elem_of_cons & Hn); [by left|right; eauto].
    - intros [Hn|(i & u & Hin & Hn)]; [exists id, t|exists i, u]; set_solver. }
  destruct (neighbor c t) as [n|] eqn:En.
  - destruct (bool_decide (n ∈ V)) eqn:Eb.
    + apply bool_decide_eq_true in Eb. intros He. destruct (IH _ _ _ He) as (H1 & H2 & H3 & H4).
      split_and!; [done..| |].
      * intros m. rewrite H3. setoid_rewrite list_elem_of_singleton. split.
        -- intros (? & c' & -> & ?). split; [done|]. exists c. rewrite Hlink. auto.
        -- intros (Hm & c' & -> & [[= ->]|?]%Hlink); [done|]. eauto.
      * intros f Hf. destruct (H4 f Hf) as (? & c' & u & ? & ? & ?). split; [done|]. exists c', u. set_solver.
    + apply bool_decide_eq_false in Eb. destruct (expand c h ts (n :: V)) as [V1 F1] eqn:Ee. intros [= <- <-].
      destruct (IH _ _ _ Ee) as (H1 & H2 & H3 & H4). split_and!.
      * intros x. rewrite H1. simpl. set_solver.
      * simpl. constructor; [|done]. rewrite H3. set_solver.
      * intros m. simpl. rewrite elem_of_cons, H3. setoid_rewrite list_elem_of_singleton. split.
        -- intros [->|(? & c' & -> & ?)]; [split; [done|]; exists c; rewrite Hlink; auto|].
           split; [set_solver|]. exists c. rewrite Hlink. auto.
        -- intros (Hm & c' & -> & [[= ->]|?]%Hlink); [by left|]. destruct (decide (m = n)); [by left|right].
           split; [set_solver|eauto].
      * intros f [->|Hf]%elem_of_cons.
        -- split; [done|]. exists c, t. simpl. set_solver.
        -- destruct (H4 f Hf) as (? & c' & u & ? & ? & ?). split; [done|]. exists c', u. set_solver.
  - intros He. destruct (IH _ _ _ He) as (H1 & H2 & H3 & H4). split_and!; [done..| |].
    + intros m. rewrite H3. setoid_rewrite list_elem_of_singleton. split.
      * intros (? & c' & -> & ?). split; [done|]. exists c. rewrite Hlink. auto.
      * intros (Hm & c' & -> & [?|?]%Hlink); [done|]. eauto.
    + intros f Hf. destruct (H4 f Hf) as (? & c' & u & ? & ? & ?). split; [done|]. exists c', u. set_solver.
Qed.

(** One level of the search. *)
Fixpoint level ts (h : Z) (cs : list TunnelEndpoint) V : list TunnelEndpoint * list TunnelFollowResult :=
  match cs with
  | [] => (V, [])
  | c :: rest =>
      let '(V, F) := expand c h ts V in
      let '(V, G) := level ts h rest V in
      (V, F ++ G)%list
  end.

Lemma adds_app ts cs ds h V V1 V2 F G :
  adds ts cs h V V1 F → adds ts ds h V1 V2 G → adds ts (cs ++ ds) h V V2 (F ++ G)%list.
Proof.
  intros (A1 & A2 & A3 & A4) (B1 & B2 & B3 & B4). split_and!.
  - intros x. rewrite B1, A1, fmap_app. set_solver.
  - rewrite fmap_app. apply NoDup_app. split_and!; [done| |done]. intros x Hx. rewrite B3, A1. set_solver.
  - intros n. rewrite fmap_app, elem_of_app, A3, B3, A1. setoid_rewrite elem_of_app. split.
    + intros [(? & c & ? & ?)|(? & c & ? & ?)]; [split; [done|eauto]|]. split; [set_solver|eauto].
    + intros (Hn & c & [Hc|Hc] & Hl); [left; eauto|]. destruct (decide (n ∈ ends F)) as [Hin|Hin].
      * apply A3 in Hin. eauto.
      * right. split; [set_solver|eauto].
  - intros f [Hf|Hf]%elem_of_app; [destruct (A4 f Hf) as (? & c & t & ? & ? & ?)|destruct (B4 f Hf) as (? & c & t & ? & ? & ?)];
      (split; [done|]); exists c, t; set_solver.
Qed.

Lemma level_adds ts h cs V V' F : level ts h cs V = (V', F) → adds ts cs h V V' F.
Proof.
  revert V V' F. induction cs as [|c cs IH]; intros V V' F; simpl.
  { intros [= <- <-]. split_and!; try set_solver. constructor. }
  destruct (expand c h ts V) as [V1 F1] eqn:Ee. destruct (level ts h cs V1) as [V2 F2] eqn:El. intros [= <- <-].
  apply (adds_app ts [c] cs h V V1 V2); [by apply expand_adds|by apply IH].
Qed.

Definition at_hop (h : Z) (cs : list TunnelEndpoint) : list (TunnelEndpoint * Z) := (fun c => (c, h)) <$> cs.

Lemma follow_level max ts fuel h cs V V' F rest R :
  h < max → level ts (h + 1) cs V = (V', F) →
  follow_loop max ts (length cs + fuel) V (at_hop h cs ++ rest) R
  = follow_loop max ts fuel V' (rest ++ at_hop (h + 1) (ends F)) (R ++ F).
Proof.
  intros Hh. revert V V' F rest R. induction cs as [|c cs IH]; intros V V' F rest R Hl; simpl in Hl.
  { simplify_eq. simpl. by rewrite !app_nil_r. }
  destruct (expand c (h + 1) ts V) as [V1 F1] eqn:Ee. destruct (level ts (h + 1) cs V1) as [V2 F2] eqn:El.
  simplify_eq. simpl. destruct (Z.leb_spec max h); [lia|]. rewrite Ee.
  assert (Hpairs : (fun f => (fo_endpoint f, fo_hop f)) <$> F1 = at_hop (h + 1) (ends F1)).
  { unfold at_hop. rewrite <- list_fmap_compose. apply list_fmap_ext. intros i f Hf. simpl.
    destruct (expand_adds _ _ _ _ _ _ Ee) as (_ & _ & _ & Hhop). f_equal.
    apply Hhop. by eapply list_elem_of_lookup_2. }
  rewrite Hpairs, <- app_assoc, (IH _ _ _ _ _ El). unfold at_hop. rewrite !fmap_app, !app_assoc. done.
Qed.

Lemma follow_drain max ts fuel h cs V R :
  max <= h → (length cs <= fuel)%nat → follow_loop max ts fuel V (at_hop h cs) R = Some R.
Proof.
  intros Hh. revert fuel. induction cs as [|c cs IH]; intros fuel Hf; simpl in *; [by destruct fuel|].
  destruct fuel as [|fuel]; [lia|]. simpl. destruct (Z.leb_spec max h); [|lia]. apply IH. lia.
Qed.

(** Everything found is the end of a tunnel: the fuel is enough. *)
Definition tunnel_ends ts : list TunnelEndpoint := ts ≫= λ e, [tu_left e.2; tu_right e.2].

Lemma length_tunnel_ends ts : length (tunnel_ends ts) = (2 * length ts)%nat.
Proof. induction ts as [|e ts IH]; [done|]. unfold tunnel_ends in *. rewrite bind_cons, length_app, IH. simpl. lia. Qed.

Lemma linked_end ts a b : linked ts a b → b ∈ tunnel_ends ts.
Proof.
  intros (id & t & Hin & Hn). apply list_elem_of_bind. exists (id, t). split; [|done].
  unfold neighbor in Hn. repeat case_bool_decide; simplify_eq; set_solver.
Qed.

Lemma found_bound ts l :
  NoDup l → (∀ x, x ∈ l → ∃ a, linked ts a x) → (length l <= 2 * length ts)%nat.
Proof.
  intros Hnd Hl. rewrite <- length_tunnel_ends. apply submseteq_length, NoDup_submseteq; [done|].
  intros x Hx. destruct (Hl x Hx) as [a Ha]. by eapply linked_end.
Qed.

(** The endpoints at one hop and at two. *)
Definition one_hop ts (from x : TunnelEndpoint) : Prop := x ≠ from ∧ linked ts from x.
Definition two_hops ts (from x : TunnelEndpoint) : Prop :=
  x ≠ from ∧ ¬ linked ts from x ∧ ∃ m, one_hop ts from m ∧ linked ts m x.

Definition reach ts (from : TunnelEndpoint) (max_hops : Z) (f : TunnelFollowResult) : Prop :=
  (fo_hop f = 1 ∧ one_hop ts from (fo_endpoint f))
  ∨ (fo_hop f = 2 ∧ max_hops = 2 ∧ two_hops ts from (fo_endpoint f)).

Lemma follow_loop_exact ts from max :
  1 <= max <= 2 →
  ∃ R, follow_loop max ts (follow_fuel ts) [from] [(from, 0)] [] = Some R
       ∧ NoDup (ends R)
       ∧ (∀ f, f ∈ R → reach ts from max f
                       ∧ ∃ c t, (fo_via f, t) ∈ ts ∧ neighbor c t = Some (fo_endpoint f))
       ∧ (∀ x, one_hop ts from x ∨ (max = 2 ∧ two_hops ts from x) → x ∈ ends R).
Proof.
  intros Hmax. destruct (level ts 1 [from] [from]) as [V1 F1] eqn:E1.
  destruct (level_adds _ _ _ _ _ _ E1) as (A1 & A2 & A3 & A4).
  assert (H1 : ∀ x, x ∈ ends F1 ↔ one_hop ts from x).
  { intros x. rewrite A3. unfold one_hop. setoid_rewrite list_elem_of_singleton. naive_solver. }
  assert (Hb1 : (length (ends F1) <= 2 * length ts)%nat).
  { apply found_bound; [done|]. intros x [_ Hx]%H1. eauto. }
  assert (Hstart : ∀ fuel, follow_loop max ts (S fuel) [from] [(from, 0)] []
                           = follow_loop max ts fuel V1 (at_hop 1 (ends F1)) F1).
  { intros fuel. apply (follow_level max ts fuel 0 [from] [from] V1 F1 [] []); [lia|done]. }
  unfold follow_fuel. rewrite Hstart.
  assert (Hhop1 : ∀ f, f ∈ F1 → reach ts from max f
                       ∧ ∃ c t, (fo_via f, t) ∈ ts ∧ neighbor c t = Some (fo_endpoint f)).
  { intros f Hf. destruct (A4 f Hf) as (Hh & c & t & _ & ? & ?). split; [left|by eauto]. split; [done|].
    apply H1. by apply list_elem_of_fmap_2. }
  destruct (decide (max = 1)) as [->|Hne].
  { exists F1. rewrite follow_drain by lia. split_and!; try done. intros x [Hx|[? _]]; [by apply H1|lia]. }
  assert (max = 2) as -> by lia.
  destruct (level ts 2 (ends F1) V1) as [V2 F2] eqn:E2.
  destruct (level_adds _ _ _ _ _ _ E2) as (B1 & B2 & B3 & B4).
  assert (H2 : ∀ x, x ∈ ends F2 ↔ two_hops ts from x).
  { intros x. rewrite B3, A1, list_elem_of_singleton, H1. setoid_rewrite H1. unfold two_hops, one_hop.
    split; [|naive_solver]. intros (Hn & m & Hm & Hl). split_and!; [tauto|tauto|eauto]. }
  assert (Hnd : NoDup (ends (F1 ++ F2)%list)).
  { rewrite fmap_app. apply NoDup_app. split_and!; [done| |done]. intros x Hx. rewrite B3, A1. tauto. }
  assert (Hb2 : (length (ends F1) + length (ends F2) <= 2 * length ts)%nat).
  { rewrite <- length_app, <- fmap_app. apply found_bound; [done|]. intros x. rewrite fmap_app, elem_of_app.
    intros [[_ Hx]%H1|(_ & _ & m & _ & Hx)%H2]; eauto. }
  exists (F1 ++ F2)%list.
  replace (2 * length ts)%nat with (length (ends F1) + (2 * length ts - length (ends F1)))%nat by lia.
  rewrite <- (app_nil_r (at_hop 1 (ends F1))).
  rewrite (follow_level 2 ts _ 1 (ends F1) V1 V2 F2 [] F1) by (done || lia).
  simpl. rewrite follow_drain by lia. split_and!; [done..| |].
  - intros f [Hf|Hf]%elem_of_app; [by apply Hhop1|].
    destruct (B4 f Hf) as (Hh & c & t & _ & ? & ?). split; [right|by eauto]. split_and!; [done..|].
    apply H2. by apply list_elem_of_fmap_2.
  - intros x. rewrite fmap_app, elem_of_app, H1, H2. tauto.
Qed.
End search.

#[export] Instance room_comparator : Comparator room_cmp.
Proof.
  split.
  - intros [x|] [y|]; simpl; try done. apply cmp_antisym.
  - intros [x|] [y|] [z|]; simpl; try done. apply cmp_eq_l.
  - intros [x|] [y|] [z|]; simpl; try done. apply cmp_lt_trans.
Qed.

#[export] Instance endpoint_comparator : Comparator endpoint_cmp.
Proof.
  apply (lex_comparator (fun a b => String.compare (ep_wing a) (ep_wing b))
           (fun a b => room_cmp (ep_room a) (ep_room b))); apply on_comparator; apply _.
Qed.

#[export] Instance follow_comparator : Comparator follow_order.
Proof.
  apply (lex_comparator (fun a b => Z.compare (fo_hop a) (fo_hop b))
           (fun a b => then_with (endpoint_cmp (fo_endpoint a) (fo_endpoint b)) (String.compare (fo_via a) (fo_via b)))).
  - apply on_comparator, _.
  - apply (lex_comparator (fun a b => endpoint_cmp (fo_endpoint a) (fo_endpoint b))
             (fun a b => String.compare (fo_via a) (fo_via b))); apply on_comparator; apply _.
Qed.

Lemma elem_of_listed table id t :
  (id, t) ∈ list_explicit_tunnels None table ↔ table !! id = Some t ∧ tunnel_active t = true.
Proof.
  unfold list_explicit_tunnels. rewrite elem_of_sort_by, list_elem_of_In, filter_In, <- list_elem_of_In.
  rewrite elem_of_map_to_list. simpl. by rewrite andb_true_r.
Qed.

(** ** Identifiers do not depend on the direction *)
#[export] Instance key_comparator : Comparator key_cmp.
Proof.
  apply (lex_comparator (fun a b => String.compare a.1 b.1) (fun a b => String.compare a.2 b.2));
    apply on_comparator; apply _.
Qed.

Lemma key_cmp_eq a b : key_cmp a b = Eq → a = b.
Proof.
  destruct a as [a1 a2], b as [b1 b2]. unfold key_cmp, then_with. simpl.
  destruct (String.compare a1 b1) eqn:E1; [|done..]. apply str_compare_eq in E1. intros E2%str_compare_eq. by subst.
Qed.

Lemma build_tunnel_id_sym sha a b : build_tunnel_id sha a b = build_tunnel_id sha b a.
Proof.
  unfold build_tunnel_id. do 3 f_equal.
  rewrite (cmp_antisym (cmp := key_cmp) (tunnel_endpoint_key a) (tunnel_endpoint_key b)).
  destruct (key_cmp (tunnel_endpoint_key a) (tunnel_endpoint_key b)) eqn:Ek; simpl; [|done..].
  by rewrite (key_cmp_eq _ _ Ek).
Qed.

Lemma is_empty_false s : s ≠ "" → is_empty s = false.
Proof. by destruct s. Qed.

Lemma create_tunnel_ok sha now l r label by_ table table1 id t :
  create_tunnel sha now l r label by_ table = (table1, Ok (id, t)) →
  ∃ a b, normalize_tunnel_endpoint l = Ok a ∧ normalize_tunnel_endpoint r = Ok b ∧ a ≠ b
         ∧ id = build_tunnel_id sha a b ∧ table1 !! id = Some t ∧ tunnel_active t = true.
Proof.
  unfold create_tunnel. destruct (normalize_tunnel_endpoint l) as [a|]; [|done].
  destruct (normalize_tunnel_endpoint r) as [b|]; [|done]. destruct (is_empty (trim label)); [done|].
  case_bool_decide as Hab; [done|]. destruct (get_explicit_tunnel _ _) as [t'|] eqn:Eg; [|done].
  intros [= <- <- <-]. exists a, b. unfold get_explicit_tunnel in Eg.
  destruct (upsert_tunnel _ _ _ _ _ _ table !! _) as [u|] eqn:El; [|done].
  destruct (tunnel_active u) eqn:Ea; simplify_eq. done.
Qed.

Lemma create_existing sha now l r label by_ table a b t :
  normalize_tunnel_endpoint l = Ok a → normalize_tunnel_endpoint r = Ok b → a ≠ b → trim label ≠ "" →
  table !! build_tunnel_id sha a b = Some t → tunnel_active t = true →
  create_tunnel sha now l r label by_ table = (table, Ok (build_tunnel_id sha a b, t)).
Proof.
  intros Ha Hb Hab Hlab Hl Hact. unfold create_tunnel. rewrite Ha, Hb, is_empty_false, bool_decide_false by done.
  unfold upsert_tunnel. rewrite Hl, Hact.
  assert (Ht : MkTunnel (tu_left t) (tu_right t) (tu_label t) (tu_created_at t) (tu_created_by t) None = t).
  { unfold tunnel_active in Hact. destruct t as [? ? ? ? ? []]; done. }
  rewrite Ht, insert_id by done. unfold get_explicit_tunnel. by rewrite Hl, Hact.
Qed.

Lemma create_deleted sha now l r label by_ table a b t :
  normalize_tunnel_endpoint l = Ok a → normalize_tunnel_endpoint r = Ok b → a ≠ b → trim label ≠ "" →
  table !! build_tunnel_id sha a b = Some t → tunnel_active t = false →
  (create_tunnel sha now l r label by_ table).2
  = Ok (build_tunnel_id sha a b, MkTunnel (tu_left t) (tu_right t) (trim label) now (non_blank by_) None).
Proof.
  intros Ha Hb Hab Hlab Hl Hact. unfold create_tunnel. rewrite Ha, Hb, is_empty_false, bool_decide_false by done.
  unfold upsert_tunnel. rewrite Hl, Hact. unfold get_explicit_tunnel. by rewrite lookup_insert_eq.
Qed.

(** Following the tunnels for one or two hops always ends, and finds exactly
    the endpoints that the active tunnels link to the start, once each: those one
    tunnel away at hop one and, for two hops, those that are two away and not one
    at hop two, each with an active tunnel that leads there, in the order of hop,
    endpoint and tunnel. The start itself is never found. *)
Theorem follow_exact from max table start :
  1 <= max <= 2 → normalize_tunnel_endpoint from = Ok start →
  let tunnels := list_explicit_tunnels None table in
  ∃ results, follow_explicit_tunnels from max table = Some (Ok results)
    ∧ NoDup (fo_endpoint <$> results)
    ∧ (∀ f, f ∈ results →
         reach tunnels start max f
         ∧ ∃ c t, table !! fo_via f = Some t ∧ tunnel_active t = true ∧ neighbor c t = Some (fo_endpoint f))
    ∧ (∀ x, one_hop tunnels start x ∨ (max = 2 ∧ two_hops tunnels start x) → x ∈ fo_endpoint <$> results)
    ∧ StronglySorted (λ a b, not_gt (follow_order a b) = true) results.
Proof.
  intros Hmax Hn tunnels. unfold follow_explicit_tunnels.
  replace ((1 <=? max) && (max <=? 2))%Z with true by (symmetry; apply andb_true_iff; split; apply Z.leb_le; lia).
  cbn [negb]. rewrite Hn. destruct (follow_loop_exact tunnels start max Hmax) as (R & HR & Hnd & Hin & Hall).
  fold tunnels. rewrite HR. simpl. eexists. split; [done|].
  pose proof (sort_by_perm (λ a b, not_gt (follow_order a b)) R) as Hp. split_and!.
  - by rewrite Hp.
  - intros f Hf%elem_of_sort_by. destruct (Hin f Hf) as (Hr & c & t & Ht & Hc). split; [done|].
    apply elem_of_listed in Ht as [? ?]. eauto.
  - intros x Hx. rewrite Hp. by apply Hall.
  - apply sort_by_cmp_sorted, _.
Qed.

(** A tunnel is one link, whichever end it is given from. Creating it again,
    in either direction, with any other label and author, returns the tunnel as
    it was first created and changes nothing; after it has been deleted, creating
    it brings the same link back under the new label. *)
Theorem create_tunnel_once sha now left_ right_ label by_ table table1 id t :
  create_tunnel sha now left_ right_ label by_ table = (table1, Ok (id, t)) →
  (∀ now' label' by', trim label' ≠ "" →
     create_tunnel sha now' right_ left_ label' by' table1 = (table1, Ok (id, t))
     ∧ create_tunnel sha now' left_ right_ label' by' table1 = (table1, Ok (id, t)))
  ∧ (∀ now1 now' label' by' table2, trim label' ≠ "" →
       delete_explicit_tunnel now1 id table1 = (table2, true) →
       get_explicit_tunnel table2 id = None
       ∧ (create_tunnel sha now' right_ left_ label' by' table2).2
         = Ok (id, MkTunnel (tu_left t) (tu_right t) (trim label') now' (non_blank by') None)).
Proof.
  intros Hc. destruct (create_tunnel_ok _ _ _ _ _ _ _ _ _ _ Hc) as (a & b & Ha & Hb & Hab & -> & Hl & Hact).
  assert (Hnew : ∀ now' label' by', trim label' ≠ "" →
            create_tunnel sha now' right_ left_ label' by' table1 = (table1, Ok (build_tunnel_id sha a b, t))
            ∧ create_tunnel sha now' left_ right_ label' by' table1 = (table1, Ok (build_tunnel_id sha a b, t))).
  { intros now' label' by' Hlab. split; [|by apply (create_existing sha now' left_ right_ label' by' table1 a b t)].
    rewrite (build_tunnel_id_sym sha a b) in *. by apply (create_existing sha now' right_ left_ label' by' table1 b a t). }
  split; [done|]. intros now1 now' label' by' table2 Hlab. unfold delete_explicit_tunnel. rewrite Hl, Hact.
  intros [= <-]. split; [unfold get_explicit_tunnel; by rewrite lookup_insert_eq|].
  rewrite (build_tunnel_id_sym sha a b).
  by rewrite (create_deleted sha now' right_ left_ label' by' _ b a _ Hb Ha (not_eq_sym Hab) Hlab (lookup_insert_eq _ _ _)).
Qed.

(** ** A map of three places *)
Module Places.
Definition a : TunnelEndpoint := MkEndpoint "alpha" (Some "hall").
Definition b : TunnelEndpoint := MkEndpoint "beta" None.
Definition c : TunnelEndpoint := MkEndpoint "gamma" None.
Definition sha (s : string) : string := s +:+ "----------------".
Definition ab : tunnel_table := (create_tunnel sha "1" a b "first" None ∅).1.
Definition abc : tunnel_table := (create_tunnel sha "2" b c "second" None ab).1.
End Places.

Lemma follow_exact_witness :
  match follow_explicit_tunnels Places.a 2 Places.abc with
  | Some (Ok results) => fo_endpoint <$> results = [Places.b; Places.c] ∧ NoDup (fo_endpoint <$> results)
  | _ => False
  end.
Proof.
  destruct (follow_exact Places.a 2 Places.abc Places.a ltac:(lia) ltac:(vm_compute; reflexivity))
    as (results & Hf & Hnd & _).
  rewrite Hf. split; [|exact Hnd].
  replace results with (match follow_explicit_tunnels Places.a 2 Places.abc with Some (Ok r) => r | _ => [] end)
    by (rewrite Hf; reflexivity).
  vm_compute. reflexivity.
Defined.

Lemma create_tunnel_once_witness :
  ∃ id t, create_tunnel Places.sha "9" Places.b Places.a "other" None Places.ab = (Places.ab, Ok (id, t))
          ∧ tu_label t = "first".
Proof.
  destruct (create_tunnel Places.sha "1" Places.a Places.b "first" None ∅) as [table [[id t]|e]] eqn:Hc.
  - exists id, t. split.
    + unfold Places.ab. rewrite Hc.
      apply (create_tunnel_once Places.sha "1" Places.a Places.b "first" None ∅ table id t Hc). vm_compute. discriminate.
    + vm_compute in Hc. injection Hc as _ _ <-. reflexivity.
  - exfalso. vm_compute in Hc. discriminate.
Defined.
