(* ===== verification/CoworkBus.v ===== *)
(** * The cowork bus

    [src/src/cowork/bus.rs]: agents of one project register under an identifier,
    form channels and sessions, and send messages into one another's inbox files
    or terminal panes; a log of events records what happened, and the state of
    every delivery is read off that log.

    The functions are programs of a state and error monad over the file system.
    The clock, the outcome of each system call, torn writes and the [tmux]
    program are an environment, read in the order of the calls; JSON is an
    interface. *)

From Stdlib Require Import ZArith Lia String Ascii.
From stdpp Require Import base tactics list gmap strings numbers.
From S2P Require Import Prelude Order Text Rfc3339 Sqlite CoworkInbox.
Open Scope Z_scope.
Open Scope rust_scope.

Definition MAX_EVENT_MESSAGE_PREVIEW_CHARS : Z := 200.
Definition PRESENCE_STALE_AFTER_SECONDS : Z := 10 * 60.

(** ** Data *)
Inductive BusError :=
  | InvalidAgentId (id : string)
  | InvalidTool (tool : string)
  | UnsupportedTransport (transport : string)
  | InvalidChannel (channel : string)
  | InvalidThreadId (thread_id : string)
  | UnknownChannel (channel : string)
  | EmptyChannel (channel : string)
  | TmuxTargetRequired
  | TmuxFailed (status : string)
  | TmuxCaptureFailed (status : string)
  | TmuxProbeFailed (status : string)
  | NotTmuxAgent (agent_id : string)
  | InvalidLineCount (lines : Z)
  | InvalidSessionId (session_id : string)
  | EmptySession (session_id : string)
  | UnknownSession (session_id : string)
  | InvalidSessionStatus (status : string)
  | UnsupportedCaptureSource (source : string)
  | MissingCaptureDatabase
  | MissingCaptureWriterLease
  | CaptureWriterLeaseLost (operation lease_name owner : string)
  | InvalidTimestamp (text : string)
  | UnknownDelivery (message_id : string)
  | DeliveryTargetMismatch (message_id target_agent_id agent_id : string)
  | CannotAckFailed (message_id : string)
  | UnknownSource (agent_id : string)
  | UnknownTarget (agent_id : string)
  | UnknownAgent (agent_id : string)
  | SelfSend (agent_id : string)
  | BusMessageTooLarge (bytes : Z)
  | BusInboxFull (current_count current_bytes : Z)
  | BusIo (message : string)
  | BusJson (message : string)
  | BusDb (message : string)
  | LegacyInbox (error : InboxError).

Record AgentRecord := {
  ar_agent_id : string;
  ar_tool : string;
  ar_transport : string;
  ar_tmux_target : option string;
  ar_registered_at : string;
  ar_updated_at : string;
  ar_last_seen_at : option string;
}.

Record ChannelRecord := {
  ch_channel : string;
  ch_agents : list string;
  ch_updated_at : string;
}.

Record AgentRegistry := {
  reg_agents : gmap string AgentRecord;
  reg_channels : gmap string ChannelRecord;
}.

Definition registry_default : AgentRegistry := {| reg_agents := ∅; reg_channels := ∅ |}.

Record RegisterAgentRequest := {
  rr_agent_id : string;
  rr_tool : string;
  rr_transport : string;
  rr_tmux_target : option string;
}.

Inductive SendOperation := Send | Broadcast.

Definition event_type (op : SendOperation) : string :=
  match op with Send => "send" | Broadcast => "broadcast" end.

Record SendRequest := {
  sr_from : string;
  sr_targets : list string;
  sr_message : string;
  sr_operation : SendOperation;
  sr_thread_id : option string;
  sr_channel : option string;
}.

Record DeliveryReport := {
  dr_message_id : string;
  dr_target_agent_id : string;
  dr_transport : string;
  dr_inbox_path : option string;
  dr_inbox_size_after : option Z;
  dr_tmux_target : option string;
  dr_thread_id : option string;
  dr_channel : option string;
}.

Record AgentStatus := {
  as_record : AgentRecord;
  as_presence : string;
  as_pending_count : Z;
  as_pending_bytes : Z;
  as_preview : list InboxMessage;
}.

Record BusEvent := {
  ev_event_id : string;
  ev_occurred_at : string;
  ev_event_type : string;
  ev_status : string;
  ev_actor : option string;
  ev_targets : list string;
  ev_transport : option string;
  ev_preview : option string;
  ev_details : gmap string string;
}.

Record DeliveryStatus := {
  ds_message_id : string;
  ds_event_type : string;
  ds_status : string;
  ds_from : string;
  ds_target : string;
  ds_transport : string;
  ds_preview : option string;
  ds_thread_id : option string;
  ds_channel : option string;
  ds_delivered_at : string;
  ds_updated_at : string;
  ds_acked_by : option string;
}.

Record TmuxPeek := {
  tp_agent_id : string;
  tp_tmux_target : string;
  tp_lines : Z;
  tp_content : string;
}.

Record TmuxProbeReport := {
  pb_agent_id : string;
  pb_tmux_target : string;
  pb_status : string;
  pb_detail : option string;
}.

Record DoctorReport := {
  dc_status : string;
  dc_agent_count : Z;
  dc_channel_count : Z;
  dc_session_count : Z;
  dc_stale_agents : Z;
  dc_never_seen_agents : Z;
  dc_pending_deliveries : Z;
  dc_warnings : list string;
  dc_tmux : list TmuxProbeReport;
}.

Record TeamSession := {
  ts_session_id : string;
  ts_title : string;
  ts_goal : option string;
  ts_agents : list string;
  ts_channels : list string;
  ts_thread_id : option string;
  ts_status : string;
  ts_created_at : string;
  ts_updated_at : string;
}.

Abbreviation SessionRegistry := (gmap string TeamSession).

Record CreateSessionRequest := {
  cs_session_id : string;
  cs_title : string;
  cs_goal : option string;
  cs_agents : list string;
  cs_channels : list string;
  cs_thread_id : option string;
}.

Record HandoffFilters := {
  hf_thread_id : option string;
  hf_channel : option string;
  hf_session_id : option string;
  hf_limit : option Z;
}.

Record AgentStatusSummary := {
  sm_agent_id : string;
  sm_tool : string;
  sm_presence : string;
  sm_pending_count : Z;
}.

Record HandoffSummary := {
  hs_thread_id : option string;
  hs_channel : option string;
  hs_session_id : option string;
  hs_limit : Z;
  hs_sessions : list TeamSession;
  hs_agents : list AgentStatusSummary;
  hs_pending_deliveries : list DeliveryStatus;
  hs_recent_events : list BusEvent;
}.

(** A [BTreeMap] is read in the order of its keys. *)
Definition btree_entries {A} (m : gmap string A) : list (string * A) :=
  sort_by (fun x y => not_gt (String.compare x.1 y.1)) (map_to_list m).

Definition btree_values {A} (m : gmap string A) : list A := (btree_entries m).*2.

(** ** The environment *)
Inductive tmux_exit := TmuxExited (code : Z) | TmuxSignalled | TmuxNotStarted (error : string).

Class BusEnv := {
  sys_error : nat → option string;     (* the error of the [n]-th system call, if it fails *)
  sys_torn : nat → option nat;         (* the bytes a failing write leaves, if it began *)
  sys_stat_fails : nat → bool;         (* [Path::exists] answers false on any error *)
  clock_nanos : nat → Z;               (* nanoseconds since the epoch, zero before it *)
  tmux_run : nat → list string → tmux_exit * string;  (* exit and standard output *)
  is_git_root : path → bool;
  registry_to_json : AgentRegistry → string;
  registry_of_json : string → result AgentRegistry string;
  sessions_to_json : SessionRegistry → string;
  sessions_of_json : string → result SessionRegistry string;
  event_to_json : BusEvent → string;
  event_of_json : string → result BusEvent string;
}.

(** Files, the number of calls so far, and [BUS_EVENT_COUNTER]. *)
Record world := World { w_fs : files; w_calls : nat; w_seq : Z }.

Definition bus (A : Type) : Type := world → world * result A BusError.

Definition ret {A} (a : A) : bus A := fun w => (w, Ok a).
Definition fail {A} (e : BusError) : bus A := fun w => (w, Err e).
Definition bind {A B} (m : bus A) (k : A → bus B) : bus B :=
  fun w => match m w with (w', Ok a) => k a w' | (w', Err e) => (w', Err e) end.
Definition lift {A} (r : result A BusError) : bus A := fun w => (w, r).

Notation "'let!' x ':=' m 'in' k" := (bind m (fun x => k))
  (at level 10, x pattern, m at level 200, k at level 200) : rust_scope.

Section system_calls.
Context {E : BusEnv}.

Definition tick (w : world) : world := World (w_fs w) (S (w_calls w)) (w_seq w).
Definition with_fs (fs : files) (w : world) : world := World fs (w_calls w) (w_seq w).

(** A call that changes nothing and may fail. *)
Definition sys_call : bus () :=
  fun w => (tick w, match sys_error (w_calls w) with Some e => Err (BusIo e) | None => Ok () end).

Definition path_exists (p : string) : bus bool :=
  fun w => (tick w, Ok (negb (sys_stat_fails (w_calls w)) && bool_decide (is_Some (w_fs w !! p)))).

Definition read_to_string (p : string) : bus string :=
  let! _ := sys_call in
  fun w => match w_fs w !! p with
           | Some content => (w, Ok content)
           | None => (w, Err (BusIo "No such file or directory (os error 2)"))
           end.

Definition file_len (p : string) : bus Z :=
  let! content := read_to_string p in ret (str_len content).

(** A write that replaces, or extends, what the file holds. *)
Definition put_text (p before text : string) : bus () :=
  fun w =>
    match sys_error (w_calls w) with
    | None => (with_fs (<[p := before +:+ text]> (w_fs w)) (tick w), Ok ())
    | Some e =>
        (match sys_torn (w_calls w) with
         | Some n => with_fs (<[p := before +:+ String.substring 0 n text]> (w_fs w)) (tick w)
         | None => tick w
         end, Err (BusIo e))
    end.

Definition fs_write (p text : string) : bus () := put_text p "" text.
Definition fs_append (p text : string) : bus () :=
  fun w => put_text p (default "" (w_fs w !! p)) text w.

Definition remove_file (p : string) : bus () :=
  let! _ := sys_call in fun w => (with_fs (delete p (w_fs w)) w, Ok ()).

Definition now_nanos : bus Z := fun w => (tick w, Ok (clock_nanos (w_calls w))).
Definition now_text : bus string :=
  let! nanos := now_nanos in ret (format_rfc3339 (nanos / 1000000000)).

(** [fetch_add]: the old value; the counter wraps at 64 bits. *)
Definition next_seq : bus Z :=
  fun w => (World (w_fs w) (w_calls w) (as_u64 (w_seq w + 1)), Ok (w_seq w)).

Definition tmux (args : list string) : bus (tmux_exit * string) :=
  fun w => (tick w, Ok (tmux_run (w_calls w) args)).
End system_calls.

(** ** Identifiers and paths *)
Definition is_token_byte (c : ascii) : bool :=
  let b := byte_of c in
  ((48 <=? b) && (b <=? 57)) || ((65 <=? b) && (b <=? 90)) || ((97 <=? b) && (b <=? 122))
  || Ascii.eqb c "_" || Ascii.eqb c "-" || Ascii.eqb c ".".

Fixpoint str_all (f : ascii → bool) (s : string) : bool :=
  match s with EmptyString => true | String c rest => f c && str_all f rest end.

Definition is_safe_bus_token (value : string) : bool :=
  negb (is_empty value) && (str_len value <=? 64) && str_all is_token_byte value.

Definition validate_token (e : string → BusError) (value : string) : result () BusError :=
  if is_safe_bus_token value then Ok () else Err (e value).

Definition validate_agent_id : string → result () BusError := validate_token InvalidAgentId.
Definition validate_tool : string → result () BusError := validate_token InvalidTool.
Definition validate_channel : string → result () BusError := validate_token InvalidChannel.
Definition validate_thread_id : string → result () BusError := validate_token InvalidThreadId.
Definition validate_session_id : string → result () BusError := validate_token InvalidSessionId.

Definition validate_opt (f : string → result () BusError) (v : option string) : result () BusError :=
  match v with Some s => f s | None => Ok () end.

Definition validate_session_status (status : string) : result () BusError :=
  if bool_decide (status ∈ ["active"; "paused"; "closed"]) then Ok ()
  else Err (InvalidSessionStatus status).

(** Targets without repetitions, the first occurrence kept. *)
Fixpoint dedup_from (validate : string → result () BusError) (seen : list string) (targets : list string)
    : result (list string) BusError :=
  match targets with
  | [] => Ok []
  | target :: rest =>
      let? _ := validate target in
      if bool_decide (target ∈ seen) then dedup_from validate seen rest
      else let? more := dedup_from validate (target :: seen) rest in Ok (target :: more)
  end.

Definition dedup_targets : list string → result (list string) BusError := dedup_from validate_agent_id [].

Definition from_inbox {A} (r : result A InboxError) : result A BusError :=
  match r with Ok a => Ok a | Err e => Err (LegacyInbox e) end.

Definition presence_for (last_seen_at : option string) (now_seconds : Z) : string :=
  match last_seen_at with
  | None => "never_seen"
  | Some text =>
      match parse_rfc3339 text with
      | None => "stale"
      | Some last_seen =>
          if sat_i64 (now_seconds - last_seen) <=? PRESENCE_STALE_AFTER_SECONDS then "online" else "stale"
      end
  end.

Definition message_preview (content : string) : string :=
  take_chars MAX_EVENT_MESSAGE_PREVIEW_CHARS content +:+
  (if MAX_EVENT_MESSAGE_PREVIEW_CHARS <? char_count content then "..." else "").

Definition add_optional_detail (key : string) (value : option string) (details : gmap string string)
    : gmap string string :=
  match value with Some v => <[key := v]> details | None => details end.

Fixpoint join_with (sep : string) (l : list string) : string :=
  match l with
  | [] => ""
  | [x] => x
  | x :: rest => x +:+ (sep +:+ join_with sep rest)
  end.

(** ** Deliveries, read off the log *)
Definition set_delivery (status updated_at : string) (acked_by : option string) (d : DeliveryStatus)
    : DeliveryStatus :=
  {| ds_message_id := ds_message_id d; ds_event_type := ds_event_type d; ds_status := status;
     ds_from := ds_from d; ds_target := ds_target d; ds_transport := ds_transport d;
     ds_preview := ds_preview d; ds_thread_id := ds_thread_id d; ds_channel := ds_channel d;
     ds_delivered_at := ds_delivered_at d; ds_updated_at := updated_at; ds_acked_by := acked_by |}.

Definition new_delivery (event : BusEvent) (target : string) : DeliveryStatus :=
  {| ds_message_id := ev_event_id event; ds_event_type := ev_event_type event;
     ds_status := if bool_decide (ev_status event = "failed") then "failed" else "pending";
     ds_from := default "" (ev_actor event); ds_target := target;
     ds_transport := default "" (ev_transport event); ds_preview := ev_preview event;
     ds_thread_id := ev_details event !! "thread_id"; ds_channel := ev_details event !! "channel";
     ds_delivered_at := ev_occurred_at event; ds_updated_at := ev_occurred_at event;
     ds_acked_by := None |}.

Definition pending_for (target : string) (d : DeliveryStatus) : bool :=
  bool_decide (ds_target d = target) && bool_decide (ds_status d = "pending").

(** The first [remaining] pending deliveries of [target] become drained. *)
Fixpoint mark_drained (target at_ : string) (remaining : Z) (statuses : list DeliveryStatus)
    : list DeliveryStatus :=
  match statuses with
  | [] => []
  | d :: rest =>
      if remaining =? 0 then d :: rest
      else if pending_for target d
      then set_delivery "drained" at_ (ds_acked_by d) d :: mark_drained target at_ (remaining - 1) rest
      else d :: mark_drained target at_ remaining rest
  end.

(** The deliveries, and where the last one of each message is. *)
Abbreviation delivery_index := (list DeliveryStatus * gmap string nat)%type.

Definition add_delivery (event : BusEvent) (acc : delivery_index) (target : string) : delivery_index :=
  (acc.1 ++ [new_delivery event target], <[ev_event_id event := length acc.1]> acc.2).

Definition replay_event (acc : delivery_index) (event : BusEvent) : delivery_index :=
  let '(statuses, index) := acc in
  if bool_decide (ev_event_type event ∈ ["send"; "broadcast"])
     && bool_decide (ev_status event ∈ ["delivered"; "failed"])
  then foldl (add_delivery event) acc (ev_targets event)
  else if bool_decide (ev_event_type event = "drain") && bool_decide (ev_status event = "drained")
  then match ev_targets event with
       | [] => acc
       | target :: _ =>
           let drained_count := default 0 (ev_details event !! "drained_count" ≫= parse_u64) in
           (mark_drained target (ev_occurred_at event) drained_count statuses, index)
       end
  else if bool_decide (ev_event_type event = "ack") && bool_decide (ev_status event = "acked")
  then match ev_details event !! "delivery_event_id" with
       | None => acc
       | Some message_id =>
           match index !! message_id with
           | None => acc
           | Some i => (alter (set_delivery "acked" (ev_occurred_at event) (ev_actor event)) i statuses, index)
           end
       end
  else acc.

Definition replay (events : list BusEvent) : delivery_index := foldl replay_event ([], ∅) events.

Section operations.
Context {E : BusEnv} {J : InboxJsonText} (mempal_home : string) (cwd : path).

Definition project_bus_dir : result string BusError :=
  let? encoded := from_inbox (encode_project_identity (project_identity is_git_root cwd)) in
  Ok (mempal_home +:+ ("/cowork-bus/" +:+ encoded)).

Definition bus_file (name : string) : result string BusError :=
  let? dir := project_bus_dir in Ok (dir +:+ name).

Definition registry_path : result string BusError := bus_file "/agents.json".
Definition events_path : result string BusError := bus_file "/events.jsonl".
Definition sessions_path : result string BusError := bus_file "/sessions.json".

(** An agent's inbox without its extension: a valid identifier is not empty, so
    [with_extension] replaces the [jsonl] and nothing else. *)
Definition agent_stem (agent_id : string) : result string BusError :=
  let? _ := validate_agent_id agent_id in bus_file ("/inbox/" +:+ agent_id).

Definition agent_inbox_path (agent_id : string) : result string BusError :=
  let? stem := agent_stem agent_id in Ok (stem +:+ ".jsonl").

(** ** The registry and the sessions *)
Definition parsed {A} (r : result A string) : result A BusError :=
  match r with Ok a => Ok a | Err e => Err (BusJson e) end.

Definition load_file {A} (p : string) (none : A) (of_json : string → result A string) : bus A :=
  let! there := path_exists p in
  if negb there then ret none
  else
    let! raw := read_to_string p in
    if is_empty (trim raw) then ret none else lift (parsed (of_json raw)).

Definition save_file (p text : string) : bus () :=
  let! _ := sys_call in fs_write p text.

Definition load_registry : bus AgentRegistry :=
  let! p := lift registry_path in load_file p registry_default registry_of_json.

Definition save_registry (registry : AgentRegistry) : bus () :=
  let! p := lift registry_path in save_file p (registry_to_json registry).

Definition load_sessions : bus SessionRegistry :=
  let! p := lift sessions_path in load_file p ∅ sessions_of_json.

Definition save_sessions (sessions : SessionRegistry) : bus () :=
  let! p := lift sessions_path in save_file p (sessions_to_json sessions).

(** ** The event log *)
Definition stamped_id (prefix : string) : bus string :=
  let! nanos := now_nanos in
  let! seq := next_seq in
  ret (prefix +:+ (show nanos +:+ ("-" +:+ show seq))).

Definition new_event_id : bus string := stamped_id "evt-".

Definition append_bus_event (type status : string) (actor : option string) (targets : list string)
    (transport preview : option string) (details : gmap string string) : bus BusEvent :=
  let! id := new_event_id in
  let! occurred_at := now_text in
  let event := {| ev_event_id := id; ev_occurred_at := occurred_at; ev_event_type := type;
                  ev_status := status; ev_actor := actor; ev_targets := targets;
                  ev_transport := transport; ev_preview := preview; ev_details := details |} in
  let! p := lift events_path in
  let! _ := sys_call in
  let! _ := fs_append p (event_to_json event +:+ LF) in
  ret event.

Fixpoint parse_events (l : list string) : result (list BusEvent) BusError :=
  match l with
  | [] => Ok []
  | line :: rest =>
      let trimmed := trim line in
      if is_empty trimmed then parse_events rest
      else
        let? event := parsed (event_of_json trimmed) in
        let? more := parse_events rest in
        Ok (event :: more)
  end.

(** The last [n] of a list. *)
Definition keep_last {A} (n : Z) (l : list A) : list A := drop (length l - Z.to_nat n) l.

Definition list_events (limit : option Z) : bus (list BusEvent) :=
  let! p := lift events_path in
  let! there := path_exists p in
  if negb there then ret []
  else
    let! raw := read_to_string p in
    let! events := lift (parse_events (str_lines raw)) in
    ret (match limit with Some n => keep_last n events | None => events end).

Definition list_delivery_statuses (agent_id : option string) : bus (list DeliveryStatus) :=
  let! _ := lift (validate_opt validate_agent_id agent_id) in
  let! events := list_events None in
  let statuses := (replay events).1 in
  ret (match agent_id with
       | Some id => List.filter (fun d => bool_decide (ds_target d = id)) statuses
       | None => statuses
       end).

(** ** Agents *)
Definition register_agent (request : RegisterAgentRequest) : bus AgentRecord :=
  let! _ := lift (validate_agent_id (rr_agent_id request)) in
  let! _ := lift (validate_tool (rr_tool request)) in
  if negb (bool_decide (rr_transport request ∈ ["inbox"; "tmux"]))
  then fail (UnsupportedTransport (rr_transport request))
  else if bool_decide (rr_transport request = "tmux")
          && is_empty (default "" (trim <$> rr_tmux_target request))
  then fail TmuxTargetRequired
  else
    let! now := now_text in
    let! registry := load_registry in
    let registered_at := default now (ar_registered_at <$> reg_agents registry !! rr_agent_id request) in
    let record := {| ar_agent_id := rr_agent_id request; ar_tool := rr_tool request;
                     ar_transport := rr_transport request; ar_tmux_target := rr_tmux_target request;
                     ar_registered_at := registered_at; ar_updated_at := now;
                     ar_last_seen_at := Some now |} in
    let! _ := save_registry {| reg_agents := <[rr_agent_id request := record]> (reg_agents registry);
                               reg_channels := reg_channels registry |} in
    let details := add_optional_detail "tmux_target" (ar_tmux_target record) {["tool" := ar_tool record]} in
    let! _ := append_bus_event "register" "registered" (Some (ar_agent_id record)) [ar_agent_id record]
                (Some (ar_transport record)) None details in
    ret record.

Definition heartbeat_agent (agent_id : string) (seen_at : option string) : bus AgentRecord :=
  let! _ := lift (validate_agent_id agent_id) in
  let! seen_at := match seen_at with
                  | Some text => match parse_rfc3339 text with
                                 | Some _ => ret text
                                 | None => fail (InvalidTimestamp text)
                                 end
                  | None => now_text
                  end in
  let! registry := load_registry in
  match reg_agents registry !! agent_id with
  | None => fail (UnknownAgent agent_id)
  | Some old =>
      let record := {| ar_agent_id := ar_agent_id old; ar_tool := ar_tool old;
                       ar_transport := ar_transport old; ar_tmux_target := ar_tmux_target old;
                       ar_registered_at := ar_registered_at old; ar_updated_at := seen_at;
                       ar_last_seen_at := Some seen_at |} in
      let! _ := save_registry {| reg_agents := <[agent_id := record]> (reg_agents registry);
                                 reg_channels := reg_channels registry |} in
      let! _ := append_bus_event "heartbeat" "seen" (Some agent_id) [agent_id] (Some (ar_transport record))
                  None {["last_seen_at" := seen_at]} in
      ret record
  end.

(** [read_inbox_stats]: the lines that are not blank, the bytes, and the first
    three lines that are messages. *)
Definition read_inbox_stats (p : string) : bus (Z * Z * list InboxMessage) :=
  let! there := path_exists p in
  if negb there then ret (0, 0, [])
  else
    let! raw := read_to_string p in
    let lines := List.filter (fun l => negb (is_empty (trim l))) (str_lines raw) in
    ret (Z.of_nat (length lines), str_len raw, take 3 (parse_lines lines)).

Fixpoint agent_statuses (now_seconds : Z) (records : list AgentRecord) : bus (list AgentStatus) :=
  match records with
  | [] => ret []
  | record :: rest =>
      let! p := lift (agent_inbox_path (ar_agent_id record)) in
      let! (count, bytes, preview) := read_inbox_stats p in
      let status := {| as_record := record; as_presence := presence_for (ar_last_seen_at record) now_seconds;
                       as_pending_count := count; as_pending_bytes := bytes; as_preview := preview |} in
      let! more := agent_statuses now_seconds rest in
      ret (status :: more)
  end.

Definition list_agent_status_at (now : option string) : bus (list AgentStatus) :=
  let! now_seconds := match now with
                      | Some text => match parse_rfc3339 text with
                                     | Some t => ret t
                                     | None => fail (InvalidTimestamp text)
                                     end
                      | None => let! nanos := now_nanos in ret (as_i64 (nanos / 1000000000))
                      end in
  let! registry := load_registry in
  agent_statuses now_seconds (btree_values (reg_agents registry)).

Definition list_agent_status : bus (list AgentStatus) := list_agent_status_at None.

(** ** Channels and sessions *)
Fixpoint all_known (agents : gmap string AgentRecord) (ids : list string) : result () BusError :=
  match ids with
  | [] => Ok ()
  | id :: rest => if bool_decide (is_Some (agents !! id)) then all_known agents rest
                  else Err (UnknownAgent id)
  end.

Definition set_channel (channel : string) (agents : list string) : bus ChannelRecord :=
  let! _ := lift (validate_channel channel) in
  let! agents := lift (dedup_targets agents) in
  if bool_decide (agents = []) then fail (EmptyChannel channel)
  else
    let! registry := load_registry in
    let! _ := lift (all_known (reg_agents registry) agents) in
    let! now := now_text in
    let record := {| ch_channel := channel; ch_agents := agents; ch_updated_at := now |} in
    let! _ := save_registry {| reg_agents := reg_agents registry;
                               reg_channels := <[channel := record]> (reg_channels registry) |} in
    let details := <["channel" := channel]> {["agents" := join_with "," agents]} in
    let! _ := append_bus_event "channel_set" "updated" None agents None None details in
    ret record.

Definition list_channels : bus (list ChannelRecord) :=
  let! registry := load_registry in ret (btree_values (reg_channels registry)).

(** The requested channels, each validated and known, without repetitions. *)
Fixpoint session_channels (known : gmap string ChannelRecord) (seen channels : list string)
    : result (list string) BusError :=
  match channels with
  | [] => Ok []
  | channel :: rest =>
      let? _ := validate_channel channel in
      if negb (bool_decide (is_Some (known !! channel))) then Err (UnknownChannel channel)
      else if bool_decide (channel ∈ seen) then session_channels known seen rest
      else let? more := session_channels known (channel :: seen) rest in Ok (channel :: more)
  end.

Definition create_session (request : CreateSessionRequest) : bus TeamSession :=
  let! _ := lift (validate_session_id (cs_session_id request)) in
  let! _ := lift (validate_opt validate_thread_id (cs_thread_id request)) in
  let! agents := lift (dedup_targets (cs_agents request)) in
  if bool_decide (agents = []) then fail (EmptySession (cs_session_id request))
  else
    let! registry := load_registry in
    let! _ := lift (all_known (reg_agents registry) agents) in
    let! channels := lift (session_channels (reg_channels registry) [] (cs_channels request)) in
    let! now := now_text in
    let! sessions := load_sessions in
    let created_at := default now (ts_created_at <$> sessions !! cs_session_id request) in
    let session := {| ts_session_id := cs_session_id request; ts_title := cs_title request;
                      ts_goal := cs_goal request; ts_agents := agents; ts_channels := channels;
                      ts_thread_id := cs_thread_id request; ts_status := "active";
                      ts_created_at := created_at; ts_updated_at := now |} in
    let! _ := save_sessions (<[cs_session_id request := session]> sessions) in
    let details := add_optional_detail "thread_id" (ts_thread_id session)
      (<["session_id" := ts_session_id session]> (<["title" := ts_title session]>
        {["status" := ts_status session]})) in
    let! _ := append_bus_event "session_create" "created" None agents None None details in
    ret session.

Definition list_sessions : bus (list TeamSession) :=
  let! sessions := load_sessions in ret (btree_values sessions).

Definition update_session_status (session_id status : string) : bus TeamSession :=
  let! _ := lift (validate_session_id session_id) in
  let! _ := lift (validate_session_status status) in
  let! sessions := load_sessions in
  match sessions !! session_id with
  | None => fail (UnknownSession session_id)
  | Some old =>
      let! now := now_text in
      let session := {| ts_session_id := ts_session_id old; ts_title := ts_title old; ts_goal := ts_goal old;
                        ts_agents := ts_agents old; ts_channels := ts_channels old;
                        ts_thread_id := ts_thread_id old; ts_status := status;
                        ts_created_at := ts_created_at old; ts_updated_at := now |} in
      let! _ := save_sessions (<[session_id := session]> sessions) in
      let details := <["session_id" := ts_session_id session]> {["status" := status]} in
      let! _ := append_bus_event "session_status" status None (ts_agents session) None None details in
      ret session
  end.

(** ** Sending *)
Definition append_to_agent_inbox (from target content pushed_at : string) (thread_id channel : option string)
    : bus (string * Z) :=
  let! p := lift (agent_inbox_path target) in
  let! _ := sys_call in
  let! (existing_count, existing_bytes, _) := read_inbox_stats p in
  let msg := {| im_pushed_at := pushed_at; im_from := from; im_content := content;
                im_thread_id := thread_id; im_channel := channel |} in
  let line := msg_to_json msg in
  let prospective_bytes := sat_u64 (existing_bytes + (str_len line + 1)) in
  if (MAX_PENDING_MESSAGES <? existing_count + 1) || (MAX_TOTAL_INBOX_BYTES <? prospective_bytes)
  then fail (BusInboxFull existing_count existing_bytes)
  else
    let! _ := fs_append p (line +:+ LF) in
    let! size := file_len p in
    ret (p, size).

Definition exit_text (e : tmux_exit) : string :=
  match e with TmuxExited code => show_i64 code | _ => "terminated by signal" end.

Definition send_tmux (from target tmux_target content : string) : bus () :=
  let envelope := "[mempal bus from " +:+ (from +:+ (" to " +:+ (target +:+ ("] " +:+ content)))) in
  let! (exit, _) := tmux ["send-keys"; "-t"; tmux_target; "--"; envelope; "Enter"] in
  match exit with
  | TmuxNotStarted e => fail (BusIo e)
  | TmuxExited 0 => ret ()
  | _ => fail (TmuxFailed (exit_text exit))
  end.

(** What a failed delivery's event says of the error. *)
Definition error_text (e : BusError) : string :=
  match e with
  | BusIo m => "io error: " +:+ m
  | TmuxFailed s => "tmux delivery failed with status " +:+ s
  | _ => ""
  end.

Definition report_of (request : SendRequest) (id : string) (target : AgentRecord) (transport : string)
    (p : option string) (size : option Z) (pane : option string) : DeliveryReport :=
  {| dr_message_id := id; dr_target_agent_id := ar_agent_id target; dr_transport := transport;
     dr_inbox_path := p; dr_inbox_size_after := size; dr_tmux_target := pane;
     dr_thread_id := sr_thread_id request; dr_channel := sr_channel request |}.

Definition send_details (request : SendRequest) (details : gmap string string) : gmap string string :=
  add_optional_detail "channel" (sr_channel request)
    (add_optional_detail "thread_id" (sr_thread_id request) details).

(** One target of [send]'s loop. *)
Definition deliver (request : SendRequest) (source : AgentRecord) (pushed_at : string) (target : AgentRecord)
    : bus DeliveryReport :=
  let event status transport details :=
    append_bus_event (event_type (sr_operation request)) status (Some (ar_agent_id source))
      [ar_agent_id target] (Some transport) (Some (message_preview (sr_message request)))
      (send_details request details) in
  if bool_decide (ar_transport target = "inbox") then
    let! (p, size) := append_to_agent_inbox (ar_agent_id source) (ar_agent_id target) (sr_message request)
                        pushed_at (sr_thread_id request) (sr_channel request) in
    let! ev := event "delivered" "inbox" (<["inbox_path" := p]> {["inbox_size_after" := show size]}) in
    ret (report_of request (ev_event_id ev) target "inbox" (Some p) (Some size) None)
  else if bool_decide (ar_transport target = "tmux") then
    match ar_tmux_target target with
    | None => fail TmuxTargetRequired
    | Some pane => fun w =>
        match send_tmux (ar_agent_id source) (ar_agent_id target) pane (sr_message request) w with
        | (w1, Err err) =>
            ((event "failed" "tmux" (<["tmux_target" := pane]> {["error" := error_text err]}) w1).1, Err err)
        | (w1, Ok _) =>
            (let! ev := event "delivered" "tmux" {["tmux_target" := pane]} in
             ret (report_of request (ev_event_id ev) target "tmux" None None (Some pane))) w1
        end
    end
  else fail (UnsupportedTransport (ar_transport target)).

Fixpoint deliver_all (request : SendRequest) (source : AgentRecord) (pushed_at : string)
    (targets : list AgentRecord) : bus (list DeliveryReport) :=
  match targets with
  | [] => ret []
  | target :: rest =>
      let! report := deliver request source pushed_at target in
      let! more := deliver_all request source pushed_at rest in
      ret (report :: more)
  end.

Fixpoint target_records (agents : gmap string AgentRecord) (targets : list string)
    : result (list AgentRecord) BusError :=
  match targets with
  | [] => Ok []
  | target :: rest =>
      let? _ := validate_agent_id target in
      match agents !! target with
      | None => Err (UnknownTarget target)
      | Some record => let? more := target_records agents rest in Ok (record :: more)
      end
  end.

Definition send (request : SendRequest) : bus (list DeliveryReport) :=
  let! _ := lift (validate_agent_id (sr_from request)) in
  let! _ := lift (validate_opt validate_thread_id (sr_thread_id request)) in
  let! _ := lift (validate_opt validate_channel (sr_channel request)) in
  if MAX_MESSAGE_SIZE <? str_len (sr_message request)
  then fail (BusMessageTooLarge (str_len (sr_message request)))
  else
    let! targets := lift (dedup_targets (sr_targets request)) in
    if bool_decide (sr_from request ∈ targets) then fail (SelfSend (sr_from request))
    else
      let! registry := load_registry in
      match reg_agents registry !! sr_from request with
      | None => fail (UnknownSource (sr_from request))
      | Some source =>
          let! records := lift (target_records (reg_agents registry) targets) in
          let! pushed_at := now_text in
          deliver_all request source pushed_at records
      end.

Definition send_channel (from channel message : string) (thread_id : option string)
    : bus (list DeliveryReport) :=
  let! _ := lift (validate_channel channel) in
  let! registry := load_registry in
  match reg_channels registry !! channel with
  | None => fail (UnknownChannel channel)
  | Some record =>
      send {| sr_from := from; sr_targets := ch_agents record; sr_message := message;
              sr_operation := Broadcast; sr_thread_id := thread_id; sr_channel := Some channel |}
  end.

(** ** Draining and acknowledging *)
Definition append_drain_event (agent_id : string) (drained_count drained_bytes : Z) : bus BusEvent :=
  append_bus_event "drain" "drained" (Some agent_id) [agent_id] (Some "inbox") None
    (<["drained_count" := show drained_count]> {["drained_bytes" := show drained_bytes]}).

(** [std::fs::rename]: [false] when the file is not there. *)
Definition rename (p q : string) : bus bool :=
  fun w =>
    match w_fs w !! p, sys_error (w_calls w) with
    | None, _ => (tick w, Ok false)
    | Some _, Some e => (tick w, Err (BusIo e))
    | Some content, None => (with_fs (<[q := content]> (delete p (w_fs w))) (tick w), Ok true)
    end.

(** [let _ = f()]: the effect without the error. *)
Definition ignoring {A} (m : bus A) : bus () := fun w => ((m w).1, Ok ()).

Definition drain_agent (agent_id : string) : bus (list InboxMessage) :=
  let! _ := lift (validate_agent_id agent_id) in
  let! registry := load_registry in
  if negb (bool_decide (is_Some (reg_agents registry !! agent_id))) then fail (UnknownAgent agent_id)
  else
    let! stem := lift (agent_stem agent_id) in
    let draining := stem +:+ ".draining" in
    let! renamed := rename (stem +:+ ".jsonl") draining in
    if negb renamed then
      let! _ := append_drain_event agent_id 0 0 in ret []
    else
      let! raw := read_to_string draining in
      let messages := parse_lines (str_lines raw) in
      let! _ := ignoring (remove_file draining) in
      let! _ := append_drain_event agent_id (Z.of_nat (length messages)) (str_len raw) in
      ret messages.

Definition find_delivery (message_id : string) (l : list DeliveryStatus) : option DeliveryStatus :=
  List.find (fun d => bool_decide (ds_message_id d = message_id)) l.

Definition ack_delivery (agent_id message_id : string) : bus DeliveryStatus :=
  let! _ := lift (validate_agent_id agent_id) in
  let! registry := load_registry in
  if negb (bool_decide (is_Some (reg_agents registry !! agent_id))) then fail (UnknownAgent agent_id)
  else
    let! deliveries := list_delivery_statuses None in
    match find_delivery message_id deliveries with
    | None => fail (UnknownDelivery message_id)
    | Some delivery =>
        if negb (bool_decide (ds_target delivery = agent_id))
        then fail (DeliveryTargetMismatch message_id (ds_target delivery) agent_id)
        else if bool_decide (ds_status delivery = "failed") then fail (CannotAckFailed message_id)
        else
          let! _ :=
            if bool_decide (ds_status delivery = "acked") then ret ()
            else
              let! _ := append_bus_event "ack" "acked" (Some agent_id) [agent_id] (Some (ds_transport delivery))
                          None {["delivery_event_id" := message_id]} in ret () in
          let! mine := list_delivery_statuses (Some agent_id) in
          match find_delivery message_id mine with
          | None => fail (UnknownDelivery message_id)
          | Some d => ret d
          end
    end.

(** ** Terminal panes *)
Definition capture_tmux (tmux_target : string) (lines : Z) : bus string :=
  let! (exit, out) := tmux ["capture-pane"; "-t"; tmux_target; "-p"; "-S"; "-" +:+ show lines] in
  match exit with
  | TmuxNotStarted e => fail (BusIo e)
  | TmuxExited 0 => ret out
  | _ => fail (TmuxCaptureFailed (exit_text exit))
  end.

Definition tmux_peek_agent (agent_id : string) (lines : Z) : bus TmuxPeek :=
  let! _ := lift (validate_agent_id agent_id) in
  if negb ((1 <=? lines) && (lines <=? 500)) then fail (InvalidLineCount lines)
  else
    let! registry := load_registry in
    match reg_agents registry !! agent_id with
    | None => fail (UnknownAgent agent_id)
    | Some record =>
        if negb (bool_decide (ar_transport record = "tmux")) then fail (NotTmuxAgent agent_id)
        else match ar_tmux_target record with
             | None => fail TmuxTargetRequired
             | Some pane =>
                 let! content := capture_tmux pane lines in
                 ret {| tp_agent_id := agent_id; tp_tmux_target := pane; tp_lines := lines;
                        tp_content := content |}
             end
    end.

(** [probe_tmux_target]: a status and a detail. *)
Definition probe_tmux_target (tmux_target : string) : bus (string * option string) :=
  let! (exit, _) := tmux ["has-session"; "-t"; tmux_target] in
  ret (match exit with
       | TmuxExited 0 => ("ok", None)
       | TmuxNotStarted e => ("failed", Some e)
       | _ => ("failed", Some (exit_text exit))
       end).

(** The warnings and probes of the agents, in order. *)
Fixpoint probe_agents (probe_tmux : bool) (statuses : list AgentStatus)
    : bus (list string * list TmuxProbeReport) :=
  match statuses with
  | [] => ret ([], [])
  | status :: rest =>
      let record := as_record status in
      if negb (bool_decide (ar_transport record = "tmux")) then probe_agents probe_tmux rest
      else
        let! (warning, probe) :=
          match ar_tmux_target record with
          | None =>
              ret (["tmux agent " +:+ (ar_agent_id record +:+ " has no target")],
                   {| pb_agent_id := ar_agent_id record; pb_tmux_target := ""; pb_status := "missing_target";
                      pb_detail := None |})
          | Some pane =>
              let! (st, detail) := if probe_tmux then probe_tmux_target pane else ret ("not_probed", None) in
              ret (if bool_decide (st = "failed")
                   then ["tmux target failed: " +:+ (ar_agent_id record +:+ (" " +:+ pane))] else [],
                   {| pb_agent_id := ar_agent_id record; pb_tmux_target := pane; pb_status := st;
                      pb_detail := detail |})
          end in
        let! (warnings, probes) := probe_agents probe_tmux rest in
        ret (warning ++ warnings, probe :: probes)%list
  end.

Definition count_if {A} (f : A → bool) (l : list A) : Z := Z.of_nat (length (List.filter f l)).

Definition doctor (now : option string) (probe_tmux : bool) : bus DoctorReport :=
  let! statuses := list_agent_status_at now in
  let! channels := list_channels in
  let! sessions := list_sessions in
  let! deliveries := list_delivery_statuses None in
  let pending := count_if (fun d => bool_decide (ds_status d = "pending")) deliveries in
  let stale := count_if (fun s => bool_decide (as_presence s = "stale")) statuses in
  let never_seen := count_if (fun s => bool_decide (as_presence s = "never_seen")) statuses in
  let when (b : bool) (text : string) : list string := if b then [text] else [] in
  let first :=
    (when (bool_decide (length statuses = 0%nat)) "no registered agents"
     ++ when (0 <? stale) ("stale agents: " +:+ show stale)
     ++ when (0 <? pending) ("pending deliveries: " +:+ show pending)
     ++ when (0 <? never_seen) ("never seen agents: " +:+ show never_seen))%list in
  let! (more, probes) := probe_agents probe_tmux statuses in
  let warnings := (first ++ more)%list in
  ret {| dc_status := if bool_decide (warnings = []) then "ok" else "warning";
         dc_agent_count := Z.of_nat (length statuses); dc_channel_count := Z.of_nat (length channels);
         dc_session_count := Z.of_nat (length sessions); dc_stale_agents := stale;
         dc_never_seen_agents := never_seen; dc_pending_deliveries := pending;
         dc_warnings := warnings; dc_tmux := probes |}.

(** ** Handing work over *)
Definition none_or {A} (o : option A) (f : A → bool) : bool := match o with None => true | Some a => f a end.

Definition session_matches (filters : HandoffFilters) (s : TeamSession) : bool :=
  none_or (hf_session_id filters) (fun id => bool_decide (ts_session_id s = id))
  && none_or (hf_thread_id filters) (fun t => bool_decide (ts_thread_id s = Some t))
  && none_or (hf_channel filters) (fun c => bool_decide (c ∈ ts_channels s)).

Definition delivery_matches (filters : HandoffFilters) (d : DeliveryStatus) : bool :=
  bool_decide (ds_status d = "pending")
  && none_or (hf_thread_id filters) (fun t => bool_decide (ds_thread_id d = Some t))
  && none_or (hf_channel filters) (fun c => bool_decide (ds_channel d = Some c)).

Definition event_matches (filters : HandoffFilters) (sessions : list TeamSession) (ev : BusEvent) : bool :=
  none_or (hf_thread_id filters) (fun t =>
    bool_decide (ev_details ev !! "thread_id" = Some t)
    || match ev_details ev !! "session_id" with
       | None => false
       | Some id => existsb (fun s => bool_decide (ts_session_id s = id)
                                      && bool_decide (ts_thread_id s = Some t)) sessions
       end)
  && none_or (hf_channel filters) (fun c => bool_decide (ev_details ev !! "channel" = Some c))
  && none_or (hf_session_id filters) (fun id => bool_decide (ev_details ev !! "session_id" = Some id)).

Definition build_handoff_summary (filters : HandoffFilters) : bus HandoffSummary :=
  let! _ := lift (validate_opt validate_thread_id (hf_thread_id filters)) in
  let! _ := lift (validate_opt validate_channel (hf_channel filters)) in
  let! _ := lift (validate_opt validate_session_id (hf_session_id filters)) in
  let limit := default 20 (hf_limit filters) in
  let! all_sessions := list_sessions in
  let sessions := List.filter (session_matches filters) all_sessions in
  let! statuses := list_agent_status in
  let agents := (fun s => {| sm_agent_id := ar_agent_id (as_record s); sm_tool := ar_tool (as_record s);
                             sm_presence := as_presence s; sm_pending_count := as_pending_count s |})
                <$> statuses in
  let! deliveries := list_delivery_statuses None in
  let! events := list_events (Some limit) in
  let recent := List.filter (event_matches filters sessions) events in
  ret {| hs_thread_id := hf_thread_id filters; hs_channel := hf_channel filters;
         hs_session_id := hf_session_id filters; hs_limit := limit; hs_sessions := sessions;
         hs_agents := agents; hs_pending_deliveries := List.filter (delivery_matches filters) deliveries;
         hs_recent_events := keep_last limit recent |}.
End operations.
