(* ===== verification/CoworkBusLogic.v ===== *)
(** * A program logic for the cowork bus

    What the files of a project's bus hold, as a view: the registry, the sessions,
    the log, and the inbox of every agent. [wp m Q X v] says that [m], from any
    world whose files show [v], ends in one whose files show a view that [Q]
    accepts with the result, or [X] with the error. There is a rule per system
    call and per helper of [src/src/cowork/bus.rs]; failures of the calls are
    allowed everywhere, torn writes are not. *)

From Stdlib Require Import ZArith Lia String Ascii.
From stdpp Require Import base tactics list gmap strings numbers relations.
From S2P Require Import Prelude Order Text Rfc3339 Sqlite CoworkInbox CoworkBus.
Open Scope Z_scope.
Open Scope rust_scope.

(** What the bus relies on of [serde_json]: values are read back, an event is one
    line without surrounding space, and no text is blank. *)
Class BusJsonLaws (E : BusEnv) : Prop := {
  registry_roundtrip : ∀ r, registry_of_json (registry_to_json r) = Ok r;
  registry_not_blank : ∀ r, is_empty (trim (registry_to_json r)) = false;
  sessions_roundtrip : ∀ s, sessions_of_json (sessions_to_json s) = Ok s;
  sessions_not_blank : ∀ s, is_empty (trim (sessions_to_json s)) = false;
  event_roundtrip : ∀ e, event_of_json (event_to_json e) = Ok e;
  event_one_line : ∀ e, no_line_break (event_to_json e) = true;
  event_trimmed : ∀ e, trim (event_to_json e) = event_to_json e;
  event_not_empty : ∀ e, is_empty (event_to_json e) = false;
}.

(** Calls fail cleanly: no write is torn and [Path::exists] does not err. *)
Class CleanFailures (E : BusEnv) : Prop := {
  never_torn : ∀ n, sys_torn n = None;
  stat_works : ∀ n, sys_stat_fails n = false;
}.

Record view := View {
  v_reg : AgentRegistry;
  v_sessions : SessionRegistry;
  v_log : list BusEvent;
  v_inbox : string → list InboxMessage;
}.

Definition no_bus : view := View registry_default ∅ [] (fun _ => []).

Definition set_reg (r : AgentRegistry) (v : view) : view := View r (v_sessions v) (v_log v) (v_inbox v).
Definition set_sessions (s : SessionRegistry) (v : view) : view := View (v_reg v) s (v_log v) (v_inbox v).
Definition add_event (e : BusEvent) (v : view) : view :=
  View (v_reg v) (v_sessions v) (v_log v ++ [e]) (v_inbox v).
Definition set_inbox (a : string) (ms : list InboxMessage) (v : view) : view :=
  View (v_reg v) (v_sessions v) (v_log v) (fun b => if bool_decide (b = a) then ms else v_inbox v b).

Definition reg_insert (id : string) (r : AgentRecord) (reg : AgentRegistry) : AgentRegistry :=
  {| reg_agents := <[id := r]> (reg_agents reg); reg_channels := reg_channels reg |}.
Definition channel_insert (c : string) (r : ChannelRecord) (reg : AgentRegistry) : AgentRegistry :=
  {| reg_agents := reg_agents reg; reg_channels := <[c := r]> (reg_channels reg) |}.

(** ** The files of a bus *)
Definition inbox_file (dir a : string) : string := (dir +:+ ("/inbox/" +:+ a)) +:+ ".jsonl".
Definition draining_file (dir a : string) : string := (dir +:+ ("/inbox/" +:+ a)) +:+ ".draining".

Lemma str_app_cancel_l s t u : s +:+ t = s +:+ u → t = u.
Proof. intros H. by apply str_app_inj in H as [_ H]. Qed.

Lemma str_app_cancel_r s t u : s +:+ u = t +:+ u → s = t.
Proof.
  intros H. apply (str_app_inj s t u u) in H as [H _]; [done|].
  pose proof (f_equal String.length H) as Hl. rewrite !str_length_app in Hl. lia.
Qed.

Lemma inbox_file_inj dir a b : inbox_file dir a = inbox_file dir b → a = b.
Proof. intros H%str_app_cancel_r%str_app_cancel_l%str_app_cancel_l. done. Qed.

Lemma draining_file_not_inbox dir a b : draining_file dir a ≠ inbox_file dir b.
Proof. apply draining_not_inbox. Qed.

(** A file beside the inboxes is no inbox. *)
Lemma bus_file_not_inbox dir name a ext :
  (∀ s, name ≠ "/inbox/" +:+ s) → (dir +:+ ("/inbox/" +:+ a)) +:+ ext ≠ dir +:+ name.
Proof. intros Hn. rewrite !str_app_assoc. intros H%str_app_cancel_l. by destruct (Hn (a +:+ ext)). Qed.

Section logic.
Context {E : BusEnv} {J : InboxJsonText} {JL : InboxJsonLaws} {EL : BusJsonLaws E} {C : CleanFailures E}.
Context (mempal_home : string) (cwd : path) (dir : string).
Hypothesis Hdir : project_bus_dir mempal_home cwd = Ok dir.

Fixpoint render_events (l : list BusEvent) : string :=
  match l with
  | [] => ""
  | e :: rest => event_to_json e +:+ (LF +:+ render_events rest)
  end.

Lemma render_events_snoc l e :
  render_events (l ++ [e]) = render_events l +:+ (event_to_json e +:+ LF).
Proof.
  induction l as [|x l IH]; simpl; [by rewrite str_app_nil_r|]. by rewrite IH, !str_app_assoc.
Qed.

Lemma parse_render_events l : parse_events (str_lines (render_events l)) = Ok l.
Proof.
  induction l as [|e l IH]; [done|]. cbn [render_events].
  rewrite str_lines_line by apply event_one_line. cbn [parse_events].
  by rewrite event_trimmed, event_not_empty, event_roundtrip, IH.
Qed.

(** A JSON file that may not be there yet. *)
Definition file_shows {A} (fs : files) (p : string) (none : A) (to_json : A → string) (a : A) : Prop :=
  (fs !! p = None ∧ a = none) ∨ fs !! p = Some (to_json a).

(** The log may not be there only when it is empty. *)
Definition log_shows (fs : files) (log : list BusEvent) : Prop :=
  (fs !! (dir +:+ "/events.jsonl") = None ∧ log = [])
  ∨ fs !! (dir +:+ "/events.jsonl") = Some (render_events log).

Definition inbox_shows (fs : files) (a : string) (ms : list InboxMessage) : Prop :=
  (fs !! inbox_file dir a = None ∧ ms = []) ∨ fs !! inbox_file dir a = Some (render ms).

Record shows (fs : files) (v : view) : Prop := {
  shows_reg : file_shows fs (dir +:+ "/agents.json") registry_default registry_to_json (v_reg v);
  shows_sessions : file_shows fs (dir +:+ "/sessions.json") ∅ sessions_to_json (v_sessions v);
  shows_log : log_shows fs (v_log v);
  shows_inbox : ∀ a, inbox_shows fs a (v_inbox v a);
}.

Definition sees (w : world) (v : view) : Prop := shows (w_fs w) v.

Definition wp {A} (m : bus A) (Q : A → view → Prop) (X : BusError → view → Prop) (v : view) : Prop :=
  ∀ w, sees w v → let '(w', r) := m w in
    ∃ v', sees w' v' ∧ match r with Ok a => Q a v' | Err e => X e v' end.

Lemma wp_mono {A} (m : bus A) (Q Q' : A → view → Prop) (X X' : BusError → view → Prop) v :
  wp m Q X v → (∀ a v', Q a v' → Q' a v') → (∀ e v', X e v' → X' e v') → wp m Q' X' v.
Proof.
  intros Hm HQ HX w Hw. specialize (Hm w Hw). destruct (m w) as [w' [a|e]];
    destruct Hm as (v' & ? & ?); exists v'; auto.
Qed.

Lemma wp_ret {A} (a : A) (Q : A → view → Prop) X v : Q a v → wp (ret a) Q X v.
Proof. intros H w Hw. by exists v. Qed.

Lemma wp_fail {A} e (Q : A → view → Prop) (X : BusError → view → Prop) v : X e v → wp (fail e) Q X v.
Proof. intros H w Hw. by exists v. Qed.

Lemma wp_lift {A} (r : result A BusError) (Q : A → view → Prop) (X : BusError → view → Prop) v :
  match r with Ok a => Q a v | Err e => X e v end → wp (lift r) Q X v.
Proof. intros H w Hw. by exists v. Qed.

Lemma wp_bind {A B} (m : bus A) (k : A → bus B) Q X v :
  wp m (fun a v' => wp (k a) Q X v') X v → wp (bind m k) Q X v.
Proof.
  intros Hm w Hw. specialize (Hm w Hw). unfold bind.
  destruct (m w) as [w' [a|e]]; destruct Hm as (v' & Hw' & H); [|by exists v'].
  by apply H.
Qed.

(** What a failing system call leaves. *)
Definition io_err (X : BusError → view → Prop) (v : view) : Prop :=
  ∀ n s, sys_error n = Some s → X (BusIo s) v.

(** A call that leaves the files and gives a result satisfying [R]. *)
Lemma wp_quiet {A} (m : bus A) (R : A → Prop) (Q : A → view → Prop) (X : BusError → view → Prop) v :
  (∀ w, w_fs (m w).1 = w_fs w) → (∀ w, sees w v → ∃ a, (m w).2 = Ok a ∧ R a) →
  (∀ a, R a → Q a v) → wp m Q X v.
Proof.
  intros Hfs HR HQ w Hw. pose proof (Hfs w) as Hf. destruct (HR w Hw) as (a & Hr & Ha).
  destruct (m w) as [w' r]. simpl in *. subst r. exists v. unfold sees. rewrite Hf. auto.
Qed.

Lemma wp_sys_call (Q : () → view → Prop) (X : BusError → view → Prop) v :
  Q () v → io_err X v → wp sys_call Q X v.
Proof.
  intros HQ HX w Hw. unfold sys_call. exists v. split; [done|].
  destruct (sys_error _) eqn:He; [by eapply HX|done].
Qed.

Lemma wp_now_nanos (Q : Z → view → Prop) (X : BusError → view → Prop) v :
  (∀ n, Q (clock_nanos n) v) → wp now_nanos Q X v.
Proof.
  intros HQ. apply (wp_quiet _ (fun t => ∃ n, t = clock_nanos n)); auto.
  - intros w _. simpl. eauto.
  - intros a [n ->]. auto.
Qed.

Lemma wp_now_text (Q : string → view → Prop) (X : BusError → view → Prop) v :
  (∀ n, Q (format_rfc3339 (clock_nanos n / 1000000000)) v) → wp now_text Q X v.
Proof. intros HQ. apply wp_bind, wp_now_nanos. intros n. by apply wp_ret. Qed.

Lemma wp_next_seq (Q : Z → view → Prop) (X : BusError → view → Prop) v :
  (∀ n, Q n v) → wp next_seq Q X v.
Proof. intros HQ. apply (wp_quiet _ (fun _ => True)); simpl; eauto. Qed.

Lemma wp_tmux args (Q : tmux_exit * string → view → Prop) (X : BusError → view → Prop) v :
  (∀ r, Q r v) → wp (tmux args) Q X v.
Proof. intros HQ. apply (wp_quiet _ (fun _ => True)); simpl; eauto. Qed.

(** ** Files *)
Lemma wp_read_if_there {A} p (none : A) (k : string → bus A) (Q : A → view → Prop)
    (X : BusError → view → Prop) v :
  (∀ fs, shows fs v → (fs !! p = None ∧ Q none v) ∨ ∃ c, fs !! p = Some c ∧ wp (k c) Q X v) →
  io_err X v →
  wp (let! there := path_exists p in
      if negb there then ret none else let! raw := read_to_string p in k raw) Q X v.
Proof.
  intros Hfs HX w Hw. unfold bind at 1, path_exists. rewrite stat_works. simpl.
  destruct (Hfs _ Hw) as [[Hn HQ]|(c & Hs & Hk)].
  - rewrite Hn. simpl. by exists v.
  - rewrite Hs. simpl. unfold bind, read_to_string, sys_call, bind. simpl.
    destruct (sys_error _) eqn:He; [exists v; split; [done|by eapply HX]|]. simpl. rewrite Hs. by apply Hk.
Qed.

Lemma wp_load_file {A} p (none : A) to_json of_json a (Q : A → view → Prop) (X : BusError → view → Prop) v :
  (∀ x, of_json (to_json x) = Ok x) → (∀ x, is_empty (trim (to_json x)) = false) →
  (∀ fs, shows fs v → file_shows fs p none to_json a) →
  Q a v → io_err X v → wp (load_file p none of_json) Q X v.
Proof.
  intros Hrt Hnb Hshow HQ HX. apply wp_read_if_there; [|done]. intros fs Hfs.
  destruct (Hshow fs Hfs) as [[? ->]|Hs]; [by left|right]. exists (to_json a). split; [done|].
  rewrite Hnb. apply wp_lift. by rewrite Hrt.
Qed.

Lemma registry_path_dir : registry_path mempal_home cwd = Ok (dir +:+ "/agents.json").
Proof. unfold registry_path, bus_file. by rewrite Hdir. Qed.
Lemma sessions_path_dir : sessions_path mempal_home cwd = Ok (dir +:+ "/sessions.json").
Proof. unfold sessions_path, bus_file. by rewrite Hdir. Qed.
Lemma events_path_dir : events_path mempal_home cwd = Ok (dir +:+ "/events.jsonl").
Proof. unfold events_path, bus_file. by rewrite Hdir. Qed.
Lemma agent_stem_dir a :
  is_safe_bus_token a = true → agent_stem mempal_home cwd a = Ok (dir +:+ ("/inbox/" +:+ a)).
Proof. intros Ha. unfold agent_stem, validate_agent_id, validate_token, bus_file. by rewrite Ha, Hdir. Qed.
Lemma agent_inbox_path_dir a :
  is_safe_bus_token a = true → agent_inbox_path mempal_home cwd a = Ok (inbox_file dir a).
Proof. intros Ha. unfold agent_inbox_path. by rewrite agent_stem_dir. Qed.

Lemma wp_load_registry Q (X : BusError → view → Prop) v :
  Q (v_reg v) v → io_err X v → wp (load_registry mempal_home cwd) Q X v.
Proof.
  intros HQ HX. apply wp_bind, wp_lift. rewrite registry_path_dir.
  eapply wp_load_file; eauto using registry_roundtrip, registry_not_blank. by intros fs [].
Qed.

Lemma wp_load_sessions Q (X : BusError → view → Prop) v :
  Q (v_sessions v) v → io_err X v → wp (load_sessions mempal_home cwd) Q X v.
Proof.
  intros HQ HX. apply wp_bind, wp_lift. rewrite sessions_path_dir.
  eapply wp_load_file; eauto using sessions_roundtrip, sessions_not_blank. by intros fs [].
Qed.

(** A write that does not fail leaves the new text, one that fails leaves the old. *)
Lemma wp_store p before text (Q : () → view → Prop) (X : BusError → view → Prop) v v' :
  (∀ fs, shows fs v → shows (<[p := before +:+ text]> fs) v') →
  Q () v' → io_err X v → wp (put_text p before text) Q X v.
Proof.
  intros Hs HQ HX w Hw. unfold put_text. rewrite never_torn.
  destruct (sys_error _) eqn:He; [exists v; split; [done|by eapply HX]|]. exists v'. split; [|done]. by apply Hs.
Qed.

(** An update of one file keeps the view of the others. *)
Ltac other_files :=
  repeat match goal with
  | |- context [<[?p := _]> _ !! ?q] =>
      rewrite (lookup_insert_ne _ p q) by
        (first [ by apply not_eq_sym, bus_file_not_inbox | by apply bus_file_not_inbox
               | by intros ?%str_app_cancel_l | done ])
  end.

Lemma wp_save_registry r (Q : () → view → Prop) (X : BusError → view → Prop) v :
  Q () (set_reg r v) → io_err X v → wp (save_registry mempal_home cwd r) Q X v.
Proof.
  intros HQ HX. apply wp_bind, wp_lift. rewrite registry_path_dir. apply wp_bind, wp_sys_call; [|done].
  eapply wp_store; [|exact HQ|done]. intros fs [H1 H2 H3 H4].
  split; unfold file_shows, log_shows, inbox_shows, inbox_file in *; simpl.
  - right. by rewrite lookup_insert_eq.
  - by other_files.
  - by other_files.
  - intros a. by other_files.
Qed.

Lemma wp_save_sessions s (Q : () → view → Prop) (X : BusError → view → Prop) v :
  Q () (set_sessions s v) → io_err X v → wp (save_sessions mempal_home cwd s) Q X v.
Proof.
  intros HQ HX. apply wp_bind, wp_lift. rewrite sessions_path_dir. apply wp_bind, wp_sys_call; [|done].
  eapply wp_store; [|exact HQ|done]. intros fs [H1 H2 H3 H4].
  split; unfold file_shows, log_shows, inbox_shows, inbox_file in *; simpl.
  - by other_files.
  - right. by rewrite lookup_insert_eq.
  - by other_files.
  - intros a. by other_files.
Qed.

(** What [append_bus_event] writes: the given fields, under a drawn identifier. *)
Record logged (type status : string) (actor : option string) (targets : list string)
    (transport preview : option string) (details : gmap string string) (e : BusEvent) : Prop := {
  lg_type : ev_event_type e = type;
  lg_status : ev_status e = status;
  lg_actor : ev_actor e = actor;
  lg_targets : ev_targets e = targets;
  lg_transport : ev_transport e = transport;
  lg_preview : ev_preview e = preview;
  lg_details : ev_details e = details;
}.

Lemma wp_append_bus_event type status actor targets transport preview details
    Q (X : BusError → view → Prop) v :
  (∀ e, logged type status actor targets transport preview details e → Q e (add_event e v)) →
  io_err X v →
  wp (append_bus_event mempal_home cwd type status actor targets transport preview details) Q X v.
Proof.
  intros HQ HX. apply wp_bind, wp_bind, wp_now_nanos; intros n.
  apply wp_bind, wp_next_seq; intros seq. apply wp_ret, wp_bind, wp_now_text; intros m.
  apply wp_bind, wp_lift. rewrite events_path_dir. apply wp_bind, wp_sys_call; [|done].
  set (e := Build_BusEvent _ _ _ _ _ _ _ _ _).
  apply wp_bind. intros w Hw. unfold fs_append.
  eapply wp_store; [|apply wp_ret, (HQ e); by split|done|exact Hw].
  intros fs [H1 H2 H3 H4]. pose proof (shows_log _ _ Hw) as H3'.
  split; unfold file_shows, log_shows, inbox_shows, inbox_file in *; simpl.
  - by other_files.
  - by other_files.
  - right. rewrite lookup_insert_eq, render_events_snoc. do 2 f_equal.
    destruct H3' as [[-> ->]| ->]; done.
  - intros a. by other_files.
Qed.

Lemma wp_list_events limit Q (X : BusError → view → Prop) v :
  Q (match limit with Some n => keep_last n (v_log v) | None => v_log v end) v → io_err X v →
  wp (list_events mempal_home cwd limit) Q X v.
Proof.
  intros HQ HX. apply wp_bind, wp_lift. rewrite events_path_dir.
  apply wp_read_if_there; [|done]. intros fs Hfs.
  destruct (shows_log _ _ Hfs) as [[Hn Hl]|Hs]; [left|right].
  - split; [done|]. rewrite Hl in HQ. destruct limit; [|done]. unfold keep_last in HQ. by rewrite drop_nil in HQ.
  - eexists. split; [done|]. apply wp_bind, wp_lift. rewrite parse_render_events. by apply wp_ret.
Qed.

Definition deliveries (v : view) : list DeliveryStatus := (replay (v_log v)).1.

Lemma wp_list_delivery_statuses agent Q (X : BusError → view → Prop) v :
  Q (match agent with
     | Some id => List.filter (fun d => bool_decide (ds_target d = id)) (deliveries v)
     | None => deliveries v
     end) v → io_err X v →
  (∀ e, validate_opt validate_agent_id agent = Err e → X e v) →
  wp (list_delivery_statuses mempal_home cwd agent) Q X v.
Proof.
  intros HQ HX Hv. apply wp_bind, wp_lift. destruct (validate_opt _ _); [|by apply Hv].
  apply wp_bind, wp_list_events; [|done]. by apply wp_ret.
Qed.

(** ** Inboxes *)
Lemma parse_filter_lines l :
  parse_lines (List.filter (fun s => negb (is_empty (trim s))) l) = parse_lines l.
Proof.
  induction l as [|x l IH]; [done|]. cbn [List.filter parse_lines].
  destruct (is_empty (trim x)) eqn:Ex; simpl; [done|]. rewrite Ex. by destruct (msg_of_json _); rewrite IH.
Qed.

Lemma wp_read_inbox_stats a Q (X : BusError → view → Prop) v :
  Q (Z.of_nat (length (v_inbox v a)), str_len (render (v_inbox v a)), take 3 (v_inbox v a)) v →
  io_err X v → wp (read_inbox_stats (inbox_file dir a)) Q X v.
Proof.
  intros HQ HX. apply wp_read_if_there; [|done]. intros fs Hfs.
  destruct (shows_inbox _ _ Hfs a) as [[Hn He]|Hs]; [left|right].
  - split; [done|]. by rewrite He in HQ.
  - eexists. split; [done|]. apply wp_ret. by rewrite count_render, parse_filter_lines, parse_render.
Qed.

Lemma inbox_shows_other fs a b ms p text :
  inbox_shows fs b ms → p = inbox_file dir a → b ≠ a → inbox_shows (<[p := text]> fs) b ms.
Proof.
  unfold inbox_shows. intros H -> Hne. rewrite lookup_insert_ne; [done|].
  intros Heq%inbox_file_inj. congruence.
Qed.

(** A write to an inbox shows in that inbox only. *)
Lemma shows_set_inbox fs v a ms :
  shows fs v → shows (<[inbox_file dir a := render ms]> fs) (set_inbox a ms v).
Proof.
  intros [H1 H2 H3 H4]. split; unfold file_shows, log_shows in *; simpl.
  - unfold inbox_file. by other_files.
  - unfold inbox_file. by other_files.
  - unfold inbox_file. by other_files.
  - intros b. case_bool_decide as Hb; [subst; right; by rewrite lookup_insert_eq|].
    by eapply inbox_shows_other.
Qed.

Lemma default_inbox fs v a :
  shows fs v → default "" (fs !! inbox_file dir a) = render (v_inbox v a).
Proof. intros Hs. by destruct (shows_inbox _ _ Hs a) as [[-> ->]| ->]. Qed.

Definition bus_message (from content pushed_at : string) (thread_id channel : option string) : InboxMessage :=
  {| im_pushed_at := pushed_at; im_from := from; im_content := content;
     im_thread_id := thread_id; im_channel := channel |}.

(** The limits, as [append_to_agent_inbox] tests them. *)
Lemma room_test ms m :
  (MAX_PENDING_MESSAGES <? Z.of_nat (length ms) + 1)
  || (MAX_TOTAL_INBOX_BYTES <? sat_u64 (str_len (render ms) + (str_len (msg_to_json m) + 1))) = false
  ↔ inbox_room (ms ++ [m]).
Proof.
  unfold inbox_room. rewrite render_snoc, length_app, orb_false_iff, !Z.ltb_ge.
  unfold sat_u64, u64_max, MAX_TOTAL_INBOX_BYTES, str_len. rewrite !str_length_app. simpl. lia.
Qed.

Lemma wp_append_inbox from target content pushed_at thread_id channel Q (X : BusError → view → Prop) v :
  is_safe_bus_token target = true →
  let ms := v_inbox v target in
  let m := bus_message from content pushed_at thread_id channel in
  (inbox_room (ms ++ [m]) →
     Q (inbox_file dir target, str_len (render (ms ++ [m]))) (set_inbox target (ms ++ [m]) v)
     ∧ io_err X (set_inbox target (ms ++ [m]) v)) →
  (¬ inbox_room (ms ++ [m]) → X (BusInboxFull (Z.of_nat (length ms)) (str_len (render ms))) v) →
  io_err X v →
  wp (append_to_agent_inbox mempal_home cwd from target content pushed_at thread_id channel) Q X v.
Proof.
  intros Ht ms m HQ Hfull HX. apply wp_bind, wp_lift. rewrite agent_inbox_path_dir by done.
  apply wp_bind, wp_sys_call; [|done]. apply wp_bind, wp_read_inbox_stats; [|done]. cbv beta iota zeta. fold ms.
  change (Build_InboxMessage _ _ _ _ _) with m.
  destruct (_ || _) eqn:Hroom.
  { apply wp_fail, Hfull. intros Hr%room_test. congruence. }
  apply room_test in Hroom.
  specialize (HQ Hroom) as [HQ HX'].
  assert (Hlast : ∀ w, w_fs w !! inbox_file dir target = Some (render (ms ++ [m])) →
            sees w (set_inbox target (ms ++ [m]) v) →
            let '(w', r) := (let! size := file_len (inbox_file dir target) in ret (inbox_file dir target, size)) w in
            ∃ v', sees w' v' ∧ match r with Ok a => Q a v' | Err e => X e v' end).
  { intros w Hl Hw. unfold bind, file_len, read_to_string, sys_call, bind. simpl.
    destruct (sys_error _) eqn:He; simpl; [eexists; split; [exact Hw|by eapply HX']|].
    rewrite Hl. simpl. by eexists. }
  intros w Hw. unfold bind at 1, fs_append, put_text. rewrite never_torn.
  destruct (sys_error _) eqn:He; [exists v; split; [done|by eapply HX]|].
  rewrite (default_inbox _ v) by exact Hw. fold ms.
  rewrite <- render_snoc. apply Hlast; simpl; [by rewrite lookup_insert_eq|]. by apply shows_set_inbox.
Qed.

(** A drain's file operations: the inbox moves aside, is read and removed. *)
Lemma wp_take_inbox {B} a (k0 : bus B) (k : string → bus B) Q (X : BusError → view → Prop) v :
  (v_inbox v a = [] → wp k0 Q X v) →
  wp (k (render (v_inbox v a))) Q X (set_inbox a [] v) →
  io_err X v → io_err X (set_inbox a [] v) →
  wp (let! renamed := rename (inbox_file dir a) (draining_file dir a) in
      if negb renamed then k0
      else let! raw := read_to_string (draining_file dir a) in
           let! _ := ignoring (remove_file (draining_file dir a)) in k raw) Q X v.
Proof.
  intros H0 Hk HX HX' w Hw. unfold bind at 1, rename.
  destruct (shows_inbox _ _ Hw a) as [[Hn He]|Hs]; [rewrite Hn; by apply H0|rewrite Hs].
  destruct (sys_error _) eqn:He; [exists v; split; [done|by eapply HX]|]. simpl.
  assert (Hgone : ∀ fs, (∀ q, (∀ b, q ≠ draining_file dir b) → q ≠ inbox_file dir a → fs !! q = w_fs w !! q) →
            fs !! inbox_file dir a = None → shows fs (set_inbox a [] v)).
  { intros fs Hfs Hnone. destruct Hw as [H1 H2 H3 H4].
    split; unfold file_shows, log_shows, inbox_shows in *; simpl.
    1-3: rewrite !Hfs; [done|intros b; by apply not_eq_sym, bus_file_not_inbox
                       |by apply not_eq_sym, bus_file_not_inbox].
    intros b. case_bool_decide as Hb; [subst; by left|].
    rewrite !Hfs; [done|intros ?; by apply not_eq_sym, draining_file_not_inbox|].
    intros Heq%inbox_file_inj. congruence. }
  unfold bind, read_to_string, sys_call, bind, ignoring, remove_file, bind, sys_call. simpl.
  destruct (sys_error (S _)) eqn:He1; simpl.
  { eexists; split; [|by eapply HX']. apply Hgone; intros; simpl.
    - rewrite lookup_insert_ne, lookup_delete_ne; by auto.
    - rewrite lookup_insert_ne, lookup_delete_eq; [done|apply draining_file_not_inbox]. }
  rewrite lookup_insert_eq. simpl. apply Hk. apply Hgone; simpl.
  - intros q H1 H2. destruct (sys_error (S (S _))); simpl; [|rewrite lookup_delete_ne by auto];
      by rewrite lookup_insert_ne, lookup_delete_ne by auto.
  - destruct (sys_error (S (S _))); simpl; [|rewrite lookup_delete_ne by apply draining_file_not_inbox];
      rewrite lookup_insert_ne, lookup_delete_eq; (done || apply draining_file_not_inbox).
Qed.
End logic.
