(* ===== verification/CoworkBusSafety.v ===== *)
(** * What the cowork bus guarantees

    The bus of [src/src/cowork/bus.rs] as a system of small steps that keep its
    registry, sessions, inboxes and log well formed; every operation is a sequence
    of such steps whichever of its system calls fail. On top: a delivery only moves
    forward, an acknowledgement is recorded once, a drain leaves nothing pending,
    and a send delivers to each of its targets once. *)

From Stdlib Require Import ZArith Lia String Ascii.
From stdpp Require Import base tactics list gmap strings numbers relations.
From S2P Require Import Prelude Order Text Rfc3339 Sqlite CoworkInbox CoworkBus CoworkBusLogic.
Open Scope Z_scope.
Open Scope rust_scope.

(** ** Replaying a log *)
Lemma replay_snoc log e : replay (log ++ [e]) = replay_event (replay log) e.
Proof. unfold replay. by rewrite foldl_app. Qed.

Abbreviation ids l := (ds_message_id <$> (l : list DeliveryStatus)).

(** What stays of a delivery. *)
Record same_delivery (d d' : DeliveryStatus) : Prop := {
  same_id : ds_message_id d' = ds_message_id d;
  same_type : ds_event_type d' = ds_event_type d;
  same_from : ds_from d' = ds_from d;
  same_target : ds_target d' = ds_target d;
  same_transport : ds_transport d' = ds_transport d;
  same_preview : ds_preview d' = ds_preview d;
  same_thread : ds_thread_id d' = ds_thread_id d;
  same_channel : ds_channel d' = ds_channel d;
  same_time : ds_delivered_at d' = ds_delivered_at d;
}.

(** The stages of a delivery. *)
Inductive stage_step : string → string → Prop :=
  | stage_drained : stage_step "pending" "drained"
  | stage_acked s : s = "pending" ∨ s = "drained" → stage_step s "acked".

Definition advances (d d' : DeliveryStatus) : Prop :=
  same_delivery d d' ∧ rtc stage_step (ds_status d) (ds_status d').

Definition all_advance (l l' : list DeliveryStatus) : Prop :=
  ∀ i d, l !! i = Some d → ∃ d', l' !! i = Some d' ∧ advances d d'.

#[export] Instance same_delivery_preorder : PreOrder same_delivery.
Proof. split; [by intros d|]. intros x y z [] []. split; congruence. Qed.

#[export] Instance advances_preorder : PreOrder advances.
Proof.
  split; [intros d; split; [done|by apply rtc_refl]|].
  intros x y z [? ?] [? ?]. split; [by etrans|by etrans].
Qed.

#[export] Instance all_advance_preorder : PreOrder all_advance.
Proof.
  split; [intros l i d Hd; exists d; split; [done|reflexivity]|].
  intros x y z H1 H2 i d Hd. destruct (H1 i d Hd) as (d' & Hd' & ?).
  destruct (H2 i d' Hd') as (d'' & Hd'' & ?). exists d''. split; [done|by etrans].
Qed.

Lemma all_advance_app l l' : all_advance l (l ++ l').
Proof. intros i d Hd. exists d. split; [by apply lookup_app_l_Some|reflexivity]. Qed.

Lemma set_delivery_same s at_ by_ d : same_delivery d (set_delivery s at_ by_ d).
Proof. by split. Qed.

Lemma all_advance_cons d d' l l' : advances d d' → all_advance l l' → all_advance (d :: l) (d' :: l').
Proof. intros Hd Hl [|i] x Hx; simpl in *; [simplify_eq; eauto|by apply Hl]. Qed.

Lemma mark_drained_advance target at_ n l : all_advance l (mark_drained target at_ n l).
Proof.
  revert n. induction l as [|d l IH]; intros n; [done|]. cbn [mark_drained].
  destruct (n =? 0); [reflexivity|]. destruct (pending_for target d) eqn:Ep.
  - apply all_advance_cons; [|apply IH]. split; [apply set_delivery_same|].
    apply andb_true_iff in Ep as [_ Ep%bool_decide_eq_true]. rewrite Ep. apply rtc_once. constructor.
  - apply all_advance_cons; [reflexivity|apply IH].
Qed.

Lemma mark_drained_ids target at_ n l : ids (mark_drained target at_ n l) = ids l.
Proof.
  revert n. induction l as [|d l IH]; intros n; [done|]. cbn [mark_drained].
  destruct (n =? 0); [done|]. destruct (pending_for target d); csimpl; by rewrite IH.
Qed.

Lemma alter_set_ids s at_ by_ (i : nat) (l : list DeliveryStatus) : ids (alter (set_delivery s at_ by_) i l) = ids l.
Proof. revert i. induction l as [|d l IH]; intros [|i]; csimpl; [done..|by rewrite IH]. Qed.

(** Events as the operations append them. *)
Record event_ok (log : list BusEvent) (e : BusEvent) : Prop := {
  send_one_target : ev_event_type e ∈ ["send"; "broadcast"] → ∃ t, ev_targets e = [t];
  ack_of_open : ev_event_type e = "ack" → ∃ id d,
    ev_details e !! "delivery_event_id" = Some id ∧ find_delivery id (replay log).1 = Some d
    ∧ ds_status d ≠ "failed" ∧ ds_status d ≠ "acked";
}.

Inductive log_ok : list BusEvent → Prop :=
  | log_ok_nil : log_ok []
  | log_ok_snoc log e : log_ok log → event_ok log e → log_ok (log ++ [e]).

(** The deliveries and their index agree with the log. *)
Record index_ok (log : list BusEvent) (acc : delivery_index) : Prop := {
  ids_logged : ids acc.1 ⊆ ev_event_id <$> log;
  ids_distinct : NoDup (ev_event_id <$> log) → NoDup (ids acc.1);
  index_points : ∀ id i, acc.2 !! id = Some i → ids acc.1 !! i = Some id;
  index_complete : ∀ id, id ∈ ids acc.1 → is_Some (acc.2 !! id);
  known_status : ∀ d, d ∈ acc.1 → ds_status d ∈ ["pending"; "drained"; "acked"; "failed"];
}.

(** Changing the stages keeps the index right. *)
Lemma index_ok_stage log e l l' index :
  index_ok log (l, index) → ids l' = ids l →
  (∀ d, d ∈ l' → ds_status d ∈ ["pending"; "drained"; "acked"; "failed"]) →
  index_ok (log ++ [e]) (l', index).
Proof.
  intros [H1 H2 H3 H4 H5] Hids Hst. simpl in *.
  split; simpl; try rewrite Hids; try done.
  - rewrite fmap_app. set_solver.
  - rewrite fmap_app. intros (? & _ & _)%NoDup_app. auto.
Qed.

Lemma known_status_advance l l' :
  (∀ d, d ∈ l → ds_status d ∈ ["pending"; "drained"; "acked"; "failed"]) →
  all_advance l l' → length l' = length l →
  ∀ d, d ∈ l' → ds_status d ∈ ["pending"; "drained"; "acked"; "failed"].
Proof.
  intros Hl Ha Hlen d' [i Hi]%list_elem_of_lookup.
  assert (is_Some (l !! i)) as [d Hd].
  { apply lookup_lt_is_Some. rewrite <- Hlen. by eapply lookup_lt_Some. }
  destruct (Ha i d Hd) as (d'' & Hd'' & [_ Hs]). simplify_eq.
  specialize (Hl d ltac:(by eapply list_elem_of_lookup_2)).
  revert Hl. induction Hs as [|x y z Hxy _ IH]; [done|]. intros _. apply IH. destruct Hxy; set_solver.
Qed.

Lemma find_delivery_Some id l d :
  find_delivery id l = Some d → ds_message_id d = id ∧ ∃ i, l !! i = Some d.
Proof.
  intros [Hin Hid]%List.find_some. apply bool_decide_eq_true in Hid. split; [done|].
  by apply list_elem_of_lookup, list_elem_of_In.
Qed.

(** With distinct identifiers the index and the search find the same delivery. *)
Lemma index_finds log acc id i d :
  index_ok log acc → NoDup (ev_event_id <$> log) →
  acc.2 !! id = Some i → find_delivery id acc.1 = Some d → acc.1 !! i = Some d.
Proof.
  intros Hok Hnd Hi (Hid & j & Hj)%find_delivery_Some.
  pose proof (index_points _ _ Hok _ _ Hi) as Hp. pose proof (ids_distinct _ _ Hok Hnd) as Hn.
  assert (Hj' : ids acc.1 !! j = Some id) by (rewrite list_lookup_fmap, Hj; simpl; congruence).
  by rewrite (NoDup_lookup _ _ _ _ Hn Hp Hj').
Qed.

(** The three effects of an event on the deliveries. *)
Inductive effect (log : list BusEvent) (e : BusEvent) (acc : delivery_index) : delivery_index → Prop :=
  | effect_none : effect log e acc acc
  | effect_send t :
      ev_event_type e ∈ ["send"; "broadcast"] → ev_targets e = [t] →
      effect log e acc (add_delivery e acc t)
  | effect_drain t n :
      ev_event_type e = "drain" → head (ev_targets e) = Some t →
      n = default 0 (ev_details e !! "drained_count" ≫= parse_u64) →
      effect log e acc (mark_drained t (ev_occurred_at e) n acc.1, acc.2)
  | effect_ack id i d :
      ev_details e !! "delivery_event_id" = Some id → acc.2 !! id = Some i →
      find_delivery id acc.1 = Some d → ds_status d ≠ "failed" → ds_status d ≠ "acked" →
      effect log e acc (alter (set_delivery "acked" (ev_occurred_at e) (ev_actor e)) i acc.1, acc.2).

Lemma send_type_only (x : string) : x ∈ ["send"; "broadcast"] → x ≠ "drain" ∧ x ≠ "ack".
Proof. rewrite !elem_of_cons. intros [->|[->|[]%elem_of_nil]]; done. Qed.

Lemma replay_effect log e : event_ok log e → effect log e (replay log) (replay (log ++ [e])).
Proof.
  intros [Hs Ha]. rewrite replay_snoc. unfold replay_event. destruct (replay log) as [l index] eqn:Er.
  destruct (bool_decide (ev_event_type e ∈ _)) eqn:Es; simpl.
  - apply bool_decide_eq_true in Es. destruct (Hs Es) as [t Ht].
    case_bool_decide; simpl.
    + rewrite Ht. simpl. by apply effect_send.
    + destruct (send_type_only _ Es) as [Hd Hk]. rewrite (bool_decide_false _ Hd), (bool_decide_false _ Hk).
      constructor.
  - apply bool_decide_eq_false in Es. case_bool_decide as Ed; simpl.
    + rewrite bool_decide_false with (P := ev_event_type e = "ack") by congruence.
      case_bool_decide; simpl; [|constructor]. destruct (ev_targets e) as [|t ts] eqn:Et; [constructor|].
      by eapply (effect_drain log e (l, index)); [|rewrite Et|].
    + case_bool_decide as Ea; simpl; [|constructor]. case_bool_decide; simpl; [|constructor].
      destruct (Ha Ea) as (id & d & Hid & Hf & ? & ?). rewrite Hid.
      destruct (index !! id) as [i|] eqn:Hi; [|constructor]. by eapply (effect_ack log e (l, index)).
Qed.

Lemma effect_index log e acc acc' :
  index_ok log acc → event_ok log e → effect log e acc acc' → index_ok (log ++ [e]) acc'.
Proof.
  intros Hok Heok Heff. destruct acc as [l index]. destruct Heff as [|t Ht Htg|t n|id i d].
  - by eapply index_ok_stage; [done..|apply Hok].
  - pose proof Hok as [H1 H2 H3 H4 H5]. unfold add_delivery. simpl in *.
    assert (Hfresh : NoDup (ev_event_id <$> (log ++ [e])) → ev_event_id e ∉ ids l).
    { rewrite fmap_app. intros (_ & Hd & _)%NoDup_app Hin. apply (Hd _ (H1 _ Hin)). simpl. set_solver. }
    assert (Hids : ids (l ++ [new_delivery e t]) = ids l ++ [ev_event_id e]) by by rewrite fmap_app.
    split; simpl; try rewrite Hids.
    + rewrite fmap_app. simpl. set_solver.
    + intros Hnd. apply NoDup_app. split; [|split].
      * apply H2. rewrite fmap_app in Hnd. by apply NoDup_app in Hnd as (? & _).
      * intros x Hx. specialize (Hfresh Hnd). set_solver.
      * apply NoDup_singleton.
    + intros id i [[<- <-]|[Hne Hi]]%lookup_insert_Some.
      * rewrite lookup_app_r by (by rewrite length_fmap). by rewrite length_fmap, Nat.sub_diag.
      * apply lookup_app_l_Some. by apply H3.
    + intros id [Hin|Hin]%elem_of_app; [|apply list_elem_of_singleton in Hin as ->; by rewrite lookup_insert_eq].
      destruct (decide (id = ev_event_id e)) as [->|]; [by rewrite lookup_insert_eq|].
      rewrite lookup_insert_ne by done. by apply H4.
    + intros d [Hd|Hd%list_elem_of_singleton]%elem_of_app; [by apply H5|]. subst. simpl.
      case_bool_decide; set_solver.
  - eapply index_ok_stage; [done|apply mark_drained_ids|].
    eapply known_status_advance; [apply Hok|apply mark_drained_advance|].
    simpl. by rewrite <- (length_fmap ds_message_id), mark_drained_ids, length_fmap.
  - eapply index_ok_stage; [done|apply alter_set_ids|]. intros x [j Hj]%list_elem_of_lookup. simpl in *.
    destruct (decide (j = i)) as [->|Hne].
    + rewrite list_lookup_alter_eq in Hj. apply fmap_Some in Hj as (y & _ & ->). simpl. set_solver.
    + rewrite list_lookup_alter_ne in Hj by done. apply Hok. simpl. by eapply list_elem_of_lookup_2.
Qed.

Lemma log_index log : log_ok log → index_ok log (replay log).
Proof.
  induction 1 as [|log e _ IH He]; [split; simpl; try set_solver; by constructor|].
  eapply effect_index; [done..|by apply replay_effect].
Qed.

Lemma effect_advance log e acc acc' :
  index_ok log acc → NoDup (ev_event_id <$> log) → effect log e acc acc' → all_advance acc.1 acc'.1.
Proof.
  intros Hok Hnd Heff. destruct Heff as [|t|t n|id i d Hid Hi Hf Hs1 Hs2]; simpl.
  - reflexivity.
  - apply all_advance_app.
  - apply mark_drained_advance.
  - intros j x Hj. destruct (decide (j = i)) as [->|Hne].
    + rewrite list_lookup_alter_eq, Hj. eexists. split; [done|].
      rewrite (index_finds log acc id i d Hok Hnd Hi Hf) in Hj. simplify_eq.
      split; [apply set_delivery_same|]. simpl. apply rtc_once. constructor.
      pose proof (known_status _ _ Hok x) as Hk.
      destruct (find_delivery_Some _ _ _ Hf) as (_ & k & Hk').
      specialize (Hk ltac:(by eapply list_elem_of_lookup_2)). set_solver.
    + rewrite list_lookup_alter_ne by done. exists x. split; [done|reflexivity].
Qed.

(** ** The bus as a system of small steps *)
Record agent_ok (id : string) (r : AgentRecord) : Prop := {
  agent_key : ar_agent_id r = id;
  agent_token : is_safe_bus_token id = true;
  agent_tool : is_safe_bus_token (ar_tool r) = true;
  agent_transport : ar_transport r = "inbox" ∨ ar_transport r = "tmux";
  agent_pane : ar_transport r = "tmux" → ∃ t, ar_tmux_target r = Some t ∧ trim t ≠ "";
}.

(** A list of registered agents: some, each once. *)
Record members_ok (reg : AgentRegistry) (agents : list string) : Prop := {
  members_some : agents ≠ [];
  members_distinct : NoDup agents;
  members_known : ∀ a, a ∈ agents → is_Some (reg_agents reg !! a);
}.

Record channel_ok (reg : AgentRegistry) (c : string) (r : ChannelRecord) : Prop := {
  channel_key : ch_channel r = c;
  channel_token : is_safe_bus_token c = true;
  channel_members : members_ok reg (ch_agents r);
}.

Record session_ok (reg : AgentRegistry) (id : string) (s : TeamSession) : Prop := {
  session_key : ts_session_id s = id;
  session_token : is_safe_bus_token id = true;
  session_members : members_ok reg (ts_agents s);
  session_channels_known : ∀ c, c ∈ ts_channels s → is_Some (reg_channels reg !! c);
  session_status : ts_status s ∈ ["active"; "paused"; "closed"];
}.

Section safety.
Context {E : BusEnv} {J : InboxJsonText} {JL : InboxJsonLaws} {EL : BusJsonLaws E} {C : CleanFailures E}.

Inductive micro (v : view) : view → Prop :=
  | micro_agent id r : agent_ok id r → micro v (set_reg (reg_insert id r (v_reg v)) v)
  | micro_channel c r :
      channel_ok (v_reg v) c r → micro v (set_reg (channel_insert c r (v_reg v)) v)
  | micro_session id s :
      session_ok (v_reg v) id s → micro v (set_sessions (<[id := s]> (v_sessions v)) v)
  | micro_push a m :
      inbox_room (v_inbox v a ++ [m]) → micro v (set_inbox a (v_inbox v a ++ [m]) v)
  | micro_take a : micro v (set_inbox a [] v)
  | micro_log e : event_ok (v_log v) e → micro v (add_event e v).

Record wf (v : view) : Prop := {
  wf_agents : ∀ id r, reg_agents (v_reg v) !! id = Some r → agent_ok id r;
  wf_channels : ∀ c r, reg_channels (v_reg v) !! c = Some r → channel_ok (v_reg v) c r;
  wf_sessions : ∀ id s, v_sessions v !! id = Some s → session_ok (v_reg v) id s;
  wf_inboxes : ∀ a, inbox_room (v_inbox v a);
  wf_log : log_ok (v_log v);
}.

(** Agents and channels are replaced, never removed. *)
Definition reg_grows (r r' : AgentRegistry) : Prop :=
  (∀ a, is_Some (reg_agents r !! a) → is_Some (reg_agents r' !! a))
  ∧ (∀ c, is_Some (reg_channels r !! c) → is_Some (reg_channels r' !! c)).

Lemma members_grow r r' l : reg_grows r r' → members_ok r l → members_ok r' l.
Proof. intros [Hg _] []. split; auto. Qed.

Lemma channel_grow r r' c x : reg_grows r r' → channel_ok r c x → channel_ok r' c x.
Proof. intros Hg []. split; eauto using members_grow. Qed.

Lemma session_grow r r' id s : reg_grows r r' → session_ok r id s → session_ok r' id s.
Proof. intros Hg []. split; eauto using members_grow. intros c Hc. by apply Hg; auto. Qed.

Lemma insert_grows {A} (m : gmap string A) k x a : is_Some (m !! a) → is_Some (<[k := x]> m !! a).
Proof.
  intros Ha. destruct (decide (a = k)) as [->|]; [by rewrite lookup_insert_eq|by rewrite lookup_insert_ne].
Qed.

Lemma no_bus_wf : wf no_bus.
Proof. split; simpl; try done. constructor. Qed.

Lemma micro_wf v v' : micro v v' → wf v → wf v'.
Proof.
  intros Hm [H1 H2 H3 H4 H5].
  destruct Hm as [id r Hr|c r Hr|id s Hs|a m Hroom|a|e He]; split; simpl; try done.
  - intros i x [[<- <-]|[_ ?]]%lookup_insert_Some; auto.
  - intros c x Hc. eapply channel_grow; [|by apply H2]. split; simpl; eauto using insert_grows.
  - intros i x Hi. eapply session_grow; [|by apply H3]. split; simpl; eauto using insert_grows.
  - intros i x [[<- <-]|[_ ?]]%lookup_insert_Some;
      (eapply channel_grow; [|eauto]); split; simpl; eauto using insert_grows.
  - intros i x Hi. eapply session_grow; [|by apply H3]. split; simpl; eauto using insert_grows.
  - intros i x [[<- <-]|[_ ?]]%lookup_insert_Some; auto.
  - intros b. by case_bool_decide; subst.
  - intros b. by case_bool_decide.
  - by constructor.
Qed.

Lemma micros_wf v v' : rtc micro v v' → wf v → wf v'.
Proof. induction 1; eauto using micro_wf. Qed.

Lemma micros_log v v' : rtc micro v v' → ∃ new, v_log v' = v_log v ++ new.
Proof.
  induction 1 as [v|v v1 v2 Hm _ [new IH]]; [exists []; by rewrite app_nil_r|].
  destruct Hm as [| | | | |e He]; simpl in *; eauto. exists (e :: new). by rewrite IH, <- app_assoc.
Qed.

(** Along the steps of a bus whose identifiers are distinct, deliveries advance. *)
Lemma micros_advance v v' :
  rtc micro v v' → wf v → NoDup (ev_event_id <$> v_log v') → all_advance (deliveries v) (deliveries v').
Proof.
  induction 1 as [v|v v1 v2 Hm Hr IH]; intros Hwf Hnd; [reflexivity|].
  transitivity (deliveries v1); [|by apply IH; [eapply micro_wf|]].
  destruct (micros_log _ _ Hr) as [new Hnew].
  destruct Hm as [| | | | |e He]; try reflexivity. unfold deliveries. simpl in *.
  eapply (effect_advance (v_log v) e); [apply log_index, Hwf| |by apply replay_effect].
  rewrite Hnew, !fmap_app, <- app_assoc in Hnd. by apply NoDup_app in Hnd as (? & _).
Qed.
End safety.

(** ** Validation *)
Lemma validate_token_ok e s : validate_token e s = Ok () ↔ is_safe_bus_token s = true.
Proof. unfold validate_token. by destruct (is_safe_bus_token s). Qed.

Lemma dedup_from_spec validate seen l out :
  dedup_from validate seen l = Ok out →
  NoDup out ∧ (∀ a, a ∈ out ↔ a ∈ l ∧ a ∉ seen) ∧ ∀ a, a ∈ l → validate a = Ok ().
Proof.
  revert seen out. induction l as [|x l IH]; intros seen out; simpl.
  { intros [= <-]. split; [constructor|]. split; [set_solver|set_solver]. }
  destruct (validate x) as [[]|] eqn:Hx; [|done]. case_bool_decide as Hs.
  - intros (Hn & Hi & Hv)%IH. split; [done|]. split; [intros a; rewrite Hi|]; set_solver.
  - destruct (dedup_from validate (x :: seen) l) as [more|] eqn:Hm; [|done]. intros [= <-].
    apply IH in Hm as (Hn & Hi & Hv). split; [|split].
    + constructor; [rewrite Hi; set_solver|done].
    + intros a. rewrite elem_of_cons, Hi. destruct (decide (a = x)); set_solver.
    + set_solver.
Qed.

Lemma dedup_targets_spec l out :
  dedup_targets l = Ok out →
  NoDup out ∧ (∀ a, a ∈ out ↔ a ∈ l) ∧ ∀ a, a ∈ out → is_safe_bus_token a = true.
Proof.
  intros (Hn & Hi & Hv)%dedup_from_spec. split; [done|].
  assert (Hi' : ∀ a, a ∈ out ↔ a ∈ l) by (intros a; rewrite Hi; set_solver).
  split; [done|]. intros a Ha%Hi'. by apply Hv, validate_token_ok in Ha.
Qed.

Lemma all_known_ok agents l : all_known agents l = Ok () → ∀ a, a ∈ l → is_Some (agents !! a).
Proof.
  induction l as [|x l IH]; simpl; [intros _ a Ha; by apply elem_of_nil in Ha|].
  case_bool_decide; [|done]. intros Hl a [->|]%elem_of_cons; auto.
Qed.

Lemma session_channels_ok known seen l out :
  session_channels known seen l = Ok out → ∀ c, c ∈ out → is_Some (known !! c).
Proof.
  revert seen out. induction l as [|x l IH]; intros seen out; simpl.
  { intros [= <-] c Hc. by apply elem_of_nil in Hc. }
  destruct (validate_channel x); [|done]. case_bool_decide; simpl; [|done]. case_bool_decide; [by apply IH|].
  destruct (session_channels known (x :: seen) l) as [more|] eqn:Hm; [|done]. intros [= <-] c.
  intros [->|Hc]%elem_of_cons; [done|]. by eapply IH.
Qed.

(** The records of [send]'s targets, in order. *)
Lemma target_records_ok agents l out :
  target_records agents l = Ok out → Forall2 (fun a r => agents !! a = Some r) l out.
Proof.
  revert out. induction l as [|x l IH]; intros out; simpl; [intros [= <-]; constructor|].
  destruct (validate_agent_id x); [|done]. destruct (agents !! x) as [r|] eqn:Hx; [|done].
  destruct (target_records agents l) as [more|]; [|done]. intros [= <-]. constructor; auto.
Qed.

(** ** Operations are sequences of steps *)
Inductive bus_op :=
  | OpRegister (request : RegisterAgentRequest)
  | OpHeartbeat (agent_id : string) (seen_at : option string)
  | OpSetChannel (channel : string) (agents : list string)
  | OpCreateSession (request : CreateSessionRequest)
  | OpUpdateSession (session_id status : string)
  | OpSend (request : SendRequest)
  | OpSendChannel (from channel message : string) (thread_id : option string)
  | OpDrain (agent_id : string)
  | OpAck (agent_id message_id : string).

Definition done_with {A} (m : bus A) : bus () := let! _ := m in ret ().

Definition run_bus_op {E : BusEnv} {J : InboxJsonText} (mempal_home : string) (cwd : path) (op : bus_op) : bus () :=
  match op with
  | OpRegister r => done_with (register_agent mempal_home cwd r)
  | OpHeartbeat a s => done_with (heartbeat_agent mempal_home cwd a s)
  | OpSetChannel c l => done_with (set_channel mempal_home cwd c l)
  | OpCreateSession r => done_with (create_session mempal_home cwd r)
  | OpUpdateSession i s => done_with (update_session_status mempal_home cwd i s)
  | OpSend r => done_with (send mempal_home cwd r)
  | OpSendChannel f c m t => done_with (send_channel mempal_home cwd f c m t)
  | OpDrain a => done_with (drain_agent mempal_home cwd a)
  | OpAck a m => done_with (ack_delivery mempal_home cwd a m)
  end.

Fixpoint bus_run {E : BusEnv} {J : InboxJsonText} (mempal_home : string) (cwd : path) (ops : list bus_op)
    (w : world) : world :=
  match ops with
  | [] => w
  | op :: rest => bus_run mempal_home cwd rest (run_bus_op mempal_home cwd op w).1
  end.

(** An event of [send]: to one target, delivered or failed. *)
Definition sent_to (target : string) (e : BusEvent) : Prop :=
  ev_event_type e ∈ ["send"; "broadcast"] ∧ ev_targets e = [target].

Definition drain_event (a : string) (count bytes : Z) (e : BusEvent) : Prop :=
  logged "drain" "drained" (Some a) [a] (Some "inbox") None
    (<["drained_count" := show count]> {["drained_bytes" := show bytes]}) e.

Definition ack_event (a id transport : string) (e : BusEvent) : Prop :=
  logged "ack" "acked" (Some a) [a] (Some transport) None {["delivery_event_id" := id]} e.

Definition io_fails `{E : BusEnv} : Prop := ∃ n s, sys_error n = Some s.

(** What the operations do to a bus, one effect at a time: an interface for the
    relations between views that they keep. [okreg] says which transports an agent
    may have. An inbox changes without its event only when a system call fails. *)
Class BusSteps `{E : BusEnv} `{J : InboxJsonText} (okreg : string → string → Prop) (R : view → view → Prop) : Prop := {
  bs_agent v id r :
    agent_ok id r → okreg id (ar_transport r) → rtc R v (set_reg (reg_insert id r (v_reg v)) v);
  bs_channel v c r :
    channel_ok (v_reg v) c r → rtc R v (set_reg (channel_insert c r (v_reg v)) v);
  bs_session v id s :
    session_ok (v_reg v) id s → rtc R v (set_sessions (<[id := s]> (v_sessions v)) v);
  bs_plain v e :
    ev_event_type e ∉ ["send"; "broadcast"; "ack"; "drain"] → rtc R v (add_event e v);
  bs_push v a m :
    io_fails → inbox_room (v_inbox v a ++ [m]) → rtc R v (set_inbox a (v_inbox v a ++ [m]) v);
  bs_sent v a m e :
    inbox_room (v_inbox v a ++ [m]) → sent_to a e → okreg a "inbox" →
    rtc R v (add_event e (set_inbox a (v_inbox v a ++ [m]) v));
  bs_tmux v a e : sent_to a e → okreg a "tmux" → rtc R v (add_event e v);
  bs_take v a : io_fails → rtc R v (set_inbox a [] v);
  bs_drained v a e :
    drain_event a (Z.of_nat (length (v_inbox v a))) (str_len (render (v_inbox v a))) e →
    rtc R v (add_event e (set_inbox a [] v));
  bs_ack v e a id t d :
    ack_event a id t e → find_delivery id (deliveries v) = Some d →
    ds_status d ≠ "failed" → ds_status d ≠ "acked" → rtc R v (add_event e v);
}.

Definition good `{J : InboxJsonText} (okreg : string → string → Prop) (v : view) : Prop :=
  wf v ∧ ∀ id r, reg_agents (v_reg v) !! id = Some r → okreg id (ar_transport r).

(** What the operation asks of the transports. *)
Definition op_ok (okreg : string → string → Prop) (op : bus_op) : Prop :=
  match op with
  | OpRegister r => okreg (rr_agent_id r) (rr_transport r)
  | _ => True
  end.

(** An event that is neither a delivery nor an acknowledgement is always in order. *)
Lemma plain_event_ok log e :
  ev_event_type e ∉ ["send"; "broadcast"] → ev_event_type e ≠ "ack" → event_ok log e.
Proof. intros Hs Ha. by split; intros. Qed.

Lemma sent_event_ok log a e : sent_to a e → event_ok log e.
Proof.
  intros [Hty Ht]. destruct (send_type_only _ Hty) as [_ Ha]. split; [eauto|done].
Qed.

Lemma ack_event_ok v a id t d e :
  ack_event a id t e → find_delivery id (deliveries v) = Some d →
  ds_status d ≠ "failed" → ds_status d ≠ "acked" → event_ok (v_log v) e.
Proof.
  intros He Hf H1 H2. split.
  - rewrite (lg_type _ _ _ _ _ _ _ _ He). intros Hin. by destruct (send_type_only _ Hin).
  - intros _. exists id, d. rewrite (lg_details _ _ _ _ _ _ _ _ He). by rewrite lookup_singleton_eq.
Qed.

#[export] Instance micro_steps `{E : BusEnv} `{J : InboxJsonText} : BusSteps (fun _ _ => True) micro.
Proof.
  split.
  - intros. apply rtc_once. by constructor.
  - intros. apply rtc_once. by constructor.
  - intros. apply rtc_once. by constructor.
  - intros v e He. rewrite !not_elem_of_cons in He. apply rtc_once, micro_log, plain_event_ok; [|tauto].
    rewrite !elem_of_cons. intros [|[|[]%elem_of_nil]]; tauto.
  - intros. apply rtc_once. by constructor.
  - intros v a m e Hr He _. eapply rtc_l; [by apply micro_push|]. eapply rtc_once, micro_log, sent_event_ok, He.
  - intros v a e He _. eapply rtc_once, micro_log, sent_event_ok, He.
  - intros. apply rtc_once. constructor.
  - intros v a e He. eapply rtc_l; [by apply micro_take|]. eapply rtc_once, micro_log, plain_event_ok;
      rewrite (lg_type _ _ _ _ _ _ _ _ He); [|done]. intros Hin. by destruct (send_type_only _ Hin).
  - intros. eapply rtc_once, micro_log, ack_event_ok; eauto.
Qed.

(** ** Delivering to one target *)
Definition send_event (request : SendRequest) (source target status transport : string) (e : BusEvent) : Prop :=
  ∃ details, logged (event_type (sr_operation request)) status (Some source) [target] (Some transport)
               (Some (message_preview (sr_message request))) (send_details request details) e.

Lemma event_type_send op : event_type op ∈ ["send"; "broadcast"] ∧ event_type op ≠ "ack".
Proof. destruct op; simpl; (split; [|done]); rewrite !elem_of_cons; auto. Qed.

Lemma send_event_to request source target status transport e :
  send_event request source target status transport e → sent_to target e.
Proof.
  intros [details He]. destruct (event_type_send (sr_operation request)) as [Hty _].
  split; [|apply He]. by rewrite (lg_type _ _ _ _ _ _ _ _ He).
Qed.

(** The message that [send] puts into an inbox. *)
Definition send_message (request : SendRequest) (source : AgentRecord) (pushed_at : string) : InboxMessage :=
  bus_message (ar_agent_id source) (sr_message request) pushed_at (sr_thread_id request) (sr_channel request).

Section rules.
Context {E : BusEnv} {J : InboxJsonText} {JL : InboxJsonLaws} {EL : BusJsonLaws E} {C : CleanFailures E}.
Context (mempal_home : string) (cwd : path) (dir : string).
Hypothesis Hdir : project_bus_dir mempal_home cwd = Ok dir.

Local Abbreviation wp m := (wp dir m).

Lemma wp_deliver request source pushed_at target (Q : DeliveryReport → view → Prop)
    (X : BusError → view → Prop) v :
  agent_ok (ar_agent_id target) target →
  let a := ar_agent_id target in
  let v1 := set_inbox a (v_inbox v a ++ [send_message request source pushed_at]) v in
  (ar_transport target = "inbox" → inbox_room (v_inbox v a ++ [send_message request source pushed_at]) →
     io_err X v1 ∧ ∀ e report, send_event request (ar_agent_id source) a "delivered" "inbox" e →
       report = report_of request (ev_event_id e) target "inbox" (Some (inbox_file dir a))
                  (Some (str_len (render (v_inbox v1 a)))) None →
       Q report (add_event e v1)) →
  (ar_transport target = "inbox" → ¬ inbox_room (v_inbox v a ++ [send_message request source pushed_at]) →
     ∀ e, X e v) →
  (ar_transport target = "tmux" → (∀ err, X err v) ∧ ∀ e report,
     (send_event request (ar_agent_id source) a "failed" "tmux" e → ∀ err, X err (add_event e v))
     ∧ (send_event request (ar_agent_id source) a "delivered" "tmux" e →
        report = report_of request (ev_event_id e) target "tmux" None None (ar_tmux_target target) →
        Q report (add_event e v))) →
  io_err X v →
  wp (deliver mempal_home cwd request source pushed_at target) Q X v.
Proof.
  intros [_ Htok _ Htr Hpane] a v1 Hin Hfull Htmux HX. unfold deliver.
  destruct Htr as [Ht|Ht]; rewrite Ht; simpl.
  - apply wp_bind. eapply wp_append_inbox; [exact Hdir|exact Htok| |intros Hr; by apply Hfull|done].
    fold a. change (bus_message _ _ _ _ _) with (send_message request source pushed_at). intros Hroom.
    destruct (Hin Ht Hroom) as [HX1 HQ]. split; [|exact HX1]. apply wp_bind.
    eapply wp_append_bus_event; [exact Hdir| |exact HX1]. intros e He. apply wp_ret. eapply HQ.
    + eexists. exact He.
    + unfold v1. simpl. by rewrite bool_decide_true.
  - destruct (Hpane Ht) as (pane & Hp & _). destruct (Htmux Ht) as [HX1 HQ]. rewrite Hp. intros w Hw.
    assert (Hsend : ∃ r, send_tmux (ar_agent_id source) (ar_agent_id target) pane (sr_message request) w = (tick w, r)).
    { unfold send_tmux, bind, tmux. destruct (tmux_run _ _) as [[[| |]| |] ?]; simpl; eauto. }
    destruct Hsend as [[[]|err] ->].
    + eapply wp_bind; [|exact Hw]. eapply wp_append_bus_event; [exact Hdir| |done].
      intros e He. apply wp_ret. eapply HQ; [by eexists|]. by rewrite Hp.
    + pose proof (wp_append_bus_event mempal_home cwd dir Hdir (event_type (sr_operation request)) "failed"
        (Some (ar_agent_id source)) [ar_agent_id target] (Some "tmux") (Some (message_preview (sr_message request)))
        (send_details request (<["tmux_target" := pane]> {["error" := error_text err]}))
        (fun _ v' => X err v') (fun _ v' => X err v') v) as Hev.
      specialize (Hev ltac:(intros e He; eapply (HQ e (report_of request "" target "" None None None)); by eexists)
        ltac:(by intros ???) (tick w) Hw).
      destruct (append_bus_event _ _ _ _ _ _ _ _ _ _) as [w2 [ev|err2]]; destruct Hev as (v' & ? & ?); by exists v'.
Qed.

(** ** Draining *)
Lemma shows_set_empty fs v a : v_inbox v a = [] → shows dir fs v → shows dir fs (set_inbox a [] v).
Proof.
  intros He [H1 H2 H3 H4]. split; try done. intros b. simpl. case_bool_decide; [subst; by rewrite <- He|done].
Qed.

Lemma wp_drain_agent a (Q : list InboxMessage → view → Prop) (X : BusError → view → Prop) v :
  (∀ e, (∀ s, e ≠ BusIo s) → X e v) → io_err X v → io_err X (set_inbox a [] v) →
  (is_safe_bus_token a = true → is_Some (reg_agents (v_reg v) !! a) → ∀ e,
     drain_event a (Z.of_nat (length (v_inbox v a))) (str_len (render (v_inbox v a))) e →
     Q (v_inbox v a) (add_event e (set_inbox a [] v))) →
  wp (drain_agent mempal_home cwd a) Q X v.
Proof.
  intros HXv HX HX' HQ. unfold drain_agent. apply wp_bind, wp_lift.
  destruct (validate_agent_id a) as [[]|e] eqn:Hv.
  2: { apply HXv. unfold validate_agent_id, validate_token in Hv. by destruct (is_safe_bus_token a); simplify_eq. }
  apply validate_token_ok in Hv. apply wp_bind. eapply wp_load_registry; [exact Hdir| |done].
  case_bool_decide as Hreg; simpl; [|by apply wp_fail, HXv].
  apply wp_bind, wp_lift. erewrite agent_stem_dir by done.
  assert (Hev : ∀ count bytes ms, count = Z.of_nat (length (v_inbox v a)) → bytes = str_len (render (v_inbox v a)) →
    ms = v_inbox v a →
    wp (let! _ := append_drain_event mempal_home cwd a count bytes in ret ms) Q X (set_inbox a [] v)).
  { intros count bytes ms -> -> ->. apply wp_bind. unfold append_drain_event. eapply wp_append_bus_event; [exact Hdir| |done].
    intros e He. apply wp_ret. by apply HQ. }
  apply (wp_take_inbox dir a _ (fun raw =>
    let! _ := append_drain_event mempal_home cwd a (Z.of_nat (length (parse_lines (str_lines raw)))) (str_len raw) in
    ret (parse_lines (str_lines raw)))); [|by apply Hev; rewrite ?parse_render|done..].
  intros He w Hw. apply (shows_set_empty _ _ a) in Hw; [|done].
  revert w Hw. by apply Hev; rewrite He.
Qed.

(** ** Acknowledging *)
(** An acknowledgement ends where it began, or has found an open delivery of the
    agent and logged it. *)
Lemma wp_ack_delivery a id (Q : DeliveryStatus → view → Prop) (X : BusError → view → Prop) v :
  (∀ e, X e v) →
  (∀ d, find_delivery id (deliveries v) = Some d → ds_target d = a → ds_status d = "acked" →
     ∀ d', find_delivery id (List.filter (fun d => bool_decide (ds_target d = a)) (deliveries v)) = Some d' →
     Q d' v) →
  (∀ d e, find_delivery id (deliveries v) = Some d → ds_target d = a →
     ds_status d ≠ "failed" → ds_status d ≠ "acked" → ack_event a id (ds_transport d) e →
     (∀ err, X err (add_event e v)) ∧
     ∀ d', find_delivery id (List.filter (fun d => bool_decide (ds_target d = a)) (deliveries (add_event e v)))
             = Some d' → Q d' (add_event e v)) →
  wp (ack_delivery mempal_home cwd a id) Q X v.
Proof.
  intros HX Hacked Hopen. assert (HX' : io_err X v) by (by intros ???).
  unfold ack_delivery. apply wp_bind, wp_lift.
  destruct (validate_agent_id a) as [[]|e] eqn:Hv; [|done].
  apply wp_bind. eapply wp_load_registry; [exact Hdir| |done].
  case_bool_decide; simpl; [|by apply wp_fail]. apply wp_bind.
  eapply wp_list_delivery_statuses; [exact Hdir| |done|done].
  destruct (find_delivery id (deliveries v)) as [d|] eqn:Hf; [|by apply wp_fail].
  case_bool_decide as Ht; simpl; [|by apply wp_fail].
  case_bool_decide as Hs1; [by apply wp_fail|].
  assert (Hlast : ∀ v1, (∀ err, X err v1) →
    (∀ d', find_delivery id (List.filter (fun d => bool_decide (ds_target d = a)) (deliveries v1)) = Some d' → Q d' v1) →
    wp (let! mine := list_delivery_statuses mempal_home cwd (Some a) in
        match find_delivery id mine with None => fail (UnknownDelivery id) | Some d => ret d end) Q X v1).
  { intros v1 H1 H2. apply wp_bind. eapply wp_list_delivery_statuses; [exact Hdir| |by intros ???|done].
    cbv beta. destruct (find_delivery id (List.filter _ (deliveries v1))) eqn:Hm; [by apply wp_ret, H2|by apply wp_fail]. }
  apply wp_bind. case_bool_decide as Hs2; [apply wp_ret, Hlast; eauto|].
  apply wp_bind. eapply wp_append_bus_event; [exact Hdir| |done].
  intros e He. destruct (Hopen d e eq_refl Ht Hs1 Hs2 He) as [H1 H2]. apply wp_ret, Hlast; eauto.
Qed.

End rules.

(** ** Operations keep the steps *)
Section refinement.
Context {E : BusEnv} {J : InboxJsonText} {JL : InboxJsonLaws} {EL : BusJsonLaws E} {C : CleanFailures E}.
Context (mempal_home : string) (cwd : path) (dir : string).
Hypothesis Hdir : project_bus_dir mempal_home cwd = Ok dir.
Context (okreg : string → string → Prop) (R : view → view → Prop) {S : BusSteps okreg R}.

Local Abbreviation wp m := (wp dir m).

(** From [v0], the bus has got to [v] by small steps. *)
Definition after {A} (v0 : view) (_ : A) (v : view) : Prop := rtc R v0 v.

Lemma io_after v0 v : rtc R v0 v → io_err (after v0) v.
Proof. by intros H n s _. Qed.

Lemma wp_plain_event type status actor targets transport preview details
    (Q : BusEvent → view → Prop) v0 v :
  type ∉ ["send"; "broadcast"; "ack"; "drain"] → rtc R v0 v →
  (∀ e, logged type status actor targets transport preview details e →
     rtc R v0 (add_event e v) → Q e (add_event e v)) →
  wp (append_bus_event mempal_home cwd type status actor targets transport preview details) Q (after v0) v.
Proof.
  intros Hty Hv HQ. eapply wp_append_bus_event; [exact Hdir| |by apply io_after].
  intros e He. apply HQ; [done|]. etrans; [exact Hv|]. apply bs_plain. by rewrite (lg_type _ _ _ _ _ _ _ _ He).
Qed.

(** A check that stops the operation where it stands. *)
Ltac checked H :=
  apply wp_bind, wp_lift;
  match goal with |- match ?r with Ok _ => _ | Err _ => _ end => destruct r eqn:H end;
  [|assumption].
Ltac loaded_registry := apply wp_bind; eapply wp_load_registry; [exact Hdir| |by apply io_after].
Ltac loaded_sessions := apply wp_bind; eapply wp_load_sessions; [exact Hdir| |by apply io_after].
Ltac clocked t := apply wp_bind, wp_now_text; intros t.

Lemma register_steps request v :
  okreg (rr_agent_id request) (rr_transport request) →
  wp (register_agent mempal_home cwd request) (after v) (after v) v.
Proof.
  intros Hokreg. pose proof (rtc_refl R v : after v tt v) as Hr. unfold register_agent.
  checked Hid. checked Htool.
  destruct (negb _) eqn:Htr; [by apply wp_fail|]. apply negb_false_iff, bool_decide_eq_true in Htr.
  destruct (_ && _) eqn:Hpane; [by apply wp_fail|].
  clocked now. loaded_registry. set (record := Build_AgentRecord _ _ _ _ _ _ _).
  apply wp_bind. eapply wp_save_registry; [exact Hdir| |by apply io_after].
  assert (Hok : agent_ok (rr_agent_id request) record).
  { split; simpl; [done|by destruct a; apply validate_token_ok in Hid|
                    by destruct a0; apply validate_token_ok in Htool| |].
    - rewrite !elem_of_cons in Htr. destruct Htr as [|[|[]%elem_of_nil]]; auto.
    - intros Ht. rewrite Ht in Hpane. simpl in Hpane.
      destruct (rr_tmux_target request) as [t|]; simpl in Hpane; [|done]. exists t. split; [done|].
      by destruct (trim t). }
  apply wp_bind, wp_plain_event; [by rewrite !elem_of_cons; intros [|[|[|[|[]%elem_of_nil]]]]| |].
  - by apply (bs_agent v (rr_agent_id request) record).
  - intros e _ He. by apply wp_ret.
Qed.

Lemma heartbeat_steps agent_id seen_at v :
  good okreg v → wp (heartbeat_agent mempal_home cwd agent_id seen_at) (after v) (after v) v.
Proof.
  intros Hwf. pose proof (rtc_refl R v : after v tt v) as Hr. unfold heartbeat_agent. checked Hid.
  apply wp_bind.
  assert (Hk : ∀ seen : string, wp (let! registry := load_registry mempal_home cwd in
      match reg_agents registry !! agent_id with
      | None => fail (UnknownAgent agent_id)
      | Some old =>
          let record := {| ar_agent_id := ar_agent_id old; ar_tool := ar_tool old;
                           ar_transport := ar_transport old; ar_tmux_target := ar_tmux_target old;
                           ar_registered_at := ar_registered_at old; ar_updated_at := seen;
                           ar_last_seen_at := Some seen |} in
          let! _ := save_registry mempal_home cwd
                      {| reg_agents := <[agent_id := record]> (reg_agents registry);
                         reg_channels := reg_channels registry |} in
          let! _ := append_bus_event mempal_home cwd "heartbeat" "seen" (Some agent_id) [agent_id]
                      (Some (ar_transport record)) None {["last_seen_at" := seen]} in
          ret record
      end) (after v) (after v) v).
  { intros seen. loaded_registry. destruct (reg_agents (v_reg v) !! agent_id) as [old|] eqn:Ho; [|by apply wp_fail].
    set (record := Build_AgentRecord _ _ _ _ _ _ _). cbv zeta.
    apply wp_bind. eapply wp_save_registry; [exact Hdir| |by apply io_after].
    apply wp_bind, wp_plain_event; [by rewrite !elem_of_cons; intros [|[|[|[|[]%elem_of_nil]]]]| |].
    - apply (bs_agent v agent_id record); [|by apply (proj2 Hwf _ _ Ho)].
      destruct (wf_agents _ (proj1 Hwf) _ _ Ho). by split.
    - intros e _ He. by apply wp_ret. }
  destruct seen_at as [t|]; [|apply wp_now_text; intros n; apply Hk].
  destruct (parse_rfc3339 t); [apply wp_ret, Hk|by apply wp_fail].
Qed.

Lemma set_channel_steps channel agents v :
  wp (set_channel mempal_home cwd channel agents) (after v) (after v) v.
Proof.
  pose proof (rtc_refl R v : after v tt v) as Hr. unfold set_channel.
  checked Hc. checked Hd. destruct (bool_decide _) eqn:Hne; [by apply wp_fail|].
  apply bool_decide_eq_false in Hne. loaded_registry. checked Hk. clocked now.
  set (record := Build_ChannelRecord _ _ _). apply wp_bind. eapply wp_save_registry; [exact Hdir| |by apply io_after].
  apply wp_bind, wp_plain_event; [by rewrite !elem_of_cons; intros [|[|[|[|[]%elem_of_nil]]]]| |].
  - apply (bs_channel v channel record).
    destruct (dedup_targets_spec _ _ Hd) as (Hn & _ & _). destruct a, a1.
    split; simpl; [done|by apply validate_token_ok in Hc|]. split; [done..|by apply all_known_ok].
  - intros e _ He. by apply wp_ret.
Qed.

Lemma create_session_steps request v :
  wp (create_session mempal_home cwd request) (after v) (after v) v.
Proof.
  pose proof (rtc_refl R v : after v tt v) as Hr. unfold create_session.
  checked Hid. checked Hth. checked Hd. destruct (bool_decide _) eqn:Hne; [by apply wp_fail|].
  apply bool_decide_eq_false in Hne. loaded_registry. checked Hk. checked Hch. clocked now. loaded_sessions.
  set (session := Build_TeamSession _ _ _ _ _ _ _ _ _).
  apply wp_bind. eapply wp_save_sessions; [exact Hdir| |by apply io_after].
  apply wp_bind, wp_plain_event; [by rewrite !elem_of_cons; intros [|[|[|[|[]%elem_of_nil]]]]| |].
  - apply (bs_session v (cs_session_id request) session).
    destruct (dedup_targets_spec _ _ Hd) as (Hn & _ & _). destruct a, a2.
    split; simpl; [done|by apply validate_token_ok in Hid| | |set_solver].
    + split; [done..|by apply all_known_ok].
    + by eapply session_channels_ok.
  - intros e _ He. by apply wp_ret.
Qed.

Lemma update_session_steps session_id status v :
  good okreg v → wp (update_session_status mempal_home cwd session_id status) (after v) (after v) v.
Proof.
  intros Hwf. pose proof (rtc_refl R v : after v tt v) as Hr. unfold update_session_status.
  checked Hid. checked Hst. loaded_sessions. destruct (v_sessions v !! session_id) as [old|] eqn:Ho; [|by apply wp_fail].
  clocked now. set (session := Build_TeamSession _ _ _ _ _ _ _ _ _). cbv zeta.
  apply wp_bind. eapply wp_save_sessions; [exact Hdir| |by apply io_after].
  apply wp_bind, wp_plain_event; [by rewrite !elem_of_cons; intros [|[|[|[|[]%elem_of_nil]]]]| |].
  - apply (bs_session v session_id session).
    destruct (wf_sessions _ (proj1 Hwf) _ _ Ho). split; try done. simpl.
    unfold validate_session_status in Hst. by case_bool_decide.
  - intros e _ He. by apply wp_ret.
Qed.

Lemma deliver_steps request source pushed_at target v0 v :
  agent_ok (ar_agent_id target) target → okreg (ar_agent_id target) (ar_transport target) → rtc R v0 v →
  wp (deliver mempal_home cwd request source pushed_at target) (after v0) (after v0) v.
Proof.
  intros Hok Hreg Hr. eapply wp_deliver; [exact Hdir|done| | | |by apply io_after].
  - intros Ht Hroom. rewrite Ht in Hreg. split.
    + intros n s Hio. unfold after. etrans; [exact Hr|]. apply bs_push; [by exists n, s|done].
    + intros e report He _. unfold after. etrans; [exact Hr|]. apply bs_sent; eauto using send_event_to.
  - done.
  - intros Ht. rewrite Ht in Hreg. split; [done|]. intros e report. split; intros He; intros;
      (unfold after; etrans; [exact Hr|]); eapply bs_tmux; eauto using send_event_to.
Qed.

Lemma deliver_all_steps request source pushed_at targets v0 v :
  Forall (fun r => agent_ok (ar_agent_id r) r ∧ okreg (ar_agent_id r) (ar_transport r)) targets → rtc R v0 v →
  wp (deliver_all mempal_home cwd request source pushed_at targets) (after v0) (after v0) v.
Proof.
  intros Hok. revert v. induction Hok as [|t targets [Ht Ht'] _ IH]; intros v Hr; [by apply wp_ret|].
  cbn [deliver_all]. apply wp_bind. eapply wp_mono; [by apply deliver_steps| |done].
  intros report v1 H1. apply wp_bind. eapply wp_mono; [by apply IH| |done]. intros more v2 H2. by apply wp_ret.
Qed.

Lemma wf_target_records v l out :
  good okreg v → target_records (reg_agents (v_reg v)) l = Ok out →
  Forall (fun r => agent_ok (ar_agent_id r) r ∧ okreg (ar_agent_id r) (ar_transport r)) out ∧ (ar_agent_id <$> out) = l.
Proof.
  intros [Hwf Hreg] Hl%target_records_ok. induction Hl as [|a r l out Ha _ [IH1 IH2]]; [done|].
  pose proof (wf_agents _ Hwf _ _ Ha) as Hok. pose proof (agent_key _ _ Hok) as Hk.
  split; [constructor; [rewrite Hk; split; [done|by apply Hreg]|done]|]. csimpl. by rewrite Hk, IH2.
Qed.

Lemma send_steps request v0 v :
  rtc R v0 v → good okreg v → wp (send mempal_home cwd request) (after v0) (after v0) v.
Proof.
  intros Hr Hwf. assert (Ha : after v0 tt v) by done. unfold send. checked H1. checked H2. checked H3.
  destruct (_ <? _); [by apply wp_fail|]. checked H4. destruct (bool_decide _); [by apply wp_fail|].
  loaded_registry. destruct (reg_agents (v_reg v) !! sr_from request) as [source|]; [|by apply wp_fail].
  checked H5. clocked now. apply deliver_all_steps; [|done]. by eapply wf_target_records.
Qed.

Lemma send_channel_steps from channel message thread_id v :
  good okreg v → wp (send_channel mempal_home cwd from channel message thread_id) (after v) (after v) v.
Proof.
  intros Hwf. pose proof (rtc_refl R v : after v tt v) as Hr. unfold send_channel. checked H1.
  loaded_registry. destruct (reg_channels (v_reg v) !! channel); [|by apply wp_fail]. by apply send_steps.
Qed.

Lemma drain_steps a v : wp (drain_agent mempal_home cwd a) (after v) (after v) v.
Proof.
  eapply wp_drain_agent; [exact Hdir|by intros; apply rtc_refl|by apply io_after, rtc_refl| |].
  - intros n s Hio. apply bs_take. by exists n, s.
  - intros _ _ e He. by apply bs_drained.
Qed.

Lemma ack_steps a id v : wp (ack_delivery mempal_home cwd a id) (after v) (after v) v.
Proof.
  eapply wp_ack_delivery; [exact Hdir|intros; apply rtc_refl|intros; apply rtc_refl|].
  intros d e Hf Ht Hs1 Hs2 He. assert (rtc R v (add_event e v)); [|done]. by eapply bs_ack.
Qed.

(** Every operation, whatever it returns, is a sequence of small steps. *)
Lemma run_bus_op_steps op v : op_ok okreg op → good okreg v → wp (run_bus_op mempal_home cwd op) (after v) (after v) v.
Proof.
  intros Hop Hwf.
  assert (Hd : ∀ A (m : bus A), wp m (after v) (after v) v → wp (done_with m) (after v) (after v) v).
  { intros A m Hm. apply wp_bind. eapply wp_mono; [exact Hm| |done]. intros a v' H. by apply wp_ret. }
  destruct op; apply Hd; eauto using register_steps, heartbeat_steps, set_channel_steps,
    create_session_steps, update_session_steps, send_channel_steps, drain_steps, ack_steps.
  apply send_steps; [apply rtc_refl|done].
Qed.

Lemma bus_run_steps ops w v :
  (∀ v v', R v v' → good okreg v → good okreg v') → Forall (op_ok okreg) ops →
  sees dir w v → good okreg v → ∃ v', sees dir (bus_run mempal_home cwd ops w) v' ∧ rtc R v v'.
Proof.
  intros HR Hops. revert w v. induction Hops as [|op ops Hop _ IH]; intros w v Hw Hg;
    [exists v; by split; [|apply rtc_refl]|].
  simpl. pose proof (run_bus_op_steps op v Hop Hg w Hw) as Hstep.
  destruct (run_bus_op _ _ op w) as [w1 r]. destruct Hstep as (v1 & Hw1 & Hr).
  assert (Hr1 : rtc R v v1) by (by destruct r).
  destruct (IH w1 v1 Hw1) as (v2 & Hw2 & Hr2).
  { clear -HR Hr1 Hg. induction Hr1; eauto. }
  exists v2. split; [done|by etrans].
Qed.
End refinement.
