(* ===== verification/CoworkBusSystem.v ===== *)
(** * Runs of the cowork bus

    Any sequence of the operations of [src/src/cowork/bus.rs], from a project that
    has no bus yet: the bus stays well formed, deliveries only advance, and what
    draining, sending and acknowledging do to them. An instance of the environment,
    a story on it, and what the code also allows. *)

From Stdlib Require Import ZArith Lia String Ascii.
From stdpp Require Import base tactics list gmap strings numbers relations.
From S2P Require Import Prelude Order Text Rfc3339 Sqlite CoworkInbox CoworkBus CoworkBusLogic CoworkBusSafety.
Open Scope Z_scope.
Open Scope rust_scope.

(** ** Numerals are read back *)
Lemma parse_digits_app acc s t :
  parse_digits acc (s +:+ t) = parse_digits acc s ≫= fun a => parse_digits a t.
Proof.
  revert acc. induction s as [|c s IH]; intros acc; autorewrite with text; [done|]. simpl.
  destruct (digit_of c); [apply IH|done].
Qed.

Lemma parse_digits_print acc w n :
  0 <= n → parse_digits acc (digits 10 w n) = Some (acc * 10 ^ Z.of_nat w + n mod 10 ^ Z.of_nat w).
Proof.
  revert n. induction w as [|w IH]; intros n Hn; simpl digits.
  { simpl. rewrite Z.mod_1_r. f_equal. lia. }
  rewrite parse_digits_app, IH by (apply Z.div_pos; lia). simpl.
  destruct (digit_char_spec (n mod 10)) as [-> _]; [apply Z.mod_pos_bound; lia|]. f_equal.
  rewrite Nat2Z.inj_succ, Z.pow_succ_r by lia.
  rewrite (Z.mul_comm 10 (10 ^ _)), (Z.mul_comm (10 ^ _) 10), Z.rem_mul_r by lia. lia.
Qed.

Lemma parse_u64_show n : 0 <= n <= u64_max → parse_u64 (show n) = Some n.
Proof.
  intros Hn. unfold show, fmt. set (w := Nat.max _ _).
  pose proof (fmt_enough 10 1 n ltac:(lia) ltac:(lia)) as Hw. fold w in Hw.
  pose proof (parse_digits_print 0 w n ltac:(lia)) as Hp. rewrite Z.mod_small in Hp by lia.
  assert (Hlen : String.length (digits 10 w n) = w) by apply digits_length.
  destruct (digits 10 w n) as [|c rest]; [simpl in Hlen; lia|]. unfold parse_u64.
  destruct (Ascii.eqb_spec c "+") as [->|_]; [done|]. unfold parse_nat. rewrite Hp. simpl.
  by apply try_u64_Some.
Qed.

(** No file of this bus exists. *)
Definition fresh_bus (dir : string) (w : world) : Prop := ∀ name, w_fs w !! (dir +:+ name) = None.

Section system.
Context {E : BusEnv} {J : InboxJsonText} {JL : InboxJsonLaws} {EL : BusJsonLaws E} {C : CleanFailures E}.
Context (mempal_home : string) (cwd : path) (dir : string).
Hypothesis Hdir : project_bus_dir mempal_home cwd = Ok dir.

Lemma fresh_sees w : fresh_bus dir w → sees dir w no_bus.
Proof.
  intros Hf. split; [left|left|left|]; try (split; [apply Hf|done]).
  intros a. left. split; [|done]. unfold inbox_file. rewrite str_app_assoc. apply Hf.
Qed.

(** A bus in use, after some operations on a fresh one. *)
Definition in_use (w : world) : Prop :=
  ∃ w0 ops, fresh_bus dir w0 ∧ w = bus_run mempal_home cwd ops w0.

Lemma in_use_sees w : in_use w → ∃ v, sees dir w v ∧ rtc micro no_bus v ∧ wf v.
Proof.
  intros (w0 & ops & Hf & ->).
  destruct (bus_run_steps mempal_home cwd dir Hdir (fun _ _ => True) micro ops w0 no_bus) as (v & Hv & Hr).
  { intros v v' Hm [Hwf _]. split; [eapply micro_wf; eassumption|done]. }
  { by apply Forall_true; intros []; simpl. }
  { by apply fresh_sees. }
  { split; [apply no_bus_wf|done]. }
  exists v. split; [done|]. split; [done|]. eapply micros_wf; [done|apply no_bus_wf].
Qed.

Lemma in_use_run w ops : in_use w → in_use (bus_run mempal_home cwd ops w).
Proof.
  intros (w0 & ops0 & Hf & ->). exists w0, (ops0 ++ ops)%list. split; [done|].
  clear Hf. revert w0. induction ops0 as [|op ops0 IH]; intros w0; [done|]. simpl. apply IH.
Qed.

(** What the code reads is what the view shows. *)
Lemma listed_events limit w v w' l :
  sees dir w v → list_events mempal_home cwd limit w = (w', Ok l) →
  l = match limit with Some n => keep_last n (v_log v) | None => v_log v end.
Proof.
  intros Hw Hl.
  assert (H : wp dir (list_events mempal_home cwd limit)
    (fun x _ => x = match limit with Some n => keep_last n (v_log v) | None => v_log v end) (fun _ _ => True) v)
    by (by eapply wp_list_events; [exact Hdir| |intros ???]).
  specialize (H w Hw). rewrite Hl in H. by destruct H as (_ & _ & ->).
Qed.

Lemma listed_deliveries w v w' l :
  sees dir w v → list_delivery_statuses mempal_home cwd None w = (w', Ok l) → l = deliveries v.
Proof.
  intros Hw Hl.
  assert (H : wp dir (list_delivery_statuses mempal_home cwd None) (fun x _ => x = deliveries v) (fun _ _ => True) v)
    by (by eapply wp_list_delivery_statuses; [exact Hdir| |intros ???|]).
  specialize (H w Hw). rewrite Hl in H. by destruct H as (_ & _ & ->).
Qed.

Definition distinct_ids (w : world) : Prop :=
  ∃ w' events, list_events mempal_home cwd None w = (w', Ok events) ∧ NoDup (ev_event_id <$> events).

Lemma distinct_ids_log w v : sees dir w v → distinct_ids w → NoDup (ev_event_id <$> v_log v).
Proof. intros Hw (w' & events & Hl & Hnd). by rewrite <- (listed_events _ _ _ _ _ Hw Hl). Qed.

(** ** Pending deliveries *)
Definition pending_count (a : string) (l : list DeliveryStatus) : Z := count_if (pending_for a) l.

Lemma pending_count_cons a d l :
  pending_count a (d :: l) = (if pending_for a d then 1 else 0) + pending_count a l.
Proof. unfold pending_count, count_if. simpl. destruct (pending_for a d); simpl; lia. Qed.

Lemma pending_count_app a l l' : pending_count a (l ++ l') = pending_count a l + pending_count a l'.
Proof. unfold pending_count, count_if. rewrite List.filter_app, length_app. lia. Qed.

Lemma pending_count_pos a l : 0 <= pending_count a l.
Proof. unfold pending_count, count_if. lia. Qed.

Lemma mark_drained_count a t at_ n l :
  0 <= n → pending_count a (mark_drained t at_ n l)
           = if bool_decide (t = a) then Z.max 0 (pending_count a l - n) else pending_count a l.
Proof.
  revert n. induction l as [|d l IH]; intros n Hn; cbn [mark_drained].
  { case_bool_decide; [|done]. unfold pending_count, count_if. simpl. lia. }
  destruct (Z.eqb_spec n 0) as [->|Hz].
  { case_bool_decide; [|done]. pose proof (pending_count_pos a (d :: l)). lia. }
  destruct (pending_for t d) eqn:Et; rewrite !pending_count_cons.
  - assert (Hd : pending_for a (set_delivery "drained" at_ (ds_acked_by d) d) = false).
    { unfold pending_for. simpl. by rewrite andb_false_r. }
    rewrite Hd, IH by lia. case_bool_decide as Ha.
    + subst. rewrite Et. lia.
    + assert (pending_for a d = false) as ->; [|lia].
      unfold pending_for in *. apply andb_true_iff in Et as [Et%bool_decide_eq_true _].
      rewrite bool_decide_false; [done|congruence].
  - rewrite IH by lia. case_bool_decide as Ha; [|done]. subst. rewrite Et. lia.
Qed.

Lemma alter_acked_count a s at_ by_ (i : nat) l :
  s ≠ "pending" → pending_count a (alter (set_delivery s at_ by_) i l) <= pending_count a l.
Proof.
  intros Hs. revert i. induction l as [|d l IH]; intros [|i]; csimpl; try done.
  - rewrite !pending_count_cons. unfold pending_for at 1. simpl. rewrite (bool_decide_false (s = _)) by done.
    rewrite andb_false_r. destruct (pending_for a d); lia.
  - rewrite !pending_count_cons. specialize (IH i). lia.
Qed.

(** ** The log and the inbox of an agent that keeps its inbox *)
Definition keeps_inbox (a id transport : string) : Prop := id = a → transport = "inbox".

(** No more deliveries of [a] are pending than its inbox holds messages. *)
Definition log_within_inbox (a : string) (v : view) : Prop :=
  pending_count a (deliveries v) <= Z.of_nat (length (v_inbox v a)).

Definition calm_step (a : string) (v v' : view) : Prop :=
  rtc micro v v' ∧ (good (keeps_inbox a) v → good (keeps_inbox a) v')
  ∧ (wf v → log_within_inbox a v → log_within_inbox a v').

#[local] Instance sent_to_dec a e : Decision (sent_to a e).
Proof. unfold sent_to. apply _. Defined.

Lemma effect_pending a log e acc acc' :
  effect log e acc acc' → pending_count a acc'.1 <= pending_count a acc.1 + if bool_decide (sent_to a e) then 1 else 0.
Proof.
  intros Heff. destruct Heff as [|t Hty Ht|t n _ _ Hn|id i d]; simpl.
  - case_bool_decide; lia.
  - rewrite pending_count_app. unfold pending_count at 2, count_if. simpl. unfold pending_for. simpl.
    destruct (decide (t = a)) as [->|Hne].
    + rewrite (bool_decide_true (sent_to a e)) by done. destruct (_ && _); simpl; lia.
    + rewrite (bool_decide_false (t = a)) by done. simpl. case_bool_decide; lia.
  - assert (Hn0 : 0 <= n).
    { subst n. destruct (ev_details e !! _ ≫= parse_u64) eqn:Hp; simpl; [|lia].
      apply bind_Some in Hp as (s & _ & Hs). destruct s; [done|].
      unfold parse_u64 in Hs. by apply bind_Some in Hs as (x & _ & (-> & ? & _)%try_u64_Some). }
    rewrite mark_drained_count by done. pose proof (pending_count_pos a acc.1). repeat case_bool_decide; lia.
  - transitivity (pending_count a acc.1); [by apply alter_acked_count|]. case_bool_decide; lia.
Qed.

(** What a drain's event does, exactly. *)
Lemma drain_deliveries v a count bytes e :
  0 <= count <= u64_max → drain_event a count bytes e →
  deliveries (add_event e v) = mark_drained a (ev_occurred_at e) count (deliveries v).
Proof.
  intros Hc [Hty Hst _ Ht _ _ Hd]. unfold deliveries. simpl. rewrite replay_snoc. unfold replay_event.
  destruct (replay (v_log v)) as [l index]. rewrite Hty, Hst, Ht, Hd. simpl.
  rewrite lookup_insert_eq. change (Some (show count) ≫= parse_u64) with (parse_u64 (show count)).
  by rewrite parse_u64_show.
Qed.

Lemma room_count v a : wf v → 0 <= Z.of_nat (length (v_inbox v a)) <= u64_max.
Proof. intros Hwf. destruct (wf_inboxes _ Hwf a) as [Hc _]. unfold MAX_PENDING_MESSAGES, u64_max in *. lia. Qed.

Lemma log_event_within a v e (inbox' : list InboxMessage) :
  event_ok (v_log v) e → log_within_inbox a v →
  Z.of_nat (length (v_inbox v a)) + (if bool_decide (sent_to a e) then 1 else 0) <= Z.of_nat (length inbox') →
  pending_count a (replay (v_log v ++ [e])).1 <= Z.of_nat (length inbox').
Proof.
  unfold log_within_inbox, deliveries. intros Hok Hl Hlen.
  pose proof (effect_pending a _ _ _ _ (replay_effect _ _ Hok)). lia.
Qed.

Lemma calm_intro a v v' :
  rtc micro v v' → (wf v → log_within_inbox a v → log_within_inbox a v') →
  (good (keeps_inbox a) v → good (keeps_inbox a) v') → rtc (calm_step a) v v'.
Proof. intros. by apply rtc_once. Qed.

Lemma good_same_agents okreg v v' :
  rtc micro v v' → reg_agents (v_reg v') = reg_agents (v_reg v) → good okreg v → good okreg v'.
Proof. intros Hr Hreg [Hwf Hk]. split; [by eapply micros_wf|]. by rewrite Hreg. Qed.

Lemma drained_within a b v e :
  wf v → drain_event b (Z.of_nat (length (v_inbox v b))) (str_len (render (v_inbox v b))) e →
  log_within_inbox a v → log_within_inbox a (add_event e (set_inbox b [] v)).
Proof.
  unfold log_within_inbox. intros Hwf He Hl. pose proof (room_count v b Hwf) as Hc.
  rewrite (drain_deliveries (set_inbox b [] v) b _ _ e Hc He). unfold deliveries in *. simpl.
  rewrite mark_drained_count by lia. case_bool_decide; case_bool_decide; subst; simpl; try lia; congruence.
Qed.

(** Where no system call fails, every operation keeps the agreement. *)
Lemma calm_steps a : (∀ n, sys_error n = None) → BusSteps (keeps_inbox a) (calm_step a).
Proof.
  intros Hcalm. assert (Hio : ¬ io_fails) by (intros (n & s & Hs); by rewrite Hcalm in Hs).
  pose proof good_same_agents as Hgood.
  split; intros; try done.
  - apply calm_intro; [by apply bs_agent|done|]. intros [Hwf Hk]. split; [by eapply micros_wf, Hwf; apply bs_agent|].
    simpl. intros i x [[<- <-]|[_ ?]]%lookup_insert_Some; auto.
  - assert (Hr := bs_channel v c r H). apply calm_intro; [done..|by apply Hgood].
  - assert (Hr := bs_session v id s H). apply calm_intro; [done..|by apply Hgood].
  - assert (Hr := bs_plain v e H). apply calm_intro; [done| |by apply Hgood].
    intros Hwf Hl. rewrite !not_elem_of_cons in H.
    assert (Hs : ev_event_type e ∉ ["send"; "broadcast"]).
    { rewrite !elem_of_cons. intros [|[|[]%elem_of_nil]]; tauto. }
    apply log_event_within; [by apply plain_event_ok; tauto|done|]. simpl.
    rewrite bool_decide_false; [lia|]. by intros [? _].
  - assert (Hr := bs_sent v a0 m e H H0 I). apply calm_intro; [done| |by apply Hgood].
    intros Hwf Hl. unfold log_within_inbox, deliveries. simpl.
    apply log_event_within; [by eapply sent_event_ok|done|].
    case_bool_decide as Hs; case_bool_decide as Hb; subst; rewrite ?length_app; simpl; try lia.
    destruct Hs as [_ Hs], H0 as [_ H0]. congruence.
  - assert (Hr := bs_tmux v a0 e H I). apply calm_intro; [done| |by apply Hgood].
    intros Hwf Hl. apply log_event_within; [by eapply sent_event_ok|done|].
    simpl. rewrite bool_decide_false; [lia|]. intros [_ Hs]. destruct H as [_ Hb].
    assert (a0 = a) as -> by congruence. by specialize (H0 eq_refl).
  - assert (Hr := bs_drained v a0 e H). apply calm_intro; [done| |by apply Hgood].
    intros Hwf. by apply drained_within.
  - assert (Hr := bs_ack v e a0 id t d H H0 H1 H2). apply calm_intro; [done| |by apply Hgood].
    intros Hwf Hl. apply log_event_within; [by eapply ack_event_ok|done|]. simpl.
    rewrite bool_decide_false; [lia|]. intros [Hs _]. rewrite (lg_type _ _ _ _ _ _ _ _ H) in Hs.
    by destruct (send_type_only _ Hs).
Qed.

Lemma calm_run a ops w :
  (∀ n, sys_error n = None) → fresh_bus dir w → Forall (op_ok (keeps_inbox a)) ops →
  ∃ v, sees dir (bus_run mempal_home cwd ops w) v ∧ wf v ∧ log_within_inbox a v.
Proof.
  intros Hcalm Hf Hops. pose proof (calm_steps a Hcalm) as Hs.
  destruct (bus_run_steps mempal_home cwd dir Hdir (keeps_inbox a) (calm_step a) ops w no_bus) as (v & Hv & Hr).
  - by intros v v' (_ & ? & _).
  - done.
  - by apply fresh_sees.
  - split; [apply no_bus_wf|done].
  - exists v. split; [done|].
    assert (H0 : wf no_bus ∧ log_within_inbox a no_bus) by (split; [apply no_bus_wf|unfold log_within_inbox, pending_count, count_if; simpl; lia]).
    revert H0. clear Hv. induction Hr as [|x y z (Hm & _ & Hl) _ IH]; [done|].
    intros [Hw0 Hl0]. apply IH. split; [by eapply micros_wf|by apply Hl].
Qed.

(** ** What a send does *)
Definition gets_copy (a : string) (r : AgentRecord) : bool :=
  bool_decide (ar_agent_id r = a) && bool_decide (ar_transport r = "inbox").

(** A report and the event that was logged for it. *)
Definition reported (r : DeliveryReport) (e : BusEvent) : Prop :=
  ev_event_id e = dr_message_id r ∧ sent_to (dr_target_agent_id r) e ∧ ev_status e = "delivered".

Record sent_all (m : InboxMessage) (targets : list AgentRecord) (v : view) (reports : list DeliveryReport)
    (v' : view) : Prop := {
  sent_targets : dr_target_agent_id <$> reports = ar_agent_id <$> targets;
  sent_logged : ∃ events, v_log v' = v_log v ++ events ∧ Forall2 reported reports events;
  sent_inboxes : ∀ a, v_inbox v' a = v_inbox v a ++ ((fun _ => m) <$> List.filter (gets_copy a) targets);
  sent_reg : v_reg v' = v_reg v;
  sent_sessions : v_sessions v' = v_sessions v;
}.

Lemma sent_one request source pushed_at target v e v1 report :
  let m := send_message request source pushed_at in
  v1 = (if bool_decide (ar_transport target = "inbox")
        then set_inbox (ar_agent_id target) (v_inbox v (ar_agent_id target) ++ [m]) v else v) →
  (∃ transport, send_event request (ar_agent_id source) (ar_agent_id target) "delivered" transport e) →
  (∃ transport p size pane, report = report_of request (ev_event_id e) target transport p size pane) →
  sent_all m [target] v [report] (add_event e v1).
Proof.
  intros m -> [tr He] (tr' & p & size & pane & ->).
  split; simpl; [done| | |by case_bool_decide..].
  - exists [e]. split; [by case_bool_decide|]. constructor; [|done]. split; [done|].
    split; [simpl; by eapply send_event_to|]. destruct He as [details He]. apply He.
  - intros a. unfold gets_copy. case_bool_decide as Ht; simpl.
    + rewrite andb_true_r. case_bool_decide as Ha.
      * subst. by rewrite bool_decide_true.
      * rewrite bool_decide_false by congruence. by rewrite app_nil_r.
    + by rewrite andb_false_r, app_nil_r.
Qed.

Lemma sent_app m t1 t2 v1 r1 v2 r2 v3 :
  sent_all m t1 v1 r1 v2 → sent_all m t2 v2 r2 v3 → sent_all m (t1 ++ t2) v1 (r1 ++ r2) v3.
Proof.
  intros [A1 (e1 & B1 & C1) D1 F1 G1] [A2 (e2 & B2 & C2) D2 F2 G2]. split.
  - by rewrite !fmap_app, A1, A2.
  - exists (e1 ++ e2). split; [by rewrite B2, B1, app_assoc|by apply Forall2_app].
  - intros a. by rewrite D2, D1, List.filter_app, fmap_app, app_assoc.
  - by rewrite F2.
  - by rewrite G2.
Qed.

Lemma wp_deliver_sent request source pushed_at target v :
  agent_ok (ar_agent_id target) target →
  wp dir (deliver mempal_home cwd request source pushed_at target)
    (fun report v' => sent_all (send_message request source pushed_at) [target] v [report] v')
    (fun _ _ => True) v.
Proof.
  intros Hok. eapply wp_deliver; [exact Hdir|done| |done| |by intros ???].
  - intros Ht _. split; [by intros ???|]. intros e report He Hrep.
    eapply sent_one; [by rewrite bool_decide_true|by eexists|do 4 eexists; exact Hrep].
  - intros Ht. split; [done|]. intros e report. split; [done|]. intros He Hrep.
    eapply sent_one; [by rewrite Ht|by eexists|do 4 eexists; exact Hrep].
Qed.

Lemma wp_deliver_all_sent request source pushed_at targets v :
  Forall (fun r => agent_ok (ar_agent_id r) r) targets →
  wp dir (deliver_all mempal_home cwd request source pushed_at targets)
    (fun reports v' => sent_all (send_message request source pushed_at) targets v reports v')
    (fun _ _ => True) v.
Proof.
  intros Hok. revert v. induction Hok as [|t targets Ht _ IH]; intros v.
  - apply wp_ret. split; try done; [exists []; split; [by rewrite app_nil_r|done]|].
    intros a. by rewrite app_nil_r.
  - cbn [deliver_all]. apply wp_bind. eapply wp_mono; [by apply wp_deliver_sent| |done].
    intros report v1 H1. apply wp_bind. eapply wp_mono; [apply IH| |done].
    intros more v2 H2. apply wp_ret. by apply (sent_app _ [t] targets v [report] v1 more v2).
Qed.

Lemma no_copies {A} (m : A) a targets :
  a ∉ ar_agent_id <$> targets → (fun _ => m) <$> List.filter (gets_copy a) targets = [].
Proof.
  induction targets as [|u targets IH]; [done|]. csimpl. intros [Hu Hn]%not_elem_of_cons.
  unfold gets_copy at 1. rewrite bool_decide_false by congruence. simpl. by apply IH.
Qed.

Lemma record_ids (agents : gmap string AgentRecord) targets records :
  (∀ id x, agents !! id = Some x → ar_agent_id x = id) →
  Forall2 (fun id x => agents !! id = Some x) targets records → ar_agent_id <$> records = targets.
Proof. intros Hkey. induction 1 as [|i y l rs Hi _ IH]; [done|]. csimpl. by rewrite IH, (Hkey _ _ Hi). Qed.

(** An agent among distinct targets gets one copy if it has an inbox. *)
Lemma copies_of {A} (m : A) (agents : gmap string AgentRecord) a r targets records :
  (∀ id x, agents !! id = Some x → ar_agent_id x = id) →
  Forall2 (fun id x => agents !! id = Some x) targets records → NoDup targets → agents !! a = Some r →
  (fun _ => m) <$> List.filter (gets_copy a) records
  = if bool_decide (a ∈ targets) && bool_decide (ar_transport r = "inbox") then [m] else [].
Proof.
  intros Hkey Hrec Hnd Ha. induction Hrec as [|t x targets records Hx Hrest IH]; [done|].
  apply NoDup_cons in Hnd as [Hn Hnd]. specialize (IH Hnd). pose proof (Hkey _ _ Hx) as Hk. simpl.
  pose proof (record_ids _ _ _ Hkey Hrest) as Hids.
  destruct (decide (t = a)) as [->|Hne].
  - assert (x = r) as -> by congruence. rewrite (bool_decide_true (a ∈ _)) by apply elem_of_cons, or_introl, eq_refl.
    unfold gets_copy at 1. rewrite (bool_decide_true (ar_agent_id r = a)) by done. simpl.
    rewrite <- Hids in Hn. pose proof (no_copies m a records Hn) as Hno.
    clear IH. case_bool_decide; [rewrite fmap_cons; by f_equal|exact Hno].
  - unfold gets_copy at 1. rewrite (bool_decide_false (ar_agent_id x = a)) by congruence. simpl. rewrite IH.
    rewrite (bool_decide_ext (a ∈ targets) (a ∈ t :: targets)); [done|].
    rewrite elem_of_cons. split; [auto|by intros [->|]].
Qed.

Lemma wp_send_sent request v :
  wf v →
  wp dir (send mempal_home cwd request)
    (fun reports v' => ∃ targets source records pushed_at,
       dedup_targets (sr_targets request) = Ok targets ∧ (sr_from request ∉ targets)
       ∧ reg_agents (v_reg v) !! sr_from request = Some source
       ∧ Forall2 (fun a r => reg_agents (v_reg v) !! a = Some r) targets records
       ∧ str_len (sr_message request) <= MAX_MESSAGE_SIZE
       ∧ sent_all (send_message request source pushed_at) records v reports v')
    (fun _ _ => True) v.
Proof.
  intros Hwf. unfold send. do 3 (apply wp_bind, wp_lift; case_match; [|done]).
  destruct (MAX_MESSAGE_SIZE <? _) eqn:Hsz; [by apply wp_fail|]. zbool.
  apply wp_bind, wp_lift. destruct (dedup_targets _) as [targets|] eqn:Hd; [|done].
  case_bool_decide as Hself; [by apply wp_fail|].
  apply wp_bind. eapply wp_load_registry; [exact Hdir| |by intros ???].
  destruct (reg_agents (v_reg v) !! sr_from request) as [source|] eqn:Hsrc; [|by apply wp_fail].
  apply wp_bind, wp_lift. destruct (target_records _ _) as [records|] eqn:Hrec; [|done].
  apply wp_bind, wp_now_text. intros n.
  destruct (wf_target_records (fun _ _ => True) v targets records) as [Hok _]; [done|done|].
  eapply wp_mono; [apply wp_deliver_all_sent; by eapply Forall_impl; [exact Hok|intros r []]| |done].
  intros reports v' Hs. exists targets, source, records, (format_rfc3339 (clock_nanos n / 1000000000)).
  split_and!; try done. by apply target_records_ok.
Qed.

(** ** What an acknowledgement does *)
Lemma find_filter_target a id l d :
  find_delivery id (List.filter (fun d => bool_decide (ds_target d = a)) l) = Some d →
  ds_target d = a ∧ ds_message_id d = id ∧ d ∈ l.
Proof.
  intros [Hin Hid]%List.find_some. apply List.filter_In in Hin as [Hin Ht].
  apply bool_decide_eq_true in Hid, Ht. split; [done|]. split; [done|]. by apply list_elem_of_In.
Qed.

Lemma ack_deliveries v a id t d e :
  wf v → NoDup (ev_event_id <$> v_log v) → ack_event a id t e → find_delivery id (deliveries v) = Some d →
  ∃ i, deliveries v !! i = Some d
       ∧ deliveries (add_event e v) = alter (set_delivery "acked" (ev_occurred_at e) (Some a)) i (deliveries v).
Proof.
  intros Hwf Hnd [Hty Hst Hac _ _ _ Hd] Hf. pose proof (log_index _ (wf_log _ Hwf)) as Hix.
  unfold deliveries in *. simpl. rewrite replay_snoc. destruct (find_delivery_Some _ _ _ Hf) as (Hid & k & Hk).
  assert (Hin : id ∈ ids (replay (v_log v)).1).
  { apply list_elem_of_fmap. exists d. split; [done|]. by eapply list_elem_of_lookup_2. }
  destruct (index_complete _ _ Hix _ Hin) as [i Hi].
  exists i. split; [by eapply index_finds|]. unfold replay_event.
  destruct (replay (v_log v)) as [l index]. rewrite Hty, Hst, Hd, Hac. simpl in *.
  by rewrite lookup_singleton_eq, Hi.
Qed.

(** Deliveries with the identifiers of a log without repetitions are distinct. *)
Lemma delivery_unique v d d' :
  wf v → NoDup (ev_event_id <$> v_log v) → d ∈ deliveries v → d' ∈ deliveries v →
  ds_message_id d = ds_message_id d' → d = d'.
Proof.
  intros Hwf Hnd [i Hi]%list_elem_of_lookup [j Hj]%list_elem_of_lookup Heq.
  pose proof (ids_distinct _ _ (log_index _ (wf_log _ Hwf)) Hnd) as Hn. unfold deliveries in *.
  assert (i = j) as ->; [|congruence].
  eapply (NoDup_lookup _ i j (ds_message_id d) Hn); rewrite list_lookup_fmap; [by rewrite Hi|].
  rewrite Hj. simpl. by rewrite Heq.
Qed.

(** The effect of a successful acknowledgement, where identifiers are distinct. *)
Record acknowledged (a id : string) (v : view) (d : DeliveryStatus) (v' : view) : Prop := {
  ack_id : ds_message_id d = id;
  ack_target : ds_target d = a;
  ack_status : ds_status d = "acked";
  ack_listed : d ∈ deliveries v';
  ack_others : ∀ i x, deliveries v !! i = Some x → ds_message_id x ≠ id → deliveries v' !! i = Some x;
}.

Lemma wp_ack_acknowledged a id v :
  wf v →
  wp dir (ack_delivery mempal_home cwd a id)
    (fun d v' => wf v' ∧ (NoDup (ev_event_id <$> v_log v') → acknowledged a id v d v')) (fun _ _ => True) v.
Proof.
  intros Hwf. eapply wp_ack_delivery; [exact Hdir|done| |].
  - intros d Hf Ht Hs d' (Ht' & Hid' & Hin')%find_filter_target. split; [done|]. intros Hnd.
    destruct (find_delivery_Some _ _ _ Hf) as (Hid & k & Hk).
    assert (d' = d) as ->.
    { eapply delivery_unique; eauto; [by eapply list_elem_of_lookup_2|congruence]. }
    by split.
  - intros d e Hf Ht Hs1 Hs2 He. split; [done|]. intros d' (Ht' & Hid' & Hin')%find_filter_target.
    assert (Hwf' : wf (add_event e v)).
    { eapply micro_wf; [apply micro_log; by eapply ack_event_ok|done]. }
    split; [done|]. intros Hnd.
    assert (Hnd0 : NoDup (ev_event_id <$> v_log v)).
    { simpl in Hnd. rewrite fmap_app in Hnd. by apply NoDup_app in Hnd as (? & _). }
    destruct (ack_deliveries v a id _ d e Hwf Hnd0 He Hf) as (i & Hi & Hdel).
    destruct (find_delivery_Some _ _ _ Hf) as (Hid & _).
    assert (d' = set_delivery "acked" (ev_occurred_at e) (Some a) d) as ->.
    { eapply (delivery_unique (add_event e v)); [done..| |simpl; congruence].
      rewrite Hdel. eapply list_elem_of_lookup_2. by rewrite list_lookup_alter_eq, Hi. }
    split; try done. intros j x Hj Hx. rewrite Hdel, list_lookup_alter_ne; [done|]. congruence.
Qed.

(** A second acknowledgement finds the first. *)
Lemma wp_ack_again a id v d0 :
  wf v → NoDup (ev_event_id <$> v_log v) → d0 ∈ deliveries v → ds_message_id d0 = id → ds_status d0 = "acked" →
  wp dir (ack_delivery mempal_home cwd a id) (fun d v' => v' = v ∧ d = d0) (fun _ v' => v' = v) v.
Proof.
  intros Hwf Hnd Hin Hid0 Hst. eapply wp_ack_delivery; [exact Hdir|done| |].
  - intros d Hf Ht Hs d' (Ht' & Hid' & Hin')%find_filter_target. split; [done|].
    eapply delivery_unique; eauto. congruence.
  - intros d e Hf _ _ Hs2 _. destruct (find_delivery_Some _ _ _ Hf) as (Hid & k & Hk). exfalso.
    assert (d = d0) as ->; [|done].
    eapply delivery_unique; eauto; [by eapply list_elem_of_lookup_2|congruence].
Qed.
End system.

(** ** Properties *)

(** C22: the bus stays well formed as long as its failing calls are clean: a write that
    fails has written nothing, and Path::exists does not take an error for a missing
    file (CleanFailures). Then, whatever operations run on a project without a bus, and
    whichever of their other system calls fail, the files are those of a bus that small
    well-guarded steps have built: every agent is registered under its own valid
    identifier with a usable transport, channels and sessions have members, each once
    and each registered, sessions name known channels and have one of the three
    statuses, no inbox is over its limits, and every event of the log was in order when
    it was appended. Without the assumption it is false: save_registry writes over
    agents.json in place, and a write that fails half-way leaves a registry that no
    operation can read again (torn_registry_stays). *)
Theorem bus_refines_steps {E : BusEnv} {J : InboxJsonText} {JL : InboxJsonLaws} {EL : BusJsonLaws E}
    {C : CleanFailures E} mempal_home cwd dir w ops :
  project_bus_dir mempal_home cwd = Ok dir → fresh_bus dir w →
  ∃ v, sees dir (bus_run mempal_home cwd ops w) v ∧ rtc micro no_bus v ∧ wf v.
Proof. intros Hdir Hf. eapply in_use_sees; [exact Hdir|]. by exists w, ops. Qed.

(** A delivery only moves forward. Between two listings of the deliveries of a
    bus, with any operations in between and any of their system calls failing, no
    delivery is lost or changes place, sender, target or text; its status goes from
    pending to drained or acked, from drained to acked, and nowhere else, so that
    an acknowledged or failed delivery stays so. The identifiers of the events are
    assumed distinct. *)
Theorem deliveries_only_advance {E : BusEnv} {J : InboxJsonText} {JL : InboxJsonLaws} {EL : BusJsonLaws E}
    {C : CleanFailures E} mempal_home cwd dir w ops w1 l w2 l' :
  project_bus_dir mempal_home cwd = Ok dir → in_use mempal_home cwd dir w →
  list_delivery_statuses mempal_home cwd None w = (w1, Ok l) →
  list_delivery_statuses mempal_home cwd None (bus_run mempal_home cwd ops w) = (w2, Ok l') →
  distinct_ids mempal_home cwd (bus_run mempal_home cwd ops w) →
  all_advance l l'.
Proof.
  intros Hdir Hu Hl Hl' Hnd. destruct (in_use_sees mempal_home cwd dir Hdir w Hu) as (v & Hv & _ & Hwf).
  destruct (bus_run_steps mempal_home cwd dir Hdir (fun _ _ => True) micro ops w v) as (v' & Hv' & Hr).
  - intros x y Hm [Hx _]. split; [by eapply micro_wf|done].
  - by apply Forall_true; intros []; simpl.
  - done.
  - by split.
  - rewrite (listed_deliveries _ _ _ Hdir _ _ _ _ Hv Hl), (listed_deliveries _ _ _ Hdir _ _ _ _ Hv' Hl').
    apply micros_advance; [done..|]. by eapply distinct_ids_log.
Qed.

(** A drain settles what is pending. On a bus whose system calls succeed, where
    the agent has only ever been registered with an inbox, the deliveries to it
    that the log counts as pending are never more than the messages in its inbox;
    so a drain, which hands over every message of the inbox and empties it, leaves
    no delivery to it pending. *)
Theorem drain_leaves_none_pending {E : BusEnv} {J : InboxJsonText} {JL : InboxJsonLaws} {EL : BusJsonLaws E}
    {C : CleanFailures E} mempal_home cwd dir a w0 ops w' ms :
  project_bus_dir mempal_home cwd = Ok dir → (∀ n, sys_error n = None) → fresh_bus dir w0 →
  Forall (op_ok (keeps_inbox a)) ops →
  drain_agent mempal_home cwd a (bus_run mempal_home cwd ops w0) = (w', Ok ms) →
  ∃ v v', sees dir (bus_run mempal_home cwd ops w0) v ∧ sees dir w' v'
    ∧ ms = v_inbox v a ∧ v_inbox v' a = []
    ∧ pending_count a (deliveries v) <= Z.of_nat (length ms)
    ∧ pending_count a (deliveries v') = 0.
Proof.
  intros Hdir Hcalm Hf Hops Hd.
  destruct (calm_run mempal_home cwd dir Hdir a ops w0 Hcalm Hf Hops) as (v & Hv & Hwf & Hl).
  assert (H : wp dir (drain_agent mempal_home cwd a)
    (fun got v' => got = v_inbox v a ∧ v_inbox v' a = [] ∧ pending_count a (deliveries v') = 0)
    (fun _ _ => True) v).
  { eapply wp_drain_agent; [exact Hdir|done|by intros ???|by intros ???|].
    intros _ _ e He. split; [done|]. simpl. split; [by rewrite bool_decide_true|].
    rewrite (drain_deliveries (set_inbox a [] v) a _ _ e (room_count v a Hwf) He), mark_drained_count by lia.
    rewrite bool_decide_true by done. unfold log_within_inbox, deliveries in *. simpl. lia. }
  specialize (H _ Hv). rewrite Hd in H. destruct H as (v' & Hv' & -> & He & Hp).
  exists v, v'. by split_and!.
Qed.

(** A send that succeeds reaches every target once. Repeated targets count once,
    the sender is not among them, and the reports name them in order; each has one
    "delivered" event in the log under the identifier reported; the inboxes of the
    targets with an inbox have gained exactly the message, with its sender, thread
    and channel, and nothing else of the bus has changed. *)
Theorem send_reaches_each_once {E : BusEnv} {J : InboxJsonText} {JL : InboxJsonLaws} {EL : BusJsonLaws E}
    {C : CleanFailures E} mempal_home cwd dir w request w' reports :
  project_bus_dir mempal_home cwd = Ok dir → in_use mempal_home cwd dir w →
  send mempal_home cwd request w = (w', Ok reports) →
  ∃ v v' targets events m,
    sees dir w v ∧ sees dir w' v' ∧ dedup_targets (sr_targets request) = Ok targets
    ∧ NoDup targets ∧ (∀ a, a ∈ targets ↔ a ∈ sr_targets request) ∧ (sr_from request ∉ targets)
    ∧ dr_target_agent_id <$> reports = targets
    ∧ v_log v' = v_log v ++ events ∧ Forall2 reported reports events
    ∧ im_content m = sr_message request ∧ im_from m = sr_from request
    ∧ im_thread_id m = sr_thread_id request ∧ im_channel m = sr_channel request
    ∧ (∀ a r, reg_agents (v_reg v) !! a = Some r →
         v_inbox v' a = v_inbox v a ++ if bool_decide (a ∈ targets) && bool_decide (ar_transport r = "inbox")
                                       then [m] else [])
    ∧ (∀ a, a ∉ targets → v_inbox v' a = v_inbox v a)
    ∧ v_reg v' = v_reg v ∧ v_sessions v' = v_sessions v.
Proof.
  intros Hdir Hu Hs. destruct (in_use_sees mempal_home cwd dir Hdir w Hu) as (v & Hv & _ & Hwf).
  pose proof (wp_send_sent mempal_home cwd dir Hdir request v Hwf w Hv) as H. rewrite Hs in H.
  destruct H as (v' & Hv' & targets & source & records & at_ & Hd & Hself & Hsrc & Hrec & _ & Hall).
  destruct (dedup_targets_spec _ _ Hd) as (Hnd & Hin & _).
  destruct Hall as [Ht (events & Hlog & Hrep) Hinb Hreg Hses].
  exists v, v', targets, events, (send_message request source at_).
  pose proof (agent_key _ _ (wf_agents _ Hwf _ _ Hsrc)) as Hkey.
  assert (Hids : ar_agent_id <$> records = targets).
  { eapply record_ids; [|exact Hrec]. intros id x Hx. apply (wf_agents _ Hwf _ _ Hx). }
  split_and!; try done; [by rewrite Ht| |].
  - intros a r Ha. rewrite Hinb. f_equal. eapply copies_of; [|done..]. intros id x Hx. apply (wf_agents _ Hwf _ _ Hx).
  - intros a Ha. rewrite Hinb, no_copies, app_nil_r; [done|]. by rewrite Hids.
Qed.

(** An acknowledgement is recorded, and once. When it succeeds, the delivery it
    returns is the agent's own, is the one asked for and is acked; every other
    delivery is as before; and acknowledging again changes nothing and, unless a
    system call fails, returns the same. The identifiers of the events are assumed
    distinct. *)
Theorem ack_recorded_once {E : BusEnv} {J : InboxJsonText} {JL : InboxJsonLaws} {EL : BusJsonLaws E}
    {C : CleanFailures E} mempal_home cwd dir w a id w' d :
  project_bus_dir mempal_home cwd = Ok dir → in_use mempal_home cwd dir w →
  ack_delivery mempal_home cwd a id w = (w', Ok d) → distinct_ids mempal_home cwd w' →
  ∃ v v', sees dir w v ∧ sees dir w' v' ∧ acknowledged a id v d v'
    ∧ let '(w2, r) := ack_delivery mempal_home cwd a id w' in
      sees dir w2 v' ∧ match r with Ok d2 => d2 = d | Err _ => True end.
Proof.
  intros Hdir Hu Hack Hids. destruct (in_use_sees mempal_home cwd dir Hdir w Hu) as (v & Hv & _ & Hwf).
  pose proof (wp_ack_acknowledged mempal_home cwd dir Hdir a id v Hwf w Hv) as H. rewrite Hack in H.
  destruct H as (v' & Hv' & Hwf' & Hd). pose proof (distinct_ids_log _ _ _ Hdir _ _ Hv' Hids) as Hnd.
  specialize (Hd Hnd). exists v, v'. split_and!; try done.
  destruct Hd as [Hid Ht Hst Hin _].
  pose proof (wp_ack_again mempal_home cwd dir Hdir a id v' d Hwf' Hnd Hin Hid Hst w' Hv') as H2.
  destruct (ack_delivery mempal_home cwd a id w') as [w2 [d2|err]]; destruct H2 as (v2 & Hv2 & H2).
  - destruct H2 as [-> ->]. by split.
  - subst. by split.
Qed.

(** ** An environment

    Values as the binary digits of their code between braces; no call fails, and
    the clock shows one second per call. *)
Definition bin_text (p : positive) : string := String "{" (bits_to_text p).
Definition text_bin {A} `{Countable A} (s : string) : result A string :=
  match s with
  | String "{" rest => match decode (text_to_bits rest) with Some a => Ok a | None => Err "expected value" end
  | _ => Err "expected value"
  end.

Lemma text_bin_text {A} `{Countable A} (a : A) : text_bin (bin_text (encode a)) = Ok a.
Proof. unfold text_bin, bin_text. by rewrite text_to_bits_to_text, decode_encode. Qed.

Lemma bin_text_trim p : trim (bin_text p) = bin_text p.
Proof.
  unfold bin_text, trim, trim_start. rewrite open_not_space. unfold trim_end, String.rev.
  cbn [String.rev_app]. destruct (rev_bits p "{") as [u Hu]. rewrite Hu, close_not_space.
  rewrite <- Hu, rev_app_rev_app. simpl. by rewrite str_app_nil_r.
Qed.

#[export] Instance agent_record_eq_dec : EqDecision AgentRecord.
Proof. solve_decision. Defined.
#[export] Instance agent_record_countable : Countable AgentRecord.
Proof.
  refine (inj_countable'
    (fun r => (ar_agent_id r, ar_tool r, ar_transport r, ar_tmux_target r, ar_registered_at r,
               ar_updated_at r, ar_last_seen_at r))
    (fun '(a, b, c, d, e, f, g) => Build_AgentRecord a b c d e f g) _).
  by intros [].
Defined.
#[export] Instance channel_record_eq_dec : EqDecision ChannelRecord.
Proof. solve_decision. Defined.
#[export] Instance channel_record_countable : Countable ChannelRecord.
Proof.
  refine (inj_countable' (fun r => (ch_channel r, ch_agents r, ch_updated_at r))
    (fun '(a, b, c) => Build_ChannelRecord a b c) _).
  by intros [].
Defined.
#[export] Instance agent_registry_eq_dec : EqDecision AgentRegistry.
Proof. solve_decision. Defined.
#[export] Instance agent_registry_countable : Countable AgentRegistry.
Proof.
  refine (inj_countable' (fun r => (reg_agents r, reg_channels r)) (fun '(a, b) => Build_AgentRegistry a b) _).
  by intros [].
Defined.
#[export] Instance team_session_eq_dec : EqDecision TeamSession.
Proof. solve_decision. Defined.
#[export] Instance team_session_countable : Countable TeamSession.
Proof.
  refine (inj_countable'
    (fun s => (ts_session_id s, ts_title s, ts_goal s, ts_agents s, ts_channels s, ts_thread_id s,
               ts_status s, ts_created_at s, ts_updated_at s))
    (fun '(a, b, c, d, e, f, g, h, i) => Build_TeamSession a b c d e f g h i) _).
  by intros [].
Defined.
#[export] Instance bus_event_eq_dec : EqDecision BusEvent.
Proof. solve_decision. Defined.
#[export] Instance bus_event_countable : Countable BusEvent.
Proof.
  refine (inj_countable'
    (fun e => (ev_event_id e, ev_occurred_at e, ev_event_type e, ev_status e, ev_actor e, ev_targets e,
               ev_transport e, ev_preview e, ev_details e))
    (fun '(a, b, c, d, e, f, g, h, i) => Build_BusEvent a b c d e f g h i) _).
  by intros [].
Defined.

Definition plain_bus : BusEnv := {|
  sys_error _ := None;
  sys_torn _ := None;
  sys_stat_fails _ := false;
  clock_nanos n := Z.of_nat n * 1000000000;
  tmux_run _ _ := (TmuxExited 0, "");
  is_git_root _ := false;
  registry_to_json r := bin_text (encode r);
  registry_of_json := text_bin;
  sessions_to_json s := bin_text (encode s);
  sessions_of_json := text_bin;
  event_to_json e := bin_text (encode e);
  event_of_json := text_bin;
|}.

#[local] Existing Instance plain_bus.

#[local] Instance plain_bus_json : BusJsonLaws plain_bus.
Proof.
  split; simpl; intros x;
    try apply text_bin_text; try rewrite bin_text_trim; try done. apply bits_one_line.
Qed.

#[local] Instance plain_bus_clean : CleanFailures plain_bus.
Proof. by split. Qed.

(** ** A story *)
Module BusStory.
Definition home : string := "/h".
Definition here : path := Path true ["p"].
Definition dir : string := "/h/cowork-bus/-p".
Definition start : world := World ∅ 0 0.

Definition agent (id transport : string) : bus_op :=
  OpRegister {| rr_agent_id := id; rr_tool := "t"; rr_transport := transport; rr_tmux_target := Some "0.1" |}.
Definition message (from : string) (targets : list string) : SendRequest :=
  {| sr_from := from; sr_targets := targets; sr_message := "hi"; sr_operation := Send;
     sr_thread_id := None; sr_channel := None |}.
Definition ops : list bus_op :=
  [agent "a" "inbox"; agent "b" "inbox"; OpSend (message "a" ["b"; "b"])].
Definition sent : world := bus_run home here ops start.

Lemma dir_is : project_bus_dir home here = Ok dir.
Proof. reflexivity. Qed.
Lemma start_fresh : fresh_bus dir start.
Proof. intros name. apply lookup_empty. Qed.
Lemma sent_in_use : in_use home here dir sent.
Proof. exists start, ops. split; [apply start_fresh|reflexivity]. Qed.
End BusStory.

(** A disk that is full at call [k], after the first three bytes of what is written. *)
Definition full_at (k : nat) : BusEnv := {|
  sys_error n := if bool_decide (n = k) then Some "No space left on device" else None;
  sys_torn _ := Some 3%nat;
  sys_stat_fails _ := false;
  clock_nanos := clock_nanos (BusEnv := plain_bus);
  tmux_run := tmux_run (BusEnv := plain_bus);
  is_git_root := is_git_root (BusEnv := plain_bus);
  registry_to_json := registry_to_json (BusEnv := plain_bus);
  registry_of_json := registry_of_json (BusEnv := plain_bus);
  sessions_to_json := sessions_to_json (BusEnv := plain_bus);
  sessions_of_json := sessions_of_json (BusEnv := plain_bus);
  event_to_json := event_to_json (BusEnv := plain_bus);
  event_of_json := event_of_json (BusEnv := plain_bus);
|}.

(** [save_registry] writes over the file in place. When that write fails half-way, the
    registry that was there is gone: nothing loads it any more, and no later
    registration, on a disk with room, repairs it. *)
Example torn_registry_stays :
  let loaded env ops := (load_registry (E := env) BusStory.home BusStory.here
                           (bus_run (E := env) BusStory.home BusStory.here ops BusStory.start)).2 in
  is_ok (loaded plain_bus [BusStory.agent "a" "inbox"; BusStory.agent "b" "inbox"]) = true
  ∧ loaded (full_at 3) [BusStory.agent "a" "inbox"] = Err (BusJson "expected value")
  ∧ loaded (full_at 3) [BusStory.agent "a" "inbox"; BusStory.agent "b" "inbox"] = Err (BusJson "expected value").
Proof. vm_compute. done. Qed.

(** Distinct identifiers, by evaluation. *)
Lemma distinct_ids_check mempal_home cwd w :
  match (list_events mempal_home cwd None w).2 with
  | Ok l => bool_decide (NoDup (ev_event_id <$> l))
  | Err _ => false
  end = true → distinct_ids mempal_home cwd w.
Proof.
  destruct (list_events mempal_home cwd None w) as [w' [l|e]] eqn:Hl; [|done]. simpl.
  intros Hn%bool_decide_eq_true. by exists w', l.
Qed.

Lemma bus_refines_steps_witness :
  ∃ v, sees BusStory.dir BusStory.sent v ∧ rtc micro no_bus v ∧ wf v.
Proof.
  exact (bus_refines_steps BusStory.home BusStory.here BusStory.dir BusStory.start BusStory.ops
    BusStory.dir_is BusStory.start_fresh).
Defined.

(** An operation that succeeds, and what it returned, by evaluation. *)
Lemma bus_succeeds {A} (m : bus A) w : is_ok (m w).2 = true → ∃ w' a, m w = (w', Ok a).
Proof. destruct (m w) as [w' [a|e]]; [eauto|done]. Qed.

Lemma bus_returned {A B} (m : bus A) w w' a (f : A → B) (none : B) :
  m w = (w', Ok a) → f a = match (m w).2 with Ok x => f x | Err _ => none end.
Proof. by intros ->. Qed.

(** The delivery to [b] was pending; after a drain it is drained. *)
Lemma deliveries_only_advance_witness :
  ∃ w1 l w2 l', list_delivery_statuses BusStory.home BusStory.here None BusStory.sent = (w1, Ok l)
    ∧ list_delivery_statuses BusStory.home BusStory.here None
        (bus_run BusStory.home BusStory.here [OpDrain "b"] BusStory.sent) = (w2, Ok l')
    ∧ ds_status <$> l = ["pending"] ∧ ds_status <$> l' = ["drained"] ∧ all_advance l l'.
Proof.
  assert (Hn : distinct_ids BusStory.home BusStory.here
                 (bus_run BusStory.home BusStory.here [OpDrain "b"] BusStory.sent)).
  { apply distinct_ids_check. vm_compute. reflexivity. }
  destruct (bus_succeeds (list_delivery_statuses BusStory.home BusStory.here None) BusStory.sent)
    as (w1 & l & Hl); [vm_compute; reflexivity|].
  destruct (bus_succeeds (list_delivery_statuses BusStory.home BusStory.here None)
    (bus_run BusStory.home BusStory.here [OpDrain "b"] BusStory.sent)) as (w2 & l' & Hl'); [vm_compute; reflexivity|].
  exists w1, l, w2, l'. split; [exact Hl|]. split; [exact Hl'|].
  split; [rewrite (bus_returned _ _ _ _ (fmap ds_status) [] Hl); vm_compute; reflexivity|].
  split; [rewrite (bus_returned _ _ _ _ (fmap ds_status) [] Hl'); vm_compute; reflexivity|].
  exact (deliveries_only_advance BusStory.home BusStory.here BusStory.dir BusStory.sent [OpDrain "b"] w1 l w2 l'
    BusStory.dir_is BusStory.sent_in_use Hl Hl' Hn).
Defined.

Lemma drain_leaves_none_pending_witness :
  ∃ w' ms v', drain_agent BusStory.home BusStory.here "b" BusStory.sent = (w', Ok ms)
    ∧ length ms = 1%nat ∧ sees BusStory.dir w' v' ∧ pending_count "b" (deliveries v') = 0.
Proof.
  destruct (bus_succeeds (drain_agent BusStory.home BusStory.here "b") BusStory.sent)
    as (w' & ms & Hd); [vm_compute; reflexivity|].
  destruct (drain_leaves_none_pending BusStory.home BusStory.here BusStory.dir "b" BusStory.start BusStory.ops w' ms
    BusStory.dir_is ltac:(reflexivity) BusStory.start_fresh ltac:(repeat constructor; done) Hd)
    as (v & v' & _ & Hv' & _ & _ & _ & Hp).
  exists w', ms, v'. split; [exact Hd|]. split; [|by split].
  rewrite (bus_returned _ _ _ _ length 0%nat Hd). vm_compute. reflexivity.
Defined.

Lemma send_reaches_each_once_witness :
  ∃ w' reports, send BusStory.home BusStory.here (BusStory.message "b" ["a"; "a"]) BusStory.sent = (w', Ok reports)
    ∧ dr_target_agent_id <$> reports = ["a"].
Proof.
  destruct (bus_succeeds (send BusStory.home BusStory.here (BusStory.message "b" ["a"; "a"])) BusStory.sent)
    as (w' & reports & Hs); [vm_compute; reflexivity|].
  exists w', reports. split; [exact Hs|].
  destruct (send_reaches_each_once BusStory.home BusStory.here BusStory.dir BusStory.sent _ w' reports
    BusStory.dir_is BusStory.sent_in_use Hs) as (v & v' & targets & _ & _ & _ & _ & Hd & _ & _ & _ & Ht & _).
  rewrite Ht. vm_compute in Hd. congruence.
Defined.

Lemma ack_recorded_once_witness :
  ∃ w' d, ack_delivery BusStory.home BusStory.here "b" "evt-24000000000-2" BusStory.sent = (w', Ok d)
    ∧ ds_status d = "acked".
Proof.
  destruct (bus_succeeds (ack_delivery BusStory.home BusStory.here "b" "evt-24000000000-2") BusStory.sent)
    as (w' & d & Ha); [vm_compute; reflexivity|].
  exists w', d. split; [exact Ha|].
  assert (Hn : distinct_ids BusStory.home BusStory.here w').
  { assert (Hw : w' = (ack_delivery BusStory.home BusStory.here "b" "evt-24000000000-2" BusStory.sent).1) by by rewrite Ha.
    rewrite Hw. apply distinct_ids_check. vm_compute. reflexivity. }
  destruct (ack_recorded_once BusStory.home BusStory.here BusStory.dir BusStory.sent "b" "evt-24000000000-2" w' d
    BusStory.dir_is BusStory.sent_in_use Ha Hn) as (v & v' & _ & _ & [_ _ Hst _ _] & _).
  exact Hst.
Defined.

(** ** What the code also allows

    A drain counts the inbox's messages against the oldest pending deliveries,
    whatever their transport: after a change from [tmux] to an inbox, it is the
    delivery to the terminal that becomes drained, and the drained message stays
    pending. *)
Example drain_settles_the_wrong_delivery :
  let ops := [BusStory.agent "a" "inbox"; BusStory.agent "b" "tmux"; OpSend (BusStory.message "a" ["b"]);
              BusStory.agent "b" "inbox"; OpSend (BusStory.message "a" ["b"]); OpDrain "b"] in
  let w := bus_run BusStory.home BusStory.here ops BusStory.start in
  match (list_delivery_statuses BusStory.home BusStory.here None w).2 with
  | Ok l => (fun d => (ds_transport d, ds_status d)) <$> l = [("tmux", "drained"); ("inbox", "pending")]
  | Err _ => False
  end.
Proof. vm_compute. reflexivity. Qed.

(** A send to several agents that meets a full inbox fails after it has delivered
    to the agents before. *)
Example send_fails_half_way :
  let ops := ([BusStory.agent "a" "inbox"; BusStory.agent "b" "inbox"; BusStory.agent "c" "inbox"]
              ++ repeat (OpSend (BusStory.message "a" ["c"])) 16)%list in
  let w := bus_run BusStory.home BusStory.here ops BusStory.start in
  let '(w', r) := send BusStory.home BusStory.here (BusStory.message "a" ["b"; "c"]) w in
  is_ok r = false
  ∧ bool_decide (is_Some (w_fs w !! "/h/cowork-bus/-p/inbox/b.jsonl")) = false
  ∧ bool_decide (is_Some (w_fs w' !! "/h/cowork-bus/-p/inbox/b.jsonl")) = true.
Proof. vm_compute. split_and!; reflexivity. Qed.

(** The events of a hand-over are cut to the limit before they are filtered: with a
    limit of one, the last event that matches is missing when another follows. *)
Example handoff_misses_matching_event :
  let request := {| sr_from := "a"; sr_targets := ["b"]; sr_message := "hi"; sr_operation := Send;
                    sr_thread_id := Some "t"; sr_channel := None |} in
  let w := bus_run BusStory.home BusStory.here
             [BusStory.agent "a" "inbox"; BusStory.agent "b" "inbox"; OpSend request; OpHeartbeat "a" None]
             BusStory.start in
  let filters := {| hf_thread_id := Some "t"; hf_channel := None; hf_session_id := None; hf_limit := Some 1 |} in
  match (build_handoff_summary BusStory.home BusStory.here filters w).2,
        (list_events BusStory.home BusStory.here None w).2 with
  | Ok summary, Ok events => hs_recent_events summary = [] ∧ length (List.filter (event_matches filters []) events) = 1%nat
  | _, _ => False
  end.
Proof. vm_compute. split; reflexivity. Qed.
