(* ===== verification/CoworkCapture.v ===== *)
(** * Reports of the cowork bus, and capturing a hand-over

    The plain renderings of [src/src/cowork/bus.rs] and
    [capture_handoff_to_memory]: the summary of a hand-over becomes a drawer, in a
    write that the SQLite writer lease fences. *)

From Stdlib Require Import ZArith QArith Lia String Ascii.
From stdpp Require Import base tactics list gmap strings numbers sets.
From S2P Require Import Prelude Order Text Rfc3339 ProcessIdentity WriterLease LeaseProtocol CoworkInbox CoworkBus.
From S2P Require Import Drawer DrawerStore DrawerSafety Knowledge CoworkBusSystem.
Open Scope Z_scope.
Open Scope rust_scope.

(** ** Renderings *)
Definition or_dash (o : option string) : string := default "-" o.

Definition concat_lines (l : list string) : string := foldr (fun x acc => x +:+ LF +:+ acc) "" l.

Definition format_details (details : gmap string string) : string :=
  if bool_decide (details = ∅) then "-"
  else join_with "," ((fun kv => kv.1 +:+ "=" +:+ kv.2) <$> btree_entries details).

Definition message_line (m : InboxMessage) : string :=
  let metadata := (match im_thread_id m with Some t => ["thread=" +:+ t] | None => [] end
                   ++ match im_channel m with Some c => ["channel=" +:+ c] | None => [] end)%list in
  "- " +:+ im_pushed_at m +:+ " from " +:+ im_from m
  +:+ (match metadata with [] => "" | _ => " [" +:+ join_with " " metadata +:+ "]" end)
  +:+ ": " +:+ im_content m.

Definition format_agent_plain (agent_id : string) (messages : list InboxMessage) : string :=
  match messages with
  | [] => ""
  | _ =>
      let n := Z.of_nat (length messages) in
      concat_lines
        (("[Multi-agent cowork inbox for " +:+ agent_id +:+ " (" +:+ show n +:+ " message"
          +:+ (if n =? 1 then "" else "s") +:+ " since last check):]")
         :: (message_line <$> messages) ++ ["[End multi-agent cowork inbox]"])%list
  end.

Definition event_line (e : BusEvent) : string :=
  ev_event_id e +:+ " " +:+ ev_occurred_at e +:+ " type=" +:+ ev_event_type e +:+ " status=" +:+ ev_status e
  +:+ " actor=" +:+ or_dash (ev_actor e)
  +:+ " targets=" +:+ (match ev_targets e with [] => "-" | l => join_with "," l end)
  +:+ " transport=" +:+ or_dash (ev_transport e) +:+ " preview=" +:+ or_dash (ev_preview e)
  +:+ " details=" +:+ format_details (ev_details e).

Definition format_events_plain (events : list BusEvent) : string := concat_lines (event_line <$> events).

Definition delivery_line (d : DeliveryStatus) : string :=
  ds_message_id d +:+ " " +:+ ds_updated_at d +:+ " status=" +:+ ds_status d +:+ " from=" +:+ ds_from d
  +:+ " target=" +:+ ds_target d +:+ " transport=" +:+ ds_transport d +:+ " thread=" +:+ or_dash (ds_thread_id d)
  +:+ " channel=" +:+ or_dash (ds_channel d) +:+ " preview=" +:+ or_dash (ds_preview d).

Definition format_delivery_statuses_plain (l : list DeliveryStatus) : string := concat_lines (delivery_line <$> l).

Definition format_doctor_plain (r : DoctorReport) : string :=
  concat_lines
    (("status=" +:+ dc_status r +:+ " agents=" +:+ show (dc_agent_count r) +:+ " channels="
      +:+ show (dc_channel_count r) +:+ " sessions=" +:+ show (dc_session_count r) +:+ " stale_agents="
      +:+ show (dc_stale_agents r) +:+ " never_seen_agents=" +:+ show (dc_never_seen_agents r)
      +:+ " pending_deliveries=" +:+ show (dc_pending_deliveries r))
     :: ((fun w => "warning: " +:+ w) <$> dc_warnings r)
     ++ ((fun p => "tmux agent=" +:+ pb_agent_id p +:+ " target=" +:+ pb_tmux_target p +:+ " status="
                   +:+ pb_status p +:+ " detail=" +:+ or_dash (pb_detail p)) <$> dc_tmux r))%list.

Definition session_lines (s : TeamSession) : list string :=
  (ts_session_id s +:+ " status=" +:+ ts_status s +:+ " title=" +:+ ts_title s
   +:+ " agents=" +:+ join_with "," (ts_agents s)
   +:+ " channels=" +:+ (match ts_channels s with [] => "-" | l => join_with "," l end)
   +:+ " thread=" +:+ or_dash (ts_thread_id s) +:+ " updated_at=" +:+ ts_updated_at s)
  :: match ts_goal s with Some goal => ["  goal=" +:+ goal] | None => [] end.

Definition format_sessions_plain (sessions : list TeamSession) : string :=
  match sessions with
  | [] => "no sessions" +:+ LF
  | _ => concat_lines (sessions ≫= session_lines)
  end.

(** A section of the hand-over: its lines, or [- none]. *)
Definition section_lines {A} (line : A → string) (l : list A) : list string :=
  match l with [] => ["- none"] | _ => line <$> l end.

Definition format_handoff_plain (s : HandoffSummary) : string :=
  concat_lines
    (["Cowork Handoff Summary";
      "filters thread=" +:+ or_dash (hs_thread_id s) +:+ " channel=" +:+ or_dash (hs_channel s) +:+ " session="
      +:+ or_dash (hs_session_id s) +:+ " limit=" +:+ show (hs_limit s); ""; "Active sessions"]
     ++ section_lines (fun x => "- " +:+ ts_session_id x +:+ " [" +:+ ts_title x +:+ "] agents="
                                +:+ join_with "," (ts_agents x) +:+ " thread=" +:+ or_dash (ts_thread_id x)
                                +:+ " goal=" +:+ or_dash (ts_goal x))
          (List.filter (fun x => bool_decide (ts_status x = "active")) (hs_sessions s))
     ++ [""; "Agents"]
     ++ section_lines (fun x => "- " +:+ sm_agent_id x +:+ " tool=" +:+ sm_tool x +:+ " presence="
                                +:+ sm_presence x +:+ " pending=" +:+ show (sm_pending_count x)) (hs_agents s)
     ++ [""; "Pending deliveries"]
     ++ section_lines (fun x => "- " +:+ ds_message_id x +:+ " from=" +:+ ds_from x +:+ " target=" +:+ ds_target x
                                +:+ " thread=" +:+ or_dash (ds_thread_id x) +:+ " channel="
                                +:+ or_dash (ds_channel x) +:+ " preview=" +:+ or_dash (ds_preview x))
          (hs_pending_deliveries s)
     ++ [""; "Recent events"]
     ++ section_lines (fun x => "- " +:+ ev_event_id x +:+ " type=" +:+ ev_event_type x +:+ " status="
                                +:+ ev_status x +:+ " actor=" +:+ or_dash (ev_actor x) +:+ " targets="
                                +:+ join_with "," (ev_targets x) +:+ " details=" +:+ format_details (ev_details x))
          (hs_recent_events s))%list.

(** ** Capturing *)
Record CoworkCaptureRequest := {
  cr_summary_source : string;
  cr_wing : string;
  cr_room : option string;
  cr_thread_id : option string;
  cr_channel : option string;
  cr_session_id : option string;
  cr_note : option string;
  cr_execute : bool;
}.

Record CoworkCaptureReport := {
  cp_writes : bool;
  cp_drawer_id : option string;
  cp_wing : string;
  cp_room : option string;
  cp_source : string;
  cp_content : string;
}.

Definition format_capture_plain (r : CoworkCaptureReport) : string :=
  "writes=" +:+ (if cp_writes r then "true" else "false") +:+ " drawer_id=" +:+ or_dash (cp_drawer_id r)
  +:+ " wing=" +:+ cp_wing r +:+ " room=" +:+ or_dash (cp_room r) +:+ " source=" +:+ cp_source r +:+ LF.

Definition capture_content (capture_id project : string) (note : option string) (summary : HandoffSummary) : string :=
  concat_lines
    (["# Cowork Handoff Capture"; ""; "capture_id: " +:+ capture_id; "project: " +:+ project;
      "summary_source: handoff"; ""]
     ++ match note with Some n => ["## Note"; ""; n; ""] | None => [] end
     ++ ["## Handoff Summary"; ""])%list
  +:+ format_handoff_plain summary.

Section capture.
Context {E : BusEnv} {J : InboxJsonText} {SE : StoreEnv} (mempal_home : string) (cwd : path).
Context (blake3_hex : string → string) {JT : JsonText}.

Definition build_bootstrap_evidence_drawer_id (wing : string) (room : option string) (content : string)
    (source_type : SourceType) : string :=
  let '(kind, id, parent) := bootstrap_anchor in
  build_bootstrap_drawer_id_from_parts wing room content
    {| ip_memory_kind := Evidence; ip_domain := DomainProject; ip_field := DEFAULT_FIELD;
       ip_anchor := {| an_kind := kind; an_id := id; an_parent := parent |};
       ip_provenance := Some (bootstrap_provenance source_type); ip_statement := None; ip_tier := None;
       ip_status := None; ip_supporting := []; ip_counterexample := []; ip_teaching := [];
       ip_verification := []; ip_scope_constraints := None; ip_trigger_hints := None |}.

Definition capture_id : bus string := stamped_id "cowork-capture-".

(** [current_timestamp]: seconds since the epoch. *)
Definition current_timestamp : bus string :=
  let! nanos := now_nanos in ret (show (nanos / 1000000000)).

(** The connection of an executing capture: what BEGIN and COMMIT return, the
    processes it sees and the clocks of its fence. *)
Record capture_conn := CaptureConn {
  cc_begun : result unit DbError;
  cc_committed : result unit DbError;
  cc_sys : os;
  cc_own : string;
  cc_cleanup_ms : Z;
  cc_now_ms : Z;
}.

Definition capture_error (e : DbError + StoreError) : BusError + StoreError :=
  match e with
  | inl (DbRuntimeWriterLeaseLost name owner _ operation) => inl (CaptureWriterLeaseLost operation name owner)
  | inl (DbSqlite message) => inl (BusDb message)
  | inr e => inr e
  end.

Definition capture_write (conn : capture_conn) (lease : RuntimeWriterLease) (drawer : Drawer)
    (st : lease_db * Db) : (lease_db * Db) * result unit (BusError + StoreError) :=
  let '(st', r) :=
    with_runtime_writer_lease_write blake3_hex (fun e => inl e) true (cc_begun conn) (cc_committed conn)
      (cc_sys conn) (cc_own conn) (Some lease) "capture cowork handoff" (cc_cleanup_ms conn) (cc_now_ms conn)
      (fun st => let '(db', r) := insert_drawer st.2 drawer in
                 ((st.1, db'), match r with Ok v => Ok v | Err e => Err (inr e) end)) st in
  (st', match r with Ok v => Ok v | Err e => Err (capture_error e) end).

(** What the capture computes before it writes: the report and its identifier. *)
Definition capture_report (request : CoworkCaptureRequest) : bus (CoworkCaptureReport * string * string) :=
  if negb (bool_decide (cr_summary_source request = "handoff"))
  then fail (UnsupportedCaptureSource (cr_summary_source request))
  else
    let! summary := build_handoff_summary mempal_home cwd
                      {| hf_thread_id := cr_thread_id request; hf_channel := cr_channel request;
                         hf_session_id := cr_session_id request; hf_limit := Some 50 |} in
    let! id := capture_id in
    let content := capture_content id (path_str cwd) (cr_note request) summary in
    let drawer_id := build_bootstrap_evidence_drawer_id (cr_wing request) (cr_room request) content AgentObservation in
    ret ({| cp_writes := cr_execute request; cp_drawer_id := Some drawer_id; cp_wing := cr_wing request;
            cp_room := cr_room request; cp_source := "handoff"; cp_content := content |}, id, drawer_id).

Definition capture_handoff_to_memory (conn : option capture_conn) (lease : option RuntimeWriterLease)
    (request : CoworkCaptureRequest) (w : world) (st : lease_db * Db)
    : world * (lease_db * Db) * result CoworkCaptureReport (BusError + StoreError) :=
  match capture_report request w with
  | (w1, Err e) => (w1, st, Err (inl e))
  | (w1, Ok (report, id, drawer_id)) =>
      if negb (cr_execute request) then (w1, st, Ok report)
      else match conn, lease with
           | None, _ => (w1, st, Err (inl MissingCaptureDatabase))
           | Some _, None => (w1, st, Err (inl MissingCaptureWriterLease))
           | Some c, Some l =>
               match current_timestamp w1 with
               | (w2, Err e) => (w2, st, Err (inl e))
               | (w2, Ok added_at) =>
                   let drawer := new_bootstrap_evidence drawer_id (cp_content report) (cr_wing request)
                                   (cr_room request) (Some ("cowork-capture://" +:+ id)) AgentObservation
                                   added_at (Some 0) 3 in
                   let '(st', r) := capture_write c l drawer st in
                   (w2, st', match r with Ok _ => Ok report | Err e => Err e end)
               end
           end
  end.
End capture.

(** ** Reading leaves the bus alone *)
Section reads.
Context {E : BusEnv} {J : InboxJsonText} (mempal_home : string) (cwd : path).

Definition reads {A} (m : bus A) : Prop := ∀ w, w_fs (m w).1 = w_fs w.

Lemma bus_reads_bind {A B} (m : bus A) (k : A → bus B) : reads m → (∀ a, reads (k a)) → reads (bind m k).
Proof.
  intros Hm Hk w. unfold bind. specialize (Hm w). destruct (m w) as [w1 [a|e]]; simpl in *; [|done].
  by rewrite Hk, Hm.
Qed.

Lemma reads_to_string p : reads (read_to_string p).
Proof.
  apply bus_reads_bind; [done|]. intros _ w. by destruct (w_fs w !! p).
Qed.

Lemma reads_list_events limit : reads (list_events mempal_home cwd limit).
Proof.
  apply bus_reads_bind; [done|]. intros p. apply bus_reads_bind; [done|]. intros []; simpl; [|done].
  apply bus_reads_bind; [apply reads_to_string|]. intros raw. by apply bus_reads_bind.
Qed.

Lemma reads_load_file {A} p (none : A) of_json : reads (load_file p none of_json).
Proof.
  apply bus_reads_bind; [done|]. intros []; simpl; [|done].
  apply bus_reads_bind; [apply reads_to_string|]. intros raw. by destruct (is_empty _).
Qed.

Lemma reads_load_registry : reads (load_registry mempal_home cwd).
Proof. apply bus_reads_bind; [done|]. intros p. apply reads_load_file. Qed.

Lemma reads_agent_status : reads (list_agent_status mempal_home cwd).
Proof.
  apply bus_reads_bind; [done|]. intros now. apply bus_reads_bind; [apply reads_load_registry|]. intros registry.
  induction (btree_values (reg_agents registry)) as [|r l IH]; [done|]. cbn [agent_statuses].
  apply bus_reads_bind; [done|]. intros p. apply bus_reads_bind.
  - apply bus_reads_bind; [done|]. intros []; simpl; [|done]. apply bus_reads_bind; [apply reads_to_string|done].
  - intros [[c b] preview]. by apply bus_reads_bind.
Qed.

Lemma reads_handoff filters : reads (build_handoff_summary mempal_home cwd filters).
Proof.
  do 3 (apply bus_reads_bind; [done|intros _]). apply bus_reads_bind.
  { apply bus_reads_bind; [|done]. apply bus_reads_bind; [done|]. intros p. apply reads_load_file. }
  intros sessions. apply bus_reads_bind; [apply reads_agent_status|]. intros statuses. apply bus_reads_bind.
  { apply bus_reads_bind; [done|]. intros _. apply bus_reads_bind; [apply reads_list_events|done]. }
  intros deliveries. apply bus_reads_bind; [apply reads_list_events|done].
Qed.

Lemma reads_capture_report `{SE : StoreEnv} request : reads (capture_report mempal_home cwd request).
Proof.
  unfold capture_report. destruct (negb _); [done|]. apply bus_reads_bind; [apply reads_handoff|]. intros summary.
  apply bus_reads_bind; [|done]. apply bus_reads_bind; [done|]. intros nanos. by apply bus_reads_bind.
Qed.

(** The report, when there is one. *)
Lemma capture_report_ok `{SE : StoreEnv} request w w1 report id drawer_id :
  capture_report mempal_home cwd request w = (w1, Ok (report, id, drawer_id)) →
  cp_writes report = cr_execute request ∧ cp_drawer_id report = Some drawer_id.
Proof.
  unfold capture_report. destruct (negb _); [done|]. unfold bind.
  destruct (build_handoff_summary _ _ _ w) as [w2 [summary|]]; [|done].
  destruct (capture_id w2) as [w3 [i|]]; [|done]. by intros [= _ <- _ <-].
Qed.
End reads.

(** A fenced insertion of a drawer: refused, it changes nothing; done, its lease was
    active. *)
Lemma capture_write_spec `{SE : StoreEnv} `{SL : !StoreLaws SE} `{JT : JsonText} blake3_hex conn lease drawer st st' r :
  capture_write blake3_hex conn lease drawer st = (st', r) →
  d_source_type drawer = AgentObservation → validate_anchor_domain (d_domain drawer) (d_anchor_kind drawer) = Ok tt →
  match r with
  | Err _ => st' = st
  | Ok _ =>
      lease_row_active (cc_now_ms conn) (rl_name lease) (rl_owner lease) (rl_session_id lease) (rl_generation lease)
        (runtime_writer_lease_cleanup_expired_tx blake3_hex (cc_sys conn) (cc_own conn) true
           (cc_cleanup_ms conn) st.1).1 = true
      ∧ (db_drawers st.2 !! d_id drawer = None → get_drawer st'.2 (d_id drawer) = Ok (Some (stored_drawer drawer)))
      ∧ ∀ i, i ≠ d_id drawer → get_drawer st'.2 i = get_drawer st.2 i
  end.
Proof.
  intros Hw Hsrc Hanchor. revert Hw. unfold capture_write, with_runtime_writer_lease_write,
    with_runtime_writer_lease_transaction, fenced_body, require_runtime_writer_lease_tx. simpl.
  destruct (cc_begun conn); [|by intros [= <- <-]].
  destruct (lease_row_active _ _ _ _ _ _); [|by intros [= <- <-]]. simpl.
  destruct (insert_drawer st.2 drawer) as [db' [[]|e]] eqn:Hi; [|by intros [= <- <-]].
  destruct (cc_committed conn); [|by intros [= <- <-]]. intros [= <- <-]. simpl. split; [done|].
  destruct (insert_once_spec _ _ _ _ _ _ _ _ _ Hi) as [(-> & Hr)|(_ & _ & Hm & Ha & _ & ->)].
  - split; [|done]. intros Hnone. destruct Hr as [[_ [x Hx]]|?]; [congruence|done].
  - split; [intros _; by apply get_inserted|]. intros i Hne. unfold get_drawer, active_row. simpl.
    by rewrite lookup_insert_ne.
Qed.

(** ** Properties *)

(** A capture of a hand-over is a read of the bus and, when it executes, one
    fenced insertion. The files of the bus are as before. A preview, and a capture
    that fails, for a missing database or lease, a lost lease or a failing
    statement, leaves the database as it was. A capture that succeeds ran while
    its writer lease was active, and the drawer it names holds the captured text
    as evidence, unless that identifier was already in use; every other drawer
    reads as before. *)
Theorem capture_is_fenced {E : BusEnv} {J : InboxJsonText} {SE : StoreEnv} {SL : StoreLaws SE} {JT : JsonText}
    blake3_hex mempal_home cwd conn lease request w st w' st' r :
  capture_handoff_to_memory mempal_home cwd blake3_hex conn lease request w st = (w', st', r) →
  w_fs w' = w_fs w ∧
  match r with
  | Err _ => st' = st
  | Ok report =>
      ∃ id, cp_drawer_id report = Some id ∧ cp_writes report = cr_execute request
      ∧ if cr_execute request then
          ∃ c l, conn = Some c ∧ lease = Some l
          ∧ lease_row_active (cc_now_ms c) (rl_name l) (rl_owner l) (rl_session_id l) (rl_generation l)
              (runtime_writer_lease_cleanup_expired_tx blake3_hex (cc_sys c) (cc_own c) true
                 (cc_cleanup_ms c) st.1).1 = true
          ∧ (db_drawers st.2 !! id = None → ∃ d, get_drawer st'.2 id = Ok (Some d)
               ∧ d_content d = cp_content report ∧ d_memory_kind d = Evidence ∧ d_source_type d = AgentObservation
               ∧ d_wing d = cr_wing request ∧ d_room d = cr_room request)
          ∧ ∀ i, i ≠ id → get_drawer st'.2 i = get_drawer st.2 i
        else st' = st
  end.
Proof.
  unfold capture_handoff_to_memory. pose proof (reads_capture_report mempal_home cwd request w) as Hfs.
  destruct (capture_report mempal_home cwd request w) as [w1 [[[report id] drawer_id]|e]] eqn:Hr;
    simpl in Hfs; [|by intros [= <- <- <-]].
  destruct (capture_report_ok _ _ _ _ _ _ _ _ Hr) as [Hwr Hid].
  destruct (cr_execute request) eqn:Hex; simpl; [|intros [= <- <- <-]; split; [done|]; by exists drawer_id].
  destruct conn as [c|]; [|by intros [= <- <- <-]]. destruct lease as [l|]; [|by intros [= <- <- <-]].
  unfold current_timestamp, bind, now_nanos, ret. set (drawer := new_bootstrap_evidence _ _ _ _ _ _ _ _ _).
  destruct (capture_write blake3_hex c l drawer st) as [st1 r1] eqn:Hw.
  pose proof (capture_write_spec _ _ _ _ _ _ _ Hw eq_refl eq_refl) as Hs.
  intros [= <- <- <-]. split; [done|]. destruct r1 as [[]|e]; [|done].
  destruct Hs as (Hact & Hnew & Hother). exists drawer_id. split_and!; try done.
  exists c, l. split_and!; try done. intros Hnone. exists (stored_drawer drawer). by split; [apply Hnew|].
Qed.

#[local] Existing Instance plain_bus.
Import Plain.

(** A capture of the story's bus under a lease that is active. *)
Module CaptureStory.
Definition request : CoworkCaptureRequest :=
  {| cr_summary_source := "handoff"; cr_wing := "w"; cr_room := None; cr_thread_id := None; cr_channel := None;
     cr_session_id := None; cr_note := Some "n"; cr_execute := true |}.
Definition conn : capture_conn :=
  CaptureConn (Ok tt) (Ok tt) witness_os "birth-1" 1776211210000 1776211210000.
Definition memory : lease_db * Db := (first_acquired.1, MkDb ∅ ∅ ∅ [] []).
Definition captured : world * (lease_db * Db) * result CoworkCaptureReport (BusError + StoreError) :=
  capture_handoff_to_memory BusStory.home BusStory.here String.rev (Some conn) (Some first_lease) request
    BusStory.sent memory.
End CaptureStory.

Lemma capture_is_fenced_witness :
  is_ok CaptureStory.captured.2 = true ∧ w_fs CaptureStory.captured.1.1 = w_fs BusStory.sent.
Proof.
  split; [vm_compute; reflexivity|].
  destruct CaptureStory.captured as [[w' st'] r] eqn:Hc.
  exact (proj1 (capture_is_fenced String.rev BusStory.home BusStory.here (Some CaptureStory.conn) (Some first_lease)
    CaptureStory.request BusStory.sent CaptureStory.memory w' st' r Hc)).
Defined.
