(* ===== verification/Admission.v ===== *)
(** * Admission of database holders

    [src/src/core/db_admission.rs] with its [_budget], [_lease], [_paths],
    [_release] and [_state] files: before a process opens the database it takes a
    seat in a state file beside it, under limits on the number of holders and on
    their page caches. Every seat has a lease file that its holder keeps locked,
    so that the seat of a process that died can be told from one in use.

    The functions are programs over the files beside the database. A process holds
    the admission lock from the start of each of them to its end, so they run one
    at a time; each system call may fail, and the process may die at any call.
    The hash and the JSON codec are one environment for all processes
    ([AdmissionCodec]); clocks, faults and the state of the locks are another, of
    the run of one operation ([AdmissionEnv]). *)

From Stdlib Require Import ZArith Lia String Ascii.
From stdpp Require Import base tactics list gmap strings numbers.
From S2P Require Import Prelude Order Text ProcessIdentity.
Open Scope Z_scope.
Open Scope rust_scope.

Definition DEFAULT_MAX_HOLDERS : Z := 16.
Definition DEFAULT_RESERVED_SERVICE_HOLDERS : Z := 2.
Definition DEFAULT_MAX_CACHE_BYTES : Z := 256 * 1024 * 1024.
Definition ADMISSION_LOCK_TIMEOUT : Z := 250 * 1000000.   (* nanoseconds *)
Definition ADMISSION_LOCK_RETRY : Z := 2 * 1000000.
Definition ADMISSION_RELEASE_MAX_ATTEMPTS : nat := 3.
Definition HOLDER_LEASE_VERSION : Z := 1.
Definition ADMISSION_STATE_SCHEMA_VERSION : Z := 1.
Definition MAX_ADMISSION_STATE_BYTES : Z := 64 * 1024.
Definition MAX_STAGED_STATE_CREATE_ATTEMPTS : nat := 8.

(** ** Data *)
Inductive DbHolderClass := ClassDaemon | ClassMcp | ClassApi | ClassCli | ClassHook | ClassUnknown.

#[export] Instance holder_class_eq_dec : EqDecision DbHolderClass.
Proof. solve_decision. Defined.

Definition holder_class_str (c : DbHolderClass) : string :=
  match c with
  | ClassDaemon => "daemon" | ClassMcp => "mcp" | ClassApi => "api"
  | ClassCli => "cli" | ClassHook => "hook" | ClassUnknown => "unknown"
  end.

(** [current_process]: the first of the three arguments after the program that
    names a surface; an argument that is not UTF-8 names none. *)
Fixpoint surface_of (args : list (option string)) : DbHolderClass :=
  match args with
  | [] => ClassCli
  | Some arg :: rest =>
      if bool_decide (arg = "daemon") then ClassDaemon
      else if bool_decide (arg = "serve") then ClassMcp
      else if bool_decide (arg = "hook") then ClassHook
      else surface_of rest
  | None :: rest => surface_of rest
  end.

Definition current_process (args : list (option string)) : DbHolderClass := surface_of (take 3 (drop 1 args)).

Definition is_service_holder (c : DbHolderClass) : bool :=
  match c with ClassDaemon | ClassMcp => true | _ => false end.

Record DbAdmissionConfig := Config {
  cfg_max_holders : Z;
  cfg_max_cache_bytes : Z;
  cfg_reserved_service_holders : Z;
}.

Definition config_new (max_holders max_cache_bytes : Z) : DbAdmissionConfig :=
  Config max_holders max_cache_bytes
    (if DEFAULT_RESERVED_SERVICE_HOLDERS <? max_holders then DEFAULT_RESERVED_SERVICE_HOLDERS else max_holders).

Definition with_reserved_service_holders (c : DbAdmissionConfig) (reserved : Z) : DbAdmissionConfig :=
  Config (cfg_max_holders c) (cfg_max_cache_bytes c)
    (if reserved <? cfg_max_holders c then reserved else cfg_max_holders c).

Definition config_default : DbAdmissionConfig := config_new DEFAULT_MAX_HOLDERS DEFAULT_MAX_CACHE_BYTES.

Record DbAdmissionRequest := Request {
  rq_holder_class : DbHolderClass;
  rq_connection_count : Z;
  rq_configured_cache_bytes : Z;
}.

Inductive BudgetExceededReason := HolderLimit | CacheBudget | ReservedServiceSlots.

Record budget_report := {
  br_active_holders : Z;
  br_active_cache_bytes : Z;
  br_reaped_stale_holders : Z;
  br_service_holders : Z;
  br_reason : BudgetExceededReason;
}.

Inductive DbAdmissionError :=
  | InvalidRequest (message : string)
  | AdmissionBusy (path : string)
  | BudgetExceeded (report : budget_report)
  | AdmissionIo (message : string)
  | UnsafeSidecarDirectory (path reason : string)
  | UnsafeSidecar (path reason : string)
  | StateTooLarge (actual_bytes : Z)
  | UnsupportedStateVersion (version : Z)
  | InvalidState.

Record DbAdmissionHolder := Holder {
  h_class : DbHolderClass;
  h_owner : string;
  h_pid : Z;
  h_generation : Z;
  h_acquired_at : Z;
  h_connections : Z;
  h_cache_bytes : Z;
  h_token : string;
  h_process_identity : string;
  h_pid_namespace : option string;
  h_lease_version : Z;
}.

Inductive UnknownHolderReason :=
  | UnknownLeaseVersion | LeaseOpenUnavailable | LeaseLockUnavailable | LegacyProcessIdentityUnverifiable.

Inductive HolderLiveness := HolderLive | HolderDead | HolderUnknown (reason : UnknownHolderReason).

Record AdmissionState := MkState {
  st_schema_version : Z;
  st_next_generation : Z;
  st_holders : list DbAdmissionHolder;
}.

Definition state_default : AdmissionState := MkState ADMISSION_STATE_SCHEMA_VERSION 0 [].

(** The seat a process has taken, but for the open, locked lease file. *)
Record ProfileDbAdmission := Admission {
  pa_owner : string;
  pa_token : string;
  pa_generation : Z;
  pa_lease_path : string;
}.

Record DbAdmissionSnapshot := {
  sn_holders : list DbAdmissionHolder;
  sn_reaped : Z;
  sn_unknown : list (Z * UnknownHolderReason);
  sn_service_holders : Z;
  sn_active_cache_bytes : Z;
  sn_available_cache_bytes : Z;
}.

(** ** Budgets *)
Definition validate_request (request : DbAdmissionRequest) (config : DbAdmissionConfig)
    : result unit DbAdmissionError :=
  if rq_connection_count request =? 0 then Err (InvalidRequest "connection_count must be positive")
  else if rq_configured_cache_bytes request =? 0
  then Err (InvalidRequest "configured_cache_bytes must be positive")
  else if (cfg_max_holders config =? 0) || (cfg_max_cache_bytes config =? 0)
  then Err (InvalidRequest "profile limits must be positive")
  else if cfg_max_holders config <? cfg_reserved_service_holders config
  then Err (InvalidRequest "reserved_service_holders must not exceed max_holders")
  else Ok tt.

Definition budget_exceeded_reason (active_holders : Z) (request : DbAdmissionRequest)
    (config : DbAdmissionConfig) (active_cache_bytes : Z) : option BudgetExceededReason :=
  if cfg_max_holders config <=? active_holders then Some HolderLimit
  else if cfg_max_cache_bytes config <? sat_u64 (active_cache_bytes + rq_configured_cache_bytes request)
  then Some CacheBudget
  else if negb (is_service_holder (rq_holder_class request))
          && (0 <? cfg_reserved_service_holders config)
          && (cfg_max_holders config
              <? sat_u64 (sat_u64 (active_holders + 1) + cfg_reserved_service_holders config))
  then Some ReservedServiceSlots
  else None.

Definition active_cache_bytes (holders : list DbAdmissionHolder) : Z :=
  foldl (fun total h => sat_u64 (total + h_cache_bytes h)) 0 holders.

Definition service_holders (holders : list DbAdmissionHolder) : Z :=
  Z.of_nat (length (List.filter (fun h => is_service_holder (h_class h)) holders)).

(** ** Files beside the database *)
Record lease_file := Lease { lf_owner : option nat; lf_safe : bool }.
Record temp_file := Temp { tf_content : string; tf_safe : bool }.

(** [sc_calls] counts the calls made so far and [sc_time] is the monotonic clock. *)
Record sidecars := Sidecars {
  sc_state : option string;
  sc_temps : gmap string temp_file;
  sc_leases : gmap string lease_file;
  sc_calls : nat;
  sc_time : Z;
}.

(** What happens at a call: it fails, it meets a symbolic link, or the process
    dies. *)
Inductive fault := FaultIo (message : string) | FaultSymlink | FaultCrash.

Class AdmissionCodec := {
  ad_blake3 : string → string;          (* in hexadecimal *)
  state_to_json : AdmissionState → string;
  state_of_json : string → option AdmissionState;
}.

Class AdmissionEnv := {
  ad_fault : nat → option fault;
  ad_elapsed : nat → nat;               (* nanoseconds spent in a call *)
  ad_lock_free : nat → bool;            (* the admission lock, when it is tried *)
  ad_fork_pending : nat → bool;         (* [fork_writer_pending] *)
  ad_fork_read : nat → bool;            (* the fork lock, when it is tried *)
  ad_clock : nat → Z;                   (* seconds since the epoch *)
  ad_temp_token : nat → string;         (* [staged_state_token] *)
  ad_dir_order : list string → list string;
  ad_os : os;
  ad_own_identity : string;             (* [current_process_identity] *)
}.

(** [Exhausted] is a loop that ran out of fuel; [lock_state_returns] shows that
    none does. *)
Inductive outcome (A : Type) := Done (r : result A DbAdmissionError) | Crashed | Exhausted.
Arguments Done {A} r.
Arguments Crashed {A}.
Arguments Exhausted {A}.

Definition adm (A : Type) : Type := sidecars → sidecars * outcome A.

Definition aret {A} (a : A) : adm A := fun s => (s, Done (Ok a)).
Definition afail {A} (e : DbAdmissionError) : adm A := fun s => (s, Done (Err e)).
Definition abind {A B} (m : adm A) (k : A → adm B) : adm B :=
  fun s => match m s with
           | (s', Done (Ok a)) => k a s'
           | (s', Done (Err e)) => (s', Done (Err e))
           | (s', Crashed) => (s', Crashed)
           | (s', Exhausted) => (s', Exhausted)
           end.
(** The result as a value: what [match f() { Ok .. Err .. }] sees. *)
Definition attempt {A} (m : adm A) : adm (result A DbAdmissionError) :=
  fun s => match m s with
           | (s', Done r) => (s', Done (Ok r))
           | (s', Crashed) => (s', Crashed)
           | (s', Exhausted) => (s', Exhausted)
           end.

Notation "'let!' x ':=' m 'in' k" := (abind m (fun x => k))
  (at level 10, x pattern, m at level 200, k at level 200) : rust_scope.

Definition with_state (o : option string) (s : sidecars) : sidecars :=
  Sidecars o (sc_temps s) (sc_leases s) (sc_calls s) (sc_time s).
Definition with_temps (m : gmap string temp_file) (s : sidecars) : sidecars :=
  Sidecars (sc_state s) m (sc_leases s) (sc_calls s) (sc_time s).
Definition with_leases (m : gmap string lease_file) (s : sidecars) : sidecars :=
  Sidecars (sc_state s) (sc_temps s) m (sc_calls s) (sc_time s).
Definition gets {A} (f : sidecars → A) : adm A := fun s => (s, Done (Ok (f s))).
Definition changes (f : sidecars → sidecars) : adm unit := fun s => (f s, Done (Ok tt)).

(** ** Paths *)
Record AdmissionPaths := Paths { ap_dir : string; ap_name : string }.

Definition state_name (p : AdmissionPaths) : string := "." +:+ ap_name p +:+ ".admission.json".
Definition lock_name (p : AdmissionPaths) : string := "." +:+ ap_name p +:+ ".admission.lock".

(** What [metadata] says of a path. *)
Record metadata := Metadata { md_is_dir : bool; md_is_file : bool; md_own_uid : bool; md_others_write : bool; md_nlink : Z }.

(** What the file system answers while a database path is resolved. *)
Record path_facts := PathFacts {
  pf_create_parent : option string;                       (* error of [create_dir_all] *)
  pf_parent : result string string;                       (* [canonicalize] of the parent *)
  pf_parent_meta : string → result metadata string;
  pf_file_name : option string;                           (* a UTF-8 file name *)
  pf_canonical : option (string * string);                (* [canonicalize] of the file: its directory and name *)
  pf_file_meta : option metadata;
}.

Definition validate_sidecar_parent (facts : path_facts) (parent : string) : result unit DbAdmissionError :=
  match pf_parent_meta facts parent with
  | Err e => Err (AdmissionIo e)
  | Ok m =>
      if negb (md_is_dir m) then Err (UnsafeSidecarDirectory parent "sidecar parent is not a directory")
      else if negb (md_own_uid m)
      then Err (UnsafeSidecarDirectory parent "sidecar parent is not owned by the current user")
      else if md_others_write m
      then Err (UnsafeSidecarDirectory parent "sidecar parent is writable by group or other users")
      else Ok tt
  end.

Definition admission_paths_new (facts : path_facts) : result AdmissionPaths DbAdmissionError :=
  let? _ := match pf_create_parent facts with Some e => Err (AdmissionIo e) | None => Ok tt end in
  let? parent := match pf_parent facts with Ok p => Ok p | Err e => Err (AdmissionIo e) end in
  let? _ := validate_sidecar_parent facts parent in
  match pf_file_name facts with
  | None => Err (InvalidRequest "database path must have a UTF-8 file name")
  | Some lexical_name =>
      let? (dir, name) :=
        match pf_canonical facts with
        | Some (dir, name) =>
            if match pf_file_meta facts with Some m => md_is_file m && (1 <? md_nlink m) | None => false end
            then Err (InvalidRequest "database file has multiple hard links; admission identity cannot be established safely")
            else Ok (dir, name)
        | None => Ok (parent, lexical_name)
        end in
      let? _ := validate_sidecar_parent facts dir in
      Ok (Paths dir name)
  end.

Definition is_lower_hex_byte (c : ascii) : bool :=
  let b := byte_of c in ((48 <=? b) && (b <=? 57)) || ((97 <=? b) && (b <=? 102)).

Fixpoint all_bytes (f : ascii → bool) (s : string) : bool :=
  match s with EmptyString => true | String c rest => f c && all_bytes f rest end.

Definition is_lower_hex (value : string) (expected_len : Z) : bool :=
  (str_len value =? expected_len) && all_bytes is_lower_hex_byte value.

Definition strip_prefix (prefix s : string) : option string :=
  if String.prefix prefix s then Some (drop_bytes (String.length prefix) s) else None.
Definition strip_suffix (suffix s : string) : option string :=
  match strip_prefix (String.rev suffix) (String.rev s) with Some r => Some (String.rev r) | None => None end.

Section operations.
Context {C : AdmissionCodec} {E : AdmissionEnv} (paths : AdmissionPaths).

(** The file name of a holder's lease. *)
Definition holder_lease_path (token : string) : string :=
  state_name paths +:+ "." +:+ String.substring 0 24 (ad_blake3 token) +:+ ".lease".
Definition state_temp_path (token : string) : string := state_name paths +:+ ".tmp." +:+ token.

Definition is_current_lease_path (name : string) : bool :=
  match strip_prefix (state_name paths) name with
  | None => false
  | Some rest =>
      match strip_prefix "." rest with
      | None => false
      | Some rest => match strip_suffix ".lease" rest with
                     | None => false
                     | Some lease_id => is_lower_hex lease_id 24
                     end
      end
  end.

Definition is_current_state_temp_path (name : string) : bool :=
  match strip_prefix (state_name paths) name with
  | None => false
  | Some rest => match strip_prefix ".tmp." rest with
                 | None => false
                 | Some token => is_lower_hex token 32
                 end
  end.

Definition atick (s : sidecars) : sidecars :=
  Sidecars (sc_state s) (sc_temps s) (sc_leases s) (S (sc_calls s)) (sc_time s + Z.of_nat (ad_elapsed (sc_calls s))).

(** A system call that changes nothing by itself; [fails] is what the caller makes
    of its error. *)
Definition acall_as (fails : fault → DbAdmissionError) : adm unit :=
  fun s => (atick s, match ad_fault (sc_calls s) with
                     | Some FaultCrash => Crashed
                     | Some f => Done (Err (fails f))
                     | None => Done (Ok tt)
                     end).
Definition io_error (f : fault) : DbAdmissionError :=
  match f with
  | FaultIo message => AdmissionIo message
  | _ => AdmissionIo "Too many levels of symbolic links (os error 40)"
  end.
Definition acall : adm unit := acall_as io_error.

Definition open_sidecar (name : string) : adm unit :=
  acall_as (fun f => match f with
                     | FaultSymlink => UnsafeSidecar name "symlink traversal is prohibited"
                     | _ => io_error f
                     end).
Definition verify_sidecar_inode (name : string) : adm unit :=
  acall_as (fun _ => UnsafeSidecar name "sidecar pathname and opened inode do not match").

(** ** The admission lock *)
Definition anow : adm Z := fun s => (atick s, Done (Ok (sc_time (atick s)))).
Definition aask (f : nat → bool) : adm bool := fun s => (atick s, Done (Ok (f (sc_calls s)))).
Definition asleep (d : Z) : adm unit :=
  changes (fun s => Sidecars (sc_state s) (sc_temps s) (sc_leases s) (sc_calls s) (sc_time s + Z.max d 0)).
Definition busy {A} : adm A := afail (AdmissionBusy (lock_name paths)).
Definition exhausted {A} : adm A := fun s => (s, Exhausted).

(** [admission_state_fork_guard], with whether it waited. *)
Fixpoint fork_guard_loop (fuel : nat) (deadline : Z) (waited : bool) : adm bool :=
  match fuel with
  | O => exhausted
  | S fuel' =>
      let! pending := aask ad_fork_pending in
      let! guard := if negb pending then aask ad_fork_read else aret false in
      let! taken := if guard then let! p := aask ad_fork_pending in aret (negb p) else aret false in
      if taken then aret waited
      else
        let! now := anow in
        if deadline <=? now then busy
        else
          let! _ := asleep (Z.min ADMISSION_LOCK_RETRY (deadline - now)) in
          fork_guard_loop fuel' deadline true
  end.

Definition admission_state_fork_guard (fuel : nat) (deadline : Z) : adm unit :=
  let! waited := fork_guard_loop fuel deadline false in
  if waited then let! now := anow in if deadline <=? now then busy else aret tt else aret tt.

(** [waited && now() >= deadline]: the clock is read only after a wait. *)
Definition too_late (waited : bool) (deadline : Z) : adm bool :=
  if waited then let! now := anow in aret (deadline <=? now) else aret false.

Fixpoint lock_loop (fuel : nat) (deadline : Z) (waited : bool) : adm unit :=
  match fuel with
  | O => exhausted
  | S fuel' =>
      let! late := too_late waited deadline in
      if late then busy
      else
        let! _ := acall in
        let! locked := aask ad_lock_free in
        if locked then let! late := too_late waited deadline in if late then busy else aret tt
        else
          let! now := anow in
          if deadline <=? now then busy
          else
            let! now' := anow in
            let! _ := asleep (Z.min ADMISSION_LOCK_RETRY (Z.max (deadline - now') 0)) in
            lock_loop fuel' deadline true
  end.

(** One more round than there are retries before the deadline. *)
Definition lock_fuel : nat := 126.

Definition lock_state : adm unit :=
  let! started := anow in
  let deadline := started + ADMISSION_LOCK_TIMEOUT in
  let! _ := admission_state_fork_guard lock_fuel deadline in
  let! _ := open_sidecar (lock_name paths) in
  let! _ := verify_sidecar_inode (lock_name paths) in
  lock_loop lock_fuel deadline false.

(** ** Lease files *)
Definition lease_locked (name : string) (s : sidecars) : bool :=
  match sc_leases s !! name with Some l => bool_decide (is_Some (lf_owner l)) | None => false end.

Definition holder_lease_liveness (name : string) : adm HolderLiveness :=
  let! opened := attempt acall in
  match opened with
  | Err _ => aret (HolderUnknown LeaseOpenUnavailable)
  | Ok _ =>
      let! there := gets (fun s => bool_decide (is_Some (sc_leases s !! name))) in
      if negb there then aret HolderDead
      else
        let! tried := attempt acall in
        match tried with
        | Err _ => aret (HolderUnknown LeaseLockUnavailable)
        | Ok _ => let! locked := gets (lease_locked name) in aret (if locked then HolderLive else HolderDead)
        end
  end.

Definition remove_holder_lease (name : string) : adm unit :=
  let! _ := acall in
  let! there := gets (fun s => bool_decide (is_Some (sc_leases s !! name))) in
  if negb there then aret tt
  else let! _ := changes (fun s => with_leases (delete name (sc_leases s)) s) in acall.

(** [process] is the process that keeps the file open and locked. *)
Definition create_holder_lease (name : string) (process : nat) : adm unit :=
  let! _ := acall in
  let! there := gets (fun s => bool_decide (is_Some (sc_leases s !! name))) in
  if there then afail (AdmissionIo "File exists (os error 17)")
  else
    let! _ := changes (fun s => with_leases (<[name := Lease None true]> (sc_leases s)) s) in
    let! tried := attempt (let! _ := acall in gets (lease_locked name)) in
    match tried with
    | Err e => let! _ := attempt (remove_holder_lease name) in afail e
    | Ok true =>
        let! _ := attempt (remove_holder_lease name) in
        afail (AdmissionIo "new database holder lease is unexpectedly locked")
    | Ok false =>
        let! _ := changes (fun s => with_leases (<[name := Lease (Some process) true]> (sc_leases s)) s) in
        let! synced := attempt (let! _ := acall in acall) in
        match synced with
        | Ok _ => aret tt
        (* the file is closed on the way out, which unlocks it *)
        | Err e => let! _ := changes (fun s => with_leases (<[name := Lease None true]> (sc_leases s)) s) in afail e
        end
    end.

Definition remove_unreferenced_lease (name : string) : adm bool :=
  let! _ := acall in
  let! file := gets (fun s => sc_leases s !! name) in
  match file with
  | None => aret false
  | Some l =>
      let! _ := acall in
      if negb (lf_safe l) then aret false
      else
        let! _ := acall in
        if bool_decide (is_Some (lf_owner l)) then aret false
        else
          let! _ := acall in
          let! _ := acall in
          let! _ := changes (fun s => with_leases (delete name (sc_leases s)) s) in
          let! _ := acall in
          aret true
  end.

(** The entries of the directory, in the order they are listed. *)
Definition read_dir : adm (list string) :=
  let! _ := acall in
  gets (fun s => ad_dir_order ((map_to_list (sc_temps s)).*1 ++ (map_to_list (sc_leases s)).*1)).

(** Over the entries of the directory; an entry that cannot be checked stays. *)
Fixpoint sweep_each (candidate : string → bool) (remove : string → adm bool) (names : list string)
    (reclaimed : Z) : adm Z :=
  match names with
  | [] => aret reclaimed
  | name :: rest =>
      let! _ := acall in
      if negb (candidate name) then sweep_each candidate remove rest reclaimed
      else
        let! r := attempt (remove name) in
        sweep_each candidate remove rest (match r with Ok true => reclaimed + 1 | _ => reclaimed end)
  end.

Definition sweep_unreferenced_holder_leases (holders : list DbAdmissionHolder) : adm Z :=
  let protected := (fun h => holder_lease_path (h_token h)) <$> holders in
  let! names := read_dir in
  sweep_each (fun n => is_current_lease_path n && negb (bool_decide (n ∈ protected)))
    remove_unreferenced_lease names 0.

(** ** The state file *)
Definition remove_staged_state_file (name : string) : adm bool :=
  let! _ := acall in
  let! file := gets (fun s => sc_temps s !! name) in
  match file with
  | None => aret false
  | Some t =>
      let! _ := acall in
      if negb (tf_safe t) then afail (AdmissionIo "unsafe sidecar inode")
      else
        let! _ := acall in
        let! _ := changes (fun s => with_temps (delete name (sc_temps s)) s) in
        let! _ := acall in
        aret true
  end.

Definition sweep_staged_state_files : adm Z :=
  let! names := read_dir in
  sweep_each is_current_state_temp_path remove_staged_state_file names 0.

Definition load_state : adm AdmissionState :=
  let! _ := open_sidecar (state_name paths) in
  let! file := gets sc_state in
  match file with
  | None => aret state_default
  | Some text =>
      let! _ := verify_sidecar_inode (state_name paths) in
      let! _ := acall in
      if MAX_ADMISSION_STATE_BYTES <? str_len text then afail (StateTooLarge (str_len text))
      else
        let! _ := acall in
        if is_empty text then aret state_default
        else match state_of_json text with
             | None => afail InvalidState
             | Some state =>
                 if st_schema_version state =? ADMISSION_STATE_SCHEMA_VERSION then aret state
                 else afail (UnsupportedStateVersion (st_schema_version state))
             end
  end.

Fixpoint create_staged_state_file (attempts : nat) : adm string :=
  match attempts with
  | O => afail (AdmissionIo "could not allocate a unique admission state temp file")
  | S rest =>
      let! token := gets (fun s => ad_temp_token (sc_calls s)) in
      let name := state_temp_path token in
      let! _ := acall in
      let! there := gets (fun s => bool_decide (is_Some (sc_temps s !! name))) in
      if there then create_staged_state_file rest
      else let! _ := changes (fun s => with_temps (<[name := Temp "" true]> (sc_temps s)) s) in aret name
  end.

(** The write, the rename and what follows it. *)
Definition publish_state (staged text : string) : adm unit :=
  let! _ := acall in
  let! _ := changes (fun s => with_temps (<[staged := Temp text true]> (sc_temps s)) s) in
  let! _ := acall in
  let! _ := acall in
  let! _ := changes (fun s => with_state (Some text) (with_temps (delete staged (sc_temps s)) s)) in
  let! _ := acall in
  let! _ := open_sidecar (state_name paths) in
  verify_sidecar_inode (state_name paths).

Definition save_state (state : AdmissionState) : adm unit :=
  let encoded := state_to_json state in
  if MAX_ADMISSION_STATE_BYTES <? str_len encoded then afail (StateTooLarge (str_len encoded))
  else
    let! staged := create_staged_state_file MAX_STAGED_STATE_CREATE_ATTEMPTS in
    let! written := attempt (publish_state staged encoded) in
    match written with
    | Ok _ => aret tt
    | Err e => let! _ := attempt (remove_staged_state_file staged) in afail e
    end.

(** ** Reaping *)
Definition legacy_holder_liveness (h : DbAdmissionHolder) : HolderLiveness :=
  match process_identity_liveness ad_blake3 ad_os ad_own_identity (h_pid h) (h_process_identity h) (h_pid_namespace h) with
  | Live => HolderLive
  | Dead => HolderDead
  | Unverifiable => HolderUnknown LegacyProcessIdentityUnverifiable
  end.

Definition holder_liveness (h : DbAdmissionHolder) : adm HolderLiveness :=
  let name := holder_lease_path (h_token h) in
  if h_lease_version h =? HOLDER_LEASE_VERSION then holder_lease_liveness name
  else if h_lease_version h =? 0 then
    let! probe := attempt acall in
    let! there := gets (fun s => match probe with Ok _ => bool_decide (is_Some (sc_leases s !! name)) | Err _ => false end) in
    if there then holder_lease_liveness name else aret (legacy_holder_liveness h)
  else aret (HolderUnknown UnknownLeaseVersion).

(** The holders that stay, the number of dead ones and the doubtful ones. *)
Fixpoint reap_stale_holders (holders : list DbAdmissionHolder)
    : adm (list DbAdmissionHolder * Z * list (Z * UnknownHolderReason)) :=
  match holders with
  | [] => aret ([], 0, [])
  | h :: rest =>
      let! liveness := holder_liveness h in
      let! (kept, reaped, unknown) := reap_stale_holders rest in
      aret (match liveness with
            | HolderLive => (h :: kept, reaped, unknown)
            | HolderUnknown reason => (h :: kept, reaped, (h_generation h, reason) :: unknown)
            | HolderDead => (kept, reaped + 1, unknown)
            end)
  end.

Definition persist_reaped_holders (state : AdmissionState) (reaped : Z) : adm unit :=
  if reaped =? 0 then aret tt
  else
    let! _ := save_state state in
    let! _ := sweep_unreferenced_holder_leases (st_holders state) in
    aret tt.

(** What [acquire_with_config] and [snapshot_with_config] start with. *)
Definition current_holders : adm (AdmissionState * Z * list (Z * UnknownHolderReason)) :=
  let! _ := lock_state in
  let! _ := sweep_staged_state_files in
  let! state := load_state in
  let! _ := sweep_unreferenced_holder_leases (st_holders state) in
  let! (kept, reaped, unknown) := reap_stale_holders (st_holders state) in
  let state := MkState (st_schema_version state) (st_next_generation state) kept in
  let! _ := persist_reaped_holders state reaped in
  aret (state, reaped, unknown).

(** ** Seats *)
Definition admission_token (owner : string) (generation acquired_at : Z) : string :=
  String.substring 0 24 (ad_blake3 (owner +:+ NUL +:+ show generation +:+ NUL +:+ show acquired_at)).

Definition seat_order (a b : DbAdmissionHolder) : bool :=
  not_gt (then_with (Z.compare (h_generation a) (h_generation b)) (Z.compare (h_pid a) (h_pid b))).

Definition new_holder (request : DbAdmissionRequest) (generation acquired_at : Z) : DbAdmissionHolder :=
  let pid := os_pid ad_os in
  let owner := "mempal-" +:+ holder_class_str (rq_holder_class request) +:+ "-" +:+ show pid +:+ "-" +:+ ad_own_identity in
  Holder (rq_holder_class request) owner pid generation acquired_at (rq_connection_count request)
    (rq_configured_cache_bytes request) (admission_token owner generation acquired_at) ad_own_identity
    (current_pid_namespace ad_os) HOLDER_LEASE_VERSION.

(** [drop] of the locked lease file: the lock is gone. *)
Definition unlock_lease (name : string) : adm unit :=
  changes (fun s => match sc_leases s !! name with
                    | Some l => with_leases (<[name := Lease None (lf_safe l)]> (sc_leases s)) s
                    | None => s
                    end).

Definition acquire_with_config (process : nat) (request : DbAdmissionRequest) (config : DbAdmissionConfig)
    : adm ProfileDbAdmission :=
  let! _ := fun s => (s, Done (validate_request request config)) in
  let! (state, reaped, _) := current_holders in
  let cache := active_cache_bytes (st_holders state) in
  match budget_exceeded_reason (Z.of_nat (length (st_holders state))) request config cache with
  | Some reason =>
      afail (BudgetExceeded {| br_active_holders := Z.of_nat (length (st_holders state));
                               br_active_cache_bytes := cache; br_reaped_stale_holders := reaped;
                               br_service_holders := service_holders (st_holders state); br_reason := reason |})
  | None =>
      let generation := Z.max (sat_u64 (st_next_generation state + 1)) 1 in
      let! acquired_at := gets (fun s => ad_clock (sc_calls s)) in
      let h := new_holder request generation acquired_at in
      let name := holder_lease_path (h_token h) in
      let! _ := create_holder_lease name process in
      let state' := MkState (st_schema_version state) generation
                      (sort_by seat_order (st_holders state ++ [h])) in
      let! saved := attempt (save_state state') in
      match saved with
      | Err e =>
          let! _ := unlock_lease name in
          let! _ := attempt (remove_holder_lease name) in
          afail e
      | Ok _ => aret (Admission (h_owner h) (h_token h) generation name)
      end
  end.

Definition acquire (process : nat) (request : DbAdmissionRequest) : adm ProfileDbAdmission :=
  acquire_with_config process request config_default.

Definition snapshot_with_config (config : DbAdmissionConfig) : adm DbAdmissionSnapshot :=
  let! (state, reaped, unknown) := current_holders in
  let cache := active_cache_bytes (st_holders state) in
  aret {| sn_holders := st_holders state; sn_reaped := reaped; sn_unknown := unknown;
          sn_service_holders := service_holders (st_holders state); sn_active_cache_bytes := cache;
          sn_available_cache_bytes := sat_u64 (cfg_max_cache_bytes config - cache) |}.

Definition is_seat_of (a : ProfileDbAdmission) (h : DbAdmissionHolder) : bool :=
  bool_decide (h_token h = pa_token a) && (h_generation h =? pa_generation a) && bool_decide (h_owner h = pa_owner a).

Definition release (a : ProfileDbAdmission) : adm bool :=
  let! _ := lock_state in
  let! _ := sweep_staged_state_files in
  let! state := load_state in
  let! _ := sweep_unreferenced_holder_leases (st_holders state) in
  let kept := List.filter (fun h => negb (is_seat_of a h)) (st_holders state) in
  let released := negb (bool_decide (length kept = length (st_holders state))) in
  let! _ := if released then save_state (MkState (st_schema_version state) (st_next_generation state) kept)
            else aret tt in
  let! _ := if forallb (fun h => negb (bool_decide (h_token h = pa_token a))) kept
            then remove_holder_lease (pa_lease_path a) else aret tt in
  aret released.

End operations.

(** [acquire_with_config] from the path of a database: the request is checked
    before the path is resolved. *)
Definition acquire_at {C : AdmissionCodec} {E : AdmissionEnv} (facts : path_facts) (process : nat)
    (request : DbAdmissionRequest) (config : DbAdmissionConfig) : adm ProfileDbAdmission :=
  let! _ := fun s => (s, Done (validate_request request config)) in
  let! paths := fun s => (s, Done (admission_paths_new facts)) in
  acquire_with_config paths process request config.

Lemma resolved_paths facts dir name p :
  pf_canonical facts = Some (dir, name) → admission_paths_new facts = Ok p → p = Paths dir name.
Proof.
  intros Hc. unfold admission_paths_new. rewrite Hc. destruct (pf_create_parent facts); [done|]. cbn.
  destruct (pf_parent facts) as [parent|]; [|done]. cbn. destruct (validate_sidecar_parent facts parent); [|done]. cbn.
  destruct (pf_file_name facts); [|done]. destruct (match pf_file_meta facts with Some m => _ | None => _ end); [done|].
  cbn. destruct (validate_sidecar_parent facts dir); [|done]. by intros [= <-].
Qed.

(** Paths that resolve to one file name one set of sidecars. *)
Lemma one_file_one_admission facts facts' d p p' :
  pf_canonical facts = Some d → pf_canonical facts' = Some d →
  admission_paths_new facts = Ok p → admission_paths_new facts' = Ok p' → p = p'.
Proof.
  destruct d as [dir name]. intros Hc Hc' H H'.
  by rewrite (resolved_paths _ _ _ _ Hc H), (resolved_paths _ _ _ _ Hc' H').
Qed.
