(* ===== verification/AdmissionLogic.v ===== *)
(** * A program logic for the admission of holders

    [wp m Q X f] says that [m], from any state whose files are [f], ends with
    files that [Q] accepts with the result, or [X] with the error or the crash
    ([None]); no loop runs out. Clocks and call counts are hidden. A call may
    always fail unless the run is [calm]. There is a rule per function of
    [src/src/core/db_admission*.rs], in terms of what the state file says
    ([rows_on_file]) and which leases are locked. *)

From Stdlib Require Import ZArith Lia String Ascii.
From stdpp Require Import base tactics list gmap strings numbers relations.
From S2P Require Import Prelude Order Text ProcessIdentity Admission.
Open Scope Z_scope.
Open Scope rust_scope.

(** What the state file relies on of [serde_json]: a state is read back, is not
    the empty text, has a shorter text with fewer rows, and the text of no rows is
    short. *)
Class AdmissionCodecLaws (C : AdmissionCodec) : Prop := {
  state_roundtrip : ∀ st, state_of_json (state_to_json st) = Some st;
  state_not_empty : ∀ st, is_empty (state_to_json st) = false;
  state_shorter : ∀ v g hs hs', hs' `sublist_of` hs →
    str_len (state_to_json (MkState v g hs')) ≤ str_len (state_to_json (MkState v g hs));
  state_empty_fits : str_len (state_to_json state_default) ≤ MAX_ADMISSION_STATE_BYTES;
}.

(** No call fails and every lock is free at once. *)
Definition calm (E : AdmissionEnv) : Prop :=
  (∀ n, ad_fault n = None) ∧ (∀ n, ad_lock_free n = true)
  ∧ (∀ n, ad_fork_pending n = false) ∧ (∀ n, ad_fork_read n = true).

Record files := Files {
  fs_state : option string;
  fs_temps : gmap string temp_file;
  fs_leases : gmap string lease_file;
}.

Definition files_of (s : sidecars) : files := Files (sc_state s) (sc_temps s) (sc_leases s).

(** [thinned may_go l l']: some entries that may go have gone. *)
Inductive thinned {A} (may_go : A → Prop) : list A → list A → Prop :=
  | thinned_nil : thinned may_go [] []
  | thinned_keep x l l' : thinned may_go l l' → thinned may_go (x :: l) (x :: l')
  | thinned_drop x l l' : may_go x → thinned may_go l l' → thinned may_go (x :: l) l'.

Lemma thinned_refl {A} (P : A → Prop) l : thinned P l l.
Proof. induction l; by constructor. Qed.

Lemma thinned_sublist {A} (P : A → Prop) l l' : thinned P l l' → l' `sublist_of` l.
Proof. induction 1; by constructor. Qed.

Lemma thinned_full {A} (P : A → Prop) l l' : thinned P l l' → length l = length l' → l' = l.
Proof.
  induction 1 as [|x l l' Ht IH|x l l' _ Ht _]; simpl; [done|intros [= ?]; f_equal; auto|].
  apply thinned_sublist, sublist_length in Ht. lia.
Qed.

(** What may not go stays. *)
Lemma thinned_keeps {A} (P : A → Prop) l l' k :
  thinned P l l' → k ⊆+ l → Forall (fun x => ¬ P x) k → k ⊆+ l'.
Proof.
  intros Ht. revert k. induction Ht as [|x l l' Ht IH|x l l' Hx Ht IH]; intros k Hk HP.
  - by apply submseteq_nil_r in Hk as ->.
  - apply submseteq_cons_r in Hk as [Hk|(k' & Hk' & Hk)].
    + by apply submseteq_cons, IH.
    + rewrite Hk'. apply submseteq_skip, IH; [done|]. rewrite Hk' in HP. by inversion HP.
  - apply submseteq_cons_r in Hk as [Hk|(k' & Hk' & Hk)]; [by apply IH|].
    rewrite Hk' in HP. by inversion HP.
Qed.

Section logic.
Context {C : AdmissionCodec} {E : AdmissionEnv} (paths : AdmissionPaths).

Definition wp {A} (m : adm A) (Q : A → files → Prop) (X : option DbAdmissionError → files → Prop)
    (f : files) : Prop :=
  ∀ s, files_of s = f → let '(s', o) := m s in
    match o with
    | Done (Ok a) => Q a (files_of s')
    | Done (Err e) => X (Some e) (files_of s')
    | Crashed => X None (files_of s')
    | Exhausted => False
    end.

Lemma awp_mono {A} (m : adm A) (Q Q' : A → files → Prop) (X X' : option DbAdmissionError → files → Prop) f :
  wp m Q X f → (∀ a v, Q a v → Q' a v) → (∀ e v, X e v → X' e v) → wp m Q' X' f.
Proof.
  intros Hm HQ HX s Hs. specialize (Hm s Hs). destruct (m s) as [s' [[a|e]| |]]; auto.
Qed.

Lemma awp_ret {A} (a : A) (Q : A → files → Prop) X f : Q a f → wp (aret a) Q X f.
Proof. by intros H s <-. Qed.
Lemma awp_fail {A} e (Q : A → files → Prop) (X : option DbAdmissionError → files → Prop) f :
  X (Some e) f → wp (afail e) Q X f.
Proof. by intros H s <-. Qed.
Lemma awp_lift {A} (r : result A DbAdmissionError) (Q : A → files → Prop) (X : option DbAdmissionError → files → Prop) f :
  (∀ a, r = Ok a → Q a f) → (∀ e, r = Err e → X (Some e) f) → wp (fun s => (s, Done r)) Q X f.
Proof. intros HQ HX s <-. destruct r; auto. Qed.

Lemma awp_bind {A B} (m : adm A) (k : A → adm B) (Q : B → files → Prop) X f :
  wp m (fun a => wp (k a) Q X) X f → wp (abind m k) Q X f.
Proof.
  intros Hm s Hs. specialize (Hm s Hs). unfold abind.
  destruct (m s) as [s' [[a|e]| |]]; [by apply Hm|done..].
Qed.

Lemma wp_attempt {A} (m : adm A) (Q : result A DbAdmissionError → files → Prop)
    (X : option DbAdmissionError → files → Prop) f :
  wp m (fun a => Q (Ok a)) (fun e v => match e with Some e => Q (Err e) v | None => X None v end) f →
  wp (attempt m) Q X f.
Proof.
  intros Hm s Hs. specialize (Hm s Hs). unfold attempt. by destruct (m s) as [s' [[a|e]| |]].
Qed.

Lemma wp_gets {A} (g : sidecars → A) (Q : A → files → Prop) X f :
  (∀ s, files_of s = f → Q (g s) f) → wp (gets g) Q X f.
Proof. intros H s <-. by apply H. Qed.

Lemma wp_changes (g : sidecars → sidecars) (h : files → files) (Q : unit → files → Prop) X f :
  (∀ s, files_of s = f → files_of (g s) = h f) → Q tt (h f) → wp (changes g) Q X f.
Proof. intros H HQ s Hs. simpl. by rewrite H. Qed.

(** A call that touches no file: it returns, or fails in a run that is not calm. *)
Definition fails_if_not_calm (X : option DbAdmissionError → files → Prop) (f : files) : Prop :=
  ¬ calm E → ∀ e, X e f.

(** In a calm run the error is not about the budget. *)
Definition plain (e : option DbAdmissionError) : Prop := ¬ calm E ∨ ∀ r, e ≠ Some (BudgetExceeded r).

Lemma wp_acall_as fails (Q : unit → files → Prop) X f :
  Q tt f → fails_if_not_calm X f → wp (acall_as fails) Q X f.
Proof.
  intros HQ HX s <-. unfold acall_as.
  destruct (ad_fault (sc_calls s)) as [flt|] eqn:Hf; [|exact HQ].
  assert (¬ calm E) as Hn by (intros [Hc _]; by rewrite Hc in Hf).
  destruct flt; by apply (HX Hn).
Qed.

Lemma wp_acall (Q : unit → files → Prop) X f : Q tt f → fails_if_not_calm X f → wp acall Q X f.
Proof. apply wp_acall_as. Qed.

Lemma wp_anow (Q : Z → files → Prop) X f : (∀ t, Q t f) → wp anow Q X f.
Proof. intros H s <-. apply H. Qed.
Lemma wp_aask (g : nat → bool) (Q : bool → files → Prop) X f : (∀ n, Q (g n) f) → wp (aask g) Q X f.
Proof. intros H s <-. apply H. Qed.

(** ** The lock comes back before its fuel is gone

    [rounds_left fuel deadline s]: the retries that are left reach the deadline. *)
Definition rounds_left (fuel : nat) (deadline : Z) (s : sidecars) : Prop :=
  (1 ≤ fuel)%nat ∧ deadline - sc_time s ≤ ADMISSION_LOCK_RETRY * (Z.of_nat fuel - 1).

(** The files are as they were, the loop ended, and a calm run got the lock. *)
Definition lock_post {A} (s : sidecars) (a : A) (p : sidecars * outcome A) : Prop :=
  files_of p.1 = files_of s ∧ sc_time s ≤ sc_time p.1 ∧ p.2 ≠ Exhausted ∧ (calm E → p.2 = Done (Ok a)).

Lemma lock_post_later {A} s s' (a : A) p :
  files_of s' = files_of s → sc_time s ≤ sc_time s' → lock_post s' a p → lock_post s a p.
Proof. intros Hf Ht (? & ? & ? & ?). unfold lock_post. rewrite <- Hf. split_and!; [done|lia|done..]. Qed.

Lemma lock_post_err {A} s s' (a : A) e :
  files_of s' = files_of s → sc_time s ≤ sc_time s' → ¬ calm E → lock_post s a (s', Done (Err e)).
Proof. by repeat split. Qed.

Lemma lock_post_bind {A B} (m : adm A) (k : A → adm B) s a b :
  lock_post s a (m s) →
  (∀ s' a', files_of s' = files_of s → sc_time s ≤ sc_time s' → (calm E → a' = a) → lock_post s b (k a' s')) →
  lock_post s b (abind m k s).
Proof.
  intros (Hf & Ht & Ho & Hc) Hk. unfold abind. destruct (m s) as [s' [[a'|e]| |]]; simpl in *.
  - apply Hk; [done..|]. intros Hn. specialize (Hc Hn). by simplify_eq.
  - apply lock_post_err; [done..|]. intros Hn. by specialize (Hc Hn).
  - repeat split; [done..|]. intros Hn. by specialize (Hc Hn).
  - done.
Qed.

(** A sleep taken before the deadline takes one round. *)
Lemma rounds_left_sleep fuel deadline s s' before :
  rounds_left (S fuel) deadline s → sc_time s ≤ before → before < deadline → before ≤ sc_time s' →
  rounds_left fuel deadline
    (Sidecars (sc_state s') (sc_temps s') (sc_leases s') (sc_calls s')
       (sc_time s' + Z.max (Z.min ADMISSION_LOCK_RETRY (Z.max (deadline - sc_time s') 0)) 0)).
Proof.
  intros [Hf Hr] Ht Hb Hd. unfold rounds_left in *. cbn [sc_time]. unfold ADMISSION_LOCK_RETRY in *.
  split; [destruct fuel; lia|lia].
Qed.

Lemma fork_guard_returns fuel : ∀ deadline waited s, rounds_left fuel deadline s →
  lock_post s waited (fork_guard_loop paths fuel deadline waited s).
Proof.
  induction fuel as [|fuel IH]; intros deadline waited s Hr; [destruct Hr; lia|].
  cbn [fork_guard_loop]. unfold abind, aask, aret, anow.
  assert (∀ s', files_of s' = files_of s → sc_time s ≤ sc_time s' → ¬ calm E →
    lock_post s waited ((let! now := anow in
        if deadline <=? now then busy paths
        else let! _ := asleep (Z.min ADMISSION_LOCK_RETRY (deadline - now)) in
             fork_guard_loop paths fuel deadline true) s')) as Hwait.
  { intros s' Hs' Ht Hn. unfold abind, anow, asleep, changes.
    assert (sc_time s ≤ sc_time (atick s')) by (simpl; lia).
    destruct (Z.leb_spec deadline (sc_time (atick s'))); [by apply lock_post_err|].
    rewrite <- (Z.max_l (deadline - sc_time (atick s')) 0) by lia.
    destruct (IH deadline true _ (rounds_left_sleep _ _ _ (atick s') _ Hr ltac:(eassumption) ltac:(eassumption) ltac:(lia)))
      as (H1 & H2 & H3 & _).
    split_and!; [by rewrite H1|simpl in *; lia|done|done]. }
  destruct (ad_fork_pending (sc_calls s)) eqn:Hp; cbn [negb].
  { apply Hwait; [done|simpl; lia|]. intros (_ & _ & Hc & _). by rewrite Hc in Hp. }
  destruct (ad_fork_read (sc_calls (atick s))) eqn:Hg.
  2:{ apply Hwait; [done|simpl; lia|]. intros (_ & _ & _ & Hc). by rewrite Hc in Hg. }
  destruct (ad_fork_pending (sc_calls (atick (atick s)))) eqn:Hp2; cbn [negb].
  { apply Hwait; [done|simpl; lia|]. intros (_ & _ & Hc & _). by rewrite Hc in Hp2. }
  split_and!; simpl; [done|lia|done|done].
Qed.

Lemma acall_as_post fails s : lock_post s tt (acall_as fails s).
Proof.
  unfold acall_as. destruct (ad_fault (sc_calls s)) as [flt|] eqn:Hf.
  - assert (¬ calm E) as Hn by (intros [Hc _]; by rewrite Hc in Hf).
    destruct flt; (split_and!; [done|simpl; lia|done|by intros ?%Hn]).
  - split_and!; simpl; [done|lia|done|done].
Qed.

Lemma too_late_post waited deadline s : (waited = true → ¬ calm E) →
  lock_post s false (too_late waited deadline s).
Proof. intros Hw. destruct waited; (split_and!; [done|simpl; lia|done|]); [by intros ?%Hw|done]. Qed.

Lemma lock_loop_returns fuel : ∀ deadline waited s,
  rounds_left fuel deadline s → (waited = true → ¬ calm E) →
  lock_post s tt (lock_loop paths fuel deadline waited s).
Proof.
  induction fuel as [|fuel IH]; intros deadline waited s Hr Hw; [destruct Hr; lia|].
  cbn [lock_loop]. eapply lock_post_bind; [by apply too_late_post|].
  intros s1 late Hf1 Ht1 Hl. destruct late.
  { apply lock_post_err; [done..|]. intros Hc. by specialize (Hl Hc). }
  apply (lock_post_later _ s1); [done..|]. eapply lock_post_bind; [apply acall_as_post|].
  intros s2 [] Hf2 Ht2 _. unfold abind at 1, aask. destruct (ad_lock_free (sc_calls s2)) eqn:Hlock.
  - apply (lock_post_later _ (atick s2)); [simpl; done|simpl; lia|].
    eapply lock_post_bind; [by apply too_late_post|]. intros s3 late Hf3 Ht3 Hl3. destruct late.
    + apply lock_post_err; [done..|]. intros Hc. by specialize (Hl3 Hc).
    + by split_and!.
  - assert (¬ calm E) as Hn by (intros (_ & Hc & _); by rewrite Hc in Hlock).
    unfold abind, anow, asleep, changes. cbn beta iota.
    assert (sc_time s1 ≤ sc_time (atick (atick s2))) by (simpl; lia).
    destruct (Z.leb_spec deadline (sc_time (atick (atick s2)))); [by apply lock_post_err|].
    destruct (IH deadline true _ (rounds_left_sleep _ _ _ (atick (atick (atick s2))) _ Hr
      ltac:(etrans; eassumption) ltac:(eassumption) ltac:(simpl; lia)) ltac:(done)) as (H1 & H2 & H3 & _).
    split_and!; [by rewrite H1|simpl in *; lia|done|done].
Qed.

(** The lock is had, or refused, within the fuel; nothing else happens. *)
Lemma wp_lock_state (Q : unit → files → Prop) X f :
  Q tt f → fails_if_not_calm X f → wp (lock_state paths) Q X f.
Proof.
  intros HQ HX s Hs.
  assert (lock_post s tt (lock_state paths s)) as (Hf & _ & Ho & Hc).
  { unfold lock_state, abind at 1, anow. set (s1 := atick s).
    assert (rounds_left lock_fuel (sc_time s1 + ADMISSION_LOCK_TIMEOUT) s1) as Hr.
    { unfold rounds_left, lock_fuel, ADMISSION_LOCK_TIMEOUT, ADMISSION_LOCK_RETRY. lia. }
    apply (lock_post_later _ s1); [done|simpl; lia|].
    eapply (lock_post_bind _ _ _ tt).
    { unfold admission_state_fork_guard. eapply lock_post_bind; [by apply fork_guard_returns|].
      intros s2 [] Hf2 Ht2 Hw; [|by split_and!]. unfold abind, anow.
      assert (¬ calm E) by (intros Hc; by specialize (Hw Hc)).
      apply (lock_post_later _ (atick s2)); [done|simpl in *; lia|].
      destruct (_ <=? _); [by apply lock_post_err|by split_and!]. }
    intros s2 [] Hf2 Ht2 _. apply (lock_post_later _ s2); [done..|].
    eapply lock_post_bind; [apply acall_as_post|]. intros s3 [] Hf3 Ht3 _.
    apply (lock_post_later _ s3); [done..|].
    eapply lock_post_bind; [apply acall_as_post|]. intros s4 [] Hf4 Ht4 _.
    apply (lock_post_later _ s4); [done..|].
    apply lock_loop_returns; [|done]. unfold rounds_left in *. lia. }
  destruct (lock_state paths s) as [s' [[[]|e]| |]]; simpl in *; rewrite ?Hf, ?Hs; [done| | |done];
    apply HX; intros Hn; by specialize (Hc Hn).
Qed.

Lemma lock_loop_in_time fuel : ∀ deadline s s',
  lock_loop paths fuel deadline true s = (s', Done (Ok tt)) → sc_time s' < deadline.
Proof.
  induction fuel as [|fuel IH]; intros deadline s s'; cbn [lock_loop]; [done|].
  unfold too_late, abind, anow, aask, aret, busy, afail, asleep, changes. cbn beta iota.
  destruct (deadline <=? _); [done|]. destruct (acall _) as [s1 [[[]|e]| |]]; [|done..].
  destruct (ad_lock_free _).
  - destruct (Z.leb_spec deadline (sc_time (atick (atick s1)))); [done|]. by intros [= <-].
  - destruct (deadline <=? _); [done|]. apply IH.
Qed.

(** Waiting for the admission lock ends. Whatever the clock and the other
    processes do, the attempt gets the lock, fails, or the process dies, within
    126 rounds of the loops; and once it has had to wait it is never granted the
    lock after its deadline. *)
Theorem lock_state_returns s :
  (lock_state paths s).2 ≠ Exhausted
  ∧ ∀ fuel deadline s0 s', lock_loop paths fuel deadline true s0 = (s', Done (Ok tt)) → sc_time s' < deadline.
Proof.
  split; [|by intros; eapply lock_loop_in_time].
  pose proof (wp_lock_state (fun _ _ => True) (fun _ _ => True) (files_of s) I (fun _ _ => I) s eq_refl) as H.
  by destruct (lock_state paths s) as [s' [[[]|e]| |]].
Qed.

(** ** Sweeping *)
Definition locked (f : files) (n : string) : Prop :=
  ∃ l, fs_leases f !! n = Some l ∧ is_Some (lf_owner l).

#[global] Instance locked_dec f n : Decision (locked f n).
Proof.
  refine (match fs_leases f !! n as o return fs_leases f !! n = o → Decision (locked f n) with
          | Some l => fun H => match decide (is_Some (lf_owner l)) with left Hl => left _ | right Hl => right _ end
          | None => fun H => right _
          end eq_refl).
  - by exists l.
  - intros (l' & Hl' & ?). by simplify_eq.
  - intros (l' & Hl' & ?). by simplify_eq.
Defined.

(** A sweep of the temporary files takes only such files. *)
Definition temps_swept (f v : files) : Prop :=
  fs_state v = fs_state f ∧ fs_leases v = fs_leases f ∧ fs_temps v ⊆ fs_temps f.

(** A sweep of the leases takes only leases that are neither locked nor named by
    a row. *)
Definition leases_swept (keep : string → Prop) (f v : files) : Prop :=
  fs_state v = fs_state f ∧ fs_temps v = fs_temps f ∧ fs_leases v ⊆ fs_leases f
  ∧ ∀ n, locked f n ∨ keep n → fs_leases v !! n = fs_leases f !! n.

#[global] Instance temps_swept_preorder : PreOrder temps_swept.
Proof.
  split; [by intros f|]. intros f g h (? & ? & ?) (? & ? & ?). split_and!; [congruence..|by etrans].
Qed.

Lemma leases_swept_locked keep f v n : leases_swept keep f v → locked v n ↔ locked f n.
Proof.
  intros (_ & _ & Hsub & Hkeep). split.
  - intros (l & Hl & ?). exists l. split; [by eapply lookup_weaken|done].
  - intros Hl. pose proof (Hkeep n (or_introl Hl)) as Hn. destruct Hl as (l & ? & ?). exists l. by rewrite Hn.
Qed.

#[global] Instance leases_swept_preorder keep : PreOrder (leases_swept keep).
Proof.
  split; [by intros f|]. intros f g h Hfg Hgh. pose proof (fun n => leases_swept_locked keep f g n Hfg) as Hlock.
  destruct Hfg as (? & ? & ? & Hk1), Hgh as (? & ? & ? & Hk2). split_and!; [congruence..|by etrans|].
  intros n Hn. rewrite Hk2; [by apply Hk1|]. destruct Hn; [left; by apply Hlock|by right].
Qed.

Lemma wp_read_dir (Q : list string → files → Prop) X f :
  (∀ names, Q names f) → fails_if_not_calm X f → wp read_dir Q X f.
Proof. intros HQ HX. apply awp_bind, wp_acall; [|done]. apply wp_gets. auto. Qed.

Lemma wp_sweep_each (R : relation files) `{!PreOrder R} cand rem :
  (∀ n f, cand n = true →
     wp (rem n) (fun _ v => R f v) (fun e v => R f v ∧ (e = None → ¬ calm E)) f) →
  ∀ names k f, wp (sweep_each cand rem names k) (fun _ v => R f v) (fun _ v => R f v ∧ ¬ calm E) f.
Proof.
  intros Hrem names. induction names as [|n names IH]; intros k f; cbn [sweep_each].
  { by apply awp_ret. }
  apply awp_bind, wp_acall; [|by intros Hn e]. destruct (cand n) eqn:Hc; cbn [negb]; [|apply IH].
  apply awp_bind, wp_attempt. eapply awp_mono; [by apply Hrem| |].
  - intros b v Hv. eapply awp_mono; [apply IH|..]; simpl; intros; [by transitivity v|destruct_and!; split; [by transitivity v|done]].
  - intros [e|] v [Hv Hn]; [|auto].
    eapply awp_mono; [apply IH|..]; simpl; intros; [by transitivity v|destruct_and!; split; [by transitivity v|done]].
Qed.

Lemma wp_remove_staged n f :
  wp (remove_staged_state_file n) (fun _ v => temps_swept f v)
    (fun e v => temps_swept f v ∧ (e = None → ¬ calm E)) f.
Proof.
  assert (∀ v, temps_swept f v → fails_if_not_calm (fun e v => temps_swept f v ∧ (e = None → ¬ calm E)) v)
    as HX by (by intros v Hv Hn e).
  assert (temps_swept f f) by done.
  apply awp_bind, wp_acall; [|by apply HX]. apply awp_bind, wp_gets. intros s Hs.
  destruct (sc_temps s !! n) as [t|]; [|by apply awp_ret].
  apply awp_bind, wp_acall; [|by apply HX]. destruct (tf_safe t); cbn [negb]; [|by apply awp_fail].
  apply awp_bind, wp_acall; [|by apply HX].
  apply awp_bind, (wp_changes _ (fun f => Files (fs_state f) (delete n (fs_temps f)) (fs_leases f))).
  { by intros s' <-. }
  assert (temps_swept f (Files (fs_state f) (delete n (fs_temps f)) (fs_leases f))) as Hd.
  { split_and!; [done..|apply delete_subseteq]. }
  apply awp_bind, wp_acall; [by apply awp_ret|by apply HX].
Qed.

Lemma wp_sweep_staged f :
  wp (sweep_staged_state_files paths) (fun _ v => temps_swept f v) (fun _ v => temps_swept f v ∧ ¬ calm E) f.
Proof.
  apply awp_bind, wp_read_dir; [|by intros Hn e]. intros names.
  apply wp_sweep_each; [apply _|]. intros n v _. apply wp_remove_staged.
Qed.

Lemma wp_remove_unreferenced (keep : string → Prop) n f : ¬ keep n →
  wp (remove_unreferenced_lease n) (fun _ v => leases_swept keep f v)
    (fun e v => leases_swept keep f v ∧ (e = None → ¬ calm E)) f.
Proof.
  intros Hk.
  assert (∀ v, leases_swept keep f v → fails_if_not_calm (fun e v => leases_swept keep f v ∧ (e = None → ¬ calm E)) v)
    as HX by (by intros v Hv Hn e).
  assert (leases_swept keep f f) by done.
  apply awp_bind, wp_acall; [|by apply HX]. apply awp_bind, wp_gets. intros s Hs.
  destruct (sc_leases s !! n) as [l|] eqn:Hl; [|by apply awp_ret].
  apply awp_bind, wp_acall; [|by apply HX]. destruct (lf_safe l); cbn [negb]; [|by apply awp_ret].
  apply awp_bind, wp_acall; [|by apply HX]. case_bool_decide as Ho; [by apply awp_ret|].
  do 2 (apply awp_bind, wp_acall; [|by apply HX]).
  apply awp_bind, (wp_changes _ (fun f => Files (fs_state f) (fs_temps f) (delete n (fs_leases f)))).
  { by intros s' <-. }
  assert (leases_swept keep f (Files (fs_state f) (fs_temps f) (delete n (fs_leases f)))) as Hd.
  { split_and!; [done..|apply delete_subseteq|]. intros n' Hn'. simpl. apply lookup_delete_ne. intros <-.
    destruct Hn' as [(l' & Hl' & ?)|?]; [|done]. subst f. simpl in Hl'. by simplify_eq. }
  apply awp_bind, wp_acall; [by apply awp_ret|by apply HX].
Qed.

(** The names that rows protect. *)
Definition named_by (holders : list DbAdmissionHolder) (n : string) : Prop :=
  n ∈ (fun h => holder_lease_path paths (h_token h)) <$> holders.

Lemma wp_sweep_leases holders f :
  wp (sweep_unreferenced_holder_leases paths holders) (fun _ v => leases_swept (named_by holders) f v)
    (fun _ v => leases_swept (named_by holders) f v ∧ ¬ calm E) f.
Proof.
  apply awp_bind, wp_read_dir; [|by intros Hn e]. intros names.
  apply wp_sweep_each; [apply _|]. intros n v [_ Hn]%andb_prop. apply wp_remove_unreferenced.
  intros Hk. by rewrite bool_decide_true in Hn.
Qed.

(** ** The state file *)
Definition fits (text : string) : Prop := str_len text ≤ MAX_ADMISSION_STATE_BYTES.

(** What the state file says; no file and an empty one say that there is no holder. *)
Definition on_file (file : option string) : option AdmissionState :=
  match file with
  | None => Some state_default
  | Some text =>
      if MAX_ADMISSION_STATE_BYTES <? str_len text then None
      else if is_empty text then Some state_default
      else match state_of_json text with
           | Some st => if st_schema_version st =? ADMISSION_STATE_SCHEMA_VERSION then Some st else None
           | None => None
           end
  end.

Lemma on_file_json {CL : AdmissionCodecLaws C} st :
  fits (state_to_json st) → st_schema_version st = ADMISSION_STATE_SCHEMA_VERSION →
  on_file (Some (state_to_json st)) = Some st.
Proof.
  intros Hf Hv. unfold on_file. destruct (Z.ltb_spec MAX_ADMISSION_STATE_BYTES (str_len (state_to_json st))).
  { unfold fits in Hf. lia. }
  by rewrite state_not_empty, state_roundtrip, Hv.
Qed.

Lemma on_file_version file st : on_file file = Some st → st_schema_version st = ADMISSION_STATE_SCHEMA_VERSION.
Proof.
  unfold on_file. destruct file as [text|]; [|by intros [= <-]].
  destruct (_ <? _); [done|]. destruct (is_empty text); [by intros [= <-]|].
  destruct (state_of_json text) as [st'|]; [|done]. destruct (Z.eqb_spec (st_schema_version st') ADMISSION_STATE_SCHEMA_VERSION); [|done].
  by intros [= <-].
Qed.

Lemma wp_load_state f :
  wp (load_state paths) (fun st v => v = f ∧ on_file (fs_state f) = Some st)
    (fun e v => v = f ∧ (¬ calm E ∨ on_file (fs_state f) = None)) f.
Proof.
  assert (fails_if_not_calm (fun e v => v = f ∧ (¬ calm E ∨ on_file (fs_state f) = None)) f) as HX
    by (intros Hn e; split; [done|by left]).
  apply awp_bind, wp_acall_as; [|done]. apply awp_bind, wp_gets. intros s Hs.
  assert (sc_state s = fs_state f) as -> by (by rewrite <- Hs). unfold on_file in *.
  destruct (fs_state f) as [text|]; [|by apply awp_ret].
  do 2 (apply awp_bind, wp_acall_as; [|done]).
  destruct (_ <? _); [apply awp_fail; auto|]. apply awp_bind, wp_acall; [|done].
  destruct (is_empty text); [by apply awp_ret|].
  destruct (state_of_json text) as [st|]; [|apply awp_fail; auto].
  destruct (_ =? _); [by apply awp_ret|apply awp_fail; auto].
Qed.

(** The names that the run gives to its temporary files are free. *)
Definition fresh_temps (f : files) : Prop :=
  ∀ n, fs_temps f !! state_temp_path paths (ad_temp_token n) = None.

Lemma fresh_temps_subseteq f v : fs_temps v ⊆ fs_temps f → fresh_temps f → fresh_temps v.
Proof. intros Hsub Hf n. by eapply lookup_weaken_None. Qed.

Lemma wp_create_staged attempts f : (0 < attempts)%nat →
  wp (create_staged_state_file paths attempts)
    (fun name v => fs_temps f !! name = None ∧ v = Files (fs_state f) (<[name := Temp "" true]> (fs_temps f)) (fs_leases f))
    (fun e v => v = f ∧ plain e ∧ (¬ calm E ∨ ¬ fresh_temps f)) f.
Proof.
  assert (wp (create_staged_state_file paths attempts)
    (fun name v => fs_temps f !! name = None ∧ v = Files (fs_state f) (<[name := Temp "" true]> (fs_temps f)) (fs_leases f))
    (fun e v => v = f ∧ plain e ∧ (¬ calm E ∨ ¬ fresh_temps f ∨ attempts = O)) f) as H.
  { induction attempts as [|attempts IH]; cbn [create_staged_state_file].
    { apply awp_fail. split_and!; [done|by right|auto]. }
    apply awp_bind, wp_gets. intros s Hs. apply awp_bind, wp_acall; [|by intros Hn e; unfold plain; auto].
    apply awp_bind, wp_gets. intros s' Hs'.
    assert (sc_temps s' = fs_temps f) as -> by (by rewrite <- Hs').
    case_bool_decide as Hd.
    - eapply awp_mono; [exact IH|done|]. intros e v (-> & Hp & Hv). split_and!; [done..|]. right. left.
      intros Hfr. specialize (Hfr (sc_calls s)). by rewrite Hfr in Hd; destruct Hd.
    - apply awp_bind, (wp_changes _ (fun f => Files (fs_state f)
        (<[state_temp_path paths (ad_temp_token (sc_calls s)) := Temp "" true]> (fs_temps f)) (fs_leases f)));
        [by intros s2 <-|]. apply awp_ret. split; [|done]. by apply eq_None_not_Some. }
  intros Hlt. eapply awp_mono; [exact H|done|]. intros e v (-> & Hp & [|[|]]); (split_and!; [done..|]); [by left|by right|lia].
Qed.

(** What a write of the state leaves. *)
Definition saved (st : AdmissionState) (f v : files) : Prop :=
  fs_leases v = fs_leases f ∧ fs_temps v ⊆ fs_temps f
  ∧ fits (state_to_json st) ∧ fs_state v = Some (state_to_json st).

Definition save_failed (st : AdmissionState) (f : files) (e : option DbAdmissionError) (v : files) : Prop :=
  fs_leases v = fs_leases f ∧ plain e
  ∧ (fs_state v = fs_state f ∨ fits (state_to_json st) ∧ fs_state v = Some (state_to_json st))
  ∧ (¬ calm E ∨ ¬ fresh_temps f ∨ ¬ fits (state_to_json st)).

Lemma wp_publish_state staged text f g :
  fs_leases g = fs_leases f → fs_state g = fs_state f → fs_temps f !! staged = None →
  fs_temps g = <[staged := Temp "" true]> (fs_temps f) →
  wp (publish_state paths staged text)
    (fun _ v => v = Files (Some text) (fs_temps f) (fs_leases f))
    (fun e v => fs_leases v = fs_leases f ∧ (fs_state v = fs_state f ∨ fs_state v = Some text) ∧ ¬ calm E) g.
Proof.
  intros Hl Hs Hf Ht. apply awp_bind, wp_acall; [|by intros Hn e; auto].
  apply awp_bind, (wp_changes _ (fun f => Files (fs_state f) (<[staged := Temp text true]> (fs_temps f)) (fs_leases f)));
    [by intros s <-|].
  do 2 (apply awp_bind, wp_acall; [|by intros Hn e; auto]).
  apply awp_bind, (wp_changes _ (fun f => Files (Some text) (delete staged (fs_temps f)) (fs_leases f)));
    [by intros s <-|]. cbn [fs_state fs_temps fs_leases].
  rewrite Ht, insert_insert_eq, delete_insert_id, Hl by done.
  apply awp_bind, wp_acall; [|by intros Hn e; auto].
  apply awp_bind, wp_acall_as; [|by intros Hn e; auto]. by apply wp_acall_as; [|intros Hn e; auto].
Qed.

Lemma wp_save_state st f :
  wp (save_state paths st) (fun _ v => saved st f v) (save_failed st f) f.
Proof.
  unfold save_state. destruct (Z.ltb_spec MAX_ADMISSION_STATE_BYTES (str_len (state_to_json st))) as [Hz|Hz].
  { apply awp_fail. split_and!; [done|by right|by left|]. right. right. unfold fits. lia. }
  apply awp_bind. eapply awp_mono; [apply wp_create_staged; unfold MAX_STAGED_STATE_CREATE_ATTEMPTS; lia| |].
  2:{ intros e v (-> & Hp & Hv). split_and!; [done|done|by left|]. destruct Hv; auto. }
  intros staged v [Hfree ->]. apply awp_bind, wp_attempt.
  eapply awp_mono; [by apply (wp_publish_state _ _ f)| |].
  - intros _ v ->. by apply awp_ret.
  - assert (∀ e v, fs_leases v = fs_leases f ∧
      (fs_state v = fs_state f ∨ fs_state v = Some (state_to_json st)) ∧ ¬ calm E → save_failed st f e v) as Hsf.
    { intros e v (? & [?|?] & ?); (split_and!; [done|by left| |by left]); [by left|by right]. }
    intros [e|] v Hv; [|by apply Hsf]. apply awp_bind, wp_attempt.
    eapply awp_mono; [apply wp_remove_staged| |].
    + intros b v' (H1 & H2 & H3). apply awp_fail, Hsf. by rewrite H1, H2.
    + intros [e'|] v' [(H1 & H2 & H3) _]; [apply awp_fail|]; apply Hsf; by rewrite H1, H2.
Qed.

(** ** Leases *)
Definition row_path (h : DbAdmissionHolder) : string := holder_lease_path paths (h_token h).

(** The row may be reaped: no one holds its lease, or it is of an older version. *)
Definition may_go (f : files) (h : DbAdmissionHolder) : Prop :=
  ¬ (h_lease_version h = HOLDER_LEASE_VERSION ∧ locked f (row_path h)).

Lemma wp_lease_liveness n f :
  wp (holder_lease_liveness n)
    (fun lv v => v = f ∧ (lv = HolderDead → ¬ locked f n)
                 ∧ (calm E → lv = if bool_decide (locked f n) then HolderLive else HolderDead))
    (fun _ v => v = f ∧ ¬ calm E) f.
Proof.
  apply awp_bind, wp_attempt, wp_acall; [|intros Hn [e|]; [by apply awp_ret|done]].
  apply awp_bind, wp_gets. intros s Hs. assert (sc_leases s = fs_leases f) as -> by (by rewrite <- Hs).
  case_bool_decide as Hd; cbn [negb].
  2:{ assert (¬ locked f n) by (by intros (l & Hl & _); rewrite Hl in Hd; destruct Hd).
      apply awp_ret. split_and!; [done..|]. intros _. by rewrite bool_decide_false. }
  apply awp_bind, wp_attempt, wp_acall; [|intros Hn [e|]; [by apply awp_ret|done]].
  apply awp_bind, wp_gets. intros s' Hs'.
  assert (lease_locked n s' = bool_decide (locked f n)) as ->.
  { unfold lease_locked. assert (sc_leases s' = fs_leases f) as -> by (by rewrite <- Hs').
    destruct Hd as [l Hl]. rewrite Hl. apply bool_decide_ext. unfold locked. simpl. split; [by exists l|].
    intros (l2 & ? & ?). by simplify_eq. }
  apply awp_ret. split_and!; [done| |done]. case_bool_decide; [done|by intros _].
Qed.

Lemma wp_holder_liveness h f :
  wp (holder_liveness paths h)
    (fun lv v => v = f ∧ (lv = HolderDead → may_go f h)
       ∧ (calm E → h_lease_version h = HOLDER_LEASE_VERSION → lv ≠ HolderDead → locked f (row_path h)))
    (fun _ v => v = f ∧ ¬ calm E) f.
Proof.
  unfold holder_liveness, may_go, row_path. destruct (Z.eqb_spec (h_lease_version h) HOLDER_LEASE_VERSION) as [Hv|Hv].
  { eapply awp_mono; [apply wp_lease_liveness| |done]. intros lv v (-> & H1 & H2). split_and!; [done| |].
    - intros ? [_ ?]. by apply H1.
    - intros Hc _ Hlv. specialize (H2 Hc). by case_bool_decide. }
  assert (∀ Q : Prop, h_lease_version h = HOLDER_LEASE_VERSION → Q) as Hno by (intros Q ?; done).
  destruct (_ =? 0); [|by apply awp_ret; split_and!; [done..|intros _ Hv1; exact (Hno _ Hv1)]].
  assert (wp (aret (legacy_holder_liveness h)) (fun lv v => v = f ∧ (lv = HolderDead →
      ¬ (h_lease_version h = HOLDER_LEASE_VERSION ∧ locked f (holder_lease_path paths (h_token h))))
       ∧ (calm E → h_lease_version h = HOLDER_LEASE_VERSION → lv ≠ HolderDead →
          locked f (holder_lease_path paths (h_token h)))) (fun _ v => v = f ∧ ¬ calm E) f) as Hleg.
  { apply awp_ret. split_and!; [done|by intros _ [? _]|intros _ Hv1; exact (Hno _ Hv1)]. }
  apply awp_bind, wp_attempt, wp_acall.
  - apply awp_bind, wp_gets. intros s Hs. case_bool_decide; [|exact Hleg].
    eapply awp_mono; [apply wp_lease_liveness| |done].
    intros lv v (-> & _ & _). split_and!; [done|by intros _ [? _]|intros _ Hv1; exact (Hno _ Hv1)].
  - intros Hn [e|]; [|done]. apply awp_bind, wp_gets. intros s Hs. exact Hleg.
Qed.

Lemma wp_reap hs f :
  wp (reap_stale_holders paths hs)
    (fun '(kept, reaped, _) v => v = f ∧ thinned (may_go f) hs kept
       ∧ reaped = Z.of_nat (length hs) - Z.of_nat (length kept)
       ∧ (calm E → ∀ h, h ∈ kept → h_lease_version h = HOLDER_LEASE_VERSION → locked f (row_path h)))
    (fun _ v => v = f ∧ ¬ calm E) f.
Proof.
  induction hs as [|h hs IH]; cbn [reap_stale_holders].
  { apply awp_ret. split_and!; [done|constructor|done|]. by intros _ h ?%elem_of_nil. }
  apply awp_bind. eapply awp_mono; [apply wp_holder_liveness| |done].
  intros lv v (-> & H1 & H2). apply awp_bind. eapply awp_mono; [exact IH| |done].
  intros [[kept reaped] unk] v (-> & Ht & -> & Hl). apply awp_ret.
  assert (∀ r, r ≠ HolderDead → lv = r → calm E → ∀ h0, h0 ∈ h :: kept →
    h_lease_version h0 = HOLDER_LEASE_VERSION → locked f (row_path h0)) as Hk.
  { intros r Hr -> Hc h0 [->|Hin]%elem_of_cons Hv; [by apply H2|by apply Hl]. }
  destruct lv; (split_and!; [done|by eauto using thinned|simpl length; lia|]); [|exact Hl|].
  - by apply (Hk HolderLive).
  - by apply (Hk (HolderUnknown reason)).
Qed.

Lemma wp_remove_holder_lease n f :
  wp (remove_holder_lease n)
    (fun _ v => v = Files (fs_state f) (fs_temps f) (delete n (fs_leases f)))
    (fun _ v => (v = f ∨ v = Files (fs_state f) (fs_temps f) (delete n (fs_leases f))) ∧ ¬ calm E) f.
Proof.
  apply awp_bind, wp_acall; [|by intros Hn e; auto]. apply awp_bind, wp_gets. intros s Hs.
  case_bool_decide as Hd; cbn [negb].
  - apply awp_bind, (wp_changes _ (fun f => Files (fs_state f) (fs_temps f) (delete n (fs_leases f))));
      [by intros s' <-|]. by apply wp_acall; [|intros Hn e; auto].
  - apply awp_ret. rewrite delete_id; [by destruct f|]. subst f. by apply eq_None_not_Some.
Qed.

Definition with_lease (n : string) (l : lease_file) (f : files) : files :=
  Files (fs_state f) (fs_temps f) (<[n := l]> (fs_leases f)).

Definition lease_failed (n : string) (process : nat) (f : files) (e : option DbAdmissionError) (v : files) : Prop :=
  plain e ∧ (v = f ∨ fs_leases f !! n = None ∧
    (v = with_lease n (Lease None true) f ∨ e = None ∧ v = with_lease n (Lease (Some process) true) f)).

(** A lease is made only where there was none; its maker holds it, unless it
    fails. *)
Lemma wp_create_lease n process f :
  wp (create_holder_lease n process)
    (fun _ v => fs_leases f !! n = None ∧ v = with_lease n (Lease (Some process) true) f)
    (lease_failed n process f) f.
Proof.
  unfold lease_failed.
  apply awp_bind, wp_acall; [|by intros Hn e; split; left]. apply awp_bind, wp_gets. intros s Hs.
  case_bool_decide as Hd; [by apply awp_fail; split; [right|left]|].
  assert (fs_leases f !! n = None) as Hnone by (subst f; by apply eq_None_not_Some).
  apply awp_bind, (wp_changes _ (with_lease n (Lease None true))); [by intros s' <-|].
  assert (∀ e, plain (Some e) → wp (abind (attempt (remove_holder_lease n)) (fun _ => afail e))
    (fun (_ : unit) v => fs_leases f !! n = None ∧ v = with_lease n (Lease (Some process) true) f)
    (lease_failed n process f)
    (with_lease n (Lease None true) f)) as Hundo.
  { intros e He. apply awp_bind, wp_attempt.
    assert (Files (fs_state f) (fs_temps f) (delete n (<[n := Lease None true]> (fs_leases f))) = f) as Hback
      by (rewrite delete_insert_id by done; by destruct f).
    eapply awp_mono; [apply wp_remove_holder_lease| |]; simpl; rewrite Hback.
    - intros _ v ->. by apply awp_fail; split; [|left].
    - intros [e'|] v [[->| ->] Hn]; try apply awp_fail; (split; [by left|]); auto. }
  apply awp_bind, wp_attempt, awp_bind, wp_acall.
  2:{ intros Hn [e|]; [by apply Hundo; left|]. split; [by left|auto]. }
  apply wp_gets. intros s' Hs'. destruct (lease_locked n s') eqn:Hlock; [by apply Hundo; right|].
  apply awp_bind, (wp_changes _ (with_lease n (Lease (Some process) true))); [by intros s2 <-|].
  assert (with_lease n (Lease (Some process) true) (with_lease n (Lease None true) f)
          = with_lease n (Lease (Some process) true) f) as ->.
  { unfold with_lease. simpl. by rewrite insert_insert_eq. }
  assert (¬ calm E → ∀ e, wp (abind (changes (fun s => with_leases (<[n := Lease None true]> (sc_leases s)) s)) (fun _ => afail e))
    (fun (_ : unit) v => fs_leases f !! n = None ∧ v = with_lease n (Lease (Some process) true) f)
    (lease_failed n process f)
    (with_lease n (Lease (Some process) true) f)) as Hclose.
  { intros Hn e. apply awp_bind, (wp_changes _ (with_lease n (Lease None true))); [by intros s2 <-|].
    apply awp_fail. split; [by left|right]. split; [done|left]. unfold with_lease. simpl. by rewrite insert_insert_eq. }
  apply awp_bind, wp_attempt, awp_bind, wp_acall.
  2:{ intros Hn [e|]; [by apply Hclose|]. split; [by left|auto]. }
  apply wp_acall; [by apply awp_ret|]. intros Hn [e|]; [by apply Hclose|]. split; [by left|auto].
Qed.

End logic.
