(* ===== verification/AdmissionSafety.v ===== *)
(** * What the admission operations do to the files

    [current_holders], [acquire_with_config] and [release] in terms of the rows on
    file and the locked leases, whatever calls fail and wherever the process dies;
    then the processes of a machine as steps over shared files: they take seats,
    look, give seats back and die at any time. [seated] is the invariant. *)

From Stdlib Require Import ZArith Lia String Ascii.
From stdpp Require Import base tactics list gmap strings numbers relations.
From S2P Require Import Prelude Order Text ProcessIdentity Admission AdmissionLogic.
Open Scope Z_scope.
Open Scope rust_scope.

Lemma thinned_impl {A} (P P' : A → Prop) l l' : (∀ x, P x → P' x) → thinned P l l' → thinned P' l l'.
Proof. intros HP. induction 1; constructor; auto. Qed.

Lemma thinned_filter {A} (P : A → bool) l : thinned (fun x => P x = true) l (List.filter (fun x => negb (P x)) l).
Proof. induction l as [|x l IH]; simpl; [constructor|]. destruct (P x) eqn:Hx; by constructor. Qed.

Section operations.
Context {C : AdmissionCodec} {CL : AdmissionCodecLaws C} {E : AdmissionEnv} (paths : AdmissionPaths).

(** The files after some rows without a holder, and leases that nobody holds,
    have gone. *)
Record tended (st : AdmissionState) (f v : files) (kept : list DbAdmissionHolder) : Prop := {
  td_leases : fs_leases v ⊆ fs_leases f;
  td_locked : ∀ n, locked f n → fs_leases v !! n = fs_leases f !! n;
  td_rows : thinned (may_go paths f) (st_holders st) kept;
  td_file : on_file (fs_state v) = Some (MkState ADMISSION_STATE_SCHEMA_VERSION (st_next_generation st) kept);
}.

Definition calm_enough (st : AdmissionState) (f : files) : Prop :=
  calm E ∧ fresh_temps paths f ∧ fits (state_to_json st).

Lemma wp_weaken_err {A} (m : adm A) (Q : A → files → Prop) (X X' : option DbAdmissionError → files → Prop) f :
  wp m Q X f → (∀ e v, X e v → X' e v) → wp m Q X' f.
Proof. intros Hm HX. by eapply awp_mono. Qed.

Lemma wp_persist st f g kept reaped :
  on_file (fs_state f) = Some st → tended st f g (st_holders st) →
  thinned (may_go paths g) (st_holders st) kept →
  reaped = Z.of_nat (length (st_holders st)) - Z.of_nat (length kept) →
  fs_temps g ⊆ fs_temps f →
  wp (persist_reaped_holders paths (MkState (st_schema_version st) (st_next_generation st) kept) reaped)
    (fun _ v => tended st f v kept ∧ fs_temps v ⊆ fs_temps f)
    (fun _ v => ∃ kept', tended st f v kept' ∧ ¬ calm_enough st f) g.
Proof.
  intros Hst Hg Ht -> Htemps. pose proof (on_file_version _ _ Hst) as Hver.
  assert (thinned (may_go paths f) (st_holders st) kept) as Htf.
  { eapply thinned_impl; [|exact Ht]. intros h Hgo [Hv (l & Hl & Ho)]. apply Hgo. split; [done|].
    exists l. split; [|done]. rewrite (td_locked _ _ _ _ Hg); [done|]. by exists l. }
  unfold persist_reaped_holders. destruct (Z.eqb_spec (Z.of_nat (length (st_holders st)) - Z.of_nat (length kept)) 0) as [Heq|Hneq].
  { apply awp_ret. assert (kept = st_holders st) as -> by (eapply thinned_full; [exact Ht|lia]). done. }
  apply awp_bind. eapply awp_mono; [apply wp_save_state| |].
  - intros _ v (Hl & Htm & Hfit & Hs). apply awp_bind.
    assert (∀ w, leases_swept (named_by paths kept) v w → tended st f w kept) as Hsw.
    { intros w (Hs2 & _ & Hsub & Hk). split.
      - rewrite Hsub, Hl. apply Hg.
      - intros n Hn. rewrite Hk, Hl; [by apply Hg|]. left. destruct Hn as (l & ? & ?). exists l. rewrite Hl.
        split; [|done]. rewrite (td_locked _ _ _ _ Hg); [done|by exists l].
      - done.
      - rewrite Hs2, Hs, Hver. by apply on_file_json; [rewrite <- Hver|]. }
    eapply awp_mono; [apply wp_sweep_leases| |].
    + intros k0 w Hw. apply awp_ret. split; [by apply Hsw|]. destruct Hw as (_ & -> & _ & _). by etrans.
    + intros e w [Hw Hn]. exists kept. split; [by apply Hsw|]. by intros [? _].
  - intros e v (Hl & _ & Hs & Hn). simpl in *.
    assert (¬ calm_enough st f) as Hnc.
    { intros (Hc & Hf & Hfit). destruct Hn as [Hn|[Hn|Hn]]; [done|by apply Hn, (fresh_temps_subseteq paths f)|].
      apply Hn. unfold fits in *. etrans; [|exact Hfit]. destruct st as [ver gen hs]. simpl in *.
      by apply state_shorter, (thinned_sublist _ _ _ Ht). }
    assert (∀ k, thinned (may_go paths f) (st_holders st) k →
      on_file (fs_state v) = Some (MkState ADMISSION_STATE_SCHEMA_VERSION (st_next_generation st) k) →
      tended st f v k) as Hmk.
    { intros k Hk Hof. split; [rewrite Hl; apply Hg| |done|done]. intros n Hlk. rewrite Hl. by apply Hg. }
    destruct Hs as [Hs|[Hfit Hs]]; [exists (st_holders st)|exists kept]; (split; [apply Hmk|done]);
      [apply thinned_refl|rewrite Hs; apply Hg|done|].
    rewrite Hs, Hver. by apply on_file_json; [rewrite <- Hver|].
Qed.

Lemma tended_refl st f : on_file (fs_state f) = Some st → tended st f f (st_holders st).
Proof.
  intros H. split; [done..|apply thinned_refl|]. rewrite H. pose proof (on_file_version _ _ H) as Hv.
  destruct st. simpl in *. by rewrite Hv.
Qed.

(** Sweeps before the rows are read. *)
Lemma tended_swept st f g h keep :
  on_file (fs_state f) = Some st → temps_swept f g → leases_swept keep g h → tended st f h (st_holders st).
Proof.
  intros Hst (Hs & Hl & _) (Hs2 & _ & Hsub & Hk).
  destruct (tended_refl _ _ Hst) as [_ _ Hr Hf]. split; [by rewrite Hsub, Hl| |done|by rewrite Hs2, Hs].
  intros n Hn. rewrite Hk, Hl; [done|]. left. unfold locked. by rewrite Hl.
Qed.

(** The rows that are left, and in a calm run each of them has its holder. *)
Lemma wp_current_holders st f :
  on_file (fs_state f) = Some st →
  wp (current_holders paths)
    (fun '(st', _, _) v => ∃ kept,
       st' = MkState ADMISSION_STATE_SCHEMA_VERSION (st_next_generation st) kept
       ∧ tended st f v kept ∧ fs_temps v ⊆ fs_temps f
       ∧ (calm E → ∀ h, h ∈ kept → h_lease_version h = HOLDER_LEASE_VERSION → locked f (row_path paths h)))
    (fun _ v => ∃ kept, tended st f v kept ∧ ¬ calm_enough st f) f.
Proof.
  intros Hst. pose proof (on_file_version _ _ Hst) as Hver.
  assert (∀ v, tended st f v (st_holders st) → ¬ calm E → ∃ kept, tended st f v kept ∧ ¬ calm_enough st f) as Hbad.
  { intros v Hv Hn. exists (st_holders st). split; [done|]. by intros [? _]. }
  apply awp_bind, wp_lock_state; [|intros Hn e; by apply Hbad; [apply tended_refl|]].
  apply awp_bind. eapply awp_mono; [apply wp_sweep_staged| |].
  2:{ intros e v [Hv Hn]. apply Hbad; [|done]. by eapply (tended_swept _ _ _ _ (fun _ => False)); [..|reflexivity]. }
  intros k1 g Hg. assert (on_file (fs_state g) = Some st) as Hgst by (by destruct Hg as (-> & _)).
  apply awp_bind. eapply awp_mono; [apply wp_load_state| |].
  2:{ intros e v [-> [Hn|Hn]]; [|by rewrite Hgst in Hn]. apply Hbad; [|done].
      by eapply (tended_swept _ _ _ _ (fun _ => False)); [..|reflexivity]. }
  intros st' v [-> Hst']. assert (st' = st) as -> by congruence.
  apply awp_bind. eapply awp_mono; [apply wp_sweep_leases| |].
  2:{ intros e v [Hv Hn]. apply Hbad; [|done]. exact (tended_swept _ _ _ _ _ Hst Hg Hv). }
  intros k2 h Hh. assert (tended st f h (st_holders st)) as Hth by exact (tended_swept _ _ _ _ _ Hst Hg Hh).
  assert (∀ n, locked h n ↔ locked f n) as Hlock.
  { intros n. rewrite (leases_swept_locked _ _ _ _ Hh). destruct Hg as (_ & Hl & _). unfold locked. by rewrite Hl. }
  apply awp_bind. eapply awp_mono; [apply wp_reap| |].
  2:{ intros e v [-> Hn]. by apply Hbad. }
  intros [[kept reaped] unk] v (-> & Ht & Hr & Hc). apply awp_bind.
  eapply awp_mono; [eapply (wp_persist st f); [done..|]| |done].
  { destruct Hh as (_ & -> & _). by destruct Hg as (_ & _ & ?). }
  intros _ v [Hv Htm]. apply awp_ret. exists kept. rewrite Hver. split_and!; [done..|].
  intros Hcalm x Hx Hxv. by apply Hlock, Hc.
Qed.

(** ** Taking a seat *)
Definition admits (request : DbAdmissionRequest) (config : DbAdmissionConfig) (kept : list DbAdmissionHolder) : Prop :=
  validate_request request config = Ok tt
  ∧ budget_exceeded_reason (Z.of_nat (length kept)) request config (active_cache_bytes kept) = None.

Definition with_seat (gen : Z) (kept : list DbAdmissionHolder) (h : DbAdmissionHolder) : AdmissionState :=
  MkState ADMISSION_STATE_SCHEMA_VERSION gen (sort_by seat_order (kept ++ [h])).

Definition acquired (process : nat) (request : DbAdmissionRequest) (config : DbAdmissionConfig)
    (st : AdmissionState) (f : files) (a : ProfileDbAdmission) (v : files) : Prop :=
  ∃ kept g gen acquired_at, let h := new_holder request gen acquired_at in
    tended st f g kept ∧ admits request config kept
    ∧ a = Admission (h_owner h) (h_token h) gen (row_path paths h)
    ∧ fs_leases g !! row_path paths h = None
    ∧ fs_leases v = <[row_path paths h := Lease (Some process) true]> (fs_leases g)
    ∧ fits (state_to_json (with_seat gen kept h))
    ∧ on_file (fs_state v) = Some (with_seat gen kept h).

(** A failed attempt may leave a lease that nobody holds (a crash, a held one) and
    a row without a holder. *)
Definition left_over (process : nat) (request : DbAdmissionRequest) (config : DbAdmissionConfig)
    (kept : list DbAdmissionHolder) (g : files) (e : option DbAdmissionError) (v : files) : Prop :=
  ∃ gen acquired_at, let h := new_holder request gen acquired_at in
    admits request config kept ∧ fs_leases g !! row_path paths h = None
    ∧ (fs_leases v = fs_leases g
       ∨ fs_leases v = <[row_path paths h := Lease None true]> (fs_leases g)
       ∨ e = None ∧ fs_leases v = <[row_path paths h := Lease (Some process) true]> (fs_leases g))
    ∧ (on_file (fs_state v) = on_file (fs_state g)
       ∨ fits (state_to_json (with_seat gen kept h)) ∧ on_file (fs_state v) = Some (with_seat gen kept h)).

Definition refusal_honest (request : DbAdmissionRequest) (config : DbAdmissionConfig)
    (st : AdmissionState) (f : files) (e : option DbAdmissionError) : Prop :=
  ∀ rep, e = Some (BudgetExceeded rep) → calm_enough st f → ∃ kept,
    thinned (may_go paths f) (st_holders st) kept
    ∧ (∀ h, h ∈ kept → h_lease_version h = HOLDER_LEASE_VERSION → locked f (row_path paths h))
    ∧ br_active_holders rep = Z.of_nat (length kept) ∧ br_active_cache_bytes rep = active_cache_bytes kept
    ∧ budget_exceeded_reason (Z.of_nat (length kept)) request config (active_cache_bytes kept)
      = Some (br_reason rep).

Definition not_acquired (process : nat) (request : DbAdmissionRequest) (config : DbAdmissionConfig)
    (st : AdmissionState) (f : files) (e : option DbAdmissionError) (v : files) : Prop :=
  (∃ kept g, tended st f g kept ∧ (v = g ∨ left_over process request config kept g e v))
  ∧ refusal_honest request config st f e.

Lemma plain_honest request config st f e : plain e → refusal_honest request config st f e.
Proof. intros [Hn|Hn] rep -> (Hc & _); [done|by destruct (Hn rep)]. Qed.

(** The lease of a seat that could not be written down is given up. *)
Lemma wp_give_up_lease {A} n process (f : files) g e (Q : A → files → Prop) X :
  fs_leases g = <[n := Lease (Some process) true]> (fs_leases f) → fs_leases f !! n = None →
  (∀ e' v, e' = Some e ∨ ¬ calm E → fs_state v = fs_state g →
     fs_leases v = fs_leases f ∨ fs_leases v = <[n := Lease None true]> (fs_leases f) → X e' v) →
  wp (abind (unlock_lease n) (fun _ => abind (attempt (remove_holder_lease n)) (fun _ => afail e))) Q X g.
Proof.
  intros Hg Hf HX.
  apply awp_bind, (wp_changes _ (fun _ => Files (fs_state g) (fs_temps g) (<[n := Lease None true]> (fs_leases f)))).
  { intros s Hs. assert (sc_leases s !! n = Some (Lease (Some process) true)) as ->.
    { change (fs_leases (files_of s) !! n = Some (Lease (Some process) true)). by rewrite Hs, Hg, lookup_insert_eq. }
    assert (sc_leases s = fs_leases g) as Hl by (by rewrite <- Hs).
    unfold files_of, with_leases. cbn [sc_state sc_temps sc_leases lf_safe]. rewrite Hl, Hg, insert_insert_eq.
    by rewrite <- Hs. }
  apply awp_bind, wp_attempt. eapply awp_mono; [apply wp_remove_holder_lease| |]; cbn [fs_state fs_temps fs_leases].
  - intros _ v ->. apply awp_fail, HX; [by left|done|]. left. cbn [fs_leases]. by rewrite delete_insert_id.
  - intros [e'|] v [[->| ->] Hn]; try apply awp_fail; apply HX; cbn [fs_state fs_leases];
      rewrite ?delete_insert_id by done; auto.
Qed.

Lemma wp_acquire process request config st f :
  on_file (fs_state f) = Some st →
  wp (acquire_with_config paths process request config)
    (acquired process request config st f) (not_acquired process request config st f) f.
Proof.
  intros Hst. unfold acquire_with_config. apply awp_bind, awp_lift.
  2:{ intros e He. split; [exists (st_holders st), f; split; [by apply tended_refl|by left]|].
      apply plain_honest. right. intros r [= ->]. unfold validate_request in He. repeat case_match; simplify_eq. }
  intros [] Hval. apply awp_bind. eapply awp_mono; [by apply (wp_current_holders st)| |].
  2:{ intros e v (kept & Ht & Hn). split; [by exists kept, v; split; [|left]|]. by intros rep _ ?. }
  intros [[st' reaped] unk] g (kept & -> & Ht & Htm & Hc). cbn [st_holders st_next_generation st_schema_version].
  destruct (budget_exceeded_reason _ _ _ _) as [reason|] eqn:Hb.
  { apply awp_fail. split; [by exists kept, g; split; [|left]|].
    intros rep [= <-] (Hcalm & _). exists kept. split_and!; [apply Ht|by apply Hc|done..]. }
  apply awp_bind, wp_gets. intros s Hs. set (gen := Z.max _ 1). set (acquired_at := ad_clock (sc_calls s)).
  assert (admits request config kept) as Hadm by done.
  apply awp_bind. eapply awp_mono; [apply wp_create_lease| |].
  2:{ intros e v [Hp Hv]. split; [|by apply plain_honest]. exists kept, g. split; [done|].
      destruct Hv as [->|[Hnone Hv]]; [by left|right]. exists gen, acquired_at. split_and!; [done|done| |].
      - destruct Hv as [->|[-> ->]]; auto.
      - left. by destruct Hv as [->|[_ ->]]. }
  intros _ g2 [Hnone ->]. apply awp_bind, wp_attempt.
  eapply awp_mono; [apply wp_save_state| |].
  - intros _ v (Hl & _ & Hfit & Hs2). apply awp_ret. exists kept, g, gen, acquired_at.
    split_and!; [done..|]. rewrite Hs2. by apply on_file_json.
  - assert (∀ e' v v', (∀ r, e' ≠ Some (BudgetExceeded r)) ∨ ¬ calm E →
      (fs_leases v' = fs_leases g ∨ fs_leases v' = <[row_path paths (new_holder request gen acquired_at) := Lease None true]> (fs_leases g)
       ∨ e' = None ∧ fs_leases v' = <[row_path paths (new_holder request gen acquired_at) := Lease (Some process) true]> (fs_leases g)) →
      fs_state v' = fs_state v →
      save_failed paths (with_seat gen kept (new_holder request gen acquired_at))
        (with_lease (row_path paths (new_holder request gen acquired_at)) (Lease (Some process) true) g) e' v →
      not_acquired process request config st f e' v') as Hleft.
    { intros e' v v' Hp Hl Hs2 (_ & _ & Hv & _). split; [|apply plain_honest; unfold plain; tauto].
      exists kept, g. split; [done|]. right. exists gen, acquired_at. split_and!; [done..|]. rewrite Hs2.
      destruct Hv as [->|[Hfit ->]]; [by left|right]. split; [done|by apply on_file_json]. }
    intros [e|] v Hsf; pose proof Hsf as (Hl & Hp & Hv & Hn).
    + eapply (wp_give_up_lease _ process g); [exact Hl|done|]. intros e' v' He' Hs' Hl'.
      eapply (Hleft e' v); [destruct He' as [->|]; [destruct Hp as [?|Hp]; [by right|by left]|by right]| |done|].
      * tauto.
      * destruct Hsf as (? & ? & ? & ?). split_and!; try done. destruct He' as [->|]; [done|by left].
    + eapply (Hleft None v); [by left|right; right; split; [done|exact Hl]|done|done].
Qed.

(** ** Giving a seat back *)
Record given_back (a : ProfileDbAdmission) (st : AdmissionState) (f v : files) (hs : list DbAdmissionHolder) : Prop := {
  gb_leases : fs_leases v ⊆ fs_leases f;
  gb_locked : ∀ n, locked f n → n ≠ pa_lease_path a → fs_leases v !! n = fs_leases f !! n;
  gb_rows : thinned (fun h => is_seat_of a h = true) (st_holders st) hs;
  gb_file : on_file (fs_state v) = Some (MkState ADMISSION_STATE_SCHEMA_VERSION (st_next_generation st) hs);
}.

Lemma given_back_tended a st f v : tended st f v (st_holders st) → given_back a st f v (st_holders st).
Proof. intros [? H ? ?]. split; [done|intros; by apply H|apply thinned_refl|done]. Qed.

Lemma wp_release_lease a st g f hs (all : bool) :
  given_back a st f g hs →
  wp (if all then remove_holder_lease (pa_lease_path a) else aret tt)
    (fun _ v => given_back a st f v hs) (fun _ v => given_back a st f v hs) g.
Proof.
  intros [H1 H2 H3 H4]. destruct all; [|by apply awp_ret].
  assert (given_back a st f (Files (fs_state g) (fs_temps g) (delete (pa_lease_path a) (fs_leases g))) hs) as Hd.
  { split; [| |done|done]; simpl.
    - etrans; [apply delete_subseteq|done].
    - intros n Hn Hne. rewrite lookup_delete_ne by done. by apply H2. }
  eapply awp_mono; [apply wp_remove_holder_lease| |].
  - by intros _ v ->.
  - by intros e v [[->| ->] _].
Qed.

Lemma wp_release a st f :
  on_file (fs_state f) = Some st →
  wp (release paths a)
    (fun _ v => ∃ hs, given_back a st f v hs ∧ ∀ h, h ∈ hs → is_seat_of a h = false)
    (fun _ v => ∃ hs, given_back a st f v hs) f.
Proof.
  intros Hst. pose proof (on_file_version _ _ Hst) as Hver.
  assert (∀ v, tended st f v (st_holders st) → ∃ hs, given_back a st f v hs) as Hbad
    by (intros v Hv; eexists; by apply given_back_tended).
  apply awp_bind, wp_lock_state; [|intros Hn e; by apply Hbad, tended_refl].
  apply awp_bind. eapply awp_mono; [apply wp_sweep_staged| |].
  2:{ intros e v [Hv _]. apply Hbad. by eapply (tended_swept _ _ _ _ (fun _ => False)); [..|reflexivity]. }
  intros k1 g Hg. assert (on_file (fs_state g) = Some st) as Hgst by (by destruct Hg as (-> & _)).
  apply awp_bind. eapply awp_mono; [apply wp_load_state| |].
  2:{ intros e v [-> _]. apply Hbad. by eapply (tended_swept _ _ _ _ (fun _ => False)); [..|reflexivity]. }
  intros st' v [-> Hst']. assert (st' = st) as -> by congruence.
  apply awp_bind. eapply awp_mono; [apply wp_sweep_leases| |].
  2:{ intros e v [Hv Hn]. apply Hbad. exact (tended_swept _ _ _ _ _ Hst Hg Hv). }
  intros k2 h Hh. assert (tended st f h (st_holders st)) as Hth by exact (tended_swept _ _ _ _ _ Hst Hg Hh).
  set (hs := List.filter _ (st_holders st)).
  pose proof (thinned_filter (is_seat_of a) (st_holders st)) as Hthin. fold hs in Hthin.
  assert (∀ x, x ∈ hs → is_seat_of a x = false) as Hgone.
  { intros x [_ Hx]%list_elem_of_In%List.filter_In. by apply negb_true_iff. }
  assert (∀ v, fs_leases v = fs_leases h → on_file (fs_state v) = Some (MkState ADMISSION_STATE_SCHEMA_VERSION (st_next_generation st) hs) →
    given_back a st f v hs) as Hmk.
  { intros v Hl Hs. split; [rewrite Hl; apply Hth| |done|done]. intros n Hn _. rewrite Hl. by apply Hth. }
  assert (∀ v all (r : bool), given_back a st f v hs →
    wp (abind (if all : bool then remove_holder_lease (pa_lease_path a) else aret tt) (fun _ => aret r))
      (fun _ v => ∃ hs, given_back a st f v hs ∧ ∀ h, h ∈ hs → is_seat_of a h = false)
      (fun _ v => ∃ hs, given_back a st f v hs) v) as Hend.
  { intros v all r Hv. apply awp_bind. eapply awp_mono; [by apply wp_release_lease| |].
    - intros k v' Hv'. apply awp_ret. by exists hs.
    - intros e v' Hv'. by exists hs. }
  cbv zeta. destruct (bool_decide (length hs = length (st_holders st))) eqn:Hlen; cbn [negb];
    [apply bool_decide_eq_true in Hlen|apply bool_decide_eq_false in Hlen].
  - apply awp_bind, awp_ret. apply Hend. assert (hs = st_holders st) as Heq by (by apply (thinned_full _ _ _ Hthin)).
    apply Hmk; [done|]. rewrite Heq. apply Hth.
  - apply awp_bind. eapply awp_mono; [apply wp_save_state| |].
    + intros k v (Hl & _ & Hfit & Hs). apply Hend, Hmk; [done|]. rewrite Hs, Hver. by apply on_file_json; [rewrite <- Hver|].
    + intros e v (Hl & _ & Hs & _). destruct Hs as [Hs|[Hfit Hs]].
      * exists (st_holders st). destruct (given_back_tended a _ _ _ Hth) as [H1 H2 H3 H4].
        split; rewrite ?Hl, ?Hs; done.
      * exists hs. apply Hmk; [done|]. rewrite Hs, Hver. by apply on_file_json; [rewrite <- Hver|].
Qed.

End operations.
