(* ===== verification/AdmissionSystem.v ===== *)
(** * Processes that share a database's seats

    The machine: the files beside the database, the seats in use and the seats
    being given back. Events are calls of the operations by a process, with an
    environment of faults and clocks of its own, the steps of a [drop], and the
    death of a process, which unlocks what it held. The admission lock serialises
    the operations, so an event is one operation. *)

From Stdlib Require Import ZArith Lia String Ascii.
From stdpp Require Import base tactics list gmap strings numbers relations.
From S2P Require Import Prelude Order Text ProcessIdentity Admission AdmissionLogic AdmissionSafety.
Open Scope Z_scope.
Open Scope rust_scope.

(** A seat: who sits there, the value that keeps it, and what was asked for. *)
Record seat := Seat {
  seat_process : nat;
  seat_admission : ProfileDbAdmission;
  seat_request : DbAdmissionRequest;
}.

(** A seat in [mc_closing] has release attempts left, then its lease is closed. *)
Record machine := Machine {
  mc_files : sidecars;
  mc_live : list seat;
  mc_closing : list (seat * nat);
}.

Inductive admission_event :=
  | EvAcquire (process : nat) (env : AdmissionEnv) (request : DbAdmissionRequest)
  | EvSnapshot (process : nat) (env : AdmissionEnv)
  | EvDrop (i : nat)
  | EvRelease (i : nat) (env : AdmissionEnv)
  | EvClose (i : nat)
  | EvDie (process : nat).

Definition seat_path (x : seat) : string := pa_lease_path (seat_admission x).

(** The death of a process closes its files. *)
Definition unlock_of (process : nat) (l : lease_file) : lease_file :=
  if bool_decide (lf_owner l = Some process) then Lease None (lf_safe l) else l.

Definition die (process : nat) (m : machine) : machine :=
  Machine (with_leases (unlock_of process <$> sc_leases (mc_files m)) (mc_files m))
    (List.filter (fun x => negb (bool_decide (seat_process x = process))) (mc_live m))
    (List.filter (fun x => negb (bool_decide (seat_process x.1 = process))) (mc_closing m)).

Definition with_files (s : sidecars) (m : machine) : machine := Machine s (mc_live m) (mc_closing m).

Definition close_lease (x : seat) (s : sidecars) : sidecars :=
  match sc_leases s !! seat_path x with
  | Some l => if bool_decide (lf_owner l = Some (seat_process x))
              then with_leases (<[seat_path x := Lease None (lf_safe l)]> (sc_leases s)) s
              else s
  | None => s
  end.

Section machine.
Context {C : AdmissionCodec} (paths : AdmissionPaths) (config : DbAdmissionConfig).

Definition mstep (ev : admission_event) (m : machine) : machine :=
  match ev with
  | EvAcquire process env request =>
      match acquire_with_config (E := env) paths process request config (mc_files m) with
      | (s', Done (Ok a)) => Machine s' (mc_live m ++ [Seat process a request]) (mc_closing m)
      | (s', Done (Err _)) => with_files s' m
      | (s', _) => die process (with_files s' m)
      end
  | EvSnapshot process env =>
      match snapshot_with_config (E := env) paths config (mc_files m) with
      | (s', Done _) => with_files s' m
      | (s', _) => die process (with_files s' m)
      end
  | EvDrop i =>
      match mc_live m !! i with
      | Some x => Machine (mc_files m) (delete i (mc_live m)) (mc_closing m ++ [(x, ADMISSION_RELEASE_MAX_ATTEMPTS)])
      | None => m
      end
  | EvRelease i env =>
      match mc_closing m !! i with
      | Some (x, S n) =>
          match release (E := env) paths (seat_admission x) (mc_files m) with
          | (s', Done (Ok _)) => Machine s' (mc_live m) (<[i := (x, O)]> (mc_closing m))
          | (s', Done (Err _)) => Machine s' (mc_live m) (<[i := (x, n)]> (mc_closing m))
          | (s', _) => die (seat_process x) (with_files s' m)
          end
      | _ => m
      end
  | EvClose i =>
      match mc_closing m !! i with
      | Some (x, O) => Machine (close_lease x (mc_files m)) (mc_live m) (delete i (mc_closing m))
      | _ => m
      end
  | EvDie process => die process m
  end.

(** No two rows on file, and no seat in use and one being given back, have the same
    lease name: the names are hashes of the owner, the generation and the time. *)
Definition distinct_names (m : machine) : Prop :=
  (∀ x y, x ∈ mc_live m → y ∈ (mc_closing m).*1 → seat_path x ≠ seat_path y)
  ∧ ∀ st, on_file (sc_state (mc_files m)) = Some st → NoDup (row_path paths <$> st_holders st).

Definition request_ok (ev : admission_event) : Prop :=
  match ev with EvAcquire _ _ request => in_u64 (rq_configured_cache_bytes request) | _ => True end.

(** Nobody sits yet; files that earlier runs left behind may lie about. *)
Definition vacant (m : machine) : Prop :=
  mc_live m = [] ∧ mc_closing m = [] ∧ sc_state (mc_files m) = None
  ∧ ∀ n l, sc_leases (mc_files m) !! n = Some l → lf_owner l = None.

Inductive reachable : machine → Prop :=
  | reach_start m : vacant m → reachable m
  | reach_step ev m : reachable m → request_ok ev → distinct_names (mstep ev m) → reachable (mstep ev m).

(** ** Budgets *)
Definition cache_sum (hs : list DbAdmissionHolder) : Z := foldr (fun h n => h_cache_bytes h + n) 0 hs.
Definition transient (h : DbAdmissionHolder) : bool := negb (is_service_holder (h_class h)).
Definition transients (hs : list DbAdmissionHolder) : Z := Z.of_nat (length (List.filter transient hs)).

Record within (hs : list DbAdmissionHolder) : Prop := {
  wi_holders : Z.of_nat (length hs) ≤ cfg_max_holders config;
  wi_cache : cache_sum hs ≤ cfg_max_cache_bytes config;
  wi_transients : transients hs ≤ Z.max 0 (cfg_max_holders config - cfg_reserved_service_holders config);
}.

(** Limits below the largest numbers, which the saturating sums could not tell
    from a total beyond them. *)
Definition config_ok : Prop :=
  0 ≤ cfg_max_holders config < u64_max ∧ 0 ≤ cfg_max_cache_bytes config < u64_max
  ∧ in_u64 (cfg_reserved_service_holders config).

(** Rows that this program writes. *)
Definition row_ok (h : DbAdmissionHolder) : Prop :=
  h_lease_version h = HOLDER_LEASE_VERSION ∧ in_u64 (h_cache_bytes h).

Lemma cache_sum_app l k : cache_sum (l ++ k) = cache_sum l + cache_sum k.
Proof. induction l as [|h l IH]; simpl; lia. Qed.

Lemma transients_app l k : transients (l ++ k) = transients l + transients k.
Proof. unfold transients. rewrite List.filter_app, length_app. lia. Qed.

#[global] Instance cache_sum_perm : Proper ((≡ₚ) ==> (=)) cache_sum.
Proof. intros l k Hp. induction Hp; simpl; lia. Qed.

#[global] Instance transients_perm : Proper ((≡ₚ) ==> (=)) transients.
Proof.
  intros l k Hp. unfold transients. f_equal. induction Hp as [|h l k _ IH|h h' l|l k j _ IH1 _ IH2]; simpl; [done| | |lia].
  - destruct (transient h); simpl; lia.
  - by destruct (transient h), (transient h').
Qed.

Lemma cache_sum_nonneg l : Forall row_ok l → 0 ≤ cache_sum l.
Proof. induction 1 as [|h l [_ [? _]] _ IH]; simpl; lia. Qed.

#[global] Instance within_perm : Proper ((≡ₚ) ==> iff) within.
Proof. intros l k Hp. split; intros [H1 H2 H3]; split; first [by rewrite <- Hp|by rewrite Hp]. Qed.

Lemma within_submseteq l k : k ⊆+ l → Forall row_ok l → within l → within k.
Proof.
  intros (j & Hj)%submseteq_Permutation Hok Hw. rewrite Hj in Hok, Hw. destruct Hw as [H1 H2 H3].
  apply Forall_app in Hok as [_ Hj2%cache_sum_nonneg].
  rewrite length_app in H1. rewrite cache_sum_app in H2. rewrite transients_app in H3.
  split; [lia|lia|]. assert (0 ≤ transients j) by (unfold transients; lia). lia.
Qed.

(** The fold that saturates at [u64::MAX] is the sum, cut there. *)
Lemma active_cache_bytes_sum hs : Forall row_ok hs → active_cache_bytes hs = Z.min u64_max (cache_sum hs).
Proof.
  unfold active_cache_bytes. assert (∀ acc, in_u64 acc → Forall row_ok hs →
    foldl (fun total h => sat_u64 (total + h_cache_bytes h)) acc hs = Z.min u64_max (acc + cache_sum hs)) as H.
  { induction hs as [|h hs IH]; intros acc Ha Hf; simpl.
    - unfold in_u64 in *. lia.
    - inversion Hf as [|? ? [_ Hh] Hf']; subst. pose proof (cache_sum_nonneg _ Hf').
      rewrite IH by (done || apply sat_u64_range). unfold sat_u64, in_u64, u64_max in *. lia. }
  intros Hf. rewrite H; [done| |done]. unfold in_u64, u64_max. lia.
Qed.

Lemma admits_within request kept gen at_ `{E : AdmissionEnv} :
  config_ok → in_u64 (rq_configured_cache_bytes request) → Forall row_ok kept → within kept → admits request config kept →
  within (kept ++ [new_holder request gen at_]).
Proof.
  intros (Hmh & Hmc & Hrs) Hrq Hok Hw [_ Hb]. pose proof (cache_sum_nonneg _ Hok).
  unfold budget_exceeded_reason in Hb. rewrite active_cache_bytes_sum in Hb by done.
  destruct (Z.leb_spec (cfg_max_holders config) (Z.of_nat (length kept))); [done|].
  destruct (Z.ltb_spec (cfg_max_cache_bytes config)
    (sat_u64 (Z.min u64_max (cache_sum kept) + rq_configured_cache_bytes request))) as [|Hc]; [done|].
  destruct Hw as [H1 H2 H3]. split.
  - rewrite length_app. simpl. lia.
  - rewrite cache_sum_app. simpl. unfold sat_u64, in_u64 in *. lia.
  - rewrite transients_app. unfold transients at 2, transient at 1. simpl.
    destruct (is_service_holder (rq_holder_class request)); simpl in *; [lia|].
    destruct (Z.ltb_spec 0 (cfg_reserved_service_holders config)); simpl in Hb.
    + destruct (Z.ltb_spec (cfg_max_holders config)
        (sat_u64 (sat_u64 (Z.of_nat (length kept) + 1) + cfg_reserved_service_holders config))) as [|Hr]; [done|].
      assert (transients kept ≤ Z.of_nat (length kept)) as Hle.
      { unfold transients. pose proof (List.filter_length_le transient kept). lia. }
      unfold sat_u64, in_u64, u64_max in *. lia.
    + assert (transients kept ≤ Z.of_nat (length kept)) as Hle.
      { unfold transients. pose proof (List.filter_length_le transient kept). lia. }
      unfold in_u64 in *. lia.
Qed.

(** ** The invariant *)
Definition seat_row (x : seat) (h : DbAdmissionHolder) : Prop :=
  is_seat_of (seat_admission x) h = true ∧ h_class h = rq_holder_class (seat_request x)
  ∧ h_cache_bytes h = rq_configured_cache_bytes (seat_request x).

Definition seat_path_ok (x : seat) : Prop := seat_path x = holder_lease_path paths (pa_token (seat_admission x)).

(** Every seat in use has its row on file, among rows within the budget. *)
Record rows_ok (file : option string) (live : list seat) (st : AdmissionState) (rows : list DbAdmissionHolder) : Prop := {
  ro_file : on_file file = Some st;
  ro_fits : fits (state_to_json st);
  ro_within : within (st_holders st);
  ro_ok : Forall row_ok (st_holders st);
  ro_sub : rows ⊆+ st_holders st;
  ro_seats : Forall2 seat_row live rows;
}.

(** Every seat in use has a locked lease of its own, and no other lease is locked
    but those of seats being given back. *)
Record seated (f : files) (live closing : list seat) : Prop := {
  se_lease : ∀ x, x ∈ live → fs_leases f !! seat_path x = Some (Lease (Some (seat_process x)) true);
  se_path : Forall seat_path_ok (live ++ closing);
  se_nodup : NoDup (seat_path <$> live);
  se_locked : ∀ n l p, fs_leases f !! n = Some l → lf_owner l = Some p →
    ∃ x, x ∈ live ++ closing ∧ seat_path x = n ∧ seat_process x = p;
  se_rows : ∃ st rows, rows_ok (fs_state f) live st rows;
}.

Lemma seat_row_path x h : seat_path_ok x → seat_row x h → row_path paths h = seat_path x.
Proof.
  intros -> [H _]. unfold is_seat_of in H. apply andb_prop in H as [[H _]%andb_prop _].
  apply bool_decide_eq_true in H. unfold row_path. by rewrite H.
Qed.

(** The rows of live seats may not be reaped. *)
Lemma live_rows_stay f live closing st rows :
  seated f live closing → rows_ok (fs_state f) live st rows → Forall (fun h => ¬ may_go paths f h) rows.
Proof.
  intros Hse [_ _ _ Hok Hsub Hrows]. apply Forall_forall. intros h Hh.
  apply list_elem_of_lookup in Hh as [i Hi]. destruct (Forall2_lookup_r _ _ _ _ _ Hrows Hi) as (x & Hx & Hxh).
  apply list_elem_of_lookup_2 in Hx. unfold may_go. intros Hgo. apply Hgo. split.
  - rewrite Forall_forall in Hok. apply Hok. eapply elem_of_submseteq; [|done]. by apply list_elem_of_lookup_2 in Hi.
  - rewrite (seat_row_path x); [|eapply Forall_forall; [apply Hse|]|done].
    + exists (Lease (Some (seat_process x)) true). split; [by apply Hse|done].
    + apply elem_of_app. by left.
Qed.

Lemma rows_ok_thinned {CL : AdmissionCodecLaws C} may file file' live st rows kept :
  rows_ok file live st rows → thinned may (st_holders st) kept → Forall (fun h => ¬ may h) rows →
  on_file file' = Some (MkState ADMISSION_STATE_SCHEMA_VERSION (st_next_generation st) kept) →
  rows_ok file' live (MkState ADMISSION_STATE_SCHEMA_VERSION (st_next_generation st) kept) rows.
Proof.
  intros [H1 H2 H3 H4 H5 H6] Ht Hstay Hf. pose proof (thinned_sublist _ _ _ Ht) as Hs.
  pose proof (sublist_submseteq _ _ Hs) as Hs'. split; simpl; [done| | | | |done].
  - unfold fits in *. etrans; [|exact H2]. pose proof (on_file_version _ _ H1) as Hv.
    destruct st as [ver gen hs]. simpl in *. rewrite Hv. by apply state_shorter.
  - by eapply within_submseteq.
  - apply Forall_forall. intros h Hh. rewrite Forall_forall in H4. apply H4. by eapply elem_of_submseteq.
  - by eapply thinned_keeps.
Qed.

Lemma seated_tended {CL : AdmissionCodecLaws C} f live closing st rows g kept :
  seated f live closing → rows_ok (fs_state f) live st rows → tended paths st f g kept →
  seated g live closing
  ∧ rows_ok (fs_state g) live (MkState ADMISSION_STATE_SCHEMA_VERSION (st_next_generation st) kept) rows.
Proof.
  intros Hse Hro [T1 T2 T3 T4].
  assert (rows_ok (fs_state g) live (MkState ADMISSION_STATE_SCHEMA_VERSION (st_next_generation st) kept) rows) as Hro'.
  { eapply rows_ok_thinned; [done..|by eapply live_rows_stay|done]. }
  split; [|done]. split; [|apply Hse|apply Hse| |by eauto].
  - intros x Hx. rewrite T2; [by apply Hse|]. eexists. split; [by apply Hse|done].
  - intros n l p Hl Hp. eapply se_locked; [done|by eapply lookup_weaken|done].
Qed.

(** A lease that nobody holds, and other rows, change nothing for the seats. *)
Lemma seated_leases f g live closing :
  seated f live closing → fs_state g = fs_state f →
  (∀ n l p, lf_owner l = Some p → fs_leases g !! n = Some l ↔ fs_leases f !! n = Some l) →
  seated g live closing.
Proof.
  intros Hse Hs Hl. split; [|apply Hse|apply Hse| |].
  - intros x Hx. eapply Hl; [done|by apply Hse].
  - intros n l p Hn Hp. eapply se_locked; [done|by eapply Hl|done].
  - rewrite Hs. apply Hse.
Qed.

Lemma insert_unlocked_iff (m : gmap string lease_file) n0 s n l p :
  m !! n0 = None → lf_owner l = Some p → <[n0 := Lease None s]> m !! n = Some l ↔ m !! n = Some l.
Proof.
  intros Hn Hp. destruct (decide (n0 = n)) as [->|Hne]; [|by rewrite lookup_insert_ne].
  rewrite lookup_insert_eq, Hn. split; [|done]. by intros [= <-].
Qed.

Lemma rows_ok_with_seat {E : AdmissionEnv} file live gen0 kept rows request gen at_ :
  config_ok → in_u64 (rq_configured_cache_bytes request) → admits request config kept →
  rows_ok file live (MkState ADMISSION_STATE_SCHEMA_VERSION gen0 kept) rows →
  let h := new_holder request gen at_ in
  fits (state_to_json (with_seat gen kept h)) →
  ∀ file', on_file file' = Some (with_seat gen kept h) →
  rows_ok file' live (with_seat gen kept h) rows ∧ h :: rows ⊆+ st_holders (with_seat gen kept h).
Proof.
  intros Hcfg Hrq Hadm [H1 H2 H3 H4 H5 H6] h Hfit file' Hf. simpl in *.
  assert (st_holders (with_seat gen kept h) ≡ₚ kept ++ [h]) as Hp by (simpl; apply sort_by_perm).
  assert (h :: rows ⊆+ st_holders (with_seat gen kept h)) as Hsub.
  { rewrite Hp, <- Permutation_cons_append. by apply submseteq_skip. }
  split; [|done]. split; [done..| | | |done].
  - rewrite Hp. by apply admits_within.
  - rewrite Hp. apply Forall_app. split; [done|]. repeat constructor; simpl; apply Hrq.
  - etrans; [|exact Hsub]. by apply submseteq_cons.
Qed.

Lemma seated_left_over {CL : AdmissionCodecLaws C} {E : AdmissionEnv} f live closing st rows g kept process request e v :
  config_ok → in_u64 (rq_configured_cache_bytes request) →
  seated f live closing → rows_ok (fs_state f) live st rows → tended paths st f g kept →
  left_over paths process request config kept g (Some e) v → seated v live closing.
Proof.
  intros Hcfg Hrq Hse Hro Ht (gen & at_ & Hadm & Hnone & Hl & Hs).
  destruct (seated_tended _ _ _ _ _ _ _ Hse Hro Ht) as [Hg Hrog].
  assert (seated (Files (fs_state g) (fs_temps v) (fs_leases v)) live closing) as [A1 A2 A3 A4 _].
  { eapply seated_leases; [exact Hg|done|]. intros n l p Hp. simpl.
    destruct Hl as [->|[->|[? _]]]; [done|by eapply insert_unlocked_iff|done]. }
  split; [done..|]. destruct Hs as [Hs|[Hfit Hs]].
  - exists (MkState ADMISSION_STATE_SCHEMA_VERSION (st_next_generation st) kept), rows.
    destruct Hrog as [B1 B2 B3 B4 B5 B6]. split; [by rewrite Hs|done..].
  - eexists _, rows. by eapply rows_ok_with_seat.
Qed.

Lemma seated_acquired {CL : AdmissionCodecLaws C} {E : AdmissionEnv} f live closing st rows process request a v :
  config_ok → in_u64 (rq_configured_cache_bytes request) →
  seated f live closing → rows_ok (fs_state f) live st rows →
  acquired paths process request config st f a v → seated v (live ++ [Seat process a request]) closing.
Proof.
  intros Hcfg Hrq Hse Hro (kept & g & gen & at_ & Ht & Hadm & -> & Hnone & Hl & Hfit & Hs).
  destruct (seated_tended _ _ _ _ _ _ _ Hse Hro Ht) as [Hg Hrog].
  set (h := new_holder request gen at_) in *. set (x := Seat process _ request).
  assert (seat_path x = row_path paths h) as Hpath by done.
  split.
  - intros y [Hy|Hy%list_elem_of_singleton]%elem_of_app.
    + rewrite Hl, lookup_insert_ne; [by apply Hg|]. intros Heq. rewrite Heq in Hnone.
      by rewrite (se_lease _ _ _ Hg) in Hnone.
    + subst y. by rewrite Hl, Hpath, lookup_insert_eq.
  - rewrite <- (assoc_L (++)). pose proof (se_path _ _ _ Hg) as [P1 P2]%Forall_app.
    apply Forall_app. split; [done|]. constructor; [done|done].
  - rewrite fmap_app. apply NoDup_app. split_and!; [apply Hg| |apply NoDup_singleton].
    intros n (y & -> & Hy)%list_elem_of_fmap Hn%list_elem_of_singleton. rewrite Hpath in Hn. rewrite <- Hn in Hnone.
    by rewrite (se_lease _ _ _ Hg) in Hnone.
  - intros n l p Hn Hp. rewrite Hl in Hn. destruct (decide (row_path paths h = n)) as [Heq|Hne].
    + rewrite Heq, lookup_insert_eq in Hn. simplify_eq/=. exists x. split; [|done].
      rewrite !elem_of_app, list_elem_of_singleton. auto.
    + rewrite lookup_insert_ne in Hn by done. destruct (se_locked _ _ _ Hg n l p Hn Hp) as (y & Hy & ?).
      exists y. split; [|done]. rewrite !elem_of_app in *. tauto.
  - exists (with_seat gen kept h), (rows ++ [h]).
    destruct (rows_ok_with_seat _ _ _ _ _ _ _ _ Hcfg Hrq Hadm Hrog Hfit _ Hs) as [[B1 B2 B3 B4 B5 B6] Hsub].
    split; [done..| |].
    + by rewrite <- Permutation_cons_append.
    + apply Forall2_app; [done|]. constructor; [|done]. split; [|done]. unfold is_seat_of. simpl.
      by rewrite !bool_decide_true, Z.eqb_refl.
Qed.

(** Seats leave the machine with their rows. *)
Lemma Forall2_sublist_l {A B} (P : A → B → Prop) l l' k :
  l' `sublist_of` l → Forall2 P l k → ∃ k', k' `sublist_of` k ∧ Forall2 P l' k'.
Proof.
  intros Hs. revert k. induction Hs as [|x l' l Hs IH|x l' l Hs IH]; intros k Hk.
  - by exists k.
  - inversion Hk as [|? y ? k0 ? Hk0]; subst. destruct (IH _ Hk0) as (k' & ? & ?).
    exists (y :: k'). split; by constructor.
  - inversion Hk as [|? y ? k0 ? Hk0]; subst. destruct (IH _ Hk0) as (k' & ? & ?).
    exists k'. split; [by constructor|done].
Qed.

Lemma filter_sublist {A} (f : A → bool) l : List.filter f l `sublist_of` l.
Proof. induction l as [|x l IH]; simpl; [done|]. destruct (f x); by constructor. Qed.

Lemma rows_ok_fewer file live live' st rows :
  live' `sublist_of` live → rows_ok file live st rows → ∃ rows', rows_ok file live' st rows'.
Proof.
  intros Hs [H1 H2 H3 H4 H5 H6]. destruct (Forall2_sublist_l _ _ _ _ Hs H6) as (rows' & Hr & Hf).
  exists rows'. split; [done..| |done]. etrans; [by apply sublist_submseteq|done].
Qed.

Definition die_files (process : nat) (f : files) : files :=
  Files (fs_state f) (fs_temps f) (unlock_of process <$> fs_leases f).

Definition others (process : nat) (l : list seat) : list seat :=
  List.filter (fun x => negb (bool_decide (seat_process x = process))) l.

Lemma others_elem process l x : x ∈ others process l ↔ x ∈ l ∧ seat_process x ≠ process.
Proof.
  unfold others. rewrite !list_elem_of_In, List.filter_In, negb_true_iff, bool_decide_eq_false. done.
Qed.

Lemma seated_fewer f live live' closing closing' :
  seated f live closing → live' `sublist_of` live → Forall seat_path_ok (live' ++ closing') →
  (∀ n l p, fs_leases f !! n = Some l → lf_owner l = Some p →
     ∃ x, x ∈ live' ++ closing' ∧ seat_path x = n ∧ seat_process x = p) →
  seated f live' closing'.
Proof.
  intros Hse Hs Hp Hl. split; [|done| |done|].
  - intros x Hx. apply Hse. eapply elem_of_submseteq; [done|by apply sublist_submseteq].
  - eapply sublist_NoDup; [apply Hse|by apply fmap_sublist].
  - destruct (se_rows _ _ _ Hse) as (st & rows & Hro). exists st. by eapply rows_ok_fewer.
Qed.

Lemma seated_die f live closing process :
  seated f live closing → seated (die_files process f) (others process live) (others process closing).
Proof.
  intros Hse. split.
  - intros x [Hx Hp]%others_elem. simpl. rewrite lookup_fmap, (se_lease _ _ _ Hse) by done. simpl.
    unfold unlock_of. simpl. rewrite bool_decide_false; [done|congruence].
  - pose proof (se_path _ _ _ Hse) as HF. rewrite Forall_forall in *. intros x Hx. apply HF.
    apply elem_of_app in Hx as [[Hx _]%others_elem|[Hx _]%others_elem]; apply elem_of_app; auto.
  - eapply sublist_NoDup; [apply Hse|apply fmap_sublist, filter_sublist].
  - intros n l p Hn Hp. simpl in Hn. rewrite lookup_fmap in Hn. apply fmap_Some in Hn as (l0 & Hl0 & ->).
    unfold unlock_of in Hp. case_bool_decide as Ho; [done|].
    destruct (se_locked _ _ _ Hse n l0 p Hl0 Hp) as (x & Hx & Hpath & Hproc). exists x. split; [|done].
    assert (seat_process x ≠ process) by congruence.
    apply elem_of_app in Hx as [Hx|Hx]; apply elem_of_app; [left|right]; by apply others_elem.
  - destruct (se_rows _ _ _ Hse) as (st & rows & Hro). exists st. eapply rows_ok_fewer; [apply filter_sublist|done].
Qed.

(** A crash while a seat is being taken: a lease that the process had locked is
    unlocked with the others. *)
Lemma die_unlocks process f n : fs_leases f !! n = None →
  unlock_of process <$> <[n := Lease (Some process) true]> (fs_leases f)
  = unlock_of process <$> <[n := Lease None true]> (fs_leases f).
Proof.
  intros _. rewrite !fmap_insert. f_equal. unfold unlock_of. simpl. by rewrite bool_decide_true.
Qed.

Lemma seated_crashed {CL : AdmissionCodecLaws C} {E : AdmissionEnv} f live closing st rows process request v :
  config_ok → in_u64 (rq_configured_cache_bytes request) →
  seated f live closing → rows_ok (fs_state f) live st rows →
  not_acquired paths process request config st f None v →
  seated (die_files process v) (others process live) (others process closing).
Proof.
  intros Hcfg Hrq Hse Hro [(kept & g & Ht & Hv) _].
  destruct (seated_tended _ _ _ _ _ _ _ Hse Hro Ht) as [Hg _].
  destruct Hv as [->|(gen & at_ & Hadm & Hnone & Hl & Hs)]; [by apply seated_die|].
  assert (∃ w, die_files process v = die_files process w
    ∧ left_over paths process request config kept g (Some InvalidState) w) as (w & -> & Hw).
  { destruct Hl as [Hl|[Hl|[_ Hl]]].
    - exists v. split; [done|]. exists gen, at_. split_and!; auto.
    - exists v. split; [done|]. exists gen, at_. split_and!; auto.
    - exists (Files (fs_state v) (fs_temps v) (<[row_path paths (new_holder request gen at_) := Lease None true]> (fs_leases g))).
      split; [unfold die_files; simpl; by rewrite Hl, die_unlocks|]. exists gen, at_. split_and!; auto. }
  apply seated_die. exact (seated_left_over _ _ _ _ _ _ _ _ _ _ _ Hcfg Hrq Hse Hro Ht Hw).
Qed.

Lemma seated_given_back {CL : AdmissionCodecLaws C} f live closing st rows x v hs :
  seated f live closing → rows_ok (fs_state f) live st rows → x ∈ closing →
  (∀ y, y ∈ live → seat_path y ≠ seat_path x) →
  given_back (seat_admission x) st f v hs → seated v live closing.
Proof.
  intros Hse Hro Hx Hne [G1 G2 G3 G4]. split; [|apply Hse|apply Hse| |].
  - intros y Hy. rewrite G2; [by apply Hse| |by apply Hne]. eexists. split; [by apply Hse|done].
  - intros n l p Hl Hp. eapply se_locked; [done|by eapply lookup_weaken|done].
  - eexists _, rows. eapply rows_ok_thinned; [done|exact G3| |exact G4].
    apply Forall_forall. intros h Hh Hseat. destruct Hro as [_ _ _ _ _ Hrows].
    apply list_elem_of_lookup in Hh as [i Hi]. destruct (Forall2_lookup_r _ _ _ _ _ Hrows Hi) as (y & Hy & Hyh).
    apply list_elem_of_lookup_2 in Hy. apply (Hne y Hy).
    pose proof (se_path _ _ _ Hse) as HF. rewrite Forall_forall in HF.
    rewrite <- (seat_row_path y h); [|apply HF, elem_of_app; by left|done].
    rewrite (HF x) by (apply elem_of_app; by right). unfold row_path. f_equal.
    unfold is_seat_of in Hseat. apply andb_prop in Hseat as [[Ht _]%andb_prop _]. by apply bool_decide_eq_true in Ht.
Qed.

Lemma close_lease_leases x s n l :
  sc_leases (close_lease x s) !! n = Some l → is_Some (lf_owner l) →
  sc_leases s !! n = Some l ∧ ¬ (n = seat_path x ∧ lf_owner l = Some (seat_process x)).
Proof.
  unfold close_lease. destruct (sc_leases s !! seat_path x) as [l0|] eqn:Hl0.
  - case_bool_decide as Ho; simpl.
    + destruct (decide (seat_path x = n)) as [<-|Hne].
      * rewrite lookup_insert_eq. intros [= <-] [? ?]. done.
      * rewrite lookup_insert_ne by done. intros ? _. split; [done|]. by intros [-> _].
    + intros Hl _. split; [done|]. intros [-> ?]. by simplify_eq.
  - intros Hl _. split; [done|]. intros [-> ?]. by simplify_eq.
Qed.

Lemma seated_close s live closing closing' x :
  seated (files_of s) live closing → closing ≡ₚ x :: closing' →
  (∀ y, y ∈ live → seat_path y ≠ seat_path x) →
  seated (files_of (close_lease x s)) live closing'.
Proof.
  intros Hse Hp Hne. assert (sc_state (close_lease x s) = sc_state s) as Hst.
  { unfold close_lease. repeat case_match; done. }
  split.
  - intros y Hy. pose proof (se_lease _ _ _ Hse y Hy) as Hl. simpl in *. unfold close_lease.
    destruct (sc_leases s !! seat_path x) as [l0|]; [|done]. case_bool_decide; [|done]. simpl.
    rewrite lookup_insert_ne; [done|]. intros Heq. by apply (Hne y Hy).
  - pose proof (se_path _ _ _ Hse) as HF. rewrite Hp in HF. apply Forall_app in HF as [? HF]. inversion HF; subst.
    by apply Forall_app.
  - apply Hse.
  - intros n l p Hn Ho. destruct (close_lease_leases x s n l Hn) as [Hl Hnot]; [by rewrite Ho|].
    destruct (se_locked _ _ _ Hse n l p Hl Ho) as (y & Hy & Hpath & Hproc). exists y. split; [|done].
    rewrite Hp, elem_of_app, elem_of_cons in Hy. apply elem_of_app. destruct Hy as [Hy|[->|Hy]]; [by left| |by right].
    destruct Hnot. split; [done|congruence].
  - destruct (se_rows _ _ _ Hse) as (st & rows & Hro). exists st, rows. destruct Hro. simpl in *.
    split; simpl; [by rewrite Hst|done..].
Qed.

(** ** Steps *)
Definition inv (m : machine) : Prop := seated (files_of (mc_files m)) (mc_live m) (mc_closing m).*1.

Definition apart (m : machine) : Prop :=
  ∀ x y, x ∈ mc_live m → y ∈ (mc_closing m).*1 → seat_path x ≠ seat_path y.

Lemma others_fst process (l : list (seat * nat)) :
  (List.filter (fun x => negb (bool_decide (seat_process x.1 = process))) l).*1 = others process l.*1.
Proof.
  unfold others. induction l as [|[x n] l IH]; [done|]. cbn. case_bool_decide; cbn; [exact IH|f_equal; exact IH].
Qed.

Lemma inv_die process m : inv m → inv (die process m).
Proof. intros H. unfold inv. simpl. rewrite others_fst. by apply (seated_die _ _ _ process) in H. Qed.

Lemma wp_snapshot {CL : AdmissionCodecLaws C} {E : AdmissionEnv} st f :
  on_file (fs_state f) = Some st →
  wp (snapshot_with_config paths config)
    (fun snap v => ∃ kept, tended paths st f v kept ∧ sn_holders snap = kept
       ∧ sn_active_cache_bytes snap = active_cache_bytes kept
       ∧ (calm E → ∀ h, h ∈ kept → h_lease_version h = HOLDER_LEASE_VERSION → locked f (row_path paths h)))
    (fun _ v => ∃ kept, tended paths st f v kept ∧ ¬ calm_enough paths st f) f.
Proof.
  intros Hst. apply awp_bind. eapply awp_mono; [by apply (wp_current_holders paths st)| |done].
  intros [[st' reaped] unk] v (kept & -> & Ht & _ & Hc). apply awp_ret. by exists kept.
Qed.

Section invariant.
Context {CL : AdmissionCodecLaws C}.
Hypothesis Hcfg : config_ok.

Lemma inv_acquire process env request m :
  in_u64 (rq_configured_cache_bytes request) → inv m → inv (mstep (EvAcquire process env request) m).
Proof.
  intros Hrq Hm. destruct (se_rows _ _ _ Hm) as (st & rows & Hro).
  pose proof (wp_acquire (E := env) paths process request config st _ (ro_file _ _ _ _ Hro) (mc_files m) eq_refl) as Hw.
  simpl. destruct (acquire_with_config _ _ _ _ _) as [s' [[a|e]| |]]; [| | |done].
  - exact (seated_acquired _ _ _ _ _ _ _ _ _ Hcfg Hrq Hm Hro Hw).
  - destruct Hw as [(kept & g & Ht & [Hg|Hl]) _].
    + unfold inv. simpl. rewrite Hg. apply (seated_tended _ _ _ _ _ _ _ Hm Hro Ht).
    + exact (seated_left_over _ _ _ _ _ _ _ _ _ _ _ Hcfg Hrq Hm Hro Ht Hl).
  - unfold inv. simpl. rewrite others_fst. exact (seated_crashed _ _ _ _ _ _ _ _ Hcfg Hrq Hm Hro Hw).
Qed.

Lemma inv_snapshot process env m : inv m → inv (mstep (EvSnapshot process env) m).
Proof.
  intros Hm. destruct (se_rows _ _ _ Hm) as (st & rows & Hro).
  pose proof (wp_snapshot (E := env) st _ (ro_file _ _ _ _ Hro) (mc_files m) eq_refl) as Hw.
  assert (∀ s' kept, tended paths st (files_of (mc_files m)) (files_of s') kept → inv (with_files s' m)) as Ht.
  { intros s' kept Ht. apply (seated_tended _ _ _ _ _ _ _ Hm Hro Ht). }
  simpl. destruct (snapshot_with_config _ _ _) as [s' [[a|e]| |]]; [| | |done];
    destruct Hw as (kept & Hk & _); [by eapply Ht|by eapply Ht|]. eapply inv_die, Ht, Hk.
Qed.

Lemma inv_drop i m : inv m → inv (mstep (EvDrop i) m).
Proof.
  intros Hm. simpl. destruct (mc_live m !! i) as [x|] eqn:Hi; [|done].
  pose proof (delete_Permutation _ _ _ Hi) as Hp.
  assert (∀ y, y ∈ delete i (mc_live m) ++ (mc_closing m ++ [(x, ADMISSION_RELEASE_MAX_ATTEMPTS)]).*1
          ↔ y ∈ mc_live m ++ (mc_closing m).*1) as Hiff.
  { intros y. rewrite fmap_app. cbn [fmap list_fmap fst]. rewrite !elem_of_app, list_elem_of_singleton. rewrite Hp at 2.
    rewrite elem_of_cons. tauto. }
  eapply seated_fewer; [exact Hm|apply sublist_delete| |].
  - pose proof (se_path _ _ _ Hm) as HF. rewrite Forall_forall in *. intros y Hy. by apply HF, Hiff.
  - intros n l p Hl Ho. destruct (se_locked _ _ _ Hm n l p Hl Ho) as (y & Hy & ?). exists y. by rewrite Hiff.
Qed.

Lemma inv_release i env m : apart m → inv m → inv (mstep (EvRelease i env) m).
Proof.
  intros Hap Hm. simpl. destruct (mc_closing m !! i) as [[x [|n]]|] eqn:Hi; [done| |done].
  destruct (se_rows _ _ _ Hm) as (st & rows & Hro).
  assert (x ∈ (mc_closing m).*1) as Hx by (apply list_elem_of_fmap; exists (x, S n); split; [done|by eapply list_elem_of_lookup_2]).
  pose proof (wp_release (E := env) paths (seat_admission x) st _ (ro_file _ _ _ _ Hro) (mc_files m) eq_refl) as Hw.
  assert (∀ s' hs, given_back (seat_admission x) st (files_of (mc_files m)) (files_of s') hs → inv (with_files s' m)) as Ht.
  { intros s' hs Hg. eapply seated_given_back; [exact Hm|exact Hro|exact Hx| |exact Hg]. intros y Hy. by apply Hap. }
  assert (∀ k : nat, (<[i := (x, k)]> (mc_closing m)).*1 = (mc_closing m).*1) as Hsame.
  { intros k. rewrite list_fmap_insert. apply list_insert_id. by rewrite list_lookup_fmap, Hi. }
  destruct (release _ _ _) as [s' [[b|e]| |]]; [| | |done].
  - destruct Hw as (hs & Hg & _). unfold inv. simpl. rewrite Hsame. by eapply Ht.
  - destruct Hw as (hs & Hg). unfold inv. simpl. rewrite Hsame. by eapply Ht.
  - destruct Hw as (hs & Hg). eapply inv_die, Ht, Hg.
Qed.

Lemma inv_close i m : apart m → inv m → inv (mstep (EvClose i) m).
Proof.
  intros Hap Hm. simpl. destruct (mc_closing m !! i) as [[x [|n]]|] eqn:Hi; [|done..].
  pose proof (delete_Permutation _ _ _ Hi) as Hp.
  assert (x ∈ (mc_closing m).*1) as Hx by (apply list_elem_of_fmap; exists (x, O); split; [done|by eapply list_elem_of_lookup_2]).
  eapply seated_close; [exact Hm|exact (fmap_Permutation fst _ _ Hp)|]. intros y Hy. by apply Hap.
Qed.

Lemma reachable_inv m : reachable m → inv m ∧ apart m.
Proof.
  induction 1 as [m (H1 & H2 & H3 & H4)|ev m _ [Hm Hap] Hrq [Hd _]].
  - split; [|intros x y Hx; rewrite H1 in Hx; by apply elem_of_nil in Hx]. unfold inv. rewrite H1, H2. split; simpl.
    + intros x Hx. by apply elem_of_nil in Hx.
    + constructor.
    + constructor.
    + intros n l p Hl Hp. by rewrite (H4 n l Hl) in Hp.
    + exists state_default, []. rewrite H3. split; [done| |..].
      * apply state_empty_fits.
      * destruct Hcfg as ([? ?] & [? ?] & ?). split; simpl; unfold transients; simpl; lia.
      * constructor.
      * done.
      * constructor.
  - split; [|exact Hd]. destruct ev; [by apply inv_acquire|by apply inv_snapshot|by apply inv_drop|by apply inv_release
      |by apply inv_close|by apply inv_die].
Qed.

(** ** What the seats on file say of the seats in use *)
Definition request_cache (live : list seat) : Z :=
  foldr (fun x n => rq_configured_cache_bytes (seat_request x) + n) 0 live.
Definition transient_seats (live : list seat) : Z :=
  Z.of_nat (length (List.filter (fun x => negb (is_service_holder (rq_holder_class (seat_request x)))) live)).

Lemma rows_cache live rows : Forall2 seat_row live rows → cache_sum rows = request_cache live.
Proof. induction 1 as [|x h live rows (_ & _ & Hc) _ IH]; simpl; [done|]. by rewrite IH, Hc. Qed.

Lemma rows_transients live rows : Forall2 seat_row live rows → transients rows = transient_seats live.
Proof.
  unfold transients, transient_seats. induction 1 as [|x h live rows (_ & Hc & _) _ IH]; simpl; [done|].
  unfold transient at 1. rewrite Hc. destruct (is_service_holder _); simpl; lia.
Qed.

(** C9: however processes take and give back seats, whatever calls fail and
    whenever processes die, the seats in use never exceed the profile's limits: not
    in number, not in the page cache they asked for, and the seats reserved for
    services are never taken by other processes. *)
Theorem admission_within_budget m :
  reachable m →
  Z.of_nat (length (mc_live m)) ≤ cfg_max_holders config
  ∧ request_cache (mc_live m) ≤ cfg_max_cache_bytes config
  ∧ transient_seats (mc_live m) ≤ Z.max 0 (cfg_max_holders config - cfg_reserved_service_holders config).
Proof.
  intros [Hm _]%reachable_inv. destruct (se_rows _ _ _ Hm) as (st & rows & [H1 H2 H3 H4 H5 H6]).
  destruct (within_submseteq _ _ H5 H4 H3) as [W1 W2 W3].
  rewrite <- (rows_cache _ _ H6), <- (rows_transients _ _ H6), (Forall2_length _ _ _ H6). done.
Qed.

(** C10: a seat in use stays on file with a lease that its process holds, under any
    faults and crashes of others and of itself while it takes another: no sweep
    or reaping takes the seat of a process that lives. *)
Theorem live_seat_kept m x :
  reachable m → x ∈ mc_live m →
  sc_leases (mc_files m) !! seat_path x = Some (Lease (Some (seat_process x)) true)
  ∧ ∃ st h, on_file (sc_state (mc_files m)) = Some st ∧ h ∈ st_holders st
            ∧ is_seat_of (seat_admission x) h = true ∧ row_path paths h = seat_path x.
Proof.
  intros [Hm _]%reachable_inv Hx. split; [by apply Hm|].
  destruct (se_rows _ _ _ Hm) as (st & rows & [H1 H2 H3 H4 H5 H6]). apply list_elem_of_lookup in Hx as [i Hi].
  destruct (Forall2_lookup_l _ _ _ _ _ H6 Hi) as (h & Hh & Hr). exists st, h.
  split_and!; [done|eapply elem_of_submseteq; [by eapply list_elem_of_lookup_2|done]|apply Hr|].
  apply seat_row_path; [|done]. pose proof (se_path _ _ _ Hm) as HF. rewrite Forall_forall in HF.
  apply HF, elem_of_app. left. by eapply list_elem_of_lookup_2.
Qed.

(** The rows that a calm look keeps are those of the seats in use. *)
Lemma kept_exact m st rows kept :
  inv m → distinct_names m → mc_closing m = [] → rows_ok (sc_state (mc_files m)) (mc_live m) st rows →
  thinned (may_go paths (files_of (mc_files m))) (st_holders st) kept →
  (∀ h, h ∈ kept → h_lease_version h = HOLDER_LEASE_VERSION → locked (files_of (mc_files m)) (row_path paths h)) →
  rows ≡ₚ kept.
Proof.
  intros Hm [_ Hnd] Hcl Hro Ht Hlock. apply submseteq_length_Permutation.
  { eapply thinned_keeps; [done|apply Hro|by eapply live_rows_stay]. }
  assert (row_path paths <$> kept ⊆+ seat_path <$> mc_live m) as Hsub%submseteq_length.
  { apply NoDup_submseteq.
    - eapply sublist_NoDup; [apply Hnd, Hro|by eapply fmap_sublist, thinned_sublist].
    - intros n (h & -> & Hh)%list_elem_of_fmap.
      assert (h_lease_version h = HOLDER_LEASE_VERSION) as Hv.
      { pose proof (ro_ok _ _ _ _ Hro) as HF. rewrite Forall_forall in HF. apply HF.
        eapply elem_of_submseteq; [done|]. by eapply sublist_submseteq, thinned_sublist. }
      destruct (Hlock h Hh Hv) as (l & Hl & [p Hp]).
      destruct (se_locked _ _ _ Hm _ l p Hl Hp) as (x & Hx & Hpath & _). rewrite Hcl, app_nil_r in Hx.
      rewrite <- Hpath. by apply list_elem_of_fmap_2. }
  rewrite !length_fmap in Hsub. by rewrite <- (Forall2_length _ _ _ (ro_seats _ _ _ _ Hro)).
Qed.

Lemma calm_cache m st rows kept :
  rows_ok (sc_state (mc_files m)) (mc_live m) st rows → rows ≡ₚ kept →
  thinned (may_go paths (files_of (mc_files m))) (st_holders st) kept →
  active_cache_bytes kept = request_cache (mc_live m).
Proof.
  intros [H1 H2 H3 H4 H5 H6] Hp Ht. rewrite <- (rows_cache _ _ H6).
  assert (Forall row_ok kept) as Hok.
  { rewrite Forall_forall in *. intros h Hh. apply H4. eapply elem_of_submseteq; [done|].
    by eapply sublist_submseteq, thinned_sublist. }
  rewrite active_cache_bytes_sum, <- Hp by done. apply Z.min_r.
  pose proof (wi_cache _ (within_submseteq _ _ H5 H4 H3)). destruct Hcfg as (_ & [_ ?] & _). lia.
Qed.

(** C37: Seats of the dead do not leak. In a reachable state in which no seat is being
    given back (no drop is in its retries, or past them with its lease file still open),
    when lease names are distinct, the names of the run's temporary files are free, and
    no call fails and no lock is held: a snapshot succeeds and lists exactly the seats
    in use, with the caches they asked for; the seats of all processes that died, or
    failed half way through taking one, are given back. So are those whose release
    failed in every attempt, since the end of the drop closes their lease file; a log
    line in db_admission_release.rs says instead that such a slot may leak until the
    process exits. *)
Theorem snapshot_exact (env : AdmissionEnv) m :
  reachable m → distinct_names m → mc_closing m = [] → calm env → fresh_temps (E := env) paths (files_of (mc_files m)) →
  ∃ s' snap, snapshot_with_config (E := env) paths config (mc_files m) = (s', Done (Ok snap))
    ∧ row_path paths <$> sn_holders snap ≡ₚ seat_path <$> mc_live m
    ∧ sn_active_cache_bytes snap = request_cache (mc_live m).
Proof.
  intros [Hm _]%reachable_inv Hd Hcl Hcalm Hfresh. destruct (se_rows _ _ _ Hm) as (st & rows & Hro).
  pose proof (wp_snapshot (E := env) st _ (ro_file _ _ _ _ Hro) (mc_files m) eq_refl) as Hw.
  assert (calm_enough (E := env) paths st (files_of (mc_files m))) as Hce by (split_and!; [done..|apply Hro]).
  destruct (snapshot_with_config _ _ _) as [s' [[snap|e]| |]]; [| | |done].
  2, 3: by destruct Hw as (? & _ & []).
  destruct Hw as (kept & Ht & Hk & Hc & Hlock). exists s', snap. split; [done|]. rewrite Hk, Hc.
  pose proof (kept_exact m st rows kept Hm Hd Hcl Hro (td_rows _ _ _ _ _ Ht) (Hlock Hcalm)) as Hp.
  split; [|by eapply calm_cache; [done..|apply Ht]]. rewrite <- Hp.
  pose proof (ro_seats _ _ _ _ Hro) as Hrows. pose proof (se_path _ _ _ Hm) as [HF _]%Forall_app. clear -Hrows HF.
  induction Hrows as [|x h live rows Hr _ IH]; [done|]. inversion HF; subst. cbn.
  rewrite (seat_row_path x h) by done. constructor. by apply IH.
Qed.

(** A refusal is honest. When no call fails, a process that is told that the
    budget is exceeded is told the number of seats in use and the cache they asked
    for, and with them its request is over a limit. *)
Theorem refusal_counts_live_seats (env : AdmissionEnv) m process request s' report :
  reachable m → distinct_names m → mc_closing m = [] → calm env → fresh_temps (E := env) paths (files_of (mc_files m)) →
  acquire_with_config (E := env) paths process request config (mc_files m) = (s', Done (Err (BudgetExceeded report))) →
  br_active_holders report = Z.of_nat (length (mc_live m))
  ∧ br_active_cache_bytes report = request_cache (mc_live m)
  ∧ budget_exceeded_reason (Z.of_nat (length (mc_live m))) request config (request_cache (mc_live m))
    = Some (br_reason report).
Proof.
  intros [Hm _]%reachable_inv Hd Hcl Hcalm Hfresh Hrun. destruct (se_rows _ _ _ Hm) as (st & rows & Hro).
  pose proof (wp_acquire (E := env) paths process request config st _ (ro_file _ _ _ _ Hro) (mc_files m) eq_refl) as Hw.
  rewrite Hrun in Hw. destruct Hw as [_ Hh].
  destruct (Hh report eq_refl) as (kept & Ht & Hlock & -> & -> & Hreason); [by split_and!; [..|apply Hro]|].
  pose proof (kept_exact m st rows kept Hm Hd Hcl Hro Ht Hlock) as Hp.
  assert (length kept = length (mc_live m)) as Hlen.
  { rewrite <- Hp. symmetry. by eapply Forall2_length, Hro. }
  rewrite Hlen, (calm_cache m st rows kept Hro Hp Ht) in *. done.
Qed.

End invariant.
End machine.
