(* ===== verification/AdmissionStory.v ===== *)
(** * Admission on concrete files

    An instance of the environment of [Admission.v] (hexadecimal digits for the
    hash, fields as binary digits for the state file), small runs of the machine
    of [AdmissionSystem.v] on it, the witnesses of its theorems, and the names of
    the sidecar files. *)

From Stdlib Require Import ZArith Lia String Ascii.
From stdpp Require Import base tactics list gmap strings numbers countable.
From S2P Require Import Prelude Order Text ProcessIdentity CoworkInbox Admission AdmissionLogic AdmissionSafety AdmissionSystem.
Open Scope Z_scope.
Open Scope rust_scope.

(** ** A text for states: groups of binary digits, each closed by a brace *)
Fixpoint groups (s : string) : list positive :=
  match s with
  | String "}" rest => xH :: groups rest
  | String "0" rest => match groups rest with p :: ps => xO p :: ps | [] => [] end
  | String "1" rest => match groups rest with p :: ps => xI p :: ps | [] => [] end
  | _ => []
  end.

Lemma groups_bits p t : groups (bits_to_text p +:+ t) = p :: groups t.
Proof. induction p as [p IH|p IH|]; simpl; [by rewrite IH|by rewrite IH|done]. Qed.

Definition class_code (c : DbHolderClass) : positive :=
  match c with ClassDaemon => 1 | ClassMcp => 2 | ClassApi => 3 | ClassCli => 4 | ClassHook => 5 | ClassUnknown => 6 end%positive.
Definition code_class (p : positive) : DbHolderClass :=
  match p with 1 => ClassDaemon | 2 => ClassMcp | 3 => ClassApi | 4 => ClassCli | 5 => ClassHook | _ => ClassUnknown end%positive.

Definition holder_codes (h : DbAdmissionHolder) : list positive :=
  [class_code (h_class h); encode (h_owner h); encode (h_pid h); encode (h_generation h); encode (h_acquired_at h);
   encode (h_connections h); encode (h_cache_bytes h); encode (h_token h); encode (h_process_identity h);
   encode (h_pid_namespace h); encode (h_lease_version h)].

Definition join_codes (l : list positive) : string := foldr (fun p t => bits_to_text p +:+ t) "" l.

Lemma groups_join l : groups (join_codes l) = l.
Proof.
  induction l as [|p l IH]; [done|]. change (groups (bits_to_text p +:+ join_codes l) = p :: l).
  by rewrite groups_bits, IH.
Qed.

Definition holder_text (h : DbAdmissionHolder) : string := join_codes (holder_codes h).

Fixpoint codes_holders (l : list positive) : option (list DbAdmissionHolder) :=
  match l with
  | [] => Some []
  | a :: b :: c :: d :: e :: f :: g :: h :: i :: j :: k :: rest =>
      match decode b, decode c, decode d, decode e, decode f, decode g, decode h, decode i, decode j, decode k,
            codes_holders rest with
      | Some b, Some c, Some d, Some e, Some f, Some g, Some h, Some i, Some j, Some k, Some hs =>
          Some (Holder (code_class a) b c d e f g h i j k :: hs)
      | _, _, _, _, _, _, _, _, _, _, _ => None
      end
  | _ => None
  end.

Lemma codes_holders_codes hs : codes_holders (mjoin (holder_codes <$> hs)) = Some hs.
Proof.
  induction hs as [|h hs IH]; [done|]. change (mjoin (holder_codes <$> h :: hs)) with (holder_codes h ++ mjoin (holder_codes <$> hs)).
  unfold holder_codes at 1. cbn [app codes_holders]. rewrite !decode_encode, IH.
  destruct h as [c ? ? ? ? ? ? ? ? ? ?]. by destruct c.
Qed.

Definition state_codes (st : AdmissionState) : list positive :=
  encode (st_schema_version st) :: encode (st_next_generation st) :: mjoin (holder_codes <$> st_holders st).

Definition codes_state (l : list positive) : option AdmissionState :=
  match l with
  | v :: g :: rest =>
      match decode v, decode g, codes_holders rest with
      | Some v, Some g, Some hs => Some (MkState v g hs)
      | _, _, _ => None
      end
  | _ => None
  end.

Lemma length_join_app l k : String.length (join_codes (l ++ k)) = (String.length (join_codes l) + String.length (join_codes k))%nat.
Proof.
  induction l as [|p l IH]; [done|].
  change (String.length (bits_to_text p +:+ join_codes (l ++ k))
          = (String.length (bits_to_text p +:+ join_codes l) + String.length (join_codes k))%nat).
  rewrite !str_length_app, IH. lia.
Qed.

Lemma length_rows_sublist hs hs' : hs' `sublist_of` hs →
  (String.length (join_codes (mjoin (holder_codes <$> hs'))) ≤ String.length (join_codes (mjoin (holder_codes <$> hs))))%nat.
Proof.
  assert (∀ h hs, mjoin (holder_codes <$> h :: hs) = holder_codes h ++ mjoin (holder_codes <$> hs)) as Hc by done.
  induction 1 as [|h hs' hs _ IH|h hs' hs _ IH]; [done| |]; rewrite !Hc, !length_join_app; lia.
Qed.

Definition hex_digit (n : N) : ascii := ascii_of_N (if (n <? 10)%N then 48 + n else 87 + n)%N.

Fixpoint hex_text (s : string) : string :=
  match s with
  | EmptyString => ""
  | String c rest => let n := N_of_ascii c in
                     String (hex_digit (N.div n 16)) (String (hex_digit (N.modulo n 16)) (hex_text rest))
  end.

(** The digits of the text from its end. *)
Definition tail_codec : AdmissionCodec := {|
  ad_blake3 s := hex_text (String.rev s);
  state_to_json st := join_codes (state_codes st);
  state_of_json s := codes_state (groups s);
|}.

#[local] Existing Instance tail_codec.

#[local] Instance tail_codec_laws : AdmissionCodecLaws tail_codec.
Proof.
  split.
  - intros [v g hs]. change (codes_state (groups (join_codes (state_codes (MkState v g hs)))) = Some (MkState v g hs)).
    rewrite groups_join. unfold state_codes, codes_state. cbn [st_schema_version st_next_generation st_holders].
    by rewrite !decode_encode, codes_holders_codes.
  - intros st. change (is_empty (bits_to_text (encode (st_schema_version st)) +:+
      join_codes (encode (st_next_generation st) :: mjoin (holder_codes <$> st_holders st))) = false).
    by destruct (encode (st_schema_version st)).
  - intros v g hs hs' Hs. pose proof (length_rows_sublist _ _ Hs) as Hl.
    change (Z.of_nat (String.length (join_codes ([encode v; encode g] ++ mjoin (holder_codes <$> hs')))) ≤
            Z.of_nat (String.length (join_codes ([encode v; encode g] ++ mjoin (holder_codes <$> hs))))).
    rewrite !length_join_app. lia.
  - vm_compute. discriminate.
Qed.

(** No call fails; the clock stands; temporary files are numbered. *)
Definition plain_env (pid : Z) (fault_at : nat → option fault) : AdmissionEnv := {|
  ad_fault := fault_at;
  ad_elapsed _ := 1000%nat;
  ad_lock_free _ := true;
  ad_fork_pending _ := false;
  ad_fork_read _ := true;
  ad_clock _ := 1700000000;
  ad_temp_token n := hex_text (String (ascii_of_nat n) "000000000000000");
  ad_dir_order := id;
  ad_os := Os pid 0 None None (fun _ => ReadNotFound) (fun _ => ReadNotFound);
  ad_own_identity := "identity";
|}.

Definition no_fault (n : nat) : option fault := None.

Lemma plain_env_calm pid : calm (plain_env pid no_fault).
Proof. done. Qed.

(** ** The names of the sidecars *)
Lemma drop_bytes_app' s t : drop_bytes (String.length s) (s +:+ t) = t.
Proof. induction s as [|c s IH]; simpl; [by destruct t|exact IH]. Qed.

Lemma strip_own_prefix p s : strip_prefix p (p +:+ s) = Some s.
Proof. unfold strip_prefix. by rewrite prefix_app, drop_bytes_app'. Qed.

Lemma rev_str_app s t : String.rev (s +:+ t) = String.rev t +:+ String.rev s.
Proof.
  assert (∀ s t u, String.rev_app (s +:+ t) u = String.rev_app t (String.rev_app s u)) as H.
  { clear. induction s as [|c s IH]; intros t u; [done|]. simpl. apply IH. }
  assert (∀ s u, String.rev_app s u = String.rev_app s "" +:+ u) as H2.
  { clear. induction s as [|c s IH]; intros u; [done|]. simpl. rewrite (IH (String c u)), (IH (String c "")).
    by rewrite str_app_assoc. }
  unfold String.rev. by rewrite H, H2.
Qed.

Lemma rev_str_rev s : String.rev (String.rev s) = s.
Proof. unfold String.rev. rewrite rev_app_rev_app. simpl. apply str_app_nil_r. Qed.

Lemma strip_own_suffix x s : strip_suffix x (s +:+ x) = Some s.
Proof. unfold strip_suffix. by rewrite rev_str_app, strip_own_prefix, rev_str_rev. Qed.

Lemma strip_prefix_is p s r : strip_prefix p s = Some r → s = p +:+ r.
Proof.
  unfold strip_prefix. destruct (String.prefix p s) eqn:Hp; [|done]. intros [= <-].
  revert s Hp. induction p as [|c p IH]; intros s Hp; [by destruct s|].
  destruct s as [|d s]; [done|]. simpl in Hp. destruct (ascii_dec c d) as [->|]; [|done].
  cbn [String.length drop_bytes]. rewrite str_app_cons. f_equal. by apply IH.
Qed.

Lemma strip_suffix_is x s r : strip_suffix x s = Some r → s = r +:+ x.
Proof.
  unfold strip_suffix. destruct (strip_prefix _ _) as [r'|] eqn:H; [|done]. intros [= <-].
  apply strip_prefix_is in H. apply (f_equal String.rev) in H. by rewrite rev_str_rev, rev_str_app, rev_str_rev in H.
Qed.

Lemma lower_hex_head s n : is_lower_hex s n = true → 0 < n → ∃ c rest, s = String c rest ∧ is_lower_hex_byte c = true.
Proof.
  intros [Hl Hb]%andb_prop Hn. destruct s as [|c rest]; [|exists c, rest; split; [done|]].
  - apply Z.eqb_eq in Hl. unfold str_len in Hl. simpl in Hl. lia.
  - simpl in Hb. by apply andb_prop in Hb as [? _].
Qed.

Section names.
Context {C : AdmissionCodec} (paths : AdmissionPaths).

(** The sweeps recognise the leases and the temporary files that the program
    makes, by their names alone, and mistake neither for the other; the state file
    and the lock file are never swept. *)
Theorem sidecar_names token temp :
  is_lower_hex (String.substring 0 24 (ad_blake3 token)) 24 = true → is_lower_hex temp 32 = true →
  is_current_lease_path paths (holder_lease_path paths token) = true
  ∧ is_current_state_temp_path paths (state_temp_path paths temp) = true
  ∧ is_current_state_temp_path paths (holder_lease_path paths token) = false
  ∧ is_current_lease_path paths (state_temp_path paths temp) = false
  ∧ Forall (fun n => is_current_lease_path paths n = false ∧ is_current_state_temp_path paths n = false)
      [state_name paths; lock_name paths].
Proof.
  intros Hlease Htemp.
  unfold is_current_lease_path, is_current_state_temp_path, holder_lease_path, state_temp_path.
  rewrite !strip_own_prefix, strip_own_suffix. split_and!; [done|done| | |].
  - destruct (lower_hex_head _ _ Hlease) as (c & rest & -> & Hc); [lia|].
    destruct (strip_prefix ".tmp." _) as [r|] eqn:H; [|done]. apply strip_prefix_is in H.
    rewrite !str_app_cons in H. injection H as -> _. done.
  - change (".tmp." +:+ temp) with ("." +:+ ("tmp." +:+ temp)). rewrite strip_own_prefix.
    destruct (strip_suffix ".lease" ("tmp." +:+ temp)) as [id|] eqn:Hid; [|done]. apply strip_suffix_is in Hid.
    destruct (is_lower_hex id 24) eqn:Hx; [|done].
    destruct (lower_hex_head _ _ Hx) as (c & rest & -> & Hc); [lia|]. by injection Hid as <- _.
  - assert (strip_prefix (state_name paths) (state_name paths) = Some "") as Hs.
    { rewrite <- (str_app_nil_r (state_name paths)) at 2. apply strip_own_prefix. }
    assert (strip_prefix (state_name paths) (lock_name paths) = None) as Hl.
    { destruct (strip_prefix (state_name paths) (lock_name paths)) as [r|] eqn:H; [|done]. apply strip_prefix_is in H.
      unfold state_name, lock_name in H. rewrite !str_app_assoc in H.
      apply str_app_inj in H as [_ H]; [|done]. apply str_app_inj in H as [_ H]; [|done].
      rewrite !str_app_cons in H. discriminate H. }
    repeat constructor; by rewrite ?Hs, ?Hl.
Qed.
End names.

Module AdmissionStory.
Definition paths : AdmissionPaths := Paths "/home" "m.db".
Definition config : DbAdmissionConfig := config_new 4 1000.
Definition start : machine := Machine (Sidecars None ∅ ∅ 0 0) [] [].
Definition daemon : DbAdmissionRequest := Request ClassDaemon 1 100.
Definition cli : DbAdmissionRequest := Request ClassCli 1 100.
Definition calm_1 : AdmissionEnv := plain_env 1 no_fault.

(** The second process dies with its lease taken and no row written. *)
Definition dies_at (k : nat) (n : nat) : option fault := if bool_decide (n = k) then Some FaultCrash else None.

Definition one : machine := mstep paths config (EvAcquire 1 calm_1 daemon) start.
Definition two : machine := mstep paths config (EvAcquire 2 (plain_env 2 no_fault) cli) one.
Definition widow : machine := mstep paths config (EvDie 2) two.

Example seats_of_the_living : (length (mc_live two), length (mc_live widow)) = (2, 1)%nat.
Proof. vm_compute. reflexivity. Qed.

Lemma start_vacant : vacant start.
Proof. split_and!; [done..|]. intros n l Hl. cbn in Hl. by rewrite lookup_empty in Hl. Qed.

Lemma config_is_ok : config_ok config.
Proof. vm_compute. repeat split; discriminate. Qed.

(** [distinct_names], by evaluation. *)
Definition distinct_b (m : machine) : bool :=
  bool_decide (Forall (fun x => Forall (fun y => seat_path x ≠ seat_path y) (mc_closing m).*1) (mc_live m))
  && match on_file (sc_state (mc_files m)) with
     | Some st => bool_decide (NoDup (row_path paths <$> st_holders st))
     | None => true
     end.

Lemma distinct_by m : distinct_b m = true → distinct_names paths m.
Proof.
  unfold distinct_b. intros [H1%bool_decide_eq_true H2]%andb_prop. split.
  - intros x y Hx Hy. apply list_elem_of_In in Hx, Hy. rewrite List.Forall_forall in H1.
    specialize (H1 x Hx). rewrite List.Forall_forall in H1. by apply H1.
  - intros st Hst. rewrite Hst in H2. by apply bool_decide_eq_true in H2.
Qed.

Lemma one_reachable : reachable paths config one.
Proof.
  apply reach_step; [apply reach_start, start_vacant|vm_compute; split; discriminate|].
  apply distinct_by. vm_compute. reflexivity.
Qed.

Lemma two_reachable : reachable paths config two.
Proof.
  apply reach_step; [exact one_reachable|vm_compute; split; discriminate|].
  apply distinct_by. vm_compute. reflexivity.
Qed.

Lemma widow_reachable : reachable paths config widow.
Proof. apply reach_step; [exact two_reachable|exact I|]. apply distinct_by. vm_compute. reflexivity. Qed.

Definition fresh (m : machine) : Prop := sc_temps (mc_files m) = ∅.

Lemma fresh_temps_of m env : fresh m → fresh_temps (E := env) paths (files_of (mc_files m)).
Proof. intros H n. change (sc_temps (mc_files m) !! state_temp_path paths (ad_temp_token n) = None). rewrite H. apply lookup_empty. Qed.

(** A process that dies after it locked its lease and before it wrote its row
    leaves the lease and the staged text behind; the next look takes both away. *)
Definition crashed : machine := mstep paths config (EvAcquire 2 (plain_env 2 (dies_at 47)) cli) one.
Definition leases (m : machine) : nat := length (map_to_list (sc_leases (mc_files m))).
Definition temps (m : machine) : nat := length (map_to_list (sc_temps (mc_files m))).

Example orphans_are_swept :
  let looked := mstep paths config (EvSnapshot 1 calm_1) crashed in
  (leases crashed, temps crashed, leases looked, temps looked, length (mc_live looked)) = (2, 1, 1, 0, 1)%nat.
Proof. vm_compute. reflexivity. Qed.

Lemma admission_within_budget_witness :
  Z.of_nat (length (mc_live two)) ≤ 4
  ∧ request_cache (mc_live two) ≤ 1000 ∧ transient_seats (mc_live two) ≤ Z.max 0 2.
Proof. exact (admission_within_budget paths config config_is_ok two two_reachable). Defined.

Lemma live_seat_kept_witness :
  ∃ x, x ∈ mc_live widow
    ∧ sc_leases (mc_files widow) !! seat_path x = Some (Lease (Some (seat_process x)) true).
Proof.
  destruct (mc_live widow) as [|x live] eqn:Hl; [vm_compute in Hl; discriminate|]. exists x.
  assert (x ∈ mc_live widow) as Hx by (rewrite Hl; by left). split; [by left|].
  exact (proj1 (live_seat_kept paths config config_is_ok widow x widow_reachable Hx)).
Defined.

Lemma snapshot_exact_witness :
  ∃ s' snap, snapshot_with_config (E := calm_1) paths config (mc_files widow) = (s', Done (Ok snap))
    ∧ row_path paths <$> sn_holders snap ≡ₚ seat_path <$> mc_live widow
    ∧ sn_active_cache_bytes snap = request_cache (mc_live widow).
Proof.
  apply (snapshot_exact paths config config_is_ok calm_1 widow widow_reachable);
    [apply distinct_by; vm_compute; reflexivity|vm_compute; reflexivity|apply plain_env_calm|].
  apply fresh_temps_of. vm_compute. reflexivity.
Defined.

(** A third process that is no service meets the reserved seats. *)
Definition third : sidecars * outcome ProfileDbAdmission :=
  acquire_with_config (E := plain_env 3 no_fault) paths 3 cli config (mc_files two).
Definition refused : budget_report :=
  {| br_active_holders := 2; br_active_cache_bytes := 200; br_reaped_stale_holders := 0; br_service_holders := 1;
     br_reason := ReservedServiceSlots |}.

Lemma refusal_counts_live_seats_witness :
  br_active_holders refused = Z.of_nat (length (mc_live two))
  ∧ br_active_cache_bytes refused = request_cache (mc_live two)
  ∧ budget_exceeded_reason (Z.of_nat (length (mc_live two))) cli config (request_cache (mc_live two))
    = Some (br_reason refused).
Proof.
  apply (refusal_counts_live_seats paths config config_is_ok (plain_env 3 no_fault) two 3 cli third.1 refused two_reachable);
    [apply distinct_by; vm_compute; reflexivity|vm_compute; reflexivity|apply plain_env_calm| |].
  - apply fresh_temps_of. vm_compute. reflexivity.
  - vm_compute. reflexivity.
Defined.

Lemma lock_state_returns_witness :
  (lock_state (E := calm_1) paths (mc_files two)).2 ≠ Exhausted.
Proof. exact (proj1 (lock_state_returns (E := calm_1) paths (mc_files two))). Defined.

Lemma sidecar_names_witness :
  is_current_lease_path paths (holder_lease_path paths "0123456789ab") = true
  ∧ is_current_state_temp_path paths (holder_lease_path paths "0123456789ab") = false.
Proof.
  destruct (sidecar_names (C := tail_codec) paths "0123456789ab" "0123456789abcdef0123456789abcdef"
    ltac:(vm_compute; reflexivity) ltac:(vm_compute; reflexivity))
    as (H1 & _ & H2 & _). by split.
Defined.
End AdmissionStory.
