(* ===== verification/KnowledgeCards.v ===== *)
(** * Knowledge cards

    The cards, their evidence links and their append-only events
    ([src/src/core/db.rs]), the gate and the lifecycle of a card
    ([src/src/knowledge_card_lifecycle.rs]) and the cards made from knowledge
    drawers ([src/src/knowledge_card_backfill.rs]), over the tables beside the
    drawers. A statement fails as SQLite fails it (a key in use, a CHECK, a
    foreign key) and then changes nothing; what earlier statements did stays,
    unless a transaction takes it back. *)

From Stdlib Require Import ZArith QArith Lia String Ascii.
From stdpp Require Import base tactics list gmap strings numbers sets.
From S2P Require Import Prelude Order Text ProcessIdentity WriterLease Drawer DrawerStore Knowledge.
Close Scope Q_scope.
Open Scope Z_scope.
Open Scope string_scope.
Open Scope rust_scope.

(** ** Data *)
Inductive KnowledgeEvidenceRole := RoleSupporting | RoleVerification | RoleCounterexample | RoleTeaching.

Inductive KnowledgeEventType :=
  | EventCreated | EventPromoted | EventDemoted | EventRetired | EventLinked | EventUnlinked | EventUpdated
  | EventPublishedAnchor.

#[export] Instance role_eq_dec : EqDecision KnowledgeEvidenceRole.
Proof. solve_decision. Defined.
#[export] Instance event_type_eq_dec : EqDecision KnowledgeEventType.
Proof. solve_decision. Defined.

Definition evidence_role_slug (r : KnowledgeEvidenceRole) : string :=
  match r with
  | RoleSupporting => "supporting" | RoleVerification => "verification"
  | RoleCounterexample => "counterexample" | RoleTeaching => "teaching"
  end.

Definition event_type_slug (t : KnowledgeEventType) : string :=
  match t with
  | EventCreated => "created" | EventPromoted => "promoted" | EventDemoted => "demoted" | EventRetired => "retired"
  | EventLinked => "linked" | EventUnlinked => "unlinked" | EventUpdated => "updated"
  | EventPublishedAnchor => "published_anchor"
  end.

Record KnowledgeCard := MkCard {
  k_id : string;
  k_statement : string;
  k_content : string;
  k_tier : KnowledgeTier;
  k_status : KnowledgeStatus;
  k_domain : MemoryDomain;
  k_field : string;
  k_anchor_kind : AnchorKind;
  k_anchor_id : string;
  k_parent_anchor_id : option string;
  k_scope_constraints : option string;
  k_trigger_hints : option TriggerHints;
  k_auto_generated : bool;
  k_crystallization_score : option Q;
  k_source_drawer_ids : list string;
  k_created_at : string;
  k_updated_at : string;
}.

Record KnowledgeEvidenceLink := MkLink {
  l_id : string;
  l_card_id : string;
  l_drawer_id : string;
  l_role : KnowledgeEvidenceRole;
  l_note : option string;
  l_created_at : string;
}.

(** The JSON objects that the program stores with an event. *)
Inductive CardMetadata :=
  | PromotedWith (verification_refs : list string) (gate_enforced : bool)
  | DemotedWith (evidence_refs : list string) (reason_type : string)
  | BackfilledFrom (source_drawer_id : string) (source_file : option string)
  | OtherMetadata (json : string).

Record KnowledgeCardEvent := MkEvent {
  e_id : string;
  e_card_id : string;
  e_type : KnowledgeEventType;
  e_from : option KnowledgeStatus;
  e_to : option KnowledgeStatus;
  e_reason : string;
  e_actor : option string;
  e_metadata : option CardMetadata;
  e_created_at : string;
}.

Record CardDb := MkCardDb {
  c_db : Db;
  c_cards : gmap string KnowledgeCard;
  c_links : list KnowledgeEvidenceLink;
  c_events : list KnowledgeCardEvent;
}.

Definition with_status (card : KnowledgeCard) (status : KnowledgeStatus) (updated_at : string) : KnowledgeCard :=
  MkCard (k_id card) (k_statement card) (k_content card) (k_tier card) status (k_domain card) (k_field card)
    (k_anchor_kind card) (k_anchor_id card) (k_parent_anchor_id card) (k_scope_constraints card)
    (k_trigger_hints card) (k_auto_generated card) (k_crystallization_score card) (k_source_drawer_ids card)
    (k_created_at card) updated_at.

Inductive CardError :=
  | CardKnowledge (e : KnowledgeError)
  | CardNotFound (card_id : string)
  | CardStore (context : string) (e : StoreError)
  | CardLease (e : DbError).

(** ** Statements *)

(** The CHECK constraints of [knowledge_cards]. *)
Definition card_checks (card : KnowledgeCard) : bool :=
  bool_decide (k_status card ∈ [PendingReview; Candidate; Promoted; Canonical; Demoted; Retired])
  && negb (bool_decide (k_domain card = DomainUser)).

Definition stmt (A : Type) : Type := CardDb → CardDb * result A StoreError.

Section cards.
Context `{StoreEnv}.

Definition anchor_domain_ok (card : KnowledgeCard) : result unit StoreError :=
  match validate_anchor_domain (k_domain card) (k_anchor_kind card) with
  | Ok _ => Ok tt
  | Err message => Err (InvalidDrawerMetadata message)
  end.

Definition insert_knowledge_card (card : KnowledgeCard) : stmt unit := fun c =>
  match anchor_domain_ok card with
  | Err e => (c, Err e)
  | Ok _ =>
      if bool_decide (is_Some (c_cards c !! k_id card)) || negb (card_checks card) then (c, Err ConstraintViolation)
      else (MkCardDb (c_db c) (<[k_id card := card]> (c_cards c)) (c_links c) (c_events c), Ok tt)
  end.

Definition get_knowledge_card (c : CardDb) (card_id : string) : option KnowledgeCard := c_cards c !! card_id.

(** [created_at] is not among the columns that are set. *)
Definition update_knowledge_card (card : KnowledgeCard) : stmt bool := fun c =>
  match anchor_domain_ok card with
  | Err e => (c, Err e)
  | Ok _ =>
      match c_cards c !! k_id card with
      | None => (c, Ok false)
      | Some old =>
          if negb (card_checks card) then (c, Err ConstraintViolation)
          else
            let new := MkCard (k_id card) (k_statement card) (k_content card) (k_tier card) (k_status card)
                         (k_domain card) (k_field card) (k_anchor_kind card) (k_anchor_id card)
                         (k_parent_anchor_id card) (k_scope_constraints card) (k_trigger_hints card)
                         (k_auto_generated card) (k_crystallization_score card) (k_source_drawer_ids card)
                         (k_created_at old) (k_updated_at card) in
            (MkCardDb (c_db c) (<[k_id card := new]> (c_cards c)) (c_links c) (c_events c), Ok true)
      end
  end.

Definition same_link (a b : KnowledgeEvidenceLink) : bool :=
  bool_decide (l_id a = l_id b)
  || (bool_decide (l_card_id a = l_card_id b) && bool_decide (l_drawer_id a = l_drawer_id b)
      && bool_decide (l_role a = l_role b)).

(** The new row refers to the drawer, which can then not be deleted. *)
Definition insert_knowledge_evidence_link (link : KnowledgeEvidenceLink) : stmt unit := fun c =>
  match get_drawer (c_db c) (l_drawer_id link) with
  | Err e => (c, Err e)
  | Ok None => (c, Err (InvalidDrawerMetadata ("evidence drawer " +:+ l_drawer_id link +:+ " does not exist")))
  | Ok (Some evidence) =>
      if negb (bool_decide (d_memory_kind evidence = Evidence))
      then (c, Err (InvalidDrawerMetadata ("evidence link target " +:+ l_drawer_id link +:+ " must be an evidence drawer")))
      else if existsb (same_link link) (c_links c) || negb (bool_decide (is_Some (c_cards c !! l_card_id link)))
      then (c, Err ConstraintViolation)
      else
        let db := MkDb (db_drawers (c_db c)) (db_triples (c_db c)) ({[l_drawer_id link]} ∪ db_links (c_db c))
                    (db_consolidations (c_db c)) (db_audit (c_db c)) in
        (MkCardDb db (c_cards c) (c_links c ++ [link])%list (c_events c), Ok tt)
  end.

Definition link_order (a b : KnowledgeEvidenceLink) : bool :=
  not_gt (then_with (String.compare (l_created_at a) (l_created_at b)) (String.compare (l_id a) (l_id b))).

Definition knowledge_evidence_links (c : CardDb) (card_id : string) : list KnowledgeEvidenceLink :=
  sort_by link_order (List.filter (fun l => l_card_id l =? card_id) (c_links c)).

Definition append_knowledge_event (event : KnowledgeCardEvent) : stmt unit := fun c =>
  if existsb (fun e => e_id e =? e_id event) (c_events c) || negb (bool_decide (is_Some (c_cards c !! e_card_id event)))
  then (c, Err ConstraintViolation)
  else (MkCardDb (c_db c) (c_cards c) (c_links c) (c_events c ++ [event])%list, Ok tt).

Definition knowledge_events (c : CardDb) (card_id : string) : list KnowledgeCardEvent :=
  sort_by (fun a b => not_gt (then_with (String.compare (e_created_at a) (e_created_at b)) (String.compare (e_id a) (e_id b))))
    (List.filter (fun e => e_card_id e =? card_id) (c_events c)).

(** ** The policy of a card *)
Definition card_gate_requirements (tier : KnowledgeTier) (target : KnowledgeStatus) : GateRequirements :=
  match tier, target with
  | DaoTian, Canonical => MkRequirements 3 2 1 true true
  | DaoRen, Promoted => MkRequirements 2 1 0 false true
  | Shu, Promoted | Qi, Promoted => MkRequirements 1 1 0 false true
  | _, _ => MkRequirements 0 0 0 false true
  end.

Definition card_default_target_status (tier : KnowledgeTier) : KnowledgeStatus :=
  match tier with DaoTian => Canonical | DaoRen | Shu | Qi => Promoted end.

Definition card_allowed (tier : KnowledgeTier) : list KnowledgeStatus :=
  match tier with
  | DaoTian => [Canonical; Demoted]
  | DaoRen => [PendingReview; Candidate; Promoted; Demoted; Retired]
  | Shu => [PendingReview; Promoted; Demoted; Retired]
  | Qi => [PendingReview; Candidate; Promoted; Demoted; Retired]
  end.

Definition card_validate_tier_status (tier : KnowledgeTier) (status : KnowledgeStatus) : result unit KnowledgeError :=
  if bool_decide (status ∈ card_allowed tier) then Ok tt
  else Err (TierStatus (match tier with
                        | DaoTian => "dao_tian only allows canonical or demoted"
                        | DaoRen => "dao_ren only allows candidate, promoted, demoted, or retired"
                        | Shu => "shu only allows promoted, demoted, or retired"
                        | Qi => "qi only allows candidate, promoted, demoted, or retired"
                        end)).

Definition card_parse_status (value : string) : result KnowledgeStatus KnowledgeError :=
  let v := trim value in
  if v =? "pending_review" then Ok PendingReview
  else if v =? "candidate" then Ok Candidate
  else if v =? "promoted" then Ok Promoted
  else if v =? "canonical" then Ok Canonical
  else if v =? "demoted" then Ok Demoted
  else if v =? "retired" then Ok Retired
  else Err (UnsupportedStatus v).

Definition card_validate_demote_reason_type (value : string) : result unit KnowledgeError :=
  let v := trim value in
  if existsb (String.eqb v) ["contradicted"; "obsolete"; "superseded"; "out_of_scope"; "unsafe"] then Ok tt
  else Err (UnsupportedReasonType v).

(** [validate_evidence_refs]. *)
Definition validate_evidence_refs (c : CardDb) (refs : list string) : result unit KnowledgeError :=
  match refs with [] => Err (RefsRequired "evidence") | _ => validate_refs (c_db c) "evidence refs" refs end.

(** ** The gate *)
Definition with_role (role : KnowledgeEvidenceRole) (links : list KnowledgeEvidenceLink) : list KnowledgeEvidenceLink :=
  List.filter (fun l => bool_decide (l_role l = role)) links.

Definition counts_from_links (links : list KnowledgeEvidenceLink) : GateEvidenceCounts :=
  MkCounts (Z.of_nat (length (with_role RoleSupporting links))) (Z.of_nat (length (with_role RoleCounterexample links)))
    (Z.of_nat (length (with_role RoleTeaching links))) (Z.of_nat (length (with_role RoleVerification links))).

Definition projected_counts (counts : GateEvidenceCounts) (new_refs : list string) (role : KnowledgeEvidenceRole)
    : GateEvidenceCounts :=
  let n := Z.of_nat (length new_refs) in
  match role with
  | RoleSupporting => MkCounts (n_supporting counts + n) (n_counterexample counts) (n_teaching counts) (n_verification counts)
  | RoleVerification => MkCounts (n_supporting counts) (n_counterexample counts) (n_teaching counts) (n_verification counts + n)
  | RoleCounterexample => MkCounts (n_supporting counts) (n_counterexample counts + n) (n_teaching counts) (n_verification counts)
  | RoleTeaching => MkCounts (n_supporting counts) (n_counterexample counts) (n_teaching counts + n) (n_verification counts)
  end.

Definition missing_refs_for_role (links : list KnowledgeEvidenceLink) (refs : list string) (role : KnowledgeEvidenceRole)
    : list string :=
  List.filter (fun id => negb (existsb (fun l => bool_decide (l_role l = role) && (l_drawer_id l =? id)) links)) refs.

Definition refs_for_role (links : list KnowledgeEvidenceLink) (role : KnowledgeEvidenceRole) : list string :=
  map l_drawer_id (with_role role links).

Definition evaluate_card_gate (card : KnowledgeCard) (target : KnowledgeStatus) (reviewer : option string)
    (allow_counterexamples : bool) (counts : GateEvidenceCounts) : result GateReport KnowledgeError :=
  let? _ := card_validate_tier_status (k_tier card) target in
  let requirements := card_gate_requirements (k_tier card) target in
  let reasons := gate_reasons requirements counts reviewer allow_counterexamples in
  Ok (MkReport (k_id card) (knowledge_tier_as_str (k_tier card)) (knowledge_status_as_str (k_status card))
        (knowledge_status_as_str target) (match reasons with [] => true | _ => false end) reasons requirements counts).

Definition load_card (c : CardDb) (card_id : string) : result KnowledgeCard CardError :=
  match get_knowledge_card c card_id with Some card => Ok card | None => Err (CardNotFound card_id) end.

Definition lift_card {A} (r : result A KnowledgeError) : result A CardError :=
  match r with Ok a => Ok a | Err e => Err (CardKnowledge e) end.

Definition evaluate_card_gate_by_id (c : CardDb) (card_id : string) (target_status reviewer : option string)
    (allow_counterexamples : bool) : result GateReport CardError :=
  let? card := load_card c card_id in
  let? target := lift_card (match target_status with
                            | Some value => card_parse_status value
                            | None => Ok (card_default_target_status (k_tier card))
                            end) in
  let? _ := lift_card (card_validate_tier_status (k_tier card) target) in
  lift_card (evaluate_card_gate card target reviewer allow_counterexamples
               (counts_from_links (knowledge_evidence_links c card_id))).

(** ** The lifecycle *)
Definition deterministic_link_id (card_id drawer_id : string) (role : KnowledgeEvidenceRole) : string :=
  "link_" +:+ String.substring 0 16
    (sha256_hex ("knowledge-card-lifecycle-link-v1" +:+ nul +:+ card_id +:+ nul +:+ drawer_id +:+ nul
                 +:+ evidence_role_slug role)).

Definition deterministic_event_id (card_id : string) (type : KnowledgeEventType) (reason : string) : string :=
  "event_" +:+ String.substring 0 16
    (sha256_hex ("knowledge-card-lifecycle-event-v1" +:+ nul +:+ card_id +:+ nul +:+ event_type_slug type +:+ nul
                 +:+ reason)).

Record CardLifecycleMutation := MkMutation {
  m_old_status : KnowledgeStatus;
  m_target_status : KnowledgeStatus;
  m_event_type : KnowledgeEventType;
  m_reason : string;
  m_actor : option string;
  m_new_refs : list string;
  m_link_role : KnowledgeEvidenceRole;
  m_metadata : CardMetadata;
}.

(** [clock n] is the n-th [current_timestamp] of an operation. *)
Fixpoint insert_links (clock : nat → string) (n : nat) (card_id reason : string) (role : KnowledgeEvidenceRole)
    (refs : list string) (c : CardDb) : CardDb * result nat CardError :=
  match refs with
  | [] => (c, Ok n)
  | id :: rest =>
      match insert_knowledge_evidence_link
              (MkLink (deterministic_link_id card_id id role) card_id id role
                 (Some ("linked during card lifecycle: " +:+ reason)) (clock n)) c with
      | (c, Ok _) => insert_links clock (S n) card_id reason role rest c
      | (c, Err e) => (c, Err (CardStore "failed to insert knowledge card evidence link" e))
      end
  end.

Definition lifecycle_event (clock : nat → string) (n : nat) (card : KnowledgeCard) (m : CardLifecycleMutation)
    : KnowledgeCardEvent :=
  MkEvent (deterministic_event_id (k_id card) (m_event_type m) (m_reason m)) (k_id card) (m_event_type m)
    (Some (m_old_status m)) (Some (m_target_status m)) (m_reason m) (m_actor m) (Some (m_metadata m)) (clock n).

(** The statements of [apply_card_lifecycle]. *)
Definition lifecycle_writes (clock : nat → string) (card : KnowledgeCard) (m : CardLifecycleMutation) (c : CardDb)
    : CardDb * result unit CardError :=
  match insert_links clock 1 (k_id card) (m_reason m) (m_link_role m) (m_new_refs m) c with
  | (c, Err e) => (c, Err e)
  | (c, Ok n) =>
      match update_knowledge_card card c with
      | (c, Err e) => (c, Err (CardStore "failed to update knowledge card" e))
      | (c, Ok _) =>
          match append_knowledge_event (lifecycle_event clock n card m) c with
          | (c, Err e) => (c, Err (CardStore "failed to append knowledge card event" e))
          | (c, Ok _) => (c, Ok tt)
          end
      end
  end.
End cards.

(** ** Writing, with or without the runtime writer lease *)

(** The connection of a fenced write. *)
Record card_conn := CardConn {
  cd_begun : result unit DbError;
  cd_committed : result unit DbError;
  cd_sys : os;
  cd_own : string;
  cd_cleanup_ms : Z;
  cd_now_ms : Z;
}.

Record PromoteCardRequest := MkPromoteCard {
  pc_card_id : string;
  pc_status : string;
  pc_verification_refs : list string;
  pc_reason : string;
  pc_reviewer : option string;
  pc_allow_counterexamples : bool;
  pc_enforce_gate : bool;
}.

Record DemoteCardRequest := MkDemoteCard {
  dc_card_id : string;
  dc_status : string;
  dc_evidence_refs : list string;
  dc_reason : string;
  dc_reason_type : string;
}.

Record PromoteCardOutcome := MkPromotedCard {
  pco_card_id : string;
  pco_old_status : string;
  pco_new_status : string;
  pco_verification_refs : list string;
  pco_gate : option GateReport;
}.

Record DemoteCardOutcome := MkDemotedCard {
  dco_card_id : string;
  dco_old_status : string;
  dco_new_status : string;
  dco_counterexample_refs : list string;
}.

Section lifecycle.
Context `{StoreEnv} `{JsonText} (blake3_hex : string → string).

Definition apply_card_lifecycle (conn : card_conn) (lease : option RuntimeWriterLease) (operation : string)
    (clock : nat → string) (card : KnowledgeCard) (m : CardLifecycleMutation) (st : lease_db * CardDb)
    : (lease_db * CardDb) * result unit CardError :=
  with_runtime_writer_lease_write blake3_hex CardLease true (cd_begun conn) (cd_committed conn) (cd_sys conn)
    (cd_own conn) lease operation (cd_cleanup_ms conn) (cd_now_ms conn)
    (fun st => let '(c, r) := lifecycle_writes clock card m st.2 in ((st.1, c), r)) st.

(** The card, the new references and the gate, or why the promotion is refused. *)
Definition promote_card_plan (c : CardDb) (request : PromoteCardRequest)
    : result (KnowledgeCard * KnowledgeStatus * list string * option GateReport) CardError :=
  let? target := lift_card (card_parse_status (pc_status request)) in
  if negb (bool_decide (target ∈ [Promoted; Canonical])) then Err (CardKnowledge PromoteTarget)
  else
    let? _ := lift_card (validate_evidence_refs c (pc_verification_refs request)) in
    let? card := load_card c (pc_card_id request) in
    let? _ := lift_card (card_validate_tier_status (k_tier card) target) in
    let links := knowledge_evidence_links c (pc_card_id request) in
    let new_refs := missing_refs_for_role links (pc_verification_refs request) RoleVerification in
    let projected := projected_counts (counts_from_links links) new_refs RoleVerification in
    let? gate :=
      (if pc_enforce_gate request then
         let? gate := lift_card (evaluate_card_gate card target (pc_reviewer request)
                                   (pc_allow_counterexamples request) projected) in
         if g_allowed gate then Ok (Some gate) else Err (CardKnowledge (GateFailed (g_reasons gate)))
       else Ok None) in
    Ok (card, target, new_refs, gate).

Definition promote_mutation (request : PromoteCardRequest) (old target : KnowledgeStatus) (new_refs : list string)
    : CardLifecycleMutation :=
  MkMutation old target EventPromoted (pc_reason request) (pc_reviewer request) new_refs RoleVerification
    (PromotedWith (pc_verification_refs request) (pc_enforce_gate request)).

Definition promote_card_with_runtime_writer_lease (conn : card_conn) (lease : option RuntimeWriterLease)
    (operation : string) (clock : nat → string) (request : PromoteCardRequest) (st : lease_db * CardDb)
    : (lease_db * CardDb) * result PromoteCardOutcome CardError :=
  match promote_card_plan st.2 request with
  | Err e => (st, Err e)
  | Ok (card, target, new_refs, gate) =>
      match apply_card_lifecycle conn lease operation clock (with_status card target (clock O))
              (promote_mutation request (k_status card) target new_refs) st with
      | (st, Err e) => (st, Err e)
      | (st, Ok _) =>
          (st, Ok (MkPromotedCard (pc_card_id request) (knowledge_status_as_str (k_status card))
                     (knowledge_status_as_str target)
                     (refs_for_role (knowledge_evidence_links st.2 (k_id card)) RoleVerification) gate))
      end
  end.

Definition promote_card (conn : card_conn) (clock : nat → string) (request : PromoteCardRequest)
    (st : lease_db * CardDb) : (lease_db * CardDb) * result PromoteCardOutcome CardError :=
  promote_card_with_runtime_writer_lease conn None "apply knowledge card promotion" clock request st.

Definition demote_card_plan (c : CardDb) (request : DemoteCardRequest)
    : result (KnowledgeCard * KnowledgeStatus * list string) CardError :=
  let? target := lift_card (card_parse_status (dc_status request)) in
  if negb (bool_decide (target ∈ [Demoted; Retired])) then Err (CardKnowledge DemoteTarget)
  else
    let? _ := lift_card (card_validate_demote_reason_type (dc_reason_type request)) in
    let? _ := lift_card (validate_evidence_refs c (dc_evidence_refs request)) in
    let? card := load_card c (dc_card_id request) in
    let? _ := lift_card (card_validate_tier_status (k_tier card) target) in
    Ok (card, target,
        missing_refs_for_role (knowledge_evidence_links c (dc_card_id request)) (dc_evidence_refs request)
          RoleCounterexample).

Definition demote_mutation (request : DemoteCardRequest) (old target : KnowledgeStatus) (new_refs : list string)
    : CardLifecycleMutation :=
  MkMutation old target (if bool_decide (target = Retired) then EventRetired else EventDemoted) (dc_reason request)
    None new_refs RoleCounterexample (DemotedWith (dc_evidence_refs request) (dc_reason_type request)).

Definition demote_card_with_runtime_writer_lease (conn : card_conn) (lease : option RuntimeWriterLease)
    (operation : string) (clock : nat → string) (request : DemoteCardRequest) (st : lease_db * CardDb)
    : (lease_db * CardDb) * result DemoteCardOutcome CardError :=
  match demote_card_plan st.2 request with
  | Err e => (st, Err e)
  | Ok (card, target, new_refs) =>
      match apply_card_lifecycle conn lease operation clock (with_status card target (clock O))
              (demote_mutation request (k_status card) target new_refs) st with
      | (st, Err e) => (st, Err e)
      | (st, Ok _) =>
          (st, Ok (MkDemotedCard (dc_card_id request) (knowledge_status_as_str (k_status card))
                     (knowledge_status_as_str target)
                     (refs_for_role (knowledge_evidence_links st.2 (k_id card)) RoleCounterexample)))
      end
  end.

Definition demote_card (conn : card_conn) (clock : nat → string) (request : DemoteCardRequest)
    (st : lease_db * CardDb) : (lease_db * CardDb) * result DemoteCardOutcome CardError :=
  demote_card_with_runtime_writer_lease conn None "apply knowledge card demotion" clock request st.
End lifecycle.

(** ** Cards from knowledge drawers *)
Record KnowledgeCardFilter := MkFilter {
  kf_tier : option KnowledgeTier;
  kf_status : option KnowledgeStatus;
  kf_domain : option MemoryDomain;
  kf_field : option string;
  kf_anchor_kind : option AnchorKind;
  kf_anchor_id : option string;
  kf_auto_generated : option bool;
  kf_pending_review : option bool;
}.

(** [(?n IS NULL OR column = ?n)]. *)
Definition sql_matches (param column : option string) : bool :=
  match param with None => true | Some _ => bool_decide (column = param) end.

Inductive KnowledgeCardBackfillStatus := BackfillReady | BackfillSkipped | BackfillAlreadyExists.

#[export] Instance backfill_status_eq_dec : EqDecision KnowledgeCardBackfillStatus.
Proof. solve_decision. Defined.

Record KnowledgeCardBackfillCandidate := MkCandidate {
  bc_source_drawer_id : string;
  bc_card_id : string;
  bc_status : KnowledgeCardBackfillStatus;
  bc_reasons : list string;
  bc_statement : option string;
  bc_tier : option string;
  bc_knowledge_status : option string;
  bc_domain : string;
  bc_field : string;
  bc_anchor_kind : string;
  bc_anchor_id : string;
}.

Record KnowledgeCardBackfillReport := MkBackfillReport {
  br_ready : Z;
  br_skipped : Z;
  br_exists : Z;
  br_candidates : list KnowledgeCardBackfillCandidate;
}.

Record KnowledgeCardBackfillLinkError := MkLinkError {
  le_card_id : string;
  le_drawer_id : string;
  le_role : string;
  le_error : StoreError;
}.

Record KnowledgeCardBackfillApplyResult := MkBackfillResult {
  ba_dry_run : bool;
  ba_report : KnowledgeCardBackfillReport;
  ba_created : Z;
  ba_linked : Z;
  ba_events : Z;
  ba_link_errors : list KnowledgeCardBackfillLinkError;
}.

(** ** Listing cards *)
Definition card_matches (filter : KnowledgeCardFilter) (card : KnowledgeCard) : bool :=
  sql_matches (knowledge_tier_as_str <$> kf_tier filter) (Some (knowledge_tier_as_str (k_tier card)))
  && sql_matches (knowledge_status_as_str <$> kf_status filter) (Some (knowledge_status_as_str (k_status card)))
  && sql_matches (memory_domain_as_str <$> kf_domain filter) (Some (memory_domain_as_str (k_domain card)))
  && sql_matches (kf_field filter) (Some (k_field card))
  && sql_matches (anchor_kind_as_str <$> kf_anchor_kind filter) (Some (anchor_kind_as_str (k_anchor_kind card)))
  && sql_matches (kf_anchor_id filter) (Some (k_anchor_id card))
  && match kf_auto_generated filter with None => true | Some b => Bool.eqb (k_auto_generated card) b end
  && match kf_pending_review filter with None => true | Some b => Bool.eqb (bool_decide (k_status card = PendingReview)) b end.

Definition card_order (a b : KnowledgeCard) : bool :=
  not_gt (then_with (String.compare (knowledge_tier_as_str (k_tier a)) (knowledge_tier_as_str (k_tier b)))
            (then_with (String.compare (knowledge_status_as_str (k_status a)) (knowledge_status_as_str (k_status b)))
               (String.compare (k_id a) (k_id b)))).

Definition list_knowledge_cards (filter : KnowledgeCardFilter) (c : CardDb) : list KnowledgeCard :=
  sort_by card_order (List.filter (card_matches filter) (map_to_list (c_cards c)).*2).

Definition pending_auto_generated_knowledge_card_count (c : CardDb) : Z :=
  Z.of_nat (length (List.filter (fun k => k_auto_generated k && bool_decide (k_status k = PendingReview))
                      (map_to_list (c_cards c)).*2)).

Section backfill.
Context `{StoreEnv}.

Definition backfill_row (filter : KnowledgeCardFilter) (row : Row) : bool :=
  is_active row && (r_memory_kind row =? "knowledge")
  && sql_matches (knowledge_tier_as_str <$> kf_tier filter) (r_tier row)
  && sql_matches (knowledge_status_as_str <$> kf_status filter) (r_status row)
  && sql_matches (memory_domain_as_str <$> kf_domain filter) (Some (r_domain row))
  && sql_matches (kf_field filter) (Some (r_field row))
  && sql_matches (anchor_kind_as_str <$> kf_anchor_kind filter) (Some (r_anchor_kind row))
  && sql_matches (kf_anchor_id filter) (Some (r_anchor_id row)).

Definition list_knowledge_drawers_for_card_backfill (filter : KnowledgeCardFilter) (c : CardDb)
    : result (list Drawer) StoreError :=
  decode_rows (sort_by (fun a b => not_gt (String.compare a.1 b.1))
                 (List.filter (fun e => backfill_row filter e.2) (map_to_list (db_drawers (c_db c))))).

Definition prospective_card_id (source_drawer_id : string) : string :=
  "card_" +:+ String.substring 0 16 (sha256_hex ("knowledge-card-backfill-v1" +:+ nul +:+ source_drawer_id)).

Definition prospective_link_id (card_id drawer_id : string) (role : KnowledgeEvidenceRole) : string :=
  "link_" +:+ String.substring 0 16
    (sha256_hex ("knowledge-card-backfill-link-v1" +:+ nul +:+ card_id +:+ nul +:+ drawer_id +:+ nul
                 +:+ evidence_role_slug role)).

Definition prospective_created_event_id (card_id : string) : string :=
  "event_" +:+ String.substring 0 16 (sha256_hex ("knowledge-card-backfill-created-event-v1" +:+ nul +:+ card_id)).

Definition blank (o : option string) : bool := match o with Some s => is_empty (trim s) | None => true end.

Definition skip_reasons (d : Drawer) : list string :=
  ((if blank (d_statement d) then ["missing statement"] else [])
   ++ (match d_tier d with None => ["missing tier"] | Some _ => [] end)
   ++ (match d_status d with None => ["missing status"] | Some _ => [] end)
   ++ (if is_empty (trim (d_field d)) then ["missing field"] else [])
   ++ (if is_empty (trim (d_anchor_id d)) then ["missing anchor_id"] else []))%list.

Definition backfill_status (c : CardDb) (d : Drawer) : KnowledgeCardBackfillStatus :=
  match skip_reasons d with
  | [] => if bool_decide (is_Some (get_knowledge_card c (prospective_card_id (d_id d)))) then BackfillAlreadyExists
          else BackfillReady
  | _ => BackfillSkipped
  end.

Definition classify_drawer (c : CardDb) (d : Drawer) : KnowledgeCardBackfillCandidate :=
  MkCandidate (d_id d) (prospective_card_id (d_id d)) (backfill_status c d) (skip_reasons d) (d_statement d)
    (knowledge_tier_as_str <$> d_tier d) (knowledge_status_as_str <$> d_status d) (memory_domain_as_str (d_domain d))
    (d_field d) (anchor_kind_as_str (d_anchor_kind d)) (d_anchor_id d).

Definition count_candidate (k : KnowledgeCardBackfillCandidate) (r : KnowledgeCardBackfillReport)
    : KnowledgeCardBackfillReport :=
  let one (s : KnowledgeCardBackfillStatus) : Z := if bool_decide (bc_status k = s) then 1 else 0 in
  MkBackfillReport (br_ready r + one BackfillReady) (br_skipped r + one BackfillSkipped)
    (br_exists r + one BackfillAlreadyExists) (br_candidates r ++ [k])%list.

Definition no_candidates : KnowledgeCardBackfillReport := MkBackfillReport 0 0 0 [].

Definition build_backfill_report (filter : KnowledgeCardFilter) (c : CardDb)
    : result KnowledgeCardBackfillReport StoreError :=
  let? drawers := list_knowledge_drawers_for_card_backfill filter c in
  Ok (foldl (fun r d => count_candidate (classify_drawer c d) r) no_candidates drawers).

Definition card_of_drawer (d : Drawer) (card_id now : string) (tier : KnowledgeTier) (status : KnowledgeStatus)
    : KnowledgeCard :=
  MkCard card_id (default "" (d_statement d)) (d_content d) tier status (d_domain d) (d_field d) (d_anchor_kind d)
    (d_anchor_id d) (d_parent_anchor_id d) (d_scope_constraints d) (d_trigger_hints d) false None [] now now.

Definition created_event (d : Drawer) (card_id now : string) : KnowledgeCardEvent :=
  MkEvent (prospective_created_event_id card_id) card_id EventCreated None (d_status d)
    ("backfilled from Stage-1 knowledge drawer " +:+ d_id d) (Some "mempal")
    (Some (BackfilledFrom (d_id d) (d_source_file d))) now.

(** Both rows or neither. The tier and the status are expected to be there: a
    drawer without them is skipped before. *)
Definition create_card_and_event (d : Drawer) (card_id now : string) : stmt unit := fun c =>
  match d_tier d, d_status d with
  | Some tier, Some status =>
      match insert_knowledge_card (card_of_drawer d card_id now tier status) c with
      | (_, Err e) => (c, Err e)
      | (c1, Ok _) =>
          match append_knowledge_event (created_event d card_id now) c1 with
          | (_, Err e) => (c, Err e)
          | (c2, Ok _) => (c2, Ok tt)
          end
      end
  | _, _ => (c, Err NoRows)
  end.

Definition evidence_refs_by_role (d : Drawer) : list (KnowledgeEvidenceRole * string) :=
  (map (fun id => (RoleSupporting, id)) (d_supporting_refs d)
   ++ map (fun id => (RoleVerification, id)) (d_verification_refs d)
   ++ map (fun id => (RoleCounterexample, id)) (d_counterexample_refs d)
   ++ map (fun id => (RoleTeaching, id)) (d_teaching_refs d))%list.

(** Links that are made, and those that are not, which are only reported. *)
Fixpoint backfill_links (clock : nat → string) (n : nat) (d : Drawer) (card_id : string) (refs : list (KnowledgeEvidenceRole * string)) (c : CardDb)
    (linked : Z) (errors : list KnowledgeCardBackfillLinkError) : CardDb * Z * list KnowledgeCardBackfillLinkError :=
  match refs with
  | [] => (c, linked, errors)
  | (role, id) :: rest =>
      match insert_knowledge_evidence_link
              (MkLink (prospective_link_id card_id id role) card_id id role (Some ("backfilled from " +:+ d_id d)) (clock n)) c with
      | (c, Ok _) => backfill_links clock (S n) d card_id rest c (linked + 1) errors
      | (c, Err e) => backfill_links clock (S n) d card_id rest c linked
                        (errors ++ [MkLinkError card_id id (evidence_role_slug role) e])%list
      end
  end.

Definition add_result (k : KnowledgeCardBackfillCandidate) (created linked events : Z)
    (errors : list KnowledgeCardBackfillLinkError) (r : KnowledgeCardBackfillApplyResult)
    : KnowledgeCardBackfillApplyResult :=
  MkBackfillResult (ba_dry_run r) (count_candidate k (ba_report r)) (ba_created r + created) (ba_linked r + linked)
    (ba_events r + events) (ba_link_errors r ++ errors)%list.

(** An error of a card ends the whole run; the cards before it stay. *)
Fixpoint backfill_each (execute : bool) (clock : nat → nat → string) (n : nat) (drawers : list Drawer) (c : CardDb)
    (r : KnowledgeCardBackfillApplyResult) : CardDb * result KnowledgeCardBackfillApplyResult StoreError :=
  match drawers with
  | [] => (c, Ok r)
  | d :: rest =>
      let k := classify_drawer c d in
      if bool_decide (bc_status k = BackfillReady) && execute then
        match create_card_and_event d (bc_card_id k) (clock n O) c with
        | (c, Err e) => (c, Err e)
        | (c, Ok _) =>
            let '(c, linked, errors) := backfill_links (clock n) 1 d (bc_card_id k) (evidence_refs_by_role d) c 0 [] in
            backfill_each execute clock (S n) rest c (add_result k 1 linked 1 errors r)
        end
      else backfill_each execute clock (S n) rest c (add_result k 0 0 0 [] r)
  end.

Definition apply_backfill (execute : bool) (clock : nat → nat → string) (filter : KnowledgeCardFilter) (c : CardDb)
    : CardDb * result KnowledgeCardBackfillApplyResult StoreError :=
  match list_knowledge_drawers_for_card_backfill filter c with
  | Err e => (c, Err e)
  | Ok drawers => backfill_each execute clock 0 drawers c (MkBackfillResult (negb execute) no_candidates 0 0 0 [])
  end.
End backfill.
