(* ===== verification/KnowledgeCardsSafety.v ===== *)
(** * Knowledge cards: what the writes keep

    The statements and the lifecycle of [KnowledgeCards.v]: the constraints of the
    three tables, the trail of events of every card, and the gate against the
    links that are stored. *)

From Stdlib Require Import ZArith QArith Lia String Ascii.
From stdpp Require Import base tactics list gmap strings numbers sets.
From S2P Require Import Prelude Order Text ProcessIdentity WriterLease Drawer DrawerStore DrawerSafety Knowledge KnowledgeSafety KnowledgeCards.
Close Scope Q_scope.
Open Scope Z_scope.
Open Scope string_scope.
Open Scope rust_scope.

(** ** The tables *)
Definition link_key (l : KnowledgeEvidenceLink) : string * string * KnowledgeEvidenceRole :=
  (l_card_id l, l_drawer_id l, l_role l).

(** The events of a card, oldest first, lead to a status: each starts where the one
    before it ended. *)
Inductive trail : list KnowledgeCardEvent → KnowledgeStatus → Prop :=
  | trail_nil s : trail [] s
  | trail_created e s : e_from e = None → e_to e = Some s → trail [e] s
  | trail_snoc es e s s' : trail es s → e_from e = Some s → e_to e = Some s' → trail (es ++ [e]) s'.

Definition events_of (c : CardDb) (id : string) : list KnowledgeCardEvent :=
  List.filter (fun e => e_card_id e =? id) (c_events c).

Record cards_wf (c : CardDb) : Prop := {
  cw_key : ∀ id card, c_cards c !! id = Some card → k_id card = id;
  cw_checks : ∀ id card, c_cards c !! id = Some card → card_checks card = true;
  cw_link_ids : NoDup (l_id <$> c_links c);
  cw_link_keys : NoDup (link_key <$> c_links c);
  cw_link_refs : ∀ l, l ∈ c_links c →
    is_Some (c_cards c !! l_card_id l) ∧ l_drawer_id l ∈ db_links (c_db c)
    ∧ is_Some (db_drawers (c_db c) !! l_drawer_id l);
  cw_event_ids : NoDup (e_id <$> c_events c);
  cw_event_refs : ∀ e, e ∈ c_events c → is_Some (c_cards c !! e_card_id e);
  cw_trail : ∀ id card, c_cards c !! id = Some card → trail (events_of c id) (k_status card);
}.

Definition no_cards (db : Db) : CardDb := MkCardDb db ∅ [] [].

Lemma no_cards_wf db : cards_wf (no_cards db).
Proof.
  split; simpl; try (by intros ? ? H; rewrite lookup_empty in H); try apply NoDup_nil_2;
    try (by intros ? ?%elem_of_nil).
Qed.

Section statements.
Context `{StoreEnv}.

(** ** Links *)
Definition db_with_link (l : KnowledgeEvidenceLink) (c : CardDb) : CardDb :=
  MkCardDb (MkDb (db_drawers (c_db c)) (db_triples (c_db c)) ({[l_drawer_id l]} ∪ db_links (c_db c))
              (db_consolidations (c_db c)) (db_audit (c_db c)))
    (c_cards c) (c_links c ++ [l])%list (c_events c).

Lemma insert_link_spec l c c' r : insert_knowledge_evidence_link l c = (c', r) →
  match r with
  | Ok _ => c' = db_with_link l c ∧ existsb (same_link l) (c_links c) = false
            ∧ is_Some (c_cards c !! l_card_id l) ∧ is_Some (db_drawers (c_db c) !! l_drawer_id l)
  | Err _ => c' = c
  end.
Proof.
  unfold insert_knowledge_evidence_link. destruct (get_drawer _ _) as [[d|]|e] eqn:Hd; [|by intros [= <- <-]..].
  case_bool_decide as Hk; cbn [negb]; [|by intros [= <- <-]].
  destruct (existsb _ _) eqn:Hs; cbn [orb]; [by intros [= <- <-]|].
  case_bool_decide as Hc; cbn [negb]; [|by intros [= <- <-]]. intros [= <- <-].
  split_and!; [done..|]. apply get_drawer_Some in Hd as (row & Hrow & _). by exists row.
Qed.

Lemma same_link_false l k : same_link l k = false → (l_id l ≠ l_id k) ∧ (link_key l ≠ link_key k).
Proof.
  unfold same_link. intros [H1%bool_decide_eq_false H2]%orb_false_iff. split; [done|].
  unfold link_key. intros [= E1 E2 E3]. rewrite E1, E2, E3, !bool_decide_true in H2 by done. done.
Qed.

Lemma fresh_link l ls : existsb (same_link l) ls = false →
  (l_id l ∉ l_id <$> ls) ∧ (link_key l ∉ link_key <$> ls).
Proof.
  intros Hf. assert (∀ k, k ∈ ls → (l_id l ≠ l_id k) ∧ (link_key l ≠ link_key k)) as H1.
  { intros k Hk. apply same_link_false. apply list_elem_of_In in Hk.
    destruct (same_link l k) eqn:Hs; [|done]. assert (existsb (same_link l) ls = true) by (apply existsb_exists; eauto).
    congruence. }
  split; intros (k & Hk & Hin)%list_elem_of_fmap; by destruct (H1 k Hin).
Qed.

Lemma NoDup_fmap_snoc {A B} (f : A → B) l x : NoDup (f <$> l) → f x ∉ f <$> l → NoDup (f <$> (l ++ [x])%list).
Proof.
  intros Hl Hx. rewrite fmap_app. apply NoDup_app. split_and!; [done| |apply NoDup_singleton].
  intros y Hy ->%list_elem_of_singleton. done.
Qed.

Lemma wf_insert_link l c : cards_wf c → existsb (same_link l) (c_links c) = false →
  is_Some (c_cards c !! l_card_id l) → is_Some (db_drawers (c_db c) !! l_drawer_id l) → cards_wf (db_with_link l c).
Proof.
  intros [H1 H2 H3 H4 H5 H6 H7 H8] Hf Hc Hd. destruct (fresh_link _ _ Hf) as [Hi Hk].
  split; simpl; [done|done|by apply NoDup_fmap_snoc|by apply NoDup_fmap_snoc| |done|done|done].
  intros k [Hin|Hin%list_elem_of_singleton]%elem_of_app.
  - destruct (H5 k Hin) as (? & ? & ?). split_and!; [done|apply elem_of_union; by right|done].
  - subst k. split_and!; [done|apply elem_of_union; left; by apply elem_of_singleton|done].
Qed.

(** ** Cards and events *)
Definition db_with_card (card : KnowledgeCard) (c : CardDb) : CardDb :=
  MkCardDb (c_db c) (<[k_id card := card]> (c_cards c)) (c_links c) (c_events c).

Definition db_with_event (e : KnowledgeCardEvent) (c : CardDb) : CardDb :=
  MkCardDb (c_db c) (c_cards c) (c_links c) (c_events c ++ [e])%list.

Lemma append_event_spec e c c' r : append_knowledge_event e c = (c', r) →
  match r with
  | Ok _ => c' = db_with_event e c ∧ (e_id e ∉ e_id <$> c_events c) ∧ is_Some (c_cards c !! e_card_id e)
  | Err _ => c' = c
  end.
Proof.
  unfold append_knowledge_event. destruct (existsb _ _) eqn:Hs; cbn [orb]; [by intros [= <- <-]|].
  case_bool_decide as Hc; cbn [negb]; [|by intros [= <- <-]]. intros [= <- <-]. split_and!; [done| |done].
  intros (k & Hk & Hin)%list_elem_of_fmap. apply list_elem_of_In in Hin.
  assert (existsb (fun x => (e_id x =? e_id e)%string) (c_events c) = true); [|congruence].
  apply existsb_exists. exists k. split; [done|]. by rewrite Hk, String.eqb_refl.
Qed.

Lemma events_of_snoc e c id :
  events_of (db_with_event e c) id = if e_card_id e =? id then (events_of c id ++ [e])%list else events_of c id.
Proof.
  unfold events_of. simpl. rewrite List.filter_app. simpl. destruct (_ =? _); [done|by rewrite app_nil_r].
Qed.

(** ** The statements of a transition *)
Fixpoint new_links (clock : nat → string) (n : nat) (card_id reason : string) (role : KnowledgeEvidenceRole)
    (refs : list string) : list KnowledgeEvidenceLink :=
  match refs with
  | [] => []
  | id :: rest =>
      MkLink (deterministic_link_id card_id id role) card_id id role
        (Some ("linked during card lifecycle: " +:+ reason)) (clock n)
      :: new_links clock (S n) card_id reason role rest
  end.

Lemma insert_links_spec clock card_id reason role refs : ∀ n c c' n',
  insert_links clock n card_id reason role refs c = (c', Ok n') → cards_wf c →
  cards_wf c' ∧ c_cards c' = c_cards c ∧ c_events c' = c_events c
  ∧ c_links c' = (c_links c ++ new_links clock n card_id reason role refs)%list
  ∧ db_drawers (c_db c') = db_drawers (c_db c).
Proof.
  induction refs as [|id refs IH]; intros n c c' n'; cbn [insert_links new_links].
  { intros [= <- <-] Hw. by rewrite app_nil_r. }
  destruct (insert_knowledge_evidence_link _ c) as [c1 [[]|e]] eqn:Hi; [|done].
  apply insert_link_spec in Hi as (-> & Hf & Hc & Hd). intros Hrun Hw.
  destruct (IH _ _ _ _ Hrun) as (W & H1 & H2 & H3 & H4); [by apply wf_insert_link|].
  rewrite H1, H2, H3, H4. simpl. split_and!; [done..|by rewrite <- (assoc_L (++)%list)|done].
Qed.

Lemma update_status_spec card target t c c' r :
  c_cards c !! k_id card = Some card → update_knowledge_card (with_status card target t) c = (c', r) →
  match r with
  | Ok _ => c' = db_with_card (with_status card target t) c ∧ card_checks (with_status card target t) = true
  | Err _ => c' = c
  end.
Proof.
  intros Hc. unfold update_knowledge_card. destruct (anchor_domain_ok _); [|by intros [= <- <-]].
  cbn [k_id with_status]. rewrite Hc. destruct (card_checks _) eqn:Hk; cbn [negb]; [|by intros [= <- <-]].
  by intros [= <- <-].
Qed.

(** A transition: the links it adds, the card's new status and one event. *)
Definition transition (clock : nat → string) (card : KnowledgeCard) (m : CardLifecycleMutation) (c c' : CardDb) : Prop :=
  let links := new_links clock 1 (k_id card) (m_reason m) (m_link_role m) (m_new_refs m) in
  c_links c' = (c_links c ++ links)%list
  ∧ c_cards c' = <[k_id card := with_status card (m_target_status m) (clock O)]> (c_cards c)
  ∧ (∃ n, c_events c' = (c_events c ++ [lifecycle_event clock n (with_status card (m_target_status m) (clock O)) m])%list)
  ∧ db_drawers (c_db c') = db_drawers (c_db c).

Lemma lifecycle_writes_spec clock card m c c' :
  cards_wf c → c_cards c !! k_id card = Some card → m_old_status m = k_status card →
  lifecycle_writes clock (with_status card (m_target_status m) (clock O)) m c = (c', Ok tt) →
  cards_wf c' ∧ transition clock card m c c'.
Proof.
  intros Hw Hc Hold. unfold lifecycle_writes. cbn [k_id with_status].
  destruct (insert_links _ _ _ _ _ _ _) as [c1 [n|e]] eqn:Hl; [|done].
  destruct (insert_links_spec _ _ _ _ _ _ _ _ _ Hl Hw) as (W1 & E1 & E2 & E3 & E4).
  destruct (update_knowledge_card _ c1) as [c2 [b|e]] eqn:Hu; [|done].
  assert (c_cards c1 !! k_id card = Some card) as Hc1 by (by rewrite E1).
  destruct (update_status_spec _ _ _ _ _ _ Hc1 Hu) as [-> Hchk].
  destruct (append_knowledge_event _ _) as [c3 [[]|e]] eqn:Ha; [|done].
  apply append_event_spec in Ha as (-> & Hfresh & _). intros [= <-].
  assert (transition clock card m c (db_with_event (lifecycle_event clock n (with_status card (m_target_status m) (clock O)) m)
    (db_with_card (with_status card (m_target_status m) (clock O)) c1))) as Ht.
  { split_and!; simpl; [by rewrite E3|by rewrite E1|by exists n; rewrite E2|done]. }
  split; [|done]. destruct W1 as [W1 W2 W3 W4 W5 W6 W7 W8]. split; simpl.
  - intros id k. rewrite lookup_insert_Some. intros [[<- <-]|[_ Hk]]; [done|by apply W1].
  - intros id k. rewrite lookup_insert_Some. intros [[_ <-]|[_ Hk]]; [done|by eapply W2].
  - done.
  - done.
  - intros l Hin. destruct (W5 l Hin) as (Hx & ? & ?). split_and!; [|done..]. rewrite lookup_insert_is_Some'. by right.
  - by apply NoDup_fmap_snoc.
  - intros e [He|He%list_elem_of_singleton]%elem_of_app; rewrite lookup_insert_is_Some'; [right; by apply W7|left].
    by rewrite He.
  - intros id k Hk. rewrite events_of_snoc. cbn [e_card_id lifecycle_event k_id with_status].
    destruct (String.eqb_spec (k_id card) id) as [<-|Hne].
    + rewrite lookup_insert_eq in Hk. injection Hk as <-. eapply trail_snoc; [by apply W8| |done]. simpl. by rewrite Hold.
    + rewrite lookup_insert_ne in Hk by done. by apply W8.
Qed.

(** ** New cards *)
Lemma events_of_new c id : cards_wf c → c_cards c !! id = None → events_of c id = [].
Proof.
  intros Hw Hn. unfold events_of. destruct (List.filter _ (c_events c)) as [|e es] eqn:Hf; [done|].
  assert (In e (List.filter (fun e => e_card_id e =? id) (c_events c))) as [Hin He%String.eqb_eq]%List.filter_In
    by (rewrite Hf; by left).
  destruct (cw_event_refs _ Hw e) as [k Hk]; [by apply list_elem_of_In|]. by rewrite He, Hn in Hk.
Qed.

Lemma insert_card_spec card c c' r : insert_knowledge_card card c = (c', r) →
  match r with
  | Ok _ => c' = db_with_card card c ∧ c_cards c !! k_id card = None ∧ card_checks card = true
  | Err _ => c' = c
  end.
Proof.
  unfold insert_knowledge_card. destruct (anchor_domain_ok card); [|by intros [= <- <-]].
  case_bool_decide as Hk; cbn [orb]; [by intros [= <- <-]|].
  destruct (card_checks card) eqn:Hc; cbn [negb]; [|by intros [= <- <-]]. intros [= <- <-].
  split_and!; [done|by apply eq_None_not_Some|done].
Qed.

Lemma wf_insert_card card c : cards_wf c → c_cards c !! k_id card = None → card_checks card = true →
  cards_wf (db_with_card card c).
Proof.
  intros Hw Hn Hk. pose proof (events_of_new _ _ Hw Hn) as Hev. destruct Hw as [H1 H2 H3 H4 H5 H6 H7 H8]. split; simpl.
  - intros id k. rewrite lookup_insert_Some. intros [[<- <-]|[_ Hl]]; [done|by apply H1].
  - intros id k. rewrite lookup_insert_Some. intros [[_ <-]|[_ Hl]]; [done|by eapply H2].
  - done.
  - done.
  - intros l Hl. destruct (H5 l Hl) as (? & ? & ?). split_and!; [|done..]. rewrite lookup_insert_is_Some'. by right.
  - done.
  - intros e He. rewrite lookup_insert_is_Some'. right. by apply H7.
  - intros id k. rewrite lookup_insert_Some. intros [[<- <-]|[_ Hl]]; [|by apply (H8 id)].
    change (trail (events_of c (k_id card)) (k_status card)). rewrite Hev. constructor.
Qed.

Lemma wf_append_created e card c :
  cards_wf c → c_cards c !! e_card_id e = Some card → events_of c (e_card_id e) = [] →
  e_from e = None → e_to e = Some (k_status card) → (e_id e ∉ e_id <$> c_events c) →
  cards_wf (db_with_event e c).
Proof.
  intros [H1 H2 H3 H4 H5 H6 H7 H8] Hc Hev Hf Ht Hid. split; simpl; [done..|by apply NoDup_fmap_snoc| |].
  - intros x [Hx|Hx%list_elem_of_singleton]%elem_of_app; [by apply H7|]. rewrite Hx. by exists card.
  - intros id k Hk. rewrite events_of_snoc. destruct (String.eqb_spec (e_card_id e) id) as [<-|Hne]; [|by apply H8].
    rewrite Hev. assert (k = card) as -> by congruence. by apply trail_created.
Qed.

(** ** The backfill *)
Lemma create_card_spec d card_id now c c' r : cards_wf c → create_card_and_event d card_id now c = (c', r) →
  match r with
  | Ok _ => cards_wf c' ∧ is_Some (c_cards c' !! card_id) ∧ c_cards c ⊆ c_cards c' ∧ c_db c' = c_db c
            ∧ c_links c' = c_links c
  | Err _ => c' = c
  end.
Proof.
  intros Hw. unfold create_card_and_event. destruct (d_tier d) as [tier|]; [|by intros [= <- <-]].
  destruct (d_status d) as [status|] eqn:Hst; [|by intros [= <- <-]].
  destruct (insert_knowledge_card _ c) as [c1 [[]|e]] eqn:Hi; [|by intros [= <- <-]].
  apply insert_card_spec in Hi as (-> & Hn & Hk). simpl in Hn.
  destruct (append_knowledge_event _ _) as [c2 [[]|e]] eqn:Ha; [|by intros [= <- <-]].
  apply append_event_spec in Ha as (-> & Hid & _). intros [= <- <-].
  assert (cards_wf (db_with_card (card_of_drawer d card_id now tier status) c)) as Hw1 by (by apply wf_insert_card).
  split_and!; simpl; [|by rewrite lookup_insert_eq; eexists|by apply insert_subseteq|done|done].
  apply (wf_append_created _ (card_of_drawer d card_id now tier status)); [done| | |done|done|done].
  - simpl. by rewrite lookup_insert_eq.
  - change (events_of c card_id = []). by apply events_of_new.
Qed.

Lemma backfill_links_spec clock d card_id refs : ∀ n c linked errors c' linked' errors',
  cards_wf c → backfill_links clock n d card_id refs c linked errors = (c', linked', errors') →
  cards_wf c' ∧ c_cards c' = c_cards c ∧ db_drawers (c_db c') = db_drawers (c_db c).
Proof.
  induction refs as [|[role id] refs IH]; intros n c linked errors c' linked' errors' Hw; cbn [backfill_links].
  { by intros [= <- _ _]. }
  destruct (insert_knowledge_evidence_link _ c) as [c1 [[]|e]] eqn:Hi; apply insert_link_spec in Hi.
  - destruct Hi as (-> & Hf & Hc & Hd). intros Hrun.
    destruct (IH _ _ _ _ _ _ _ (wf_insert_link _ _ Hw Hf Hc Hd) Hrun) as (? & -> & ->). done.
  - subst c1. by apply IH.
Qed.

(** A run of the backfill adds cards and links, and keeps the drawers. *)
Lemma backfill_each_spec execute clock drawers : ∀ n c r c' res,
  cards_wf c → backfill_each execute clock n drawers c r = (c', res) →
  cards_wf c' ∧ c_cards c ⊆ c_cards c' ∧ db_drawers (c_db c') = db_drawers (c_db c).
Proof.
  induction drawers as [|d drawers IH]; intros n c r c' res Hw; cbn [backfill_each]; [by intros [= <- _]|].
  destruct (_ && execute); [|by apply IH].
  destruct (create_card_and_event _ _ _ c) as [c1 [[]|e]] eqn:Hc; apply create_card_spec in Hc; [|done| |done].
  - destruct Hc as (Hw1 & _ & Hsub & Hdb & _).
    destruct (backfill_links _ _ _ _ _ _ _ _) as [[c2 linked] errors] eqn:Hl.
    destruct (backfill_links_spec _ _ _ _ _ _ _ _ _ _ _ Hw1 Hl) as (Hw2 & Hcards & Hdr). intros Hrun.
    destruct (IH _ _ _ _ _ Hw2 Hrun) as (? & Hs & ->). rewrite Hdr, Hdb. split_and!; [done| |done].
    rewrite Hsub, <- Hcards. done.
  - subst c1. by intros [= <- _].
Qed.

End statements.
