(* ===== verification/KnowledgeCardsSystem.v ===== *)
(** * Knowledge cards: lifecycle, backfill and purge

    The theorems about [KnowledgeCards.v]: the gate, transitions that are all or
    nothing under the writer lease, the invariant of the tables over any run, a
    backfill that can be repeated, and linked evidence that a purge keeps. *)

From Stdlib Require Import ZArith QArith Lia String Ascii.
From stdpp Require Import base tactics list gmap strings numbers sets.
From S2P Require Import Prelude Order Text ProcessIdentity WriterLease Drawer DrawerStore DrawerSafety Knowledge KnowledgeSafety KnowledgeCards KnowledgeCardsSafety.
Close Scope Q_scope.
Open Scope Z_scope.
Open Scope string_scope.
Open Scope rust_scope.

(** The cards and the knowledge drawers have one promotion policy: the
    requirements, the statuses of a tier, the default target, and the statuses and
    reasons that are understood are the same, though each has its own tables. *)
Theorem card_policy_agrees :
  (∀ tier target, card_gate_requirements tier target = gate_requirements tier target)
  ∧ (∀ tier status, card_validate_tier_status tier status = validate_tier_status tier status)
  ∧ (∀ tier, card_default_target_status tier = default_target_status tier)
  ∧ (∀ value, card_parse_status value = parse_status value)
  ∧ (∀ value, card_validate_demote_reason_type value = validate_demote_reason_type value).
Proof. split_and!; [by intros [] []|by intros [] []|by intros []|done|done]. Qed.

Section lifecycle.
Context `{S : StoreEnv} `{J : JsonText} (blake3_hex : string → string).

(** ** Fenced writes *)
Lemma apply_ok conn lease operation clock card m st st' :
  apply_card_lifecycle blake3_hex conn lease operation clock card m st = (st', Ok tt) →
  lifecycle_writes clock card m st.2 = (st'.2, Ok tt).
Proof.
  unfold apply_card_lifecycle, with_runtime_writer_lease_write, with_runtime_writer_lease_transaction, fenced_body.
  destruct lease as [l|]; simpl.
  - destruct (cd_begun conn); [|done]. destruct (require_runtime_writer_lease_tx _ _ _ _); [|done]. simpl.
    destruct (lifecycle_writes clock card m st.2) as [c [[]|e]]; [|done]. destruct (cd_committed conn); [|done].
    by intros [= <-].
  - destruct (lifecycle_writes clock card m st.2) as [c r]. by intros [= <- ->].
Qed.

Lemma apply_err conn l operation clock card m st st' e :
  apply_card_lifecycle blake3_hex conn (Some l) operation clock card m st = (st', Err e) → st' = st.
Proof.
  unfold apply_card_lifecycle, with_runtime_writer_lease_write, with_runtime_writer_lease_transaction, fenced_body. simpl.
  destruct (cd_begun conn); [|by intros [= <- _]]. destruct (require_runtime_writer_lease_tx _ _ _ _); [|by intros [= <- _]].
  simpl. destruct (lifecycle_writes clock card m st.2) as [c [[]|e']]; [|by intros [= <- _]].
  destruct (cd_committed conn); [done|by intros [= <- _]].
Qed.

(** ** Plans *)
Lemma load_card_ok c id card : load_card c id = Ok card → c_cards c !! id = Some card.
Proof. unfold load_card, get_knowledge_card. destruct (c_cards c !! id); [|done]. by intros [= <-]. Qed.

Lemma lift_card_ok {A} (r : result A KnowledgeError) a : lift_card r = Ok a → r = Ok a.
Proof. by destruct r; intros [= <-]. Qed.

Definition counts_after (c : CardDb) (id : string) (refs : list string) : GateEvidenceCounts :=
  projected_counts (counts_from_links (knowledge_evidence_links c id))
    (missing_refs_for_role (knowledge_evidence_links c id) refs RoleVerification) RoleVerification.

Lemma promote_card_plan_ok c request card target new_refs gate :
  promote_card_plan c request = Ok (card, target, new_refs, gate) →
  c_cards c !! pc_card_id request = Some card ∧ target ∈ [Promoted; Canonical]
  ∧ target ∈ card_allowed (k_tier card)
  ∧ new_refs = missing_refs_for_role (knowledge_evidence_links c (pc_card_id request)) (pc_verification_refs request) RoleVerification
  ∧ Forall (evidence_ref (c_db c)) (pc_verification_refs request)
  ∧ (pc_enforce_gate request = true →
     gate_reasons (card_gate_requirements (k_tier card) target)
       (counts_after c (pc_card_id request) (pc_verification_refs request)) (pc_reviewer request)
       (pc_allow_counterexamples request) = []).
Proof.
  unfold promote_card_plan. destruct (lift_card (card_parse_status _)) as [t|]; [|done]. cbn.
  case_bool_decide as Ht; cbn [negb]; [|done].
  destruct (lift_card (validate_evidence_refs _ _)) as [u|] eqn:Hrefs; [|done]. cbn.
  destruct (load_card c (pc_card_id request)) as [k|] eqn:Hk; [|done]. cbn.
  destruct (lift_card (card_validate_tier_status _ _)) as [u2|] eqn:Htier; [|done]. cbn.
  apply load_card_ok in Hk. apply lift_card_ok in Htier, Hrefs.
  assert (t ∈ card_allowed (k_tier k)) as Hall by (unfold card_validate_tier_status in Htier; by case_bool_decide).
  assert (Forall (evidence_ref (c_db c)) (pc_verification_refs request)) as Hev.
  { unfold validate_evidence_refs in Hrefs. destruct (pc_verification_refs request); [done|]. by eapply validate_refs_ok. }
  destruct (pc_enforce_gate request).
  - unfold evaluate_card_gate. rewrite Htier. cbn. destruct (gate_reasons _ _ _ _) eqn:Hr; cbn; [|done].
    intros [= <- <- <- <-]. split_and!; [done..|]. intros _. exact Hr.
  - cbn. intros [= <- <- <- <-]. by split_and!.
Qed.

Lemma demote_card_plan_ok c request card target new_refs :
  demote_card_plan c request = Ok (card, target, new_refs) →
  c_cards c !! dc_card_id request = Some card ∧ target ∈ [Demoted; Retired].
Proof.
  unfold demote_card_plan. destruct (lift_card (card_parse_status _)) as [t|]; [|done]. cbn.
  case_bool_decide as Ht; cbn [negb]; [|done]. destruct (lift_card (card_validate_demote_reason_type _)); [|done]. cbn.
  destruct (lift_card (validate_evidence_refs _ _)); [|done]. cbn.
  destruct (load_card c (dc_card_id request)) as [k|] eqn:Hk; [|done]. cbn.
  destruct (lift_card (card_validate_tier_status _ _)); [|done]. cbn. intros [= <- <- <-].
  split; [by apply load_card_ok|done].
Qed.

(** ** Transitions *)
Lemma promote_ok conn lease operation clock request st st' out :
  cards_wf st.2 →
  promote_card_with_runtime_writer_lease blake3_hex conn lease operation clock request st = (st', Ok out) →
  ∃ card target new_refs gate,
    promote_card_plan st.2 request = Ok (card, target, new_refs, gate)
    ∧ cards_wf st'.2
    ∧ transition clock card (promote_mutation request (k_status card) target new_refs) st.2 st'.2.
Proof.
  intros Hw. unfold promote_card_with_runtime_writer_lease.
  destruct (promote_card_plan st.2 request) as [[[[card target] new_refs] gate]|] eqn:Hp; [|done].
  destruct (apply_card_lifecycle _ _ _ _ _ _ _ _) as [st1 [[]|e]] eqn:Ha; [|done]. intros [= <- _].
  apply apply_ok in Ha. destruct (promote_card_plan_ok _ _ _ _ _ _ Hp) as (Hc & _).
  assert (k_id card = pc_card_id request) as Hid by (by apply (cw_key _ Hw)).
  exists card, target, new_refs, gate. split; [done|].
  apply (lifecycle_writes_spec clock card (promote_mutation request (k_status card) target new_refs)) in Ha;
    [done|done|by rewrite Hid|done].
Qed.

Lemma demote_ok conn lease operation clock request st st' out :
  cards_wf st.2 →
  demote_card_with_runtime_writer_lease blake3_hex conn lease operation clock request st = (st', Ok out) →
  ∃ card target new_refs,
    demote_card_plan st.2 request = Ok (card, target, new_refs)
    ∧ cards_wf st'.2
    ∧ transition clock card (demote_mutation request (k_status card) target new_refs) st.2 st'.2.
Proof.
  intros Hw. unfold demote_card_with_runtime_writer_lease.
  destruct (demote_card_plan st.2 request) as [[[card target] new_refs]|] eqn:Hp; [|done].
  destruct (apply_card_lifecycle _ _ _ _ _ _ _ _) as [st1 [[]|e]] eqn:Ha; [|done]. intros [= <- _].
  apply apply_ok in Ha. destruct (demote_card_plan_ok _ _ _ _ _ Hp) as (Hc & _).
  assert (k_id card = dc_card_id request) as Hid by (by apply (cw_key _ Hw)).
  exists card, target, new_refs. split; [done|].
  apply (lifecycle_writes_spec clock card (demote_mutation request (k_status card) target new_refs)) in Ha;
    [done|done|by rewrite Hid|done].
Qed.

Lemma promote_err conn l operation clock request st st' e :
  promote_card_with_runtime_writer_lease blake3_hex conn (Some l) operation clock request st = (st', Err e) → st' = st.
Proof.
  unfold promote_card_with_runtime_writer_lease.
  destruct (promote_card_plan _ _) as [[[[card target] new_refs] gate]|]; [|by intros [= <- _]].
  destruct (apply_card_lifecycle _ _ _ _ _ _ _ _) as [st1 [[]|e']] eqn:Ha; [done|].
  apply apply_err in Ha as ->. by intros [= <- _].
Qed.

Lemma demote_err conn l operation clock request st st' e :
  demote_card_with_runtime_writer_lease blake3_hex conn (Some l) operation clock request st = (st', Err e) → st' = st.
Proof.
  unfold demote_card_with_runtime_writer_lease.
  destruct (demote_card_plan _ _) as [[[card target] new_refs]|]; [|by intros [= <- _]].
  destruct (apply_card_lifecycle _ _ _ _ _ _ _ _) as [st1 [[]|e']] eqn:Ha; [done|].
  apply apply_err in Ha as ->. by intros [= <- _].
Qed.

(** ** Counting links *)
Lemma with_role_perm role l k : l ≡ₚ k → with_role role l ≡ₚ with_role role k.
Proof.
  unfold with_role. induction 1 as [|x l k _ IH|x y l|l k j _ IH1 _ IH2]; simpl; [done| | |by etrans].
  - case_bool_decide; [by constructor|done].
  - do 2 case_bool_decide; try done. apply perm_swap.
Qed.

#[local] Instance counts_perm : Proper ((≡ₚ) ==> (=)) counts_from_links.
Proof. intros l k Hp. unfold counts_from_links. by rewrite !(with_role_perm _ _ _ Hp). Qed.

Lemma with_role_new clock card_id reason r role refs : ∀ n,
  with_role r (new_links clock n card_id reason role refs)
  = if bool_decide (role = r) then new_links clock n card_id reason role refs else [].
Proof.
  induction refs as [|id refs IH]; intros n; simpl; [by case_bool_decide|].
  unfold with_role in *. simpl. rewrite IH. by case_bool_decide.
Qed.

Lemma length_new_links clock card_id reason role refs n :
  length (new_links clock n card_id reason role refs) = length refs.
Proof. revert n. induction refs as [|id refs IH]; intros n; simpl; [done|by rewrite IH]. Qed.

Lemma counts_new_links l clock n card_id reason role refs :
  counts_from_links (l ++ new_links clock n card_id reason role refs)%list = projected_counts (counts_from_links l) refs role.
Proof.
  assert (∀ r, Z.of_nat (length (with_role r (l ++ new_links clock n card_id reason role refs)%list))
    = Z.of_nat (length (with_role r l)) + (if bool_decide (role = r) then Z.of_nat (length refs) else 0)) as Hr.
  { intros r. unfold with_role at 1. rewrite List.filter_app. fold (with_role r l).
    fold (with_role r (new_links clock n card_id reason role refs)). rewrite with_role_new, length_app.
    case_bool_decide; [rewrite length_new_links|simpl]; lia. }
  unfold counts_from_links. rewrite !Hr. destruct role; simpl; f_equal; lia.
Qed.

Lemma filter_all {A} (f : A → bool) l : (∀ x, x ∈ l → f x = true) → List.filter f l = l.
Proof.
  induction l as [|x l IH]; intros Hf; simpl; [done|]. rewrite Hf by (by left). f_equal. apply IH. intros y Hy. apply Hf. by right.
Qed.

Lemma new_links_card clock card_id reason role refs l : ∀ n,
  l ∈ new_links clock n card_id reason role refs → l_card_id l = card_id.
Proof. induction refs as [|id refs IH]; intros n; simpl; [by intros ?%elem_of_nil|]. intros [->|Hl]%elem_of_cons; eauto. Qed.

Lemma links_after clock card m c c' :
  transition clock card m c c' →
  knowledge_evidence_links c' (k_id card)
  ≡ₚ (knowledge_evidence_links c (k_id card) ++ new_links clock 1 (k_id card) (m_reason m) (m_link_role m) (m_new_refs m))%list.
Proof.
  intros (Hl & _). unfold knowledge_evidence_links. rewrite !sort_by_perm, Hl, List.filter_app. f_equiv.
  rewrite filter_all; [done|]. intros l Hin. apply new_links_card in Hin. by rewrite Hin, String.eqb_refl.
Qed.

(** Each drawer counts once for a role. *)
Lemma role_refs_nodup c id role : cards_wf c → NoDup (refs_for_role (knowledge_evidence_links c id) role).
Proof.
  intros Hw. unfold refs_for_role.
  assert (with_role role (knowledge_evidence_links c id)
    ≡ₚ with_role role (List.filter (fun l => l_card_id l =? id) (c_links c))) as Hp
    by (apply with_role_perm, sort_by_perm).
  rewrite (fmap_Permutation l_drawer_id _ _ Hp : map _ _ ≡ₚ map _ _). clear Hp.
  pose proof (cw_link_keys _ Hw) as Hnd. induction (c_links c) as [|l ls IH]; simpl; [constructor|].
  inversion Hnd as [|? ? Hnot Hnd']; subst. destruct (String.eqb_spec (l_card_id l) id) as [He|]; [|by apply IH].
  unfold with_role. simpl. case_bool_decide as Hr; [|by apply IH]. simpl. constructor; [|by apply IH].
  intros (k & Hk & Hin)%list_elem_of_In%in_map_iff. apply List.filter_In in Hin as [Hin Hr'%bool_decide_eq_true].
  apply List.filter_In in Hin as [Hin Hid%String.eqb_eq]. apply Hnot. apply list_elem_of_fmap. exists k.
  split; [|by apply list_elem_of_In]. unfold link_key. congruence.
Qed.

(** A promotion that the gate allowed is backed by what is stored: when it
    succeeds, the card has the status asked for and the links on file, each of
    a drawer of its own, meet the requirements of its tier; a reviewer who is
    required has a name; and counterexamples are there only when they were allowed. *)
Theorem promote_card_enforced conn lease operation clock request st st' out :
  cards_wf st.2 → pc_enforce_gate request = true →
  promote_card_with_runtime_writer_lease blake3_hex conn lease operation clock request st = (st', Ok out) →
  ∃ card, c_cards st'.2 !! pc_card_id request = Some card
    ∧ k_status card ∈ [Promoted; Canonical]
    ∧ let req := card_gate_requirements (k_tier card) (k_status card) in
      let stored role := refs_for_role (knowledge_evidence_links st'.2 (pc_card_id request)) role in
      (∀ role, NoDup (stored role))
      ∧ min_supporting_refs req <= Z.of_nat (length (stored RoleSupporting))
      ∧ min_verification_refs req <= Z.of_nat (length (stored RoleVerification))
      ∧ min_teaching_refs req <= Z.of_nat (length (stored RoleTeaching))
      ∧ (reviewer_required req = true → ∃ r, pc_reviewer request = Some r ∧ trim r ≠ "")
      ∧ (stored RoleCounterexample = [] ∨ pc_allow_counterexamples request = true).
Proof.
  intros Hw Henf Hrun. destruct (promote_ok _ _ _ _ _ _ _ _ Hw Hrun) as (card & target & new_refs & gate & Hp & Hw' & Ht).
  destruct (promote_card_plan_ok _ _ _ _ _ _ Hp) as (Hc & Htgt & Hall & -> & _ & Hg). specialize (Hg Henf).
  assert (k_id card = pc_card_id request) as Hid by (by apply (cw_key _ Hw)).
  pose proof (links_after _ _ _ _ _ Ht) as Hlinks. rewrite Hid in Hlinks. simpl in Hlinks.
  pose proof (counts_perm _ _ Hlinks) as Hcounts. rewrite counts_new_links in Hcounts. fold (counts_after st.2 (pc_card_id request) (pc_verification_refs request)) in Hcounts.
  rewrite <- Hcounts in Hg. destruct Ht as (_ & Hcards & _). rewrite Hid in Hcards.
  exists (with_status card target (clock O)). rewrite Hcards, lookup_insert_eq. split_and!; [done|done|].
  assert (∀ role, length (refs_for_role (knowledge_evidence_links st'.2 (pc_card_id request)) role)
    = length (with_role role (knowledge_evidence_links st'.2 (pc_card_id request)))) as Hlen
    by (intros role; apply length_map).
  unfold gate_reasons in Hg. rewrite !app_nil, !refs_below_nil in Hg. destruct Hg as (G1 & G2 & G3 & G4 & G5).
  cbn [k_tier k_status with_status]. rewrite !Hlen. split_and!; [by intros role; apply role_refs_nodup|done|done|done| |].
  - intros Hr. apply no_reviewer_false. rewrite Hr in G4. destruct (no_reviewer _); done.
  - assert (counterexamples_block (card_gate_requirements (k_tier card) target) = true) as Hb by (by destruct (k_tier card), target).
    rewrite Hb in G5. destruct (pc_allow_counterexamples request); [by right|left].
    unfold refs_for_role. simpl in G5. destruct (with_role RoleCounterexample _); [done|].
    destruct (Z.ltb_spec 0 (Z.of_nat (length (k :: l)))); [done|simpl in *; lia].
Qed.
(** A change of status under the writer lease is all or nothing. When a
    promotion or a demotion succeeds, the tables differ by the links it adds, the
    status of that one card, and one event that records the change from the status
    the card had; when it fails for any reason, every table is as it was. *)
Theorem leased_transition conn l operation clock st :
  cards_wf st.2 →
  (∀ request,
     let '(st', r) := promote_card_with_runtime_writer_lease blake3_hex conn (Some l) operation clock request st in
     match r with
     | Ok _ => ∃ card target new_refs, c_cards st.2 !! pc_card_id request = Some card
                 ∧ transition clock card (promote_mutation request (k_status card) target new_refs) st.2 st'.2
     | Err _ => st' = st
     end)
  ∧ (∀ request,
     let '(st', r) := demote_card_with_runtime_writer_lease blake3_hex conn (Some l) operation clock request st in
     match r with
     | Ok _ => ∃ card target new_refs, c_cards st.2 !! dc_card_id request = Some card
                 ∧ transition clock card (demote_mutation request (k_status card) target new_refs) st.2 st'.2
     | Err _ => st' = st
     end).
Proof.
  intros Hw. split; intros request.
  - destruct (promote_card_with_runtime_writer_lease _ _ _ _ _ _ _) as [st' [out|e]] eqn:Hrun.
    + destruct (promote_ok _ _ _ _ _ _ _ _ Hw Hrun) as (card & target & new_refs & gate & Hp & _ & Ht).
      exists card, target, new_refs. split; [|done]. by destruct (promote_card_plan_ok _ _ _ _ _ _ Hp).
    + by apply promote_err in Hrun.
  - destruct (demote_card_with_runtime_writer_lease _ _ _ _ _ _ _) as [st' [out|e]] eqn:Hrun.
    + destruct (demote_ok _ _ _ _ _ _ _ _ Hw Hrun) as (card & target & new_refs & Hp & _ & Ht).
      exists card, target, new_refs. split; [|done]. by destruct (demote_card_plan_ok _ _ _ _ _ Hp).
    + by apply demote_err in Hrun.
Qed.

(** ** Runs *)
Lemma promote_wf conn l operation clock request st :
  cards_wf st.2 →
  cards_wf (promote_card_with_runtime_writer_lease blake3_hex conn (Some l) operation clock request st).1.2.
Proof.
  intros Hw. destruct (promote_card_with_runtime_writer_lease _ _ _ _ _ _ _) as [st' [out|e]] eqn:Hrun; simpl.
  - by destruct (promote_ok _ _ _ _ _ _ _ _ Hw Hrun) as (? & ? & ? & ? & _ & ? & _).
  - by apply promote_err in Hrun as ->.
Qed.

Lemma demote_wf conn l operation clock request st :
  cards_wf st.2 →
  cards_wf (demote_card_with_runtime_writer_lease blake3_hex conn (Some l) operation clock request st).1.2.
Proof.
  intros Hw. destruct (demote_card_with_runtime_writer_lease _ _ _ _ _ _ _) as [st' [out|e]] eqn:Hrun; simpl.
  - by destruct (demote_ok _ _ _ _ _ _ _ _ Hw Hrun) as (? & ? & ? & _ & ? & _).
  - by apply demote_err in Hrun as ->.
Qed.

Inductive card_op :=
  | OpPromote (conn : card_conn) (lease : RuntimeWriterLease) (clock : nat → string) (request : PromoteCardRequest)
  | OpDemote (conn : card_conn) (lease : RuntimeWriterLease) (clock : nat → string) (request : DemoteCardRequest)
  | OpCreate (card : KnowledgeCard)
  | OpLink (link : KnowledgeEvidenceLink)
  | OpBackfill (execute : bool) (clock : nat → nat → string) (filter : KnowledgeCardFilter)
  | OpPurge (f : purge_faults) (before : option string) (vectors index : option (gset string)) (kept : bool)
  | OpLeases (leases : lease_db).

Definition with_db (c : CardDb) (db : Db) : CardDb := MkCardDb db (c_cards c) (c_links c) (c_events c).

Definition card_step (op : card_op) (st : lease_db * CardDb) : lease_db * CardDb :=
  match op with
  | OpPromote conn l clock request =>
      (promote_card_with_runtime_writer_lease blake3_hex conn (Some l) "promote" clock request st).1
  | OpDemote conn l clock request =>
      (demote_card_with_runtime_writer_lease blake3_hex conn (Some l) "demote" clock request st).1
  | OpCreate card => (st.1, (insert_knowledge_card card st.2).1)
  | OpLink link => (st.1, (insert_knowledge_evidence_link link st.2).1)
  | OpBackfill execute clock filter => (st.1, (apply_backfill execute clock filter st.2).1)
  | OpPurge f before vectors index kept =>
      (st.1, with_db st.2 (purge_outcome f before kept (MkPurgeTables (c_db st.2) vectors index)))
  | OpLeases leases => (leases, st.2)
  end.

(** A purge keeps the drawers that links name. *)
Lemma purge_keeps_linked `{L : !StoreLaws S} f before kept t id :
  id ∈ db_links (pt_db t) →
  db_drawers (purge_outcome f before kept t) !! id = db_drawers (pt_db t) !! id
  ∧ db_links (purge_outcome f before kept t) = db_links (pt_db t).
Proof.
  intros Hid. destruct (purge_outcome_cases f before kept t) as [->|Hl]; [done|].
  destruct (purge_rows before (pt_db t)) as [Hnd Hin].
  pose proof (clean_purge_ok _ _ _ Hin Hnd Hl) as (Hd & _ & Hlk & _). split; [|done].
  rewrite Hd, bool_decide_false; [done|]. intros Hrow.
  by rewrite (clean_purge_refused _ _ id Hin Hnd Hrow (or_introl Hid)) in Hl.
Qed.

Lemma purge_wf `{L : !StoreLaws S} f before kept vectors index c :
  cards_wf c → cards_wf (with_db c (purge_outcome f before kept (MkPurgeTables (c_db c) vectors index))).
Proof.
  intros [H1 H2 H3 H4 H5 H6 H7 H8]. split; simpl; [done..| |done|done|done].
  intros l Hl. destruct (H5 l Hl) as (? & Hlk & Hd).
  destruct (purge_keeps_linked f before kept (MkPurgeTables (c_db c) vectors index) _ Hlk) as [Hd' Hl'].
  split_and!; [done|by rewrite Hl'|by rewrite Hd'].
Qed.

Lemma backfill_wf execute clock filter c : cards_wf c → cards_wf (apply_backfill execute clock filter c).1.
Proof.
  intros Hw. unfold apply_backfill. destruct (list_knowledge_drawers_for_card_backfill _ _); [|done].
  destruct (backfill_each _ _ _ _ _ _) as [c' r] eqn:Hrun. by apply (backfill_each_spec _ _ _ _ _ _ _ _ Hw Hrun).
Qed.

Lemma card_step_wf `{L : !StoreLaws S} op st : cards_wf st.2 → cards_wf (card_step op st).2.
Proof.
  intros Hw. destruct op as [conn l clock request|conn l clock request|card|link|execute clock filter|f before vectors index kept|leases]; simpl.
  - by apply promote_wf.
  - by apply demote_wf.
  - destruct (insert_knowledge_card card st.2) as [c' [[]|e]] eqn:Hi; apply insert_card_spec in Hi; [|by subst].
    destruct Hi as (-> & ? & ?). by apply wf_insert_card.
  - destruct (insert_knowledge_evidence_link link st.2) as [c' [[]|e]] eqn:Hi; apply insert_link_spec in Hi; [|by subst].
    destruct Hi as (-> & ? & ? & ?). by apply wf_insert_link.
  - by apply backfill_wf.
  - by apply purge_wf.
  - done.
Qed.

(** C11: the audit trail of the cards is complete. After any run of promotions and
    demotions under a lease, new cards and links, backfills and purges, whatever
    fails, the events of every card lead, one from where the other ended, to the
    status the card has; no two links agree in card, drawer and role; and every
    link names a card and a drawer that are there. *)
Theorem cards_consistent `{L : !StoreLaws S} leases db ops :
  cards_wf (foldl (fun st op => card_step op st) (leases, no_cards db) ops).2.
Proof.
  assert (∀ st, cards_wf st.2 → cards_wf (foldl (fun st op => card_step op st) st ops).2) as Hrun.
  { induction ops as [|op ops IH]; intros st Hw; [done|]. simpl. by apply IH, card_step_wf. }
  apply Hrun, no_cards_wf.
Qed.
End lifecycle.

(** ** The backfill can be repeated *)
Section backfill.
Context `{S : StoreEnv}.

Definition report_of_all (c : CardDb) (drawers : list Drawer) (r : KnowledgeCardBackfillReport)
    : KnowledgeCardBackfillReport := foldl (fun r d => count_candidate (classify_drawer c d) r) r drawers.

(** Nothing to do: the run only counts. *)
Lemma backfill_each_counts execute clock drawers : ∀ n c r,
  execute = false ∨ (∀ d, d ∈ drawers → backfill_status c d ≠ BackfillReady) →
  backfill_each execute clock n drawers c r
  = (c, Ok (MkBackfillResult (ba_dry_run r) (report_of_all c drawers (ba_report r)) (ba_created r) (ba_linked r)
              (ba_events r) (ba_link_errors r))).
Proof.
  induction drawers as [|d drawers IH]; intros n c r Hno; cbn [backfill_each]; [by destruct r|].
  assert (bool_decide (bc_status (classify_drawer c d) = BackfillReady) && execute = false) as ->.
  { destruct Hno as [->|Hno]; [by rewrite andb_comm|]. rewrite bool_decide_false; [done|]. apply Hno. by left. }
  rewrite IH by (destruct Hno as [?|Hno]; [by left|right; intros x Hx; apply Hno; by right]).
  unfold add_result. simpl. rewrite !Z.add_0_r, app_nil_r. done.
Qed.

Lemma skipped_iff c d : backfill_status c d = BackfillSkipped ↔ skip_reasons d ≠ [].
Proof. unfold backfill_status. destruct (skip_reasons d); [case_bool_decide|]; done. Qed.

(** A run that ends well leaves no drawer ready. *)
Lemma backfill_each_done clock drawers : ∀ n c r c' res,
  cards_wf c → backfill_each true clock n drawers c r = (c', Ok res) →
  (∀ d, d ∈ drawers → backfill_status c' d ≠ BackfillReady)
  ∧ ∀ acc, br_skipped (ba_report r) = br_skipped acc →
           br_ready (ba_report r) + br_exists (ba_report r) = br_ready acc + br_exists acc →
           br_skipped (ba_report res) = br_skipped (report_of_all c' drawers acc)
           ∧ br_ready (ba_report res) + br_exists (ba_report res)
             = br_ready (report_of_all c' drawers acc) + br_exists (report_of_all c' drawers acc).
Proof.
  induction drawers as [|d drawers IH]; intros n c r c' res Hw; cbn [backfill_each].
  { intros [= <- <-]. split; [by intros d ?%elem_of_nil|]. intros acc H1 H2. done. }
  assert (∀ c1 linked errors k,
    cards_wf c1 → (skip_reasons d = [] → is_Some (c_cards c1 !! prospective_card_id (d_id d))) →
    backfill_each true clock (Datatypes.S n) drawers c1 (add_result (classify_drawer c d) k linked k errors r) = (c', Ok res) →
    (∀ x, x ∈ d :: drawers → backfill_status c' x ≠ BackfillReady)
    ∧ ∀ acc, br_skipped (ba_report r) = br_skipped acc →
           br_ready (ba_report r) + br_exists (ba_report r) = br_ready acc + br_exists acc →
           br_skipped (ba_report res) = br_skipped (report_of_all c' (d :: drawers) acc)
           ∧ br_ready (ba_report res) + br_exists (ba_report res)
             = br_ready (report_of_all c' (d :: drawers) acc) + br_exists (report_of_all c' (d :: drawers) acc)) as Hgo.
  { intros c1 linked errors k Hw1 Hhas Hrun. destruct (IH _ _ _ _ _ Hw1 Hrun) as [Hready Hcount].
    destruct (backfill_each_spec _ _ _ _ _ _ _ _ Hw1 Hrun) as (_ & Hsub & _). split.
    - intros x [->|Hx]%elem_of_cons; [|by apply Hready]. unfold backfill_status.
      destruct (skip_reasons d) eqn:Hr; [|done]. rewrite bool_decide_true; [done|]. destruct Hhas as [card Hcard]; [done|].
      exists card. unfold get_knowledge_card. by eapply lookup_weaken.
    - intros acc H1 H2. apply Hcount; simpl.
      + assert (backfill_status c d = BackfillSkipped ↔ backfill_status c' d = BackfillSkipped) as Hiff
          by (by rewrite !skipped_iff).
        rewrite (bool_decide_ext _ _ Hiff). lia.
      + assert (∀ x, (if bool_decide (backfill_status x d = BackfillReady) then 1 else 0)
          + (if bool_decide (backfill_status x d = BackfillAlreadyExists) then 1 else 0)
          = match skip_reasons d with [] => 1 | _ => 0 end) as Hone.
        { intros x. unfold backfill_status. destruct (skip_reasons d); [|done].
          by destruct (bool_decide (is_Some (get_knowledge_card x (prospective_card_id (d_id d))))). }
        pose proof (Hone c). pose proof (Hone c'). lia. }
  case_bool_decide as Hs; cbn [andb].
  - destruct (create_card_and_event _ _ _ c) as [c1 [[]|e]] eqn:Hc; apply create_card_spec in Hc; [|done| |done].
    2:{ done. }
    destruct Hc as (Hw1 & Hhas & _). destruct (backfill_links _ _ _ _ _ _ _ _) as [[c2 linked] errors] eqn:Hl.
    destruct (backfill_links_spec _ _ _ _ _ _ _ _ _ _ _ Hw1 Hl) as (Hw2 & Hcards & _).
    apply (Hgo c2 linked errors 1); [done|]. intros _. by rewrite Hcards.
  - apply (Hgo c 0 [] 0); [done|]. intros Hr. simpl in Hs. unfold backfill_status in Hs. rewrite Hr in Hs.
    case_bool_decide as Hk; [exact Hk|done].
Qed.

(** A backfill that ends well can be repeated: the second run finds every
    drawer the first one counted, creates nothing and changes nothing, and reports
    as already there what was ready or there before; a dry run changes nothing and
    gives the report. *)
Theorem backfill_idempotent clock clock' filter c c' r :
  cards_wf c → apply_backfill true clock filter c = (c', Ok r) →
  (∃ r', apply_backfill true clock' filter c' = (c', Ok r') ∧ ba_created r' = 0 ∧ br_ready (ba_report r') = 0
     ∧ br_exists (ba_report r') = br_ready (ba_report r) + br_exists (ba_report r)
     ∧ br_skipped (ba_report r') = br_skipped (ba_report r))
  ∧ ∃ dry, apply_backfill false clock' filter c = (c, Ok dry)
     ∧ build_backfill_report filter c = Ok (ba_report dry).
Proof.
  intros Hw. unfold apply_backfill, build_backfill_report.
  destruct (list_knowledge_drawers_for_card_backfill filter c) as [drawers|] eqn:Hl; [|done]. intros Hrun.
  destruct (backfill_each_spec _ _ _ _ _ _ _ _ Hw Hrun) as (_ & _ & Hd).
  destruct (backfill_each_done _ _ _ _ _ _ _ Hw Hrun) as [Hready Hcount].
  assert (list_knowledge_drawers_for_card_backfill filter c' = Ok drawers) as ->.
  { unfold list_knowledge_drawers_for_card_backfill in *. by rewrite Hd. }
  destruct (Hcount no_candidates eq_refl eq_refl) as [Hskip Hsum]. split.
  - rewrite backfill_each_counts by (by right). eexists. split; [done|]. simpl.
    assert (br_ready (report_of_all c' drawers no_candidates) = 0) as Hzero.
    { assert (∀ acc, br_ready (report_of_all c' drawers acc) = br_ready acc) as ->; [|done].
      clear -Hready. induction drawers as [|d drawers IH]; intros acc; [done|].
      change (br_ready (report_of_all c' drawers (count_candidate (classify_drawer c' d) acc)) = br_ready acc).
      rewrite IH by (intros x Hx; apply Hready; by right). simpl. rewrite bool_decide_false; [lia|].
      apply Hready. by left. }
    split_and!; [done|done|lia|done].
  - rewrite backfill_each_counts by (by left). eexists. split; [done|]. simpl. done.
Qed.
End backfill.
