(* ===== verification/KnowledgeCardsStory.v ===== *)
(** * Knowledge cards: a story

    Concrete tables: the witnesses of the theorems of [KnowledgeCardsSystem.v],
    and what the operations do without the writer lease, with a reason that was
    given before, with evidence that was deleted, and with drawers that the card
    table does not take. *)

From Stdlib Require Import ZArith QArith Lia String Ascii.
From stdpp Require Import base tactics list gmap strings numbers sets.
From S2P Require Import Prelude Order Text ProcessIdentity WriterLease LeaseProtocol Drawer DrawerStore DrawerSafety Knowledge KnowledgeSafety KnowledgeCards KnowledgeCardsSafety KnowledgeCardsSystem.
Close Scope Q_scope.
Open Scope Z_scope.
Open Scope string_scope.
Open Scope rust_scope.

Import Plain.

Module CardStory.
(** The digest keeps the end of the text, so that the identifiers differ. *)
Definition tail_store : StoreEnv := {|
  to_json := @to_json env; from_json := @from_json env; hints_to_json := @hints_to_json env;
  hints_from_json := @hints_from_json env; content_hash_hex := @content_hash_hex env;
  sha256_hex s := pad 64 (String.rev s); plan l := l |}.

Lemma tail_store_laws : StoreLaws tail_store.
Proof.
  split.
  - exact (@json_roundtrip env laws).
  - exact (@hints_roundtrip env laws).
  - intros s. apply (pad_length 64).
  - done.
Qed.
#[export] Existing Instance tail_store | 0.
#[export] Existing Instance tail_store_laws | 0.

Definition evidence (id : string) : Drawer :=
  new_bootstrap_evidence id "text" "w" (Some "r") None AgentObservation "100" None 2.

Definition sources : Db :=
  fst (insert_drawer (fst (insert_drawer (MkDb ∅ ∅ ∅ [] []) (evidence "drawer_e1"))) (evidence "drawer_e2")).

Definition card (id : string) (tier : KnowledgeTier) (status : KnowledgeStatus) : KnowledgeCard :=
  MkCard id "a rule" "the rule" tier status DomainProject "general" AnchorRepo "repo://x" None None None false None []
    "100" "100".

Definition conn : card_conn := CardConn (Ok tt) (Ok tt) witness_os "birth-1" 1776211210000 1776211210000.
Definition clock (n : nat) : string := show (Z.of_nat n).

Definition link : KnowledgeEvidenceLink := MkLink "link_1" "card_1" "drawer_e1" RoleSupporting None "100".

Definition start : lease_db * CardDb := (first_acquired.1, no_cards sources).
Definition linked : lease_db * CardDb :=
  card_step String.rev (OpLink link) (card_step String.rev (OpCreate (card "card_1" Qi Candidate)) start).

Definition promotion (reason : string) : PromoteCardRequest :=
  MkPromoteCard "card_1" "promoted" ["drawer_e2"] reason None true true.
Definition demotion : DemoteCardRequest := MkDemoteCard "card_1" "demoted" ["drawer_e2"] "it failed" "contradicted".

Definition promoted : (lease_db * CardDb) * result PromoteCardOutcome CardError :=
  promote_card_with_runtime_writer_lease String.rev conn (Some first_lease) "promote" clock (promotion "tested") linked.
Definition demoted : (lease_db * CardDb) * result DemoteCardOutcome CardError :=
  demote_card_with_runtime_writer_lease String.rev conn (Some first_lease) "demote" clock demotion promoted.1.

Definition status (st : lease_db * CardDb) : option KnowledgeStatus := k_status <$> c_cards st.2 !! "card_1".
Definition is_ok {A E} (r : result A E) : bool := match r with Ok _ => true | Err _ => false end.

Example it_runs :
  (is_ok promoted.2, status promoted.1, is_ok demoted.2, status demoted.1, length (c_events demoted.1.2))
  = (true, Some Promoted, true, Some Demoted, 2%nat).
Proof. vm_compute. reflexivity. Qed.

(** The identifier of an event is the digest of the card, the kind and the reason:
    a second promotion for the same reason is refused, and without the lease it is
    refused after the card has changed, so that no event leads to its status. *)
Definition again (lease : option RuntimeWriterLease) : (lease_db * CardDb) * result PromoteCardOutcome CardError :=
  promote_card_with_runtime_writer_lease String.rev conn lease "promote" clock (promotion "tested") demoted.1.

Example same_reason_is_refused :
  (is_ok (again (Some first_lease)).2, status (again (Some first_lease)).1) = (false, Some Demoted).
Proof. vm_compute. reflexivity. Qed.

Example unleased_promotion_half_applied :
  let '(st, r) := promote_card String.rev conn clock (promotion "tested") demoted.1 in
  (is_ok r, status st, e_to <$> last (events_of st.2 "card_1")) = (false, Some Promoted, Some (Some Demoted)).
Proof. vm_compute. reflexivity. Qed.

(** Links to a drawer that was deleted still count for the gate of a card. *)
Example deleted_evidence_counts :
  let c := with_db linked.2 (fst (soft_delete_drawer "200" "drawer_e1" (c_db linked.2))) in
  let after := fst (insert_knowledge_evidence_link (MkLink "link_2" "card_1" "drawer_e2" RoleVerification None "200") c) in
  (get_drawer (c_db after) "drawer_e1", g_allowed <$> match evaluate_card_gate_by_id after "card_1" None None false with Ok g => Some g | Err _ => None end)
  = (Ok None, Some true).
Proof. vm_compute. reflexivity. Qed.

(** A knowledge drawer of the user's domain is reported as ready, and ends the
    backfill: the card table has no such domain. *)
Definition knowledge_drawer (id : string) (domain : MemoryDomain) : Drawer :=
  let d := evidence id in
  MkDrawer (d_id d) (d_content d) (d_wing d) (d_room d) (d_source_file d) (d_source_type d)
    (d_confidence d) (d_added_at d) (d_chunk_index d) (d_normalize_version d) (d_importance d) Knowledge
    domain (d_field d) (d_anchor_kind d) (d_anchor_id d) (d_parent_anchor_id d) None
    (Some "a rule") (Some Qi) (Some Candidate) ["drawer_e1"] [] [] []
    (d_scope_constraints d) (d_trigger_hints d) (d_is_pinned d) (d_pin_order d)
    (d_supersedes d) (d_effective_importance d) (d_compacted_into d).

Definition all_cards : KnowledgeCardFilter := MkFilter None None None None None None None None.
Definition to_backfill (domain : MemoryDomain) : CardDb :=
  no_cards (fst (insert_drawer sources (knowledge_drawer "drawer_k" domain))).
Definition clocks (n k : nat) : string := show (Z.of_nat n).

Example backfill_stops_at_user_domain :
  (br_ready <$> match build_backfill_report all_cards (to_backfill DomainUser) with Ok r => Some r | Err _ => None end,
   snd (apply_backfill true clocks all_cards (to_backfill DomainUser)))
  = (Some 1, Err ConstraintViolation).
Proof. vm_compute. reflexivity. Qed.

Definition backfilled : CardDb * result KnowledgeCardBackfillApplyResult StoreError :=
  apply_backfill true clocks all_cards (to_backfill DomainProject).

Example backfill_makes_a_card :
  match backfilled.2 with Ok r => Some (ba_created r, ba_linked r, size (c_cards backfilled.1)) | Err _ => None end
  = Some (1, 1, 1%nat).
Proof. vm_compute. reflexivity. Qed.

Lemma linked_wf : cards_wf linked.2.
Proof.
  apply (card_step_wf String.rev (L := tail_store_laws)), (card_step_wf String.rev (L := tail_store_laws)), no_cards_wf.
Qed.
End CardStory.
Import CardStory.

Lemma promote_card_enforced_witness :
  ∃ card, c_cards promoted.1.2 !! "card_1" = Some card ∧ k_status card ∈ [Promoted; Canonical].
Proof.
  destruct promoted as [st' [out|e]] eqn:Hp; [|apply (f_equal (is_ok ∘ snd)) in Hp; vm_compute in Hp; discriminate].
  destruct (promote_card_enforced String.rev conn (Some first_lease) "promote" clock (promotion "tested") linked st' out
    linked_wf eq_refl Hp) as (card & H1 & H2 & _). exists card. by split.
Defined.

Lemma leased_transition_witness :
  let '(st', r) := again (Some first_lease) in is_ok r = false ∧ st' = demoted.1.
Proof.
  assert (cards_wf demoted.1.2) as Hw by (unfold demoted, promoted; apply demote_wf, promote_wf, linked_wf).
  pose proof (proj1 (leased_transition String.rev conn first_lease "promote" clock demoted.1 Hw) (promotion "tested")) as H.
  assert (is_ok (again (Some first_lease)).2 = false) as Hr by (vm_compute; reflexivity).
  unfold again in *. destruct (promote_card_with_runtime_writer_lease _ _ _ _ _ _ _) as [st' [out|e]]; [done|by split].
Defined.

Lemma backfill_idempotent_witness :
  ∃ r', apply_backfill true clocks all_cards backfilled.1 = (backfilled.1, Ok r') ∧ ba_created r' = 0.
Proof.
  destruct backfilled as [c' [r|e]] eqn:Hb; [|apply (f_equal (is_ok ∘ snd)) in Hb; vm_compute in Hb; discriminate].
  destruct (backfill_idempotent clocks clocks all_cards (to_backfill DomainProject) c' r (no_cards_wf _) Hb)
    as [(r' & H1 & H2 & _) _]. exists r'. by split.
Defined.

Lemma cards_consistent_witness :
  cards_wf (foldl (fun st op => card_step String.rev op st) start
    [OpCreate (card "card_1" Qi Candidate); OpLink link; OpPromote conn first_lease clock (promotion "tested");
     OpPurge no_faults None None None false]).2.
Proof.
  exact (cards_consistent String.rev (L := tail_store_laws) first_acquired.1 sources
    [OpCreate (card "card_1" Qi Candidate); OpLink link; OpPromote conn first_lease clock (promotion "tested");
     OpPurge no_faults None None None false]).
Defined.
