(* ===== verification/Utf8.v ===== *)
(** * Texts and their bytes

    Byte strings ([Text]) and lists of characters ([Chars]) are two views of one
    [&str]: the decoding of UTF-8 and back, and that the two agree. *)

From Stdlib Require Import ZArith Lia String Ascii.
From stdpp Require Import base tactics list strings numbers.
From S2P Require Import Prelude Text Chars Aaak AaakCodec.
Open Scope Z_scope.

Definition byte_char (z : Z) : ascii := ascii_of_N (Z.to_N z).

Definition utf8 (t : text) : list Z := concat (utf8_bytes <$> t).

(** [str::len] of a text. *)
Definition byte_len (t : text) : nat := length (utf8 t).

Definition encode_str (t : text) : string := string_of_list_ascii (byte_char <$> utf8 t).

(** [str::chars]; of bytes that are not UTF-8, which no [&str] holds, the end is
    dropped. *)
Fixpoint utf8_chars (l : list Z) : text :=
  match l with
  | [] => []
  | b0 :: r0 =>
      if b0 <? 128 then b0 :: utf8_chars r0
      else match r0 with
      | [] => []
      | b1 :: r1 =>
          if b0 <? 224 then (b0 - 192) * 64 + (b1 - 128) :: utf8_chars r1
          else match r1 with
          | [] => []
          | b2 :: r2 =>
              if b0 <? 240 then (b0 - 224) * 4096 + (b1 - 128) * 64 + (b2 - 128) :: utf8_chars r2
              else match r2 with
              | [] => []
              | b3 :: r3 =>
                  (b0 - 240) * 262144 + (b1 - 128) * 4096 + (b2 - 128) * 64 + (b3 - 128) :: utf8_chars r3
              end
          end
      end
  end.

Definition decode_str (s : string) : text := utf8_chars (byte_of <$> list_ascii_of_string s).

(** Code points. *)
Definition char_ok (c : Z) : Prop := 0 <= c < 1114112.

Lemma shift_parts c : 0 <= c →
  Z.shiftr c 6 = c / 64 ∧ Z.shiftr c 12 = c / 4096 ∧ Z.shiftr c 18 = c / 262144
  ∧ ∀ x, Z.land x 63 = x mod 64.
Proof.
  intros Hc. split_and!; [by rewrite Z.shiftr_div_pow2|by rewrite Z.shiftr_div_pow2|by rewrite Z.shiftr_div_pow2|].
  intros x. apply (Z.land_ones x 6). lia.
Qed.

Lemma utf8_chars_step c rest : char_ok c → utf8_chars (utf8_bytes c ++ rest) = c :: utf8_chars rest.
Proof.
  intros [H0 H1]. destruct (shift_parts c H0) as (E6 & E12 & E18 & El). unfold utf8_bytes. rewrite E6, E12, E18, !El.
  repeat (match goal with |- context [?a <? ?b] => destruct (Z.ltb_spec a b) end; simpl); try done;
    try (f_equal; Z.to_euclidean_division_equations; lia);
    exfalso; Z.to_euclidean_division_equations; lia.
Qed.

Lemma utf8_bytes_range c : char_ok c → Forall (fun b => 0 <= b < 256) (utf8_bytes c).
Proof.
  intros [H0 H1]. destruct (shift_parts c H0) as (E6 & E12 & E18 & El). unfold utf8_bytes. rewrite E6, E12, E18, !El.
  repeat (match goal with |- context [?a <? ?b] => destruct (Z.ltb_spec a b) end);
    repeat constructor; Z.to_euclidean_division_equations; lia.
Qed.

Lemma byte_of_char b : 0 <= b < 256 → byte_of (byte_char b) = b.
Proof. intros Hb. unfold byte_of, byte_char. rewrite N_ascii_embedding by lia. lia. Qed.

Lemma decode_encode t : Forall char_ok t → decode_str (encode_str t) = t.
Proof.
  intros Ht. unfold decode_str, encode_str. rewrite list_ascii_of_string_of_list_ascii, <- list_fmap_compose.
  assert (Hb : Forall (fun b => 0 <= b < 256) (utf8 t)).
  { unfold utf8. induction Ht as [|c t Hc Ht IH]; simpl; [constructor|]. apply Forall_app. split; [|done].
    by apply utf8_bytes_range. }
  rewrite (Forall_fmap_ext_1 _ id (utf8 t)) by (eapply Forall_impl; [exact byte_of_char|exact Hb]). rewrite list_fmap_id.
  clear Hb. unfold utf8. induction Ht as [|c t Hc Ht IH]; [done|]. rewrite fmap_cons, concat_cons, utf8_chars_step by done.
  by f_equal.
Qed.

(** On ASCII a character is a byte. *)
Definition is_ascii (c : Z) : bool := (0 <=? c) && (c <? 128).

Lemma is_ascii_ok c : is_ascii c = true → char_ok c.
Proof. unfold is_ascii, char_ok. rewrite andb_true_iff, Z.leb_le, Z.ltb_lt. lia. Qed.

Lemma byte_len_ascii t : Forall (fun c => is_ascii c = true) t → byte_len t = length t.
Proof.
  unfold byte_len, utf8. induction 1 as [|c t Hc Ht IH]; [done|].
  rewrite fmap_cons, concat_cons, length_app, IH.
  unfold is_ascii in Hc. apply andb_true_iff in Hc as [_ Hc]. unfold utf8_bytes. by rewrite Hc.
Qed.
