(* ===== verification/FactCheck.v ===== *)
(** * Fact checking

    [src/src/factcheck]: names in a text that are near to known ones, relations the
    text states against the triples on file, and facts that have expired.
    Confidences are exact rationals, as in the drawers. *)

From Stdlib Require Import ZArith QArith Qabs Lia String Ascii.
From stdpp Require Import base tactics list relations gmap strings numbers sets.
From S2P Require Import Prelude Order Text Float Rfc3339 Sqlite Drawer DrawerStore Chars Aaak AaakCodec Utf8.
Close Scope Q_scope.

(** ** Edit distance

    [edit_distance] of [names.rs]: the two-row table, with reads and writes out of
    range as panics ([None]), and that it computes the least number of insertions,
    deletions and substitutions of bytes. *)

Module EditDistance.
Local Open Scope list_scope.
Local Open Scope nat_scope.

(** *** The routine *)

(** [row[i] = v]. *)
Definition row_set (i v : nat) (row : list nat) : option (list nat) :=
  if decide (i < length row) then Some (<[i := v]> row) else None.

Section table.
Context {A : Type} `{EqDecision A}.

Definition cost (x y : A) : nat := if decide (x = y) then 0 else 1.

(** The loop over the bytes of [b], from index [j]. *)
Fixpoint fill_row (x : A) (j : nat) (b : list A) (prev curr : list nat) : option (list nat) :=
  match b with
  | [] => Some curr
  | y :: rest =>
      above ← prev !! (j + 1);
      left_ ← curr !! j;
      diagonal ← prev !! j;
      curr ← row_set (j + 1) (Nat.min (Nat.min (above + 1) (left_ + 1)) (diagonal + cost x y)) curr;
      fill_row x (S j) rest prev curr
  end.

(** The loop over the bytes of [a], from index [i]; the rows change places after
    each turn. *)
Fixpoint fill_rows (i : nat) (a b : list A) (prev curr : list nat) : option (list nat) :=
  match a with
  | [] => Some prev
  | x :: rest =>
      curr ← row_set 0 (i + 1) curr;
      curr ← fill_row x 0 b prev curr;
      fill_rows (S i) rest b curr prev
  end.

Definition table_distance (a b : list A) : option nat :=
  let '(a, b) := if length a <? length b then (b, a) else (a, b) in
  match b with
  | [] => Some (length a)
  | _ =>
      prev ← fill_rows 0 a b (seq 0 (length b + 1)) (replicate (length b + 1) 0);
      prev !! length b
  end.

(** *** What it should compute *)

(** One edit: a substitution, an insertion or a deletion. *)
Inductive edit : list A → list A → Prop :=
  | edit_substitute u x y v : edit (u ++ x :: v) (u ++ y :: v)
  | edit_insert u y v : edit (u ++ v) (u ++ y :: v)
  | edit_delete u x v : edit (u ++ x :: v) (u ++ v).

(** [n] edits lead from [a] to [b], and no fewer do. *)
Definition least_edits (a b : list A) (n : nat) : Prop :=
  nsteps edit n a b ∧ ∀ m, nsteps edit m a b → n <= m.

(** The recurrence, from the front. *)
Fixpoint lev (a : list A) : list A → nat :=
  match a with
  | [] => length
  | x :: a' =>
      fix row (b : list A) : nat :=
        match b with
        | [] => S (length a')
        | y :: b' => Nat.min (Nat.min (lev a' b + 1) (row b' + 1)) (lev a' b' + cost x y)
        end
  end.

Lemma lev_cons x a y b :
  lev (x :: a) (y :: b)
  = Nat.min (Nat.min (lev a (y :: b) + 1) (lev (x :: a) b + 1)) (lev a b + cost x y).
Proof. done. Qed.

Lemma lev_nil_r a : lev a [] = length a.
Proof. by destruct a. Qed.

Lemma cost_le x y : cost x y <= 1.
Proof. unfold cost. case_decide; lia. Qed.

(** *** Edits reach the distance *)
Lemma edit_cons x a b : edit a b → edit (x :: a) (x :: b).
Proof.
  intros [u y z v|u y v|u y v]; [apply (edit_substitute (x :: u))|apply (edit_insert (x :: u))|
    apply (edit_delete (x :: u))].
Qed.

Lemma edits_cons x n a b : nsteps edit n a b → nsteps edit n (x :: a) (x :: b).
Proof. induction 1; econstructor; eauto using edit_cons. Qed.

Lemma edits_to_nil a : nsteps edit (length a) a [].
Proof. induction a as [|x a IH]; simpl; econstructor; [apply (edit_delete [])|done]. Qed.

Lemma edits_from_nil b : nsteps edit (length b) [] b.
Proof.
  induction b as [|y b IH]; simpl; [constructor|]. eapply nsteps_r; [exact IH|apply (edit_insert [])].
Qed.

Lemma edits_substitute n x y a b : nsteps edit n a b → nsteps edit (n + cost x y) (x :: a) (y :: b).
Proof.
  intros Hs. unfold cost. case_decide as Hxy.
  - subst. rewrite Nat.add_0_r. by apply edits_cons.
  - rewrite Nat.add_1_r. eapply nsteps_l; [apply (edit_substitute [])|by apply edits_cons].
Qed.

Lemma lev_reached a b : nsteps edit (lev a b) a b.
Proof.
  revert b. induction a as [|x a IHa]; intros b; [apply edits_from_nil|].
  induction b as [|y b IHb]; [apply (edits_to_nil (x :: a))|]. rewrite lev_cons.
  assert (Hd : nsteps edit (lev a (y :: b) + 1) (x :: a) (y :: b)).
  { rewrite Nat.add_1_r. eapply nsteps_l; [apply (edit_delete [])|apply IHa]. }
  assert (Hi : nsteps edit (lev (x :: a) b + 1) (x :: a) (y :: b)).
  { rewrite Nat.add_1_r. eapply nsteps_r; [exact IHb|apply (edit_insert [])]. }
  pose proof (edits_substitute _ x y _ _ (IHa b)) as Hs.
  destruct (Nat.min_dec (Nat.min (lev a (y :: b) + 1) (lev (x :: a) b + 1)) (lev a b + cost x y)) as [->| ->];
    [|done].
  by destruct (Nat.min_dec (lev a (y :: b) + 1) (lev (x :: a) b + 1)) as [->| ->].
Qed.

(** *** No fewer edits do *)
Lemma lev_insert_r a y b : lev a (y :: b) <= S (lev a b).
Proof. destruct a as [|x a]; [done|]. rewrite lev_cons. lia. Qed.

Lemma lev_drop x a b : lev a b <= S (lev (x :: a) b).
Proof.
  induction b as [|y b IH]; [rewrite lev_nil_r; simpl; lia|]. rewrite lev_cons.
  pose proof (lev_insert_r a y b). lia.
Qed.

Lemma lev_add x a b : lev (x :: a) b <= S (lev a b).
Proof. destruct b as [|y b]; [rewrite !lev_nil_r; simpl; lia|]. rewrite lev_cons. lia. Qed.

Lemma lev_swap x y a b : lev (x :: a) b <= S (lev (y :: a) b).
Proof.
  induction b as [|z b IH]; [simpl; lia|]. rewrite !lev_cons. pose proof (cost_le x z). lia.
Qed.

Lemma lev_under u a a' :
  (∀ b, lev a b <= S (lev a' b)) → ∀ b, lev (u :: a) b <= S (lev (u :: a') b).
Proof.
  intros Ha b. induction b as [|y b IH].
  - specialize (Ha []). rewrite !lev_nil_r in Ha. simpl. lia.
  - rewrite !lev_cons. pose proof (Ha (y :: b)). pose proof (Ha b). lia.
Qed.

Lemma lev_edit a a' b : edit a a' → lev a b <= S (lev a' b).
Proof.
  intros He. revert b.
  destruct He as [u x y v|u y v|u x v]; (induction u as [|z u IH]; [|by apply lev_under]); intros b; simpl app;
    [apply lev_swap|apply lev_drop|apply lev_add].
Qed.

Lemma lev_self a : lev a a = 0.
Proof. induction a as [|x a IH]; [done|]. rewrite lev_cons, IH. unfold cost. rewrite decide_True by done. lia. Qed.

Lemma lev_least a b : least_edits a b (lev a b).
Proof.
  split; [apply lev_reached|]. intros m Hm.
  induction Hm as [a|m a a' b He Hs IH]; [by rewrite lev_self|]. pose proof (lev_edit a a' b He). lia.
Qed.

(** *** Edits backwards *)
Lemma edit_sym a b : edit a b → edit b a.
Proof. intros []; constructor. Qed.

Lemma edits_sym n a b : nsteps edit n a b → nsteps edit n b a.
Proof. induction 1; [constructor|eapply nsteps_r; eauto using edit_sym]. Qed.

Lemma edit_reverse a b : edit a b → edit (reverse a) (reverse b).
Proof. intros []; rewrite ?reverse_app, ?reverse_cons, <- ?app_assoc; constructor. Qed.

Lemma edits_reverse n a b : nsteps edit n a b → nsteps edit n (reverse a) (reverse b).
Proof. induction 1; econstructor; eauto using edit_reverse. Qed.

Lemma least_edits_sym a b n : least_edits a b n → least_edits b a n.
Proof. intros [Hs Hl]. split; [by apply edits_sym|]. intros m Hm. by apply Hl, edits_sym. Qed.

Lemma least_edits_reverse a b n : least_edits (reverse a) (reverse b) n → least_edits a b n.
Proof.
  intros [Hs Hl]. split.
  - apply edits_reverse in Hs. by rewrite !reverse_involutive in Hs.
  - intros m Hm. by apply Hl, edits_reverse.
Qed.

Lemma least_edits_unique a b n m : least_edits a b n → least_edits a b m → n = m.
Proof. intros [Hn Hn'] [Hm Hm']. specialize (Hn' _ Hm). specialize (Hm' _ Hn). lia. Qed.

Lemma no_edits a b : nsteps edit 0 a b → a = b.
Proof. by inversion 1. Qed.

(** *** The table holds the distances of the prefixes *)
Definition row_of (a b : list A) (n : nat) (row : list nat) : Prop :=
  ∀ j, j <= n → row !! j = Some (lev a (reverse (take j b))).

Lemma row_set_lookup i v row : i < length row →
  row_set i v row = Some (<[i := v]> row).
Proof. intros Hi. unfold row_set. by rewrite decide_True. Qed.

Lemma fill_row_spec x ra b done rest prev curr :
  b = done ++ rest → row_of ra b (length b) prev → row_of (x :: ra) b (length done) curr →
  length curr = S (length b) →
  ∃ curr', fill_row x (length done) rest prev curr = Some curr' ∧ length curr' = S (length b)
    ∧ row_of (x :: ra) b (length b) curr'.
Proof.
  intros Hb Hp. revert done curr Hb. induction rest as [|y rest IH]; intros done curr Hb Hc Hlen; simpl.
  { exists curr. rewrite app_nil_r in Hb. subst. done. }
  assert (Hn : length b = length done + S (length rest)) by (rewrite Hb, length_app; done).
  assert (Ht : take (length done + 1) b = take (length done) b ++ [y]).
  { rewrite Nat.add_1_r. apply take_S_r. by rewrite Hb, list_lookup_middle. }
  rewrite (Hp (length done + 1)) by lia. simpl. rewrite (Hc (length done)) by lia. simpl.
  rewrite (Hp (length done)) by lia. simpl. rewrite row_set_lookup by lia. simpl.
  set (cell := Nat.min _ _).
  assert (Hcell : cell = lev (x :: ra) (reverse (take (length done + 1) b))).
  { unfold cell. by rewrite Ht, reverse_snoc, lev_cons. }
  destruct (IH (done ++ [y]) (<[length done + 1 := cell]> curr)) as (curr' & E & Hl & Hr).
  - by rewrite <- app_assoc.
  - rewrite length_app. simpl. intros j Hj. destruct (decide (j = length done + 1)) as [->|Hne].
    + rewrite list_lookup_insert_eq by lia. by rewrite Hcell.
    + rewrite list_lookup_insert_ne by lia. apply Hc. lia.
  - by rewrite length_insert.
  - exists curr'. rewrite length_app, Nat.add_1_r in E. by rewrite E.
Qed.

Lemma fill_rows_spec b rest i ra prev curr :
  length ra = i → row_of ra b (length b) prev → length prev = S (length b) → length curr = S (length b) →
  ∃ row, fill_rows i rest b prev curr = Some row ∧ row_of (reverse rest ++ ra) b (length b) row.
Proof.
  revert i ra prev curr. induction rest as [|x rest IH]; intros i ra prev curr Hi Hp Hlp Hlc; simpl.
  { by exists prev. }
  rewrite row_set_lookup by lia. simpl.
  destruct (fill_row_spec x ra b [] b prev (<[0 := i + 1]> curr)) as (curr' & E & Hl & Hr); try done.
  - intros j Hj. simpl in Hj. assert (j = 0) as -> by lia. rewrite list_lookup_insert_eq by lia.
    simpl. f_equal. lia.
  - by rewrite length_insert.
  - cbn [length] in E. rewrite E. simpl. destruct (IH (S i) (x :: ra) curr' prev) as (row & E' & Hr'); simpl; try lia; try done.
    exists row. rewrite reverse_cons, <- app_assoc. done.
Qed.

Lemma first_row b : row_of [] b (length b) (seq 0 (length b + 1)).
Proof.
  intros j Hj. rewrite lookup_seq_lt by lia. simpl. f_equal. rewrite length_reverse, length_take. lia.
Qed.

Lemma table_distance_least a b : ∃ n, table_distance a b = Some n ∧ least_edits a b n.
Proof.
  assert (H : ∀ a b, ∃ n, match b with
      | [] => Some (length a)
      | _ => prev ← fill_rows 0 a b (seq 0 (length b + 1)) (replicate (length b + 1) 0); prev !! length b
      end = Some n ∧ least_edits a b n).
  { clear a b. intros a b. exists (lev (reverse a) (reverse b)). split; [|apply least_edits_reverse, lev_least].
    destruct (fill_rows_spec b a 0 [] (seq 0 (length b + 1)) (replicate (length b + 1) 0)) as (row & E & Hr);
      [done|apply first_row|rewrite length_seq; lia|rewrite length_replicate; lia|].
    destruct b as [|y b]; [by rewrite lev_nil_r, length_reverse|]. rewrite E. simpl mbind. rewrite Hr by done.
    by rewrite app_nil_r, take_ge. }
  unfold table_distance. destruct (length a <? length b); [|apply H].
  destruct (H b a) as (n & E & Hn). exists n. split; [exact E|by apply least_edits_sym].
Qed.
End table.

(** *** On texts *)
Definition bytes_of (s : string) : list ascii := list_ascii_of_string s.

(** The bytes of the two texts; [None] would be an index out of bounds. *)
Definition edit_distance (a b : string) : option nat := table_distance (bytes_of a) (bytes_of b).

Example distance_bob : edit_distance "Bob" "Bobby" = Some 2. Proof. reflexivity. Qed.
Example distance_kitten : edit_distance "kitten" "sitting" = Some 3. Proof. reflexivity. Qed.
Example distance_empty : edit_distance "" "Alice" = Some 5. Proof. reflexivity. Qed.

(** The edit distance never reads out of its rows and is the least number of
    insertions, deletions and substitutions of single bytes that lead from one text
    to the other; so it is symmetric, zero exactly on equal texts, and obeys the
    triangle inequality. *)
Theorem edit_distance_least a b :
  ∃ n, edit_distance a b = Some n ∧ least_edits (bytes_of a) (bytes_of b) n
    ∧ edit_distance b a = Some n ∧ (n = 0 ↔ a = b)
    ∧ ∀ c m k, edit_distance a c = Some m → edit_distance c b = Some k → n <= m + k.
Proof.
  unfold edit_distance. destruct (table_distance_least (bytes_of a) (bytes_of b)) as (n & E & Hn).
  exists n. split_and!; [done|done| | |].
  - destruct (table_distance_least (bytes_of b) (bytes_of a)) as (n' & E' & Hn').
    by rewrite (least_edits_unique _ _ _ _ Hn (least_edits_sym _ _ _ Hn')).
  - destruct Hn as [Hs Hl]. split.
    + intros ->. apply no_edits in Hs. apply (f_equal string_of_list_ascii) in Hs. unfold bytes_of in Hs.
      by rewrite !string_of_list_ascii_of_string in Hs.
    + intros ->. specialize (Hl 0 ltac:(constructor)). lia.
  - intros c m k Em Ek. destruct (table_distance_least (bytes_of a) (bytes_of c)) as (m' & Em' & Hm).
    destruct (table_distance_least (bytes_of c) (bytes_of b)) as (k' & Ek' & Hk).
    rewrite Em in Em'. rewrite Ek in Ek'. simplify_eq. apply Hn. eapply nsteps_trans; [apply Hm|apply Hk].
Qed.

End EditDistance.
Import EditDistance.
Open Scope Z_scope.
Open Scope string_scope.
Open Scope rust_scope.

(** ** Relations stated by a text *)

Definition TRAILING_PUNCT : list Z := [46; 44; 59; 58; 63; 33; 41; 93; 34; 39].

Definition trim_trailing_punct (word : text) : text :=
  reverse (drop_while (fun c => bool_decide (c ∈ TRAILING_PUNCT)) (reverse word)).

(** [str::strip_suffix]. *)
Definition strip_suffix (suffix t : text) : option text :=
  reverse <$> strip_prefix (reverse suffix) (reverse t).

Definition strip_possessive (word : text) : text * bool :=
  let trimmed := trim_trailing_punct word in
  match strip_suffix (chars_of "'s") trimmed with
  | Some stem => (stem, true)
  | None => (trimmed, false)
  end.

Definition is_capitalized (t : text) : bool :=
  match t with c :: _ => is_ascii_uppercase c | [] => false end.

Definition is_proper_noun (word : text) : bool :=
  let stripped := trim_trailing_punct word in
  (3 <=? byte_len stripped)%nat && forallb is_ascii_alphabetic stripped && is_capitalized stripped.

Definition is_lowercase_word (word : text) : bool :=
  let stripped := trim_trailing_punct word in
  negb (is_nil stripped) && forallb is_ascii_lowercase stripped.

Definition is_word (literal : string) (word : text) : bool :=
  bool_decide (trim_trailing_punct word = chars_of literal).

Abbreviation statement := (string * string * string)%type.

Definition name_of (word : text) : string := encode_str (trim_trailing_punct word).

Section checker.
Context `{StoreEnv} {CE : CodecEnv}.

Definition role_of (role : text) : string := encode_str (to_lowercase role) +:+ "_of".

(** The words from index [i] on are [words]. *)
Definition try_possessive (words : list text) : option statement :=
  match words with
  | subject :: verb :: owner :: role :: _ =>
      if negb (is_proper_noun subject) then None
      else if negb (is_word "is" verb) then None
      else
        let '(stem, has_apos_s) := strip_possessive owner in
        if negb has_apos_s || negb (is_proper_noun stem) then None
        else
          let role := trim_trailing_punct role in
          if negb (is_lowercase_word role) then None
          else Some (name_of subject, role_of role, encode_str stem)
  | _ => None
  end.

Definition try_works_at (words : list text) : option statement :=
  match words with
  | subject :: verb :: preposition :: object :: _ =>
      if negb (is_proper_noun subject) then None
      else if negb (is_word "works" verb) && negb (is_word "work" verb) then None
      else if negb (is_word "at" preposition) && negb (is_word "for" preposition) then None
      else if negb (is_proper_noun object) then None
      else Some (name_of subject, "works_at", name_of object)
  | _ => None
  end.

Definition try_role_of (words : list text) : option statement :=
  match words with
  | subject :: verb :: article :: w3 :: w4 :: rest =>
      let tail := if is_word "the" article || is_word "a" article || is_word "an" article
                  then w3 :: w4 :: rest else article :: w3 :: w4 :: rest in
      match tail with
      | role :: of_ :: object :: _ =>
          let role := trim_trailing_punct role in
          if negb (is_proper_noun subject) || negb (is_word "is" verb) then None
          else if negb (is_lowercase_word role) || negb (is_word "of" of_) || negb (is_proper_noun object) then None
          else Some (name_of subject, role_of role, name_of object)
      | _ => None
      end
  | _ => None
  end.

Definition push_unique (bucket : list statement) (found : option statement) : list statement :=
  match found with
  | Some t => if bool_decide (t ∈ bucket) then bucket else (bucket ++ [t])%list
  | None => bucket
  end.

Fixpoint extract_from (words : list text) (triples : list statement) : list statement :=
  match words with
  | [] => triples
  | _ :: rest =>
      let triples := push_unique triples (try_possessive words) in
      let triples := push_unique triples (try_works_at words) in
      let triples := push_unique triples (try_role_of words) in
      extract_from rest triples
  end.

Definition extract_triples (t : text) : list statement := extract_from (split_whitespace t) [].

(** ** Issues *)
Inductive FactIssue :=
  | SimilarNameConflict (mentioned known_entity : string) (edit_distance : nat)
  | RelationContradiction (subject text_claim kg_fact triple_id : string) (source_drawer : option string)
      (new_confidence existing_confidence confidence_gap : Q)
  | StaleFact (subject predicate object valid_to triple_id : string) (source_drawer : option string).

Inductive FactCheckError :=
  | FactDb (e : StoreError)
  | InvalidScope (message : string)
  | InvalidNow (message : string).

Definition validate_scope (wing room : option string) : result (option (string * option string)) FactCheckError :=
  match Text.trim <$> wing, Text.trim <$> room with
  | None, Some _ => Err (InvalidScope "room requires wing")
  | Some "", _ => Err (InvalidScope "wing must not be empty")
  | _, Some "" => Err (InvalidScope "room must not be empty")
  | Some wing, room => Ok (Some (wing, room))
  | None, None => Ok None
  end.

(** Without a time given, the clock's seconds, or 0 before the epoch. *)
Definition resolve_now (clock_secs : Z) (now : option string) : result Z FactCheckError :=
  match now with
  | Some raw =>
      match parse_rfc3339 raw with
      | None => Err (InvalidNow ("expected RFC3339 timestamp, got `" +:+ raw +:+ "`"))
      | Some ts =>
          match try_u64 ts with
          | Some secs => Ok secs
          | None => Err (InvalidNow ("timestamp before Unix epoch is unsupported: " +:+ raw))
          end
      end
  | None => Ok (Z.max 0 clock_secs)
  end.

(** ** Names *)

Definition long_enough (entity : text) : bool := (3 <=? byte_len entity)%nat.

Definition entities_of (t : text) : list string := encode_str <$> List.filter long_enough (extract_entities t).

Definition candidates_from_text (t : text) : list string := entities_of t.

Definition is_name_like (value : string) : bool :=
  let t := decode_str value in
  (3 <=? String.length value)%nat && is_capitalized t && forallb is_ascii_alphabetic t.

(** [importance DESC, CAST(added_at AS INTEGER) DESC, id DESC]. *)
Definition top_first (a b : string * Row) : comparison :=
  then_with (Z.compare (r_importance b.2) (r_importance a.2))
    (then_with (Z.compare (cast_integer (r_added_at b.2)) (cast_integer (r_added_at a.2)))
       (String.compare b.1 a.1)).

Definition top_drawers (db : Db) (limit : nat) : result (list Drawer) StoreError :=
  decode_rows (take limit (sort_by (fun a b => not_gt (top_first a b))
    (List.filter (fun e => is_active e.2) (map_to_list (db_drawers db))))).

Definition in_scope (scope : option (string * option string)) (d : Drawer) : bool :=
  match scope with
  | Some (wing, room) =>
      (d_wing d =? wing)
      && match room with Some r => bool_decide (d_room d = Some r) | None => true end
  | None => true
  end.

(** The set of known names; [into_iter] yields it in an order of its own. *)
Definition known_set (db : Db) (now : string) (drawers : list Drawer) (scope : option (string * option string))
    : gset string :=
  let of_triple (e : string * Triple) := List.filter is_name_like [t_subject e.2; t_object e.2] in
  let of_drawer d := if in_scope scope d then entities_of (decode_str (d_content d)) else [] in
  list_to_set (concat (of_triple <$> query_triples db now None None None false)
               ++ concat (of_drawer <$> drawers)).

Definition query_known_entities (into_iter : gset string → list string) (db : Db) (now : string)
    (scope : option (string * option string)) : result (list string) StoreError :=
  let? drawers := top_drawers db 50 in
  Ok (into_iter (known_set db now drawers scope)).

(** [edit_distance] returns on every pair of texts ([table_distance_least]). *)
Definition distance (a b : string) : nat := default 0%nat (edit_distance a b).

Fixpoint closest (mentioned : string) (known : list string) (best : option (string * nat)) : option (string * nat) :=
  match known with
  | [] => best
  | k :: rest =>
      if k =? mentioned then None
      else
        let d := distance mentioned k in
        let nearer := match best with Some (_, bd) => (d <? bd)%nat | None => true end in
        closest mentioned rest (if (d <=? 2)%nat && nearer then Some (k, d) else best)
  end.

Definition name_conflict (known : list string) (mentioned : string) : option FactIssue :=
  match closest mentioned known None with
  | Some (k, d) => Some (SimilarNameConflict mentioned k d)
  | None => None
  end.

Definition detect_similar_name_conflicts (text_names known : list string) : list FactIssue :=
  omap (name_conflict known) text_names.

(** ** Contradictions and expired facts *)
Definition INCOMPATIBLE_PREDICATES : list (string * string) :=
  [("husband_of", "brother_of"); ("husband_of", "father_of"); ("husband_of", "son_of");
   ("wife_of", "sister_of"); ("wife_of", "mother_of"); ("wife_of", "daughter_of");
   ("mother_of", "wife_of"); ("father_of", "husband_of"); ("employee_of", "founder_of");
   ("employee_of", "owner_of"); ("reports_to", "manages"); ("subordinate_of", "manager_of")].

Definition are_incompatible (p1 p2 : string) : bool :=
  existsb (fun '(a, b) => (a =? p1) && (b =? p2) || (a =? p2) && (b =? p1)) INCOMPATIBLE_PREDICATES.

Definition triple_confidence (db : Db) (t : Triple) : result Q StoreError :=
  match t_source_drawer t with
  | Some source =>
      let? found := get_drawer db source in
      Ok (match found with Some d => d_confidence d | None => t_confidence t end)
  | None => Ok (t_confidence t)
  end.

(** A loop that pushes what each turn finds and stops at the first error. *)
Fixpoint collect {A B E} (f : A → result (list B) E) (l : list A) : result (list B) E :=
  match l with
  | [] => Ok []
  | x :: rest => let? found := f x in let? more := collect f rest in Ok (found ++ more)%list
  end.

(** The difference of two floats, as a float. *)
Definition confidence_gap (new_confidence existing_confidence : Q) : Q :=
  Qabs (q_of_float (f64_sub (f64_of_q new_confidence) (f64_of_q existing_confidence))).

Definition contradiction (db : Db) (new_confidence : Q) (claim : statement) (kg : string * Triple)
    : result (list FactIssue) StoreError :=
  let '(subject, predicate, _) := claim in
  if are_incompatible predicate (t_predicate kg.2) then
    let? existing := triple_confidence db kg.2 in
    Ok [RelationContradiction subject predicate (t_predicate kg.2) kg.1 (t_source_drawer kg.2)
          new_confidence existing (confidence_gap new_confidence existing)]
  else Ok [].

Definition detect_relation_contradictions (db : Db) (now : string) (claims : list statement) (new_confidence : Q)
    : result (list FactIssue) StoreError :=
  collect (fun claim : statement =>
    let '(subject, _, object) := claim in
    collect (contradiction db new_confidence claim)
      (query_triples db now (Some subject) None (Some object) true)) claims.

Definition stale (now_unix_secs : Z) (kg : string * Triple) : option FactIssue :=
  match t_valid_to kg.2 with
  | None => None
  | Some valid_to =>
      match parse_uint u64_max (decode_str valid_to) with
      | None => None
      | Some expiry_secs =>
          if (expiry_secs <? now_unix_secs)%Z
          then Some (StaleFact (t_subject kg.2) (t_predicate kg.2) (t_object kg.2) valid_to kg.1 (t_source_drawer kg.2))
          else None
      end
  end.

Definition detect_stale_facts (db : Db) (now : string) (claims : list statement) (now_unix_secs : Z) : list FactIssue :=
  concat ((fun '(subject, predicate, object) =>
    omap (stale now_unix_secs)
      (query_triples db now (Some subject) (Some predicate) (Some object) false)) <$> claims).

(** ** The check *)
Record FactCheckReport (R : Type) := MkFactReport {
  fr_issues : list FactIssue;
  fr_checked_entities : list string;
  fr_kg_triples_scanned : Z;
  fr_repair_packages : list R;
}.

(** [now] is SQLite's clock, as text; the packages of the repair module are given. *)
Definition check_with_confidence {R} (into_iter : gset string → list string) (repair : list R) (now : string)
    (t : text) (db : Db) (now_unix_secs : Z) (scope : option (string * option string)) (new_confidence : Q)
    : result (FactCheckReport R) FactCheckError :=
  let store {A} (r : result A StoreError) := match r with Ok a => Ok a | Err e => Err (FactDb e) end in
  let? scope := match scope with
                | Some (wing, room) => validate_scope (Some wing) room
                | None => Ok None
                end in
  let text_names := candidates_from_text t in
  let? known := store (query_known_entities into_iter db now scope) in
  let text_triples := extract_triples t in
  let? contradictions := store (detect_relation_contradictions db now text_triples new_confidence) in
  Ok (MkFactReport R
        (detect_similar_name_conflicts text_names known ++ contradictions
         ++ detect_stale_facts db now text_triples now_unix_secs)%list
        text_names (Z.of_nat (size (db_triples db))) repair).

Definition check {R} (into_iter : gset string → list string) (repair : list R) (now : string)
    (t : text) (db : Db) (now_unix_secs : Z) (scope : option (string * option string))
    : result (FactCheckReport R) FactCheckError :=
  check_with_confidence into_iter repair now t db now_unix_secs scope (default_confidence AgentInference).
End checker.
