(* ===== verification/FactCheckSafety.v ===== *)
(** * What the fact check reports

    Near names, contradictions and expired facts: each is reported exactly when the
    text and the tables give cause, and the sentences the check is made for are
    understood. *)

From Stdlib Require Import ZArith QArith Qabs Lia String Ascii.
From stdpp Require Import base tactics list gmap strings numbers sets.
From S2P Require Import Prelude Order Text Drawer DrawerStore Chars Aaak AaakCodec Utf8 FactCheck.
Import EditDistance.
Close Scope Q_scope.
Open Scope Z_scope.
Open Scope string_scope.
Open Scope rust_scope.

(** ** Names *)
Lemma distance_least a b : least_edits (bytes_of a) (bytes_of b) (distance a b).
Proof.
  unfold distance, edit_distance. by destruct (table_distance_least (bytes_of a) (bytes_of b)) as (n & -> & Hn).
Qed.

(** The nearest of the names in [seen] at a distance of two at most. *)
Definition nearest (mentioned : string) (seen : list string) (best : option (string * nat)) : Prop :=
  match best with
  | None => ∀ k, k ∈ seen → (2 < distance mentioned k)%nat
  | Some (k, d) => k ∈ seen ∧ d = distance mentioned k ∧ (d <= 2)%nat
                   ∧ ∀ k', k' ∈ seen → (d <= distance mentioned k')%nat
  end.

Lemma nearest_step m k seen best :
  nearest m seen best →
  nearest m (seen ++ [k])
    (if (distance m k <=? 2)%nat && match best with Some (_, bd) => (distance m k <? bd)%nat | None => true end
     then Some (k, distance m k) else best).
Proof.
  intros Hb. destruct (Nat.leb_spec (distance m k) 2) as [Hd|Hd]; simpl.
  - destruct best as [[k0 d0]|]; simpl in *.
    + destruct Hb as (Hin & -> & Hle & Hmin). destruct (Nat.ltb_spec (distance m k) (distance m k0)); simpl.
      * split_and!; [set_solver|done|done|]. intros k' [Hk' | ->%list_elem_of_singleton]%elem_of_app; [|done].
        specialize (Hmin k' Hk'). lia.
      * split_and!; [set_solver|done|done|]. intros k' [Hk' | ->%list_elem_of_singleton]%elem_of_app; auto.
    + split_and!; [set_solver|done|done|]. intros k' [Hk' | ->%list_elem_of_singleton]%elem_of_app; [|done].
      specialize (Hb k' Hk'). lia.
  - destruct best as [[k0 d0]|]; simpl in *.
    + destruct Hb as (Hin & -> & Hle & Hmin). split_and!; [set_solver|done|done|].
      intros k' [Hk' | ->%list_elem_of_singleton]%elem_of_app; [auto|lia].
    + intros k' [Hk' | ->%list_elem_of_singleton]%elem_of_app; auto.
Qed.

Lemma closest_spec m known seen best :
  nearest m seen best →
  if bool_decide (m ∈ known) then closest m known best = None
  else nearest m (seen ++ known) (closest m known best).
Proof.
  revert seen best. induction known as [|k known IH]; intros seen best Hb.
  { rewrite bool_decide_false by set_solver. by rewrite app_nil_r. }
  cbn [closest]. destruct (String.eqb_spec k m) as [->|Hk].
  { by rewrite bool_decide_true by set_solver. }
  specialize (IH (seen ++ [k])%list _ (nearest_step m k seen best Hb)). rewrite <- app_assoc in IH.
  case_bool_decide as Hm; case_bool_decide as Hm'; try set_solver.
Qed.

Definition conflict_of (names known : list string) (m k : string) (n : nat) : Prop :=
  m ∈ names ∧ (m ∉ known) ∧ k ∈ known ∧ least_edits (bytes_of m) (bytes_of k) n ∧ (n <= 2)%nat
  ∧ ∀ k' n', k' ∈ known → least_edits (bytes_of m) (bytes_of k') n' → (n <= n')%nat.

Lemma near_distance m k n : least_edits (bytes_of m) (bytes_of k) n → n = distance m k.
Proof. intros Hn. eapply least_edits_unique; [exact Hn|apply distance_least]. Qed.

(** Only conflicts are reported, and one for each name that has one. *)
Lemma name_conflicts_exact names known :
  (∀ issue, issue ∈ detect_similar_name_conflicts names known →
     ∃ m k n, issue = SimilarNameConflict m k n ∧ conflict_of names known m k n)
  ∧ ∀ m k n, conflict_of names known m k n →
     ∃ k', SimilarNameConflict m k' n ∈ detect_similar_name_conflicts names known.
Proof.
  unfold detect_similar_name_conflicts. split.
  - intros issue (m & Hm & E)%list_elem_of_omap. unfold name_conflict in E.
    pose proof (closest_spec m known [] None ltac:(simpl; set_solver)) as Hc.
    destruct (closest m known None) as [[k d]|]; simplify_eq. exists m, k, d. split; [done|].
    case_bool_decide as Hk; [done|]. destruct Hc as (Hin & -> & Hle & Hmin).
    split_and!; [done|done|done|apply distance_least|done|].
    intros k' n' Hk' ->%near_distance. by apply Hmin.
  - intros m k n (Hm & Hnk & Hk & Hn & Hle & Hmin). apply near_distance in Hn as ->.
    pose proof (closest_spec m known [] None ltac:(simpl; set_solver)) as Hc.
    rewrite bool_decide_false in Hc by done. destruct (closest m known None) as [[k' d]|] eqn:E.
    + destruct Hc as (Hin & -> & _ & Hmin'). exists k'. apply list_elem_of_omap. exists m. split; [done|].
      unfold name_conflict. rewrite E. do 2 f_equal. apply Nat.le_antisymm.
      * by apply Hmin'.
      * apply (Hmin k'); [done|apply distance_least].
    + specialize (Hc k Hk). lia.
Qed.

(** ** Queries and loops *)
Definition active_at (now : string) (t : Triple) : Prop :=
  match t_valid_to t with None => True | Some until => String.ltb now until = true end.

Section reports.
Context `{StoreEnv} {CE : CodecEnv}.

Definition asked (o : option string) (s : string) : Prop := match o with Some v => s = v | None => True end.

Lemma query_triples_iff db now s p o active id t :
  (id, t) ∈ query_triples db now s p o active ↔
  db_triples db !! id = Some t ∧ asked s (t_subject t) ∧ asked p (t_predicate t) ∧ asked o (t_object t)
  ∧ (active = true → active_at now t).
Proof.
  unfold query_triples, active_at. rewrite elem_of_sort_by, list_elem_of_In, filter_In, <- list_elem_of_In, elem_of_map_to_list.
  cbn [snd]. rewrite !andb_true_iff.
  assert (Ha : ∀ o s, match o with Some v => s =? v | None => true end = true ↔ asked o s).
  { intros [v|] x; simpl; [apply String.eqb_eq|done]. }
  rewrite !Ha. destruct active; simpl; [destruct (t_valid_to t); tauto|intuition done].
Qed.

Lemma collect_elem {A B E} (f : A → result (list B) E) l out :
  collect f l = Ok out → ∀ y, y ∈ out ↔ ∃ x r, x ∈ l ∧ f x = Ok r ∧ y ∈ r.
Proof.
  revert out. induction l as [|x l IH]; intros out; simpl; [intros [= <-] y; set_solver|].
  destruct (f x) as [r|e] eqn:E1; [|done]. destruct (collect f l) as [rs|e] eqn:E2; [|done]. intros [= <-] y.
  rewrite elem_of_app, (IH rs eq_refl). split.
  - intros [Hy|(x' & r' & Hx & E0 & Hy)]; [exists x, r|exists x', r']; rewrite elem_of_cons; auto.
  - intros (x' & r' & [->|Hx]%elem_of_cons & E0 & Hy); [left; congruence|right; eauto].
Qed.

(** ** Contradictions *)
Lemma contradictions_exact db now claims confidence out :
  detect_relation_contradictions db now claims confidence = Ok out →
  ∀ issue, issue ∈ out ↔ ∃ s claim o id t existing,
    (s, claim, o) ∈ claims ∧ db_triples db !! id = Some t ∧ t_subject t = s ∧ t_object t = o ∧ active_at now t
    ∧ are_incompatible claim (t_predicate t) = true ∧ triple_confidence db t = Ok existing
    ∧ issue = RelationContradiction s claim (t_predicate t) id (t_source_drawer t) confidence existing
                (confidence_gap confidence existing).
Proof.
  unfold detect_relation_contradictions. intros E issue. rewrite (collect_elem _ _ _ E). split.
  - intros ([[s claim] o] & r & Hc & Er & Hi). apply (collect_elem _ _ _ Er) in Hi as ([id t] & r' & Hq & Ec & Hi).
    apply query_triples_iff in Hq as (Ht & Hs & _ & Ho & Ha). unfold contradiction in Ec. cbn [fst snd] in Ec.
    destruct (are_incompatible claim (t_predicate t)) eqn:Ei; [|injection Ec as <-; by apply elem_of_nil in Hi].
    destruct (triple_confidence db t) as [q|] eqn:Eq; [|done]. injection Ec as <-. apply list_elem_of_singleton in Hi.
    exists s, claim, o, id, t, q. simpl in Hs, Ho. auto 10.
  - intros (s & claim & o & id & t & q & Hc & Ht & Hs & Ho & Ha & Ei & Eq & ->).
    assert (Hr : ∃ r, collect (contradiction db confidence (s, claim, o))
                        (query_triples db now (Some s) None (Some o) true) = Ok r).
    { revert E. clear -Hc. revert out. induction claims as [|c cs IH]; intros out; [by apply elem_of_nil in Hc|].
      cbn [collect]. destruct c as [[s' claim'] o'].
      destruct (collect (contradiction db confidence (s', claim', o')) _) as [r|] eqn:Er; [|done].
      apply elem_of_cons in Hc as [[= -> -> ->]|Hc]; [intros _; by exists r|].
      destruct (collect _ cs) as [rs|] eqn:Ers; [|done]. intros _. by apply (IH Hc rs). }
    destruct Hr as [r Er]. exists (s, claim, o), r. split_and!; [done|done|].
    apply (collect_elem _ _ _ Er). eexists (id, t), _. split_and!.
    + apply query_triples_iff. simpl. auto.
    + unfold contradiction. cbn [fst snd]. by rewrite Ei, Eq.
    + by apply list_elem_of_singleton.
Qed.

(** ** Expired facts *)
Lemma elem_of_concat {A} (x : A) ls : x ∈ concat ls ↔ ∃ l, x ∈ l ∧ l ∈ ls.
Proof. rewrite list_elem_of_In, in_concat. setoid_rewrite <- list_elem_of_In. naive_solver. Qed.

Lemma stale_exact db now claims secs issue :
  issue ∈ detect_stale_facts db now claims secs ↔ ∃ id t until expiry,
    (t_subject t, t_predicate t, t_object t) ∈ claims ∧ db_triples db !! id = Some t ∧ t_valid_to t = Some until
    ∧ parse_uint u64_max (decode_str until) = Some expiry ∧ expiry < secs
    ∧ issue = StaleFact (t_subject t) (t_predicate t) (t_object t) until id (t_source_drawer t).
Proof.
  unfold detect_stale_facts. rewrite elem_of_concat. setoid_rewrite list_elem_of_fmap. split.
  - intros (r & Hi & ([[s p] o] & -> & Hc)). apply list_elem_of_omap in Hi as ([id t] & Hq & E).
    apply query_triples_iff in Hq as (Ht & Hs & Hp & Ho & _). simpl in Hs, Hp, Ho. subst.
    unfold stale in E. cbn [fst snd] in E. destruct (t_valid_to t) as [until|] eqn:Eu; [|done].
    destruct (parse_uint u64_max (decode_str until)) as [expiry|] eqn:Ee; [|done].
    destruct (Z.ltb_spec expiry secs); [|done]. injection E as <-. exists id, t, until, expiry. auto 10.
  - intros (id & t & until & expiry & Hc & Ht & Eu & Ee & Hlt & ->). eexists. split; [|eexists; split; [|exact Hc]; reflexivity].
    apply list_elem_of_omap. exists (id, t). split; [apply query_triples_iff; by simpl|].
    unfold stale. cbn [fst snd]. rewrite Eu, Ee. by destruct (Z.ltb_spec expiry secs); [|lia].
Qed.
(** ** Each once *)
Lemma NoDup_concat_map {A B} (f : A → list B) l :
  NoDup l → (∀ x, x ∈ l → NoDup (f x)) → (∀ x x' y, x ∈ l → x' ∈ l → y ∈ f x → y ∈ f x' → x = x') →
  NoDup (concat (f <$> l)).
Proof.
  intros Hl. induction Hl as [|x l Hx Hl IH]; intros Hf Hd; cbn; [constructor|]. apply NoDup_app. split_and!.
  - apply Hf. by left.
  - intros y Hy (ys & Hys & (x' & -> & Hx')%list_elem_of_fmap)%elem_of_concat. apply Hx.
    by rewrite (Hd x x' y (list_elem_of_here _ _) (list_elem_of_further _ _ _ Hx') Hy Hys).
  - apply IH; [intros; apply Hf; by right|]. intros x1 x2 y H1 H2. apply Hd; by right.
Qed.

Lemma NoDup_omap_inj {A B} (f : A → option B) l :
  NoDup l → (∀ x x' y, x ∈ l → x' ∈ l → f x = Some y → f x' = Some y → x = x') → NoDup (omap f l).
Proof.
  intros Hl. induction Hl as [|x l Hx Hl IH]; intros Hd; cbn; [constructor|].
  assert (Hrest : NoDup (omap f l)) by (apply IH; intros x1 x2 y H1 H2; apply Hd; by right).
  destruct (f x) as [y|] eqn:E; [|done]. constructor; [|done]. intros (x' & Hx' & E')%list_elem_of_omap.
  apply Hx. by rewrite (Hd x x' y (list_elem_of_here _ _) (list_elem_of_further _ _ _ Hx') E E').
Qed.

Definition ok_list {A B E} (f : A → result (list B) E) (x : A) : list B := match f x with Ok r => r | Err _ => [] end.

Lemma collect_concat {A B E} (f : A → result (list B) E) l out : collect f l = Ok out → out = concat (ok_list f <$> l).
Proof.
  revert out. unfold ok_list. induction l as [|x l IH]; intros out; cbn; [by intros [= <-]|].
  destruct (f x) as [r|]; [|done]. destruct (collect f l) as [rs|]; [|done]. intros [= <-]. by rewrite (IH rs eq_refl).
Qed.

Lemma query_NoDup db now s p o active : NoDup (query_triples db now s p o active).
Proof.
  unfold query_triples. rewrite (sort_by_perm _ _). apply NoDup_ListNoDup, List.NoDup_filter, NoDup_ListNoDup, NoDup_map_to_list.
Qed.

Lemma push_unique_NoDup bucket found : NoDup bucket → NoDup (push_unique bucket found).
Proof.
  intros Hb. destruct found as [t|]; [|done]. cbn. case_bool_decide as Ht; [done|]. apply NoDup_app.
  split_and!; [done|set_solver|apply NoDup_singleton].
Qed.

Lemma triples_NoDup t : NoDup (extract_triples t).
Proof.
  unfold extract_triples. assert (H0 : NoDup ([] : list statement)) by constructor. revert H0. generalize ([] : list statement).
  induction (split_whitespace t) as [|w ws IH]; intros acc Hacc; [done|]. apply IH. by repeat apply push_unique_NoDup.
Qed.

(** What an issue is about tells it from the others. *)
Lemma contradiction_inv db confidence s claim o kg r issue :
  contradiction db confidence (s, claim, o) kg = Ok r → issue ∈ r →
  r = [issue] ∧ ∃ fact source existing gap,
    issue = RelationContradiction s claim fact kg.1 source confidence existing gap.
Proof.
  unfold contradiction. destruct (are_incompatible _ _); [|intros [= <-] Hi; by apply elem_of_nil in Hi].
  destruct (triple_confidence db kg.2) as [q|]; [|done]. intros [= <-] ->%list_elem_of_singleton. eauto 10.
Qed.

Lemma contradictions_NoDup db now claims confidence out :
  NoDup claims → detect_relation_contradictions db now claims confidence = Ok out → NoDup out.
Proof.
  intros Hn ->%collect_concat.
  assert (Hin : ∀ s claim o y,
    y ∈ ok_list (fun '(s, claim, o) => collect (contradiction db confidence (s, claim, o))
                   (query_triples db now (Some s) None (Some o) true)) (s, claim, o) →
    ∃ id t, db_triples db !! id = Some t ∧ t_object t = o
      ∧ ∃ fact source existing gap, y = RelationContradiction s claim fact id source confidence existing gap).
  { intros s claim o y Hy. unfold ok_list in Hy. destruct (collect _ _) as [r|] eqn:Er; [|by apply elem_of_nil in Hy].
    apply (collect_elem _ _ _ Er) in Hy as ([id t] & r' & (Ht & _ & _ & Ho & _)%query_triples_iff & Ec & Hy).
    destruct (contradiction_inv _ _ _ _ _ _ _ _ Ec Hy) as [_ Hi]. eauto. }
  apply NoDup_concat_map; [done| |].
  - intros [[s claim] o] _. unfold ok_list. destruct (collect _ _) as [r|] eqn:Er; [|constructor].
    apply collect_concat in Er as ->. apply NoDup_concat_map; [apply query_NoDup| |].
    + intros [id t] _. unfold ok_list. destruct (contradiction _ _ _ _) as [[|i r]|] eqn:Ec; [constructor| |constructor].
      destruct (contradiction_inv _ _ _ _ _ _ _ i Ec (list_elem_of_here _ _)) as [[= ->] _]. apply NoDup_singleton.
    + intros [id t] [id' t'] y Hq Hq' Hy Hy'. unfold ok_list in Hy, Hy'.
      destruct (contradiction _ _ _ (id, t)) as [r|] eqn:E1; [|by apply elem_of_nil in Hy].
      destruct (contradiction _ _ _ (id', t')) as [r'|] eqn:E2; [|by apply elem_of_nil in Hy'].
      destruct (contradiction_inv _ _ _ _ _ _ _ _ E1 Hy) as [_ (? & ? & ? & ? & ->)].
      destruct (contradiction_inv _ _ _ _ _ _ _ _ E2 Hy') as [_ (? & ? & ? & ? & [= ? ? ? ? ?])].
      apply query_triples_iff in Hq as (Ht & _), Hq' as (Ht' & _). cbn in *. congruence.
  - intros [[s claim] o] [[s' claim'] o'] y _ _ Hy Hy'.
    destruct (Hin _ _ _ _ Hy) as (id & t & Ht & <- & ? & ? & ? & ? & ->).
    destruct (Hin _ _ _ _ Hy') as (id' & t' & Ht' & <- & ? & ? & ? & ? & [= ? ? ? ? ?]). congruence.
Qed.

Lemma stale_inv secs kg issue : stale secs kg = Some issue →
  ∃ until source, issue = StaleFact (t_subject kg.2) (t_predicate kg.2) (t_object kg.2) until kg.1 source.
Proof. unfold stale. intros E. repeat case_match; simplify_eq. eauto. Qed.

Lemma stale_NoDup db now claims secs : NoDup claims → NoDup (detect_stale_facts db now claims secs).
Proof.
  intros Hn. apply NoDup_concat_map; [done| |].
  - intros [[s p] o] _. apply NoDup_omap_inj; [apply query_NoDup|].
    intros [id t] [id' t'] y (Ht & _)%query_triples_iff (Ht' & _)%query_triples_iff (? & ? & ->)%stale_inv (? & ? & E)%stale_inv.
    cbn in *. congruence.
  - intros [[s p] o] [[s' p'] o'] y _ _ Hy Hy'.
    apply list_elem_of_omap in Hy as ([id t] & (_ & Hs & Hp & Ho & _)%query_triples_iff & (? & ? & ->)%stale_inv).
    apply list_elem_of_omap in Hy' as ([id' t'] & (_ & Hs' & Hp' & Ho' & _)%query_triples_iff & (? & ? & E)%stale_inv).
    cbn in *. congruence.
Qed.

(** The names of a text are distinct, and so they are as UTF-8. *)
Lemma push_new_NoDup l x : NoDup l → NoDup (push_new l x).
Proof.
  intros Hl. unfold push_new. case_bool_decide; [done|]. apply NoDup_app. split_and!; [done|set_solver|apply NoDup_singleton].
Qed.

Lemma entities_NoDup t : NoDup (extract_entities t).
Proof.
  unfold extract_entities. assert (H0 : NoDup ([] : list text)) by constructor. revert H0. generalize ([] : list text).
  induction (text_segments t) as [|segment l IH]; intros acc Hacc; [done|]. cbn [foldl]. apply IH.
  destruct (sg_kind segment); [case_match; [by apply push_new_NoDup|done]|].
  revert acc Hacc. induction (extract_cjk_entities_from_segment _) as [|e es IHe]; intros acc Hacc; [done|].
  apply IHe. by apply push_new_NoDup.
Qed.

Lemma ideograph_ok c : is_cjk_ideograph c = true → char_ok c.
Proof. unfold is_cjk_ideograph, char_ok. rewrite !orb_true_iff, !andb_true_iff, !Z.leb_le. lia. Qed.

Lemma alphanumeric_ok c : is_ascii_alphanumeric c = true → char_ok c.
Proof.
  unfold is_ascii_alphanumeric, is_ascii_alphabetic, is_ascii_uppercase, is_ascii_lowercase, char_ok.
  rewrite !orb_true_iff, !andb_true_iff, !Z.leb_le. lia.
Qed.

Lemma entities_ok `{!CodecLaws} t : Forall (Forall char_ok) (extract_entities t).
Proof.
  unfold extract_entities. apply foldl_Forall with (Q := segment_ok); [|apply text_segments_ok|constructor].
  intros acc [kind word] [_ Hseg] Hacc. cbn in *. destruct kind.
  - case_match; [|done]. apply push_new_Forall; [done|]. eapply Forall_impl; [exact Hseg|apply alphanumeric_ok].
  - apply foldl_push_Forall; [|done]. unfold extract_cjk_entities_from_segment.
    apply foldl_Forall with (Q := fun wt => wt ∈ jieba_tag word); [|by apply Forall_forall|constructor].
    intros found [w tag] Hin Hfound. case_match; [done|]. apply push_new_Forall; [done|]. apply Forall_forall. intros c Hc.
    rewrite Forall_forall in Hseg. by apply ideograph_ok, Hseg, (jieba_words word w tag Hin).
Qed.

Lemma text_names_NoDup `{!CodecLaws} t : NoDup (candidates_from_text t).
Proof.
  unfold candidates_from_text, entities_of. pose proof (entities_ok t) as Hok. pose proof (entities_NoDup t) as Hn.
  assert (Hn' : NoDup (List.filter long_enough (extract_entities t))) by (by apply NoDup_ListNoDup, List.NoDup_filter, NoDup_ListNoDup).
  apply NoDup_fmap_2_strong; [|done]. intros a b Ha Hb E. rewrite Forall_forall in Hok.
  apply list_elem_of_In, filter_In in Ha as [Ha%list_elem_of_In _], Hb as [Hb%list_elem_of_In _].
  rewrite <- (decode_encode a), <- (decode_encode b) by (by apply Hok). by rewrite E.
Qed.

Lemma name_conflict_inv known m issue : name_conflict known m = Some issue →
  ∃ k d, closest m known None = Some (k, d) ∧ issue = SimilarNameConflict m k d.
Proof. unfold name_conflict. destruct (closest m known None) as [[k d]|]; [|done]. intros [= <-]. eauto. Qed.

Lemma names_NoDup names known : NoDup names → NoDup (detect_similar_name_conflicts names known).
Proof.
  intros Hn. apply NoDup_omap_inj; [done|].
  intros m m' y _ _ (? & ? & _ & ->)%name_conflict_inv (? & ? & _ & E)%name_conflict_inv. congruence.
Qed.

(** ** The whole check *)

(** The names on file: those of the triples and of the best drawers in scope. *)
Definition known_name (db : Db) (now : string) (scope : option (string * option string)) (k : string) : Prop :=
  ∃ drawers, top_drawers db 50 = Ok drawers ∧ k ∈ known_set db now drawers scope.

Definition near_known (db : Db) (now : string) (scope : option (string * option string)) (t : text) (m k : string)
    (n : nat) : Prop :=
  m ∈ candidates_from_text t ∧ ¬ known_name db now scope m ∧ known_name db now scope k
  ∧ least_edits (bytes_of m) (bytes_of k) n ∧ (n <= 2)%nat
  ∧ ∀ k' n', known_name db now scope k' → least_edits (bytes_of m) (bytes_of k') n' → (n <= n')%nat.

Definition contradicted (db : Db) (now : string) (t : text) (confidence : Q) (issue : FactIssue) : Prop :=
  ∃ s claim o id kg existing,
    (s, claim, o) ∈ extract_triples t ∧ db_triples db !! id = Some kg ∧ t_subject kg = s ∧ t_object kg = o
    ∧ active_at now kg ∧ are_incompatible claim (t_predicate kg) = true ∧ triple_confidence db kg = Ok existing
    ∧ issue = RelationContradiction s claim (t_predicate kg) id (t_source_drawer kg) confidence existing
                (confidence_gap confidence existing).

Definition expired (db : Db) (t : text) (secs : Z) (issue : FactIssue) : Prop :=
  ∃ id kg until expiry,
    (t_subject kg, t_predicate kg, t_object kg) ∈ extract_triples t ∧ db_triples db !! id = Some kg
    ∧ t_valid_to kg = Some until ∧ parse_uint u64_max (decode_str until) = Some expiry ∧ expiry < secs
    ∧ issue = StaleFact (t_subject kg) (t_predicate kg) (t_object kg) until id (t_source_drawer kg).

(** No issue comes twice, and no name with two known ones. *)
Lemma report_NoDup `{!CodecLaws} db now t known secs confidence out :
  detect_relation_contradictions db now (extract_triples t) confidence = Ok out →
  let issues := (detect_similar_name_conflicts (candidates_from_text t) known ++ out
                 ++ detect_stale_facts db now (extract_triples t) secs)%list in
  NoDup issues ∧ ∀ m k n k' n', SimilarNameConflict m k n ∈ issues → SimilarNameConflict m k' n' ∈ issues → k = k' ∧ n = n'.
Proof.
  intros Ec issues. pose proof (contradictions_exact _ _ _ _ _ Ec) as Hout.
  assert (Hnames : ∀ i, i ∈ detect_similar_name_conflicts (candidates_from_text t) known →
                     ∃ m k n, i = SimilarNameConflict m k n ∧ closest m known None = Some (k, n)).
  { intros i (m & _ & (k & n & Hc & ->)%name_conflict_inv)%list_elem_of_omap. eauto. }
  assert (Hother : ∀ m k n, SimilarNameConflict m k n ∈ issues → closest m known None = Some (k, n)).
  { intros m k n. unfold issues. rewrite !elem_of_app, stale_exact, Hout. intros [Hi|[Hi|Hi]]; [|naive_solver..].
    destruct (Hnames _ Hi) as (? & ? & ? & [= <- <- <-] & ?). done. }
  split; [|intros m k n k' n' H1%Hother H2%Hother; rewrite H1 in H2; by injection H2 as -> ->].
  pose proof (triples_NoDup t) as Hn. unfold issues. rewrite !NoDup_app. split_and!.
  - apply names_NoDup, text_names_NoDup.
  - intros i (m & k & n & -> & _)%Hnames. rewrite elem_of_app, stale_exact, Hout. naive_solver.
  - by eapply contradictions_NoDup.
  - intros i Hi. apply Hout in Hi. rewrite stale_exact. naive_solver.
  - by apply stale_NoDup.
Qed.

(** C24: the fact check reports what it should and nothing else, and each issue once.
    When it succeeds, a name of the text is reported exactly when it is unknown and a
    known name is within two edits, then once, with one known name, a nearest one, and
    its distance in edits; a relation of the text exactly when a triple between the same
    names is active and its predicate excludes the stated one, with the confidence of
    the drawer behind it and the gap as the difference of two doubles; a fact of the
    text exactly when the same triple on file has run out before the time given. No
    issue comes twice. The order in which the set of known names is walked is open, and
    with it which of several nearest names is shown; of the tagger of Chinese words it
    is assumed that its words consist of characters of their segment. *)
Theorem check_exact `{!CodecLaws} {R} into_iter (repair : list R) now t db secs scope scope' confidence report :
  (∀ s, into_iter s ≡ₚ elements s) →
  match scope with Some (wing, room) => validate_scope (Some wing) room | None => Ok None end = Ok scope' →
  check_with_confidence into_iter repair now t db secs scope confidence = Ok report →
  (∀ issue, issue ∈ fr_issues R report →
     (∃ m k n, issue = SimilarNameConflict m k n ∧ near_known db now scope' t m k n)
     ∨ contradicted db now t confidence issue ∨ expired db t secs issue)
  ∧ (∀ m k n, near_known db now scope' t m k n → ∃ k', SimilarNameConflict m k' n ∈ fr_issues R report)
  ∧ (∀ issue, contradicted db now t confidence issue ∨ expired db t secs issue → issue ∈ fr_issues R report)
  ∧ NoDup (fr_issues R report)
  ∧ (∀ m k n k' n', SimilarNameConflict m k n ∈ fr_issues R report → SimilarNameConflict m k' n' ∈ fr_issues R report →
       k = k' ∧ n = n').
Proof.
  intros Hiter Hscope. unfold check_with_confidence. rewrite Hscope. unfold query_known_entities.
  destruct (top_drawers db 50) as [drawers|] eqn:Et; [|done].
  destruct (detect_relation_contradictions db now _ confidence) as [out|] eqn:Ec; [|done]. intros [= <-]. cbn [fr_issues].
  set (known := into_iter (known_set db now drawers scope')).
  assert (Hk : ∀ k, k ∈ known ↔ known_name db now scope' k).
  { intros k. unfold known, known_name. rewrite Hiter, elem_of_elements. split; [eauto|].
    intros (ds & [= ->]%(eq_trans (eq_sym Et)) & Hk). done. }
  assert (Hn : ∀ m k n, conflict_of (candidates_from_text t) known m k n ↔ near_known db now scope' t m k n).
  { intros m k n. unfold conflict_of, near_known. setoid_rewrite Hk. done. }
  destruct (name_conflicts_exact (candidates_from_text t) known) as [Hsound Hcomplete].
  pose proof (report_NoDup _ _ t known secs confidence out Ec) as [Hnd Hone]. split_and!; [..|done|done]; clear Hnd Hone.
  all: setoid_rewrite elem_of_app; setoid_rewrite elem_of_app; setoid_rewrite stale_exact;
    setoid_rewrite (contradictions_exact _ _ _ _ _ Ec).
  - intros issue [Hi|Hi]; [|by right]. left. destruct (Hsound issue Hi) as (m & k & n & -> & Hc). exists m, k, n. by rewrite <- Hn.
  - intros m k n Hc. rewrite <- Hn in Hc. destruct (Hcomplete m k n Hc) as [k' Hk']. eauto.
  - intros issue Hi. by right.
Qed.
End reports.

(** ** The sentences it is made for *)
Definition plain_word (w : text) : Prop := w ≠ [] ∧ Forall (fun c => is_whitespace c = false) w.

Lemma words_run w rest cur : Forall (fun c => is_whitespace c = false) w →
  words_loop (w ++ rest) cur = words_loop rest (reverse w ++ cur).
Proof.
  revert cur. induction w as [|c w IH]; intros cur; [done|]. intros [Hc Hw]%Forall_cons. simpl. rewrite Hc, IH by done.
  by rewrite reverse_cons, <- app_assoc.
Qed.

(** A sentence is the list of its words. *)
Lemma split_sentence ws : Forall plain_word ws → split_whitespace (join [32] ws) = ws.
Proof.
  unfold split_whitespace. induction 1 as [|w ws [Hne Hw] Hws IH]; [done|]. destruct ws as [|w' ws].
  - cbn [join]. rewrite <- (app_nil_r w) at 1. rewrite words_run by done. rewrite app_nil_r. simpl.
    pose proof (reverse_nonempty w Hne). destruct (reverse w) eqn:E; [done|]. by rewrite <- E, reverse_involutive.
  - rewrite join_cons, words_run by done. rewrite app_nil_r. cbn [app words_loop].
    pose proof (reverse_nonempty w Hne) as Hr. change (is_whitespace 32) with true. cbn iota.
    destruct (reverse w) eqn:E; [done|]. rewrite <- E, reverse_involutive. by f_equal.
Qed.

Lemma trim_plain w c : last w = Some c → c ∉ TRAILING_PUNCT → trim_trailing_punct w = w.
Proof.
  intros [w' ->]%last_Some Hc. unfold trim_trailing_punct. rewrite reverse_snoc. simpl.
  rewrite bool_decide_false by done. by rewrite reverse_cons, reverse_involutive.
Qed.

(** A name and a role as the check wants them. *)
Definition proper_name (w : text) : Prop :=
  (3 <= length w)%nat ∧ is_capitalized w = true ∧ Forall (fun c => is_ascii_alphabetic c = true) w.
Definition role_word (w : text) : Prop := w ≠ [] ∧ Forall (fun c => is_ascii_lowercase c = true) w.

Lemma alphabetic_plain c : is_ascii_alphabetic c = true →
  is_whitespace c = false ∧ (c ∉ TRAILING_PUNCT) ∧ is_ascii c = true.
Proof.
  intros Hc. unfold is_ascii_alphabetic, is_ascii_uppercase, is_ascii_lowercase in Hc.
  assert (65 <= c <= 90 ∨ 97 <= c <= 122) by (apply orb_true_iff in Hc; rewrite !andb_true_iff, !Z.leb_le in Hc; lia).
  unfold is_ascii. split_and!.
  - unfold is_whitespace. rewrite !orb_false_iff, !andb_false_iff, !Z.leb_gt, !Z.eqb_neq. lia.
  - unfold TRAILING_PUNCT. rewrite !elem_of_cons, elem_of_nil. lia.
  - rewrite andb_true_iff, Z.leb_le, Z.ltb_lt. lia.
Qed.

Lemma alphabetic_word w : w ≠ [] → Forall (fun c => is_ascii_alphabetic c = true) w →
  plain_word w ∧ trim_trailing_punct w = w ∧ byte_len w = length w.
Proof.
  intros Hne Hw. split_and!.
  - split; [done|]. eapply Forall_impl; [exact Hw|]. intros c Hc. by apply alphabetic_plain.
  - destruct (last w) as [c|] eqn:E; [|by apply last_None in E]. apply (trim_plain _ _ E).
    apply last_Some_elem_of in E. rewrite Forall_forall in Hw. by apply alphabetic_plain, Hw.
  - apply byte_len_ascii. eapply Forall_impl; [exact Hw|]. intros c Hc. by apply alphabetic_plain.
Qed.

Lemma name_word w : proper_name w →
  plain_word w ∧ trim_trailing_punct w = w ∧ is_proper_noun w = true.
Proof.
  intros (Hlen & Hcap & Hw). assert (w ≠ []) as Hne by (by intros ->).
  destruct (alphabetic_word w Hne Hw) as (Hp & Ht & Hl). split_and!; [done|done|].
  unfold is_proper_noun. rewrite Ht, Hl, Hcap. rewrite (proj2 (Nat.leb_le _ _) Hlen), andb_true_r. simpl.
  apply forallb_forall. intros c Hc. rewrite Forall_forall in Hw. by apply Hw, list_elem_of_In.
Qed.

Lemma role_lower w : role_word w →
  plain_word w ∧ trim_trailing_punct w = w ∧ is_lowercase_word w = true.
Proof.
  intros (Hne & Hw).
  assert (Ha : Forall (fun c => is_ascii_alphabetic c = true) w).
  { eapply Forall_impl; [exact Hw|]. intros c Hc. unfold is_ascii_alphabetic. by rewrite Hc, orb_true_r. }
  destruct (alphabetic_word w Hne Ha) as (Hp & Ht & _). split_and!; [done|done|].
  unfold is_lowercase_word. rewrite Ht. destruct w as [|c w]; [done|].
  apply forallb_forall. intros c' Hc. rewrite Forall_forall in Hw. by apply Hw, list_elem_of_In.
Qed.

Section sentences.
Context `{StoreEnv} `{CodecLaws}.

(** "X is Y's role", "X is the role of Y". *)
Definition possessive_sentence (x y role : text) : text :=
  join [32] [x; chars_of "is"; y ++ chars_of "'s"; role]%list.
Definition role_sentence (x y role : text) : text :=
  join [32] [x; chars_of "is"; chars_of "the"; role; chars_of "of"; y].

Lemma plain_literals : plain_word (chars_of "is") ∧ plain_word (chars_of "the") ∧ plain_word (chars_of "of").
Proof. split_and!; (split; [done|repeat constructor]). Qed.

Lemma owner_word y : proper_name y →
  plain_word (y ++ chars_of "'s") ∧ strip_possessive (y ++ chars_of "'s") = (y, true).
Proof.
  intros Hy. destruct (name_word y Hy) as ([Hne Hw] & _ & _). split.
  - split; [by destruct y|]. apply Forall_app. split; [done|repeat constructor].
  - unfold strip_possessive. rewrite (trim_plain _ 115).
    + unfold strip_suffix. rewrite reverse_app, strip_prefix_app. simpl. by rewrite reverse_involutive.
    + apply last_Some. exists (y ++ [39])%list. by rewrite <- app_assoc.
    + unfold TRAILING_PUNCT. rewrite !elem_of_cons, elem_of_nil. lia.
Qed.

Lemma role_of_word role : role_word role → role_of role = encode_str role +:+ "_of".
Proof.
  intros [_ Hr]. unfold role_of. rewrite lowercase_ascii.
  - do 2 f_equal. rewrite <- (list_fmap_id role) at 2. apply Forall_fmap_ext_1. eapply Forall_impl; [exact Hr|].
    intros c Hc. unfold ascii_lower, is_ascii_uppercase, is_ascii_lowercase in *. simpl.
    rewrite andb_true_iff, !Z.leb_le in Hc. destruct (Z.leb_spec c 90); [lia|]. by rewrite andb_false_r.
  - eapply Forall_impl; [exact Hr|]. intros c Hc. unfold is_ascii_alphanumeric, is_ascii_alphabetic.
    by rewrite Hc, orb_true_r.
Qed.

Lemma extract_cons w rest acc :
  extract_from (w :: rest) acc
  = extract_from rest (push_unique (push_unique (push_unique acc (try_possessive (w :: rest))) (try_works_at (w :: rest)))
                         (try_role_of (w :: rest))).
Proof. done. Qed.

(** A statement begins with a name and has four words at least. *)
Lemma extract_skip w rest acc : is_proper_noun w = false → extract_from (w :: rest) acc = extract_from rest acc.
Proof.
  intros Hw. rewrite extract_cons.
  assert (try_possessive (w :: rest) = None) as -> by (unfold try_possessive; rewrite Hw; by repeat case_match).
  assert (try_works_at (w :: rest) = None) as -> by (unfold try_works_at; rewrite Hw; by repeat case_match).
  assert (try_role_of (w :: rest) = None) as -> by (unfold try_role_of; rewrite Hw; by repeat case_match).
  done.
Qed.

Lemma extract_short ws acc : (length ws < 4)%nat → extract_from ws acc = acc.
Proof. destruct ws as [|a [|b [|c [|d ws]]]]; simpl; by try lia. Qed.

Lemma possessive_read x y role : proper_name x → proper_name y → role_word role →
  extract_triples (possessive_sentence x y role) = [(encode_str x, encode_str role +:+ "_of", encode_str y)].
Proof.
  intros Hx Hy Hr. destruct (name_word x Hx) as (Hpx & Htx & Hnx), (name_word y Hy) as (Hpy & Hty & Hny).
  destruct (role_lower role Hr) as (Hpr & Htr & Hlr), (owner_word y Hy) as (Hpo & Hso).
  unfold extract_triples, possessive_sentence. rewrite split_sentence by (repeat (apply List.Forall_cons || apply List.Forall_nil); try done; apply plain_literals).
  cbn [extract_from]. assert (try_possessive [x; chars_of "is"; y ++ chars_of "'s"; role]%list
    = Some (encode_str x, encode_str role +:+ "_of", encode_str y)) as ->.
  { unfold try_possessive. rewrite Hnx, Hso, Hny, Htr, Hlr. unfold name_of. by rewrite Htx, role_of_word. }
  unfold try_works_at. by rewrite Hnx.
Qed.

Lemma role_read x y role : proper_name x → proper_name y → role_word role →
  extract_triples (role_sentence x y role) = [(encode_str x, encode_str role +:+ "_of", encode_str y)].
Proof.
  intros Hx Hy Hr. destruct (name_word x Hx) as (Hpx & Htx & Hnx), (name_word y Hy) as (Hpy & Hty & Hny).
  destruct (role_lower role Hr) as (Hpr & Htr & Hlr), plain_literals as (Hi & Ht & Ho).
  unfold extract_triples, role_sentence. rewrite split_sentence by (repeat (apply List.Forall_cons || apply List.Forall_nil); done).
  set (ws := [x; chars_of "is"; chars_of "the"; role; chars_of "of"; y]).
  assert (E1 : try_possessive ws = None) by (unfold ws, try_possessive; by rewrite Hnx).
  assert (E2 : try_works_at ws = None) by (unfold ws, try_works_at; by rewrite Hnx).
  assert (E3 : try_role_of ws = Some (encode_str x, encode_str role +:+ "_of", encode_str y)).
  { unfold ws, try_role_of. cbn [orb]. change (is_word "the" (chars_of "the")) with true. cbn [orb].
    rewrite Hnx, Htr, Hlr, Hny. unfold name_of. by rewrite Htx, Hty, role_of_word. }
  unfold ws at 1. rewrite extract_cons. fold ws. rewrite E1, E2, E3. cbn [push_unique].
  rewrite bool_decide_false by set_solver. rewrite !extract_skip by done. apply extract_short. simpl. lia.
Qed.

(** A sentence that contradicts the triples is found out. When the text says
    that X is Y's role, or that X is the role of Y, for capitalized names and a role
    in lower case, and an active triple between X and Y has a predicate that
    excludes that role, a check that succeeds reports the contradiction, with the
    triple it contradicts. *)
Theorem contradicted_sentence_reported {R} into_iter (repair : list R) now x y role t db id kg secs confidence report :
  proper_name x → proper_name y → role_word role →
  t = possessive_sentence x y role ∨ t = role_sentence x y role →
  db_triples db !! id = Some kg → t_subject kg = encode_str x → t_object kg = encode_str y → active_at now kg →
  are_incompatible (encode_str role +:+ "_of") (t_predicate kg) = true →
  check_with_confidence into_iter repair now t db secs None confidence = Ok report →
  ∃ existing, RelationContradiction (encode_str x) (encode_str role +:+ "_of") (t_predicate kg) id (t_source_drawer kg)
                confidence existing (confidence_gap confidence existing) ∈ fr_issues R report.
Proof.
  intros Hx Hy Hr Ht Hid Hs Ho Ha Hi.
  assert (E : extract_triples t = [(encode_str x, encode_str role +:+ "_of", encode_str y)]).
  { destruct Ht as [-> | ->]; [by apply possessive_read|by apply role_read]. }
  unfold check_with_confidence. destruct (query_known_entities into_iter db now None) as [known|]; [|done].
  rewrite E. destruct (detect_relation_contradictions db now _ confidence) as [out|] eqn:Ec; [|done].
  intros [= <-]. cbn [fr_issues].
  assert (Hex : ∃ existing, triple_confidence db kg = Ok existing).
  { cbn [detect_relation_contradictions collect] in Ec. destruct (collect (contradiction db confidence _) _) as [r|] eqn:Er; [|done].
    assert (Hin : (id, kg) ∈ query_triples db now (Some (encode_str x)) None (Some (encode_str y)) true).
    { apply query_triples_iff. simpl. auto. }
    clear -Er Hin Hi. revert r Er. induction (query_triples _ _ _ _ _ _) as [|e l IH]; intros r; [by apply elem_of_nil in Hin|].
    cbn [collect]. destruct (contradiction db confidence _ e) as [found|] eqn:Ef; [|done].
    apply elem_of_cons in Hin as [<-|Hin].
    - unfold contradiction in Ef. cbn [fst snd] in Ef. rewrite Hi in Ef. destruct (triple_confidence db kg); [eauto|done].
    - destruct (collect _ l) as [r'|]; [|done]. intros _. by apply (IH Hin r'). }
  destruct Hex as [existing Hex]. exists existing. rewrite !elem_of_app. right. left.
  apply (contradictions_exact _ _ _ _ _ Ec). exists (encode_str x), (encode_str role +:+ "_of"), (encode_str y), id, kg, existing.
  split_and!; try done. by apply list_elem_of_singleton.
Qed.
End sentences.

(** ** A concrete base of facts *)
Module FactStory.
#[local] Existing Instance Plain.env.

Definition triple (s p o : string) (until : option string) : Triple := MkTriple s p o None until (7 # 10) None.

Definition facts : Db :=
  MkDb ∅ (<["t1" := triple "Bob" "husband_of" "Alice" None]>
           (<["t2" := triple "Bob" "brother_of" "Alice" (Some "1000")]>
             {["t3" := triple "Carl" "works_at" "Acme" None]})) ∅ [] [].

Definition walk (s : gset string) : list string := elements s.
Definition bob : text := possessive_sentence (chars_of "Bob") (chars_of "Alice") (chars_of "brother").
Definition empty_report : FactCheckReport unit := MkFactReport unit [] [] 0 [].
Definition facts_report (r : result (FactCheckReport unit) FactCheckError) : FactCheckReport unit :=
  match r with Ok report => report | Err _ => empty_report end.
Definition now_text : string := "1700000000".
Definition checked (into_iter : gset string → list string) (t : text) : result (FactCheckReport unit) FactCheckError :=
  check_with_confidence (CE := ascii_env) into_iter [] now_text t facts 1700000000 None (1 # 2).

Lemma bob_checked : checked walk bob = Ok (facts_report (checked walk bob)).
Proof. vm_compute. reflexivity. Qed.

Example two_issues :
  fr_issues unit (facts_report (checked walk bob))
  = [RelationContradiction "Bob" "brother_of" "husband_of" "t1" None (1 # 2) (7 # 10) (900719925474099 # 4503599627370496);
     StaleFact "Bob" "brother_of" "Alice" "1000" "t2" None].
Proof. vm_compute. reflexivity. Qed.

(** Which of two known names at the same distance is reported depends on the order
    in which the set is walked. *)
Definition tie_facts : Db :=
  MkDb ∅ {["t1" := triple "Carb" "works_at" "Cart" None]} ∅ [] [].

Example ties_are_open :
  let found into_iter := facts_report (check_with_confidence (CE := ascii_env) into_iter [] now_text (chars_of "Carl left")
                                      tie_facts 1700000000 None (1 # 2)) in
  fr_issues unit (found elements) = [SimilarNameConflict "Carl" "Carb" 1]
  ∧ fr_issues unit (found (fun s => reverse (elements s))) = [SimilarNameConflict "Carl" "Cart" 1].
Proof. vm_compute. split; reflexivity. Qed.
End FactStory.

Lemma check_exact_witness :
  length (fr_issues unit (FactStory.facts_report (FactStory.checked FactStory.walk FactStory.bob))) ≠ 0%nat
  ∧ (∀ issue, contradicted (H := Plain.env) (CE := ascii_env) FactStory.facts FactStory.now_text FactStory.bob (1 # 2) issue
              ∨ expired (CE := ascii_env) FactStory.facts FactStory.bob 1700000000 issue →
     issue ∈ fr_issues unit (FactStory.facts_report (FactStory.checked FactStory.walk FactStory.bob))).
Proof.
  split; [vm_compute; discriminate|].
  eapply (check_exact (H := Plain.env) (CE := ascii_env) FactStory.walk [] FactStory.now_text FactStory.bob FactStory.facts
            1700000000 None None (1 # 2)); [intros s; reflexivity|reflexivity|exact FactStory.bob_checked].
Defined.

Lemma contradicted_sentence_reported_witness :
  ∃ existing, RelationContradiction "Bob" "brother_of" "husband_of" "t1" None (1 # 2) existing
                (confidence_gap (1 # 2) existing) ∈ fr_issues unit (FactStory.facts_report (FactStory.checked FactStory.walk FactStory.bob)).
Proof.
  refine (contradicted_sentence_reported (H := Plain.env) (H0 := ascii_env) FactStory.walk [] FactStory.now_text
            (chars_of "Bob") (chars_of "Alice") (chars_of "brother") FactStory.bob FactStory.facts "t1"
            (FactStory.triple "Bob" "husband_of" "Alice" None) 1700000000 (1 # 2) _ _ _ _ _ _ _ _ _ _ FactStory.bob_checked);
    try reflexivity; try (split_and!; [simpl; lia|reflexivity|repeat constructor]).
  - split; [done|repeat constructor].
  - by left.
Defined.
