(* ===== verification/Ranking.v ===== *)
(** * Ranking operators

    [src/src/algo/ranking.rs]: reciprocal rank fusion and the two sorts of search
    results, with their binary64 scores. The map of scores is walked in an order of
    its own; the results do not depend on it. *)

From Stdlib Require Import ZArith Lia String Ascii SpecFloat.
From stdpp Require Import base tactics list gmap strings numbers sorting.
From S2P Require Import Prelude Text Order Float.
Open Scope Z_scope.

(** ** The operators *)

(** The trait [RankedMemoryItem]. *)
Class RankedMemoryItem (T : Type) := {
  memory_id : T → string;
  similarity_score : T → f32;
  effective_importance : T → f64;
}.

Record FusedRank := MkFusedRank { fk_id : string; fk_score : f64 }.

Definition compare_score_desc_then_id (left_score : f64) (left_id : string) (right_score : f64) (right_id : string)
    : comparison :=
  then_with (partial_cmp right_score left_score) (String.compare left_id right_id).

(** The turn for one identifier at one rank. *)
Definition rrf_score (rank_constant : f64) (rank : nat) : f64 :=
  f64_div f64_one (f64_add (f64_add rank_constant (f64_of_int (Z.of_nat rank))) f64_one).

Definition add_score (rank_constant : f64) (scores : gmap string f64) (entry : nat * string) : gmap string f64 :=
  let '(rank, id) := entry in
  <[id := f64_add (default f64_zero (scores !! id)) (rrf_score rank_constant rank)]> scores.

Definition rrf_scores (rank_constant : f64) (lists : list (list string)) : gmap string f64 :=
  foldl (fun scores l => foldl (add_score rank_constant) scores (zip (seq 0 (length l)) l)) ∅ lists.

Definition fused_leb (a b : FusedRank) : bool :=
  not_gt (compare_score_desc_then_id (fk_score a) (fk_id a) (fk_score b) (fk_id b)).

(** [into_iter] is the order of the hash map. *)
Definition fuse (into_iter : gmap string f64 → list (string * f64)) (rank_constant : f64) (lists : list (list string))
    : list FusedRank :=
  sort_by fused_leb ((fun e => MkFusedRank e.1 e.2) <$> into_iter (rrf_scores rank_constant lists)).

Definition RANK_CONSTANT : f64 := f64_of_int 60.

Section items.
Context {T : Type} `{RankedMemoryItem T}.

Definition similarity_leb (a b : T) : bool :=
  not_gt (compare_score_desc_then_id (f64_of_f32 (similarity_score a)) (memory_id a)
            (f64_of_f32 (similarity_score b)) (memory_id b)).

Definition sort_by_similarity_desc_then_id (items : list T) : list T := sort_by similarity_leb items.

Definition importance_leb (a b : T) : bool :=
  not_gt (partial_cmp (effective_importance b) (effective_importance a)).

Definition rerank_by_effective_importance (items : list T) : list T := sort_by importance_leb items.
End items.

(** ** Sorting by scores that are numbers *)

(** A sort only depends on how the elements of its list compare. *)
Lemma insert_by_ext {A} (f g : A → A → bool) x l :
  (∀ y, y ∈ l → f x y = g x y) → insert_by f x l = insert_by g x l.
Proof.
  induction l as [|y l IH]; intros Hl; simpl; [done|]. rewrite (Hl y) by left. rewrite IH; [done|].
  intros z Hz. apply Hl. by right.
Qed.

Lemma sort_by_ext {A} (f g : A → A → bool) l :
  (∀ x y, x ∈ l → y ∈ l → f x y = g x y) → sort_by f l = sort_by g l.
Proof.
  induction l as [|x l IH]; intros Hl; simpl; [done|]. rewrite IH by (intros; apply Hl; by right).
  apply insert_by_ext. intros y Hy. rewrite elem_of_sort_by in Hy. apply Hl; [left|by right].
Qed.

(** A sort by an order in which only equal elements tie has one outcome. *)
Lemma sort_by_unique {A} (cmp : A → A → comparison) `{!Comparator cmp} (l l' : list A) :
  (∀ x y, x ∈ l → y ∈ l → cmp x y = Eq → x = y) → l ≡ₚ l' →
  sort_by (fun x y => not_gt (cmp x y)) l = sort_by (fun x y => not_gt (cmp x y)) l'.
Proof.
  intros Heq Hp. set (leb := fun x y => not_gt (cmp x y)).
  pose proof (sort_by_cmp_sorted cmp l) as H1. pose proof (sort_by_cmp_sorted cmp l') as H2.
  assert (Hs : sort_by leb l ≡ₚ sort_by leb l') by (by rewrite !sort_by_perm).
  fold leb in H1, H2. pose proof (elem_of_sort_by leb) as Hin.
  assert (Hm : ∀ x, x ∈ sort_by leb l → x ∈ l) by (intros x; by rewrite Hin).
  revert Hs H2 Hm. generalize (sort_by leb l'). clear Hp. induction H1 as [|x s Hs' IH Hx]; intros s' Hp H2 Hm.
  { by apply Permutation_nil_l in Hp. }
  destruct H2 as [|y s' Hs2 Hy]; [by apply Permutation_nil_r in Hp|].
  assert (x = y) as ->.
  { assert (Hxy : x ∈ y :: s') by (rewrite <- Hp; left). assert (Hyx : y ∈ x :: s) by (rewrite Hp; left).
    apply elem_of_cons in Hxy as [->|Hxy]; [done|]. apply elem_of_cons in Hyx as [->|Hyx]; [done|].
    rewrite Forall_forall in Hx, Hy. specialize (Hx y Hyx). specialize (Hy x Hxy). simpl in Hx, Hy.
    apply Heq; [apply Hm; left|apply Hm; by right|]. unfold leb in Hx, Hy.
    rewrite (cmp_antisym (cmp := cmp) x y) in Hy. by destruct (cmp x y). }
  f_equal. apply IH; [by apply Permutation_cons_inv in Hp|done|]. intros z Hz. apply Hm. by right.
Qed.

Definition scored_cmp (a b : FusedRank) : comparison :=
  then_with (float_cmp (fk_score b) (fk_score a)) (String.compare (fk_id a) (fk_id b)).

#[export] Instance scored_comparator : Comparator scored_cmp.
Proof.
  apply (lex_comparator _ _ (flip_comparator _ (on_comparator fk_score _ float_comparator))
           (on_comparator fk_id _ string_comparator)).
Qed.

Lemma fused_leb_numbers a b : is_number (fk_score a) → is_number (fk_score b) → fused_leb a b = not_gt (scored_cmp a b).
Proof. intros Ha Hb. unfold fused_leb, compare_score_desc_then_id, scored_cmp. by rewrite partial_cmp_number. Qed.

(** ** The scores of a fusion are numbers *)
Lemma rrf_score_nonneg k rank : nonneg k → nonneg (rrf_score k rank).
Proof.
  intros Hk. apply (SFdiv_nonneg 53 1024). apply SFadd_nonneg; [|done]. apply SFadd_nonneg; [done|].
  apply normalize_nonneg. lia.
Qed.

Definition all_nonneg (scores : gmap string f64) : Prop := ∀ id s, scores !! id = Some s → nonneg s.

Lemma add_scores_nonneg k l scores : nonneg k → all_nonneg scores → all_nonneg (foldl (add_score k) scores l).
Proof.
  intros Hk. revert scores. induction l as [|[rank id] l IH]; intros scores Hs; simpl; [done|]. apply IH.
  intros id' s. destruct (decide (id' = id)) as [->|Hne].
  - rewrite lookup_insert_eq. intros [= <-]. apply SFadd_nonneg; [|by apply rrf_score_nonneg].
    destruct (scores !! id) as [s|] eqn:E; simpl; [by apply (Hs id)|done].
  - rewrite lookup_insert_ne by done. apply Hs.
Qed.

Lemma rrf_scores_nonneg k lists : nonneg k → all_nonneg (rrf_scores k lists).
Proof.
  intros Hk. unfold rrf_scores. assert (Hs : all_nonneg ∅) by (intros id s; by rewrite lookup_empty).
  revert Hs. generalize (∅ : gmap string f64). induction lists as [|l lists IH]; intros scores Hs; simpl; [done|].
  apply IH. by apply add_scores_nonneg.
Qed.

(** The map has the identifiers of the lists. *)
Lemma add_scores_keys k entries scores id :
  is_Some (foldl (add_score k) scores entries !! id) ↔ is_Some (scores !! id) ∨ id ∈ entries.*2.
Proof.
  revert scores. induction entries as [|[rank id'] entries IH]; intros scores; simpl; [set_solver|].
  rewrite IH. destruct (decide (id = id')) as [->|Hne].
  - rewrite lookup_insert_eq. set_solver.
  - rewrite lookup_insert_ne by done. set_solver.
Qed.

Lemma zip_ids (l : list string) : (zip (seq 0 (length l)) l).*2 = l.
Proof. apply snd_zip. by rewrite length_seq. Qed.

Lemma rrf_scores_keys k lists id : is_Some (rrf_scores k lists !! id) ↔ ∃ l, l ∈ lists ∧ id ∈ l.
Proof.
  unfold rrf_scores. assert (H : ∀ scores : gmap string f64,
    is_Some (foldl (fun scores l => foldl (add_score k) scores (zip (seq 0 (length l)) l)) scores lists !! id)
    ↔ is_Some (scores !! id) ∨ ∃ l, l ∈ lists ∧ id ∈ l).
  { induction lists as [|l lists IH]; intros scores; simpl; [set_solver|].
    rewrite IH, add_scores_keys, zip_ids. set_solver. }
  rewrite H, lookup_empty. split; [intros [[? ?]|?]; done|by right].
Qed.

Section fusion.
Variables (into_iter : gmap string f64 → list (string * f64)) (k : f64) (lists : list (list string)).
Hypothesis walks : ∀ m, into_iter m ≡ₚ map_to_list m.
Hypothesis constant_ok : nonneg k.

Definition ranks (m : gmap string f64) : list FusedRank := (fun e => MkFusedRank e.1 e.2) <$> into_iter m.

Lemma elem_of_ranks m r : r ∈ ranks m ↔ m !! fk_id r = Some (fk_score r).
Proof.
  unfold ranks. rewrite list_elem_of_fmap. setoid_rewrite walks. split.
  - intros ([id s] & -> & Hin). by apply elem_of_map_to_list in Hin.
  - intros E. exists (fk_id r, fk_score r). rewrite elem_of_map_to_list. by destruct r.
Qed.

Lemma ranks_NoDup m : NoDup (fk_id <$> ranks m).
Proof.
  unfold ranks. rewrite <- list_fmap_compose. rewrite (fmap_Permutation _ _ _ (walks m)).
  rewrite (list_fmap_ext _ fst) by done. apply NoDup_fst_map_to_list.
Qed.

Lemma rank_number r : r ∈ ranks (rrf_scores k lists) → is_number (fk_score r).
Proof. intros Hr%elem_of_ranks. eapply nonneg_number, rrf_scores_nonneg; [exact constant_ok|exact Hr]. Qed.

Lemma fuse_numbers :
  fuse into_iter k lists = sort_by (fun a b => not_gt (scored_cmp a b)) (ranks (rrf_scores k lists)).
Proof. apply sort_by_ext. intros a b Ha Hb. by apply fused_leb_numbers; apply rank_number. Qed.

Lemma fuse_elem r : r ∈ fuse into_iter k lists ↔ rrf_scores k lists !! fk_id r = Some (fk_score r).
Proof. unfold fuse. rewrite elem_of_sort_by. apply elem_of_ranks. Qed.
End fusion.

(** Larger scores first, and identifiers in order where scores are equal. *)
Definition ranked_before (a b : FusedRank) : Prop :=
  SFcompare (fk_score b) (fk_score a) = Some Lt
  ∨ SFcompare (fk_score b) (fk_score a) = Some Eq ∧ String.compare (fk_id a) (fk_id b) ≠ Gt.

Lemma scored_before a b :
  is_number (fk_score a) → is_number (fk_score b) → not_gt (scored_cmp a b) = true → ranked_before a b.
Proof.
  intros Ha Hb. unfold scored_cmp, ranked_before. rewrite <- partial_cmp_number by done. unfold partial_cmp.
  assert (is_Some (SFcompare (fk_score b) (fk_score a))) as [c ->].
  { destruct (fk_score a), (fk_score b); done. }
  destruct c; simpl; [|auto|done]. destruct (String.compare _ _); by auto.
Qed.

(** Rank fusion is a function of the ranked lists. For a rank constant that is
    not negative, the fused list is the same in whatever order the hash map of
    scores is walked; it has every identifier of the lists once and no other, each
    with the sum of its reciprocal ranks; scores fall along the list, and equal
    scores are in the order of the identifiers. No score is ever NaN, so that the
    comparison used for sorting is a total order. *)
Theorem fuse_deterministic into_iter into_iter' k lists :
  (∀ m, into_iter m ≡ₚ map_to_list m) → (∀ m, into_iter' m ≡ₚ map_to_list m) → nonneg k →
  fuse into_iter k lists = fuse into_iter' k lists
  ∧ NoDup (fk_id <$> fuse into_iter k lists)
  ∧ (∀ id, id ∈ fk_id <$> fuse into_iter k lists ↔ ∃ l, l ∈ lists ∧ id ∈ l)
  ∧ (∀ r, r ∈ fuse into_iter k lists → rrf_scores k lists !! fk_id r = Some (fk_score r) ∧ is_number (fk_score r))
  ∧ StronglySorted ranked_before (fuse into_iter k lists).
Proof.
  intros Hw Hw' Hk. split_and!.
  - rewrite !fuse_numbers by done. apply sort_by_unique; [apply scored_comparator| |].
    + intros a b Ha Hb E. apply elem_of_ranks in Ha, Hb; [|done..].
      assert (fk_id a = fk_id b) as Hid.
      { unfold scored_cmp in E. destruct (float_cmp _ _); simpl in E; try done. by apply str_compare_eq. }
      rewrite Hid in Ha. destruct a, b. simpl in *. simplify_eq. done.
    + unfold ranks. apply fmap_Permutation. by rewrite Hw, Hw'.
  - unfold fuse. rewrite (fmap_Permutation _ _ _ (sort_by_perm _ _)). apply (ranks_NoDup into_iter Hw).
  - intros id. rewrite <- (rrf_scores_keys k), list_elem_of_fmap. setoid_rewrite (fuse_elem _ _ _ Hw).
    split; [intros (r & -> & E); eauto|]. intros [s E]. by exists (MkFusedRank id s).
  - intros r Hr%(fuse_elem _ _ _ Hw). split; [done|]. by eapply nonneg_number, rrf_scores_nonneg.
  - rewrite fuse_numbers by done. pose proof (sort_by_cmp_sorted scored_cmp (ranks into_iter (rrf_scores k lists))) as Hs.
    assert (Hn : Forall (fun r => is_number (fk_score r))
                   (sort_by (fun a b => not_gt (scored_cmp a b)) (ranks into_iter (rrf_scores k lists)))).
    { apply Forall_forall. intros r Hr. rewrite elem_of_sort_by in Hr. by apply (rank_number into_iter k lists Hw Hk). }
    induction Hs as [|a l Hl IH Ha]; [constructor|]. apply Forall_cons in Hn as [Hna Hn]. constructor; [by apply IH|].
    rewrite Forall_forall in Ha, Hn. apply Forall_forall. intros b Hb. apply scored_before; auto.
Qed.

Lemma fuse_deterministic_witness :
  fuse map_to_list RANK_CONSTANT [["a"; "b"]; ["b"; "c"]]%string
  = fuse (fun m => reverse (map_to_list m)) RANK_CONSTANT [["a"; "b"]; ["b"; "c"]]%string
  ∧ (fk_id <$> fuse map_to_list RANK_CONSTANT [["a"; "b"]; ["b"; "c"]])%string = ["b"; "a"; "c"]%string.
Proof.
  split; [|vm_compute; reflexivity].
  apply (fuse_deterministic map_to_list (fun m => reverse (map_to_list m)));
    [reflexivity|intros m; apply reverse_Permutation|vm_compute; reflexivity].
Defined.

(** ** The sorts of results *)

Section stable.
Context {T : Type} `{RankedMemoryItem T}.

(** The rerank keeps the results, and the order of those of one importance. *)
Lemma rerank_permutes (items : list T) : rerank_by_effective_importance items ≡ₚ items.
Proof. apply sort_by_perm. Qed.

Lemma similarity_permutes (items : list T) : sort_by_similarity_desc_then_id items ≡ₚ items.
Proof. apply sort_by_perm. Qed.

Definition importance_cmp (a b : T) : comparison := float_cmp (effective_importance b) (effective_importance a).

#[export] Instance importance_comparator : Comparator importance_cmp.
Proof. apply (flip_comparator _ (on_comparator effective_importance _ float_comparator)). Qed.

Lemma rerank_sorted (items : list T) :
  Forall (fun r => is_number (effective_importance r)) items →
  StronglySorted (fun a b => SFcompare (effective_importance b) (effective_importance a) ∈ [Some Lt; Some Eq])
    (rerank_by_effective_importance items).
Proof.
  intros Hn. unfold rerank_by_effective_importance.
  rewrite (sort_by_ext _ (fun a b => not_gt (importance_cmp a b))).
  2:{ intros a b Ha Hb. rewrite Forall_forall in Hn. unfold importance_leb, importance_cmp.
      by rewrite partial_cmp_number by auto. }
  pose proof (sort_by_cmp_sorted importance_cmp items) as Hs.
  assert (Hn' : Forall (fun r => is_number (effective_importance r)) (sort_by (fun a b => not_gt (importance_cmp a b)) items))
    by (by rewrite sort_by_perm).
  induction Hs as [|a l Hl IH Ha]; [constructor|]. apply Forall_cons in Hn' as [Hna Hn']. constructor; [by apply IH|].
  rewrite Forall_forall in Ha, Hn'. apply Forall_forall. intros b Hb. specialize (Ha b Hb). specialize (Hn' b Hb). simpl in *.
  unfold importance_cmp in Ha. rewrite <- partial_cmp_number in Ha by done. unfold partial_cmp in Ha.
  assert (is_Some (SFcompare (effective_importance b) (effective_importance a))) as [c E].
  { destruct (effective_importance a), (effective_importance b); done. }
  rewrite E in *. destruct c; set_solver.
Qed.
End stable.
