(* ===== verification/Search.v ===== *)
(** * Search

    [src/src/search/mod.rs], [filter.rs], [route.rs], [rerank.rs], with the scopes of
    [src/src/core/project.rs], the temporal rules of [decay.rs], the raw turns of
    [strata.rs] and the queries of [db.rs] they use. The full-text index, the
    nearest-neighbour index, the embedder and the reranker are given; their answers
    are joined with the drawers, filtered, fused, extended and ranked here. *)

From Stdlib Require Import ZArith QArith Lia String Ascii SpecFloat.
From stdpp Require Import base tactics list gmap strings numbers sets.
From S2P Require Import Chars Aaak AaakCodec Utf8.
From S2P Require Import Prelude Order Text Float Rfc3339 Sqlite Ranking Drawer DrawerStore Tunnels.
Close Scope Q_scope.
Open Scope Z_scope.
Open Scope string_scope.
Open Scope rust_scope.

(** ** Scopes *)
Inductive ProjectFilterMode := AllProjects | ProjectScoped | ProjectPlusGlobal | NullOnly.

Definition as_sql_mode (m : ProjectFilterMode) : string :=
  match m with
  | AllProjects => "all"
  | ProjectScoped => "project"
  | ProjectPlusGlobal => "project_plus_global"
  | NullOnly => "null_only"
  end.

Inductive SearchResultSource := FromProject | FromGlobal | TunnelCrossProject.
#[export] Instance source_eq_dec : EqDecision SearchResultSource.
Proof. solve_decision. Defined.

Record ProjectSearchScope := MkScope { ps_project_id : option string; ps_mode : ProjectFilterMode }.

Definition all_projects : ProjectSearchScope := MkScope None AllProjects.

Definition from_request (resolved : option string) (include_global all strict : bool) : ProjectSearchScope :=
  if all then all_projects
  else match resolved with
       | Some p => MkScope (Some p) (if include_global then ProjectPlusGlobal else ProjectScoped)
       | None => if strict then MkScope None NullOnly else all_projects
       end.

Definition allows_row (scope : ProjectSearchScope) (row_project_id : option string) : bool :=
  match ps_mode scope with
  | AllProjects => true
  | ProjectScoped => bool_decide (row_project_id = ps_project_id scope)
  | ProjectPlusGlobal => bool_decide (row_project_id = None) || bool_decide (row_project_id = ps_project_id scope)
  | NullOnly => bool_decide (row_project_id = None)
  end.

Definition classify_row (row_project_id : option string) : SearchResultSource :=
  match row_project_id with Some _ => FromProject | None => FromGlobal end.

(** ** What a search asks for *)
Record SearchFilters := MkFilters {
  sf_memory_kind : option string;
  sf_domain : option string;
  sf_field : option string;
  sf_tier : option string;
  sf_status : option string;
  sf_anchor_kind : option string;
}.

Definition filters_default : SearchFilters := MkFilters None None None None None None.

Definition filters_empty (f : SearchFilters) : bool :=
  let none (o : option string) := match o with None => true | Some _ => false end in
  none (sf_memory_kind f) && none (sf_domain f) && none (sf_field f) && none (sf_tier f) && none (sf_status f)
  && none (sf_anchor_kind f).

Record SearchOptions := MkOptions {
  so_filters : SearchFilters;
  so_with_neighbors : bool;
  so_include_raw_turns : bool;
  so_include_expired : bool;
}.

Definition options_default : SearchOptions := MkOptions filters_default false false false.

Record RouteDecision := MkRoute {
  rd_wing : option string;
  rd_room : option string;
  rd_confidence : f32;
  rd_reason : string;
}.

Record NeighborChunk := MkNeighbor { nc_drawer_id : string; nc_content : string; nc_chunk_index : Z }.
Record ChunkNeighbors := MkNeighbors { cn_prev : option NeighborChunk; cn_next : option NeighborChunk }.

Record SearchResult := MkResult {
  sr_drawer_id : string;
  sr_content : string;
  sr_wing : string;
  sr_room : option string;
  sr_source_file : string;
  sr_source : SearchResultSource;
  sr_source_type : SourceType;
  sr_confidence : Q;
  sr_memory_kind : MemoryKind;
  sr_domain : MemoryDomain;
  sr_field : string;
  sr_statement : option string;
  sr_tier : option KnowledgeTier;
  sr_status : option KnowledgeStatus;
  sr_anchor_kind : AnchorKind;
  sr_anchor_id : string;
  sr_parent_anchor_id : option string;
  sr_is_pinned : bool;
  sr_importance : Z;
  sr_similarity : f32;
  sr_route : RouteDecision;
  sr_chunk_index : option Z;
  sr_neighbors : option ChunkNeighbors;
  sr_tunnel_hints : list string;
  sr_effective_importance : f64;
  sr_matched_pattern_id : option string;
}.

#[export] Instance search_result_ranked : RankedMemoryItem SearchResult := {
  memory_id := sr_drawer_id;
  similarity_score := sr_similarity;
  effective_importance := sr_effective_importance;
}.

(** The fields a later stage changes: similarity, neighbours, hints, importance and
    pattern. *)
Definition with_scores (similarity : f32) (importance : f64) (pattern : option string) (r : SearchResult) : SearchResult :=
  MkResult (sr_drawer_id r) (sr_content r) (sr_wing r) (sr_room r) (sr_source_file r) (sr_source r) (sr_source_type r)
    (sr_confidence r) (sr_memory_kind r) (sr_domain r) (sr_field r) (sr_statement r) (sr_tier r) (sr_status r)
    (sr_anchor_kind r) (sr_anchor_id r) (sr_parent_anchor_id r) (sr_is_pinned r) (sr_importance r) similarity
    (sr_route r) (sr_chunk_index r) (sr_neighbors r) (sr_tunnel_hints r) importance pattern.

Definition with_hints (hints : list string) (neighbors : option ChunkNeighbors) (r : SearchResult) : SearchResult :=
  MkResult (sr_drawer_id r) (sr_content r) (sr_wing r) (sr_room r) (sr_source_file r) (sr_source r) (sr_source_type r)
    (sr_confidence r) (sr_memory_kind r) (sr_domain r) (sr_field r) (sr_statement r) (sr_tier r) (sr_status r)
    (sr_anchor_kind r) (sr_anchor_id r) (sr_parent_anchor_id r) (sr_is_pinned r) (sr_importance r) (sr_similarity r)
    (sr_route r) (sr_chunk_index r) neighbors hints (sr_effective_importance r) (sr_matched_pattern_id r).

Definition set_similarity (s : f32) (r : SearchResult) : SearchResult :=
  with_scores s (sr_effective_importance r) (sr_matched_pattern_id r) r.
Definition set_importance (i : f64) (r : SearchResult) : SearchResult :=
  with_scores (sr_similarity r) i (sr_matched_pattern_id r) r.

Inductive SearchError :=
  | EmbedQuery (message : string)
  | EmbedQueryTimeout (deadline_secs : Z)
  | MissingQueryVector
  | InvalidTopK
  | InvalidEmbeddingBlob (drawer_id : string)
  | KeywordSearch (message : string)
  | LoadTemporalMetadata (message : string)
  | VectorDimensionMismatch (current_dim new_dim : Z).

(** ** Filters as SQL evaluates them: a comparison with NULL is not true. *)
Definition sql_eq (a b : option string) : bool :=
  match a, b with Some x, Some y => x =? y | _, _ => false end.

(** [?n IS NULL OR column = ?n]. *)
Definition sql_optional (param column : option string) : bool :=
  match param with None => true | Some _ => sql_eq column param end.

Definition project_clause (mode : string) (project_id row_project : option string) : bool :=
  (mode =? "all")
  || (mode =? "project") && sql_eq row_project project_id
  || (mode =? "project_plus_global") && (sql_eq row_project project_id || bool_decide (row_project = None))
  || (mode =? "null_only") && bool_decide (row_project = None).

Definition build_filter_clause (route : RouteDecision) (scope : ProjectSearchScope) (row : Row) : bool :=
  is_active row && sql_optional (rd_wing route) (Some (r_wing row)) && sql_optional (rd_room route) (r_room row)
  && project_clause (as_sql_mode (ps_mode scope)) (ps_project_id scope) (r_project_id row).

Definition metadata_clause (f : SearchFilters) (row : Row) : bool :=
  sql_optional (sf_memory_kind f) (Some (r_memory_kind row)) && sql_optional (sf_domain f) (Some (r_domain row))
  && sql_optional (sf_field f) (Some (r_field row)) && sql_optional (sf_tier f) (r_tier row)
  && sql_optional (sf_status f) (r_status row) && sql_optional (sf_anchor_kind f) (Some (r_anchor_kind row)).

Definition build_retrieval_filter_clause (route : RouteDecision) (scope : ProjectSearchScope) (f : SearchFilters)
    (row : Row) : bool :=
  build_filter_clause route scope row && metadata_clause f row.

(** The filters once more, on a result. *)
Definition matches_filters (f : SearchFilters) (r : SearchResult) : bool :=
  let none_or (o : option string) (v : option string) := match o with None => true | Some _ => sql_eq o v end in
  none_or (sf_memory_kind f) (Some (memory_kind_as_str (sr_memory_kind r)))
  && none_or (sf_domain f) (Some (memory_domain_as_str (sr_domain r)))
  && none_or (sf_field f) (Some (sr_field r))
  && none_or (sf_tier f) (knowledge_tier_as_str <$> sr_tier r)
  && none_or (sf_status f) (knowledge_status_as_str <$> sr_status r)
  && none_or (sf_anchor_kind f) (Some (anchor_kind_as_str (sr_anchor_kind r))).

Definition retain_search_filters (f : SearchFilters) (results : list SearchResult) : list SearchResult :=
  if filters_empty f then results else List.filter (matches_filters f) results.

(** ** Raw turns *)
Record TurnsConfig := MkTurns { tc_raw_turn_wings : list string; tc_raw_turn_rooms : list string }.

Definition is_raw_turn (wing : string) (room : option string) (kind : option MemoryKind) (config : TurnsConfig) : bool :=
  if bool_decide (room = Some "facts") || bool_decide (kind = Some ProfileFact) then false
  else
    existsb (fun prefix => String.prefix prefix wing) (List.filter (fun p => negb (is_empty p)) (tc_raw_turn_wings config))
    || match room with
       | Some room => existsb (String.eqb room) (List.filter (fun p => negb (is_empty p)) (tc_raw_turn_rooms config))
       | None => false
       end.

Definition is_excluded_raw_turn (wing : string) (room : option string) (kind : MemoryKind) (importance : Z)
    (config : TurnsConfig) : bool :=
  (importance =? 0)%Z && is_raw_turn wing room (Some kind) config.

Definition is_excluded_raw_turn_result (config : TurnsConfig) (r : SearchResult) : bool :=
  is_excluded_raw_turn (sr_wing r) (sr_room r) (sr_memory_kind r) (sr_importance r) config.

(** ** Time *)
Inductive DecayMode := DecayNone | Exponential | Linear | Step.
#[export] Instance decay_mode_eq_dec : EqDecision DecayMode.
Proof. solve_decision. Defined.

Record DecayConfig := MkDecay {
  dc_mode : DecayMode;
  dc_half_life_days : Z;
  dc_step_full_days : Z;
  dc_step_reduced_weight : f64;
}.

Definition parse_temporal_timestamp_secs (value : string) : option Z :=
  let value := trim value in
  if is_empty value then None
  else match parse_i64 value with Some n => Some n | None => parse_rfc3339 value end.

Definition validity_window_contains_at (valid_from valid_until : option string) (now_secs : Z) : bool :=
  if match valid_from ≫= parse_temporal_timestamp_secs with Some from => (now_secs <? from)%Z | None => false end then false
  else if match valid_until ≫= parse_temporal_timestamp_secs with Some until => (until <? now_secs)%Z | None => false end
  then false
  else true.

(** ** What a search is given *)

(** A row of [drawer_vectors]: the bytes of the embedding. *)
Abbreviation blob := (list Z).

Record Pattern := MkPattern { pt_id : string; pt_signature : list f32; pt_exemplar_ids : list string }.

Record SearchTables := MkTables {
  tb_db : Db;
  tb_vectors : gmap string blob;
  tb_tunnels : tunnel_table;
  tb_patterns : list Pattern;  (* the active patterns of the model and the project *)
}.

Record SearchConfig := MkConfig {
  sc_bm25_fallback : bool;
  sc_search_deadline_secs : Z;
  sc_exclude_raw_turns : bool;
  sc_turns : TurnsConfig;
  sc_decay : DecayConfig;
  sc_tunnel_fanout_cap : Z;
  sc_tunnel_hints_display_cap : Z;
  sc_tunnel_penalty : f32;
  sc_patterns_enabled : bool;
  sc_surfacing_threshold : f32;
  sc_pattern_boost : f64;
}.

(** The indexes, the segmenter, [exp], and the order of the hash maps: the rows a
    full-text query matches, best rank first; the nearest neighbours of a vector
    among the rows of the projects a scope allows. *)
Class SearchEnv := {
  cut_for_search : string → list string;
  fts_match : string → list (string * f64);
  knn_match : list f32 → Z → (option string → bool) → list (string * f64);
  f64_exp : f64 → f64;
  lowercase : string → string;
  is_alphanumeric : Z → bool;
  scores_iter : gmap string f64 → list (string * f64);
}.

(** A row has one identifier: an index answers with it once. *)
Class SearchLaws (E : SearchEnv) : Prop := {
  scores_iter_permutes : ∀ m, scores_iter m ≡ₚ map_to_list m;
  fts_distinct : ∀ q, NoDup (fts_match q).*1;
  knn_distinct : ∀ v k keep, NoDup (knn_match v k keep).*1;
}.

Section search.
Context `{StoreEnv} {SE : SearchEnv}.

(** ** Decay *)
Definition search_decay_factor_at (added_at : string) (config : DecayConfig) (now_secs : Z) : f64 :=
  match parse_temporal_timestamp_secs added_at with
  | None => f64_one
  | Some added =>
      let age_days := f64_div (f64_of_int (Z.max (as_i64 (now_secs - added)) 0)) (f64_of_int 86400) in
      match dc_mode config with
      | DecayNone => f64_one
      | Exponential =>
          f64_exp (f64_div (f64_mul (f64_of_q (-693 # 1000)) age_days) (f64_of_int (dc_half_life_days config)))
      | Linear => float_max (f64_sub f64_one (f64_div age_days (f64_of_int (dc_half_life_days config)))) f64_zero
      | Step => if SFleb age_days (f64_of_int (dc_step_full_days config)) then f64_one else dc_step_reduced_weight config
      end
  end.

(** ** Results from drawers *)
Definition source_file_or_synthetic (id : string) (source_file : option string) : string :=
  match trim <$> source_file with
  | Some value => if is_empty value then "mempal://drawer/" +:+ id else value
  | None => "mempal://drawer/" +:+ id
  end.

Definition result_from_drawer (d : Drawer) (source : SearchResultSource) (similarity : f32) (route : RouteDecision)
    : SearchResult :=
  MkResult (d_id d) (d_content d) (d_wing d) (d_room d) (source_file_or_synthetic (d_id d) (d_source_file d)) source
    (d_source_type d) (d_confidence d) (d_memory_kind d) (d_domain d) (d_field d) (d_statement d) (d_tier d)
    (d_status d) (d_anchor_kind d) (d_anchor_id d) (d_parent_anchor_id d) (d_is_pinned d) (d_importance d) similarity
    route (d_chunk_index d) None [] (f64_of_q (d_effective_importance d)) None.

Definition hydrate_result_metadata (db : Db) (r : SearchResult) : SearchResult :=
  match get_drawer db (sr_drawer_id r) with
  | Ok (Some d) => result_from_drawer d (sr_source r) (sr_similarity r) (sr_route r)
  | _ => r
  end.

(** The result of a vector query, before its drawer is read. *)
Definition bare_result (id : string) (row : Row) (distance : f64) (route : RouteDecision) : SearchResult :=
  MkResult id (r_content row) (r_wing row) (r_room row) (source_file_or_synthetic id (r_source_file row))
    (classify_row (r_project_id row)) AgentInference (default_confidence AgentInference) Evidence DomainProject ""
    None None None AnchorGlobal "" None false 0 (f32_of_f64 (f64_sub f64_one distance)) route None None [] f64_zero None.

(** ** Keyword search *)
Definition is_cjk (c : Z) : bool :=
  ((19968 <=? c) && (c <=? 40959) || (13312 <=? c) && (c <=? 19903) || (63744 <=? c) && (c <=? 64255))%Z.

Definition contains_cjk (s : string) : bool := existsb is_cjk (decode_str s).

(** The words of a term, less those that contain another. *)
Definition cjk_words (term : string) : list string :=
  let words := List.filter (fun w => negb (is_empty (trim w))) (cut_for_search term) in
  List.filter (fun w => negb ((1 <? char_count w)%Z
                              && existsb (fun other => negb (other =? w) && contains other w) words)) words.

Definition segment_cjk_query (query : string) : list string :=
  concat ((fun term => if contains_cjk term then cjk_words term else [term])
            <$> (encode_str <$> split_whitespace (decode_str query))).

(** Quotes doubled, in quotes. *)
Fixpoint double_quotes (s : string) : string :=
  match s with
  | EmptyString => EmptyString
  | String c rest => if Ascii.eqb c "034" then String c (String c (double_quotes rest)) else String c (double_quotes rest)
  end.

Definition quoted (s : string) : string := String "034" (double_quotes s +:+ String "034" "").

Definition build_fts_match_query (query : string) : option string :=
  match quoted <$> List.filter (fun term => negb (is_empty term)) (segment_cjk_query query) with
  | [] => None
  | terms => Some (String.concat " AND " terms)
  end.

Definition with_row (db : Db) (keep : Row → bool) (e : string * f64) : bool :=
  match db_drawers db !! e.1 with Some row => keep row | None => false end.

Definition search_fts_filtered (db : Db) (query : string) (route : RouteDecision) (scope : ProjectSearchScope)
    (f : SearchFilters) (limit : Z) : result (list (string * f64)) SearchError :=
  match build_fts_match_query query with
  | None => Ok []
  | Some match_query =>
      if (i64_max <? limit)%Z then Err (KeywordSearch "limit")
      else Ok (take (Z.to_nat limit)
                 (List.filter (with_row db (build_retrieval_filter_clause route scope f)) (fts_match match_query)))
  end.

(** ** Vector search *)
Definition f32_of_bits (bits : Z) : f32 :=
  let s := Z.testbit bits 31 in
  let e := Z.land (Z.shiftr bits 23) 255 in
  let m := Z.land bits 8388607 in
  if (e =? 255)%Z then (if (m =? 0)%Z then S754_infinity s else S754_nan)
  else if (e =? 0)%Z then (match m with Zpos p => S754_finite s p (-149) | _ => S754_zero s end)
  else match (m + 8388608)%Z with Zpos p => S754_finite s p (e - 150) | _ => S754_zero s end.

Fixpoint f32_from_le_bytes (b : blob) : list f32 :=
  match b with
  | b0 :: b1 :: b2 :: b3 :: rest => f32_of_bits (b0 + 256 * b1 + 65536 * b2 + 16777216 * b3)%Z :: f32_from_le_bytes rest
  | _ => []
  end.

Definition sum_f64 (l : list f64) : f64 := foldl f64_add f64_zero l.

Definition l2_norm (v : list f32) : f64 :=
  f64_sqrt (sum_f64 ((fun x => f64_mul (f64_of_f32 x) (f64_of_f32 x)) <$> v)).

Definition is_zero (x : spec_float) : bool := match x with S754_zero _ => true | _ => false end.

Definition cosine_distance_from_blob_with_norm (id : string) (b : blob) (query : list f32) (query_norm : f64)
    : result f64 SearchError :=
  if negb (length b mod 4 =? 0)%nat then Err (InvalidEmbeddingBlob id)
  else
    let embedding := f32_from_le_bytes b in
    if negb (length embedding =? length query)%nat then Err (InvalidEmbeddingBlob id)
    else
      let dot := sum_f64 ((fun e => f64_mul (f64_of_f32 e.1) (f64_of_f32 e.2)) <$> zip embedding query) in
      let left_norm := l2_norm embedding in
      let similarity := if is_zero left_norm || is_zero query_norm then f64_zero
                        else f64_div dot (f64_mul left_norm query_norm) in
      Ok (float_clamp (f64_sub f64_one similarity) f64_zero (f64_of_int 2)).

Record ExactCandidate := MkCandidate { ec_id : string; ec_row : Row; ec_blob : blob }.

Definition candidate_cmp (a b : result f64 SearchError * ExactCandidate) : comparison :=
  match a.1, b.1 with
  | Ok left_, Ok right_ => then_with (partial_cmp left_ right_) (String.compare (ec_id a.2) (ec_id b.2))
  | Ok _, Err _ => Lt
  | Err _, Ok _ => Gt
  | Err _, Err _ => String.compare (ec_id a.2) (ec_id b.2)
  end.

Definition rank_exact_candidates (rows : list ExactCandidate) (top_k : nat)
    (distance : string → blob → result f64 SearchError) : list (result f64 SearchError * ExactCandidate) :=
  take top_k (sort_by (fun a b => not_gt (candidate_cmp a b))
                ((fun row => (distance (ec_id row) (ec_blob row), row)) <$> rows)).

(** [drawer_vectors v JOIN drawers d ON d.id = v.id] where the drawer passes; the
    rows come in the order of the query plan. *)
Definition vector_candidates (t : SearchTables) (keep : Row → bool) : list ExactCandidate :=
  omap (fun id =>
    match tb_vectors t !! id, db_drawers (tb_db t) !! id with
    | Some b, Some row => if keep row then Some (MkCandidate id row b) else None
    | _, _ => None
    end) (plan (map_to_list (tb_vectors t)).*1).

Definition EXACT_VECTOR_CANDIDATE_LIMIT : Z := 4096.

Definition count_vector_candidate_drawers (t : SearchTables) (route : RouteDecision) (scope : ProjectSearchScope)
    (f : SearchFilters) : Z :=
  Z.of_nat (length (vector_candidates t (build_retrieval_filter_clause route scope f))).

Fixpoint bare_results (route : RouteDecision) (ranked : list (result f64 SearchError * ExactCandidate))
    : result (list SearchResult) SearchError :=
  match ranked with
  | [] => Ok []
  | (distance, c) :: rest =>
      let? distance := distance in
      let? more := bare_results route rest in
      Ok (bare_result (ec_id c) (ec_row c) distance route :: more)
  end.

Definition search_by_vector_scoped_exact (t : SearchTables) (query : list f32) (route : RouteDecision)
    (scope : ProjectSearchScope) (f : SearchFilters) (top_k : Z) : result (list SearchResult) SearchError :=
  if (i64_max <? top_k)%Z then Err InvalidTopK
  else
    let rows := vector_candidates t (build_retrieval_filter_clause route scope f) in
    let query_norm := l2_norm query in
    let ranked := rank_exact_candidates rows (Z.to_nat top_k)
                    (fun id b => cosine_distance_from_blob_with_norm id b query query_norm) in
    let? results := bare_results route ranked in
    Ok (hydrate_result_metadata (tb_db t) <$> results).

Definition compute_knn_k (top_k : Z) : Z :=
  Z.max 100 (Z.min EXACT_VECTOR_CANDIDATE_LIMIT (Z.min i64_max (sat_u64 (top_k * 50)))).

Definition search_by_vector_scoped_knn (t : SearchTables) (query : list f32) (route : RouteDecision)
    (scope : ProjectSearchScope) (top_k : Z) : result (list SearchResult) SearchError :=
  if (i64_max <? top_k)%Z then Err InvalidTopK
  else
    let in_projects := project_clause (as_sql_mode (ps_mode scope)) (ps_project_id scope) in
    let matches := sort_by (fun a b => not_gt (partial_cmp a.2 b.2)) (knn_match query (compute_knn_k top_k) in_projects) in
    let kept := take (Z.to_nat top_k) (List.filter (with_row (tb_db t) (build_filter_clause route scope)) matches) in
    Ok (omap (fun e => (fun row => hydrate_result_metadata (tb_db t) (bare_result e.1 row e.2 route))
                         <$> db_drawers (tb_db t) !! e.1) kept).

Definition search_by_vector_with_filters (t : SearchTables) (query : list f32) (route : RouteDecision)
    (scope : ProjectSearchScope) (f : SearchFilters) (top_k : Z) : result (list SearchResult) SearchError :=
  if (top_k =? 0)%Z then Ok []
  else
    let candidate_count := count_vector_candidate_drawers t route scope f in
    if (candidate_count =? 0)%Z then Ok []
    else if (candidate_count <=? EXACT_VECTOR_CANDIDATE_LIMIT)%Z
    then search_by_vector_scoped_exact t query route scope f top_k
    else search_by_vector_scoped_knn t query route scope top_k.

(** ** Fusion *)
Definition index_results (results : list SearchResult) : gmap string SearchResult :=
  foldl (fun m r => <[sr_drawer_id r := r]> m) ∅ results.

Definition add_fts_result (db : Db) (route : RouteDecision) (m : gmap string SearchResult) (e : string * f64)
    : gmap string SearchResult :=
  match m !! e.1 with
  | Some _ => m
  | None =>
      match get_drawer db e.1 with
      | Ok (Some d) =>
          <[e.1 := result_from_drawer d (classify_row (drawer_project_id db e.1)) (S754_zero false) route]> m
      | _ => m
      end
  end.

(** [result_map.remove], over identifiers that are distinct. *)
Fixpoint pick_ranked (m : gmap string SearchResult) (ranks : list FusedRank) : list SearchResult :=
  match ranks with
  | [] => []
  | rank :: rest =>
      match m !! fk_id rank with
      | Some r => set_similarity (f32_of_f64 (fk_score rank)) r :: pick_ranked (delete (fk_id rank) m) rest
      | None => pick_ranked m rest
      end
  end.

Definition rrf_merge (vector_results : list SearchResult) (fts_ids : list (string * f64)) (route : RouteDecision)
    (db : Db) (top_k : Z) : list SearchResult :=
  let fused := fuse scores_iter RANK_CONSTANT [sr_drawer_id <$> vector_results; fts_ids.*1] in
  let m := foldl (add_fts_result db route) (index_results vector_results) fts_ids in
  take (Z.to_nat top_k) (pick_ranked m fused).

(** ** Tunnels *)

(** [GROUP_CONCAT(DISTINCT wing)] per room, for the rooms of several wings, and the
    split at commas that follows. *)
Fixpoint split_commas (s : string) : list string :=
  match s with
  | EmptyString => [""]
  | String c rest =>
      match split_commas rest with
      | part :: parts => if Ascii.eqb c "," then "" :: part :: parts else String c part :: parts
      | [] => [String c ""]
      end
  end.

Definition rooms_in_use (db : Db) : list (string * string) :=
  omap (fun id =>
    match db_drawers db !! id with
    | Some row => match is_active row, r_room row with
                  | true, Some room => if is_empty room then None else Some (room, r_wing row)
                  | _, _ => None
                  end
    | None => None
    end) (plan (map_to_list (db_drawers db)).*1).

Definition wings_of_room (db : Db) (room : string) : list string :=
  remove_dups (omap (fun e => if e.1 =? room then Some e.2 else None) (rooms_in_use db)).

Definition find_tunnels (db : Db) : list (string * list string) :=
  let rooms := sort_by (fun a b => not_gt (String.compare a b)) (remove_dups (rooms_in_use db).*1) in
  omap (fun room => let wings := wings_of_room db room in
                    if (1 <? length wings)%nat then Some (room, split_commas (String.concat "," wings)) else None) rooms.

(** [CAST(added_at AS INTEGER) DESC, id DESC]. *)
Definition latest_first (a b : string * Row) : comparison :=
  then_with (Z.compare (cast_integer (r_added_at b.2)) (cast_integer (r_added_at a.2))) (String.compare b.1 a.1).

Definition other_project (current : string) (row : Row) : bool :=
  match r_project_id row with Some p => negb (p =? current) | None => false end.

Definition tunnel_drawers_for_room (db : Db) (room exclude : string) (current : option string) (limit : Z)
    : result (list Drawer) StoreError :=
  match current with
  | None => Ok []
  | Some current =>
      if (i64_max <? limit)%Z then Err (InvalidSourceType "limit")
      else decode_rows (take (Z.to_nat limit) (sort_by (fun a b => not_gt (latest_first a b))
        (List.filter (fun e => is_active e.2 && sql_eq (r_room e.2) (Some room) && negb (e.1 =? exclude)
                               && other_project current e.2)
           (map_to_list (db_drawers db)))))
  end.

Definition tunnel_hints (t : SearchTables) (config : SearchConfig) (tunnels : list (string * list string)) (room : string)
    (r : SearchResult) : list string :=
  match list_find (fun e => e.1 = room) tunnels with
  | None => sr_tunnel_hints r
  | Some (_, (_, wings)) =>
      let others := List.filter (fun w => negb (w =? sr_wing r)) wings in
      let explicit := match explicit_tunnel_hints (sr_wing r) (Some room) (tb_tunnels t) with
                      | Some (Ok hints) => hints
                      | _ => []
                      end in
      let combined := foldl (fun acc hint => if bool_decide (hint ∈ acc) then acc else acc ++ [hint])%list others explicit in
      let total := Z.of_nat (length combined) in
      let cap := sc_tunnel_hints_display_cap config in
      (take (Z.to_nat cap) combined
       ++ if (cap <? total)%Z then ["… +" +:+ show (total - cap) +:+ " more"] else [])%list
  end.

(** The drawers of one room that become results: unseen ones, up to the cap. *)
Fixpoint add_tunnel_drawers (config : SearchConfig) (r : SearchResult) (drawers : list Drawer) (added : Z)
    (seen : gset string) : gset string * list SearchResult :=
  match drawers with
  | [] => (seen, [])
  | d :: rest =>
      if (sc_tunnel_fanout_cap config <=? added)%Z then (seen, [])
      else if bool_decide (d_id d ∈ seen) then add_tunnel_drawers config r rest added seen
      else
        let found := result_from_drawer d TunnelCrossProject (sr_similarity r) (sr_route r) in
        let found := with_scores (f32_mul (sr_similarity found) (sc_tunnel_penalty config))
                       (f64_mul (sr_effective_importance found) (f64_of_f32 (sc_tunnel_penalty config)))
                       (sr_matched_pattern_id found) found in
        let '(seen, more) := add_tunnel_drawers config r rest (added + 1) ({[d_id d]} ∪ seen) in
        (seen, found :: more)
  end.

(** The turn for one result: its hints, and what its room adds. *)
Definition inject_turn (t : SearchTables) (config : SearchConfig) (scope : ProjectSearchScope)
    (tunnels : list (string * list string)) (r : SearchResult) (seen : gset string)
    : SearchResult * gset string * list SearchResult :=
  match sr_room r with
  | None => (r, seen, [])
  | Some room =>
      let r := with_hints (tunnel_hints t config tunnels room r) (sr_neighbors r) r in
      if (sc_tunnel_fanout_cap config =? 0)%Z then (r, seen, [])
      else match tunnel_drawers_for_room (tb_db t) room (sr_drawer_id r) (ps_project_id scope)
                   (sat_u64 (sc_tunnel_fanout_cap config + 1)) with
           | Ok drawers => let '(seen, found) := add_tunnel_drawers config r drawers 0 seen in (r, seen, found)
           | Err _ => (r, seen, [])
           end
  end.

Fixpoint inject_loop (t : SearchTables) (config : SearchConfig) (scope : ProjectSearchScope)
    (tunnels : list (string * list string)) (results : list SearchResult) (seen : gset string)
    : list SearchResult * list SearchResult :=
  match results with
  | [] => ([], [])
  | r :: rest =>
      let '(r, seen, found) := inject_turn t config scope tunnels r seen in
      let '(results, more) := inject_loop t config scope tunnels rest seen in
      (r :: results, found ++ more)%list
  end.

Definition inject_tunnel_hints_with_cap (t : SearchTables) (config : SearchConfig) (scope : ProjectSearchScope)
    (results : list SearchResult) : list SearchResult :=
  let tunnels := find_tunnels (tb_db t) in
  match tunnels with
  | [] => results
  | _ => let '(results, found) := inject_loop t config scope tunnels results (list_to_set (sr_drawer_id <$> results)) in
         (results ++ found)%list
  end.

(** ** Validity, importance, patterns, decay *)

(** [load_temporal_metadata]: one statement with a variable for each distinct drawer, which
    SQLite does not prepare beyond its limit on variables. What it reads are the rows of
    [db]; the two stages below take them from there. *)
Definition SQLITE_MAX_VARIABLE_NUMBER : Z := 32766.

Definition distinct_drawers (results : list SearchResult) : gset string := list_to_set (sr_drawer_id <$> results).

Definition load_temporal_metadata (results : list SearchResult) : result unit SearchError :=
  if (SQLITE_MAX_VARIABLE_NUMBER <? Z.of_nat (size (distinct_drawers results)))%Z
  then Err (LoadTemporalMetadata "too many SQL variables")
  else Ok tt.

Definition retain_currently_valid_results (db : Db) (now_secs : Z) (results : list SearchResult) : list SearchResult :=
  List.filter (fun r => match db_drawers db !! sr_drawer_id r with
                        | Some row => validity_window_contains_at (r_valid_from row) (r_valid_until row) now_secs
                        | None => true
                        end) results.

(** Its own statement binds no more variables than the one of [load_temporal_metadata],
    which ran before it. *)
Definition apply_consistent_effective_importance (db : Db) (results : list SearchResult) : list SearchResult :=
  (fun r => if bool_decide (sr_source r = TunnelCrossProject) then r
            else match db_drawers db !! sr_drawer_id r with
                 | Some row => set_importance (f64_of_q (select_effective_importance row)) r
                 | None => r
                 end) <$> results.

Definition cosine_similarity (a b : list f32) : f32 :=
  if negb (length a =? length b)%nat || (length a =? 0)%nat then S754_zero false
  else
    let dot := foldl f32_add (S754_zero false) ((fun e => f32_mul e.1 e.2) <$> zip a b) in
    let norm v := f32_sqrt (foldl f32_add (S754_zero false) ((fun x => f32_mul x x) <$> v)) in
    if is_zero (norm a) || is_zero (norm b) then S754_zero false
    else float_clamp (f32_div dot (f32_mul (norm a) (norm b))) (f32_of_int (-1)) (f32_of_int 1).

Definition boost_one (config : SearchConfig) (p : Pattern) (r : SearchResult) : SearchResult :=
  if bool_decide (sr_drawer_id r ∈ pt_exemplar_ids p)
  then with_scores (sr_similarity r) (f64_add (sr_effective_importance r) (sc_pattern_boost config)) (Some (pt_id p)) r
  else r.

Definition apply_pattern_boost (t : SearchTables) (config : SearchConfig) (query : list f32) (results : list SearchResult)
    : list SearchResult :=
  if (length results =? 0)%nat || (length query =? 0)%nat || negb (sc_patterns_enabled config) then results
  else
    foldl (fun results p =>
      if (length (pt_signature p) =? 0)%nat then results
      else if SFltb (cosine_similarity query (pt_signature p)) (sc_surfacing_threshold config) then results
      else boost_one config p <$> results) results (tb_patterns t).

Definition decay_one (db : Db) (config : DecayConfig) (now_secs : Z) (r : SearchResult) : SearchResult :=
  let factor := match db_drawers db !! sr_drawer_id r with
                | Some row => search_decay_factor_at (r_added_at row) config now_secs
                | None => f64_one
                end in
  with_scores (f32_mul (sr_similarity r) (f32_of_f64 factor)) (f64_mul (sr_effective_importance r) factor)
    (sr_matched_pattern_id r) r.

Definition apply_temporal_decay (db : Db) (config : DecayConfig) (now_secs : Z) (results : list SearchResult)
    : list SearchResult :=
  if bool_decide (dc_mode config = DecayNone) then results
  else sort_by_similarity_desc_then_id (decay_one db config now_secs <$> results).

(** ** Neighbours *)
Definition chunk_order (a b : string * Row) : comparison :=
  then_with (Z.compare (default 0 (r_chunk_index a.2)) (default 0 (r_chunk_index b.2))) (String.compare a.1 b.1).

Definition neighbor_chunks (db : Db) (source_file wing : string) (room : option string) (chunk_index : Z) : ChunkNeighbors :=
  let near row := is_active row && sql_eq (r_source_file row) (Some source_file) && (r_wing row =? wing)
                  && (match room with None => bool_decide (r_room row = None) | Some _ => sql_eq (r_room row) room end) in
  let rows := sort_by (fun a b => not_gt (chunk_order a b)) (List.filter (fun e => near e.2) (map_to_list (db_drawers db))) in
  let chunk_at i := head (omap (fun e => if bool_decide (r_chunk_index e.2 = Some i)
                                         then (fun n => MkNeighbor e.1 (r_content e.2) n) <$> try_u32 i else None) rows) in
  MkNeighbors (chunk_at (as_i64 (chunk_index - 1))) (chunk_at (as_i64 (chunk_index + 1))).

Definition inject_chunk_neighbors (db : Db) (results : list SearchResult) : list SearchResult :=
  (fun r => match sr_chunk_index r with
            | None => r
            | Some i =>
                let n := neighbor_chunks db (sr_source_file r) (sr_wing r) (sr_room r) i in
                match cn_prev n, cn_next n with
                | None, None => r
                | _, _ => with_hints (sr_tunnel_hints r) (Some n) r
                end
            end) <$> results.

(** ** The two pipelines *)
Definition exclude_raw (config : SearchConfig) (options : SearchOptions) : bool :=
  sc_exclude_raw_turns config && negb (so_include_raw_turns options).

Definition retain_durable (config : SearchConfig) (options : SearchOptions) (results : list SearchResult) : list SearchResult :=
  if exclude_raw config options
  then List.filter (fun r => negb (is_excluded_raw_turn_result (sc_turns config) r)) results
  else results.

Definition temporal_post_process (config : SearchConfig) (options : SearchOptions) : bool :=
  negb (so_include_expired options) || negb (bool_decide (dc_mode (sc_decay config) = DecayNone)).

Definition widened (top_k : Z) : Z := Z.max (sat_u64 (top_k * 20)) 100.

(** From the merged results to the list whose metadata is read: filters, raw turns,
    tunnels, filters again. *)
Definition collected (t : SearchTables) (config : SearchConfig) (scope : ProjectSearchScope) (options : SearchOptions)
    (results : list SearchResult) : list SearchResult :=
  let keep results := retain_durable config options (retain_search_filters (so_filters options) results) in
  keep (inject_tunnel_hints_with_cap t config scope (keep results)).

(** Further to the list before boosting: validity, stored importance. *)
Definition shaped (t : SearchTables) (config : SearchConfig) (scope : ProjectSearchScope) (options : SearchOptions)
    (now_secs : Z) (results : list SearchResult) : list SearchResult :=
  let results := collected t config scope options results in
  let results := if so_include_expired options then results
                 else retain_currently_valid_results (tb_db t) now_secs results in
  apply_consistent_effective_importance (tb_db t) results.

Definition finished (t : SearchTables) (options : SearchOptions) (top_k : Z) (results : list SearchResult)
    : list SearchResult :=
  let results := take (Z.to_nat top_k) (rerank_by_effective_importance results) in
  if so_with_neighbors options && (top_k <=? 10)%Z then inject_chunk_neighbors (tb_db t) results else results.

Definition search_with_vector_and_scope_options (t : SearchTables) (config : SearchConfig) (query : string)
    (vector : list f32) (route : RouteDecision) (scope : ProjectSearchScope) (options : SearchOptions) (top_k now_secs : Z)
    : result (list SearchResult) SearchError :=
  if (top_k =? 0)%Z then Ok []
  else
    let has_filters := negb (filters_empty (so_filters options)) || exclude_raw config options
                       || temporal_post_process config options in
    let candidate_top_k := if has_filters then widened top_k else top_k in
    let? vector_results := search_by_vector_with_filters t vector route scope (so_filters options) candidate_top_k in
    let? fts_ids := search_fts_filtered (tb_db t) query route scope (so_filters options) candidate_top_k in
    let results := match fts_ids with
                   | [] => vector_results
                   | _ => rrf_merge vector_results fts_ids route (tb_db t) candidate_top_k
                   end in
    let? _ := load_temporal_metadata (collected t config scope options results) in
    let results := apply_pattern_boost t config vector (shaped t config scope options now_secs results) in
    Ok (finished t options top_k (apply_temporal_decay (tb_db t) (sc_decay config) now_secs results)).

Definition search_bm25_only_with_options (t : SearchTables) (config : SearchConfig) (query : string)
    (route : RouteDecision) (scope : ProjectSearchScope) (options : SearchOptions) (top_k now_secs : Z)
    : result (list SearchResult) SearchError :=
  if (top_k =? 0)%Z then Ok []
  else
    let candidate_top_k := if exclude_raw config options || temporal_post_process config options
                           then widened top_k else top_k in
    let? fts_ids := search_fts_filtered (tb_db t) query route scope (so_filters options) candidate_top_k in
    let merged := rrf_merge [] fts_ids route (tb_db t) candidate_top_k in
    let? _ := load_temporal_metadata (collected t config scope options merged) in
    let results := shaped t config scope options now_secs merged in
    Ok (finished t options top_k (apply_temporal_decay (tb_db t) (sc_decay config) now_secs results)).

(** ** Routing *)
Record TaxonomyEntry := MkTaxonomy { tx_wing : string; tx_room : string; tx_keywords : list string }.

(** [split] at the characters that are not alphanumeric, without empty terms. *)
Fixpoint terms_loop (t current : list Z) : list (list Z) :=
  match t with
  | [] => [reverse current]
  | c :: rest => if is_alphanumeric c then terms_loop rest (c :: current) else reverse current :: terms_loop rest []
  end.

Definition query_terms (query : string) : list string :=
  encode_str <$> List.filter (fun term => negb (is_nil term)) (terms_loop (decode_str query) []).

Definition matched_keywords (query : string) (terms : list string) (entry : TaxonomyEntry) : list string :=
  List.filter (fun keyword => negb (is_empty keyword)
                              && (existsb (String.eqb keyword) terms || contains keyword query))
    ((fun keyword => lowercase (trim keyword)) <$> tx_keywords entry).

Definition match_cmp (a b : TaxonomyEntry * list string) : comparison :=
  let total e := foldl Nat.add 0%nat (String.length <$> e) in
  then_with (Nat.compare (length a.2) (length b.2))
    (then_with (Nat.compare (total a.2) (total b.2))
       (Nat.compare (length (tx_keywords a.1)) (length (tx_keywords b.1)))).

(** [max_by]: the last of the greatest. *)
Definition best_match (l : list (TaxonomyEntry * list string)) : option (TaxonomyEntry * list string) :=
  foldl (fun best e => match best with
                       | Some b => match match_cmp b e with Gt => Some b | _ => Some e end
                       | None => Some e
                       end) None l.

Definition route_query (query : string) (taxonomy : list TaxonomyEntry) : RouteDecision :=
  let normalized := lowercase query in
  let terms := query_terms normalized in
  match best_match (omap (fun entry => match matched_keywords normalized terms entry with
                                       | [] => None
                                       | found => Some (entry, found)
                                       end) taxonomy) with
  | None => MkRoute None None (f32_of_int 0) "global search: no taxonomy keyword match"
  | Some (entry, found) =>
      let room := if is_empty (tx_room entry) then None else Some (tx_room entry) in
      let confidence := match length found with
                        | 0%nat => f32_of_int 0
                        | 1%nat => f32_of_q (6 # 10)
                        | 2%nat => f32_of_q (8 # 10)
                        | _ => f32_of_int 1
                        end in
      MkRoute (Some (tx_wing entry)) room confidence
        ("taxonomy match: " +:+ tx_wing entry +:+ " / " +:+ default "default" room +:+ " via keywords ["
         +:+ String.concat ", " found +:+ "]")
  end.

Definition resolve_route (taxonomy : list TaxonomyEntry) (query : string) (wing room : option string) : RouteDecision :=
  let explicit scope := MkRoute wing room (f32_of_int 1) ("explicit filters provided: " +:+ scope) in
  match wing, room with
  | Some wing, Some room => explicit (wing +:+ "/" +:+ room)
  | Some wing, None => explicit wing
  | None, Some room => explicit ("room=" +:+ room)
  | None, None =>
      let route := route_query query taxonomy in
      if SFleb (f32_of_q (1 # 2)) (rd_confidence route) then route
      else MkRoute None None (rd_confidence route) (rd_reason route)
  end.

(** ** Reranking *)
Record RerankItem := MkRerankItem { ri_index : nat; ri_score : option f32 }.
Record RerankResponse := MkRerankResponse { rr_results : list RerankItem; rr_data : list RerankItem }.

Definition items (response : RerankResponse) : list RerankItem :=
  match rr_results response with [] => rr_data response | results => results end.

Definition is_finite (x : spec_float) : bool :=
  match x with S754_zero _ | S754_finite _ _ _ => true | _ => false end.

Definition scored_items (len : nat) (items : list RerankItem) : list (nat * f32) :=
  omap (fun item => if (len <=? ri_index item)%nat then None
                    else match ri_score item with
                         | Some score => if is_finite score then Some (ri_index item, score) else None
                         | None => None
                         end) items.

Definition rerank_leb (a b : nat * f32) : bool :=
  not_gt (then_with (partial_cmp b.2 a.2) (Nat.compare a.1 b.1)).

Definition push_index (ordered : list nat) (index : nat) : list nat :=
  if bool_decide (index ∈ ordered) then ordered else (ordered ++ [index])%list.

Definition reorder_indices (len : nat) (items : list RerankItem) : result (list nat) string :=
  match items with
  | [] => Err "missing results or data array"
  | _ =>
      match scored_items len items with
      | [] => Err "no valid scored candidate indices"
      | ranked => Ok (foldl push_index (foldl push_index [] (sort_by rerank_leb ranked).*1) (seq 0 len))
      end
  end.

(** The endpoint, as [from_config_with_policy] builds it: what it answers for a query
    and the texts, or the error of transport, status, size or format. *)
Definition HttpReranker : Type := string → list string → result RerankResponse string.

Definition try_rerank_indices (self : HttpReranker) (query : string) (documents : list string) : result (list nat) string :=
  if (length documents <=? 1)%nat then Ok (seq 0 (length documents))
  else
    let? response := self query documents in
    reorder_indices (length documents) (items response).

(** [results[index].clone()]; an index out of bounds would panic. *)
Fixpoint at_indices (results : list SearchResult) (order : list nat) : option (list SearchResult) :=
  match order with
  | [] => Some []
  | i :: rest => r ← results !! i; more ← at_indices results rest; Some (r :: more)
  end.

(** [None] would be a panic. *)
Definition try_rerank (self : HttpReranker) (query : string) (results : list SearchResult)
    : option (result (list SearchResult) string) :=
  match try_rerank_indices self query (sr_content <$> results) with
  | Ok order => Ok <$> at_indices results order
  | Err e => Some (Err e)
  end.

Definition reranker_fallback_warning (scrub : string → string) (error : string) : string :=
  "reranker unavailable; using original search ranking: " +:+ scrub error.

(** [reranker] is what [from_config_with_policy] returns. *)
Definition maybe_rerank (enabled : bool) (top_k : Z) (reranker : result HttpReranker string) (scrub : string → string)
    (query : string) (results : list SearchResult) : option (list SearchResult * list string) :=
  if negb enabled || (length results <=? 1)%nat then Some (results, [])
  else
    let n := Z.to_nat (Z.min top_k (Z.of_nat (length results))) in
    let candidates := take n results in
    let tail := drop n results in
    let fallback e := ((candidates ++ tail)%list, [reranker_fallback_warning scrub e]) in
    match reranker with
    | Err e => Some (fallback e)
    | Ok reranker =>
        (fun reranked => match reranked with
                         | Ok reranked => ((reranked ++ tail)%list, [])
                         | Err e => fallback e
                         end) <$> try_rerank reranker query candidates
    end.

Definition maybe_rerank_indices (enabled : bool) (top_k : Z) (reranker : result HttpReranker string)
    (scrub : string → string) (query : string) (documents : list string) : list nat * list string :=
  let len := length documents in
  if negb enabled || (len <=? 1)%nat then (seq 0 len, [])
  else
    let n := Z.to_nat (Z.min top_k (Z.of_nat len)) in
    match (let? reranker := reranker in try_rerank_indices reranker query (take n documents)) with
    | Ok order => ((order ++ seq n (len - n))%list, [])
    | Err e => (seq 0 len, [reranker_fallback_warning scrub e])
    end.

(** ** The search, with its fallback *)
Inductive SearchMode := Hybrid | Bm25Only.

Record SearchOutcome := MkOutcome {
  oc_results : list SearchResult;
  oc_mode : SearchMode;
  oc_warnings : list string;
}.

(** What became of [timeout(embedder.embed(..))]. *)
Inductive EmbedReply :=
  | Embedded (vectors : list (list f32))
  | EmbedFailed (message : string)
  | EmbedTimedOut.

(** [SELECT vec_length(embedding) FROM drawer_vectors LIMIT 1]. *)
Definition current_vector_dim (t : SearchTables) : option Z :=
  match plan (map_to_list (tb_vectors t)).*1 with
  | id :: _ => (fun b : blob => Z.of_nat (length b) / 4)%Z <$> tb_vectors t !! id
  | [] => None
  end.

Record Circuit := MkCircuit { ci_open : bool; ci_failure_count : Z }.

Definition bm25_fallback_outcome (t : SearchTables) (config : SearchConfig) (query : string) (route : RouteDecision)
    (scope : ProjectSearchScope) (options : SearchOptions) (top_k now_secs : Z) (warning : string)
    : result SearchOutcome SearchError :=
  let? results := search_bm25_only_with_options t config query route scope options top_k now_secs in
  Ok (MkOutcome results Bm25Only [warning]).

(** The outcome before the optional reranker. *)
Definition search_unranked (t : SearchTables) (config : SearchConfig) (circuit : Circuit) (scrub : string → string)
    (reply : EmbedReply) (query : string) (route : RouteDecision) (scope : ProjectSearchScope) (options : SearchOptions)
    (top_k now_secs : Z) : result SearchOutcome SearchError :=
  let fallback := bm25_fallback_outcome t config query route scope options top_k now_secs in
  if sc_bm25_fallback config && ci_open circuit
  then fallback ("embedding backend is degraded after " +:+ show (ci_failure_count circuit)
                 +:+ " failures; using BM25-only search until recovery (retry unlikely to help)")
  else
    match reply with
    | EmbedFailed message =>
        if sc_bm25_fallback config
        then fallback ("embedding unavailable; using BM25-only search: " +:+ scrub message +:+ " (retry may help)")
        else Err (EmbedQuery message)
    | EmbedTimedOut =>
        if sc_bm25_fallback config
        then fallback ("embedding deadline exceeded after " +:+ show (sc_search_deadline_secs config)
                       +:+ "s; using BM25-only search (retry may help)")
        else Err (EmbedQueryTimeout (sc_search_deadline_secs config))
    | Embedded [] =>
        if sc_bm25_fallback config
        then fallback "embedding returned no query vector; using BM25-only search"
        else Err MissingQueryVector
    | Embedded (vector :: _) =>
        let dim := Z.of_nat (length vector) in
        match current_vector_dim t with
        | Some current =>
            if negb (current =? dim)%Z then
              if sc_bm25_fallback config
              then fallback ("embedding dimension mismatch (" +:+ show dim +:+ "d query vs " +:+ show current
                             +:+ "d index); using BM25-only search")
              else Err (VectorDimensionMismatch current dim)
            else
              let? results := search_with_vector_and_scope_options t config query vector route scope options top_k now_secs in
              Ok (MkOutcome results Hybrid [])
        | None =>
            let? results := search_with_vector_and_scope_options t config query vector route scope options top_k now_secs in
            Ok (MkOutcome results Hybrid [])
        end
    end.

(** [None] would be a panic. *)
Definition search_with_route_options_outcome (t : SearchTables) (config : SearchConfig) (circuit : Circuit)
    (scrub : string → string) (reply : EmbedReply) (rerank_enabled : bool) (rerank_top_k : Z)
    (reranker : result HttpReranker string) (query : string) (route : RouteDecision)
    (scope : ProjectSearchScope) (options : SearchOptions) (top_k now_secs : Z)
    : option (result SearchOutcome SearchError) :=
  if (top_k =? 0)%Z then Some (Ok (MkOutcome [] Hybrid []))
  else
    match search_unranked t config circuit scrub reply query route scope options top_k now_secs with
    | Err e => Some (Err e)
    | Ok outcome =>
        (fun '(results, warnings) => Ok (MkOutcome results (oc_mode outcome) (oc_warnings outcome ++ warnings)%list))
          <$> maybe_rerank rerank_enabled rerank_top_k reranker scrub query (oc_results outcome)
    end.
End search.
