(* ===== verification/SearchSafety.v ===== *)
(** * What a search returns

    Every result is an active drawer that the scope allows, or one of another project
    met in the room of a result; none is returned twice, and the stages between the
    indexes and the answer change scores and hints only; the exact scan ranks by
    distance alone. *)

From Stdlib Require Import ZArith QArith Lia String Ascii SpecFloat.
From stdpp Require Import base tactics list gmap strings numbers sets sorting.
From S2P Require Import Prelude Order Text Float Sqlite Ranking Drawer DrawerStore Tunnels Search.
Close Scope Q_scope.
Open Scope Z_scope.
Open Scope string_scope.
Open Scope rust_scope.

(** ** A result without its scores, hints and neighbours *)
Definition core (r : SearchResult) : SearchResult :=
  with_hints [] None (with_scores f64_zero f64_zero None r).

Lemma core_scores s i p r : core (with_scores s i p r) = core r.
Proof. done. Qed.
Lemma core_hints h n r : core (with_hints h n r) = core r.
Proof. done. Qed.
Lemma core_id r r' : core r = core r' → sr_drawer_id r = sr_drawer_id r'.
Proof. by intros [= ]. Qed.

Section results.
Context {H : StoreEnv} {L : StoreLaws H} {SE : SearchEnv} {SL : SearchLaws SE}.
Variables (t : SearchTables) (route : RouteDecision) (scope : ProjectSearchScope).

(** The row of a result: it passed the filters of the query, or belongs to another
    project and was reached through a room. *)
Definition reached (r : SearchResult) (row : Row) : Prop :=
  sr_source r = classify_row (r_project_id row) ∧ build_filter_clause route scope row = true
  ∨ sr_source r = TunnelCrossProject ∧ is_active row = true ∧ is_Some (r_room row)
    ∧ ∃ current p, ps_project_id scope = Some current ∧ r_project_id row = Some p ∧ p ≠ current.

(** What the result shows of its row. *)
Definition shows (r : SearchResult) (row : Row) : Prop :=
  sr_content r = r_content row ∧ sr_wing r = r_wing row ∧ sr_room r = r_room row
  ∧ match drawer_from_row (sr_drawer_id r) row with
    | Ok d => core r = core (result_from_drawer d (sr_source r) f64_zero (sr_route r))
    | Err _ => True
    end.

Definition governed (r : SearchResult) : Prop :=
  ∃ row, db_drawers (tb_db t) !! sr_drawer_id r = Some row ∧ reached r row ∧ shows r row.

Lemma governed_core r r' : core r = core r' → governed r → governed r'.
Proof.
  intros E (row & Hrow & Hr & Hs). pose proof E as E'. injection E' as Eid Ec Ew Er Esf Es Est Ecf Ek Ed Ef Est2 Et Ess Ea Eai Ep Epin Eim Ert Ech.
  exists row. unfold governed, reached, shows in *. rewrite <- Eid, <- Ec, <- Ew, <- Er, <- Es. split_and!; try done; try apply Hs.
  destruct Hs as (_ & _ & _ & Hs). case_match; [|done]. by rewrite <- Ert, <- E.
Qed.

Lemma drawer_from_row_fields id row d : drawer_from_row id row = Ok d →
  d_id d = id ∧ d_content d = r_content row ∧ d_wing d = r_wing row ∧ d_room d = r_room row.
Proof. unfold drawer_from_row. intros E. repeat case_match; simplify_eq; done. Qed.

Lemma from_drawer_shows id row d source s rt :
  drawer_from_row id row = Ok d → sr_drawer_id (result_from_drawer d source s rt) = id
  ∧ shows (result_from_drawer d source s rt) row.
Proof.
  intros E. destruct (drawer_from_row_fields _ _ _ E) as (Hid & Hc & Hw & Hr).
  split; [done|]. unfold shows. cbn [sr_content sr_wing sr_room sr_drawer_id result_from_drawer].
  rewrite Hid, E. done.
Qed.

Lemma hydrate_governed id row distance :
  db_drawers (tb_db t) !! id = Some row → build_filter_clause route scope row = true →
  let r := hydrate_result_metadata (tb_db t) (bare_result id row distance route) in
  sr_drawer_id r = id ∧ governed r.
Proof.
  intros Hrow Hf. assert (Hact : is_active row = true) by (unfold build_filter_clause in Hf; by destruct (is_active row)).
  unfold hydrate_result_metadata, get_drawer, active_row. cbn [sr_drawer_id bare_result]. rewrite Hrow, Hact.
  destruct (drawer_from_row id row) as [d|e] eqn:E; cbn [sr_source sr_similarity sr_route bare_result].
  - destruct (from_drawer_shows id row d (classify_row (r_project_id row)) (f32_of_f64 (f64_sub f64_one distance)) route E) as [Hid Hs].
    split; [done|]. exists row. rewrite Hid. split_and!; [done|by left|done].
  - split; [done|]. exists row. unfold reached, shows. cbn [sr_drawer_id bare_result sr_content sr_wing sr_room sr_source].
    rewrite E. split_and!; try done. by left.
Qed.

(** ** Lists of results *)
Definition good (l : list SearchResult) : Prop := NoDup (sr_drawer_id <$> l) ∧ Forall governed l.

Lemma good_sublist l l' : l' `sublist_of` l → good l → good l'.
Proof.
  intros Hs [Hn Hg]. split; [eapply sublist_NoDup; [exact Hn|by apply fmap_sublist]|].
  rewrite Forall_forall in *. intros r Hr. apply Hg. by eapply elem_of_sublist.
Qed.

Lemma good_perm l l' : l' ≡ₚ l → good l → good l'.
Proof. intros Hp [Hn Hg]. split; [by rewrite Hp|by rewrite Hp]. Qed.

Lemma good_map f l : (∀ r, core (f r) = core r) → good l → good (f <$> l).
Proof.
  intros Hf [Hn Hg]. split.
  - rewrite <- list_fmap_compose. rewrite (list_fmap_ext _ sr_drawer_id); [done|].
    intros i r _. simpl. by apply core_id.
  - rewrite Forall_fmap. eapply Forall_impl; [exact Hg|]. intros r Hr. eapply governed_core; [|exact Hr]. done.
Qed.

Lemma good_filter p l : good l → good (List.filter p l).
Proof.
  apply good_sublist. induction l as [|r l IH]; simpl; [constructor|]. destruct (p r); by constructor.
Qed.

Lemma good_take n l : good l → good (take n l).
Proof. apply good_sublist, sublist_take. Qed.

(** ** The vector index *)
Lemma bare_results_spec ranked rs :
  bare_results route ranked = Ok rs →
  Forall2 (fun e r => ∃ distance, e.1 = Ok distance ∧ r = bare_result (ec_id e.2) (ec_row e.2) distance route) ranked rs.
Proof.
  revert rs. induction ranked as [|[[d|e] c] ranked IH]; intros rs; simpl; [by intros [= <-]| |done].
  destruct (bare_results route ranked) as [more|]; [|done]. intros [= <-]. constructor; eauto.
Qed.

Lemma candidates_spec keep c :
  c ∈ vector_candidates t keep → db_drawers (tb_db t) !! ec_id c = Some (ec_row c) ∧ keep (ec_row c) = true.
Proof.
  unfold vector_candidates. intros (id & _ & E)%list_elem_of_omap. repeat case_match; simplify_eq. done.
Qed.

Lemma omap_ids_sublist {A B} (f : A → option B) (g : B → A) l :
  (∀ a b, f a = Some b → g b = a) → (g <$> omap f l) `sublist_of` l.
Proof.
  intros Hg. induction l as [|a l IH]; simpl; [constructor|]. destruct (f a) as [b|] eqn:E; simpl; [|by constructor].
  rewrite (Hg _ _ E). by constructor.
Qed.

Lemma NoDup_fewer {A} (l k : list A) : l ⊆+ k → NoDup k → NoDup l.
Proof. intros (k' & ->)%submseteq_Permutation. by intros [? _]%NoDup_app. Qed.

Lemma candidates_NoDup keep : NoDup (ec_id <$> vector_candidates t keep).
Proof.
  eapply sublist_NoDup; [|apply omap_ids_sublist].
  - rewrite plan_permutes. apply NoDup_fst_map_to_list.
  - intros id c E. repeat case_match; by simplify_eq.
Qed.

Lemma exact_good query f top_k rs :
  search_by_vector_scoped_exact t query route scope f top_k = Ok rs → good rs.
Proof.
  unfold search_by_vector_scoped_exact. destruct (i64_max <? top_k)%Z; [done|].
  set (rows := vector_candidates t _). set (ranked := rank_exact_candidates rows _ _).
  destruct (bare_results route ranked) as [bare|] eqn:E; [|done]. intros [= <-].
  apply bare_results_spec in E.
  assert (Hsub : ranked.*2 ⊆+ rows).
  { unfold ranked, rank_exact_candidates. etrans; [apply sublist_submseteq, fmap_sublist, sublist_take|].
    apply Permutation_submseteq. rewrite (fmap_Permutation _ _ _ (sort_by_perm _ _)), <- list_fmap_compose.
    by rewrite list_fmap_id. }
  assert (Hin : ∀ e, e ∈ ranked → db_drawers (tb_db t) !! ec_id e.2 = Some (ec_row e.2)
                                   ∧ build_filter_clause route scope (ec_row e.2) = true).
  { intros e He. destruct (candidates_spec (build_retrieval_filter_clause route scope f) e.2) as [Hr Hk].
    - eapply elem_of_submseteq; [|exact Hsub]. apply list_elem_of_fmap. eauto.
    - split; [done|]. unfold build_retrieval_filter_clause in Hk. by apply andb_true_iff in Hk as [? _]. }
  assert (Hids : sr_drawer_id <$> (hydrate_result_metadata (tb_db t) <$> bare) = ec_id <$> ranked.*2).
  { clear Hsub. induction E as [|e r ranked' bare' (d & _ & ->) E IH]; simpl; [done|]. f_equal.
    - destruct (Hin e ltac:(left)) as [Hr Hf]. by destruct (hydrate_governed _ _ d Hr Hf).
    - apply IH. intros e' He'. apply Hin. by right. }
  split.
  - rewrite Hids. eapply NoDup_fewer; [|apply (candidates_NoDup (build_retrieval_filter_clause route scope f))].
    by apply fmap_submseteq.
  - rewrite Forall_fmap. clear Hids Hsub. induction E as [|e r ranked' bare' (d & _ & ->) E IH]; constructor.
    + destruct (Hin e ltac:(left)) as [Hr Hf]. by destruct (hydrate_governed _ _ d Hr Hf).
    + apply IH. intros e' He'. apply Hin. by right.
Qed.

Lemma filter_sublist_of {A} (p : A → bool) l : List.filter p l `sublist_of` l.
Proof. induction l as [|x l IH]; simpl; [constructor|]. destruct (p x); by constructor. Qed.

(** Identifiers whose rows pass a filter. *)
Definition passing (keep : Row → bool) (ids : list (string * f64)) : Prop :=
  NoDup ids.*1 ∧ ∀ e, e ∈ ids → ∃ row, db_drawers (tb_db t) !! e.1 = Some row ∧ keep row = true.

Lemma passing_filter keep n l : NoDup l.*1 → passing keep (take n (List.filter (with_row (tb_db t) keep) l)).
Proof.
  intros Hn. split.
  - eapply sublist_NoDup; [exact Hn|]. apply fmap_sublist. etrans; [apply sublist_take|apply filter_sublist_of].
  - intros e He. assert (He' : e ∈ List.filter (with_row (tb_db t) keep) l) by (eapply elem_of_sublist; [exact He|apply sublist_take]).
    apply list_elem_of_In, filter_In in He' as [_ Hk]. unfold with_row in Hk. case_match; [eauto|done].
Qed.

Lemma knn_good query top_k rs : search_by_vector_scoped_knn t query route scope top_k = Ok rs → good rs.
Proof.
  unfold search_by_vector_scoped_knn. destruct (i64_max <? top_k)%Z; [done|]. intros [= <-].
  set (kept := take _ _).
  assert (Hp : passing (build_filter_clause route scope) kept).
  { apply passing_filter. rewrite (fmap_Permutation _ _ _ (sort_by_perm _ _)). apply knn_distinct. }
  destruct Hp as [Hn Hp]. clearbody kept. split.
  - eapply sublist_NoDup; [exact Hn|]. clear Hn.
    induction kept as [|e kept IH]; simpl; [constructor|]. destruct (Hp e ltac:(left)) as (row & Hrow & Hk).
    rewrite Hrow. simpl. destruct (hydrate_governed e.1 row e.2 Hrow Hk) as [-> _]. constructor.
    apply IH. intros e' He'. apply Hp. by right.
  - apply Forall_forall. intros r (e & He & E)%list_elem_of_omap. destruct (Hp e He) as (row & Hrow & Hk).
    rewrite Hrow in E. injection E as <-. by destruct (hydrate_governed e.1 row e.2 Hrow Hk).
Qed.

Lemma vector_good query f top_k rs : search_by_vector_with_filters t query route scope f top_k = Ok rs → good rs.
Proof.
  unfold search_by_vector_with_filters. repeat case_match; try (intros [= <-]; split; constructor).
  - apply exact_good.
  - apply knn_good.
Qed.

(** ** Fusion *)
Definition good_map_of (m : gmap string SearchResult) : Prop := ∀ id r, m !! id = Some r → sr_drawer_id r = id ∧ governed r.

Lemma index_good rs : good rs → good_map_of (index_results rs).
Proof.
  unfold index_results. intros [_ Hg]. assert (Hm : good_map_of ∅) by (intros id r; by rewrite lookup_empty).
  revert Hm. generalize (∅ : gmap string SearchResult). induction Hg as [|r rs Hr Hrs IH]; intros m Hm; simpl; [done|].
  apply IH. intros id r'. destruct (decide (id = sr_drawer_id r)) as [->|Hne].
  - rewrite lookup_insert_eq. by intros [= <-].
  - rewrite lookup_insert_ne by done. apply Hm.
Qed.

Lemma add_fts_good ids m :
  (∀ e, e ∈ ids → ∃ row, db_drawers (tb_db t) !! e.1 = Some row ∧ build_filter_clause route scope row = true) →
  good_map_of m → good_map_of (foldl (add_fts_result (tb_db t) route) m ids).
Proof.
  revert m. induction ids as [|e ids IH]; intros m Hp Hm; simpl; [done|]. apply IH; [intros e' He'; apply Hp; by right|].
  unfold add_fts_result. destruct (m !! e.1) as [r0|] eqn:Em; [done|].
  destruct (Hp e ltac:(left)) as (row & Hrow & Hf).
  assert (Hact : is_active row = true) by (unfold build_filter_clause in Hf; by destruct (is_active row)).
  unfold get_drawer, drawer_project_id, active_row. rewrite Hrow, Hact.
  destruct (drawer_from_row e.1 row) as [d|err] eqn:E; [|done].
  intros id r. destruct (decide (id = e.1)) as [->|Hne]; [|rewrite lookup_insert_ne by done; apply Hm].
  rewrite lookup_insert_eq. intros [= <-].
  destruct (from_drawer_shows e.1 row d (classify_row (r_project_id row)) (S754_zero false) route E) as [Hid Hs].
  split; [done|]. exists row. rewrite Hid. split_and!; [done|by left|done].
Qed.

Lemma pick_ranked_good m ranks : good_map_of m →
  good (pick_ranked m ranks) ∧ ∀ r, r ∈ pick_ranked m ranks → is_Some (m !! sr_drawer_id r).
Proof.
  revert m. induction ranks as [|rank ranks IH]; intros m Hm; simpl.
  { split; [split; constructor|]. intros r Hr. by apply elem_of_nil in Hr. }
  destruct (m !! fk_id rank) as [r|] eqn:E; [|by apply IH]. destruct (Hm _ _ E) as [Hid Hr].
  destruct (IH (delete (fk_id rank) m)) as [[Hn Hg] Hin].
  { intros id r'. rewrite lookup_delete_Some. intros [_ ?]. by apply Hm. }
  split; [split|].
  - simpl. constructor; [|done]. intros (r' & E' & Hr')%list_elem_of_fmap. destruct (Hin r' Hr') as [x Hx].
    apply lookup_delete_Some in Hx as [Hne _]. cbn in E'. congruence.
  - constructor; [|done]. eapply governed_core; [|exact Hr]. done.
  - intros r' [->|Hr']%elem_of_cons.
    + cbn. by rewrite Hid, E.
    + destruct (Hin r' Hr') as [x Hx]. apply lookup_delete_Some in Hx as [_ Hx]. by rewrite Hx.
Qed.

Lemma rrf_merge_good rs ids top_k :
  good rs → passing (build_filter_clause route scope) ids → good (rrf_merge rs ids route (tb_db t) top_k).
Proof.
  intros Hrs [_ Hp]. unfold rrf_merge. apply good_take. apply pick_ranked_good. apply add_fts_good; [done|]. by apply index_good.
Qed.

Lemma fts_passing query f limit ids :
  search_fts_filtered (tb_db t) query route scope f limit = Ok ids → passing (build_filter_clause route scope) ids.
Proof.
  unfold search_fts_filtered. destruct (build_fts_match_query query) as [q|].
  - destruct (i64_max <? limit)%Z; [done|]. intros [= <-].
    destruct (passing_filter (build_retrieval_filter_clause route scope f) (Z.to_nat limit) _ (fts_distinct q)) as [Hn Hp].
    split; [done|]. intros e He. destruct (Hp e He) as (row & Hrow & Hk). exists row. split; [done|].
    unfold build_retrieval_filter_clause in Hk. by apply andb_true_iff in Hk as [? _].
  - intros [= <-]. split; [constructor|]. intros e He. by apply elem_of_nil in He.
Qed.

(** ** Tunnels *)
Lemma decode_rows_from rows ds d : decode_rows rows = Ok ds → d ∈ ds → ∃ e, e ∈ rows ∧ drawer_from_row e.1 e.2 = Ok d.
Proof.
  revert ds. induction rows as [|e rows IH]; intros ds; simpl; [intros [= <-] Hd; by apply elem_of_nil in Hd|].
  destruct (drawer_from_row e.1 e.2) as [d0|] eqn:E; [|done]. destruct (decode_rows rows) as [ds0|]; [|done].
  intros [= <-] [->|Hd]%elem_of_cons; [exists e; split; [left|done]|].
  destruct (IH ds0 eq_refl Hd) as (e' & He' & E'). exists e'. split; [by right|done].
Qed.

(** A drawer of another project in a room. *)
Definition tunnelled (d : Drawer) : Prop :=
  ∃ row current p, db_drawers (tb_db t) !! d_id d = Some row ∧ drawer_from_row (d_id d) row = Ok d ∧ is_active row = true
    ∧ is_Some (r_room row) ∧ ps_project_id scope = Some current ∧ r_project_id row = Some p ∧ p ≠ current.

Lemma tunnel_drawers_spec room exclude limit ds :
  tunnel_drawers_for_room (tb_db t) room exclude (ps_project_id scope) limit = Ok ds → ∀ d, d ∈ ds → tunnelled d.
Proof.
  unfold tunnel_drawers_for_room. destruct (ps_project_id scope) as [current|] eqn:Ec.
  2:{ intros [= <-] d Hd. by apply elem_of_nil in Hd. }
  destruct (i64_max <? limit)%Z; [done|]. intros E d Hd. destruct (decode_rows_from _ _ _ E Hd) as (e & He & Ed).
  eapply elem_of_sublist in He; [|apply sublist_take]. apply elem_of_sort_by, list_elem_of_In, filter_In in He as [He Hk].
  apply list_elem_of_In in He. destruct e as [id row]. apply elem_of_map_to_list in He. cbn [fst snd] in *.
  apply andb_true_iff in Hk as [Hk Ho]. apply andb_true_iff in Hk as [Hk _]. apply andb_true_iff in Hk as [Ha Hr].
  destruct (drawer_from_row_fields _ _ _ Ed) as (Hid & _). unfold other_project in Ho.
  destruct (r_project_id row) as [p|] eqn:Ep; [|done]. destruct (String.eqb_spec p current); [done|].
  exists row, current, p. rewrite Hid. split_and!; try done. unfold sql_eq in Hr. by destruct (r_room row).
Qed.

Definition fresh_results (seen seen' : gset string) (found : list SearchResult) : Prop :=
  NoDup (sr_drawer_id <$> found) ∧ (∀ r, r ∈ found → governed r ∧ sr_drawer_id r ∉ seen)
  ∧ (∀ id, id ∈ seen' ↔ id ∈ seen ∨ id ∈ sr_drawer_id <$> found).

Lemma fresh_nil seen : fresh_results seen seen [].
Proof. split_and!; [constructor|intros r Hr; by apply elem_of_nil in Hr|set_solver]. Qed.

Lemma fresh_app seen seen1 seen2 a b : fresh_results seen seen1 a → fresh_results seen1 seen2 b → fresh_results seen seen2 (a ++ b).
Proof.
  intros (Hn1 & Ha & H1) (Hn2 & Hb & H2). split_and!.
  - rewrite fmap_app. apply NoDup_app. split_and!; [done| |done]. intros id Hid (r & -> & Hr)%list_elem_of_fmap.
    destruct (Hb r Hr) as [_ Hnot]. apply Hnot, H1. by right.
  - intros r [Hr|Hr]%elem_of_app; [by apply Ha|]. destruct (Hb r Hr) as [Hg Hnot]. split; [done|]. intros Hs. apply Hnot, H1. by left.
  - intros id. rewrite H2, H1, fmap_app, elem_of_app. tauto.
Qed.

Lemma add_tunnel_fresh config r drawers added seen :
  (∀ d, d ∈ drawers → tunnelled d) →
  let '(seen', found) := add_tunnel_drawers config r drawers added seen in fresh_results seen seen' found.
Proof.
  revert added seen. induction drawers as [|d drawers IH]; intros added seen Hd; simpl; [apply fresh_nil|].
  destruct (_ <=? _)%Z; [apply fresh_nil|]. assert (Hrest : ∀ d', d' ∈ drawers → tunnelled d') by (intros; apply Hd; by right).
  case_bool_decide as Hin; [by apply IH|]. specialize (IH (added + 1) ({[d_id d]} ∪ seen) Hrest).
  destruct (add_tunnel_drawers config r drawers (added + 1) ({[d_id d]} ∪ seen)) as [seen' found].
  match goal with |- fresh_results _ _ (?x :: _) => set (r0 := x) end.
  apply (fresh_app seen ({[d_id d]} ∪ seen) seen' [r0] found); [|done].
  destruct (Hd d ltac:(left)) as (row & current & p & Hrow & Ed & Ha & Hroom & Hc & Hp & Hne).
  destruct (from_drawer_shows (d_id d) row d TunnelCrossProject (sr_similarity r) (sr_route r) Ed) as [Hid Hs].
  split_and!.
  - simpl. apply NoDup_singleton.
  - intros r' ->%list_elem_of_singleton. split; [|done].
    eapply (governed_core (result_from_drawer d TunnelCrossProject (sr_similarity r) (sr_route r))); [done|].
    exists row. split_and!; [done| |done]. right. split_and!; [done|done|done|eauto].
  - intros id. simpl. set_solver.
Qed.

Lemma inject_loop_spec config tunnels results seen :
  let '(results', found) := inject_loop t config scope tunnels results seen in
  core <$> results' = core <$> results ∧ ∃ seen', fresh_results seen seen' found.
Proof.
  revert seen. induction results as [|r results IH]; intros seen; simpl; [split; [done|]; exists seen; apply fresh_nil|].
  assert (Ht : core (inject_turn t config scope tunnels r seen).1.1 = core r
               ∧ fresh_results seen (inject_turn t config scope tunnels r seen).1.2 (inject_turn t config scope tunnels r seen).2).
  { unfold inject_turn. destruct (sr_room r) as [room|]; [|split; [done|apply fresh_nil]].
    destruct (_ =? 0)%Z; [split; [done|apply fresh_nil]|].
    destruct (tunnel_drawers_for_room _ _ _ _ _) as [ds|] eqn:E; [|split; [done|apply fresh_nil]].
    match goal with |- context [add_tunnel_drawers config ?r' ds 0 seen] =>
      pose proof (add_tunnel_fresh config r' ds 0 seen (tunnel_drawers_spec _ _ _ _ E)) as Hf;
      destruct (add_tunnel_drawers config r' ds 0 seen) as [seen1 found1] end.
    split; done. }
  destruct (inject_turn t config scope tunnels r seen) as [[r1 seen1] found1]. simpl in Ht. destruct Ht as [Hc Hf]. specialize (IH seen1).
  destruct (inject_loop t config scope tunnels results seen1) as [results' more]. destruct IH as [IH (seen2 & Hf2)].
  split; [simpl; by f_equal|]. exists seen2. by eapply fresh_app.
Qed.

Lemma cons_eq {A} (x y : A) l k : x :: l = y :: k → x = y ∧ l = k.
Proof. by intros [= -> ->]. Qed.

Lemma good_cores l l' : core <$> l' = core <$> l → good l → good l'.
Proof.
  revert l'. intros l' E [Hn Hg].
  assert (Hids : sr_drawer_id <$> l' = sr_drawer_id <$> l).
  { transitivity (sr_drawer_id <$> (core <$> l')); [rewrite <- list_fmap_compose; by apply list_fmap_ext|].
    rewrite E, <- list_fmap_compose. by apply list_fmap_ext. }
  split; [by rewrite Hids|]. clear Hids Hn. revert l' E. induction Hg as [|r l Hr Hl IH]; intros [|r' l'] E; try done.
  apply cons_eq in E as [Ec E]. constructor; [by eapply governed_core|by apply IH].
Qed.

Lemma inject_good config results : good results → good (inject_tunnel_hints_with_cap t config scope results).
Proof.
  intros Hg. unfold inject_tunnel_hints_with_cap. destruct (find_tunnels (tb_db t)) as [|tn tns] eqn:E; [done|].
  pose proof (inject_loop_spec config (tn :: tns) results (list_to_set (sr_drawer_id <$> results))) as Hi.
  destruct (inject_loop _ _ _ _ _ _) as [results' found]. destruct Hi as [Hc (seen' & Hn & Hf & _)].
  destruct (good_cores _ _ Hc Hg) as [Hn' Hg'].
  assert (Hids : sr_drawer_id <$> results' = sr_drawer_id <$> results).
  { transitivity (sr_drawer_id <$> (core <$> results')); [rewrite <- list_fmap_compose; by apply list_fmap_ext|].
    rewrite Hc, <- list_fmap_compose. by apply list_fmap_ext. }
  split.
  - rewrite fmap_app. apply NoDup_app. split_and!; [done| |done]. intros id Hid (r & -> & Hr)%list_elem_of_fmap.
    destruct (Hf r Hr) as [_ Hnot]. apply Hnot. apply elem_of_list_to_set. by rewrite <- Hids.
  - apply Forall_app. split; [done|]. apply Forall_forall. intros r Hr. by apply Hf.
Qed.

(** ** What the caller asked for *)
Definition wanted (config : SearchConfig) (options : SearchOptions) (now_secs : Z) (r : SearchResult) : Prop :=
  matches_filters (so_filters options) r = true
  ∧ (exclude_raw config options = true → is_excluded_raw_turn_result (sc_turns config) r = false)
  ∧ (so_include_expired options = false → ∀ row, db_drawers (tb_db t) !! sr_drawer_id r = Some row →
       validity_window_contains_at (r_valid_from row) (r_valid_until row) now_secs = true).

Lemma wanted_core config options now_secs r r' : core r = core r' → wanted config options now_secs r → wanted config options now_secs r'.
Proof.
  intros E. unfold wanted, matches_filters, is_excluded_raw_turn_result.
  injection E as -> Ec -> -> Esf Es Est Ecf -> -> -> Est2 -> -> -> Eai Ep Epin -> Ert Ech. done.
Qed.

Lemma empty_filters_match f r : filters_empty f = true → matches_filters f r = true.
Proof. destruct f as [[] [] [] [] [] []]; done. Qed.

Lemma retain_filters_spec f l : ∀ r, r ∈ retain_search_filters f l → r ∈ l ∧ matches_filters f r = true.
Proof.
  intros r. unfold retain_search_filters. destruct (filters_empty f) eqn:E.
  - intros Hr. split; [done|by apply empty_filters_match].
  - by intros [? ?]%list_elem_of_In%filter_In%(fun '(conj a b) => conj (proj2 (list_elem_of_In _ _) a) b).
Qed.

(** A later list whose results are, up to scores and hints, some of an earlier one. *)
Definition drawn (l l' : list SearchResult) : Prop := core <$> l' ⊆+ core <$> l.

Lemma drawn_map f l : (∀ r, core (f r) = core r) → drawn l (f <$> l).
Proof.
  intros Hf. unfold drawn. rewrite <- list_fmap_compose. by rewrite (list_fmap_ext _ core) by (intros; apply Hf).
Qed.
Lemma drawn_perm l l' : l' ≡ₚ l → drawn l l'.
Proof. intros Hp. unfold drawn. by rewrite Hp. Qed.
Lemma drawn_sublist l l' : l' `sublist_of` l → drawn l l'.
Proof. intros Hs. by apply sublist_submseteq, fmap_sublist. Qed.
Lemma drawn_trans l1 l2 l3 : drawn l1 l2 → drawn l2 l3 → drawn l1 l3.
Proof. unfold drawn. intros H1 H2. by etrans. Qed.

Lemma ids_of_cores (l : list SearchResult) : sr_drawer_id <$> l = sr_drawer_id <$> (core <$> l).
Proof. rewrite <- list_fmap_compose. by apply list_fmap_ext. Qed.

Lemma drawn_keeps (P : SearchResult → Prop) l l' :
  (∀ r r', core r = core r' → P r → P r') → drawn l l' → Forall P l → Forall P l'.
Proof.
  intros Hc Hd Hl. rewrite Forall_forall in *. intros r' Hr'.
  assert (Hin : core r' ∈ core <$> l) by (eapply elem_of_submseteq; [|exact Hd]; by apply list_elem_of_fmap_2).
  apply list_elem_of_fmap in Hin as (r & E & Hr). eapply Hc; [symmetry; exact E|by apply Hl].
Qed.

Lemma drawn_good l l' : drawn l l' → good l → good l'.
Proof.
  intros Hd [Hn Hg]. split.
  - rewrite ids_of_cores. rewrite ids_of_cores in Hn. eapply NoDup_fewer; [by apply fmap_submseteq|done].
  - eapply drawn_keeps; [|exact Hd|exact Hg]. intros r r'. apply governed_core.
Qed.

Lemma boost_drawn config query l : drawn l (apply_pattern_boost t config query l).
Proof.
  unfold apply_pattern_boost. destruct (_ || _); [by apply drawn_perm|].
  generalize (tb_patterns t). intros ps. revert l. induction ps as [|p ps IH]; intros l; simpl; [by apply drawn_perm|].
  eapply drawn_trans; [|apply IH]. destruct (_ =? 0)%nat; [by apply drawn_perm|]. destruct (SFltb _ _); [by apply drawn_perm|].
  apply drawn_map. intros r. unfold boost_one. by case_bool_decide.
Qed.

Lemma decay_drawn config now_secs l : drawn l (apply_temporal_decay (tb_db t) config now_secs l).
Proof.
  unfold apply_temporal_decay. case_bool_decide; [by apply drawn_perm|].
  eapply drawn_trans; [|apply drawn_perm, similarity_permutes]. by apply drawn_map.
Qed.

Lemma finished_drawn options top_k l : drawn l (finished t options top_k l).
Proof.
  unfold finished. set (l' := take _ _).
  assert (Hl : drawn l l') by (eapply drawn_trans; [apply drawn_perm, rerank_permutes|apply drawn_sublist, sublist_take]).
  destruct (_ && _); [|done]. eapply drawn_trans; [exact Hl|]. apply drawn_map. intros r.
  destruct (sr_chunk_index r); [|done]. cbv zeta. by repeat case_match.
Qed.

Lemma finished_length options top_k l : (length (finished t options top_k l) <= Z.to_nat top_k)%nat.
Proof.
  unfold finished. destruct (_ && _); [unfold inject_chunk_neighbors; rewrite length_fmap|]; rewrite length_take; lia.
Qed.

Lemma shaped_spec config options now_secs l :
  good l → good (shaped t config scope options now_secs l)
  ∧ Forall (wanted config options now_secs) (shaped t config scope options now_secs l).
Proof.
  intros Hl. unfold shaped, collected.
  set (keep := fun results => retain_durable config options (retain_search_filters (so_filters options) results)).
  assert (Hkeep : ∀ l, good l → good (keep l)).
  { intros l0 Hl0. unfold keep, retain_durable, retain_search_filters. repeat case_match; auto using good_filter. }
  assert (Hkept : ∀ l r, r ∈ keep l → matches_filters (so_filters options) r = true
                   ∧ (exclude_raw config options = true → is_excluded_raw_turn_result (sc_turns config) r = false)).
  { intros l0 r. unfold keep, retain_durable. destruct (exclude_raw config options).
    - rewrite list_elem_of_In, filter_In. intros [Hr Hx]. apply list_elem_of_In in Hr.
      split; [by eapply retain_filters_spec|]. intros _. by apply negb_true_iff in Hx.
    - intros Hr. split; [by eapply retain_filters_spec|done]. }
  set (l1 := keep (inject_tunnel_hints_with_cap t config scope (keep l))).
  assert (Hl1 : good l1) by (apply Hkeep, inject_good, Hkeep, Hl).
  set (l2 := if so_include_expired options then l1 else retain_currently_valid_results (tb_db t) now_secs l1).
  assert (Hl2 : good l2) by (unfold l2, retain_currently_valid_results; case_match; auto using good_filter).
  assert (Hw : Forall (wanted config options now_secs) l2).
  { apply Forall_forall. intros r Hr. unfold wanted. unfold l2 in Hr. destruct (so_include_expired options).
    - destruct (Hkept _ _ Hr). done.
    - apply list_elem_of_In, filter_In in Hr as [Hr Hv]. apply list_elem_of_In in Hr. destruct (Hkept _ _ Hr).
      split_and!; [done|done|]. intros _ row Hrow. by rewrite Hrow in Hv. }
  assert (Hd : drawn l2 (apply_consistent_effective_importance (tb_db t) l2)).
  { apply drawn_map. intros r. case_bool_decide; [done|]. by destruct (db_drawers (tb_db t) !! _). }
  split; [by eapply drawn_good|]. eapply drawn_keeps; [|exact Hd|exact Hw]. intros r r'. apply wanted_core.
Qed.

Lemma collected_good config options l : good l → good (collected t config scope options l).
Proof.
  assert (Hkeep : ∀ l, good l → good (retain_durable config options (retain_search_filters (so_filters options) l))).
  { intros l0 Hl0. unfold retain_durable, retain_search_filters. repeat case_match; auto using good_filter. }
  intros Hl. apply Hkeep, inject_good, Hkeep, Hl.
Qed.

(** A palace whose drawers fit a statement has no search too large for one. *)
Lemma load_fits config options l : good l →
  Z.of_nat (size (db_drawers (tb_db t))) <= SQLITE_MAX_VARIABLE_NUMBER →
  load_temporal_metadata (collected t config scope options l) = Ok tt.
Proof.
  intros Hl Hsize. unfold load_temporal_metadata. destruct (Z.ltb_spec SQLITE_MAX_VARIABLE_NUMBER
    (Z.of_nat (size (distinct_drawers (collected t config scope options l))))) as [Hbig|]; [|done]. exfalso.
  assert (Hsub : distinct_drawers (collected t config scope options l) ⊆ dom (db_drawers (tb_db t))).
  { intros id Hid. unfold distinct_drawers in Hid. apply elem_of_list_to_set, list_elem_of_fmap in Hid as (r & -> & Hr).
    destruct (collected_good config options l Hl) as [_ Hg]. rewrite Forall_forall in Hg.
    destruct (Hg r Hr) as (row & Hrow & _). by eapply elem_of_dom_2. }
  apply subseteq_size in Hsub. rewrite size_dom in Hsub. lia.
Qed.

(** What the tunnels add: at most the fanout's cap for each result. *)
Lemma add_tunnel_few config r drawers added seen : 0 <= added →
  Z.of_nat (length (add_tunnel_drawers config r drawers added seen).2) <= Z.max 0 (sc_tunnel_fanout_cap config - added).
Proof.
  revert added seen. induction drawers as [|d drawers IH]; intros added seen H0; cbn [add_tunnel_drawers]; [cbn; lia|].
  destruct (Z.leb_spec (sc_tunnel_fanout_cap config) added); [cbn; lia|]. case_bool_decide; [by apply IH|].
  specialize (IH (added + 1) ({[d_id d]} ∪ seen) ltac:(lia)).
  destruct (add_tunnel_drawers config r drawers (added + 1) _) as [seen' found]. cbn in *. lia.
Qed.

Lemma inject_turn_few config tunnels r seen : 0 <= sc_tunnel_fanout_cap config →
  Z.of_nat (length (inject_turn t config scope tunnels r seen).2) <= sc_tunnel_fanout_cap config.
Proof.
  intros H0. unfold inject_turn. destruct (sr_room r) as [room|]; [|done]. destruct (_ =? 0)%Z; [done|].
  destruct (tunnel_drawers_for_room _ _ _ _ _) as [ds|]; [|done].
  match goal with |- context [add_tunnel_drawers config ?r' ds 0 seen] => pose proof (add_tunnel_few config r' ds 0 seen ltac:(lia)) as Hf;
    destruct (add_tunnel_drawers config r' ds 0 seen) as [seen1 found1] end. cbn in *. lia.
Qed.

Lemma inject_loop_few config tunnels results seen : 0 <= sc_tunnel_fanout_cap config →
  Z.of_nat (length (inject_loop t config scope tunnels results seen).1
            + length (inject_loop t config scope tunnels results seen).2)
  <= Z.of_nat (length results) * (1 + sc_tunnel_fanout_cap config).
Proof.
  intros H0. revert seen. induction results as [|r results IH]; intros seen; cbn [inject_loop]; [done|].
  pose proof (inject_turn_few config tunnels r seen H0) as Ht.
  destruct (inject_turn t config scope tunnels r seen) as [[r1 seen1] found1]. specialize (IH seen1).
  destruct (inject_loop t config scope tunnels results seen1) as [l1 more]. cbn in *. rewrite length_app. lia.
Qed.

Lemma load_of_length l : Z.of_nat (length l) <= SQLITE_MAX_VARIABLE_NUMBER → load_temporal_metadata l = Ok tt.
Proof.
  intros Hl. unfold load_temporal_metadata, distinct_drawers. destruct (Z.ltb_spec SQLITE_MAX_VARIABLE_NUMBER
    (Z.of_nat (size (list_to_set (sr_drawer_id <$> l) : gset string)))) as [Hbig|]; [|done]. exfalso.
  assert (size (list_to_set (sr_drawer_id <$> l) : gset string) <= length l)%nat.
  { clear. induction l as [|r l IH]; [done|]. rewrite fmap_cons, list_to_set_cons.
    rewrite (size_union_alt {[sr_drawer_id r]} _), size_singleton.
    assert (Hd : list_to_set (sr_drawer_id <$> l) ∖ {[sr_drawer_id r]} ⊆ (list_to_set (sr_drawer_id <$> l) : gset string)) by set_solver.
    apply subseteq_size in Hd. simpl. lia. }
  lia.
Qed.

(** Few results, few tunnels for each: the statement takes them. *)
Lemma load_of_few config options l : 0 <= sc_tunnel_fanout_cap config →
  Z.of_nat (length l) * (1 + sc_tunnel_fanout_cap config) <= SQLITE_MAX_VARIABLE_NUMBER →
  load_temporal_metadata (collected t config scope options l) = Ok tt.
Proof.
  intros H0 Hl. apply load_of_length. unfold collected.
  assert (Hkeep : ∀ l, (length (retain_durable config options (retain_search_filters (so_filters options) l)) <= length l)%nat).
  { intros l0. unfold retain_durable, retain_search_filters.
    repeat case_match; try done; rewrite ?filter_length_le; try done; by etrans; apply filter_length_le. }
  set (l0 := retain_durable config options (retain_search_filters _ l)). assert (length l0 <= length l)%nat by apply Hkeep.
  etrans; [apply inj_le, Hkeep|]. unfold inject_tunnel_hints_with_cap. destruct (find_tunnels (tb_db t)) as [|tn tns]; [nia|].
  pose proof (inject_loop_few config (tn :: tns) l0 (list_to_set (sr_drawer_id <$> l0)) H0) as Hf.
  destruct (inject_loop t config scope (tn :: tns) l0 _) as [l1 more]. cbn in Hf. rewrite length_app. nia.
Qed.

(** *** Both pipelines *)
Definition answer (config : SearchConfig) (options : SearchOptions) (top_k now_secs : Z) (l : list SearchResult) : Prop :=
  NoDup (sr_drawer_id <$> l) ∧ (length l <= Z.to_nat top_k)%nat
  ∧ ∀ r, r ∈ l → governed r ∧ wanted config options now_secs r.

Lemma finished_answer config options top_k now_secs l0 l :
  good l0 → drawn (shaped t config scope options now_secs l0) l → answer config options top_k now_secs (finished t options top_k l).
Proof.
  intros Hl0 Hd. destruct (shaped_spec config options now_secs l0 Hl0) as [Hg Hw].
  assert (Hd' : drawn (shaped t config scope options now_secs l0) (finished t options top_k l))
    by (eapply drawn_trans; [exact Hd|apply finished_drawn]).
  destruct (drawn_good _ _ Hd' Hg) as [Hn Hg']. split_and!; [done|apply finished_length|].
  assert (Hw' : Forall (wanted config options now_secs) (finished t options top_k l))
    by (eapply drawn_keeps; [|exact Hd'|exact Hw]; intros r r'; apply wanted_core).
  rewrite Forall_forall in Hg', Hw'. auto.
Qed.

Lemma empty_answer config options top_k now_secs : answer config options top_k now_secs [].
Proof. split_and!; [constructor|simpl; lia|]. intros r Hr. by apply elem_of_nil in Hr. Qed.

Lemma vector_answer config query vector options top_k now_secs l :
  search_with_vector_and_scope_options t config query vector route scope options top_k now_secs = Ok l →
  answer config options top_k now_secs l.
Proof.
  unfold search_with_vector_and_scope_options. destruct (top_k =? 0)%Z; [intros [= <-]; apply empty_answer|].
  set (k := if negb _ || _ || _ then _ else _).
  destruct (search_by_vector_with_filters t vector route scope (so_filters options) k) as [vs|] eqn:Ev; [|done].
  destruct (search_fts_filtered (tb_db t) query route scope (so_filters options) k) as [ids|] eqn:Ef; [|done].
  set (merged := match ids with [] => vs | _ => _ end). destruct (load_temporal_metadata _); [|done].
  intros [= <-]. apply vector_good in Ev. apply fts_passing in Ef.
  apply (finished_answer _ _ _ _ merged).
  - unfold merged. destruct ids as [|e ids]; [done|]. by apply rrf_merge_good.
  - eapply drawn_trans; [apply boost_drawn|apply decay_drawn].
Qed.

Lemma bm25_answer config query options top_k now_secs l :
  search_bm25_only_with_options t config query route scope options top_k now_secs = Ok l →
  answer config options top_k now_secs l.
Proof.
  unfold search_bm25_only_with_options. destruct (top_k =? 0)%Z; [intros [= <-]; apply empty_answer|].
  set (k := if _ || _ then _ else _).
  destruct (search_fts_filtered (tb_db t) query route scope (so_filters options) k) as [ids|] eqn:Ef; [|done].
  cbv zeta. destruct (load_temporal_metadata _); [|done]. intros [= <-]. apply fts_passing in Ef. eapply finished_answer; [|apply decay_drawn].
  apply rrf_merge_good; [split; constructor|done].
Qed.
End results.

(** ** Reranking *)
Lemma push_index_spec ordered i : NoDup ordered →
  NoDup (push_index ordered i) ∧ ∀ j, j ∈ push_index ordered i ↔ j ∈ ordered ∨ j = i.
Proof.
  intros Hn. unfold push_index. case_bool_decide as Hi; [split; [done|set_solver]|]. split.
  - apply NoDup_app. split_and!; [done|set_solver|apply NoDup_singleton].
  - intros j. rewrite elem_of_app, list_elem_of_singleton. done.
Qed.

Lemma push_indices_spec l ordered : NoDup ordered →
  NoDup (foldl push_index ordered l) ∧ ∀ j, j ∈ foldl push_index ordered l ↔ j ∈ ordered ∨ j ∈ l.
Proof.
  revert ordered. induction l as [|i l IH]; intros ordered Hn; simpl; [set_solver|].
  destruct (push_index_spec ordered i Hn) as [Hn' Hi]. destruct (IH _ Hn') as [Hn'' Hl]. split; [done|].
  intros j. rewrite Hl, Hi, elem_of_cons. tauto.
Qed.

Lemma reorder_permutes len items order : reorder_indices len items = Ok order → order ≡ₚ seq 0 len.
Proof.
  unfold reorder_indices. destruct items as [|item0 items]; [done|].
  destruct (scored_items len (item0 :: items)) as [|e ranked] eqn:E; [done|]. rewrite <- E. intros [= <-].
  destruct (push_indices_spec (sort_by rerank_leb (scored_items len (item0 :: items))).*1 [] (NoDup_nil_2)) as [Hn Hi].
  destruct (push_indices_spec (seq 0 len) _ Hn) as [Hn' Hi']. apply NoDup_Permutation; [done|apply NoDup_seq|].
  intros j. rewrite Hi', Hi. split; [|by right]. intros [[Hj|Hj]|Hj]; [by apply elem_of_nil in Hj| |done].
  apply list_elem_of_fmap in Hj as ([j' s] & -> & Hj). apply elem_of_sort_by in Hj.
  apply list_elem_of_omap in Hj as (item & _ & Hitem). apply elem_of_seq. cbn [fst].
  destruct (Nat.leb_spec len (ri_index item)); [done|]. repeat case_match; simplify_eq. lia.
Qed.

Lemma try_indices_permutes self query documents order :
  try_rerank_indices self query documents = Ok order → order ≡ₚ seq 0 (length documents).
Proof.
  unfold try_rerank_indices. destruct (_ <=? 1)%nat; [by intros [= <-]|].
  destruct (self query documents) as [response|]; [|done]. apply reorder_permutes.
Qed.

Lemma at_indices_some l order : (∀ i, i ∈ order → (i < length l)%nat) →
  at_indices l order = Some (omap (fun i => l !! i) order).
Proof.
  induction order as [|i order IH]; intros Hi; simpl; [done|].
  destruct (lookup_lt_is_Some_2 l i (Hi i ltac:(left))) as [r Hr]. rewrite Hr. simpl.
  rewrite IH by (intros j Hj; apply Hi; by right). done.
Qed.

Lemma omap_seq (l k : list SearchResult) : omap (fun i => (k ++ l)%list !! i) (seq (length k) (length l)) = l.
Proof.
  revert k. induction l as [|r l IH]; intros k; simpl; [done|].
  rewrite list_lookup_middle by done. f_equal.
  specialize (IH (k ++ [r])%list). rewrite <- app_assoc, length_app, Nat.add_1_r in IH. exact IH.
Qed.

Lemma at_indices_permutes l order : order ≡ₚ seq 0 (length l) → ∃ l', at_indices l order = Some l' ∧ l' ≡ₚ l.
Proof.
  intros Hp. exists (omap (fun i => l !! i) order). split.
  - apply at_indices_some. intros i Hi. rewrite Hp in Hi. apply elem_of_seq in Hi. lia.
  - rewrite Hp. by rewrite (omap_seq l [] : omap (fun i => l !! i) (seq 0 (length l)) = l).
Qed.

Lemma try_rerank_permutes self query l :
  (∃ l', try_rerank self query l = Some (Ok l') ∧ l' ≡ₚ l) ∨ ∃ e, try_rerank self query l = Some (Err e).
Proof.
  unfold try_rerank. destruct (try_rerank_indices _ _ _) as [order|e] eqn:E; [left|right; eauto].
  apply try_indices_permutes in E. rewrite length_fmap in E. destruct (at_indices_permutes l order E) as (l' & -> & Hp). eauto.
Qed.

Lemma reranked (enabled : bool) (top_k : Z) (reranker : result HttpReranker string) (scrub : string → string)
    (query : string) (l : list SearchResult) :
  ∃ l' warnings, maybe_rerank enabled top_k reranker scrub query l = Some (l', warnings) ∧ l' ≡ₚ l.
Proof.
  unfold maybe_rerank. destruct (_ || _); [eauto|]. set (n := Z.to_nat _).
  destruct reranker as [reranker|e]; [|eexists _, _; split; [done|by rewrite take_drop]].
  destruct (try_rerank_permutes reranker query (take n l)) as [(l' & -> & Hp)|(e & ->)].
  - eexists _, []. split; [done|]. rewrite Hp. by rewrite take_drop.
  - eexists _, _. split; [done|by rewrite take_drop].
Qed.

(** The reranker, whatever its endpoint answers, loses no result, doubles none and
    cannot make the search panic: the results are a permutation of those given, those
    past its [top_k] keep their places, and when it fails the order is unchanged and
    one warning says so. *)
Theorem rerank_permutes_results (enabled : bool) (top_k : Z) (reranker : result HttpReranker string)
    (scrub : string → string) (query : string) (l : list SearchResult) :
  ∃ l' warnings, maybe_rerank enabled top_k reranker scrub query l = Some (l', warnings)
    ∧ l' ≡ₚ l ∧ drop (Z.to_nat (Z.max 0 top_k)) l' = drop (Z.to_nat (Z.max 0 top_k)) l
    ∧ (warnings = [] ∨ l' = l ∧ ∃ e, warnings = [reranker_fallback_warning scrub e]).
Proof.
  unfold maybe_rerank. destruct (_ || _); [eauto 10|]. set (n := Z.to_nat (Z.min top_k (Z.of_nat (length l)))).
  assert (Hfall : ∀ e, ∃ l' warnings,
    Some ((take n l ++ drop n l)%list, [reranker_fallback_warning scrub e]) = Some (l', warnings)
    ∧ l' ≡ₚ l ∧ drop (Z.to_nat (Z.max 0 top_k)) l' = drop (Z.to_nat (Z.max 0 top_k)) l
    ∧ (warnings = [] ∨ l' = l ∧ ∃ e, warnings = [reranker_fallback_warning scrub e])).
  { intros e. rewrite take_drop. eexists _, _. split_and!; eauto. }
  destruct reranker as [reranker|e]; [|by apply Hfall].
  destruct (try_rerank_permutes reranker query (take n l)) as [(l' & -> & Hp)|(e & ->)]; [|by apply Hfall].
  cbn. eexists _, []. split_and!; [done| | |by left].
  - rewrite Hp. by rewrite take_drop.
  - assert (Hlen : length l' = n) by (rewrite (Permutation_length Hp), length_take; lia).
    destruct (Z.le_gt_cases (Z.max 0 top_k) (Z.of_nat (length l))) as [Hle|Hgt].
    + replace (Z.to_nat (Z.max 0 top_k)) with n by lia. by rewrite drop_app_length' by done.
    + rewrite !drop_ge; [done|lia|]. rewrite length_app, length_drop. lia.
Qed.

(** ** The nearest candidates

    [rank_exact_candidates] of [src/src/search/mod.rs]: the exact scan that ranks the
    candidates by cosine distance, the unreadable embeddings last. *)

Abbreviation ranked_candidate := (result f64 SearchError * ExactCandidate)%type.

(** The order without the partiality of floats: readable first, then the distance,
    then the identifier. *)
Definition unreadable (a : ranked_candidate) : Z := match a.1 with Ok _ => 0 | Err _ => 1 end.
Definition distance_of (a : ranked_candidate) : f64 := match a.1 with Ok x => x | Err _ => f64_zero end.
Definition id_of (a : ranked_candidate) : string := ec_id a.2.

Definition nearest_cmp (a b : ranked_candidate) : comparison :=
  then_with (Z.compare (unreadable a) (unreadable b))
    (then_with (float_cmp (distance_of a) (distance_of b)) (String.compare (id_of a) (id_of b))).

#[export] Instance nearest_comparator : Comparator nearest_cmp.
Proof.
  apply (lex_comparator _ _ (on_comparator unreadable _ Z_comparator)
           (lex_comparator _ _ (on_comparator distance_of _ float_comparator) (on_comparator id_of _ string_comparator))).
Qed.

Definition measured (a : ranked_candidate) : Prop := is_number (distance_of a).

Lemma candidate_cmp_numbers a b : measured a → measured b → candidate_cmp a b = nearest_cmp a b.
Proof.
  unfold measured, candidate_cmp, nearest_cmp, distance_of, unreadable, id_of. destruct a as [[x|e] c], b as [[y|e'] c']; cbn; intros Hx Hy; [|done..].
  by rewrite partial_cmp_number.
Qed.

Lemma nearest_same a b : nearest_cmp a b = Eq → id_of a = id_of b.
Proof.
  unfold nearest_cmp, then_with. destruct (Z.compare _ _); [|done..]. destruct (float_cmp _ _); [|done..].
  apply String.compare_eq_iff.
Qed.

(** What a sorted list is cut at: all that is kept comes before all that is not. *)
Lemma sorted_cut {A} (R : A → A → Prop) n l x y :
  StronglySorted R l → x ∈ take n l → y ∈ drop n l → R x y.
Proof.
  revert n. induction l as [|z l IH]; intros [|n] Hs Hx Hy; simpl in *; try by apply elem_of_nil in Hx.
  apply StronglySorted_inv in Hs as [Hs Hz]. apply elem_of_cons in Hx as [->|Hx]; [|by eapply IH].
  rewrite Forall_forall in Hz. apply Hz. by eapply elem_of_sublist; [|apply sublist_drop].
Qed.

Lemma sorted_take {A} (R : A → A → Prop) n l : StronglySorted R l → StronglySorted R (take n l).
Proof.
  intros Hs. revert n. induction Hs as [|x l Hs IH Hx]; intros [|n]; simpl; constructor; [apply IH|].
  rewrite Forall_forall in *. intros y Hy. apply Hx. by eapply elem_of_sublist; [|apply sublist_take].
Qed.

Section ranking.
Variables (distance : string → blob → result f64 SearchError) (rows : list ExactCandidate).

Definition measure (row : ExactCandidate) : ranked_candidate := (distance (ec_id row) (ec_blob row), row).

Hypothesis distinct : NoDup (ec_id <$> rows).
Hypothesis numbers : ∀ row x, row ∈ rows → distance (ec_id row) (ec_blob row) = Ok x → is_number x.

Lemma rows_measured a : a ∈ measure <$> rows → measured a.
Proof.
  intros (row & -> & Hrow)%list_elem_of_fmap. unfold measured, distance_of, measure. cbn.
  destruct (distance (ec_id row) (ec_blob row)) eqn:E; [by eapply numbers|done].
Qed.

Lemma rank_sorted n :
  rank_exact_candidates rows n distance = take n (sort_by (fun a b => not_gt (nearest_cmp a b)) (measure <$> rows)).
Proof.
  unfold rank_exact_candidates. f_equal. apply sort_by_ext. intros a b Ha Hb.
  by rewrite candidate_cmp_numbers by (by apply rows_measured).
Qed.

Lemma rows_distinct a b : a ∈ measure <$> rows → b ∈ measure <$> rows → id_of a = id_of b → a = b.
Proof.
  intros (r & -> & Hr)%list_elem_of_fmap (r' & -> & Hr')%list_elem_of_fmap. unfold id_of. cbn. intros E.
  apply list_elem_of_lookup in Hr as [i Hi], Hr' as [j Hj].
  assert (i = j) as ->; [|congruence]. eapply (NoDup_lookup (ec_id <$> rows)); [done| |]; rewrite list_lookup_fmap_Some; eauto.
Qed.

Lemma kept_ranked n a : a ∈ take n (sort_by (fun a b => not_gt (nearest_cmp a b)) (measure <$> rows)) → a ∈ measure <$> rows.
Proof. intros Ha. eapply elem_of_sort_by. by eapply elem_of_sublist; [|apply sublist_take]. Qed.

(** Strictly: candidates have distinct identifiers, so no two of them are equal to the
    comparator. *)
Lemma ranked_strictly n : StronglySorted (fun a b => candidate_cmp a b = Lt) (rank_exact_candidates rows n distance).
Proof.
  rewrite rank_sorted. pose proof (kept_ranked n) as Hin.
  assert (Hnd : NoDup (take n (sort_by (fun a b => not_gt (nearest_cmp a b)) (measure <$> rows)))).
  { eapply sublist_NoDup; [|apply sublist_take]. rewrite (sort_by_perm _ _).
    apply (NoDup_fmap_1 id_of). by rewrite <- list_fmap_compose. }
  pose proof (sort_by_cmp_sorted nearest_cmp (measure <$> rows)) as Hs. apply (sorted_take _ n) in Hs.
  revert Hnd Hin. induction Hs as [|a l Hs IH Ha]; intros Hnd Hin; [constructor|]. apply NoDup_cons in Hnd as [Hnot Hnd].
  constructor; [apply IH; [done|]; intros b Hb; apply Hin; by right|]. apply Forall_forall. intros b Hb.
  rewrite Forall_forall in Ha. specialize (Ha b Hb).
  assert (Ha' := Hin a ltac:(left)). assert (Hb' := Hin b ltac:(by right)).
  rewrite candidate_cmp_numbers by (by apply rows_measured). destruct (nearest_cmp a b) eqn:E; [|done|done].
  exfalso. apply Hnot. by rewrite (rows_distinct a b Ha' Hb' (nearest_same _ _ E)).
Qed.
End ranking.

(** C28: the exact scan returns the nearest candidates, and they do not depend on the
    order in which the database yields the rows. For candidates with distinct
    identifiers, and distances that are numbers where the embedding is readable: it
    returns as many as were asked for or all there are, each of them a candidate with
    its own distance, strictly ascending (by distance, then by identifier, the
    unreadable ones last), and each of them before every candidate that is left out. A
    candidate whose embedding cannot be read is among them only when every readable one
    is: it fails the search only when there are fewer readable candidates than asked
    for. The order of the input plays no part even between equal distances, where the
    comment on the function promises a stable order: the comparator breaks the tie by
    the identifier. *)
Theorem nearest_exact (distance : string → blob → result f64 SearchError) (rows rows' : list ExactCandidate) (n : nat) :
  NoDup (ec_id <$> rows) → (∀ row x, row ∈ rows → distance (ec_id row) (ec_blob row) = Ok x → is_number x) →
  rows' ≡ₚ rows →
  let ranked := rank_exact_candidates rows n distance in
  rank_exact_candidates rows' n distance = ranked
  ∧ length ranked = (n `min` length rows)%nat
  ∧ (∀ a, a ∈ ranked → ∃ row, row ∈ rows ∧ a = measure distance row)
  ∧ StronglySorted (fun a b => candidate_cmp a b = Lt) ranked
  ∧ (∀ a row, a ∈ ranked → row ∈ rows → measure distance row ∉ ranked → candidate_cmp a (measure distance row) = Lt)
  ∧ (∀ e c, (Err e, c) ∈ ranked → ∀ row x, row ∈ rows → distance (ec_id row) (ec_blob row) = Ok x →
       measure distance row ∈ ranked).
Proof.
  intros Hn Hd Hp ranked. subst ranked. pose proof (ranked_strictly distance rows Hn Hd n) as Hstrict. revert Hstrict.
  rewrite (rank_sorted distance rows Hd).
  set (sorted := sort_by (fun a b => not_gt (nearest_cmp a b)) (measure distance <$> rows)).
  assert (Hin : ∀ a, a ∈ sorted ↔ a ∈ measure distance <$> rows) by (intros a; apply elem_of_sort_by).
  assert (Hsplit : ∀ row, row ∈ rows → measure distance row ∈ take n sorted ∨ measure distance row ∈ drop n sorted).
  { intros row Hrow. rewrite <- elem_of_app, take_drop, Hin. by apply list_elem_of_fmap_2. }
  assert (Hcut : ∀ a b, a ∈ take n sorted → b ∈ drop n sorted →
            candidate_cmp a b = nearest_cmp a b ∧ not_gt (nearest_cmp a b) = true
            ∧ (nearest_cmp a b = Eq → a = b)).
  { intros a b Ha Hb. pose proof (sorted_cut _ n sorted _ _ (sort_by_cmp_sorted nearest_cmp _) Ha Hb) as Hle.
    assert (Ha' : a ∈ measure distance <$> rows) by (apply Hin; by eapply elem_of_sublist; [|apply sublist_take]).
    assert (Hb' : b ∈ measure distance <$> rows) by (apply Hin; by eapply elem_of_sublist; [|apply sublist_drop]).
    split_and!; [apply candidate_cmp_numbers; by eapply rows_measured|exact Hle|].
    intros E. eapply rows_distinct; [done..|by apply nearest_same]. }
  intros Hstrict. split_and!; [| | |done| |].
  - rewrite rank_sorted by (intros row x; rewrite Hp; apply Hd). f_equal. symmetry. apply sort_by_unique.
    + apply _.
    + intros a b Ha Hb E. eapply rows_distinct; [done..|by apply nearest_same].
    + by rewrite Hp.
  - rewrite length_take. unfold sorted. by rewrite (Permutation_length (sort_by_perm _ _)), length_fmap.
  - intros a Ha%(kept_ranked distance rows n). apply list_elem_of_fmap in Ha as (row & -> & Hrow). eauto.
  - intros a row Ha Hrow Hnot. destruct (Hsplit row Hrow) as [|Hb]; [done|].
    destruct (Hcut _ _ Ha Hb) as (-> & Hle & Heq). destruct (nearest_cmp a _); [|done|done].
    rewrite Heq in Ha by done. done.
  - intros e c He row x Hrow Ex. destruct (Hsplit row Hrow) as [|Hb]; [done|exfalso].
    destruct (Hcut _ _ He Hb) as (_ & Hle & _). unfold nearest_cmp, unreadable, measure in Hle. rewrite Ex in Hle. done.
Qed.
