(* ===== verification/SearchOutcome.v ===== *)
(** * Searches that degrade, and searches that find

    The whole search with its fallback and its reranker: it never panics, answers
    within the scope that was asked for, falls back to keywords when the embedder is
    of no use, and then returns exactly the drawers the keywords and the filters
    select. *)

From Stdlib Require Import ZArith QArith Lia String Ascii SpecFloat.
From stdpp Require Import base tactics list gmap strings numbers sets.
From S2P Require Import Prelude Order Text Float Sqlite Ranking Drawer DrawerStore Tunnels Search SearchSafety.
Close Scope Q_scope.
Open Scope Z_scope.
Open Scope string_scope.
Open Scope rust_scope.

(** ** The scope in SQL and in the code *)
Definition scope_ok (scope : ProjectSearchScope) : Prop :=
  match ps_mode scope with
  | ProjectScoped | ProjectPlusGlobal => is_Some (ps_project_id scope)
  | AllProjects | NullOnly => ps_project_id scope = None
  end.

Lemma from_request_ok resolved include_global all strict : scope_ok (from_request resolved include_global all strict).
Proof. unfold from_request. destruct all; [done|]. destruct resolved as [p|]; [destruct include_global|destruct strict]; hnf; eauto. Qed.

Lemma scope_sql scope p : scope_ok scope →
  project_clause (as_sql_mode (ps_mode scope)) (ps_project_id scope) p = allows_row scope p.
Proof.
  destruct scope as [id mode]. unfold scope_ok, project_clause, allows_row.
  destruct mode; cbn [ps_mode ps_project_id as_sql_mode]; intros Hs; try done.
  all: destruct Hs as [current ->]; destruct p as [p|]; [|done]; cbn [sql_eq].
  all: destruct (String.eqb_spec p current) as [->|Hne].
  all: repeat first [rewrite (bool_decide_true (_ = _)) by done | rewrite (bool_decide_false (_ = _)) by congruence]; done.
Qed.

Section outcome.
Context {H : StoreEnv} {L : StoreLaws H} {SE : SearchEnv} {SL : SearchLaws SE}.
Variables (t : SearchTables) (config : SearchConfig) (route : RouteDecision) (scope : ProjectSearchScope)
  (options : SearchOptions) (circuit : Circuit) (scrub : string → string) (reply : EmbedReply)
  (rerank_enabled : bool) (rerank_top_k : Z) (reranker : result HttpReranker string) (query : string) (top_k now_secs : Z).

Abbreviation unranked := (search_unranked t config circuit scrub reply query route scope options top_k now_secs).
Abbreviation outcome :=
  (search_with_route_options_outcome t config circuit scrub reply rerank_enabled rerank_top_k reranker query route scope
     options top_k now_secs).

Lemma answer_perm l l' : l' ≡ₚ l → answer t route scope config options top_k now_secs l →
  answer t route scope config options top_k now_secs l'.
Proof. intros Hp (Hn & Hl & Ha). split_and!; [by rewrite Hp|by rewrite Hp|]. intros r. rewrite Hp. apply Ha. Qed.

Lemma fallback_answer warning o :
  bm25_fallback_outcome t config query route scope options top_k now_secs warning = Ok o →
  answer t route scope config options top_k now_secs (oc_results o).
Proof.
  unfold bm25_fallback_outcome. destruct (search_bm25_only_with_options _ _ _ _ _ _ _ _) as [rs|] eqn:E; [|done].
  intros [= <-]. by eapply bm25_answer.
Qed.

Lemma unranked_answer o : unranked = Ok o → answer t route scope config options top_k now_secs (oc_results o).
Proof.
  unfold search_unranked. intros E. repeat case_match; simplify_eq; eauto using fallback_answer, vector_answer.
Qed.

Lemma reranked_outcome :
  (outcome = Some (Ok (MkOutcome [] Hybrid [])) ∧ top_k = 0)
  ∨ (∃ e, outcome = Some (Err e) ∧ unranked = Err e)
  ∨ ∃ o l ws, unranked = Ok o ∧ outcome = Some (Ok (MkOutcome l (oc_mode o) (oc_warnings o ++ ws))) ∧ l ≡ₚ oc_results o.
Proof.
  unfold search_with_route_options_outcome. destruct (Z.eqb_spec top_k 0); [by left|right].
  destruct unranked as [o|e]; [right|left; eauto].
  destruct (reranked rerank_enabled rerank_top_k reranker scrub query (oc_results o)) as (l & ws & E & Hp).
  rewrite E. exists o, l, ws. done.
Qed.

(** C12: a search never panics, whatever the embedder and the reranker answer, and
    every list it returns is an answer: no drawer twice, at most [top_k] of them, each
    an active drawer shown as it is stored, which passed the wing, the room and the
    project of the request (or came through a room from another project, and is marked
    so), and which the metadata filters, the exclusion of raw turns and the window of
    validity let through. Where the scope names no project, no result is of the marked
    kind, and one that is not is in the scope by the code's own test. *)
Theorem search_answers :
  scope_ok scope →
  ∃ res, outcome = Some res ∧ ∀ o, res = Ok o →
    answer t route scope config options top_k now_secs (oc_results o)
    ∧ ∀ r, r ∈ oc_results o →
        (ps_project_id scope = None → sr_source r ≠ TunnelCrossProject)
        ∧ (sr_source r ≠ TunnelCrossProject →
           ∃ row, db_drawers (tb_db t) !! sr_drawer_id r = Some row ∧ allows_row scope (r_project_id row) = true).
Proof.
  intros Hscope.
  assert (Hscoped : ∀ l, answer t route scope config options top_k now_secs l → ∀ r, r ∈ l →
    (ps_project_id scope = None → sr_source r ≠ TunnelCrossProject)
    ∧ (sr_source r ≠ TunnelCrossProject →
       ∃ row, db_drawers (tb_db t) !! sr_drawer_id r = Some row ∧ allows_row scope (r_project_id row) = true)).
  { intros l (_ & _ & Ha) r Hr. destruct (Ha r Hr) as [(row & Hrow & Hreach & _) _]. destruct Hreach as [[Hs Hf]|Htunnel].
    - split; [intros _; rewrite Hs; by destruct (r_project_id row)|]. intros _. exists row. split; [done|].
      rewrite <- scope_sql by done. unfold build_filter_clause in Hf. by apply andb_true_iff in Hf as [_ ?].
    - destruct Htunnel as (Hs & _ & _ & current & p & Hc & _). split; [congruence|done]. }
  destruct reranked_outcome as [[-> _]|[(e & -> & _)|(o & l & ws & Eo & -> & Hp)]].
  - eexists. split; [done|]. intros o [= <-]. split; [apply empty_answer|]. intros r Hr. by apply elem_of_nil in Hr.
  - eexists. split; [done|]. done.
  - eexists. split; [done|]. intros o' [= <-]. assert (Ha := answer_perm _ _ Hp (unranked_answer o Eo)).
    split; [exact Ha|]. by apply Hscoped.
Qed.

(** ** The fallback *)
Definition usable : bool :=
  negb (ci_open circuit)
  && match reply with
     | Embedded (vector :: _) =>
         match current_vector_dim t with Some dim => (dim =? Z.of_nat (length vector))%Z | None => true end
     | _ => false
     end.

Lemma fts_returns limit : (limit <= i64_max)%Z →
  ∃ ids, search_fts_filtered (tb_db t) query route scope (so_filters options) limit = Ok ids.
Proof.
  intros Hl. unfold search_fts_filtered. case_match; [|eauto]. destruct (Z.ltb_spec i64_max limit); [lia|eauto].
Qed.

(** The keyword search answers unless the statement for the metadata has too many drawers. *)
Lemma bm25_returns : 0 <= top_k → top_k * 20 <= i64_max →
  (∃ rs, search_bm25_only_with_options t config query route scope options top_k now_secs = Ok rs)
  ∨ ∃ merged m, search_bm25_only_with_options t config query route scope options top_k now_secs = Err (LoadTemporalMetadata m)
      ∧ good t route scope merged ∧ Z.of_nat (length merged) <= Z.max (top_k * 20) 100
      ∧ load_temporal_metadata (collected t config scope options merged) = Err (LoadTemporalMetadata m).
Proof.
  intros H0 Hk. unfold search_bm25_only_with_options. case_match; [eauto|].
  set (k := if _ || _ then _ else _).
  assert (Hk' : k <= i64_max ∧ k <= Z.max (top_k * 20) 100)
    by (unfold k, widened, sat_u64, i64_max, u64_max in *; repeat case_match; lia).
  destruct (fts_returns k) as [ids E]; [lia|]. rewrite E. apply fts_passing in E.
  destruct (load_temporal_metadata _) as [|e] eqn:El; [by left; eauto|right].
  assert (∃ m, e = LoadTemporalMetadata m) as [m ->] by (unfold load_temporal_metadata in El; case_match; naive_solver).
  exists (rrf_merge [] ids route (tb_db t) k), m. split_and!; [done| |unfold rrf_merge; rewrite length_take; lia|done].
  apply rrf_merge_good; [split; constructor|done].
Qed.

(** Enough for every search: few drawers, or few results and tunnels. *)
Definition fits_statement : Prop :=
  Z.of_nat (size (db_drawers (tb_db t))) <= SQLITE_MAX_VARIABLE_NUMBER
  ∨ 0 <= sc_tunnel_fanout_cap config
    ∧ Z.max (top_k * 20) 100 * (1 + sc_tunnel_fanout_cap config) <= SQLITE_MAX_VARIABLE_NUMBER.

End outcome.

(** ** What the keywords find *)

Lemma from_slug_inv {A} (as_str : A → string) kind value l a : from_slug as_str kind value l = Ok a → as_str a = value.
Proof. induction l as [|v l IH]; simpl; [done|]. destruct (String.eqb_spec value (as_str v)); [congruence|done]. Qed.

Lemma traverse_inv {A B E} (f : A → result B E) (g : B → A) o o' :
  (∀ a b, f a = Ok b → g b = a) → traverse f o = Ok o' → g <$> o' = o.
Proof.
  intros Hg. destruct o as [a|]; simpl; [|by intros [= <-]]. destruct (f a) as [b|] eqn:E'; [|done].
  intros [= <-]. simpl. f_equal. by apply Hg.
Qed.

(** A drawer that was read has the columns of its row. *)
Lemma drawer_columns `{StoreEnv} id row d : drawer_from_row id row = Ok d →
  memory_kind_as_str (d_memory_kind d) = r_memory_kind row ∧ memory_domain_as_str (d_domain d) = r_domain row
  ∧ d_field d = r_field row ∧ knowledge_tier_as_str <$> d_tier d = r_tier row
  ∧ knowledge_status_as_str <$> d_status d = r_status row ∧ anchor_kind_as_str (d_anchor_kind d) = r_anchor_kind row.
Proof.
  unfold drawer_from_row. intros E. repeat case_match; simplify_eq. cbn.
  repeat match goal with
         | E : _ _ = Ok ?x |- context [?x] =>
             first [apply from_slug_inv in E | apply (traverse_inv _ knowledge_tier_as_str) in E; [|intros ??; apply from_slug_inv]
                   | apply (traverse_inv _ knowledge_status_as_str) in E; [|intros ??; apply from_slug_inv]]
         end. done.
Qed.

Lemma filters_agree `{StoreEnv} f id row d source s route :
  drawer_from_row id row = Ok d → matches_filters f (result_from_drawer d source s route) = metadata_clause f row.
Proof.
  intros E. destruct (drawer_columns id row d E) as (Hk & Hd & Hf & Ht & Hs & Ha).
  unfold matches_filters, metadata_clause, result_from_drawer, sql_optional, sql_eq. cbn.
  rewrite Hk, Hd, Hf, Ht, Hs, Ha. destruct f as [fk fd ff ft fs fa]. cbn.
  repeat f_equal; repeat (case_match; try done); apply String.eqb_sym.
Qed.

Section keywords.
Context {H : StoreEnv} {L : StoreLaws H} {SE : SearchEnv} {SL : SearchLaws SE}.
Variables (t : SearchTables) (config : SearchConfig) (route : RouteDecision) (scope : ProjectSearchScope)
  (options : SearchOptions) (now_secs : Z).

(** *** Lists by the cores of their results *)
Lemma core_core r : core (core r) = core r.
Proof. done. Qed.

Lemma filter_cores p l c : (∀ r, p (core r) = p r) → c ∈ core <$> List.filter p l ↔ c ∈ core <$> l ∧ p c = true.
Proof.
  intros Hp. rewrite !list_elem_of_fmap. setoid_rewrite list_elem_of_In. setoid_rewrite filter_In. split.
  - intros (r & -> & Hr & Hpr). rewrite Hp. eauto.
  - intros [(r & -> & Hr) Hpc]. rewrite Hp in Hpc. eauto.
Qed.

Definition keep (l : list SearchResult) : list SearchResult :=
  retain_durable config options (retain_search_filters (so_filters options) l).

Definition kept (r : SearchResult) : bool :=
  matches_filters (so_filters options) r
  && negb (exclude_raw config options && is_excluded_raw_turn_result (sc_turns config) r).

Lemma keep_cores l c : c ∈ core <$> keep l ↔ c ∈ core <$> l ∧ kept c = true.
Proof.
  unfold keep, kept, retain_durable, retain_search_filters.
  assert (Hm : filters_empty (so_filters options) = true → matches_filters (so_filters options) c = true)
    by apply empty_filters_match.
  destruct (exclude_raw config options), (filters_empty (so_filters options)); rewrite ?filter_cores by done;
    rewrite ?andb_true_iff, ?andb_false_l, ?andb_true_l; cbn; intuition.
Qed.

Lemma inject_cap_zero l : sc_tunnel_fanout_cap config = 0 →
  core <$> inject_tunnel_hints_with_cap t config scope l = core <$> l.
Proof.
  intros Hcap. unfold inject_tunnel_hints_with_cap. destruct (find_tunnels (tb_db t)) as [|tn tns]; [done|].
  generalize (tn :: tns) as tunnels. intros tunnels. generalize (list_to_set (sr_drawer_id <$> l) : gset string) as seen. intros seen.
  assert (Hl : core <$> (inject_loop t config scope tunnels l seen).1 = core <$> l
               ∧ (inject_loop t config scope tunnels l seen).2 = []).
  { revert seen. induction l as [|r l IH]; intros seen; simpl; [done|].
    assert (∃ r', inject_turn t config scope tunnels r seen = (r', seen, []) ∧ core r' = core r) as (r' & -> & Hr).
    { unfold inject_turn. rewrite Hcap. destruct (sr_room r); eauto. }
    destruct (IH seen) as [IHc IHf]. destruct (inject_loop t config scope tunnels l seen) as [l' more]. cbn in *.
    split; [|done]. by f_equal. }
  destruct (inject_loop t config scope tunnels l seen) as [l' more]. cbn in *. destruct Hl as [<- ->]. by rewrite app_nil_r.
Qed.

Definition valid_now (r : SearchResult) : bool :=
  so_include_expired options
  || match db_drawers (tb_db t) !! sr_drawer_id r with
     | Some row => validity_window_contains_at (r_valid_from row) (r_valid_until row) now_secs
     | None => true
     end.

Lemma importance_cores db l : core <$> apply_consistent_effective_importance db l = core <$> l.
Proof.
  unfold apply_consistent_effective_importance. rewrite <- list_fmap_compose. apply list_fmap_ext. intros i r _. simpl.
  case_bool_decide; [done|]. by destruct (db_drawers db !! _).
Qed.

Lemma shaped_cores l c : sc_tunnel_fanout_cap config = 0 →
  c ∈ core <$> shaped t config scope options now_secs l ↔ c ∈ core <$> l ∧ kept c = true ∧ valid_now c = true.
Proof.
  intros Hcap. unfold shaped, collected. fold (keep l). fold (keep (inject_tunnel_hints_with_cap t config scope (keep l))).
  rewrite importance_cores. unfold valid_now.
  assert (Hk : c ∈ core <$> keep (inject_tunnel_hints_with_cap t config scope (keep l)) ↔ c ∈ core <$> l ∧ kept c = true)
    by (rewrite keep_cores, inject_cap_zero, keep_cores by done; tauto).
  destruct (so_include_expired options); [rewrite Hk; cbn; tauto|].
  unfold retain_currently_valid_results. rewrite filter_cores by done. rewrite Hk. cbn. tauto.
Qed.

Lemma finished_cores top_k l : (length l <= Z.to_nat top_k)%nat → core <$> finished t options top_k l ≡ₚ core <$> l.
Proof.
  intros Hl. unfold finished. rewrite take_ge by (by rewrite (Permutation_length (rerank_permutes l))).
  transitivity (core <$> rerank_by_effective_importance l); [|by rewrite rerank_permutes].
  destruct (_ && _); [|done]. apply reflexive_eq. unfold inject_chunk_neighbors. rewrite <- list_fmap_compose.
  apply list_fmap_ext. intros i r _. simpl. destruct (sr_chunk_index r); [|done]. cbv zeta. by repeat case_match.
Qed.

Lemma decay_cores db decay l : core <$> apply_temporal_decay db decay now_secs l ≡ₚ core <$> l.
Proof.
  unfold apply_temporal_decay. case_bool_decide; [done|]. rewrite similarity_permutes, <- list_fmap_compose.
  by rewrite (list_fmap_ext _ core).
Qed.

(** *** From the index to the results *)
Definition keyword_result (id : string) : option SearchResult :=
  match get_drawer (tb_db t) id with
  | Ok (Some d) => Some (result_from_drawer d (classify_row (drawer_project_id (tb_db t) id)) (S754_zero false) route)
  | _ => None
  end.

Lemma add_fts_lookup ids m id r :
  foldl (add_fts_result (tb_db t) route) m ids !! id = Some r
  ↔ m !! id = Some r ∨ m !! id = None ∧ id ∈ ids.*1 ∧ keyword_result id = Some r.
Proof.
  revert m. induction ids as [|e ids IH]; intros m; simpl; [rewrite elem_of_nil; tauto|].
  rewrite IH, elem_of_cons. unfold add_fts_result. destruct (m !! e.1) as [r0|] eqn:Em.
  { split; [tauto|]. intros [?|(Hm & [->|?] & ?)]; [by left|congruence|tauto]. }
  destruct (decide (id = e.1)) as [->|Hne].
  - rewrite Em. unfold keyword_result. destruct (get_drawer (tb_db t) e.1) as [[d|]|] eqn:Eg; rewrite ?lookup_insert_eq, ?Em; naive_solver.
  - destruct (get_drawer (tb_db t) e.1) as [[d|]|]; rewrite ?lookup_insert_ne by done; naive_solver.
Qed.

Lemma pick_ranked_elem m ranks c : NoDup (fk_id <$> ranks) →
  c ∈ core <$> pick_ranked m ranks ↔ ∃ id r, id ∈ fk_id <$> ranks ∧ m !! id = Some r ∧ c = core r.
Proof.
  revert m. induction ranks as [|rank ranks IH]; intros m; rewrite ?fmap_cons, ?NoDup_cons.
  { intros _. split; [intros Hc; by apply elem_of_nil in Hc|]. intros (id & r & Hid & _). by apply elem_of_nil in Hid. }
  intros [Hnot Hn]. simpl. destruct (m !! fk_id rank) as [r|] eqn:E; [rewrite fmap_cons, elem_of_cons|]; rewrite IH by done;
    setoid_rewrite elem_of_cons.
  - setoid_rewrite lookup_delete_Some. split.
    + intros [->|(id & r' & Hid & [_ Hm] & ->)]; [exists (fk_id rank), r; eauto|exists id, r'; eauto].
    + intros (id & r' & [->|Hid] & Hm & ->); [left; rewrite E in Hm; by injection Hm as ->|].
      right. exists id, r'. split_and!; try done. intros E'. apply Hnot. by rewrite E'.
  - split; [intros (id & r' & ? & ? & ->); exists id, r'; eauto|]. intros (id & r' & [->|Hid] & Hm & ->); [congruence|].
    exists id, r'. eauto.
Qed.

Lemma fused_ids lists : NoDup (fk_id <$> fuse scores_iter RANK_CONSTANT lists)
  ∧ ∀ id, id ∈ fk_id <$> fuse scores_iter RANK_CONSTANT lists ↔ ∃ l, l ∈ lists ∧ id ∈ l.
Proof.
  split.
  - unfold fuse. rewrite (fmap_Permutation _ _ _ (sort_by_perm _ _)). apply (ranks_NoDup scores_iter scores_iter_permutes).
  - intros id. rewrite <- (rrf_scores_keys RANK_CONSTANT), list_elem_of_fmap.
    setoid_rewrite (fuse_elem scores_iter RANK_CONSTANT lists scores_iter_permutes). split.
    + intros (r & -> & E). by rewrite E.
    + intros [s E]. exists (MkFusedRank id s). done.
Qed.

Lemma merged_cores ids k c : NoDup ids.*1 → (length ids <= Z.to_nat k)%nat →
  c ∈ core <$> rrf_merge [] ids route (tb_db t) k ↔ ∃ id r, id ∈ ids.*1 ∧ keyword_result id = Some r ∧ c = core r.
Proof.
  intros Hn Hk. unfold rrf_merge. set (m := foldl _ _ ids). destruct (fused_ids [sr_drawer_id <$> []; ids.*1]) as [Hnd Hids].
  assert (Hm : ∀ id r, m !! id = Some r ↔ id ∈ ids.*1 ∧ keyword_result id = Some r).
  { intros id r. unfold m. rewrite add_fts_lookup. change (index_results []) with (∅ : gmap string SearchResult).
    rewrite lookup_empty. naive_solver. }
  assert (Hin : ∀ id, id ∈ fk_id <$> fuse scores_iter RANK_CONSTANT [sr_drawer_id <$> []; ids.*1] ↔ id ∈ ids.*1).
  { intros id. rewrite Hids. setoid_rewrite elem_of_cons. setoid_rewrite list_elem_of_singleton. simpl.
    split; [intros (l & [-> | ->] & Hid); [by apply elem_of_nil in Hid|done]|eauto]. }
  rewrite take_ge.
  - rewrite pick_ranked_elem by done. setoid_rewrite Hin. setoid_rewrite Hm. naive_solver.
  - etrans; [|exact Hk]. transitivity (length (fuse scores_iter RANK_CONSTANT [sr_drawer_id <$> []; ids.*1])).
    + clear. generalize m. induction (fuse scores_iter RANK_CONSTANT [sr_drawer_id <$> []; ids.*1]) as [|r l IH]; intros m'; simpl; [lia|].
      destruct (m' !! fk_id r); simpl; [specialize (IH (delete (fk_id r) m'))|specialize (IH m')]; lia.
    + rewrite <- (length_fmap fk_id), <- (length_fmap fst ids). apply submseteq_length, NoDup_submseteq; [done|].
      intros id. apply Hin.
Qed.

(** A drawer the keywords and the request select. *)
Definition selected (query id : string) : Prop :=
  ∃ match_query row d, build_fts_match_query query = Some match_query ∧ id ∈ (fts_match match_query).*1
    ∧ db_drawers (tb_db t) !! id = Some row ∧ drawer_from_row id row = Ok d
    ∧ build_retrieval_filter_clause route scope (so_filters options) row = true
    ∧ (exclude_raw config options = true →
       is_excluded_raw_turn (r_wing row) (r_room row) (d_memory_kind d) (r_importance row) (sc_turns config) = false)
    ∧ (so_include_expired options = false →
       validity_window_contains_at (r_valid_from row) (r_valid_until row) now_secs = true).

Lemma fts_exact query limit : limit <= i64_max →
  (∀ match_query, build_fts_match_query query = Some match_query → (length (fts_match match_query) <= Z.to_nat limit)%nat) →
  ∃ ids, search_fts_filtered (tb_db t) query route scope (so_filters options) limit = Ok ids
    ∧ (∀ n, (∀ match_query, build_fts_match_query query = Some match_query → (length (fts_match match_query) <= n)%nat) →
       (length ids <= n)%nat)
    ∧ ∀ id, id ∈ ids.*1 ↔ ∃ match_query row, build_fts_match_query query = Some match_query ∧ id ∈ (fts_match match_query).*1
        ∧ db_drawers (tb_db t) !! id = Some row ∧ build_retrieval_filter_clause route scope (so_filters options) row = true.
Proof.
  intros Hl Hfew. unfold search_fts_filtered. destruct (build_fts_match_query query) as [q|].
  2:{ exists []. split_and!; [done|simpl; lia|]. intros id. simpl. rewrite elem_of_nil. naive_solver. }
  destruct (Z.ltb_spec i64_max limit); [lia|]. specialize (Hfew q eq_refl).
  pose proof (filter_length_le (with_row (tb_db t) (build_retrieval_filter_clause route scope (so_filters options))) (fts_match q)) as Hf.
  eexists. split_and!; [done| |].
  - intros n Hn. specialize (Hn q eq_refl). rewrite length_take. lia.
  - intros id. rewrite take_ge by lia. rewrite list_elem_of_fmap. setoid_rewrite list_elem_of_In. setoid_rewrite filter_In.
    setoid_rewrite <- list_elem_of_In. unfold with_row. split.
    + intros (e & -> & He & Hk). case_match; [|done]. exists q. eexists. split_and!; try done. apply list_elem_of_fmap. eauto.
    + intros (q' & row & [= <-] & Hid & Hrow & Hk). apply list_elem_of_fmap in Hid as (e & -> & He).
      exists e. rewrite Hrow. done.
Qed.

Lemma keyword_result_row id row : db_drawers (tb_db t) !! id = Some row → is_active row = true → ∀ r,
  keyword_result id = Some r ↔ ∃ d, drawer_from_row id row = Ok d
    ∧ r = result_from_drawer d (classify_row (r_project_id row)) (S754_zero false) route.
Proof.
  intros Hrow Hact r. unfold keyword_result, get_drawer, drawer_project_id, active_row. rewrite Hrow, Hact.
  destruct (drawer_from_row id row); naive_solver.
Qed.

Lemma result_core_kept id row d source s :
  drawer_from_row id row = Ok d → build_retrieval_filter_clause route scope (so_filters options) row = true →
  kept (core (result_from_drawer d source s route)) = true
  ↔ (exclude_raw config options = true →
     is_excluded_raw_turn (r_wing row) (r_room row) (d_memory_kind d) (r_importance row) (sc_turns config) = false).
Proof.
  intros E Hf. assert (Hm : matches_filters (so_filters options) (core (result_from_drawer d source s route)) = true).
  { change (matches_filters (so_filters options) (result_from_drawer d source s route) = true).
    erewrite filters_agree by done. unfold build_retrieval_filter_clause in Hf. by apply andb_true_iff in Hf as [_ ?]. }
  unfold kept. rewrite Hm. unfold is_excluded_raw_turn_result. cbn.
  assert (d_wing d = r_wing row ∧ d_room d = r_room row ∧ d_importance d = r_importance row) as (-> & -> & ->).
  { unfold drawer_from_row in E. repeat case_match; simplify_eq; done. }
  destruct (exclude_raw config options), (is_excluded_raw_turn _ _ _ _ _); cbn; naive_solver.
Qed.

Lemma valid_now_row r id row : sr_drawer_id r = id → db_drawers (tb_db t) !! id = Some row →
  valid_now r = true
  ↔ (so_include_expired options = false → validity_window_contains_at (r_valid_from row) (r_valid_until row) now_secs = true).
Proof. intros <- Hrow. unfold valid_now. rewrite Hrow. destruct (so_include_expired options); cbn; naive_solver. Qed.

Lemma selected_cores query ids k id :
  sc_tunnel_fanout_cap config = 0 → NoDup ids.*1 → (length ids <= Z.to_nat k)%nat →
  (∀ id, id ∈ ids.*1 ↔ ∃ match_query row, build_fts_match_query query = Some match_query ∧ id ∈ (fts_match match_query).*1
        ∧ db_drawers (tb_db t) !! id = Some row ∧ build_retrieval_filter_clause route scope (so_filters options) row = true) →
  id ∈ sr_drawer_id <$> shaped t config scope options now_secs (rrf_merge [] ids route (tb_db t) k) ↔ selected query id.
Proof.
  intros Hcap Hn Hk Hids. rewrite ids_of_cores, list_elem_of_fmap. setoid_rewrite shaped_cores; [|done].
  setoid_rewrite merged_cores; [|done|done]. split.
  - intros (c & -> & (id0 & r & Hid & Hr & ->) & Hkept & Hvalid).
    apply Hids in Hid as (q & row & Hq & Hm & Hrow & Hf).
    assert (Hact : is_active row = true).
    { unfold build_retrieval_filter_clause, build_filter_clause in Hf. by destruct (is_active row). }
    apply (keyword_result_row id0 row Hrow Hact) in Hr as (d & Ed & ->).
    destruct (drawer_from_row_fields _ _ _ Ed) as (Hdid & _). cbn [sr_drawer_id core with_hints with_scores result_from_drawer].
    rewrite Hdid. exists q, row, d. split_and!; try done.
    + exact (proj1 (result_core_kept id0 row d _ _ Ed Hf) Hkept).
    + refine (proj1 (valid_now_row _ id0 row _ Hrow) Hvalid). done.
  - intros (q & row & d & Hq & Hm & Hrow & Ed & Hf & Hraw & Hvalid).
    assert (Hact : is_active row = true).
    { unfold build_retrieval_filter_clause, build_filter_clause in Hf. by destruct (is_active row). }
    destruct (drawer_from_row_fields _ _ _ Ed) as (Hdid & _).
    exists (core (result_from_drawer d (classify_row (r_project_id row)) (S754_zero false) route)). split_and!; [done| | |].
    + exists id, (result_from_drawer d (classify_row (r_project_id row)) (S754_zero false) route). split_and!; [|by eapply keyword_result_row; eauto|done].
      apply Hids. eauto 10.
    + exact (proj2 (result_core_kept id row d _ _ Ed Hf) Hraw).
    + refine (proj2 (valid_now_row _ id row _ Hrow) Hvalid). done.
Qed.

(** Without a fanout the results whose metadata is read are hits of the keywords. *)
Lemma collected_few ids k : sc_tunnel_fanout_cap config = 0 → NoDup ids.*1 → (length ids <= Z.to_nat k)%nat →
  passing t (build_filter_clause route scope) ids →
  (length (collected t config scope options (rrf_merge [] ids route (tb_db t) k)) <= length ids)%nat.
Proof.
  intros Hcap Hn Hk Hpass. rewrite <- (length_fmap sr_drawer_id), <- (length_fmap fst ids).
  apply submseteq_length, NoDup_submseteq.
  { refine (proj1 (collected_good t route scope config options _ _)). apply rrf_merge_good; [split; constructor|done]. }
  intros id. rewrite ids_of_cores, list_elem_of_fmap. intros (c & -> & Hc). unfold collected in Hc. fold (keep (rrf_merge [] ids route (tb_db t) k)) in Hc.
  fold (keep (inject_tunnel_hints_with_cap t config scope (keep (rrf_merge [] ids route (tb_db t) k)))) in Hc.
  apply keep_cores in Hc as [Hc _]. rewrite inject_cap_zero in Hc by done. apply keep_cores in Hc as [Hc _].
  apply merged_cores in Hc as (id & r & Hid & Hr & ->); [|done|done].
  unfold keyword_result, get_drawer in Hr. destruct (active_row _ _) as [row|]; [|done].
  destruct (drawer_from_row id row) as [d|] eqn:Ed; [|done]. injection Hr as <-.
  destruct (drawer_from_row_fields _ _ _ Ed) as (Hdid & _). cbn. by rewrite Hdid.
Qed.

(** C23: a keyword search that is not cut short returns exactly the drawers the keywords
    and the request select: active, in the wing, the room and the project asked for,
    with the metadata asked for, no excluded raw turn, valid now, and readable. None of
    the stages after the index (fusion, filters, importance, decay, the two sorts) loses
    or adds one. Not cut short: top_k is positive, 20 top_k is within SQLite's integers,
    and the keywords have at most top_k hits and at most 32766, the variables of one
    statement; and the fanout of the tunnels is 0 (with the default of 5 a search also
    adds drawers of other projects that share a room). *)
Theorem keywords_exact (query : string) (top_k : Z) :
  0 < top_k → top_k * 20 <= i64_max → sc_tunnel_fanout_cap config = 0 →
  (∀ match_query, build_fts_match_query query = Some match_query →
     Z.of_nat (length (fts_match match_query)) <= Z.min top_k SQLITE_MAX_VARIABLE_NUMBER) →
  ∃ rs, search_bm25_only_with_options t config query route scope options top_k now_secs = Ok rs
    ∧ ∀ id, id ∈ sr_drawer_id <$> rs ↔ selected query id.
Proof.
  intros H0 Hmax Hcap Hfew. unfold search_bm25_only_with_options. destruct (Z.eqb_spec top_k 0); [lia|].
  set (k := if _ || _ then _ else _).
  assert (Hk : top_k <= k <= i64_max) by (unfold k, widened, sat_u64, u64_max, i64_max in *; repeat case_match; lia).
  assert (Hfew' : ∀ n, top_k <= n → ∀ q, build_fts_match_query query = Some q → (length (fts_match q) <= Z.to_nat n)%nat)
    by (intros m Hm q Hq; specialize (Hfew q Hq); lia).
  destruct (fts_exact query k ltac:(lia) (Hfew' k ltac:(lia))) as (ids & Eids & Hlen & Hids). rewrite Eids.
  pose proof (fts_passing _ _ _ _ _ _ _ Eids) as Hpass. destruct (Hpass) as [Hn _].
  assert (Hsel : ∀ id, id ∈ sr_drawer_id <$> shaped t config scope options now_secs (rrf_merge [] ids route (tb_db t) k)
                       ↔ selected query id)
    by (intros id; apply selected_cores; auto; apply Hlen, Hfew'; lia).
  rewrite load_of_length.
  2:{ assert (Hmax' := collected_few ids k Hcap Hn (Hlen _ (Hfew' k ltac:(lia))) Hpass).
      assert (length ids <= Z.to_nat SQLITE_MAX_VARIABLE_NUMBER)%nat; [|unfold SQLITE_MAX_VARIABLE_NUMBER in *; lia].
      apply Hlen. intros q Hq. specialize (Hfew q Hq). unfold SQLITE_MAX_VARIABLE_NUMBER in *. lia. }
  set (l := shaped t config scope options now_secs _) in *.
  destruct (shaped_spec t route scope config options now_secs (rrf_merge [] ids route (tb_db t) k)) as [[Hnl _] _].
  { apply rrf_merge_good; [split; constructor|done]. }
  assert (Hll : (length l <= Z.to_nat top_k)%nat).
  { rewrite <- (length_fmap sr_drawer_id). transitivity (length ids.*1); [|rewrite length_fmap; apply Hlen, Hfew'; lia].
    apply submseteq_length, NoDup_submseteq; [done|]. intros id (q & row & d & Hq & Hm & Hrow & _ & Hf & _)%Hsel.
    apply Hids. by exists q, row. }
  eexists. split; [done|]. intros id. rewrite <- Hsel, ids_of_cores, (ids_of_cores l).
  rewrite finished_cores, decay_cores; [done|].
  rewrite <- (length_fmap core), (Permutation_length (decay_cores _ _ _)), length_fmap. done.
Qed.
End keywords.
