(* ===== verification/SearchStory.v ===== *)
(** * A search, evaluated

    Two projects that share a room, a comma in a wing, an embedder that is late and a
    reranker that answers nonsense: the theorems on search at concrete inputs. *)

From Stdlib Require Import ZArith QArith Lia String Ascii SpecFloat.
From stdpp Require Import base tactics list gmap strings numbers sets.
From S2P Require Import Prelude Order Text Float Sqlite Ranking Drawer DrawerStore Tunnels Search.
From S2P Require Import SearchSafety SearchOutcome.
Close Scope Q_scope.
Open Scope Z_scope.
Open Scope string_scope.
Open Scope rust_scope.

Module SearchStory.
#[local] Existing Instance Plain.env.
#[local] Existing Instance Plain.laws.

(** An index that finds what it is told, and hash maps walked in order. *)
#[export] Instance index : SearchEnv := {
  cut_for_search s := [s];
  fts_match _ := [("d1", f64_one); ("d2", f64_one); ("d3", f64_one)];
  knn_match _ _ _ := [];
  f64_exp x := x;
  lowercase s := s;
  is_alphanumeric c := ((97 <=? c) && (c <=? 122))%Z;
  scores_iter := map_to_list;
}.

#[export] Instance index_laws : SearchLaws index.
Proof. split; [done| |intros; constructor]. intros q. apply (bool_decide_unpack _). by vm_compute. Qed.

Definition row (content wing room project : string) (valid_until : option string) : Row :=
  MkRow content wing (Some room) None None "agent_inference" (1 # 2) "1700000000" None 1 3 (Some project) content
    "evidence" "project" "general" "repo" "repo://legacy" None None None None None None None None None None None
    false None None None valid_until None None None None None None None.

(** [d1] and [d2] share a room across projects, [d3] has expired. *)
Definition tables : SearchTables :=
  MkTables
    (MkDb (list_to_map [("d1", row "token refresh" "alpha" "auth" "p1" None);
                        ("d2", row "token expiry" "beta" "auth" "p2" None);
                        ("d3", row "token rotation" "alpha" "auth" "p1" (Some "1600000000"))]) ∅ ∅ [] [])
    ∅ ∅ [].

Definition config (fanout : Z) : SearchConfig :=
  MkConfig true 5 true (MkTurns ["session"] []) (MkDecay DecayNone 30 7 f64_one) fanout 5 (f32_of_q (1 # 2)) false
    (f32_of_int 1) f64_zero.

Definition anywhere : RouteDecision := MkRoute None None (f32_of_int 0) "global".
Definition in_alpha : RouteDecision := MkRoute (Some "alpha") None (f32_of_int 1) "explicit filters provided: alpha".
Definition p1 : ProjectSearchScope := from_request (Some "p1") false false false.

Definition nonsense : HttpReranker := fun _ _ => Ok (MkRerankResponse [MkRerankItem 7 (Some f64_one); MkRerankItem 1 None] []).

Definition run (fanout : Z) (route : RouteDecision) (rerank : result HttpReranker string) :=
  search_with_route_options_outcome tables (config fanout) (MkCircuit false 0) (fun s => s) EmbedTimedOut true 10 rerank
    "token" route p1 options_default 10 1700000100.

Definition ids_of (o : option (result SearchOutcome SearchError)) : option (list (string * SearchResultSource) * list string) :=
  match o with
  | Some (Ok o) => Some ((fun r => (sr_drawer_id r, sr_source r)) <$> oc_results o, oc_warnings o)
  | _ => None
  end.

(** The late embedder gives keyword search, the reranker's bad indices its order; the
    expired drawer is gone, and so is the other project's. *)
Example late_embedder :
  ids_of (run 0 anywhere (Ok nonsense))
  = Some ([("d1", FromProject)],
          ["embedding deadline exceeded after 5s; using BM25-only search (retry may help)"]).
Proof. by vm_compute. Qed.

(** With a fanout the other project's drawer of the same room comes back, marked, past
    the scope and past the wing that was asked for; no tunnel was ever created. *)
Example tunnel_past_the_wing :
  fst <$> ids_of (run 4 in_alpha (Err "missing configuration: endpoint"))
  = Some [("d1", FromProject); ("d2", TunnelCrossProject)].
Proof. by vm_compute. Qed.

(** This palace and this [top_k] fit the statement for the metadata. *)
Example fits : fits_statement tables (config 4) 10.
Proof. right. by vm_compute. Qed.

(** A wing with a comma is two wings of a tunnel. *)
Example comma_in_wing :
  find_tunnels (MkDb (list_to_map [("d1", row "x" "a,b" "auth" "p1" None); ("d2", row "y" "c" "auth" "p1" None)]) ∅ ∅ [] [])
  = [("auth", ["a"; "b"; "c"])].
Proof. by vm_compute. Qed.
End SearchStory.

Section witnesses.
#[local] Existing Instance Plain.env.
#[local] Existing Instance Plain.laws.
Import SearchStory.

Lemma search_answers_witness :
  ∃ res, run 4 in_alpha (Ok nonsense) = Some res ∧ ∀ o, res = Ok o →
    answer tables in_alpha p1 (config 4) options_default 10 1700000100 (oc_results o)
    ∧ ∀ r, r ∈ oc_results o →
        (ps_project_id p1 = None → sr_source r ≠ TunnelCrossProject)
        ∧ (sr_source r ≠ TunnelCrossProject →
           ∃ row, db_drawers (tb_db tables) !! sr_drawer_id r = Some row ∧ allows_row p1 (r_project_id row) = true).
Proof. refine (search_answers tables (config 4) in_alpha p1 options_default _ _ _ _ _ _ _ _ _ _). hnf. eauto. Defined.


Lemma keywords_exact_witness :
  ∃ rs, search_bm25_only_with_options tables (config 0) "token" anywhere p1 options_default 10 1700000100 = Ok rs
    ∧ ∀ id, id ∈ sr_drawer_id <$> rs ↔ selected tables (config 0) anywhere p1 options_default 1700000100 "token" id.
Proof.
  refine (keywords_exact tables (config 0) anywhere p1 options_default 1700000100 "token" 10 _ _ _ _); [done|done|done|].
  intros q _. by vm_compute.
Defined.

Definition near (id : string) (b : blob) : result f64 SearchError :=
  cosine_distance_from_blob_with_norm id b [f32_of_int 1] (l2_norm [f32_of_int 1]).

(** One embedding of the right size, one that is cut short. *)
Definition candidates : list ExactCandidate :=
  [MkCandidate "a" (row "x" "w" "r" "p" None) [0; 0; 128]; MkCandidate "b" (row "y" "w" "r" "p" None) [0; 0; 128; 63]].

Lemma nearest_exact_witness :
  rank_exact_candidates (reverse candidates) 1 near = rank_exact_candidates candidates 1 near
  ∧ (ec_id ∘ snd) <$> rank_exact_candidates candidates 1 near = ["b"].
Proof.
  split; [|by vm_compute].
  refine (proj1 (nearest_exact near candidates (reverse candidates) 1 _ _ _)).
  - apply (bool_decide_unpack _). by vm_compute.
  - intros r x [->|[->|Hr%elem_of_nil]%elem_of_cons]%elem_of_cons; [| |done]; vm_compute; intros [= <-]; done.
  - apply reverse_Permutation.
Defined.
End witnesses.
