(* ===== verification/Gating.v ===== *)
(** * The gate of the ingest pipeline

    [src/src/ingest/gating.rs] and [gating_fact_check.rs]: the rules, the nearest
    prototype and the fact check that decide whether a chunk is stored, and the
    routing of doubtful ones to the judge. The embedder is a parameter: what it
    answers for a list of texts. *)

From Stdlib Require Import ZArith QArith Qround Lia String Ascii SpecFloat.
From stdpp Require Import base tactics list gmap strings numbers sets.
From S2P Require Import Prelude Order Text Float Rfc3339 Sqlite Drawer DrawerStore Chars Aaak AaakCodec Utf8 FactCheck.
Close Scope Q_scope.
Open Scope Z_scope.
Open Scope rust_scope.

(** ** Configuration *)
Record GatingRuleConfig := MkRule {
  gr_action : string;
  gr_tool : option string;
  gr_tool_in : option (list string);
  gr_content_bytes_lt : option Z;
  gr_content_bytes_gt : option Z;
  gr_exit_code_eq : option Z;
  gr_content_starts_with : option string;
  gr_content_contains : option string;
}.

Definition rule_default : GatingRuleConfig := MkRule "" None None None None None None None.

Record EmbeddingClassifierConfig := MkClassifierConfig {
  cc_enabled : bool;
  cc_threshold : f32;
  cc_prototypes : list string;
}.

Record AutoFactCheckConfig := MkFactCheckConfig {
  fc_enabled : bool;
  fc_reject_on_contradiction : bool;
  fc_reject_on_stale : bool;
  fc_reject_on_similar_name : bool;
}.

Definition fact_check_default : AutoFactCheckConfig := MkFactCheckConfig false true false false.

Inductive GatingQualityPolicy := Tiered | LlmFirst | LlmRequiredForKeep.

#[global] Instance GatingQualityPolicy_eq_dec : EqDecision GatingQualityPolicy.
Proof. solve_decision. Defined.

Record LlmJudgeConfig := MkJudge {
  lj_enabled : bool;
  lj_allow_fallback_worse_memory : bool;
  lj_quality_policy : GatingQualityPolicy;
  lj_system_prompt : option string;
  lj_threshold : f64;
}.

Record NoveltyConfig := MkNovelty {
  nv_enabled : bool;
  nv_duplicate_threshold : f32;
  nv_merge_threshold : f32;
  nv_wing_scope : string;
  nv_top_k_candidates : Z;
  nv_novelty_scan_limit : Z;
  nv_max_merges_per_drawer : Z;
  nv_max_content_bytes_per_drawer : Z;
}.

Record IngestGatingConfig := MkGating {
  ig_enabled : bool;
  ig_tier1_skip_events : list string;
  ig_rules : list GatingRuleConfig;
  ig_embedding_classifier : EmbeddingClassifierConfig;
  ig_fact_check : AutoFactCheckConfig;
  ig_novelty : NoveltyConfig;
  ig_llm_judge : option LlmJudgeConfig;
}.

Definition default_tier1_skip_events : list string :=
  ["bash_tool"; "Bash"; "edit_tool"; "Edit"; "apply_patch"; "ApplyPatch"].

Definition fail_open_active (gating : IngestGatingConfig) : bool :=
  ig_enabled gating && cc_enabled (ig_embedding_classifier gating)
  && negb (is_nil (cc_prototypes (ig_embedding_classifier gating))).

(** ** Candidates and decisions *)
Record IngestCandidate := MkIngestCandidate {
  ic_content : string;
  ic_event : option string;
  ic_tool_name : option string;
  ic_exit_code : option Z;
}.

Definition content_bytes (c : IngestCandidate) : Z := str_len (ic_content c).

Record GatingDecision := MkDecision {
  gd_decision : string;
  gd_tier : Z;
  gd_gating_reason : option string;
  gd_label : option string;
  gd_score : option f32;
  gd_matched_pattern : option string;
}.

Definition accepted (tier : Z) (label : option string) (score : option f32) : GatingDecision :=
  MkDecision "accepted" tier None label score None.

Definition rejected (tier : Z) (gating_reason matched_pattern : option string) (score : option f32)
    : GatingDecision :=
  MkDecision "rejected" tier gating_reason None score matched_pattern.

Definition is_rejected (d : GatingDecision) : bool := bool_decide (gd_decision d = "rejected").

Definition drop_reason (d : GatingDecision) : option string :=
  if is_rejected d then gd_gating_reason d else None.

(** ** The first tier: rules on the candidate *)
Definition MIN_SIGNAL_BYTES : Z := 12.

Definition is_too_short (c : IngestCandidate) : bool :=
  str_len (Text.trim (ic_content c)) <? MIN_SIGNAL_BYTES.

Definition is_user_prompt_submit (c : IngestCandidate) : bool :=
  match ic_event c with
  | Some event => bool_decide (to_ascii_lowercase event = to_ascii_lowercase "UserPromptSubmit")
  | None => false
  end.

(** [event.into_iter().chain(tool_name)]. *)
Definition event_values (c : IngestCandidate) : list string :=
  (option_list (ic_event c) ++ option_list (ic_tool_name c))%list.

Fixpoint match_tier1_skip_event (c : IngestCandidate) (patterns : list string) : option string :=
  match patterns with
  | [] => None
  | raw_pattern :: patterns =>
      let pattern := Text.trim raw_pattern in
      if is_empty pattern then match_tier1_skip_event c patterns
      else if existsb (fun value => Text.contains (to_ascii_lowercase pattern) (to_ascii_lowercase value)) (event_values c)
      then Some pattern
      else match_tier1_skip_event c patterns
  end.

(** [str::matches(needle).count()]: occurrences that do not overlap. *)
Fixpoint count_matches (fuel : nat) (needle hay : string) : nat :=
  match fuel with
  | O => 0
  | S fuel =>
      match hay with
      | "" => 0
      | String _ rest =>
          if String.prefix needle hay
          then S (count_matches fuel needle (drop_bytes (String.length needle) hay))
          else count_matches fuel needle rest
      end
  end%nat.

Definition is_boilerplate (c : IngestCandidate) : bool :=
  let trimmed := Text.trim (ic_content c) in
  if is_empty trimmed then false
  else
    let lower := to_ascii_lowercase trimmed in
    (2 <=? count_matches (String.length lower) "successfully completed" lower)%nat.

(** The characters beside hexadecimal digits: colon, hyphen, plus, full stop, comma,
    x, X, space, line feed, carriage return, tab. *)
Definition LOW_SIGNAL_PUNCTUATION : list Z := [58; 45; 43; 46; 44; 120; 88; 32; 10; 13; 9].

Definition is_ascii_digit (c : Z) : bool := (48 <=? c) && (c <=? 57).

Definition is_ascii_hexdigit (c : Z) : bool :=
  is_ascii_digit c || ((65 <=? c) && (c <=? 70)) || ((97 <=? c) && (c <=? 102)).

Definition is_low_signal (c : IngestCandidate) : bool :=
  let trimmed := Text.trim (ic_content c) in
  if is_empty trimmed then false
  else
    let chars := decode_str trimmed in
    forallb (fun ch => is_ascii_hexdigit ch || bool_decide (ch ∈ LOW_SIGNAL_PUNCTUATION)) chars
    && existsb is_ascii_digit chars.

Inductive RuleAction := RuleReject | RuleAccept | RuleContinue.

Definition normalize_rule_action (action : string) : RuleAction :=
  if bool_decide (action = "reject") || bool_decide (action = "skip") then RuleReject
  else if bool_decide (action = "accept") || bool_decide (action = "keep") then RuleAccept
  else RuleContinue.

(** One condition of a rule: absent it leaves [matched] as it is, present it must
    hold and names itself. *)
Definition condition {A} (field : option A) (holds : A → bool) (name : string) (matched : option string)
    : option (option string) :=
  match field with
  | None => Some matched
  | Some a => if holds a then Some (Some name) else None
  end.

Definition match_rule (c : IngestCandidate) (rule : GatingRuleConfig) : option string :=
  m ← condition (gr_tool rule) (fun tool => bool_decide (ic_tool_name c = Some tool)) "tool" None;
  m ← condition (gr_tool_in rule)
        (fun tool_in => match ic_tool_name c with
                        | Some tool_name => bool_decide (tool_name ∈ tool_in)
                        | None => false
                        end) "tool_in" m;
  m ← condition (gr_content_bytes_lt rule) (fun n => content_bytes c <? n) "content_bytes_lt" m;
  m ← condition (gr_content_bytes_gt rule) (fun n => n <? content_bytes c) "content_bytes_gt" m;
  m ← condition (gr_exit_code_eq rule) (fun code => bool_decide (ic_exit_code c = Some code)) "exit_code_eq" m;
  m ← condition (gr_content_starts_with rule) (fun prefix => String.prefix prefix (ic_content c))
        "content_starts_with" m;
  m ← condition (gr_content_contains rule) (fun needle => Text.contains needle (ic_content c)) "content_contains" m;
  m.

(** The loop over the rules: [match_rule(candidate, rule)?] leaves the whole
    evaluation at the first rule that does not match. *)
Fixpoint apply_rules (c : IngestCandidate) (rules : list GatingRuleConfig) : option GatingDecision :=
  match rules with
  | [] => None
  | rule :: rules =>
      match match_rule c rule with
      | None => None
      | Some matched_pattern =>
          match normalize_rule_action (gr_action rule) with
          | RuleReject => Some (rejected 1 (Some matched_pattern) (Some matched_pattern) None)
          | RuleAccept => Some (MkDecision "accepted" 1 None (Some "rule_accept") None (Some matched_pattern))
          | RuleContinue => apply_rules c rules
          end
      end
  end.

Definition evaluate_tier1 (c : IngestCandidate) (gating : IngestGatingConfig) : option GatingDecision :=
  if negb (ig_enabled gating) then None
  else if is_user_prompt_submit c then Some (accepted 1 (Some "user_prompt_submit") None)
  else if bool_decide (ic_tool_name c = Some "Read") then Some (rejected 1 (Some "read_tool") (Some "Read") None)
  else
    match match_tier1_skip_event c (ig_tier1_skip_events gating) with
    | Some matched_pattern => Some (rejected 1 (Some "mechanical_tool") (Some matched_pattern) None)
    | None =>
        if is_too_short c then Some (rejected 1 (Some "too_short") None None)
        else if is_boilerplate c then Some (rejected 1 (Some "boilerplate") None None)
        else if is_low_signal c then Some (rejected 1 (Some "low_signal") None None)
        else apply_rules c (ig_rules gating)
    end.

(** ** The second tier: the nearest prototype *)
Definition tier2_enabled (gating : IngestGatingConfig) : bool :=
  ig_enabled gating && cc_enabled (ig_embedding_classifier gating)
  && negb (is_nil (cc_prototypes (ig_embedding_classifier gating))).

Record EmbeddedPrototype := MkPrototype { ep_label : string; ep_vector : list f32 }.

(** [PrototypeClassifier]: its prototypes, in the order of the configuration. *)
Definition PrototypeClassifier : Type := list EmbeddedPrototype.

Definition f32_is_zero (x : f32) : bool := match x with S754_zero _ => true | _ => false end.

Definition f32_is_finite (x : f32) : bool := match x with S754_zero _ | S754_finite _ _ _ => true | _ => false end.

Definition cosine_similarity (left right : list f32) : f32 :=
  if negb (length left =? length right)%nat || (length left =? 0)%nat then S754_zero false
  else
    let sum := foldl f32_add (S754_zero false) in
    let dot := sum ((fun e => f32_mul e.1 e.2) <$> zip left right) in
    let left_norm := sum ((fun x => f32_mul x x) <$> left) in
    let right_norm := sum ((fun x => f32_mul x x) <$> right) in
    if f32_is_zero left_norm || f32_is_zero right_norm then S754_zero false
    else f32_div dot (f32_mul (f32_sqrt left_norm) (f32_sqrt right_norm)).

Fixpoint classify_loop (vector : list f32) (prototypes : list EmbeddedPrototype) (best : option string * f32)
    : option string * f32 :=
  match prototypes with
  | [] => best
  | p :: prototypes =>
      let score := cosine_similarity vector (ep_vector p) in
      classify_loop vector prototypes (if SFltb best.2 score then (Some (ep_label p), score) else best)
  end.

Definition classify (self : PrototypeClassifier) (vector : list f32) : option string * f32 :=
  let '(best_label, best_score) := classify_loop vector self (None, S754_infinity true) in
  if f32_is_finite best_score then (best_label, best_score) else (best_label, S754_zero false).

Definition lower_char (c : Z) : Z := if is_ascii_uppercase c then c + 32 else c.

Fixpoint normalize_label_loop (label : text) (last_was_sep : bool) : text :=
  match label with
  | [] => []
  | ch :: label =>
      if is_ascii_alphanumeric ch
      then lower_char ch :: normalize_label_loop label false
      else if last_was_sep then normalize_label_loop label true
      else 95 :: normalize_label_loop label true
  end.

Definition is_underscore (c : Z) : bool := c =? 95.

Definition normalize_prototype_label (label : string) : string :=
  encode_str (reverse (drop_while is_underscore
    (reverse (drop_while is_underscore (normalize_label_loop (decode_str label) false))))).

Definition NOISE_LIKE : list string := ["noise"; "boilerplate"; "low_signal"; "drop"; "ignore"].

Definition prototype_reject_reason (label : string) : option string :=
  let normalized := normalize_prototype_label label in
  if existsb (fun needle => Text.contains needle normalized) NOISE_LIKE
  then Some ("prototype." +:+ normalized) else None.

Definition decide_prototype (self : PrototypeClassifier) (vector : list f32) (threshold : f32) : GatingDecision :=
  let '(label, score) := classify self vector in
  if SFleb threshold score then
    match label ≫= prototype_reject_reason with
    | Some reason => rejected 2 (Some reason) None (Some score)
    | None => accepted 2 label (Some score)
    end
  else rejected 2 (Some "prototype_below_threshold") None (Some score).

(** ** Loading the prototypes *)
Definition MAX_PROTOTYPE_COUNT : nat := 64.
Definition MAX_PROTOTYPE_LEN_BYTES : Z := 256.

Inductive GatingInitError :=
  | BuildEmbedder (message : string)
  | PrototypeCountLimit (actual limit : nat)
  | PrototypeTooLong (label : string) (actual_bytes limit_bytes : Z)
  | PrototypeEmbed (label message : string)
  | PrototypeDimMismatch (label : string) (expected actual : nat).

Definition label_char (ch : Z) : bool :=
  is_ascii_alphanumeric ch || bool_decide (ch ∈ [95; 45; 46]).

Definition prototype_display_label (index : nat) (raw_label : string) : string :=
  let trimmed := Text.trim raw_label in
  if negb (is_empty trimmed) && (str_len trimmed <=? 48) && forallb label_char (decode_str trimmed)
  then trimmed
  else "prototype#" +:+ show (Z.of_nat index + 1).

Definition prototype_embed_error_label (raw_labels : list string) : string :=
  match raw_labels with
  | [raw_label] => prototype_display_label 0 raw_label
  | first :: _ => prototype_display_label 0 first +:+ ".." +:+ show (Z.of_nat (length raw_labels))
  | [] => "prototype#0"
  end.

(** The length check of each label, from index [index] on. *)
Fixpoint check_lengths (index : nat) (labels : list string) : result unit GatingInitError :=
  match labels with
  | [] => Ok ()
  | raw_label :: labels =>
      if MAX_PROTOTYPE_LEN_BYTES <? str_len raw_label
      then Err (PrototypeTooLong (prototype_display_label index raw_label) (str_len raw_label) MAX_PROTOTYPE_LEN_BYTES)
      else check_lengths (S index) labels
  end.

Definition validate_classifier_config (config : EmbeddingClassifierConfig) : result unit GatingInitError :=
  if negb (cc_enabled config) || is_nil (cc_prototypes config) then Ok ()
  else if (MAX_PROTOTYPE_COUNT <? length (cc_prototypes config))%nat
  then Err (PrototypeCountLimit (length (cc_prototypes config)) MAX_PROTOTYPE_COUNT)
  else check_lengths 0 (cc_prototypes config).

(** What an embedder offers: its answer to a batch, its number of dimensions. *)
Record Embedder := MkEmbedder {
  embed : list string → result (list (list f32)) string;
  dimensions : nat;
}.

Fixpoint load_loop (expected index : nat) (labels : list string) (vectors : list (list f32))
    : result PrototypeClassifier GatingInitError :=
  match labels with
  | [] => Ok []
  | raw_label :: labels =>
      let label := prototype_display_label index raw_label in
      match vectors with
      | [] => Err (PrototypeDimMismatch label expected 0)
      | vector :: vectors =>
          if negb (length vector =? expected)%nat then Err (PrototypeDimMismatch label expected (length vector))
          else let? rest := load_loop expected (S index) labels vectors in
               Ok (MkPrototype raw_label vector :: rest)
      end
  end.

(** [Prototypes::load], which [compile_classifier] calls. *)
Definition load (config : EmbeddingClassifierConfig) (embedder : Embedder)
    : result (option PrototypeClassifier) GatingInitError :=
  if negb (cc_enabled config) || is_nil (cc_prototypes config) then Ok None
  else
    let? _ := validate_classifier_config config in
    match embed embedder (cc_prototypes config) with
    | Err source => Err (PrototypeEmbed (prototype_embed_error_label (cc_prototypes config)) source)
    | Ok vectors =>
        let? prototypes := load_loop (dimensions embedder) 0 (cc_prototypes config) vectors in
        Ok (Some prototypes)
    end.

(** [GatingRuntime]: the configuration, the factory and the cell of the classifier,
    which is filled once. *)
Record GatingRuntime := MkRuntime {
  rt_gating : IngestGatingConfig;
  rt_build : result Embedder string;
  rt_classifier : option (option PrototypeClassifier);
}.

Definition set_classifier (classifier : option PrototypeClassifier) (self : GatingRuntime) : GatingRuntime :=
  match rt_classifier self with
  | Some _ => self
  | None => MkRuntime (rt_gating self) (rt_build self) (Some classifier)
  end.

Definition validate_config_shape (self : GatingRuntime) : result unit GatingInitError :=
  validate_classifier_config (ig_embedding_classifier (rt_gating self)).

Definition build_and_compile (self : GatingRuntime) : result (option PrototypeClassifier) GatingInitError :=
  match rt_build self with
  | Err source => Err (BuildEmbedder source)
  | Ok embedder => load (ig_embedding_classifier (rt_gating self)) embedder
  end.

Definition initialize_from_config (self : GatingRuntime) : GatingRuntime * result unit GatingInitError :=
  match validate_config_shape self with
  | Err e => (self, Err e)
  | Ok _ =>
      if negb (tier2_enabled (rt_gating self)) then (self, Ok ())
      else match build_and_compile self with
           | Err e => (self, Err e)
           | Ok classifier => (set_classifier classifier self, Ok ())
           end
  end.

(** [get_or_try_init]: a failed initialisation leaves the cell empty. *)
Definition classifier (self : GatingRuntime)
    : GatingRuntime * result (option PrototypeClassifier) GatingInitError :=
  match rt_classifier self with
  | Some c => (self, Ok c)
  | None =>
      if negb (tier2_enabled (rt_gating self)) then (set_classifier None self, Ok None)
      else match validate_config_shape self with
           | Err e => (self, Err e)
           | Ok _ =>
               match build_and_compile self with
               | Err e => (self, Err e)
               | Ok c => (set_classifier c self, Ok c)
               end
           end
  end.

(** ** Deciding by the embedding *)
Record Tier2Outcome := MkTier2 { t2_decision : GatingDecision; t2_vector : option (list f32) }.

Definition evaluate_tier2 (c : IngestCandidate) (classifier : PrototypeClassifier) (embedder : Embedder)
    (threshold : f32) : Tier2Outcome :=
  match embed embedder [ic_content c] with
  | Ok (vector :: _) => MkTier2 (decide_prototype classifier vector threshold) (Some vector)
  | Ok [] => MkTier2 (accepted 0 (Some "embedder_error") None) None
  | Err _ => MkTier2 (accepted 0 (Some "embedder_error") None) None
  end.

(** ** The third tier: the fact check *)
Definition fact_issue_rejects (config : AutoFactCheckConfig) (issue : FactIssue) : bool :=
  match issue with
  | RelationContradiction _ _ _ _ _ new_confidence existing_confidence _ =>
      fc_reject_on_contradiction config && Qle_bool new_confidence existing_confidence
  | StaleFact _ _ _ _ _ _ => fc_reject_on_stale config
  | SimilarNameConflict _ _ _ => fc_reject_on_similar_name config
  end.

Definition fact_issue_label (issue : FactIssue) : string :=
  match issue with
  | RelationContradiction _ _ _ _ _ _ _ _ => "fact_check.relation_contradiction"
  | StaleFact _ _ _ _ _ _ => "fact_check.stale_fact"
  | SimilarNameConflict _ _ _ => "fact_check.similar_name"
  end.

Definition fact_check_decision (issues : list FactIssue) (config : AutoFactCheckConfig) : GatingDecision :=
  match List.find (fact_issue_rejects config) issues with
  | Some issue =>
      let label := fact_issue_label issue in
      MkDecision "rejected" 3 (Some label) (Some label) None None
  | None =>
      let label := default "fact_check.clean" (fact_issue_label <$> head issues) in
      MkDecision "accepted" 3 None (Some label) None None
  end.

Record FactCheckGateOutcome := MkFactOutcome { fo_decision : GatingDecision; fo_warnings : list string }.

Definition fact_check_fail_open_outcome (error : string) : FactCheckGateOutcome :=
  MkFactOutcome
    (MkDecision "accepted" 3 (Some "fact_check.error") (Some "fact_check.error") None None)
    ["fact_check.error: " +:+ error].

(** [{:.3}] of a confidence, a number that is not negative: rounded to the nearest
    thousandth, halves to the even one. *)
Definition round_half_even (q : Q) : Z :=
  let n := Qfloor q in
  match (q - inject_Z n ?= 1 # 2)%Q with
  | Lt => n
  | Gt => n + 1
  | Eq => if Z.even n then n else n + 1
  end.

Definition fixed3 (q : Q) : string :=
  let n := round_half_even (Qmult q (inject_Z 1000)) in
  show (n / 1000) +:+ "." +:+ fmt 10 3 (n mod 1000).

Definition format_fact_issue_warning (issue : FactIssue) : string :=
  match issue with
  | SimilarNameConflict mentioned known_entity edit_distance =>
      "fact_check.similar_name: mentioned=" +:+ mentioned +:+ " known_entity=" +:+ known_entity
      +:+ " edit_distance=" +:+ show (Z.of_nat edit_distance)
  | RelationContradiction subject text_claim kg_fact triple_id source_drawer new existing gap =>
      "fact_check.relation_contradiction: subject=" +:+ subject +:+ " text_claim=" +:+ text_claim +:+ " kg_fact="
      +:+ kg_fact +:+ " triple_id=" +:+ triple_id +:+ " source_drawer=" +:+ default "" source_drawer
      +:+ " new_confidence=" +:+ fixed3 new +:+ " existing_confidence=" +:+ fixed3 existing
      +:+ " confidence_gap=" +:+ fixed3 gap
  | StaleFact subject predicate object valid_to triple_id source_drawer =>
      "fact_check.stale_fact: subject=" +:+ subject +:+ " predicate=" +:+ predicate +:+ " object=" +:+ object
      +:+ " valid_to=" +:+ valid_to +:+ " triple_id=" +:+ triple_id +:+ " source_drawer=" +:+ default "" source_drawer
  end.

(** ** Routing to the judge *)

(** The part of [Config] the routing reads. *)
Record JudgeConfig := MkJudgeConfig {
  jc_gating : IngestGatingConfig;
  jc_llm_enabled : bool;
  jc_llm_enabled_for : list string;
}.

Definition llm_judge_active (config : JudgeConfig) : bool :=
  ig_enabled (jc_gating config) && jc_llm_enabled config
  && bool_decide ("gating" ∈ jc_llm_enabled_for config)
  && match ig_llm_judge (jc_gating config) with Some judge => lj_enabled judge | None => false end.

Definition should_route_to_llm_judge (config : JudgeConfig) (gating_decision : option GatingDecision) : bool :=
  if negb (llm_judge_active config) then false
  else
    match ig_llm_judge (jc_gating config), gating_decision with
    | None, _ => false
    | Some judge, Some d =>
        let below := bool_decide (gd_gating_reason d = Some "prototype_below_threshold") in
        if bool_decide (gd_label d = Some "llm_pending") then true
        else if (gd_tier d <=? 1) && bool_decide (is_Some (gd_label d)) then false
        else if is_rejected d && negb below then false
        else if bool_decide (lj_quality_policy judge = Tiered) && negb below then false
        else true
    | Some _, None => false
    end.

(** ** What the first tier decides *)

(** The conditions of a rule that are present, in the order of the code, each with
    its name and whether the candidate meets it. *)
Definition rule_conditions (c : IngestCandidate) (rule : GatingRuleConfig) : list (string * bool) :=
  omap id
    [(fun tool => ("tool", bool_decide (ic_tool_name c = Some tool))) <$> gr_tool rule;
     (fun tools => ("tool_in", match ic_tool_name c with
                               | Some tool_name => bool_decide (tool_name ∈ tools)
                               | None => false
                               end)) <$> gr_tool_in rule;
     (fun n => ("content_bytes_lt", content_bytes c <? n)) <$> gr_content_bytes_lt rule;
     (fun n => ("content_bytes_gt", n <? content_bytes c)) <$> gr_content_bytes_gt rule;
     (fun code => ("exit_code_eq", bool_decide (ic_exit_code c = Some code))) <$> gr_exit_code_eq rule;
     (fun prefix => ("content_starts_with", String.prefix prefix (ic_content c))) <$> gr_content_starts_with rule;
     (fun needle => ("content_contains", Text.contains needle (ic_content c))) <$> gr_content_contains rule].

Definition rule_holds (c : IngestCandidate) (rule : GatingRuleConfig) : bool :=
  forallb snd (rule_conditions c rule).

(** The name a rule that holds reports: that of its last condition. *)
Definition rule_name (c : IngestCandidate) (rule : GatingRuleConfig) : option string :=
  fst <$> last (rule_conditions c rule).

(** The chain of conditions, as a loop over those that are present. *)
Fixpoint run_conditions (conditions : list (string * bool)) (matched : option string) : option string :=
  match conditions with
  | [] => matched
  | (name, true) :: conditions => run_conditions conditions (Some name)
  | (_, false) :: _ => None
  end.

Lemma condition_run {A} (field : option A) holds name matched rest (k : option string → option string) :
  (∀ m, k m = run_conditions rest m) →
  (condition field holds name matched ≫= k)
  = run_conditions (omap id [(fun a => (name, holds a)) <$> field] ++ rest) matched.
Proof. intros Hk. destruct field as [a|]; cbn; [destruct (holds a)|]; cbn; by rewrite ?Hk. Qed.

Lemma run_conditions_spec conditions matched :
  run_conditions conditions matched
  = if forallb snd conditions then from_option (fun x => Some x.1) matched (last conditions) else None.
Proof.
  revert matched. induction conditions as [|[name []] conditions IH]; intros matched; cbn [run_conditions forallb snd andb].
  - done.
  - rewrite IH. destruct (forallb snd conditions); [|done]. destruct conditions as [|y l]; [done|].
    rewrite last_cons_cons. destruct (last (y :: l)) eqn:E; [done|].
    by apply last_None in E.
  - done.
Qed.

Lemma omap_id_cons {A} (o : option A) (l : list (option A)) : omap id (o :: l) = (omap id [o] ++ omap id l)%list.
Proof. by destruct o. Qed.

(** A rule without conditions matches nothing; one with conditions matches when all
    of them hold. *)
Lemma match_rule_spec c rule :
  match_rule c rule = if rule_holds c rule then rule_name c rule else None.
Proof.
  transitivity (run_conditions (rule_conditions c rule) None).
  - unfold match_rule, rule_conditions.
    do 6 (rewrite omap_id_cons; apply condition_run; intros ?).
    rewrite <- (app_nil_r (omap id _)). by apply condition_run.
  - rewrite run_conditions_spec. unfold rule_holds, rule_name. by destruct (last _).
Qed.

(** The rules decide exactly when some rule matches with an action that ends the
    loop and every rule before it matches with one that does not: a rule behind one
    that does not match is never tried. *)
Definition rule_decision (action : RuleAction) (name : string) : option GatingDecision :=
  match action with
  | RuleReject => Some (rejected 1 (Some name) (Some name) None)
  | RuleAccept => Some (MkDecision "accepted" 1 None (Some "rule_accept") None (Some name))
  | RuleContinue => None
  end.

Definition passes (c : IngestCandidate) (rule : GatingRuleConfig) : Prop :=
  is_Some (match_rule c rule) ∧ normalize_rule_action (gr_action rule) = RuleContinue.

Lemma apply_rules_spec c rules d :
  apply_rules c rules = Some d
  ↔ ∃ before rule after name,
      rules = (before ++ rule :: after)%list ∧ Forall (passes c) before ∧ match_rule c rule = Some name
      ∧ rule_decision (normalize_rule_action (gr_action rule)) name = Some d.
Proof.
  split.
  - induction rules as [|rule rules IH]; cbn; [done|]. intros Hd.
    destruct (match_rule c rule) as [name|] eqn:Em; [|done].
    destruct (normalize_rule_action (gr_action rule)) eqn:Ea.
    1, 2: exists [], rule, rules, name; rewrite Ea; auto.
    destruct (IH Hd) as (before & r & after & n & -> & Hb & Hr & Hn).
    exists (rule :: before), r, after, n. repeat split; auto. constructor; [|done]. by split.
  - intros (before & rule & after & name & -> & Hb & Hr & Hn). induction Hb as [|r l [[n En] Ea] Hb IH]; cbn.
    + rewrite Hr. destruct (normalize_rule_action (gr_action rule)); by simplify_eq/=.
    + by rewrite En, Ea.
Qed.

(** ** The nearest prototype *)
Definition score_of (vector : list f32) (p : EmbeddedPrototype) : f32 := cosine_similarity vector (ep_vector p).

Lemma float_ltb_numbers x y : is_number x → is_number y → SFltb x y = bool_decide (float_cmp x y = Lt).
Proof.
  intros Hx Hy. rewrite <- (partial_cmp_number x y Hx Hy). unfold SFltb, partial_cmp.
  by destruct (SFcompare x y) as [[]|].
Qed.

Lemma finite_number x : f32_is_finite x = true → is_number x.
Proof. by destruct x. Qed.

Lemma below_finite x : f32_is_finite x = true → SFltb (S754_infinity true) x = true.
Proof. by destruct x as [| | |[]]. Qed.

Lemma float_not_above x y z : float_cmp x y ≠ Lt → float_cmp x z = Lt → float_cmp y z = Lt.
Proof.
  intros Hxy Hxz. destruct (float_cmp x y) eqn:E; [|done|].
  - by rewrite <- (cmp_eq_l _ _ z E).
  - apply (cmp_lt_trans _ x _); [|done]. by rewrite (cmp_antisym x y), E.
Qed.

(** One pass from a best so far that is the score of [p]. *)
Lemma classify_loop_best vector ps p :
  f32_is_finite (score_of vector p) = true →
  Forall (fun q => f32_is_finite (score_of vector q) = true) ps →
  ∃ before r after, p :: ps = (before ++ r :: after)%list
    ∧ classify_loop vector ps (Some (ep_label p), score_of vector p) = (Some (ep_label r), score_of vector r)
    ∧ f32_is_finite (score_of vector r) = true
    ∧ Forall (fun q => float_cmp (score_of vector q) (score_of vector r) = Lt) before
    ∧ Forall (fun q => float_cmp (score_of vector r) (score_of vector q) ≠ Lt) after.
Proof.
  intros Hp Hps. revert p Hp. induction Hps as [|q ps Hq Hps IH]; intros p Hp.
  - exists [], p, []. by repeat split.
  - cbn [classify_loop]. change (cosine_similarity vector (ep_vector q)) with (score_of vector q). cbn [snd].
    rewrite float_ltb_numbers by (by apply finite_number). case_bool_decide as Hlt.
    + destruct (IH q Hq) as (b & r & a & E & Hl & Hf & Hb & Ha). exists (p :: b), r, a.
      split_and!; [by rewrite E|done..| |done]. constructor; [|done].
      destruct b as [|b1 b]; simplify_eq/=; [done|].
      inversion Hb as [|? ? Hq' _]; subst. by eapply cmp_lt_trans.
    + destruct (IH p Hp) as (b & r & a & E & Hl & Hf & Hb & Ha). destruct b as [|b1 b]; simplify_eq/=.
      * exists [], r, (q :: a). split_and!; [done..|]. by constructor.
      * exists (b1 :: q :: b), r, a. split_and!; [done..| |done].
        inversion Hb as [|? ? H1 H2]; subst. repeat constructor; [done| |done].
        by eapply float_not_above.
Qed.

(** The prototype found is the first of those with the greatest score. *)
Lemma classify_nearest self vector :
  self ≠ [] → Forall (fun q => f32_is_finite (score_of vector q) = true) self →
  ∃ before p after, self = (before ++ p :: after)%list
    ∧ classify self vector = (Some (ep_label p), score_of vector p)
    ∧ Forall (fun q => float_cmp (score_of vector q) (score_of vector p) = Lt) before
    ∧ Forall (fun q => float_cmp (score_of vector p) (score_of vector q) ≠ Lt) after.
Proof.
  intros Hn Hf. destruct Hf as [|p ps Hp Hps]; [done|].
  destruct (classify_loop_best vector ps p Hp Hps) as (b & r & a & E & Hl & Hr & Hb & Ha).
  exists b, r, a. split_and!; [done| |done..]. unfold classify. cbn [classify_loop].
  change (cosine_similarity vector (ep_vector p)) with (score_of vector p).
  cbn [snd]. rewrite (below_finite _ Hp), Hl. by rewrite Hr.
Qed.

(** ** Fail-open: who can reject *)

(** The second tier rejects only what it has measured: the embedder answered with
    a vector, and the nearest prototype is a noise label or below the threshold. *)
Lemma tier2_rejects c cls embedder threshold :
  is_rejected (t2_decision (evaluate_tier2 c cls embedder threshold)) = true →
  ∃ vector rest, embed embedder [ic_content c] = Ok (vector :: rest)
    ∧ t2_decision (evaluate_tier2 c cls embedder threshold) = decide_prototype cls vector threshold
    ∧ (SFleb threshold (classify cls vector).2 = false
       ∨ ∃ label reason, (classify cls vector).1 = Some label ∧ prototype_reject_reason label = Some reason).
Proof.
  unfold evaluate_tier2. destruct (embed embedder [ic_content c]) as [[|vector rest]|e]; cbn; try done.
  intros Hr. exists vector, rest. split_and!; [done..|]. revert Hr. unfold decide_prototype.
  destruct (classify cls vector) as [label score]. cbn. destruct (SFleb threshold score); [|by left].
  destruct label as [label|]; cbn; [|done]. destruct (prototype_reject_reason label) eqn:Er; cbn; [|done].
  intros _. right. eauto.
Qed.

(** The fact check rejects exactly when some issue is one the configuration rejects. *)
Lemma fact_check_rejects issues config :
  is_rejected (fact_check_decision issues config) = existsb (fact_issue_rejects config) issues.
Proof.
  unfold fact_check_decision. destruct (List.find _ issues) as [issue|] eqn:E; cbn.
  - apply find_some in E as [Hin Hr]. symmetry. apply existsb_exists. eauto.
  - symmetry. apply not_true_is_false. rewrite existsb_exists. intros (x & Hin & Hx).
    by rewrite (find_none _ _ E x Hin) in Hx.
Qed.

(** With the default configuration only a contradiction by facts held at least as
    firmly rejects. *)
Lemma fact_check_default_rejects issues :
  is_rejected (fact_check_decision issues fact_check_default) = true →
  ∃ s t k i d new existing gap,
    RelationContradiction s t k i d new existing gap ∈ issues ∧ Qle new existing.
Proof.
  rewrite fact_check_rejects, existsb_exists. intros (x & Hin & Hx).
  destruct x as [| s t k i d new existing gap |]; try done.
  exists s, t, k, i, d, new, existing, gap. split; [by apply list_elem_of_In|]. cbn in Hx. by apply Qle_bool_iff in Hx.
Qed.

(** ** The classifier is compiled whole *)
Lemma load_loop_ok expected index labels vectors ps :
  load_loop expected index labels vectors = Ok ps →
  ep_label <$> ps = labels ∧ Forall (fun p => length (ep_vector p) = expected) ps.
Proof.
  revert index vectors ps. induction labels as [|raw labels IH]; intros index [|v vectors] ps H; simplify_eq/=;
    try (by split; [|constructor]).
  destruct (negb _) eqn:E; [done|]. destruct (load_loop _ _ _ _) as [rest|] eqn:El; simplify_eq/=.
  destruct (IH _ _ _ El) as [<- Hf]. split; [done|]. constructor; [|done]. cbn.
  apply negb_false_iff, Nat.eqb_eq in E. done.
Qed.

Lemma load_ok config embedder ps :
  load config embedder = Ok (Some ps) →
  ep_label <$> ps = cc_prototypes config ∧ ps ≠ [] ∧ (length ps <= MAX_PROTOTYPE_COUNT)%nat
  ∧ Forall (fun p => length (ep_vector p) = dimensions embedder) ps.
Proof.
  unfold load. destruct (negb _ || _) eqn:Eg; [done|]. unfold validate_classifier_config. rewrite Eg.
  destruct (_ <? _)%nat eqn:Ec; [done|]. destruct (check_lengths _ _); [|done]. cbn.
  destruct (embed _ _) as [vectors|]; [|done]. destruct (load_loop _ _ _ _) as [ps'|] eqn:El; [|done].
  intros [= <-]. apply load_loop_ok in El as [Hl Hd]. apply Nat.ltb_ge in Ec.
  assert (Hlen : length ps' = length (cc_prototypes config)) by (rewrite <- Hl; by rewrite length_fmap).
  split_and!; [done| |lia|done]. intros ->. apply orb_false_iff in Eg as [_ Eg]. by destruct (cc_prototypes config).
Qed.

(** The cell is filled once: whatever runs later sees the first classifier. *)
Lemma classifier_stable self c :
  rt_classifier self = Some c →
  classifier self = (self, Ok c) ∧ rt_classifier (initialize_from_config self).1 = Some c.
Proof.
  intros Hc. unfold classifier, initialize_from_config, set_classifier. rewrite Hc. split; [done|].
  destruct (validate_config_shape self); [|done]. destruct (negb _); [done|]. destruct (build_and_compile self); [|done].
  done.
Qed.

(** ** What the first tier rejects *)

(** The causes of a rejection, in the words of the configuration. *)
Definition rule_rejects (c : IngestCandidate) (rules : list GatingRuleConfig) : Prop :=
  ∃ before rule after, rules = (before ++ rule :: after)%list ∧ Forall (passes c) before
    ∧ rule_holds c rule = true ∧ is_Some (rule_name c rule) ∧ normalize_rule_action (gr_action rule) = RuleReject.

Definition tier1_cause (c : IngestCandidate) (gating : IngestGatingConfig) : Prop :=
  ic_tool_name c = Some "Read" ∨ is_Some (match_tier1_skip_event c (ig_tier1_skip_events gating))
  ∨ is_too_short c = true ∨ is_boilerplate c = true ∨ is_low_signal c = true ∨ rule_rejects c (ig_rules gating).

Definition tier1_rejects (c : IngestCandidate) (gating : IngestGatingConfig) : bool :=
  match evaluate_tier1 c gating with Some d => is_rejected d | None => false end.

Lemma match_rule_some c rule : is_Some (match_rule c rule) ↔ rule_holds c rule = true ∧ is_Some (rule_name c rule).
Proof. rewrite match_rule_spec. destruct (rule_holds c rule); [naive_solver|]. split; [by intros [? ?]|by intros [? _]]. Qed.

Lemma apply_rules_rejects c rules :
  match apply_rules c rules with Some d => is_rejected d | None => false end = true ↔ rule_rejects c rules.
Proof.
  split.
  - destruct (apply_rules c rules) as [d|] eqn:E; [|done]. intros Hd.
    apply apply_rules_spec in E as (before & rule & after & name & -> & Hb & Hm & Hn).
    exists before, rule, after. destruct (proj1 (match_rule_some c rule) (ex_intro _ _ Hm)) as [Hh Hs].
    split_and!; [done..|]. by destruct (normalize_rule_action (gr_action rule)); simplify_eq/=.
  - intros (before & rule & after & -> & Hb & Hh & Hs & Ha).
    destruct (proj2 (match_rule_some c rule) (conj Hh Hs)) as [name Hm].
    rewrite (proj2 (apply_rules_spec c _ (rejected 1 (Some name) (Some name) None))); [done|].
    exists before, rule, after, name. by rewrite Ha.
Qed.

(** C19: the first tier of the gate rejects a candidate exactly for a cause of the
    configuration: the gate is on, the candidate is no prompt of the user, and it comes
    from the [Read] tool or a skipped event, is too short, boilerplate or without
    signal, or some rule that rejects holds for it and every rule in front of that one
    holds too and lets it go on (where the specification,
    p9-judge-gating-local.spec.md:40, has the first rule that matches decide: the code
    stops at the first that does not). The second tier rejects only when the embedder
    answered; and for a non-empty list of prototypes, which a loaded classifier has,
    whose scores are finite, the first of the nearest prototypes then names noise or
    lies below the threshold. An embedder that fails rejects nothing. *)
Theorem gate_rejects_for_cause (c : IngestCandidate) (gating : IngestGatingConfig) :
  (tier1_rejects c gating = true
   ↔ ig_enabled gating = true ∧ is_user_prompt_submit c = false ∧ tier1_cause c gating) ∧
  (∀ prototypes embedder threshold,
     is_rejected (t2_decision (evaluate_tier2 c prototypes embedder threshold)) = true →
     ∃ vector rest, embed embedder [ic_content c] = Ok (vector :: rest) ∧
       (Forall (fun p => f32_is_finite (score_of vector p) = true) prototypes → prototypes ≠ [] →
        ∃ before p after, prototypes = (before ++ p :: after)%list
          ∧ Forall (fun q => float_cmp (score_of vector q) (score_of vector p) = Lt) before
          ∧ Forall (fun q => float_cmp (score_of vector p) (score_of vector q) ≠ Lt) after
          ∧ (SFleb threshold (score_of vector p) = false ∨ is_Some (prototype_reject_reason (ep_label p))))).
Proof.
  split.
  - unfold tier1_rejects, evaluate_tier1, tier1_cause. destruct (ig_enabled gating); [|naive_solver].
    destruct (is_user_prompt_submit c); [naive_solver|]. cbn [negb].
    case_bool_decide as Hr; [cbn; naive_solver|].
    destruct (match_tier1_skip_event _ _) as [e|]; [cbn; naive_solver|].
    destruct (is_too_short c); [cbn; naive_solver|]. destruct (is_boilerplate c); [cbn; naive_solver|].
    destruct (is_low_signal c); [cbn; naive_solver|]. rewrite apply_rules_rejects.
    split; [naive_solver|]. intros (_ & _ & [? | [[? ?] | [? | [? | [? | ?]]]]]); done.
  - intros prototypes embedder threshold Hr. destruct (tier2_rejects _ _ _ _ Hr) as (vector & rest & He & _ & Hw).
    exists vector, rest. split; [done|]. intros Hf Hn.
    destruct (classify_nearest prototypes vector Hn Hf) as (before & p & after & -> & Hc & Hb & Ha).
    exists before, p, after. split_and!; [done..|]. rewrite Hc in Hw. cbn in Hw.
    destruct Hw as [? | (label & reason & [= <-] & Hl)]; [by left|right; by exists reason].
Qed.

(** ** Rules that are never tried *)
Definition long_note : IngestCandidate :=
  MkIngestCandidate "Decision: the importer keeps raw transcripts out of the vector index because they double its size."
    None (Some "Write") None.

Definition rule_for (action tool : string) : GatingRuleConfig := MkRule action (Some tool) None None None None None None.

(** A rule that rejects the tool is passed over when a rule for another tool stands in
    front of it, though it rejects on its own. *)
Example late_rule_never_tried :
  (is_rejected <$> apply_rules long_note [rule_for "reject" "Write"]) = Some true ∧
  apply_rules long_note [rule_for "reject" "Glob"; rule_for "reject" "Write"] = None.
Proof. vm_compute. done. Qed.

(** A rule rejects in the first tier, a prototype in the second. *)
Definition write_rules : IngestGatingConfig :=
  MkGating true default_tier1_skip_events [rule_for "continue" "Write"; rule_for "reject" "Write"]
    (MkClassifierConfig false f64_zero []) fact_check_default (MkNovelty false f64_zero f64_zero "same_wing" 5 10 10 10) None.

Definition chatter : PrototypeClassifier :=
  [MkPrototype "decision" [f32_of_int 0; f32_of_int 1]; MkPrototype "noise" [f32_of_int 1; f32_of_int 0]].
Definition east : Embedder := MkEmbedder (fun _ => Ok [[f32_of_int 3; f32_of_int 1]]) 2.

Lemma gate_rejects_for_cause_witness :
  tier1_rejects long_note write_rules = true
  ∧ tier1_cause long_note write_rules
  ∧ ∃ vector rest, embed east [ic_content long_note] = Ok (vector :: rest) ∧
      ∃ before p after, chatter = (before ++ p :: after)%list
        ∧ (SFleb (f32_of_q (1 # 2)) (score_of vector p) = false ∨ is_Some (prototype_reject_reason (ep_label p))).
Proof.
  destruct (gate_rejects_for_cause long_note write_rules) as [H1 H2].
  assert (Hr : tier1_rejects long_note write_rules = true) by (vm_compute; reflexivity).
  split; [exact Hr|]. split; [exact (proj2 (proj2 (proj1 H1 Hr)))|].
  destruct (H2 chatter east (f32_of_q (1 # 2))) as (vector & rest & He & Hnear); [vm_compute; reflexivity|].
  exists vector, rest. split; [exact He|]. injection He as <- <-.
  destruct Hnear as (before & p & after & Hs & _ & _ & Hc).
  - repeat constructor; vm_compute; reflexivity.
  - discriminate.
  - exists before, p, after. split; [exact Hs|exact Hc].
Defined.
