(* ===== verification/WriteReserve.v ===== *)
(** * The write reserve

    [src/src/core/db_write_reserve.rs]: a file of 300 MiB beside the database that is
    given up when the disk is full, so that one write can still be finished. A write
    runs under a file lock, at most twice: the second time only after the first one
    failed for want of space and the reserve is gone from the directory for good. *)

From Stdlib Require Import ZArith Lia String Ascii.
From stdpp Require Import base tactics list gmap strings numbers.
From S2P Require Import Prelude Text Sqlite WriterLease QueueTypes SqliteRetry.
Open Scope Z_scope.
Open Scope rust_scope.

Definition WRITE_RESERVE_BYTES : Z := 300 * 1024 * 1024.
Definition RUNTIME_WRITER_LEASE_TRANSACTION_RETRY_DEADLINE : Z := 5000 * MILLIS.

(** The names beside a database whose file name is [name], or is not UTF-8. *)
Definition write_reserve_name (name : option string) : string :=
  "." +:+ default "palace.db" name +:+ ".write-reserve".

Definition write_reserve_lock_name (name : option string) : string :=
  "." +:+ default "palace.db" name +:+ ".write-reserve.lock".

(** ** The lock *)

(** What [flock] says. *)
Inductive flock_answer := Locked | Interrupted | WouldBlock | FlockFailed (message : string).

Inductive reserve_lock_error := LockOpenFailed (message : string) | LockFailed (message : string) | LockTimedOut.

Section lock.
Context {W : Type} `{Clock W} (flock : W → W * flock_answer).

Fixpoint acquire_loop (fuel : nat) (deadline : Z) (w : W) : option (W * result unit reserve_lock_error) :=
  match fuel with
  | O => None
  | S fuel =>
      match flock w with
      | (w, Locked) => Some (w, Ok tt)
      | (w, Interrupted) => acquire_loop fuel deadline w
      | (w, FlockFailed message) => Some (w, Err (LockFailed message))
      | (w, WouldBlock) =>
          let '(w, now) := instant_now w in
          let remaining := Z.max 0 (deadline - now) in
          if remaining =? 0 then Some (w, Err LockTimedOut)
          else acquire_loop fuel deadline (sleep (Z.min (from_millis 25) remaining) w)
      end
  end.

Definition acquire (fuel : nat) (opened : result unit string) (w : W) : option (W * result unit reserve_lock_error) :=
  match opened with
  | Err message => Some (w, Err (LockOpenFailed message))
  | Ok _ =>
      let '(w, now) := instant_now w in
      acquire_loop fuel (now + RUNTIME_WRITER_LEASE_TRANSACTION_RETRY_DEADLINE) w
  end.
End lock.

(** ** The reserve file

    [None] when there is no file, else its length. *)
Definition reserve : Type := option Z.

(** [ensure_write_reserve]: what opening, allocating and the two syncs return. *)
Definition ensure_write_reserve (opened allocated file_synced parent_synced : result unit string) (r : reserve)
    : reserve * result unit string :=
  match opened with
  | Err e => (r, Err e)
  | Ok _ =>
      let current_len := default 0 r in
      if current_len <? WRITE_RESERVE_BYTES then
        match allocated with
        | Err e => (Some current_len, Err e)
        | Ok _ =>
            (Some WRITE_RESERVE_BYTES,
             match file_synced with Err e => Err e | Ok _ => parent_synced end)
        end
      else (Some current_len, Ok tt)
  end.

(** [consume_write_reserve]: what removing and syncing the directory return. *)
Definition consume_write_reserve (removed parent_synced : result unit string) (r : reserve) : reserve * bool :=
  match r, removed with
  | None, _ | _, Err _ => (r, false)
  | Some _, Ok _ => (None, is_ok parent_synced)
  end.

(** An error and its sources, outermost first: whether it is SQLite's full disk, and
    its text. *)
Definition error_chain : Type := list (bool * string).

Definition write_error_is_sqlite_full (chain : error_chain) : bool :=
  existsb (fun link =>
             let text := to_ascii_lowercase link.2 in
             link.1 || contains "database or disk is full" text || contains "disk full" text
             || contains "enospc" text) chain.

(** ** A write under the reserve

    [write n] is attempt [n] on the state [D]: the same closure, with the answers the
    system gives it that time. *)
Section retry.
Context {D T E : Type} (chain : E → error_chain) (from_lock : reserve_lock_error → E).
Context (removed parent_synced : result unit string).

Fixpoint reserve_loop (fuel : nat) (write : nat → D → D * result T E) (attempt : nat) (reserve_consumed : bool)
    (st : reserve * D) : option ((reserve * D) * result T E) :=
  match fuel with
  | O => None
  | S fuel =>
      match write attempt st.2 with
      | (d, Ok value) => Some ((st.1, d), Ok value)
      | (d, Err error) =>
          if negb reserve_consumed && write_error_is_sqlite_full (chain error) then
            let '(r, consumed) := consume_write_reserve removed parent_synced st.1 in
            if consumed then reserve_loop fuel write (S attempt) true (r, d) else Some ((r, d), Err error)
          else Some ((st.1, d), Err error)
      end
  end.

Definition with_write_reserve_retry (acquired : result unit reserve_lock_error)
    (write : nat → D → D * result T E) (st : reserve * D) : option ((reserve * D) * result T E) :=
  match acquired with
  | Err e => Some (st, Err (from_lock e))
  | Ok _ => reserve_loop 2 write 0 false st
  end.

(** [Database::with_write_reserve_retry]: each attempt is a transaction of its own;
    inside an open one the closure just runs. [begun n] and [committed n] are what
    BEGIN IMMEDIATE and COMMIT return the [n]-th time. *)
Context (from_db : DbError → E).

Definition transaction_attempt (begun committed : nat → result unit DbError) (write : nat → D → D * result T E)
    (n : nat) (d : D) : D * result T E :=
  match begun n with
  | Err e => (d, Err (from_db e))
  | Ok _ =>
      match write n d with
      | (d', Ok value) =>
          match committed n with
          | Ok _ => (d', Ok value)
          | Err e => (d, Err (from_db e))
          end
      | (_, Err error) => (d, Err error)
      end
  end.

Definition db_with_write_reserve_retry (autocommit : bool) (acquired : result unit reserve_lock_error)
    (begun committed : nat → result unit DbError) (write : nat → D → D * result T E) (st : reserve * D)
    : option ((reserve * D) * result T E) :=
  if negb autocommit then let '(d, r) := write 0%nat st.2 in Some ((st.1, d), r)
  else with_write_reserve_retry acquired (transaction_attempt begun committed write) st.

(** ** At most twice, at most once committed *)
Lemma transaction_attempt_error begun committed write n d e :
  (transaction_attempt begun committed write n d).2 = Err e →
  (transaction_attempt begun committed write n d).1 = d.
Proof.
  unfold transaction_attempt. destruct (begun n); [|done].
  destruct (write n d) as [d' [v|e']]; [|done]. by destruct (committed n).
Qed.

Lemma transaction_attempt_ok begun committed write n d d' v :
  transaction_attempt begun committed write n d = (d', Ok v) → write n d = (d', Ok v).
Proof.
  unfold transaction_attempt. destruct (begun n); [|done].
  destruct (write n d) as [d1 [v1|e']]; [|done]. destruct (committed n); naive_solver.
Qed.

(** The loop has returned after two rounds. *)
Lemma reserve_loop_total write st : is_Some (reserve_loop 2 write 0 false st).
Proof.
  cbn. destruct (write 0%nat st.2) as [d1 [v|e]]; [by eexists|].
  destruct (write_error_is_sqlite_full (chain e)); cbn; [|by eexists].
  destruct (consume_write_reserve removed parent_synced st.1) as [r [|]]; [|by eexists]. cbn.
  destruct (write 1%nat d1) as [d2 [v2|e2]]; by eexists.
Qed.
End retry.

(** What a finished write has done, in terms of its transaction attempts. *)
Section outcome.
Context {D T E : Type} (chain : E → error_chain) (from_lock : reserve_lock_error → E) (from_db : DbError → E).
Context (removed parent_synced : result unit string) (begun committed : nat → result unit DbError).
Context (write : nat → D → D * result T E).

(** What the two attempts of a write under the reserve can come to. *)
Lemma reserve_retry_cases acquired st :
  ∃ st' r, db_with_write_reserve_retry chain from_lock removed parent_synced from_db true acquired begun committed
             write st = Some (st', r)
  ∧ match r with
    | Err _ => st'.2 = st.2
    | Ok v =>
        (write 0%nat st.2 = (st'.2, Ok v) ∧ st'.1 = st.1)
        ∨ (write 1%nat st.2 = (st'.2, Ok v) ∧ is_Some st.1 ∧ st'.1 = None ∧ is_ok removed = true
           ∧ is_ok parent_synced = true
           ∧ ∃ e, (transaction_attempt from_db begun committed write 0 st.2).2 = Err e
                  ∧ write_error_is_sqlite_full (chain e) = true)
    end.
Proof.
  unfold db_with_write_reserve_retry, with_write_reserve_retry. cbn [negb].
  destruct acquired as [[]|e]; [|by do 2 eexists]. cbn.
  destruct (transaction_attempt from_db begun committed write 0 st.2) as [d1 [v|e]] eqn:E1.
  { do 2 eexists. split; [done|]. left. split; [|done]. by apply transaction_attempt_ok in E1. }
  assert (d1 = st.2) as ->.
  { pose proof (transaction_attempt_error from_db begun committed write 0 st.2 e) as H. rewrite E1 in H. by apply H. }
  destruct (write_error_is_sqlite_full (chain e)) eqn:Ef; cbn; [|by do 2 eexists].
  destruct (consume_write_reserve removed parent_synced st.1) as [r []] eqn:Ec; [|by do 2 eexists]. cbn.
  destruct (transaction_attempt from_db begun committed write 1 st.2) as [d2 [v2|e2]] eqn:E2.
  - do 2 eexists. split; [done|]. right. apply transaction_attempt_ok in E2. cbn. split; [done|].
    unfold consume_write_reserve in Ec. destruct st as [[len|] d]; [|done]. cbn in *.
    destruct removed as [[]|]; simplify_eq/=. split_and!; eauto.
  - do 2 eexists. split; [done|]. cbn.
    pose proof (transaction_attempt_error from_db begun committed write 1 st.2 e2) as H. rewrite E2 in H. by apply H.
Qed.
End outcome.

(** ** The wait for the lock is bounded *)
Section bounded.
Context {W : Type} `{ClockLaws W} (flock : W → W * flock_answer).
Context (flock_forward : forward flock) (not_interrupted : ∀ w, (flock w).2 ≠ Interrupted).

Lemma acquire_loop_returns n deadline w :
  deadline - time w <= Z.of_nat n * from_millis 25 → is_Some (acquire_loop flock (S n) deadline w).
Proof.
  revert w. induction n as [|n IH]; intros w Hn; cbn [acquire_loop];
    pose proof (flock_forward w) as Hf; pose proof (not_interrupted w) as Hi;
    destruct (flock w) as [w1 []]; cbn in *; try done; try by eexists.
  all: pose proof (instant_now_between w1) as Hc; destruct (instant_now w1) as [w2 now]; cbn in *.
  all: destruct (Z.max 0 (deadline - now) =? 0) eqn:E; [by eexists|]; apply Z.eqb_neq in E.
  - lia.
  - change (is_Some (acquire_loop flock (S n) deadline (sleep (Z.min (from_millis 25) (Z.max 0 (deadline - now))) w2))).
    apply IH.
    pose proof (sleep_long_enough (Z.min (from_millis 25) (Z.max 0 (deadline - now))) w2). unfold from_millis, MILLIS in *. lia.
Qed.

Lemma acquire_returns opened w : is_Some (acquire flock 201 opened w).
Proof.
  destruct opened as [[]|e]; [|by eexists]. unfold acquire.
  pose proof (instant_now_between w) as Hc. destruct (instant_now w) as [w1 now]. cbn in Hc.
  apply (acquire_loop_returns 200). unfold RUNTIME_WRITER_LEASE_TRANSACTION_RETRY_DEADLINE, from_millis, MILLIS. lia.
Qed.
End bounded.

(** ** The reserve is whole or it says so *)
Lemma ensure_write_reserve_whole opened allocated file_synced parent_synced r r' :
  ensure_write_reserve opened allocated file_synced parent_synced r = (r', Ok tt) →
  ∃ len, r' = Some len ∧ WRITE_RESERVE_BYTES <= len.
Proof.
  unfold ensure_write_reserve. destruct opened; [|done]. destruct (default 0 r <? WRITE_RESERVE_BYTES) eqn:E.
  - destruct allocated; [|done]. intros [= <- _]. exists WRITE_RESERVE_BYTES. split; [reflexivity|apply Z.le_refl].
  - intros [= <-]. exists (default 0 r). apply Z.ltb_ge in E. by split.
Qed.

Section claim.
Context {W : Type} `{ClockLaws W} (flock : W → W * flock_answer).
Context (flock_forward : forward flock) (not_interrupted : ∀ w, (flock w).2 ≠ Interrupted).
Context {D T E : Type} (chain : E → error_chain) (from_lock : reserve_lock_error → E) (from_db : DbError → E).

(** C14: a write under the reserve, on a connection in autocommit (inside an open
    transaction the closure would run in that one), returns after at most 201 polls of
    the lock and two attempts, provided that no call to flock is interrupted by a signal
    (the loop repeats an interrupted call at once, without looking at its deadline). One
    that fails leaves the database as it was. One that succeeds has committed exactly
    one run of its closure on that database: the first, with the reserve untouched, or
    the second, which runs only when the first attempt failed for a full disk and the
    reserve was there, was removed and its removal is durable. *)
Theorem full_disk_write_atomic opened removed parent_synced begun committed (write : nat → D → D * result T E) w st :
  ∃ w' acquired st' r,
    acquire flock 201 opened w = Some (w', acquired)
    ∧ db_with_write_reserve_retry chain from_lock removed parent_synced from_db true acquired begun committed write st
      = Some (st', r)
    ∧ match r with
      | Err _ => st'.2 = st.2
      | Ok v =>
          (write 0%nat st.2 = (st'.2, Ok v) ∧ st'.1 = st.1)
          ∨ (write 1%nat st.2 = (st'.2, Ok v) ∧ is_Some st.1 ∧ st'.1 = None ∧ is_ok removed = true
             ∧ is_ok parent_synced = true
             ∧ ∃ e, (transaction_attempt from_db begun committed write 0 st.2).2 = Err e
                    ∧ write_error_is_sqlite_full (chain e) = true)
      end.
Proof.
  destruct (acquire_returns flock flock_forward not_interrupted opened w) as [[w' acquired] Ha].
  destruct (reserve_retry_cases chain from_lock from_db removed parent_synced begun committed write acquired st)
    as (st' & r & Hr & Hcases).
  by exists w', acquired, st', r.
Qed.
End claim.

(** A clock that counts nanoseconds, a lock that is free and a disk that is full once. *)
#[local] Instance tick_clock : Clock Z := {
  instant_now := fun w => (w, w);
  sleep := fun d w => w + Z.max d 0;
  time := fun w => w;
}.

#[local] Instance tick_laws : ClockLaws Z.
Proof. split; cbn; intros; lia. Qed.

Definition full_once (attempt : nat) (d : Z) : Z * result Z string :=
  match attempt with O => (d + 7, Err "database or disk is full") | _ => (d + 1, Ok d) end.

Definition free_lock (w : Z) : Z * flock_answer := (w, Locked).

Lemma free_lock_forward : forward free_lock.
Proof. intros w. cbn. lia. Qed.

Lemma free_lock_answers w : (free_lock w).2 ≠ Interrupted.
Proof. done. Qed.

Lemma full_disk_write_atomic_witness :
  ∃ w' acquired st' r,
    acquire free_lock 201 (Ok tt) 0 = Some (w', acquired)
    ∧ db_with_write_reserve_retry (fun e => [(false, e)]) (fun _ => "lock") (Ok tt) (Ok tt) (fun _ => "db") true
        acquired (fun _ => Ok tt) (fun _ => Ok tt) full_once (Some WRITE_RESERVE_BYTES, 41) = Some (st', r)
    ∧ st' = (None, 42).
Proof.
  destruct (full_disk_write_atomic free_lock free_lock_forward free_lock_answers
              (fun e => [(false, e)]) (fun _ => "lock") (fun _ => "db") (Ok tt) (Ok tt) (Ok tt)
              (fun _ => Ok tt) (fun _ => Ok tt) full_once 0 (Some WRITE_RESERVE_BYTES, 41))
    as (w' & acquired & st' & r & Ha & Hr & _).
  exists w', acquired, st', r. split; [exact Ha|]. split; [exact Hr|].
  vm_compute in Ha. injection Ha as <- <-. vm_compute in Hr. injection Hr as <- _. reflexivity.
Defined.
