(* ===== verification/Palace.v ===== *)
(** * The database as the ingest pipeline uses it

    The drawers with the tables beside them that an ingestion writes: the vectors
    ([drawer_vectors]), the audits of the gate ([gating_audit]) and of the novelty check
    ([novelty_audit]), the counters ([fork_ext_meta]) and the column
    [drawers.admission_owner], which only the daemon uses. Each access is one transaction; between two of them other
    processes may have done anything, which the parameter [other] stands for, and
    what the system answers an access is given by [answers].

    [src/src/core/db.rs], [db_writer_lease_fence.rs]. *)

From Stdlib Require Import ZArith QArith Lia String Ascii SpecFloat.
From stdpp Require Import base tactics list gmap strings numbers sets.
From S2P Require Import Prelude Order Text Float Rfc3339 Sqlite ProcessIdentity WriterLease SqliteRetry WriteReserve.
From S2P Require Import Chars Aaak AaakCodec Utf8 Drawer DrawerStore FactCheck Gating.
Close Scope Q_scope.
Open Scope Z_scope.
Open Scope rust_scope.

(** A row of [gating_audit]. *)
Record GatingAudit := MkGatingAudit {
  ga_candidate_hash : string;
  ga_drawer_id : option string;
  ga_decision : string;
  ga_tier : Z;
  ga_label : option string;
  ga_reason : option string;
  ga_score : option f32;
  ga_explain_json : string;
  ga_retained_until : Z;
  ga_created_at : Z;
  ga_project_id : option string;
  ga_content_preview : option string;
  ga_llm : option (string * option f32);  (* [llm_verdict] and [llm_score] *)
}.

(** A row of [novelty_audit]. *)
Record NoveltyAudit := MkNoveltyAudit {
  na_candidate_hash : string;
  na_decision : string;
  na_near_drawer_id : option string;
  na_cosine : option f32;
  na_created_at : Z;
  na_project_id : option string;
}.

(** [pl_dim] is the width the table of vectors was created with, if it exists. *)
Record Palace := MkPalace {
  pl_db : Db;
  pl_dim : option nat;
  pl_vectors : gmap string (list f32 * option string);
  pl_fingerprints : gmap string string;
  pl_gating : gmap string GatingAudit;
  pl_counters : gmap string Z;
  pl_novelty : gmap string NoveltyAudit;
  pl_owners : gmap string string;  (* admission owners, where there is one *)
}.

Definition with_db (db : Db) (p : Palace) : Palace :=
  MkPalace db (pl_dim p) (pl_vectors p) (pl_fingerprints p) (pl_gating p) (pl_counters p) (pl_novelty p) (pl_owners p).

Definition with_vectors (dim : option nat) (vectors : gmap string (list f32 * option string))
    (fingerprints : gmap string string) (p : Palace) : Palace :=
  MkPalace (pl_db p) dim vectors fingerprints (pl_gating p) (pl_counters p) (pl_novelty p) (pl_owners p).

Definition with_gating (audit : gmap string GatingAudit) (counters : gmap string Z) (p : Palace) : Palace :=
  MkPalace (pl_db p) (pl_dim p) (pl_vectors p) (pl_fingerprints p) audit counters (pl_novelty p) (pl_owners p).

Definition with_novelty (audit : gmap string NoveltyAudit) (p : Palace) : Palace :=
  MkPalace (pl_db p) (pl_dim p) (pl_vectors p) (pl_fingerprints p) (pl_gating p) (pl_counters p) audit (pl_owners p).

Definition with_owners (owners : gmap string string) (p : Palace) : Palace :=
  MkPalace (pl_db p) (pl_dim p) (pl_vectors p) (pl_fingerprints p) (pl_gating p) (pl_counters p) (pl_novelty p) owners.

Inductive PalaceError :=
  | FenceFailed (e : DbError)
  | StoreFailed (e : StoreError)
  | ReserveLocked (e : reserve_lock_error)
  | VectorWidth (expected actual : nat)
  | SignalFailed (message : string)
  | MergeConflict (drawer_id : string) (expected_merge_count : Z).

(** What the system answers one access: the attempts at BEGIN and COMMIT, the
    processes and clocks the fence sees, the lock and the removal of the reserve, the
    clock of the process, and SQLite's. *)
Record access_answers := MkAnswers {
  ca_begun : nat → result unit DbError;
  ca_committed : nat → result unit DbError;
  ca_sys : os;
  ca_own : string;
  ca_cleanup_ms : Z;
  ca_fence_ms : Z;
  ca_reserve_lock : result unit reserve_lock_error;
  ca_removed : result unit string;
  ca_parent_synced : result unit string;
  ca_epoch_secs : Z;
  ca_nanos : Z;
  ca_sqlite_now : string;
  ca_audit_writable : bool;
}.

(** The reserve, the tables and the number of accesses made so far. *)
Record pstate := MkPstate {
  ps_reserve : reserve;
  ps_tables : lease_db * Palace;
  ps_access : nat;
}.

Definition ps_palace (s : pstate) : Palace := (ps_tables s).2.
Definition ps_db (s : pstate) : Db := pl_db (ps_palace s).

(** The same error chain for every layer: only SQLite's own errors have a text that
    can name a full disk. *)
Definition error_chain_of (e : PalaceError) : error_chain :=
  match e with FenceFailed (DbSqlite message) => [(false, message)] | _ => [] end.

(** The system around an ingestion: BLAKE3, its answers, and what other processes do
    before each access. *)
Class PalaceEnv := {
  blake3_hex : string → string;
  answers : nat → access_answers;
  other : nat → lease_db * Palace → lease_db * Palace;
}.

Section access.
Context {PE : PalaceEnv} {JT : JsonText}.

Definition begin_access (s : pstate) : access_answers * pstate :=
  (answers (ps_access s), MkPstate (ps_reserve s) (other (ps_access s) (ps_tables s)) (S (ps_access s))).

(** A query. *)
Definition query {A} (f : access_answers → Palace → A) (s : pstate) : pstate * A :=
  let '(a, s) := begin_access s in (s, f a (ps_palace s)).

Section writes.
Context {T : Type}.

Definition body := access_answers → Palace → Palace * result T PalaceError.

Definition on_tables (b : body) (a : access_answers) (st : lease_db * Palace) : (lease_db * Palace) * result T PalaceError :=
  let '(p, r) := b a st.2 in ((st.1, p), r).

(** [with_runtime_writer_lease_write]. *)
Definition lease_write (lease : option RuntimeWriterLease) (operation : string) (b : body) (s : pstate)
    : pstate * result T PalaceError :=
  let '(a, s) := begin_access s in
  let '(tables, r) := with_runtime_writer_lease_write blake3_hex FenceFailed true (ca_begun a 0) (ca_committed a 0)
                        (ca_sys a) (ca_own a) lease operation (ca_cleanup_ms a) (ca_fence_ms a) (on_tables b a)
                        (ps_tables s) in
  (MkPstate (ps_reserve s) tables (ps_access s), r).

(** [with_runtime_writer_lease_transaction]. *)
Definition lease_transaction (lease : option RuntimeWriterLease) (operation : string) (b : body) (s : pstate)
    : pstate * result T PalaceError :=
  let '(a, s) := begin_access s in
  let '(tables, r) := with_runtime_writer_lease_transaction blake3_hex FenceFailed true (ca_begun a 0)
                        (ca_committed a 0) (ca_sys a) (ca_own a) lease operation (ca_cleanup_ms a) (ca_fence_ms a)
                        (on_tables b a) (ps_tables s) in
  (MkPstate (ps_reserve s) tables (ps_access s), r).

(** [with_runtime_writer_lease_write_retry]: the fence is checked inside each attempt. *)
Definition lease_write_retry (lease : option RuntimeWriterLease) (operation : string) (b : body) (s : pstate)
    : pstate * result T PalaceError :=
  let '(a, s) := begin_access s in
  match db_with_write_reserve_retry error_chain_of ReserveLocked (ca_removed a) (ca_parent_synced a) FenceFailed true
          (ca_reserve_lock a) (ca_begun a) (ca_committed a)
          (fun _ => fenced_body blake3_hex FenceFailed (ca_sys a) (ca_own a) lease operation (ca_cleanup_ms a)
                      (ca_fence_ms a) (on_tables b a))
          (ps_reserve s, ps_tables s) with
  | Some ((reserve, tables), r) => (MkPstate reserve tables (ps_access s), r)
  | None => (s, Err (FenceFailed (DbSqlite "unreachable")))
  end.
End writes.

(** ** The statements *)

Definition AUDIT_RETENTION_SECS : Z := 7 * 24 * 60 * 60.

(** [truncate_preview]: the ellipsis is U+2026. *)
Definition truncate_preview (content : string) (max_chars : nat) : string :=
  let chars := decode_str content in
  encode_str (take max_chars chars ++ (if (max_chars <? length chars)%nat then [8230] else []))%list.

Definition increment_meta_counter (key : string) (counters : gmap string Z) : gmap string Z :=
  <[key := default 0 (counters !! key) + 1]> counters.

Definition count_drop (d : GatingDecision) (counters : gmap string Z) : gmap string Z :=
  match drop_reason d with
  | Some reason => increment_meta_counter ("gating.dropped." +:+ reason)
                     (increment_meta_counter "gating.dropped.total" counters)
  | None => counters
  end.

(** [record_gating_audit_in_current_transaction]; [explain] is the JSON text of the
    decision. *)
Definition record_gating_audit_tx (explain : GatingDecision → string) (candidate_hash : string)
    (d : GatingDecision) (project_id content : option string) (a : access_answers) (p : Palace)
    : Palace * result unit PalaceError :=
  let created_at := ca_epoch_secs a in
  let id := "gating_" +:+ blake3_hex (candidate_hash +:+ ":" +:+ show created_at +:+ ":" +:+ show (ca_nanos a)
                                      +:+ ":" +:+ explain d) in
  match pl_gating p !! id with
  | Some _ => (p, Err (StoreFailed ConstraintViolation))
  | None =>
      let row := MkGatingAudit candidate_hash (if is_rejected d then None else Some candidate_hash)
                   (if is_rejected d then "skip" else "keep") (gd_tier d) (gd_label d) (gd_gating_reason d)
                   (gd_score d) (explain d) (created_at + AUDIT_RETENTION_SECS) created_at project_id
                   (if is_rejected d then (fun text => truncate_preview text 500) <$> content else None) None in
      (with_gating (<[id := row]> (pl_gating p)) (count_drop d (pl_counters p)) p, Ok tt)
  end.

(** [record_gating_audit_fenced]: without a lease a transaction of its own. When its
    COMMIT fails the run ends with that error, and the open transaction goes with the
    connection. *)
Definition record_gating_audit_fenced (explain : GatingDecision → string) (lease : option RuntimeWriterLease)
    (candidate_hash : string) (d : GatingDecision) (project_id content : option string) (operation : string)
    : pstate → pstate * result unit PalaceError :=
  let write := record_gating_audit_tx explain candidate_hash d project_id content in
  match lease with
  | None => lease_transaction None operation write
  | Some l => lease_write_retry (Some l) operation write
  end.

(** [insert_vector_with_project]: the first writer of an identifier wins. *)
Definition insert_vector_with_project (fingerprint : nat → string) (drawer_id : string) (vector : list f32)
    (project_id : option string) (p : Palace) : Palace * result unit PalaceError :=
  let dim := default (length vector) (pl_dim p) in
  let created := with_vectors (Some dim) (pl_vectors p) (pl_fingerprints p) p in
  if negb (length vector =? dim)%nat then (created, Err (VectorWidth dim (length vector)))
  else
    match pl_vectors p !! drawer_id with
    | Some _ => (created, Ok tt)
    | None =>
        (with_vectors (Some dim) (<[drawer_id := (vector, project_id)]> (pl_vectors p))
           (<[drawer_id := fingerprint (length vector)]> (pl_fingerprints p)) p, Ok tt)
    end.

(** [pin_drawer_fenced]. *)
Definition pin_body (id : string) (pin_order : option Z) (_ : access_answers) (p : Palace)
    : Palace * result bool PalaceError :=
  let '(db, hit) := pin_drawer id pin_order (pl_db p) in (with_db db p, Ok hit).

Definition pin_drawer_fenced (lease : option RuntimeWriterLease) (id : string) (pin_order : option Z)
    : pstate → pstate * result bool PalaceError :=
  lease_transaction lease "pin drawer" (pin_body id pin_order).
End access.

(** ** Replacing the drawers of a source *)
Section replace.
Context `{StoreEnv}.

Definition same_source (source_file wing : string) (project_id source_root : option string) (row : Row) : bool :=
  is_active row && bool_decide (r_source_file row = Some source_file) && bool_decide (r_wing row = wing)
  && bool_decide (r_project_id row = project_id) && bool_decide (r_source_root row = source_root).

(** Some vector of the source's project. *)
Definition drop_vector (id : string) (project_id : option string) (p : Palace) : Palace :=
  match pl_vectors p !! id with
  | Some (_, owner) =>
      if bool_decide (owner = project_id)
      then with_vectors (pl_dim p) (delete id (pl_vectors p)) (pl_fingerprints p) p else p
  | None => p
  end.

(** [delete_source_drawer_rows_tx]: the drawers with their vectors, their triples
    kept without the source. *)
Fixpoint delete_source_drawer_rows_tx (ids : list string) (project_id source_root : option string) (p : Palace)
    : Palace * result unit PalaceError :=
  match ids with
  | [] => (p, Ok tt)
  | id :: ids =>
      let p1 := drop_vector id project_id p in
      let p2 := with_db (clear_source id (pl_db p1)) p1 in
      match delete_where id (fun row => bool_decide (r_project_id row = project_id)
                                        && bool_decide (r_source_root row = source_root)) (pl_db p2) with
      | Err e => (p2, Err (StoreFailed e))
      | Ok (db, deleted) =>
          let p3 := with_db db p2 in
          delete_source_drawer_rows_tx ids project_id source_root
            (if 0 <? deleted then with_owners (delete id (pl_owners p3)) p3 else p3)
      end
  end.

(** The identifiers in the order of the table. *)
Definition source_rows (keep : Row → bool) (db : Db) : list string :=
  plan (map fst (List.filter (fun e => keep e.2) (map_to_list (db_drawers db)))).

Definition replace_rows (keep : Row → bool) (project_id source_root : option string) (p : Palace)
    : Palace * result Z PalaceError :=
  let ids := source_rows keep (pl_db p) in
  let '(p, r) := delete_source_drawer_rows_tx ids project_id source_root p in
  (p, match r with Ok _ => Ok (Z.of_nat (length ids)) | Err e => Err e end).

Definition replace_active_source_drawers_tx (source_file wing : string) (room project_id source_root : option string)
    : Palace → Palace * result Z PalaceError :=
  replace_rows (fun row => same_source source_file wing project_id source_root row && bool_decide (r_room row = room))
    project_id source_root.

Definition replace_active_source_drawers_across_rooms_tx (source_file wing : string)
    (project_id source_root : option string) : Palace → Palace * result Z PalaceError :=
  replace_rows (same_source source_file wing project_id source_root) project_id source_root.
End replace.
