(* ===== verification/Ingest.v ===== *)
(** * The ingest pipeline

    [src/src/ingest/mod.rs], [ingest/diary.rs], [core/strata.rs]: a file is parsed,
    normalized, scrubbed and cut; each chunk is checked for a duplicate and passed
    through the gate; what remains is embedded in one batch and stored chunk by chunk,
    each write under the writer lease. Reading, parsing, normalizing and scrubbing are
    parameters: what they return for this file. *)

From Stdlib Require Import ZArith QArith Lia String Ascii SpecFloat.
From stdpp Require Import base tactics list gmap strings numbers sets.
From S2P Require Import Prelude Order Text Float Rfc3339 Sqlite ProcessIdentity WriterLease SqliteRetry WriteReserve.
From S2P Require Import Chars Aaak AaakCodec Utf8 Drawer DrawerStore Knowledge Chunk FactCheck Gating Search.
From S2P Require Import CoworkCapture Palace.
Close Scope Q_scope.
Open Scope Z_scope.
Open Scope rust_scope.

(** ** Stored turns *)
Inductive TurnStorageMode := StorageOff | RawEvidence | Summarized.

Definition should_store_raw_turns (mode : TurnStorageMode) : bool :=
  match mode with RawEvidence => true | _ => false end.

Record TurnPolicy := MkTurnPolicy {
  tp_storage_mode : TurnStorageMode;
  tp_default_importance : Z;
  tp_turns : TurnsConfig;
}.

Definition raw_turn_importance (wing : string) (room : option string) (kind : option MemoryKind) (config : TurnPolicy)
    : option Z :=
  if is_raw_turn wing room kind (tp_turns config) then Some (tp_default_importance config) else None.

(** ** Results *)
Record IngestStats := MkStats {
  is_files : Z;
  is_chunks : Z;
  is_skipped : Z;
  is_dropped_by_gate : Z;
  is_drawer_ids : list string;
  is_fact_check_warnings : list string;
  is_noise_bytes_stripped : option Z;
  is_superseded_drawer_id : option string;
  is_lock_wait_ms : option Z;
}.

Definition stats_default : IngestStats := MkStats 0 0 0 0 [] [] None None None.

Definition add_chunk (s : IngestStats) : IngestStats :=
  MkStats (is_files s) (is_chunks s + 1) (is_skipped s) (is_dropped_by_gate s) (is_drawer_ids s)
    (is_fact_check_warnings s) (is_noise_bytes_stripped s) (is_superseded_drawer_id s) (is_lock_wait_ms s).
Definition add_skipped (s : IngestStats) : IngestStats :=
  MkStats (is_files s) (is_chunks s) (is_skipped s + 1) (is_dropped_by_gate s) (is_drawer_ids s)
    (is_fact_check_warnings s) (is_noise_bytes_stripped s) (is_superseded_drawer_id s) (is_lock_wait_ms s).
Definition add_dropped (s : IngestStats) : IngestStats :=
  MkStats (is_files s) (is_chunks s) (is_skipped s) (is_dropped_by_gate s + 1) (is_drawer_ids s)
    (is_fact_check_warnings s) (is_noise_bytes_stripped s) (is_superseded_drawer_id s) (is_lock_wait_ms s).
Definition add_drawer (id : string) (s : IngestStats) : IngestStats :=
  MkStats (is_files s) (is_chunks s) (is_skipped s) (is_dropped_by_gate s) (is_drawer_ids s ++ [id])%list
    (is_fact_check_warnings s) (is_noise_bytes_stripped s) (is_superseded_drawer_id s) (is_lock_wait_ms s).
Definition add_warnings (w : list string) (s : IngestStats) : IngestStats :=
  MkStats (is_files s) (is_chunks s) (is_skipped s) (is_dropped_by_gate s) (is_drawer_ids s)
    (is_fact_check_warnings s ++ w)%list (is_noise_bytes_stripped s) (is_superseded_drawer_id s) (is_lock_wait_ms s).
Definition set_noise (n : option Z) (s : IngestStats) : IngestStats :=
  MkStats (is_files s) (is_chunks s) (is_skipped s) (is_dropped_by_gate s) (is_drawer_ids s)
    (is_fact_check_warnings s) n (is_superseded_drawer_id s) (is_lock_wait_ms s).
Definition set_superseded_id (id : option string) (s : IngestStats) : IngestStats :=
  MkStats (is_files s) (is_chunks s) (is_skipped s) (is_dropped_by_gate s) (is_drawer_ids s)
    (is_fact_check_warnings s) (is_noise_bytes_stripped s) id (is_lock_wait_ms s).
Definition set_lock_wait (ms : option Z) (s : IngestStats) : IngestStats :=
  MkStats (is_files s) (is_chunks s) (is_skipped s) (is_dropped_by_gate s) (is_drawer_ids s)
    (is_fact_check_warnings s) (is_noise_bytes_stripped s) (is_superseded_drawer_id s) ms.

Inductive SourceLockError := LockTimeout | LockIo (message : string) | InvalidSourceKey (key : string).

Inductive IngestError :=
  | ReadFile (message : string)
  | CanonicalizeSourceRoot (message : string)
  | NormalizeFailed (message : string)
  | ParseFailed (message : string)
  | EmbedChunks (message : string)
  | CheckDrawer (drawer_id : string) (e : StoreError)
  | InsertDrawer (drawer_id : string) (e : PalaceError)
  | ReplaceSource (source_file : string) (e : PalaceError)
  | ResolveReplacement (e : StoreError)
  | SupersedeDrawer (drawer_id : string) (e : PalaceError)
  | InsertVector (drawer_id : string) (e : PalaceError)
  | VectorDimensionMismatch (current_dim new_dim : nat)
  | DiaryRollupWrongWing (wing : string)
  | DiaryRollupMissingRoom
  | DailyRollupFull (drawer_id : string) (limit_bytes attempted_bytes : Z)
  | EmbedderReturnedNoVector (drawer_id : string)
  | IngestLocked (e : SourceLockError)
  | ReadDir (path message : string)
  | ReadDirEntry (path message : string).

Inductive Format := CcSession | ClaudeJsonl | ChatGptJson | CodexJsonl | SlackJson | PlainText.

(** The options the rest of the pipeline reads; those of the parser are spent before. *)
Record IngestOptions := MkIngestOptions {
  io_room : option string;
  io_source_root : option (list string);
  io_dry_run : bool;
  io_project_id : option string;
  io_gating : option IngestGatingConfig;
  io_prototype_classifier : option PrototypeClassifier;
  io_source_file_override : option string;
  io_source_type : option SourceType;
  io_memory_kind : option MemoryKind;
  io_domain : option MemoryDomain;
  io_field : option string;
  io_is_pinned : bool;
  io_confidence : option Q;
  io_replace_existing_source : bool;
  io_replace_across_rooms : bool;
  io_no_strip_noise : bool;
  io_diary_rollup : bool;
  io_diary_rollup_day : option string;
  io_supersedes : option string;
  io_replace_text : option string;
  io_valid_from : option string;
  io_valid_until : option string;
}.

(** ** Paths

    A path is the list of its components, the root of an absolute one being a slash;
    paths come in normal form, without doubled separators. *)
Definition path_text (p : list string) : string :=
  match p with "/" :: rest => "/" +:+ String.concat "/" rest | _ => String.concat "/" p end.

Definition file_name (p : list string) : option string :=
  match last p with
  | Some name => if bool_decide (name = "/") || bool_decide (name = "..") then None else Some name
  | None => None
  end.

Fixpoint path_strip_prefix (root p : list string) : option (list string) :=
  match root, p with
  | [], _ => Some p
  | c :: root, c' :: p => if bool_decide (c = c') then path_strip_prefix root p else None
  | _ :: _, [] => None
  end.

Fixpoint slashes (s : string) : string :=
  match s with
  | EmptyString => EmptyString
  | String c rest => String (if Ascii.eqb c "\" then "/" else c)%char (slashes rest)
  end.

Definition normalize_source_file (p : list string) (source_root : option (list string)) : string :=
  let relative := match source_root with
                  | Some root => match path_strip_prefix root p with
                                 | Some (c :: rest) => Some (c :: rest)
                                 | _ => None
                                 end
                  | None => None
                  end in
  slashes (path_text (match relative with
                      | Some r => r
                      | None => match file_name p with Some name => [name] | None => p end
                      end)).

Definition should_skip_dir (p : list string) : bool :=
  match file_name p with
  | Some name => bool_decide (name = ".git") || bool_decide (name = "target") || bool_decide (name = "node_modules")
  | None => false
  end.

(** Two sums of bytes overflow like [u64] addition, which panics. *)
Definition merge_optional_sum (left right : option Z) : option Z :=
  match left, right with
  | Some l, Some r => Some (l + r)
  | Some v, None | None, Some v => Some v
  | None, None => None
  end.

(** ** The source lock *)
Section source_lock.
Context {W : Type} `{Clock W} (try_lock : W → W * flock_answer) (jitter_ms : W → Z).

(** Every error but contention ends the wait; so does an interrupted call. *)
Fixpoint source_lock_loop (fuel : nat) (start timeout : Z) (w : W) : option (W * result Z SourceLockError) :=
  match fuel with
  | O => None
  | S fuel =>
      match try_lock w with
      | (w, Locked) => let '(w, now) := instant_now w in Some (w, Ok (now - start))
      | (w, WouldBlock) =>
          let '(w, now) := instant_now w in
          if timeout <=? now - start then Some (w, Err LockTimeout)
          else source_lock_loop fuel start timeout (sleep (from_millis (50 + jitter_ms w)) w)
      | (w, Interrupted) => Some (w, Err (LockIo "interrupted"))
      | (w, FlockFailed message) => Some (w, Err (LockIo message))
      end
  end.

Definition valid_source_key (key : string) : bool :=
  negb (is_empty key || Text.contains "/" key || Text.contains "\" key || Text.contains ".." key).

Definition acquire_source_lock (fuel : nat) (source_key : string) (opened : result unit string) (timeout : Z) (w : W)
    : option (W * result Z SourceLockError) :=
  if negb (valid_source_key source_key) then Some (w, Err (InvalidSourceKey source_key))
  else match opened with
       | Err message => Some (w, Err (LockIo message))
       | Ok _ => let '(w, now) := instant_now w in source_lock_loop fuel now timeout w
       end.
End source_lock.

Definition LOCK_TIMEOUT : Z := 5000 * MILLIS.

(** ** The pipeline *)
Definition ing (A : Type) : Type := pstate → pstate * result A IngestError.

Definition ret {A} (a : A) : ing A := fun s => (s, Ok a).
Definition throw {A} (e : IngestError) : ing A := fun s => (s, Err e).
Definition bind {A B} (m : ing A) (k : A → ing B) : ing B :=
  fun s => match m s with (s, Ok a) => k a s | (s, Err e) => (s, Err e) end.

Declare Scope ingest_scope.
Delimit Scope ingest_scope with ingest.
Notation "'let*' x ':=' m 'in' k" := (bind m (fun x => k)) (at level 10, x name, m at level 100, k at level 200) : ingest_scope.
Open Scope ingest_scope.

Definition of_result {A} (r : result A IngestError) : ing A := fun s => (s, r).

(** [map_err]. *)
Definition map_err {A E} (f : E → IngestError) (m : pstate → pstate * result A E) : ing A :=
  fun s => let '(s, r) := m s in (s, match r with Ok a => Ok a | Err e => Err (f e) end).

(** The configuration snapshot. *)
Record IngestConfig := MkIngestConfig {
  cf_turns : TurnPolicy;
  cf_chunker : ChunkerConfig;
  cf_repair_enabled : bool;
  cf_patterns_enabled : bool;
}.

(** What reading, parsing, normalizing and the per-source lock return for the file. *)
Record source_input := MkSource {
  sr_read : result unit string;
  sr_parsed : result (string * Format) string;
  sr_normalized : bool → result (string * option Z) string;
  sr_root : result string string;
  sr_lock : result Z SourceLockError;
}.

(** What the pipeline is given: the embedder and its estimate of tokens, the
    configuration, the compiled privacy patterns, the taxonomy, serde's text of a
    decision, the fingerprint of the embedding model, the order of a hash set, the text
    of an error, and the outcome of the writes of the signal components. *)
Class IngestEnv := {
  embedder : Gating.Embedder;
  tokens : Chunk.Embedder;
  config : IngestConfig;
  scrub : string → string;
  taxonomy : list TaxonomyEntry;
  explain : GatingDecision → string;
  fingerprint : nat → string;
  known_iter : gset string → list string;
  fact_error_text : FactCheckError → string;
  signal : string → string → Palace → result unit string;
}.

Section pipeline.
Context `{StoreEnv} {SE : SearchEnv} {CE : CodecEnv} {PE : PalaceEnv} {JT : JsonText} {IE : IngestEnv}.

(** [route_room_from_taxonomy]. *)
Definition route_room_from_taxonomy (content wing : string) : string :=
  let normalized := lowercase content in
  let terms := query_terms normalized in
  match best_match (omap (fun entry => match matched_keywords normalized terms entry with
                                       | [] => None
                                       | found => Some (entry, found)
                                       end)
                      (List.filter (fun entry => bool_decide (tx_wing entry = wing)) taxonomy)) with
  | Some (entry, _) => if is_empty (Text.trim (tx_room entry)) then DEFAULT_ROOM else tx_room entry
  | None => DEFAULT_ROOM
  end.

(** *** The fact check of one chunk *)
Definition fact_check_outcome (cfg : AutoFactCheckConfig) (new_confidence : Q) (chunk_text : string)
    (a : access_answers) (p : Palace) : FactCheckGateOutcome :=
  match check_with_confidence (R := unit) known_iter [] (ca_sqlite_now a) (decode_str chunk_text) (pl_db p)
          (ca_epoch_secs a) None new_confidence with
  | Ok report => MkFactOutcome (fact_check_decision (fr_issues unit report) cfg)
                   (format_fact_issue_warning <$> fr_issues unit report)
  | Err error => fact_check_fail_open_outcome (fact_error_text error)
  end.

Definition evaluate_fact_check_gate (lease : option RuntimeWriterLease) (candidate_hash chunk_text : string)
    (project_id : option string) (cfg : AutoFactCheckConfig) (new_confidence : Q)
    (s : pstate) : pstate * result (option FactCheckGateOutcome) PalaceError :=
  if negb (fc_enabled cfg) then (s, Ok None)
  else
    let '(s, outcome) := query (fact_check_outcome cfg new_confidence chunk_text) s in
    let '(s, r) := record_gating_audit_fenced explain lease candidate_hash
                     (fo_decision outcome) project_id (Some chunk_text) "record fact-check gating audit" s in
    (s, match r with Ok _ => Ok (Some outcome) | Err e => Err e end).

Section file.
Context (lease : option RuntimeWriterLease) (wing room : string) (options : IngestOptions) (raw_turn : bool).
Context (source_type : SourceType) (confidence : Q) (target : option string).

(** *** One chunk: duplicate, identifier, gate *)
Inductive verdict := Skip (existing : option string) | Counted | Dropped (warnings : list string)
  | Pending (drawer_id : string) (warnings : list string).

(** What the first two tiers say. *)
Definition gating_decision (gating : IngestGatingConfig) (chunk : string) : option GatingDecision :=
  let candidate := MkIngestCandidate chunk None None None in
  match evaluate_tier1 candidate gating with
  | Some d => Some d
  | None =>
      match io_prototype_classifier options with
      | Some classifier => Some (t2_decision (evaluate_tier2 candidate classifier embedder
                                                (cc_threshold (ig_embedding_classifier gating))))
      | None => None
      end
  end.

Definition gate_chunk (gating : IngestGatingConfig) (chunk drawer_id : string) : ing verdict :=
  let decision := gating_decision gating chunk in
  let* _ := match decision with
            | Some d => map_err (InsertDrawer drawer_id)
                          (record_gating_audit_fenced explain lease drawer_id d
                             (io_project_id options) (Some chunk) "record gating audit")
            | None => ret tt
            end in
  if match decision with Some d => is_rejected d | None => false end then ret (Dropped [])
  else if raw_turn then ret (Pending drawer_id [])
  else
    let* outcome := map_err (InsertDrawer drawer_id)
                      (evaluate_fact_check_gate lease drawer_id chunk (io_project_id options) (ig_fact_check gating)
                         confidence) in
    ret match outcome with
        | None => Pending drawer_id []
        | Some o => if is_rejected (fo_decision o) then Dropped (fo_warnings o) else Pending drawer_id (fo_warnings o)
        end.

Definition is_target (s : DrawerSummary) : bool := bool_decide (Some (s_id s) = target).

Definition check_chunk (chunk : string) : ing verdict :=
  let* duplicate := fun s =>
    let '(s, found) := query (fun _ p => find_active_drawers_by_content (pl_db p) chunk wing (Some room)
                                             (io_project_id options)) s in
    (s, Ok (List.find (fun x => negb (is_target x)) found)) in
  match duplicate with
  | Some existing =>
      let* _ := if io_is_pinned options
                then map_err (InsertDrawer (s_id existing))
                       (pin_drawer_fenced lease (s_id existing) None)
                else ret false in
      ret (Skip (Some (s_id existing)))
  | None =>
      let preferred := build_bootstrap_evidence_drawer_id wing (Some room) chunk source_type in
      let* resolved := fun s =>
        let '(s, id) := query (fun _ p => resolve_available_drawer_id (pl_db p) preferred) s in
        (s, match id with Some id => Ok id | None => Err (CheckDrawer preferred NoRows) end) in
      let* exists_ := fun s => let '(s, b) := query (fun _ p => drawer_exists (pl_db p) resolved) s in (s, Ok b) in
      if exists_ then ret (Skip None)
      else if io_dry_run options then ret Counted
      else match io_gating options with
           | None => ret (Pending resolved [])
           | Some gating => gate_chunk gating chunk resolved
           end
  end.

(** *** The loop over the chunks *)
Definition pending_chunk : Type := Z * string * string.

Definition note (v : verdict) (stats : IngestStats) : IngestStats :=
  match v with
  | Skip (Some id) => add_drawer id (add_skipped stats)
  | Skip None => add_skipped stats
  | Counted => add_chunk stats
  | Dropped w => add_dropped (add_warnings w stats)
  | Pending _ w => add_warnings w stats
  end.

Fixpoint check_chunks (index : Z) (chunks : list string) (pending : list pending_chunk) (stats : IngestStats)
    : ing (list pending_chunk * IngestStats) :=
  match chunks with
  | [] => ret (pending, stats)
  | chunk :: chunks =>
      let* v := check_chunk chunk in
      let pending := match v with
                     | Pending id _ => (pending ++ [(index, chunk, id)])%list
                     | _ => pending
                     end in
      check_chunks (index + 1) chunks pending (note v stats)
  end.

(** *** Storing *)
Definition with_options (d : Drawer) : Drawer :=
  {| d_id := d_id d; d_content := d_content d; d_wing := d_wing d; d_room := d_room d;
     d_source_file := d_source_file d; d_source_type := d_source_type d; d_confidence := confidence;
     d_added_at := d_added_at d; d_chunk_index := d_chunk_index d;
     d_normalize_version := CURRENT_NORMALIZE_VERSION; d_importance := d_importance d;
     d_memory_kind := default (d_memory_kind d) (io_memory_kind options);
     d_domain := default (d_domain d) (io_domain options); d_field := default (d_field d) (io_field options);
     d_anchor_kind := d_anchor_kind d; d_anchor_id := d_anchor_id d; d_parent_anchor_id := d_parent_anchor_id d;
     d_provenance := d_provenance d; d_statement := d_statement d; d_tier := d_tier d; d_status := d_status d;
     d_supporting_refs := d_supporting_refs d; d_counterexample_refs := d_counterexample_refs d;
     d_teaching_refs := d_teaching_refs d; d_verification_refs := d_verification_refs d;
     d_scope_constraints := d_scope_constraints d; d_trigger_hints := d_trigger_hints d;
     d_is_pinned := io_is_pinned options; d_pin_order := d_pin_order d; d_supersedes := d_supersedes d;
     d_effective_importance := d_effective_importance d; d_compacted_into := d_compacted_into d |}.

Definition new_drawer (source_file added_at : string) (importance : Z) (p : pending_chunk) : Drawer :=
  let '(chunk_index, chunk, drawer_id) := p in
  let drawer := with_options (new_bootstrap_evidence drawer_id chunk wing (Some room) (Some source_file) source_type
                                added_at (Some chunk_index) importance) in
  match target with Some old_id => link_superseded_drawer drawer old_id | None => drawer end.

(** A signal is a write to a table of another component: here only its fence and its
    outcome. *)
Definition signal_body (operation drawer_id : string) (_ : access_answers) (p : Palace)
    : Palace * result unit PalaceError :=
  (p, match signal operation drawer_id p with Ok _ => Ok tt | Err e => Err (SignalFailed e) end).

Definition record_signal (enabled : bool) (operation drawer_id : string) : ing unit :=
  if enabled then
    map_err (InsertDrawer drawer_id)
      (lease_write lease operation
         (signal_body operation drawer_id))
  else ret tt.

(** [iso_timestamp]. *)
Definition iso_timestamp : ing string := fun s => (s, Ok (format_rfc3339 (ca_epoch_secs (answers (ps_access s))))).

Definition insert_body (source_root : option string) (drawer : Drawer) (_ : access_answers) (p : Palace)
    : Palace * result unit PalaceError :=
  let '(db, r) := insert_drawer_with_project_validity_once (pl_db p) drawer (io_project_id options) source_root
                    (io_valid_from options) (io_valid_until options) None in
  (with_db db p, match r with Ok v => Ok v | Err e => Err (StoreFailed e) end).

Definition vector_body (drawer_id : string) (vector : list f32) (_ : access_answers) (p : Palace)
    : Palace * result unit PalaceError :=
  insert_vector_with_project fingerprint drawer_id vector (io_project_id options) p.

Definition store_chunk (source_file : string) (source_root : option string) (importance : Z) (p : pending_chunk)
    (vector : list f32) : ing unit :=
  let drawer_id := p.2 in
  let* added_at := iso_timestamp in
  let drawer := new_drawer source_file added_at importance p in
  let* _ := map_err (InsertDrawer drawer_id)
    (lease_write_retry lease "insert drawer"
       (insert_body source_root drawer)) in
  let* _ := map_err (InsertVector drawer_id)
    (lease_write_retry lease "insert vector"
       (vector_body drawer_id vector)) in
  let* _ := record_signal (cf_repair_enabled config) "record repair signal" drawer_id in
  record_signal (cf_patterns_enabled config) "record pattern signal" drawer_id.

Fixpoint store_chunks (source_file : string) (source_root : option string) (importance : Z)
    (items : list (pending_chunk * list f32)) (stats : IngestStats) : ing IngestStats :=
  match items with
  | [] => ret stats
  | (p, vector) :: items =>
      let* _ := store_chunk source_file source_root importance p vector in
      store_chunks source_file source_root importance items (add_chunk (add_drawer p.2 stats))
  end.

Definition supersede_body (target_id replacement_id : string) (a : access_answers) (p : Palace)
    : Palace * result unit PalaceError :=
  let '(db, r) := supersede_drawer (ca_sqlite_now a) target_id ("replaced by " +:+ replacement_id)
                    (ca_audit_writable a) (pl_db p) in
  (with_db db p, match r with Ok _ => Ok tt | Err e => Err (StoreFailed e) end).

Definition supersede_after_successful_replacement (stats : IngestStats) : ing IngestStats :=
  match target, head (is_drawer_ids stats) with
  | Some target_id, Some replacement_id =>
      let* _ := map_err (SupersedeDrawer target_id)
        (lease_write lease "supersede replacement target"
           (supersede_body target_id replacement_id)) in
      ret (set_superseded_id (Some target_id) stats)
  | _, _ => ret stats
  end.

(** *** Embedding *)
Definition mixed_width (vectors : list (list f32)) : option (nat * nat) :=
  match vectors with
  | [] => None
  | first :: _ =>
      (fun dim => (length first, dim))
        <$> List.find (fun dim => negb (dim =? length first)%nat) (@length f32 <$> vectors)
  end.

(** [current_vector_dim]: the width of some stored vector. *)
Definition current_vector_dim (p : Palace) : option nat :=
  match plan (map fst (map_to_list (pl_vectors p))) with
  | id :: _ => (fun v => length v.1) <$> pl_vectors p !! id
  | [] => None
  end.

Definition embed_pending (pending : list pending_chunk) : ing (list (list f32)) :=
  match embed embedder ((fun p => p.1.2) <$> pending) with
  | Err message => throw (EmbedChunks message)
  | Ok vectors =>
      match mixed_width vectors with
      | Some (expected_dim, actual_dim) => throw (VectorDimensionMismatch expected_dim actual_dim)
      | None =>
          match vectors with
          | [] => ret vectors
          | first :: _ =>
              let* current := fun s => let '(s, d) := query (fun _ p => current_vector_dim p) s in (s, Ok d) in
              match current with
              | Some current_dim =>
                  if negb (current_dim =? length first)%nat
                  then throw (VectorDimensionMismatch current_dim (length first)) else ret vectors
              | None => ret vectors
              end
          end
      end
  end.

(** *** From the pending chunks to the end *)
Definition finish (source_file : string) (source_root : option string) (importance : Z)
    (pending : list pending_chunk) (stats : IngestStats) : ing IngestStats :=
  if io_dry_run options then ret stats
  else match pending with
       | [] => supersede_after_successful_replacement stats
       | _ =>
           let* vectors := embed_pending pending in
           let* stats := store_chunks source_file source_root importance (zip pending vectors) stats in
           supersede_after_successful_replacement stats
       end.

Definition ingest_chunks (source_file : string) (source_root : option string) (importance : Z) (chunks : list string)
    (stats : IngestStats) : ing IngestStats :=
  let* checked := check_chunks 0 chunks [] stats in
  finish source_file source_root importance checked.1 checked.2.
End file.

(** ** The diary *)
Definition DIARY_ROLLUP_WING : string := "agent-diary".
Definition DAILY_ROLLUP_LIMIT_BYTES : Z := 32 * 1024.
Definition LF : string := bytes_str [10%N].
Definition DIARY_ROLLUP_SEPARATOR : string := LF +:+ LF +:+ "---" +:+ LF +:+ LF.

Definition civil_from_days (days_since_epoch : Z) : Z * Z * Z :=
  let days := days_since_epoch + 719468 in
  let era := Z.quot (if 0 <=? days then days else days - 146096) 146097 in
  let day_of_era := days - era * 146097 in
  let year_of_era :=
    Z.quot (day_of_era - Z.quot day_of_era 1460 + Z.quot day_of_era 36524 - Z.quot day_of_era 146096) 365 in
  let year := year_of_era + era * 400 in
  let day_of_year := day_of_era - (365 * year_of_era + Z.quot year_of_era 4 - Z.quot year_of_era 100) in
  let month_prime := Z.quot (5 * day_of_year + 2) 153 in
  let day := day_of_year - Z.quot (153 * month_prime + 2) 5 + 1 in
  let month := month_prime + (if month_prime <? 10 then 3 else -9) in
  (year + (if month <=? 2 then 1 else 0), month, day).

Definition current_rollup_day_utc (epoch_secs : Z) : string :=
  let '(year, month, day) := civil_from_days (epoch_secs / 86400) in
  fmt 10 4 year +:+ "-" +:+ fmt 10 2 month +:+ "-" +:+ fmt 10 2 day.

Definition diary_rollup_drawer_id (room day : string) : string := "drawer_agent-diary_" +:+ room +:+ "_day_" +:+ day.

Record DiaryRollupOptions := MkDiaryOptions {
  do_room : option string;
  do_day : option string;
  do_dry_run : bool;
  do_importance : Z;
}.

Record DiaryRollupOutcome := MkDiaryOutcome { dr_drawer_id : string; dr_stats : IngestStats }.

Record PreparedDiaryRollup := MkPrepared {
  pd_drawer_id : string;
  pd_content : string;
  pd_room : string;
  pd_day : string;
  pd_stats : IngestStats;
  pd_importance : Z;
}.

Definition clock_secs : ing Z := fun s => (s, Ok (ca_epoch_secs (answers (ps_access s)))).

(** The room, when it is not blank. *)
Definition rollup_room (o : DiaryRollupOptions) : option string :=
  match do_room o with Some room => if is_empty (Text.trim room) then None else Some room | None => None end.

Definition rollup_target (wing : string) (o : DiaryRollupOptions) : ing (string * string) :=
  if negb (bool_decide (wing = DIARY_ROLLUP_WING)) then throw (DiaryRollupWrongWing wing)
  else match rollup_room o with
       | None => throw DiaryRollupMissingRoom
       | Some room =>
           let* secs := clock_secs in
           ret (room, default (current_rollup_day_utc secs) (do_day o))
       end.

Definition one_chunk : IngestStats := MkStats 1 1 0 0 [] [] None None None.

Definition prepare_diary_rollup (lock : result Z SourceLockError) (content wing : string) (o : DiaryRollupOptions)
    : ing PreparedDiaryRollup :=
  let* place := rollup_target wing o in
  let '(room, day) := place in
  let drawer_id := diary_rollup_drawer_id room day in
  let* wait := of_result (match lock with Ok ms => Ok ms | Err e => Err (IngestLocked e) end) in
  let* existing := fun s =>
    let '(s, r) := query (fun _ p => get_drawer (pl_db p) drawer_id) s in
    (s, match r with Ok d => Ok d | Err e => Err (CheckDrawer drawer_id e) end) in
  let new_content := match existing with
                     | Some d => d_content d +:+ DIARY_ROLLUP_SEPARATOR +:+ content
                     | None => content
                     end in
  if DAILY_ROLLUP_LIMIT_BYTES <? str_len new_content
  then throw (DailyRollupFull drawer_id DAILY_ROLLUP_LIMIT_BYTES (str_len new_content))
  else ret (MkPrepared drawer_id new_content room day (set_lock_wait (Some wait) one_chunk) (do_importance o)).

(** The row after the UPDATE of an upsert. *)
Definition upserted_row (d : Drawer) (old : Row) : Row :=
  let new := drawer_to_row d (r_project_id old) (r_source_root old) (Some (d_added_at d)) None
               (r_creation_operation_id old) in
  MkRow (r_content new) (r_wing new) (r_room new) (r_source_file new) (r_source_root old) (r_source_type new)
    (r_confidence new) (r_added_at new) (r_chunk_index new) (r_normalize_version new) (r_importance new)
    (r_project_id old) (r_content_hash new) (r_memory_kind new) (r_domain new) (r_field new) (r_anchor_kind new)
    (r_anchor_id new) (r_parent_anchor_id new) (r_provenance new) (r_statement new) (r_tier new) (r_status new)
    (r_supporting_refs new) (r_counterexample_refs new) (r_teaching_refs new) (r_verification_refs new)
    (r_scope_constraints new) (r_trigger_hints new) (r_is_pinned new) (r_pin_order new) (r_supersedes new)
    (r_valid_from new) None (r_effective_importance old) (r_creation_operation_id old) (r_deleted_at old)
    (r_updated_at old) (r_merge_count old) (r_stale_penalty_applied old) (r_compacted_into old).

(** The body of [upsert_drawer_and_replace_vector_fenced]. *)
Definition upsert_body (d : Drawer) (vector : list f32) (p : Palace) : Palace * result unit PalaceError :=
  match active_row (pl_db p) (d_id d) with
  | None =>
      let '(db, r) := insert_drawer (pl_db p) d in
      match r with
      | Err e => (with_db db p, Err (StoreFailed e))
      | Ok _ => insert_vector_with_project fingerprint (d_id d) vector None (with_db db p)
      end
  | Some row =>
      let new := upserted_row d row in
      if negb (check_constraints new) then (p, Err (StoreFailed ConstraintViolation))
      else
        let db := with_drawers (pl_db p) (<[d_id d := new]> (db_drawers (pl_db p))) in
        let p := with_vectors (pl_dim p) (delete (d_id d) (pl_vectors p)) (pl_fingerprints p) (with_db db p) in
        insert_vector_with_project fingerprint (d_id d) vector None p
  end.

Definition upsert_drawer_and_replace_vector_fenced (lease : option RuntimeWriterLease) (d : Drawer) (vector : list f32)
    (s : pstate) : pstate * result unit PalaceError :=
  match validate_anchor_domain (d_domain d) (d_anchor_kind d) with
  | Err message => (s, Err (StoreFailed (InvalidDrawerMetadata message)))
  | Ok _ => lease_transaction lease "upsert drawer and replace vector"
              (fun _ p => upsert_body d vector p) s
  end.

Definition diary_drawer (prepared : PreparedDiaryRollup) (added_at : string) : Drawer :=
  {| d_id := pd_drawer_id prepared; d_content := pd_content prepared; d_wing := DIARY_ROLLUP_WING;
     d_room := Some (pd_room prepared);
     d_source_file := Some ("agent-diary://rollup/" +:+ pd_room prepared +:+ "/" +:+ pd_day prepared);
     d_source_type := AgentObservation; d_confidence := default_confidence AgentObservation; d_added_at := added_at;
     d_chunk_index := Some 0; d_normalize_version := CURRENT_NORMALIZE_VERSION;
     d_importance := pd_importance prepared; d_memory_kind := Evidence; d_domain := DomainAgent; d_field := "diary";
     d_anchor_kind := AnchorRepo; d_anchor_id := "repo://agent-diary"; d_parent_anchor_id := None;
     d_provenance := Some Runtime; d_statement := None; d_tier := None; d_status := None; d_supporting_refs := [];
     d_counterexample_refs := []; d_teaching_refs := []; d_verification_refs := []; d_scope_constraints := None;
     d_trigger_hints := None; d_is_pinned := false; d_pin_order := None; d_supersedes := None;
     d_effective_importance := inject_Z (pd_importance prepared); d_compacted_into := None |}.

Definition commit_prepared_diary_rollup (lease : option RuntimeWriterLease) (prepared : PreparedDiaryRollup)
    (vector : list f32) : ing DiaryRollupOutcome :=
  let* secs := clock_secs in
  let* _ := map_err (InsertDrawer (pd_drawer_id prepared))
              (upsert_drawer_and_replace_vector_fenced lease (diary_drawer prepared (show secs)) vector) in
  ret (MkDiaryOutcome (pd_drawer_id prepared) (pd_stats prepared)).

Definition ingest_diary_rollup_fenced (lease : option RuntimeWriterLease) (lock : result Z SourceLockError)
    (content wing : string) (o : DiaryRollupOptions) : ing DiaryRollupOutcome :=
  if do_dry_run o then
    let* place := rollup_target wing o in
    ret (MkDiaryOutcome (diary_rollup_drawer_id place.1 place.2) one_chunk)
  else
    let* prepared := prepare_diary_rollup lock content wing o in
    match embed embedder [pd_content prepared] with
    | Err message => throw (EmbedChunks message)
    | Ok [] => throw (EmbedderReturnedNoVector (pd_drawer_id prepared))
    | Ok (vector :: _) => commit_prepared_diary_rollup lease prepared vector
    end.

(** ** A file *)
Definition is_conversation (f : Format) : bool := match f with PlainText => false | _ => true end.

(** The chunker never runs out of fuel; its counters of hard splits are reports. *)
Definition cut (format : Format) (scrubbed source_display : string) : list string :=
  let stats := Build_ChunkerStats 0 None in
  let cuts := if is_conversation format
              then chunk_conversation_token_aware (decode_str scrubbed) (cf_chunker config) tokens (Some source_display) stats
              else chunk_text_token_aware (decode_str scrubbed) (cf_chunker config) tokens (Some source_display) stats in
  encode_str <$> default [] (fst <$> cuts).

Definition one_file : IngestStats := MkStats 1 0 0 0 [] [] None None None.

Definition of_parts {A} (f : string → IngestError) (r : result A string) : ing A :=
  of_result (match r with Ok a => Ok a | Err message => Err (f message) end).

(** The drawers this source had before, when it replaces them. *)
Definition replace_body (source_file wing room : string) (options : IngestOptions) (source_root : option string)
    (_ : access_answers) : Palace → Palace * result Z PalaceError :=
  if io_replace_across_rooms options
  then replace_active_source_drawers_across_rooms_tx source_file wing (io_project_id options) source_root
  else replace_active_source_drawers_tx source_file wing (Some room) (io_project_id options) source_root.

Definition replace_source (lease : option RuntimeWriterLease) (source_file wing room : string) (options : IngestOptions)
    (source_root : option string) : ing unit :=
  if io_replace_existing_source options && negb (io_dry_run options) then
    let* _ := map_err (ReplaceSource source_file)
      (lease_transaction lease "replace source drawers"
         (replace_body source_file wing room options source_root)) in
    ret tt
  else ret tt.

Definition resolve_target (wing room : string) (options : IngestOptions) : ing (option string) :=
  fun s =>
    let '(s, r) := query (fun _ p => resolve_replacement_target (pl_db p) (io_supersedes options)
                                         (scrub <$> io_replace_text options) wing (Some room) (io_project_id options)) s in
    (s, match r with Ok t => Ok (s_id <$> t) | Err e => Err (ResolveReplacement e) end).

(** From the chunks on: the lock, the replacement, the target, the chunks. *)
Definition ingest_cut (lease : option RuntimeWriterLease) (input : source_input) (path : list string)
    (wing room : string) (options : IngestOptions) (raw_turn : bool) (importance : Z) (chunks : list string)
    (noise : option Z) : ing IngestStats :=
  let source_file := default (normalize_source_file path (io_source_root options)) (io_source_file_override options) in
  let* source_root :=
    if io_dry_run options then ret None
    else match io_source_root options with
         | None => ret None
         | Some _ => let* root := of_parts CanonicalizeSourceRoot (sr_root input) in ret (Some root)
         end in
  let* wait :=
    if io_dry_run options then ret None
    else let* ms := of_result (match sr_lock input with Ok ms => Ok ms | Err e => Err (IngestLocked e) end) in
         ret (Some ms) in
  let source_type := default AgentInference (io_source_type options) in
  let confidence := default (default_confidence source_type) (io_confidence options) in
  let* _ := replace_source lease source_file wing room options source_root in
  let* target := resolve_target wing room options in
  ingest_chunks lease wing room options raw_turn source_type confidence target source_file source_root importance
    chunks (set_lock_wait wait (set_noise noise one_file)).

Definition ingest_file (lease : option RuntimeWriterLease) (input : source_input) (path : list string) (wing : string)
    (options : IngestOptions) : ing IngestStats :=
  let* _ := of_parts ReadFile (sr_read input) in
  let* parsed := of_parts ParseFailed (sr_parsed input) in
  if is_empty (Text.trim parsed.1) then ret one_file
  else
    let* normalized := of_parts NormalizeFailed (sr_normalized input (negb (io_no_strip_noise options))) in
    let scrubbed := scrub normalized.1 in
    let noise := normalized.2 in
    if io_diary_rollup options then
      let* outcome := ingest_diary_rollup_fenced lease (sr_lock input) scrubbed wing
                        (MkDiaryOptions (io_room options) (io_diary_rollup_day options) (io_dry_run options) 0) in
      ret (set_noise noise (dr_stats outcome))
    else
      let room := match io_room options with Some room => room | None => route_room_from_taxonomy scrubbed wing end in
      let turns := cf_turns config in
      let raw_turn := is_raw_turn wing (Some room) (io_memory_kind options) (tp_turns turns) in
      if raw_turn && negb (should_store_raw_turns (tp_storage_mode turns))
      then ret (set_noise noise (add_skipped one_file))
      else
        let importance := default 0 (raw_turn_importance wing (Some room) (io_memory_kind options) turns) in
        match cut parsed.2 scrubbed (path_text path) with
        | [] => ret one_file
        | chunks => ingest_cut lease input path wing room options raw_turn importance chunks noise
        end.

(** ** A directory

    An entry as the walk finds it: a file with what the pipeline reads of it, a
    directory with its listing, or something else. *)
#[local] Unset Elimination Schemes.
Inductive entry :=
  | EFile (path : list string) (input : source_input)
  | EDir (path : list string) (listing : result (list (result entry string)) string)
  | EOther.

Definition merge_stats (stats file : IngestStats) : IngestStats :=
  MkStats (is_files stats + is_files file) (is_chunks stats + is_chunks file) (is_skipped stats + is_skipped file)
    (is_dropped_by_gate stats + is_dropped_by_gate file) (is_drawer_ids stats ++ is_drawer_ids file)%list
    (is_fact_check_warnings stats) (merge_optional_sum (is_noise_bytes_stripped stats) (is_noise_bytes_stripped file))
    (match is_superseded_drawer_id stats with Some id => Some id | None => is_superseded_drawer_id file end)
    (is_lock_wait_ms stats).

Section walk.
Context (lease : option RuntimeWriterLease) (wing : string) (options : IngestOptions).

(** One listing: the files as they come, the directories pushed on the stack. *)
Fixpoint walk_entries (dir : list string) (entries : list (result entry string)) (stack : list entry)
    (stats : IngestStats) : ing (list entry * IngestStats) :=
  match entries with
  | [] => ret (stack, stats)
  | Err message :: _ => throw (ReadDirEntry (path_text dir) message)
  | Ok e :: entries =>
      match e with
      | EDir path listing =>
          walk_entries dir entries (if should_skip_dir path then stack else e :: stack) stats
      | EFile path input =>
          let* file_stats := ingest_file lease input path wing options in
          walk_entries dir entries stack (merge_stats stats file_stats)
      | EOther => walk_entries dir entries stack stats
      end
  end.

Fixpoint walk (fuel : nat) (stack : list entry) (stats : IngestStats) : ing (option IngestStats) :=
  match stack with
  | [] => ret (Some stats)
  | e :: stack =>
      match fuel with
      | O => ret None
      | S fuel =>
          match e with
          | EDir path (Err message) => throw (ReadDir (path_text path) message)
          | EDir path (Ok entries) =>
              let* next := walk_entries path entries stack stats in
              walk fuel next.1 next.2
          | _ => walk fuel stack stats
          end
      end
  end.

(** Directories below and at an entry. *)
Fixpoint dir_count (e : entry) : nat :=
  match e with
  | EDir _ (Ok entries) =>
      S (list_sum (map (fun r => match r with Ok e => dir_count e | Err _ => 0%nat end) entries))
  | EDir _ (Err _) => 1
  | _ => 0
  end.

Definition ingest_dir (dir : entry) : ing (option IngestStats) := walk (dir_count dir) [dir] stats_default.
End walk.
End pipeline.
