(* ===== verification/IngestSafety.v ===== *)
(** * What an ingestion can and cannot do

    The three kinds of fenced writes and the pipeline over them, whatever the other
    processes do between two accesses: which properties of the database it keeps,
    that it stores only what the gate accepted, and that it stops once its writer
    lease is lost. *)

From Stdlib Require Import ZArith QArith Lia String Ascii SpecFloat.
From stdpp Require Import base tactics list gmap strings numbers sets.
From S2P Require Import Prelude Order Text Float Rfc3339 Sqlite ProcessIdentity WriterLease SqliteRetry WriteReserve.
From S2P Require Import Chars Aaak AaakCodec Utf8 Drawer DrawerStore Knowledge Chunk FactCheck Gating Search.
From S2P Require Import CoworkCapture Palace Ingest.
Close Scope Q_scope.
Open Scope Z_scope.
Open Scope rust_scope.
Open Scope ingest_scope.

(** ** Fenced writes *)
Section writes.
Context {PE : PalaceEnv} {JT : JsonText}.

(** The tables an access finds. *)
Definition found (s : pstate) : lease_db * Palace := other (ps_access s) (ps_tables s).

(** Whether the fence of an access lets its lease pass. *)
Definition fence_open (lease : option RuntimeWriterLease) (s : pstate) : bool :=
  match lease with
  | None => true
  | Some l =>
      let a := answers (ps_access s) in
      lease_row_active (ca_fence_ms a) (rl_name l) (rl_owner l) (rl_session_id l) (rl_generation l)
        (runtime_writer_lease_cleanup_expired_tx blake3_hex (ca_sys a) (ca_own a) true (ca_cleanup_ms a) (found s).1).1
  end.

(** The outcome of an atomic write: nothing but what others did, or the body ran once
    to its end with the fence open. *)
Definition atomic_outcome {T} (lease : option RuntimeWriterLease) (b : @body T) (s s' : pstate)
    (r : result T PalaceError) : Prop :=
  ps_access s' = S (ps_access s) ∧
  match r with
  | Err _ => ps_tables s' = found s
  | Ok v => fence_open lease s = true ∧ b (answers (ps_access s)) (found s).2 = (ps_palace s', Ok v)
  end.

Lemma fenced_body_ok {T} lease operation (b : @body T) s t v :
  let a := answers (ps_access s) in
  fenced_body blake3_hex FenceFailed (ca_sys a) (ca_own a) lease operation (ca_cleanup_ms a) (ca_fence_ms a)
    (on_tables b a) (found s) = (t, Ok v) →
  fence_open lease s = true ∧ b a (found s).2 = (t.2, Ok v).
Proof.
  intros a. unfold fenced_body, fence_open, require_runtime_writer_lease_tx, on_tables. fold a.
  destruct lease as [l|].
  - destruct (lease_row_active _ _ _ _ _ _); [|done]. cbn. destruct (b a (found s).2) as [p r]. intros [= <- <-]. by split.
  - destruct (b a (found s).2) as [p r]. intros [= <- <-]. by split.
Qed.

Lemma lease_transaction_cases {T} lease operation (b : @body T) s :
  let '(s', r) := lease_transaction lease operation b s in
  atomic_outcome lease b s s' r ∧ ps_reserve s' = ps_reserve s.
Proof.
  unfold lease_transaction, begin_access, with_runtime_writer_lease_transaction. cbn. fold (found s).
  destruct (ca_begun _ _); [|by split].
  destruct (fenced_body _ _ _ _ _ _ _ _ _ _) as [t [v|e]] eqn:E; [|by split].
  destruct (ca_committed _ _); [|by split]. apply fenced_body_ok in E. done.
Qed.

Lemma lease_write_retry_cases {T} lease operation (b : @body T) s :
  let '(s', r) := lease_write_retry lease operation b s in
  atomic_outcome lease b s s' r.
Proof.
  unfold lease_write_retry, begin_access. cbn [ps_access ps_reserve ps_tables]. fold (found s). set (a := answers (ps_access s)).
  destruct (reserve_retry_cases error_chain_of ReserveLocked FenceFailed (ca_removed a) (ca_parent_synced a)
              (ca_begun a) (ca_committed a)
              (fun _ => fenced_body blake3_hex FenceFailed (ca_sys a) (ca_own a) lease operation (ca_cleanup_ms a)
                          (ca_fence_ms a) (on_tables b a)) (ca_reserve_lock a) (ps_reserve s, found s))
    as ([res t] & r & -> & Hr). cbn in Hr |- *. split; [done|]. destruct r as [v|e]; [|done].
  destruct Hr as [[Hr _]|[Hr _]]; by apply fenced_body_ok in Hr.
Qed.

(** [lease_write] without a lease runs outside a transaction: the body's changes stay. *)
Lemma lease_write_cases {T} lease operation (b : @body T) s :
  let '(s', r) := lease_write lease operation b s in
  match lease with
  | Some _ => atomic_outcome lease b s s' r
  | None => ps_access s' = S (ps_access s) ∧ b (answers (ps_access s)) (found s).2 = (ps_palace s', r)
  end.
Proof.
  destruct lease as [l|].
  - pose proof (lease_transaction_cases (Some l) operation b s) as H.
    change (lease_transaction (Some l) operation b s)
      with (lease_write (Some l) operation b s) in H.
    destruct (lease_write _ _ _ _) as [s' r]. apply H.
  - unfold lease_write, begin_access, with_runtime_writer_lease_write, on_tables. cbn. fold (found s).
    by destruct (b _ _) as [p r].
Qed.

(** ** Properties that every access keeps *)
Section invariant.
Context (I : lease_db * Palace → Prop) (others : ∀ n t, I t → I (other n t)).

Definition keeps {A} (m : ing A) : Prop := ∀ s, I (ps_tables s) → I (ps_tables (m s).1).

Lemma found_keeps s : I (ps_tables s) → I (found s).
Proof. apply others. Qed.

Lemma query_keeps {A B} (f : access_answers → Palace → A) (g : A → result B IngestError) :
  keeps (fun s => let '(s, a) := query f s in (s, g a)).
Proof. intros s Hs. cbn. by apply found_keeps. Qed.

Lemma bind_keeps {A B} (m : ing A) (k : A → ing B) : keeps m → (∀ a, keeps (k a)) → keeps (bind m k).
Proof.
  intros Hm Hk s Hs. specialize (Hm s Hs). unfold bind. destruct (m s) as [s' [a|e]]; [by apply Hk|done].
Qed.

Lemma ret_keeps {A} (a : A) : keeps (ret a).
Proof. by intros s. Qed.

Lemma throw_keeps {A} e : keeps (A := A) (throw e).
Proof. by intros s. Qed.

Lemma of_result_keeps {A} (r : result A IngestError) : keeps (of_result r).
Proof. by intros s. Qed.

Lemma map_err_keeps {A E} (f : E → IngestError) (m : pstate → pstate * result A E) :
  (∀ s, I (ps_tables s) → I (ps_tables (m s).1)) → keeps (map_err f m).
Proof. intros Hm s Hs. specialize (Hm s Hs). unfold map_err. by destruct (m s). Qed.
End invariant.

(** A property of the palace is kept by every write whose body keeps it. *)
Section bodies.
Context (I : Palace → Prop) (others : ∀ n t, I t.2 → I (other n t).2).

Definition body_keeps {T} (b : @body T) : Prop := ∀ a p, I p → I (b a p).1.

Lemma atomic_keeps {T} lease (b : @body T) s s' r :
  atomic_outcome lease b s s' r → body_keeps b → I (ps_palace s) → I (ps_palace s').
Proof.
  intros [_ H] Hb Hs. specialize (Hb (answers (ps_access s)) _ (others (ps_access s) (ps_tables s) Hs)). destruct r as [v|e].
  - destruct H as [_ H]. unfold found in H. by rewrite H in Hb.
  - unfold ps_palace. rewrite H. by apply others.
Qed.

Lemma lease_transaction_keeps {T} lease operation (b : @body T) s :
  body_keeps b → I (ps_palace s) → I (ps_palace (lease_transaction lease operation b s).1).
Proof.
  intros Hb Hs. pose proof (lease_transaction_cases lease operation b s) as H.
  destruct (lease_transaction _ _ _ _) as [s' r]. by eapply atomic_keeps; [apply H|..].
Qed.

Lemma lease_write_retry_keeps {T} lease operation (b : @body T) s :
  body_keeps b → I (ps_palace s) → I (ps_palace (lease_write_retry lease operation b s).1).
Proof.
  intros Hb Hs. pose proof (lease_write_retry_cases lease operation b s) as H.
  destruct (lease_write_retry _ _ _ _) as [s' r]. by eapply atomic_keeps; [apply H|..].
Qed.

Lemma lease_write_keeps {T} lease operation (b : @body T) s :
  body_keeps b → I (ps_palace s) → I (ps_palace (lease_write lease operation b s).1).
Proof.
  intros Hb Hs. pose proof (lease_write_cases lease operation b s) as H.
  destruct (lease_write _ _ _ _) as [s' r]. destruct lease as [l|]; [by eapply atomic_keeps; [apply H|..]|].
  specialize (Hb (answers (ps_access s)) _ (others (ps_access s) (ps_tables s) Hs)). destruct H as [_ H]. unfold found in H. by rewrite H in Hb.
Qed.
End bodies.
End writes.

(** ** The pipeline keeps what its writes keep *)
Section traversal.
Context `{StoreEnv} {SE : SearchEnv} {CE : CodecEnv} {PE : PalaceEnv} {JT : JsonText} {IE : IngestEnv}.
Context (I : lease_db * Palace → Prop) (others : ∀ n t, I t → I (other n t)).
Context (lease : option RuntimeWriterLease) (permitted : ∀ T, @body T → Prop).
Context (tx_keeps : ∀ T op (b : @body T) s, permitted T b → I (ps_tables s) →
                      I (ps_tables (lease_transaction lease op b s).1)).
Context (retry_keeps : ∀ T op (b : @body T) s, permitted T b → I (ps_tables s) →
                         I (ps_tables (lease_write_retry lease op b s).1)).
Context (write_keeps : ∀ T op (b : @body T) s, permitted T b → I (ps_tables s) →
                         I (ps_tables (lease_write lease op b s).1)).
Context (p_audit : ∀ hash d project content, permitted unit (record_gating_audit_tx explain hash d project content)).
Context (p_pin : ∀ id, permitted bool (pin_body id None)).
Context (p_signal : ∀ op id, permitted unit (signal_body op id)).
Context (p_supersede : ∀ id by_id, permitted unit (supersede_body id by_id)).

Lemma audit_keeps hash d project content op s :
  I (ps_tables s) → I (ps_tables (record_gating_audit_fenced explain lease hash d project content op s).1).
Proof. unfold record_gating_audit_fenced. destruct lease; [by apply retry_keeps|by apply tx_keeps]. Qed.

Lemma fact_check_keeps hash chunk project cfg conf s :
  I (ps_tables s) → I (ps_tables (evaluate_fact_check_gate lease hash chunk project cfg conf s).1).
Proof.
  intros Hs. unfold evaluate_fact_check_gate. destruct (negb _); [done|]. cbn.
  match goal with |- context [record_gating_audit_fenced _ _ ?h ?d ?p ?c ?op ?s1] =>
    pose proof (audit_keeps h d p c op s1 (found_keeps I others s Hs)) as Hk end.
  by destruct (record_gating_audit_fenced _ _ _ _ _ _ _ _).
Qed.

Section options.
Context (wing room : string) (options : IngestOptions) (raw_turn : bool) (source_type : SourceType) (confidence : Q).
Context (target : option string).

Lemma gate_keeps gating chunk id : keeps I (gate_chunk lease options raw_turn confidence gating chunk id).
Proof.
  unfold gate_chunk. apply bind_keeps.
  - destruct (gating_decision _ _ _); [|apply ret_keeps]. apply map_err_keeps. intros s. apply audit_keeps.
  - intros _. destruct (match gating_decision options gating chunk with Some d => is_rejected d | None => false end);
      [apply ret_keeps|].
    destruct raw_turn; [apply ret_keeps|]. apply bind_keeps; [|intros; apply ret_keeps].
    apply map_err_keeps. intros s. apply fact_check_keeps.
Qed.

Lemma check_chunk_keeps chunk :
  keeps I (check_chunk lease wing room options raw_turn source_type confidence target chunk).
Proof.
  unfold check_chunk. apply bind_keeps; [by apply query_keeps|]. intros [existing|].
  - apply bind_keeps; [|intros; apply ret_keeps]. destruct (io_is_pinned options); [|apply ret_keeps].
    apply map_err_keeps. intros s. by apply tx_keeps.
  - apply bind_keeps; [by apply query_keeps|]. intros id. apply bind_keeps; [by apply query_keeps|]. intros []; [apply ret_keeps|].
    destruct (io_dry_run options); [apply ret_keeps|]. destruct (io_gating options); [apply gate_keeps|apply ret_keeps].
Qed.

(** What the gate has let through. *)
Definition accepted_chunk (chunk : string) : Prop :=
  match io_gating options with
  | None => True
  | Some gating =>
      (∀ d, gating_decision options gating chunk = Some d → is_rejected d = false)
      ∧ (raw_turn = true ∨ fc_enabled (ig_fact_check gating) = false
         ∨ ∃ n t, I t ∧ is_rejected (fo_decision (fact_check_outcome (ig_fact_check gating) confidence chunk
                                            (answers n) (other n t).2)) = false)
  end.

Lemma fact_check_outcome_seen hash chunk project cfg conf s s' r :
  evaluate_fact_check_gate lease hash chunk project cfg conf s = (s', Ok r) → I (ps_tables s) →
  match r with
  | None => fc_enabled cfg = false
  | Some o => ∃ n t, I t ∧ o = fact_check_outcome cfg conf chunk (answers n) (other n t).2
  end.
Proof.
  unfold evaluate_fact_check_gate. destruct (fc_enabled cfg) eqn:Ef; cbn; [|by intros [= <- <-]].
  destruct (record_gating_audit_fenced _ _ _ _ _ _ _ _) as [s1 [v|e]]; [|done]. intros [= <- <-] Hs.
  by exists (ps_access s), (ps_tables s).
Qed.

Lemma gate_pending gating chunk id s s' id' w :
  io_gating options = Some gating → I (ps_tables s) →
  gate_chunk lease options raw_turn confidence gating chunk id s = (s', Ok (Pending id' w)) → accepted_chunk chunk.
Proof.
  intros Hg Hs. unfold accepted_chunk. rewrite Hg. unfold gate_chunk, bind.
  set (audit := match gating_decision options gating chunk with Some d => _ | None => _ end).
  assert (Ha : keeps I audit).
  { unfold audit. destruct (gating_decision _ _ _); [|apply ret_keeps]. apply map_err_keeps. intros x. apply audit_keeps. }
  specialize (Ha s Hs). destruct (audit s) as [s1 [v|e]]; [|done].
  destruct (match gating_decision options gating chunk with Some d => is_rejected d | None => false end) eqn:Ed; [done|].
  intros Hp. split. { intros d Hd. by rewrite Hd in Ed. }
  destruct raw_turn; [by left|]. right. revert Hp. unfold map_err.
  destruct (evaluate_fact_check_gate _ _ _ _ _ _ _) as [s2 [o|e]] eqn:Ef; [|done].
  apply fact_check_outcome_seen in Ef; [|done]. destruct o as [o|]; cbn; [|by left].
  destruct (is_rejected (fo_decision o)) eqn:Er; [done|]. intros _. right. destruct Ef as (n & t & Ht & ->). by exists n, t.
Qed.

Lemma check_pending chunk s s' id w :
  I (ps_tables s) →
  check_chunk lease wing room options raw_turn source_type confidence target chunk s = (s', Ok (Pending id w)) →
  accepted_chunk chunk.
Proof.
  intros Hs. unfold check_chunk, bind. cbn [query begin_access].
  destruct (List.find _ _) as [existing|].
  { unfold map_err, ret. destruct (io_is_pinned options); [destruct (pin_drawer_fenced _ _ _ _) as [? []]|]; done. }
  destruct (resolve_available_drawer_id _ _) as [id'|]; [|done]. destruct (drawer_exists _ _); [done|].
  destruct (io_dry_run options); [done|]. destruct (io_gating options) as [gating|] eqn:Eg.
  - apply gate_pending; [done|]. cbn. by do 3 apply others.
  - intros _. unfold accepted_chunk. by rewrite Eg.
Qed.

Lemma check_chunks_keeps index chunks pending stats :
  keeps I (check_chunks lease wing room options raw_turn source_type confidence target index chunks pending stats).
Proof.
  revert index pending stats. induction chunks as [|chunk chunks IH]; intros index pending stats; cbn [check_chunks];
    [apply ret_keeps|]. apply bind_keeps; [apply check_chunk_keeps|]. intros v. apply IH.
Qed.

Lemma check_chunks_accepted all index chunks pending stats s s' pending' stats' :
  I (ps_tables s) → chunks ⊆ all → Forall (fun p : pending_chunk => p.1.2 ∈ all ∧ accepted_chunk p.1.2) pending →
  check_chunks lease wing room options raw_turn source_type confidence target index chunks pending stats s
  = (s', Ok (pending', stats')) →
  Forall (fun p : pending_chunk => p.1.2 ∈ all ∧ accepted_chunk p.1.2) pending'.
Proof.
  revert index pending stats s. induction chunks as [|chunk chunks IH]; intros index pending stats s Hs Hall Hp;
    cbn [check_chunks].
  - by intros [= <- <- <-].
  - unfold bind at 1. pose proof (check_chunk_keeps chunk s Hs) as Hk.
    destruct (check_chunk _ _ _ _ _ _ _ _ chunk s) as [s1 [v|e]] eqn:Ec; [|done]. apply IH; [done|set_solver|].
    destruct v; [done..|]. apply check_pending in Ec; [|done]. apply Forall_app_2; [done|].
    constructor; [|constructor]. split; [set_solver|done].
Qed.

(** *** Storing *)
Section storing.
Context (p_vector : ∀ id v, permitted unit (vector_body options id v)).
Context (all : list string).
Context (p_insert : ∀ root d, d_content d ∈ all → accepted_chunk (d_content d) → permitted unit (insert_body options root d)).

Lemma new_drawer_content source_file added_at importance (p : pending_chunk) :
  d_content (new_drawer wing room options source_type confidence target source_file added_at importance p) = p.1.2.
Proof. destruct p as [[i chunk] id]. unfold new_drawer. by destruct target. Qed.

Lemma store_chunk_keeps source_file root importance (p : pending_chunk) vector :
  p.1.2 ∈ all → accepted_chunk p.1.2 →
  keeps I (store_chunk lease wing room options source_type confidence target source_file root importance p vector).
Proof.
  intros Hall Hacc. unfold store_chunk. apply bind_keeps; [by intros s|]. intros added_at.
  apply bind_keeps.
  { apply map_err_keeps. intros s. apply retry_keeps. apply p_insert; by rewrite new_drawer_content. }
  intros _. apply bind_keeps. { apply map_err_keeps. intros s. by apply retry_keeps. }
  intros _. apply bind_keeps.
  2: intros _. all: unfold record_signal.
  1: destruct (cf_repair_enabled config). 3: destruct (cf_patterns_enabled config).
  all: try apply ret_keeps; apply map_err_keeps; intros s; by apply write_keeps.
Qed.

Lemma store_chunks_keeps source_file root importance items stats :
  Forall (fun i : pending_chunk * list f32 => i.1.1.2 ∈ all ∧ accepted_chunk i.1.1.2) items →
  keeps I (store_chunks lease wing room options source_type confidence target source_file root importance items stats).
Proof.
  intros Hi. revert stats. induction Hi as [|[p v] items [Hall Hacc] Hi IH]; intros stats; cbn [store_chunks]; [apply ret_keeps|].
  apply bind_keeps; [by apply store_chunk_keeps|]. intros _. apply IH.
Qed.

Lemma supersede_keeps stats : keeps I (supersede_after_successful_replacement lease target stats).
Proof.
  unfold supersede_after_successful_replacement. destruct target; [|apply ret_keeps].
  destruct (head _); [|apply ret_keeps]. apply bind_keeps; [|intros; apply ret_keeps].
  apply map_err_keeps. intros x. by apply write_keeps.
Qed.

Lemma embed_keeps pending : keeps I (embed_pending pending).
Proof.
  unfold embed_pending. destruct (embed _ _) as [vectors|e]; [|apply throw_keeps].
  destruct (mixed_width _) as [[]|]; [apply throw_keeps|]. destruct vectors; [apply ret_keeps|].
  apply bind_keeps; [by apply query_keeps|]. intros [d|]; [|apply ret_keeps]. destruct (negb _); [apply throw_keeps|apply ret_keeps].
Qed.

Lemma zip_accepted (pending : list pending_chunk) (vectors : list (list f32)) :
  Forall (fun p : pending_chunk => p.1.2 ∈ all ∧ accepted_chunk p.1.2) pending →
  Forall (fun i : pending_chunk * list f32 => i.1.1.2 ∈ all ∧ accepted_chunk i.1.1.2) (zip pending vectors).
Proof.
  intros Hp. revert vectors. induction Hp as [|p pending Hp' Hp IH]; intros [|v vectors]; cbn; [constructor..|].
  by constructor.
Qed.

Lemma ingest_chunks_keeps source_file root importance chunks stats :
  chunks ⊆ all →
  keeps I (ingest_chunks lease wing room options raw_turn source_type confidence target source_file root importance
             chunks stats).
Proof.
  intros Hall s Hs. unfold ingest_chunks, bind at 1.
  pose proof (check_chunks_keeps 0 chunks [] stats s Hs) as Hk.
  destruct (check_chunks _ _ _ _ _ _ _ _ 0 chunks [] stats s) as [s1 [[pending stats']|e]] eqn:Ec; [|done].
  apply (check_chunks_accepted all) in Ec; [|done..|constructor]. revert s1 Hk. change (keeps I (finish lease wing room
    options source_type confidence target source_file root importance pending stats')).
  unfold finish. destruct (io_dry_run options); [apply ret_keeps|].
  destruct pending as [|p pending]; [apply supersede_keeps|].
  apply bind_keeps; [apply embed_keeps|]. intros vectors. apply bind_keeps; [|intros; apply supersede_keeps].
  apply store_chunks_keeps. by apply zip_accepted.
Qed.
End storing.
End options.

(** *** The whole file *)
Definition options_confidence (options : IngestOptions) : Q :=
  default (default_confidence (default AgentInference (io_source_type options))) (io_confidence options).

(** The chunks of a file, when it is read so far. *)
Definition source_chunks (input : source_input) (path : list string) (options : IngestOptions) : list string :=
  match sr_parsed input, sr_normalized input (negb (io_no_strip_noise options)) with
  | Ok parsed, Ok normalized => cut parsed.2 (scrub normalized.1) (path_text path)
  | _, _ => []
  end.

(** Whether a chunk stored in this room is a raw turn. *)
Definition stored_as_turn (wing room : string) (options : IngestOptions) : bool :=
  is_raw_turn wing (Some room) (io_memory_kind options) (tp_turns (cf_turns config)).

Section file.
Context (input : source_input) (path : list string) (wing : string) (options : IngestOptions).
Context (p_vector : ∀ id v, permitted unit (vector_body options id v)).
Context (p_replace : ∀ source_file room root, permitted Z (replace_body source_file wing room options root)).
Context (p_insert : ∀ root d room, d_content d ∈ source_chunks input path options →
           accepted_chunk options (stored_as_turn wing room options) (options_confidence options) (d_content d) →
           permitted unit (insert_body options root d)).
Context (p_upsert : io_diary_rollup options = true → ∀ d v, permitted unit (fun _ p => upsert_body d v p)).

Lemma ingest_cut_keeps room importance noise :
  keeps I (ingest_cut lease input path wing room options (stored_as_turn wing room options) importance (source_chunks input path options) noise).
Proof.
  unfold ingest_cut. apply bind_keeps.
  { destruct (io_dry_run options); [apply ret_keeps|]. destruct (io_source_root options); [|apply ret_keeps].
    apply bind_keeps; [apply of_result_keeps|]. intros; apply ret_keeps. }
  intros root. apply bind_keeps.
  { destruct (io_dry_run options); [apply ret_keeps|]. apply bind_keeps; [apply of_result_keeps|intros; apply ret_keeps]. }
  intros wait. apply bind_keeps.
  { unfold replace_source. destruct (_ && _); [|apply ret_keeps].
    apply bind_keeps; [|intros; apply ret_keeps]. apply map_err_keeps. intros s. by apply tx_keeps. }
  intros _. apply bind_keeps; [by apply query_keeps|]. intros target.
  apply (ingest_chunks_keeps wing room options (stored_as_turn wing room options) _ _ target p_vector (source_chunks input path options));
    [|done]. intros r d Hin Hacc. by apply (p_insert r d room).
Qed.

Lemma clock_keeps : keeps I clock_secs.
Proof. by intros s. Qed.

Lemma rollup_target_keeps o : keeps I (rollup_target wing o).
Proof.
  unfold rollup_target. destruct (negb _); [apply throw_keeps|]. destruct (rollup_room o); [|apply throw_keeps].
  apply bind_keeps; [apply clock_keeps|intros; apply ret_keeps].
Qed.

Lemma prepare_keeps lock content o : keeps I (prepare_diary_rollup lock content wing o).
Proof.
  unfold prepare_diary_rollup. apply bind_keeps; [apply rollup_target_keeps|]. intros [r day].
  apply bind_keeps; [apply of_result_keeps|]. intros wait. apply bind_keeps; [by apply query_keeps|]. intros existing.
  destruct (_ <? _); [apply throw_keeps|apply ret_keeps].
Qed.

Lemma diary_keeps content o :
  io_diary_rollup options = true → keeps I (ingest_diary_rollup_fenced lease (sr_lock input) content wing o).
Proof.
  intros Hd. unfold ingest_diary_rollup_fenced. destruct (do_dry_run o).
  { apply bind_keeps; [apply rollup_target_keeps|intros; apply ret_keeps]. }
  apply bind_keeps; [apply prepare_keeps|].
  - intros prepared. destruct (embed _ _) as [[|v vs]|e]; [apply throw_keeps| |apply throw_keeps].
    unfold commit_prepared_diary_rollup. apply bind_keeps; [apply clock_keeps|]. intros secs.
    apply bind_keeps; [|intros; apply ret_keeps]. apply map_err_keeps. intros s Hs.
    unfold upsert_drawer_and_replace_vector_fenced. destruct (validate_anchor_domain _ _); [|done]. by apply tx_keeps; auto.
Qed.

Lemma ingest_file_keeps : keeps I (ingest_file lease input path wing options).
Proof.
  pose proof diary_keeps as Hdiary. pose proof ingest_cut_keeps as Hcut.
  unfold ingest_file. apply bind_keeps; [apply of_result_keeps|]. intros _.
  intros s Hs. unfold bind at 1, of_parts at 1, of_result at 1.
  destruct (sr_parsed input) as [[content format]|e] eqn:Ep; [|done]. cbn [fst snd].
  revert s Hs. destruct (is_empty _); [apply ret_keeps|].
  intros s Hs. unfold bind at 1, of_parts at 1, of_result at 1.
  destruct (sr_normalized input _) as [[normalized noise]|e] eqn:En; [|done]. cbn [fst snd].
  revert s Hs. destruct (io_diary_rollup options) eqn:Ed.
  { apply bind_keeps; [by apply Hdiary|intros; apply ret_keeps]. }
  destruct (_ && _); [apply ret_keeps|].
  assert (Hc : cut format (scrub normalized) (path_text path) = source_chunks input path options).
  { unfold source_chunks. by rewrite Ep, En. }
  rewrite Hc. destruct (source_chunks input path options) eqn:Es; [apply ret_keeps|]. apply Hcut.
Qed.
End file.
End traversal.
