(* ===== verification/IngestStory.v ===== *)
(** * The ingest pipeline's promises

    A lost writer lease stops it, only accepted chunks are stored, a dry run changes
    nothing; a file that was ingested is complete, and ingesting it again changes
    nothing. *)

From Stdlib Require Import ZArith QArith Lia String Ascii SpecFloat.
From stdpp Require Import base tactics list gmap strings numbers sets.
From S2P Require Import Prelude Order Text Float Rfc3339 Sqlite ProcessIdentity WriterLease SqliteRetry WriteReserve.
From S2P Require Import Chars Aaak AaakCodec Utf8 Drawer DrawerStore Knowledge Chunk FactCheck Gating Search.
From S2P Require Import CoworkCapture Palace Ingest IngestSafety.
Close Scope Q_scope.
Open Scope Z_scope.
Open Scope rust_scope.
Open Scope ingest_scope.

Lemma bind_ok {A B} (m : ing A) (k : A → ing B) s s' b :
  bind m k s = (s', Ok b) → ∃ s1 a, m s = (s1, Ok a) ∧ k a s1 = (s', Ok b).
Proof. unfold bind. destruct (m s) as [s1 [a|e]]; [|done]. eauto. Qed.

(** ** A lost lease *)
Section lost.
Context `{StoreEnv} {SE : SearchEnv} {CE : CodecEnv} {PE : PalaceEnv} {JT : JsonText} {IE : IngestEnv}.
Context (l : RuntimeWriterLease) (J : lease_db → Prop).

(** In tables that satisfy [J] the fence finds the lease inactive at every access. *)
Definition lease_lost : Prop :=
  ∀ n db, J db →
    let a := answers n in
    lease_row_active (ca_fence_ms a) (rl_name l) (rl_owner l) (rl_session_id l) (rl_generation l)
      (runtime_writer_lease_cleanup_expired_tx blake3_hex (ca_sys a) (ca_own a) true (ca_cleanup_ms a) db).1 = false.

Context (J_others : ∀ n t, J t.1 → J (other n t).1) (lost : lease_lost).
Context (I : Palace → Prop) (I_others : ∀ n t, J t.1 → I t.2 → I (other n t).2).

Definition K (t : lease_db * Palace) : Prop := J t.1 ∧ I t.2.

Lemma K_others n t : K t → K (other n t).
Proof. intros [HJ HI]. split; auto. Qed.

Lemma fence_shut s : K (ps_tables s) → fence_open (Some l) s = false.
Proof. intros [HJ _]. apply (lost (ps_access s)). by apply J_others. Qed.

(** A write under the lost lease fails and leaves what others did. *)
Definition refused {T} (w : string → @body T → pstate → pstate * result T PalaceError) : Prop :=
  ∀ op b s, K (ps_tables s) → K (ps_tables (w op b s).1) ∧ ∃ e, (w op b s).2 = Err e.

Lemma atomic_refused {T} (b : @body T) s s' r :
  atomic_outcome (Some l) b s s' r → K (ps_tables s) → K (ps_tables s') ∧ ∃ e, r = Err e.
Proof.
  intros [_ Hr] HK. destruct r as [v|e].
  - destruct Hr as [Hf _]. by rewrite (fence_shut s HK) in Hf.
  - split; [|by eexists]. rewrite Hr. by apply K_others.
Qed.

Lemma transaction_refused T : refused (T := T) (lease_transaction (Some l)).
Proof.
  intros op b s HK. pose proof (lease_transaction_cases (Some l) op b s) as Hc.
  destruct (lease_transaction _ _ _ _) as [s' r]. by apply (atomic_refused b s s' r); [apply Hc|].
Qed.

Lemma retry_refused T : refused (T := T) (lease_write_retry (Some l)).
Proof.
  intros op b s HK. pose proof (lease_write_retry_cases (Some l) op b s) as Hc.
  destruct (lease_write_retry _ _ _ _) as [s' r]. by apply (atomic_refused b s s' r).
Qed.

Lemma write_refused T : refused (T := T) (lease_write (Some l)).
Proof.
  intros op b s HK. pose proof (lease_write_cases (Some l) op b s) as Hc.
  destruct (lease_write _ _ _ _) as [s' r]. by apply (atomic_refused b s s' r).
Qed.

Ltac refuse :=
  intros ? ? ? ? _ ?;
  first [by apply transaction_refused | by apply retry_refused | by apply write_refused].

Lemma lost_file_keeps input path wing options : keeps K (ingest_file (Some l) input path wing options).
Proof.
  apply (ingest_file_keeps K K_others (Some l) (fun _ _ => True)); try done.
  all: refuse.
Qed.

Section counts.
Context (wing room : string) (options : IngestOptions) (raw_turn : bool) (source_type : SourceType) (confidence : Q).
Context (target : option string) (not_dry : io_dry_run options = false).

Lemma note_chunks v stats : (v = Counted → False) → is_chunks (note v stats) = is_chunks stats.
Proof. destruct v as [[]| | |]; naive_solver. Qed.

Lemma check_chunk_not_counted chunk s s' v :
  check_chunk (Some l) wing room options raw_turn source_type confidence target chunk s = (s', Ok v) → v ≠ Counted.
Proof.
  unfold check_chunk, gate_chunk, bind, ret, map_err. rewrite not_dry. intros Hc ->. revert Hc.
  repeat (case_match; simplify_eq/=; try done).
Qed.

Lemma check_chunks_count index chunks pending stats s s' pending' stats' :
  check_chunks (Some l) wing room options raw_turn source_type confidence target index chunks pending stats s
  = (s', Ok (pending', stats')) → is_chunks stats' = is_chunks stats.
Proof.
  revert index pending stats s. induction chunks as [|chunk chunks IH]; intros index pending stats s; cbn [check_chunks].
  - by intros [= <- <- <-].
  - unfold bind at 1. destruct (check_chunk _ _ _ _ _ _ _ _ chunk s) as [s1 [v|e]] eqn:Ec; [|done].
    intros Hr. rewrite (IH _ _ _ _ Hr). apply note_chunks. intros ->. by eapply check_chunk_not_counted.
Qed.
Lemma store_chunk_refused source_file root importance p vector s :
  K (ps_tables s) →
  ∃ s' e, store_chunk (Some l) wing room options source_type confidence target source_file root importance p vector s
          = (s', Err e).
Proof.
  intros HK. unfold store_chunk, bind at 1, iso_timestamp. unfold bind at 1, map_err at 1.
  match goal with |- context [lease_write_retry (Some l) ?op ?b s] =>
    destruct (retry_refused _ op b s HK) as [_ [e He]]; destruct (lease_write_retry (Some l) op b s) as [s1 r] end.
  cbn in He. subst r. by do 2 eexists.
Qed.

Lemma store_chunks_refused source_file root importance items stats s s' stats' :
  K (ps_tables s) →
  store_chunks (Some l) wing room options source_type confidence target source_file root importance items stats s
  = (s', Ok stats') → stats' = stats.
Proof.
  intros HK. destruct items as [|[p v] items]; cbn [store_chunks]; [by intros [= _ <-]|].
  unfold bind. by destruct (store_chunk_refused source_file root importance p v s HK) as (s1 & e & ->).
Qed.

Lemma supersede_refused stats s s' stats' :
  K (ps_tables s) → supersede_after_successful_replacement (Some l) target stats s = (s', Ok stats') → stats' = stats.
Proof.
  intros HK. unfold supersede_after_successful_replacement. destruct target as [t|]; [|by intros [= _ <-]].
  destruct (head _) as [r|]; [|by intros [= _ <-]]. unfold bind, map_err.
  match goal with |- context [lease_write (Some l) ?op ?b s] =>
    destruct (write_refused _ op b s HK) as [_ [e He]]; destruct (lease_write (Some l) op b s) as [s1 r'] end.
  cbn in He. by subst r'.
Qed.

Lemma ingest_chunks_count source_file root importance chunks stats s s' stats' :
  K (ps_tables s) →
  ingest_chunks (Some l) wing room options raw_turn source_type confidence target source_file root importance chunks
    stats s = (s', Ok stats') → is_chunks stats' = is_chunks stats.
Proof.
  intros HK. unfold ingest_chunks, bind at 1.
  assert (HK1 : K (ps_tables (check_chunks (Some l) wing room options raw_turn source_type confidence target 0 chunks []
                                stats s).1)).
  { apply (check_chunks_keeps K K_others (Some l) (fun _ _ => True)); try done; refuse. }
  destruct (check_chunks _ _ _ _ _ _ _ _ 0 chunks [] stats s) as [s1 [[pending stats1]|e]] eqn:Ec; [|done].
  apply check_chunks_count in Ec. rewrite <- Ec. cbn [fst snd]. unfold finish. rewrite not_dry. cbn in HK1.
  destruct pending as [|p pending]; [intros Hs; by apply supersede_refused in Hs as ->|].
  unfold bind at 1. pose proof (embed_keeps K K_others (p :: pending) s1 HK1) as HK2.
  destruct (embed_pending _ s1) as [s2 [vectors|e]]; [|done]. cbn in HK2. unfold bind at 1.
  destruct (store_chunks _ _ _ _ _ _ _ _ _ _ _ _ s2) as [s3 [stats3|e]] eqn:Es; [|done].
  destruct (zip (p :: pending) vectors) as [|[q v] items] eqn:Ez; cbn [store_chunks] in Es.
  - injection Es as -> ->. intros Hs. by apply supersede_refused in Hs as ->.
  - unfold bind in Es. by destruct (store_chunk_refused source_file root importance q v s2 HK2) as (s4 & e & Hq);
      rewrite Hq in Es.
Qed.
End counts.

Lemma diary_refused lock content wing o s s' out :
  do_dry_run o = false → K (ps_tables s) →
  ingest_diary_rollup_fenced (Some l) lock content wing o s ≠ (s', Ok out).
Proof.
  intros Hd HK. unfold ingest_diary_rollup_fenced. rewrite Hd. unfold bind at 1.
  pose proof (prepare_keeps K K_others wing lock content o s HK) as HK1.
  destruct (prepare_diary_rollup _ _ _ _ _) as [s1 [prepared|e]]; [|done].
  destruct (embed _ _) as [[|v vs]|e]; try done.
  unfold commit_prepared_diary_rollup, bind, clock_secs, map_err, upsert_drawer_and_replace_vector_fenced. cbn [d_domain
    d_anchor_kind diary_drawer validate_anchor_domain].
  match goal with |- context [lease_transaction (Some l) ?op ?b s1] =>
    destruct (transaction_refused _ op b s1 HK1) as [_ [e He]]; destruct (lease_transaction (Some l) op b s1) as [s2 r] end.
  cbn in He. by subst r.
Qed.

Lemma ingest_cut_count input path wing room options raw_turn importance chunks noise s s' stats :
  io_dry_run options = false → K (ps_tables s) →
  ingest_cut (Some l) input path wing room options raw_turn importance chunks noise s = (s', Ok stats) → is_chunks stats = 0.
Proof.
  intros Hd HK. unfold ingest_cut. rewrite Hd. intros Hc.
  apply bind_ok in Hc as (s1 & root & H1 & Hc). apply bind_ok in Hc as (s2 & wait & H2 & Hc).
  apply bind_ok in Hc as (s3 & u & H3 & Hc). apply bind_ok in Hc as (s4 & target & H4 & Hc).
  assert (s1 = s) as ->.
  { destruct (io_source_root options); [|by injection H1]. apply bind_ok in H1 as (x & y & Hx & Hy).
    by injection Hx as <- _; injection Hy as <- _. }
  assert (s2 = s) as ->.
  { apply bind_ok in H2 as (x & y & Hx & Hy). by injection Hx as <- _; injection Hy as <- _. }
  assert (HK3 : K (ps_tables s3)).
  { revert H3. unfold replace_source. destruct (_ && _); [|by intros [= <- _]]. intros H3.
    apply bind_ok in H3 as (x & y & Hx & _). unfold map_err in Hx.
    match type of Hx with context [lease_transaction (Some l) ?op ?b s] =>
      destruct (transaction_refused _ op b s HK) as [_ [e He]]; destruct (lease_transaction (Some l) op b s) as [z r] end.
    cbn in He. by subst r. }
  apply ingest_chunks_count in Hc; [done..|]. injection H4 as <- _. by apply K_others.
Qed.

Lemma lost_file_count input path wing options s s' stats :
  io_dry_run options = false → K (ps_tables s) →
  ingest_file (Some l) input path wing options s = (s', Ok stats) → is_chunks stats = 0.
Proof.
  intros Hd HK. unfold ingest_file, bind at 1, of_parts at 1, of_result at 1. destruct (sr_read input); [|done].
  unfold bind at 1, of_parts at 1, of_result at 1. destruct (sr_parsed input) as [parsed|]; [|done].
  destruct (is_empty _); [by intros [= _ <-]|]. unfold bind at 1, of_parts at 1, of_result at 1.
  destruct (sr_normalized input _) as [normalized|]; [|done]. destruct (io_diary_rollup options).
  { unfold bind. destruct (ingest_diary_rollup_fenced _ _ _ _ _ s) as [s1 [out|e]] eqn:Eo; [|done].
    by apply diary_refused in Eo. }
  destruct (_ && _); [by intros [= _ <-]|]. destruct (cut _ _ _) as [|c cs]; [by intros [= _ <-]|].
  by apply ingest_cut_count.
Qed.

(** C4: Once its writer lease is lost, an ingestion writes nothing. Let [J] describe
    lease tables in which the fence finds the lease inactive, and let other processes
    keep to [J]: then any property [I] of the content that the other processes keep is
    kept by the whole ingestion, diary included; and a run that is no dry run and still
    reports success reports that no chunk was stored. *)
Theorem lost_lease_stops_ingest input path wing options s :
  K (ps_tables s) →
  I (ps_palace (ingest_file (Some l) input path wing options s).1)
  ∧ (io_dry_run options = false →
     ∀ stats, (ingest_file (Some l) input path wing options s).2 = Ok stats → is_chunks stats = 0).
Proof.
  intros HK. split; [by apply lost_file_keeps|]. intros Hd stats Hr.
  destruct (ingest_file _ _ _ _ _ s) as [s' r] eqn:E. cbn in Hr. subst r. by eapply lost_file_count.
Qed.
End lost.

(** ** Only what was accepted *)
Section contents.
Context `{StoreEnv} {PE : PalaceEnv} {JT : JsonText} {IE : IngestEnv}.
Context (Q : string → Prop).

Definition db_contents (db : Db) : Prop := ∀ id row, db_drawers db !! id = Some row → Q (r_content row).
Definition contents_ok (p : Palace) : Prop := db_contents (pl_db p).

Lemma update_where_contents id cond set db :
  (∀ row, r_content (set row) = r_content row) → db_contents db → db_contents (update_where id cond set db).1.
Proof.
  intros Hset Hdb. unfold update_where. destruct (db_drawers db !! id) as [row|] eqn:E; [|done].
  destruct (cond row); [|done]. intros id' row'. cbn. destruct (decide (id = id')) as [->|Hne].
  - rewrite lookup_insert_eq. intros [= <-]. rewrite Hset. eauto.
  - rewrite lookup_insert_ne by done. apply Hdb.
Qed.

Lemma delete_where_contents id cond db db' n :
  db_contents db → delete_where id cond db = Ok (db', n) → db_contents db'.
Proof.
  intros Hdb. unfold delete_where. destruct (db_drawers db !! id) as [row|]; [|by intros [= <- _]].
  destruct (cond row); [|by intros [= <- _]]. destruct (referenced _ _); [done|]. intros [= <- _] id' row'. cbn.
  intros [_ Hr]%lookup_delete_Some. eauto.
Qed.

Lemma pin_contents id : body_keeps contents_ok (pin_body id None).
Proof.
  intros a p Hp. unfold pin_body, pin_drawer, pin_drawer_with_order.
  match goal with |- context [update_where ?i ?c ?f ?d] => pose proof (update_where_contents i c f d) as Hu;
    destruct (update_where i c f d) as [db n] end.
  by apply Hu.
Qed.

Lemma supersede_contents id by_id : body_keeps contents_ok (supersede_body id by_id).
Proof.
  intros a p Hp. unfold supersede_body, supersede_drawer.
  match goal with |- context [update_where ?i ?c ?f ?d] => pose proof (update_where_contents i c f d) as Hu;
    destruct (update_where i c f d) as [db n] end.
  specialize (Hu ltac:(done) Hp). destruct (0 <? n); [|done]. by destruct (ca_audit_writable a).
Qed.

Lemma audit_contents hash d project content : body_keeps contents_ok (record_gating_audit_tx explain hash d project content).
Proof. intros a p Hp. unfold record_gating_audit_tx. by destruct (pl_gating p !! _). Qed.

Lemma signal_contents op id : body_keeps contents_ok (signal_body op id).
Proof. by intros a p. Qed.

Lemma insert_vector_db id v project p : pl_db (insert_vector_with_project fingerprint id v project p).1 = pl_db p.
Proof. unfold insert_vector_with_project. destruct (negb _); [done|]. by destruct (pl_vectors p !! id). Qed.

Lemma vector_contents options id v : body_keeps contents_ok (vector_body options id v).
Proof. intros a p Hp. unfold contents_ok, vector_body. by rewrite insert_vector_db. Qed.

Lemma drop_vector_db id project p : pl_db (drop_vector id project p) = pl_db p.
Proof. unfold drop_vector. destruct (pl_vectors p !! id) as [[v o]|]; [|done]. by destruct (bool_decide _). Qed.

Lemma delete_rows_contents ids project root p :
  contents_ok p → contents_ok (delete_source_drawer_rows_tx ids project root p).1.
Proof.
  revert p. induction ids as [|id ids IH]; intros p Hp; cbn [delete_source_drawer_rows_tx]; [done|].
  assert (Hc : db_contents (clear_source id (pl_db (drop_vector id project p)))).
  { rewrite drop_vector_db. intros i row. cbn. apply Hp. }
  destruct (delete_where _ _ _) as [[db n]|e] eqn:Ed; [|done]. apply IH. apply delete_where_contents in Ed; [|apply Hc].
  by destruct (0 <? n)%Z.
Qed.

Lemma replace_contents source_file wing room options root :
  body_keeps contents_ok (replace_body source_file wing room options root).
Proof.
  intros a p Hp. unfold replace_body, replace_active_source_drawers_across_rooms_tx, replace_active_source_drawers_tx, replace_rows.
  destruct (io_replace_across_rooms options).
  all: match goal with |- context [delete_source_drawer_rows_tx ?i ?pr ?r ?x] =>
         pose proof (delete_rows_contents i pr r x Hp) as Hd; by destruct (delete_source_drawer_rows_tx i pr r x) end.
Qed.

Lemma insert_or_ignore_contents id row db db' :
  db_contents db → Q (r_content row) → insert_or_ignore id row db = Ok db' → db_contents db'.
Proof.
  intros Hdb Hrow. unfold insert_or_ignore.
  assert (Hi : db_contents (with_drawers db (<[id := row]> (db_drawers db)))).
  { intros i r. cbn. intros [[_ <-]|[_ Hr]]%lookup_insert_Some; [done|eauto]. }
  destruct (db_drawers db !! id); [by intros [= <-]|]. destruct (check_constraints row); [|by intros [= <-]].
  destruct (r_supersedes row); [|by intros [= <-]]. destruct (_ || _); [|done]. by intros [= <-].
Qed.

Lemma insert_contents options root d : Q (d_content d) → body_keeps contents_ok (insert_body options root d).
Proof.
  intros Hd a p Hp. unfold insert_body, insert_drawer_with_project_validity_once.
  destruct (validate_anchor_domain _ _); [|done].
  destruct (insert_or_ignore _ _ _) as [db|e] eqn:Ei; [|done].
  apply insert_or_ignore_contents in Ei; [|done|done]. by destruct (db_drawers db !! d_id d).
Qed.
End contents.

Section accepted.
Context `{StoreEnv} {SE : SearchEnv} {CE : CodecEnv} {PE : PalaceEnv} {JT : JsonText} {IE : IngestEnv}.

Definition has_content (t : lease_db * Palace) (c : string) : Prop :=
  ∃ id row, db_drawers (pl_db t.2) !! id = Some row ∧ r_content row = c.

(** The writes an ingestion of these chunks makes. *)
Inductive own_write (wing : string) (options : IngestOptions) (chunks : list string) : ∀ T, @body T → Prop :=
  | own_audit hash d project content :
      own_write wing options chunks unit (record_gating_audit_tx explain hash d project content)
  | own_pin id : own_write wing options chunks bool (pin_body id None)
  | own_signal op id : own_write wing options chunks unit (signal_body op id)
  | own_supersede id by_id : own_write wing options chunks unit (supersede_body id by_id)
  | own_vector id v : own_write wing options chunks unit (vector_body options id v)
  | own_replace source_file room root :
      own_write wing options chunks Z (replace_body source_file wing room options root)
  | own_insert root d : d_content d ∈ chunks → own_write wing options chunks unit (insert_body options root d).

(** The tables while an ingestion runs: those it started from, changed by other processes
    and by its own writes, each through its fence. *)
Inductive during (lease : option RuntimeWriterLease) (wing : string) (options : IngestOptions) (chunks : list string)
    (start : lease_db * Palace) : lease_db * Palace → Prop :=
  | during_start : during lease wing options chunks start start
  | during_other n t : during lease wing options chunks start t → during lease wing options chunks start (other n t)
  | during_transaction T op (b : @body T) x :
      own_write wing options chunks T b → during lease wing options chunks start (ps_tables x) →
      during lease wing options chunks start (ps_tables (lease_transaction lease op b x).1)
  | during_retry T op (b : @body T) x :
      own_write wing options chunks T b → during lease wing options chunks start (ps_tables x) →
      during lease wing options chunks start (ps_tables (lease_write_retry lease op b x).1)
  | during_write T op (b : @body T) x :
      own_write wing options chunks T b → during lease wing options chunks start (ps_tables x) →
      during lease wing options chunks start (ps_tables (lease_write lease op b x).1).

Lemma during_keeps (I : Palace → Prop) lease wing options chunks start t :
  (∀ n t, I t.2 → I (other n t).2) → (∀ T b, own_write wing options chunks T b → body_keeps I b) →
  I start.2 → during lease wing options chunks start t → I t.2.
Proof.
  intros Ho Hown Hs. induction 1; [done|by apply Ho|..].
  - by apply (lease_transaction_keeps I Ho); [eapply Hown|].
  - by apply (lease_write_retry_keeps I Ho); [eapply Hown|].
  - by apply (lease_write_keeps I Ho); [eapply Hown|].
Qed.

(** What other processes store meanwhile. *)
Context (foreign : string → Prop).
Context (others_store : ∀ n t c, has_content (other n t) c → foreign c ∨ has_content t c).

Lemma accepted_weaken (I I' : lease_db * Palace → Prop) options raw conf c :
  (∀ t, I t → I' t) → accepted_chunk I options raw conf c → accepted_chunk I' options raw conf c.
Proof.
  unfold accepted_chunk. destruct (io_gating options); [|done]. intros Hi [Hd Hf]. split; [done|].
  destruct Hf as [?|[?|(n & t & Ht & Hr)]]; [by left|by right; left|right; right]. exists n, t. auto.
Qed.

(** C5: an ingestion that is no diary rollup (io_diary_rollup = false) stores nothing
    its gate did not let through. Whatever other processes do between its accesses, with
    or without a lease, and whether it succeeds or fails: the content of every drawer
    afterwards was there before, was stored by another process, or is a chunk of this
    file that, when a gate is configured, the rules and the prototypes did not reject,
    and that the fact check, when it is on and the chunk is no raw turn, did not reject
    when it was run at the clock and on the tables of one access: tables reached from
    those at the start by what other processes do and by the ingestion's own fenced
    writes (which leave the facts of the knowledge graph as they are, by the lemma
    during_facts). *)
Theorem ingest_stores_only_accepted lease input path wing options s c :
  io_diary_rollup options = false →
  has_content (ps_tables (ingest_file lease input path wing options s).1) c →
  foreign c ∨ has_content (ps_tables s) c
  ∨ (c ∈ source_chunks input path options
     ∧ ∃ room, accepted_chunk (during lease wing options (source_chunks input path options) (ps_tables s))
                 options (stored_as_turn wing room options) (options_confidence options) c).
Proof.
  intros Hd Hc. set (chunks := source_chunks input path options) in *. set (D := during lease wing options chunks (ps_tables s)).
  set (Q := fun c => foreign c ∨ has_content (ps_tables s) c
    ∨ (c ∈ chunks ∧ ∃ room, accepted_chunk D options (stored_as_turn wing room options) (options_confidence options) c)).
  assert (Ho : ∀ n t, contents_ok Q t.2 → contents_ok Q (other n t).2).
  { intros n t Ht id row Hrow. destruct (others_store n t (r_content row)) as [Hf|(id0 & row0 & H0 & <-)];
      [by exists id, row|by left|by apply (Ht id0)]. }
  assert (Hk : keeps (fun t => D t ∧ contents_ok Q t.2) (ingest_file lease input path wing options)).
  { apply (ingest_file_keeps _ (fun n t HI => conj (during_other _ _ _ _ _ n t (proj1 HI)) (Ho n t (proj2 HI))) lease
             (fun T b => own_write wing options chunks T b ∧ body_keeps (contents_ok Q) b)).
    - intros T op b x [Hb Hq] [HD Hx]. split; [by constructor|by apply (lease_transaction_keeps _ Ho)].
    - intros T op b x [Hb Hq] [HD Hx]. split; [by constructor|by apply (lease_write_retry_keeps _ Ho)].
    - intros T op b x [Hb Hq] [HD Hx]. split; [by constructor|by apply (lease_write_keeps _ Ho)].
    - intros. split; [constructor|apply audit_contents].
    - intros. split; [constructor|apply pin_contents].
    - intros. split; [constructor|apply signal_contents].
    - intros. split; [constructor|apply supersede_contents].
    - intros. split; [constructor|apply vector_contents].
    - intros. split; [constructor|apply replace_contents].
    - intros root d room Hin Hacc. split; [by constructor|]. apply insert_contents. right; right. split; [done|]. exists room.
      revert Hacc. apply accepted_weaken. by intros t [].
    - by rewrite Hd. }
  destruct Hc as (id & row & Hrow & <-). apply (Hk s) in Hrow; [done|]. split; [constructor|].
  intros id0 row0 Hrow0. right; left. by exists id0, row0.
Qed.
End accepted.

(** *** The facts a chunk is checked against

    The ingestion's own writes leave the knowledge graph as it is, except that
    replacing a source clears the reference of a fact to a drawer that goes. *)
Section facts.
Context `{StoreEnv} {SE : SearchEnv} {CE : CodecEnv} {PE : PalaceEnv} {JT : JsonText} {IE : IngestEnv}.

Definition fact_of (t : Triple) : Triple :=
  MkTriple (t_subject t) (t_predicate t) (t_object t) (t_valid_from t) (t_valid_to t) (t_confidence t) None.

Definition facts (p : Palace) : gmap string Triple := fact_of <$> db_triples (pl_db p).

Definition same_facts (F : gmap string Triple) (p : Palace) : Prop := facts p = F.

Lemma update_where_facts id cond set db : db_triples (update_where id cond set db).1 = db_triples db.
Proof. unfold update_where. destruct (db_drawers db !! id); [|done]. by destruct (cond _). Qed.

Lemma delete_where_facts id cond db db' n : delete_where id cond db = Ok (db', n) → db_triples db' = db_triples db.
Proof.
  unfold delete_where. destruct (db_drawers db !! id) as [row|]; [|by intros [= <- _]].
  destruct (cond row); [|by intros [= <- _]]. destruct (referenced _ _); [done|]. by intros [= <- _].
Qed.

Lemma insert_or_ignore_facts id row db db' : insert_or_ignore id row db = Ok db' → db_triples db' = db_triples db.
Proof.
  unfold insert_or_ignore. destruct (db_drawers db !! id); [by intros [= <-]|].
  destruct (check_constraints row); [|by intros [= <-]]. destruct (r_supersedes row); [|by intros [= <-]].
  destruct (_ || _); [|done]. by intros [= <-].
Qed.

Lemma clear_source_facts id db : fact_of <$> db_triples (clear_source id db) = fact_of <$> db_triples db.
Proof.
  cbn. rewrite <- map_fmap_compose. apply map_fmap_ext. intros i t _. unfold forget_source. cbn. by case_bool_decide.
Qed.

Lemma delete_rows_facts ids project root p : facts (delete_source_drawer_rows_tx ids project root p).1 = facts p.
Proof.
  revert p. induction ids as [|id ids IH]; intros p; cbn [delete_source_drawer_rows_tx]; [done|].
  assert (Hc : fact_of <$> db_triples (clear_source id (pl_db (drop_vector id project p))) = facts p)
    by (by rewrite clear_source_facts, drop_vector_db).
  destruct (delete_where _ _ _) as [[db n]|e] eqn:Ed; [|exact Hc]. rewrite IH. apply delete_where_facts in Ed.
  rewrite <- Hc. unfold facts. transitivity (fact_of <$> db_triples db); [by destruct (0 <? n)%Z|].
  by rewrite Ed.
Qed.

Lemma own_write_facts F wing options chunks T (b : @body T) :
  own_write wing options chunks T b → body_keeps (same_facts F) b.
Proof.
  intros [] a p <-; unfold same_facts.
  - unfold record_gating_audit_tx. by destruct (pl_gating p !! _).
  - unfold pin_body, pin_drawer, pin_drawer_with_order.
    match goal with |- context [update_where ?i ?c ?f ?d] => pose proof (update_where_facts i c f d) as Hu;
      destruct (update_where i c f d) as [db n] end. unfold facts. cbn in *. by rewrite Hu.
  - done.
  - unfold supersede_body, supersede_drawer.
    match goal with |- context [update_where ?i ?c ?f ?d] => pose proof (update_where_facts i c f d) as Hu;
      destruct (update_where i c f d) as [db n] end.
    unfold facts. destruct (0 <? n); cbn in *; [|by rewrite Hu]. destruct (ca_audit_writable a); cbn; by rewrite Hu.
  - unfold vector_body, facts. by rewrite insert_vector_db.
  - unfold replace_body, replace_active_source_drawers_across_rooms_tx, replace_active_source_drawers_tx, replace_rows.
    destruct (io_replace_across_rooms options).
    all: match goal with |- context [delete_source_drawer_rows_tx ?i ?pr ?r ?x] =>
         pose proof (delete_rows_facts i pr r x) as Hd; by destruct (delete_source_drawer_rows_tx i pr r x) end.
  - unfold insert_body, insert_drawer_with_project_validity_once.
    destruct (validate_anchor_domain _ _); [|done]. destruct (insert_or_ignore _ _ _) as [db|e] eqn:Ei; [|done].
    apply insert_or_ignore_facts in Ei. unfold facts. by destruct (db_drawers db !! d_id d); cbn; rewrite Ei.
Qed.

(** So they are the facts of the start while other processes leave them alone. *)
Lemma during_facts lease wing options chunks start t :
  (∀ n t, facts (other n t).2 = facts t.2) → during lease wing options chunks start t → facts t.2 = facts start.2.
Proof.
  intros Ho. apply (during_keeps (same_facts (facts start.2))); [|apply own_write_facts|done].
  intros n t0 <-. apply Ho.
Qed.
End facts.

(** ** A dry run *)
Section dry.
Context `{StoreEnv} {SE : SearchEnv} {CE : CodecEnv} {PE : PalaceEnv} {JT : JsonText} {IE : IngestEnv}.
Context (I : lease_db * Palace → Prop) (others : ∀ n t, I t → I (other n t)).
Context (lease : option RuntimeWriterLease) (options : IngestOptions).
Context (is_dry : io_dry_run options = true) (not_pinned : io_is_pinned options = false).

Lemma check_chunks_dry wing room raw_turn source_type confidence target index chunks pending stats :
  keeps I (check_chunks lease wing room options raw_turn source_type confidence target index chunks pending stats).
Proof.
  revert index pending stats. induction chunks as [|c chunks IH]; intros index pending stats; cbn [check_chunks];
    [apply ret_keeps|]. apply bind_keeps; [|intros v; apply IH]. unfold check_chunk. rewrite not_pinned, is_dry.
  apply bind_keeps; [by apply query_keeps|]. intros [existing|].
  - apply bind_keeps; intros; apply ret_keeps.
  - apply bind_keeps; [by apply query_keeps|]. intros id. apply bind_keeps; [by apply query_keeps|]. intros []; apply ret_keeps.
Qed.

Lemma ingest_cut_dry input path wing room raw_turn importance chunks noise :
  keeps I (ingest_cut lease input path wing room options raw_turn importance chunks noise).
Proof.
  unfold ingest_cut. rewrite is_dry. apply bind_keeps; [apply ret_keeps|]. intros root. apply bind_keeps; [apply ret_keeps|].
  intros wait. apply bind_keeps.
  { unfold replace_source. rewrite is_dry. destruct (_ && _) eqn:E; [by apply andb_true_iff in E as [_ ?]|apply ret_keeps]. }
  intros _. apply bind_keeps; [by apply query_keeps|]. intros target. unfold ingest_chunks.
  apply bind_keeps; [apply check_chunks_dry|]. intros [pending stats]. unfold finish. rewrite is_dry. apply ret_keeps.
Qed.

(** C21: A dry run that pins nothing writes nothing: whatever other processes keep of
    the tables, the lease tables included, the run keeps as well, whatever it returns. *)
Theorem dry_run_writes_nothing input path wing s :
  I (ps_tables s) → I (ps_tables (ingest_file lease input path wing options s).1).
Proof.
  revert s. change (keeps I (ingest_file lease input path wing options)). unfold ingest_file.
  apply bind_keeps; [apply of_result_keeps|]. intros _. apply bind_keeps; [apply of_result_keeps|]. intros parsed.
  destruct (is_empty _); [apply ret_keeps|]. apply bind_keeps; [apply of_result_keeps|]. intros normalized.
  destruct (io_diary_rollup options).
  - apply bind_keeps; [|intros; apply ret_keeps]. unfold ingest_diary_rollup_fenced. cbn [do_dry_run]. rewrite is_dry.
    apply bind_keeps; [apply rollup_target_keeps|]. intros place. apply ret_keeps.
  - destruct (_ && _); [apply ret_keeps|]. destruct (cut _ _ _); [apply ret_keeps|]. apply ingest_cut_dry.
Qed.
End dry.

(** ** The walk of a directory ends *)
Section walk.
Context `{StoreEnv} {SE : SearchEnv} {CE : CodecEnv} {PE : PalaceEnv} {JT : JsonText} {IE : IngestEnv}.
Context (lease : option RuntimeWriterLease) (wing : string) (options : IngestOptions).

Definition dirs (stack : list entry) : nat := list_sum (dir_count <$> stack).

Definition listed (entries : list (result entry string)) : nat :=
  list_sum (map (fun r => match r with Ok e => dir_count e | Err _ => 0%nat end) entries).

Definition is_dir (e : entry) : Prop := ∃ path listing, e = EDir path listing.

Lemma dir_count_listed path entries : dir_count (EDir path (Ok entries)) = S (listed entries).
Proof. done. Qed.

Lemma listed_dir e entries : listed (Ok e :: entries) = (dir_count e + listed entries)%nat.
Proof. done. Qed.

Lemma dirs_cons e stack : dirs (e :: stack) = (dir_count e + dirs stack)%nat.
Proof. done. Qed.

Lemma walk_entries_dirs dir entries stack stats s s' stack' stats' :
  Forall is_dir stack →
  walk_entries lease wing options dir entries stack stats s = (s', Ok (stack', stats')) →
  (dirs stack' <= dirs stack + listed entries)%nat ∧ Forall is_dir stack'.
Proof.
  revert stack stats s. induction entries as [|[e|m] entries IH]; intros stack stats s Hf; cbn [walk_entries].
  - intros [= _ <- _]. split; [cbn; lia|done].
  - destruct e as [path input|path listing|].
    + intros Hb. apply bind_ok in Hb as (s1 & st & _ & Hb). by apply IH in Hb as [Hb ?].
    + rewrite listed_dir. intros Hb. destruct (should_skip_dir path).
      * apply IH in Hb as [Hb ?]; [|done]. split; [lia|done].
      * apply IH in Hb as [Hb ?]; [|constructor; [by do 2 eexists|done]]. rewrite dirs_cons in Hb. split; [lia|done].
    + intros Hb. by apply IH in Hb as [Hb ?].
  - done.
Qed.

Lemma walk_total fuel stack stats s :
  (dirs stack <= fuel)%nat → Forall is_dir stack →
  (walk lease wing options fuel stack stats s).2 ≠ Ok None.
Proof.
  revert stack stats s. induction fuel as [|fuel IH]; intros [|e stack] stats s Hd Hf; cbn [walk]; try done.
  all: inversion Hf as [|? ? (path & listing & ->) Hf']; subst.
  - exfalso. rewrite dirs_cons in Hd. destruct listing; [rewrite dir_count_listed in Hd; lia|cbn in Hd; lia].
  - destruct listing as [entries|m]; [|done]. unfold bind.
    destruct (walk_entries _ _ _ _ _ _ _ s) as [s1 [[stack1 stats1]|e]] eqn:E; [|done].
    apply walk_entries_dirs in E as [Hle Hd']; [|done]. apply IH; [|done].
    rewrite dirs_cons, dir_count_listed in Hd. cbn [fst]. lia.
Qed.

(** The walk of a directory tree ends: its fuel is the number of directories. *)
Lemma ingest_dir_total path listing s : (ingest_dir lease wing options (EDir path listing) s).2 ≠ Ok None.
Proof.
  apply walk_total; [rewrite dirs_cons; change (dirs []) with 0%nat; lia|]. constructor; [by do 2 eexists|constructor].
Qed.
End walk.
