(* ===== verification/IngestAgain.v ===== *)
(** * A completed ingestion, and the same one again

    With no other process in between: after a successful ingestion every chunk is an
    active drawer of its place, with a vector when it is new; and ingesting the same
    chunks once more finds them all and changes nothing. *)

From Stdlib Require Import ZArith QArith Lia String Ascii SpecFloat.
From stdpp Require Import base tactics list gmap strings numbers sets.
From S2P Require Import Prelude Order Text Float Rfc3339 Sqlite ProcessIdentity WriterLease SqliteRetry WriteReserve.
From S2P Require Import Chars Aaak AaakCodec Utf8 Drawer DrawerStore DrawerSafety Knowledge Chunk FactCheck Gating Search.
From S2P Require Import CoworkCapture Palace Ingest IngestSafety IngestStory.
Close Scope Q_scope.
Open Scope Z_scope.
Open Scope rust_scope.
Open Scope ingest_scope.

(** ** Identifiers of chunks *)
Lemma prefix_length n s : (n <= String.length s)%nat → String.length (String.substring 0 n s) = n.
Proof.
  revert s. induction n as [|n IH]; intros [|c s] Hn; cbn in *; [lia..|]. by rewrite IH by lia.
Qed.
Section identifiers.
Context `{StoreEnv} {L : StoreLaws _}.

Lemma available_unused db preferred id : resolve_available_drawer_id db preferred = Some id → db_drawers db !! id = None.
Proof.
  unfold resolve_available_drawer_id, drawer_id_in_use. case_bool_decide as Hu.
  - apply first_free_unused.
  - intros [= <-]. by apply eq_None_not_Some.
Qed.

Lemma first_free_shape db base fuel n id : first_free db base fuel n = Some id → ∃ k, id = suffixed base k.
Proof.
  revert n. induction fuel as [|fuel IH]; intros n; cbn; [done|]. destruct (drawer_id_in_use _ _); [apply IH|].
  intros [= <-]. by exists n.
Qed.

Lemma available_shape db preferred id :
  resolve_available_drawer_id db preferred = Some id → id = preferred ∨ ∃ k, id = suffixed preferred k.
Proof.
  unfold resolve_available_drawer_id. destruct (drawer_id_in_use _ _); [|intros [= <-]; by left].
  intros Hf. right. by eapply first_free_shape.
Qed.

(** Identifiers of chunks of one place have one length, so one is never another with
    a suffix. *)
Lemma bootstrap_id_length wing room content st c' st' :
  String.length (build_bootstrap_evidence_drawer_id wing room content st)
  = String.length (build_bootstrap_evidence_drawer_id wing room c' st').
Proof.
  unfold build_bootstrap_evidence_drawer_id, build_bootstrap_drawer_id_from_parts, build_bootstrap_drawer_id. cbn [bootstrap_anchor].
  rewrite !str_length_app. by rewrite !prefix_length by (rewrite sha256_length; lia).
Qed.

Lemma suffixed_length base k : (String.length base < String.length (suffixed base k))%nat.
Proof. unfold suffixed. rewrite !str_length_app. cbn. lia. Qed.

Lemma available_inj db p1 p2 id :
  String.length p1 = String.length p2 →
  resolve_available_drawer_id db p1 = Some id → resolve_available_drawer_id db p2 = Some id → p1 = p2.
Proof.
  intros Hl [-> |[k1 ->]]%available_shape [H2|[k2 H2]]%available_shape.
  - done.
  - pose proof (suffixed_length p2 k2). subst. lia.
  - pose proof (suffixed_length p1 k1). rewrite H2 in *. lia.
  - by apply str_app_inj in H2 as [? _].
Qed.
End identifiers.

(** ** What is stored *)
Section again.
Context `{StoreEnv} {L : StoreLaws _} {SE : SearchEnv} {CE : CodecEnv} {PE : PalaceEnv} {JT : JsonText} {IE : IngestEnv}.
Context (quiet : ∀ n t, other n t = t).
Context (lease : option RuntimeWriterLease) (wing room : string) (options : IngestOptions) (raw_turn : bool).
Context (source_type : SourceType) (confidence : Q).

(** The row of an active drawer of the place with this content. *)
Definition holds (c : string) (row : Row) : Prop :=
  is_active row = true ∧ r_content row = c ∧ r_content_hash row = content_hash_hex c
  ∧ same_place wing (Some room) (io_project_id options) row = true.

Definition stored (db : Db) (c : string) : Prop := ∃ id row, db_drawers db !! id = Some row ∧ holds c row.

Abbreviation found_by db c := (find_active_drawers_by_content db c wing (Some room) (io_project_id options)).

Lemma elem_found db c x :
  x ∈ found_by db c ↔ ∃ id row, db_drawers db !! id = Some row ∧ holds c row ∧ x = summary id row.
Proof.
  unfold find_active_drawers_by_content. rewrite sort_by_perm, list_elem_of_In, in_map_iff. split.
  - intros ([id row] & <- & Hin). apply filter_In in Hin as [Hin Hf]. apply list_elem_of_In, elem_of_map_to_list in Hin.
    exists id, row. split; [done|]. split; [|done]. revert Hf. unfold holds.
    rewrite !andb_true_iff, !String.eqb_eq. cbn. naive_solver.
  - intros (id & row & Hrow & (Ha & Hc & Hh & Hp) & ->). exists (id, row). split; [done|]. apply filter_In.
    rewrite <- list_elem_of_In, elem_of_map_to_list. split; [done|]. cbn. rewrite Ha, Hp, !andb_true_iff, !String.eqb_eq. done.
Qed.

Lemma find_duplicate db c :
  match List.find (fun x => negb (is_target None x)) (found_by db c) with
  | Some x => stored db c
  | None => ¬ stored db c
  end.
Proof.
  destruct (List.find _ _) as [x|] eqn:E.
  - apply find_some in E as [Hin _]. apply list_elem_of_In, elem_found in Hin as (id & row & ? & ? & _). by exists id, row.
  - intros (id & row & Hrow & Hh). assert (Hx : summary id row ∈ found_by db c) by (apply elem_found; eauto).
    apply list_elem_of_In in Hx. by apply (find_none _ _ E) in Hx.
Qed.

Lemma quiet_found s : found s = ps_tables s.
Proof. apply quiet. Qed.

(** *** Checking *)
Context (open_gate : io_gating options = None) (not_dry : io_dry_run options = false).
Context (not_pinned : io_is_pinned options = false).

Definition preferred (c : string) : string := build_bootstrap_evidence_drawer_id wing (Some room) c source_type.

Abbreviation check := (check_chunk lease wing room options raw_turn source_type confidence None).

Lemma check_plain c s s' v :
  check c s = (s', Ok v) →
  ps_tables s' = ps_tables s
  ∧ match v with
    | Skip (Some _) => stored (ps_db s) c
    | Pending id _ => ¬ stored (ps_db s) c ∧ resolve_available_drawer_id (ps_db s) (preferred c) = Some id
    | _ => False
    end.
Proof.
  unfold check_chunk, bind. rewrite open_gate, not_dry, not_pinned. cbn [query begin_access ps_tables ps_palace].
  rewrite !quiet. pose proof (find_duplicate (ps_db s) c) as Hd. unfold ps_db, ps_palace in Hd.
  destruct (List.find _ _) as [x|]; cbn; [by intros [= <- <-]|].
  destruct (resolve_available_drawer_id _ _) as [id|] eqn:Er; cbn; [|done]. rewrite !quiet.
  unfold ps_palace in *. cbn in Er. rewrite quiet in Er. cbn [ps_tables].
  assert (He : drawer_exists (pl_db (ps_tables s).2) id = false).
  { unfold drawer_exists, active_row. by rewrite (available_unused _ _ _ Er). }
  rewrite He. cbn. intros [= <- <-]. split; [done|]. split; [done|]. apply Er.
Qed.

Lemma check_chunks_plain index chunks pending stats s s' pending' stats' :
  Forall (fun p : pending_chunk => resolve_available_drawer_id (ps_db s) (preferred p.1.2) = Some p.2) pending →
  check_chunks lease wing room options raw_turn source_type confidence None index chunks pending stats s
  = (s', Ok (pending', stats')) →
  ps_tables s' = ps_tables s
  ∧ Forall (fun p : pending_chunk => resolve_available_drawer_id (ps_db s) (preferred p.1.2) = Some p.2) pending'
  ∧ pending ⊆ pending'
  ∧ ∀ c, c ∈ chunks → stored (ps_db s) c ∨ ∃ p, p ∈ pending' ∧ p.1.2 = c.
Proof.
  revert index pending stats s. induction chunks as [|c chunks IH]; intros index pending stats s Hp; cbn [check_chunks].
  - intros [= <- <- <-]. split_and!; [done..|]. intros c Hc. by apply elem_of_nil in Hc.
  - intros Hr. apply bind_ok in Hr as (s1 & v & Hv & Hr). apply check_plain in Hv as [Ht Hv].
    assert (Hdb : ps_db s1 = ps_db s) by (unfold ps_db, ps_palace; by rewrite Ht).
    apply IH in Hr as (Ht' & Hp' & Hsub & Hall).
    2: { rewrite Hdb. destruct v as [[]| | |id w]; try done. apply Forall_app_2; [done|]. constructor; [apply Hv|constructor]. }
    rewrite Hdb in *. split_and!; [congruence|done| |].
    + intros p Hpp. apply Hsub. destruct v; set_solver.
    + intros c' [-> |Hc']%elem_of_cons; [|by apply Hall]. destruct v as [[]| | |id w]; try done; [by left|].
      right. exists (index, c, id). split; [|done]. apply Hsub. set_solver.
Qed.

(** *** Storing *)
Lemma insert_once_fresh db d project root vf vu op db' :
  insert_drawer_with_project_validity_once db d project root vf vu op = (db', Ok tt) →
  db_drawers db' = match db_drawers db !! d_id d with
                   | Some _ => db_drawers db
                   | None => <[d_id d := drawer_to_row d project root vf vu op]> (db_drawers db)
                   end.
Proof.
  unfold insert_drawer_with_project_validity_once, insert_or_ignore. destruct (validate_anchor_domain _ _); [|done].
  destruct (db_drawers db !! d_id d) as [row|] eqn:E; [by rewrite E; intros [= <-]|].
  destruct (check_constraints _); [|by rewrite E].
  destruct (r_supersedes _) as [old|]; [destruct (_ || _); [|done]|]; cbn; rewrite lookup_insert_eq; by intros [= <-].
Qed.

Lemma insert_vector_ok id v project p p' :
  insert_vector_with_project fingerprint id v project p = (p', Ok tt) →
  is_Some (pl_vectors p' !! id) ∧ ∀ id', is_Some (pl_vectors p !! id') → is_Some (pl_vectors p' !! id').
Proof.
  unfold insert_vector_with_project. destruct (negb _); [done|]. destruct (pl_vectors p !! id) eqn:E; intros [= <-]; cbn.
  - by rewrite E.
  - split; [by rewrite lookup_insert_eq|]. intros id' Hi. destruct (decide (id = id')) as [->|Hne].
    + by rewrite lookup_insert_eq.
    + by rewrite lookup_insert_ne.
Qed.

Lemma retry_ok {T} op (b : @body T) s s' v :
  lease_write_retry lease op b s = (s', Ok v) → b (answers (ps_access s)) (ps_palace s) = (ps_palace s', Ok v).
Proof.
  intros Hw. pose proof (lease_write_retry_cases lease op b s) as Hc. rewrite Hw in Hc. destruct Hc as [_ [_ Hb]].
  by rewrite quiet_found in Hb.
Qed.

Lemma signal_same enabled op id s s' u : record_signal lease enabled op id s = (s', Ok u) → ps_palace s' = ps_palace s.
Proof.
  unfold record_signal, map_err. destruct enabled; [|by intros [= <- _]].
  pose proof (lease_write_cases lease op (signal_body op id) s) as Hc.
  destruct (lease_write _ _ _ _) as [s1 [v|e]]; [|done]. intros [= <- _].
  destruct lease as [l|]; destruct Hc as [_ Hc]; [destruct Hc as [_ Hc]|]; rewrite quiet_found in Hc; by injection Hc as <-.
Qed.

Definition new_row (source_file : string) (root : option string) (importance : Z) (p : pending_chunk) (added_at : string)
    : Row :=
  drawer_to_row (new_drawer wing room options source_type confidence None source_file added_at importance p)
    (io_project_id options) root (io_valid_from options) (io_valid_until options) None.

Lemma new_row_holds source_file root importance p added_at : holds p.1.2 (new_row source_file root importance p added_at).
Proof.
  destruct p as [[i c] id]. unfold holds, new_row, same_place, is_active. cbn.
  by rewrite String.eqb_refl, !bool_decide_eq_true_2.
Qed.

Lemma store_chunk_ok source_file root importance (p : pending_chunk) vector s s' u :
  store_chunk lease wing room options source_type confidence None source_file root importance p vector s = (s', Ok u) →
  ∃ added_at,
    db_drawers (ps_db s') = match db_drawers (ps_db s) !! p.2 with
                            | Some _ => db_drawers (ps_db s)
                            | None => <[p.2 := new_row source_file root importance p added_at]> (db_drawers (ps_db s))
                            end
    ∧ is_Some (pl_vectors (ps_palace s') !! p.2)
    ∧ ∀ id, is_Some (pl_vectors (ps_palace s) !! id) → is_Some (pl_vectors (ps_palace s') !! id).
Proof.
  intros Hs. unfold store_chunk in Hs. apply bind_ok in Hs as (s0 & added_at & H0 & Hs).
  assert (s0 = s) as -> by exact (eq_sym (f_equal fst H0)). clear H0.
  apply bind_ok in Hs as (s1 & u1 & H1 & Hs). apply bind_ok in Hs as (s2 & u2 & H2 & Hs).
  apply bind_ok in Hs as (s3 & u3 & H3 & Hs). apply signal_same in Hs. apply signal_same in H3.
  unfold map_err in H1, H2. exists added_at.
  destruct (lease_write_retry lease "insert drawer" _ s) as [s1' [v1|]] eqn:E1; [|done]. injection H1 as <- <-.
  destruct (lease_write_retry lease "insert vector" _ s1') as [s2' [v2|]] eqn:E2; [|done]. injection H2 as <- <-.
  apply retry_ok in E1, E2. unfold insert_body in E1. unfold vector_body in E2.
  destruct (insert_drawer_with_project_validity_once _ _ _ _ _ _ _) as [db1 [[]|]] eqn:Ei; [|done].
  injection E1 as Ep1 _. apply insert_once_fresh in Ei. destruct v2.
  pose proof (insert_vector_db p.2 vector (io_project_id options) (ps_palace s1')) as Hdb.
  apply insert_vector_ok in E2 as Hv. rewrite E2 in Hdb. cbn in Hdb.
  unfold ps_db. rewrite Hs, H3, Hdb. rewrite <- Ep1 in *. cbn in *. split; [|done].
  assert (d_id (new_drawer wing room options source_type confidence None source_file added_at importance p) = p.2) as Hid.
  { by destruct p as [[i c] id]. }
  rewrite Hid in Ei. unfold ps_db in *. rewrite Ei. done.
Qed.

(** The table has grown from [db0] by rows of these chunks, each under the identifier
    that was free for it. *)
Definition grown (chunks : list string) (db0 db : Db) : Prop :=
  db_drawers db0 ⊆ db_drawers db
  ∧ ∀ id row, db_drawers db !! id = Some row →
      db_drawers db0 !! id = Some row
      ∨ ∃ c, c ∈ chunks ∧ holds c row ∧ resolve_available_drawer_id db0 (preferred c) = Some id.

Lemma preferred_length c c' : String.length (preferred c) = String.length (preferred c').
Proof. unfold preferred. exact (bootstrap_id_length wing (Some room) c source_type c' source_type). Qed.

Lemma grown_refl chunks db : grown chunks db db.
Proof. split; [done|]. auto. Qed.

(** No two chunks of the file share an identifier: the digests of different chunks
    differ in their first eight digits. *)
Definition distinct_ids (chunks : list string) : Prop :=
  ∀ c1 c2, c1 ∈ chunks → c2 ∈ chunks → preferred c1 = preferred c2 → c1 = c2.

Lemma grown_item chunks db0 db c id row :
  distinct_ids chunks → grown chunks db0 db → c ∈ chunks →
  resolve_available_drawer_id db0 (preferred c) = Some id → db_drawers db !! id = Some row → holds c row.
Proof.
  intros Hd [_ Hg] Hc Hr Hrow. destruct (Hg id row Hrow) as [H0|(c' & Hc' & Hh & Hr')].
  - by rewrite (available_unused _ _ _ Hr) in H0.
  - assert (c' = c) as ->; [|done]. apply Hd; [done..|].
    apply (available_inj db0 (preferred c') (preferred c) id); [apply preferred_length|exact Hr'|exact Hr].
Qed.

Lemma grown_insert chunks db0 db c id row rows :
  grown chunks db0 db → c ∈ chunks → holds c row → resolve_available_drawer_id db0 (preferred c) = Some id →
  rows = match db_drawers db !! id with Some _ => db_drawers db | None => <[id := row]> (db_drawers db) end →
  grown chunks db0 (with_drawers db rows).
Proof.
  intros [Hs Hg] Hc Hh Hr ->. destruct (db_drawers db !! id) as [r|] eqn:E; [by split|]. split; cbn.
  - etrans; [done|]. by apply insert_subseteq.
  - intros i r [[<- <-]|[_ Hi]]%lookup_insert_Some; [|by apply Hg]. right. eauto.
Qed.

Lemma store_chunks_ok chunks db0 source_file root importance items stats s s' stats' :
  distinct_ids chunks → grown chunks db0 (ps_db s) →
  Forall (fun i : pending_chunk * list f32 => i.1.1.2 ∈ chunks
            ∧ resolve_available_drawer_id db0 (preferred i.1.1.2) = Some i.1.2) items →
  store_chunks lease wing room options source_type confidence None source_file root importance items stats s
  = (s', Ok stats') →
  grown chunks db0 (ps_db s')
  ∧ (∀ id row, db_drawers (ps_db s) !! id = Some row → db_drawers (ps_db s') !! id = Some row)
  ∧ (∀ id, is_Some (pl_vectors (ps_palace s) !! id) → is_Some (pl_vectors (ps_palace s') !! id))
  ∧ Forall (fun i : pending_chunk * list f32 =>
      ∃ row, db_drawers (ps_db s') !! i.1.2 = Some row ∧ holds i.1.1.2 row ∧ is_Some (pl_vectors (ps_palace s') !! i.1.2)) items.
Proof.
  intros Hd Hg Hi. revert stats s Hg. induction Hi as [|[p v] items [Hc Hr] Hi IH]; intros stats s Hg; cbn [store_chunks].
  - intros [= <- <-]. done.
  - intros Hs. apply bind_ok in Hs as (s1 & u & H1 & Hs). apply store_chunk_ok in H1 as (added_at & Hrows & Hv & Hvs).
    assert (Hg1 : grown chunks db0 (ps_db s1)).
    { pose proof (grown_insert chunks db0 (ps_db s) _ _ _ _ Hg Hc (new_row_holds source_file root importance p added_at) Hr Hrows)
        as [Hsub Hex]. by split. }
    destruct (IH _ _ Hg1 Hs) as (Hg' & Hkeep & Hvk & Hall). split; [done|].
    assert (Hk : ∀ id row, db_drawers (ps_db s) !! id = Some row → db_drawers (ps_db s1) !! id = Some row).
    { intros id row Hrow. rewrite Hrows. cbn in *. destruct (db_drawers (ps_db s) !! p.2) eqn:E; [done|].
      rewrite lookup_insert_ne; [done|]. intros <-. by rewrite E in Hrow. }
    split_and!; [auto..|]. constructor; [|done]. cbn in *.
    assert (∃ row, db_drawers (ps_db s1) !! p.2 = Some row) as [row Hrow].
    { rewrite Hrows. destruct (db_drawers (ps_db s) !! p.2) eqn:E; [by eauto|]. rewrite lookup_insert_eq. eauto. }
    exists row. split_and!; [auto| |auto]. by apply (grown_item chunks db0 (ps_db s1) p.1.2 p.2 row).
Qed.

Lemma stored_mono db db' c :
  (∀ id row, db_drawers db !! id = Some row → db_drawers db' !! id = Some row) → stored db c → stored db' c.
Proof. intros Hm (id & row & Hr & Hh). exists id, row. auto. Qed.

Context (answers_all : ∀ texts vectors, embed embedder texts = Ok vectors → length vectors = length texts).

Lemma embed_pending_ok pending s s' vectors :
  embed_pending pending s = (s', Ok vectors) → ps_tables s' = ps_tables s ∧ length vectors = length pending.
Proof.
  unfold embed_pending. destruct (embed _ _) as [vs|] eqn:E; [|done]. apply answers_all in E. rewrite length_fmap in E.
  destruct (mixed_width vs) as [[]|]; [done|]. destruct vs as [|v0 vs]; [by intros [= <- <-]|].
  intros Hb. apply bind_ok in Hb as (s1 & d & H1 & Hb). injection H1 as <- _.
  destruct d as [d|]; [destruct (negb _); [done|]|]; injection Hb as <- <-; split; [apply quiet|done|apply quiet|done].
Qed.

(** What a successful ingestion of chunks has stored. *)
Lemma ingest_chunks_stored chunks source_file root importance stats s s' stats' :
  distinct_ids chunks →
  ingest_chunks lease wing room options raw_turn source_type confidence None source_file root importance chunks stats s
  = (s', Ok stats') →
  ∀ c, c ∈ chunks → stored (ps_db s') c.
Proof.
  intros Hd Hi. unfold ingest_chunks in Hi. apply bind_ok in Hi as (s1 & [pending stats1] & H1 & Hi).
  assert (Hsubset : Forall (fun p : pending_chunk => p.1.2 ∈ chunks) pending).
  { eapply (check_chunks_accepted (fun _ => True)) with (permitted := fun _ _ => True) (all := chunks) in H1; try done.
    eapply Forall_impl; [exact H1|]. by intros p [? _]. }
  apply check_chunks_plain in H1 as (Ht & Hp & _ & Hall); [|constructor].
  assert (Hdb : ps_db s1 = ps_db s) by (unfold ps_db, ps_palace; by rewrite Ht).
  unfold finish in Hi. rewrite not_dry in Hi. cbn [fst snd] in Hi. intros c Hc. specialize (Hall c Hc). destruct pending as [|p0 ps].
  - injection Hi as <- _. rewrite Hdb. destruct Hall as [?|(p & Hin & _)]; [done|]. by apply elem_of_nil in Hin.
  - apply bind_ok in Hi as (s2 & vectors & H2 & Hi). apply embed_pending_ok in H2 as [Ht2 Hlen].
    assert (Hdb2 : ps_db s2 = ps_db s) by (unfold ps_db, ps_palace; by rewrite Ht2, Ht).
    apply bind_ok in Hi as (s3 & stats3 & H3 & Hi). injection Hi as <- _.
    apply (store_chunks_ok chunks (ps_db s)) in H3 as (_ & Hkeep & _ & Hstored).
    + rewrite Hdb2 in Hkeep. destruct Hall as [Hst|(p & Hin & <-)]; [by eapply stored_mono|].
      rewrite <- (fst_zip (p0 :: ps) vectors) in Hin by lia. apply list_elem_of_fmap in Hin as ([p' v] & -> & Hin).
      rewrite Forall_forall in Hstored. destruct (Hstored _ Hin) as (row & Hr & Hh & _). by exists p'.2, row.
    + done.
    + rewrite Hdb2. apply grown_refl.
    + apply Forall_forall. intros [p v] Hin. apply elem_of_zip_l in Hin. rewrite Forall_forall in Hsubset, Hp.
      split; [by apply Hsubset|by apply Hp].
Qed.

(** *** The same chunks again *)
Lemma check_again c s :
  stored (ps_db s) c → ∃ s' id, check c s = (s', Ok (Skip (Some id))) ∧ ps_tables s' = ps_tables s.
Proof.
  intros Hst. unfold check_chunk, bind. rewrite not_pinned. cbn [query begin_access ps_tables ps_palace].
  unfold ps_palace. cbn [ps_tables]. rewrite !quiet. pose proof (find_duplicate (ps_db s) c) as Hd.
  unfold ps_db, ps_palace in *. destruct (List.find _ _) as [x|]; [|done]. cbn. by do 2 eexists.
Qed.

Lemma check_chunks_again index chunks pending stats s :
  (∀ c, c ∈ chunks → stored (ps_db s) c) →
  ∃ s' stats', check_chunks lease wing room options raw_turn source_type confidence None index chunks pending stats s
               = (s', Ok (pending, stats'))
    ∧ ps_tables s' = ps_tables s ∧ is_chunks stats' = is_chunks stats
    ∧ is_skipped stats' = is_skipped stats + Z.of_nat (length chunks).
Proof.
  revert index stats s. induction chunks as [|c chunks IH]; intros index stats s Hall; cbn [check_chunks].
  - exists s, stats. split_and!; [done..|]. cbn. lia.
  - destruct (check_again c s) as (s1 & id & Hc & Ht); [apply Hall; by left|].
    destruct (IH (index + 1) (note (Skip (Some id)) stats) s1) as (s' & stats' & Hr & Ht' & Hn & Hk).
    { intros c' Hc'. unfold ps_db, ps_palace. rewrite Ht. apply Hall. by right. }
    exists s', stats'. unfold bind. rewrite Hc, Hr. split_and!; [done|congruence|done|]. rewrite Hk. cbn. lia.
Qed.

Lemma ingest_chunks_again chunks source_file root importance stats s :
  (∀ c, c ∈ chunks → stored (ps_db s) c) →
  ∃ s' stats',
    ingest_chunks lease wing room options raw_turn source_type confidence None source_file root importance chunks stats s
    = (s', Ok stats')
    ∧ ps_tables s' = ps_tables s ∧ is_chunks stats' = is_chunks stats
    ∧ is_skipped stats' = is_skipped stats + Z.of_nat (length chunks).
Proof.
  intros Hall. destruct (check_chunks_again 0 chunks [] stats s Hall) as (s' & stats' & Hr & ? & ? & ?).
  exists s', stats'. split; [|done]. unfold ingest_chunks, bind. rewrite Hr. cbn. unfold finish. by rewrite not_dry.
Qed.
End again.

(** ** A file *)
Section file.
Context `{StoreEnv} {L : StoreLaws _} {SE : SearchEnv} {CE : CodecEnv} {PE : PalaceEnv} {JT : JsonText} {IE : IngestEnv}.
Context (quiet : ∀ n t, other n t = t).
Context (answers_all : ∀ texts vectors, embed embedder texts = Ok vectors → length vectors = length texts).

(** An ingestion without a gate, for real, that pins and replaces nothing in particular. *)
Definition plain (options : IngestOptions) : Prop :=
  io_gating options = None ∧ io_dry_run options = false ∧ io_is_pinned options = false
  ∧ io_supersedes options = None ∧ io_replace_text options = None.

Lemma resolve_none wing room options t :
  plain options → ∃ t', resolve_target wing room options t = (t', Ok None) ∧ ps_tables t' = ps_tables t.
Proof.
  intros (_ & _ & _ & Hs & Hr). unfold resolve_target. rewrite Hs, Hr. eexists. split; [done|]. apply quiet.
Qed.

Section cut.
Context (lease : option RuntimeWriterLease) (input : source_input) (path : list string) (wing room : string).
Context (options : IngestOptions) (raw_turn : bool) (importance : Z) (chunks : list string) (noise : option Z).
Context (is_plain : plain options).

Abbreviation run := (ingest_cut lease input path wing room options raw_turn importance chunks noise).

Definition chunk_source_type : SourceType := default AgentInference (io_source_type options).

(** Once the root and the lock are had, the file comes down to the replacement and
    its chunks. *)
Lemma run_steps s s' stats :
  run s = (s', Ok stats) →
  ∃ source_file root wait, ∀ t,
    run t = bind (replace_source lease source_file wing room options root)
              (fun _ => bind (resolve_target wing room options)
                 (fun target => ingest_chunks lease wing room options raw_turn chunk_source_type
                                  (default (default_confidence chunk_source_type) (io_confidence options)) target
                                  source_file root importance chunks (set_lock_wait wait (set_noise noise one_file)))) t.
Proof.
  destruct is_plain as (_ & Hd & _). unfold ingest_cut. rewrite Hd. intros Hr.
  apply bind_ok in Hr as (s1 & root & H1 & Hr). apply bind_ok in Hr as (s2 & wait & H2 & _).
  eexists _, root, wait. intros t. unfold bind at 1.
  assert (H1' : ∀ t, (match io_source_root options with
             | Some _ => bind (of_parts CanonicalizeSourceRoot (sr_root input)) (fun r => ret (Some r))
             | None => ret None
             end) t = (t, Ok root)).
  { intros x. destruct (io_source_root options); [|by injection H1 as _ <-]. unfold bind, of_parts, of_result in *.
    destruct (sr_root input); [|done]. by injection H1 as _ <-. }
  rewrite H1'. unfold bind at 1.
  assert (H2' : ∀ t, bind (of_result match sr_lock input with Ok ms => Ok ms | Err e => Err (IngestLocked e) end)
                      (fun ms => ret (Some ms)) t = (t, Ok wait)).
  { intros x. unfold bind, of_result in *. destruct (sr_lock input); [|done]. by injection H2 as _ <-. }
  rewrite H2'. done.
Qed.

(** What is stored in the place of this file. *)
Definition stored_chunk (s : pstate) (c : string) : Prop := stored wing room options (ps_db s) c.

Lemma run_stored s s' stats :
  distinct_ids wing room chunk_source_type chunks → run s = (s', Ok stats) → ∀ c, c ∈ chunks → stored_chunk s' c.
Proof.
  intros Hd Hr. destruct (run_steps s s' stats Hr) as (source_file & root & wait & Hsteps). rewrite Hsteps in Hr.
  apply bind_ok in Hr as (s1 & u & _ & Hr). apply bind_ok in Hr as (s2 & target & H2 & Hr).
  destruct (resolve_none wing room options s1 is_plain) as (x & Hx & _). rewrite Hx in H2. injection H2 as <- <-.
  destruct is_plain as (Hg & Hdry & Hpin & _). by eapply ingest_chunks_stored.
Qed.

Lemma run_again s s' stats :
  io_replace_existing_source options = false → run s = (s', Ok stats) →
  ∀ t, (∀ c, c ∈ chunks → stored_chunk t c) →
  ∃ t' stats', run t = (t', Ok stats') ∧ ps_tables t' = ps_tables t ∧ is_chunks stats' = 0
    ∧ is_skipped stats' = Z.of_nat (length chunks).
Proof.
  intros Hrep Hr t Hall. destruct (run_steps s s' stats Hr) as (source_file & root & wait & Hsteps). rewrite Hsteps.
  assert (Hs : replace_source lease source_file wing room options root t = (t, Ok tt)).
  { unfold replace_source. by rewrite Hrep. }
  unfold bind at 1. rewrite Hs. destruct (resolve_none wing room options t is_plain) as (t1 & H1 & Ht1).
  unfold bind. rewrite H1. destruct is_plain as (Hg & Hdry & Hpin & _).
  edestruct (ingest_chunks_again quiet lease wing room options raw_turn) as (t' & stats' & Hi & Ht' & Hn & Hk);
    [done..| |rewrite Hi].
  - intros c Hc. unfold ps_db, ps_palace. rewrite Ht1. apply Hall, Hc.
  - exists t', stats'. split_and!; [done|congruence|by rewrite Hn|]. rewrite Hk. cbn. lia.
Qed.

(** C6: a successful ingestion is complete, from the cut of the file into chunks on
    (ingest_cut). Provided that no other process writes in between, that the embedder
    answers with one vector per text, that distinct chunks have distinct digests, and
    that the options are plain (no dry run, no gate, no pin, nothing to supersede and no
    text to replace): after ingest_cut returns success, every chunk is an active drawer
    in the wing, room and project of the ingestion, with its own content and hash,
    whether it was there before or is new. *)
Theorem ingest_complete s s' stats c :
  distinct_ids wing room chunk_source_type chunks → run s = (s', Ok stats) → c ∈ chunks → stored_chunk s' c.
Proof. intros Hd Hr Hc. by apply (run_stored s s' stats Hd Hr). Qed.

(** C20: ingesting the chunks of a file again changes nothing. Provided that no other
    process writes in between, that the embedder answers with one vector per text, that
    distinct chunks have distinct digests, and that the options are plain (no dry run,
    no gate, no pin, nothing to supersede and no text to replace) and do not ask to
    replace the source: when ingest_cut, the ingestion of a file that is cut into
    chunks, succeeded, the same call once more succeeds, stores no chunk, skips every
    one of them, and leaves every table as it was, lease tables included. *)
Theorem ingest_again_changes_nothing s s' stats :
  distinct_ids wing room chunk_source_type chunks → io_replace_existing_source options = false →
  run s = (s', Ok stats) →
  ∃ s'' stats', run s' = (s'', Ok stats') ∧ ps_tables s'' = ps_tables s' ∧ is_chunks stats' = 0
    ∧ is_skipped stats' = Z.of_nat (length chunks).
Proof. intros Hd Hrep Hr. apply (run_again s s' stats Hrep Hr s'). by apply (run_stored s s' stats Hd Hr). Qed.
End cut.
End file.
