(* ===== verification/RemoteCalls.v ===== *)
(** * The policy on remote calls

    [src/src/core/remote_calls.rs]: which endpoints count as local, what the policy
    [privacy.remote_calls] makes of the others, and the checks that guard the clients of
    the embedder, the LLM and the reranker. Parsing a URL is the url crate's; the
    addresses of the Standard Library are parsed as it does. The endpoints a
    configuration comes to are given. *)

From Stdlib Require Import ZArith Lia String Ascii.
From stdpp Require Import base tactics list strings numbers.
From S2P Require Import Prelude Order Text Chars.
Open Scope Z_scope.
Open Scope rust_scope.

(** ** Internet addresses of the Standard Library *)
Module Addr.

Definition dec_digit (c : Z) : option Z := if (48 <=? c) && (c <=? 57) then Some (c - 48) else None.
Definition hex_digit (c : Z) : option Z :=
  if (48 <=? c) && (c <=? 57) then Some (c - 48)
  else if (97 <=? c) && (c <=? 102) then Some (c - 87)
  else if (65 <=? c) && (c <=? 70) then Some (c - 55)
  else None.

(** The digits in front: more than [max] of them, or a value over [bound], is no number. *)
Fixpoint read_digits (digit : Z → option Z) (radix bound : Z) (max count : nat) (acc : Z) (l : text)
    : option (nat * Z * text) :=
  match l with
  | c :: rest =>
      match digit c with
      | Some d =>
          if (max <=? count)%nat then None
          else if bound <? acc * radix + d then None
          else read_digits digit radix bound max (S count) (acc * radix + d) rest
      | None => Some (count, acc, l)
      end
  | [] => Some (count, acc, [])
  end.

(** [read_number]: at least one digit; without [allow_zero_prefix] no leading zero. *)
Definition read_number (digit : Z → option Z) (radix bound : Z) (max : nat) (allow_zero_prefix : bool) (l : text)
    : option (Z * text) :=
  match read_digits digit radix bound max 0 0 l with
  | Some (0%nat, _, _) => None
  | Some (count, value, rest) =>
      if negb allow_zero_prefix && bool_decide (head l = Some 48) && (1 <? count)%nat then None
      else Some (value, rest)
  | None => None
  end.

Definition read_octet : text → option (Z * text) := read_number dec_digit 10 255 3 false.
Definition read_group : text → option (Z * text) := read_number hex_digit 16 65535 4 true.

Definition read_char (c : Z) (l : text) : option text :=
  match l with x :: rest => if x =? c then Some rest else None | [] => None end.

Definition read_ipv4 (l : text) : option (Z * Z * Z * Z * text) :=
  x ← read_octet l; let '(a, l) := x in
  l ← read_char 46 l; x ← read_octet l; let '(b, l) := x in
  l ← read_char 46 l; x ← read_octet l; let '(c, l) := x in
  l ← read_char 46 l; x ← read_octet l; let '(d, l) := x in
  Some (a, b, c, d, l).

(** [host.parse::<Ipv4Addr>()]: the whole text. *)
Definition parse_ipv4 (l : text) : option (Z * Z * Z * Z) :=
  match read_ipv4 l with Some (a, b, c, d, []) => Some (a, b, c, d) | _ => None end.

(** [read_separator]: a colon before every group but the first. *)
Definition separated (i : nat) (l : text) : option text := if (i =? 0)%nat then Some l else read_char 58 l.

(** [read_groups]: the groups read, whether an IPv4 address ended them, the rest. *)
Fixpoint read_groups (room i : nat) (l : text) : list Z * bool * text :=
  match room with
  | O => ([], false, l)
  | S room =>
      let v4 := if (0 <? room)%nat then l' ← separated i l; read_ipv4 l' else None in
      match v4 with
      | Some (a, b, c, d, rest) => ([a * 256 + b; c * 256 + d], true, rest)
      | None =>
          match l' ← separated i l; read_group l' with
          | Some (g, rest) => let '(gs, v, rest) := read_groups room (S i) rest in (g :: gs, v, rest)
          | None => ([], false, l)
          end
      end
  end.

Definition parse_ipv6 (l : text) : option (list Z) :=
  let '(front, front_v4, rest) := read_groups 8 0 l in
  if (length front =? 8)%nat then match rest with [] => Some front | _ => None end
  else if front_v4 then None
  else
    rest ← read_char 58 rest; rest ← read_char 58 rest;
    let '(back, _, rest) := read_groups (8 - (length front + 1)) 0 rest in
    match rest with
    | [] => Some (front ++ replicate (8 - length front - length back) 0 ++ back)%list
    | _ => None
    end.

Definition is_loopback (groups : list Z) : bool := bool_decide (groups = [0; 0; 0; 0; 0; 0; 0; 1]).
Definition is_unique_local (groups : list Z) : bool := Z.land (default 0 (head groups)) 65024 =? 64512.
End Addr.

(** ** Services, statuses, the policy *)
Inductive RemoteCallService := Embedding | Llm | Rerank.
Inductive RemoteCallStatus :=
  | DefaultLocal | LocalModel | RemoteDisabled | LocalEndpoint | RemoteEndpoint | Misconfigured.
Inductive RemoteCallPolicyEffect := Allowed | BlockedByPolicy | NotApplicable.

#[export] Instance service_eq_dec : EqDecision RemoteCallService.
Proof. solve_decision. Defined.
#[export] Instance status_eq_dec : EqDecision RemoteCallStatus.
Proof. solve_decision. Defined.
#[export] Instance effect_eq_dec : EqDecision RemoteCallPolicyEffect.
Proof. solve_decision. Defined.

Definition service_as_str (s : RemoteCallService) : string :=
  match s with Embedding => "embedding" | Llm => "llm" | Rerank => "rerank" end.
Definition allow_field (s : RemoteCallService) : string :=
  match s with Embedding => "allow_embedding" | Llm => "allow_llm" | Rerank => "allow_rerank" end.

Record RemoteCallPolicyConfig := MkPolicy {
  rp_fail_closed : bool;
  rp_allow_embedding : bool;
  rp_allow_llm : bool;
  rp_allow_rerank : bool;
}.

Definition service_allowed (policy : RemoteCallPolicyConfig) (service : RemoteCallService) : bool :=
  match service with
  | Embedding => rp_allow_embedding policy
  | Llm => rp_allow_llm policy
  | Rerank => rp_allow_rerank policy
  end.

Definition policy_effect (policy : RemoteCallPolicyConfig) (service : RemoteCallService) (status : RemoteCallStatus)
    : RemoteCallPolicyEffect :=
  if negb (bool_decide (status = RemoteEndpoint)) then NotApplicable
  else if negb (rp_fail_closed policy) || service_allowed policy service then Allowed
  else BlockedByPolicy.

Record RemoteCallServiceReport := MkReport {
  rr_service : RemoteCallService;
  rr_status : RemoteCallStatus;
  rr_policy : RemoteCallPolicyEffect;
  rr_endpoint : option string;
  rr_detail : string;
}.

Definition blocks_remote_call (r : RemoteCallServiceReport) : bool :=
  bool_decide (rr_status r = RemoteEndpoint) && bool_decide (rr_policy r = BlockedByPolicy).

Definition BLOCKED_REMOTE_ENDPOINT_LABEL : string := "<remote-endpoint>".

Record RemoteCallPolicyError := MkPolicyError {
  pe_service : string;
  pe_allow_field : string;
  pe_endpoint : string;
}.

(** What the url crate reads in a URL: the host of an IPv6 URL keeps its brackets. *)
Record url := MkUrl { u_scheme : string; u_host : option string; u_port : option Z }.

Section policy.
Context (parse_url : string → option url).

(** ** Local endpoints *)
Definition private_v4 (a b : Z) : bool :=
  (a =? 10) || (a =? 127) || ((a =? 192) && (b =? 168)) || ((a =? 172) && (16 <=? b) && (b <=? 31)).

Definition ends_with (suffix s : string) : bool :=
  starts_with (reverse (chars_of suffix)) (reverse (chars_of s)).

Definition host_is_local (host : string) : bool :=
  if bool_decide (to_ascii_lowercase host = "localhost") || negb (contains "." host)
     || ends_with ".local" (to_ascii_lowercase host)
  then true
  else match Addr.parse_ipv4 (chars_of host) with
       | Some (a, b, _, _) => private_v4 a b
       | None => match Addr.parse_ipv6 (chars_of host) with
                 | Some groups => Addr.is_loopback groups || Addr.is_unique_local groups
                 | None => false
                 end
       end.

Definition endpoint_is_local_or_private (endpoint : string) : bool :=
  match parse_url endpoint with
  | None => false
  | Some parsed => match u_host parsed with None => false | Some host => host_is_local host end
  end.

Definition endpoint_url_display_label (base_url : string) : string :=
  match parse_url base_url with
  | None => "<invalid-url>"
  | Some parsed =>
      u_scheme parsed +:+ "://" +:+ default "<unknown-host>" (u_host parsed)
      +:+ match u_port parsed with Some port => ":" +:+ show port | None => "" end
  end.

(** ** What the policy makes of an endpoint *)
Section service.
Context (policy : RemoteCallPolicyConfig) (service : RemoteCallService).

Definition endpoint_status (endpoint : string) : RemoteCallStatus :=
  if endpoint_is_local_or_private endpoint then LocalEndpoint else RemoteEndpoint.

Definition remote_endpoint_is_blocked_by_policy (endpoint : string) : bool :=
  bool_decide (policy_effect policy service (endpoint_status endpoint) = BlockedByPolicy).

Definition policy_error (endpoint : string) : RemoteCallPolicyError :=
  MkPolicyError (service_as_str service) (allow_field service) endpoint.

Definition blocked_remote_endpoint_error (endpoint : string) : option RemoteCallPolicyError :=
  if negb (remote_endpoint_is_blocked_by_policy endpoint) then None
  else Some (policy_error BLOCKED_REMOTE_ENDPOINT_LABEL).

Definition endpoint_policy_display_label (endpoint : string) : string :=
  if remote_endpoint_is_blocked_by_policy endpoint then BLOCKED_REMOTE_ENDPOINT_LABEL
  else endpoint_url_display_label endpoint.

Definition endpoint_policy_diagnostic_label (endpoint : string) : string :=
  if remote_endpoint_is_blocked_by_policy endpoint then BLOCKED_REMOTE_ENDPOINT_LABEL
  else if endpoint_is_local_or_private endpoint then endpoint
  else endpoint_url_display_label endpoint.

(** [Vec::dedup]. *)
Fixpoint dedup (l : list string) : list string :=
  match l with
  | x :: ((y :: _) as rest) => if bool_decide (x = y) then dedup rest else x :: dedup rest
  | _ => l
  end.

(** The labels of a summary, in the order they are joined. *)
Definition labels (shown : list string) : list string :=
  dedup (sort_by (fun a b => not_gt (String.compare a b)) shown).

Definition summary (shown : list string) : string := String.concat ", " (labels shown).

Definition endpoint_policy_display_summary (endpoints : list string) : string :=
  summary (endpoint_policy_display_label <$> endpoints).

Definition endpoint_policy_diagnostic_summary (endpoints : list string) : string :=
  summary (endpoint_policy_diagnostic_label <$> endpoints).

Definition endpoint_policy_runtime_error (endpoint : string) (last_error : option string) : option string :=
  if remote_endpoint_is_blocked_by_policy endpoint then None else last_error.

Definition endpoint_policy_global_runtime_error (endpoints : list string) (last_error : option string) : option string :=
  error ← last_error;
  if existsb remote_endpoint_is_blocked_by_policy endpoints then None else Some error.

Definition endpoint_service_report (endpoints : list string) (detail : string) : RemoteCallServiceReport :=
  let status := if existsb (fun e => negb (endpoint_is_local_or_private e)) endpoints
                then RemoteEndpoint else LocalEndpoint in
  MkReport service status (policy_effect policy service status) (Some (endpoint_policy_display_summary endpoints)) detail.

Definition not_applicable (status : RemoteCallStatus) (detail : string) : RemoteCallServiceReport :=
  MkReport service status NotApplicable None detail.

(** The endpoints of a configuration, or why it has none. *)
Definition endpoints_report (endpoints : result (list string) string) (missing detail : string)
    : RemoteCallServiceReport :=
  match endpoints with
  | Ok [] => not_applicable Misconfigured missing
  | Ok endpoints => endpoint_service_report endpoints detail
  | Err error => not_applicable Misconfigured error
  end.
End service.

Definition ensure_status_allowed (status : RemoteCallServiceReport) : result unit RemoteCallPolicyError :=
  if negb (blocks_remote_call status) then Ok tt
  else Err (policy_error (rr_service status) (default "<remote-endpoint>" (rr_endpoint status))).

(** ** The three services *)
Record EmbedConfig := MkEmbedConfig {
  ec_backend : string;
  ec_model : option string;
  ec_fallback : option string;
  ec_effective_endpoints : string → result (list string) string;  (* with this backend *)
}.

Definition embedding_backend_is_http (backend : string) : bool :=
  bool_decide (backend = "openai_compat") || bool_decide (backend = "api").

Definition eq_ignore_ascii_case (a b : string) : bool := bool_decide (to_ascii_lowercase a = to_ascii_lowercase b).

Definition active_embedding_http_backend (embed : EmbedConfig) : option string :=
  if embedding_backend_is_http (ec_backend embed) then Some (ec_backend embed)
  else match ec_fallback embed with
       | Some fallback =>
           if negb (eq_ignore_ascii_case fallback (ec_backend embed)) && embedding_backend_is_http fallback
           then Some fallback else None
       | None => None
       end.

Definition embedding_status (policy : RemoteCallPolicyConfig) (embed : EmbedConfig) : RemoteCallServiceReport :=
  match active_embedding_http_backend embed with
  | None =>
      let status := if bool_decide (ec_backend embed = "model2vec") && bool_decide (ec_model embed = None)
                    then DefaultLocal else LocalModel in
      MkReport Embedding status (policy_effect policy Embedding status) None (ec_backend embed)
  | Some http_backend =>
      let primary := eq_ignore_ascii_case http_backend (ec_backend embed) in
      endpoints_report policy Embedding
        (ec_effective_endpoints embed (if primary then ec_backend embed else http_backend))
        "openai_compat endpoint is missing" (if primary then "openai_compat" else "openai_compat fallback")
  end.

Record LlmCallConfig := MkLlmConfig {
  lc_enabled : bool;
  lc_enabled_for : list string;
  lc_effective_endpoints : result (list string) string;
}.

Definition llm_config_status (policy : RemoteCallPolicyConfig) (config : LlmCallConfig) : RemoteCallServiceReport :=
  if negb (lc_enabled config) then not_applicable Llm RemoteDisabled "llm.enabled=false"
  else endpoints_report policy Llm (lc_effective_endpoints config) "LLM endpoint is missing" "openai_compat".

Definition with_status (status : RemoteCallStatus) (r : RemoteCallServiceReport) : bool := bool_decide (rr_status r = status).

Definition combine_llm_reports (policy : RemoteCallPolicyConfig) (reports : list RemoteCallServiceReport)
    : RemoteCallServiceReport :=
  match reports with
  | [] => not_applicable Llm RemoteDisabled "no enabled LLM feature"
  | _ =>
      match List.find (with_status RemoteEndpoint) reports with
      | Some r => r
      | None =>
          match List.find (with_status Misconfigured) reports with
          | Some r => r
          | None =>
              match List.find (with_status LocalEndpoint) reports with
              | Some r => r
              | None => MkReport Llm RemoteDisabled (policy_effect policy Llm RemoteDisabled) None "no enabled LLM feature"
              end
          end
      end
  end.

(** [intelligence]: the LLM configuration of the memory intelligence, when its mode
    uses one and it has an endpoint. *)
Definition llm_status (policy : RemoteCallPolicyConfig) (llm : LlmCallConfig) (intelligence : option LlmCallConfig)
    : RemoteCallServiceReport :=
  combine_llm_reports policy
    ((if lc_enabled llm && negb (bool_decide (lc_enabled_for llm = [])) then [llm_config_status policy llm] else [])
     ++ match intelligence with Some effective => [llm_config_status policy effective] | None => [] end)%list.

(** [normalized]: the reranker's endpoint as [normalize_reranker_endpoint_url] gives it. *)
Record RerankConfig := MkRerankConfig { rc_enabled : bool; rc_endpoint : result string string }.

Definition rerank_status (policy : RemoteCallPolicyConfig) (reranker : RerankConfig) : RemoteCallServiceReport :=
  if negb (rc_enabled reranker) then not_applicable Rerank RemoteDisabled "search.reranker.enabled=false"
  else match rc_endpoint reranker with
       | Ok endpoint => endpoint_service_report policy Rerank [endpoint] "http"
       | Err error => not_applicable Rerank Misconfigured error
       end.

(** ** The guards *)
Definition ensure_embedding_allowed (policy : RemoteCallPolicyConfig) (embed : EmbedConfig)
    : result unit RemoteCallPolicyError :=
  ensure_status_allowed (embedding_status policy embed).

Definition ensure_llm_allowed_for_policy (policy : RemoteCallPolicyConfig) (llm : LlmCallConfig)
    : result unit RemoteCallPolicyError :=
  ensure_status_allowed (llm_config_status policy (MkLlmConfig true (lc_enabled_for llm) (lc_effective_endpoints llm))).

Definition ensure_rerank_allowed (policy : RemoteCallPolicyConfig) (reranker : RerankConfig)
    : result unit RemoteCallPolicyError :=
  ensure_status_allowed (rerank_status policy reranker).

Definition build_remote_call_report (policy : RemoteCallPolicyConfig) (embed : EmbedConfig) (llm : LlmCallConfig)
    (intelligence : option LlmCallConfig) (reranker : RerankConfig) : list RemoteCallServiceReport :=
  [embedding_status policy embed; llm_status policy llm intelligence; rerank_status policy reranker].
End policy.

(** ** Dotted addresses *)
Definition stops (digit : Z → option Z) (rest : text) : Prop :=
  match rest with [] => True | c :: _ => digit c = None end.

Lemma read_digits_app digit radix bound max count acc l rest n v :
  Addr.read_digits digit radix bound max count acc l = Some (n, v, []) → stops digit rest →
  Addr.read_digits digit radix bound max count acc (l ++ rest)%list = Some (n, v, rest).
Proof.
  revert count acc. induction l as [|c l IH]; intros count acc; cbn.
  - intros [= <- <-] Hs. destruct rest as [|c rest]; [done|]. cbn in *. by rewrite Hs.
  - destruct (digit c); [|done]. destruct (max <=? count)%nat; [done|]. destruct (bound <? _); [done|]. apply IH.
Qed.

(** What [read_octet] makes of the decimal numeral of an octet. *)
Definition octet_ok (a : Z) : bool :=
  match Addr.read_digits Addr.dec_digit 10 255 3 0 0 (chars_of (show a)) with
  | Some (S n, v, []) => (v =? a) && negb (bool_decide (head (chars_of (show a)) = Some 48) && (1 <? S n)%nat)
  | _ => false
  end.

Lemma octets_ok : forallb octet_ok (Z.of_nat <$> seq 0 256) = true.
Proof. vm_compute. reflexivity. Qed.

Lemma octet_reads a rest :
  0 <= a <= 255 → stops Addr.dec_digit rest → Addr.read_octet (chars_of (show a) ++ rest)%list = Some (a, rest).
Proof.
  intros Ha Hs. assert (Hok : octet_ok a = true).
  { apply (proj1 (forallb_forall octet_ok _) octets_ok). apply list_elem_of_In, list_elem_of_fmap.
    exists (Z.to_nat a). split; [lia|]. apply elem_of_seq. lia. }
  unfold octet_ok in Hok. unfold Addr.read_octet, Addr.read_number.
  destruct (Addr.read_digits _ _ _ _ _ _ (chars_of (show a))) as [[[[|n] v] [|? ?]]|] eqn:E; try done.
  apply andb_true_iff in Hok as [Hv Hz]. apply Z.eqb_eq in Hv. subst v.
  rewrite (read_digits_app _ _ _ _ _ _ _ rest _ _ E Hs).
  assert (Hh : head (chars_of (show a) ++ rest)%list = head (chars_of (show a))).
  { destruct (chars_of (show a)); [done|done]. }
  rewrite Hh. cbn [negb andb]. by apply negb_true_iff in Hz as ->.
Qed.

(** [Display] of an [Ipv4Addr]. *)
Definition dotted (a b c d : Z) : string :=
  show a +:+ "." +:+ show b +:+ "." +:+ show c +:+ "." +:+ show d.

Lemma chars_of_app s t : chars_of (s +:+ t) = (chars_of s ++ chars_of t)%list.
Proof.
  unfold chars_of. rewrite <- fmap_app. f_equal. induction s as [|x s IH]; [done|]. by rewrite str_app_cons; cbn; rewrite IH.
Qed.

Lemma dotted_parses a b c d :
  0 <= a <= 255 → 0 <= b <= 255 → 0 <= c <= 255 → 0 <= d <= 255 →
  Addr.parse_ipv4 (chars_of (dotted a b c d)) = Some (a, b, c, d).
Proof.
  intros Ha Hb Hc Hd. unfold Addr.parse_ipv4, Addr.read_ipv4, dotted. rewrite !chars_of_app.
  change (chars_of ".") with [46]. rewrite <- (app_nil_r (chars_of (show d))). cbn [app].
  do 4 (rewrite octet_reads by done; cbn [mbind option_bind Addr.read_char Z.eqb Pos.eqb]). done.
Qed.

Lemma lowercase_app s t : to_ascii_lowercase (s +:+ t) = to_ascii_lowercase s +:+ to_ascii_lowercase t.
Proof. induction s as [|x s IH]; [done|]. rewrite str_app_cons. cbn. by rewrite IH, str_app_cons. Qed.

(** A numeral is its own lower case, and ends in a digit. *)
Definition numeral_ok (a : Z) : bool :=
  bool_decide (to_ascii_lowercase (show a) = show a)
  && match reverse (chars_of (show a)) with c :: _ => (48 <=? c) && (c <=? 57) | [] => false end.

Lemma numerals_ok : forallb numeral_ok (Z.of_nat <$> seq 0 256) = true.
Proof. vm_compute. reflexivity. Qed.

Lemma numeral_is_ok a : 0 <= a <= 255 → numeral_ok a = true.
Proof.
  intros Ha. apply (proj1 (forallb_forall numeral_ok _) numerals_ok). apply list_elem_of_In, list_elem_of_fmap.
  exists (Z.to_nat a). split; [lia|]. apply elem_of_seq. lia.
Qed.

Lemma contains_here x t : contains (String x "") (String x t) = true.
Proof. cbn [contains String.prefix]. destruct (ascii_dec x x) as [_|H]; [|done]. destruct t; reflexivity. Qed.

(** Every dotted address is local exactly when it is a loopback or private one. *)
Lemma dotted_is_local a b c d :
  0 <= a <= 255 → 0 <= b <= 255 → 0 <= c <= 255 → 0 <= d <= 255 →
  host_is_local (dotted a b c d) = private_v4 a b.
Proof.
  intros Ha Hb Hc Hd. unfold host_is_local. rewrite dotted_parses by done.
  assert (Hdot : contains "." (dotted a b c d) = true) by (unfold dotted; apply contains_app_r, contains_here).
  assert (Hend : ∀ pre suffix, suffix = ".local" → ends_with suffix (pre +:+ show d) = false).
  { intros pre suffix ->. apply numeral_is_ok in Hd as [_ Hr]%andb_true_iff. unfold ends_with, starts_with.
    rewrite chars_of_app, reverse_app. destruct (reverse (chars_of (show d))) as [|x l]; [done|].
    apply bool_decide_eq_false_2. intros [y Hy]. change (reverse (chars_of ".local")) with [108; 97; 99; 111; 108; 46] in Hy.
    cbn [app strip_prefix] in Hy. destruct (108 =? x) eqn:E; [|done]. apply Z.eqb_eq in E. by subst x. }
  rewrite Hdot. cbn [negb orb].
  assert (Hlow : to_ascii_lowercase (dotted a b c d) = dotted a b c d).
  { unfold dotted. rewrite !lowercase_app.
    assert (Hn : ∀ n, 0 <= n <= 255 → to_ascii_lowercase (show n) = show n).
    { intros n Hn. apply numeral_is_ok in Hn as [Hn _]%andb_true_iff. by apply bool_decide_eq_true in Hn. }
    by rewrite !Hn. }
  rewrite Hlow. rewrite bool_decide_eq_false_2.
  2: { intros Heq. rewrite Heq in Hdot. done. }
  assert (He : dotted a b c d = (show a +:+ "." +:+ show b +:+ "." +:+ show c +:+ ".") +:+ show d).
  { unfold dotted. by rewrite !str_app_assoc. }
  rewrite He, Hend by done. done.
Qed.

Lemma lowercase_dot host : contains "." host = true → contains "." (to_ascii_lowercase host) = true.
Proof.
  induction host as [|c host IH]; [done|]. cbn [contains to_ascii_lowercase].
  destruct (String.prefix "." (String c host)) eqn:E; cbn [orb].
  - intros _. cbn [String.prefix] in E. destruct (ascii_dec "." c) as [<-|]; [|done]. apply contains_here.
  - intros Hc. apply orb_true_iff. right. by apply IH.
Qed.

Lemma dotted_not_localhost host : contains "." host = true → to_ascii_lowercase host ≠ "localhost".
Proof. intros Hd%lowercase_dot Heq. by rewrite Heq in Hd. Qed.

(** ** The guards fail closed *)
Lemma dedup_incl x l : x ∈ dedup l → x ∈ l.
Proof.
  induction l as [|y [|z l] IH]; [done..|]. change (dedup (y :: z :: l)) with
    (if bool_decide (y = z) then dedup (z :: l) else y :: dedup (z :: l)).
  case_bool_decide as Hyz; [intros H; right; by apply IH|]. intros [-> | H]%elem_of_cons; [by left|right; by apply IH].
Qed.

Lemma labels_incl x shown : x ∈ labels shown → x ∈ shown.
Proof. intros H%dedup_incl. by rewrite sort_by_perm in H. Qed.

(** The endpoints each guarded client would call. *)
Definition ok_or_nil (r : result (list string) string) : list string := match r with Ok l => l | Err _ => [] end.

Definition embedding_endpoints (embed : EmbedConfig) : list string :=
  match active_embedding_http_backend embed with
  | Some backend =>
      ok_or_nil (ec_effective_endpoints embed
        (if eq_ignore_ascii_case backend (ec_backend embed) then ec_backend embed else backend))
  | None => []
  end.
Definition rerank_endpoints (reranker : RerankConfig) : list string :=
  match rc_endpoint reranker with Ok e => if rc_enabled reranker then [e] else [] | Err _ => [] end.

Section fail_closed.
Context (parse_url : string → option url) (policy : RemoteCallPolicyConfig).
Abbreviation is_local := (endpoint_is_local_or_private parse_url).

(** A guard's answer for the endpoints its client would call: it passes only when the
    policy lets the service call them all, and refuses only when one of them is remote
    and the policy forbids it; the refusal names the service and the setting, and shows
    of the endpoints only the local ones. *)
Definition guards (service : RemoteCallService) (endpoints : list string) (answer : result unit RemoteCallPolicyError)
    : Prop :=
  let forbidden := rp_fail_closed policy = true ∧ service_allowed policy service = false in
  match answer with
  | Ok _ => forbidden → ∀ e, e ∈ endpoints → is_local e = true
  | Err error =>
      forbidden ∧ (∃ e, e ∈ endpoints ∧ is_local e = false) ∧
      pe_service error = service_as_str service ∧ pe_allow_field error = allow_field service ∧
      ∃ shown, pe_endpoint error = String.concat ", " shown ∧
        ∀ label, label ∈ shown →
          label = BLOCKED_REMOTE_ENDPOINT_LABEL ∨
          ∃ e, e ∈ endpoints ∧ is_local e = true ∧ label = endpoint_url_display_label parse_url e
  end.

Lemma display_label_hides service e :
  rp_fail_closed policy = true → service_allowed policy service = false →
  endpoint_policy_display_label parse_url policy service e =
    if is_local e then endpoint_url_display_label parse_url e else BLOCKED_REMOTE_ENDPOINT_LABEL.
Proof.
  intros Hc Ha. unfold endpoint_policy_display_label, remote_endpoint_is_blocked_by_policy, endpoint_status, policy_effect.
  rewrite Hc, Ha. by destruct (is_local e).
Qed.

Lemma report_guards service endpoints detail :
  guards service endpoints (ensure_status_allowed (endpoint_service_report parse_url policy service endpoints detail)).
Proof.
  unfold ensure_status_allowed, endpoint_service_report, blocks_remote_call, policy_effect. cbn [rr_status rr_policy rr_endpoint rr_service].
  destruct (existsb _ endpoints) eqn:Ex; cbn.
  - apply existsb_exists in Ex as (e & He%list_elem_of_In & Hl%negb_true_iff).
    destruct (rp_fail_closed policy) eqn:Hc; [|intros []; congruence].
    destruct (service_allowed policy service) eqn:Ha; [intros []; congruence|]. cbn.
    split; [done|]. split; [by exists e|]. split; [done|]. split; [done|].
    exists (labels (endpoint_policy_display_label parse_url policy service <$> endpoints)). split; [done|].
    intros label (e' & -> & He')%labels_incl%list_elem_of_fmap. rewrite (display_label_hides _ _ Hc Ha).
    destruct (is_local e') eqn:Hl'; [right; by exists e'|by left].
  - intros _ e He. destruct (is_local e) eqn:Hl; [done|].
    assert (existsb (λ e, negb (is_local e)) endpoints = true) as Ht; [|congruence].
    apply existsb_exists. exists e. rewrite Hl. split; [by apply list_elem_of_In|done].
Qed.

Lemma no_call_guards service answer : answer = Ok tt → guards service [] answer.
Proof. intros ->. intros _ e He. by apply elem_of_nil in He. Qed.

Lemma endpoints_report_guards service endpoints missing detail :
  guards service (ok_or_nil endpoints) (ensure_status_allowed (endpoints_report parse_url policy service endpoints missing detail)).
Proof.
  destruct endpoints as [[|e l]|error]; cbn [ok_or_nil endpoints_report]; [by apply no_call_guards|apply report_guards|by apply no_call_guards].
Qed.
End fail_closed.

(** C15: with [privacy.remote_calls.fail_closed] set and a service not allowed, the
    guard in front of the embedder, the LLM or the reranker passes only when every
    endpoint the client would call is local or private by the code's own test; it
    refuses only for an endpoint that is not, and its error names the service and the
    setting that would allow it but no address that failed the test. What the test takes
    for local or private is stated too: of dotted IPv4 addresses exactly the loopback
    and private ones; of other hosts with a dot that are no addresses, those ending in
    .local; every host without a dot. An IPv6 host, in brackets, has no dot, so that
    every IPv6 endpoint passes, a public one too (public_ipv6_allowed), against what
    README.md:81 and docs/usage.md:100 say of external endpoints. *)
Theorem remote_calls_fail_closed (parse_url : string → option url) (policy : RemoteCallPolicyConfig) :
  (∀ embed, guards parse_url policy Embedding (embedding_endpoints embed)
              (ensure_embedding_allowed parse_url policy embed)) ∧
  (∀ llm, guards parse_url policy Llm (ok_or_nil (lc_effective_endpoints llm))
            (ensure_llm_allowed_for_policy parse_url policy llm)) ∧
  (∀ reranker, guards parse_url policy Rerank (rerank_endpoints reranker)
                 (ensure_rerank_allowed parse_url policy reranker)) ∧
  (∀ endpoint scheme port a b c d,
     0 <= a <= 255 → 0 <= b <= 255 → 0 <= c <= 255 → 0 <= d <= 255 →
     parse_url endpoint = Some (MkUrl scheme (Some (dotted a b c d)) port) →
     endpoint_is_local_or_private parse_url endpoint = private_v4 a b) ∧
  (∀ endpoint scheme port host,
     parse_url endpoint = Some (MkUrl scheme (Some host) port) → contains "." host = false →
     endpoint_is_local_or_private parse_url endpoint = true) ∧
  (∀ endpoint scheme port host,
     parse_url endpoint = Some (MkUrl scheme (Some host) port) → contains "." host = true →
     Addr.parse_ipv4 (chars_of host) = None → Addr.parse_ipv6 (chars_of host) = None →
     endpoint_is_local_or_private parse_url endpoint = ends_with ".local" (to_ascii_lowercase host)) ∧
  (∀ endpoint, parse_url endpoint = None → endpoint_is_local_or_private parse_url endpoint = false).
Proof.
  repeat split.
  - intros embed. unfold ensure_embedding_allowed, embedding_status, embedding_endpoints.
    destruct (active_embedding_http_backend embed); [apply endpoints_report_guards|].
    apply no_call_guards. unfold policy_effect. by destruct (_ && _).
  - intros llm. apply endpoints_report_guards.
  - intros reranker. unfold ensure_rerank_allowed, rerank_status, rerank_endpoints.
    destruct (rc_enabled reranker), (rc_endpoint reranker); cbn [negb]; try by apply no_call_guards.
    apply report_guards.
  - intros * Ha Hb Hc Hd Hp. unfold endpoint_is_local_or_private. rewrite Hp. by apply dotted_is_local.
  - intros * Hp Hdot. unfold endpoint_is_local_or_private. rewrite Hp. unfold host_is_local. cbn [u_host].
    by rewrite Hdot, orb_true_r.
  - intros * Hp Hdot H4 H6. unfold endpoint_is_local_or_private. rewrite Hp. unfold host_is_local. cbn [u_host].
    rewrite Hdot, H4, H6, (bool_decide_eq_false_2 _ (dotted_not_localhost host Hdot)). by destruct (ends_with _ _).
  - intros * Hp. unfold endpoint_is_local_or_private. by rewrite Hp.
Qed.

(** A table of parsed URLs, as the url crate reads them. *)
Definition known_urls (endpoint : string) : option url :=
  if bool_decide (endpoint = "https://api.example.com/v1") then Some (MkUrl "https" (Some "api.example.com") None)
  else if bool_decide (endpoint = "http://192.168.1.7:8080/v1") then Some (MkUrl "http" (Some "192.168.1.7") (Some 8080))
  else if bool_decide (endpoint = "https://[2606:4700::1111]/v1") then Some (MkUrl "https" (Some "[2606:4700::1111]") None)
  else None.

Definition closed_policy : RemoteCallPolicyConfig := MkPolicy true false false false.
Definition llm_at (endpoints : list string) : LlmCallConfig := MkLlmConfig true ["judge"] (Ok endpoints).

(** The refusal shows the private endpoint, and not the remote one. *)
Example remote_llm_refused :
  ensure_llm_allowed_for_policy known_urls closed_policy
    (llm_at ["https://api.example.com/v1"; "http://192.168.1.7:8080/v1"]) =
  Err (MkPolicyError "llm" "allow_llm" "<remote-endpoint>, http://192.168.1.7:8080").
Proof. vm_compute. reflexivity. Qed.

Example private_llm_allowed :
  ensure_llm_allowed_for_policy known_urls closed_policy (llm_at ["http://192.168.1.7:8080/v1"]) = Ok tt.
Proof. vm_compute. reflexivity. Qed.

(** The host of an IPv6 URL has no dot in it: a public address passes as a local name,
    though [Ipv6Addr] would have told it from the loopback and unique local ones. *)
Example public_ipv6_allowed :
  ensure_llm_allowed_for_policy known_urls closed_policy (llm_at ["https://[2606:4700::1111]/v1"]) = Ok tt ∧
  (groups ← Addr.parse_ipv6 (chars_of "2606:4700::1111");
   Some (Addr.is_loopback groups || Addr.is_unique_local groups)) = Some false.
Proof. vm_compute. done. Qed.
