(* ===== verification/Projects.v ===== *)
(** * Projects

    [src/src/core/project.rs]: the identifier of a project, how it is found, and the
    migration that gives a project to the drawers without one, batch by batch, in the
    form with a connection of its own and in the form under the writer lease. The
    scopes of a search, of the same file, are with the search. Git, the file system,
    the environment and the percent-encoding crate are given. *)

From Stdlib Require Import ZArith Lia String Ascii.
From stdpp Require Import base tactics list gmap strings numbers.
From S2P Require Import Prelude Order Text Float Sqlite ProcessIdentity WriterLease Chars Utf8 Drawer DrawerStore Palace.
Open Scope Z_scope.
Open Scope rust_scope.

Definition PROJECT_MIGRATION_BATCH_SIZE : nat := Z.to_nat 1000.
Definition PROJECT_MIGRATION_RETRY_DELAYS_MS : list Z := [500; 1000; 2000].
Definition MAX_PROJECT_ID_BYTES : Z := 255.

Inductive ProjectError :=
  | ProjectEmpty
  | SurroundingWhitespace
  | Slash
  | ControlCharacter
  | TooLong (max_bytes : Z)
  | Git (message : string)
  | InvalidUtf8Path
  | ProjectSqlite (message : string)
  | ProjectDatabase (e : DbError).

(** ** The identifier of a project *)

(** [char::is_control]: the general category Cc. *)
Definition is_control (c : Z) : bool := ((0 <=? c) && (c <=? 31)) || ((127 <=? c) && (c <=? 159)).

Definition validate_project_id (raw : string) : result string ProjectError :=
  if bool_decide (raw = "") then Err ProjectEmpty
  else if negb (bool_decide (Text.trim raw = raw)) then Err SurroundingWhitespace
  else if Text.contains "/" raw then Err Slash
  else if existsb is_control (decode_str raw) then Err ControlCharacter
  else if MAX_PROJECT_ID_BYTES <? str_len raw then Err (TooLong MAX_PROJECT_ID_BYTES)
  else Ok raw.

(** What the system says of a directory: its bytes, whether git runs there and what it
    prints ([None] without a repository), the canonical form of the root, and the last
    component of that with whether it is UTF-8. *)
Record directory := MkDirectory {
  dir_has_nul : bool;
  dir_git : result (option (option string)) string;
  dir_canonical : option string → string;
  dir_basename : string → option (option string);
}.

Definition git_repo_root (d : directory) : result (option string) ProjectError :=
  match dir_git d with
  | Err message => Err (Git message)
  | Ok None => Ok None
  | Ok (Some None) => Err InvalidUtf8Path
  | Ok (Some (Some stdout)) =>
      let trimmed := Text.trim stdout in
      Ok (if bool_decide (trimmed = "") then None else Some trimmed)
  end.

Definition ok_of {A E} (r : result A E) : option A := match r with Ok a => Some a | Err _ => None end.

Definition infer_project_id_from_path (d : directory) : result (option string) ProjectError :=
  if dir_has_nul d then Ok None
  else match git_repo_root d with
       | Err e => Err e
       | Ok root =>
           let canonical := dir_canonical d root in
           if bool_decide (canonical = "") then Ok None
           else match dir_basename d canonical with
                | Some (Some candidate) => Ok (ok_of (validate_project_id candidate))
                | Some None | None => Ok None
                end
       end.

Definition resolve_project_id (explicit configured from_env : option string) (cwd : option directory)
    : result (option string) ProjectError :=
  let validated := fun raw => match validate_project_id raw with Ok id => Ok (Some id) | Err e => Err e end in
  match explicit, configured, from_env, cwd with
  | Some raw, _, _, _ => validated raw
  | None, Some raw, _, _ => validated raw
  | None, None, Some raw, _ => validated raw
  | None, None, None, Some d => infer_project_id_from_path d
  | None, None, None, None => Ok None
  end.

(** [file_uri_to_path]; [decoded] is the text the percent-encoding crate decodes. *)
Definition file_uri_to_path (percent_decode : string → option string) (uri : string)
    : result (option string) ProjectError :=
  if negb (String.prefix "file://" uri) then Ok None
  else
    let rest := String.substring 7 (String.length uri - 7) uri in
    if bool_decide (rest = "") then Ok None
    else match percent_decode rest with
         | None => Err InvalidUtf8Path
         | Some decoded =>
             Ok (Some (if String.prefix "/" decoded then decoded
                       else if String.prefix "localhost/" decoded
                            then "/" +:+ String.substring 10 (String.length decoded - 10) decoded
                            else "/" +:+ decoded))
         end.

(** ** A batch of the migration *)
Definition set_project (project_id : string) (row : Row) : Row :=
  MkRow (r_content row) (r_wing row) (r_room row) (r_source_file row) (r_source_root row) (r_source_type row)
    (r_confidence row) (r_added_at row) (r_chunk_index row) (r_normalize_version row) (r_importance row)
    (Some project_id) (r_content_hash row) (r_memory_kind row) (r_domain row) (r_field row) (r_anchor_kind row)
    (r_anchor_id row) (r_parent_anchor_id row) (r_provenance row) (r_statement row) (r_tier row) (r_status row)
    (r_supporting_refs row) (r_counterexample_refs row) (r_teaching_refs row) (r_verification_refs row)
    (r_scope_constraints row) (r_trigger_hints row) (r_is_pinned row) (r_pin_order row) (r_supersedes row)
    (r_valid_from row) (r_valid_until row) (r_effective_importance row) (r_creation_operation_id row)
    (r_deleted_at row) (r_updated_at row) (r_merge_count row) (r_stale_penalty_applied row) (r_compacted_into row).

Definition unassigned (wing : option string) (row : Row) : bool :=
  bool_decide (r_project_id row = None) && match wing with None => true | Some w => bool_decide (r_wing row = w) end.

Definition unassigned_ids (wing : option string) (db : Db) : list string :=
  map fst (List.filter (fun e => unassigned wing e.2) (map_to_list (db_drawers db))).

Definition collect_batch_ids (wing : option string) (p : Palace) : list string :=
  take PROJECT_MIGRATION_BATCH_SIZE (sort_by (fun a b => not_gt (String.compare a b)) (unassigned_ids wing (pl_db p))).

Definition count_remaining (wing : option string) (p : Palace) : nat := length (unassigned_ids wing (pl_db p)).

Definition update_drawers (ids : list string) (project_id : string) (p : Palace) : Palace :=
  with_db (with_drawers (pl_db p)
             (map_imap (fun id row => Some (if bool_decide (id ∈ ids) then set_project project_id row else row))
                (db_drawers (pl_db p)))) p.

(** The table of vectors is created with the first vector: before that the statement
    names a table that does not exist. *)
Definition update_vectors (ids : list string) (project_id : string) (p : Palace) : Palace * result unit ProjectError :=
  match pl_dim p with
  | None => (p, Err (ProjectSqlite "no such table: drawer_vectors"))
  | Some _ =>
      (with_vectors (pl_dim p)
         (map_imap (fun id v => Some (if bool_decide (id ∈ ids) then (v.1, Some project_id) else v)) (pl_vectors p))
         (pl_fingerprints p) p, Ok tt)
  end.

(** The statements of one batch: how many were updated and how many are left. *)
Definition migrate_batch (project_id : string) (wing : option string) (p : Palace)
    : Palace * result (option (nat * nat)) ProjectError :=
  let ids := collect_batch_ids wing p in
  match ids with
  | [] => (p, Ok None)
  | _ =>
      let p := update_drawers ids project_id p in
      match update_vectors ids project_id p with
      | (p, Err e) => (p, Err e)
      | (p, Ok _) => (p, Ok (Some (length ids, count_remaining wing p)))
      end
  end.

(** ** The loop *)
Record ProjectMigrationProgress := MkProgress { pg_batch_index : nat; pg_updated : nat; pg_remaining : nat }.
Inductive ProjectMigrationEvent := BusyEvent (delay_ms : Z) | ProgressEvent (p : ProjectMigrationProgress).

(** What a round comes to: a batch, the end, the wait for a busy database, an error. *)
Inductive round_outcome := Batch (updated remaining : nat) | Finished | Waiting | Failed (e : ProjectError).

Section migrate.
Context {PE : PalaceEnv} {JT : JsonText}.

Fixpoint migrate_loop (round : pstate → pstate * round_outcome) (fuel batch_index : nat)
    (events : list ProjectMigrationEvent) (s : pstate)
    : option (pstate * list ProjectMigrationEvent * result unit ProjectError) :=
  match fuel with
  | O => None
  | S fuel =>
      match round s with
      | (s, Finished) => Some (s, events, Ok tt)
      | (s, Failed e) => Some (s, events, Err e)
      | (s, Waiting) =>
          migrate_loop round fuel batch_index (events ++ (BusyEvent <$> PROJECT_MIGRATION_RETRY_DELAYS_MS))%list s
      | (s, Batch updated remaining) =>
          migrate_loop round fuel (S batch_index)
            (events ++ [ProgressEvent (MkProgress (S batch_index) updated remaining)])%list s
      end
  end.

Definition migrate_with (round : string → pstate → pstate * round_outcome) (fuel : nat) (project_id : string) (s : pstate)
    : option (pstate * list ProjectMigrationEvent * result unit ProjectError) :=
  match validate_project_id project_id with
  | Err e => Some (s, [], Err e)
  | Ok project_id => migrate_loop (round project_id) fuel 0 [] s
  end.

(** [migrate_null_project_ids]: [opened] is the admission of the connection of each
    round, [begins] what its BEGIN IMMEDIATE answers without waiting. *)
Inductive begin_answer := Begun | BeginBusy | BeginFailed (message : string).

Context (opened : nat → result unit DbError) (begins : nat → begin_answer) (commits : nat → result unit string).

Definition own_round (wing : option string) (project_id : string) (s : pstate) : pstate * round_outcome :=
  let n := ps_access s in
  let '(_, s) := begin_access s in
  match opened n with
  | Err e => (s, Failed (ProjectDatabase e))
  | Ok _ =>
      match begins n with
      | BeginBusy => (s, Waiting)
      | BeginFailed message => (s, Failed (ProjectSqlite message))
      | Begun =>
          match migrate_batch project_id wing (ps_palace s) with
          | (_, Err e) => (s, Failed e)
          | (p, Ok answer) =>
              match commits n with
              | Err message => (s, Failed (ProjectSqlite message))
              | Ok _ => (MkPstate (ps_reserve s) ((ps_tables s).1, p) (ps_access s),
                         match answer with None => Finished | Some (updated, remaining) => Batch updated remaining end)
              end
          end
      end
  end.

Definition migrate_null_project_ids (fuel : nat) (project_id : string) (wing : option string) (s : pstate)
    : option (pstate * list ProjectMigrationEvent * result unit ProjectError) :=
  migrate_with (own_round wing) fuel project_id s.

(** [migrate_null_project_ids_with_writer_lease]: each batch is a write under the lease;
    without a lease its statements are not in a transaction. [is_lock] is
    [db_error_is_sqlite_lock]. *)
Context (is_lock : DbError → bool).

Definition leased_round (lease : option RuntimeWriterLease) (wing : option string) (project_id : string) (s : pstate)
    : pstate * round_outcome :=
  let '(a, s) := begin_access s in
  let '(tables, r) := with_runtime_writer_lease_write blake3_hex ProjectDatabase true (ca_begun a 0) (ca_committed a 0)
                        (ca_sys a) (ca_own a) lease "migrate project id batch" (ca_cleanup_ms a) (ca_fence_ms a)
                        (fun st => let '(p, r) := migrate_batch project_id wing st.2 in ((st.1, p), r)) (ps_tables s) in
  let s := MkPstate (ps_reserve s) tables (ps_access s) in
  (s, match r with
      | Ok (Some (updated, remaining)) => Batch updated remaining
      | Ok None => Finished
      | Err (ProjectDatabase e) => if is_lock e then Waiting else Failed (ProjectDatabase e)
      | Err e => Failed e
      end).

Definition migrate_null_project_ids_with_writer_lease (fuel : nat) (project_id : string) (wing : option string)
    (lease : option RuntimeWriterLease) (s : pstate)
    : option (pstate * list ProjectMigrationEvent * result unit ProjectError) :=
  migrate_with (leased_round lease wing) fuel project_id s.
End migrate.

(** ** Identifiers that were resolved are valid *)
Lemma validate_same raw id : validate_project_id raw = Ok id → id = raw.
Proof. unfold validate_project_id. repeat case_match; naive_solver. Qed.

Lemma validated_valid raw id : validate_project_id raw = Ok id → validate_project_id id = Ok id.
Proof. intros H. by rewrite (validate_same _ _ H) at 1; rewrite H, (validate_same _ _ H). Qed.

Lemma resolve_valid explicit configured from_env cwd id :
  resolve_project_id explicit configured from_env cwd = Ok (Some id) → validate_project_id id = Ok id.
Proof.
  unfold resolve_project_id, infer_project_id_from_path.
  assert (Hv : ∀ raw, match validate_project_id raw with Ok id => Ok (Some id) | Err e => Err e end = Ok (Some id) →
                      validate_project_id id = Ok id).
  { intros raw H. destruct (validate_project_id raw) eqn:E; simplify_eq/=. by eapply validated_valid. }
  destruct explicit; [apply Hv|]. destruct configured; [apply Hv|]. destruct from_env; [apply Hv|].
  destruct cwd as [d|]; [|done]. destruct (dir_has_nul d); [done|]. destruct (git_repo_root d); [|done].
  case_bool_decide; [done|]. destruct (dir_basename d _) as [[raw|]|]; [|done..].
  destruct (validate_project_id raw) eqn:E; intros [= <-]. by eapply validated_valid.
Qed.

(** ** Drawers given a project *)

(** The palace in which the drawers of a set, and their vectors, have the project. *)
Definition assign (project_id : string) (ids : list string) (p : Palace) : Palace :=
  let p := update_drawers ids project_id p in
  with_vectors (pl_dim p)
    (map_imap (fun id v => Some (if bool_decide (id ∈ ids) then (v.1, Some project_id) else v)) (pl_vectors p))
    (pl_fingerprints p) p.

Lemma map_imap_if {A} (f : A → A) (l : list string) (m : gmap string A) id :
  map_imap (fun id x => Some (if bool_decide (id ∈ l) then f x else x)) m !! id =
  (fun x => if bool_decide (id ∈ l) then f x else x) <$> m !! id.
Proof. rewrite map_lookup_imap. by destruct (m !! id). Qed.

Lemma map_imap_if_same {A} (f : A → A) (l l' : list string) (m : gmap string A) :
  (∀ id, id ∈ l ↔ id ∈ l') →
  map_imap (fun id x => Some (if bool_decide (id ∈ l) then f x else x)) m =
  map_imap (fun id x => Some (if bool_decide (id ∈ l') then f x else x)) m.
Proof. intros Hl. apply map_eq. intros id. rewrite !map_imap_if. by rewrite (bool_decide_ext _ _ (Hl id)). Qed.

Lemma map_imap_if_app {A} (f : A → A) (l l' : list string) (m : gmap string A) :
  (∀ x, f (f x) = f x) →
  map_imap (fun id x => Some (if bool_decide (id ∈ l') then f x else x))
    (map_imap (fun id x => Some (if bool_decide (id ∈ l) then f x else x)) m) =
  map_imap (fun id x => Some (if bool_decide (id ∈ (l ++ l')%list) then f x else x)) m.
Proof.
  intros Hf. apply map_eq. intros id. rewrite !map_imap_if. destruct (m !! id) as [x|]; [|done]. cbn. f_equal.
  rewrite (bool_decide_ext (id ∈ (l ++ l')%list) (id ∈ l ∨ id ∈ l')) by set_solver.
  repeat case_bool_decide; naive_solver.
Qed.

Lemma assign_same project ids ids' p : (∀ id, id ∈ ids ↔ id ∈ ids') → assign project ids p = assign project ids' p.
Proof.
  intros H. unfold assign, update_drawers, with_db, with_vectors. cbn.
  by rewrite (map_imap_if_same (set_project project) ids ids'), (map_imap_if_same (fun v => (v.1, Some project)) ids ids').
Qed.

Lemma assign_app project ids ids' p : assign project ids' (assign project ids p) = assign project (ids ++ ids')%list p.
Proof.
  unfold assign, update_drawers, with_db, with_vectors, with_drawers. cbn.
  rewrite (map_imap_if_app (set_project project)) by done.
  by rewrite (map_imap_if_app (fun v : list f32 * option string => (v.1, Some project))).
Qed.

Lemma elem_of_unassigned wing db id :
  id ∈ unassigned_ids wing db ↔ ∃ row, db_drawers db !! id = Some row ∧ unassigned wing row = true.
Proof.
  unfold unassigned_ids. rewrite list_elem_of_In, in_map_iff. setoid_rewrite filter_In.
  setoid_rewrite <- list_elem_of_In. split.
  - intros ([i row] & <- & Hin%elem_of_map_to_list & Hu). eauto.
  - intros (row & Hin%elem_of_map_to_list & Hu). by exists (id, row).
Qed.

Lemma NoDup_unassigned wing db : NoDup (unassigned_ids wing db).
Proof.
  unfold unassigned_ids. pose proof (NoDup_fst_map_to_list (db_drawers db)) as Hn.
  induction (map_to_list (db_drawers db)) as [|[i row] l IH]; [constructor|]. cbn in *.
  inversion Hn as [|? ? Hi Hn' Hx]; subst. destruct (unassigned wing row); cbn; [|by apply IH]. constructor; [|by apply IH].
  intros Hin. apply Hi. apply list_elem_of_In, in_map_iff in Hin as ([i' r'] & <- & Hin). apply filter_In in Hin as [Hin _].
  apply list_elem_of_In in Hin. apply list_elem_of_fmap. by exists (i', r').
Qed.

Lemma unassigned_set project wing row : unassigned wing (set_project project row) = false.
Proof. done. Qed.

Lemma unassigned_after project wing ids p id :
  id ∈ unassigned_ids wing (pl_db (assign project ids p)) ↔ id ∈ unassigned_ids wing (pl_db p) ∧ id ∉ ids.
Proof.
  rewrite !elem_of_unassigned. cbn. rewrite map_imap_if.
  destruct (db_drawers (pl_db p) !! id) as [row|]; cbn; [|naive_solver].
  case_bool_decide; [|naive_solver]. split; [|naive_solver]. intros (r & [= <-] & Hu). done.
Qed.

Lemma map_imap_nil {A} (f : A → A) (m : gmap string A) :
  map_imap (fun id x => Some (if bool_decide (id ∈ @nil string) then f x else x)) m = m.
Proof. apply map_eq. intros id. rewrite map_imap_if. by destruct (m !! id). Qed.

Lemma assign_nil project p : assign project [] p = p.
Proof.
  unfold assign, update_drawers, with_db, with_vectors, with_drawers. cbn.
  rewrite (map_imap_nil (set_project project)), (map_imap_nil (fun v : list f32 * option string => (v.1, Some project))).
  by destruct p as [[] ? ? ? ? ? ? ?].
Qed.

Lemma batch_ids wing p :
  let ids := collect_batch_ids wing p in
  NoDup ids ∧ (∀ id, id ∈ ids → id ∈ unassigned_ids wing (pl_db p)) ∧
  length ids = Nat.min PROJECT_MIGRATION_BATCH_SIZE (length (unassigned_ids wing (pl_db p))).
Proof.
  cbn. unfold collect_batch_ids. set (sorted := sort_by _ _).
  assert (Hp : sorted ≡ₚ unassigned_ids wing (pl_db p)) by apply sort_by_perm. split_and!.
  - eapply sublist_NoDup; [|apply sublist_take]. rewrite Hp. apply NoDup_unassigned.
  - intros id Hin. rewrite <- Hp. by eapply elem_of_take in Hin as (i & Hi%list_elem_of_lookup_2 & _).
  - by rewrite length_take, Hp.
Qed.

Lemma batch_left project wing p :
  let ids := collect_batch_ids wing p in
  unassigned_ids wing (pl_db p) ≡ₚ (ids ++ unassigned_ids wing (pl_db (assign project ids p)))%list.
Proof.
  cbv zeta. destruct (batch_ids wing p) as (Hn & Hi & _). apply NoDup_Permutation.
  - apply NoDup_unassigned.
  - apply list_relations.list.NoDup_app. split_and!; [done| |apply NoDup_unassigned]. intros id Hin [_ Hno]%unassigned_after. done.
  - intros id. rewrite elem_of_app, unassigned_after. split; [|naive_solver].
    intros H. destruct (decide (id ∈ collect_batch_ids wing p)); auto.
Qed.

Lemma migrate_batch_assigns project wing p :
  is_Some (pl_dim p) →
  migrate_batch project wing p =
    let ids := collect_batch_ids wing p in
    match ids with
    | [] => (p, Ok None)
    | _ => (assign project ids p, Ok (Some (length ids, length (unassigned_ids wing (pl_db (assign project ids p))))))
    end.
Proof.
  intros [dim Hd]. unfold migrate_batch. destruct (collect_batch_ids wing p) as [|id ids] eqn:E; [done|].
  unfold update_vectors, assign, count_remaining. cbn [pl_dim update_drawers with_db]. rewrite Hd. reflexivity.
Qed.

(** ** A run of the migration *)
Definition updates (e : ProjectMigrationEvent) : nat := match e with ProgressEvent p => pg_updated p | BusyEvent _ => 0 end.
Definition total_updated (events : list ProjectMigrationEvent) : nat := sum_list (updates <$> events).

Lemma total_updated_app l l' : total_updated (l ++ l')%list = (total_updated l + total_updated l')%nat.
Proof. unfold total_updated. induction l as [|e l IH]; [done|]. cbn. unfold sum_list in *. cbn in *. lia. Qed.

(** The rounds of the next [fuel] in which the database is not busy. *)
Fixpoint free_rounds (busy : nat → bool) (n fuel : nat) : nat :=
  match fuel with O => 0 | S fuel => ((if busy n then 0 else 1) + free_rounds busy (S n) fuel)%nat end.

Section runs.
Context (project : string) (wing : option string) (busy : nat → bool) (round : pstate → pstate * round_outcome).

(** A round alone on the database. *)
Definition plain_round : Prop :=
  ∀ s, ps_access (round s).1 = S (ps_access s) ∧
    if busy (ps_access s) then ps_palace (round s).1 = ps_palace s ∧ (round s).2 = Waiting
    else ∀ p answer, migrate_batch project wing (ps_palace s) = (p, Ok answer) →
           ps_palace (round s).1 = p ∧
           (round s).2 = match answer with None => Finished | Some (updated, remaining) => Batch updated remaining end.

Lemma migrate_loop_completes fuel k index events s :
  plain_round → is_Some (pl_dim (ps_palace s)) →
  (length (unassigned_ids wing (pl_db (ps_palace s))) <= k * PROJECT_MIGRATION_BATCH_SIZE)%nat →
  (k < free_rounds busy (ps_access s) fuel)%nat →
  ∃ s' more, migrate_loop round fuel index events s = Some (s', (events ++ more)%list, Ok tt)
    ∧ ps_palace s' = assign project (unassigned_ids wing (pl_db (ps_palace s))) (ps_palace s)
    ∧ total_updated more = length (unassigned_ids wing (pl_db (ps_palace s))).
Proof.
  intros Hr. revert k index events s. induction fuel as [|fuel IH]; intros k index events s Hd Hk Hf; cbn in Hf; [lia|].
  cbn [migrate_loop]. destruct (Hr s) as [Ha Ho]. destruct (round s) as [s1 o]. cbn in Ha, Ho.
  destruct (busy (ps_access s)).
  - destruct Ho as [Hp ->]. rewrite <- Ha in Hf. rewrite <- Hp in Hd, Hk |- *.
    destruct (IH k index (events ++ (BusyEvent <$> PROJECT_MIGRATION_RETRY_DELAYS_MS))%list s1 Hd Hk Hf) as (s' & more & -> & Hs & Ht).
    exists s', ((BusyEvent <$> PROJECT_MIGRATION_RETRY_DELAYS_MS) ++ more)%list. rewrite app_assoc. split_and!; [done..|].
    by rewrite total_updated_app, Ht.
  - pose proof (migrate_batch_assigns project wing (ps_palace s) Hd) as Hm. cbv zeta in Hm.
    pose proof (batch_left project wing (ps_palace s)) as Hl. destruct (batch_ids wing (ps_palace s)) as (_ & _ & Hlen).
    cbv zeta in Hl. destruct (collect_batch_ids wing (ps_palace s)) as [|id ids] eqn:E.
    + destruct (Ho _ _ Hm) as [Hp ->]. assert (Hu : unassigned_ids wing (pl_db (ps_palace s)) = []).
      { apply nil_length_inv. cbn in Hlen. unfold PROJECT_MIGRATION_BATCH_SIZE in Hlen. lia. }
      exists s1, []. by rewrite app_nil_r, Hu, Hp, assign_nil.
    + set (batch := id :: ids) in *. destruct (Ho _ _ Hm) as [Hp ->].
      assert (Hlen2 : length (unassigned_ids wing (pl_db (ps_palace s))) =
                      (length batch + length (unassigned_ids wing (pl_db (ps_palace s1))))%nat).
      { by rewrite Hp, <- length_app, <- Hl. }
      destruct k as [|k]; [cbn in Hk; rewrite Hlen2 in Hk; cbn in Hk; lia|]. rewrite <- Ha in Hf.
      destruct (IH k (S index) (events ++ [ProgressEvent (MkProgress (S index) (length batch)
        (length (unassigned_ids wing (pl_db (assign project batch (ps_palace s))))))])%list s1) as (s' & more & -> & Hs & Ht).
      { by rewrite Hp. }
      { cbn [Nat.mul] in Hk. rewrite Hlen2 in Hk, Hlen. unfold PROJECT_MIGRATION_BATCH_SIZE in *. lia. }
      { lia. }
      eexists s', (_ :: more). split_and!; [by rewrite <- app_assoc| |].
      * rewrite Hs, Hp, assign_app. apply assign_same. intros x. by rewrite <- Hl.
      * cbn. change (length batch + total_updated more = length (unassigned_ids wing (pl_db (ps_palace s))))%nat. lia.
Qed.
End runs.

Definition begin_busy (b : begin_answer) : bool := match b with BeginBusy => true | _ => false end.

Section theorems.
Context {PE : PalaceEnv} {JT : JsonText}.
Context (opened : nat → result unit DbError) (begins : nat → begin_answer) (commits : nat → result unit string).
Context (is_lock : DbError → bool).

Lemma own_round_plain project wing :
  (∀ n t, other n t = t) → (∀ n, opened n = Ok tt) → (∀ n, commits n = Ok tt) →
  (∀ n message, begins n ≠ BeginFailed message) →
  plain_round project wing (fun n => begin_busy (begins n)) (own_round opened begins commits wing project).
Proof.
  intros Hq Ho Hc Hb s. unfold own_round, begin_access. rewrite Ho, Hq. cbn [fst snd].
  destruct (begins (ps_access s)) eqn:E; [|by split|by destruct (Hb _ _ E)]. rewrite Hc.
  change (ps_palace {| ps_reserve := ps_reserve s; ps_tables := ps_tables s; ps_access := S (ps_access s) |}) with (ps_palace s).
  cbn [begin_busy]. destruct (migrate_batch project wing (ps_palace s)) as [p [answer|e]]; split; [done| |done|done].
  intros p' answer' [= <- <-]. done.
Qed.

(** C17: alone on a database that has a table of vectors, migrate_null_project_ids with
    a valid project identifier ends with success, provided that opening the database,
    BEGIN (apart from being busy) and COMMIT never fail: with a thousand drawers to a
    batch, [k] batches and one last look are enough, however many rounds find the
    database busy. Afterwards the drawers that had no project, of the wing that was
    asked for, have the new one and their vectors too; every other drawer and vector,
    and every other table, is as before. The batches that were reported add up to the
    number of those drawers. *)
Theorem migration_completes (project : string) (wing : option string) (fuel k : nat) (s : pstate) :
  (∀ n t, other n t = t) → (∀ n, opened n = Ok tt) → (∀ n, commits n = Ok tt) →
  (∀ n message, begins n ≠ BeginFailed message) →
  validate_project_id project = Ok project → is_Some (pl_dim (ps_palace s)) →
  (length (unassigned_ids wing (ps_db s)) <= k * PROJECT_MIGRATION_BATCH_SIZE)%nat →
  (k < free_rounds (fun n => begin_busy (begins n)) (ps_access s) fuel)%nat →
  ∃ s' events,
    migrate_null_project_ids opened begins commits fuel project wing s = Some (s', events, Ok tt)
    ∧ total_updated events = length (unassigned_ids wing (ps_db s))
    ∧ unassigned_ids wing (ps_db s') = []
    ∧ (∀ id, db_drawers (ps_db s') !! id =
         (fun row => if unassigned wing row then set_project project row else row) <$> db_drawers (ps_db s) !! id)
    ∧ (∀ id, pl_vectors (ps_palace s') !! id =
         (fun v => if bool_decide (id ∈ unassigned_ids wing (ps_db s)) then (v.1, Some project) else v)
           <$> pl_vectors (ps_palace s) !! id)
    ∧ ps_palace s' = with_db (with_drawers (ps_db s) (db_drawers (ps_db s')))
                       (with_vectors (pl_dim (ps_palace s)) (pl_vectors (ps_palace s')) (pl_fingerprints (ps_palace s))
                          (ps_palace s)).
Proof.
  intros Hq Ho Hc Hb Hv Hd Hk Hf.
  destruct (migrate_loop_completes project wing _ _ fuel k 0 [] s (own_round_plain project wing Hq Ho Hc Hb) Hd Hk Hf)
    as (s' & events & Hrun & Hs & Ht).
  exists s', events. unfold migrate_null_project_ids, migrate_with. rewrite Hv. split_and!; [done|done| | | |];
    unfold ps_db in *; rewrite Hs; [| | |done].
  - destruct (unassigned_ids wing (pl_db (assign _ _ _))) as [|id l] eqn:E; [done|].
    assert (Hin : id ∈ unassigned_ids wing (pl_db (assign project (unassigned_ids wing (pl_db (ps_palace s))) (ps_palace s)))).
    { rewrite E. left. }
    by apply unassigned_after in Hin as [].
  - intros id. cbn. rewrite map_imap_if. destruct (db_drawers (pl_db (ps_palace s)) !! id) as [row|] eqn:E; [|done].
    cbn. f_equal. destruct (unassigned wing row) eqn:Eu.
    + rewrite bool_decide_eq_true_2; [done|]. apply elem_of_unassigned. eauto.
    + rewrite bool_decide_eq_false_2; [done|]. intros (r & Hr & Hx)%elem_of_unassigned. congruence.
  - intros id. cbn. by rewrite (map_imap_if (fun v : list f32 * option string => (v.1, Some project))).
Qed.

(** ** Drawers the migration leaves alone *)
Section untouched.
Context (project : string) (wing : option string) (id : string) (row : Row) (v : option (list f32 * option string)).

Definition stands (p : Palace) : Prop := db_drawers (pl_db p) !! id = Some row ∧ pl_vectors p !! id = v.

Lemma migrate_batch_stands p : unassigned wing row = false → stands p → stands (migrate_batch project wing p).1.
Proof.
  intros Hu [Hr Hw]. unfold migrate_batch. destruct (collect_batch_ids wing p) as [|x ids] eqn:E; [done|].
  assert (Hno : id ∉ x :: ids).
  { rewrite <- E. intros Hin. destruct (batch_ids wing p) as (_ & Hi & _).
    apply Hi, elem_of_unassigned in Hin as (r & Hr' & Hu'). congruence. }
  assert (Hd : stands (update_drawers (x :: ids) project p)).
  { split; [|done]. cbn. rewrite map_imap_if, Hr. cbn. by rewrite bool_decide_eq_false_2. }
  unfold update_vectors. cbn [pl_dim update_drawers with_db]. destruct (pl_dim p); [|done].
  destruct Hd as [Hd1 Hd2]. split; [done|]. cbn.
  rewrite (map_imap_if (fun v : list f32 * option string => (v.1, Some project))), Hw.
  destruct v as [w|]; [|done]. cbn. by rewrite bool_decide_eq_false_2.
Qed.

Lemma migrate_loop_stands round fuel index events s s' events' r :
  (∀ s, stands (ps_palace s) → stands (ps_palace (round s).1)) → stands (ps_palace s) →
  migrate_loop round fuel index events s = Some (s', events', r) → stands (ps_palace s').
Proof.
  intros Hr. revert index events s. induction fuel as [|fuel IH]; intros index events s Hs; [done|]. cbn.
  specialize (Hr s Hs). destruct (round s) as [s1 []]; cbn in Hr; [by apply IH| |by apply IH|]; by intros [= <- _ _].
Qed.

(** A write under the lease keeps what its statements keep. *)
Lemma lease_write_stands {T E} (write : lease_db * Palace → (lease_db * Palace) * result T E) from lease a operation st :
  (∀ st, stands st.2 → stands (write st).1.2) → stands st.2 →
  stands (with_runtime_writer_lease_write blake3_hex from true (ca_begun a 0) (ca_committed a 0) (ca_sys a) (ca_own a)
            lease operation (ca_cleanup_ms a) (ca_fence_ms a) write st).1.2.
Proof.
  intros Hw Hs. unfold with_runtime_writer_lease_write. destruct lease as [l|]; [|by apply Hw].
  unfold with_runtime_writer_lease_transaction. cbn [negb]. destruct (ca_begun a 0); [|done].
  unfold fenced_body. destruct (require_runtime_writer_lease_tx _ _ _ _); [|done].
  set (st1 := (_, st.2)). assert (H1 : stands st1.2) by done. apply Hw in H1.
  destruct (write st1) as [st' [value|e]]; [|done]. by destruct (ca_committed a 0).
Qed.

(** A drawer that has a project, or is in another wing, keeps its row and its vector
    through either form of the migration, whatever the system answers and whenever the
    run ends, as long as other processes leave it alone. *)
Theorem migration_leaves_assigned fuel lease s s' events r :
  unassigned wing row = false → (∀ n t, stands t.2 → stands (other n t).2) → stands (ps_palace s) →
  migrate_null_project_ids opened begins commits fuel project wing s = Some (s', events, r)
  ∨ migrate_null_project_ids_with_writer_lease is_lock fuel project wing lease s = Some (s', events, r) →
  stands (ps_palace s').
Proof.
  intros Hu Ho Hs. unfold migrate_null_project_ids, migrate_null_project_ids_with_writer_lease, migrate_with.
  destruct (validate_project_id project) as [id'|e] eqn:E; [|by intros [[= <- _ _] | [= <- _ _]]].
  rewrite (validate_same _ _ E). intros [H | H]; eapply migrate_loop_stands in H; try done; intros t Ht;
    apply (Ho (ps_access t)) in Ht.
  - unfold own_round, begin_access. destruct (opened _); [|done]. destruct (begins _); try done.
    pose proof (migrate_batch_stands _ Hu Ht) as Hm. cbn [fst snd]. unfold ps_palace at 1. cbn [ps_tables].
    destruct (migrate_batch _ _ _) as [p [answer|e]]; [|done]. by destruct (commits _).
  - unfold leased_round, begin_access. set (write := fun st : lease_db * Palace => _).
    assert (Hw : ∀ st, stands st.2 → stands (write st).1.2).
    { intros st Hst. apply (migrate_batch_stands _ Hu) in Hst. unfold write. by destruct (migrate_batch _ _ _) as [p q]. }
    assert (Hl := lease_write_stands write ProjectDatabase lease (answers (ps_access t)) "migrate project id batch" (other (ps_access t) (ps_tables t)) Hw Ht).
    cbn [ps_tables] in Hl |- *. destruct (with_runtime_writer_lease_write _ _ _ _ _ _ _ _ _ _ _ _ _) as [tables q].
    exact Hl.
Qed.
End untouched.
End theorems.
