(* ===== verification/Novelty.v ===== *)
(** * Novelty

    [src/src/ingest/novelty.rs], with the queries and the merge of [src/src/core/db.rs] and
    [db_writer_lease_fence.rs]: whether a text that is about to be stored is like a drawer
    that is already there, and the update that merges it into that drawer. The distance
    of two vectors is sqlite-vec's, and so are the nearest neighbours; the scan metrics
    of the observability module are left out. *)

From Stdlib Require Import ZArith Lia String Ascii SpecFloat.
From stdpp Require Import base tactics list gmap strings numbers.
From S2P Require Import Prelude Order Text Float Sqlite ProcessIdentity WriterLease Drawer DrawerStore Gating Search Palace.
Open Scope Z_scope.
Open Scope rust_scope.

Inductive NoveltyAction := NoveltyInsert | NoveltyMerge | NoveltyDrop.

#[export] Instance novelty_action_eq_dec : EqDecision NoveltyAction.
Proof. solve_decision. Defined.

Definition action_as_str (a : NoveltyAction) : string :=
  match a with NoveltyInsert => "insert" | NoveltyMerge => "merge" | NoveltyDrop => "drop" end.

Record NoveltyCandidate := MkNoveltyCandidate {
  nc_wing : string;
  nc_room : option string;
  nc_project_id : option string;
}.

Record NoveltyDecision := MkNoveltyDecision {
  nd_action : NoveltyAction;
  nd_near_drawer_id : option string;
  nd_cosine : option f32;
  nd_should_audit : bool;
  nd_audit_decision : option string;
}.

Definition novelty_insert : NoveltyDecision := MkNoveltyDecision NoveltyInsert None None true None.
Definition without_audit (d : NoveltyDecision) : NoveltyDecision :=
  MkNoveltyDecision (nd_action d) (nd_near_drawer_id d) (nd_cosine d) false (nd_audit_decision d).

Definition novelty_scope (candidate : NoveltyCandidate) (config : NoveltyConfig) : option string * option string :=
  if bool_decide (nv_wing_scope config = "same_room") then (Some (nc_wing candidate), nc_room candidate)
  else if bool_decide (nv_wing_scope config = "global") then (None, None)
  else (Some (nc_wing candidate), None).

Definition novelty_decision_from_results (results : list (string * f32)) (config : NoveltyConfig) : NoveltyDecision :=
  match results with
  | [] => novelty_insert
  | (id, cosine) :: _ =>
      if SFleb (nv_duplicate_threshold config) cosine
      then MkNoveltyDecision NoveltyDrop (Some id) (Some cosine) true None
      else if SFleb (nv_merge_threshold config) cosine
      then MkNoveltyDecision NoveltyMerge (Some id) (Some cosine) true None
      else novelty_insert
  end.

Definition novelty_vector_search_has_pushed_project_scope (candidate : NoveltyCandidate) (config : NoveltyConfig)
    (fork_ext_version : Z) : bool :=
  nv_enabled config && (0 <? nv_top_k_candidates config) && negb (bool_decide (nc_wing candidate = "agent-diary"))
  && bool_decide (is_Some (nc_project_id candidate)) && (5 <=? fork_ext_version).

(** [CAST(1.0 - vec_distance_cosine(a, b) AS REAL)]: an error between vectors of
    different widths. *)
Class NoveltyEnv := { vec_similarity : list f32 → list f32 → result f32 string }.

Section novelty.
Context {SE : SearchEnv} {NE : NoveltyEnv}.

(** ** The queries *)
Definition sql_matches {A} `{EqDecision A} (wanted : option A) (value : option A) : bool :=
  match wanted with None => true | Some w => bool_decide (value = Some w) end.

Definition novelty_row (wing room project_id : option string) (row : Row) : bool :=
  is_active row && sql_matches wing (Some (r_wing row)) && sql_matches room (r_room row)
  && sql_matches project_id (r_project_id row).

(** The similarity of each drawer of a list that has a vector, in its order. *)
Fixpoint similarities (query_vector : list f32) (vectors : gmap string (list f32 * option string)) (ids : list string)
    : result (list (string * f32)) string :=
  match ids with
  | [] => Ok []
  | id :: ids =>
      match vectors !! id with
      | None => similarities query_vector vectors ids
      | Some (v, _) =>
          match vec_similarity v query_vector, similarities query_vector vectors ids with
          | Ok c, Ok rest => Ok ((id, c) :: rest)
          | Err e, _ => Err e
          | _, Err e => Err e
          end
      end
  end.

(** [ORDER BY similarity DESC LIMIT]. *)
Definition most_similar (a b : string * f32) : comparison := float_cmp b.2 a.2.
Definition top_similar (limit : Z) (l : list (string * f32)) : list (string * f32) :=
  take (Z.to_nat limit) (sort_by (fun a b => not_gt (most_similar a b)) l).

Definition top_of (limit : Z) (r : result (list (string * f32)) string) : result (list (string * f32)) string :=
  match r with Ok l => Ok (top_similar limit l) | Err e => Err e end.

(** [novelty_candidates]: the neighbours the index answers, then the drawers that match. *)
Definition novelty_candidates (query_vector : list f32) (wing room project_id : option string) (limit : Z) (p : Palace)
    : result (list (string * f32)) string :=
  if bool_decide (pl_dim p = None) || (limit =? 0) then Ok []
  else if i64_max <? limit then Err "invalid source type: limit"
  else
    let matches := (knn_match query_vector limit (sql_matches project_id)).*1 in
    let drawers := List.filter (fun id => match db_drawers (pl_db p) !! id with
                                          | Some row => novelty_row wing room project_id row
                                          | None => false
                                          end) matches in
    top_of limit (similarities query_vector (pl_vectors p) drawers).

(** The drawers of a scope that have a vector, the latest row first. *)
Definition recent_drawers (order : list string → list string) (wing room project_id : option string) (p : Palace)
    : list string :=
  reverse (order (map fst (List.filter (fun e => novelty_row wing room project_id e.2
                                                 && bool_decide (is_Some (pl_vectors p !! e.1)))
                             (map_to_list (db_drawers (pl_db p)))))).

Definition count_novelty_candidate_drawers (wing room project_id : option string) (p : Palace) : Z :=
  if bool_decide (pl_dim p = None) then 0
  else Z.of_nat (length (recent_drawers (fun l => l) wing room project_id p)).

Definition novelty_candidates_exact (order : list string → list string) (query_vector : list f32)
    (wing room project_id : option string) (limit scan_limit : Z) (p : Palace) : result (list (string * f32)) string :=
  if bool_decide (pl_dim p = None) || (limit =? 0) || (scan_limit =? 0) then Ok []
  else if (i64_max <? limit) || (i64_max <? scan_limit) then Err "invalid source type: limit"
  else
    top_of limit (similarities query_vector (pl_vectors p)
                    (take (Z.to_nat scan_limit) (recent_drawers order wing room project_id p))).

(** ** The decision *)

(** [order] puts rows in the order of the table; what SQLite answers the queries: the
    schema version, and whether the count and the search work. *)
Context (order : list string → list string).
Record novelty_answers := MkNoveltyAnswers {
  an_version : result Z string;
  an_count : result unit string;
  an_search : result unit string;
}.

Definition evaluate_no_project_novelty (a : novelty_answers) (candidate : NoveltyCandidate) (vector : list f32)
    (config : NoveltyConfig) (p : Palace) : NoveltyDecision :=
  let '(wing, room) := novelty_scope candidate config in
  match an_count a with
  | Err _ => novelty_insert
  | Ok _ =>
      let candidate_count := count_novelty_candidate_drawers wing room None p in
      match an_search a, novelty_candidates_exact order vector wing room None (nv_top_k_candidates config)
                           (nv_novelty_scan_limit config) p with
      | Ok _, Ok results =>
          let d := novelty_decision_from_results results config in
          if bool_decide (nd_action d = NoveltyInsert) && (nv_novelty_scan_limit config <? candidate_count)
          then without_audit d else d
      | _, _ => novelty_insert
      end
  end.

Definition evaluate (a : novelty_answers) (candidate : NoveltyCandidate) (vector : list f32) (config : NoveltyConfig)
    (p : Palace) : NoveltyDecision :=
  if negb (nv_enabled config) || (nv_top_k_candidates config =? 0) || bool_decide (nc_wing candidate = "agent-diary")
  then without_audit novelty_insert
  else
    match an_version a with
    | Err _ => novelty_insert
    | Ok version =>
        if negb (novelty_vector_search_has_pushed_project_scope candidate config version) then
          if bool_decide (is_Some (nc_project_id candidate)) then without_audit novelty_insert
          else evaluate_no_project_novelty a candidate vector config p
        else
          let '(wing, room) := novelty_scope candidate config in
          match an_search a, novelty_candidates vector wing room (nc_project_id candidate)
                               (nv_top_k_candidates config) p with
          | Ok _, Ok results => novelty_decision_from_results results config
          | _, _ => novelty_insert
          end
    end.
End novelty.

(** ** The merge *)
Definition set_merged (content updated_at content_hash : string) (row : Row) : Row :=
  MkRow content (r_wing row) (r_room row) (r_source_file row) (r_source_root row) (r_source_type row)
    (r_confidence row) (r_added_at row) (r_chunk_index row) (r_normalize_version row) (r_importance row)
    (r_project_id row) content_hash (r_memory_kind row) (r_domain row) (r_field row) (r_anchor_kind row)
    (r_anchor_id row) (r_parent_anchor_id row) (r_provenance row) (r_statement row) (r_tier row) (r_status row)
    (r_supporting_refs row) (r_counterexample_refs row) (r_teaching_refs row) (r_verification_refs row)
    (r_scope_constraints row) (r_trigger_hints row) (r_is_pinned row) (r_pin_order row) (r_supersedes row)
    (r_valid_from row) (r_valid_until row) (r_effective_importance row) (r_creation_operation_id row)
    (r_deleted_at row) (Some updated_at) (Some (default 0 (r_merge_count row) + 1)) (r_stale_penalty_applied row)
    (r_compacted_into row).

Record NoveltyAuditInsert := MkAuditInsert {
  ai_candidate_hash : string;
  ai_action : NoveltyAction;
  ai_near_drawer_id : option string;
  ai_cosine : option f32;
  ai_audit_decision : option string;
  ai_project_id : option string;
}.

Record DrawerMergeWithNovelty := MkMerge {
  mg_drawer_id : string;
  mg_merged_content : string;
  mg_updated_at : string;
  mg_vector : list f32;
  mg_expected_merge_count : Z;
  mg_audit : NoveltyAuditInsert;
}.

Section merge.
Context `{StoreEnv} {PE : PalaceEnv}.
Context (fingerprint : nat → string) (show_f32 : f32 → string).

Definition drawer_merge_state (id : string) (db : Db) : option (string * Z) :=
  match active_row db id with Some row => Some (r_content row, default 0 (r_merge_count row)) | None => None end.

(** [ensure_vectors_table] and [apply_drawer_merge_update]. *)
Definition apply_drawer_merge_update (m : DrawerMergeWithNovelty) (p : Palace) : Palace * result unit PalaceError :=
  let id := mg_drawer_id m in
  let dim := default (length (mg_vector m)) (pl_dim p) in
  let p := with_vectors (Some dim) (pl_vectors p) (pl_fingerprints p) p in
  match active_row (pl_db p) id with
  | None => (p, Err (MergeConflict id (mg_expected_merge_count m)))
  | Some row =>
      if negb (default 0 (r_merge_count row) =? mg_expected_merge_count m)
      then (p, Err (MergeConflict id (mg_expected_merge_count m)))
      else
        let merged := set_merged (mg_merged_content m) (mg_updated_at m) (content_hash_hex (mg_merged_content m)) row in
        let p := with_db (with_drawers (pl_db p) (<[id := merged]> (db_drawers (pl_db p)))) p in
        if negb (length (mg_vector m) =? dim)%nat then (p, Err (VectorWidth dim (length (mg_vector m))))
        else
          (with_vectors (Some dim) (<[id := (mg_vector m, r_project_id row)]> (pl_vectors p))
             (<[id := fingerprint (length (mg_vector m))]> (pl_fingerprints p)) p, Ok tt)
  end.

Definition insert_novelty_audit_row (audit : NoveltyAuditInsert) (a : access_answers) (p : Palace)
    : Palace * result unit PalaceError :=
  let created_at := ca_epoch_secs a in
  let decision := default (action_as_str (ai_action audit)) (ai_audit_decision audit) in
  let id := "novelty_" +:+ blake3_hex (ai_candidate_hash audit +:+ ":" +:+ show created_at +:+ ":"
              +:+ show (ca_nanos a) +:+ ":" +:+ decision +:+ ":" +:+ default "" (ai_near_drawer_id audit) +:+ ":"
              +:+ show_f32 (default f64_zero (ai_cosine audit))) in
  match pl_novelty p !! id with
  | Some _ => (p, Err (StoreFailed ConstraintViolation))
  | None =>
      let row := MkNoveltyAudit (ai_candidate_hash audit) decision (ai_near_drawer_id audit) (ai_cosine audit)
                   created_at (ai_project_id audit) in
      (with_novelty (<[id := row]> (pl_novelty p)) p, Ok tt)
  end.

(** A candidate that was admitted before the model's work is deleted by its owner. *)
Definition consume_candidate (id owner : string) (p : Palace) : Palace * result unit PalaceError :=
  match delete_where id (fun _ => bool_decide (pl_owners p !! id = Some owner)) (pl_db p) with
  | Err e => (p, Err (StoreFailed e))
  | Ok (db, deleted) =>
      let p := with_db db p in
      (if 0 <? deleted then with_owners (delete id (pl_owners p)) p else p, Ok tt)
  end.

Definition merge_body (m : DrawerMergeWithNovelty) (candidate : option (string * string)) (a : access_answers)
    (p : Palace) : Palace * result unit PalaceError :=
  match apply_drawer_merge_update m p with
  | (p, Err e) => (p, Err e)
  | (p, Ok _) =>
      match insert_novelty_audit_row (mg_audit m) a p with
      | (p, Err e) => (p, Err e)
      | (p, Ok _) =>
          match candidate with
          | Some (id, owner) => if bool_decide (id = mg_drawer_id m) then (p, Ok tt) else consume_candidate id owner p
          | None => (p, Ok tt)
          end
      end
  end.

(** [update_drawer_after_merge_and_record_novelty_audit_fenced], and the form that
    consumes the candidate. *)
Context {JT : JsonText}.

Definition merge_fenced (lease : option RuntimeWriterLease) (m : DrawerMergeWithNovelty)
    (candidate : option (string * string)) : pstate → pstate * result unit PalaceError :=
  lease_write_retry lease "merge drawer" (merge_body m candidate).
End merge.

(** ** What a verdict rests on *)
Section verdict.
Context {SE : SearchEnv} {NE : NoveltyEnv}.

#[export] Instance most_similar_comparator : Comparator most_similar.
Proof. exact (flip_comparator _ (on_comparator snd float_cmp float_comparator)). Qed.

Lemma similarities_elem query vectors ids l id c :
  similarities query vectors ids = Ok l → (id, c) ∈ l →
  id ∈ ids ∧ ∃ v o, vectors !! id = Some (v, o) ∧ vec_similarity v query = Ok c.
Proof.
  revert l. induction ids as [|i ids IH]; intros l; cbn; [by intros [= <-] ?%elem_of_nil|].
  destruct (vectors !! i) as [[v o]|] eqn:E.
  - destruct (vec_similarity v query) as [ci|] eqn:Ec; [|by destruct (similarities query vectors ids)].
    destruct (similarities query vectors ids) as [rest|]; [|done]. intros [= <-] [[= -> ->] | Hin]%elem_of_cons.
    + split; [by left|eauto].
    + destruct (IH _ eq_refl Hin) as [? ?]. split; [by right|done].
  - intros Hl Hin. destruct (IH _ Hl Hin) as [? ?]. split; [by right|done].
Qed.

Lemma similarities_measured query vectors ids l id v o :
  similarities query vectors ids = Ok l → id ∈ ids → vectors !! id = Some (v, o) →
  ∃ c, vec_similarity v query = Ok c ∧ (id, c) ∈ l.
Proof.
  revert l. induction ids as [|i ids IH]; intros l; cbn; [by intros _ ?%elem_of_nil|].
  intros Hl [-> | Hin]%elem_of_cons Hv.
  - rewrite Hv in Hl. destruct (vec_similarity v query) as [c|]; [|by destruct (similarities query vectors ids)].
    destruct (similarities query vectors ids) as [rest|]; [|done]. injection Hl as <-. exists c. split; [done|by left].
  - destruct (vectors !! i) as [[vi oi]|].
    + destruct (vec_similarity vi query) as [ci|]; [|by destruct (similarities query vectors ids)].
      destruct (similarities query vectors ids) as [rest|]; [|done]. injection Hl as <-.
      destruct (IH _ eq_refl Hin Hv) as (c & Hc & Hin'). exists c. split; [done|by right].
    + by apply IH.
Qed.

Lemma top_similar_first limit l x rest :
  top_similar limit l = x :: rest → x ∈ l ∧ ∀ y, y ∈ l → float_cmp x.2 y.2 ≠ Lt.
Proof.
  unfold top_similar. intros H. destruct (Z.to_nat limit) as [|n]; [done|].
  assert (Hh : head (sort_by (λ a b, not_gt (most_similar a b)) l) = Some x).
  { destruct (sort_by _ l); [done|]. by injection H as -> _. }
  apply (sort_by_head_least most_similar) in Hh as [Hin Hle]. split; [done|]. intros y Hy Hlt.
  specialize (Hle y Hy). change (not_gt (float_cmp y.2 x.2) = true) in Hle. rewrite (cmp_antisym (cmp := float_cmp) x.2 y.2) in Hle. by rewrite Hlt in Hle.
Qed.
End verdict.

Section decides.
Context {SE : SearchEnv} {NE : NoveltyEnv} (order : list string → list string).

Definition scanned (candidate : NoveltyCandidate) (config : NoveltyConfig) (p : Palace) : list string :=
  let '(wing, room) := novelty_scope candidate config in
  take (Z.to_nat (nv_novelty_scan_limit config)) (recent_drawers order wing room None p).

(** An active drawer of a wing, a room and a project, where they are given. *)
Definition in_scope (wing room project_id : option string) (row : Row) : Prop :=
  is_active row = true ∧ (∀ w, wing = Some w → r_wing row = w) ∧ (∀ r, room = Some r → r_room row = Some r)
  ∧ (∀ p, project_id = Some p → r_project_id row = Some p).

Lemma novelty_row_spec wing room project_id row : novelty_row wing room project_id row = true → in_scope wing room project_id row.
Proof.
  unfold novelty_row, sql_matches, in_scope. rewrite !andb_true_iff. intros [[[Ha Hw] Hr] Hp].
  split_and!; [done|intros w ->|intros r ->|intros q ->]; by apply bool_decide_eq_true in Hw || apply bool_decide_eq_true in Hr || apply bool_decide_eq_true in Hp; simplify_eq.
Qed.

(** What a verdict other than to insert rests on. *)
Definition verdict_of (candidate : NoveltyCandidate) (vector : list f32) (config : NoveltyConfig) (p : Palace)
    (d : NoveltyDecision) : Prop :=
  ∃ id row c v o,
    nd_near_drawer_id d = Some id ∧ nd_cosine d = Some c ∧ db_drawers (pl_db p) !! id = Some row
    ∧ in_scope (novelty_scope candidate config).1 (novelty_scope candidate config).2 (nc_project_id candidate) row
    ∧ pl_vectors p !! id = Some (v, o) ∧ vec_similarity v vector = Ok c
    ∧ SFleb (match nd_action d with NoveltyDrop => nv_duplicate_threshold config | _ => nv_merge_threshold config end) c = true
    ∧ (nd_action d = NoveltyMerge → SFleb (nv_duplicate_threshold config) c = false)
    ∧ (nc_project_id candidate = None → ∀ i w q ci,
         i ∈ scanned candidate config p → pl_vectors p !! i = Some (w, q) → vec_similarity w vector = Ok ci →
         float_cmp c ci ≠ Lt).

Lemma decision_first results config id c rest :
  results = (id, c) :: rest → nd_action (novelty_decision_from_results results config) ≠ NoveltyInsert →
  let d := novelty_decision_from_results results config in
  nd_near_drawer_id d = Some id ∧ nd_cosine d = Some c ∧
  SFleb (match nd_action d with NoveltyDrop => nv_duplicate_threshold config | _ => nv_merge_threshold config end) c = true ∧
  (nd_action d = NoveltyMerge → SFleb (nv_duplicate_threshold config) c = false).
Proof.
  intros ->. cbn. destruct (SFleb (nv_duplicate_threshold config) c) eqn:E1; [done|].
  destruct (SFleb (nv_merge_threshold config) c) eqn:E2; [done|]. done.
Qed.

(** A verdict drawn from the most similar of some drawers of the scope. *)
Lemma verdict_from candidate vector config p ids limit l :
  similarities vector (pl_vectors p) ids = Ok l →
  (∀ id, id ∈ ids → ∃ row, db_drawers (pl_db p) !! id = Some row ∧
     novelty_row (novelty_scope candidate config).1 (novelty_scope candidate config).2 (nc_project_id candidate) row = true) →
  (nc_project_id candidate = None → ∀ id, id ∈ scanned candidate config p → id ∈ ids) →
  nd_action (novelty_decision_from_results (top_similar limit l) config) ≠ NoveltyInsert →
  verdict_of candidate vector config p (novelty_decision_from_results (top_similar limit l) config).
Proof.
  intros Hl Hids Hscan Ha. destruct (top_similar limit l) as [|[id c] rest] eqn:E; [done|].
  destruct (top_similar_first _ _ _ _ E) as [Hin Hmax].
  destruct (similarities_elem _ _ _ _ _ _ Hl Hin) as (Hid & v & o & Hv & Hc).
  destruct (Hids _ Hid) as (row & Hr & Hn). destruct (decision_first _ config _ _ _ eq_refl Ha) as (H1 & H2 & H3 & H4).
  apply novelty_row_spec in Hn. exists id, row, c, v, o. split_and!; [done..|]. intros Hp i w q ci Hi Hw Hci.
  destruct (similarities_measured _ _ _ _ _ _ _ Hl (Hscan Hp i Hi) Hw) as (ci' & Hci' & Hin').
  assert (ci' = ci) as -> by congruence. exact (Hmax _ Hin').
Qed.

Lemma recent_in_scope wing room project p id :
  (∀ l, order l ≡ₚ l) → id ∈ recent_drawers order wing room project p →
  ∃ row, db_drawers (pl_db p) !! id = Some row ∧ novelty_row wing room project row = true.
Proof.
  intros Ho. unfold recent_drawers. rewrite elem_of_reverse, Ho, list_elem_of_In, in_map_iff.
  intros ([i row] & <- & [Hin Hb]%filter_In). apply list_elem_of_In, elem_of_map_to_list in Hin.
  apply andb_true_iff in Hb as [Hb _]. by exists row.
Qed.

(** The query for candidates: within the project, or one after the other. *)
Definition candidates_read (candidate : NoveltyCandidate) (vector : list f32) (config : NoveltyConfig) (p : Palace)
    : result (list (string * f32)) string :=
  let '(wing, room) := novelty_scope candidate config in
  match nc_project_id candidate with
  | Some project => novelty_candidates vector wing room (Some project) (nv_top_k_candidates config) p
  | None => novelty_candidates_exact order vector wing room None (nv_top_k_candidates config) (nv_novelty_scan_limit config) p
  end.

(** C16: the novelty check lets a text pass whenever it is switched off, the text is a
    diary entry, the schema cannot keep projects apart, or a query fails: when it drops
    or merges, the schema version was read, the search answered, the count of candidates
    (taken for a text without a project) was read, and the query for candidates in the
    scope succeeded, and the verdict is the one drawn from its results. The drawer it
    names is then active, in the scope of the configuration and in the project of the
    text if it has one, and its vector is as similar as the verdict says: at least the
    duplicate threshold for a drop, between the two thresholds for a merge. For a text
    without a project no drawer that was scanned is more similar. *)
Theorem novelty_verdict (a : novelty_answers) (candidate : NoveltyCandidate) (vector : list f32) (config : NoveltyConfig)
    (p : Palace) :
  (∀ l, order l ≡ₚ l) →
  nd_action (evaluate order a candidate vector config p) ≠ NoveltyInsert →
  nv_enabled config = true ∧ nc_wing candidate ≠ "agent-diary"
  ∧ (∃ version, an_version a = Ok version ∧ (is_Some (nc_project_id candidate) → 5 <= version))
  ∧ an_search a = Ok tt
  ∧ (nc_project_id candidate = None → an_count a = Ok tt)
  ∧ (∃ results, candidates_read candidate vector config p = Ok results
       ∧ evaluate order a candidate vector config p = novelty_decision_from_results results config)
  ∧ verdict_of candidate vector config p (evaluate order a candidate vector config p).
Proof.
  intros Ho. unfold evaluate. destruct (nv_enabled config) eqn:En; [|done]. destruct (nv_top_k_candidates config =? 0); [done|].
  case_bool_decide as Hw; [done|]. cbn [negb orb]. destruct (an_version a) as [version|]; [|done].
  destruct (novelty_vector_search_has_pushed_project_scope candidate config version) eqn:Ep; cbn [negb].
  - assert (Hp : is_Some (nc_project_id candidate) ∧ 5 <= version).
    { unfold novelty_vector_search_has_pushed_project_scope in Ep. rewrite !andb_true_iff in Ep.
      destruct Ep as [[_ Hs] Hv]. apply bool_decide_eq_true in Hs. apply Z.leb_le in Hv. done. }
    destruct (novelty_scope candidate config) as [wing room] eqn:Es.
    destruct (an_search a) as [[]|]; [|done]. unfold candidates_read. rewrite Es.
    destruct Hp as [[project Hs] Hp]. rewrite Hs. unfold novelty_candidates.
    destruct (_ || _); [done|]. destruct (i64_max <? _); [done|]. set (ids := List.filter _ _).
    destruct (similarities vector (pl_vectors p) ids) as [l|] eqn:El; [|done]. cbn [top_of]. intros Ha.
    split_and!; [done|done|by exists version|done|done|by eexists|]. eapply verdict_from; [done| | |done].
    + intros id [_ Hf]%list_elem_of_In%filter_In. rewrite Es, Hs. destruct (db_drawers (pl_db p) !! id) as [row|]; [|done]. by exists row.
    + intros Hnone. congruence.
  - case_bool_decide as Hp; [done|]. assert (Hnone : nc_project_id candidate = None).
    { destruct (nc_project_id candidate); [by destruct Hp|done]. }
    unfold evaluate_no_project_novelty. destruct (novelty_scope candidate config) as [wing room] eqn:Es.
    destruct (an_count a) as [[]|]; [|done]. destruct (an_search a) as [[]|]; [|done].
    unfold candidates_read. rewrite Es, Hnone. unfold novelty_candidates_exact.
    destruct (_ || _ || _); [by cbn; destruct (_ <? _)|]. destruct (_ || _); [done|].
    destruct (similarities _ _ _) as [l|] eqn:El; [|done]. cbn [top_of]. set (d := novelty_decision_from_results _ _).
    destruct (decide (nd_action d = NoveltyInsert)) as [Hd|Hd].
    + rewrite bool_decide_eq_true_2 by done. by destruct (_ <? _).
    + rewrite bool_decide_eq_false_2 by done. intros _. cbn [andb].
      split_and!; [done|done|exists version; split; [done|intros Hs; by destruct Hs]|done|done|by eexists|].
      eapply verdict_from; [done| | |done].
      * intros id Hin. rewrite Es, Hnone. apply (recent_in_scope _ _ _ _ _ Ho).
        by eapply elem_of_take in Hin as (i & Hi%list_elem_of_lookup_2 & _).
      * intros _ id. unfold scanned. by rewrite Es.
Qed.
End decides.

(** ** A merge is made once *)
Section merged.
Context `{StoreEnv} {PE : PalaceEnv}.
Context (fingerprint : nat → string) (show_f32 : f32 → string).

(** The update of a merge succeeds only on an active drawer that was merged into as
    often as when the merged text was put together. Then the drawer has that text, its
    new hash and its new vector, no other drawer has changed, and a second merge that was
    planned on the same count is refused and changes no drawer. *)
Lemma merge_update_once m p p' :
  apply_drawer_merge_update fingerprint m p = (p', Ok tt) →
  ∃ row, active_row (pl_db p) (mg_drawer_id m) = Some row ∧ default 0 (r_merge_count row) = mg_expected_merge_count m
    ∧ db_drawers (pl_db p') = <[mg_drawer_id m := set_merged (mg_merged_content m) (mg_updated_at m)
                                 (content_hash_hex (mg_merged_content m)) row]> (db_drawers (pl_db p))
    ∧ pl_vectors p' = <[mg_drawer_id m := (mg_vector m, r_project_id row)]> (pl_vectors p)
    ∧ ∀ m', mg_drawer_id m' = mg_drawer_id m → mg_expected_merge_count m' = mg_expected_merge_count m →
        (apply_drawer_merge_update fingerprint m' p').2 = Err (MergeConflict (mg_drawer_id m) (mg_expected_merge_count m))
        ∧ pl_db (apply_drawer_merge_update fingerprint m' p').1 = pl_db p'.
Proof.
  unfold apply_drawer_merge_update. cbn [pl_db with_vectors].
  destruct (active_row (pl_db p) (mg_drawer_id m)) as [row|] eqn:Er; [|done].
  destruct (_ =? mg_expected_merge_count m) eqn:Ec; [|done]. cbn [negb]. apply Z.eqb_eq in Ec.
  destruct (_ =? _)%nat eqn:Ed; [|done]. cbn [negb]. intros [= <-]. exists row. split_and!; [done..|].
  intros m' Hid Hc. rewrite Hid, Hc. cbn.
  assert (Ha : active_row (with_drawers (pl_db p) (<[mg_drawer_id m := set_merged (mg_merged_content m) (mg_updated_at m)
    (content_hash_hex (mg_merged_content m)) row]> (db_drawers (pl_db p)))) (mg_drawer_id m) =
    Some (set_merged (mg_merged_content m) (mg_updated_at m) (content_hash_hex (mg_merged_content m)) row)).
  { unfold active_row in *. cbn. rewrite lookup_insert_eq. destruct (db_drawers (pl_db p) !! mg_drawer_id m) as [r|]; [|done].
    cbn in Er. destruct (is_active r) eqn:Ei; [|done]. injection Er as ->. unfold is_active in *. cbn. by rewrite Ei. }
  rewrite Ha. cbn. replace (_ =? mg_expected_merge_count m) with false; [done|]. symmetry. apply Z.eqb_neq. lia.
Qed.
End merged.
