(* ===== verification/SessionReview.v ===== *)
(** * Session reviews

    [src/src/session_review.rs]: the review drawn from the end of a session, the metadata
    that is kept behind the text of a drawer and in front of it, how they are read
    back, and the check of the drawers a review links to. JSON is serde_json's; texts
    are lists of characters. *)

From Stdlib Require Import ZArith Lia String Ascii.
From stdpp Require Import base tactics list gmap strings numbers.
From S2P Require Import Prelude Text Chars Utf8 Drawer DrawerStore.
Open Scope Z_scope.
Open Scope rust_scope.

Definition line_feed : text := [10].
Definition SESSION_METADATA_SENTINEL : text :=
  (line_feed ++ line_feed ++ chars_of "<!-- mempal:session-review -->" ++ line_feed)%list.
Definition LEGACY_SESSION_METADATA_SENTINEL : text :=
  (line_feed ++ line_feed ++ chars_of "--- session_metadata ---" ++ line_feed)%list.
Definition HOOKS_RAW_METADATA_PREFIX : text := (chars_of "<!-- mempal:hooks-raw -->" ++ line_feed)%list.
Definition HOOKS_RAW_METADATA_SUFFIX : text := (chars_of "<!-- /mempal:hooks-raw -->" ++ line_feed)%list.

Record SessionMetadata := MkSessionMetadata { sm_session_id : option text; sm_linked_drawer_ids : list text }.
Record HooksRawMetadata := MkHooksRawMetadata { hm_session_id : option text; hm_captured_at : option text }.
Definition no_metadata : SessionMetadata := MkSessionMetadata None [].
Definition no_hooks_metadata : HooksRawMetadata := MkHooksRawMetadata None None.

Record SessionReviewRecord := MkReview {
  sr_wing : string;
  sr_room : text;
  sr_source_file : text;
  sr_raw_content : text;
  sr_content : text;
  sr_importance : Z;
}.

Inductive SessionReviewSkipReason :=
  | Disabled
  | MissingPayload
  | NoAssistantMessage
  | ReviewTooShort (chars min_length : Z).

Inductive SessionReviewOutcome := Review (r : SessionReviewRecord) | Skipped (reason : SessionReviewSkipReason).

(** The payload of the end of a session, as serde_json decodes it. *)
Record SessionEndPayload := MkPayload {
  sp_session_id : text;
  sp_agent : option text;
  sp_messages : list (string * text);  (* role, content *)
  sp_tool_calls : list text;           (* drawer_id *)
}.

Record HooksSessionEndConfig := MkSessionEnd {
  se_extract_self_review : bool;
  se_trailing_messages : nat;
  se_min_length : Z;
  se_wing : string;
}.

Inductive SessionReviewError := ParseError (message : string) | MissingSessionId.

(** [linked_to_json] is [serde_json::to_string] of a list of strings, [linked_of_json] its
    parser; [escape_wide] what [char::escape_debug] makes of a character outside ASCII. *)
Class ReviewEnv := {
  linked_to_json : list text → text;
  linked_of_json : text → option (list text);
  escape_wide : Z → text;
}.

Definition is_some_text (t : text) : bool := match t with [] => false | _ => true end.

Definition trimmed (t : option text) : option text :=
  x ← t; if is_some_text (trim x) then Some (trim x) else None.

Section review.
Context {RE : ReviewEnv}.

(** ** Writing metadata *)

(** [char::escape_debug] inside a string literal. *)
Definition escape_debug (c : Z) : text :=
  if c =? 0 then chars_of "\0"
  else if c =? 9 then chars_of "\t"
  else if c =? 10 then chars_of "\n"
  else if c =? 13 then chars_of "\r"
  else if c =? 34 then [92; 34]
  else if c =? 92 then [92; 92]
  else if (32 <=? c) && (c <=? 126) then [c]
  else if ((0 <=? c) && (c <? 32)) || (c =? 127) then (chars_of "\u{" ++ chars_of (fmt 16 1 c) ++ chars_of "}")%list
  else escape_wide c.

(** [{:?}] of a string. *)
Definition debug_text (t : text) : text := ([34] ++ concat (escape_debug <$> t) ++ [34])%list.

Definition metadata_lines (metadata : SessionMetadata) : list text :=
  ((match sm_linked_drawer_ids metadata with
    | [] => []
    | ids => [chars_of "linked_drawer_ids: " ++ linked_to_json ids]
    end)
   ++ match trimmed (sm_session_id metadata) with
      | Some id => [chars_of "session_id: " ++ debug_text id]
      | None => []
      end)%list.

Definition append_session_metadata (content : text) (metadata : SessionMetadata) : text :=
  match metadata_lines metadata with
  | [] => content
  | lines => (content ++ SESSION_METADATA_SENTINEL ++ join_lines lines)%list
  end.

Definition append_hooks_raw_metadata (content : text) (session_id captured_at : option text) : text :=
  match trimmed session_id with
  | None => content
  | Some id =>
      let lines := ((chars_of "session_id: " ++ debug_text id)
                    :: match trimmed captured_at with
                       | Some at_ => [chars_of "captured_at: " ++ debug_text at_]
                       | None => []
                       end)%list in
      (HOOKS_RAW_METADATA_PREFIX ++ join_lines lines ++ line_feed ++ HOOKS_RAW_METADATA_SUFFIX ++ content)%list
  end.

(** ** Reading metadata *)

(** [str::rfind], [str::find] and [str::split_once] of a text. *)
Fixpoint rfind (needle l : text) : option nat :=
  match l with
  | [] => if starts_with needle [] then Some 0%nat else None
  | _ :: rest =>
      match rfind needle rest with
      | Some i => Some (S i)
      | None => if starts_with needle l then Some 0%nat else None
      end
  end.

Fixpoint find (needle l : text) : option nat :=
  if starts_with needle l then Some 0%nat
  else match l with [] => None | _ :: rest => S <$> find needle rest end.

Definition split_once_at (needle l : text) : option (text * text) :=
  i ← find needle l; Some (take i l, drop (i + length needle) l).

Definition latest_metadata_sentinel (content : text) : option (nat * text) :=
  match rfind SESSION_METADATA_SENTINEL content, rfind LEGACY_SESSION_METADATA_SENTINEL content with
  | Some index, Some legacy_index =>
      if (index <? legacy_index)%nat then Some (legacy_index, LEGACY_SESSION_METADATA_SENTINEL)
      else Some (index, SESSION_METADATA_SENTINEL)
  | Some index, None => Some (index, SESSION_METADATA_SENTINEL)
  | None, Some index => Some (index, LEGACY_SESSION_METADATA_SENTINEL)
  | None, None => None
  end.

Definition unquote (value : text) : text :=
  let t := trim value in
  if bool_decide (head t = Some 34) && bool_decide (head (reverse t) = Some 34) && (2 <=? length t)%nat
  then take (length t - 2) (drop 1 t) else t.

Definition parse_linked_drawer_ids (value : text) : list text :=
  match linked_of_json value with
  | Some ids => ids
  | None => List.filter is_some_text (unquote ∘ trim <$> split_on 44 value)
  end.

Definition key_char (c : Z) : bool := ((97 <=? c) && (c <=? 122)) || (c =? 95).

(** One line: its key and its value. *)
Definition metadata_line (line : text) : option (text * text) :=
  match split_once_at (chars_of ": ") line with
  | Some (key, value) =>
      if negb (is_some_text key) || negb (is_some_text value) || negb (forallb key_char key) then None
      else Some (key, value)
  | None => None
  end.

Fixpoint parse_lines {A} (put : text → text → A → A) (lines : list text) (acc : A) : option A :=
  match lines with
  | [] => Some acc
  | line :: rest =>
      match metadata_line line with
      | Some (key, value) => parse_lines put rest (put key value acc)
      | None => None
      end
  end.

Definition parse_block {A} (put : text → text → A → A) (empty : A) (block : text) : option A :=
  match lines block with [] => None | ls => parse_lines put ls empty end.

Definition put_session (key value : text) (m : SessionMetadata) : SessionMetadata :=
  if bool_decide (key = chars_of "session_id") then MkSessionMetadata (Some (unquote value)) (sm_linked_drawer_ids m)
  else if bool_decide (key = chars_of "linked_drawer_ids")
       then MkSessionMetadata (sm_session_id m) (parse_linked_drawer_ids value) else m.

Definition put_hooks (key value : text) (m : HooksRawMetadata) : HooksRawMetadata :=
  if bool_decide (key = chars_of "session_id") then MkHooksRawMetadata (Some (unquote value)) (hm_captured_at m)
  else if bool_decide (key = chars_of "captured_at") then MkHooksRawMetadata (hm_session_id m) (Some (unquote value)) else m.

Definition parse_metadata_block : text → option SessionMetadata := parse_block put_session no_metadata.
Definition parse_hooks_raw_metadata_block : text → option HooksRawMetadata := parse_block put_hooks no_hooks_metadata.

Definition split_session_metadata (content : text) : text * SessionMetadata :=
  match latest_metadata_sentinel content with
  | None => (content, no_metadata)
  | Some (index, sentinel) =>
      match parse_metadata_block (drop (index + length sentinel) content) with
      | None => (content, no_metadata)
      | Some metadata => (take index content, metadata)
      end
  end.

Definition analysis_content (content : text) : text := (split_session_metadata content).1.

Definition split_hooks_raw_metadata (content : text) : text * HooksRawMetadata :=
  match strip_prefix HOOKS_RAW_METADATA_PREFIX content with
  | None => (content, no_hooks_metadata)
  | Some metadata_and_body =>
      match find HOOKS_RAW_METADATA_SUFFIX metadata_and_body with
      | None => (content, no_hooks_metadata)
      | Some end_index =>
          match parse_hooks_raw_metadata_block (take end_index metadata_and_body) with
          | None => (content, no_hooks_metadata)
          | Some metadata => (drop (end_index + length HOOKS_RAW_METADATA_SUFFIX) metadata_and_body, metadata)
          end
      end
  end.

Definition hooks_raw_content (content : text) : text := (split_hooks_raw_metadata content).1.

(** ** The review of a session *)
Definition trailing_assistant (messages : list (string * text)) (n : nat) : list text :=
  reverse (snd <$> take n (List.filter (fun m => bool_decide (m.1 = "assistant")) (reverse messages))).

(** [payload]: the text of the hook, decoded. *)
Definition extract_session_review (payload : option (result SessionEndPayload string)) (envelope_agent : text)
    (config : HooksSessionEndConfig) : result SessionReviewOutcome SessionReviewError :=
  if negb (se_extract_self_review config) then Ok (Skipped Disabled)
  else match payload with
  | None => Ok (Skipped MissingPayload)
  | Some (Err message) => Err (ParseError message)
  | Some (Ok payload) =>
      let session_id := trim (sp_session_id payload) in
      if negb (is_some_text session_id) then Err MissingSessionId
      else match trailing_assistant (sp_messages payload) (se_trailing_messages config) with
      | [] => Ok (Skipped NoAssistantMessage)
      | messages =>
          let raw_content := join (line_feed ++ chars_of "---" ++ line_feed)%list messages in
          let char_count := Z.of_nat (length raw_content) in
          if char_count <? se_min_length config then Ok (Skipped (ReviewTooShort char_count (se_min_length config)))
          else
            let room := match trimmed (sp_agent payload) with
                        | Some agent => agent
                        | None => default (chars_of "unknown-agent") (trimmed (Some envelope_agent))
                        end in
            let content := append_session_metadata raw_content
                             (MkSessionMetadata (Some session_id) (sp_tool_calls payload)) in
            Ok (Review (MkReview (se_wing config) room session_id raw_content content 3))
      end
  end.

(** ** Links *)
Definition linked_session_id (wing source_type : string) (content : text) : option text :=
  match trimmed (sm_session_id (split_session_metadata content).2) with
  | Some id => Some id
  | None =>
      if negb (bool_decide (wing = "hooks-raw")) then None
      else if negb (bool_decide (source_type ∈ ["agent_observation"; "conversation"])) then None
      else trimmed (hm_session_id (split_hooks_raw_metadata content).2)
  end.

Definition link_allowed (session_id : text) (project_id : option string) (db : Db) (drawer_id : text) : bool :=
  match active_row db (encode_str drawer_id) with
  | None => false
  | Some row =>
      bool_decide (linked_session_id (r_wing row) (r_source_type row) (decode_str (r_content row)) = Some session_id)
      && bool_decide (r_project_id row = project_id)
  end.

(** The number of links across a session or a project, when there is one. *)
Definition validate_linked_drawer_ids (session_id : text) (project_id : option string) (linked : list text) (db : Db)
    : result unit nat :=
  match List.filter (fun id => negb (link_allowed session_id project_id db id)) linked with
  | [] => Ok tt
  | violations => Err (length violations)
  end.
End review.

(** ** The metadata is read back *)

(** What serde_json and the Standard Library promise: a list of strings is read back, and
    neither form has a line break in it. *)
Class ReviewLaws (RE : ReviewEnv) : Prop := {
  linked_read_back : ∀ ids, linked_of_json (linked_to_json ids) = Some ids;
  linked_one_line : ∀ ids, line_ok (linked_to_json ids) ∧ linked_to_json ids ≠ [];
  escape_one_line : ∀ c, 10 ∉ escape_wide c;
}.

Lemma rfind_app needle a l i : rfind needle l = Some i → rfind needle (a ++ l)%list = Some (length a + i)%nat.
Proof. intros H. induction a as [|x a IH]; [done|]. cbn. by rewrite IH. Qed.

Lemma rfind_before needle a l i : rfind needle l = None → rfind needle (a ++ l)%list = Some i → (i < length a)%nat.
Proof.
  intros H. revert i. induction a as [|x a IH]; intros i; cbn; [by rewrite H|].
  destruct (rfind needle (a ++ l)%list) as [j|] eqn:E; [intros [= <-]; specialize (IH j eq_refl); lia|].
  destruct (starts_with _ _); [intros [= <-]; lia|done].
Qed.

(** A needle that begins with two line feeds is not found in one-line breaks. *)
Fixpoint breaks (l : text) : bool :=
  match l with
  | [] => false
  | x :: rest => ((x =? 10) && match rest with y :: _ => y =? 10 | [] => false end) || breaks rest
  end.

Lemma starts_break needle l : breaks l = false → starts_with (10 :: 10 :: needle) l = false.
Proof.
  intros H. unfold starts_with. apply bool_decide_eq_false_2. intros [r ->%strip_prefix_spec]. done.
Qed.

Lemma breaks_tail x l : breaks (x :: l) = false → breaks l = false.
Proof. cbn. intros [_ H]%orb_false_iff. done. Qed.

Lemma rfind_no_breaks needle l : breaks l = false → rfind (10 :: 10 :: needle) l = None.
Proof.
  induction l as [|x l IH]; intros H; [done|]. cbn [rfind]. rewrite IH by by eapply breaks_tail.
  by rewrite starts_break.
Qed.

Lemma breaks_cons x l : x ≠ 10 → breaks (x :: l) = breaks l.
Proof. intros H. cbn. by apply Z.eqb_neq in H as ->. Qed.

Lemma breaks_line l rest : 10 ∉ l → breaks (l ++ rest)%list = breaks rest.
Proof.
  induction l as [|x l IH]; [done|]. intros [Hx Hl]%not_elem_of_cons. cbn [app].
  rewrite breaks_cons by done. by apply IH.
Qed.

Lemma join_head c q ls : join [10] ((c :: q) :: ls) = (c :: join [10] (q :: ls))%list.
Proof. by destruct ls. Qed.

(** One-line, non-empty lines joined have no two breaks in a row. *)
Lemma breaks_join ls : Forall (fun l => (10 ∉ l) ∧ l ≠ []) ls → breaks (join_lines ls) = false.
Proof.
  induction 1 as [|l ls [Hl Hn] Hls IH]; [done|]. unfold join_lines in *.
  destruct ls as [|q ls]; [change (breaks l = false); by rewrite <- (app_nil_r l), breaks_line|].
  rewrite join_cons, breaks_line by done. cbn [app]. cbn [breaks]. rewrite IH, orb_false_r.
  inversion Hls as [|? ? [Hq Hqn] _]; subst. destruct q as [|c q]; [done|].
  rewrite join_head.
  apply not_elem_of_cons in Hq as [Hc _]. cbn. apply Z.eqb_neq. congruence.
Qed.

(** The sentinel of a block is the last one of the text. *)
Lemma latest_sentinel content ls :
  ls ≠ [] → Forall (fun l => (10 ∉ l) ∧ l ≠ []) ls →
  latest_metadata_sentinel (content ++ SESSION_METADATA_SENTINEL ++ join_lines ls)%list =
    Some (length content, SESSION_METADATA_SENTINEL).
Proof.
  intros Hne Hls. pose proof (breaks_join ls Hls) as Hb.
  assert (Hbr : breaks (10 :: join_lines ls) = false).
  { destruct ls as [|[|c q] ls]; [done|inversion Hls as [|? ? [_ ?]]; done|]. inversion Hls as [|? ? [Hc _] _]; subst.
    unfold join_lines in *. rewrite join_head in *. apply not_elem_of_cons in Hc as [Hc _].
    cbn [breaks]. rewrite andb_true_l. cbn [breaks] in Hb. rewrite Hb, orb_false_r. apply Z.eqb_neq. congruence. }
  assert (Htail : breaks (10 :: chars_of "<!-- mempal:session-review -->" ++ 10 :: join_lines ls)%list = false).
  { assert (Hd : ∀ l, breaks (10 :: 60 :: l) = breaks (60 :: l)) by done. cbn [chars_of]. vm_compute (chars_of _).
    cbn [app]. rewrite Hd. rewrite !breaks_cons by lia. done. }
  unfold latest_metadata_sentinel.
  set (rest := (SESSION_METADATA_SENTINEL ++ join_lines ls)%list).
  assert (Hrest : rest = 10 :: (10 :: chars_of "<!-- mempal:session-review -->" ++ 10 :: join_lines ls)%list).
  { unfold rest, SESSION_METADATA_SENTINEL. rewrite <- !app_assoc. done. }
  assert (H1 : rfind SESSION_METADATA_SENTINEL rest = Some 0%nat).
  { rewrite Hrest. cbn [rfind]. unfold SESSION_METADATA_SENTINEL at 1. cbn [line_feed app].
    rewrite rfind_no_breaks by done. rewrite <- Hrest. unfold starts_with, rest. by rewrite strip_prefix_app. }
  assert (H2 : rfind LEGACY_SESSION_METADATA_SENTINEL rest = None).
  { rewrite Hrest. cbn [rfind]. unfold LEGACY_SESSION_METADATA_SENTINEL at 1. cbn [line_feed app].
    rewrite rfind_no_breaks by done.
    destruct (starts_with _ _) eqn:Es; [|done]. unfold starts_with in Es. apply bool_decide_eq_true in Es as [r Hr].
    clear -Hr. cbn in Hr. discriminate Hr. }
  rewrite (rfind_app _ content _ _ H1), Nat.add_0_r.
  destruct (rfind LEGACY_SESSION_METADATA_SENTINEL (content ++ rest)%list) as [i|] eqn:E; [|done].
  apply rfind_before in E; [|done]. destruct (Nat.ltb_spec (length content) i); [lia|done].
Qed.

Lemma find_colon key rest : 58 ∉ key → find (chars_of ": ") (key ++ 58 :: 32 :: rest)%list = Some (length key).
Proof.
  intros H. change (chars_of ": ") with [58; 32]. induction key as [|c key IH]; [done|].
  apply not_elem_of_cons in H as [Hc Hk]. cbn [app find length]. rewrite IH by done. unfold starts_with.
  cbn [strip_prefix]. destruct (Z.eqb_spec 58 c); [congruence|done].
Qed.

Lemma metadata_line_of key value :
  58 ∉ key → key ≠ [] → value ≠ [] → forallb key_char key = true →
  metadata_line (key ++ 58 :: 32 :: value)%list = Some (key, value).
Proof.
  intros Hc Hk Hv Ha. unfold metadata_line, split_once_at. rewrite find_colon by done.
  cbn [mbind option_bind]. rewrite take_app_length.
  change (length (chars_of ": ")) with 2%nat. rewrite drop_app_ge by lia.
  replace (length key + 2 - length key)%nat with 2%nat by lia. cbn [drop].
  destruct key; [done|]. destruct value; [done|]. by rewrite Ha.
Qed.

Lemma trim_quoted t : trim (34 :: t ++ [34])%list = (34 :: t ++ [34])%list.
Proof.
  unfold trim. rewrite (drop_while_stop _ 34) by done. rewrite reverse_cons, reverse_app. cbn [app reverse].
  rewrite (drop_while_stop _ 34 (reverse t ++ [34])) by done.
  rewrite reverse_cons, reverse_app, reverse_involutive. done.
Qed.

Lemma unquote_quoted t : unquote (34 :: t ++ [34])%list = t.
Proof.
  unfold unquote. rewrite trim_quoted, reverse_cons, reverse_app. cbn [head app reverse drop length].
  rewrite length_app. cbn [length]. rewrite (proj2 (Nat.leb_le 2 _)) by lia.
  replace (S (length t + 1) - 2)%nat with (length t) by lia. apply take_app_length.
Qed.

Lemma drop_while_first f l c r : drop_while f l = c :: r → f c = false.
Proof. induction l as [|x l IH]; cbn; [done|]. destruct (f x) eqn:E; [done|by intros [= <- _]]. Qed.

Lemma drop_while_idem f l : drop_while f (drop_while f l) = drop_while f l.
Proof.
  destruct (drop_while f l) as [|c r] eqn:E; [done|]. apply drop_while_stop. by eapply drop_while_first.
Qed.

Lemma trim_trim t : trim (trim t) = trim t.
Proof.
  unfold trim at 2 3. set (d := drop_while is_whitespace t).
  destruct (drop_while_suffix is_whitespace (reverse d)) as (b & Eb & _).
  set (r := drop_while is_whitespace (reverse d)) in *.
  assert (Ed : d = (reverse r ++ reverse b)%list) by by rewrite <- reverse_app, <- Eb, reverse_involutive.
  unfold trim. destruct (reverse r) as [|c q] eqn:E; [done|].
  rewrite (drop_while_stop _ c) by by eapply (drop_while_first _ t); fold d; rewrite Ed.
  rewrite <- E, reverse_involutive. by unfold r; rewrite drop_while_idem.
Qed.

Section reads.
Context {RE : ReviewEnv} {RL : ReviewLaws RE}.

Lemma control_escapes_one_line :
  Forall (fun c => 10 ∉ chars_of "\u{" ++ chars_of (fmt 16 1 c) ++ chars_of "}")%list (seqZ 0 128).
Proof. apply (bool_decide_eq_true_1 _). vm_compute. reflexivity. Qed.

Lemma escape_no_break c : 10 ∉ escape_debug c.
Proof.
  unfold escape_debug. repeat (case_match; [vm_compute; set_solver|]).
  case_match; [|apply escape_one_line].
  pose proof control_escapes_one_line as Hall. rewrite Forall_forall in Hall. apply Hall, list_elem_of_In, elem_of_seqZ. lia.
Qed.

Lemma escaped_no_break t : 10 ∉ concat (escape_debug <$> t).
Proof.
  induction t as [|c t IH]; cbn; [by intros ?%elem_of_nil|].
  intros [H|H]%elem_of_app; [by eapply escape_no_break|by apply IH].
Qed.

Lemma session_line_ok id :
  let l := (chars_of "session_id: " ++ debug_text id)%list in ((10 ∉ l) ∧ l ≠ []) ∧ line_ok l.
Proof.
  cbn zeta. assert (H : 10 ∉ (chars_of "session_id: " ++ debug_text id)%list).
  { rewrite elem_of_app. unfold debug_text. rewrite !elem_of_app, !list_elem_of_singleton.
    intros [H|[H|[H|H]]]; [revert H; vm_compute; set_solver|done|by eapply escaped_no_break|done]. }
  split; [done|]. split; [done|]. unfold debug_text. rewrite !app_assoc, last_snoc. done.
Qed.

Lemma linked_line_ok links :
  let l := (chars_of "linked_drawer_ids: " ++ linked_to_json links)%list in ((10 ∉ l) ∧ l ≠ []) ∧ line_ok l.
Proof.
  cbn zeta. destruct (linked_one_line links) as [[Hb Hl] Hn].
  assert (H : 10 ∉ (chars_of "linked_drawer_ids: " ++ linked_to_json links)%list).
  { rewrite elem_of_app. intros [H|H]; [revert H; vm_compute; set_solver|done]. }
  split; [done|]. split; [done|]. rewrite last_app. case_match eqn:E; [done|].
  by apply last_None in E.
Qed.

Lemma put_session_line id m :
  parse_lines put_session [chars_of "session_id: " ++ debug_text id]%list m =
    Some (MkSessionMetadata (Some (concat (escape_debug <$> id))) (sm_linked_drawer_ids m)).
Proof.
  cbn [parse_lines]. change (chars_of "session_id: ") with (chars_of "session_id" ++ [58; 32])%list.
  rewrite <- app_assoc. cbn [app]. rewrite metadata_line_of; [|vm_compute; set_solver|done|done|reflexivity].
  unfold put_session.
  change (debug_text id) with (34 :: concat (escape_debug <$> id) ++ [34])%list. by rewrite unquote_quoted.
Qed.

Lemma put_linked_line links rest m :
  parse_lines put_session ((chars_of "linked_drawer_ids: " ++ linked_to_json links) :: rest)%list m =
    parse_lines put_session rest (MkSessionMetadata (sm_session_id m) links).
Proof.
  cbn [parse_lines]. change (chars_of "linked_drawer_ids: ") with (chars_of "linked_drawer_ids" ++ [58; 32])%list.
  rewrite <- app_assoc. cbn [app].
  rewrite metadata_line_of; [|vm_compute; set_solver|done|apply linked_one_line|reflexivity].
  unfold put_session, parse_linked_drawer_ids. by rewrite linked_read_back.
Qed.

(** What [append_session_metadata] wrote is taken off again. *)
Lemma session_metadata_read_back content session links id :
  trimmed (Some session) = Some id →
  split_session_metadata (append_session_metadata content (MkSessionMetadata (Some session) links)) =
    (content, MkSessionMetadata (Some (concat (escape_debug <$> id))) links).
Proof.
  intros Ht. unfold append_session_metadata, metadata_lines. cbn [sm_linked_drawer_ids sm_session_id]. rewrite Ht.
  set (session_line := (chars_of "session_id: " ++ debug_text id)%list).
  set (ls := (_ ++ [session_line])%list).
  assert (Hls : Forall (fun l => (10 ∉ l) ∧ l ≠ []) ls ∧ Forall line_ok ls).
  { split; unfold ls; apply Forall_app; split; try (apply Forall_singleton, session_line_ok).
    - destruct links; [done|apply Forall_singleton, (linked_line_ok (_ :: _))].
    - destruct links; [done|apply Forall_singleton, (linked_line_ok (_ :: _))]. }
  destruct Hls as [Hls Hok]. assert (Hne : ls ≠ []) by (unfold ls; by destruct links).
  transitivity (split_session_metadata (content ++ SESSION_METADATA_SENTINEL ++ join_lines ls)%list).
  { f_equal. clearbody ls. by destruct ls. }
  unfold split_session_metadata. rewrite latest_sentinel by done.
  rewrite <- length_app, app_assoc, drop_app_length, <- app_assoc, take_app_length.
  unfold parse_metadata_block, parse_block. rewrite lines_join by (done || by (eapply Forall_impl; [|exact Hls]; intros ? [])).
  assert (Hp : parse_lines put_session ls no_metadata = Some (MkSessionMetadata (Some (concat (escape_debug <$> id))) links)).
  { unfold ls. destruct links; [apply put_session_line|]. cbn [app]. rewrite put_linked_line. apply put_session_line. }
  clearbody ls. destruct ls; [done|]. by rewrite Hp.
Qed.

(** An identifier of printable characters without a quote or a backslash is written as
    it is. *)
Definition plain_char (c : Z) : bool := (32 <=? c) && (c <=? 126) && negb (c =? 34) && negb (c =? 92).

Lemma escape_plain id : forallb plain_char id = true → concat (escape_debug <$> id) = id.
Proof.
  induction id as [|c id IH]; cbn; [done|]. intros [Hc Hid]%andb_true_iff. rewrite IH by done.
  unfold plain_char in Hc. rewrite !andb_true_iff, !negb_true_iff in Hc. destruct Hc as [[[H1 H2] H3] H4].
  unfold escape_debug. rewrite H3, H4, H1, H2. apply Z.leb_le in H1, H2.
  by replace (c =? 0) with false by lia; replace (c =? 9) with false by lia; replace (c =? 10) with false by lia;
     replace (c =? 13) with false by lia.
Qed.

(** What the assistant said, in order, and the last [n] of it. *)
Definition said (messages : list (string * text)) : list text := snd <$> filter (fun m => m.1 = "assistant") messages.
Definition last_said (n : nat) (messages : list (string * text)) : list text := drop (length (said messages) - n) (said messages).

Lemma trailing_last messages n : trailing_assistant messages n = last_said n messages.
Proof.
  assert (Hf : ∀ l, List.filter (fun m : string * text => bool_decide (m.1 = "assistant")) l = filter (fun m => m.1 = "assistant") l).
  { intros l. induction l as [|m l IH]; [done|]. cbn [List.filter]. rewrite filter_cons, IH. by repeat case_decide; case_bool_decide. }
  unfold trailing_assistant, last_said, said. rewrite Hf, filter_reverse, take_reverse, <- fmap_reverse, reverse_involutive.
  by rewrite fmap_drop, length_fmap.
Qed.

(** C18: a review holds the last messages of the assistant, as many as configured or all
    there are, in their order, at least one, and at least as long as configured; and its
    metadata comes off again as it was put on, whatever the messages contain: analysis
    sees exactly the review, and the tool calls are read back as the linked drawers. The
    drawer is linked to its session when the trimmed identifier is its own escaped form,
    as it is when it consists of printable ASCII characters other than the double quote
    and the backslash. *)
Theorem review_read_back payload agent config r :
  extract_session_review (Some (Ok payload)) agent config = Ok (Review r) →
  sr_raw_content r =
    join (line_feed ++ chars_of "---" ++ line_feed)%list (last_said (se_trailing_messages config) (sp_messages payload)) ∧
  last_said (se_trailing_messages config) (sp_messages payload) ≠ [] ∧
  se_min_length config ≤ Z.of_nat (length (sr_raw_content r)) ∧
  sr_source_file r = trim (sp_session_id payload) ∧
  split_session_metadata (sr_content r) =
    (sr_raw_content r,
     MkSessionMetadata (Some (concat (escape_debug <$> sr_source_file r))) (sp_tool_calls payload)) ∧
  (concat (escape_debug <$> sr_source_file r) = sr_source_file r → ∀ wing source_type,
     linked_session_id wing source_type (sr_content r) = Some (sr_source_file r)) ∧
  (forallb plain_char (sr_source_file r) = true → concat (escape_debug <$> sr_source_file r) = sr_source_file r).
Proof.
  unfold extract_session_review. destruct (se_extract_self_review config); [|done]. cbn [negb].
  destruct (is_some_text (trim (sp_session_id payload))) eqn:Es; [|done]. cbn [negb].
  rewrite trailing_last. destruct (last_said _ _) as [|m ms] eqn:Em; [done|]. rewrite <- Em.
  destruct (_ <? _) eqn:El; [done|]. intros [= <-]. cbn [sr_raw_content sr_source_file sr_content].
  assert (Htt : trim (trim (sp_session_id payload)) = trim (sp_session_id payload)) by apply trim_trim.
  assert (Hs : trimmed (Some (trim (sp_session_id payload))) = Some (trim (sp_session_id payload))).
  { cbn. by rewrite Htt, Es. }
  assert (Hb : ∀ content, split_session_metadata (append_session_metadata content (MkSessionMetadata (Some (trim (sp_session_id payload))) (sp_tool_calls payload))) =
    (content, MkSessionMetadata (Some (concat (escape_debug <$> trim (sp_session_id payload)))) (sp_tool_calls payload))).
  { intros content. by apply session_metadata_read_back. }
  split_and!; [done|by rewrite Em|by apply Z.ltb_ge|done|apply Hb| |apply escape_plain].
  intros Hp wing source_type. unfold linked_session_id. rewrite Hb. cbn [snd sm_session_id]. by rewrite Hp, Hs.
Qed.
End reads.

(** ** A review with the metadata of another review inside *)
Module SessionRuns.
(** Some list of strings as one character, to evaluate the definitions with. *)
#[local] Instance one_character : ReviewEnv := {|
  linked_to_json ids := [100 + Z.pos (encode ids)];
  linked_of_json t := match t with [z] => if 100 <? z then decode (Z.to_pos (z - 100)) else None | _ => None end;
  escape_wide c := if c =? 10 then [] else [c];
|}.

#[local] Instance one_character_laws : ReviewLaws one_character.
Proof.
  split.
  - intros ids. cbn [linked_to_json linked_of_json one_character].
    rewrite (proj2 (Z.ltb_lt _ _)) by lia. replace (100 + Z.pos (encode ids) - 100) with (Z.pos (encode ids)) by lia.
    by rewrite Pos2Z.id, countable.decode_encode.
  - intros ids. split; [|done]. split; [|intros [=]; lia]. intros H%list_elem_of_singleton. lia.
  - intros c. cbn. destruct (Z.eqb_spec c 10); [by intros ?%elem_of_nil|]. intros H%list_elem_of_singleton. congruence.
Qed.

Definition quoting_message : text :=
  append_session_metadata (chars_of "as recorded:") (MkSessionMetadata (Some (chars_of "old")) [chars_of "d0"]).

Definition payload (session_id : string) : SessionEndPayload :=
  MkPayload (chars_of session_id) None
    [("assistant", chars_of "first"); ("user", chars_of "go on"); ("assistant", quoting_message)]
    [chars_of "d1"; chars_of "d2"].

Definition config : HooksSessionEndConfig := MkSessionEnd true 1 10 "reviews".

Definition the_review (session_id : string) : result SessionReviewOutcome SessionReviewError :=
  extract_session_review (Some (Ok (payload session_id))) (chars_of "claude") config.

Definition review_of (session_id : string) : SessionReviewRecord :=
  MkReview "reviews" (chars_of "claude") (trim (chars_of session_id)) quoting_message
    (append_session_metadata quoting_message
       (MkSessionMetadata (Some (trim (chars_of session_id))) [chars_of "d1"; chars_of "d2"])) 3.

Lemma review_read_back_witness :
  extract_session_review (Some (Ok (payload " s-1 "))) (chars_of "claude") config = Ok (Review (review_of " s-1 ")) ∧
  split_session_metadata (sr_content (review_of " s-1 ")) =
    (quoting_message, MkSessionMetadata (Some (chars_of "s-1")) [chars_of "d1"; chars_of "d2"]).
Proof.
  assert (H : extract_session_review (Some (Ok (payload " s-1 "))) (chars_of "claude") config = Ok (Review (review_of " s-1 "))).
  { vm_compute. reflexivity. }
  split; [exact H|].
  destruct (review_read_back (payload " s-1 ") (chars_of "claude") config (review_of " s-1 ") H) as (_ & _ & _ & _ & E & _).
  exact E.
Defined.

(** The quote of an identifier is written escaped and read back with its backslash, so
    that the drawer belongs to another session than the one that made it. *)
Example quoted_identifier :
  linked_session_id "reviews" "agent_observation" (sr_content (review_of "a'b")) = Some (chars_of "a'b") ∧
  let id := [97; 34; 98] in
  linked_session_id "reviews" "agent_observation"
    (append_session_metadata (chars_of "text") (MkSessionMetadata (Some id) [])) = Some [97; 92; 34; 98].
Proof. vm_compute. done. Qed.
End SessionRuns.
