(* ===== verification/HookRecords.v ===== *)
(** * The records of a hook

    [src/src/daemon.rs]: what the daemon makes of one captured hook, the raw record, the
    prompt filed under the project's wing, and the review at the end of a session, and
    what the gate is shown of a record. serde_json, git and the file system are
    parameters. *)

From Stdlib Require Import ZArith QArith Lia String Ascii SpecFloat.
From stdpp Require Import base tactics list gmap strings numbers.
From S2P Require Import Prelude Order Text Float Sqlite ProcessIdentity WriterLease Chars Aaak AaakCodec Utf8 Drawer DrawerStore Knowledge.
From S2P Require Import FactCheck Gating Search CoworkCapture Palace Ingest Projects SessionReview.
Close Scope Q_scope.
Open Scope Z_scope.
Open Scope rust_scope.

(** [serde_json::Value], as far as it is looked at. *)
Inductive json :=
  | JNull
  | JBool (b : bool)
  | JInt (z : Z)
  | JString (s : string)
  | JObject (fields : list (string * json))
  | JOther (rendered : string).

Definition json_get (key : string) (v : json) : option json :=
  match v with
  | JObject fields => snd <$> List.find (fun f => bool_decide (f.1 = key)) fields
  | _ => None
  end.
Definition as_str (v : json) : option string := match v with JString s => Some s | _ => None end.
Definition as_i64 (v : json) : option Z := match v with JInt z => Some z | _ => None end.

Record CapturedHookEnvelope := MkEnvelope {
  he_event : string;
  he_agent : string;
  he_captured_at : string;
  he_claude_cwd : string;
  he_payload : option string;
  he_payload_path : option string;
  he_payload_preview : option string;
  he_original_size_bytes : Z;
  he_truncated : bool;
}.

Record HookPayloadBody := MkPayloadBody { hp_raw_payload : option string; hp_spool_path : option string }.

Record DrawerRecord := MkRecord {
  dr_wing : string;
  dr_room : string;
  dr_source_file : string;
  dr_content : string;
  dr_added_at : string;
  dr_importance : Z;
  dr_bypass_novelty : bool;
  dr_project_id : option string;
  dr_deferred_raw_payload : option string;
  dr_deferred_raw_payload_path : option string;
}.

(** The parts of the configuration the records depend on. *)
Record HookConfig := MkHookConfig {
  hc_wing : string;
  hc_session_end : HooksSessionEndConfig;
  hc_project : option string;
}.

(** [from_json] and [to_json] are serde_json's; [session_payload] decodes the payload of
    the end of a session; [resolved_project] is [resolve_project_id] for the directory of
    a hook, [cwd_name] the last component of its path. *)
Class HookText := {
  from_json : string → option json;
  to_json : json → string;
  to_json_pretty : json → string;
  session_payload : string → result SessionEndPayload string;
  hook_directory : string → directory;
  env_project : option string;
  cwd_name : string → option string;
  mempal_home : string;
}.

Definition MAX_AUTOMATIC_HOOK_LLM_GATE_CONTENT_BYTES : Z := 16 * 1024.

(** The longest prefix of whole characters within the limit. *)
Fixpoint fitting_chars (limit : Z) (l : text) : text :=
  match l with
  | [] => []
  | c :: rest => let n := str_len (encode_str [c]) in
                 if limit <? n then [] else c :: fitting_chars (limit - n) rest
  end.

Definition bounded_hook_gate_content (content : string) (original_size_bytes : Z) : string :=
  if str_len content <=? MAX_AUTOMATIC_HOOK_LLM_GATE_CONTENT_BYTES then content
  else encode_str (fitting_chars MAX_AUTOMATIC_HOOK_LLM_GATE_CONTENT_BYTES (decode_str content))
       +:+ LF +:+ LF +:+ "[hook payload truncated for LLM gate; original_size_bytes=" +:+ show original_size_bytes +:+ "]".

Section records.
Context {RE : ReviewEnv} {HT : HookText}.

(** ** The payload *)
Definition payload_field (key raw_payload : string) : option json := from_json raw_payload ≫= json_get key.

Definition hook_payload_session_id (raw_payload : string) : option string :=
  id ← payload_field "session_id" raw_payload ≫= as_str;
  if bool_decide (Text.trim id = "") then None else Some (Text.trim id).

(** The prompt, or the message where there is no prompt at all. *)
Definition user_prompt_content (raw_payload : string) : string :=
  default raw_payload
    (v ← from_json raw_payload;
     match json_get "prompt" v with Some p => Some p | None => json_get "message" v end ≫= as_str).

Definition preview_for_event (event raw_payload : string) : string :=
  let field key := payload_field key raw_payload in
  if bool_decide (event = "UserPromptSubmit") then default raw_payload (field "prompt" ≫= as_str)
  else if bool_decide (event = "PostToolUse") then
    "tool=" +:+ default "unknown-tool" (field "tool_name" ≫= as_str)
    +:+ LF +:+ "exit_code=" +:+ show (default 0 (field "exit_code" ≫= as_i64))
    +:+ LF +:+ "input=" +:+ default "" (field "input" ≫= as_str)
    +:+ LF +:+ "output=" +:+ default "" (field "output" ≫= as_str)
  else if bool_decide (event = "SessionStart") || bool_decide (event = "SessionEnd") then
    match from_json raw_payload with Some v => to_json_pretty v | None => raw_payload end
  else raw_payload.

Definition envelope_agent_fallback (raw_payload : string) : string :=
  default "unknown-agent" (payload_field "agent" raw_payload ≫= as_str).

Definition audit_target_for_event (event raw_payload : string) (config : HookConfig) : string * string :=
  if bool_decide (event = "PostToolUse")
  then ("hooks-raw", default "unknown-tool" (payload_field "tool_name" raw_payload ≫= as_str))
  else if bool_decide (event = "UserPromptSubmit") then ("hooks-raw", "user-prompt")
  else if bool_decide (event = "SessionStart") || bool_decide (event = "SessionEnd")
  then ("hooks-raw", "session-lifecycle")
  else (hc_wing config, envelope_agent_fallback raw_payload).

(** What the gate is shown. *)
Definition analysis (content : string) : string := encode_str (analysis_content (decode_str content)).

Definition build_gating_candidate (envelope : CapturedHookEnvelope) (record : DrawerRecord) (payload : HookPayloadBody)
    : IngestCandidate :=
  let field key := if bool_decide (he_event envelope = "PostToolUse")
                   then hp_raw_payload payload ≫= payload_field key else None in
  let exit_code := code ← field "exit_code" ≫= as_i64;
                   if (- 2 ^ 31 <=? code) && (code <? 2 ^ 31) then Some code else None in
  let content := analysis (dr_content record) in
  MkIngestCandidate
    (match hp_spool_path payload with
     | Some _ => bounded_hook_gate_content content (he_original_size_bytes envelope)
     | None => content
     end) (Some (he_event envelope)) (field "tool_name" ≫= as_str) exit_code.
End records.

Section build.
Context `{StoreEnv} {SE : SearchEnv} {CE : CodecEnv} {PE : PalaceEnv} {IE : IngestEnv} {RE : ReviewEnv} {HT : HookText}.

Definition raw_payload_storage_path (raw_payload : string) : string :=
  mempal_home +:+ "/hook-payloads/" +:+ blake3_hex raw_payload +:+ ".json".

Definition synthetic_source_file (drawer_id : string) : string := "mempal://drawer/" +:+ drawer_id.

Definition resolve_hook_project_id (envelope : CapturedHookEnvelope) (config : HookConfig)
    : result (option string) ProjectError :=
  resolve_project_id None (hc_project config) env_project (Some (hook_directory (he_claude_cwd envelope))).

Definition raw_turn_storage_disabled (wing room : string) : bool :=
  let turns := cf_turns Ingest.config in
  is_raw_turn wing (Some room) None (tp_turns turns) && negb (should_store_raw_turns (tp_storage_mode turns)).

Definition should_keep_drawer_record (record : DrawerRecord) : bool :=
  negb (raw_turn_storage_disabled (dr_wing record) (dr_room record)).

Definition apply_turn_strata (record : DrawerRecord) : DrawerRecord :=
  match raw_turn_importance (dr_wing record) (Some (dr_room record)) None (cf_turns Ingest.config) with
  | None => record
  | Some importance =>
      MkRecord (dr_wing record) (dr_room record) (dr_source_file record) (dr_content record) (dr_added_at record)
        importance (dr_bypass_novelty record) (dr_project_id record) (dr_deferred_raw_payload record)
        (dr_deferred_raw_payload_path record)
  end.

(** ** The raw record *)
Definition optional (s : option string) : json := match s with Some s => JString s | None => JNull end.

Definition truncated_marker (envelope : CapturedHookEnvelope) : string :=
  let payload_omitted := bool_decide (he_payload envelope = None) && bool_decide (he_payload_path envelope = None) in
  to_json (JObject [("_truncated", JBool true); ("event", JString (he_event envelope));
                    ("agent", JString (he_agent envelope)); ("captured_at", JString (he_captured_at envelope));
                    ("claude_cwd", JString (he_claude_cwd envelope));
                    ("original_size_bytes", JInt (he_original_size_bytes envelope));
                    ("original_size_bytes_lower_bound", JBool payload_omitted); ("payload_omitted", JBool payload_omitted);
                    ("payload_preview", optional (scrub <$> he_payload_preview envelope));
                    ("payload_path", optional (he_payload_path envelope))]).

Definition diary_text (envelope : CapturedHookEnvelope) (preview payload_path : string) : string :=
  to_json (JObject [("event", JString (he_event envelope)); ("agent", JString (he_agent envelope));
                    ("captured_at", JString (he_captured_at envelope)); ("claude_cwd", JString (he_claude_cwd envelope));
                    ("preview", JString preview);
                    ("meta", JObject [("hook_payload_path", JString payload_path);
                                      ("original_size_bytes", JInt (he_original_size_bytes envelope))])]).

Definition build_audit_drawer_record (envelope : CapturedHookEnvelope) (payload : HookPayloadBody) (config : HookConfig)
    : result DrawerRecord ProjectError :=
  match resolve_hook_project_id envelope config with
  | Err e => Err e
  | Ok project_id =>
      if he_truncated envelope then
        Ok (MkRecord "hooks-raw" "truncated"
              (default (synthetic_source_file "hook-truncated") (he_payload_path envelope))
              (truncated_marker envelope) (he_captured_at envelope) 0 false project_id None None)
      else
        let raw_payload := default "" (hp_raw_payload payload) in
        let '(wing, room) := audit_target_for_event (he_event envelope) raw_payload config in
        let preview := scrub (preview_for_event (he_event envelope) raw_payload) in
        let '(payload_path, deferred_raw_payload, deferred_raw_payload_path) :=
          if raw_turn_storage_disabled wing room then (synthetic_source_file "hook-payload-skipped", None, None)
          else match hp_spool_path payload with
               | Some spool_path => (raw_payload_storage_path raw_payload, None, Some spool_path)
               | None => (raw_payload_storage_path raw_payload, Some raw_payload, None)
               end in
        let content := encode_str (append_hooks_raw_metadata (decode_str (diary_text envelope preview payload_path))
                                     (decode_str <$> hook_payload_session_id raw_payload)
                                     (Some (decode_str (he_captured_at envelope)))) in
        Ok (MkRecord wing room payload_path content (he_captured_at envelope) 0 false project_id
              deferred_raw_payload deferred_raw_payload_path)
  end.

(** ** The prompt in the project's wing *)
Definition wing_from_cwd (cwd : string) : option string :=
  name ← cwd_name cwd; if bool_decide (name = "") then None else Some name.

Definition build_user_prompt_project_record (envelope : CapturedHookEnvelope) (payload : HookPayloadBody)
    (config : HookConfig) (audit_record : DrawerRecord) : result (option DrawerRecord) ProjectError :=
  if negb (bool_decide (he_event envelope = "UserPromptSubmit")) || he_truncated envelope then Ok None
  else
    let content := scrub (user_prompt_content (default "" (hp_raw_payload payload))) in
    if bool_decide (Text.trim content = "") then Ok None
    else
      let wing := Text.trim (default (hc_wing config) (wing_from_cwd (he_claude_cwd envelope))) in
      if bool_decide (wing = "") || bool_decide (wing = "hooks-raw") then Ok None
      else
        let room := route_room_from_taxonomy content wing in
        match resolve_hook_project_id envelope config with
        | Err e => Err e
        | Ok project_id =>
            Ok (Some (MkRecord wing room (dr_source_file audit_record) content (dr_added_at audit_record) 0 false
                        project_id (dr_deferred_raw_payload audit_record) (dr_deferred_raw_payload_path audit_record)))
        end.

(** ** The review of the session *)
Definition load_session_review_payload (envelope : CapturedHookEnvelope) (payload : HookPayloadBody) : option string :=
  if he_truncated envelope then None else hp_raw_payload payload.

(** Any error drops the review, and only the review. *)
Definition review_record (envelope : CapturedHookEnvelope) (payload : HookPayloadBody) (config : HookConfig) (db : Db)
    : result (option DrawerRecord) unit :=
  let cfg := hc_session_end config in
  let raw := if se_extract_self_review cfg then load_session_review_payload envelope payload else None in
  match extract_session_review (session_payload <$> raw) (decode_str (he_agent envelope)) cfg with
  | Err _ => Err tt
  | Ok (Skipped _) => Ok None
  | Ok (Review review) =>
      match resolve_hook_project_id envelope config with
      | Err _ => Err tt
      | Ok project_id =>
          let metadata := (split_session_metadata (sr_content review)).2 in
          let linked := match sm_session_id metadata with
                        | Some session_id => validate_linked_drawer_ids session_id project_id (sm_linked_drawer_ids metadata) db
                        | None => Ok tt
                        end in
          match linked with
          | Err _ => Err tt
          | Ok _ =>
              Ok (Some (MkRecord (sr_wing review) (encode_str (sr_room review)) (encode_str (sr_source_file review))
                          (scrub (encode_str (sr_content review))) (he_captured_at envelope) (sr_importance review) true
                          project_id None None))
          end
      end
  end.

(** The records to file, and whether a review was refused. *)
Definition build_drawer_records (envelope : CapturedHookEnvelope) (payload : HookPayloadBody) (config : HookConfig)
    (db : Db) : result (list DrawerRecord * bool) ProjectError :=
  let keep record := if should_keep_drawer_record record then [record] else [] in
  match build_audit_drawer_record envelope payload config with
  | Err e => Err e
  | Ok audit_record =>
      let audit_record := apply_turn_strata audit_record in
      match build_user_prompt_project_record envelope payload config audit_record with
      | Err e => Err e
      | Ok prompt =>
          let records := (keep audit_record ++ match prompt with Some r => keep (apply_turn_strata r) | None => [] end)%list in
          if bool_decide (he_event envelope = "SessionEnd")
          then match review_record envelope payload config db with
               | Ok (Some review) => Ok ((records ++ keep (apply_turn_strata review))%list, false)
               | Ok None => Ok (records, false)
               | Err _ => Ok (records, true)
               end
          else Ok (records, false)
      end
  end.
End build.
