(* ===== verification/HookIngest.v ===== *)
(** * Filing a record

    [src/src/daemon.rs] [ingest_drawer_record] with [daemon/admission.rs]: a record is
    stored before the models look at it, under the message that owns it; the gate, the
    judge and the novelty check then keep it, delete it again, or merge it into a drawer
    that is already there. Every write is made under the writer lease. *)

From Stdlib Require Import ZArith QArith Lia String Ascii SpecFloat.
From stdpp Require Import base tactics list gmap strings numbers.
From S2P Require Import Prelude Order Text Float Sqlite ProcessIdentity WriterLease Chars Aaak AaakCodec Utf8 Drawer DrawerStore Knowledge.
From S2P Require Import FactCheck Gating Search CoworkCapture Palace Ingest Projects Novelty SessionReview HookRecords.
Close Scope Q_scope.
Open Scope Z_scope.
Open Scope rust_scope.

Inductive HookError :=
  | HookStore (operation : string) (e : PalaceError)
  | ResolveFailed
  | HookEmbed (message : string)
  | LlmGate (terminal : bool) (message : string)
  | PayloadNotPersisted (message : string)
  | MergeTargetMissing (id : string)
  | MergeTargetLocked (id : string) (e : SourceLockError)
  | EnqueueLeaseLost.

(** What enqueueing the task of the judge answers. *)
Inductive enqueue_answer := Enqueued | EnqueueFailed | EnqueueFenced.

(** [judge] is the LLM gate, where there is one: whether to keep the content and the
    score, or an error that is final or not. The files of payloads, the lock of a merge
    target, the queue and the answers to the novelty queries depend on the access. *)
Class HookEnv := {
  gate_config : JudgeConfig;
  classifier : option PrototypeClassifier;
  judge : option (string → string → result (bool * f32) (bool * string));
  persist_payload : nat → DrawerRecord → result unit string;
  enqueue_judge_task : nat → string → enqueue_answer;
  merge_lock : nat → string → result Z SourceLockError;
  novelty_answers_at : nat → novelty_answers;
  row_order : list string → list string;
  show_f32 : f32 → string;
}.

(** ** The monad *)
Definition hook (A : Type) : Type := pstate → pstate * result A HookError.

Definition hret {A} (a : A) : hook A := fun s => (s, Ok a).
Definition hfail {A} (e : HookError) : hook A := fun s => (s, Err e).
Definition hbind {A B} (m : hook A) (k : A → hook B) : hook B :=
  fun s => match m s with (s, Ok a) => k a s | (s, Err e) => (s, Err e) end.

Declare Scope hook_scope.
Delimit Scope hook_scope with hook.
Notation "'let+' x ':=' m 'in' k" := (hbind m (fun x => k)) (at level 10, x name, m at level 100, k at level 200) : hook_scope.
Notation "m ';;+' k" := (hbind m (fun _ => k)) (at level 100, k at level 200, right associativity) : hook_scope.
Open Scope hook_scope.

Section ingest.
Context `{StoreEnv} {SE : SearchEnv} {NE : NoveltyEnv} {PE : PalaceEnv} {JT : JsonText} {IE : IngestEnv}.
Context {RE : ReviewEnv} {HT : HookText} {HE : HookEnv}.
Context (lease : option RuntimeWriterLease).

Definition look {A} (f : Palace → result A HookError) : hook A :=
  fun s => let '(s, r) := query (fun _ p => f p) s in (s, r).

(** A write under the lease, with the error of the daemon. *)
Definition write {A} (operation : string) (b : @body A) : hook A :=
  fun s => let '(s, r) := lease_write_retry lease operation b s in
           (s, match r with Ok a => Ok a | Err e => Err (HookStore operation e) end).

Definition hook_timestamp : hook string := fun s => (s, Ok (show (ca_epoch_secs (answers (ps_access s))))).

Definition gating : IngestGatingConfig := jc_gating gate_config.

(** ** Writes *)
Definition drawer_of_record (drawer_id : string) (record : DrawerRecord) : Drawer :=
  new_bootstrap_evidence drawer_id (dr_content record) (dr_wing record) (Some (dr_room record))
    (Some (dr_source_file record)) SystemGenerated (dr_added_at record) (Some 0) (dr_importance record).

(** [insert_drawer_with_admission_owner] inside the transaction of the daemon. *)
Definition insert_drawer_with_admission_owner (drawer_id : string) (record : DrawerRecord) (admission_owner : option string)
    (p : Palace) : Palace * result unit PalaceError :=
  if drawer_exists (pl_db p) drawer_id then (p, Ok tt)
  else
    match insert_drawer_with_project (pl_db p) (drawer_of_record drawer_id record) (dr_project_id record) with
    | (db, Err e) => (with_db db p, Err (StoreFailed e))
    | (db, Ok _) =>
        let p := with_db db p in
        (match admission_owner with
         | Some owner => if drawer_id_in_use db drawer_id then with_owners (<[drawer_id := owner]> (pl_owners p)) p else p
         | None => p
         end, Ok tt)
    end.

(** [finalize_admission_owner_after_completion]. *)
Definition finalize_admission_owner_after_completion (drawer_id : string) (p : Palace) : Palace :=
  with_owners (delete drawer_id (pl_owners p)) p.

Definition insert_drawer_with_vector (drawer_id : string) (record : DrawerRecord) (vector : list f32) (p : Palace)
    : Palace * result unit PalaceError :=
  match insert_drawer_with_admission_owner drawer_id record None p with
  | (p, Err e) => (p, Err e)
  | (p, Ok _) =>
      match insert_vector_with_project fingerprint drawer_id vector (dr_project_id record) p with
      | (p, Err e) => (p, Err e)
      | (p, Ok _) => (finalize_admission_owner_after_completion drawer_id p, Ok tt)
      end
  end.

(** The update of [soft_delete_model_rejected_admission]. *)
Definition soft_delete_admission (drawer_id admission_owner : string) (a : access_answers) (p : Palace)
    : Palace * result unit PalaceError :=
  let owned := bool_decide (pl_owners p !! drawer_id = Some admission_owner) in
  (with_db (update_where drawer_id (fun row => owned && is_active row)
              (set_deleted_at (Some (show (ca_epoch_secs a)))) (pl_db p)).1 p, Ok tt).

Definition soft_delete_model_rejected_admission (drawer_id admission_owner : string) : hook unit :=
  write "soft-delete model-rejected hook drawer" (soft_delete_admission drawer_id admission_owner).

(** [upsert_llm_verdict_by_candidate_hash]. *)
Definition set_llm_verdict (verdict : string) (score : option f32) (row : GatingAudit) : GatingAudit :=
  MkGatingAudit (ga_candidate_hash row) (ga_drawer_id row) (ga_decision row) (ga_tier row) (ga_label row) (ga_reason row)
    (ga_score row) (ga_explain_json row) (ga_retained_until row) (ga_created_at row) (ga_project_id row)
    (ga_content_preview row) (Some (verdict, score)).

Definition upsert_llm_verdict_by_candidate_hash (candidate_hash verdict : string) (score : option f32) (p : Palace) : Palace :=
  with_gating ((fun row => if bool_decide (ga_candidate_hash row = candidate_hash) then set_llm_verdict verdict score row else row)
                 <$> pl_gating p) (pl_counters p) p.

Definition record_llm_verdict (drawer_id : string) (d : GatingDecision) : hook unit :=
  write "record daemon LLM verdict"
    (fun _ p => (upsert_llm_verdict_by_candidate_hash drawer_id (if is_rejected d then "reject" else "keep") (gd_score d) p, Ok tt)).

Definition record_gating_audit (drawer_id : string) (d : GatingDecision) (project_id content : option string) : hook unit :=
  fun s => let '(s, r) := record_gating_audit_fenced explain lease drawer_id d project_id content
                            "record daemon gating audit" s in
           (s, match r with Ok a => Ok a | Err e => Err (HookStore "record daemon gating audit" e) end).

Definition record_novelty_audit (audit : NoveltyAuditInsert) : hook unit :=
  write "record daemon novelty audit" (insert_novelty_audit_row show_f32 audit).

Definition persist_deferred_raw_payload (record : DrawerRecord) : hook unit :=
  fun s => (s, match persist_payload (ps_access s) record with Ok _ => Ok tt | Err m => Err (PayloadNotPersisted m) end).

Definition persist_before_model_work (drawer_id : string) (record : DrawerRecord) (admission_owner : string) : hook unit :=
  persist_deferred_raw_payload record ;;+
  write "insert daemon hook drawer before model work"
    (fun _ p => insert_drawer_with_admission_owner drawer_id record (Some admission_owner) p).

(** A failure other than a lost lease is only logged. *)
Definition enqueue_llm_gating_after_durable_insert (d : option GatingDecision) (drawer_id : string) : hook unit :=
  fun s => (s, if negb (should_route_to_llm_judge gate_config d) then Ok tt
               else match enqueue_judge_task (ps_access s) drawer_id with
                    | EnqueueFenced => Err EnqueueLeaseLost
                    | Enqueued | EnqueueFailed => Ok tt
                    end).

(** ** The gate *)
Definition automatic_hook_llm_gate_required : bool :=
  ig_enabled gating && match ig_llm_judge gating with Some j => lj_enabled j | None => false end.

Definition should_drop_reject_before_automatic_hook_llm_gate (d : GatingDecision) : bool :=
  if negb (is_rejected d) then false
  else if automatic_hook_llm_gate_required && bool_decide (gd_gating_reason d = Some "prototype_below_threshold")
  then false
  else negb (should_route_to_llm_judge gate_config (Some d)).

Definition embed_text (content : string) : hook (list f32) :=
  fun s => (s, match embed embedder [content] with
               | Ok (vector :: _) => Ok vector
               | Ok [] => Err (HookEmbed "embedder returned no vectors")
               | Err message => Err (HookEmbed message)
               end).

Definition gating_decision_from_llm_outcome (keep : bool) (score : f32) : GatingDecision :=
  if keep then accepted 0 (Some "llm_keep") (Some score) else rejected 0 (Some "llm_reject") None (Some score).

(** [judge_automatic_content_llm_gate]; the flag of the error is what
    [queue_failure_disposition] says of it. *)
Definition judge_automatic_hook_llm_gate (drawer_id content : string) : result GatingDecision (bool * string) :=
  match judge with
  | None => Err (false, "LLM gating is required for automatic hook writes but no LLM gate runtime is available")
  | Some run =>
      match run drawer_id content with
      | Ok (keep, score) => Ok (gating_decision_from_llm_outcome keep score)
      | Err e => Err e
      end
  end.

Definition audit_decision_with_llm_outcome (classifier_decision llm_decision : GatingDecision) : GatingDecision :=
  MkDecision (if is_rejected llm_decision then "rejected" else "accepted") (gd_tier classifier_decision)
    (gd_gating_reason classifier_decision) (gd_label classifier_decision) (gd_score classifier_decision)
    (gd_matched_pattern classifier_decision).

(** What the first tier says, or that there is no second. *)
Definition first_decision (candidate : IngestCandidate) : option GatingDecision :=
  match evaluate_tier1 candidate gating with
  | Some d => Some d
  | None => if ig_enabled gating && negb (tier2_enabled gating) then Some (accepted 0 (Some "tier2_disabled") None) else None
  end.

(** A step of the gate ends the record or passes it on. *)
Inductive gate_step (A : Type) := RecordRejected | Passed (a : A).
Arguments RecordRejected {A}.
Arguments Passed {A} a.

Section record.
Context (record : DrawerRecord) (candidate : IngestCandidate) (drawer_id admission_owner : string).

Definition audit_content (d : GatingDecision) : option string :=
  if is_rejected d then None else Some (ic_content candidate).

(** The prototype classifier, where the first tier has no say. *)
Definition classify_record (decision : option GatingDecision)
    : hook (gate_step (option GatingDecision * option (list f32))) :=
  match decision, classifier with
  | None, Some c =>
      let+ vector := embed_text (analysis (dr_content record)) in
      let d := decide_prototype c vector (cc_threshold (ig_embedding_classifier gating)) in
      if is_rejected d && should_drop_reject_before_automatic_hook_llm_gate d
      then record_gating_audit drawer_id d (dr_project_id record) None ;;+
           soft_delete_model_rejected_admission drawer_id admission_owner ;;+
           hret RecordRejected
      else hret (Passed (Some d, Some vector))
  | _, _ => hret (Passed (decision, None))
  end.

(** The judge; the flag says that its audit is written. *)
Definition judge_record (decision : option GatingDecision) : hook (gate_step (option GatingDecision * bool)) :=
  if negb automatic_hook_llm_gate_required then hret (Passed (decision, false))
  else
    match judge_automatic_hook_llm_gate drawer_id (ic_content candidate) with
    | Err (terminal, message) =>
        (if terminal then soft_delete_model_rejected_admission drawer_id admission_owner else hret tt) ;;+
        hfail (LlmGate terminal message)
    | Ok llm_decision =>
        let audit_decision := match decision with
                              | Some d => audit_decision_with_llm_outcome d llm_decision
                              | None => llm_decision
                              end in
        record_gating_audit drawer_id audit_decision (dr_project_id record) (audit_content audit_decision) ;;+
        record_llm_verdict drawer_id llm_decision ;;+
        if is_rejected llm_decision
        then soft_delete_model_rejected_admission drawer_id admission_owner ;;+ hret RecordRejected
        else hret (Passed (Some llm_decision, true))
    end.

Definition audit_unjudged (decision : option GatingDecision) (recorded : bool) : hook unit :=
  match decision with
  | Some d => if recorded then hret tt else record_gating_audit drawer_id d (dr_project_id record) (audit_content d)
  | None => hret tt
  end.

(** ** Storing, dropping, merging *)
Definition store_record (decision : option GatingDecision) (vector : list f32) : hook string :=
  write "insert daemon hook drawer" (fun _ p => insert_drawer_with_vector drawer_id record vector p) ;;+
  persist_deferred_raw_payload record ;;+
  enqueue_llm_gating_after_durable_insert decision drawer_id ;;+
  hret drawer_id.

Definition novelty_audit (action : NoveltyAction) (near : option string) (cosine : option f32) (audit_decision : option string)
    : NoveltyAuditInsert :=
  MkAuditInsert drawer_id action near cosine audit_decision (dr_project_id record).

Definition lock_target (target_id : string) : hook unit :=
  if bool_decide (target_id = drawer_id) then hret tt
  else fun s => (s, if negb (valid_source_key target_id)
                    then Err (MergeTargetLocked target_id (InvalidSourceKey target_id))
                    else match merge_lock (ps_access s) target_id with
                         | Ok _ => Ok tt
                         | Err e => Err (MergeTargetLocked target_id e)
                         end).

Definition supplement (existing merged_at : string) : string :=
  existing +:+ LF +:+ "---" +:+ LF +:+ "SUPPLEMENTARY (" +:+ merged_at +:+ "):" +:+ LF +:+ dr_content record.

Definition merge_capped (merge_count : Z) (merged_content : string) : bool :=
  (nv_max_merges_per_drawer (ig_novelty gating) <=? merge_count)
  || (nv_max_content_bytes_per_drawer (ig_novelty gating) <? str_len merged_content).

(** Stored after all, with the reason in the audit. *)
Definition store_instead (novelty : NoveltyDecision) (target_id reason : string) (decision : option GatingDecision)
    (vector : list f32) : hook string :=
  record_novelty_audit (novelty_audit NoveltyInsert (Some target_id) (nd_cosine novelty) (Some reason)) ;;+
  store_record decision vector.

Definition merge_record (novelty : NoveltyDecision) (decision : option GatingDecision) (vector : list f32) : hook string :=
  let target_id := default drawer_id (nd_near_drawer_id novelty) in
  lock_target target_id ;;+
  let+ state := look (fun p => match drawer_merge_state target_id (pl_db p) with
                               | Some state => Ok state
                               | None => Err (MergeTargetMissing target_id)
                               end) in
  let '(existing_content, merge_count) := state in
  let+ merged_at := hook_timestamp in
  let merged_content := supplement existing_content merged_at in
  if merge_capped merge_count merged_content then store_instead novelty target_id "insert_due_to_merge_cap" decision vector
  else
    match embed embedder [merged_content] with
    | Ok (merged_vector :: _) =>
        write "merge drawer"
          (merge_body fingerprint show_f32
             (MkMerge target_id merged_content merged_at merged_vector merge_count
                (novelty_audit NoveltyMerge (Some target_id) (nd_cosine novelty) (nd_audit_decision novelty)))
             (Some (drawer_id, admission_owner))) ;;+
        persist_deferred_raw_payload record ;;+
        hret target_id
    | _ => store_instead novelty target_id "insert_due_to_embed_error" decision vector
    end.

Definition audit_novelty (novelty : NoveltyDecision) (action : NoveltyAction) : hook unit :=
  if nd_should_audit novelty
  then record_novelty_audit (novelty_audit action (nd_near_drawer_id novelty) (nd_cosine novelty) (nd_audit_decision novelty))
  else hret tt.

Definition novelty_of (vector : list f32) : hook NoveltyDecision :=
  fun s => look (fun p => Ok (evaluate row_order (novelty_answers_at (ps_access s))
                                (MkNoveltyCandidate (dr_wing record) (Some (dr_room record)) (dr_project_id record))
                                vector (ig_novelty gating) p)) s.

Definition place_record (decision : option GatingDecision) (vector : list f32) : hook string :=
  if dr_bypass_novelty record then store_record decision vector
  else
    let+ novelty := novelty_of vector in
    match nd_action novelty with
    | NoveltyInsert => audit_novelty novelty NoveltyInsert ;;+ store_record decision vector
    | NoveltyDrop =>
        audit_novelty novelty NoveltyDrop ;;+
        soft_delete_model_rejected_admission drawer_id admission_owner ;;+
        hret (default drawer_id (nd_near_drawer_id novelty))
    | NoveltyMerge => merge_record novelty decision vector
    end.

(** From the first decision to the end, for a record that may be admitted. *)
Definition admit_record (decision : option GatingDecision) : hook string :=
  persist_before_model_work drawer_id record admission_owner ;;+
  let+ classified := classify_record decision in
  match classified with
  | RecordRejected => hret drawer_id
  | Passed (decision, vector) =>
      let+ judged := judge_record decision in
      match judged with
      | RecordRejected => hret drawer_id
      | Passed (decision, recorded) =>
          audit_unjudged decision recorded ;;+
          let+ vector := match vector with
                         | Some v => hret v
                         | None => embed_text (analysis (dr_content record))
                         end in
          place_record decision vector
      end
  end.
End record.

(** [ingest_drawer_record]: the identifier of the drawer that stands for the record. *)
Definition resolve_record (record : DrawerRecord) (p : Palace) : result (string * bool * bool) HookError :=
  match resolve_ingest_drawer_id (pl_db p) (dr_wing record) (Some (dr_room record)) (dr_content record) (dr_project_id record) with
  | Some (drawer_id, exists_) => Ok (drawer_id, exists_, exists_ && bool_decide (is_Some (pl_vectors p !! drawer_id)))
  | None => Err ResolveFailed
  end.

Definition ingest_drawer_record (envelope : CapturedHookEnvelope) (payload : HookPayloadBody) (record : DrawerRecord)
    (retry_count : Z) (admission_owner : string) : hook string :=
  let+ resolved := look (resolve_record record) in
  let '(drawer_id, exists_, has_vector) := resolved in
  if exists_ && (retry_count =? 0) && has_vector then hret drawer_id
  else
    let candidate := build_gating_candidate envelope record payload in
    let decision := first_decision candidate in
    match decision with
    | Some d =>
        if is_rejected d && should_drop_reject_before_automatic_hook_llm_gate d
        then record_gating_audit drawer_id d (dr_project_id record) None ;;+ hret drawer_id
        else admit_record record candidate drawer_id admission_owner decision
    | None => admit_record record candidate drawer_id admission_owner decision
    end.

(** The records of one message, in their order. *)
Fixpoint ingest_records (envelope : CapturedHookEnvelope) (payload : HookPayloadBody) (retry_count : Z)
    (admission_owner last : string) (records : list DrawerRecord) : hook string :=
  match records with
  | [] => hret last
  | record :: records =>
      let+ drawer_id := ingest_drawer_record envelope payload record retry_count admission_owner in
      ingest_records envelope payload retry_count admission_owner drawer_id records
  end.
End ingest.

Arguments RecordRejected {A}.
Arguments Passed {A} a.
