(* ===== verification/HookSafety.v ===== *)
(** * What becomes of a record

    When nobody else writes, an ingested record is accounted for: it was there already,
    the gate refused it and says so, the novelty check dropped or merged it, or it is
    stored with its vector; and no other drawer is touched. *)

From Stdlib Require Import ZArith QArith Lia String Ascii SpecFloat.
From stdpp Require Import base tactics list gmap strings numbers.
From S2P Require Import Prelude Order Text Float Sqlite ProcessIdentity WriterLease Chars Aaak AaakCodec Utf8 Drawer DrawerStore DrawerSafety Knowledge.
From S2P Require Import FactCheck Gating Search CoworkCapture Palace Ingest IngestSafety IngestStory IngestAgain Projects Novelty SessionReview HookRecords HookIngest.
Close Scope Q_scope.
Open Scope Z_scope.
Open Scope rust_scope.
Open Scope hook_scope.

Lemma hbind_ok {A B} (m : hook A) (k : A → hook B) s s' b :
  hbind m k s = (s', Ok b) → ∃ s1 a, m s = (s1, Ok a) ∧ k a s1 = (s', Ok b).
Proof. unfold hbind. destruct (m s) as [s1 [a|e]]; [by eauto|done]. Qed.

(** The novelty check drops only with an audit that names the drawer. *)
Lemma evaluate_drop `{SearchEnv, NoveltyEnv} order a candidate vector config p :
  nd_action (evaluate order a candidate vector config p) = NoveltyDrop →
  nd_should_audit (evaluate order a candidate vector config p) = true
  ∧ nd_audit_decision (evaluate order a candidate vector config p) = None
  ∧ is_Some (nd_near_drawer_id (evaluate order a candidate vector config p)).
Proof.
  assert (Hr : ∀ l, nd_action (novelty_decision_from_results l config) = NoveltyDrop →
    nd_should_audit (novelty_decision_from_results l config) = true
    ∧ nd_audit_decision (novelty_decision_from_results l config) = None
    ∧ is_Some (nd_near_drawer_id (novelty_decision_from_results l config))).
  { intros [|[id c] l]; cbn; [done|]. destruct (SFleb _ _); [by eauto|]. by destruct (SFleb _ _). }
  unfold evaluate, evaluate_no_project_novelty. repeat (case_match; try done); cbn; try apply Hr.
  subst. intros Hd. cbn in Hd. rewrite Hd in *. by destruct_and?.
Qed.

Section quiet.
Context `{StoreEnv} {SE : SearchEnv} {NE : NoveltyEnv} {PE : PalaceEnv} {JT : JsonText} {IE : IngestEnv}.
Context {RE : ReviewEnv} {HT : HookText} {HE : HookEnv}.
Context (quiet : ∀ n t, other n t = t) (lease : option RuntimeWriterLease).

(** ** Single steps *)
Lemma write_ok {A} op (b : @body A) s s' v :
  write lease op b s = (s', Ok v) → b (answers (ps_access s)) (ps_palace s) = (ps_palace s', Ok v).
Proof.
  unfold write. pose proof (lease_write_retry_cases lease op b s) as Hc.
  destruct (lease_write_retry lease op b s) as [s1 [a|e]]; [|done]. intros [= <- <-]. destruct Hc as [_ [_ Hb]].
  by rewrite (quiet_found quiet) in Hb.
Qed.

Lemma look_same {A} (f : Palace → result A HookError) s s' r :
  look f s = (s', r) → ps_palace s' = ps_palace s ∧ r = f (ps_palace s).
Proof.
  unfold look, query, begin_access. intros [= <- <-]. unfold ps_palace. cbn. by rewrite quiet.
Qed.

Lemma audit_written id d project content s s' :
  record_gating_audit lease id d project content s = (s', Ok tt) →
  ∃ a, record_gating_audit_tx explain id d project content a (ps_palace s) = (ps_palace s', Ok tt).
Proof.
  unfold record_gating_audit, record_gating_audit_fenced. destruct lease as [l|].
  - pose proof (lease_write_retry_cases (Some l) "record daemon gating audit"
                  (record_gating_audit_tx explain id d project content) s) as Hc.
    destruct (lease_write_retry _ _ _ s) as [s1 [[]|e]]; [|done]. intros [= <-]. destruct Hc as [_ [_ Hb]].
    rewrite (quiet_found quiet) in Hb. by eexists.
  - pose proof (lease_transaction_cases None "record daemon gating audit"
                  (record_gating_audit_tx explain id d project content) s) as Hc.
    destruct (lease_transaction _ _ _ s) as [s1 [[]|e]]; [|done]. intros [= <-]. destruct Hc as [[_ [_ Hb]] _].
    rewrite (quiet_found quiet) in Hb. by eexists.
Qed.

(** The audit tables lose no row. *)
Definition logs_grow (p p' : Palace) : Prop :=
  (∀ k, pl_gating p' !! k = None → pl_gating p !! k = None) ∧ (∀ k, pl_novelty p' !! k = None → pl_novelty p !! k = None).

(** Two states with the same drawers, the second no earlier. *)
Definition same_drawers (p p' : Palace) : Prop :=
  pl_db p' = pl_db p ∧ pl_vectors p' = pl_vectors p ∧ pl_owners p' = pl_owners p ∧ logs_grow p p'.

#[local] Instance logs_grow_preorder : PreOrder logs_grow.
Proof. split; [by split|]. intros p q r [H1 H2] [H3 H4]. split; auto. Qed.

#[local] Instance same_drawers_preorder : PreOrder same_drawers.
Proof.
  split; [by repeat split|]. intros p q r (H1 & H2 & H3 & H4) (H5 & H6 & H7 & H8).
  split_and!; [congruence..|by etrans].
Qed.

(** An audit row that was not there before says that the gate refused. *)
Definition gate_refused (id : string) (p0 p : Palace) : Prop :=
  ∃ k row, pl_gating p0 !! k = None ∧ pl_gating p !! k = Some row ∧ ga_candidate_hash row = id ∧ ga_decision row = "skip".

Lemma audit_same id d project content a p p' r :
  record_gating_audit_tx explain id d project content a p = (p', r) → same_drawers p p'.
Proof.
  unfold record_gating_audit_tx. destruct (pl_gating p !! _); intros [= <- _]; repeat split; try done.
  intros k. cbn. intros [? _]%lookup_insert_None. done.
Qed.

Lemma audit_refused id d project content a p0 p p' :
  record_gating_audit_tx explain id d project content a p = (p', Ok tt) → is_rejected d = true → logs_grow p0 p →
  gate_refused id p0 p'.
Proof.
  unfold record_gating_audit_tx. destruct (pl_gating p !! _) eqn:Ek; [done|]. intros [= <-] Hd [Hg _].
  eexists _, _. cbn. split; [by apply Hg|]. split; [apply lookup_insert_eq|]. cbn. by rewrite Hd.
Qed.

Lemma verdict_refused id id' v score p0 p :
  gate_refused id p0 p → gate_refused id p0 (upsert_llm_verdict_by_candidate_hash id' v score p).
Proof.
  intros (k & row & H0 & Hk & Hh & Hd). exists k, (if bool_decide (ga_candidate_hash row = id') then set_llm_verdict v score row else row).
  split; [done|]. split; [unfold upsert_llm_verdict_by_candidate_hash; cbn; by rewrite lookup_fmap, Hk|]. by destruct (bool_decide _).
Qed.

Lemma verdict_same id v score p : same_drawers p (upsert_llm_verdict_by_candidate_hash id v score p).
Proof. repeat split; try done. intros k. cbn. by rewrite lookup_fmap, fmap_None. Qed.

Lemma novelty_audit_written audit a p p' :
  insert_novelty_audit_row show_f32 audit a p = (p', Ok tt) →
  same_drawers p p' ∧ ∃ k row, pl_novelty p !! k = None ∧ pl_novelty p' !! k = Some row
    ∧ na_candidate_hash row = ai_candidate_hash audit
    ∧ na_decision row = default (action_as_str (ai_action audit)) (ai_audit_decision audit)
    ∧ na_near_drawer_id row = ai_near_drawer_id audit.
Proof.
  unfold insert_novelty_audit_row. destruct (pl_novelty p !! _) eqn:Ek; [done|]. intros [= <-]. split.
  - repeat split; try done. intros k. cbn. intros [? _]%lookup_insert_None. done.
  - eexists _, _. cbn. split; [exact Ek|]. split; [apply lookup_insert_eq|done].
Qed.

(** ** From the admission to the end *)
Context (record : DrawerRecord) (d owner : string).

Definition row_of_record (row : Row) : Prop :=
  is_active row = true ∧ r_content_hash row = content_hash_hex (dr_content record)
  ∧ same_place (dr_wing record) (Some (dr_room record)) (dr_project_id record) row = true.

(** The drawer was there, or it has been admitted for this message. *)
Definition admitted (p0 p : Palace) : Prop :=
  pl_vectors p = pl_vectors p0 ∧ logs_grow p0 p ∧
  ((∃ row, db_drawers (pl_db p0) !! d = Some row ∧ row_of_record row ∧ db_drawers (pl_db p) = db_drawers (pl_db p0)
           ∧ pl_owners p = pl_owners p0)
   ∨ (db_drawers (pl_db p0) !! d = None ∧ pl_owners p !! d = Some owner
      ∧ ∃ row, row_of_record row ∧ db_drawers (pl_db p) = <[d := row]> (db_drawers (pl_db p0)))).

Lemma admitted_same p0 p p' : admitted p0 p → same_drawers p p' → admitted p0 p'.
Proof.
  intros (Hv & Hl & Ha) (H1 & H2 & H3 & H4). unfold admitted. rewrite H1, H2, H3. split_and!; [done|by etrans|done].
Qed.

Lemma admitted_row p0 p : admitted p0 p → ∃ row, db_drawers (pl_db p) !! d = Some row ∧ row_of_record row.
Proof.
  intros (_ & _ & [(row & Hr & Hrec & E & _)|(_ & _ & row & Hrec & E)]); rewrite E; [by eauto|]. exists row. by rewrite lookup_insert_eq.
Qed.

(** The drawers of others: all but the one admitted for this message. *)
Definition foreign (p0 : Palace) (i : string) : Prop :=
  i = d → is_Some (db_drawers (pl_db p0) !! d) ∧ pl_owners p0 !! d ≠ Some owner.

(** A drawer is as before, and so is its vector. *)
Definition kept (p0 p : Palace) (i : string) : Prop :=
  db_drawers (pl_db p) !! i = db_drawers (pl_db p0) !! i ∧ pl_vectors p !! i = pl_vectors p0 !! i.

Lemma kept_same p0 p p' i : kept p0 p i → same_drawers p p' → kept p0 p' i.
Proof. unfold kept. intros [H1 H2] (-> & -> & _). done. Qed.

Lemma admitted_kept p0 p i : admitted p0 p → (i = d → is_Some (db_drawers (pl_db p0) !! d)) → kept p0 p i.
Proof.
  intros (Hv & _ & [(row & _ & _ & E & _)|(Hf & _ & row & _ & E)]) Hi; unfold kept; rewrite E, Hv; [done|]. split; [|done].
  destruct (decide (i = d)) as [->|Hne]; [|by rewrite lookup_insert_ne]. rewrite Hf in Hi. by destruct (Hi eq_refl).
Qed.

(** A drawer of others is not owned by the message after its admission either. *)
Lemma foreign_owner p0 p : admitted p0 p → foreign p0 d → pl_owners p !! d ≠ Some owner.
Proof.
  intros (_ & _ & [(row & _ & _ & _ & ->)|(Hf & _)]) Hd; [by apply Hd|]. destruct (Hd eq_refl) as [Hs _]. rewrite Hf in Hs. by destruct Hs.
Qed.

(** No drawer is active that was not so before, with the same row. *)
Definition nothing_new (p0 p : Palace) : Prop :=
  ∀ id row, active_row (pl_db p) id = Some row → active_row (pl_db p0) id = Some row.

(** What the rejection of a record leaves behind. *)
Definition undone (p0 p : Palace) : Prop := nothing_new p0 p ∧ ∀ i, foreign p0 i → kept p0 p i.

Lemma nothing_new_same p0 p p' : nothing_new p0 p → same_drawers p p' → nothing_new p0 p'.
Proof. intros Hn (E & _) id row. rewrite E. apply Hn. Qed.

Lemma active_some db id row : active_row db id = Some row ↔ db_drawers db !! id = Some row ∧ is_active row = true.
Proof.
  unfold active_row. destruct (db_drawers db !! id) as [r|]; [|split; [done|by intros [? _]]].
  destruct (is_active r) eqn:E; split; try done; [by intros [= <-]|by intros [[= <-] _]|intros [[= <-] E']]. congruence.
Qed.

(** The rejection of an admitted record leaves nothing new and the others' drawers. *)
Lemma rejection_undoes p0 p a p' :
  admitted p0 p → soft_delete_admission d owner a p = (p', Ok tt) → undone p0 p'.
Proof.
  intros Hadm. unfold soft_delete_admission. intros [= <-]. split; cycle 1.
  { intros i Hi. assert (Hk : kept p0 p i) by (apply admitted_kept; [done|]; intros Hd; by apply Hi).
    unfold update_where. destruct (db_drawers (pl_db p) !! d) as [r|]; [|done]. destruct (_ && _) eqn:Ho; [|done].
    apply andb_true_iff in Ho as [Ho%bool_decide_eq_true _]. destruct (decide (i = d)) as [->|Hne].
    - by destruct (foreign_owner p0 p Hadm Hi).
    - destruct Hk as [Hk Hv]. split; [|exact Hv]. cbn. by rewrite lookup_insert_ne. }
  intros id row. cbn. rewrite !active_some. unfold update_where. destruct Hadm as (Hv & _ & Ha).
  destruct Ha as [(r0 & Hr0 & Hrec & E & _)|(Hfree & Hown & r0 & Hrec & E)].
  - rewrite E, Hr0. destruct (_ && _); cbn; [|by rewrite ?E]. destruct (decide (id = d)) as [->|Hne].
    + rewrite lookup_insert_eq. intros [[= <-] Hact]. by unfold is_active in Hact.
    + rewrite lookup_insert_ne by done. by rewrite ?E.
  - rewrite E, lookup_insert_eq, Hown, bool_decide_eq_true_2 by done. destruct Hrec as [Hact _]. rewrite Hact. cbn.
    destruct (decide (id = d)) as [->|Hne].
    + rewrite lookup_insert_eq. intros [[= <-] Hact']. by unfold is_active in Hact'.
    + by rewrite lookup_insert_ne, ?E, lookup_insert_ne by done.
Qed.

Lemma new_row_of_record : row_of_record (drawer_to_row (drawer_of_record d record) (dr_project_id record) None None None None).
Proof. unfold row_of_record, same_place, is_active. cbn. by rewrite String.eqb_refl, !bool_decide_eq_true_2. Qed.

Lemma insert_fresh db db' :
  insert_drawer_with_project db (drawer_of_record d record) (dr_project_id record) = (db', Ok tt) →
  db_drawers db !! d = None → ∃ row, row_of_record row ∧ db_drawers db' = <[d := row]> (db_drawers db).
Proof.
  intros Hi Hf. apply insert_once_fresh in Hi. cbn in Hi. rewrite Hf in Hi. eexists. split; [apply new_row_of_record|done].
Qed.

Lemma resolved_admission p0 exists_ has_vector p :
  resolve_record record p0 = Ok (d, exists_, has_vector) →
  insert_drawer_with_admission_owner d record (Some owner) p0 = (p, Ok tt) → admitted p0 p.
Proof.
  unfold resolve_record. destruct (resolve_spec (pl_db p0) (dr_wing record) (Some (dr_room record)) (dr_content record) (dr_project_id record))
    as (id & ex & -> & Ht & Hf). intros [= -> <- _]. unfold insert_drawer_with_admission_owner.
  destruct ex.
  - destruct (Ht eq_refl) as [(row & Hr & Ha & Hh & Hp) _].
    assert (drawer_exists (pl_db p0) d = true) as ->.
    { unfold drawer_exists. apply bool_decide_eq_true. exists row. by apply active_some. }
    intros [= <-]. split; [done|]. split; [done|]. left. exists row. by split_and!.
  - destruct (Hf eq_refl) as [Hfree _].
    assert (drawer_exists (pl_db p0) d = false) as ->.
    { unfold drawer_exists, active_row. by rewrite Hfree. }
    destruct (insert_drawer_with_project _ _ _) as [db' [[]|e]] eqn:Ei; [|done].
    destruct (insert_fresh _ _ Ei Hfree) as (row & Hrec & E). intros [= <-].
    assert (drawer_id_in_use db' d = true) as ->.
    { unfold drawer_id_in_use. rewrite E, lookup_insert_eq. by apply bool_decide_eq_true. }
    split; [done|]. split; [done|]. right. split; [done|]. cbn. rewrite lookup_insert_eq. split; [done|]. by exists row.
Qed.

(** ** The ends *)
Definition filed (p : Palace) : Prop := ∃ row, active_row (pl_db p) d = Some row ∧ row_of_record row.

(** Apart from [id], the active drawers are as before. *)
Definition others_kept (id : string) (p0 p : Palace) : Prop :=
  ∀ i, i ≠ id → active_row (pl_db p) i = active_row (pl_db p0) i.

Lemma admitted_filed p0 p : admitted p0 p → filed p ∧ others_kept d p0 p.
Proof.
  intros Ha. split.
  - destruct (admitted_row _ _ Ha) as (row & Hr & Hrec). exists row. split; [|done]. apply active_some. split; [done|apply Hrec].
  - destruct Ha as (_ & _ & [(row & _ & _ & E & _)|(_ & _ & row & _ & E)]); intros i Hi; unfold active_row; rewrite E; [done|].
    by rewrite lookup_insert_ne by done.
Qed.

Lemma insert_vector_others id v project p i : i ≠ id →
  pl_vectors (insert_vector_with_project fingerprint id v project p).1 !! i = pl_vectors p !! i.
Proof.
  intros Hi. unfold insert_vector_with_project. destruct (negb _); [done|]. destruct (pl_vectors p !! id); [done|].
  cbn. by rewrite lookup_insert_ne.
Qed.

Lemma stored_with_vector p0 p vector p' :
  admitted p0 p → insert_drawer_with_vector d record vector p = (p', Ok tt) →
  filed p' ∧ is_Some (pl_vectors p' !! d) ∧ pl_owners p' !! d = None ∧ (∀ i, i ≠ d → kept p0 p' i)
  ∧ ∀ row, db_drawers (pl_db p0) !! d = Some row → db_drawers (pl_db p') !! d = Some row.
Proof.
  intros Ha. assert (Hkept : ∀ i, i ≠ d → kept p0 p i) by (intros i Hi; by apply admitted_kept).
  assert (Hsame : ∀ row, db_drawers (pl_db p0) !! d = Some row → db_drawers (pl_db p) !! d = Some row).
  { intros row Hr. destruct (admitted_kept p0 p d Ha) as [-> _]; eauto. }
  destruct (admitted_filed _ _ Ha) as [Hf Ho]. unfold insert_drawer_with_vector, insert_drawer_with_admission_owner.
  assert (drawer_exists (pl_db p) d = true) as ->.
  { destruct Hf as (row & Hr & _). unfold drawer_exists. apply bool_decide_eq_true. by eexists. }
  pose proof (insert_vector_db d vector (dr_project_id record) p) as Hdb.
  pose proof (insert_vector_others d vector (dr_project_id record) p) as Hvec.
  destruct (insert_vector_with_project _ _ _ _ _) as [p1 [[]|e]] eqn:Ev; [|done]. cbn in Hdb, Hvec. intros [= <-].
  apply insert_vector_ok in Ev as [Hv _]. unfold filed, kept, finalize_admission_owner_after_completion. cbn.
  rewrite Hdb, lookup_delete_eq. split_and!; [done..| |done]. intros i Hi. rewrite Hvec by done. by apply Hkept.
Qed.

Lemma merge_owners m p p' r : apply_drawer_merge_update fingerprint m p = (p', r) → pl_owners p' = pl_owners p.
Proof. unfold apply_drawer_merge_update. repeat case_match; by intros [= <- _]. Qed.

(** Consuming the candidate takes away at most the candidate, and certainly when it
    belongs to the message. *)
Lemma consumed p p2 p' t row' :
  db_drawers (pl_db p2) = <[t := row']> (db_drawers (pl_db p)) → is_active row' = true →
  (if bool_decide (d = t) then (p2, Ok tt) else consume_candidate d owner p2) = (p', Ok tt) →
  active_row (pl_db p') t = Some row' ∧ pl_vectors p' = pl_vectors p2
  ∧ (∀ i r, i ≠ t → active_row (pl_db p') i = Some r →
      active_row (pl_db p) i = Some r ∧ (i = d → pl_owners p2 !! d ≠ Some owner))
  ∧ (∀ i, i ≠ t → (i = d → pl_owners p2 !! d ≠ Some owner) →
      db_drawers (pl_db p') !! i = db_drawers (pl_db p) !! i).
Proof.
  intros E Hact Hc.
  assert (Hrow : ∀ i, i ≠ t → db_drawers (pl_db p2) !! i = db_drawers (pl_db p) !! i) by (intros i Hi; by rewrite E, lookup_insert_ne).
  assert (Hother : ∀ i r, i ≠ t → active_row (pl_db p2) i = Some r → active_row (pl_db p) i = Some r).
  { intros i r Hi. rewrite !active_some, Hrow by done. done. }
  assert (Ht2 : active_row (pl_db p2) t = Some row') by (by rewrite active_some, E, lookup_insert_eq).
  case_bool_decide as Hdt.
  { injection Hc as <-. split_and!; [done..| |by auto]. intros i r Hi Hr. split; [by apply Hother|congruence]. }
  unfold consume_candidate, delete_where in Hc. destruct (db_drawers (pl_db p2) !! d) as [rd|] eqn:Er; cycle 1.
  { injection Hc as <-. split_and!; [done..| |by auto]. intros i r Hi Hr. split; [by apply Hother|]. intros ->.
    unfold active_row in Hr. cbn in Hr. by rewrite Er in Hr. }
  case_bool_decide as Hown; cycle 1.
  { injection Hc as <-. split_and!; [done..| |by auto]. intros i r Hi Hr. split; [by apply Hother|done]. }
  destruct (referenced _ _); [done|]. injection Hc as <-. cbn. unfold active_row in *. cbn. split_and!.
  - by rewrite lookup_delete_ne.
  - done.
  - intros i r Hi. destruct (decide (i = d)) as [->|Hid]; [by rewrite lookup_delete_eq|].
    rewrite lookup_delete_ne by done. intros Hr. split; [by apply Hother|done].
  - intros i Hi Hd. destruct (decide (i = d)) as [->|Hid]; [by destruct (Hd eq_refl)|].
    rewrite lookup_delete_ne by done. by apply Hrow.
Qed.

Lemma merged_into p0 p t existing count merged_content at_ vector audit a p' :
  admitted p0 p → drawer_merge_state t (pl_db p) = Some (existing, count) →
  merge_body fingerprint show_f32 (MkMerge t merged_content at_ vector count audit) (Some (d, owner)) a p = (p', Ok tt) →
  (∃ row row', active_row (pl_db p) t = Some row ∧ r_content row = existing ∧ (t ≠ d → active_row (pl_db p0) t = Some row)
     ∧ active_row (pl_db p') t = Some row' ∧ r_content row' = merged_content)
  ∧ (fst <$> pl_vectors p' !! t) = Some vector
  ∧ (∀ i row, i ≠ t → active_row (pl_db p') i = Some row → active_row (pl_db p0) i = Some row)
  ∧ (∀ i, i ≠ t → foreign p0 i → kept p0 p' i).
Proof.
  intros Ha Hs Hm. destruct (admitted_filed _ _ Ha) as [_ Ho]. unfold drawer_merge_state in Hs. unfold merge_body in Hm.
  set (m := MkMerge t merged_content at_ vector count audit) in *.
  destruct (apply_drawer_merge_update fingerprint m p) as [p1 [[]|e]] eqn:E1; [|done]. pose proof (merge_owners _ _ _ _ E1) as Hmo.
  destruct (insert_novelty_audit_row show_f32 (mg_audit m) a p1) as [p2 [[]|e]] eqn:E2; [|done].
  apply merge_update_once in E1 as (row & Hrow & _ & Hdb1 & Hv1 & _). apply novelty_audit_written in E2 as [(Hdb2 & Hv2 & Ho2 & _) _].
  cbn [m mg_drawer_id mg_merged_content mg_updated_at mg_vector] in *. rewrite Hrow in Hs. injection Hs as <- _.
  set (row' := set_merged _ _ _ row) in Hdb1.
  assert (Hact : is_active row' = true) by (apply active_some in Hrow as [_ Hr]; exact Hr).
  assert (Hp2 : db_drawers (pl_db p2) = <[t := row']> (db_drawers (pl_db p))) by by rewrite Hdb2, Hdb1.
  assert (Hpo : pl_owners p2 = pl_owners p) by by rewrite Ho2.
  destruct (consumed p p2 p' t row' Hp2 Hact Hm) as (Ht & Hv & Hi & Hk). rewrite Hpo in Hi, Hk. split_and!.
  - exists row, row'. split_and!; [done..| |done|done]. intros Hne. by rewrite <- Ho.
  - rewrite Hv, Hv2, Hv1, lookup_insert_eq. done.
  - intros i r Hne Hr. destruct (Hi i r Hne Hr) as [Hp Hown]. destruct (decide (i = d)) as [->|Hid]; [|by rewrite <- Ho].
    destruct Ha as (_ & _ & [(r0 & _ & _ & E & _)|(_ & Hmine & _)]); [|by destruct (Hown eq_refl)].
    unfold active_row in *. by rewrite <- E.
  - intros i Hne Hf.
    assert (Hd : i = d → pl_owners p !! d ≠ Some owner) by (intros ->; by apply (foreign_owner p0)).
    destruct (admitted_kept p0 p i Ha) as [Hr0 Hv0]; [intros E; by apply Hf|].
    split; [by rewrite Hk|by rewrite Hv, Hv2, Hv1, lookup_insert_ne].
Qed.

(** ** The gate *)
Lemma unjudged_rejection_drops x :
  automatic_hook_llm_gate_required = false → is_rejected x = true → should_drop_reject_before_automatic_hook_llm_gate x = true.
Proof.
  intros Hr Hx. unfold should_drop_reject_before_automatic_hook_llm_gate. rewrite Hr, Hx. cbn.
  unfold should_route_to_llm_judge, llm_judge_active. unfold automatic_hook_llm_gate_required, gating in Hr.
  destruct (ig_enabled _); [|done]. cbn in Hr. by rewrite Hr, andb_false_r.
Qed.

Context (candidate : IngestCandidate).

(** What the gate lets through: what the judge keeps, where there has to be a judge,
    and else what neither the first tier nor the classifier rejects. *)
Definition gate_kept : Prop :=
  if automatic_hook_llm_gate_required
  then ∃ run score, judge = Some run ∧ run d (ic_content candidate) = Ok (true, score)
  else match first_decision candidate with
       | Some x => is_rejected x = false
       | None => ∀ c vector rest, classifier = Some c → embed embedder [analysis (dr_content record)] = Ok (vector :: rest) →
                   is_rejected (decide_prototype c vector (cc_threshold (ig_embedding_classifier gating))) = false
       end.

Lemma deleted_admission p0 s s' :
  admitted p0 (ps_palace s) → soft_delete_model_rejected_admission lease d owner s = (s', Ok tt) →
  undone p0 (ps_palace s') ∧ (gate_refused d p0 (ps_palace s) → gate_refused d p0 (ps_palace s'))
  ∧ pl_novelty (ps_palace s') = pl_novelty (ps_palace s).
Proof.
  intros Ha Hd. apply write_ok in Hd. split; [by eapply rejection_undoes|]. unfold soft_delete_admission in Hd.
  injection Hd as <-. done.
Qed.

Lemma embedded text s s' vector :
  embed_text text s = (s', Ok vector) → s' = s ∧ ∃ rest, embed embedder [text] = Ok (vector :: rest).
Proof. unfold embed_text. intros [= <- Hr]. split; [done|]. destruct (embed _ _) as [[|v rest]|]; [done| |done]. injection Hr as ->. by exists rest. Qed.

Lemma classify_spec p0 s s' st :
  admitted p0 (ps_palace s) →
  (∀ x, first_decision candidate = Some x → is_rejected x && should_drop_reject_before_automatic_hook_llm_gate x = false) →
  classify_record lease record d owner (first_decision candidate) s = (s', Ok st) →
  match st with
  | RecordRejected => gate_refused d p0 (ps_palace s') ∧ undone p0 (ps_palace s')
  | Passed _ => admitted p0 (ps_palace s') ∧ (automatic_hook_llm_gate_required = false → gate_kept)
  end.
Proof.
  intros Ha Hfirst. unfold classify_record, gate_kept. destruct (first_decision candidate) as [x|] eqn:Ef.
  { intros [= <- <-]. split; [done|]. intros Hr. rewrite Hr. specialize (Hfirst x eq_refl).
    destruct (is_rejected x) eqn:Hx; [|done]. by rewrite (unjudged_rejection_drops x Hr Hx) in Hfirst. }
  destruct classifier as [c|] eqn:Ec; cycle 1.
  { intros [= <- <-]. split; [done|]. by intros ->. }
  intros (s1 & vector & Hv & Hrun)%hbind_ok. apply embedded in Hv as (-> & rest & Hv).
  set (x := decide_prototype _ _ _) in *. destruct (is_rejected x && _) eqn:Ex.
  - apply hbind_ok in Hrun as (s1 & [] & H1 & Hrun). apply hbind_ok in Hrun as (s2 & [] & H2 & Hrun). injection Hrun as <- <-.
    apply audit_written in H1 as (a & H1). apply andb_true_iff in Ex as [Ex _].
    destruct (deleted_admission p0 s1 s2) as (Hn & Hg & _); [eapply admitted_same; [done|by eapply audit_same]|done|].
    split; [|done]. apply Hg. eapply audit_refused; [done..|apply Ha].
  - injection Hrun as <- <-. split; [done|]. intros Hr. rewrite Hr. intros c' vector' rest' [= <-] Hv'.
    rewrite Hv in Hv'. injection Hv' as <- <-. fold x. destruct (is_rejected x) eqn:Hx; [|done].
    by rewrite (unjudged_rejection_drops x Hr Hx) in Ex.
Qed.

Lemma outcome_rejected c x : is_rejected (audit_decision_with_llm_outcome c x) = is_rejected x.
Proof. unfold audit_decision_with_llm_outcome, is_rejected at 1. cbn. by destruct (is_rejected x). Qed.

Lemma judge_spec p0 decision s s' st :
  admitted p0 (ps_palace s) → (automatic_hook_llm_gate_required = false → gate_kept) →
  judge_record lease record candidate d owner decision s = (s', Ok st) →
  match st with
  | RecordRejected => gate_refused d p0 (ps_palace s') ∧ undone p0 (ps_palace s')
  | Passed _ => admitted p0 (ps_palace s') ∧ gate_kept
  end.
Proof.
  intros Ha Hk. unfold judge_record. destruct automatic_hook_llm_gate_required eqn:Er; cbn [negb];
    [|intros [= <- <-]; by split; [|apply Hk]].
  destruct (judge_automatic_hook_llm_gate d (ic_content candidate)) as [x|[terminal message]] eqn:Ej; cycle 1.
  { intros (s1 & [] & _ & Hrun)%hbind_ok. done. }
  intros (s1 & [] & H1 & Hrun)%hbind_ok. apply hbind_ok in Hrun as (s2 & [] & H2 & Hrun).
  apply audit_written in H1 as (a & H1). apply write_ok in H2. injection H2 as H2.
  assert (Hx : is_rejected (match decision with Some c => audit_decision_with_llm_outcome c x | None => x end) = is_rejected x)
    by (destruct decision; [apply outcome_rejected|done]).
  assert (Ha2 : admitted p0 (ps_palace s2)).
  { rewrite <- H2. eapply admitted_same; [|apply verdict_same]. eapply admitted_same; [done|by eapply audit_same]. }
  destruct (is_rejected x) eqn:Ex.
  - apply hbind_ok in Hrun as (s3 & [] & H3 & Hrun). injection Hrun as <- <-.
    destruct (deleted_admission p0 s2 s3 Ha2 H3) as (Hn & Hg & _). split; [|done]. apply Hg. rewrite <- H2.
    apply verdict_refused. eapply audit_refused; [done..|apply Ha].
  - injection Hrun as <- <-. split; [done|]. unfold gate_kept. rewrite Er. unfold judge_automatic_hook_llm_gate in Ej.
    destruct judge as [run|]; [|done]. destruct (run d (ic_content candidate)) as [[[] score]|[]] eqn:E; [|injection Ej as <-; done|done].
    by exists run, score.
Qed.

(** ** The accounts *)
Definition dropped_for (near : string) (p0 p : Palace) : Prop :=
  ∃ k row, pl_novelty p0 !! k = None ∧ pl_novelty p !! k = Some row ∧ na_candidate_hash row = d ∧ na_decision row = "drop" ∧ na_near_drawer_id row = Some near.

(** What can have become of the record between two states, and the drawer that stands
    for it. *)
Inductive accounted (p0 p : Palace) (id : string) : Prop :=
  | AlreadyFiled : id = d → filed p0 → is_Some (pl_vectors p0 !! d) → p = p0 → accounted p0 p id
  | RefusedByGate : id = d → gate_refused d p0 p → undone p0 p → accounted p0 p id
  | DroppedForKnown : gate_kept → dropped_for id p0 p → undone p0 p → accounted p0 p id
  | MergedInto row row' merged_at vector rest :
      gate_kept →
      (id ≠ d → active_row (pl_db p0) id = Some row) →
      active_row (pl_db p) id = Some row' → r_content row' = supplement record (r_content row) merged_at →
      embed embedder [r_content row'] = Ok (vector :: rest) → (fst <$> pl_vectors p !! id) = Some vector →
      (∀ i r, i ≠ id → active_row (pl_db p) i = Some r → active_row (pl_db p0) i = Some r) →
      (∀ i, i ≠ id → foreign p0 i → kept p0 p i) → accounted p0 p id
  | StoredWithVector :
      id = d → gate_kept → filed p → is_Some (pl_vectors p !! d) → pl_owners p !! d = None → (∀ i, i ≠ d → kept p0 p i) →
      (∀ row, db_drawers (pl_db p0) !! d = Some row → db_drawers (pl_db p) !! d = Some row) → accounted p0 p id.

Lemma store_spec p0 decision vector s s' id :
  admitted p0 (ps_palace s) → gate_kept → store_record lease record d decision vector s = (s', Ok id) →
  accounted p0 (ps_palace s') id.
Proof.
  intros Ha Hk (s1 & [] & H1 & Hrun)%hbind_ok. apply hbind_ok in Hrun as (s2 & [] & H2 & Hrun).
  apply hbind_ok in Hrun as (s3 & [] & H3 & Hrun). injection Hrun as <- <-.
  assert (s2 = s1) as -> by by injection H2. assert (s3 = s1) as -> by by injection H3.
  apply write_ok in H1. destruct (stored_with_vector _ _ _ _ Ha H1) as (Hf & Hv & Ho & Hr & Hd). by apply StoredWithVector.
Qed.

Lemma store_instead_spec p0 novelty target reason decision vector s s' id :
  admitted p0 (ps_palace s) → gate_kept → store_instead lease record d novelty target reason decision vector s = (s', Ok id) →
  accounted p0 (ps_palace s') id.
Proof.
  intros Ha Hk (s1 & [] & H1 & Hrun)%hbind_ok. apply write_ok in H1. apply novelty_audit_written in H1 as [Hs _].
  eapply store_spec; [by eapply admitted_same|done|done].
Qed.

Lemma merge_spec p0 novelty decision vector s s' id :
  admitted p0 (ps_palace s) → gate_kept → merge_record lease record d owner novelty decision vector s = (s', Ok id) →
  accounted p0 (ps_palace s') id.
Proof.
  intros Ha Hk. unfold merge_record. set (t := default d (nd_near_drawer_id novelty)).
  intros (s1 & [] & H1 & Hrun)%hbind_ok. apply hbind_ok in Hrun as (s2 & [existing count] & H2 & Hrun).
  assert (s1 = s) as -> by (unfold lock_target in H1; case_bool_decide; by injection H1).
  apply look_same in H2 as [Hp2 H2]. destruct (drawer_merge_state t _) as [[e c]|] eqn:Em; [|done]. injection H2 as <- <-.
  apply hbind_ok in Hrun as (s3 & merged_at & H3 & Hrun). assert (s3 = s2) as -> by by injection H3. clear H3.
  rewrite <- Hp2 in Ha, Em. destruct (merge_capped _ _); [by eapply store_instead_spec|].
  destruct (embed embedder _) as [[|v rest]|] eqn:Ev; [by eapply store_instead_spec| |by eapply store_instead_spec].
  apply hbind_ok in Hrun as (s3 & [] & H3 & Hrun). apply hbind_ok in Hrun as (s4 & [] & H4 & Hrun). injection Hrun as <- <-.
  assert (s4 = s3) as -> by by injection H4. apply write_ok in H3.
  destruct (merged_into _ _ _ _ _ _ _ _ _ _ _ Ha Em H3) as ((row & row' & Hr & Hc & Hr0 & Hr' & Hc') & Hv & Hi & Hk').
  eapply MergedInto; try done; [by rewrite Hc', Hc|by rewrite Hc'].
Qed.

Lemma place_spec p0 decision vector s s' id :
  admitted p0 (ps_palace s) → gate_kept → place_record lease record d owner decision vector s = (s', Ok id) →
  accounted p0 (ps_palace s') id.
Proof.
  intros Ha Hk. unfold place_record. destruct (dr_bypass_novelty record); [by apply store_spec|].
  intros (s1 & novelty & H1 & Hrun)%hbind_ok. apply look_same in H1 as [Hp H1]. injection H1 as Hn. rewrite <- Hp in Ha.
  destruct (nd_action novelty) eqn:En.
  - apply hbind_ok in Hrun as (s2 & [] & H2 & Hrun). eapply store_spec; [|done|done]. unfold audit_novelty in H2.
    destruct (nd_should_audit novelty); [|by injection H2 as <-]. apply write_ok in H2.
    apply novelty_audit_written in H2 as [Hs _]. by eapply admitted_same.
  - by eapply merge_spec.
  - apply hbind_ok in Hrun as (s2 & [] & H2 & Hrun). apply hbind_ok in Hrun as (s3 & [] & H3 & Hrun). injection Hrun as <- <-.
    rewrite Hn in En. destruct (evaluate_drop _ _ _ _ _ _ En) as (Hs & Hd & near & Hnear). rewrite <- Hn in *.
    unfold audit_novelty in H2. rewrite Hs in H2. apply write_ok in H2.
    apply novelty_audit_written in H2 as [Hsame (k & row & Hk0 & Hk' & Hh & Hdec & Hne)]. cbn in Hh, Hdec, Hne. rewrite Hd in Hdec.
    destruct (deleted_admission p0 s2 s3) as (Hnew & _ & Hnov); [by eapply admitted_same|done|].
    rewrite Hnear. apply DroppedForKnown; [done| |done]. exists k, row. rewrite Hnov. split_and!; [|done..|by rewrite Hne].
    destruct Ha as (_ & [_ Hl] & _). by apply Hl.
Qed.

Lemma admit_spec p0 s s' exists_ has_vector id :
  resolve_record record p0 = Ok (d, exists_, has_vector) → ps_palace s = p0 →
  (∀ x, first_decision candidate = Some x → is_rejected x && should_drop_reject_before_automatic_hook_llm_gate x = false) →
  admit_record lease record candidate d owner (first_decision candidate) s = (s', Ok id) → accounted p0 (ps_palace s') id.
Proof.
  intros Hres Hp Hfirst (s1 & [] & H1 & Hrun)%hbind_ok. unfold persist_before_model_work in H1.
  apply hbind_ok in H1 as (s0 & [] & H0 & H1). assert (s0 = s) as -> by by injection H0.
  apply write_ok in H1. rewrite Hp in H1. pose proof (resolved_admission _ _ _ _ Hres H1) as Ha.
  apply hbind_ok in Hrun as (s2 & classified & H2 & Hrun). pose proof (classify_spec _ _ _ _ Ha Hfirst H2) as Hc.
  destruct classified as [|[decision vector]]; [destruct Hc; injection Hrun as <- <-; by apply RefusedByGate|].
  destruct Hc as [Ha2 Hk]. apply hbind_ok in Hrun as (s3 & judged & H3 & Hrun).
  pose proof (judge_spec _ _ _ _ _ Ha2 Hk H3) as Hj.
  destruct judged as [|[decision' recorded]]; [destruct Hj; injection Hrun as <- <-; by apply RefusedByGate|].
  destruct Hj as [Ha3 Hkept]. apply hbind_ok in Hrun as (s4 & [] & H4 & Hrun).
  assert (Ha4 : admitted p0 (ps_palace s4)).
  { unfold audit_unjudged in H4. destruct decision' as [x|]; [destruct recorded|]; [by injection H4 as <-| |by injection H4 as <-].
    apply audit_written in H4 as (a & H4). eapply admitted_same; [done|by eapply audit_same]. }
  apply hbind_ok in Hrun as (s5 & v & H5 & Hrun).
  assert (s5 = s4) as ->. { destruct vector; [by injection H5|]. by apply embedded in H5 as [-> _]. }
  by eapply place_spec.
Qed.
End quiet.

Section accounts.
Context `{StoreEnv} {SE : SearchEnv} {NE : NoveltyEnv} {PE : PalaceEnv} {JT : JsonText} {IE : IngestEnv}.
Context {RE : ReviewEnv} {HT : HookText} {HE : HookEnv}.

(** C13: when nobody else writes, a record the daemon has ingested successfully is
    accounted for, whichever writes and models have failed on the way. Either it was
    filed with a vector already and nothing was written; or the gate has refused it, and
    a new audit row says so; or it was dropped for a drawer that a new row of the
    novelty audit names; or its text and the vector of the whole are in the drawer it
    was merged into; or it is an active drawer of its place with a vector and without an
    owner. Only what passed the gate is dropped for a known one, merged or stored; after
    a refusal or a drop no drawer is active that was not before; and every drawer of
    others, which is all but the one admitted for this message and the one merged into,
    has the row and the vector it had (one that was there with the record's content gets
    its vector, and keeps its row). *)
Theorem record_accounted (quiet : ∀ n t, other n t = t) lease envelope payload record retry_count owner s s' id :
  ingest_drawer_record lease envelope payload record retry_count owner s = (s', Ok id) →
  ∃ d exists_ has_vector, resolve_record record (ps_palace s) = Ok (d, exists_, has_vector)
    ∧ accounted record d owner (build_gating_candidate envelope record payload) (ps_palace s) (ps_palace s') id.
Proof.
  intros (s1 & [[d exists_] has_vector] & H1 & Hrun)%hbind_ok. apply (look_same quiet) in H1 as [Hp H1].
  exists d, exists_, has_vector. split; [done|]. destruct (exists_ && (retry_count =? 0) && has_vector) eqn:Ee.
  - injection Hrun as <- <-. apply andb_true_iff in Ee as [[-> _]%andb_true_iff ->]. rewrite Hp.
    unfold resolve_record in H1.
    destruct (resolve_spec (pl_db (ps_palace s)) (dr_wing record) (Some (dr_room record)) (dr_content record) (dr_project_id record))
      as (i & ex & Hres & Ht & _). rewrite Hres in H1. injection H1 as -> <- Hv. apply AlreadyFiled; [done| | |done].
    + destruct (Ht eq_refl) as [(row & Hr & Ha & Hh & Hpl) _]. exists row. split; [by apply active_some|exact (conj Ha (conj Hh Hpl))].
    + symmetry in Hv. by apply bool_decide_eq_true in Hv.
  - set (c := build_gating_candidate envelope record payload) in *. rewrite <- Hp.
    assert (Hadm : (∀ x, first_decision c = Some x → is_rejected x && should_drop_reject_before_automatic_hook_llm_gate x = false) →
      admit_record lease record c d owner (first_decision c) s1 = (s', Ok id) → accounted record d owner c (ps_palace s1) (ps_palace s') id).
    { intros Hf Ha. rewrite <- Hp in H1. eapply (admit_spec quiet) with (s := s1); [symmetry; exact H1|done|exact Hf|exact Ha]. }
    cbv zeta in Hrun. destruct (first_decision c) as [x|] eqn:Ef; [|by apply Hadm].
    destruct (is_rejected x && _) eqn:Ex; [|apply Hadm; [|done]; by intros ? [= <-]].
    apply hbind_ok in Hrun as (s2 & [] & H2 & Hrun). injection Hrun as <- <-.
    apply (audit_written quiet) in H2 as (a & H2). apply andb_true_iff in Ex as [Ex _].
    apply RefusedByGate; [done|by eapply audit_refused|]. assert (Hsame := audit_same _ _ _ _ _ _ _ _ H2). split.
    + eapply nothing_new_same; [|exact Hsame]. by intros i row.
    + intros i _. by eapply kept_same; [|exact Hsame].
Qed.
End accounts.
