(* ===== verification/PalaceRuns.v ===== *)
(** * Runs of ingestion

    Concrete ingestions of files, the migration of a small palace, the novelty check, and
    the records of the daemon: the cases in which the theorems' hypotheses hold, and those
    in which content is lost or a run stops half-way. *)

From Stdlib Require Import ZArith QArith Lia String Ascii SpecFloat.
From stdpp Require Import base tactics list gmap strings numbers sets.
From S2P Require Import Prelude Order Text Float Rfc3339 Sqlite ProcessIdentity WriterLease LeaseProtocol SqliteRetry WriteReserve.
From S2P Require Import Chars Aaak AaakCodec Utf8 Drawer DrawerStore DrawerSafety Knowledge Chunk FactCheck Gating Search.
From S2P Require Import SearchStory CoworkCapture Palace Ingest IngestSafety IngestStory IngestAgain.
From S2P Require Import Projects Novelty SessionReview HookRecords HookIngest HookSafety.
Close Scope Q_scope.
Open Scope Z_scope.
Open Scope rust_scope.
Open Scope ingest_scope.

(** ** Files *)
Module Runs.
#[local] Existing Instance Plain.env.
#[local] Existing Instance Plain.laws.
#[local] Existing Instance SearchStory.index.

Definition calm : access_answers :=
  MkAnswers (fun _ => Ok tt) (fun _ => Ok tt) witness_os "birth-1" 1776211200000 1776211200000 (Ok tt) (Ok tt) (Ok tt)
    1776211200 1 "2026-04-15T00:00:00Z" true.

(** Nobody else writes. *)
#[local] Instance alone : PalaceEnv := {
  blake3_hex := String.rev;
  answers _ := calm;
  other _ t := t;
}.

(** Two numbers per text; [mute] embeds nothing, [broken] fails. *)
Definition two : Gating.Embedder := MkEmbedder (fun texts => Ok ((fun _ => [f32_of_int 1; f32_of_int 2]) <$> texts)) 2.
Definition broken : Gating.Embedder := MkEmbedder (fun _ => Err "connection refused") 2.

Definition settings : IngestConfig :=
  MkIngestConfig (MkTurnPolicy RawEvidence 0 (MkTurns ["hooks-raw"] ["turns"])) (Build_ChunkerConfig 8 6 0) true true.

Definition setting (e : Gating.Embedder) : IngestEnv :=
  {| embedder := e; tokens := default_embedder; config := settings; scrub := fun s => s; taxonomy := [];
     explain := fun d => gd_decision d; fingerprint := fun _ => "model"; known_iter := elements;
     fact_error_text := fun _ => "error"; signal := fun _ _ _ => Ok tt |}.

#[local] Instance working : IngestEnv := setting two.

Definition options (gating : option IngestGatingConfig) (replace dry : bool) : IngestOptions :=
  MkIngestOptions (Some "notes") None dry (Some "p1") gating None None None None None None false None replace false false
    false None None None None None.

(** A dry run that asks for pinned drawers. *)
Definition dry_pinned : IngestOptions :=
  MkIngestOptions (Some "notes") None true (Some "p1") None None None None None None None true None false false false
    false None None None None None.

Definition empty_palace : Palace := MkPalace (MkDb ∅ ∅ ∅ [] []) None ∅ ∅ ∅ ∅ ∅ ∅.
Definition start : pstate := MkPstate None (empty_lease_db, empty_palace) 0.

Definition input (text : string) : source_input :=
  MkSource (Ok tt) (Ok (text, PlainText)) (fun _ => Ok (text, None)) (Ok "/root") (Ok 0).

Definition chunks : list string := ["alpha beta gamma"; "delta epsilon"].

Definition first_run : pstate * result IngestStats IngestError :=
  ingest_cut None (input "") ["notes.md"] "work" "notes" (options None false false) false 0 chunks None start.

Example first_run_ok : is_chunks <$> (match first_run.2 with Ok s => Some s | Err _ => None end) = Some 2.
Proof. vm_compute. reflexivity. Qed.

Lemma alone_quiet n t : other n t = t.
Proof. done. Qed.

Lemma all_answered texts vectors : embed embedder texts = Ok vectors → length vectors = length texts.
Proof. cbn. intros [= <-]. by rewrite length_fmap. Qed.

Lemma plain_options : plain (options None false false).
Proof. by repeat split. Qed.

Lemma chunks_distinct : distinct_ids "work" "notes" AgentInference chunks.
Proof.
  intros c1 c2 H1 H2. unfold chunks in *. rewrite !elem_of_cons in H1, H2.
  destruct H1 as [-> |[-> |H1%elem_of_nil]], H2 as [-> |[-> |H2%elem_of_nil]]; try done.
  all: intros Heq; vm_compute in Heq; discriminate Heq.
Qed.

Definition outcome (r : result IngestStats IngestError) : IngestStats := match r with Ok s => s | Err _ => stats_default end.

Lemma first_run_eq :
  ingest_cut None (input "") ["notes.md"] "work" "notes" (options None false false) false 0 chunks None start
  = (first_run.1, Ok (outcome first_run.2)).
Proof. vm_compute. reflexivity. Qed.

Lemma ingest_complete_witness :
  first_run.2 = Ok (outcome first_run.2)
  ∧ stored_chunk "work" "notes" (options None false false) first_run.1 "delta epsilon".
Proof.
  split; [vm_compute; reflexivity|].
  apply (ingest_complete alone_quiet all_answered None (input "") ["notes.md"] "work" "notes"
           (options None false false) false 0 chunks None plain_options start first_run.1 (outcome first_run.2)).
  - apply chunks_distinct.
  - apply first_run_eq.
  - apply (bool_decide_unpack _). vm_compute. exact I.
Defined.

Lemma ingest_again_changes_nothing_witness :
  first_run.2 = Ok (outcome first_run.2)
  ∧ ∃ s'' stats',
      ingest_cut None (input "") ["notes.md"] "work" "notes" (options None false false) false 0 chunks None first_run.1
      = (s'', Ok stats') ∧ ps_tables s'' = ps_tables first_run.1 ∧ is_chunks stats' = 0 ∧ is_skipped stats' = 2.
Proof.
  split; [vm_compute; reflexivity|].
  apply (ingest_again_changes_nothing alone_quiet all_answered None (input "") ["notes.md"] "work" "notes"
           (options None false false) false 0 chunks None plain_options start first_run.1 (outcome first_run.2)).
  - apply chunks_distinct.
  - reflexivity.
  - apply first_run_eq.
Defined.

(** *** A gated file *)
Definition gate : IngestGatingConfig :=
  MkGating true default_tier1_skip_events [] (MkClassifierConfig false f64_zero []) (MkFactCheckConfig true true false false)
    (MkNovelty false f64_zero f64_zero "same_wing" 5 10 10 10) None.

Definition gated_run : pstate * result IngestStats IngestError :=
  ingest_file None (input "the cache is warm again") ["notes.md"] "work" (options (Some gate) false false) start.

(** One of the two chunks is too short. *)
Example gated_counts :
  (is_chunks (outcome gated_run.2), is_dropped_by_gate (outcome gated_run.2)) = (1, 1).
Proof. vm_compute. reflexivity. Qed.

Lemma alone_stores n t c : has_content (other n t) c → False ∨ has_content t c.
Proof. auto. Qed.

Lemma ingest_stores_only_accepted_witness :
  is_dropped_by_gate (outcome gated_run.2) = 1
  ∧ "the cache is warm" ∈ source_chunks (input "the cache is warm again") ["notes.md"] (options (Some gate) false false)
  ∧ ∃ room, accepted_chunk (during None "work" (options (Some gate) false false)
                (source_chunks (input "the cache is warm again") ["notes.md"] (options (Some gate) false false)) (ps_tables start))
              (options (Some gate) false false)
              (stored_as_turn "work" room (options (Some gate) false false))
              (options_confidence (options (Some gate) false false)) "the cache is warm".
Proof.
  split; [vm_compute; reflexivity|].
  destruct (ingest_stores_only_accepted (fun _ => False) alone_stores None (input "the cache is warm again") ["notes.md"]
              "work" (options (Some gate) false false) start "the cache is warm") as [H|[H|H]].
  - reflexivity.
  - exists "drawer_work_notes_the cach". eexists. split; [vm_compute; reflexivity|reflexivity].
  - destruct H.
  - destruct H as (id & row & H & _). discriminate H.
  - exact H.
Defined.

(** *** A lease that is gone *)
Definition no_leases (db : lease_db) : Prop := ld_leases db = ∅.

Lemma gone : lease_lost first_lease no_leases.
Proof.
  intros n [leases generations] Hdb. unfold no_leases in Hdb. cbn in Hdb. subst leases. vm_compute. reflexivity.
Qed.

Lemma lost_lease_stops_ingest_witness :
  let '(s, r) := ingest_file (Some first_lease) (input "the cache is warm again") ["notes.md"] "work"
                   (options None false false) start in
  ps_palace s = empty_palace ∧ is_ok r = false.
Proof.
  pose proof (lost_lease_stops_ingest first_lease no_leases (fun _ _ H => H) gone (fun p => p = empty_palace)
    (fun _ _ _ H => H) (input "the cache is warm again") ["notes.md"] "work" (options None false false) start) as H.
  destruct (ingest_file (Some first_lease) _ _ _ _ _) as [s r] eqn:E. destruct H as [H _]; [by split|].
  split; [exact H|]. vm_compute in E. injection E as _ <-. reflexivity.
Defined.

Lemma alone_keeps (n : nat) t : t = ps_tables first_run.1 → other n t = ps_tables first_run.1.
Proof. done. Qed.

Lemma dry_run_writes_nothing_witness :
  ps_tables (ingest_file None (input "the cache is warm again") ["notes.md"] "work" (options (Some gate) true true) first_run.1).1
  = ps_tables first_run.1
  ∧ is_ok (ingest_file None (input "the cache is warm again") ["notes.md"] "work" (options (Some gate) true true) first_run.1).2
    = true.
Proof.
  split; [|vm_compute; reflexivity].
  apply (dry_run_writes_nothing (fun t => t = ps_tables first_run.1) alone_keeps); reflexivity.
Defined.

(** With pins a dry run does write: the duplicate it finds is pinned. *)
Example dry_run_pins :
  let '(s, r) := ingest_cut None (input "") ["notes.md"] "work" "notes" dry_pinned false 0 chunks None first_run.1 in
  is_ok r = true
  ∧ (r_is_pinned <$> (map_to_list (db_drawers (ps_db first_run.1))).*2) = [false; false]
  ∧ (r_is_pinned <$> (map_to_list (db_drawers (ps_db s))).*2) = [true; true].
Proof. vm_compute. by repeat split. Qed.

(** ** Runs that lose content *)
Definition contents (s : pstate) : list string :=
  (fun e => r_content e.2) <$> List.filter (fun e => is_active e.2) (map_to_list (db_drawers (ps_db s))).

(** A source that replaces its drawers deletes them before it embeds the new chunks:
    when the embedder is down, the ingestion fails and the old drawers are gone. *)
Example replaced_source_lost :
  let '(s, r) := ingest_cut (IE := setting broken) None (input "") ["notes.md"] "work" "notes" (options None true false)
                   false 0 ["zeta eta theta"] None first_run.1 in
  r = Err (EmbedChunks "connection refused") ∧ contents s = [].
Proof. vm_compute. by split. Qed.

(** An embedder that answers fewer vectors than it was given texts: the other chunks
    are left out, and the run is a success. *)
Definition short : Gating.Embedder := MkEmbedder (fun _ => Ok [[f32_of_int 1; f32_of_int 2]]) 2.

Example missing_vectors_drop_chunks :
  let '(s, r) := ingest_cut (IE := setting short) None (input "") ["notes.md"] "work" "notes" (options None false false)
                   false 0 chunks None start in
  is_ok r = true ∧ contents s = ["alpha beta gamma"].
Proof. vm_compute. by split. Qed.

(** Two chunks of one file whose digests agree in eight digits: both are counted, one
    is stored. *)
Example colliding_chunks_lose_one :
  let '(s, r) := ingest_cut None (input "") ["notes.md"] "work" "notes" (options None false false) false 0
                   ["same start, first"; "same start, second"] None start in
  is_chunks (outcome r) = 2 ∧ contents s = ["same start, first"].
Proof. vm_compute. by split. Qed.

(** The diary's drawer of the day was deleted: what is rolled up later that day is
    reported stored and is nowhere. *)
Definition today : DiaryRollupOptions := MkDiaryOptions (Some "claude") (Some "2026-04-15") false 0.

Definition diary_day : pstate * result DiaryRollupOutcome IngestError :=
  ingest_diary_rollup_fenced None (Ok 0) "morning" "agent-diary" today start.

Definition diary_deleted : pstate :=
  let p := ps_palace diary_day.1 in
  MkPstate None (empty_lease_db,
    with_db (soft_delete_drawer "2026-04-15T12:00:00Z" "drawer_agent-diary_claude_day_2026-04-15" (pl_db p)).1 p) 9.

Example deleted_diary_swallows :
  contents diary_day.1 = ["morning"]
  ∧ let '(s, r) := ingest_diary_rollup_fenced None (Ok 0) "evening" "agent-diary" today diary_deleted in
    is_ok r = true ∧ contents s = [].
Proof. vm_compute. by repeat split. Qed.
End Runs.

(** ** The project migration

    The migration of a small palace, and the two ways in which it stops half-way. *)
Module ProjectRuns.
#[local] Existing Instance Plain.env.
#[local] Existing Instance Plain.laws.
#[local] Existing Instance SearchStory.index.
#[local] Existing Instance Runs.alone.
#[local] Existing Instance Runs.working.

Definition no_project : IngestOptions :=
  MkIngestOptions (Some "notes") None false None None None None None None None None false None false false false
    false None None None None None.

(** Two drawers without a project. *)
Definition global_palace : pstate :=
  (ingest_cut None (Runs.input "") ["notes.md"] "work" "notes" no_project false 0 Runs.chunks None Runs.start).1.

Definition without_vectors : pstate :=
  let s := global_palace in
  MkPstate (ps_reserve s) ((ps_tables s).1, with_vectors None ∅ ∅ (ps_palace s)) (ps_access s).

Definition busy_once (n : nat) : begin_answer := if (n =? ps_access global_palace)%nat then BeginBusy else Begun.

Definition ok_round (n : nat) : result unit DbError := Ok tt.
Definition ok_commit (n : nat) : result unit string := Ok tt.

Definition events_of (r : option (pstate * list ProjectMigrationEvent * result unit ProjectError)) : list ProjectMigrationEvent :=
  match r with Some (_, events, _) => events | None => [] end.
Definition end_of (r : option (pstate * list ProjectMigrationEvent * result unit ProjectError))
    : option (result unit ProjectError * list (option string)) :=
  match r with
  | Some (s, _, r) => Some (r, (fun e => r_project_id e.2) <$> map_to_list (db_drawers (ps_db s)))
  | None => None
  end.

Definition migrated := migrate_null_project_ids ok_round busy_once ok_commit 4 "proj" (Some "work") global_palace.

(** Three waits, then one batch of both drawers. *)
Example both_migrated :
  events_of migrated = [BusyEvent 500; BusyEvent 1000; BusyEvent 2000; ProgressEvent (MkProgress 1 2 0)] ∧
  end_of migrated = Some (Ok tt, [Some "proj"; Some "proj"]).
Proof. vm_compute. done. Qed.

(** Before the first vector is stored there is no table of vectors, and the batch fails. *)
Example no_vectors_no_migration :
  end_of (migrate_null_project_ids ok_round (fun _ => Begun) ok_commit 4 "proj" (Some "work") without_vectors) =
  Some (Err (ProjectSqlite "no such table: drawer_vectors"), [None; None]).
Proof. vm_compute. reflexivity. Qed.

(** The other form without a lease has no transaction: the drawers keep the project that
    their vectors did not get. *)
Example unleased_batch_half_done :
  end_of (migrate_null_project_ids_with_writer_lease (fun _ => false) 4 "proj" (Some "work") None without_vectors) =
  Some (Err (ProjectSqlite "no such table: drawer_vectors"), [Some "proj"; Some "proj"]).
Proof. vm_compute. reflexivity. Qed.
End ProjectRuns.

Lemma migration_completes_witness :
  ∃ s' events,
    migrate_null_project_ids (PE := Runs.alone) ProjectRuns.ok_round ProjectRuns.busy_once ProjectRuns.ok_commit 4 "proj"
      (Some "work") ProjectRuns.global_palace = Some (s', events, Ok tt)
    ∧ total_updated events = length (unassigned_ids (Some "work") (ps_db ProjectRuns.global_palace))
    ∧ unassigned_ids (Some "work") (ps_db s') = [].
Proof.
  destruct (migration_completes (PE := Runs.alone) ProjectRuns.ok_round ProjectRuns.busy_once ProjectRuns.ok_commit
              "proj" (Some "work") 4 1 ProjectRuns.global_palace) as (s' & events & H1 & H2 & H3 & _).
  - done.
  - done.
  - done.
  - intros n message. unfold ProjectRuns.busy_once. by destruct (_ =? _)%nat.
  - vm_compute. reflexivity.
  - vm_compute. by eexists.
  - apply Nat.leb_le. vm_compute. reflexivity.
  - apply Nat.ltb_lt. vm_compute. reflexivity.
  - exists s', events. split_and!; assumption.
Defined.

(** ** The novelty check

    A drop, a merge, and the text without a project that is dropped for the drawer of a
    project. *)
Module NoveltyRuns.
#[local] Existing Instance SearchStory.index.

(** The first number of a vector is its similarity. *)
#[local] Instance by_first : NoveltyEnv := { vec_similarity v _ := Ok (default (f32_of_int 0) (head v)) }.

(** [order] of a table whose rows came in the order of their identifiers. *)
Definition by_id (l : list string) : list string := l.

Definition project_row (p : option string) : Row :=
  let r := SearchStory.row "the deploy key is rotated weekly" "notes" "ops" "p1" None in
  MkRow (r_content r) (r_wing r) (r_room r) (r_source_file r) (r_source_root r) (r_source_type r)
    (r_confidence r) (r_added_at r) (r_chunk_index r) (r_normalize_version r) (r_importance r)
    p (r_content_hash r) (r_memory_kind r) (r_domain r) (r_field r) (r_anchor_kind r)
    (r_anchor_id r) (r_parent_anchor_id r) (r_provenance r) (r_statement r) (r_tier r) (r_status r)
    (r_supporting_refs r) (r_counterexample_refs r) (r_teaching_refs r) (r_verification_refs r)
    (r_scope_constraints r) (r_trigger_hints r) (r_is_pinned r) (r_pin_order r) (r_supersedes r)
    (r_valid_from r) (r_valid_until r) (r_effective_importance r) (r_creation_operation_id r)
    (r_deleted_at r) (r_updated_at r) (r_merge_count r) (r_stale_penalty_applied r)
    (r_compacted_into r).

Definition palace : Palace :=
  MkPalace (MkDb (list_to_map [("n1", project_row (Some "p1")); ("n2", project_row None)]) ∅ ∅ [] []) (Some 2%nat)
    (list_to_map [("n1", ([f32_of_q (9 # 10); f32_of_int 0], Some "p1"));
                  ("n2", ([f32_of_q (1 # 2); f32_of_int 0], None))]) ∅ ∅ ∅ ∅ ∅.

(** Drop from 0.85, merge from [merge]. *)
Definition config (duplicate merge : Q) : NoveltyConfig :=
  MkNovelty true (f32_of_q duplicate) (f32_of_q merge) "same_wing" 5 100 10 65536.

Definition candidate : NoveltyCandidate := MkNoveltyCandidate "notes" (Some "ops") None.
Definition answers : novelty_answers := MkNoveltyAnswers (Ok 12) (Ok tt) (Ok tt).
Definition query : list f32 := [f32_of_int 1; f32_of_int 0].

Definition decide_with (duplicate merge : Q) : NoveltyDecision :=
  evaluate by_id answers candidate query (config duplicate merge) palace.

(** The text belongs to no project, the drawer it is dropped for, or merged into, does. *)
Example dropped_for_a_project :
  nd_action (decide_with (17 # 20) (3 # 4)) = NoveltyDrop ∧
  nd_near_drawer_id (decide_with (17 # 20) (3 # 4)) = Some "n1" ∧
  nd_action (decide_with (19 # 20) (3 # 4)) = NoveltyMerge ∧
  nd_near_drawer_id (decide_with (19 # 20) (3 # 4)) = Some "n1" ∧
  (r_project_id <$> db_drawers (pl_db palace) !! "n1") = Some (Some "p1").
Proof. vm_compute. done. Qed.

Lemma novelty_verdict_witness :
  nd_action (decide_with (19 # 20) (3 # 4)) ≠ NoveltyInsert ∧
  verdict_of by_id candidate query (config (19 # 20) (3 # 4)) palace (decide_with (19 # 20) (3 # 4)).
Proof.
  assert (H : nd_action (decide_with (19 # 20) (3 # 4)) ≠ NoveltyInsert) by (vm_compute; discriminate).
  split; [exact H|].
  destruct (novelty_verdict by_id answers candidate query (config (19 # 20) (3 # 4)) palace) as (_ & _ & _ & _ & _ & _ & V).
  - intros l. reflexivity.
  - exact H.
  - exact V.
Defined.
End NoveltyRuns.

(** ** Hooks

    One record filed alone, and what others can do to it between two of its writes: a
    vector of its own that counts as a known drawer, the rejection of another message
    with the same text, and the same text in another project. The last two can be other
    workers of the same daemon, under the same lease. *)
Module HookRuns.
#[local] Existing Instance Plain.env.
#[local] Existing Instance Plain.laws.
#[local] Existing Instance SearchStory.index.
#[local] Existing Instance NoveltyRuns.by_first.
#[local] Existing Instance Runs.working.
#[local] Existing Instance SessionRuns.one_character.

#[local] Instance silent : HookText := {
  from_json _ := None;
  to_json _ := "{}";
  to_json_pretty _ := "{}";
  session_payload _ := Err "no json";
  hook_directory _ := MkDirectory false (Ok None) (fun _ => "") (fun _ => None);
  env_project := None;
  cwd_name _ := None;
  mempal_home := "/home";
}.

Definition gate_off (novelty : NoveltyConfig) : JudgeConfig :=
  MkJudgeConfig (MkGating false [] [] (MkClassifierConfig false (f32_of_int 0) []) fact_check_default novelty None) false [].

#[local] Instance ungated : HookEnv := {
  gate_config := gate_off (NoveltyRuns.config (17 # 20) (3 # 4));
  classifier := None;
  judge := None;
  persist_payload _ _ := Ok tt;
  enqueue_judge_task _ _ := Enqueued;
  merge_lock _ _ := Ok 0;
  novelty_answers_at _ := NoveltyRuns.answers;
  row_order l := l;
  show_f32 _ := "0";
}.

Definition envelope : CapturedHookEnvelope := MkEnvelope "PostToolUse" "claude" "2026-04-15T00:00:00Z" "/w/p" None None None 10 false.
Definition body : HookPayloadBody := MkPayloadBody None None.

Definition note (project : option string) : DrawerRecord :=
  MkRecord "hooks-raw" "Design" "design.json" "use two keys" "2026-04-15T00:00:00Z" 0 false project None None.

Definition review (project : option string) : DrawerRecord :=
  MkRecord "reviews" "claude" "s-1" "use two keys" "2026-04-15T00:00:00Z" 3 true project None None.

Definition id_of (record : DrawerRecord) : string :=
  match resolve_record record Runs.empty_palace with Ok (d, _, _) => d | Err _ => "" end.

(** A run with a process that changes the palace just before one access. *)
Definition meddling (n : nat) (f : Palace → Palace) : PalaceEnv :=
  {| blake3_hex := String.rev; answers _ := Runs.calm;
     other k t := if (k =? n)%nat then (t.1, f t.2) else t |}.

Definition run (PE : PalaceEnv) (record : DrawerRecord) (start : pstate) : pstate * result string HookError :=
  ingest_drawer_record None envelope body record 0 "m-1" start.

Definition alone (record : DrawerRecord) : pstate * result string HookError := run Runs.alone record Runs.start.

Example filed_alone :
  (alone (note None)).2 = Ok (id_of (note None)) ∧
  (r_content <$> active_row (ps_db (alone (note None)).1) (id_of (note None))) = Some "use two keys" ∧
  bool_decide (is_Some (pl_vectors (ps_palace (alone (note None)).1) !! id_of (note None))) = true.
Proof. vm_compute. done. Qed.

Lemma record_accounted_witness :
  (alone (note None)).2 = Ok (id_of (note None)) ∧
  ∃ d exists_ has_vector, resolve_record (note None) Runs.empty_palace = Ok (d, exists_, has_vector)
    ∧ accounted (note None) d "m-1" (build_gating_candidate envelope (note None) body) Runs.empty_palace
        (ps_palace (alone (note None)).1) (id_of (note None)).
Proof.
  split; [vm_compute; reflexivity|].
  apply (record_accounted (PE := Runs.alone) Runs.alone_quiet None envelope body (note None) 0 "m-1" Runs.start).
  vm_compute. reflexivity.
Defined.

(** The novelty check does not leave out the record's own drawer. If that has a vector by
    then, from a process that embeds the drawers without one, the record is its own
    duplicate: it is deleted, and the message succeeds. *)
Definition reindexed (record : DrawerRecord) (p : Palace) : Palace :=
  (insert_vector_with_project fingerprint (id_of record) [f32_of_int 1; f32_of_int 2] (dr_project_id record) p).1.

Example own_vector_drops_record :
  let '(s, r) := run (meddling 2 (reindexed (note None))) (note None) Runs.start in
  r = Ok (id_of (note None)) ∧ active_row (ps_db s) (id_of (note None)) = None.
Proof. vm_compute. done. Qed.

(** Another message admitted the same text; its rejection deletes the drawer after this
    message has found it and before this one is stored. The insertion is ignored, and
    the message succeeds without an active drawer. *)
Definition with_foreign_admission (record : DrawerRecord) : pstate :=
  MkPstate None (Runs.start.(ps_tables).1,
    (insert_drawer_with_admission_owner (id_of record) record (Some "m-0") Runs.empty_palace).1) 0.

Definition rejected_elsewhere (record : DrawerRecord) (p : Palace) : Palace :=
  (soft_delete_admission (id_of record) "m-0" Runs.calm p).1.

Example stored_into_deleted :
  let '(s, r) := run (meddling 2 (rejected_elsewhere (review None))) (review None) (with_foreign_admission (review None)) in
  r = Ok (id_of (review None)) ∧ active_row (ps_db s) (id_of (review None)) = None.
Proof. vm_compute. done. Qed.

(** Two projects file the same text at the same time. The identifier is free for both,
    the second finds a drawer under it and inserts nothing: its project has no drawer. *)
Definition filed_elsewhere (record : DrawerRecord) (p : Palace) : Palace :=
  (insert_drawer_with_admission_owner (id_of record) record (Some "m-0") p).1.

Example project_left_without_drawer :
  let '(s, r) := run (meddling 1 (filed_elsewhere (review (Some "p0")))) (review (Some "p1")) Runs.start in
  r = Ok (id_of (review (Some "p1")))
  ∧ map (fun e => r_project_id e.2) (map_to_list (db_drawers (ps_db s))) = [Some "p0"].
Proof. vm_compute. done. Qed.

(** The daemon hands the audit a text only of what it accepts, and the audit keeps a
    preview only of what is rejected: no audit row of the daemon has one. *)
Example no_preview c x p :
  pl_gating p = ∅ →
  ∃ k row, pl_gating (record_gating_audit_tx (PE := Runs.alone) (fun _ => "") "h" x None (audit_content c x) Runs.calm p).1 !! k
           = Some row ∧ ga_content_preview row = None.
Proof.
  intros Hp. unfold record_gating_audit_tx, audit_content. rewrite Hp, lookup_empty.
  eexists _, _. cbn. split; [apply lookup_insert_eq|]. cbn. by destruct (is_rejected x).
Qed.
End HookRuns.
