(* ===== verification/DaemonStart.v ===== *)
(** * The start of the daemon

    What decides whether a daemon generation may start and go on: the restart budget
    of [src/src/daemon_recovery.rs] and the wait for it in
    [src/src/daemon_bootstrap.rs], the detection of stalled writes, the wait for the
    writer lease and its heartbeat ([src/src/daemon/writer_lease.rs]), the recognition
    of daemon processes ([src/src/daemon_singleton.rs]) and the removal of stale holders
    of the database ([src/src/process_diagnostics.rs]).

    Times of the restart budget are whole Unix seconds ([u64]); waits are nanoseconds
    of the monotonic clock of [SqliteRetry]. A world [W] answers the system calls. *)

From Stdlib Require Import ZArith Lia String Ascii.
From stdpp Require Import base tactics list gmap strings numbers.
From S2P Require Import Prelude Text Calendar Rfc3339 ProcessIdentity WriterLease Sqlite QueueTypes SqliteRetry.
Open Scope Z_scope.
Open Scope rust_scope.

Definition from_secs (n : Z) : Z := n * 1000000000.

(** ** The restart budget *)
Module Recovery.

Definition RESTART_WINDOW_SECS : Z := 10 * 60.
Definition RESTART_COOLDOWN_SECS : Z := 15 * 60.
Definition MAX_RESTARTS_PER_WINDOW : nat := 3.

Inductive RecoveryFault := DatabaseLocked | WriteStall | WriterLeaseLost.
Inductive RecoveryPhase := Healthy | Recovering | Cooldown.
Inductive RestartDecision := RestartAllowed | CooldownRequired.

#[export] Instance fault_eq_dec : EqDecision RecoveryFault.
Proof. solve_decision. Defined.
#[export] Instance phase_eq_dec : EqDecision RecoveryPhase.
Proof. solve_decision. Defined.
#[export] Instance decision_eq_dec : EqDecision RestartDecision.
Proof. solve_decision. Defined.

Record FaultRecord := MkFault {
  fr_fault : RecoveryFault;
  fr_occurred_at_unix_secs : Z;
  fr_generation : Z;
}.

Record DaemonRecoveryState := MkState {
  rs_phase : RecoveryPhase;
  rs_faults : list FaultRecord;
  rs_cooldown_until_unix_secs : Z;
  rs_last_fault : option RecoveryFault;
  rs_generation_id : Z;
}.

Definition default_state : DaemonRecoveryState := MkState Healthy [] 0 None 0.

Record DaemonRecoverySnapshot := MkSnapshot {
  sn_phase : RecoveryPhase;
  sn_recent_fault_count : nat;
  sn_restart_budget_remaining : nat;
  sn_cooldown_remaining_secs : Z;
  sn_last_fault : option RecoveryFault;
}.

(** [u64::saturating_sub]. *)
Definition sub_u64 (a b : Z) : Z := Z.max 0 (a - b).

Definition in_window (now_secs : Z) (fault : FaultRecord) : bool :=
  sub_u64 now_secs (fr_occurred_at_unix_secs fault) <=? RESTART_WINDOW_SECS.

(** Cooldown is authoritative: [phase == Cooldown && now_secs < cooldown_until]. *)
Definition cooling (s : DaemonRecoveryState) (now_secs : Z) : bool :=
  bool_decide (rs_phase s = Cooldown) && (now_secs <? rs_cooldown_until_unix_secs s).

Definition prune (now_secs : Z) (s : DaemonRecoveryState) : DaemonRecoveryState :=
  if bool_decide (rs_phase s = Cooldown) then
    if rs_cooldown_until_unix_secs s <=? now_secs
    then MkState Healthy [] 0 (rs_last_fault s) (rs_generation_id s)
    else s
  else MkState (rs_phase s) (List.filter (in_window now_secs) (rs_faults s))
         (rs_cooldown_until_unix_secs s) (rs_last_fault s) (rs_generation_id s).

Definition record_fault (fault : RecoveryFault) (now_secs : Z) (s : DaemonRecoveryState)
    : DaemonRecoveryState * RestartDecision :=
  if cooling s now_secs then (s, CooldownRequired)
  else
    let s := prune now_secs s in
    let faults := (rs_faults s ++ [MkFault fault now_secs (rs_generation_id s)])%list in
    if (MAX_RESTARTS_PER_WINDOW <=? length faults)%nat
    then (MkState Cooldown faults (sat_u64 (now_secs + RESTART_COOLDOWN_SECS)) (Some fault)
            (rs_generation_id s), CooldownRequired)
    else (MkState Recovering faults (rs_cooldown_until_unix_secs s) (Some fault)
            (rs_generation_id s), RestartAllowed).

Definition admit_start (now_secs : Z) (s : DaemonRecoveryState) : DaemonRecoveryState * RestartDecision :=
  let s := prune now_secs s in
  if cooling s now_secs then (s, CooldownRequired)
  else
    let until_ := if rs_cooldown_until_unix_secs s <=? now_secs then 0 else rs_cooldown_until_unix_secs s in
    (MkState Recovering (rs_faults s) until_ (rs_last_fault s)
       (Z.max (sat_u64 (rs_generation_id s + 1)) 1), RestartAllowed).

Definition record_recovered (now_secs : Z) (s : DaemonRecoveryState) : DaemonRecoveryState :=
  let s := prune now_secs s in
  if bool_decide (rs_phase s = Cooldown) then s
  else
    let current_generation := rs_generation_id s in
    let faults := if 0 <? current_generation
                  then List.filter (fun fault => fr_generation fault =? current_generation) (rs_faults s)
                  else [] in
    match list.last faults with
    | None => MkState Healthy faults 0 None current_generation
    | Some fault => MkState Recovering faults (rs_cooldown_until_unix_secs s) (Some (fr_fault fault))
                      current_generation
    end.

Definition snapshot (now_secs : Z) (s : DaemonRecoveryState) : DaemonRecoveryState * DaemonRecoverySnapshot :=
  let s := prune now_secs s in
  let remaining := if bool_decide (rs_phase s = Cooldown) then 0%nat
                   else (MAX_RESTARTS_PER_WINDOW - length (rs_faults s))%nat in
  (s, MkSnapshot (rs_phase s) (length (rs_faults s)) remaining
        (sub_u64 (rs_cooldown_until_unix_secs s) now_secs) (rs_last_fault s)).

(** A history: what a profile's generations, its supervisor and its operators ask, and
    when. [snapshot] is not among it: it does not write the state back. *)
Inductive op := Fault (fault : RecoveryFault) | Admit | Recovered.

Definition step (s : DaemonRecoveryState) (o : op) (now_secs : Z) : DaemonRecoveryState * option RestartDecision :=
  match o with
  | Fault fault => let '(s, d) := record_fault fault now_secs s in (s, Some d)
  | Admit => let '(s, d) := admit_start now_secs s in (s, Some d)
  | Recovered => (record_recovered now_secs s, None)
  end.

Fixpoint run (s : DaemonRecoveryState) (history : list (op * Z)) : DaemonRecoveryState * list (option RestartDecision) :=
  match history with
  | [] => (s, [])
  | (o, now_secs) :: rest =>
      let '(s, d) := step s o now_secs in
      let '(s, ds) := run s rest in (s, d :: ds)
  end.

(** ** The state on disk

    The contents of [daemon-recovery.json] are of a type [F]: a crate encodes and
    decodes the state. *)
Inductive DaemonRecoveryError :=
  | Busy (timeout_ms : Z)
  | Io (message : string)
  | InvalidState (message : string).

(** [flock] with LOCK_EX | LOCK_NB: taken, EWOULDBLOCK, another error. *)
Inductive flock_answer := Taken | Refused | Failed (message : string).

(** The system calls: [fs_call] is one that changes nothing of what is modelled
    (creating directories, opening, writing and syncing the temporary file); the
    contents change in [fs_rename]. *)
Class RecoveryFs (F W : Type) := {
  fs_call : W → W * result unit string;
  fs_flock : W → W * flock_answer;
  fs_read : W → W * result (option F) string;     (* [None]: not found *)
  fs_rename : F → W → W * result unit string;
  unix_secs : W → W * Z;
}.

Class RecoveryCodec (F : Type) := {
  from_slice : F → result DaemonRecoveryState string;
  to_vec : DaemonRecoveryState → result F string;
}.

Definition LOCK_TIMEOUT : Z := 250 * MILLIS.
Definition LOCK_RETRY : Z := 2 * MILLIS.
Definition FAULT_PERSIST_MAX_ATTEMPTS : nat := 3.
Definition FAULT_PERSIST_RETRY_DELAY : Z := 100 * MILLIS.

Section disk.
Context {F W : Type} `{Clock W} `{!RecoveryFs F W} `{!RecoveryCodec F}.

Definition io {A} (r : W * result A string) : W * result A DaemonRecoveryError :=
  (r.1, match r.2 with Ok a => Ok a | Err e => Err (Io e) end).

Fixpoint recovery_lock_loop (fuel : nat) (started : Z) (w : W) : option (W * result unit DaemonRecoveryError) :=
  match fuel with
  | O => None
  | S fuel =>
      match fs_flock w with
      | (w, Taken) => Some (w, Ok tt)
      | (w, Failed e) => Some (w, Err (Io e))
      | (w, Refused) =>
          let '(w, now) := instant_now w in
          if LOCK_TIMEOUT <=? Z.max 0 (now - started) then Some (w, Err (Busy 250))
          else recovery_lock_loop fuel started (sleep LOCK_RETRY w)
      end
  end.

(** [RecoveryLock::acquire]: one more round than there are retries in 250 ms. *)
Definition acquire_lock (w : W) : option (W * result unit DaemonRecoveryError) :=
  match io (fs_call w) with
  | (w, Err e) => Some (w, Err e)
  | (w, Ok _) => let '(w, started) := instant_now w in recovery_lock_loop 126 started w
  end.

Definition load_state (w : W) : W * result DaemonRecoveryState DaemonRecoveryError :=
  match io (fs_read w) with
  | (w, Err e) => (w, Err e)
  | (w, Ok None) => (w, Ok default_state)
  | (w, Ok (Some raw)) =>
      (w, match from_slice raw with Ok s => Ok s | Err e => Err (InvalidState e) end)
  end.

(** [save_state]: open, write and sync the temporary file, rename it, open and sync
    the directory. *)
Fixpoint fs_calls (n : nat) (w : W) : W * result unit DaemonRecoveryError :=
  match n with
  | O => (w, Ok tt)
  | S n => match io (fs_call w) with
           | (w, Err e) => (w, Err e)
           | (w, Ok _) => fs_calls n w
           end
  end.

Definition save_state (s : DaemonRecoveryState) (w : W) : W * result unit DaemonRecoveryError :=
  match to_vec s with
  | Err e => (w, Err (InvalidState e))
  | Ok encoded =>
      match fs_calls 3 w with
      | (w, Err e) => (w, Err e)
      | (w, Ok _) =>
          match io (fs_rename encoded w) with
          | (w, Err e) => (w, Err e)
          | (w, Ok _) => fs_calls 2 w
          end
      end
  end.

(** [DaemonRecovery::update]. *)
Definition update {T} (operation : Z → DaemonRecoveryState → DaemonRecoveryState * T) (w : W)
    : option (W * result T DaemonRecoveryError) :=
  match io (fs_call w) with
  | (w, Err e) => Some (w, Err e)
  | (w, Ok _) =>
      match acquire_lock w with
      | None => None
      | Some (w, Err e) => Some (w, Err e)
      | Some (w, Ok _) =>
          match load_state w with
          | (w, Err e) => Some (w, Err e)
          | (w, Ok s) =>
              let '(w, now) := unix_secs w in
              let '(s, t) := operation now s in
              Some (match save_state s w with
                    | (w, Err e) => (w, Err e)
                    | (w, Ok _) => (w, Ok t)
                    end)
          end
      end
  end.

Definition persist_fault (fault : RecoveryFault) : W → option (W * result RestartDecision DaemonRecoveryError) :=
  update (record_fault fault).
Definition persist_start : W → option (W * result RestartDecision DaemonRecoveryError) :=
  update admit_start.
Definition persist_recovered : W → option (W * result unit DaemonRecoveryError) :=
  update (fun now s => (record_recovered now s, tt)).

(** [DaemonRecovery::snapshot]: the pruned state is not written back. *)
Definition read_snapshot (w : W) : option (W * result DaemonRecoverySnapshot DaemonRecoveryError) :=
  match acquire_lock w with
  | None => None
  | Some (w, Err e) => Some (w, Err e)
  | Some (w, Ok _) =>
      match load_state w with
      | (w, Err e) => Some (w, Err e)
      | (w, Ok s) => let '(w, now) := unix_secs w in Some (w, Ok (snapshot now s).2)
      end
  end.

(** [DaemonRecoveryFaultReporter::record_fault_once]: the flag [reported] and at most
    three attempts to charge the fault. *)
Fixpoint charge (attempts : nat) (fault : RecoveryFault) (w : W) : option (W * bool) :=
  match attempts with
  | O => Some (w, false)
  | S attempts =>
      match persist_fault fault w with
      | None => None
      | Some (w, Ok _) => Some (w, true)
      | Some (w, Err _) =>
          charge attempts fault
            (if (0 <? attempts)%nat then sleep FAULT_PERSIST_RETRY_DELAY w else w)
      end
  end.

Definition record_fault_once (fault : RecoveryFault) (reported : bool) (w : W) : option (bool * W) :=
  if reported then Some (true, w)
  else match charge FAULT_PERSIST_MAX_ATTEMPTS fault w with
       | None => None
       | Some (w, charged) => Some (charged, w)
       end.

(** [admit_start_with_cooldown_wait] of [daemon_bootstrap.rs]. *)
Definition DAEMON_COOLDOWN_WAIT_MAX : Z := from_secs RESTART_COOLDOWN_SECS.

Inductive start_error :=
  | StartInspect (e : DaemonRecoveryError)
  | DaemonCooldownRequired (cooldown_remaining_secs : Z).

Definition cooldown_wait (cooldown_remaining_secs : Z) : Z :=
  let wait_secs := sat_u64 (Z.min cooldown_remaining_secs (sub_u64 RESTART_COOLDOWN_SECS 1) + 1) in
  Z.min (from_secs wait_secs) DAEMON_COOLDOWN_WAIT_MAX.

Definition admit_start_with_cooldown_wait (w : W) : option (W * result unit start_error) :=
  match persist_start w with
  | None => None
  | Some (w, Err e) => Some (w, Err (StartInspect e))
  | Some (w, Ok RestartAllowed) => Some (w, Ok tt)
  | Some (w, Ok CooldownRequired) =>
      match read_snapshot w with
      | None => None
      | Some (w, Err e) => Some (w, Err (StartInspect e))
      | Some (w, Ok snap) =>
          let w := sleep (cooldown_wait (sn_cooldown_remaining_secs snap)) w in
          match persist_start w with
          | None => None
          | Some (w, Err e) => Some (w, Err (StartInspect e))
          | Some (w, Ok RestartAllowed) => Some (w, Ok tt)
          | Some (w, Ok CooldownRequired) =>
              match read_snapshot w with
              | None => None
              | Some (w, Err e) => Some (w, Err (StartInspect e))
              | Some (w, Ok snap) => Some (w, Err (DaemonCooldownRequired (sn_cooldown_remaining_secs snap)))
              end
          end
      end
  end.
End disk.
End Recovery.

(** ** Stalled writes

    [DaemonWriteObserver] of [daemon_bootstrap.rs] and the watchdog of
    [src/src/daemon.rs]; the diagnostic is without the uptime and the census of writers,
    which are only logged. *)
Module WriteStalls.

Definition DAEMON_STALL_SECONDS : Z := 5 * 60.
Definition DAEMON_STALL_LOG_THROTTLE_SECONDS : Z := 60.
Definition DAEMON_SQLITE_CONTENTION_FRESHNESS_SECONDS : Z := 60.

(** The error's text, whether it was a lock error, and when it was seen. The mutex of
    the last error is poisoned once a thread panicked while it held it. *)
Record observer := MkObserver {
  ob_last_successful_write_secs : Z;
  ob_last_stall_log_secs : Z;
  ob_last_error : option (string * bool * Z);
  ob_poisoned : bool;
}.

Definition new_observer (now_secs : Z) : observer := MkObserver now_secs 0 None false.

Definition set_last_error (e : option (string * bool * Z)) (o : observer) : observer :=
  if ob_poisoned o then o
  else MkObserver (ob_last_successful_write_secs o) (ob_last_stall_log_secs o) e (ob_poisoned o).

Definition record_queue_maintenance_success : observer → observer := set_last_error None.

Definition record_successful_write (now_secs : Z) (o : observer) : observer :=
  record_queue_maintenance_success
    (MkObserver now_secs (ob_last_stall_log_secs o) (ob_last_error o) (ob_poisoned o)).

Definition record_error_observation (error : string) (is_lock : bool) (now_secs : Z) : observer → observer :=
  set_last_error (Some (error, is_lock, now_secs)).

Definition record_error (error : string) := record_error_observation error false.

Section queue.
Context (display : QueueError → string).

Definition record_queue_error (context : string) (error : QueueError) : Z → observer → observer :=
  record_error_observation (context +:+ ": " +:+ display error) (is_sqlite_lock error).

Definition record_claim_error : QueueError → Z → observer → observer :=
  record_queue_error "claim_next failed".

Definition observe_queue_result {T} (context : string) (r : result T QueueError) (semantic_success : bool)
    (now_secs : Z) (o : observer) : observer :=
  match r with
  | Ok _ => if semantic_success then record_successful_write now_secs o else record_queue_maintenance_success o
  | Err error => record_queue_error context error now_secs o
  end.

Definition observe_semantic_queue_result {T} (context : string) (r : result T QueueError) :=
  observe_queue_result context r true.
Definition observe_maintenance_queue_result {T} (context : string) (r : result T QueueError) :=
  observe_queue_result context r false.
End queue.

Record DaemonStallDiagnostic := MkStall {
  sd_queued_count : Z;
  sd_seconds_since_successful_write : Z;
  sd_last_error : string;
  sd_last_error_is_sqlite_lock : bool;
  sd_last_error_age_secs : option Z;
}.

(** Of the queue's statistics, the numbers of pending and of claimed messages. *)
Definition stall_diagnostic (stats : result (Z * Z) QueueError) (now_secs : Z) (o : observer)
    : option DaemonStallDiagnostic :=
  match stats with
  | Err _ => None
  | Ok (pending, claimed) =>
      let queued_count := sat_u64 (pending + claimed) in
      if queued_count =? 0 then None
      else
        let '(written, error, is_lock, age) :=
          if ob_poisoned o then (now_secs, "none recorded", false, None)
          else match ob_last_error o with
               | Some (error, is_lock, observed_at) =>
                   (ob_last_successful_write_secs o, error, is_lock, Some (Recovery.sub_u64 now_secs observed_at))
               | None => (ob_last_successful_write_secs o, "none recorded", false, None)
               end in
        let since := Recovery.sub_u64 now_secs written in
        if since <? DAEMON_STALL_SECONDS then None
        else Some (MkStall queued_count since error is_lock age)
  end.

(** [swapped]: the exchange of the time of the last log met no other thread. *)
Definition maybe_log_stall (stats : result (Z * Z) QueueError) (now_secs : Z) (swapped : bool) (o : observer)
    : observer * bool :=
  match stall_diagnostic stats now_secs o with
  | None => (o, false)
  | Some diagnostic =>
      if Recovery.sub_u64 now_secs (ob_last_stall_log_secs o) <? DAEMON_STALL_LOG_THROTTLE_SECONDS then (o, false)
      else if negb swapped then (o, false)
      else
        (MkObserver (ob_last_successful_write_secs o) now_secs (ob_last_error o) (ob_poisoned o),
         negb (sd_last_error_is_sqlite_lock diagnostic
               && match sd_last_error_age_secs diagnostic with
                  | Some age => age <? DAEMON_SQLITE_CONTENTION_FRESHNESS_SECONDS
                  | None => false
                  end))
  end.

(** [spawn_stall_watchdog], tick by tick: whether shutdown is requested, then the
    statistics, the clock and the exchange. Between ticks the workers change the
    observer: [between]. *)
Inductive watchdog_end := StillWatching | WatchdogShutdown | StallReported.

Record tick := MkTick {
  tk_shutdown : bool;
  tk_stats : result (Z * Z) QueueError;
  tk_now_secs : Z;
  tk_swapped : bool;
  tk_between : observer → observer;
}.

Fixpoint watchdog (ticks : list tick) (o : observer) : observer * watchdog_end :=
  match ticks with
  | [] => (o, StillWatching)
  | t :: rest =>
      if tk_shutdown t then (o, WatchdogShutdown)
      else
        let '(o, stalled) := maybe_log_stall (tk_stats t) (tk_now_secs t) (tk_swapped t) (tk_between t o) in
        if stalled then (o, StallReported) else watchdog rest o
  end.
End WriteStalls.

(** ** The writer lease of the daemon *)
Module WriterWait.

Definition DAEMON_WRITER_LEASE_TTL_SECS : Z := 120.
Definition DAEMON_WRITER_LEASE_RENEW_RETRY_DEADLINE : Z := from_secs 5.
Definition DAEMON_WRITER_LEASE_RENEW_RETRY_DELAY : Z := 50 * MILLIS.
Definition DAEMON_WRITER_LEASE_ADMISSION_WAIT_MAX : Z := from_secs 5.
Definition DAEMON_WRITER_LEASE_ADMISSION_RETRY_DELAY : Z := 100 * MILLIS.
Definition DAEMON_WRITER_LEASE_ADMISSION_WAIT_EXTENDED_MAX : Z := from_secs 180.

(** The errors of a database, as far as the retries tell them apart. *)
Inductive lease_error :=
  | LeaseSqlite (e : sqlite_error)
  | LeaseAdmissionBusy
  | LeaseOther (message : string).

Definition db_error_is_sqlite_lock (e : lease_error) : bool :=
  match e with
  | LeaseSqlite e => rusqlite_error_is_lock e
  | LeaseAdmissionBusy => true
  | LeaseOther _ => false
  end.

(** [effective_admission_wait]. *)
Definition effective_admission_wait (live_remaining_secs : list Z) (wait_max : Z) : Z :=
  let extend := foldr Z.max 0 ((fun secs => from_secs (Z.max secs 0)) <$> live_remaining_secs) in
  Z.max wait_max (Z.min extend DAEMON_WRITER_LEASE_ADMISSION_WAIT_EXTENDED_MAX).

Definition writer_lease_holder_refuses_immediately (mode : string) : bool :=
  bool_decide (mode = "mcp-ingest-worker").

Definition format_runtime_writer_leases (leases : list RuntimeWriterLease) : string :=
  match leases with
  | [] => "none visible"
  | _ =>
      String.concat "; " ((fun lease =>
        "mode=" +:+ rl_mode lease +:+ " pid=" +:+ show (rl_pid lease) +:+ " owner=" +:+ rl_owner lease
        +:+ " name=" +:+ rl_name lease +:+ " remaining_secs=" +:+ show (rl_remaining_secs lease)
        +:+ " expires_at=" +:+ rl_expires_at lease +:+ " heartbeat_at=" +:+ rl_heartbeat_at lease) <$> leases)
  end.

Inductive admission_error := LeaseAcquireFailed (e : lease_error) | DaemonWriterLeaseHeld (holders : string).

(** The calls on the database: an acquisition for the daemon's start, the status of the
    lease (an error hides the holder), and the charge of a lock fault. *)
Class LeaseHost (W : Type) := {
  acquire_for_daemon_start : W → W * result (option RuntimeWriterLease) lease_error;
  lease_status : W → W * option (list RuntimeWriterLease);
  record_locked_fault : W → W;
  renew_once : W → W * result bool lease_error;
}.

Section wait.
Context {W : Type} `{Clock W} `{!LeaseHost W}.

(** [acquire_daemon_writer_lease_with_holder_observed]. *)
Fixpoint admission_wait_loop (fuel : nat) (wait_max retry_delay : Z) (deadline : option Z) (w : W)
    : option (W * result RuntimeWriterLease admission_error) :=
  match fuel with
  | O => None
  | S fuel =>
      match acquire_for_daemon_start w with
      | (w, Err error) =>
          Some (if db_error_is_sqlite_lock error then record_locked_fault w else w, Err (LeaseAcquireFailed error))
      | (w, Ok (Some lease)) => Some (w, Ok lease)
      | (w, Ok None) =>
          let '(w, status) := lease_status w in
          let '(holders, disjoint_holder, live_remaining_secs) :=
            match status with
            | Some active =>
                (format_runtime_writer_leases active,
                 existsb (fun lease => writer_lease_holder_refuses_immediately (rl_mode lease)) active,
                 rl_remaining_secs <$> active)
            | None => ("holder status unavailable", false, [])
            end in
          if disjoint_holder then Some (w, Err (DaemonWriterLeaseHeld holders))
          else
            let '(w, now) := instant_now w in
            let target := now + effective_admission_wait live_remaining_secs wait_max in
            let dl := default target deadline in
            let dl := if dl <? target then target else dl in
            if dl <=? now then Some (w, Err (DaemonWriterLeaseHeld holders))
            else admission_wait_loop fuel wait_max retry_delay (Some dl) (sleep (Z.min (dl - now) retry_delay) w)
      end
  end.

(** [acquire_daemon_writer_lease]. *)
Definition acquire_daemon_writer_lease (fuel : nat) : W → option (W * result RuntimeWriterLease admission_error) :=
  admission_wait_loop fuel DAEMON_WRITER_LEASE_ADMISSION_WAIT_MAX DAEMON_WRITER_LEASE_ADMISSION_RETRY_DELAY None.

(** [renew_daemon_writer_lease_with_retry]. *)
Fixpoint renew_loop (fuel : nat) (started : Z) (w : W) : option (W * result bool lease_error) :=
  match fuel with
  | O => None
  | S fuel =>
      match renew_once w with
      | (w, Ok renewed) => Some (w, Ok renewed)
      | (w, Err error) =>
          if db_error_is_sqlite_lock error then
            let '(w, now) := instant_now w in
            if now - started <? DAEMON_WRITER_LEASE_RENEW_RETRY_DEADLINE
            then renew_loop fuel started (sleep DAEMON_WRITER_LEASE_RENEW_RETRY_DELAY w)
            else Some (w, Err error)
          else Some (w, Err error)
      end
  end.

Definition renew_daemon_writer_lease_with_retry (w : W) : option (W * result bool lease_error) :=
  let '(w, started) := instant_now w in renew_loop 101 started w.
End wait.

(** The heartbeat, from [last_confirmed] on: of each renewal what it returned ([None]: the
    task failed) and when. *)
Inductive heartbeat_end := Beating (last_confirmed : Z) | LeaseLost.

Fixpoint heartbeat (last_confirmed : Z) (rounds : list (option (result bool lease_error) * Z)) : heartbeat_end :=
  match rounds with
  | [] => Beating last_confirmed
  | (Some (Ok true), now) :: rest => heartbeat now rest
  | (Some (Ok false), _) :: _ => LeaseLost
  | (_, now) :: rest =>
      if from_secs DAEMON_WRITER_LEASE_TTL_SECS <=? now - last_confirmed then LeaseLost
      else heartbeat last_confirmed rest
  end.
End WriterWait.

(** ** Holders of the database

    What a scan of [/proc] reports of a process that holds the database open is its
    input here: the scan itself reads directories and links. *)
Module Holders.

(** [Path::file_name] and [to_str]: the last component, unless it is [..]. *)
Fixpoint split_slash (s : string) : list string :=
  match s with
  | EmptyString => [""]
  | String c rest =>
      if Ascii.eqb c "/" then "" :: split_slash rest
      else match split_slash rest with
           | [] => [String c ""]
           | f :: fs => String c f :: fs
           end
  end.

Definition file_name (path : string) : option string :=
  match list.last (List.filter (fun c => negb (is_empty c) && negb (String.eqb c ".")) (split_slash path)) with
  | Some name => if String.eqb name ".." then None else Some name
  | None => None
  end.

(** [daemon_singleton.rs]: the first word that is no global flag nor its value. *)
Definition CLI_GLOBAL_VALUE_FLAGS : list string := ["--config"; "--config-path"].

Definition global_flag_takes_value (arg : string) : bool :=
  negb (contains "=" arg) && bool_decide (arg ∈ CLI_GLOBAL_VALUE_FLAGS).

Fixpoint subcommand_from (index : nat) (skip_next : bool) (args : list string) : option (nat * string) :=
  match args with
  | [] => None
  | arg :: rest =>
      if skip_next then subcommand_from (S index) false rest
      else if String.eqb arg "--" then (fun next => (S index, next)) <$> head rest
      else if String.prefix "--" arg then subcommand_from (S index) (global_flag_takes_value arg) rest
      else Some (index, arg)
  end.

Definition first_cli_subcommand (argv : list string) : option (nat * string) :=
  subcommand_from 1 false (tail argv).

Definition is_daemon_argv (argv : list string) (binary_name : string) : bool :=
  match argv with
  | [] => false
  | program :: _ =>
      if negb (bool_decide (file_name program = Some binary_name)) then false
      else
        match first_cli_subcommand argv with
        | None => false
        | Some (index, subcommand) =>
            if negb (String.eqb subcommand "daemon") then false
            else
              match argv !! (index + 1)%nat with
              | None | Some "--foreground" => true
              | Some "start" => match argv !! (index + 2)%nat with None | Some "--foreground" => true | Some _ => false end
              | Some "restart" => match argv !! (index + 2)%nat with None => true | Some _ => false end
              | Some _ => false
              end
        end
  end.

(** [plan_daemon_reap]. *)
Record DaemonReapPlan := MkReap { rp_keeper : option Z; rp_targets : list Z }.

Section dedup.
Context {A : Type} (key : A → Z).

(** [Vec::dedup_by_key]: of neighbours with one key the first stays. *)
Fixpoint dedup_after (k : Z) (l : list A) : list A :=
  match l with
  | [] => []
  | x :: rest => if key x =? k then dedup_after k rest else x :: dedup_after (key x) rest
  end.

Definition dedup_by_key (l : list A) : list A :=
  match l with [] => [] | x :: rest => x :: dedup_after (key x) rest end.
End dedup.

Definition plan_daemon_reap (candidates : list Z) (pidfile_pid : option Z) : DaemonReapPlan :=
  let live := dedup_by_key id (sort_by Z.leb candidates) in
  let listed := match pidfile_pid with
                | Some pid => if bool_decide (pid ∈ live) then Some pid else None
                | None => None
                end in
  let keeper := match listed with Some pid => Some pid | None => head live end in
  MkReap keeper (List.filter (fun pid => negb (bool_decide (Some pid = keeper))) live).

(** *** Classification ([process_diagnostics.rs]) *)

(** A process with the database open: its argument list, the line of its [stat]. *)
Record proc_facts := MkProc {
  pf_pid : Z;
  pf_opened_files : list string;
  pf_argv : list string;
  pf_stat : option string;
}.

Definition is_mempal_invocation (argv : list string) (binary_name : string) : bool :=
  match argv with
  | [] => false
  | program :: _ =>
      match file_name program with
      | None => false
      | Some name => String.eqb name binary_name || String.eqb name "mempal"
      end
  end.

Definition is_mcp_server_argv (argv : list string) : bool :=
  match first_cli_subcommand argv with Some (_, subcommand) => String.eqb subcommand "serve" | None => false end.

Definition is_read_only_cli_argv (argv : list string) : bool :=
  match first_cli_subcommand argv with
  | Some (_, subcommand) =>
      bool_decide (subcommand ∈ ["status"; "search"; "context"; "wake-up"; "tail"; "timeline"; "stats"; "view";
                                 "reflect"; "field-taxonomy"])
  | None => false
  end.

Definition classify_role (argv : list string) (binary_name : string) : string :=
  if negb (is_mempal_invocation argv binary_name) then "other"
  else if is_daemon_argv argv binary_name || is_daemon_argv argv "mempal" then "mempal_daemon"
  else if is_mcp_server_argv argv then "mempal_mcp_server"
  else if is_read_only_cli_argv argv then "mempal_readonly_cli"
  else "mempal_cli".

Definition classify_holder (role : string)
    (current_process current_daemon current_mcp_server orphan_mcp_server : bool) : string :=
  if current_daemon then "current_daemon"
  else if current_mcp_server then "current_mcp_server"
  else if current_process then "current_process"
  else if orphan_mcp_server then "stale_mcp_server"
  else if String.eqb role "mempal_daemon" then "orphan_daemon"
  else "extra_holder".

Definition command_display (role : string) : string :=
  if String.eqb role "mempal_daemon" then "mempal daemon"
  else if String.eqb role "mempal_mcp_server" then "mempal serve"
  else if String.eqb role "mempal_readonly_cli" then "mempal read-only cli"
  else if String.eqb role "mempal_cli" then "mempal cli"
  else if String.eqb role "other" then "other process"
  else "<unknown>".

(** [str::parse::<i32>] of a field of ASCII. *)
Definition parse_i32 (field : string) : option Z :=
  let digits_of (s : string) := if is_empty s then None else fold_ticks 0 s in
  let bounded (z : Z) := if (- 2 ^ 31 <=? z) && (z <? 2 ^ 31) then Some z else None in
  match field with
  | String "-" rest => n ← digits_of rest; bounded (- n)
  | String "+" rest => n ← digits_of rest; bounded n
  | _ => n ← digits_of field; bounded n
  end.

Definition parse_parent_pid (stat : string) : option Z :=
  tail_ ← after_last_close stat;
  field ← List.filter (fun f => negb (is_empty f)) (split_ws tail_) !! 1%nat;
  parse_i32 field.

Record DbHolderProcess := MkHolder {
  hp_pid : Z;
  hp_role : string;
  hp_classification : string;
  hp_command : string;
  hp_opened_files : list string;
  hp_started_at_unix_secs : option Z;
  hp_age_secs : option Z;
  hp_current_process : bool;
  hp_current_daemon : bool;
  hp_current_mcp_server : bool;
}.

Record DbHolderReport := MkReport {
  hr_db_path : string;
  hr_holder_count : nat;
  hr_extra_holder_count : nat;
  hr_stale_mcp_server_count : nat;
  hr_orphan_daemon_count : nat;
  hr_error : option string;
  hr_holders : list DbHolderProcess;
}.

Definition count_classified (c : string) (holders : list DbHolderProcess) : nat :=
  length (List.filter (fun h => String.eqb (hp_classification h) c) holders).

Definition build_report (db_path : string) (holders : list DbHolderProcess) (error : option string) : DbHolderReport :=
  MkReport db_path (length holders) (count_classified "extra_holder" holders)
    (count_classified "stale_mcp_server" holders) (count_classified "orphan_daemon" holders) error holders.

Definition has_problem (report : DbHolderReport) : bool :=
  (0 <? hr_extra_holder_count report)%nat || (0 <? hr_stale_mcp_server_count report)%nat
  || (0 <? hr_orphan_daemon_count report)%nat || bool_decide (is_Some (hr_error report)).

Section inspect.
Context (current_pid : Z) (daemon_pid : option Z) (binary_name : string) (boot_time : option Z).
Context (now_secs clock_ticks_per_second : Z) (protect_daemon_pid : bool).

Definition holder_of (p : proc_facts) : DbHolderProcess :=
  let role := classify_role (pf_argv p) binary_name in
  let current_process := pf_pid p =? current_pid in
  let current_daemon :=
    protect_daemon_pid && bool_decide (daemon_pid = Some (pf_pid p)) && String.eqb role "mempal_daemon" in
  let parent_pid := stat ← pf_stat p; parse_parent_pid stat in
  let current_mcp_server := current_process && String.eqb role "mempal_mcp_server" in
  let orphan_mcp_server := String.eqb role "mempal_mcp_server" && bool_decide (parent_pid = Some 1) in
  let started :=
    btime ← boot_time; stat ← pf_stat p; ticks ← parse_start_ticks stat;
    Some (sat_u64 (btime + ticks / Z.max clock_ticks_per_second 1)) in
  MkHolder (pf_pid p) role
    (classify_holder role current_process current_daemon current_mcp_server orphan_mcp_server)
    (command_display role) (pf_opened_files p) started ((fun s => Recovery.sub_u64 now_secs s) <$> started)
    current_process current_daemon current_mcp_server.

(** [inspect_db_holders_in_proc_with_daemon_pid_protection] without a deadline. *)
Definition inspect_processes (db_path : string) (processes : list proc_facts) : DbHolderReport :=
  build_report db_path
    (sort_by (fun a b => hp_pid a <=? hp_pid b)
       (holder_of <$> List.filter (fun p => match pf_opened_files p with [] => false | _ => true end) processes))
    None.
End inspect.

(** *** Remediation *)
Record DbHolderRemediationTarget := MkTarget {
  rt_pid : Z;
  rt_role : string;
  rt_classification : string;
  rt_opened_files : list string;
  rt_started_at_unix_secs : option Z;
}.

Definition from_holder (h : DbHolderProcess) : DbHolderRemediationTarget :=
  MkTarget (hp_pid h) (hp_role h) (hp_classification h) (hp_opened_files h) (hp_started_at_unix_secs h).

Definition is_stale (classification : string) : bool :=
  String.eqb classification "stale_mcp_server" || String.eqb classification "orphan_daemon".

Definition is_current (h : DbHolderProcess) : bool :=
  hp_current_process h || hp_current_daemon h || hp_current_mcp_server h.

Definition matches_start_time (t : DbHolderRemediationTarget) (h : DbHolderProcess) : bool :=
  match rt_started_at_unix_secs t, hp_started_at_unix_secs h with
  | Some expected, Some actual => expected =? actual
  | None, None => true
  | _, _ => false
  end.

Definition matches_holder (t : DbHolderRemediationTarget) (h : DbHolderProcess) : bool :=
  (rt_pid t =? hp_pid h) && String.eqb (rt_role t) (hp_role h)
  && String.eqb (rt_classification t) (hp_classification h)
  && is_stale (rt_classification t) && negb (is_current h) && matches_start_time t h
  && forallb (fun expected => bool_decide (expected ∈ hp_opened_files h)) (rt_opened_files t).

Record DbHolderRemediationPlan := MkPlan {
  pl_terminate_targets : list DbHolderRemediationTarget;
  pl_terminate_pids : list Z;
  pl_manual_holders : list DbHolderProcess;
}.

Definition selected (h : DbHolderProcess) : bool := is_stale (hp_classification h) && negb (is_current h).

Definition plan_stale_db_holder_remediation (report : DbHolderReport) : DbHolderRemediationPlan :=
  let targets :=
    dedup_by_key rt_pid
      (sort_by (fun a b => rt_pid a <=? rt_pid b) (from_holder <$> List.filter selected (hr_holders report))) in
  MkPlan targets (rt_pid <$> targets)
    (sort_by (fun a b => hp_pid a <=? hp_pid b) (List.filter (fun h => negb (selected h)) (hr_holders report))).

Definition show_start (started : option Z) : string :=
  match started with Some value => show value | None => "unknown" end.

Definition describe (pid : Z) (role classification : string) (started : option Z) (files : list string) : string :=
  "pid=" +:+ show pid +:+ " role=" +:+ role +:+ " classification=" +:+ classification
  +:+ " started_at=" +:+ show_start started +:+ " files=" +:+ String.concat "," files.

Definition describe_target (t : DbHolderRemediationTarget) : string :=
  describe (rt_pid t) (rt_role t) (rt_classification t) (rt_started_at_unix_secs t) (rt_opened_files t).

Definition describe_current_holder (h : DbHolderProcess) : string :=
  describe (hp_pid h) (hp_role h) (hp_classification h) (hp_started_at_unix_secs h) (hp_opened_files h).

Definition format_identity_mismatch_error (t : DbHolderRemediationTarget) (report : DbHolderReport)
    (stage : string) : string :=
  let current :=
    match List.find (fun h => hp_pid h =? rt_pid t) (hr_holders report) with
    | Some h => describe_current_holder h
    | None => "no current holder for this DB"
    end in
  stage +:+ " pid " +:+ show (rt_pid t)
  +:+ " skipped: planned DB holder identity no longer matches; expected " +:+ describe_target t
  +:+ "; current " +:+ current
  +:+ "; retry daemon startup or inspect with `mempal status --full` before manual cleanup".

Definition format_db_lock_remediation_hint (db_path error : string) (report : DbHolderReport)
    (terminated_pids : list Z) (remediation_errors : list string) : string :=
  String.concat (String "010" "")
    (["failed to open daemon database " +:+ db_path +:+ ": " +:+ error]
     ++ (match terminated_pids with
         | [] => []
         | _ => ["automatically terminated stale mempal-owned DB holders: "
                 +:+ String.concat ", " (show <$> terminated_pids)]
         end)
     ++ (match remediation_errors with
         | [] => []
         | _ => ["automatic cleanup encountered errors: " +:+ String.concat "; " remediation_errors]
         end)
     ++ (match hr_holders report with
         | [] => ["no live DB holders were visible in process diagnostics after cleanup"]
         | holders =>
             "live DB holders after cleanup:"
             :: ((fun h => "- pid=" +:+ show (hp_pid h) +:+ " role=" +:+ hp_role h +:+ " classification="
                    +:+ hp_classification h +:+ " files=" +:+ String.concat "," (hp_opened_files h)
                    +:+ " command=" +:+ hp_command h) <$> holders)
         end)
     ++ ["remediation: mempal only auto-terminates stale_mcp_server and orphan_daemon holders for "
         +:+ "this exact DB; stop extra/current holder processes manually or run `mempal daemon status` "
         +:+ "before retrying daemon startup"])%list.

(** [DbHolderProcessOps]. *)
Class DbHolderProcessOps (W : Type) := {
  inspect_holders : W → W * DbHolderReport;
  signal : Z → Z → W → W * result unit string;
  is_running : Z → W → W * result bool string;
}.

Definition SIGTERM : Z := 15.
Definition SIGKILL : Z := 9.
Definition DB_HOLDER_TERM_GRACE : Z := from_secs 2.
Definition DB_HOLDER_TERM_POLL : Z := 100 * MILLIS.

Record DbHolderTerminationOutcome := MkOutcome {
  to_signaled : list Z;
  to_killed : list Z;
  to_errors : list string;
}.

Definition no_outcome : DbHolderTerminationOutcome := MkOutcome [] [] [].
Definition add_signaled (pid : Z) (o : DbHolderTerminationOutcome) :=
  MkOutcome (to_signaled o ++ [pid]) (to_killed o) (to_errors o).
Definition add_killed (pid : Z) (o : DbHolderTerminationOutcome) :=
  MkOutcome (to_signaled o) (to_killed o ++ [pid]) (to_errors o).
Definition add_error (e : string) (o : DbHolderTerminationOutcome) :=
  MkOutcome (to_signaled o) (to_killed o) (to_errors o ++ [e]).

Inductive DbHolderSignalAttempt := Signaled | IdentityMismatch (e : string) | SignalFailed (e : string).

Section terminate.
Context {W : Type} `{Clock W} `{!DbHolderProcessOps W}.

Definition signal_matching_db_holder (t : DbHolderRemediationTarget) (sig : Z) (stage : string) (w : W)
    : W * DbHolderSignalAttempt :=
  let '(w, report) := inspect_holders w in
  if negb (existsb (matches_holder t) (hr_holders report))
  then (w, IdentityMismatch (format_identity_mismatch_error t report stage))
  else match signal (rt_pid t) sig w with
       | (w, Ok _) => (w, Signaled)
       | (w, Err error) => (w, SignalFailed (stage +:+ " pid " +:+ show (rt_pid t) +:+ " failed: " +:+ error))
       end.

Fixpoint terminate_each (targets : list DbHolderRemediationTarget) (o : DbHolderTerminationOutcome) (w : W)
    : W * DbHolderTerminationOutcome * list DbHolderRemediationTarget :=
  match targets with
  | [] => (w, o, [])
  | t :: rest =>
      match signal_matching_db_holder t SIGTERM "SIGTERM" w with
      | (w, Signaled) =>
          let '(w, o, remaining) := terminate_each rest (add_signaled (rt_pid t) o) w in (w, o, t :: remaining)
      | (w, IdentityMismatch error) => terminate_each rest (add_error error o) w
      | (w, SignalFailed error) =>
          let '(w, o, remaining) := terminate_each rest (add_error error o) w in (w, o, t :: remaining)
      end
  end.

Definition status_error (pid : Z) (error : string) : string :=
  "status pid " +:+ show pid +:+ " failed: " +:+ error.

Fixpoint still_live (remaining : list DbHolderRemediationTarget) (o : DbHolderTerminationOutcome) (w : W)
    : W * DbHolderTerminationOutcome * list DbHolderRemediationTarget :=
  match remaining with
  | [] => (w, o, [])
  | t :: rest =>
      match is_running (rt_pid t) w with
      | (w, Ok true) => let '(w, o, live) := still_live rest o w in (w, o, t :: live)
      | (w, Ok false) => still_live rest o w
      | (w, Err error) => still_live rest (add_error (status_error (rt_pid t) error) o) w
      end
  end.

Fixpoint grace_loop (fuel : nat) (deadline poll : Z) (remaining : list DbHolderRemediationTarget)
    (o : DbHolderTerminationOutcome) (w : W)
    : option (W * DbHolderTerminationOutcome * list DbHolderRemediationTarget) :=
  match fuel with
  | O => None
  | S fuel =>
      let '(w, now) := instant_now w in
      if negb (now <? deadline) then Some (w, o, remaining)
      else
        let '(w, o, live) := still_live remaining o w in
        match live with
        | [] => Some (w, o, [])
        | _ => grace_loop fuel deadline poll live o (sleep poll w)
        end
  end.

Fixpoint kill_each (remaining : list DbHolderRemediationTarget) (o : DbHolderTerminationOutcome) (w : W)
    : W * DbHolderTerminationOutcome :=
  match remaining with
  | [] => (w, o)
  | t :: rest =>
      match is_running (rt_pid t) w with
      | (w, Ok true) =>
          match signal_matching_db_holder t SIGKILL "SIGKILL" w with
          | (w, Signaled) => kill_each rest (add_killed (rt_pid t) o) w
          | (w, IdentityMismatch error) | (w, SignalFailed error) => kill_each rest (add_error error o) w
          end
      | (w, Ok false) => kill_each rest o w
      | (w, Err error) => kill_each rest (add_error (status_error (rt_pid t) error) o) w
      end
  end.

Definition terminate_db_holder_targets_with_ops (fuel : nat) (targets : list DbHolderRemediationTarget)
    (grace poll : Z) (w : W) : option (W * DbHolderTerminationOutcome) :=
  let '(w, o, remaining) := terminate_each targets no_outcome w in
  let '(w, now) := instant_now w in
  match grace_loop fuel (now + grace) poll remaining o w with
  | None => None
  | Some (w, o, remaining) => Some (kill_each remaining o w)
  end.

(** [terminate_db_holder_targets] of the start: 2 s in steps of 100 ms and one round more. *)
Definition terminate_db_holder_targets (targets : list DbHolderRemediationTarget) : W → option (W * DbHolderTerminationOutcome) :=
  terminate_db_holder_targets_with_ops 21 targets DB_HOLDER_TERM_GRACE DB_HOLDER_TERM_POLL.

(** *** Opening the database of the daemon

    An error is the chain of its causes' texts; [open_storage_once] opens the database,
    its readers and the queue. *)
Definition is_sqlite_lock_message (message : string) : bool :=
  contains "database is locked" message || contains "database file is locked" message
  || contains "database is busy" message.

Definition is_sqlite_lock_error (error : list string) : bool := existsb is_sqlite_lock_message error.

Definition format_error_chain (error : list string) : string := String.concat ": " error.

Context {T : Type} (open_daemon_storage_once : W → W * result T (list string)).
Context (record_fault_once : Recovery.RecoveryFault → W → W).

Definition open_daemon_storage_after_stale_holder_cleanup (db_path : string) (first_error : list string) (w : W)
    : option (W * result T (list string)) :=
  let '(w, before) := inspect_holders w in
  let targets := pl_terminate_targets (plan_stale_db_holder_remediation before) in
  match match targets with
        | [] => Some (w, no_outcome)
        | _ => terminate_db_holder_targets targets w
        end with
  | None => None
  | Some (w, outcome) =>
      match open_daemon_storage_once w with
      | (w, Ok handles) => Some (w, Ok handles)
      | (w, Err error) =>
          if is_sqlite_lock_error error then
            let '(w, after) := inspect_holders w in
            Some (w, Err [format_db_lock_remediation_hint db_path
                            (format_error_chain error +:+ "; initial error: " +:+ format_error_chain first_error)
                            after (to_signaled outcome) (to_errors outcome)])
          else Some (w, Err error)
      end
  end.

Definition open_daemon_storage_with_remediation (db_path : string) (w : W) : option (W * result T (list string)) :=
  match match open_daemon_storage_once w with
        | (w, Ok handles) => Some (w, Ok handles)
        | (w, Err error) =>
            if is_sqlite_lock_error error then open_daemon_storage_after_stale_holder_cleanup db_path error w
            else Some (w, Err error)
        end with
  | None => None
  | Some (w, r) =>
      Some (match r with
            | Err error => if is_sqlite_lock_error error then record_fault_once Recovery.DatabaseLocked w else w
            | Ok _ => w
            end, r)
  end.
End terminate.
End Holders.
