(* ===== verification/DaemonSafety.v ===== *)
(** * What the start of the daemon guarantees

    The restart budget over whole histories and on disk, the detection of stalls, the
    wait for the writer lease, and which processes the remediation may signal. *)

From Stdlib Require Import ZArith Lia String Ascii.
From stdpp Require Import base tactics list gmap strings numbers sorting.
From S2P Require Import Prelude Text Calendar Rfc3339 ProcessIdentity WriterLease Sqlite QueueTypes SqliteRetry DaemonStart.
Open Scope Z_scope.
Open Scope rust_scope.

(** ** The restart budget *)
Module Budget.
Import Recovery.

(** Not cooling, at most two faults are on file; a cooldown began with the third. *)
Record budget_wf (s : DaemonRecoveryState) : Prop := {
  wf_cooldown : rs_phase s = Cooldown → length (rs_faults s) = 3%nat;
  wf_running : rs_phase s ≠ Cooldown → (length (rs_faults s) <= 2)%nat;
}.

(** The cooldown in force began at [t0], no later than [now], with three faults of the
    ten minutes before. *)
Definition cooldown_from (s : DaemonRecoveryState) (t0 : Z) : Prop :=
  rs_cooldown_until_unix_secs s = sat_u64 (t0 + RESTART_COOLDOWN_SECS)
  ∧ Forall (fun f => t0 - RESTART_WINDOW_SECS <= fr_occurred_at_unix_secs f <= t0) (rs_faults s).

Record dated (s : DaemonRecoveryState) (now : Z) : Prop := {
  dated_wf : budget_wf s;
  dated_past : Forall (fun f => 0 <= fr_occurred_at_unix_secs f <= now) (rs_faults s);
  dated_cooldown : rs_phase s = Cooldown → ∃ t0, 0 <= t0 <= now ∧ cooldown_from s t0;
}.

Lemma default_dated : dated default_state 0.
Proof. split; [split| |]; try done; simpl; try lia; by constructor. Qed.

Lemma dated_later s now now' : now <= now' → dated s now → dated s now'.
Proof.
  intros Hle [Hwf Hp Hc]. split; [done| |].
  - eapply Forall_impl; [done|]. simpl. intros. lia.
  - intros H. destruct (Hc H) as (t0 & Ht & H0). exists t0. split; [lia|done].
Qed.

Lemma length_filter_le {A} (P : A → bool) l : (length (List.filter P l) <= length l)%nat.
Proof. induction l as [|x l IH]; simpl; [done|]. destruct (P x); simpl; lia. Qed.

Lemma Forall_list_filter {A} (P : A → Prop) (f : A → bool) l : Forall P l → Forall P (List.filter f l).
Proof. induction 1; simpl; [done|]. destruct (f x); by repeat constructor. Qed.

Lemma Forall_filter_holds {A} (f : A → bool) l : Forall (fun x => f x = true) (List.filter f l).
Proof. induction l as [|x l IH]; simpl; [done|]. destruct (f x) eqn:E; by repeat constructor. Qed.

(** What pruning leaves: a cooldown whose deadline is ahead, or faults in the window. *)
Lemma prune_dated s now : dated s now → dated (prune now s) now
  ∧ (rs_phase (prune now s) = Cooldown → prune now s = s ∧ cooling s now = true)
  ∧ (rs_phase (prune now s) ≠ Cooldown →
     Forall (fun f => now - RESTART_WINDOW_SECS <= fr_occurred_at_unix_secs f <= now) (rs_faults (prune now s))).
Proof.
  intros [[Hwc Hwr] Hp Hc]. unfold prune, cooling. case_bool_decide as Hph.
  - destruct (Z.leb_spec (rs_cooldown_until_unix_secs s) now); simpl.
    + split_and!; try done. split; [split| |]; simpl; try done; try lia.
    + split_and!; try done. intros _. split; [done|]. by apply Z.ltb_lt.
  - simpl. split_and!; try done.
    + split; [split| |]; simpl; try done.
      * intros _. pose proof (length_filter_le (in_window now) (rs_faults s)). specialize (Hwr Hph). lia.
      * by apply Forall_list_filter.
    + intros _. pose proof (Forall_filter_holds (in_window now) (rs_faults s)) as Hf.
      apply (Forall_list_filter _ (in_window now)) in Hp. revert Hf Hp. generalize (List.filter (in_window now) (rs_faults s)).
      induction 1 as [|f l Hx _ IH]; inversion_clear 1; constructor; [|by apply IH].
      unfold in_window, sub_u64, RESTART_WINDOW_SECS in *. apply Z.leb_le in Hx. lia.
Qed.

Lemma cooling_phase s now : cooling s now = true → rs_phase s = Cooldown ∧ now < rs_cooldown_until_unix_secs s.
Proof. unfold cooling. intros [H%bool_decide_eq_true H'%Z.ltb_lt]%andb_true_iff. done. Qed.

Lemma not_cooling s now : rs_phase s ≠ Cooldown → cooling s now = false.
Proof. intros H. unfold cooling. by rewrite bool_decide_eq_false_2. Qed.

Lemma prune_cooling s now : cooling s now = true → prune now s = s.
Proof.
  intros [Hph Hn]%cooling_phase. unfold prune. rewrite bool_decide_eq_true_2 by done.
  by destruct (Z.leb_spec (rs_cooldown_until_unix_secs s) now); [lia|].
Qed.

Lemma record_fault_dated f s now : 0 <= now → dated s now →
  dated (record_fault f now s).1 now
  ∧ ((record_fault f now s).2 = CooldownRequired ↔ rs_phase (record_fault f now s).1 = Cooldown).
Proof.
  intros H0 Hd. unfold record_fault. destruct (cooling s now) eqn:Hcool.
  - apply cooling_phase in Hcool as [Hph _]. done.
  - destruct (prune_dated s now Hd) as (Hd' & Hcd & Hwin). set (s1 := prune now s) in *.
    destruct Hd' as [[Hwc Hwr] Hp Hc].
    destruct (decide (rs_phase s1 = Cooldown)) as [Hph|Hph]; [by destruct (Hcd Hph); congruence|].
    specialize (Hwin Hph). specialize (Hwr Hph).
    assert (Hall : Forall (fun g => now - RESTART_WINDOW_SECS <= fr_occurred_at_unix_secs g <= now)
                     (rs_faults s1 ++ [MkFault f now (rs_generation_id s1)])).
    { apply Forall_app. split; [done|]. constructor; [|constructor]. simpl. unfold RESTART_WINDOW_SECS. lia. }
    assert (Hpast : Forall (fun g => 0 <= fr_occurred_at_unix_secs g <= now)
                      (rs_faults s1 ++ [MkFault f now (rs_generation_id s1)])).
    { apply Forall_app. split; [done|]. constructor; [|constructor]. simpl. lia. }
    assert (Hlen : length (rs_faults s1 ++ [MkFault f now (rs_generation_id s1)]) = S (length (rs_faults s1)))
      by (rewrite length_app; simpl; lia).
    unfold MAX_RESTARTS_PER_WINDOW. destruct (Nat.leb_spec 3 (length (rs_faults s1 ++ [MkFault f now (rs_generation_id s1)]))); cbn.
    + split; [|done]. split; [split| |]; cbn; try done; try lia. intros _. exists now. split; [lia|done].
    + split; [|done]. split; [split| |]; cbn; try done. lia.
Qed.

Lemma admit_start_dated s now : 0 <= now → dated s now → dated (admit_start now s).1 now.
Proof.
  intros H0 Hd. unfold admit_start. destruct (prune_dated s now Hd) as (Hd' & Hcd & _). set (s1 := prune now s) in *.
  destruct (cooling s1 now) eqn:Hcool; [done|].
  assert (rs_phase s1 ≠ Cooldown) as Hph by (intros Hph; destruct (Hcd Hph) as [Heq Hc]; congruence).
  destruct Hd' as [[_ Hwr] Hp _]. split; [split| |]; cbn; try done. auto.
Qed.

Lemma record_recovered_dated s now : dated s now → dated (record_recovered now s) now.
Proof.
  intros Hd. unfold record_recovered. destruct (prune_dated s now Hd) as (Hd' & _). set (s1 := prune now s) in *.
  case_bool_decide as Hph; [done|]. destruct Hd' as [[_ Hwr] Hp _]. specialize (Hwr Hph).
  set (l := if 0 <? _ then _ else _).
  assert ((length l <= 2)%nat ∧ Forall (fun f => 0 <= fr_occurred_at_unix_secs f <= now) l) as [Hl Hf].
  { unfold l. destruct (0 <? rs_generation_id s1); [|split; [simpl; lia|constructor]].
    split; [|by apply Forall_list_filter].
    pose proof (length_filter_le (fun f => fr_generation f =? rs_generation_id s1) (rs_faults s1)). lia. }
  destruct (list.last l); (split; [split| |]); cbn; try done; lia.
Qed.

Lemma step_dated s o now : 0 <= now → dated s now → dated (step s o now).1 now.
Proof.
  intros H0 Hd. destruct o; simpl.
  - pose proof (record_fault_dated fault s now H0 Hd) as [? _]. by destruct (record_fault fault now s).
  - pose proof (admit_start_dated s now H0 Hd). by destruct (admit_start now s).
  - by apply record_recovered_dated.
Qed.

(** A clock that does not go back. *)
Fixpoint clocked (from : Z) (history : list (op * Z)) : Prop :=
  match history with
  | [] => True
  | (_, t) :: rest => from <= t ∧ clocked t rest
  end.

Definition last_time (from : Z) (history : list (op * Z)) : Z := foldl (fun _ x => x.2) from history.

Lemma run_cons s o t rest : run s ((o, t) :: rest) =
  ((run (step s o t).1 rest).1, (step s o t).2 :: (run (step s o t).1 rest).2).
Proof. cbn [run]. destruct (step s o t) as [s1 d]. cbn [fst snd]. by destruct (run s1 rest). Qed.

Lemma run_dated s from history : 0 <= from → clocked from history → dated s from →
  dated (run s history).1 (last_time from history) ∧ from <= last_time from history.
Proof.
  revert s from. induction history as [|[o t] rest IH]; intros s from H0 Hc Hd; [done|].
  destruct Hc as [Hle Hc]. rewrite run_cons. simpl fst.
  destruct (IH (step s o t).1 t) as [H1 H2]; [lia|done|apply step_dated; [lia|by eapply dated_later]|].
  split; [done|]. unfold last_time in *. simpl in *. lia.
Qed.

(** The answers while a cooldown is in force. *)
Definition refusal (o : op) : option RestartDecision :=
  match o with Recovered => None | _ => Some CooldownRequired end.

Lemma cooling_step s o now : cooling s now = true → step s o now = (s, refusal o).
Proof.
  intros Hc. destruct o; simpl.
  - unfold record_fault. by rewrite Hc.
  - unfold admit_start. by rewrite prune_cooling, Hc by done.
  - unfold record_recovered. rewrite prune_cooling by done. apply cooling_phase in Hc as [Hph _].
    by rewrite bool_decide_eq_true_2 by done.
Qed.

Lemma cooling_run s history : rs_phase s = Cooldown →
  Forall (fun x => x.2 < rs_cooldown_until_unix_secs s) history → run s history = (s, (refusal ∘ fst) <$> history).
Proof.
  intros Hph. induction 1 as [|[o t] rest Ht _ IH]; [done|]. rewrite run_cons, cooling_step; cbn [fst snd]; [by rewrite IH|].
  unfold cooling. rewrite bool_decide_eq_true_2 by done. by apply Z.ltb_lt.
Qed.

Lemma expired_admits s now : rs_phase s = Cooldown → rs_cooldown_until_unix_secs s <= now →
  (admit_start now s).2 = RestartAllowed ∧ rs_faults (admit_start now s).1 = [].
Proof.
  intros Hph Hle. unfold admit_start, prune. rewrite bool_decide_eq_true_2 by done.
  destruct (Z.leb_spec (rs_cooldown_until_unix_secs s) now); [|lia]. done.
Qed.

(** A start is refused in a cooldown only, and changes nothing then. *)
Lemma refused_cooling s now : (admit_start now s).2 = CooldownRequired →
  cooling s now = true ∧ (admit_start now s).1 = s.
Proof.
  unfold admit_start. destruct (cooling s now) eqn:E; [by rewrite prune_cooling, E|].
  enough (cooling (prune now s) now = false) as -> by done. unfold prune.
  destruct (decide (rs_phase s = Cooldown)) as [Hph|Hph].
  - rewrite bool_decide_eq_true_2 by done. by destruct (_ <=? _).
  - rewrite bool_decide_eq_false_2 by done. by apply not_cooling.
Qed.

(** Three faults within ten minutes end in a cooldown, unless a generation recovers in
    between. *)
Definition recent (t : Z) (s : DaemonRecoveryState) : nat :=
  length (List.filter (fun f => t <=? fr_occurred_at_unix_secs f) (rs_faults s)).

Definition is_fault (x : op * Z) : bool := match x.1 with Fault _ => true | _ => false end.

Lemma filter_filter_keeps {A} (f g : A → bool) l : (∀ x, g x = true → f x = true) →
  List.filter g (List.filter f l) = List.filter g l.
Proof.
  intros H. induction l as [|x l IH]; [done|]. simpl. destruct (f x) eqn:Ef; simpl; destruct (g x) eqn:Eg; try congruence.
  by rewrite (H _ Eg) in Ef.
Qed.

Lemma prune_recent t now s : rs_phase s ≠ Cooldown → now <= t + RESTART_WINDOW_SECS →
  recent t (prune now s) = recent t s ∧ rs_phase (prune now s) = rs_phase s.
Proof.
  intros Hph Hn. unfold recent, prune. rewrite bool_decide_eq_false_2 by done. simpl. split; [|done].
  rewrite filter_filter_keeps; [done|]. intros f Hf%Z.leb_le. unfold in_window, sub_u64, RESTART_WINDOW_SECS in *.
  apply Z.leb_le. lia.
Qed.

Lemma recent_le t s : (recent t s <= length (rs_faults s))%nat.
Proof. apply length_filter_le. Qed.

(** In the window of [t], a step that is no recovery counts its fault or cools. *)
Lemma window_step t s o now : 0 <= t <= now → now <= t + RESTART_WINDOW_SECS → t + RESTART_COOLDOWN_SECS <= u64_max →
  o ≠ Recovered → rs_phase s ≠ Cooldown →
  (rs_phase (step s o now).1 = Cooldown ∧ t + RESTART_WINDOW_SECS < rs_cooldown_until_unix_secs (step s o now).1)
  ∨ (rs_phase (step s o now).1 ≠ Cooldown ∧ (length (rs_faults (step s o now).1) < 3 ∨ o = Admit)%nat
     ∧ recent t (step s o now).1 = (recent t s + if is_fault (o, now) then 1 else 0)%nat).
Proof.
  intros Ht Hn Hmax Ho Hph. destruct (prune_recent t now s Hph Hn) as [Hr Hp]. destruct o as [f| |]; [| |done]; simpl.
  - unfold record_fault. rewrite not_cooling by done. unfold MAX_RESTARTS_PER_WINDOW.
    destruct (Nat.leb_spec 3 (length (rs_faults (prune now s) ++ [MkFault f now (rs_generation_id (prune now s))]))) as [Hl|Hl]; cbn.
    + left. split; [done|]. unfold RESTART_COOLDOWN_SECS, RESTART_WINDOW_SECS in *. unfold_widths. lia.
    + right. split; [done|]. split; [by left|]. unfold recent in *. cbn [rs_faults]. rewrite List.filter_app, length_app, Hr. cbn.
      destruct (Z.leb_spec t now); [|lia]. done.
  - unfold admit_start. rewrite not_cooling by congruence. right. cbn. split; [done|]. split; [by right|].
    unfold recent in *. cbn. rewrite Hr. lia.
Qed.

Lemma window_run t history from s : 0 <= t <= from → t + RESTART_COOLDOWN_SECS <= u64_max →
  clocked from history → last_time from history <= t + RESTART_WINDOW_SECS →
  Forall (fun x => x.1 ≠ Recovered) history → rs_phase s ≠ Cooldown → (recent t s <= 2)%nat →
  (3 <= recent t s + length (List.filter is_fault history))%nat → rs_phase (run s history).1 = Cooldown.
Proof.
  revert from s. induction history as [|[o now] rest IH]; intros from s Ht Hmax Hc Hlast Hnr Hph H2 H3; [simpl in *; lia|].
  destruct Hc as [Hle Hc]. inversion_clear Hnr as [|? ? Ho Hnr']. rewrite run_cons. cbn [fst].
  assert (Hlater : now <= last_time from ((o, now) :: rest) ∧ Forall (fun x => x.2 <= last_time now rest) rest).
  { change (last_time from ((o, now) :: rest)) with (last_time now rest). clear -Hc. revert now Hc.
    induction rest as [|[o' t'] rest IH]; intros now Hc; [split; [simpl; lia|constructor]|].
    destruct Hc as [Hle Hc]. destruct (IH _ Hc) as [H1 H2]. change (last_time now ((o', t') :: rest)) with (last_time t' rest).
    split; [lia|]. by constructor. }
  change (last_time from ((o, now) :: rest)) with (last_time now rest) in *. destruct Hlater as [Hnow Hall].
  destruct (window_step t s o now) as [[Hcd Hahead]|(Hnc & Hlen & Hrec)]; try done; try lia.
  - rewrite cooling_run; [done|done|]. eapply Forall_impl; [exact Hall|]. cbn. intros. lia.
  - apply (IH now); try done; try lia.
    + destruct Hlen as [Hlen| ->]; [pose proof (recent_le t (step s o now).1); lia|]. rewrite Hrec. simpl. lia.
    + rewrite Hrec. revert H3. cbn [List.filter]. destruct (is_fault (o, now)); simpl; lia.
Qed.

Lemma three_faults_cool t history s : 0 <= t → t + RESTART_COOLDOWN_SECS <= u64_max → budget_wf s →
  rs_phase s ≠ Cooldown → clocked t history → last_time t history <= t + RESTART_WINDOW_SECS →
  Forall (fun x => x.1 ≠ Recovered) history → (3 <= length (List.filter is_fault history))%nat →
  rs_phase (run s history).1 = Cooldown.
Proof.
  intros Ht Hmax Hwf Hph Hc Hl Hnr H3. pose proof (recent_le t s). pose proof (wf_running _ Hwf Hph).
  apply (window_run t history t); try done; lia.
Qed.


(** Two faults, before the third. *)
Definition two_faults : list (op * Z) := [(Admit, 90); (Fault DatabaseLocked, 100); (Fault DatabaseLocked, 200)].

Definition cooled : DaemonRecoveryState := (record_fault WriteStall 300 (run default_state two_faults).1).1.


(** A generation that becomes ready before it fails drops what its predecessors were
    charged with: generations that do so are restarted without end. *)
Definition ready_then_fault (f : RecoveryFault) (t : Z) : list (op * Z) := [(Admit, t); (Recovered, t); (Fault f, t)].

Lemma ready_then_fault_step f t s : 0 <= rs_generation_id s < u64_max → rs_phase s ≠ Cooldown →
  Forall (fun g => fr_generation g <= rs_generation_id s) (rs_faults s) →
  let r := run s (ready_then_fault f t) in
  r.2 = [Some RestartAllowed; None; Some RestartAllowed]
  ∧ rs_generation_id r.1 = rs_generation_id s + 1 ∧ rs_phase r.1 ≠ Cooldown
  ∧ Forall (fun g => fr_generation g <= rs_generation_id r.1) (rs_faults r.1).
Proof.
  intros Hg Hph Hold. cbv zeta. unfold ready_then_fault. rewrite !run_cons. cbn [run fst snd].
  assert (Hadm : ∃ s1, step s Admit t = (s1, Some RestartAllowed) ∧ rs_phase s1 = Recovering
    ∧ rs_generation_id s1 = rs_generation_id s + 1 ∧ Forall (fun g => fr_generation g <= rs_generation_id s) (rs_faults s1)).
  { unfold step, admit_start. unfold prune at 1 2. rewrite bool_decide_eq_false_2 by done. rewrite not_cooling by done.
    eexists. split; [done|]. split_and!; cbn; [done|unfold prune; rewrite bool_decide_eq_false_2 by done; cbn; unfold_widths; lia|].
    unfold prune. rewrite bool_decide_eq_false_2 by done. by apply Forall_list_filter. }
  destruct Hadm as (s1 & -> & Hph1 & Hg1 & Hold1). cbn [fst snd].
  assert (Hrec : ∃ s2, step s1 Recovered t = (s2, None) ∧ rs_phase s2 = Healthy
    ∧ rs_generation_id s2 = rs_generation_id s + 1 ∧ rs_faults s2 = []).
  { unfold step, record_recovered, prune. rewrite (bool_decide_eq_false_2 (rs_phase s1 = Cooldown)) by congruence.
    cbn [rs_phase rs_generation_id rs_faults]. rewrite bool_decide_eq_false_2 by congruence. rewrite Hg1.
    destruct (Z.ltb_spec 0 (rs_generation_id s + 1)); [|lia].
    assert (Hnil : List.filter (fun g => fr_generation g =? rs_generation_id s + 1) (List.filter (in_window t) (rs_faults s1)) = []).
    { apply (Forall_list_filter _ (in_window t)) in Hold1. revert Hold1. generalize (List.filter (in_window t) (rs_faults s1)).
      induction 1 as [|g l Hx _ IH]; [done|]. simpl. destruct (Z.eqb_spec (fr_generation g) (rs_generation_id s + 1)); [lia|done]. }
    rewrite Hnil. eexists. split; [reflexivity|]. done. }
  destruct Hrec as (s2 & -> & Hph2 & Hg2 & Hf2). cbn [fst snd].
  unfold step, record_fault, prune. rewrite not_cooling by congruence. rewrite bool_decide_eq_false_2 by congruence.
  cbn. rewrite Hf2, Hg2. cbn. split_and!; try done. repeat constructor. cbn. lia.
Qed.

Lemma run_app s h1 h2 : run s (h1 ++ h2) = ((run (run s h1).1 h2).1, ((run s h1).2 ++ (run (run s h1).1 h2).2)%list).
Proof.
  revert s. induction h1 as [|[o t] h1 IH]; intros s; [cbn; apply surjective_pairing|].
  rewrite <- app_comm_cons, !run_cons, IH. done.
Qed.

Lemma ready_generations_restart_forever f times : Z.of_nat (length times) <= u64_max →
  CooldownRequired ∉ omap id (run default_state (concat (ready_then_fault f <$> times))).2.
Proof.
  intros Hlen. assert (Hgen : ∀ s, rs_generation_id s + Z.of_nat (length times) <= u64_max → 0 <= rs_generation_id s →
    rs_phase s ≠ Cooldown → Forall (fun g => fr_generation g <= rs_generation_id s) (rs_faults s) →
    CooldownRequired ∉ omap id (run s (concat (ready_then_fault f <$> times))).2).
  { clear Hlen. induction times as [|t times IH]; intros s Hmax H0 Hph Hold; [apply not_elem_of_nil|].
    rewrite fmap_cons. cbn [concat length] in *. rewrite run_app. cbn [snd].
    destruct (ready_then_fault_step f t s) as (Hd & Hg & Hph' & Hold'); [lia|done|done|].
    rewrite Hd, omap_app. intros [Hin|Hin]%elem_of_app; [set_solver|].
    apply IH in Hin; [done|lia|lia|done|done]. }
  apply Hgen; simpl; [lia|lia|done|constructor].
Qed.
End Budget.

(** ** The budget on disk *)
Module Disk.
Import Recovery Budget.

(** The wait for the lock of the state is bounded: 250 ms in steps of 2 ms. *)
Section bounded.
Context {F W : Type} `{ClockLaws W} `{!RecoveryFs F W}.
Context (flock_forward : forward fs_flock) (call_forward : forward fs_call).

Lemma recovery_lock_loop_returns n started w :
  started + LOCK_TIMEOUT - time w <= Z.of_nat n * LOCK_RETRY → is_Some (recovery_lock_loop (S n) started w).
Proof.
  revert w. induction n as [|n IH]; intros w Hn; cbn [recovery_lock_loop]; pose proof (flock_forward w) as Hf;
    destruct (fs_flock w) as [w1 []]; cbn in Hf; [by eexists| |by eexists|by eexists| |by eexists].
  all: pose proof (instant_now_between w1) as Hc; destruct (instant_now w1) as [w2 now]; cbn in Hc.
  all: destruct (Z.leb_spec LOCK_TIMEOUT (Z.max 0 (now - started))); [by eexists|].
  - lia.
  - apply IH. pose proof (sleep_long_enough LOCK_RETRY w2). unfold LOCK_RETRY, MILLIS in *. lia.
Qed.

Lemma acquire_lock_returns w : is_Some (acquire_lock w).
Proof.
  unfold acquire_lock, io. destruct (fs_call w) as [w0 []]; cbn; [|by eexists].
  pose proof (instant_now_between w0) as Hc. destruct (instant_now w0) as [w1 started]. cbn in Hc.
  apply (recovery_lock_loop_returns 125). unfold LOCK_TIMEOUT, LOCK_RETRY, MILLIS. lia.
Qed.
End bounded.

(** A disk that answers, a codec that reads what it wrote, and no other process: the file
    changes in a renaming only, and the seconds of the system clock follow [time]. *)
Class QuietDisk (F W : Type) `{ClockLaws W} `{!RecoveryFs F W} `{!RecoveryCodec F} := {
  file : W → option F;
  secs : Z → Z;                     (* of an instant *)
  secs_mono : ∀ t t', t <= t' → secs t <= secs t';
  secs_after : ∀ t n, 0 <= t → 0 <= n → secs t + n <= secs (t + from_secs n);
  time_nonneg : ∀ w, 0 <= time w;
  call_quiet : ∀ w, (fs_call w).2 = Ok tt ∧ file (fs_call w).1 = file w ∧ time w <= time (fs_call w).1;
  flock_quiet : ∀ w, (fs_flock w).2 = Taken ∧ file (fs_flock w).1 = file w ∧ time w <= time (fs_flock w).1;
  read_quiet : ∀ w, (fs_read w).2 = Ok (file w) ∧ file (fs_read w).1 = file w ∧ time w <= time (fs_read w).1;
  rename_quiet : ∀ x w, (fs_rename x w).2 = Ok tt ∧ file (fs_rename x w).1 = Some x ∧ time w <= time (fs_rename x w).1;
  clock_quiet : ∀ w, file (unix_secs w).1 = file w ∧ time w <= time (unix_secs w).1
                     ∧ secs (time w) <= (unix_secs w).2 <= secs (time (unix_secs w).1);
  instant_quiet : ∀ w, file (instant_now w).1 = file w;
  sleep_quiet : ∀ d w, file (sleep d w) = file w;
  codec_back : ∀ s, ∃ raw, to_vec s = Ok raw ∧ from_slice raw = Ok s;
}.

Section quiet.
Context {F W : Type} `{CL : ClockLaws W} `{RF : !RecoveryFs F W} `{RC : !RecoveryCodec F} `{QD : !QuietDisk F W}.

(** What the file says. *)
Definition stored (w : W) (s : DaemonRecoveryState) : Prop :=
  match file w with None => s = default_state | Some raw => from_slice raw = Ok s end.

(** [w'] is later and holds the same file. *)
Definition on (w w' : W) : Prop := file w' = file w ∧ time w <= time w'.

Lemma on_trans w1 w2 w3 : on w1 w2 → on w2 w3 → on w1 w3.
Proof. intros [H1 H2] [H3 H4]. split; [congruence|lia]. Qed.

Lemma on_stored w w' s : on w w' → stored w s → stored w' s.
Proof. intros [Hf _]. unfold stored. by rewrite Hf. Qed.

Lemma recovery_lock_loop_taken n started w w' : fs_flock w = (w', Taken) →
  recovery_lock_loop (S n) started w = Some (w', Ok tt).
Proof. intros Hf. cbn [recovery_lock_loop]. by rewrite Hf. Qed.

Lemma acquire_quiet w : ∃ w', acquire_lock w = Some (w', Ok tt) ∧ on w w'.
Proof.
  unfold acquire_lock, io. destruct (call_quiet w) as (H1 & H2 & H3). destruct (fs_call w) as [w1 r]. cbn [fst snd] in *. subst r.
  pose proof (instant_quiet w1) as H4. pose proof (instant_now_between w1) as H5.
  destruct (instant_now w1) as [w2 started]. cbn [fst snd] in *.
  destruct (flock_quiet w2) as (H6 & H7 & H8). destruct (fs_flock w2) as [w3 r] eqn:Hf. cbn [fst snd] in *. subst r.
  exists w3. split; [by apply (recovery_lock_loop_taken 125)|]. split; [congruence|lia].
Qed.

Lemma load_quiet w s : stored w s → ∃ w', load_state w = (w', Ok s) ∧ on w w'.
Proof.
  unfold load_state, io, stored. destruct (read_quiet w) as (H1 & H2 & H3). destruct (fs_read w) as [w1 r]. cbn [fst snd] in *. subst r.
  intros Hs. exists w1. split; [|done]. destruct (file w); [by rewrite Hs|by subst].
Qed.

Lemma calls_quiet n w : ∃ w', fs_calls n w = (w', Ok tt) ∧ on w w'.
Proof.
  revert w. induction n as [|n IH]; intros w; [exists w; split; [done|split; [done|lia]]|]. cbn [fs_calls]. unfold io.
  destruct (call_quiet w) as (H1 & H2 & H3). destruct (fs_call w) as [w1 r]. cbn [fst snd] in *. subst r.
  destruct (IH w1) as (w' & -> & Hon). exists w'. split; [done|]. by apply (on_trans w w1).
Qed.

Lemma save_quiet s w : ∃ w', save_state s w = (w', Ok tt) ∧ stored w' s ∧ time w <= time w'.
Proof.
  unfold save_state, io. destruct (codec_back s) as (raw & -> & Hraw).
  destruct (calls_quiet 3 w) as (w1 & -> & _ & Ht1).
  destruct (rename_quiet raw w1) as (H1 & H2 & H3). destruct (fs_rename raw w1) as [w2 r]. cbn [fst snd] in *. subst r.
  destruct (calls_quiet 2 w2) as (w3 & -> & Hf & Ht3). exists w3. split; [done|].
  unfold stored. rewrite Hf, H2. split; [done|lia].
Qed.

(** An update is the operation, at a second between its begin and its end. *)
Lemma update_quiet {T} (operation : Z → DaemonRecoveryState → DaemonRecoveryState * T) w s : stored w s →
  ∃ w' now, update operation w = Some (w', Ok (operation now s).2) ∧ stored w' (operation now s).1
    ∧ time w <= time w' ∧ secs (time w) <= now <= secs (time w').
Proof.
  intros Hs. unfold update, io. destruct (call_quiet w) as (H1 & H2 & H3). destruct (fs_call w) as [w0 r]. cbn [fst snd] in *. subst r.
  assert (Hon0 : on w w0) by done. destruct (acquire_quiet w0) as (w1 & -> & Hon1).
  destruct (load_quiet w1 s) as (w2 & -> & Hon2); [by eapply on_stored, on_stored|].
  destruct (clock_quiet w2) as (H4 & H5 & H6). destruct (unix_secs w2) as [w3 now]. cbn [fst snd] in *.
  destruct (operation now s) as [s' t] eqn:Ho. destruct (save_quiet s' w3) as (w4 & Hsave & Hs4 & Ht4). rewrite Hsave.
  exists w4, now. rewrite Ho. split; [done|]. split; [done|].
  destruct Hon0 as [_ ?], Hon1 as [_ ?], Hon2 as [_ ?]. split; [lia|].
  pose proof (secs_mono (time w) (time w2)). pose proof (secs_mono (time w3) (time w4)). lia.
Qed.

Lemma snapshot_quiet w s : stored w s →
  ∃ w' now, read_snapshot w = Some (w', Ok (snapshot now s).2) ∧ stored w' s
    ∧ time w <= time w' ∧ secs (time w) <= now <= secs (time w').
Proof.
  intros Hs. unfold read_snapshot. destruct (acquire_quiet w) as (w1 & -> & Hon1).
  destruct (load_quiet w1 s) as (w2 & -> & Hon2); [by eapply on_stored|].
  destruct (clock_quiet w2) as (H4 & H5 & H6). destruct (unix_secs w2) as [w3 now]. cbn [fst snd] in *.
  exists w3, now. split; [done|]. assert (Hon3 : on w2 w3) by done.
  split; [by eapply on_stored, on_stored, on_stored|]. destruct Hon1 as [_ ?], Hon2 as [_ ?].
  split; [lia|]. pose proof (secs_mono (time w) (time w2)). lia.
Qed.

(** A start that finds the budget exhausted waits once and is admitted: the wait reaches
    the deadline, provided that it is no further than a cooldown ahead. *)
Theorem cooldown_waited_out w s : stored w s → budget_wf s →
  rs_cooldown_until_unix_secs s <= secs (time w) + RESTART_COOLDOWN_SECS →
  ∃ w' s', admit_start_with_cooldown_wait w = Some (w', Ok tt) ∧ stored w' s' ∧ rs_phase s' = Recovering.
Proof.
  intros Hs Hwf Hnear. unfold admit_start_with_cooldown_wait, persist_start.
  destruct (update_quiet admit_start w s Hs) as (w1 & now1 & -> & Hs1 & Ht1 & Hn1).
  assert (Hallowed : ∀ now s, (admit_start now s).2 = RestartAllowed → rs_phase (admit_start now s).1 = Recovering)
    by (intros now s0; unfold admit_start; destruct (cooling _ _); done).
  destruct ((admit_start now1 s).2) eqn:Hd; [eauto 10|].
  destruct (refused_cooling _ _ Hd) as [Hcool Hsame].
  rewrite Hsame in Hs1. pose proof (cooling_phase _ _ Hcool) as [Hph Hahead].
  destruct (snapshot_quiet w1 s Hs1) as (w2 & now2 & -> & Hs2 & Ht2 & Hn2).
  set (remaining := sn_cooldown_remaining_secs (snapshot now2 s).2). set (w3 := sleep (cooldown_wait remaining) w2).
  assert (Hs3 : stored w3 s) by (unfold stored, w3 in *; by rewrite sleep_quiet).
  assert (Hdeadline : rs_cooldown_until_unix_secs s <= secs (time w3)).
  { pose proof (secs_mono (time w) (time w1) Ht1). pose proof (secs_mono (time w1) (time w2) Ht2).
    assert (Hw3 : time w2 + cooldown_wait remaining <= time w3)
      by (pose proof (sleep_long_enough (cooldown_wait remaining) w2); unfold w3; lia).
    destruct (Z.le_gt_cases (rs_cooldown_until_unix_secs s) now2) as [Hpast|Hstill].
    - pose proof (secs_mono (time w2) (time w3)). enough (0 <= cooldown_wait remaining) by lia.
      unfold cooldown_wait, sub_u64, RESTART_COOLDOWN_SECS, DAEMON_COOLDOWN_WAIT_MAX, from_secs. unfold_widths. lia.
    - assert (Hrem : remaining = rs_cooldown_until_unix_secs s - now2).
      { unfold remaining, snapshot. rewrite prune_cooling; [cbn; unfold sub_u64; lia|].
        unfold cooling. rewrite bool_decide_eq_true_2 by done. by apply Z.ltb_lt. }
      assert (Hwait : from_secs (Z.min remaining RESTART_COOLDOWN_SECS) <= cooldown_wait remaining).
      { unfold cooldown_wait, DAEMON_COOLDOWN_WAIT_MAX, sub_u64, from_secs. unfold RESTART_COOLDOWN_SECS in *. unfold_widths. lia. }
      pose proof (time_nonneg w2).
      pose proof (secs_after (time w2) (rs_cooldown_until_unix_secs s - now2)) as Hsec.
      pose proof (secs_mono (time w2 + from_secs (rs_cooldown_until_unix_secs s - now2)) (time w3)) as Hm.
      rewrite Hrem in *. unfold from_secs in *. unfold RESTART_COOLDOWN_SECS in *. lia. }
  destruct (update_quiet admit_start w3 s Hs3) as (w4 & now4 & -> & Hs4 & Ht4 & Hn4).
  destruct (expired_admits s now4 Hph) as [Hok _]; [lia|]. rewrite Hok. eauto 10.
Qed.
End quiet.

(** *** A disk *)
Module Plain.
Definition world : Type := option DaemonRecoveryState * N.

Definition tick_of {A} (a : A) (w : world) : world * A := ((w.1, N.succ w.2), a).

#[export] Instance clock : Clock world := {
  instant_now w := tick_of (Z.of_N w.2) w;
  sleep d w := (w.1, (w.2 + Z.to_N d)%N);
  time w := Z.of_N w.2;
}.

#[export] Instance clock_laws : ClockLaws world.
Proof. split; intros; cbn; lia. Qed.

Definition second_of (t : Z) : Z := t / 1000000000.

#[export] Instance fs : RecoveryFs DaemonRecoveryState world := {
  fs_call := tick_of (Ok tt);
  fs_flock := tick_of Taken;
  fs_read w := tick_of (Ok w.1) w;
  fs_rename x w := tick_of (Ok tt) (Some x, w.2);
  unix_secs w := tick_of (second_of (Z.of_N w.2)) w;
}.

#[export] Instance codec : RecoveryCodec DaemonRecoveryState := { from_slice := Ok; to_vec := Ok }.

#[export] Instance quiet : QuietDisk DaemonRecoveryState world.
Proof.
  refine {| file := fst; secs := second_of |}; unfold second_of, from_secs.
  - intros. apply Z.div_le_mono; lia.
  - intros. rewrite Z.div_add; lia.
  - intros. cbn. lia.
  - intros. cbn. split_and!; [done|done|lia].
  - intros. cbn. split_and!; [done|done|lia].
  - intros. cbn. split_and!; [done|done|lia].
  - intros. cbn. split_and!; [done|done|lia].
  - intros. cbn. split_and!; [done|lia|apply Z.le_refl|]. apply Z.div_le_mono; lia.
  - done.
  - done.
  - intros s. by exists s.
Defined.

(** The cooldown of [Budget.cooled], ten minutes on. *)
Lemma cooldown_waited_out_witness :
  ∃ w' s', admit_start_with_cooldown_wait (Some cooled, 900000000000%N) = Some (w', Ok tt)
    ∧ stored w' s' ∧ rs_phase s' = Recovering.
Proof.
  apply (cooldown_waited_out (Some cooled, 900000000000%N) cooled); [done| |vm_compute; discriminate].
  split; [done|]. intros H. exfalso. apply H. vm_compute. reflexivity.
Defined.
End Plain.

(** *** A disk whose directory cannot be synced

    The state is renamed into place before the directory is synced. When that last sync
    fails, the fault is on file, the update reports an error, and the retry charges the
    fault again: one fault exhausts the whole budget. *)
Module Unsynced.
Record world := World { on_disk : option DaemonRecoveryState; opened_dirs : nat; clock_ns : Z }.

Definition passes {A} (a : A) (w : world) : world * A := (w, a).

#[local] Instance clock : Clock world := {
  instant_now w := (w, clock_ns w);
  sleep d w := World (on_disk w) (opened_dirs w) (clock_ns w + d);
  time := clock_ns;
}.

(** The calls after a renaming, and only they, fail. *)
#[local] Instance fs : RecoveryFs DaemonRecoveryState world := {
  fs_call w := match opened_dirs w with
               | S n => (World (on_disk w) n (clock_ns w), Err "sync: I/O error")
               | O => (w, Ok tt)
               end;
  fs_flock := passes Taken;
  fs_read w := passes (Ok (on_disk w)) w;
  fs_rename x w := (World (Some x) 1 (clock_ns w), Ok tt);
  unix_secs w := passes (clock_ns w / 1000000000) w;
}.

#[local] Instance codec : RecoveryCodec DaemonRecoveryState := { from_slice := Ok; to_vec := Ok }.

Example one_fault_charged_thrice :
  (fun '(reported, w) => (reported, (fun s => (rs_phase s, length (rs_faults s))) <$> on_disk w))
    <$> record_fault_once WriteStall false (World None 0 (from_secs 100))
  = Some (false, Some (Cooldown, 3%nat)).
Proof. vm_compute. reflexivity. Qed.
End Unsynced.
End Disk.

(** ** Stalled writes *)
Module Stalls.
Import WriteStalls.

(** A stall is reported exactly when messages wait, no write succeeded for five minutes,
    no stall was logged in the last minute and no lock error was seen in it. *)
Lemma stall_reported_iff stats now swapped o : ob_poisoned o = false →
  (maybe_log_stall stats now swapped o).2 = true ↔
  swapped = true
  ∧ (∃ pending claimed, stats = Ok (pending, claimed) ∧ 0 < pending + claimed)
  ∧ DAEMON_STALL_SECONDS <= now - ob_last_successful_write_secs o
  ∧ DAEMON_STALL_LOG_THROTTLE_SECONDS <= now - ob_last_stall_log_secs o
  ∧ (∀ text seen, ob_last_error o = Some (text, true, seen) →
       DAEMON_SQLITE_CONTENTION_FRESHNESS_SECONDS <= now - seen).
Proof.
  intros Hp. unfold maybe_log_stall, stall_diagnostic. rewrite Hp.
  destruct stats as [[pending claimed]|e]; [|cbn; split; [done|intros (_ & (? & ? & ? & _) & _); done]].
  assert (Hq : sat_u64 (pending + claimed) = 0 ↔ pending + claimed <= 0) by (unfold_widths; lia).
  destruct (Z.eqb_spec (sat_u64 (pending + claimed)) 0) as [H0|H0].
  { cbn. split; [done|]. intros (_ & (? & ? & [= <- <-] & ?) & _). apply Hq in H0. lia. }
  assert (Hpos : 0 < pending + claimed) by (apply Z.nle_gt; by rewrite <- Hq).
  destruct (ob_last_error o) as [[[text is_lock] seen]|] eqn:He; cbn;
    (destruct (Z.ltb_spec (Recovery.sub_u64 now (ob_last_successful_write_secs o)) DAEMON_STALL_SECONDS) as [H1|H1];
       cbn; [split; [done|intros (_ & _ & ? & _); unfold Recovery.sub_u64, DAEMON_STALL_SECONDS in *; lia]|];
     destruct (Z.ltb_spec (Recovery.sub_u64 now (ob_last_stall_log_secs o)) DAEMON_STALL_LOG_THROTTLE_SECONDS) as [H2|H2];
       cbn; [split; [done|intros (_ & _ & _ & ? & _); unfold Recovery.sub_u64, DAEMON_STALL_LOG_THROTTLE_SECONDS in *; lia]|];
     destruct swapped; cbn; [|split; [done|by intros (? & _)]];
     unfold Recovery.sub_u64, DAEMON_STALL_SECONDS, DAEMON_STALL_LOG_THROTTLE_SECONDS,
       DAEMON_SQLITE_CONTENTION_FRESHNESS_SECONDS in *).
  - destruct is_lock; cbn; [destruct (Z.ltb_spec (Z.max 0 (now - seen)) 60) as [H3|H3]; cbn|].
    + split; [done|]. intros (_ & _ & _ & _ & H). specialize (H _ _ eq_refl). lia.
    + split; [|done]. intros _. split_and!; try lia; eauto. intros ? ? [= <- <-]. lia.
    + split; [|done]. intros _. split_and!; try lia; eauto. done.
  - split; [|done]. intros _. split_and!; try lia; eauto. done.
Qed.

(** A successful write silences the detector for five minutes. *)
Lemma success_silences stats now now' swapped o : now' < now + DAEMON_STALL_SECONDS →
  ob_poisoned o = false → (maybe_log_stall stats now' swapped (record_successful_write now o)).2 = false.
Proof.
  intros Hn Hp. apply not_true_iff_false. rewrite stall_reported_iff by (unfold record_successful_write; cbn; by rewrite Hp).
  intros (_ & _ & H & _). revert H. unfold record_successful_write, record_queue_maintenance_success, set_last_error.
  cbn. rewrite Hp. cbn. lia.
Qed.

(** Contention whose last lock error is always fresh never restarts the daemon. *)
Lemma contention_tolerated stats now swapped o text seen : ob_poisoned o = false →
  ob_last_error o = Some (text, true, seen) → now < seen + DAEMON_SQLITE_CONTENTION_FRESHNESS_SECONDS →
  (maybe_log_stall stats now swapped o).2 = false.
Proof.
  intros Hp He Hn. apply not_true_iff_false. rewrite stall_reported_iff by done.
  intros (_ & _ & _ & _ & H). specialize (H _ _ He). lia.
Qed.
End Stalls.

(** ** The wait for the writer lease *)
Module LeaseWait.
Import WriterWait.

Lemma effective_wait_least l wait_max : wait_max <= effective_admission_wait l wait_max.
Proof. unfold effective_admission_wait. lia. Qed.

(** With one wait at least, an extension up to three minutes. *)
Lemma effective_wait_bound l wait_max : 0 <= wait_max →
  effective_admission_wait l wait_max <= Z.max wait_max DAEMON_WRITER_LEASE_ADMISSION_WAIT_EXTENDED_MAX.
Proof. intros. unfold effective_admission_wait, DAEMON_WRITER_LEASE_ADMISSION_WAIT_EXTENDED_MAX. lia. Qed.

Section wait.
Context {W : Type} `{CL : ClockLaws W} `{LH : !LeaseHost W}.

Definition refuses (active : list RuntimeWriterLease) : bool :=
  existsb (fun lease => writer_lease_holder_refuses_immediately (rl_mode lease)) active.

(** How a wait may end, as rounds: with the lease, with an error of the database, or with
    the refusal of a holder that does not wait; a round that finds the lease held pauses.
    There is no rule for a timeout. *)
Inductive waited (retry_delay : Z) : W → W * result RuntimeWriterLease admission_error → Prop :=
  | waited_lease w w1 lease :
      acquire_for_daemon_start w = (w1, Ok (Some lease)) → waited retry_delay w (w1, Ok lease)
  | waited_error w w1 e :
      acquire_for_daemon_start w = (w1, Err e) →
      waited retry_delay w
        (if db_error_is_sqlite_lock e then record_locked_fault w1 else w1, Err (LeaseAcquireFailed e))
  | waited_refusal w w1 w2 active :
      acquire_for_daemon_start w = (w1, Ok None) → lease_status w1 = (w2, Some active) → refuses active = true →
      waited retry_delay w (w2, Err (DaemonWriterLeaseHeld (format_runtime_writer_leases active)))
  | waited_round w w1 w2 status w3 now pause out :
      acquire_for_daemon_start w = (w1, Ok None) → lease_status w1 = (w2, status) →
      refuses (default [] status) = false → instant_now w2 = (w3, now) → 0 < pause <= retry_delay →
      waited retry_delay (sleep pause w3) out → waited retry_delay w out.

Lemma admission_wait_loop_waited fuel wait_max retry_delay deadline w out : 0 < wait_max → 0 < retry_delay →
  admission_wait_loop fuel wait_max retry_delay deadline w = Some out → waited retry_delay w out.
Proof.
  intros Hm Hr. revert deadline w. induction fuel as [|fuel IH]; intros deadline w; [done|]. cbn [admission_wait_loop].
  destruct (acquire_for_daemon_start w) as [w1 [[lease|]|e]] eqn:Ha; [intros [= <-]; by constructor| |intros [= <-]; by constructor].
  destruct (lease_status w1) as [w2 status] eqn:Hs.
  assert (Hround : ∀ live, refuses (default [] status) = false →
    (let '(w3, now) := instant_now w2 in
     let target := now + effective_admission_wait live wait_max in
     let dl := default target deadline in
     let dl := if dl <? target then target else dl in
     ∀ holders, (if dl <=? now then Some (w3, Err (DaemonWriterLeaseHeld holders))
                 else admission_wait_loop fuel wait_max retry_delay (Some dl) (sleep (Z.min (dl - now) retry_delay) w3))
                = Some out → waited retry_delay w out)).
  { intros live Hno. destruct (instant_now w2) as [w3 now] eqn:Hi. cbv zeta. intros holders.
    pose proof (effective_wait_least live wait_max) as Hl. set (target := now + effective_admission_wait live wait_max) in *.
    set (dl := if _ <? target then target else _). assert (Hdl : now < dl).
    { unfold dl. destruct (Z.ltb_spec (default target deadline) target); unfold target in *; lia. }
    destruct (Z.leb_spec dl now); [lia|]. intros Hrun.
    apply (waited_round retry_delay w w1 w2 status w3 now (Z.min (dl - now) retry_delay)); [done..|lia|by eapply IH]. }
  destruct status as [active|]; cbn -[admission_wait_loop] in Hround.
  - fold (refuses active). destruct (refuses active) eqn:Href; [intros [= <-]; by eapply waited_refusal|].
    specialize (Hround (rl_remaining_secs <$> active) Href). destruct (instant_now w2). apply Hround.
  - specialize (Hround [] eq_refl). destruct (instant_now w2). apply Hround.
Qed.

(** Before the instant [T]: no database error, and no holder that refuses at once. *)
Definition undisturbed (T : Z) : Prop :=
  ∀ w, time w < T → ∃ w1 r, acquire_for_daemon_start w = (w1, Ok r) ∧ refuses (default [] (lease_status w1).2) = false.

(** From the instant [T] on the lease is free to take. *)
Definition free_from (T : Z) : Prop :=
  ∀ w, T <= time w → ∃ w1 lease, acquire_for_daemon_start w = (w1, Ok (Some lease)).

(** A round that does not take the lease pauses for the whole retry delay. *)
Lemma admission_wait_loop_ends T n wait_max retry_delay deadline w :
  forward acquire_for_daemon_start → forward lease_status → undisturbed T → free_from T →
  0 < retry_delay <= wait_max → T - time w <= Z.of_nat n * retry_delay →
  ∃ w' lease, admission_wait_loop (S n) wait_max retry_delay deadline w = Some (w', Ok lease).
Proof.
  intros Hfa Hfs Hq Hfree Hr. revert deadline w. induction n as [|n IH]; intros deadline w Hn.
  { destruct (Hfree w) as (w1 & lease & Ha); [lia|]. exists w1, lease. cbn [admission_wait_loop]. by rewrite Ha. }
  remember (S n) as m eqn:Em. cbn [admission_wait_loop]. pose proof (Hfa w) as H1.
  assert (Ha : ∃ w1 r, acquire_for_daemon_start w = (w1, Ok r)
                       ∧ (r = None → refuses (default [] (lease_status w1).2) = false)).
  { destruct (Z.lt_ge_cases (time w) T) as [Hlt|Hge]; [destruct (Hq w Hlt) as (w1 & r & ? & ?); by exists w1, r|].
    destruct (Hfree w Hge) as (w1 & lease & ?). by exists w1, (Some lease). }
  destruct Ha as (w1 & r & Ha & Href). rewrite Ha in *. cbn in H1. destruct r as [lease|]; [by exists w1, lease|].
  specialize (Href eq_refl). pose proof (Hfs w1) as H2. destruct (lease_status w1) as [w2 status]. cbn in H2, Href.
  assert (Hround : ∀ live holders,
    ∃ w' lease,
      (let '(w3, now) := instant_now w2 in
       let target := now + effective_admission_wait live wait_max in
       let dl := default target deadline in
       let dl := if dl <? target then target else dl in
       if dl <=? now then Some (w3, Err (DaemonWriterLeaseHeld holders))
       else admission_wait_loop m wait_max retry_delay (Some dl) (sleep (Z.min (dl - now) retry_delay) w3))
      = Some (w', Ok lease)).
  { intros live holders. pose proof (instant_now_between w2) as H3. destruct (instant_now w2) as [w3 now]. cbn in H3.
    cbv zeta. pose proof (effective_wait_least live wait_max) as Hl. set (target := now + effective_admission_wait live wait_max) in *.
    set (dl := if _ <? target then target else _). assert (Hdl : now + wait_max <= dl).
    { unfold dl. destruct (Z.ltb_spec (default target deadline) target); unfold target in *; lia. }
    destruct (Z.leb_spec dl now); [lia|]. subst m. apply IH.
    pose proof (sleep_long_enough (Z.min (dl - now) retry_delay) w3). lia. }
  destruct status as [active|]; cbn -[admission_wait_loop refuses] in Href |- *.
  - rewrite Href. apply Hround.
  - apply Hround.
Qed.

(** C31: The start of the daemon waits for the writer lease until it is free. If the
    lease is free to take from some instant on, before it no call fails and no holder is
    a worker that refuses at once, and the clock does not go back, then the start ends
    with the lease, after at most one round per hundred milliseconds until that instant
    and one more. However it ends, it is with the lease, with an error of the database,
    or because a holder refuses at once. The bounded wait before a temporary refusal,
    which a comment and the printed message announce, never ends in that refusal,
    because every round moves its deadline ahead; while another holder keeps the lease,
    no number of rounds ends the wait. *)
Theorem start_waits_for_lease fuel (w : W) :
  (∀ T n, forward acquire_for_daemon_start → forward lease_status → undisturbed T → free_from T →
     T - time w <= Z.of_nat n * DAEMON_WRITER_LEASE_ADMISSION_RETRY_DELAY →
     ∃ w' lease, acquire_daemon_writer_lease (S n) w = Some (w', Ok lease))
  ∧ (∀ out, acquire_daemon_writer_lease fuel w = Some out →
       waited DAEMON_WRITER_LEASE_ADMISSION_RETRY_DELAY w out)
  ∧ ((∀ w, (acquire_for_daemon_start w).2 = Ok None ∧ refuses (default [] (lease_status w).2) = false) →
     acquire_daemon_writer_lease fuel w = None).
Proof.
  assert (Hsome : ∀ out, acquire_daemon_writer_lease fuel w = Some out →
                         waited DAEMON_WRITER_LEASE_ADMISSION_RETRY_DELAY w out)
    by (intros out; by apply admission_wait_loop_waited).
  split; [intros T n Hfa Hfs Hq Hfree Hn; by apply (admission_wait_loop_ends T)|].
  split; [exact Hsome|]. intros Hheld. destruct (acquire_daemon_writer_lease fuel w) as [out|]; [|done].
  exfalso. specialize (Hsome out eq_refl). induction Hsome as [w w1 lease Ha|w w1 e Ha|w w1 w2 active Ha Hs Href|]; [| | |assumption].
  - destruct (Hheld w) as [Hw _]. by rewrite Ha in Hw.
  - destruct (Hheld w) as [Hw _]. by rewrite Ha in Hw.
  - destruct (Hheld w1) as [_ Hw]. rewrite Hs in Hw. change (refuses active = false) in Hw. congruence.
Qed.

(** A renewal returns within its five seconds: a round per pause and one more. *)
Lemma renew_loop_returns (renew_forward : forward renew_once) n started w :
  started + DAEMON_WRITER_LEASE_RENEW_RETRY_DEADLINE - time w <= Z.of_nat n * DAEMON_WRITER_LEASE_RENEW_RETRY_DELAY →
  is_Some (renew_loop (S n) started w).
Proof.
  revert w. induction n as [|n IH]; intros w Hn; cbn [renew_loop]; pose proof (renew_forward w) as Hf;
    destruct (renew_once w) as [w1 [r|e]]; cbn in Hf; try by eexists.
  all: destruct (db_error_is_sqlite_lock e); [|by eexists].
  all: pose proof (instant_now_between w1) as Hc; destruct (instant_now w1) as [w2 now]; cbn in Hc.
  all: destruct (Z.ltb_spec (now - started) DAEMON_WRITER_LEASE_RENEW_RETRY_DEADLINE); [|by eexists].
  - lia.
  - apply IH. pose proof (sleep_long_enough DAEMON_WRITER_LEASE_RENEW_RETRY_DELAY w2).
    unfold DAEMON_WRITER_LEASE_RENEW_RETRY_DELAY, MILLIS in *. lia.
Qed.

Lemma renewal_returns (renew_forward : forward renew_once) w : is_Some (renew_daemon_writer_lease_with_retry w).
Proof.
  unfold renew_daemon_writer_lease_with_retry. pose proof (instant_now_between w) as Hc.
  destruct (instant_now w) as [w1 started]. cbn in Hc. apply (renew_loop_returns renew_forward 100).
  unfold DAEMON_WRITER_LEASE_RENEW_RETRY_DEADLINE, DAEMON_WRITER_LEASE_RENEW_RETRY_DELAY, from_secs, MILLIS. lia.
Qed.
End wait.

(** The heartbeat goes on exactly while no renewal is refused and every failed one comes
    within the life of the last confirmed one. *)
Inductive beats : Z → list (option (result bool lease_error) * Z) → Prop :=
  | beats_nil c : beats c []
  | beats_renewed c now rest : beats now rest → beats c ((Some (Ok true), now) :: rest)
  | beats_failed c r now rest : r = None ∨ (∃ e, r = Some (Err e)) →
      now < c + from_secs DAEMON_WRITER_LEASE_TTL_SECS → beats c rest → beats c ((r, now) :: rest).

Lemma heartbeat_beats c rounds : heartbeat c rounds ≠ LeaseLost ↔ beats c rounds.
Proof.
  revert c. induction rounds as [|[r now] rest IH]; intros c; [split; [constructor|done]|].
  assert (Hfail : r = None ∨ (∃ e, r = Some (Err e)) →
    (if from_secs DAEMON_WRITER_LEASE_TTL_SECS <=? now - c then LeaseLost else heartbeat c rest) ≠ LeaseLost ↔ beats c ((r, now) :: rest)).
  { intros Hr. destruct (Z.leb_spec (from_secs DAEMON_WRITER_LEASE_TTL_SECS) (now - c)); split.
    - done.
    - inversion 1; subst; [by destruct Hr as [|[]]|lia].
    - rewrite IH. intros. constructor; [done|lia|done].
    - rewrite IH. inversion 1; subst; [by destruct Hr as [|[]]|done]. }
  destruct r as [[[]|e]|]; simpl.
  - rewrite IH. split; [by constructor|]. inversion 1; subst; [done|]. naive_solver.
  - split; [done|]. inversion 1; subst. naive_solver.
  - apply Hfail. eauto.
  - apply Hfail. eauto.
Qed.
End LeaseWait.

(** ** Which processes are signalled *)
Module Remediation.
Import Holders.

(** *** Classification *)
Lemma is_stale_cases c : is_stale c = true ↔ c = "stale_mcp_server" ∨ c = "orphan_daemon".
Proof. unfold is_stale. by rewrite orb_true_iff, !String.eqb_eq. Qed.

(** A scanned process is selected exactly when it is another process and either a server
    whose parent is init or a daemon that the pid file does not protect. *)
Lemma selected_iff current_pid daemon_pid binary boot now hz protect p :
  selected (holder_of current_pid daemon_pid binary boot now hz protect p) = true ↔
  pf_pid p ≠ current_pid
  ∧ (classify_role (pf_argv p) binary = "mempal_mcp_server" ∧ pf_stat p ≫= parse_parent_pid = Some 1
     ∨ classify_role (pf_argv p) binary = "mempal_daemon"
       ∧ ¬ (protect = true ∧ daemon_pid = Some (pf_pid p))).
Proof.
  unfold selected, is_current, holder_of. cbn [hp_classification hp_current_process hp_current_daemon hp_current_mcp_server].
  rewrite andb_true_iff, negb_true_iff, !orb_false_iff, is_stale_cases. unfold classify_holder.
  destruct (Z.eqb_spec (pf_pid p) current_pid) as [Hc|Hc]; [split; [by intros (_ & (? & _) & _)|by intros []]|].
  rewrite andb_false_l. set (role := classify_role _ _). cbn [andb].
  destruct (String.eqb_spec role "mempal_daemon") as [Hd|Hd].
  - assert (String.eqb role "mempal_mcp_server" = false) as -> by (by rewrite Hd).
    destruct protect; cbn [andb]; [case_bool_decide as Hp|]; cbn [andb]; split; try naive_solver.
    all: intros [_ [[H _]|[_ H]]]; [congruence|]; naive_solver.
  - rewrite !andb_false_r. destruct (String.eqb_spec role "mempal_mcp_server") as [Hm|Hm]; cbn [andb].
    + case_bool_decide as Hpp; split; try naive_solver.
    + split; [naive_solver|]. intros [_ [[H _]|[H _]]]; congruence.
Qed.

(** *** Plans *)
Lemma dedup_after_incl {A} (key : A → Z) k l x : x ∈ dedup_after key k l → x ∈ l.
Proof.
  revert k. induction l as [|y l IH]; intros k; simpl; [done|].
  destruct (key y =? k); [intros H; right; by eapply IH|]. intros [->|H]%elem_of_cons; [by left|right; by eapply IH].
Qed.

Lemma dedup_by_key_incl {A} (key : A → Z) l x : x ∈ dedup_by_key key l → x ∈ l.
Proof. destruct l as [|y l]; [done|]. intros [->|H]%elem_of_cons; [by left|right; by eapply dedup_after_incl]. Qed.

Lemma elem_of_list_filter_true {A} (f : A → bool) l x : x ∈ List.filter f l ↔ x ∈ l ∧ f x = true.
Proof. rewrite !list_elem_of_In. apply List.filter_In. Qed.

(** Every planned target is a selected holder of the report. *)
Lemma planned_selected report t : t ∈ pl_terminate_targets (plan_stale_db_holder_remediation report) →
  ∃ h, h ∈ hr_holders report ∧ selected h = true ∧ t = from_holder h.
Proof.
  intros H%dedup_by_key_incl. rewrite elem_of_sort_by in H.
  apply list_elem_of_fmap in H as (h & -> & [Hin Hs]%elem_of_list_filter_true). eauto.
Qed.

(** No holder is both a target and left to the operator. *)
Lemma manual_unselected report h : h ∈ pl_manual_holders (plan_stale_db_holder_remediation report) →
  h ∈ hr_holders report ∧ selected h = false.
Proof. cbn. rewrite elem_of_sort_by, elem_of_list_filter_true, negb_true_iff. done. Qed.

(** [plan_daemon_reap] keeps one daemon, the one of the pid file if it lives, and reaps
    every other candidate. *)
Lemma dedup_after_keys k l z : z ∈ k :: dedup_after id k l ↔ z ∈ k :: l.
Proof.
  revert k. induction l as [|y l IH]; intros k; [done|]. cbn [dedup_after]. unfold id at 1.
  destruct (Z.eqb_spec y k) as [->|Hne].
  - rewrite IH. rewrite !elem_of_cons. tauto.
  - rewrite elem_of_cons. change (id y) with y. rewrite IH, !elem_of_cons. tauto.
Qed.

Lemma elem_of_live candidates z : z ∈ dedup_by_key id (sort_by Z.leb candidates) ↔ z ∈ candidates.
Proof.
  rewrite <- (elem_of_sort_by Z.leb z candidates). destruct (sort_by Z.leb candidates) as [|x l]; [done|].
  cbn [dedup_by_key]. apply dedup_after_keys.
Qed.

Lemma reap_spec candidates pidfile :
  let plan := plan_daemon_reap candidates pidfile in
  (∀ pid, pidfile = Some pid → pid ∈ candidates → rp_keeper plan = Some pid)
  ∧ (rp_keeper plan = None ↔ candidates = [])
  ∧ (∀ pid, pid ∈ rp_targets plan ↔ pid ∈ candidates ∧ rp_keeper plan ≠ Some pid).
Proof.
  cbv zeta. unfold plan_daemon_reap. cbn [rp_keeper rp_targets].
  assert (Hlive := elem_of_live candidates). set (live := dedup_by_key id _) in *. split_and!.
  - intros pid -> Hin. by rewrite bool_decide_eq_true_2 by by apply Hlive.
  - assert (Hhead : head live = None ↔ candidates = []).
    { destruct live as [|x l] eqn:El; cbn; split; try done.
      - intros _. destruct candidates as [|y l]; [done|]. exfalso. apply (not_elem_of_nil y). apply Hlive. by left.
      - intros ->. exfalso. apply (not_elem_of_nil x), Hlive. by left. }
    destruct pidfile as [pid|]; [case_bool_decide as Hin|]; [|done..]. split; [done|].
    intros ->. apply Hlive in Hin. by apply not_elem_of_nil in Hin.
  - intros pid. rewrite elem_of_list_filter_true, negb_true_iff, bool_decide_eq_false, Hlive. naive_solver.
Qed.

(** *** Signals

    The calls of a run, in order, and what justifies a signal: a scan just before it that
    still shows the planned holder, and, for SIGKILL, an earlier SIGTERM. *)
Inductive event :=
  | EvInspect (report : DbHolderReport)
  | EvSignal (pid sig : Z)
  | EvRunning (pid : Z).

Inductive justified (targets : list DbHolderRemediationTarget) : list event → Prop :=
  | justified_nil : justified targets []
  | justified_scan l report : justified targets l → justified targets (l ++ [EvInspect report])
  | justified_probe l pid : justified targets l → justified targets (l ++ [EvRunning pid])
  | justified_signal l t report h sig :
      justified targets l → t ∈ targets → h ∈ hr_holders report → matches_holder t h = true →
      sig = SIGTERM ∨ sig = SIGKILL ∧ EvSignal (rt_pid t) SIGTERM ∈ l →
      justified targets (l ++ [EvInspect report; EvSignal (rt_pid t) sig]).

(** Any world, with a log of its calls. *)
Section logged.
Context {W : Type} `{CL : ClockLaws W} `{OPS : !DbHolderProcessOps W}.

#[export] Instance logged_clock : Clock (W * list event) := {
  instant_now w := ((instant_now w.1).1, w.2, (instant_now w.1).2);
  sleep d w := (sleep d w.1, w.2);
  time w := time w.1;
}.

#[export] Instance logged_clock_laws : ClockLaws (W * list event).
Proof. split; intros; cbn; [apply instant_now_between|apply sleep_long_enough]. Qed.

#[export] Instance logged_ops : DbHolderProcessOps (W * list event) := {
  inspect_holders w := let '(w1, report) := inspect_holders w.1 in ((w1, (w.2 ++ [EvInspect report])%list), report);
  signal pid sig w := let '(w1, r) := signal pid sig w.1 in ((w1, (w.2 ++ [EvSignal pid sig])%list), r);
  is_running pid w := let '(w1, r) := is_running pid w.1 in ((w1, (w.2 ++ [EvRunning pid])%list), r);
}.

Context (targets : list DbHolderRemediationTarget).

(** A target that a SIGTERM was tried on. *)
Definition tried (l : list event) (t : DbHolderRemediationTarget) : Prop :=
  t ∈ targets ∧ EvSignal (rt_pid t) SIGTERM ∈ l.

(** The outcome tells what was sent. *)
Definition told (o : DbHolderTerminationOutcome) (l : list event) : Prop :=
  Forall (fun pid => EvSignal pid SIGTERM ∈ l) (to_signaled o)
  ∧ Forall (fun pid => EvSignal pid SIGKILL ∈ l) (to_killed o).

Definition kept (w w' : W * list event) : Prop := ∃ more, w'.2 = (w.2 ++ more)%list.

Lemma kept_refl w : kept w w.
Proof. exists []. by rewrite app_nil_r. Qed.
Lemma kept_trans w1 w2 w3 : kept w1 w2 → kept w2 w3 → kept w1 w3.
Proof. intros [a Ha] [b Hb]. exists (a ++ b)%list. by rewrite Hb, Ha, app_assoc. Qed.
Lemma kept_elem w w' e : kept w w' → e ∈ w.2 → e ∈ w'.2.
Proof. intros [a ->] He. apply elem_of_app. by left. Qed.

Lemma tried_kept w w' t : kept w w' → tried w.2 t → tried w'.2 t.
Proof. intros Hk [? ?]. split; [done|]. by eapply kept_elem. Qed.

Lemma told_kept w w' o : kept w w' → told o w.2 → told o w'.2.
Proof. intros Hk [H1 H2]. split; eapply Forall_impl; try done; intros ? ?; by eapply kept_elem. Qed.

Lemma told_signaled pid o l : told o l → EvSignal pid SIGTERM ∈ l → told (add_signaled pid o) l.
Proof. intros [H1 H2] He. split; [|done]. apply Forall_app. split; [done|by repeat constructor]. Qed.

Lemma told_killed pid o l : told o l → EvSignal pid SIGKILL ∈ l → told (add_killed pid o) l.
Proof. intros [H1 H2] He. split; [done|]. apply Forall_app. split; [done|by repeat constructor]. Qed.

Lemma signal_step t sig stage w w' a : justified targets w.2 → t ∈ targets →
  sig = SIGTERM ∨ sig = SIGKILL ∧ EvSignal (rt_pid t) SIGTERM ∈ w.2 →
  signal_matching_db_holder t sig stage w = (w', a) →
  justified targets w'.2 ∧ kept w w'
  ∧ match a with IdentityMismatch _ => True | _ => EvSignal (rt_pid t) sig ∈ w'.2 end.
Proof.
  intros Hj Ht Hsig. unfold signal_matching_db_holder. cbn. destruct (inspect_holders w.1) as [w1 report].
  destruct (existsb (matches_holder t) (hr_holders report)) eqn:Hx; cbn.
  - apply existsb_exists in Hx as (h & Hin%list_elem_of_In & Hm).
    destruct (signal (rt_pid t) sig w1) as [w2 r]. intros Heq.
    assert (w' = (w2, ((w.2 ++ [EvInspect report]) ++ [EvSignal (rt_pid t) sig])%list)) as -> by (destruct r; congruence).
    rewrite <- app_assoc. cbn. split_and!; [by eapply justified_signal|by eexists|].
    destruct a; try done; apply elem_of_app; right; by right; left.
  - intros [= <- <-]. cbn. split_and!; [by constructor|by eexists|done].
Qed.

Lemma terminate_each_step ts o w w' o' rest : justified targets w.2 → (∀ t, t ∈ ts → t ∈ targets) → told o w.2 →
  terminate_each ts o w = (w', o', rest) →
  justified targets w'.2 ∧ kept w w' ∧ told o' w'.2 ∧ Forall (tried w'.2) rest.
Proof.
  revert o w w' o' rest. induction ts as [|t ts IH]; intros o w w' o' rest Hj Hts Ho.
  { cbn. intros [= <- <- <-]. split_and!; [done|apply kept_refl|done|constructor]. }
  cbn [terminate_each]. destruct (signal_matching_db_holder t SIGTERM "SIGTERM" w) as [w1 a] eqn:Hs.
  destruct (signal_step t SIGTERM "SIGTERM" w w1 a) as (Hj1 & Hk1 & Ha); [done|apply Hts; by left|by left|done|].
  assert (Hsub : ∀ t, t ∈ ts → t ∈ targets) by (intros t' ?; apply Hts; by right).
  assert (Hnext : ∀ o1 w2 o2 rest2, told o1 w1.2 → terminate_each ts o1 w1 = (w2, o2, rest2) →
    justified targets w2.2 ∧ kept w w2 ∧ told o2 w2.2 ∧ Forall (tried w2.2) rest2 ∧ kept w1 w2).
  { intros o1 w2 o2 rest2 Ho1 Heq. destruct (IH _ _ _ _ _ Hj1 Hsub Ho1 Heq) as (? & Hk2 & ? & ?).
    split_and!; try done. by eapply kept_trans. }
  pose proof (told_kept _ _ _ Hk1 Ho) as Ho1.
  destruct a as [|e|e].
  - destruct (terminate_each ts (add_signaled (rt_pid t) o) w1) as [[w2 o2] rest2] eqn:He. intros [= <- <- <-].
    destruct (Hnext _ _ _ _ (told_signaled _ _ _ Ho1 Ha) He)
      as (? & ? & ? & ? & Hk2). split_and!; try done. constructor; [|done].
    split; [apply Hts; by left|by eapply kept_elem].
  - intros He. destruct (Hnext (add_error e o) _ _ _ Ho1 He) as (? & ? & ? & ? & _). done.
  - destruct (terminate_each ts (add_error e o) w1) as [[w2 o2] rest2] eqn:He. intros [= <- <- <-].
    destruct (Hnext (add_error e o) _ _ _ Ho1 He) as (? & ? & ? & ? & Hk2). split_and!; try done. constructor; [|done].
    split; [apply Hts; by left|by eapply kept_elem].
Qed.

Lemma probe_step pid w w' r : is_running pid w = (w', r) → justified targets w.2 → justified targets w'.2 ∧ kept w w'.
Proof.
  cbn. destruct (is_running pid w.1) as [w1 r1]. intros [= <- <-] Hj. split; [by constructor|by eexists].
Qed.

Lemma still_live_step ts o w w' o' live : justified targets w.2 → told o w.2 → Forall (tried w.2) ts →
  still_live ts o w = (w', o', live) →
  justified targets w'.2 ∧ kept w w' ∧ told o' w'.2 ∧ Forall (tried w'.2) live.
Proof.
  revert o w w' o' live. induction ts as [|t ts IH]; intros o w w' o' live Hj Ho Hts.
  { cbn. intros [= <- <- <-]. split_and!; [done|apply kept_refl|done|constructor]. }
  inversion_clear Hts as [|? ? Ht Hts']. cbn [still_live]. destruct (is_running (rt_pid t) w) as [w1 r] eqn:Hr.
  destruct (probe_step _ _ _ _ Hr Hj) as [Hj1 Hk1]. pose proof (told_kept _ _ _ Hk1 Ho) as Ho1.
  assert (Hts1 : Forall (tried w1.2) ts) by (eapply Forall_impl; [done|]; intros ? ?; by eapply tried_kept).
  assert (Hnext : ∀ o1 w2 o2 rest2, told o1 w1.2 → still_live ts o1 w1 = (w2, o2, rest2) →
    justified targets w2.2 ∧ kept w w2 ∧ told o2 w2.2 ∧ Forall (tried w2.2) rest2 ∧ kept w1 w2).
  { intros o1 w2 o2 rest2 Ho' Heq. destruct (IH _ _ _ _ _ Hj1 Ho' Hts1 Heq) as (? & Hk2 & ? & ?).
    split_and!; try done. by eapply kept_trans. }
  destruct r as [[]|e].
  - destruct (still_live ts o w1) as [[w2 o2] rest2] eqn:He. intros [= <- <- <-].
    destruct (Hnext _ _ _ _ Ho1 He) as (? & ? & ? & ? & Hk2). split_and!; try done. constructor; [|done].
    eapply tried_kept; [done|]. by eapply tried_kept.
  - intros He. destruct (Hnext _ _ _ _ Ho1 He) as (? & ? & ? & ? & _). done.
  - intros He. destruct (Hnext (add_error (status_error (rt_pid t) e) o) _ _ _ Ho1 He) as (? & ? & ? & ? & _). done.
Qed.

Lemma grace_loop_step fuel deadline poll ts o w w' o' live : justified targets w.2 → told o w.2 → Forall (tried w.2) ts →
  grace_loop fuel deadline poll ts o w = Some (w', o', live) →
  justified targets w'.2 ∧ told o' w'.2 ∧ Forall (tried w'.2) live.
Proof.
  revert ts o w. induction fuel as [|fuel IH]; intros ts o w Hj Ho Hts; [done|]. cbn [grace_loop].
  destruct (instant_now w) as [w1 now] eqn:Hi. assert (w1.2 = w.2) as Hl by (cbn in Hi; by injection Hi as <- _). rewrite <- Hl in *.
  destruct (negb (now <? deadline)); [by intros [= <- <- <-]|].
  destruct (still_live ts o w1) as [[w2 o2] live2] eqn:He.
  destruct (still_live_step _ _ _ _ _ _ Hj Ho Hts He) as (Hj2 & _ & Ho2 & Hts2).
  destruct live2 as [|t2 l2]; [by intros [= <- <- <-]|]. by apply IH.
Qed.

Lemma kill_each_step ts o w w' o' : justified targets w.2 → told o w.2 → Forall (tried w.2) ts →
  kill_each ts o w = (w', o') → justified targets w'.2 ∧ told o' w'.2.
Proof.
  revert o w. induction ts as [|t ts IH]; intros o w Hj Ho Hts; [by intros [= <- <-]|].
  inversion_clear Hts as [|? ? Ht Hts']. cbn [kill_each]. destruct (is_running (rt_pid t) w) as [w1 r] eqn:Hr.
  destruct (probe_step _ _ _ _ Hr Hj) as [Hj1 Hk1]. pose proof (told_kept _ _ _ Hk1 Ho) as Ho1.
  assert (Hts1 : Forall (tried w1.2) ts) by (eapply Forall_impl; [done|]; intros ? ?; by eapply tried_kept).
  pose proof (tried_kept _ _ _ Hk1 Ht) as [Hin Hterm].
  destruct r as [[]|e]; [|by apply IH..].
  destruct (signal_matching_db_holder t SIGKILL "SIGKILL" w1) as [w2 a] eqn:Hs.
  destruct (signal_step t SIGKILL "SIGKILL" w1 w2 a) as (Hj2 & Hk2 & Ha); [done|done|by right|done|].
  assert (Hts2 : Forall (tried w2.2) ts) by (eapply Forall_impl; [exact Hts1|]; intros ? ?; by eapply tried_kept).
  pose proof (told_kept _ _ _ Hk2 Ho1) as Ho2.
  destruct a; (apply IH; [done| |done]); [by apply told_killed|done..].
Qed.
End logged.

(** *** The termination returns

    The loop of the grace period runs once per pause and once more. *)
Section returns.
Context {W : Type} `{CL : ClockLaws W} `{OPS : !DbHolderProcessOps W}.
Context (running_forward : ∀ pid, forward (is_running pid)).

Lemma still_live_forward ts o w : time w <= time (still_live ts o w).1.1.
Proof.
  revert o w. induction ts as [|t ts IH]; intros o w; [done|]. cbn [still_live].
  pose proof (running_forward (rt_pid t) w) as Hf. destruct (is_running (rt_pid t) w) as [w1 [[]|e]]; cbn in Hf.
  - pose proof (IH o w1). destruct (still_live ts o w1) as [[w2 o2] live]. cbn in *. lia.
  - pose proof (IH o w1). lia.
  - pose proof (IH (add_error (status_error (rt_pid t) e) o) w1). lia.
Qed.

Lemma grace_loop_returns n deadline poll ts o w : 0 <= poll → deadline - time w <= Z.of_nat n * poll →
  is_Some (grace_loop (S n) deadline poll ts o w).
Proof.
  intros Hp. revert ts o w. induction n as [|n IH]; intros ts o w Hn; cbn [grace_loop];
    pose proof (instant_now_between w) as Hc; destruct (instant_now w) as [w1 now]; cbn in Hc;
    destruct (Z.ltb_spec now deadline) as [Hlt|Hge]; cbn [negb]; try by eexists.
  - lia.
  - pose proof (still_live_forward ts o w1) as Hf. destruct (still_live ts o w1) as [[w2 o2] live]. cbn in Hf.
    destruct live as [|t2 l2]; [by eexists|]. apply IH. pose proof (sleep_long_enough poll w2). lia.
Qed.
End returns.

Lemma logged_forward {W} `{CL : ClockLaws W} `{OPS : !DbHolderProcessOps W} pid :
  forward (is_running (W := W) pid) → forward (is_running (W := W * list event) pid).
Proof.
  intros Hf [w l]. specialize (Hf w). unfold is_running at 1, logged_ops. cbn [fst snd]. destruct (is_running pid w) as [w1 r].
  exact Hf.
Qed.

(** C30: the remediation touches nothing but stale holders. Whatever the scans, the signals
    and the liveness checks return, it ends, and each signal follows a scan that still
    shows, under the planned identity, a holder that the first report shows as a stale
    server or an orphaned daemon and as none of the running processes to protect; a
    SIGKILL is sent only where a SIGTERM was tried, and what is reported as signalled or
    killed was. *)
Theorem only_stale_signalled {W} `{CL : ClockLaws W} `{OPS : !DbHolderProcessOps W} (report : DbHolderReport) (w : W) :
  (∀ pid, forward (is_running pid)) →
  let targets := pl_terminate_targets (plan_stale_db_holder_remediation report) in
  ∃ w' log o,
    terminate_db_holder_targets targets (w, []) = Some ((w', log), o)
    ∧ justified targets log
    ∧ (∀ pid sig, EvSignal pid sig ∈ log →
         ∃ h, h ∈ hr_holders report ∧ hp_pid h = pid ∧ is_stale (hp_classification h) = true ∧ is_current h = false)
    ∧ Forall (fun pid => EvSignal pid SIGTERM ∈ log) (to_signaled o)
    ∧ Forall (fun pid => EvSignal pid SIGKILL ∈ log) (to_killed o).
Proof.
  intros Hfwd targets. unfold terminate_db_holder_targets, terminate_db_holder_targets_with_ops.
  destruct (terminate_each targets no_outcome (w, [])) as [[w1 o1] rest1] eqn:He.
  destruct (terminate_each_step targets targets no_outcome (w, []) w1 o1 rest1) as (Hj1 & _ & Ho1 & Hr1);
    [constructor|done|split; constructor|done|].
  pose proof (instant_now_between w1) as Hc.
  destruct (instant_now w1) as [w2 now] eqn:Hi. assert (w2.2 = w1.2) as Hl by (cbn in Hi; by injection Hi as <- _).
  cbn in Hc.
  destruct (grace_loop_returns (W := W * list event) (fun pid => logged_forward pid (Hfwd pid)) 20 (now + DB_HOLDER_TERM_GRACE) DB_HOLDER_TERM_POLL rest1 o1 w2)
    as [[[w3 o3] rest3] Hg]; [unfold DB_HOLDER_TERM_POLL, MILLIS; lia| |].
  { unfold DB_HOLDER_TERM_GRACE, DB_HOLDER_TERM_POLL, from_secs, MILLIS. cbn. lia. }
  rewrite Hg. rewrite <- Hl in *. destruct (grace_loop_step targets _ _ _ _ _ _ _ _ _ Hj1 Ho1 Hr1 Hg) as (Hj3 & Ho3 & Hr3).
  destruct (kill_each rest3 o3 w3) as [[w4 log] o4] eqn:Hk.
  destruct (kill_each_step targets _ _ _ _ _ Hj3 Ho3 Hr3 Hk) as [Hj4 [Hs4 Hk4]].
  exists w4, log, o4. split_and!; try done. clear -Hj4. cbn in Hj4.
  induction Hj4 as [|l r Hj IH|l pid' Hj IH|l t r h sig' Hj IH Ht Hh Hm Hsig]; intros pid sig Hin.
  - by apply elem_of_nil in Hin.
  - apply elem_of_app in Hin as [Hin|Hin%list_elem_of_singleton]; [by eapply IH|done].
  - apply elem_of_app in Hin as [Hin|Hin%list_elem_of_singleton]; [by eapply IH|done].
  - apply elem_of_app in Hin as [Hin|[Heq|Heq%list_elem_of_singleton]%elem_of_cons]; [by eapply IH|done|].
    injection Heq as -> ->. destruct (planned_selected report t Ht) as (h0 & Hin0 & Hsel & ->).
    unfold selected in Hsel. apply andb_true_iff in Hsel as [? ?%negb_true_iff]. eauto.
Qed.

(** A failed remediation is still a lock error, so the budget is charged: the hint repeats
    the chain of the second error. *)
Lemma contains_concat needle sep x l : x ∈ l → contains needle x = true → contains needle (String.concat sep l) = true.
Proof.
  intros Hin Hx. induction l as [|y l IH]; [by apply elem_of_nil in Hin|]. apply elem_of_cons in Hin as [<-|Hin].
  - destruct l; [done|]. by apply contains_app.
  - destruct l as [|z l]; [by apply elem_of_nil in Hin|]. cbn [String.concat]. by apply contains_app_r, contains_app_r, IH.
Qed.

Lemma lock_message_within x s : (∀ needle, contains needle x = true → contains needle s = true) →
  is_sqlite_lock_message x = true → is_sqlite_lock_message s = true.
Proof. intros H. unfold is_sqlite_lock_message. rewrite !orb_true_iff. intros [[?|?]|?]; [left; left|left; right|right]; by apply H. Qed.

Lemma hint_is_lock_error db_path error first report pids errors : is_sqlite_lock_error error = true →
  is_sqlite_lock_error [format_db_lock_remediation_hint db_path
    (format_error_chain error +:+ "; initial error: " +:+ format_error_chain first) report pids errors] = true.
Proof.
  intros (x & Hin%list_elem_of_In & Hx)%existsb_exists. cbn [is_sqlite_lock_error existsb]. rewrite orb_false_r.
  apply (lock_message_within x); [|done]. intros needle Hn. unfold format_db_lock_remediation_hint.
  eapply contains_concat; [by left|]. apply contains_app_r, contains_app_r, contains_app_r, contains_app.
  by eapply contains_concat.
Qed.

(** *** A table of processes

    A stale server that ignores SIGTERM, an orphaned daemon that does not, and a process
    of someone else. *)
Module Table.
Record world := World { alive : list Z; clock_ns : Z }.

Definition scanned (pid : Z) (argv : list string) : proc_facts :=
  MkProc pid ["db"] argv (Some ("7 (mempal) S 1" +:+ " 0 0 0 0 0 0 0 0 0 0 0 0 0 0 0 0 0 250")).

Definition processes : list proc_facts :=
  [scanned 22 ["mempal"; "daemon"; "--foreground"]; scanned 11 ["/usr/bin/mempal"; "--config"; "x"; "serve"; "--mcp"];
   scanned 33 ["sqlite3"; "palace.db"]; scanned 99 ["mempal"; "daemon"]].

Definition scan (w : world) : DbHolderReport :=
  inspect_processes 99 (Some 22) "mempal" (Some 1000) 2000 100 false "palace.db"
    (List.filter (fun p => bool_decide (pf_pid p ∈ alive w)) processes).

#[export] Instance clock : Clock world := {
  instant_now w := (w, clock_ns w);
  sleep d w := World (alive w) (clock_ns w + Z.max d 0);
  time := clock_ns;
}.

#[export] Instance clock_laws : ClockLaws world.
Proof. split; intros; cbn; lia. Qed.

#[export] Instance ops : DbHolderProcessOps world := {
  inspect_holders w := (w, scan w);
  signal pid sig w :=
    (World (List.filter (fun p => negb ((p =? pid) && ((sig =? SIGKILL) || (pid =? 22)))) (alive w)) (clock_ns w), Ok tt);
  is_running pid w := (w, Ok (bool_decide (pid ∈ alive w)));
}.

Definition start : world := World [11; 22; 33; 99] 0.

Lemma only_stale_signalled_witness :
  ∃ w' log o,
    terminate_db_holder_targets (pl_terminate_targets (plan_stale_db_holder_remediation (scan start))) (start, [])
    = Some ((w', log), o)
    ∧ justified (pl_terminate_targets (plan_stale_db_holder_remediation (scan start))) log
    ∧ (∀ pid sig, EvSignal pid sig ∈ log →
         ∃ h, h ∈ hr_holders (scan start) ∧ hp_pid h = pid ∧ is_stale (hp_classification h) = true ∧ is_current h = false)
    ∧ Forall (fun pid => EvSignal pid SIGTERM ∈ log) (to_signaled o)
    ∧ Forall (fun pid => EvSignal pid SIGKILL ∈ log) (to_killed o).
Proof. apply (only_stale_signalled (scan start) start). intros pid w. cbn. lia. Defined.

Example both_removed :
  (fun '(w, o) => (alive w.1, clock_ns w.1, o)) <$>
    terminate_db_holder_targets (pl_terminate_targets (plan_stale_db_holder_remediation (scan start))) (start, [])
  = Some ([33; 99], from_secs 2, MkOutcome [11; 22] [11] []).
Proof. vm_compute. reflexivity. Qed.

(** Started before the boot time could be read, a reused pid has the planned identity. *)
Example unknown_start_matches :
  let h started := MkHolder 11 "mempal_mcp_server" "stale_mcp_server" "mempal serve" ["db"] started None false false false in
  matches_holder (from_holder (h None)) (h None) = true ∧ matches_holder (from_holder (h (Some 5))) (h None) = false.
Proof. split; reflexivity. Qed.
End Table.
End Remediation.

(** ** The announced wait is not the wait

    The lease is held for 400 s and its status cannot be read: the daemon, which announces
    a wait of at most 5 s, waits for all of them. *)
Module LateLease.
Import WriterWait.

Definition free_at : Z := from_secs 400.

Definition the_lease : RuntimeWriterLease :=
  {| rl_name := "sqlite-writer"; rl_owner := "d"; rl_generation := 2; rl_pid := 7; rl_boot_id := None;
     rl_session_id := "s"; rl_acquired_at := ""; rl_expires_at := ""; rl_heartbeat_at := ""; rl_mode := "daemon";
     rl_metadata_json := None; rl_remaining_secs := 120 |}.

#[local] Instance clock : Clock Z := { instant_now w := (w, w); sleep d w := w + Z.max d 0; time w := w }.

#[local] Instance host : LeaseHost Z := {
  acquire_for_daemon_start w := (w, Ok (if free_at <=? w then Some the_lease else None));
  lease_status w := (w, None);
  record_locked_fault w := w;
  renew_once w := (w, Ok true);
}.

#[local] Instance clock_laws : ClockLaws Z.
Proof. split; intros; cbn; lia. Qed.

Lemma start_waits_for_lease_witness : ∃ w' lease, acquire_daemon_writer_lease 4001 0 = Some (w', Ok lease).
Proof.
  apply (proj1 (LeaseWait.start_waits_for_lease 0%nat 0) free_at (Z.to_nat 4000)).
  - intros w. cbn. lia.
  - intros w. cbn. lia.
  - intros w _. by eexists _, _.
  - intros w Hw. exists w, the_lease. unfold acquire_for_daemon_start, host. destruct (Z.leb_spec free_at w); [done|].
    cbn in Hw. lia.
  - vm_compute. discriminate.
Defined.

Example waited_400_seconds : acquire_daemon_writer_lease 4001 0 = Some (free_at, Ok the_lease).
Proof. vm_compute. reflexivity. Qed.

(** With a wait of zero, which no caller passes, the refusal does come. *)
Example refused_without_a_wait :
  admission_wait_loop 1 0 DAEMON_WRITER_LEASE_ADMISSION_RETRY_DELAY None 0
  = Some (0, Err (DaemonWriterLeaseHeld "holder status unavailable")).
Proof. vm_compute. reflexivity. Qed.
End LateLease.
